(* ===== verification/_CoqProject ===== *)
-Q . S2P
Prelude.v
GoStrings.v
GoNet.v
GoUrl.v
CoreCircuit.v
GracefulCircuit.v
GracefulConn.v
Balancer.v
RouteTable.v
IngressProxy.v
Registry.v
TenantQueue.v
GoTime.v
GoScan.v
Scheduler.v
Http.v
KVStore.v
RateLimit.v
Sha256.v
GoCodec.v
Policy.v
Idempotency.v
Jwt.v
Access.v
Router.v
Users.v
Secrets.v
Totp.v
Login.v
Deploy.v
DeployPipeline.v
Webhooks.v
GoFloat.v
Autoscale.v
Monitor.v
Billing.v
Discovery.v
Storage.v
Backup.v
Leader.v
Swarm.v
Agent.v
Build.v
Cron.v
Apps.v
Hub.v
Dns.v
Notify.v
Market.v
Mcp.v
Migrate.v
EnvVars.v
Compose.v
Events.v
Topology.v
