(* ===== verification/Prelude.v ===== *)
(** * A verification of deploy-monster

    deploy-monster is a self-hosted platform in one Go binary: an HTTP API in
    front of a module registry, a reverse proxy that routes traffic to the
    containers of the tenants, the build and deployment of applications, agents on
    further servers, and what a platform needs around them: accounts, secrets,
    billing, backups, alerts, schedules.  This library models the parts that carry
    the program's own logic and proves what makes them correct.  Paths below are
    under [src/internal].

    ** The parts and how they interact

    A request to a tenant's site enters the reverse proxy ([ingress/proxy.go]).
    It asks the route table ([ingress/router.go]) for a route, drops the backends
    that drain or whose circuit is open ([deploy/graceful]), lets a load balancing
    strategy ([ingress/lb]) choose among the rest, and reports the outcome back to
    the circuit breakers and the connection counters.  Service discovery
    ([discovery]) keeps the route table in step with the labels of the containers.

    A request to the API passes the limiters and the idempotency layer
    ([api/middleware]), which keep their state in the key-value store ([db/kv.go]),
    then authentication, permissions and the other guards that the router
    ([api/router.go]) puts before each handler; tokens, one-time codes and
    sessions are [auth] and the sign-in handlers.  Behind them are the handlers of
    applications, domains, variables, deployments, webhooks, billing, backups and
    schedules, over the tables of [db], whose schema the migrations bring up to date.

    A deployment goes through the builder ([build]) with its per-tenant gate and
    worker pool, the deployment tables and the runtime ([deploy]), and can be
    rolled back by hand or automatically.  On other servers the same operations run
    through the agent protocol ([swarm]), whose master is chosen by a lease.  Stacks
    come from compose files ([compose]), which topologies compile to ([topology])
    and the marketplace offers.

    The registry ([core/registry.go]) starts the modules in dependency order;
    recurring work is dispatched by the scheduler ([core/scheduler.go]), which cron
    jobs and backups use; modules talk over the event bus ([core/events.go]), which
    feeds notifications, DNS synchronisation, webhooks and the live progress of
    deployments; outgoing calls are guarded by a circuit breaker and a retry helper.

    ** The files

    What is shared:
    - [Prelude]: results of fallible code, 64-bit and 32-bit wrap-around, finite
      sums and counting lemmas, the tactics and the hint databases.
    - [GoStrings], [GoNet], [GoUrl], [GoTime], [GoScan], [GoFloat], [GoCodec],
      [Http], [Sha256]: what the sources use of Go's [strings], [strconv], [fmt],
      [net], [net/url], [time], float64 arithmetic, [encoding/base64],
      [encoding/hex], [net/http], [crypto/sha256] and [crypto/hmac], executable.

    Traffic:
    - [CoreCircuit]: [core/circuitbreaker.go].  [Execute] is [beforeCall], the
      guarded function, [afterCall]; the mutex is free while the function runs,
      so calls interleave.
    - [GracefulCircuit], [GracefulConn]: [deploy/graceful], the breaker per backend,
      the connection counters and the drain of a container.
    - [Balancer]: [ingress/lb], the five strategies as instances of the class
      [Strategy]; [StrategyLaws] is what the proxy relies on.
    - [RouteTable]: [ingress/router.go] on immutable snapshots.
    - [IngressProxy]: [ingress/proxy.go] and the counters of [metrics.go]; client
      of the four files above and of [GoUrl].  A handler advances one access to
      shared state at a time (the match, each backend's two checks, the choice, the
      counters), and a ghost past of the shared state says what it looked at.
    - [Discovery]: [discovery], labels, synchronisation and health checks.

    Core:
    - [Registry]: [core/registry.go].  [Scheduler]: [core/scheduler.go] with shared
      job records, handler goroutines and shutdown.  [Events]: [core/events.go].
    - [KVStore]: [db/kv.go]; the class [KVStorer] is the store's interface, the
      class [KVLaws] what its clients rely on, discharged for the SQLite store.
    - [Migrate]: the schema migrations of [db/sqlite.go] and [db/postgres.go].

    The API and its guards:
    - [RateLimit], [Idempotency]: [api/middleware], clients of [KVLaws].
    - [Policy]: command checks, retries and configuration checks
      ([core/command_safety.go], [core/retry.go], [core/validate.go]).
      [Access]: the guards of the API.  [Router]: the table of [api/router.go].
    - [Jwt], [Totp], [Login]: [auth] and the handlers of sign-in and sessions.
    - [Users]: the accounts, memberships, tenants and invitations of [db], with
      foreign keys enforced or not.
    - [Secrets]: [secrets], the vault with its keys and references.
    - [Apps], [EnvVars]: applications, domains and variables.  [Mcp]: the tools of
      [mcp], over the tables of [Apps].
    - [Webhooks]: [webhooks] and the outbound hooks.  [Billing]: [billing].  Both
      handlers are split at their accesses to the table of deliveries seen, so copies
      of one delivery interleave.
    - [Hub]: [api/ws/deploy.go], connections and broadcasts as threads.

    Deployment and operation:
    - [TenantQueue], [Build]: [build], each submission and worker a program counter.
    - [Deploy], [DeployPipeline]: [deploy] and [handlers/deploy_pipeline.go].
    - [Compose]: [compose] after the YAML library.  [Topology]: [topology].
      [Market]: [marketplace].
    - [Swarm], [Agent], [Leader]: [swarm], the master as a step relation, the agent
      and the two node executors with the passage of payloads through [any] and
      float64 and the frame limit, the lease of [db/postgres.go], whose renewal is two
      statements.
    - [Autoscale], [Monitor]: [autoscale] and [resource].
    - [Storage], [Backup]: [backup], storage and scheduler.  [Cron]: [cron].
    - [Dns], [Notify]: [dns] and [notifications].

    ** What the theorems show

    - Routing: every history of writers refines updates of a finite map
      ([route_table_refines_map]); [Match] returns a best matching route.
    - Balancing: smooth weighted round robin is exact over whole cycles and never
      far ahead of a backend's share.
    - Proxying, for any strategy and any interleaving: a request only goes to a
      backend of the route it matched that was neither draining nor open when it
      looked, refusals and connection counts are exact.
    - Circuit breakers and drains: invariants over interleaved calls, exact
      thresholds, recovery; a drain ends and leaves no mark.
    - Start-up: [Resolve] always ends, yields a topological order or an error whose
      reason holds.  Migrations that failed anywhere are made good by the next start
      ([migration_resumes]); rolling back undoes them ([rollback_undoes_migrate]).
    - Scheduler and cron: a tick dispatches exactly what is due, stop is final, the
      scheduler follows the stored jobs.
    - Store: round trip with expiry, batches are atomic under every failure.
    - Limiters: each outcome is that of a fixed-window counter of one client.
    - Idempotency: exactly-once execution of concurrent duplicates.
    - Access: every mutation needs its permission and every administrative route
      the super administrator ([mutations_need_permission],
      [admin_routes_need_super_admin]); failed guesses are bounded and refresh tokens
      work once while the key-value store does; a user belongs to one team, never
      gains a membership later, and an invitation is accepted once
      ([membership_is_final]); rotating keys keeps every secret.
    - Applications: no request touches the rows of another tenant
      ([requests_stay_in_tenant]), a bulk rollback restores every row, exports and
      variables come back exactly when nothing had to be escaped
      ([dotenv_round_trip_exact]), a tool call writes one row at most.
    - Deployment: a failed deployment or rollback leaves the old version running,
      versions are numbered without gaps, git only runs on public hosts,
      Dockerfiles stay in their context, caps hold in every reachable state of the
      build gate and no submission waits for ever.
    - Swarm: an answer reaches the request it belongs to and no request outlives
      its agent ([answers_reach_their_requests], [no_request_waits_for_a_lost_agent]);
      the remote executor refines the local one for what survives the passage
      ([remote_executor_refines_local]); a lease renewed in time excludes every other
      leader.
    - Messages: events are delivered in order to exactly the matching
      subscriptions, a webhook delivery and a payment event take effect once after
      they were recorded,
      alerts are the edges of their conditions, DNS jobs are tried at most three
      times, a hub that closes drains.
    - Compose and topology: a stack is deployed completely or, but for a container
      that was created and did not start, not at all;
      validation is sound and complete.
    - Deviations, also as theorems, among them: [failed_retries_exhaust_pool],
      [noretry_probe_wedges], [open_circuit_never_recovers],
      [real_ip_header_evades_limit], [shared_variable_gets_last_database],
      [wildcard_needs_no_dot], [deploy_tools_always_fail],
      [domain_records_have_no_address], [alerts_are_never_mailed],
      [missing_down_blocks_rollback], [ssh_shorthand_never_clones],
      [stale_renewal_reports_leadership], [multicast_is_not_blocked],
      [failed_listing_replaces_salt], [stale_update_reverts_cancellation]; and as
      examples [large_numbers_change], [lockout_fails_open],
      [overlapping_copies_both_published], [overlapping_copies_both_apply],
      [unstarted_container_stays], [readded_job_runs_twice].

    ** Conventions and bounds

    - Concurrency: each critical section, channel operation, store access or call
      of foreign code is one atomic step of a step function or relation; theorems
      quantify over interleavings or over its reflexive transitive closure.
      Handlers, guarded functions, upstreams and the container runtime are the
      environment: they do anything their interface allows.
    - Go's [int] and [int64] are [Z] with the wrap-around written out ([i64],
      [u64], [u32]) where overflow can matter.  An instant is its number of
      nanoseconds since Go's zero time, a duration its number of nanoseconds.
      Clock readings, random draws, generated identifiers and the iteration order
      of Go maps are arguments.  The wall clock belongs to a location with a fixed
      offset.
    - [sort.Slice] is a parameter with its documented contract where stability
      matters; a merge sort shows that the contract can be met.  The YAML and JSON
      libraries, SQL scripts, the container runtime, git, SMTP and HTTP exchanges
      and the result of converting a float64 out of range to an integer are
      parameters too.
    - A statement of the database may fail at any point: an argument says which
      do, and a transaction that does not commit changes nothing.
    - Fuel: [Registry.visit] gets one more than the number of modules and
      [Compose.visit] one more than the number of names, the length of the
      longest path without a repetition; both are proved to be enough.
      [ParseDuration], the padding of SHA-256, the cutting of text, the runes of
      a value and the frames of the agent protocol get the length of their input,
      which every round shortens.

    ** Not modelled, and why

    SQL text beyond the statements named and the Postgres twin of the store, which
    the database executes; handlers that decode a request and delegate (servers,
    observability, administration, topology editing, application features); the
    clients of server providers and code hosts, the managed databases and the
    enterprise module, which are requests and data; the Docker client behind the
    runtime interface; TLS and ACME; encryption libraries; loading of the
    configuration, logging and the program's wiring; the built-in templates; the
    web interface.  Of the modelled parts: the text format of the metrics, the
    decoding of legacy API-key rows, response headers other than the cached
    content type, certificate uploads, and a panic inside a synchronous event
    handler. *)

(** ** Prelude *)

From stdpp Require Export base tactics list numbers strings gmap sorting relations.
From Stdlib Require Export Lia ZArith.

#[global] Open Scope Z_scope.

(** ** Results of fallible Go code: the pair [(value, error)] as a sum. *)

Inductive result (E A : Type) : Type :=
| Ok (a : A)
| Err (e : E).
Arguments Ok {E A} a.
Arguments Err {E A} e.

Declare Scope go_scope.
Delimit Scope go_scope with go.

Notation "x '←!' c ; k" :=
  (match c with Ok x => k | Err e => Err e end)
  (at level 100, c at next level, k at level 200, right associativity) : go_scope.
#[global] Open Scope go_scope.

Definition is_ok {E A} (r : result E A) : bool :=
  match r with Ok _ => true | Err _ => false end.

(** ** Machine integers

    Go's [int] and [int64] are 64-bit two's complement, [uint64] and [uint32]
    wrap modulo their width. *)

Definition max_int64 : Z := 2 ^ 63 - 1.
Definition min_int64 : Z := - 2 ^ 63.
Definition i64 (z : Z) : Z := (z + 2 ^ 63) mod 2 ^ 64 - 2 ^ 63.
Definition u64 (z : Z) : Z := z mod 2 ^ 64.
Definition u32 (z : Z) : Z := z mod 2 ^ 32.

Definition in_i64 (z : Z) : Prop := min_int64 ≤ z ≤ max_int64.

Lemma i64_id z : in_i64 z → i64 z = z.
Proof.
  unfold in_i64, min_int64, max_int64, i64. intros H.
  rewrite Z.mod_small by lia. lia.
Qed.

Lemma i64_range z : in_i64 (i64 z).
Proof.
  unfold in_i64, min_int64, max_int64, i64.
  pose proof (Z.mod_pos_bound (z + 2 ^ 63) (2 ^ 64) ltac:(lia)). lia.
Qed.

Lemma u64_range z : 0 ≤ u64 z < 2 ^ 64.
Proof. apply Z.mod_pos_bound. lia. Qed.

Lemma u32_range z : 0 ≤ u32 z < 2 ^ 32.
Proof. apply Z.mod_pos_bound. lia. Qed.

Lemma u64_id z : 0 ≤ z < 2 ^ 64 → u64 z = z.
Proof. apply Z.mod_small. Qed.

(** Go's [len] as an integer. *)
Abbreviation zlen l := (Z.of_nat (length l)) (only parsing).

(** Reduces a wrapped expression whose bounds [lia] can establish. *)
Ltac wrap_id :=
  repeat match goal with
  | |- context [i64 ?z] =>
      rewrite (i64_id z) by (unfold in_i64, min_int64, max_int64 in *; lia)
  | H : context [i64 ?z] |- _ =>
      rewrite (i64_id z) in H by (unfold in_i64, min_int64, max_int64 in *; lia)
  end.

(** ** Time

    An instant is the number of nanoseconds since Go's zero time
    (January 1, year 1, UTC), so that [time.Time{}] is [0].  [Time.Sub]
    saturates at the bounds of [time.Duration], an [int64] of nanoseconds. *)

Definition instant : Type := Z.
Definition duration : Type := Z.

Definition zero_time : instant := 0.
Definition Nanosecond : duration := 1.
Definition Millisecond : duration := 1000000.
Definition Second : duration := 1000000000.
Definition Minute : duration := 60 * Second.
Definition Hour : duration := 60 * Minute.

Definition time_sub (t u : instant) : duration :=
  Z.min max_int64 (Z.max min_int64 (t - u)).

(** Seconds between the zero time and the Unix epoch. *)
Definition unix_epoch_s : Z := 62135596800.
Definition time_unix (t : instant) : Z := t / Second - unix_epoch_s.

Lemma time_sub_ge t u d : d ≤ max_int64 → (d ≤ t - u → d ≤ time_sub t u).
Proof. unfold time_sub. lia. Qed.

Lemma time_sub_lt t u d : min_int64 < d → t - u < d → time_sub t u < d.
Proof. unfold time_sub. lia. Qed.

(** ** Decision of boolean tests *)

(** Splits every [if] whose condition is an integer or boolean comparison. *)
Ltac split_ifs :=
  repeat match goal with
  | |- context [if ?b then _ else _] =>
      lazymatch b with
      | context [if _ then _ else _] => fail
      | context [match _ with _ => _ end] => fail
      | _ => let E := fresh "E" in destruct b eqn:E
      end
  | H : context [if ?b then _ else _] |- _ =>
      lazymatch b with
      | context [if _ then _ else _] => fail
      | context [match _ with _ => _ end] => fail
      | _ => let E := fresh "E" in destruct b eqn:E
      end
  end.

Create HintDb go.
Create Rewrite HintDb gob.
#[export] Hint Rewrite Z.leb_le Z.leb_gt Z.ltb_lt Z.ltb_ge Z.eqb_eq Z.eqb_neq
  Z.geb_leb Z.gtb_ltb andb_true_iff andb_false_iff orb_true_iff orb_false_iff
  negb_true_iff negb_false_iff bool_decide_eq_true bool_decide_eq_false : gob.

(** Turns boolean hypotheses about integers into propositions. *)
Ltac bools := autorewrite with gob in *.

(** ** Sums over lists *)

Definition zsum {A} (f : A → Z) (l : list A) : Z := foldr (λ x acc, f x + acc) 0 l.

Section zsum.
Context {A : Type}.
Implicit Types (f g : A → Z) (l : list A).

Lemma zsum_ext f g l : (∀ x, x ∈ l → f x = g x) → zsum f l = zsum g l.
Proof. induction l; simpl; intros H; [done|]. rewrite H, IHl; set_solver. Qed.

Lemma zsum_add f g l : zsum (λ x, f x + g x) l = zsum f l + zsum g l.
Proof. induction l; simpl; lia. Qed.

Lemma zsum_scale k f l : zsum (λ x, k * f x) l = k * zsum f l.
Proof. induction l; simpl; lia. Qed.

Lemma zsum_app f l1 l2 : zsum f (l1 ++ l2) = zsum f l1 + zsum f l2.
Proof. induction l1; simpl; lia. Qed.

Lemma zsum_nonneg f l : (∀ x, x ∈ l → 0 ≤ f x) → 0 ≤ zsum f l.
Proof.
  induction l as [|a l IH]; simpl; intros H; [lia|].
  assert (0 ≤ f a) by (apply H; left). assert (0 ≤ zsum f l) by (apply IH; set_solver). lia.
Qed.

Lemma zsum_ge_elem f l x : (∀ y, y ∈ l → 0 ≤ f y) → x ∈ l → f x ≤ zsum f l.
Proof.
  induction l as [|a l IH]; simpl; intros H Hx; [by apply elem_of_nil in Hx|].
  assert (0 ≤ f a) by (apply H; left).
  assert (0 ≤ zsum f l) by (apply zsum_nonneg; set_solver).
  apply elem_of_cons in Hx as [->|Hx]; [lia|]. specialize (IH ltac:(set_solver) Hx). lia.
Qed.

Lemma zsum_zero f l : (∀ x, x ∈ l → 0 ≤ f x) → zsum f l = 0 → ∀ x, x ∈ l → f x = 0.
Proof.
  intros Hn Hz x Hx. pose proof (zsum_ge_elem f l x Hn Hx). specialize (Hn x Hx). lia.
Qed.

Lemma zsum_pos_exists f l : 0 < zsum f l → ∃ x, x ∈ l ∧ 0 < f x.
Proof.
  induction l as [|a l IH]; simpl; intros H; [lia|].
  destruct (decide (0 < f a)); [exists a; split; [left|done]|].
  destruct IH as (x & ? & ?); [lia|]. exists x. split; [by right|done].
Qed.

Lemma zsum_lower f l c : (∀ x, x ∈ l → c ≤ f x) → c * zlen l ≤ zsum f l.
Proof.
  induction l as [|a l IH]; intros H; [simpl; lia|]. cbn [zsum foldr length].
  assert (c ≤ f a) by (apply H; left). specialize (IH ltac:(set_solver)).
  change (foldr _ 0 l) with (zsum f l). lia.
Qed.

Lemma zsum_indicator `{EqDecision A} x c l :
  NoDup l → x ∈ l → zsum (λ y, if decide (y = x) then c else 0) l = c.
Proof.
  induction 1 as [|a l Ha Hl IH]; intros Hx; [by apply elem_of_nil in Hx|]. simpl.
  apply elem_of_cons in Hx as [->|Hx].
  - rewrite decide_True by done. rewrite (zsum_ext _ (λ _, 0)).
    + enough (zsum (λ _ : A, 0) l = 0) by lia. clear. induction l; simpl; lia.
    + intros y Hy. rewrite decide_False; [done|congruence].
  - rewrite decide_False by congruence. by rewrite IH.
Qed.

End zsum.

Lemma zsum_fmap {A B} (f : B → Z) (g : A → B) l : zsum f (g <$> l) = zsum (λ x, f (g x)) l.
Proof. induction l as [|a l IH]; [done|]. rewrite fmap_cons. unfold zsum in *. cbn [foldr]. by rewrite IH. Qed.

(** ** Lists *)

Lemma filter_keeps_all {A} (P : A → Prop) `{∀ x, Decision (P x)} (l : list A) :
  Forall P l → filter P l = l.
Proof. induction 1 as [|x l Hx Hl IH]; [done|]. by rewrite filter_cons_True, IH. Qed.

Lemma filter_nil_iff {A} (P : A → Prop) `{∀ x, Decision (P x)} (l : list A) :
  filter P l = [] ↔ ∀ x, x ∈ l → ¬ P x.
Proof.
  split.
  - intros Hf x Hx HP. apply (not_elem_of_nil x). rewrite <-Hf. by apply list_elem_of_filter.
  - intros Hn. destruct (filter P l) as [|x k] eqn:E; [done|].
    assert (Hx : x ∈ filter P l) by (rewrite E; left).
    apply list_elem_of_filter in Hx as [HP Hin]. by apply Hn in Hin.
Qed.

Lemma zsum_cons {A} (f : A → Z) x (l : list A) : zsum f (x :: l) = f x + zsum f l.
Proof. done. Qed.

Lemma zsum_insert {A} (f : A → Z) (l : list A) j x y :
  l !! j = Some x → zsum f (<[j := y]> l) = zsum f l - f x + f y.
Proof.
  revert j. induction l as [|a l IH]; intros [|j] H; [done..| |].
  - injection H as ->. change (<[0%nat:=y]> (x :: l)) with (y :: l). rewrite !zsum_cons. lia.
  - change (<[S j:=y]> (a :: l)) with (a :: <[j:=y]> l). rewrite !zsum_cons, (IH j H). lia.
Qed.

Lemma zsum_le {A} (f g : A → Z) (l : list A) : (∀ x, f x ≤ g x) → zsum f l ≤ zsum g l.
Proof.
  intros H. induction l as [|a l IH]; [done|]. rewrite !zsum_cons. specialize (H a). lia.
Qed.
