(* ===== verification/GoStrings.v ===== *)
(** * GoStrings: the part of Go's [strings] and [strconv] the sources use

    A Go string is a sequence of bytes: [string] here is Stdlib's, a sequence of
    8-bit characters.  The functions work on the list of bytes. *)

From Stdlib Require Export Ascii.
From stdpp Require Export pretty.
From S2P Require Import Prelude.
#[local] Open Scope Z_scope.

Definition bytes (s : string) : list ascii := String.list_ascii_of_string s.
Definition str (l : list ascii) : string := String.string_of_list_ascii l.

Lemma str_bytes s : str (bytes s) = s.
Proof. apply String.string_of_list_ascii_of_string. Qed.

Lemma bytes_str l : bytes (str l) = l.
Proof. apply String.list_ascii_of_string_of_list_ascii. Qed.

Lemma bytes_inj s t : bytes s = bytes t → s = t.
Proof. intros H. by rewrite <-(str_bytes s), <-(str_bytes t), H. Qed.

Lemma bytes_app s t : bytes (s +:+ t) = bytes s ++ bytes t.
Proof. induction s as [|c s IH]; [done|]. exact (f_equal (cons c) IH). Qed.

Lemma str_app_assoc (a b c : string) : ((a +:+ b) +:+ c) = (a +:+ (b +:+ c)).
Proof. apply bytes_inj. by rewrite !bytes_app, app_assoc. Qed.

Lemma bytes_nil s : bytes s = [] ↔ s = "".
Proof. split; [|by intros ->]. intros H. by apply bytes_inj. Qed.

#[export] Hint Rewrite str_bytes bytes_str bytes_app : gob.

(** [len(s)] *)
Definition slen (s : string) : nat := length (bytes s).

(** [strings.HasPrefix], [strings.HasSuffix] *)
Definition HasPrefix (s p : string) : bool := bool_decide (bytes p `prefix_of` bytes s).
Definition HasSuffix (s p : string) : bool := bool_decide (bytes p `suffix_of` bytes s).

(** [strings.TrimPrefix] *)
Definition TrimPrefix (s p : string) : string :=
  if HasPrefix s p then str (drop (slen p) (bytes s)) else s.

(** [strings.TrimSuffix] *)
Definition TrimSuffix (s p : string) : string :=
  if HasSuffix s p then str (take (slen s - slen p) (bytes s)) else s.

(** [strings.Index] on bytes; [None] is -1. *)
Fixpoint index_of (sub l : list ascii) : option nat :=
  if decide (sub `prefix_of` l) then Some 0%nat
  else match l with [] => None | _ :: l' => S <$> index_of sub l' end.

Definition Index (s sub : string) : option nat := index_of (bytes sub) (bytes s).
Definition Contains (s sub : string) : bool := bool_decide (is_Some (Index s sub)).

(** The last index of a byte. *)
Definition last_index (c : ascii) (l : list ascii) : option nat :=
  match index_of [c] (reverse l) with
  | Some i => Some (length l - 1 - i)%nat
  | None => None
  end.

(** [strings.Count] of a one-byte separator. *)
Definition count_byte (c : ascii) (l : list ascii) : nat := length (filter (λ x, x = c) l).

(** [strings.Split] at a one-byte separator: never empty. *)
Fixpoint split_on (c : ascii) (l : list ascii) : list (list ascii) :=
  match l with
  | [] => [[]]
  | x :: l' =>
      if decide (x = c) then [] :: split_on c l'
      else match split_on c l' with
           | [] => [[x]]
           | w :: ws => (x :: w) :: ws
           end
  end.

Definition Split (s : string) (c : ascii) : list string := str <$> split_on c (bytes s).

(** [strings.SplitN(s, sep, 2)[0]]: everything before the first separator. *)
Definition before_first (c : ascii) (l : list ascii) : list ascii :=
  match index_of [c] l with Some i => take i l | None => l end.

(** [strings.Join] *)
Fixpoint Join (l : list string) (sep : string) : string :=
  match l with
  | [] => ""
  | [s] => s
  | s :: l' => s +:+ sep +:+ Join l' sep
  end.

(** The white space of [unicode.IsSpace], as UTF-8 byte sequences: the ASCII
    space characters, U+0085, U+00A0, U+1680, U+2000..U+200A, U+2028, U+2029,
    U+202F, U+205F and U+3000. *)
Definition byte (n : nat) : ascii := Ascii.ascii_of_nat n.
Definition space_seqs : list (list ascii) :=
  (λ n, [byte n]) <$> [9; 10; 11; 12; 13; 32]%nat.
Definition space_seqs_wide : list (list ascii) :=
  [ [byte 194; byte 133]; [byte 194; byte 160]; [byte 225; byte 154; byte 128];
    [byte 226; byte 128; byte 168]; [byte 226; byte 128; byte 169];
    [byte 226; byte 128; byte 175]; [byte 226; byte 129; byte 159];
    [byte 227; byte 128; byte 128] ] ++
  ((λ n, [byte 226; byte 128; byte (128 + n)]) <$> seq 0 11).

Definition all_spaces : list (list ascii) := space_seqs ++ space_seqs_wide.

(** Removes leading white space; [fuel] is the number of bytes. *)
Fixpoint trim_left (fuel : nat) (l : list ascii) : list ascii :=
  match fuel with
  | O => l
  | S fuel =>
      match list_find (λ p, p `prefix_of` l) all_spaces with
      | Some (_, p) => trim_left fuel (drop (length p) l)
      | None => l
      end
  end.

Fixpoint trim_right (fuel : nat) (l : list ascii) : list ascii :=
  match fuel with
  | O => l
  | S fuel =>
      match list_find (λ p, p `suffix_of` l) all_spaces with
      | Some (_, p) => trim_right fuel (take (length l - length p) l)
      | None => l
      end
  end.

(** [strings.TrimSpace] *)
Definition TrimSpace (s : string) : string :=
  let l := bytes s in
  let l := trim_left (length l) l in
  str (trim_right (length l) l).

(** [strings.TrimRight] *)
Fixpoint drop_set (cutset l : list ascii) : list ascii :=
  match l with
  | c :: r => if decide (c ∈ cutset) then drop_set cutset r else l
  | [] => []
  end.
Definition TrimRight (s cutset : string) : string :=
  str (reverse (drop_set (bytes cutset) (reverse (bytes s)))).

(** ** Decimal numbers *)

Definition digit_val (c : ascii) : option Z :=
  let n := Z.of_nat (Ascii.nat_of_ascii c) in
  if (48 <=? n) && (n <=? 57) then Some (n - 48) else None.

Fixpoint digits_val (acc : Z) (l : list ascii) : option Z :=
  match l with
  | [] => Some acc
  | c :: l' => match digit_val c with
               | Some d => digits_val (acc * 10 + d) l'
               | None => None
               end
  end.

(** [strconv.Atoi]: an optional sign, at least one digit, nothing else, and a
    value that fits 64 bits. *)
Definition Atoi (s : string) : option Z :=
  let go sg l := match l with
                 | [] => None
                 | _ => v ← digits_val 0 l;
                        if (min_int64 <=? sg * v) && (sg * v <=? max_int64)
                        then Some (sg * v) else None
                 end in
  match bytes s with
  | "-"%char :: l => go (-1) l
  | "+"%char :: l => go 1 l
  | l => go 1 l
  end.

(** [fmt.Sprintf] of an integer with [%d]. *)
Definition itoa (z : Z) : string := pretty z.

(** ** Lemmas *)

Lemma HasPrefix_spec s p : HasPrefix s p = true ↔ ∃ r, s = p +:+ r.
Proof.
  unfold HasPrefix. rewrite bool_decide_eq_true. split.
  - intros [k Hk]. exists (str k). apply bytes_inj. by rewrite bytes_app, bytes_str.
  - intros [r ->]. exists (bytes r). apply bytes_app.
Qed.

Lemma HasSuffix_spec s p : HasSuffix s p = true ↔ ∃ r, s = r +:+ p.
Proof.
  unfold HasSuffix. rewrite bool_decide_eq_true. split.
  - intros [k Hk]. exists (str k). apply bytes_inj. by rewrite bytes_app, bytes_str.
  - intros [r ->]. exists (bytes r). apply bytes_app.
Qed.

Lemma TrimPrefix_app p r : TrimPrefix (p +:+ r) p = r.
Proof.
  unfold TrimPrefix. rewrite (proj2 (HasPrefix_spec _ _)) by eauto.
  unfold slen. by rewrite bytes_app, drop_app_length, str_bytes.
Qed.

Lemma TrimSuffix_app p r : TrimSuffix (p +:+ r) r = p.
Proof.
  unfold TrimSuffix. rewrite (proj2 (HasSuffix_spec _ _)) by eauto.
  unfold slen. by rewrite bytes_app, length_app, Nat.add_sub, take_app_length, str_bytes.
Qed.

Lemma index_of_Some sub l i :
  index_of sub l = Some i →
  sub `prefix_of` drop i l ∧ ∀ j, (j < i)%nat → ¬ sub `prefix_of` drop j l.
Proof.
  revert i. induction l as [|x l IH]; intros i; cbn [index_of].
  - case_decide; [|done]. intros [= <-]. split; [done|lia].
  - case_decide as Hd; [intros [= <-]; split; [done|lia]|].
    destruct (index_of sub l) as [i'|]; [|done]. intros [= <-].
    destruct (IH i' eq_refl) as [H1 H2]. split; [done|].
    intros [|j] Hj; [done|]. apply H2. lia.
Qed.

Lemma index_of_None sub l : index_of sub l = None → ∀ j, ¬ sub `prefix_of` drop j l.
Proof.
  induction l as [|x l IH]; cbn [index_of]; case_decide as Hd; try done.
  - intros _ [|j]; done.
  - destruct (index_of sub l); [done|]. intros _ [|j]; [done|]. by apply IH.
Qed.

Lemma split_on_nonempty c l : split_on c l ≠ [].
Proof. destruct l; simpl; [done|]. repeat case_match; done. Qed.

(** Joining the fields again gives the input. *)
Fixpoint join_bytes (c : ascii) (ws : list (list ascii)) : list ascii :=
  match ws with
  | [] => []
  | [w] => w
  | w :: ws' => w ++ c :: join_bytes c ws'
  end.

Lemma join_split c l : join_bytes c (split_on c l) = l.
Proof.
  induction l as [|x l IH]; [done|]. simpl. pose proof (split_on_nonempty c l) as Hne.
  case_decide as Hx; [subst|].
  - destruct (split_on c l) eqn:E; [done|]. by rewrite <-IH.
  - destruct (split_on c l) as [|w ws] eqn:E; [done|]. rewrite <-IH. by destruct ws.
Qed.

Lemma split_on_fields c l : Forall (λ w, c ∉ w) (split_on c l).
Proof.
  induction l as [|x l IH]; simpl; [repeat constructor; apply not_elem_of_nil|].
  case_decide as Hx; [constructor; [apply not_elem_of_nil|done]|].
  pose proof (split_on_nonempty c l). destruct (split_on c l) as [|w ws]; [done|].
  apply Forall_cons in IH as [Hw Hws]. constructor; [|done]. set_solver.
Qed.

Lemma split_join c ws :
  ws ≠ [] → Forall (λ w, c ∉ w) ws → split_on c (join_bytes c ws) = ws.
Proof.
  assert (Happ : ∀ w l, c ∉ w → split_on c (w ++ c :: l) = w :: split_on c l).
  { induction w as [|x w IH]; intros l Hw; simpl; [by rewrite decide_True|].
    apply not_elem_of_cons in Hw as [Hx Hw].
    rewrite decide_False by done. by rewrite IH. }
  assert (Hone : ∀ w, c ∉ w → split_on c w = [w]).
  { induction w as [|x w IH]; intros Hw; simpl; [done|].
    apply not_elem_of_cons in Hw as [Hx Hw].
    rewrite decide_False by done. by rewrite IH. }
  intros Hne H. induction H as [|w ws Hw Hws IH]; [done|].
  destruct ws as [|w' ws]; [by apply Hone|].
  change (join_bytes c (w :: w' :: ws)) with (w ++ c :: join_bytes c (w' :: ws)).
  rewrite Happ by done. f_equal. by apply IH.
Qed.

Example TrimSpace_ex : TrimSpace "  08:30 " = "08:30".
Proof. reflexivity. Qed.

Example Atoi_ex : (Atoi "-42", Atoi "4x", Atoi "", Atoi "9223372036854775808") =
  (Some (-42), None, None, None).
Proof. reflexivity. Qed.

(** ** Case mapping

    ASCII letters, and the non-ASCII letters whose other case is ASCII (long s,
    dotless i, dotted I, the Kelvin sign); other letters stay as they are, which a
    comparison with ASCII text cannot observe. *)

Definition ascii_upper (c : ascii) : ascii :=
  let n := Ascii.nat_of_ascii c in
  if decide (97 ≤ n ≤ 122)%nat then byte (n - 32) else c.
Definition ascii_lower (c : ascii) : ascii :=
  let n := Ascii.nat_of_ascii c in
  if decide (65 ≤ n ≤ 90)%nat then byte (n + 32) else c.

(** Replaces byte sequences, leftmost first, and maps the other bytes. *)
Fixpoint map_bytes (special : list (list ascii * list ascii)) (f : ascii → ascii) (skip : nat)
    (l : list ascii) : list ascii :=
  match l with
  | [] => []
  | c :: r =>
      match skip with
      | S k => map_bytes special f k r
      | O => match list_find (λ p : list ascii * list ascii, p.1 `prefix_of` l) special with
             | Some (_, (from, to)) => to ++ map_bytes special f (length from - 1) r
             | None => f c :: map_bytes special f 0 r
             end
      end
  end.

Definition ToUpper (s : string) : string :=
  str (map_bytes [([byte 197; byte 191], ["S"%char]); ([byte 196; byte 177], ["I"%char])]
         ascii_upper 0 (bytes s)).
Definition ToLower (s : string) : string :=
  str (map_bytes [([byte 226; byte 132; byte 170], ["k"%char]); ([byte 196; byte 176], ["i"%char])]
         ascii_lower 0 (bytes s)).

Example ToUpper_ex : ToUpper "db_Pass1" = "DB_PASS1".
Proof. reflexivity. Qed.

(** Splits at the first occurrence of a separator, as [SplitN(s, sep, 2)]. *)
Definition cut (s : string) (c : ascii) : string * option string :=
  match index_of [c] (bytes s) with
  | Some i => (str (take i (bytes s)), Some (str (drop (i + 1) (bytes s))))
  | None => (s, None)
  end.

(** ** Printable and plain text: printable ASCII is not changed by trimming, nor by a
    change to the case it is in; decimal numbers are plain. *)

Definition printable (c : ascii) : Prop := (33 ≤ Ascii.nat_of_ascii c < 127)%nat.
#[export] Instance printable_dec c : Decision (printable c).
Proof. unfold printable. apply _. Defined.

Definition plain (c : ascii) : Prop :=
  (33 ≤ Ascii.nat_of_ascii c < 65 ∨ 91 ≤ Ascii.nat_of_ascii c < 127)%nat.
#[export] Instance plain_dec c : Decision (plain c).
Proof. unfold plain. apply _. Defined.

Lemma plain_printable c : plain c → printable c.
Proof. unfold plain, printable. lia. Qed.

Lemma list_find_printable {A} (f : A → list ascii) P `{∀ x, Decision (P x)} (l : list A) :
  (∀ x, P x → Forall printable (f x)) → Forall (λ x, ¬ Forall printable (f x)) l → list_find P l = None.
Proof.
  intros HP Hl. apply list_find_None. eapply Forall_impl; [exact Hl|]. intros x Hx Hp. by apply Hx, HP.
Qed.

Lemma spaces_not_printable : Forall (λ p, ¬ Forall printable p) all_spaces.
Proof. apply (bool_decide_unpack _). vm_compute. exact I. Qed.

Lemma TrimSpace_printable s : Forall printable (bytes s) → TrimSpace s = s.
Proof.
  intros Hs. unfold TrimSpace.
  assert (∀ n, trim_left n (bytes s) = bytes s) as ->.
  { intros [|n]; cbn [trim_left]; [done|].
    rewrite (list_find_printable id); [done|intros p [k Hk]|exact spaces_not_printable].
    rewrite Hk in Hs. by apply Forall_app in Hs as []. }
  rewrite <-(str_bytes s) at 3. f_equal. generalize (length (bytes s)). intros [|n]; cbn [trim_right]; [done|].
  rewrite (list_find_printable id); [done|intros p [k Hk]|exact spaces_not_printable].
  rewrite Hk in Hs. by apply Forall_app in Hs as [].
Qed.

Lemma TrimSpace_plain s : Forall plain (bytes s) → TrimSpace s = s.
Proof. intros Hs. apply TrimSpace_printable. eapply Forall_impl; [exact Hs|apply plain_printable]. Qed.

(** A case mapping that fixes every byte of a printable text fixes the text. *)
Lemma map_bytes_fixed special f l :
  Forall (λ p : list ascii * list ascii, ¬ Forall printable p.1) special → Forall printable l →
  Forall (λ c, f c = c) l → map_bytes special f 0 l = l.
Proof.
  intros Hsp Hl Hf. induction Hl as [|c l Hc Hl IH]; [done|]. apply Forall_cons in Hf as [Hfc Hf]. cbn [map_bytes].
  rewrite (list_find_printable fst); [by rewrite IH, Hfc| |done].
  intros [p q] [k Hk]; cbn in *. assert (Forall printable (p ++ k)) as [??]%Forall_app; [|done].
  rewrite <-Hk. by constructor.
Qed.

Lemma ToLower_plain s : Forall plain (bytes s) → ToLower s = s.
Proof.
  intros Hs. rewrite <-(str_bytes s) at 2. unfold ToLower. f_equal. apply map_bytes_fixed.
  - apply (bool_decide_unpack _). vm_compute. exact I.
  - eapply Forall_impl; [exact Hs|apply plain_printable].
  - eapply Forall_impl; [exact Hs|]. intros c Hc. unfold ascii_lower, plain in *. cbn. by rewrite decide_False by lia.
Qed.

(** Text without lower-case letters. *)
Definition raised (c : ascii) : Prop :=
  (33 ≤ Ascii.nat_of_ascii c < 97 ∨ 123 ≤ Ascii.nat_of_ascii c < 127)%nat.
#[export] Instance raised_dec c : Decision (raised c).
Proof. unfold raised. apply _. Defined.

Lemma ToUpper_raised s : Forall raised (bytes s) → ToUpper s = s.
Proof.
  intros Hs. rewrite <-(str_bytes s) at 2. unfold ToUpper. f_equal. apply map_bytes_fixed.
  - apply (bool_decide_unpack _). vm_compute. exact I.
  - eapply Forall_impl; [exact Hs|]. unfold raised, printable. lia.
  - eapply Forall_impl; [exact Hs|]. intros c Hc. unfold ascii_upper, raised in *. cbn. by rewrite decide_False by lia.
Qed.

(** Decimal text reads back as the number. *)
Lemma pretty_N_char_val (x : N) : (x < 10)%N → digit_val (pretty_N_char x) = Some (Z.of_N x).
Proof. intros Hx. do 10 (destruct x as [|x] using N.peano_ind; [done|]; clear IHx || idtac); lia. Qed.

Lemma digits_val_pretty_go x : ∀ s,
  digits_val 0 (bytes (pretty_N_go x s)) = digits_val (Z.of_N x) (bytes s).
Proof.
  induction (N.lt_wf_0 x) as [x _ IH]. intros s.
  destruct (decide (x = 0%N)) as [->|Hx]; [done|].
  rewrite pretty_N_go_step, IH by (try apply N.div_lt; lia).
  change (bytes (String ?c s)) with (c :: bytes s). cbn [digits_val].
  rewrite pretty_N_char_val by (apply N.mod_lt; lia). f_equal.
  pose proof (N.div_mod x 10 ltac:(done)). lia.
Qed.

Lemma digits_val_itoa n : 0 ≤ n → digits_val 0 (bytes (itoa n)) = Some n.
Proof.
  intros Hn. destruct n as [|p|]; [done| |lia].
  change (itoa (Z.pos p)) with (pretty_N_go (N.pos p) ""). apply digits_val_pretty_go.
Qed.

Lemma digits_val_digits (acc v : Z) l : digits_val acc l = Some v → Forall (λ c, is_Some (digit_val c)) l.
Proof.
  revert acc. induction l as [|c l IH]; intros acc H; [done|]. cbn in H.
  destruct (digit_val c) as [d|] eqn:E; [|done]. constructor; [by eexists|by eapply IH].
Qed.

Lemma itoa_digits n : 0 ≤ n → Forall (λ c, is_Some (digit_val c)) (bytes (itoa n)).
Proof. intros Hn. eapply digits_val_digits, digits_val_itoa, Hn. Qed.

Lemma itoa_nonempty n : 0 ≤ n → ∃ c l, bytes (itoa n) = c :: l.
Proof.
  intros Hn. destruct (bytes (itoa n)) as [|c l] eqn:E; [|by eauto].
  apply bytes_nil in E. destruct n as [|p|]; [done| |lia].
  pose proof (digits_val_itoa (Z.pos p) Hn) as H. rewrite E in H. done.
Qed.

Lemma digit_plain c : is_Some (digit_val c) → plain c.
Proof. intros [d H]. unfold digit_val in H. unfold plain. destruct (_ && _) eqn:E; [|done]. lia. Qed.

Lemma Atoi_itoa n : 0 ≤ n ≤ max_int64 → Atoi (itoa n) = Some n.
Proof.
  intros Hn. destruct (itoa_nonempty n) as (c & l & E); [lia|]. unfold Atoi.
  pose proof (digits_val_itoa n ltac:(lia)) as Hv. pose proof (itoa_digits n ltac:(lia)) as Hd.
  rewrite E in *. apply Forall_cons in Hd as [Hc _].
  assert (c ≠ "-"%char ∧ c ≠ "+"%char) as [??] by (split; intros ->; by destruct Hc).
  assert ((min_int64 <=? 1 * n) && (1 * n <=? max_int64) = true) as Hr by (unfold min_int64 in *; lia).
  destruct c as [[] [] [] [] [] [] [] []]; rewrite ?Hv; cbn [mbind option_bind]; rewrite ?Hr;
    rewrite ?Z.mul_1_l; done.
Qed.

Lemma TrimRight_digits s (u : ascii) cutset :
  Forall (λ c, is_Some (digit_val c)) (bytes s) → Forall (λ c, digit_val c = None) (bytes cutset) →
  u ∈ bytes cutset → TrimRight (s +:+ String u "") cutset = s.
Proof.
  intros Hs Hc Hu. unfold TrimRight. rewrite bytes_app, reverse_app.
  change (reverse (bytes (String u "")) ++ reverse (bytes s)) with (u :: reverse (bytes s)).
  cbn [drop_set]. rewrite decide_True by done.
  rewrite <-(str_bytes s) at 2. f_equal. rewrite <-(reverse_involutive (bytes s)) at 2. f_equal.
  destruct (reverse (bytes s)) as [|c l] eqn:E; [done|]. cbn. rewrite decide_False; [done|].
  intros Hin. rewrite Forall_forall in Hs, Hc. specialize (Hc c Hin).
  destruct (Hs c) as [d Hd]; [|congruence]. rewrite <-elem_of_reverse, E. constructor.
Qed.

(** ** A separator no case mapping touches: a byte outside the replaced sequences splits
    the text. *)

Lemma map_bytes_skip special f k l : (k ≤ length l)%nat → map_bytes special f k l = map_bytes special f 0 (drop k l).
Proof. revert k. induction l as [|c l IH]; intros [|k] Hk; cbn in *; try done; try lia. apply IH. lia. Qed.

Lemma prefix_before {A} (p a b : list A) c : c ∉ p → p `prefix_of` (a ++ c :: b) ↔ p `prefix_of` a.
Proof.
  intros Hc. split; [|intros; by apply prefix_app_r].
  intros [k Hk]. destruct (decide (length p ≤ length a)%nat) as [Hle|Hgt].
  - exists (drop (length p) a). assert (p = take (length p) a) as Hp.
    { assert (take (length p) (p ++ k) = p) as <- by (by rewrite take_app_length).
      rewrite <-Hk, take_app_le by done. by rewrite length_take_le. }
    rewrite Hp at 1. by rewrite take_drop.
  - exfalso. apply Hc. apply list_elem_of_lookup. exists (length a).
    assert ((p ++ k) !! length a = Some c) as H by (by rewrite <-Hk, list_lookup_middle).
    by rewrite lookup_app_l in H by lia.
Qed.

Lemma map_bytes_middle special f a c b :
  Forall (λ p : list ascii * list ascii, c ∉ p.1 ∧ p.1 ≠ []) special →
  map_bytes special f 0 (a ++ c :: b) = map_bytes special f 0 a ++ f c :: map_bytes special f 0 b.
Proof.
  intros Hsp. remember (length a) as n eqn:Hn. revert a Hn.
  induction (lt_wf n) as [n _ IH]; intros a ->.
  assert (∀ a', list_find (λ p : list ascii * list ascii, p.1 `prefix_of` (a' ++ c :: b)) special
              = list_find (λ p : list ascii * list ascii, p.1 `prefix_of` a') special) as Hfind.
  { intros a'. clear IH. induction Hsp as [|p sp [Hp _] _ IHs]; [done|]. cbn [list_find].
    rewrite IHs. destruct (decide (p.1 `prefix_of` a')) as [H|H].
    - by rewrite decide_True by by apply prefix_before.
    - rewrite decide_False; [done|]. by rewrite prefix_before. }
  destruct a as [|x a].
  - change ([] ++ c :: b) with (c :: b). cbn [map_bytes]. pose proof (Hfind []) as E. cbn [app] in E. rewrite E.
    assert (list_find (λ p : list ascii * list ascii, p.1 `prefix_of` []) special = None) as ->; [|done].
    apply list_find_None. eapply Forall_impl; [exact Hsp|]. intros p [_ Hp] H. by apply prefix_nil_inv in H.
  - cbn [app map_bytes]. pose proof (Hfind (x :: a)) as E. cbn [app] in E. rewrite E. clear E Hfind.
    destruct (list_find _ special) as [[i [p q]]|] eqn:Hf.
    + apply list_find_Some in Hf as (Hi & Hp & _). cbn in Hp.
      apply prefix_length in Hp. cbn in Hp.
      rewrite (map_bytes_skip _ _ _ (a ++ c :: b)) by (rewrite length_app; cbn; lia).
      rewrite (map_bytes_skip _ _ _ a) by lia.
      rewrite drop_app_le by lia. rewrite (IH (length (drop (length p - 1) a))); [by rewrite <-app_assoc| |done].
      rewrite length_drop. cbn. lia.
    + cbn. f_equal. apply (IH (length a)); [cbn; lia|done].
Qed.

Definition case_free (c : ascii) : Prop :=
  ascii_lower c = c ∧ (Ascii.nat_of_ascii c < 128)%nat.
#[export] Instance case_free_dec c : Decision (case_free c).
Proof. unfold case_free. apply _. Defined.

Lemma ToLower_middle a c b : case_free c →
  bytes (ToLower (str (a ++ c :: b))) = bytes (ToLower (str a)) ++ c :: bytes (ToLower (str b)).
Proof.
  intros [Hc Hn]. unfold ToLower. rewrite !bytes_str. rewrite map_bytes_middle; [by rewrite Hc|].
  assert (∀ n, (128 ≤ n < 256)%nat → c ≠ byte n) as H.
  { intros n Hr ->. unfold byte in Hn. rewrite Ascii.nat_ascii_embedding in Hn; lia. }
  repeat constructor; cbn; rewrite ?not_elem_of_cons; repeat split; try (apply H; lia); try apply not_elem_of_nil; done.
Qed.

Lemma Contains_spec s sub : Contains s sub = true ↔ ∃ a b, bytes s = a ++ bytes sub ++ b.
Proof.
  unfold Contains, Index. rewrite bool_decide_eq_true. split.
  - intros [i Hi]. apply index_of_Some in Hi as [Hp _]. destruct Hp as [k Hk].
    exists (take i (bytes s)), k. rewrite <-Hk. by rewrite take_drop.
  - intros (a & b & E). destruct (index_of (bytes sub) (bytes s)) eqn:Hi; [by eexists|].
    exfalso. apply (index_of_None _ _ Hi (length a)). rewrite E, drop_app_length. by exists b.
Qed.

(** ** Runes *)

Definition in_bytes (lo hi : nat) (c : ascii) : bool := (lo <=? Ascii.nat_of_ascii c)%nat && (Ascii.nat_of_ascii c <=? hi)%nat.
Definition cont : ascii → bool := in_bytes 128 191.

(** The number of bytes of the UTF-8 sequence a text begins with; zero is no sequence. *)
Definition rune_len (l : list ascii) : nat :=
  match l with
  | [] => 0
  | c :: r =>
      if in_bytes 0 127 c then 1
      else if in_bytes 194 223 c then match r with a :: _ => if cont a then 2 else 0 | _ => 0 end
      else if in_bytes 224 239 c then
        let first := if in_bytes 224 224 c then in_bytes 160 191 else if in_bytes 237 237 c then in_bytes 128 159 else cont in
        match r with a :: b :: _ => if first a && cont b then 3 else 0 | _ => 0 end
      else if in_bytes 240 244 c then
        let first := if in_bytes 240 240 c then in_bytes 144 191 else if in_bytes 244 244 c then in_bytes 128 143 else cont in
        match r with a :: b :: d :: _ => if first a && cont b && cont d then 4 else 0 | _ => 0 end
      else 0
  end%nat.

(** The replacement character. *)
Definition rune_error : list ascii := [byte 239; byte 191; byte 189].

(** Ranging over a string and writing each rune; [fuel] is the number of bytes, and every round
    consumes one or more. *)
Fixpoint runes (fuel : nat) (l : list ascii) : list (list ascii) :=
  match fuel, l with
  | S fuel, c :: r =>
      match rune_len l with
      | O => rune_error :: runes fuel r
      | n => take n l :: runes fuel (drop n l)
      end
  | _, _ => []
  end.

(** The text [encoding/json] writes for a string: bytes that are no UTF-8 become the replacement
    character. *)
Definition ToValidUTF8 (s : string) : string := str (concat (runes (slen s) (bytes s))).

(** Texts all of whose bytes belong to UTF-8 sequences. *)
Definition utf8_text (s : string) : Prop := ToValidUTF8 s = s.

#[export] Instance utf8_text_dec s : Decision (utf8_text s).
Proof. unfold utf8_text. apply _. Defined.
