(* ===== verification/GoNet.v ===== *)
(** * GoNet: the part of Go's [net] package the sources use

    [net.ParseIP], [IP.String], the address classes used by the client address
    helpers, and [net.SplitHostPort], written after the documented behaviour of
    the Standard Library.  An address is its 16-byte form. *)

From S2P Require Import Prelude GoStrings.
#[local] Open Scope Z_scope.

Module GoNet.

Definition IP : Type := list Z.

(** The prefix of IPv4-mapped addresses, [::ffff:0:0/96]. *)
Definition v4InV6Prefix : list Z := replicate 10 0 ++ [255; 255].

(** One dotted decimal field: one to three digits, no leading zero, at most 255. *)
Definition parse_octet (l : list ascii) : option Z :=
  match l with
  | [] => None
  | "0"%char :: _ :: _ => None
  | _ => v ← digits_val 0 l; if v <=? 255 then Some v else None
  end.

Definition parse_ipv4_fields (l : list ascii) : option (list Z) :=
  match mapM parse_octet (split_on "."%char l) with
  | Some [a; b; c; d] => Some [a; b; c; d]
  | _ => None
  end.

Definition hex_val (c : ascii) : option Z :=
  let n := Z.of_nat (Ascii.nat_of_ascii c) in
  if (48 <=? n) && (n <=? 57) then Some (n - 48)
  else if (97 <=? n) && (n <=? 102) then Some (n - 87)
  else if (65 <=? n) && (n <=? 70) then Some (n - 55)
  else None.

(** The longest run of hexadecimal digits, its value, and the rest. *)
Fixpoint hex_run (acc : Z) (n : nat) (l : list ascii) : Z * nat * list ascii :=
  match l with
  | [] => (acc, n, [])
  | c :: l' => match hex_val c with
               | Some d => hex_run (acc * 16 + d) (S n) l'
               | None => (acc, n, l)
               end
  end.

(** The loop over 16-bit groups: [acc] holds the bytes read so far, [ell] the
    position of the ellipsis.  [fuel] bounds the number of groups by 9. *)
Fixpoint ipv6_groups (fuel : nat) (acc : list Z) (ell : option nat) (l : list ascii)
  : option (list Z * option nat * list ascii) :=
  match fuel with
  | O => None
  | S fuel =>
      if decide (length acc < 16)%nat then
        match hex_run 0 0 l with
        | (v, n, rest) =>
            if decide (n = 0%nat ∨ 4 < n)%nat then None
            else match rest with
                 | "."%char :: _ =>
                     if decide (ell = None ∧ length acc ≠ 12%nat) then None
                     else if decide (12 < length acc)%nat then None
                     else f ← parse_ipv4_fields l; Some (acc ++ f, ell, [])
                 | [] => Some (acc ++ [v / 256; v mod 256], ell, [])
                 | ":"%char :: [] => None
                 | ":"%char :: ":"%char :: rest' =>
                     if decide (is_Some ell) then None
                     else let acc' := acc ++ [v / 256; v mod 256] in
                          match rest' with
                          | [] => Some (acc', Some (length acc'), [])
                          | _ => ipv6_groups fuel acc' (Some (length acc')) rest'
                          end
                 | ":"%char :: rest' => ipv6_groups fuel (acc ++ [v / 256; v mod 256]) ell rest'
                 | _ => None
                 end
        end
      else Some (acc, ell, l)
  end.

Definition parse_ipv6 (l : list ascii) : option IP :=
  let start := match l with
               | ":"%char :: ":"%char :: [] => Some ([], Some 0%nat, [])
               | ":"%char :: ":"%char :: l' => ipv6_groups 9 [] (Some 0%nat) l'
               | _ => ipv6_groups 9 [] None l
               end in
  match start with
  | Some (acc, ell, []) =>
      if decide (length acc < 16)%nat then
        match ell with
        | None => None
        | Some e => Some (take e acc ++ replicate (16 - length acc) 0 ++ drop e acc)
        end
      else match ell with None => Some acc | Some _ => None end
  | _ => None
  end.

(** [net.ParseIP]: an address with a zone is rejected. *)
Definition ParseIP (s : string) : option IP :=
  let l := bytes s in
  match list_find (λ c, c = "."%char ∨ c = ":"%char ∨ c = "%"%char) l with
  | Some (_, "."%char) => app v4InV6Prefix <$> parse_ipv4_fields l
  | Some (_, ":"%char) => if decide ("%"%char ∈ l) then None else parse_ipv6 l
  | _ => None
  end.

Definition To4 (ip : IP) : option (list Z) :=
  if decide (take 12 ip = v4InV6Prefix) then Some (drop 12 ip) else None.

Definition hex_digit (v : Z) : ascii :=
  byte (Z.to_nat (if v <? 10 then 48 + v else 87 + v)).

(** A 16-bit group in lower case without leading zeros. *)
Definition hex16 (v : Z) : list ascii :=
  let ds := [v / 4096; (v / 256) mod 16; (v / 16) mod 16; v mod 16] in
  hex_digit <$> (if v <? 16 then drop 3 ds else if v <? 256 then drop 2 ds
                 else if v <? 4096 then drop 1 ds else ds).

Fixpoint groups_of (ip : list Z) : list Z :=
  match ip with a :: b :: l => (a * 256 + b) :: groups_of l | _ => [] end.

(** Length of the run of zero groups at the head. *)
Fixpoint zero_run (g : list Z) : nat :=
  match g with 0 :: g' => S (zero_run g') | _ => 0%nat end.

(** The leftmost longest run of zero groups: its start and length. *)
Fixpoint best_run (i : nat) (g : list Z) : nat * nat :=
  match g with
  | [] => (i, 0%nat)
  | _ :: g' => let (s, n) := best_run (S i) g' in
               if decide (n ≤ zero_run g)%nat then (i, zero_run g) else (s, n)
  end.

Definition string_v6 (ip : IP) : list ascii :=
  let g := groups_of ip in
  let (s, n) := best_run 0 g in
  let part l := join_bytes ":"%char (hex16 <$> l) in
  if decide (2 ≤ n)%nat
  then part (take s g) ++ [":"%char; ":"%char] ++ part (drop (s + n) g)
  else part g.

(** [IP.String] *)
Definition IP_String (ip : IP) : string :=
  match To4 ip with
  | Some l => Join (itoa <$> l) "."
  | None => str (string_v6 ip)
  end.

(** [IP.IsPrivate], [IP.IsLoopback], [IP.IsLinkLocalUnicast] *)
Definition IsPrivate (ip : IP) : bool :=
  match To4 ip with
  | Some (a :: b :: _) =>
      (a =? 10) || ((a =? 172) && (Z.land b 240 =? 16)) || ((a =? 192) && (b =? 168))
  | Some _ => false
  | None => match ip with a :: _ => Z.land a 254 =? 252 | [] => false end
  end.

Definition IsLoopback (ip : IP) : bool :=
  match To4 ip with
  | Some (a :: _) => a =? 127
  | Some [] => false
  | None => bool_decide (ip = replicate 15 0 ++ [1])
  end.

Definition IsLinkLocalUnicast (ip : IP) : bool :=
  match To4 ip with
  | Some (a :: b :: _) => (a =? 169) && (b =? 254)
  | Some _ => false
  | None => match ip with a :: b :: _ => (a =? 254) && (Z.land b 192 =? 128) | _ => false end
  end.

(** [net.SplitHostPort]: host and port, [None] for an error. *)
Definition SplitHostPort (hp : string) : option (string * string) :=
  let l := bytes hp in
  i ← last_index ":"%char l;
  '(host, j, k) ←
    match l with
    | "["%char :: _ =>
        e ← index_of ["]"%char] l;
        if decide (S e = i) then Some (take (e - 1) (drop 1 l), 1%nat, S e) else None
    | _ => let host := take i l in
           if decide (":"%char ∈ host) then None else Some (host, 0%nat, 0%nat)
    end;
  if decide ("["%char ∈ drop j l) then None
  else if decide ("]"%char ∈ drop k l) then None
  else Some (str host, str (drop (S i) l)).

Example ParseIP_ex :
  (λ s, IP_String <$> ParseIP s) <$>
    ["203.0.113.1"; "2001:DB8::1"; "::ffff:10.0.0.1"; "1:0:0:2:0:0:0:3"; "::"; "010.1.1.1"; "1.2.3";
     "203.0.113.1:8080"; "fe80::1%eth0"; "1:2:3:4:5:6:7::"] =
  [Some "203.0.113.1"; Some "2001:db8::1"; Some "10.0.0.1"; Some "1:0:0:2::3"; Some "::";
   None; None; None; None; Some "1:2:3:4:5:6:7:0"].
Proof. vm_compute. reflexivity. Qed.

Example SplitHostPort_ex :
  SplitHostPort <$> ["example.com:443"; "[::1]:80"; "example.com"; "::1:80"; "a:b:c"] =
  [Some ("example.com", "443"); Some ("::1", "80"); None; None; None].
Proof. vm_compute. reflexivity. Qed.

(** ** Address ranges *)

(** [net.IPNet]: the network number and its mask, of four or sixteen bytes. *)
Record IPNet := { nIP : list Z; nMask : list Z }.

(** [net.CIDRMask]: the byte at [i] of a mask of [ones] leading ones. *)
Definition mask_byte (ones i : nat) : Z :=
  let n := ((ones - 8 * i) `min` 8)%nat in 255 - (2 ^ (8 - Z.of_nat n) - 1).
Definition CIDRMask (ones len : nat) : list Z := mask_byte ones <$> seq 0 len.

(** [dtoi]: the whole text is a number below the library's bound. *)
Definition prefix_len (l : list ascii) : option Z :=
  match l with
  | [] => None
  | _ => v ← digits_val 0 l; if v <? 16777215 then Some v else None
  end.

(** [net.ParseCIDR], without the address. *)
Definition ParseCIDR (s : string) : option IPNet :=
  '(addr, mask) ← match cut s "/"%char with (a, Some m) => Some (a, m) | _ => None end;
  ip ← ParseIP addr;
  n ← prefix_len (bytes mask);
  let is4 := bool_decide (":"%char ∉ bytes addr) in
  let len := if is4 then 4%nat else 16%nat in
  if n <=? 8 * Z.of_nat len then
    let m := CIDRMask (Z.to_nat n) len in
    let b := if is4 then drop 12 ip else ip in
    Some {| nIP := zip_with Z.land b m; nMask := m |}
  else None.

(** [networkNumberAndMask]: a mapped network counts as one of four bytes. *)
Definition network (n : IPNet) : list Z * list Z :=
  if decide (length (nIP n) = 4%nat) then (nIP n, nMask n)
  else match To4 (nIP n) with
       | Some b => (b, drop 12 (nMask n))
       | None => (nIP n, nMask n)
       end.

(** [IPNet.Contains] *)
Definition Contains (n : IPNet) (ip : IP) : bool :=
  let '(nn, m) := network n in
  let b := default ip (To4 ip) in
  if decide (length b = length nn) then bool_decide (zip_with Z.land nn m = zip_with Z.land b m)
  else false.

Definition in_cidr (c s : string) : option bool :=
  n ← ParseCIDR c; ip ← ParseIP s; Some (Contains n ip).

Example cidr_ex :
  [in_cidr "10.0.0.0/8" "10.200.3.4"; in_cidr "10.0.0.0/8" "11.0.0.1"; in_cidr "192.168.4.0/22" "192.168.7.9";
   in_cidr "2001:db8::/33" "2001:db8:8000::1"; in_cidr "2001:db8::/32" "2001:db8:8000::1";
   in_cidr "0.0.0.0/0" "8.8.8.8"; in_cidr "10.0.0.0/33" "10.0.0.0"; in_cidr "10.0.0.0" "10.0.0.0"] =
  [Some true; Some false; Some true; Some false; Some true; Some true; None; None].
Proof. vm_compute. reflexivity. Qed.

End GoNet.
