(* ===== verification/GoUrl.v ===== *)
(** * GoUrl: the part of Go's [net/url] the sources use

    [url.Parse] up to the parts the programs look at: the scheme, the host with its port, whether
    there is user information, and whether the text is refused.  Written after the documented
    behaviour of the Standard Library; a zone in an IPv6 host is decoded like the rest of it. *)

From S2P Require Import Prelude GoStrings GoNet.
#[local] Open Scope Z_scope.

Module GoUrl.

(** [User] is whether the authority has user information. *)
Record URL := { Scheme : string; Host : string; User : bool }.

Definition code (c : ascii) : nat := Ascii.nat_of_ascii c.
Definition is_digit (c : ascii) : bool := ((48 <=? code c) && (code c <=? 57))%nat.
Definition is_alpha (c : ascii) : bool := ((65 <=? code c) && (code c <=? 90) || (97 <=? code c) && (code c <=? 122))%nat.
Definition is_alnum (c : ascii) : bool := is_alpha c || is_digit c.
Definition one_of (s : string) (c : ascii) : bool := bool_decide (c ∈ bytes s).

(** [getScheme]: [None] is an error, an empty scheme is none. *)
Fixpoint scheme_from (acc l : list ascii) : option (option (list ascii * list ascii)) :=
  match l with
  | [] => Some None
  | c :: r =>
      if is_alpha c then scheme_from (acc ++ [c]) r
      else if is_digit c || one_of "+-." c then if decide (acc = []) then Some None else scheme_from (acc ++ [c]) r
      else if decide (c = ":"%char) then if decide (acc = []) then None else Some (Some (acc, r))
      else Some None
  end.

Definition get_scheme (l : list ascii) : option (list ascii * list ascii) :=
  match scheme_from [] l with None => None | Some None => Some ([], l) | Some (Some p) => Some p end.

(** Whether every percent sign starts an escape. *)
Fixpoint escapes_ok (l : list ascii) : bool :=
  match l with
  | [] => true
  | "%"%char :: a :: b :: r =>
      match GoNet.hex_val a, GoNet.hex_val b with Some _, Some _ => escapes_ok r | _, _ => false end
  | "%"%char :: _ => false
  | _ :: r => escapes_ok r
  end.

(** Characters a host may hold as they are. *)
Definition host_char (c : ascii) : bool :=
  (128 <=? code c)%nat || is_alnum c || one_of "-_.~!$&'()*+,;=:[]<>" c || bool_decide (c = byte 34).

(** [unescape] of a host: only bytes outside ASCII and the percent sign may be escaped. *)
Fixpoint unescape_host (l : list ascii) : option (list ascii) :=
  match l with
  | [] => Some []
  | "%"%char :: r =>
      match r with
      | a :: b :: r =>
          match GoNet.hex_val a, GoNet.hex_val b with
          | Some x, Some y =>
              if (x <? 8) && negb ((x =? 2) && (y =? 5)) then None
              else cons (byte (Z.to_nat (x * 16 + y))) <$> unescape_host r
          | _, _ => None
          end
      | _ => None
      end
  | c :: r => if host_char c then cons c <$> unescape_host r else None
  end.

Definition valid_optional_port (l : list ascii) : bool :=
  match l with [] => true | c :: r => bool_decide (c = ":"%char) && forallb is_digit r end.

Definition parse_host (l : list ascii) : option (list ascii) :=
  match l with
  | "["%char :: _ =>
      match last_index "]"%char l with
      | Some i => if valid_optional_port (drop (S i) l) then unescape_host l else None
      | None => None
      end
  | _ =>
      match index_of [":"%char] l with
      | Some i => if valid_optional_port (drop i l) then unescape_host l else None
      | None => unescape_host l
      end
  end.

Definition user_char (c : ascii) : bool := is_alnum c || one_of "-._:~!$&'()*+,;=%@" c.

(** [parseAuthority]: the host, and whether there is user information. *)
Definition parse_authority (l : list ascii) : option (list ascii * bool) :=
  match last_index "@"%char l with
  | None => (λ h, (h, false)) <$> parse_host l
  | Some i =>
      h ← parse_host (drop (S i) l);
      if forallb user_char (take i l) && escapes_ok (take i l) then Some (h, true) else None
  end.

Definition is_ctl (c : ascii) : bool := ((code c <? 32) || (code c =? 127))%nat.

(** The text before a fragment. *)
Definition parse_plain (l : list ascii) : option URL :=
  if existsb is_ctl l then None
  else
    '(scheme, rest) ← get_scheme l;
    let none := {| Scheme := ToLower (str scheme); Host := ""; User := false |} in
    let rest := before_first "?"%char rest in
    if negb (bool_decide (["/"%char] `prefix_of` rest)) then
      if decide (scheme ≠ []) then Some none
      else if decide (":"%char ∈ before_first "/"%char rest) then None
      else if escapes_ok rest then Some none else None
    else if bool_decide (["/"%char; "/"%char] `prefix_of` rest) &&
            (bool_decide (scheme ≠ []) || negb (bool_decide (["/"%char; "/"%char; "/"%char] `prefix_of` rest))) then
      let authority := before_first "/"%char (drop 2 rest) in
      '(host, user) ← parse_authority authority;
      if escapes_ok (drop (2 + length authority) rest) then
        Some {| Scheme := ToLower (str scheme); Host := str host; User := user |}
      else None
    else if escapes_ok rest then Some none else None.

(** [url.Parse] *)
Definition Parse (raw : string) : option URL :=
  let l := bytes raw in
  let plain := before_first "#"%char l in
  u ← parse_plain plain;
  if escapes_ok (drop (S (length plain)) l) then Some u else None.

Example Parse_ex :
  (λ s, (λ u, (Scheme u, Host u, User u)) <$> Parse s) <$>
    ["https://github.com/a/b.git"; "HTTPS://u:p@h:8443/x?y#z"; "git@github.com:a/b.git"; "localhost:a/b"; "/srv/x"; "nginx";
     "https://[::1]:80/"; "https://a%20b/"; "http://h:8o/"; "10.0.0.1:a/b"; "ssh://git@host/x"; "https:///x"] =
  [Some ("https", "github.com", false); Some ("https", "h:8443", true); None; Some ("localhost", "", false); Some ("", "", false);
   Some ("", "", false); Some ("https", "[::1]:80", false); None; None; None; Some ("ssh", "host", true); Some ("https", "", false)].
Proof. vm_compute. reflexivity. Qed.

End GoUrl.
