(* ===== verification/CoreCircuit.v ===== *)
(** * CoreCircuit: the circuit breaker of [internal/core/circuitbreaker.go]

    The breaker guards every outgoing HTTP call of the platform.  Its mutex is
    released while the guarded function runs, so two calls can overlap: the
    operations [beforeCall] and [afterCall] are separate atomic steps, and
    [Execute] is their composition.  The clock is read inside each operation;
    every reading is an argument here. *)

From S2P Require Import Prelude.
#[local] Open Scope Z_scope.

Module CoreCircuit.

(** src/internal/core/circuitbreaker.go:11-15 CircuitState *)
Inductive CircuitState := CircuitClosed | CircuitOpen | CircuitHalfOpen.

#[global] Instance CircuitState_eq_dec : EqDecision CircuitState.
Proof. solve_decision. Defined.

(** src/internal/core/circuitbreaker.go:21-28 CircuitBreakerConfig *)
Record CircuitBreakerConfig := {
  FailureThreshold : Z;
  ResetTimeout : duration;
  HalfOpenMaxCalls : Z }.

(** src/internal/core/circuitbreaker.go:31-37 DefaultCircuitBreakerConfig *)
Definition DefaultCircuitBreakerConfig : CircuitBreakerConfig :=
  {| FailureThreshold := 5; ResetTimeout := 30 * Second; HalfOpenMaxCalls := 1 |}.

(** src/internal/core/circuitbreaker.go:41-53 CircuitBreaker *)
Record CircuitBreaker := {
  name : string;
  state : CircuitState;
  failures : Z;
  successes : Z;
  lastFailure : instant;
  failureThreshold : Z;
  resetTimeout : duration;
  halfOpenMax : Z;
  halfOpenCalls : Z }.

(** src/internal/core/circuitbreaker.go:56-74 NewCircuitBreaker *)
Definition NewCircuitBreaker (nm : string) (cfg : CircuitBreakerConfig) : CircuitBreaker :=
  {| name := nm;
     state := CircuitClosed;
     failures := 0;
     successes := 0;
     lastFailure := zero_time;
     failureThreshold := if FailureThreshold cfg <=? 0 then 5 else FailureThreshold cfg;
     resetTimeout := if ResetTimeout cfg <=? 0 then 30 * Second else ResetTimeout cfg;
     halfOpenMax := if HalfOpenMaxCalls cfg <=? 0 then 1 else HalfOpenMaxCalls cfg;
     halfOpenCalls := 0 |}.

(** What the guarded function returns: no error, an error that
    [errors.As] resolves to a [noRetryError], or any other error.
    src/internal/core/retry.go:12-12 noRetryError *)
Inductive call_error := NoRetry (msg : string) | Other (msg : string).

(** The error of a refused call wraps [ErrCircuitOpen] with the breaker's name.
    src/internal/core/circuitbreaker.go:18-18 ErrCircuitOpen *)
Inductive exec_error :=
| ErrCircuitOpen (breaker : string)
| ErrCall (e : call_error).

Definition with_counts (cb : CircuitBreaker) (st : CircuitState)
    (f s : Z) (lf : instant) (hc : Z) : CircuitBreaker :=
  {| name := name cb; state := st; failures := f; successes := s;
     lastFailure := lf; failureThreshold := failureThreshold cb;
     resetTimeout := resetTimeout cb; halfOpenMax := halfOpenMax cb;
     halfOpenCalls := hc |}.

(** src/internal/core/circuitbreaker.go:129-136 CircuitBreaker.currentState *)
Definition currentState (cb : CircuitBreaker) (now : instant) : CircuitState :=
  match state cb with
  | CircuitOpen =>
      if resetTimeout cb <=? time_sub now (lastFailure cb)
      then CircuitHalfOpen else CircuitOpen
  | st => st
  end.

(** src/internal/core/circuitbreaker.go:139-157 CircuitBreaker.beforeCall *)
Definition beforeCall (cb : CircuitBreaker) (now : instant) : CircuitBreaker * bool :=
  match currentState cb now with
  | CircuitClosed => (cb, true)
  | CircuitOpen => (cb, false)
  | CircuitHalfOpen =>
      if halfOpenMax cb <=? halfOpenCalls cb then (cb, false)
      else (with_counts cb (state cb) (failures cb) (successes cb)
              (lastFailure cb) (i64 (halfOpenCalls cb + 1)), true)
  end.

(** src/internal/core/circuitbreaker.go:207-212 CircuitBreaker.reset *)
Definition reset (cb : CircuitBreaker) : CircuitBreaker :=
  with_counts cb CircuitClosed 0 0 (lastFailure cb) 0.

(** src/internal/core/circuitbreaker.go:178-188 CircuitBreaker.onSuccess *)
Definition onSuccess (cb : CircuitBreaker) (st : CircuitState) : CircuitBreaker :=
  match st with
  | CircuitHalfOpen =>
      let s := i64 (successes cb + 1) in
      let cb' := with_counts cb (state cb) (failures cb) s
                   (lastFailure cb) (halfOpenCalls cb) in
      if halfOpenMax cb <=? s then reset cb' else cb'
  | CircuitClosed =>
      with_counts cb (state cb) 0 (successes cb) (lastFailure cb) (halfOpenCalls cb)
  | CircuitOpen => cb
  end.

(** src/internal/core/circuitbreaker.go:190-205 CircuitBreaker.onFailure *)
Definition onFailure (cb : CircuitBreaker) (st : CircuitState) (now : instant)
  : CircuitBreaker :=
  let f := i64 (failures cb + 1) in
  match st with
  | CircuitClosed =>
      with_counts cb (if failureThreshold cb <=? f then CircuitOpen else state cb)
        f (successes cb) now (halfOpenCalls cb)
  | CircuitHalfOpen => with_counts cb CircuitOpen f 0 now 0
  | CircuitOpen =>
      with_counts cb (state cb) f (successes cb) now (halfOpenCalls cb)
  end.

(** The clock is read once for the effective state ([t1]) and once more by
    [onFailure] ([t2]).
    src/internal/core/circuitbreaker.go:160-176 CircuitBreaker.afterCall *)
Definition afterCall (cb : CircuitBreaker) (t1 t2 : instant) (err : option call_error)
  : CircuitBreaker :=
  let st := currentState cb t1 in
  match err with
  | None => onSuccess cb st
  | Some (NoRetry _) => cb
  | Some (Other _) => onFailure cb st t2
  end.

(** A call that runs to completion with no other call in between.  The guarded
    function is its result; a nil breaker runs it directly.
    src/internal/core/circuitbreaker.go:79-92 CircuitBreaker.Execute *)
Definition Execute (ocb : option CircuitBreaker) (t0 t1 t2 : instant)
    (fn : option call_error) : option CircuitBreaker * option exec_error :=
  match ocb with
  | None => (None, ErrCall <$> fn)
  | Some cb =>
      match beforeCall cb t0 with
      | (cb', false) => (Some cb', Some (ErrCircuitOpen (name cb)))
      | (cb', true) => (Some (afterCall cb' t1 t2 fn), ErrCall <$> fn)
      end
  end.

(** src/internal/core/circuitbreaker.go:95-102 CircuitBreaker.State *)
Definition State (ocb : option CircuitBreaker) (now : instant) : CircuitState :=
  match ocb with None => CircuitClosed | Some cb => currentState cb now end.

(** src/internal/core/circuitbreaker.go:120-125 CircuitBreakerStats *)
Record CircuitBreakerStats := {
  stats_Name : string;
  stats_State : CircuitState;
  stats_Failures : Z;
  stats_LastFailure : instant }.

(** src/internal/core/circuitbreaker.go:105-117 CircuitBreaker.Stats *)
Definition Stats (ocb : option CircuitBreaker) (now : instant) : CircuitBreakerStats :=
  match ocb with
  | None => {| stats_Name := ""; stats_State := CircuitClosed;
               stats_Failures := 0; stats_LastFailure := zero_time |}
  | Some cb => {| stats_Name := name cb; stats_State := currentState cb now;
                  stats_Failures := failures cb; stats_LastFailure := lastFailure cb |}
  end.

(** src/internal/core/circuitbreaker.go:215-219 CircuitBreaker.Reset *)
Definition Reset (cb : CircuitBreaker) : CircuitBreaker := reset cb.

(** ** Interleaved calls

    [running] counts the guarded functions between their [beforeCall] and their
    [afterCall]; the clock never goes backwards. *)

Record world := { breaker : CircuitBreaker; clock : instant; running : nat }.

Inductive step : world → world → Prop :=
| step_tick w t : clock w ≤ t →
    step w {| breaker := breaker w; clock := t; running := running w |}
| step_admit w cb : beforeCall (breaker w) (clock w) = (cb, true) →
    step w {| breaker := cb; clock := clock w; running := S (running w) |}
| step_refuse w cb : beforeCall (breaker w) (clock w) = (cb, false) →
    step w {| breaker := cb; clock := clock w; running := running w |}
| step_finish w t1 t2 err r : running w = S r → clock w ≤ t1 → t1 ≤ t2 →
    step w {| breaker := afterCall (breaker w) t1 t2 err; clock := t2; running := r |}
| step_reset w :
    step w {| breaker := Reset (breaker w); clock := clock w; running := running w |}.

Definition init (nm : string) (cfg : CircuitBreakerConfig) (t : instant) : world :=
  {| breaker := NewCircuitBreaker nm cfg; clock := t; running := 0%nat |}.

(** The parameters are in range, a closed breaker has fewer failures than its
    threshold and no probe accounted, and the probe counters never pass the
    maximum. *)
Record breaker_ok (cb : CircuitBreaker) : Prop := {
  ok_threshold : 0 < failureThreshold cb ≤ max_int64;
  ok_timeout : 0 < resetTimeout cb ≤ max_int64;
  ok_max : 0 < halfOpenMax cb ≤ max_int64;
  ok_calls : 0 ≤ halfOpenCalls cb ≤ halfOpenMax cb;
  ok_successes : 0 ≤ successes cb < halfOpenMax cb;
  ok_state : state cb ≠ CircuitHalfOpen;
  ok_closed : state cb = CircuitClosed →
    0 ≤ failures cb < failureThreshold cb ∧ halfOpenCalls cb = 0 ∧ successes cb = 0 }.

Definition config_in_range (cfg : CircuitBreakerConfig) : Prop :=
  in_i64 (FailureThreshold cfg) ∧ in_i64 (ResetTimeout cfg) ∧ in_i64 (HalfOpenMaxCalls cfg).

Lemma default_config_in_range : config_in_range DefaultCircuitBreakerConfig.
Proof. repeat split; vm_compute; discriminate. Qed.

Lemma NewCircuitBreaker_ok nm cfg : config_in_range cfg → breaker_ok (NewCircuitBreaker nm cfg).
Proof.
  unfold config_in_range, in_i64, min_int64, max_int64. intros (? & ? & ?).
  split; simpl; unfold Second, max_int64; repeat case_match; bools; try lia; done.
Qed.

Lemma beforeCall_ok cb now b cb' :
  breaker_ok cb → beforeCall cb now = (cb', b) → breaker_ok cb'.
Proof.
  intros [Ht Hr Hm Hc Hs Hst Hcl] H. revert Hcl.
  unfold beforeCall, currentState in H. destruct (state cb) eqn:Es; [| |done].
  - injection H as <- <-. intros ?. split; auto; by rewrite Es.
  - destruct (_ <=? _); [destruct (halfOpenMax cb <=? halfOpenCalls cb) eqn:El|];
      injection H as <- <-; intros ?; split; simpl; rewrite ?Es; auto; try done.
    bools. wrap_id. lia.
Qed.

Lemma reset_ok cb : breaker_ok cb → breaker_ok (reset cb).
Proof. intros [Ht Hr Hm Hc Hs Hst Hcl]. split; simpl; auto; try done; lia. Qed.

Lemma onSuccess_ok cb now : breaker_ok cb → breaker_ok (onSuccess cb (currentState cb now)).
Proof.
  intros Hok. destruct Hok as [Ht Hr Hm Hc Hs Hst Hcl]. unfold currentState.
  destruct (state cb) eqn:Es; [| |done]; simpl.
  - destruct (Hcl eq_refl) as (? & ? & ?). split; simpl; rewrite ?Es; auto; lia.
  - destruct (_ <=? _); simpl; [|by split; rewrite ?Es].
    wrap_id. destruct (halfOpenMax cb <=? _) eqn:El; bools.
    + split; simpl; auto; try done; lia.
    + split; simpl; rewrite ?Es; auto; try done; lia.
Qed.

Lemma onFailure_ok cb t1 t2 : breaker_ok cb → breaker_ok (onFailure cb (currentState cb t1) t2).
Proof.
  intros [Ht Hr Hm Hc Hs Hst Hcl]. unfold currentState.
  destruct (state cb) eqn:Es; [| |done]; simpl.
  - destruct (Hcl eq_refl) as (? & ? & ?). wrap_id.
    destruct (failureThreshold cb <=? _) eqn:El; bools;
      split; simpl; rewrite ?Es; auto; try done; lia.
  - destruct (_ <=? _); simpl; split; simpl; rewrite ?Es; auto; try done; lia.
Qed.

Lemma afterCall_ok cb t1 t2 err : breaker_ok cb → breaker_ok (afterCall cb t1 t2 err).
Proof.
  unfold afterCall. destruct err as [[|]|]; auto using onSuccess_ok, onFailure_ok.
Qed.

#[export] Hint Resolve NewCircuitBreaker_ok beforeCall_ok reset_ok afterCall_ok : go.

Lemma step_ok w w' : breaker_ok (breaker w) → step w w' → breaker_ok (breaker w').
Proof.
  intros Hok Hs. destruct Hs; simpl; eauto with go.
Qed.

(** A sequence of non-overlapping calls, each given by its three clock readings
    and the result of the guarded function. *)
Definition call : Type := instant * instant * instant * option call_error.

Fixpoint run_calls (cb : CircuitBreaker) (cs : list call)
  : CircuitBreaker * list (option exec_error) :=
  match cs with
  | [] => (cb, [])
  | (t0, t1, t2, fn) :: cs' =>
      match Execute (Some cb) t0 t1 t2 fn with
      | (Some cb', r) => let (cb'', rs) := run_calls cb' cs' in (cb'', r :: rs)
      | (None, r) => (cb, [r])
      end
  end.

Definition failing (c : call) : Prop := ∃ m, c.2 = Some (Other m).
Definition succeeding (c : call) : Prop := c.2 = None.

(** Every call of [cs] starts and ends when the open window has elapsed. *)
Definition after_window (cb : CircuitBreaker) (c : call) : Prop :=
  resetTimeout cb ≤ time_sub c.1.1.1 (lastFailure cb) ∧
  resetTimeout cb ≤ time_sub c.1.1.2 (lastFailure cb).

Lemma run_calls_cons cb t0 t1 t2 fn cs cb' r :
  Execute (Some cb) t0 t1 t2 fn = (Some cb', r) →
  run_calls cb ((t0, t1, t2, fn) :: cs) = ((run_calls cb' cs).1, r :: (run_calls cb' cs).2).
Proof.
  intros E. cbn [run_calls]. rewrite E. by destruct (run_calls cb' cs).
Qed.

Lemma Execute_Some cb t0 t1 t2 fn :
  ∃ cb' r, Execute (Some cb) t0 t1 t2 fn = (Some cb', r).
Proof. unfold Execute. destruct (beforeCall cb t0) as [cb' []]; eauto. Qed.

Lemma run_calls_app cs1 : ∀ cb cs2,
  (run_calls cb (cs1 ++ cs2)).1 = (run_calls (run_calls cb cs1).1 cs2).1.
Proof.
  induction cs1 as [|[[[t0 t1] t2] fn] cs1 IH]; intros cb cs2; [done|].
  destruct (Execute_Some cb t0 t1 t2 fn) as (cb' & r & E).
  cbn [app]. rewrite !(run_calls_cons _ _ _ _ _ _ _ _ E). apply IH.
Qed.

(** A retryable failure recorded by a closed breaker. *)
Lemma Execute_closed_failure cb t0 t1 t2 m :
  breaker_ok cb → state cb = CircuitClosed →
  Execute (Some cb) t0 t1 t2 (Some (Other m)) =
    (Some (with_counts cb
             (if failureThreshold cb <=? failures cb + 1 then CircuitOpen else CircuitClosed)
             (failures cb + 1) (successes cb) t2 (halfOpenCalls cb)),
     Some (ErrCall (Other m))).
Proof.
  intros Hok E. destruct (ok_closed _ Hok E) as (? & _). destruct (ok_threshold _ Hok).
  unfold Execute, beforeCall, afterCall, currentState. rewrite E. simpl. rewrite E.
  unfold onFailure. rewrite E. by wrap_id.
Qed.

Lemma failing_below_threshold cs : ∀ cb,
  breaker_ok cb → state cb = CircuitClosed → Forall failing cs →
  failures cb + zlen cs < failureThreshold cb →
  let cb' := (run_calls cb cs).1 in
  breaker_ok cb' ∧ state cb' = CircuitClosed ∧ failures cb' = failures cb + zlen cs ∧
  failureThreshold cb' = failureThreshold cb.
Proof.
  induction cs as [|[[[t0 t1] t2] fn] cs IH]; intros cb Hok Hst Hf Hlt cb'.
  { subst cb'. simpl in *. split_and!; auto; lia. }
  apply Forall_cons in Hf as [[m Hm] Hf]. cbn in Hm. subst fn. cbn [length] in *.
  subst cb'. rewrite (run_calls_cons _ _ _ _ _ _ _ _
    (Execute_closed_failure cb t0 t1 t2 m Hok Hst)). cbn [fst].
  rewrite (proj2 (Z.leb_gt _ _)) by lia. set (cb1 := with_counts _ _ _ _ _ _).
  assert (Hok1 : breaker_ok cb1).
  { destruct Hok as [? ? ? ? ? ? Hcl]. destruct (Hcl Hst) as (? & ? & ?).
    split; simpl; try done; lia. }
  destruct (IH cb1 Hok1 eq_refl Hf) as (? & ? & Hfl & ?); [simpl; lia|].
  simpl in Hfl. split_and!; auto; lia.
Qed.

Lemma Execute_probe_success cb t0 t1 t2 :
  breaker_ok cb → state cb = CircuitOpen → halfOpenCalls cb < halfOpenMax cb →
  after_window cb (t0, t1, t2, None) →
  Execute (Some cb) t0 t1 t2 None =
    (Some (if halfOpenMax cb <=? successes cb + 1 then reset cb
           else with_counts cb CircuitOpen (failures cb) (successes cb + 1)
                  (lastFailure cb) (halfOpenCalls cb + 1)), None).
Proof.
  intros [Ht Hr Hm Hc Hs Hst Hcl] Es Hlt [Hw1 Hw2]; simpl in *.
  unfold Execute, beforeCall, currentState. rewrite Es.
  rewrite (proj2 (Z.leb_le _ _)) by done. rewrite (proj2 (Z.leb_gt _ _)) by lia.
  unfold afterCall, currentState, with_counts; simpl.
  rewrite (proj2 (Z.leb_le _ _)) by done. simpl. wrap_id.
  by destruct (halfOpenMax cb <=? _).
Qed.

(** In every state reachable by interleaving calls, the breaker's counters
    stay within its configuration: at most [halfOpenMax] probes are accounted,
    and a closed breaker has recorded fewer failures than its threshold. *)
Theorem breaker_invariant nm cfg t w :
  config_in_range cfg → rtc step (init nm cfg t) w → breaker_ok (breaker w).
Proof.
  intros Hcfg Hr. assert (Hi : breaker_ok (breaker (init nm cfg t))) by (simpl; auto with go).
  induction Hr as [|x y z Hxy _ IH]; [done|]. apply IH. by eapply step_ok.
Qed.

Lemma breaker_invariant_witness :
  breaker_ok (breaker {| breaker := Reset (NewCircuitBreaker "api" DefaultCircuitBreakerConfig);
                         clock := 7; running := 0%nat |}).
Proof.
  apply (breaker_invariant "api" DefaultCircuitBreakerConfig 7).
  - apply default_config_in_range.
  - apply rtc_once. apply (step_reset (init "api" DefaultCircuitBreakerConfig 7)).
Defined.

(** A new breaker lets calls through until exactly [failureThreshold]
    consecutive retryable failures have been recorded: it is still closed after
    any fewer, and the failure that reaches the threshold opens it. *)
Theorem opens_exactly_at_threshold nm cfg cs :
  config_in_range cfg → Forall failing cs →
  let cb := NewCircuitBreaker nm cfg in
  (Z.of_nat (length cs) < failureThreshold cb →
     state (run_calls cb cs).1 = CircuitClosed) ∧
  (Z.of_nat (length cs) = failureThreshold cb →
     state (run_calls cb cs).1 = CircuitOpen).
Proof.
  intros Hcfg Hf cb. assert (Hok : breaker_ok cb) by (apply NewCircuitBreaker_ok; done).
  assert (Hz : failures cb = 0) by done. assert (Hst : state cb = CircuitClosed) by done.
  clearbody cb. split; intros Hlen.
  - apply failing_below_threshold; auto; lia.
  - destruct cs as [|c cs' _] using rev_ind.
    { cbn [length] in Hlen. destruct (ok_threshold _ Hok). lia. }
    rewrite run_calls_app. rewrite length_app in Hlen. cbn [length] in Hlen.
    apply Forall_app in Hf as [Hf1 Hf2]. apply Forall_singleton in Hf2 as [m Hm].
    destruct c as [[[t0 t1] t2] fn]; cbn in Hm; subst fn.
    destruct (failing_below_threshold cs' cb Hok Hst Hf1) as (H0 & H1 & H2 & H3); [lia|].
    rewrite (run_calls_cons _ _ _ _ _ _ _ _ (Execute_closed_failure _ t0 t1 t2 m H0 H1)).
    cbn [fst run_calls]. rewrite H2, H3. by rewrite (proj2 (Z.leb_le _ _)) by lia.
Qed.

(** A failing call used by the examples. *)
Definition fail_call : call := (0, 0, 0, Some (Other "connection refused")).

Lemma opens_exactly_at_threshold_witness :
  let cb := NewCircuitBreaker "api" DefaultCircuitBreakerConfig in
  state (run_calls cb (replicate 4 fail_call)).1 = CircuitClosed ∧
  state (run_calls cb (replicate 5 fail_call)).1 = CircuitOpen.
Proof.
  pose proof default_config_in_range as Hc.
  assert (Hf : ∀ n, Forall failing (replicate n fail_call))
    by (intros n; apply Forall_replicate; by eexists).
  split.
  - by apply (opens_exactly_at_threshold "api" _ _ Hc (Hf 4%nat)).
  - by apply (opens_exactly_at_threshold "api" _ _ Hc (Hf 5%nat)).
Defined.

(** While the open window has not elapsed, a call is refused with
    [ErrCircuitOpen], the guarded function is not run (its result does not
    matter) and the breaker does not change. *)
Theorem open_fails_fast cb t0 t1 t2 fn :
  state cb = CircuitOpen → time_sub t0 (lastFailure cb) < resetTimeout cb →
  Execute (Some cb) t0 t1 t2 fn = (Some cb, Some (ErrCircuitOpen (name cb))).
Proof.
  intros Es Hlt. unfold Execute, beforeCall, currentState. rewrite Es.
  by rewrite (proj2 (Z.leb_gt _ _)) by done.
Qed.

Definition open_breaker : CircuitBreaker :=
  (run_calls (NewCircuitBreaker "api" DefaultCircuitBreakerConfig) (replicate 5 fail_call)).1.

Lemma open_breaker_ok : breaker_ok open_breaker.
Proof. split; vm_compute; intuition discriminate. Qed.

Lemma open_fails_fast_witness :
  Execute (Some open_breaker) Second Second Second None =
    (Some open_breaker, Some (ErrCircuitOpen "api")).
Proof. apply (open_fails_fast open_breaker); vm_compute; reflexivity. Defined.

(** Recovery: once the window has elapsed, [halfOpenMax] successful probes
    in a row close an open breaker that has no probe outstanding, and clear its
    counters. *)
Theorem probes_close_breaker cb cs :
  breaker_ok cb → state cb = CircuitOpen → halfOpenCalls cb = successes cb →
  Forall succeeding cs → Forall (after_window cb) cs →
  successes cb + Z.of_nat (length cs) = halfOpenMax cb →
  (run_calls cb cs).1 = reset cb.
Proof.
  revert cb. induction cs as [|[[[t0 t1] t2] fn] cs IH];
    intros cb Hok Es Hc Hsu Haw Hlen; cbn [length] in Hlen; [destruct Hok; lia|].
  apply Forall_cons in Hsu as [Hfn Hsu]. unfold succeeding in Hfn; simpl in Hfn; subst fn.
  apply Forall_cons in Haw as [Hw Haw].
  assert (Hlt : halfOpenCalls cb < halfOpenMax cb) by lia.
  pose proof (Execute_probe_success cb t0 t1 t2 Hok Es Hlt Hw) as Hex.
  rewrite (run_calls_cons _ _ _ _ _ _ _ _ Hex). cbn [fst]. destruct (Z.leb_spec (halfOpenMax cb) (successes cb + 1)) as [Hle|Hgt].
  - destruct cs; [done|cbn [length] in *; lia].
  - set (cb' := with_counts _ _ _ _ _ _).
    assert (Hok' : breaker_ok cb').
    { destruct Hok. split; simpl; first [lia | discriminate | done]. }
    by rewrite (IH cb' Hok' eq_refl ltac:(simpl; lia) Hsu Haw ltac:(simpl; lia)).
Qed.

Definition probe_call : call := (60 * Second, 60 * Second, 60 * Second, None).

Lemma probes_close_breaker_witness :
  (run_calls open_breaker [probe_call]).1 = reset open_breaker.
Proof.
  apply probes_close_breaker; try (vm_compute; reflexivity).
  - apply open_breaker_ok.
  - repeat constructor.
  - apply Forall_singleton. split; vm_compute; discriminate.
Defined.

Lemma wedged_refuses cb now :
  state cb = CircuitOpen → halfOpenCalls cb = halfOpenMax cb → beforeCall cb now = (cb, false).
Proof.
  intros Es Ec. unfold beforeCall, currentState. rewrite Es.
  destruct (_ <=? _); [|done]. by rewrite (proj2 (Z.leb_le _ _)) by lia.
Qed.

(** A probe that ends with a non-retryable error does not give its slot
    back.  With the default configuration the open breaker then refuses every
    later call, at any time: after such a probe no sequence of calls ever has
    one admitted. *)
Theorem noretry_probe_wedges cb t0 t1 t2 msg cs :
  breaker_ok cb → state cb = CircuitOpen → halfOpenMax cb = 1 → halfOpenCalls cb = 0 →
  resetTimeout cb ≤ time_sub t0 (lastFailure cb) →
  ∃ cb', Execute (Some cb) t0 t1 t2 (Some (NoRetry msg)) =
           (Some cb', Some (ErrCall (NoRetry msg))) ∧
         run_calls cb' cs = (cb', replicate (length cs) (Some (ErrCircuitOpen (name cb)))).
Proof.
  intros Hok Es Em Ec Hw.
  set (cb' := with_counts cb CircuitOpen (failures cb) (successes cb) (lastFailure cb) 1).
  exists cb'. split.
  - unfold Execute, beforeCall, currentState. rewrite Es.
    rewrite (proj2 (Z.leb_le _ _)) by done. rewrite (proj2 (Z.leb_gt _ _)) by lia.
    rewrite Ec. done.
  - induction cs as [|[[[s0 s1] s2] fn] cs IH]; [done|].
    simpl. rewrite (wedged_refuses cb') by (simpl; congruence). by rewrite IH.
Qed.

Lemma noretry_probe_wedges_witness :
  ∃ cb', Execute (Some open_breaker) (60 * Second) (60 * Second) (60 * Second)
           (Some (NoRetry "404")) = (Some cb', Some (ErrCall (NoRetry "404"))) ∧
         run_calls cb' [(10 ^ 18, 10 ^ 18, 10 ^ 18, None)] = (cb', [Some (ErrCircuitOpen "api")]).
Proof.
  apply (noretry_probe_wedges open_breaker (60 * Second) _ _ "404"
           [(10 ^ 18, 10 ^ 18, 10 ^ 18, None)]); try (vm_compute; reflexivity).
  - apply open_breaker_ok.
  - vm_compute. discriminate.
Defined.

End CoreCircuit.
