(* ===== verification/GracefulCircuit.v ===== *)
(** * GracefulCircuit: per-backend circuit breakers of the reverse proxy
    ([internal/deploy/graceful/circuit.go])

    Unlike the breaker of [CoreCircuit], this one stores its half-open state and
    leaves the open state only inside [AllowRequest]. *)

From S2P Require Import Prelude.
#[local] Open Scope Z_scope.

Module GracefulCircuit.

(** src/internal/deploy/graceful/circuit.go:10-10 CircuitState *)
Inductive CircuitState := CircuitClosed | CircuitOpen | CircuitHalfOpen.

#[global] Instance CircuitState_eq_dec : EqDecision CircuitState.
Proof. solve_decision. Defined.

(** src/internal/deploy/graceful/circuit.go:21-32 CircuitState.String *)
Definition CircuitState_String (s : CircuitState) : string :=
  match s with
  | CircuitClosed => "closed"
  | CircuitOpen => "open"
  | CircuitHalfOpen => "half-open"
  end.

(** src/internal/deploy/graceful/circuit.go:35-42 CircuitConfig *)
Record CircuitConfig := {
  FailureThreshold : Z;
  SuccessThreshold : Z;
  Timeout : duration }.

(** src/internal/deploy/graceful/circuit.go:45-51 DefaultCircuitConfig *)
Definition DefaultCircuitConfig : CircuitConfig :=
  {| FailureThreshold := 5; SuccessThreshold := 2; Timeout := 30 * Second |}.

(** src/internal/deploy/graceful/circuit.go:54-64 CircuitBreaker *)
Record CircuitBreaker := {
  state : CircuitState;
  failureCount : Z;
  successCount : Z;
  lastFailTime : instant;
  lastStateChange : instant;
  config : CircuitConfig }.

(** src/internal/deploy/graceful/circuit.go:67-73 NewCircuitBreaker *)
Definition NewCircuitBreaker (c : CircuitConfig) (now : instant) : CircuitBreaker :=
  {| state := CircuitClosed; failureCount := 0; successCount := 0;
     lastFailTime := zero_time; lastStateChange := now; config := c |}.

Definition update (cb : CircuitBreaker) (st : CircuitState) (f s : Z)
    (lf lc : instant) : CircuitBreaker :=
  {| state := st; failureCount := f; successCount := s;
     lastFailTime := lf; lastStateChange := lc; config := config cb |}.

(** src/internal/deploy/graceful/circuit.go:76-97 CircuitBreaker.AllowRequest *)
Definition AllowRequest (cb : CircuitBreaker) (now : instant) : CircuitBreaker * bool :=
  match state cb with
  | CircuitClosed => (cb, true)
  | CircuitOpen =>
      if Timeout (config cb) <? time_sub now (lastFailTime cb)
      then (update cb CircuitHalfOpen (failureCount cb) 0 (lastFailTime cb) now, true)
      else (cb, false)
  | CircuitHalfOpen => (cb, true)
  end.

(** src/internal/deploy/graceful/circuit.go:100-117 CircuitBreaker.RecordSuccess *)
Definition RecordSuccess (cb : CircuitBreaker) (now : instant) : CircuitBreaker :=
  match state cb with
  | CircuitClosed =>
      update cb CircuitClosed 0 (successCount cb) (lastFailTime cb) (lastStateChange cb)
  | CircuitHalfOpen =>
      let s := i64 (successCount cb + 1) in
      if SuccessThreshold (config cb) <=? s
      then update cb CircuitClosed 0 0 (lastFailTime cb) now
      else update cb CircuitHalfOpen (failureCount cb) s (lastFailTime cb) (lastStateChange cb)
  | CircuitOpen => cb
  end.

(** src/internal/deploy/graceful/circuit.go:120-139 CircuitBreaker.RecordFailure *)
Definition RecordFailure (cb : CircuitBreaker) (now : instant) : CircuitBreaker :=
  match state cb with
  | CircuitClosed =>
      let f := i64 (failureCount cb + 1) in
      if FailureThreshold (config cb) <=? f
      then update cb CircuitOpen f (successCount cb) now now
      else update cb CircuitClosed f (successCount cb) now (lastStateChange cb)
  | CircuitHalfOpen => update cb CircuitOpen (failureCount cb) 0 now now
  | CircuitOpen =>
      update cb CircuitOpen (failureCount cb) (successCount cb) now (lastStateChange cb)
  end.

(** src/internal/deploy/graceful/circuit.go:142-146 CircuitBreaker.State *)
Definition State (cb : CircuitBreaker) : CircuitState := state cb.

(** src/internal/deploy/graceful/circuit.go:149-156 CircuitBreaker.Reset *)
Definition Reset (cb : CircuitBreaker) (now : instant) : CircuitBreaker :=
  update cb CircuitClosed 0 0 (lastFailTime cb) now.

(** src/internal/deploy/graceful/circuit.go:172-178 CircuitStats *)
Record CircuitStats := {
  stState : CircuitState;
  stFailureCount : Z;
  stSuccessCount : Z;
  stLastFailTime : instant;
  stLastStateChange : instant }.

(** src/internal/deploy/graceful/circuit.go:159-169 CircuitBreaker.Stats *)
Definition Stats (cb : CircuitBreaker) : CircuitStats :=
  {| stState := state cb; stFailureCount := failureCount cb;
     stSuccessCount := successCount cb; stLastFailTime := lastFailTime cb;
     stLastStateChange := lastStateChange cb |}.

(** ** The manager: one breaker per backend, created on first use

    src/internal/deploy/graceful/circuit.go:181-185 CircuitBreakerManager *)
Record CircuitBreakerManager := {
  breakers : gmap string CircuitBreaker;
  mconfig : CircuitConfig }.

(** src/internal/deploy/graceful/circuit.go:188-193 NewCircuitBreakerManager *)
Definition NewCircuitBreakerManager (c : CircuitConfig) : CircuitBreakerManager :=
  {| breakers := ∅; mconfig := c |}.

Definition set_breaker (m : CircuitBreakerManager) (b : string) (cb : CircuitBreaker)
  : CircuitBreakerManager :=
  {| breakers := <[b := cb]> (breakers m); mconfig := mconfig m |}.

(** The breaker of a backend, a fresh one when there is none. *)
Definition breaker_of (m : CircuitBreakerManager) (b : string) (now : instant) : CircuitBreaker :=
  default (NewCircuitBreaker (mconfig m) now) (breakers m !! b).

(** src/internal/deploy/graceful/circuit.go:196-212 CircuitBreakerManager.AllowRequest *)
Definition M_AllowRequest (m : CircuitBreakerManager) (b : string) (now : instant)
  : CircuitBreakerManager * bool :=
  let (cb, ok) := AllowRequest (breaker_of m b now) now in (set_breaker m b cb, ok).

(** src/internal/deploy/graceful/circuit.go:215-223 CircuitBreakerManager.RecordSuccess *)
Definition M_RecordSuccess (m : CircuitBreakerManager) (b : string) (now : instant)
  : CircuitBreakerManager :=
  match breakers m !! b with
  | Some cb => set_breaker m b (RecordSuccess cb now)
  | None => m
  end.

(** src/internal/deploy/graceful/circuit.go:226-246 CircuitBreakerManager.RecordFailure *)
Definition M_RecordFailure (m : CircuitBreakerManager) (b : string) (now : instant)
  : CircuitBreakerManager :=
  set_breaker m b (RecordFailure (breaker_of m b now) now).

(** src/internal/deploy/graceful/circuit.go:249-258 CircuitBreakerManager.State *)
Definition M_State (m : CircuitBreakerManager) (b : string) : CircuitState :=
  match breakers m !! b with Some cb => State cb | None => CircuitClosed end.

(** src/internal/deploy/graceful/circuit.go:261-269 CircuitBreakerManager.Reset *)
Definition M_Reset (m : CircuitBreakerManager) (b : string) (now : instant)
  : CircuitBreakerManager :=
  match breakers m !! b with
  | Some cb => set_breaker m b (Reset cb now)
  | None => m
  end.

(** src/internal/deploy/graceful/circuit.go:272-281 CircuitBreakerManager.Stats *)
Definition M_Stats (m : CircuitBreakerManager) (b : string) : option CircuitStats :=
  Stats <$> breakers m !! b.

(** src/internal/deploy/graceful/circuit.go:284-293 CircuitBreakerManager.AllStats *)
Definition M_AllStats (m : CircuitBreakerManager) : gmap string CircuitStats :=
  Stats <$> breakers m.

(** src/internal/deploy/graceful/circuit.go:296-298 CircuitBreakerManager.IsOpen *)
Definition M_IsOpen (m : CircuitBreakerManager) (b : string) : bool :=
  bool_decide (M_State m b = CircuitOpen).

(** src/internal/deploy/graceful/circuit.go:301-303 CircuitBreakerManager.IsAvailable *)
Definition M_IsAvailable (m : CircuitBreakerManager) (b : string) (now : instant)
  : CircuitBreakerManager * bool := M_AllowRequest m b now.

(** ** Events of one backend *)

Inductive event :=
| EvAllow (now : instant)
| EvSuccess (now : instant)
| EvFailure (now : instant)
| EvReset (now : instant).

Definition apply_event (m : CircuitBreakerManager) (b : string) (e : event)
  : CircuitBreakerManager :=
  match e with
  | EvAllow now => (M_AllowRequest m b now).1
  | EvSuccess now => M_RecordSuccess m b now
  | EvFailure now => M_RecordFailure m b now
  | EvReset now => M_Reset m b now
  end.

Definition run (m : CircuitBreakerManager) (evs : list (string * event))
  : CircuitBreakerManager :=
  foldl (λ m e, apply_event m e.1 e.2) m evs.

Definition config_ok (c : CircuitConfig) : Prop :=
  0 < FailureThreshold c ≤ max_int64 ∧ 0 < SuccessThreshold c ≤ max_int64.

(** Every breaker carries the manager's configuration, a closed breaker has
    fewer failures than the threshold, a half-open one fewer successes than
    needed to close. *)
Definition cb_ok (c : CircuitConfig) (cb : CircuitBreaker) : Prop :=
  config cb = c ∧
  (state cb = CircuitClosed → 0 ≤ failureCount cb < FailureThreshold c) ∧
  (state cb = CircuitHalfOpen → 0 ≤ successCount cb < SuccessThreshold c).

Definition manager_ok (m : CircuitBreakerManager) : Prop :=
  map_Forall (λ _ cb, cb_ok (mconfig m) cb) (breakers m).

Section preservation.
Context (c : CircuitConfig) (Hc : config_ok c).
Implicit Types (cb : CircuitBreaker) (now : instant).

Lemma new_ok now : cb_ok c (NewCircuitBreaker c now).
Proof. destruct Hc. split_and!; simpl; try done; lia. Qed.

Lemma allow_ok cb now : cb_ok c cb → cb_ok c (AllowRequest cb now).1.
Proof.
  destruct Hc as [_ ?]. intros (? & ? & ?). unfold AllowRequest.
  destruct (state cb) eqn:E; [| |]; simpl; [by split_and!; rewrite ?E| |by split_and!; rewrite ?E].
  destruct (_ <? _); simpl; [|by split_and!; rewrite ?E]. split_and!; simpl; try done; lia.
Qed.

Lemma success_ok cb now : cb_ok c cb → cb_ok c (RecordSuccess cb now).
Proof.
  destruct Hc as [? ?]. intros (Ec & ? & Hh). unfold RecordSuccess.
  destruct (state cb) eqn:E; simpl.
  - split_and!; simpl; try done; lia.
  - by split_and!; rewrite ?E.
  - specialize (Hh eq_refl). rewrite Ec. wrap_id.
    destruct (_ <=? _) eqn:El; bools; split_and!; simpl; try done; lia.
Qed.

Lemma failure_ok cb now : cb_ok c cb → cb_ok c (RecordFailure cb now).
Proof.
  destruct Hc as [? ?]. intros (Ec & Hf & Hh). unfold RecordFailure.
  destruct (state cb) eqn:E; simpl.
  - specialize (Hf eq_refl). rewrite Ec. wrap_id.
    destruct (_ <=? _) eqn:El; bools; split_and!; simpl; try done; lia.
  - split_and!; simpl; done.
  - split_and!; simpl; done.
Qed.

Lemma greset_ok cb now : cb_ok c cb → cb_ok c (Reset cb now).
Proof. destruct Hc. intros (? & ? & ?). split_and!; simpl; try done; lia. Qed.

End preservation.

#[export] Hint Resolve new_ok allow_ok success_ok failure_ok greset_ok : go.

Lemma breaker_of_ok m b now :
  config_ok (mconfig m) → manager_ok m → cb_ok (mconfig m) (breaker_of m b now).
Proof.
  intros Hc Hm. unfold breaker_of. destruct (breakers m !! b) as [cb|] eqn:E; simpl.
  - by apply (Hm b).
  - auto with go.
Qed.

Lemma set_breaker_ok m b cb :
  manager_ok m → cb_ok (mconfig m) cb → manager_ok (set_breaker m b cb).
Proof. intros Hm Hcb. by apply map_Forall_insert_2. Qed.

#[export] Hint Resolve breaker_of_ok set_breaker_ok : go.

Lemma apply_event_config m b e : mconfig (apply_event m b e) = mconfig m.
Proof.
  destruct e; simpl; unfold M_AllowRequest, M_RecordSuccess, M_Reset;
    repeat case_match; done.
Qed.

Lemma apply_event_ok m b e :
  config_ok (mconfig m) → manager_ok m → manager_ok (apply_event m b e).
Proof.
  intros Hc Hm. pose proof (λ now, breaker_of_ok m b now Hc Hm) as Hb.
  destruct e as [now|now|now|now]; simpl.
  - unfold M_AllowRequest. pose proof (allow_ok _ Hc _ now (Hb now)) as Ha.
    destruct (AllowRequest _ _); simpl in *. auto with go.
  - unfold M_RecordSuccess. destruct (breakers m !! b) eqn:E; auto with go.
    apply set_breaker_ok; auto. apply success_ok; auto. by apply (Hm b).
  - unfold M_RecordFailure. auto with go.
  - unfold M_Reset. destruct (breakers m !! b) eqn:E; auto with go.
    apply set_breaker_ok; auto. apply greset_ok; auto. by apply (Hm b).
Qed.

Lemma run_config evs : ∀ m, mconfig (run m evs) = mconfig m.
Proof.
  induction evs as [|e evs IH]; intros m; [done|].
  cbn. by rewrite IH, apply_event_config.
Qed.

Lemma run_ok evs : ∀ m, config_ok (mconfig m) → manager_ok m → manager_ok (run m evs).
Proof.
  induction evs as [|[b e] evs IH]; intros m Hc Hm; [done|].
  cbn. apply IH; [by rewrite apply_event_config|by apply apply_event_ok].
Qed.

(** Without [AllowRequest] and without [Reset], an open breaker stays open. *)
Definition passive (e : string * event) : Prop :=
  match e.2 with EvSuccess _ | EvFailure _ => True | _ => False end.

Lemma set_breaker_State m b cb b' :
  M_State (set_breaker m b cb) b' = if decide (b = b') then state cb else M_State m b'.
Proof.
  unfold M_State, set_breaker; simpl. rewrite lookup_insert.
  by destruct (decide (b = b')).
Qed.

Lemma apply_passive_open m b b' e :
  passive (b', e) → M_State m b = CircuitOpen → M_State (apply_event m b' e) b = CircuitOpen.
Proof.
  unfold passive; simpl. intros Hp Ho. destruct e as [|now|now|]; try done; simpl.
  - unfold M_RecordSuccess. destruct (breakers m !! b') as [cb|] eqn:E; [|done].
    rewrite set_breaker_State. case_decide; [|done]. subst.
    unfold M_State in Ho. rewrite E in Ho. unfold RecordSuccess, State in *. by rewrite Ho.
  - unfold M_RecordFailure. rewrite set_breaker_State. case_decide; [|done]. subst.
    unfold M_State in Ho. unfold breaker_of. destruct (breakers m !! b) as [cb|]; [|done].
    simpl. unfold RecordFailure, State in *. by rewrite Ho.
Qed.

Lemma run_passive_open evs : ∀ m b,
  Forall passive evs → M_State m b = CircuitOpen → M_State (run m evs) b = CircuitOpen.
Proof.
  induction evs as [|[b' e] evs IH]; intros m b Hp Ho; [done|].
  apply Forall_cons in Hp as [He Hp]. cbn. apply IH; auto. by apply apply_passive_open.
Qed.

(** Whatever sequence of requests, results and resets the proxy reports,
    every breaker of the manager keeps its configuration, a closed breaker has
    recorded fewer failures than [FailureThreshold] and a half-open one fewer
    successes than [SuccessThreshold]. *)
Theorem manager_invariant c evs :
  config_ok c →
  mconfig (run (NewCircuitBreakerManager c) evs) = c ∧
  manager_ok (run (NewCircuitBreakerManager c) evs).
Proof.
  intros Hc. split; [apply run_config|]. apply run_ok; [done|]. by apply map_Forall_empty.
Qed.

Lemma manager_invariant_witness :
  manager_ok (run (NewCircuitBreakerManager DefaultCircuitConfig)
                [("web:80", EvFailure 5); ("web:80", EvSuccess 6)]).
Proof.
  apply (manager_invariant DefaultCircuitConfig
           [("web:80", EvFailure 5); ("web:80", EvSuccess 6)]).
  split; simpl; unfold max_int64; lia.
Defined.

(** Recovery protocol: an open breaker refuses requests until [Timeout] has
    passed since the last failure; the first request after that is let through
    and moves it to half-open, from where [SuccessThreshold] successes close it
    and a single failure opens it again. *)
Theorem open_recovers_through_half_open cb now t :
  state cb = CircuitOpen → cb_ok (config cb) cb → config_ok (config cb) →
  (time_sub now (lastFailTime cb) ≤ Timeout (config cb) → AllowRequest cb now = (cb, false)) ∧
  (Timeout (config cb) < time_sub now (lastFailTime cb) →
     ∃ h, AllowRequest cb now = (h, true) ∧ state h = CircuitHalfOpen ∧
       state (RecordFailure h t) = CircuitOpen ∧
       (∀ n : nat, Z.of_nat n < SuccessThreshold (config cb) →
          state (Nat.iter n (λ x, RecordSuccess x t) h) = CircuitHalfOpen) ∧
       (∀ n : nat, Z.of_nat n = SuccessThreshold (config cb) →
          state (Nat.iter n (λ x, RecordSuccess x t) h) = CircuitClosed)).
Proof.
  intros Es Hok Hc. unfold AllowRequest. rewrite Es. split; intros Hw.
  { by rewrite (proj2 (Z.ltb_ge _ _)) by lia. }
  rewrite (proj2 (Z.ltb_lt _ _)) by lia. set (h := update _ _ _ _ _ _).
  exists h. assert (Hn : ∀ n : nat, Z.of_nat n < SuccessThreshold (config cb) →
    Nat.iter n (λ x, RecordSuccess x t) h =
      update h CircuitHalfOpen (failureCount h) (Z.of_nat n) (lastFailTime h) (lastStateChange h)).
  { induction n as [|n IH]; intros Hn; [done|]. simpl. rewrite IH by lia.
    destruct Hc as [_ ?]. unfold RecordSuccess; simpl. wrap_id.
    rewrite (proj2 (Z.leb_gt _ _)) by lia. unfold update; simpl. f_equal; lia. }
  split_and!; auto.
  - intros n Hlt. by rewrite Hn.
  - intros [|n] Heq; [destruct Hc; lia|]. simpl. rewrite Hn by lia.
    destruct Hc as [_ ?]. unfold RecordSuccess; simpl. wrap_id.
    by rewrite (proj2 (Z.leb_le _ _)) by lia.
Qed.

Definition opened : CircuitBreaker :=
  Nat.iter 5 (λ x, RecordFailure x 10) (NewCircuitBreaker DefaultCircuitConfig 1).

Lemma open_recovers_through_half_open_witness :
  AllowRequest opened 20 = (opened, false) ∧
  ∃ h, AllowRequest opened (40 * Second) = (h, true) ∧ state h = CircuitHalfOpen.
Proof.
  assert (Hok : cb_ok (config opened) opened) by (vm_compute; intuition discriminate).
  assert (Hc : config_ok (config opened)) by (vm_compute; intuition discriminate).
  split.
  - apply (open_recovers_through_half_open opened 20 0 eq_refl Hok Hc). vm_compute. discriminate.
  - destruct (open_recovers_through_half_open opened (40 * Second) 0 eq_refl Hok Hc)
      as [_ (h & ? & ? & _)]; [vm_compute; reflexivity|]. exists h; split; assumption.
Defined.

End GracefulCircuit.
