(* ===== verification/GracefulConn.v ===== *)
(** * GracefulConn: connection tracking and draining
    ([internal/deploy/graceful/connection.go])

    The counters live behind pointers ([map[string]*int64]) that never leave the
    tracker and are never replaced, so a map of integers models them.  A drain's
    [Done] channel is represented by a fresh identifier; closing it is recorded
    in [closed], because closing a closed channel panics. *)

From S2P Require Import Prelude.
#[local] Open Scope Z_scope.

Module GracefulConn.

(** src/internal/deploy/graceful/connection.go:11-14 ConnectionTracker *)
Record ConnectionTracker := { conns : gmap string Z }.

(** src/internal/deploy/graceful/connection.go:17-21 NewConnectionTracker *)
Definition NewConnectionTracker : ConnectionTracker := {| conns := ∅ |}.

(** src/internal/deploy/graceful/connection.go:24-35 ConnectionTracker.Increment *)
Definition Increment (ct : ConnectionTracker) (id : string) : ConnectionTracker :=
  {| conns := <[id := i64 (default 0 (conns ct !! id) + 1)]> (conns ct) |}.

(** src/internal/deploy/graceful/connection.go:38-45 ConnectionTracker.Decrement *)
Definition Decrement (ct : ConnectionTracker) (id : string) : ConnectionTracker :=
  match conns ct !! id with
  | Some n => if 0 <? n then {| conns := <[id := n - 1]> (conns ct) |} else ct
  | None => ct
  end.

(** src/internal/deploy/graceful/connection.go:48-56 ConnectionTracker.Active *)
Definition Active (ct : ConnectionTracker) (id : string) : Z := default 0 (conns ct !! id).

(** Addition wraps, so the order in which the map is ranged over is irrelevant.
    src/internal/deploy/graceful/connection.go:59-68 ConnectionTracker.Total *)
Definition Total (ct : ConnectionTracker) : Z :=
  map_fold (λ _ n acc, i64 (acc + n)) 0 (conns ct).

(** src/internal/deploy/graceful/connection.go:71-76 DrainState *)
Record DrainState := {
  ContainerID : string;
  StartTime : instant;
  ActiveConns : Z;
  Done : nat }.

(** [next] is the identifier of the next channel to be made.
    src/internal/deploy/graceful/connection.go:79-83 DrainManager *)
Record DrainManager := {
  draining : gmap string DrainState;
  tracker : ConnectionTracker;
  next : nat;
  closed : gset nat }.

(** src/internal/deploy/graceful/connection.go:86-91 NewDrainManager *)
Definition NewDrainManager (t : ConnectionTracker) : DrainManager :=
  {| draining := ∅; tracker := t; next := 0; closed := ∅ |}.

(** src/internal/deploy/graceful/connection.go:94-110 DrainManager.StartDrain *)
Definition StartDrain (dm : DrainManager) (id : string) (now : instant)
  : DrainManager * option nat :=
  match draining dm !! id with
  | Some _ => (dm, None)
  | None =>
      let st := {| ContainerID := id; StartTime := now;
                   ActiveConns := Active (tracker dm) id; Done := next dm |} in
      ({| draining := <[id := st]> (draining dm); tracker := tracker dm;
          next := S (next dm); closed := closed dm |}, Some (Done st))
  end.

(** [None] is the panic of closing a closed channel.
    src/internal/deploy/graceful/connection.go:113-121 DrainManager.CompleteDrain *)
Definition CompleteDrain (dm : DrainManager) (id : string) : option DrainManager :=
  match draining dm !! id with
  | Some st =>
      if decide (Done st ∈ closed dm) then None
      else Some {| draining := delete id (draining dm); tracker := tracker dm;
                   next := next dm; closed := {[Done st]} ∪ closed dm |}
  | None => Some dm
  end.

(** src/internal/deploy/graceful/connection.go:124-129 DrainManager.IsDraining *)
Definition IsDraining (dm : DrainManager) (id : string) : bool :=
  bool_decide (is_Some (draining dm !! id)).

(** What the wait loop sees: either the 100ms ticker fires and the tracker is
    read at that moment, or the deadline does.  When both are ready Go's
    [select] may take either, so the sequence of observations is an input. *)
Inductive observation := Tick (t : ConnectionTracker) | Deadline.

(** src/internal/deploy/graceful/connection.go:157-157 ErrDrainTimeout *)
Inductive drain_error := ErrDrainTimeout.

(** The loop of [WaitForDrain]; [None] while it still waits. *)
Fixpoint wait_loop (id : string) (obs : list observation) : option (option drain_error) :=
  match obs with
  | [] => None
  | Tick t :: obs' => if Active t id =? 0 then Some None else wait_loop id obs'
  | Deadline :: _ => Some (Some ErrDrainTimeout)
  end.

(** [StartDrain], the loop, and the deferred [CompleteDrain].  The result is
    [None] while the loop waits; the inner option is the panic.
    src/internal/deploy/graceful/connection.go:132-155 DrainManager.WaitForDrain *)
Definition WaitForDrain (dm : DrainManager) (id : string) (now : instant)
    (obs : list observation) : option (option (DrainManager * option drain_error)) :=
  match StartDrain dm id now with
  | (dm', None) => Some (Some (dm', None))
  | (dm', Some _) =>
      match wait_loop id obs with
      | None => None
      | Some err => Some ((λ d, (d, err)) <$> CompleteDrain dm' id)
      end
  end.

(** ** Invariants *)

(** Counters are non-negative and leave room for another connection. *)
Definition tracker_ok (ct : ConnectionTracker) : Prop :=
  map_Forall (λ _ n, 0 ≤ n < max_int64) (conns ct).

(** The channel of a drain in progress has been made, is open, and belongs to
    no other drain. *)
Record drain_ok (dm : DrainManager) : Prop := {
  d_fresh : ∀ id st, draining dm !! id = Some st → (Done st < next dm)%nat;
  d_open : ∀ id st, draining dm !! id = Some st → Done st ∉ closed dm;
  d_inj : ∀ id1 id2 st1 st2,
    draining dm !! id1 = Some st1 → draining dm !! id2 = Some st2 →
    Done st1 = Done st2 → id1 = id2;
  d_closed : ∀ c, c ∈ closed dm → (c < next dm)%nat }.

Lemma StartDrain_ok dm id now : drain_ok dm → drain_ok (StartDrain dm id now).1.
Proof.
  intros [Hf Ho Hi Hc]. unfold StartDrain. destruct (draining dm !! id) eqn:E; [by split|].
  split; simpl.
  - intros i st [(<- & <-)|[? H]]%lookup_insert_Some; simpl; [lia|]. apply Hf in H. lia.
  - intros i st [(<- & <-)|[? H]]%lookup_insert_Some; simpl; [|by eapply Ho].
    intros ?%Hc. lia.
  - intros i j s1 s2 [(<- & <-)|[? H1]]%lookup_insert_Some
      [(<- & <-)|[? H2]]%lookup_insert_Some; simpl; try done.
    + apply Hf in H2. lia.
    + apply Hf in H1. lia.
    + by apply Hi.
  - intros c ?%Hc. lia.
Qed.

Lemma CompleteDrain_ok dm id : drain_ok dm → ∃ dm', CompleteDrain dm id = Some dm' ∧
  drain_ok dm' ∧ draining dm' = delete id (draining dm) ∧ tracker dm' = tracker dm.
Proof.
  intros [Hf Ho Hi Hc]. unfold CompleteDrain.
  destruct (draining dm !! id) as [st|] eqn:E.
  - rewrite decide_False by eauto. eexists; split_and!; [done| |done|done]. split; simpl.
    + intros i s [? H]%lookup_delete_Some. eauto.
    + intros i s [? H]%lookup_delete_Some. rewrite not_elem_of_union, not_elem_of_singleton.
      split; [|by eapply Ho]. intros Hd. apply (Hi i id s st) in Hd; auto.
    + intros i j s1 s2 [? H1]%lookup_delete_Some [? H2]%lookup_delete_Some. eauto.
    + intros c. rewrite elem_of_union, elem_of_singleton. intros [->|H]; eauto.
  - exists dm. split_and!; [done|by split| |done]. symmetry. by apply delete_id.
Qed.

Lemma wait_loop_returns id obs :
  (Exists (λ o, o = Deadline ∨ ∃ t, o = Tick t ∧ Active t id = 0) obs) →
  is_Some (wait_loop id obs).
Proof.
  induction 1 as [o obs Ho|o obs _ IH]; simpl.
  - destruct Ho as [->|(t & -> & ->)]; eauto.
  - destruct o; eauto. case_match; eauto.
Qed.

(** A connection that is opened and later closed leaves the count of every
    container as it was, and no sequence of closes makes a count negative. *)
Theorem increment_decrement_restores ct id id' :
  tracker_ok ct →
  Active (Increment ct id) id = Active ct id + 1 ∧
  Active (Decrement (Increment ct id) id) id' = Active ct id' ∧
  0 ≤ Active (Decrement ct id) id'.
Proof.
  intros Hok. assert (Hb : ∀ j, 0 ≤ default 0 (conns ct !! j) < max_int64).
  { intros j. destruct (conns ct !! j) eqn:E; simpl; [by apply (Hok j)|unfold max_int64; lia]. }
  assert (Hi : i64 (default 0 (conns ct !! id) + 1) = default 0 (conns ct !! id) + 1).
  { apply i64_id. specialize (Hb id). unfold in_i64, min_int64. lia. }
  unfold Increment. rewrite Hi. unfold Decrement, Active; simpl.
  rewrite lookup_insert_eq; simpl. split; [done|].
  specialize (Hb id) as Hid. rewrite (proj2 (Z.ltb_lt _ _)) by lia. simpl. split.
  - rewrite insert_insert_eq, lookup_insert. case_decide as Hd; simpl; [subst; lia|done].
  - destruct (conns ct !! id) eqn:E; simpl in *; [|apply Hb].
    case_match; simpl; [|apply Hb]. rewrite lookup_insert. case_decide; simpl; [bools; lia|apply Hb].
Qed.

Lemma increment_decrement_restores_witness :
  Active (Decrement (Increment {| conns := {["c1" := 3]} |} "c1") "c1") "c1" =
    Active {| conns := {["c1" := 3]} |} "c1".
Proof.
  apply (increment_decrement_restores {| conns := {["c1" := 3]} |} "c1" "c1").
  apply map_Forall_singleton. unfold max_int64. lia.
Defined.

(** Draining a container terminates as soon as a tick observes no active
    connection or the deadline fires; it never closes a channel twice, reports a
    timeout exactly when the deadline came first, and leaves no container marked
    as draining that was not before. *)
Theorem drain_terminates_and_cleans_up dm id now obs :
  drain_ok dm → draining dm !! id = None →
  Exists (λ o, o = Deadline ∨ ∃ t, o = Tick t ∧ Active t id = 0) obs →
  ∃ dm' err, WaitForDrain dm id now obs = Some (Some (dm', err)) ∧
    wait_loop id obs = Some err ∧ drain_ok dm' ∧ draining dm' = draining dm.
Proof.
  intros Hok Hn Hex. destruct (wait_loop_returns id obs Hex) as [err He].
  unfold WaitForDrain. pose proof (StartDrain_ok dm id now Hok) as Hs.
  unfold StartDrain in *. rewrite Hn in *. rewrite He. simpl in Hs.
  set (dm1 := {| draining := _ |}) in *.
  destruct (CompleteDrain_ok dm1 id Hs) as (dm' & -> & Hok' & Hd & _).
  exists dm', err. split_and!; auto. rewrite Hd. simpl. by apply delete_insert_id.
Qed.

Definition busy : ConnectionTracker := {| conns := {["c1" := 1]} |}.
Definition idle : ConnectionTracker := {| conns := {["c1" := 0]} |}.

Lemma drain_terminates_and_cleans_up_witness :
  ∃ dm' err,
    WaitForDrain (NewDrainManager busy) "c1" 9 [Tick busy; Tick idle] = Some (Some (dm', err)) ∧
    wait_loop "c1" [Tick busy; Tick idle] = Some err ∧ drain_ok dm' ∧
    draining dm' = draining (NewDrainManager busy).
Proof.
  apply drain_terminates_and_cleans_up.
  - split; simpl; [done..|]. intros c H. by apply elem_of_empty in H.
  - reflexivity.
  - apply Exists_cons_tl, Exists_cons_hd. right. by exists idle.
Defined.

End GracefulConn.
