(* ===== verification/Balancer.v ===== *)
(** * Balancer: the load balancing strategies ([internal/ingress/lb])

    Each strategy is a state with a [Next] operation.  Go panics on an empty
    backend list in [RoundRobin], [IPHash] and [Random] (integer division by
    zero), which is [None] here.  The class [Strategy] is the Go interface, the
    class [StrategyLaws] what the reverse proxy relies on: a pick from a
    non-empty pool is a member of the pool. *)

From S2P Require Import Prelude GoStrings GoNet.
#[local] Open Scope Z_scope.

Module Balancer.
Import GoNet.

(** What the strategies read of a request. *)
Record request := { RemoteAddr : string; XForwardedFor : string }.

(** src/internal/ingress/lb/balancer.go:14-16 Strategy *)
Class Strategy (S : Type) :=
  next : S → list string → request → S * option string.

(** [usable n s]: the strategy can serve [n] more requests.  Only [LeastConn]
    needs the budget, because it gives up on a backend whose counter has reached
    the largest [int64]. *)
Class StrategyLaws (S : Type) `{Strategy S} := {
  usable : nat → S → Prop;
  next_pick : ∀ n (s : S) bs r, usable (Datatypes.S n) s → bs ≠ [] → zlen bs < 2 ^ 32 →
    ∃ s' b, next s bs r = (s', Some b) ∧ b ∈ bs ∧ usable n s' }.

(** ** Round robin *)

(** src/internal/ingress/lb/balancer.go:39-41 RoundRobin *)
Record RoundRobin := { rr_counter : Z }.

(** src/internal/ingress/lb/balancer.go:43-46 RoundRobin.Next *)
Definition RoundRobin_Next (rr : RoundRobin) (backends : list string) (_ : request)
  : RoundRobin * option string :=
  let c := u64 (rr_counter rr + 1) in
  let idx := u64 (c - 1) in
  ({| rr_counter := c |},
   if zlen backends =? 0 then None
   else backends !! Z.to_nat (idx mod u64 (zlen backends))).

(** ** Least connections *)

(** src/internal/ingress/lb/balancer.go:49-52 LeastConn *)
Record LeastConn := { lc_conns : gmap string Z }.

(** src/internal/ingress/lb/balancer.go:54-56 NewLeastConn *)
Definition NewLeastConn : LeastConn := {| lc_conns := ∅ |}.

Definition conns_of (lc : LeastConn) (b : string) : Z := default 0 (lc_conns lc !! b).

(** The loop of [Next]: the first backend with the smallest count. *)
Definition least_step (lc : LeastConn) (acc : string * Z) (b : string) : string * Z :=
  if conns_of lc b <? acc.2 then (b, conns_of lc b) else acc.

(** src/internal/ingress/lb/balancer.go:58-75 LeastConn.Next *)
Definition LeastConn_Next (lc : LeastConn) (backends : list string) (_ : request)
  : LeastConn * option string :=
  let best := (foldl (least_step lc) ("", max_int64) backends).1 in
  ({| lc_conns := <[best := i64 (conns_of lc best + 1)]> (lc_conns lc) |}, Some best).

(** src/internal/ingress/lb/balancer.go:78-84 LeastConn.Release *)
Definition LeastConn_Release (lc : LeastConn) (b : string) : LeastConn :=
  if 0 <? conns_of lc b
  then {| lc_conns := <[b := conns_of lc b - 1]> (lc_conns lc) |} else lc.

(** ** Hashing *)

(** [hash/fnv]'s 32-bit FNV-1a. *)
Definition fnv32a (l : list ascii) : Z :=
  foldl (λ h c, u32 (Z.lxor h (Z.of_nat (nat_of_ascii c)) * 16777619)) 2166136261 l.

(** src/internal/ingress/lb/balancer.go:90-102 parseXFF *)
Definition parseXFF (raw : string) : string :=
  if decide (raw = "") then ""
  else
    let first := TrimSpace (str (before_first ","%char (bytes raw))) in
    let first := TrimSpace first in
    match ParseIP first with Some ip => IP_String ip | None => "" end.

(** src/internal/ingress/lb/balancer.go:105-105 IPHash *)
Record IPHash := mkIPHash {}.

(** src/internal/ingress/lb/balancer.go:107-118 IPHash.Next *)
Definition IPHash_Next (ih : IPHash) (backends : list string) (r : request)
  : IPHash * option string :=
  let ip := if decide (XForwardedFor r = "") then RemoteAddr r
            else let sanitized := parseXFF (XForwardedFor r) in
                 if decide (sanitized = "") then RemoteAddr r else sanitized in
  (ih, if u32 (zlen backends) =? 0 then None
       else backends !! Z.to_nat (fnv32a (bytes ip) mod u32 (zlen backends))).

(** src/internal/ingress/lb/balancer.go:121-123 Random *)
Record Random := { rn_counter : Z }.

(** src/internal/ingress/lb/balancer.go:125-134 Random.Next *)
Definition Random_Next (rn : Random) (backends : list string) (r : request)
  : Random * option string :=
  let c := u64 (rn_counter rn + 1) in
  let sum := u64 (fnv32a (bytes (RemoteAddr r)) + c) in
  ({| rn_counter := c |},
   if zlen backends =? 0 then None
   else backends !! Z.to_nat (sum mod u64 (zlen backends))).

(** ** Smooth weighted round robin *)

(** src/internal/ingress/lb/weighted.go:23-27 Weighted *)
Record Weighted := { weights : gmap string Z; current : gmap string Z }.

(** src/internal/ingress/lb/weighted.go:31-36 NewWeighted *)
Definition NewWeighted : Weighted := {| weights := ∅; current := ∅ |}.

(** src/internal/ingress/lb/weighted.go:42-52 Weighted.SetWeight *)
Definition SetWeight (w : Weighted) (b : string) (wt : Z) : Weighted :=
  {| weights := <[b := if wt <? 0 then 0 else wt]> (weights w);
     current := <[b := 0]> (current w) |}.

(** src/internal/ingress/lb/weighted.go:57-68 Weighted.SetWeights *)
Definition SetWeights (w : Weighted) (ws : gmap string Z) : Weighted :=
  {| weights := (λ wt, if wt <? 0 then 0 else wt) <$> ws; current := ∅ |}.

(** src/internal/ingress/lb/weighted.go:71-78 Weighted.Weight *)
Definition Weight (w : Weighted) (b : string) : Z := default 1 (weights w !! b).

Definition cur (m : gmap string Z) (b : string) : Z := default 0 (m !! b).

(** The state of the second loop of [Next]: running weights, best backend so
    far, its running weight, and whether none has been seen. *)
Record pick := { p_cur : gmap string Z; p_best : string; p_bestCur : Z; p_first : bool }.

Definition pick_step (w : Weighted) (st : pick) (b : string) : pick :=
  let wt := Weight w b in
  if wt =? 0 then st
  else
    let c := i64 (cur (p_cur st) b + wt) in
    let m := <[b := c]> (p_cur st) in
    if p_first st || (p_bestCur st <? c)
    then {| p_cur := m; p_best := b; p_bestCur := c; p_first := false |}
    else {| p_cur := m; p_best := p_best st; p_bestCur := p_bestCur st; p_first := p_first st |}.

Definition pick_init (w : Weighted) : pick :=
  {| p_cur := current w; p_best := ""; p_bestCur := 0; p_first := true |}.

Definition total_weight (w : Weighted) (backends : list string) : Z :=
  foldl (λ t b, i64 (t + Weight w b)) 0 backends.

(** src/internal/ingress/lb/weighted.go:91-133 Weighted.Next *)
Definition Weighted_Next (w : Weighted) (backends : list string) (_ : request)
  : Weighted * option string :=
  match backends with
  | [] => (w, Some "")
  | b0 :: _ =>
      let total := total_weight w backends in
      if total =? 0 then (w, Some b0)
      else
        let st := foldl (pick_step w) (pick_init w) backends in
        if decide (p_best st = "")
        then ({| weights := weights w; current := p_cur st |}, Some b0)
        else ({| weights := weights w;
                 current := <[p_best st := i64 (cur (p_cur st) (p_best st) - total)]> (p_cur st) |},
              Some (p_best st))
  end.

(** ** The strategies by name *)

(** src/internal/ingress/lb/balancer.go:23-36 New *)
Definition New (name : string)
  : RoundRobin + (LeastConn + (IPHash + (Random + Weighted))) :=
  if decide (name = "least-conn" ∨ name = "leastconn") then inr (inl NewLeastConn)
  else if decide (name = "ip-hash" ∨ name = "iphash") then inr (inr (inl mkIPHash))
  else if decide (name = "random") then inr (inr (inr (inl {| rn_counter := 0 |})))
  else if decide (name = "weighted") then inr (inr (inr (inr NewWeighted)))
  else inl {| rr_counter := 0 |}.

#[global] Instance RoundRobin_Strategy : Strategy RoundRobin := RoundRobin_Next.
#[global] Instance LeastConn_Strategy : Strategy LeastConn := LeastConn_Next.
#[global] Instance IPHash_Strategy : Strategy IPHash := IPHash_Next.
#[global] Instance Random_Strategy : Strategy Random := Random_Next.
#[global] Instance Weighted_Strategy : Strategy Weighted := Weighted_Next.

(** ** The interface laws *)

Lemma lookup_mod {A} (l : list A) (i m : Z) :
  l ≠ [] → m = zlen l → ∃ x, l !! Z.to_nat (i mod m) = Some x ∧ x ∈ l.
Proof.
  intros Hne ->. assert (0 < zlen l) by (destruct l; [done|simpl; lia]).
  pose proof (Z.mod_pos_bound i (zlen l) ltac:(lia)) as Hb.
  destruct (lookup_lt_is_Some_2 l (Z.to_nat (i mod zlen l))) as [x Hx]; [lia|].
  exists x. split; [done|]. by eapply list_elem_of_lookup_2.
Qed.

Lemma nonempty_len {A} (l : list A) : l ≠ [] → (zlen l =? 0) = false.
Proof. intros. apply Z.eqb_neq. destruct l; [done|simpl; lia]. Qed.

#[global] Program Instance RoundRobin_Laws : StrategyLaws RoundRobin :=
  {| usable _ _ := True |}.
Next Obligation.
  intros n s bs r _ Hne Hlen. unfold next, RoundRobin_Strategy, RoundRobin_Next.
  rewrite nonempty_len by done.
  destruct (lookup_mod bs (u64 (u64 (rr_counter s + 1) - 1)) (u64 (zlen bs)) Hne) as (x & -> & ?);
    [rewrite u64_id; lia|]. eauto.
Qed.

#[global] Program Instance IPHash_Laws : StrategyLaws IPHash := {| usable _ _ := True |}.
Next Obligation.
  intros n s bs r _ Hne Hlen. unfold next, IPHash_Strategy, IPHash_Next.
  assert (Hl : u32 (zlen bs) = zlen bs) by (apply Z.mod_small; lia).
  rewrite Hl, nonempty_len by done. set (h := fnv32a _).
  destruct (lookup_mod bs h (zlen bs) Hne eq_refl) as (x & -> & ?). eauto.
Qed.

#[global] Program Instance Random_Laws : StrategyLaws Random := {| usable _ _ := True |}.
Next Obligation.
  intros n s bs r _ Hne Hlen. unfold next, Random_Strategy, Random_Next.
  rewrite nonempty_len by done. set (h := u64 (fnv32a _ + _)). clearbody h.
  destruct (lookup_mod bs h (u64 (zlen bs)) Hne) as (x & -> & ?); [rewrite u64_id; lia|]. eauto.
Qed.

(** The loop of [LeastConn] finds the first minimum below the initial bound. *)
Lemma least_loop lc bs : ∀ best c,
  let r := foldl (least_step lc) (best, c) bs in
  (r = (best, c) ∨ r.1 ∈ bs ∧ r.2 = conns_of lc r.1) ∧
  r.2 ≤ c ∧ (∀ b, b ∈ bs → r.2 ≤ conns_of lc b).
Proof.
  induction bs as [|b bs IH]; intros best c; simpl; [set_solver|].
  change (least_step lc (best, c) b) with (if conns_of lc b <? c then (b, conns_of lc b) else (best, c)).
  destruct (Z.ltb_spec (conns_of lc b) c).
  - destruct (IH b (conns_of lc b)) as (Hr & Hle & Hmin). split_and!; [|lia|].
    + right. destruct Hr as [->|[? ?]]; [simpl; split; [left|done]|split; [by right|done]].
    + intros b' [->|Hb]%elem_of_cons; auto.
  - destruct (IH best c) as (Hr & Hle & Hmin). split_and!; [|lia|].
    + destruct Hr as [->|[? ?]]; [by left|right; split; [by right|done]].
    + intros b' [->|Hb]%elem_of_cons; auto. lia.
Qed.

Definition lc_usable (n : nat) (lc : LeastConn) : Prop :=
  ∀ b, 0 ≤ conns_of lc b ∧ conns_of lc b + Z.of_nat n ≤ max_int64.

Lemma conns_of_insert lc b v b' :
  conns_of {| lc_conns := <[b := v]> (lc_conns lc) |} b' =
    if decide (b = b') then v else conns_of lc b'.
Proof. unfold conns_of; simpl. rewrite lookup_insert. by destruct (decide (b = b')). Qed.

(** With room left in the counters, the pick is a member with the fewest
    connections, and its count grows by one. *)
Lemma LeastConn_Next_spec n lc bs r :
  lc_usable (S n) lc → bs ≠ [] →
  ∃ b, LeastConn_Next lc bs r =
         ({| lc_conns := <[b := conns_of lc b + 1]> (lc_conns lc) |}, Some b) ∧
       b ∈ bs ∧ (∀ b', b' ∈ bs → conns_of lc b ≤ conns_of lc b').
Proof.
  intros Hu Hne. unfold LeastConn_Next.
  pose proof (least_loop lc bs "" max_int64) as Hl. cbv zeta in Hl.
  destruct (foldl (least_step lc) ("", max_int64) bs) as [b c]; simpl in *.
  destruct Hl as ([[= -> ->]|[Hin ->]] & _ & Hmin).
  - destruct bs as [|b bs]; [done|]. specialize (Hmin b ltac:(left)). specialize (Hu b). lia.
  - exists b. split_and!; auto. destruct (Hu b). f_equal. f_equal. f_equal.
    apply i64_id. unfold in_i64, min_int64. lia.
Qed.

#[global] Program Instance LeastConn_Laws : StrategyLaws LeastConn := {| usable := lc_usable |}.
Next Obligation.
  intros n s bs r Hu Hne _.
  destruct (LeastConn_Next_spec n s bs r Hu Hne) as (b & Hn & Hin & _).
  eexists _, b. split_and!; [exact Hn|done|]. intros b'. rewrite conns_of_insert.
  specialize (Hu b'). case_decide; subst; lia.
Qed.

(** The best backend of the weighted loop is none or one of those seen. *)
Lemma pick_best_member w bs : ∀ st,
  p_best st = p_best (foldl (pick_step w) st bs) ∨ p_best (foldl (pick_step w) st bs) ∈ bs.
Proof.
  induction bs as [|b bs IH]; intros st; simpl; [by left|].
  destruct (IH (pick_step w st b)) as [<-|?]; [|right; by right].
  unfold pick_step. repeat case_match; simpl; auto; right; left.
Qed.

#[global] Program Instance Weighted_Laws : StrategyLaws Weighted := {| usable _ _ := True |}.
Next Obligation.
  intros n s bs r _ Hne _. unfold next, Weighted_Strategy, Weighted_Next.
  destruct bs as [|b0 bs]; [done|]. case_match; [eexists _, _; split_and!; [done|left|done]|].
  case_decide as Hb; [eexists _, _; split_and!; [done|left|done]|].
  eexists _, _. split_and!; [done| |done].
  destruct (pick_best_member s (b0 :: bs) (pick_init s)) as [He|?]; [|done]. by rewrite <-He in Hb.
Qed.

(** ** Exact distribution of the weighted strategy *)

(** How often a backend occurs in a sequence of picks. *)
Definition times (b : string) (l : list string) : Z :=
  zsum (λ x, if decide (x = b) then 1 else 0) l.

(** [n] consecutive picks from the same pool. *)
Fixpoint picks (bs : list string) (r : request) (n : nat) (w : Weighted)
  : Weighted * list string :=
  match n with
  | O => (w, [])
  | S n => let (w1, l) := picks bs r n w in
           let (w2, o) := Weighted_Next w1 bs r in
           (w2, l ++ [default "" o])
  end.

Lemma total_weight_sum (f : string → Z) (bs : list string) : ∀ t,
  (∀ b, b ∈ bs → 0 ≤ f b) → 0 ≤ t → t + zsum f bs ≤ max_int64 →
  foldl (λ t b, i64 (t + f b)) t bs = t + zsum f bs.
Proof.
  induction bs as [|b bs IH]; intros t Hf Ht Hm; simpl in *; [lia|].
  assert (0 ≤ f b) by (apply Hf; left).
  assert (0 ≤ zsum f bs) by (apply zsum_nonneg; intros; apply Hf; by right).
  rewrite i64_id by (unfold in_i64, min_int64; lia).
  rewrite IH; [lia| |lia|lia]. intros; apply Hf; by right.
Qed.

Lemma cur_insert m b v b' : cur (<[b := v]> m) b' = if decide (b = b') then v else cur m b'.
Proof. unfold cur. rewrite lookup_insert. by destruct (decide (b = b')). Qed.

(** What the second loop of [Next] computes over distinct backends. *)
(** What the loop knows after the backends [bs]: their running weights, and the
    best of them once one has a weight. *)
Definition loop_post (w : Weighted) (bs : list string) (st : pick) : Prop :=
  (∀ b, b ∉ bs → cur (p_cur st) b = cur (current w) b) ∧
  (∀ b, b ∈ bs → cur (p_cur st) b =
     if Weight w b =? 0 then cur (current w) b else i64 (cur (current w) b + Weight w b)) ∧
  (if p_first st then ∀ b, b ∈ bs → Weight w b = 0
   else p_best st ∈ bs ∧ Weight w (p_best st) ≠ 0 ∧
        p_bestCur st = cur (p_cur st) (p_best st) ∧
        ∀ b, b ∈ bs → Weight w b ≠ 0 → cur (p_cur st) b ≤ p_bestCur st).

Lemma pick_step_zero w bs st x :
  x ∉ bs → Weight w x = 0 → loop_post w bs st → loop_post w (bs ++ [x]) (pick_step w st x).
Proof.
  intros Hxb Hz (Hout & Hin & Hbest).
  replace (pick_step w st x) with st by (unfold pick_step; by rewrite Hz). split_and!.
  - intros b Hb. apply Hout. set_solver.
  - intros b [Hb| ->%list_elem_of_singleton]%elem_of_app; [by apply Hin|].
    rewrite Hz. by apply Hout.
  - destruct (p_first st); [intros b [Hb| ->%list_elem_of_singleton]%elem_of_app; auto|].
    destruct Hbest as (? & ? & ? & Hmax). split_and!; auto; [set_solver|].
    intros b [Hb| ->%list_elem_of_singleton]%elem_of_app ?; [auto|done].
Qed.

Lemma pick_step_weight w bs st x :
  x ∉ bs → Weight w x ≠ 0 → loop_post w bs st → loop_post w (bs ++ [x]) (pick_step w st x).
Proof.
  intros Hxb Hz (Hout & Hin & Hbest). unfold loop_post.
  assert (Hcur : ∀ c b, b ∈ bs → cur (<[x := c]> (p_cur st)) b = cur (p_cur st) b).
  { intros c b Hb. rewrite cur_insert, decide_False; [done|by intros ->]. }
  set (c := i64 (cur (p_cur st) x + Weight w x)).
  assert (Hc : c = i64 (cur (current w) x + Weight w x)) by (unfold c; by rewrite Hout).
  assert (Hst : pick_step w st x =
    if p_first st || (p_bestCur st <? c)
    then {| p_cur := <[x := c]> (p_cur st); p_best := x; p_bestCur := c; p_first := false |}
    else {| p_cur := <[x := c]> (p_cur st); p_best := p_best st;
            p_bestCur := p_bestCur st; p_first := p_first st |}).
  { unfold pick_step. by rewrite (proj2 (Z.eqb_neq _ _)) by done. }
  assert (Hm : p_cur (pick_step w st x) = <[x := c]> (p_cur st)) by (rewrite Hst; by destruct (_ || _)).
  rewrite Hm. split_and!.
  - intros b Hb. rewrite cur_insert, decide_False by set_solver. apply Hout. set_solver.
  - intros b [Hb| ->%list_elem_of_singleton]%elem_of_app; [rewrite Hcur by done; auto|].
    rewrite cur_insert, decide_True by done. by rewrite (proj2 (Z.eqb_neq _ _)).
  - assert (Hx' : x ∈ bs ++ [x]) by set_solver. rewrite Hst; clear Hst Hm.
    destruct (p_first st) eqn:Ef; simpl.
    + split_and!; auto; [by rewrite cur_insert, decide_True|].
      intros b [Hb| ->%list_elem_of_singleton]%elem_of_app Hb0; [by rewrite Hbest in Hb0|].
      by rewrite cur_insert, decide_True.
    + destruct Hbest as (Hb1 & Hb2 & Hb3 & Hmax).
      assert (Hb : ∀ v, (∀ b, b ∈ bs → Weight w b ≠ 0 → cur (p_cur st) b ≤ v) → c ≤ v →
        ∀ b, b ∈ bs ++ [x] → Weight w b ≠ 0 → cur (<[x := c]> (p_cur st)) b ≤ v).
      { intros v Hv Hcv b [Hb| ->%list_elem_of_singleton]%elem_of_app Hb0; [rewrite Hcur by done; auto|].
        by rewrite cur_insert, decide_True by done. }
      destruct (Z.ltb_spec (p_bestCur st) c); simpl.
      * split_and!; auto; [by rewrite cur_insert, decide_True|]. apply Hb; [|lia].
        intros b Hb' Hb0. specialize (Hmax b Hb' Hb0). lia.
      * split_and!; auto; [set_solver|by rewrite Hcur].
Qed.

Lemma pick_loop_spec w (bs : list string) :
  NoDup bs → loop_post w bs (foldl (pick_step w) (pick_init w) bs).
Proof.
  induction bs as [|x bs IH] using rev_ind; intros Hnd.
  { split_and!; cbn; [done|set_solver|set_solver]. }
  apply NoDup_app in Hnd as (Hnd & Hx & _).
  assert (Hxb : x ∉ bs) by (intros H; apply (Hx x H); left).
  rewrite foldl_app. cbn [foldl].
  destruct (decide (Weight w x = 0)); [apply pick_step_zero|apply pick_step_weight]; auto.
Qed.

Section distribution.
Context (w0 : Weighted) (bs : list string) (r : request).

(** A pool of distinct, named backends with non-negative weights, not all
    zero, whose total leaves room in 64 bits, and fresh running weights. *)
Record pool_ok : Prop := {
  pool_nodup : NoDup bs;
  pool_named : "" ∉ bs;
  pool_nonneg : ∀ b, b ∈ bs → 0 ≤ Weight w0 b;
  pool_pos : 0 < zsum (Weight w0) bs;
  pool_room : zlen bs * zsum (Weight w0) bs ≤ 2 ^ 62;
  pool_fresh : ∀ b, b ∈ bs → cur (current w0) b = 0 }.

#[local] Abbreviation W := (zsum (Weight w0) bs).

(** After [k] picks [l] each running weight is the credit earned minus the
    credit spent; it never falls to [-W], and the credits sum to zero. *)
Record credits (k : Z) (w : Weighted) (l : list string) : Prop := {
  cr_weights : weights w = weights w0;
  cr_value : ∀ b, b ∈ bs → cur (current w) b = k * Weight w0 b - W * times b l;
  cr_low : ∀ b, b ∈ bs → - W < cur (current w) b;
  cr_zero : ∀ b, b ∈ bs → Weight w0 b = 0 → cur (current w) b = 0;
  cr_sum : zsum (cur (current w)) bs = 0 }.

Lemma credits_bound k w l b :
  pool_ok → credits k w l → b ∈ bs → cur (current w) b ≤ W * (zlen bs - 1).
Proof.
  intros Hp Hc Hb.
  pose proof (zsum_ge_elem (λ x, cur (current w) x + W) bs b) as Hge.
  rewrite zsum_add, (cr_sum _ _ _ Hc) in Hge. simpl in Hge.
  assert (Hcst : zsum (λ _ : string, W) bs = W * zlen bs).
  { generalize W. clear. intros v. induction bs as [|? l IH]; cbn [zsum foldr length]; [lia|].
    change (foldr (λ _ acc, v + acc) 0 l) with (zsum (λ _ : string, v) l). lia. }
  rewrite Hcst in Hge. specialize (Hge ltac:(intros y Hy; pose proof (cr_low _ _ _ Hc y Hy); lia) Hb).
  lia.
Qed.

(** The weights a state of the run sees are those of the pool, and so is their total. *)
Lemma credits_weight k w l b : credits k w l → Weight w b = Weight w0 b.
Proof. intros Hc. unfold Weight. by rewrite (cr_weights _ _ _ Hc). Qed.

Lemma credits_total k w l : pool_ok → credits k w l → total_weight w bs = W.
Proof.
  intros [Hnd Hname Hnn Hpos Hroom _] Hc.
  assert (Hlen : 1 ≤ zlen bs) by (destruct bs; [simpl in Hpos; lia|simpl; lia]).
  assert (Hs : zsum (Weight w) bs = W) by (apply zsum_ext; intros; by apply (credits_weight k w l)).
  unfold total_weight. rewrite total_weight_sum; [lia| |lia|].
  - intros b Hb. rewrite (credits_weight k w l) by done. auto.
  - rewrite Hs. unfold max_int64. nia.
Qed.

(** Every backend earns its weight in the loop, without overflow. *)
Lemma credits_earned k w l c :
  pool_ok → credits k w l →
  (∀ b, b ∈ bs → cur c b = if Weight w b =? 0 then cur (current w) b
                           else i64 (cur (current w) b + Weight w b)) →
  ∀ b, b ∈ bs → cur c b = cur (current w) b + Weight w0 b.
Proof.
  intros Hp Hc Hin b Hb. pose proof Hp as [Hnd Hname Hnn Hpos Hroom _].
  assert (Hlen : 1 ≤ zlen bs) by (destruct bs; [simpl in Hpos; lia|simpl; lia]).
  rewrite (Hin b Hb), (credits_weight k w l) by done.
  destruct (Z.eqb_spec (Weight w0 b) 0) as [->|Hz]; [lia|].
  apply i64_id. pose proof (credits_bound k w l b Hp Hc Hb). pose proof (cr_low _ _ _ Hc b Hb).
  pose proof (zsum_ge_elem (Weight w0) bs b Hnn Hb). specialize (Hnn b Hb).
  unfold in_i64, min_int64, max_int64. nia.
Qed.

(** The backend with the most credit pays the total, and the books still balance. *)
Lemma credits_spend k w l w' best :
  pool_ok → credits k w l → best ∈ bs → Weight w0 best ≠ 0 →
  0 < cur (current w) best + Weight w0 best → weights w' = weights w0 →
  (∀ b, b ∈ bs → cur (current w') b =
     cur (current w) b + Weight w0 b + (if decide (b = best) then - W else 0)) →
  credits (k + 1) w' (l ++ [best]).
Proof.
  intros [Hnd Hname Hnn Hpos Hroom _] Hc Hb1 Hb2 Hbp Hw Hm. split; [done| | | |].
  - intros b Hb. rewrite (Hm b Hb), (cr_value _ _ _ Hc b Hb). unfold times.
    rewrite zsum_app. simpl. destruct (decide (b = best)) as [->|]; [rewrite decide_True by done; lia|].
    rewrite decide_False by congruence. lia.
  - intros b Hb. rewrite (Hm b Hb). pose proof (cr_low _ _ _ Hc b Hb). specialize (Hnn b Hb).
    destruct (decide (b = best)) as [->|]; lia.
  - intros b Hb Hz. rewrite (Hm b Hb), (cr_zero _ _ _ Hc b Hb Hz), decide_False by congruence. lia.
  - rewrite (zsum_ext _ _ bs Hm), !zsum_add, (cr_sum _ _ _ Hc), zsum_indicator by done. lia.
Qed.

Lemma weighted_next_credits k w l :
  pool_ok → credits k w l →
  ∃ w' b, Weighted_Next w bs r = (w', Some b) ∧ b ∈ bs ∧ Weight w0 b ≠ 0 ∧
    credits (k + 1) w' (l ++ [b]).
Proof.
  intros Hp Hc. pose proof Hp as [Hnd Hname Hnn Hpos Hroom _].
  destruct (pick_loop_spec w bs Hnd) as (_ & Hin & Hbest).
  assert (Hne : bs ≠ []) by (by destruct bs).
  assert (Hlen : 1 ≤ zlen bs) by (destruct bs; [done|cbn [length]; lia]).
  unfold Weighted_Next. set (st := foldl (pick_step w) (pick_init w) bs) in *. clearbody st.
  pose proof (credits_earned k w l (p_cur st) Hp Hc Hin) as Hcur.
  assert (Hsum : zsum (cur (p_cur st)) bs = W).
  { rewrite (zsum_ext _ _ bs Hcur), zsum_add, (cr_sum _ _ _ Hc). lia. }
  destruct (p_first st).
  { exfalso. assert (Hz : W = zsum (λ _, 0) bs).
    { apply zsum_ext. intros b Hb. rewrite <-(credits_weight k w l) by done. by apply Hbest. }
    rewrite (zsum_scale 0 (λ _, 0) bs : zsum (λ _, 0) bs = _) in Hz. lia. }
  destruct Hbest as (Hb1 & Hb2 & Hb3 & Hmax). set (best := p_best st) in *. clearbody best.
  rewrite (credits_weight k w l) in Hb2 by done.
  assert (Hbp : 0 < cur (p_cur st) best).
  { destruct (zsum_pos_exists (cur (p_cur st)) bs) as (x & Hx & Hxp); [lia|].
    rewrite <-Hb3. destruct (decide (Weight w x = 0)) as [E|E]; [|specialize (Hmax x Hx E); lia].
    rewrite (credits_weight k w l) in E by done. rewrite Hcur, E, (cr_zero _ _ _ Hc x Hx E) in Hxp by done. lia. }
  pose proof (credits_total k w l Hp Hc) as Htot.
  destruct bs as [|b0 bs'] eqn:Ebs; [done|]. rewrite <-Ebs in *.
  rewrite Htot, (proj2 (Z.eqb_neq _ _)) by lia.
  rewrite decide_False by congruence. eexists _, best. split_and!; [done..|].
  apply (credits_spend k w l); try done; [rewrite <-Hcur by done; done|apply Hc|].
  intros b Hb. cbn [current]. rewrite cur_insert. destruct (decide (best = b)) as [<-|Hd];
    [|rewrite decide_False by congruence; rewrite Hcur by done; lia].
  rewrite decide_True by done. rewrite i64_id; [rewrite Hcur by done; lia|].
  pose proof (credits_bound k w l best Hp Hc Hb) as HB.
  pose proof (zsum_ge_elem (Weight w0) bs best Hnn Hb) as HG.
  rewrite Hcur in * by done. unfold in_i64, min_int64, max_int64. nia.
Qed.

Lemma picks_credits n : pool_ok →
  credits (Z.of_nat n) (picks bs r n w0).1 (picks bs r n w0).2 ∧
  Forall (λ b, b ∈ bs ∧ Weight w0 b ≠ 0) (picks bs r n w0).2.
Proof.
  intros Hp. induction n as [|n [IH IHm]].
  - split; [|constructor]. destruct Hp as [? ? ? ? ? Hf]. split; simpl; auto.
    + intros b Hb. rewrite Hf by done. unfold times; simpl. lia.
    + intros b Hb. rewrite Hf by done. lia.
    + rewrite (zsum_ext _ (λ _, 0) bs Hf). by rewrite (zsum_scale 0 (λ _, 0) bs : zsum (λ _, 0) bs = _).
  - cbn [picks]. destruct (picks bs r n w0) as [w l]; cbn [fst snd] in *.
    destruct (weighted_next_credits _ _ _ Hp IH) as (w' & b & -> & Hb & Hw & Hcr).
    cbn [fst snd default]. replace (Z.of_nat (S n)) with (Z.of_nat n + 1) by lia.
    split; [exact Hcr|]. apply Forall_app. by split; [|repeat constructor].
Qed.

End distribution.

(** Smooth weighted round robin is exact: over any whole number [m] of
    cycles of [sum of weights] picks, every backend is picked exactly [m] times
    its weight, and all running weights are back at zero. *)
Theorem weighted_exact_distribution w bs r (m : nat) :
  pool_ok w bs →
  let n := Z.to_nat (Z.of_nat m * zsum (Weight w) bs) in
  ∀ b, b ∈ bs → times b (picks bs r n w).2 = Z.of_nat m * Weight w b ∧
                cur (current (picks bs r n w).1) b = 0.
Proof.
  intros Hp n. destruct (picks_credits w bs r n Hp) as [[Hw Hv Hl Hz Hs] _].
  destruct Hp as [_ _ _ Hpos _ _].
  replace (Z.of_nat n) with (Z.of_nat m * zsum (Weight w) bs) in Hv by (unfold n; nia).
  set (cr := current (picks bs r n w).1) in *. set (l := (picks bs r n w).2) in *.
  assert (Hge : ∀ b, b ∈ bs → 0 ≤ cur cr b).
  { intros b Hb. specialize (Hl b Hb). rewrite (Hv b Hb) in *.
    assert (0 ≤ Z.of_nat m * Weight w b - times b l) by nia. nia. }
  intros b Hb. pose proof (zsum_zero _ _ Hge Hs b Hb) as H0. split; [|done].
  specialize (Hv b Hb). nia.
Qed.

Definition pool3 : Weighted :=
  SetWeight (SetWeight (SetWeight NewWeighted "a" 5) "b" 3) "c" 2.
Definition req0 : request := {| RemoteAddr := "10.0.0.1:4000"; XForwardedFor := "" |}.

Lemma pool3_ok : pool_ok pool3 ["a"; "b"; "c"].
Proof.
  split.
  - apply (bool_decide_unpack _). vm_compute. done.
  - apply (bool_decide_unpack _). vm_compute. done.
  - intros b Hb. repeat (apply elem_of_cons in Hb as [->|Hb]; [vm_compute; discriminate|]).
    by apply elem_of_nil in Hb.
  - vm_compute. reflexivity.
  - vm_compute. discriminate.
  - intros b Hb. repeat (apply elem_of_cons in Hb as [->|Hb]; [vm_compute; reflexivity|]).
    by apply elem_of_nil in Hb.
Qed.

Lemma weighted_exact_distribution_witness :
  times "a" (picks ["a"; "b"; "c"] req0 (Z.to_nat (Z.of_nat 2 * zsum (Weight pool3) ["a"; "b"; "c"])) pool3).2
    = Z.of_nat 2 * Weight pool3 "a".
Proof.
  apply (weighted_exact_distribution pool3 ["a"; "b"; "c"] req0 2 pool3_ok "a").
  apply elem_of_cons. by left.
Defined.

(** At every point of the sequence the share of each backend is within a
    bounded distance of its weight: after [k] picks a backend has been picked
    less than one time more than its proportional share [k * weight / total],
    and a backend of weight zero is never picked. *)
Theorem weighted_never_overserves w bs r (k : nat) :
  pool_ok w bs →
  ∀ b, b ∈ bs →
    zsum (Weight w) bs * times b (picks bs r k w).2 <
      Z.of_nat k * Weight w b + zsum (Weight w) bs ∧
    (Weight w b = 0 → b ∉ (picks bs r k w).2).
Proof.
  intros Hp b Hb. destruct (picks_credits w bs r k Hp) as [[Hw Hv Hl Hz Hs] Hf].
  specialize (Hv b Hb). specialize (Hl b Hb). split; [lia|].
  intros H0 Hin. rewrite Forall_forall in Hf. by destruct (Hf b Hin).
Qed.

Lemma weighted_never_overserves_witness :
  zsum (Weight pool3) ["a"; "b"; "c"] * times "a" (picks ["a"; "b"; "c"] req0 7 pool3).2 <
    Z.of_nat 7 * Weight pool3 "a" + zsum (Weight pool3) ["a"; "b"; "c"].
Proof.
  apply (weighted_never_overserves pool3 ["a"; "b"; "c"] req0 7 pool3_ok "a").
  apply elem_of_cons. by left.
Defined.

(** ** Round robin, least connections, hashing *)

Fixpoint rr_picks (bs : list string) (r : request) (n : nat) (rr : RoundRobin)
  : RoundRobin * list string :=
  match n with
  | O => (rr, [])
  | S n => let (rr1, l) := rr_picks bs r n rr in
           let (rr2, o) := RoundRobin_Next rr1 bs r in
           (rr2, l ++ [default "" o])
  end.

Lemma rr_picks_spec bs r c n :
  bs ≠ [] → zlen bs < 2 ^ 32 → 0 ≤ c → c + Z.of_nat n < 2 ^ 64 →
  rr_picks bs r n {| rr_counter := c |} =
    ({| rr_counter := c + Z.of_nat n |},
     (λ i, default "" (bs !! Z.to_nat ((c + Z.of_nat i) mod zlen bs))) <$> seq 0 n).
Proof.
  intros Hne Hlen Hc. induction n as [|n IH]; intros Hn.
  - cbn. do 2 f_equal. lia.
  - cbn [rr_picks]. rewrite IH by lia. unfold RoundRobin_Next. cbn [rr_counter].
    rewrite nonempty_len by done. rewrite !u64_id by lia.
    replace (c + Z.of_nat n + 1 - 1) with (c + Z.of_nat n) by lia.
    rewrite seq_S, fmap_app. cbn. do 2 f_equal. lia.
Qed.

(** Round robin is fair: as long as the 64-bit counter does not wrap, any
    [len] consecutive picks go through the whole pool once, in pool order
    starting at the counter's position. *)
Theorem round_robin_cycle bs r c :
  bs ≠ [] → zlen bs < 2 ^ 32 → 0 ≤ c → c + zlen bs < 2 ^ 64 →
  (rr_picks bs r (length bs) {| rr_counter := c |}).2 = rotate (Z.to_nat c) bs ∧
  (rr_picks bs r (length bs) {| rr_counter := c |}).2 ≡ₚ bs.
Proof.
  intros Hne Hl Hc Hw. rewrite rr_picks_spec by done. cbn [snd].
  assert (Hr : (λ i, default "" (bs !! Z.to_nat ((c + Z.of_nat i) mod zlen bs))) <$>
            seq 0 (length bs) = rotate (Z.to_nat c) bs).
  { apply list_eq_same_length with (length bs);
      [by rewrite length_rotate|by rewrite length_fmap, length_seq|].
    intros i x y Hi. rewrite list_lookup_fmap, lookup_seq_lt by done.
    rewrite lookup_rotate_r by done. unfold rotate_nat_add. cbn.
    rewrite Z2Nat.id by done. intros [= <-] ->. done. }
  rewrite Hr. split; [done|]. unfold rotate. rewrite Permutation_app_comm. by rewrite take_drop.
Qed.

Lemma round_robin_cycle_witness :
  (rr_picks ["a"; "b"; "c"] req0 3 {| rr_counter := 7 |}).2 = rotate (Z.to_nat 7) ["a"; "b"; "c"].
Proof. apply (round_robin_cycle ["a"; "b"; "c"] req0 7); [done|vm_compute; reflexivity|lia|vm_compute; reflexivity]. Defined.

(** Least connections picks a member of the pool with the fewest open
    connections, and releasing the pick restores every count. *)
Theorem least_conn_picks_minimum lc bs r :
  lc_usable 1 lc → bs ≠ [] →
  ∃ lc' b, LeastConn_Next lc bs r = (lc', Some b) ∧ b ∈ bs ∧
    (∀ b', b' ∈ bs → conns_of lc b ≤ conns_of lc b') ∧
    conns_of lc' b = conns_of lc b + 1 ∧
    (∀ b', conns_of (LeastConn_Release lc' b) b' = conns_of lc b').
Proof.
  intros Hu Hne. destruct (LeastConn_Next_spec 0 lc bs r Hu Hne) as (b & Hn & Hin & Hmin).
  eexists _, b. split_and!; [exact Hn|done|done|by rewrite conns_of_insert, decide_True|].
  intros b'. unfold LeastConn_Release. rewrite conns_of_insert, decide_True by done.
  destruct (Hu b) as [H0 _]. rewrite (proj2 (Z.ltb_lt _ _)) by lia.
  unfold conns_of at 1; cbn. rewrite insert_insert_eq, lookup_insert.
  destruct (decide (b = b')) as [->|]; cbn; [lia|done].
Qed.

Definition lc_example : LeastConn := {| lc_conns := {["a" := 4; "b" := 2]} |}.

Lemma least_conn_picks_minimum_witness :
  ∃ lc' b, LeastConn_Next lc_example ["a"; "b"] req0 = (lc', Some b) ∧ b ∈ ["a"; "b"] ∧
    (∀ b', b' ∈ ["a"; "b"] → conns_of lc_example b ≤ conns_of lc_example b') ∧
    conns_of lc' b = conns_of lc_example b + 1 ∧
    (∀ b', conns_of (LeastConn_Release lc' b) b' = conns_of lc_example b').
Proof.
  apply least_conn_picks_minimum; [|done]. intros b. unfold conns_of, lc_example; cbn [lc_conns].
  rewrite lookup_insert, lookup_singleton. repeat case_decide; cbn; unfold max_int64; lia.
Defined.

(** IP hashing depends on the client's port unless a valid
    X-Forwarded-For header is present: two connections of one client address
    can go to different backends, while with the header they never do. *)
Theorem ip_hash_uses_port :
  (∃ bs r1 r2, bs ≠ [] ∧
     SplitHostPort (RemoteAddr r1) = Some ("10.0.0.1", "4000") ∧
     SplitHostPort (RemoteAddr r2) = Some ("10.0.0.1", "4001") ∧
     (IPHash_Next mkIPHash bs r1).2 ≠ (IPHash_Next mkIPHash bs r2).2) ∧
  (∀ bs r1 r2, parseXFF (XForwardedFor r1) ≠ "" →
     parseXFF (XForwardedFor r1) = parseXFF (XForwardedFor r2) →
     (IPHash_Next mkIPHash bs r1).2 = (IPHash_Next mkIPHash bs r2).2).
Proof.
  split.
  - exists ["a"; "b"; "c"], req0, {| RemoteAddr := "10.0.0.1:4001"; XForwardedFor := "" |}.
    split_and!; [done|vm_compute; reflexivity..|vm_compute; discriminate].
  - intros bs r1 r2 Hv He. assert (parseXFF "" = "") as H0 by done. unfold IPHash_Next.
    destruct (decide (XForwardedFor r1 = "")) as [E|]; [by rewrite E in Hv|].
    destruct (decide (XForwardedFor r2 = "")) as [E|]; [by rewrite He, E in Hv|].
    rewrite <-He. by destruct (decide (parseXFF _ = "")) as [E|].
Qed.

End Balancer.
