(* ===== verification/RouteTable.v ===== *)
(** * RouteTable: the ingress routing table ([internal/ingress/router.go])

    A table is one immutable snapshot that writers replace under a mutex, so the
    operations are functions from snapshot to snapshot.  [sort.Slice] is not
    stable: it is a parameter of the writers, with the documented contract that
    its result is a permutation in which no later element is smaller than an
    earlier one. *)

From S2P Require Import Prelude GoStrings.
#[local] Open Scope Z_scope.

Module RouteTable.

(** src/internal/ingress/router.go:11-23 RouteEntry *)
Record RouteEntry := {
  Host : string;
  PathPrefix : string;
  Priority : Z;
  ServiceName : string;
  Backends : list string;
  LBStrategy : string;
  Middlewares : list string;
  TLS : bool;
  StripPrefix : bool;
  HealthPath : string;
  AppID : string }.

(** src/internal/ingress/router.go:30-32 routesSnapshot *)
Record routesSnapshot := { entries : list RouteEntry }.

(** src/internal/ingress/router.go:52-56 NewRouteTable *)
Definition NewRouteTable : routesSnapshot := {| entries := [] |}.

(** The order given to [sort.Slice].
    src/internal/ingress/router.go:166-171 sortRoutes.less *)
Definition route_less (a b : RouteEntry) : bool :=
  if Priority a =? Priority b
  then bool_decide (slen (PathPrefix b) < slen (PathPrefix a))%nat
  else Priority b <? Priority a.

Definition not_after (a b : RouteEntry) : Prop := route_less b a = false.

(** src/internal/ingress/router.go:176-190 matchHost *)
Definition matchHost (pattern host : string) : bool :=
  if decide (pattern = host) then true
  else if HasPrefix pattern "*." then
    let suffix := str (drop 1 (bytes pattern)) in
    HasSuffix host suffix &&
    bool_decide (count_byte "."%char (bytes host) = count_byte "."%char (bytes pattern))
  else false.

(** src/internal/ingress/router.go:193-198 matchPath *)
Definition matchPath (prefix path : string) : bool :=
  if decide (prefix = "/") then true else HasPrefix path prefix.

Definition key (r : RouteEntry) : string * string := (Host r, PathPrefix r).

Definition set_path (r : RouteEntry) (p : string) : RouteEntry :=
  {| Host := Host r; PathPrefix := p; Priority := Priority r; ServiceName := ServiceName r;
     Backends := Backends r; LBStrategy := LBStrategy r; Middlewares := Middlewares r;
     TLS := TLS r; StripPrefix := StripPrefix r; HealthPath := HealthPath r; AppID := AppID r |}.

Definition norm_path (p : string) : string := if decide (p = "") then "/" else p.

(** Replace the first entry with the key of [e], or append [e]. *)
Fixpoint upsert_list (e : RouteEntry) (l : list RouteEntry) : list RouteEntry :=
  match l with
  | [] => [e]
  | r :: l' => if decide (key r = key e) then e :: l' else r :: upsert_list e l'
  end.

(** Delete the first entry with key [k]. *)
Fixpoint remove_list (k : string * string) (l : list RouteEntry) : list RouteEntry :=
  match l with
  | [] => []
  | r :: l' => if decide (key r = k) then l' else r :: remove_list k l'
  end.

Section table.
Context (sortSlice : list RouteEntry → list RouteEntry).

(** src/internal/ingress/router.go:165-172 sortRoutes *)
Definition sortRoutes (l : list RouteEntry) : list RouteEntry := sortSlice l.

(** src/internal/ingress/router.go:68-75 RouteTable.replace *)
Definition replace (mutate : list RouteEntry → list RouteEntry) (rt : routesSnapshot)
  : routesSnapshot := {| entries := sortRoutes (mutate (entries rt)) |}.

(** src/internal/ingress/router.go:81-98 RouteTable.Upsert *)
Definition Upsert (e : RouteEntry) (rt : routesSnapshot) : routesSnapshot :=
  replace (upsert_list (set_path e (norm_path (PathPrefix e)))) rt.

(** src/internal/ingress/router.go:101-117 RouteTable.Remove *)
Definition Remove (host path : string) (rt : routesSnapshot) : routesSnapshot :=
  replace (remove_list (host, norm_path path)) rt.

(** src/internal/ingress/router.go:120-133 RouteTable.RemoveByAppID *)
Definition RemoveByAppID (app : string) (rt : routesSnapshot) : routesSnapshot :=
  replace (filter (λ r, AppID r ≠ app)) rt.

End table.

Definition route_matches (host path : string) (r : RouteEntry) : bool :=
  matchHost (Host r) host && matchPath (PathPrefix r) path.

(** src/internal/ingress/router.go:139-146 RouteTable.Match *)
Definition Match (host path : string) (rt : routesSnapshot) : option RouteEntry :=
  snd <$> list_find (λ r, route_matches host path r = true) (entries rt).

(** src/internal/ingress/router.go:151-156 RouteTable.All *)
Definition All (rt : routesSnapshot) : list RouteEntry := entries rt.

(** src/internal/ingress/router.go:159-161 RouteTable.Count *)
Definition Count (rt : routesSnapshot) : nat := length (entries rt).

(** ** Specification: a finite map from (host, path prefix) to route *)

Definition abs (rt : routesSnapshot) : gmap (string * string) RouteEntry :=
  list_to_map ((λ r, (key r, r)) <$> entries rt).

(** The contract of [sort.Slice] for [route_less]. *)
Definition sorts (srt : list RouteEntry → list RouteEntry) : Prop :=
  ∀ l, srt l ≡ₚ l ∧ StronglySorted not_after (srt l).

Record table_ok (rt : routesSnapshot) : Prop := {
  t_keys : NoDup (key <$> entries rt);
  t_sorted : StronglySorted not_after (entries rt);
  t_paths : Forall (λ r, PathPrefix r ≠ "") (entries rt) }.

Lemma keys_fmap l : ((λ r : RouteEntry, (key r, r)) <$> l).*1 = key <$> l.
Proof. rewrite <-list_fmap_compose. done. Qed.

Lemma upsert_list_keys e l : key <$> upsert_list e l =
  if decide (key e ∈ key <$> l) then key <$> l else (key <$> l) ++ [key e].
Proof.
  induction l as [|r l IH]; cbn; [by rewrite decide_False by apply not_elem_of_nil|].
  destruct (decide (key r = key e)) as [E|E]; cbn.
  - rewrite decide_True by (rewrite E; left). by rewrite E.
  - rewrite IH. destruct (decide (key e ∈ key <$> l)).
    + by rewrite decide_True by (right; done).
    + rewrite decide_False; [done|]. rewrite elem_of_cons. intros [|]; congruence.
Qed.

Lemma remove_list_keys k l : key <$> remove_list k l ⊆+ key <$> l.
Proof.
  induction l as [|r l IH]; cbn; [done|].
  destruct (decide (key r = k)); cbn; [by apply submseteq_cons|by apply submseteq_skip].
Qed.

Lemma NoDup_submseteq {A} (l k : list A) : l ⊆+ k → NoDup k → NoDup l.
Proof.
  intros [x ->]%submseteq_Permutation Hnd. by apply NoDup_app in Hnd as (? & _).
Qed.

Lemma upsert_list_lookup e l :
  NoDup (key <$> l) →
  list_to_map ((λ r, (key r, r)) <$> upsert_list e l) =@{gmap (string * string) RouteEntry}
    <[key e := e]> (list_to_map ((λ r, (key r, r)) <$> l)).
Proof.
  induction l as [|r l IH]; cbn; intros Hnd; [done|].
  apply NoDup_cons in Hnd as [Hr Hnd]. destruct (decide (key r = key e)) as [E|E]; cbn.
  - by rewrite E, insert_insert_eq.
  - rewrite IH by done. by apply insert_insert_ne.
Qed.

Lemma remove_list_lookup k l :
  NoDup (key <$> l) →
  list_to_map ((λ r, (key r, r)) <$> remove_list k l) =@{gmap (string * string) RouteEntry}
    delete k (list_to_map ((λ r, (key r, r)) <$> l)).
Proof.
  induction l as [|r l IH]; cbn; intros Hnd; [by rewrite delete_empty|].
  apply NoDup_cons in Hnd as [Hr Hnd]. destruct (decide (key r = k)) as [<-|E]; cbn.
  - rewrite delete_insert_eq. symmetry. apply delete_id. apply not_elem_of_list_to_map.
    by rewrite keys_fmap.
  - rewrite IH by done. by rewrite delete_insert_ne.
Qed.

Lemma filter_lookup app l :
  NoDup (key <$> l) →
  list_to_map ((λ r, (key r, r)) <$> filter (λ r, AppID r ≠ app) l)
    =@{gmap (string * string) RouteEntry}
    filter (λ kr, AppID kr.2 ≠ app) (list_to_map ((λ r, (key r, r)) <$> l)).
Proof.
  induction l as [|r l IH]; intros Hnd; [symmetry; apply map_filter_empty|].
  rewrite fmap_cons in Hnd. apply NoDup_cons in Hnd as [Hr Hnd]. rewrite filter_cons.
  destruct (decide (AppID r ≠ app)) as [E|E]; rewrite !fmap_cons, ?list_to_map_cons.
  - rewrite IH by done. by rewrite map_filter_insert_True.
  - rewrite IH by done. symmetry. apply map_filter_insert_not'; [done|].
    intros y Hy. exfalso. rewrite not_elem_of_list_to_map_1 in Hy; [done|].
    by rewrite keys_fmap.
Qed.

Lemma abs_perm l1 l2 :
  l1 ≡ₚ l2 → NoDup (key <$> l1) → abs {| entries := l1 |} = abs {| entries := l2 |}.
Proof.
  intros Hp Hnd. unfold abs; cbn. apply list_to_map_proper; [by rewrite keys_fmap|by rewrite Hp].
Qed.

(** Any writer whose mutation keeps keys distinct and paths non-empty. *)
Lemma replace_ok srt mutate rt :
  sorts srt → NoDup (key <$> mutate (entries rt)) →
  Forall (λ r, PathPrefix r ≠ "") (mutate (entries rt)) →
  table_ok (replace srt mutate rt) ∧
  abs (replace srt mutate rt) = abs {| entries := mutate (entries rt) |}.
Proof.
  intros Hs Hnd Hp. destruct (Hs (mutate (entries rt))) as [Hperm Hst].
  split; [split|]; cbn; unfold sortRoutes.
  - by rewrite Hperm.
  - done.
  - by rewrite Hperm.
  - symmetry. apply abs_perm; [by rewrite Hperm|done].
Qed.

Lemma norm_path_nonempty p : norm_path p ≠ "".
Proof. unfold norm_path. by case_decide. Qed.

Lemma upsert_ok srt e rt : sorts srt → table_ok rt →
  table_ok (Upsert srt e rt) ∧
  abs (Upsert srt e rt) =
    <[(Host e, norm_path (PathPrefix e)) := set_path e (norm_path (PathPrefix e))]> (abs rt).
Proof.
  intros Hs [Hk _ Hp]. unfold Upsert. set (e' := set_path _ _).
  destruct (replace_ok srt (upsert_list e') rt Hs) as [H1 ->].
  - rewrite upsert_list_keys. case_decide; [done|]. apply NoDup_app. split_and!; [done| |apply NoDup_singleton].
    intros x Hx ->%list_elem_of_singleton. done.
  - assert (Hin : ∀ l, Forall (λ r, PathPrefix r ≠ "") l →
      Forall (λ r, PathPrefix r ≠ "") (upsert_list e' l)); [|by apply Hin].
    induction 1 as [|r l Hr Hl IH]; cbn; [repeat constructor; apply norm_path_nonempty|].
    case_decide; constructor; auto. apply norm_path_nonempty.
  - split; [done|]. by apply (upsert_list_lookup e').
Qed.

Lemma remove_ok srt h p rt : sorts srt → table_ok rt →
  table_ok (Remove srt h p rt) ∧ abs (Remove srt h p rt) = delete (h, norm_path p) (abs rt).
Proof.
  intros Hs [Hk _ Hp]. unfold Remove.
  destruct (replace_ok srt (remove_list (h, norm_path p)) rt Hs) as [H1 ->].
  - eapply NoDup_submseteq; [apply remove_list_keys|done].
  - induction Hp as [|r l Hr Hl IH]; cbn; [done|]. case_decide; [done|].
    cbn in Hk. apply NoDup_cons in Hk as [_ Hk]. constructor; auto.
  - split; [done|]. by apply remove_list_lookup.
Qed.

Lemma remove_app_ok srt app rt : sorts srt → table_ok rt →
  table_ok (RemoveByAppID srt app rt) ∧
  abs (RemoveByAppID srt app rt) = filter (λ kr, AppID kr.2 ≠ app) (abs rt).
Proof.
  intros Hs [Hk _ Hp]. unfold RemoveByAppID.
  destruct (replace_ok srt (filter (λ r, AppID r ≠ app)) rt Hs) as [H1 ->].
  - eapply NoDup_submseteq; [|exact Hk]. apply fmap_submseteq.
    apply sublist_submseteq, sublist_filter.
  - rewrite Forall_forall in Hp. apply Forall_forall.
    intros r [_ Hr]%list_elem_of_filter. auto.
  - split; [done|]. by apply filter_lookup.
Qed.

(** Writers of the table. *)
Inductive write :=
| WUpsert (e : RouteEntry)
| WRemove (host path : string)
| WRemoveByAppID (app : string).

Definition apply_write (srt : list RouteEntry → list RouteEntry) (rt : routesSnapshot)
    (w : write) : routesSnapshot :=
  match w with
  | WUpsert e => Upsert srt e rt
  | WRemove h p => Remove srt h p rt
  | WRemoveByAppID app => RemoveByAppID srt app rt
  end.

Definition spec_write (m : gmap (string * string) RouteEntry) (w : write)
  : gmap (string * string) RouteEntry :=
  match w with
  | WUpsert e =>
      <[(Host e, norm_path (PathPrefix e)) := set_path e (norm_path (PathPrefix e))]> m
  | WRemove h p => delete (h, norm_path p) m
  | WRemoveByAppID app => filter (λ kr, AppID kr.2 ≠ app) m
  end.

Lemma apply_write_ok srt rt w : sorts srt → table_ok rt →
  table_ok (apply_write srt rt w) ∧ abs (apply_write srt rt w) = spec_write (abs rt) w.
Proof. destruct w; cbn; auto using upsert_ok, remove_ok, remove_app_ok. Qed.

(** A sort that satisfies the contract. *)
Definition route_ge (a b : RouteEntry) : Prop := route_less b a = false.
#[global] Instance route_ge_dec : RelDecision route_ge.
Proof. intros a b. unfold route_ge. apply _. Defined.

Lemma route_less_true a b : route_less a b = true ↔
  Priority b < Priority a ∨
  Priority a = Priority b ∧ (slen (PathPrefix b) < slen (PathPrefix a))%nat.
Proof.
  unfold route_less. destruct (Z.eqb_spec (Priority a) (Priority b)); bools; lia.
Qed.

Lemma route_less_false a b : route_less a b = false ↔
  Priority a < Priority b ∨
  Priority a = Priority b ∧ (slen (PathPrefix a) ≤ slen (PathPrefix b))%nat.
Proof.
  unfold route_less. destruct (Z.eqb_spec (Priority a) (Priority b)); bools; lia.
Qed.

#[global] Instance route_ge_trans : Transitive route_ge.
Proof. intros a b c. unfold route_ge. rewrite !route_less_false. lia. Qed.
#[global] Instance route_ge_total : Total route_ge.
Proof. intros a b. unfold route_ge. rewrite !route_less_false. lia. Qed.

Lemma merge_sort_sorts : sorts (merge_sort route_ge).
Proof. intros l. split; [apply merge_sort_Permutation|apply (StronglySorted_merge_sort route_ge)]. Qed.

Lemma count_byte_app c l1 l2 : count_byte c (l1 ++ l2) = (count_byte c l1 + count_byte c l2)%nat.
Proof. unfold count_byte. by rewrite filter_app, length_app. Qed.

Lemma count_byte_zero c l : count_byte c l = 0%nat ↔ c ∉ l.
Proof.
  unfold count_byte. rewrite length_zero_iff_nil. split.
  - intros H Hin. assert (Hf : c ∈ filter (λ x, x = c) l) by (by apply list_elem_of_filter).
    rewrite H in Hf. by apply elem_of_nil in Hf.
  - intros Hn. destruct (filter _ l) as [|x k] eqn:E; [done|].
    assert (Hf : x ∈ filter (λ x, x = c) l) by (rewrite E; left).
    apply list_elem_of_filter in Hf as [-> ?]. done.
Qed.

Lemma writes_refine srt ws :
  sorts srt →
  table_ok (foldl (apply_write srt) NewRouteTable ws) ∧
  abs (foldl (apply_write srt) NewRouteTable ws) = foldl spec_write ∅ ws.
Proof.
  intros Hs. change ∅ with (abs NewRouteTable).
  assert (Hok : table_ok NewRouteTable) by (split; [apply NoDup_nil_2|constructor..]).
  revert Hok. generalize NewRouteTable. induction ws as [|w ws IH]; intros rt Hok; [done|]. cbn.
  destruct (apply_write_ok srt rt w Hs Hok) as [Hok' <-]. by apply IH.
Qed.

(** C2. The routing table refines a finite map from (host, path prefix) to
    route: every sequence of writers keeps the snapshot sorted with distinct
    keys, and changes its contents as insertion, deletion and filtering of the
    map would, whatever order the sort leaves equal routes in. *)
Theorem route_table_refines_map srt ws :
  sorts srt →
  table_ok (foldl (apply_write srt) NewRouteTable ws) ∧
  abs (foldl (apply_write srt) NewRouteTable ws) = foldl spec_write ∅ ws.
Proof. apply writes_refine. Qed.

Definition route (host path : string) (prio : Z) (app : string) : RouteEntry :=
  {| Host := host; PathPrefix := path; Priority := prio; ServiceName := app;
     Backends := [app]; LBStrategy := ""; Middlewares := []; TLS := false;
     StripPrefix := false; HealthPath := ""; AppID := app |}.

Definition sample_writes : list write :=
  [WUpsert (route "a.example.com" "" 0 "web"); WUpsert (route "a.example.com" "/api" 0 "api");
   WRemoveByAppID "web"].

Lemma route_table_refines_map_witness :
  table_ok (foldl (apply_write (merge_sort route_ge)) NewRouteTable sample_writes) ∧
  abs (foldl (apply_write (merge_sort route_ge)) NewRouteTable sample_writes) =
    foldl spec_write ∅ sample_writes.
Proof. apply route_table_refines_map. apply merge_sort_sorts. Defined.

(** A wildcard pattern [*.d] matches, besides itself, exactly the hosts that
    put one label without dots in front of [.d]. *)
Theorem wildcard_matches_one_label d host :
  matchHost ("*." +:+ d) host = true ↔
    host = ("*." +:+ d) ∨ ∃ x, ("."%char ∉ bytes x) ∧ host = (x +:+ "." +:+ d).
Proof.
  assert (E1 : count_byte "."%char (bytes "*.") = 1%nat) by done.
  assert (E2 : count_byte "."%char (bytes ".") = 1%nat) by done.
  unfold matchHost. case_decide as He; [split; [by left|done]|].
  rewrite (proj2 (HasPrefix_spec _ _)) by eauto.
  replace (str (drop 1 (bytes ("*." +:+ d)))) with ("." +:+ d)
    by (rewrite bytes_app; cbn; change (str ("."%char :: bytes d)) with (str (bytes ("." +:+ d)));
        by rewrite str_bytes).
  rewrite andb_true_iff, HasSuffix_spec, bool_decide_eq_true. split.
  - intros [[x ->] Hc]. right. exists x. split; [|done]. apply count_byte_zero.
    rewrite !bytes_app, !count_byte_app, E1, E2 in Hc. lia.
  - intros [?|(x & Hx & ->)]; [by subst|]. split; [eauto|].
    rewrite !bytes_app, !count_byte_app, E1, E2. apply count_byte_zero in Hx. lia.
Qed.

(** What it means for a route to serve a request: its host is the request's, or a wildcard with
    one label without dots in its place, and its path is the root or a prefix of the request's. *)
Definition serves (host path : string) (r : RouteEntry) : Prop :=
  (Host r = host ∨ ∃ x d, Host r = ("*." +:+ d) ∧ ("."%char ∉ bytes x) ∧ host = (x +:+ "." +:+ d)) ∧
  (PathPrefix r = "/" ∨ ∃ y, path = (PathPrefix r +:+ y)).

Lemma matchHost_spec p host :
  matchHost p host = true ↔ p = host ∨ ∃ x d, p = ("*." +:+ d) ∧ ("."%char ∉ bytes x) ∧ host = (x +:+ "." +:+ d).
Proof.
  split.
  - intros H. destruct (decide (p = host)) as [->|Hne]; [by left|]. destruct (HasPrefix p "*.") eqn:Ep.
    + apply HasPrefix_spec in Ep as [d ->]. apply wildcard_matches_one_label in H as [->|(x & Hx & ->)]; [by left|]. right. eauto.
    + unfold matchHost in H. by rewrite decide_False, Ep in H.
  - intros [->|(x & d & -> & Hx & ->)]; [unfold matchHost; by rewrite decide_True|]. apply wildcard_matches_one_label. eauto.
Qed.

Lemma route_matches_spec host path r : route_matches host path r = true ↔ serves host path r.
Proof.
  unfold route_matches, serves. rewrite andb_true_iff, matchHost_spec. unfold matchPath. case_decide as E; [tauto|].
  rewrite HasPrefix_spec. tauto.
Qed.

(** The first match in a sorted table beats every other match. *)
Lemma match_first rt host path :
  table_ok rt →
  match Match host path rt with
  | Some r => r ∈ entries rt ∧ route_matches host path r = true ∧
      ∀ r', r' ∈ entries rt → route_matches host path r' = true → route_less r' r = false
  | None => ∀ r', r' ∈ entries rt → route_matches host path r' = false
  end.
Proof.
  intros [_ Hs _]. unfold Match. generalize dependent (entries rt). intros l Hs.
  induction Hs as [|r l Hs IH Hr]; cbn; [intros r' H; by apply elem_of_nil in H|].
  case_decide as Hm; cbn.
  - split_and!; [left|done|]. intros r' [->|Hin]%elem_of_cons _.
    + unfold route_less. rewrite Z.eqb_refl. apply bool_decide_eq_false_2. lia.
    + rewrite Forall_forall in Hr. by apply Hr.
  - destruct (list_find _ l) as [[i r0]|]; cbn in *.
    + destruct IH as (? & ? & Hbest). split_and!; [by right|done|].
      intros r' [->|Hin]%elem_of_cons Hm'; [done|auto].
    + intros r' [->|Hin]%elem_of_cons; [by apply not_true_is_false|auto].
Qed.

Lemma in_abs rt r : table_ok rt → r ∈ entries rt ↔ abs rt !! key r = Some r.
Proof.
  intros [Hk _ _]. unfold abs. rewrite <- elem_of_list_to_map by (by rewrite keys_fmap). rewrite list_elem_of_fmap. split.
  - intros Hin. by exists r.
  - intros (r' & E & Hin). by injection E as _ _ ->.
Qed.

(** C3. After any sequence of writers, and whatever order the sort leaves equal routes in, [Match]
    returns a registered route that serves the request, of the highest priority among those that
    do and of the longest path among those of that priority; it returns none exactly when no
    registered route serves it.  How the host matched plays no part, although the comment on
    [Match] puts an exact host before a wildcard. *)
Theorem match_finds_best srt ws host path :
  sorts srt →
  let routes := foldl spec_write ∅ ws in
  match Match host path (foldl (apply_write srt) NewRouteTable ws) with
  | Some r => routes !! key r = Some r ∧ serves host path r ∧
      ∀ k r', routes !! k = Some r' → serves host path r' →
        Priority r' < Priority r ∨ (Priority r' = Priority r ∧ (slen (PathPrefix r') ≤ slen (PathPrefix r))%nat)
  | None => ∀ k r', routes !! k = Some r' → ¬ serves host path r'
  end.
Proof.
  intros Hs routes. destruct (writes_refine srt ws Hs) as [Hok Habs]. fold routes in Habs. set (rt := foldl (apply_write srt) NewRouteTable ws) in *.
  assert (∀ k r', routes !! k = Some r' → r' ∈ entries rt) as Hin.
  { intros k r'. rewrite <- Habs. unfold abs. intros H%elem_of_list_to_map_2. apply list_elem_of_fmap in H as (r0 & [= _ ->] & H). done. }
  pose proof (match_first rt host path Hok) as Hm. destruct (Match host path rt) as [r|].
  - destruct Hm as (H1 & H2 & H3). split_and!; [rewrite <- Habs; by apply in_abs|by apply route_matches_spec|].
    intros k r' Hk%Hin Hr'%route_matches_spec. apply (route_less_false r' r). by apply H3.
  - intros k r' Hk%Hin Hr'%route_matches_spec. by rewrite Hm in Hr'.
Qed.

Definition sample_host_writes : list write :=
  [WUpsert (route "a.example.com" "/" 0 "exact"); WUpsert (route "*.example.com" "/api" 0 "wild")].

Lemma match_finds_best_witness :
  Match "a.example.com" "/api/v1" (foldl (apply_write (merge_sort route_ge)) NewRouteTable sample_host_writes) = Some (route "*.example.com" "/api" 0 "wild") ∧
  ∀ k r', foldl spec_write ∅ sample_host_writes !! k = Some r' → serves "a.example.com" "/api/v1" r' → Priority r' < 0 ∨ (Priority r' = 0 ∧ (slen (PathPrefix r') ≤ 4)%nat).
Proof.
  pose proof (match_finds_best (merge_sort route_ge) sample_host_writes "a.example.com" "/api/v1" merge_sort_sorts) as H.
  assert (Match "a.example.com" "/api/v1" (foldl (apply_write (merge_sort route_ge)) NewRouteTable sample_host_writes) =
    Some (route "*.example.com" "/api" 0 "wild")) as E by (vm_compute; reflexivity).
  split; [exact E|]. cbv zeta in H. rewrite E in H. exact (proj2 (proj2 H)).
Defined.

(** The order of routes ignores how the host matched: a wildcard route with
    a longer path prefix wins over an exact-host route, whatever the sort does
    with ties. *)
Theorem wildcard_can_beat_exact_host srt :
  sorts srt →
  let exact := route "a.example.com" "/" 0 "exact" in
  let wild := route "*.example.com" "/api" 0 "wild" in
  let rt := foldl (apply_write srt) NewRouteTable [WUpsert exact; WUpsert wild] in
  route_matches "a.example.com" "/api/v1" exact = true ∧ exact ∈ entries rt ∧
  Match "a.example.com" "/api/v1" rt = Some wild.
Proof.
  intros Hs exact wild rt. split; [done|].
  assert (H1 : entries (apply_write srt NewRouteTable (WUpsert exact)) = [exact]).
  { destruct (Hs [exact]) as [Hp _]. by apply Permutation_singleton_r in Hp. }
  assert (Hrt : entries rt = srt [exact; wild]).
  { unfold rt. cbn [foldl apply_write]. unfold Upsert at 1, replace. cbn [entries].
    change (Upsert srt exact NewRouteTable) with (apply_write srt NewRouteTable (WUpsert exact)).
    by rewrite H1. }
  destruct (Hs [exact; wild]) as [Hp Hst]. rewrite <-Hrt in Hp, Hst.
  split; [rewrite Hp; left|].
  symmetry in Hp. apply Permutation_length_2_inv in Hp as [Hp|Hp]; rewrite Hp in Hst.
  - exfalso. apply StronglySorted_inv in Hst as [_ Hf].
    apply (Forall_inv (P := not_after exact)) in Hf. unfold not_after in Hf.
    assert (route_less wild exact = true) by done. congruence.
  - unfold Match. by rewrite Hp.
Qed.

Lemma wildcard_can_beat_exact_host_witness :
  Match "a.example.com" "/api/v1"
    (foldl (apply_write (merge_sort route_ge)) NewRouteTable
       [WUpsert (route "a.example.com" "/" 0 "exact");
        WUpsert (route "*.example.com" "/api" 0 "wild")]) =
  Some (route "*.example.com" "/api" 0 "wild").
Proof. apply (wildcard_can_beat_exact_host (merge_sort route_ge) merge_sort_sorts). Defined.

End RouteTable.
