(* ===== verification/IngressProxy.v ===== *)
(** * IngressProxy: the reverse proxy ([internal/ingress/proxy.go], [metrics.go])

    A request is a handler that goes from phase to phase ([advance]), one access
    to shared state at a time: the route table, the drain manager and the breaker
    of each backend in turn, the balancer, the connection tracker, the breaker
    again, the metrics.  Handlers overlap with each other and with drains, route
    changes and resets, so the properties are about arbitrary interleavings; a
    ghost list of past states says what a handler saw when.  The connection
    tracker is one object shared by the proxy and its drain manager; it is stored
    once, in the drain manager.  The load balancing strategy is used through its
    interface only. *)

From S2P Require Import Prelude GoStrings GoNet GoUrl GracefulCircuit GracefulConn Balancer RouteTable.
#[local] Open Scope Z_scope.

Module IngressProxy.

(** What the proxy reads of a request. *)
Record request := {
  rHost : string;
  rPath : string;
  rRemoteAddr : string;
  rXFF : string;
  rXRealIP : string;
  rXProto : string;
  rTLS : bool }.

Definition lb_request (r : request) : Balancer.request :=
  {| Balancer.RemoteAddr := rRemoteAddr r; Balancer.XForwardedFor := rXFF r |}.

(** src/internal/ingress/proxy.go:251-257 extractHost *)
Definition extractHost (host : string) : string :=
  match GoNet.SplitHostPort host with Some (h, _) => h | None => host end.

(** src/internal/ingress/proxy.go:260-270 clientIP *)
Definition clientIP (r : request) : string :=
  if decide (rXFF r = "") then
    if decide (rXRealIP r = "") then
      match GoNet.SplitHostPort (rRemoteAddr r) with Some (ip, _) => ip | None => "" end
    else rXRealIP r
  else TrimSpace (str (before_first ","%char (bytes (rXFF r)))).

(** src/internal/ingress/proxy.go:273-281 scheme *)
Definition scheme (r : request) : string :=
  if rTLS r then "https"
  else if decide (rXProto r = "") then "http" else rXProto r.

(** What is sent upstream.
    src/internal/ingress/proxy.go:140-158 ReverseProxy.ServeHTTP.Director *)
Record forwarded := {
  fPath : string;
  fXFF : string;
  fXHost : string;
  fXProto : string;
  fXRealIP : string;
  fHost : string }.

(** src/internal/ingress/proxy.go:140-158 ReverseProxy.ServeHTTP.Director *)
Definition director (route : RouteTable.RouteEntry) (r : request) : forwarded :=
  let path :=
    if RouteTable.StripPrefix route && bool_decide (RouteTable.PathPrefix route ≠ "/") then
      let p := TrimPrefix (rPath r) (RouteTable.PathPrefix route) in
      if decide (p = "") then "/" else p
    else rPath r in
  {| fPath := path; fXFF := clientIP r; fXHost := rHost r; fXProto := scheme r;
     fXRealIP := clientIP r; fHost := rHost r |}.

(** src/internal/ingress/metrics.go:12-22 MetricsCollector *)
Record MetricsCollector := {
  totalRequests : Z;
  activeRequests : Z;
  errorCount : Z;
  bytesIn : Z;
  bytesOut : Z;
  latencySum : Z;
  latencyCount : Z;
  requestsByHost : gmap string Z;
  requestsByStatus : gmap string Z }.

(** src/internal/ingress/metrics.go:50-55 NewMetricsCollector *)
Definition NewMetricsCollector : MetricsCollector :=
  {| totalRequests := 0; activeRequests := 0; errorCount := 0; bytesIn := 0; bytesOut := 0;
     latencySum := 0; latencyCount := 0; requestsByHost := ∅; requestsByStatus := ∅ |}.

(** src/internal/ingress/metrics.go:30-37 syncMapCount.Inc *)
Definition Inc (m : gmap string Z) (k : string) : gmap string Z :=
  <[k := i64 (default 0 (m !! k) + 1)]> m.

(** src/internal/ingress/metrics.go:58-72 MetricsCollector.RecordRequest *)
Definition RecordRequest (m : MetricsCollector) (host : string) (status micros bin bout : Z)
  : MetricsCollector :=
  {| totalRequests := i64 (totalRequests m + 1);
     activeRequests := activeRequests m;
     errorCount := if 500 <=? status then i64 (errorCount m + 1) else errorCount m;
     bytesIn := i64 (bytesIn m + bin);
     bytesOut := i64 (bytesOut m + bout);
     latencySum := i64 (latencySum m + micros);
     latencyCount := i64 (latencyCount m + 1);
     requestsByHost := Inc (requestsByHost m) host;
     requestsByStatus := Inc (requestsByStatus m) (itoa status) |}.

Definition add_active (m : MetricsCollector) (d : Z) : MetricsCollector :=
  {| totalRequests := totalRequests m; activeRequests := i64 (activeRequests m + d);
     errorCount := errorCount m; bytesIn := bytesIn m; bytesOut := bytesOut m;
     latencySum := latencySum m; latencyCount := latencyCount m;
     requestsByHost := requestsByHost m; requestsByStatus := requestsByStatus m |}.

(** src/internal/ingress/metrics.go:75-77 MetricsCollector.IncrementActive *)
Definition IncrementActive (m : MetricsCollector) : MetricsCollector := add_active m 1.

(** src/internal/ingress/metrics.go:80-82 MetricsCollector.DecrementActive *)
Definition DecrementActive (m : MetricsCollector) : MetricsCollector := add_active m (-1).

Section proxy.
Context {S : Type} `{Balancer.StrategyLaws S}.

(** src/internal/ingress/proxy.go:19-27 ReverseProxy *)
Record ReverseProxy := {
  router : RouteTable.routesSnapshot;
  metrics : MetricsCollector;
  drainer : GracefulConn.DrainManager;
  circuit : GracefulCircuit.CircuitBreakerManager;
  lb : S }.

Definition tracker (rp : ReverseProxy) : GracefulConn.ConnectionTracker :=
  GracefulConn.tracker (drainer rp).

Definition set_tracker (dm : GracefulConn.DrainManager) (t : GracefulConn.ConnectionTracker)
  : GracefulConn.DrainManager :=
  {| GracefulConn.draining := GracefulConn.draining dm; GracefulConn.tracker := t;
     GracefulConn.next := GracefulConn.next dm; GracefulConn.closed := GracefulConn.closed dm |}.

(** src/internal/ingress/proxy.go:234-248 ReverseProxy.filterHealthyBackends *)
Definition filterHealthyBackends (rp : ReverseProxy) (backends : list string) : list string :=
  filter (λ b, GracefulConn.IsDraining (drainer rp) b = false ∧
               GracefulCircuit.M_IsOpen (circuit rp) b = false) backends.

(** Calls the upstream side makes on the wrapped response writer. *)
Inductive wcall := CWriteHeader (status : Z) | CWrite.

(** src/internal/ingress/proxy.go:192-198 responseTracker *)
Record responseTracker := { rt_status : Z; rt_written : bool }.

(** src/internal/ingress/proxy.go:200-212 responseTracker.WriteHeader *)
Definition WriteHeader (cm : GracefulCircuit.CircuitBreakerManager) (rt : responseTracker)
    (b : string) (status : Z) (now : instant)
  : GracefulCircuit.CircuitBreakerManager * responseTracker :=
  if rt_written rt then (cm, rt)
  else (if 500 <=? status then GracefulCircuit.M_RecordFailure cm b now
        else GracefulCircuit.M_RecordSuccess cm b now,
        {| rt_status := status; rt_written := true |}).

(** src/internal/ingress/proxy.go:214-222 responseTracker.Write *)
Definition Write (cm : GracefulCircuit.CircuitBreakerManager) (rt : responseTracker)
    (b : string) (now : instant) : GracefulCircuit.CircuitBreakerManager * responseTracker :=
  if rt_written rt then (cm, rt)
  else (GracefulCircuit.M_RecordSuccess cm b now, {| rt_status := 200; rt_written := true |}).

(** What [httputil.ReverseProxy] does with the request: the transport fails, and its
    [ErrorHandler] runs on the wrapped writer, or the response is written. *)
Inductive upstream := TransportError | Response (calls : list wcall).

Definition wcall_step (b : string) (now : instant)
    (st : GracefulCircuit.CircuitBreakerManager * responseTracker) (c : wcall)
  : GracefulCircuit.CircuitBreakerManager * responseTracker :=
  match c with
  | CWriteHeader status => WriteHeader st.1 st.2 b status now
  | CWrite => Write st.1 st.2 b now
  end.

Definition fresh_tracker : responseTracker := {| rt_status := 0; rt_written := false |}.

(** What the error handler writes.
    src/internal/ingress/proxy.go:168-177 ReverseProxy.ServeHTTP.ErrorHandler *)
Definition error_calls : list wcall := [CWriteHeader 502; CWrite].

Definition with_metrics (rp : ReverseProxy) (m : MetricsCollector) : ReverseProxy :=
  {| router := router rp; metrics := m; drainer := drainer rp; circuit := circuit rp; lb := lb rp |}.
Definition with_circuit (rp : ReverseProxy) (c : GracefulCircuit.CircuitBreakerManager) : ReverseProxy :=
  {| router := router rp; metrics := metrics rp; drainer := drainer rp; circuit := c; lb := lb rp |}.
Definition with_tracker (rp : ReverseProxy) (t : GracefulConn.ConnectionTracker) : ReverseProxy :=
  {| router := router rp; metrics := metrics rp; drainer := set_tracker (drainer rp) t; circuit := circuit rp; lb := lb rp |}.
Definition with_lb (rp : ReverseProxy) (s : S) : ReverseProxy :=
  {| router := router rp; metrics := metrics rp; drainer := drainer rp; circuit := circuit rp; lb := s |}.

(** Where a handler is: what it does next. *)
Inductive phase :=
| Arrived
| Filtering (route : RouteTable.RouteEntry) (todo healthy : list string)
| Looking (route : RouteTable.RouteEntry) (b : string) (todo healthy : list string)
| Picked (route : RouteTable.RouteEntry) (b : string)
| Counted (route : RouteTable.RouteEntry) (b : string)
| Sending (b : string) (what : forwarded)
| Failing (b : string)
| Writing (b : string) (rt : responseTracker) (calls : list wcall)
| Uncounting (b : string)
| Refusing (status : Z)
| Leaving.

(** What the code does not decide: the clock, the elapsed time of a refusal, what the backend
    does. *)
Record input := { i_now : instant; i_micros : Z; i_upstream : upstream }.

(** src/internal/ingress/proxy.go:103-111 ReverseProxy.ServeHTTP.match *)
Definition find_route (rp : ReverseProxy) (r : request) : phase :=
  match RouteTable.Match (extractHost (rHost r)) (rPath r) (router rp) with
  | None => Refusing 502
  | Some route => Filtering route (RouteTable.Backends route) []
  end.

(** The two reads of the filter for one backend.
    src/internal/ingress/proxy.go:238-240 ReverseProxy.filterHealthyBackends.drain *)
Definition check_drain (rp : ReverseProxy) (route : RouteTable.RouteEntry) (b : string) (todo healthy : list string) : phase :=
  if GracefulConn.IsDraining (drainer rp) b then Filtering route todo healthy else Looking route b todo healthy.

(** src/internal/ingress/proxy.go:242-245 ReverseProxy.filterHealthyBackends.circuit *)
Definition check_circuit (rp : ReverseProxy) (route : RouteTable.RouteEntry) (b : string) (todo healthy : list string) : phase :=
  Filtering route todo (if GracefulCircuit.M_IsOpen (circuit rp) b then healthy else healthy ++ [b]).

(** The end of the filter: a refusal or the balancer's choice, which may panic.
    src/internal/ingress/proxy.go:115-122 ReverseProxy.ServeHTTP.pick *)
Definition pick (rp : ReverseProxy) (r : request) (route : RouteTable.RouteEntry) (healthy : list string) : ReverseProxy * phase :=
  match healthy with
  | [] => (rp, Refusing 503)
  | _ =>
      match Balancer.next (lb rp) healthy (lb_request r) with
      | (s, None) => (with_lb rp s, Leaving)
      | (s, Some b) => (with_lb rp s, Picked route b)
      end
  end.

(** A backend whose address does not parse is answered with 502.
    src/internal/ingress/proxy.go:129-134 ReverseProxy.ServeHTTP.target *)
Definition target (rp : ReverseProxy) (r : request) (route : RouteTable.RouteEntry) (b : string) (now : instant) : ReverseProxy * phase :=
  match GoUrl.Parse ("http://" +:+ b) with
  | None => (with_circuit rp (GracefulCircuit.M_RecordFailure (circuit rp) b now), Uncounting b)
  | Some _ => (rp, Sending b (director route r))
  end.

(** The next access of a handler to shared state; [None] when it returns.
    src/internal/ingress/proxy.go:96-189 ReverseProxy.ServeHTTP *)
Definition advance (rp : ReverseProxy) (r : request) (ph : phase) (i : input) : ReverseProxy * option phase :=
  match ph with
  | Arrived => (rp, Some (find_route rp r))
  | Filtering route (b :: todo) healthy => (rp, Some (check_drain rp route b todo healthy))
  | Looking route b todo healthy => (rp, Some (check_circuit rp route b todo healthy))
  | Filtering route [] healthy => prod_map id Some (pick rp r route healthy)
  | Picked route b => (with_tracker rp (GracefulConn.Increment (tracker rp) b), Some (Counted route b))
  | Counted route b => prod_map id Some (target rp r route b (i_now i))
  | Sending b _ =>
      (rp, Some (match i_upstream i with TransportError => Failing b | Response calls => Writing b fresh_tracker calls end))
  | Failing b =>
      (with_circuit rp (GracefulCircuit.M_RecordFailure (circuit rp) b (i_now i)), Some (Writing b fresh_tracker error_calls))
  | Writing b rt (c :: calls) =>
      let '(cm, rt) := wcall_step b (i_now i) (circuit rp, rt) c in (with_circuit rp cm, Some (Writing b rt calls))
  | Writing b rt [] => (rp, Some (Uncounting b))
  | Uncounting b => (with_tracker rp (GracefulConn.Decrement (tracker rp) b), Some Leaving)
  | Refusing status =>
      (with_metrics rp (RecordRequest (metrics rp) (extractHost (rHost r)) status (i_micros i) 0 0), Some Leaving)
  | Leaving => (with_metrics rp (DecrementActive (metrics rp)), None)
  end.

(** src/internal/ingress/proxy.go:61-67 ReverseProxy.StartDrain *)
Definition StartDrain (rp : ReverseProxy) (b : string) (now : instant)
  : ReverseProxy * (Z * bool) :=
  match GracefulConn.StartDrain (drainer rp) b now with
  | (dm, None) => (rp, (0, false))
  | (dm, Some _) =>
      ({| router := router rp; metrics := metrics rp; drainer := dm; circuit := circuit rp;
          lb := lb rp |}, (GracefulConn.Active (GracefulConn.tracker dm) b, true))
  end.

(** src/internal/ingress/proxy.go:70-72 ReverseProxy.CompleteDrain *)
Definition CompleteDrain (rp : ReverseProxy) (b : string) : option ReverseProxy :=
  (λ dm, {| router := router rp; metrics := metrics rp; drainer := dm; circuit := circuit rp;
            lb := lb rp |}) <$> GracefulConn.CompleteDrain (drainer rp) b.

(** src/internal/ingress/proxy.go:75-77 ReverseProxy.IsDraining *)
Definition IsDraining (rp : ReverseProxy) (b : string) : bool :=
  GracefulConn.IsDraining (drainer rp) b.

(** src/internal/ingress/proxy.go:90-92 ReverseProxy.ResetCircuit *)
Definition ResetCircuit (rp : ReverseProxy) (b : string) (now : instant) : ReverseProxy :=
  {| router := router rp; metrics := metrics rp; drainer := drainer rp;
     circuit := GracefulCircuit.M_Reset (circuit rp) b now; lb := lb rp |}.

(** src/internal/ingress/proxy.go:80-82 ReverseProxy.CircuitStats *)
Definition CircuitStats (rp : ReverseProxy) (b : string) : option GracefulCircuit.CircuitStats :=
  GracefulCircuit.M_Stats (circuit rp) b.

(** Replacement of the route table by its writers. *)
Definition set_router (rp : ReverseProxy) (rt : RouteTable.routesSnapshot) : ReverseProxy :=
  {| router := rt; metrics := metrics rp; drainer := drainer rp; circuit := circuit rp;
     lb := lb rp |}.

End proxy.
Arguments ReverseProxy : clear implicits.

(** src/internal/ingress/proxy.go:39-50 NewReverseProxy *)
Definition NewReverseProxy (rt : RouteTable.routesSnapshot)
  : ReverseProxy Balancer.RoundRobin :=
  {| router := rt; metrics := NewMetricsCollector;
     drainer := GracefulConn.NewDrainManager GracefulConn.NewConnectionTracker;
     circuit := GracefulCircuit.NewCircuitBreakerManager GracefulCircuit.DefaultCircuitConfig;
     lb := {| Balancer.rr_counter := 0 |} |}.

(** ** Overlapping requests *)

Section steps.
Context {S : Type} `{Balancer.StrategyLaws S}.

(** [h_looked] is ghost: the time of the handler's route lookup. *)
Record handler := { h_req : request; h_phase : phase; h_looked : nat }.

(** [past] is ghost: the state of the proxy before each step so far; its length is the time. *)
Record world := { proxy : ReverseProxy S; handlers : gmap nat handler; past : list (ReverseProxy S) }.

Definition with_handlers (w : world) (rp : ReverseProxy S) (hs : gmap nat handler) : world :=
  {| proxy := rp; handlers := hs; past := past w ++ [proxy w] |}.

Definition looked_at (w : world) (hd : handler) : nat :=
  match h_phase hd with Arrived => length (past w) | _ => h_looked hd end.

(** One access to shared state, by a handler or by the operations on the proxy.  [resets] says
    whether an operator may reset circuits; fewer than [2^63 - 1] requests are handled at a
    time. *)
Inductive step (resets : bool) : world → world → Prop :=
| step_arrive w h r :
    handlers w !! h = None → Z.of_nat (size (handlers w)) < max_int64 - 1 →
    step resets w (with_handlers w (with_metrics (proxy w) (IncrementActive (metrics (proxy w))))
      (<[h := {| h_req := r; h_phase := Arrived; h_looked := 0 |}]> (handlers w)))
| step_advance w h hd i rp' ph' :
    handlers w !! h = Some hd → advance (proxy w) (h_req hd) (h_phase hd) i = (rp', Some ph') →
    step resets w (with_handlers w rp' (<[h := {| h_req := h_req hd; h_phase := ph'; h_looked := looked_at w hd |}]> (handlers w)))
| step_return w h hd i rp' :
    handlers w !! h = Some hd → advance (proxy w) (h_req hd) (h_phase hd) i = (rp', None) →
    step resets w (with_handlers w rp' (delete h (handlers w)))
| step_drain w b now : step resets w (with_handlers w (StartDrain (proxy w) b now).1 (handlers w))
| step_drained w b rp' : CompleteDrain (proxy w) b = Some rp' → step resets w (with_handlers w rp' (handlers w))
| step_routes w rt : step resets w (with_handlers w (set_router (proxy w) rt) (handlers w))
| step_reset w b now : resets = true → step resets w (with_handlers w (ResetCircuit (proxy w) b now) (handlers w)).

Definition starting (rp : ReverseProxy S) : world := {| proxy := rp; handlers := ∅; past := [] |}.

Implicit Types (rp : ReverseProxy S) (w : world) (hd : handler) (l : list (ReverseProxy S)).

(** *** What a handler has seen *)

(** At or after its lookup, the state at a time had a property. *)
Definition seen l hd (P : ReverseProxy S → Prop) : Prop := ∃ j q, (h_looked hd ≤ j)%nat ∧ l !! j = Some q ∧ P q.

(** First not draining, and later with a circuit that is not open. *)
Definition seen_healthy l hd (b : string) : Prop :=
  ∃ j q k s, (h_looked hd ≤ j ≤ k)%nat ∧ l !! j = Some q ∧ l !! k = Some s ∧
    IsDraining q b = false ∧ GracefulCircuit.M_State (circuit s) b ≠ GracefulCircuit.CircuitOpen.

Definition seen_unfit l hd (b : string) : Prop :=
  seen l hd (λ q, IsDraining q b = true ∨ GracefulCircuit.M_State (circuit q) b = GracefulCircuit.CircuitOpen).

(** What the route table gave at the lookup. *)
Definition lookup_of l hd (o : option RouteTable.RouteEntry) : Prop :=
  ∃ p, l !! h_looked hd = Some p ∧ RouteTable.Match (extractHost (rHost (h_req hd))) (rPath (h_req hd)) (router p) = o.

Definition sorted_out l hd (checked healthy : list string) : Prop :=
  (∀ b, b ∈ healthy → b ∈ checked ∧ seen_healthy l hd b) ∧ (∀ b, b ∈ checked → b ∈ healthy ∨ seen_unfit l hd b) ∧
  (length healthy ≤ length checked)%nat.

Definition chosen l hd (route : RouteTable.RouteEntry) (b : string) : Prop :=
  lookup_of l hd (Some route) ∧ b ∈ RouteTable.Backends route ∧ seen_healthy l hd b.

Definition backed_by l hd : Prop :=
  match h_phase hd with
  | Arrived | Leaving => True
  | Refusing st =>
      (st = 502 ∧ lookup_of l hd None) ∨
      (st = 503 ∧ ∃ route, lookup_of l hd (Some route) ∧ ∀ b, b ∈ RouteTable.Backends route → seen_unfit l hd b)
  | Filtering route todo healthy =>
      lookup_of l hd (Some route) ∧ ∃ checked, RouteTable.Backends route = checked ++ todo ∧ sorted_out l hd checked healthy
  | Looking route b todo healthy =>
      lookup_of l hd (Some route) ∧ seen l hd (λ q, IsDraining q b = false) ∧
      ∃ checked, RouteTable.Backends route = checked ++ b :: todo ∧ sorted_out l hd checked healthy
  | Picked route b | Counted route b => chosen l hd route b
  | Sending b what => ∃ route, chosen l hd route b ∧ what = director route (h_req hd)
  | Failing b | Writing b _ _ | Uncounting b => ∃ route, chosen l hd route b
  end.

(** Later states add to what was seen. *)
Lemma seen_mono l l' hd P : l `prefix_of` l' → seen l hd P → seen l' hd P.
Proof. intros Hl (j & q & Hj & Hq & HP). exists j, q. split_and!; [done| |done]. by eapply prefix_lookup_Some. Qed.

Lemma seen_healthy_mono l l' hd b : l `prefix_of` l' → seen_healthy l hd b → seen_healthy l' hd b.
Proof.
  intros Hl (j & q & k & s & Hj & Hq & Hs & Hrest). exists j, q, k, s. split_and!; [lia|lia|by eapply prefix_lookup_Some..|apply Hrest|apply Hrest].
Qed.

Lemma lookup_of_mono l l' hd o : l `prefix_of` l' → lookup_of l hd o → lookup_of l' hd o.
Proof. intros Hl (p & Hp & HM). exists p. split; [by eapply prefix_lookup_Some|done]. Qed.

Lemma sorted_out_mono l l' hd dn hl : l `prefix_of` l' → sorted_out l hd dn hl → sorted_out l' hd dn hl.
Proof.
  intros Hl (H1 & H2 & H3). split_and!; [intros b Hb; destruct (H1 b Hb); split; [done|by eapply seen_healthy_mono]| |done].
  intros b Hb. destruct (H2 b Hb); [by left|right; by eapply seen_mono].
Qed.

Lemma chosen_mono l l' hd route b : l `prefix_of` l' → chosen l hd route b → chosen l' hd route b.
Proof. intros Hl (H1 & H2 & H3). split_and!; [by eapply lookup_of_mono|done|by eapply seen_healthy_mono]. Qed.

Lemma backed_by_mono l l' hd : l `prefix_of` l' → backed_by l hd → backed_by l' hd.
Proof.
  intros Hl. unfold backed_by. destruct (h_phase hd).
  - done.
  - intros (H1 & dn & H2 & H3). split; [by eapply lookup_of_mono|]. exists dn. split; [done|by eapply sorted_out_mono].
  - intros (H1 & H2 & dn & H3 & H4). split_and!; [by eapply lookup_of_mono|by eapply seen_mono|]. exists dn. split; [done|by eapply sorted_out_mono].
  - by eapply chosen_mono.
  - by eapply chosen_mono.
  - intros (route0 & Hc & E). exists route0. split; [by eapply chosen_mono|done].
  - intros (route0 & Hc). exists route0. by eapply chosen_mono.
  - intros (route0 & Hc). exists route0. by eapply chosen_mono.
  - intros (route0 & Hc). exists route0. by eapply chosen_mono.
  - intros [[E H1]|(E & route0 & H1 & H2)]; [left|right]; (split; [done|]); [by eapply lookup_of_mono|].
    exists route0. split; [by eapply lookup_of_mono|]. intros b Hb. eapply seen_mono; [done|by apply H2].
  - done.
Qed.

(** The strategy can serve a request and no route has [2^32] backends. *)
Definition pickable rp : Prop :=
  Balancer.usable 1 (lb rp) ∧ ∀ route, route ∈ RouteTable.entries (router rp) → zlen (RouteTable.Backends route) < 2 ^ 32.

Lemma Match_in host path rt route : RouteTable.Match host path rt = Some route → route ∈ RouteTable.entries rt.
Proof.
  unfold RouteTable.Match. intros Hm. destruct (list_find _ _) as [[i r0]|] eqn:E; simplify_eq/=.
  apply list_find_Some in E as [E _]. by eapply list_elem_of_lookup_2.
Qed.

Lemma seen_now l rp hd (P : ReverseProxy S → Prop) : (h_looked hd ≤ length l)%nat → P rp → seen (l ++ [rp]) hd P.
Proof. intros Hl HP. exists (length l), rp. split_and!; [done| |done]. by rewrite lookup_app_r, Nat.sub_diag. Qed.

Lemma lookup_of_time l hd o : lookup_of l hd o → (h_looked hd < length l)%nat.
Proof. intros (p & Hp & _). by eapply lookup_lt_Some. Qed.

(** The filter's two reads. *)
Lemma check_drain_backed l rp hd route b todo healthy checked :
  lookup_of l hd (Some route) → RouteTable.Backends route = checked ++ b :: todo → sorted_out l hd checked healthy →
  backed_by (l ++ [rp]) {| h_req := h_req hd; h_phase := check_drain rp route b todo healthy; h_looked := h_looked hd |}.
Proof.
  intros Hl Hb Hs. pose proof (lookup_of_time _ _ _ Hl) as Ht.
  apply (lookup_of_mono l (l ++ [rp])) in Hl; [|by apply prefix_app_r]. apply (sorted_out_mono l (l ++ [rp])) in Hs; [|by apply prefix_app_r].
  unfold check_drain. destruct (GracefulConn.IsDraining (drainer rp) b) eqn:Hd; unfold backed_by; cbn [h_phase].
  - split; [done|]. exists (checked ++ [b]). split; [by rewrite <- app_assoc|]. destruct Hs as (H1 & H2 & H3). split_and!.
    + intros x Hx. destruct (H1 x Hx). split; [apply elem_of_app; by left|done].
    + intros x [Hx|Hx%list_elem_of_singleton]%elem_of_app; [by apply H2|]. subst x. right. apply seen_now; [cbn; lia|by left].
    + rewrite length_app. cbn. lia.
  - split_and!; [done|apply seen_now; [cbn; lia|done]|]. by exists checked.
Qed.

Lemma check_circuit_backed l rp hd route b todo healthy checked :
  lookup_of l hd (Some route) → seen l hd (λ q, IsDraining q b = false) →
  RouteTable.Backends route = checked ++ b :: todo → sorted_out l hd checked healthy →
  backed_by (l ++ [rp]) {| h_req := h_req hd; h_phase := check_circuit rp route b todo healthy; h_looked := h_looked hd |}.
Proof.
  intros Hl Hq Hb Hs. pose proof (lookup_of_time _ _ _ Hl) as Ht.
  apply (lookup_of_mono l (l ++ [rp])) in Hl; [|by apply prefix_app_r]. apply (sorted_out_mono l (l ++ [rp])) in Hs; [|by apply prefix_app_r].
  unfold check_circuit, backed_by. cbn [h_phase]. split; [done|]. exists (checked ++ [b]). split; [by rewrite <- app_assoc|].
  destruct Hs as (H1 & H2 & H3). unfold GracefulCircuit.M_IsOpen. case_bool_decide as Ho; split_and!; rewrite ?length_app; cbn [length]; try lia.
  - intros x Hx. destruct (H1 x Hx). split; [apply elem_of_app; by left|done].
  - intros x [Hx|Hx%list_elem_of_singleton]%elem_of_app; [by apply H2|]. subst x. right. apply seen_now; [cbn; lia|by right].
  - intros x [Hx|Hx%list_elem_of_singleton]%elem_of_app.
    + destruct (H1 x Hx). split; [apply elem_of_app; by left|done].
    + subst x. split; [apply elem_of_app; right; apply list_elem_of_here|].
      destruct Hq as (j & q & Hj & Hq & Hd). pose proof (lookup_lt_Some _ _ _ Hq). exists j, q, (length l), rp. split_and!; [done|cbn; lia| | |done|done].
      * by apply lookup_app_l_Some.
      * by rewrite lookup_app_r, Nat.sub_diag.
  - intros x [Hx|Hx%list_elem_of_singleton]%elem_of_app.
    + destruct (H2 x Hx); [left; apply elem_of_app; by left|by right].
    + subst x. left. apply elem_of_app. right. apply list_elem_of_here.
Qed.

(** The end of the filter. *)
Lemma pick_backed l rp hd route healthy checked rp' ph' :
  lookup_of l hd (Some route) → RouteTable.Backends route = checked → sorted_out l hd checked healthy →
  pickable rp → (∀ p, p ∈ l → pickable p) → pick rp (h_req hd) route healthy = (rp', ph') →
  backed_by (l ++ [rp]) {| h_req := h_req hd; h_phase := ph'; h_looked := h_looked hd |}.
Proof.
  intros Hl <- Hs [Hu _] Hp. destruct Hl as (p & Hpl & Hm). assert (lookup_of (l ++ [rp]) hd (Some route)) as Hl'.
  { exists p. split; [by apply lookup_app_l_Some|done]. }
  apply (sorted_out_mono l (l ++ [rp])) in Hs; [|by apply prefix_app_r]. destruct Hs as (H1 & H2 & H3). unfold pick.
  destruct healthy as [|x healthy].
  { intros [= <- <-]. right. split; [done|]. exists route. split; [done|]. intros b Hb. by destruct (H2 b Hb) as [?%elem_of_nil|?]. }
  destruct (Hp p) as [_ Hlen]; [by eapply list_elem_of_lookup_2|]. apply Match_in in Hm. specialize (Hlen route Hm).
  destruct (Balancer.next_pick 0 (lb rp) (x :: healthy) (lb_request (h_req hd)) Hu) as (s' & b & Hn & Hb & _); [done|lia|].
  rewrite Hn. intros [= <- <-]. unfold backed_by. cbn [h_phase]. destruct (H1 b Hb). by split_and!.
Qed.

Lemma advance_backed l rp hd i rp' ph' :
  backed_by l hd → pickable rp → (∀ p, p ∈ l → pickable p) → advance rp (h_req hd) (h_phase hd) i = (rp', Some ph') →
  backed_by (l ++ [rp]) {| h_req := h_req hd; h_phase := ph';
                           h_looked := match h_phase hd with Arrived => length l | _ => h_looked hd end |}.
Proof.
  intros Hb Hp Hall. pose proof (backed_by_mono l (l ++ [rp]) hd (prefix_app_r _ _ _ (reflexivity l)) Hb) as Hb'.
  destruct hd as [r ph t]. cbn [h_req h_phase h_looked] in *. unfold backed_by in Hb, Hb'. cbn [h_phase] in *. unfold advance.
  destruct ph as [|route todo healthy|route b todo healthy|route b|route b|b what|b|b rt calls|b|st|].
  - intros [= <- <-]. unfold find_route, backed_by. destruct (RouteTable.Match _ _ (router rp)) as [route|] eqn:E; cbn [h_phase].
    + split.
      * exists rp. split; [by rewrite lookup_app_r, Nat.sub_diag|done].
      * exists []. split; [done|]. split_and!; [by intros b Hx%elem_of_nil..|done].
    + left. split; [done|]. exists rp. split; [by rewrite lookup_app_r, Nat.sub_diag|done].
  - destruct Hb as (Hl & checked & Ebk & Hs). destruct todo as [|b todo].
    + rewrite app_nil_r in Ebk. destruct (pick rp r route healthy) as [rp1 ph1] eqn:E. intros [= <- <-].
      by eapply (pick_backed l rp {| h_req := r; h_phase := Filtering route [] healthy; h_looked := t |}).
    + intros [= <- <-]. by eapply (check_drain_backed l rp {| h_req := r; h_phase := Filtering route (b :: todo) healthy; h_looked := t |}).
  - destruct Hb as (Hl & Hd & checked & Ebk & Hs). intros [= <- <-].
    by eapply (check_circuit_backed l rp {| h_req := r; h_phase := Looking route b todo healthy; h_looked := t |}).
  - by intros [= <- <-].
  - unfold target. destruct (GoUrl.Parse _); intros [= <- <-]; exists route; [by split|done].
  - destruct Hb' as (route & Hc & _). destruct (i_upstream i); intros [= <- <-]; by exists route.
  - by intros [= <- <-].
  - destruct calls as [|c calls]; [by intros [= <- <-]|]. destruct (wcall_step _ _ _ _). by intros [= <- <-].
  - by intros [= <- <-].
  - by intros [= <- <-].
  - done.
Qed.

(** Every handler's phase is backed by what it saw. *)
Definition all_backed w : Prop := (∀ p, p ∈ past w → pickable p) → ∀ h hd, handlers w !! h = Some hd → backed_by (past w) hd.

Lemma others_backed w h hd : (∀ h hd, handlers w !! h = Some hd → backed_by (past w) hd) → handlers w !! h = Some hd → backed_by (past w ++ [proxy w]) hd.
Proof. intros Hi Hh. eapply backed_by_mono; [|by eapply Hi]. by apply prefix_app_r. Qed.

Lemma step_backed resets w w' : all_backed w → step resets w w' → all_backed w'.
Proof.
  intros Hi Hs Hp. assert (∃ rp' hs, w' = with_handlers w rp' hs) as (rp' & hs & Ew) by (destruct Hs; by eexists _, _).
  assert (∀ p, p ∈ past w → pickable p) as Hpast by (intros p Hin; apply Hp; rewrite Ew; cbn; apply elem_of_app; by left).
  assert (pickable (proxy w)) as Hnow by (apply Hp; rewrite Ew; cbn; apply elem_of_app; right; apply list_elem_of_here).
  specialize (Hi Hpast). destruct Hs as [w h r Hf _|w h hd i rp1 ph1 Hh Ha|w h hd i rp1 Hh Ha|w b now|w b rp1 Hc|w rt|w b now _];
    intros h' hd' Hh'; cbn [with_handlers handlers past] in *; try by eapply others_backed.
  - apply lookup_insert_Some in Hh' as [[<- <-]|[_ Hh']]; [done|by eapply others_backed].
  - apply lookup_insert_Some in Hh' as [[<- <-]|[_ Hh']]; [|by eapply others_backed].
    eapply advance_backed; [by eapply Hi|done|done|done].
  - apply lookup_delete_Some in Hh' as [_ Hh']. by eapply others_backed.
Qed.

Lemma run_backed resets rp w : rtc (step resets) (starting rp) w → all_backed w.
Proof.
  intros Hr. assert (all_backed (starting rp)) as Hstart by (intros _ h hd Hh; cbn in Hh; by rewrite lookup_empty in Hh).
  induction Hr as [|x y z Hxy _ IH]; [done|]. apply IH. by eapply step_backed.
Qed.

(** *** Connection counts *)

(** The backend a handler is counted for. *)
Definition counted (ph : phase) : option string :=
  match ph with Counted _ b | Sending b _ | Failing b | Writing b _ _ | Uncounting b => Some b | _ => None end.

Definition counts (b : string) (hd : handler) : Z := if decide (counted (h_phase hd) = Some b) then 1 else 0.

Definition load (b : string) (hs : gmap nat handler) : Z := zsum (λ kv, counts b kv.2) (map_to_list hs).

Lemma counts_bounds b hd : 0 ≤ counts b hd ≤ 1.
Proof. unfold counts. case_decide; lia. Qed.

#[local] Instance zsum_counts_perm b : Proper ((≡ₚ) ==> (=)) (zsum (λ kv : nat * handler, counts b kv.2)).
Proof. intros l1 l2 Hl. induction Hl as [| | |l1 l2 l3 _ IH1 _ IH2]; unfold zsum in *; cbn [foldr]; [done|lia|lia|congruence]. Qed.

Lemma load_insert b h hd hs : hs !! h = None → load b (<[h := hd]> hs) = counts b hd + load b hs.
Proof. intros Hh. unfold load. rewrite map_to_list_insert by done. done. Qed.

Lemma load_delete b h hd hs : hs !! h = Some hd → load b hs = counts b hd + load b (delete h hs).
Proof. intros Hh. unfold load. rewrite <- (map_to_list_delete hs h hd) by done. done. Qed.

Lemma load_replace b h hd hd' hs : hs !! h = Some hd → load b (<[h := hd']> hs) = load b hs - counts b hd + counts b hd'.
Proof.
  intros Hh. rewrite <- insert_delete_eq, load_insert by apply lookup_delete_eq. rewrite (load_delete b h hd hs) by done. lia.
Qed.

Lemma load_bounds b hs : 0 ≤ load b hs ≤ Z.of_nat (size hs).
Proof.
  induction hs as [|h hd hs Hh IH] using map_ind; [by unfold load; rewrite map_to_list_empty, map_size_empty|].
  rewrite load_insert, map_size_insert_None, Nat2Z.inj_succ by done. pose proof (counts_bounds b hd). lia.
Qed.

Lemma increment_active ct b b' :
  0 ≤ GracefulConn.Active ct b < max_int64 →
  GracefulConn.Active (GracefulConn.Increment ct b) b' =
    GracefulConn.Active ct b' + (if decide (b = b') then 1 else 0).
Proof.
  unfold GracefulConn.Active, GracefulConn.Increment. intros Hb. cbn.
  rewrite lookup_insert. destruct (decide (b = b')) as [<-|]; cbn; [|lia].
  apply i64_id. unfold in_i64, min_int64. lia.
Qed.

Lemma decrement_active ct b b' :
  0 < GracefulConn.Active ct b →
  GracefulConn.Active (GracefulConn.Decrement ct b) b' =
    GracefulConn.Active ct b' - (if decide (b = b') then 1 else 0).
Proof.
  unfold GracefulConn.Active, GracefulConn.Decrement. intros Hb.
  destruct (GracefulConn.conns ct !! b) as [n|] eqn:E; cbn in Hb; [|lia].
  rewrite (proj2 (Z.ltb_lt _ _)) by lia. cbn. rewrite lookup_insert.
  destruct (decide (b = b')) as [<-|]; cbn; [rewrite E; cbn; lia|lia].
Qed.

(** What a handler's step does to the tracker follows from its phases. *)
Lemma advance_tracker rp hd i rp' o b :
  advance rp (h_req hd) (h_phase hd) i = (rp', o) → 0 ≤ GracefulConn.Active (tracker rp) b < max_int64 →
  (∀ x, counted (h_phase hd) = Some x → 0 < GracefulConn.Active (tracker rp) x) →
  (∀ x, 0 ≤ GracefulConn.Active (tracker rp) x < max_int64) →
  GracefulConn.Active (tracker rp') b = GracefulConn.Active (tracker rp) b - counts b hd +
    match o with Some ph => counts b {| h_req := h_req hd; h_phase := ph; h_looked := 0 |} | None => 0 end.
Proof.
  intros Ha Hb Hpos Hall. destruct hd as [r ph t]. cbn [h_req h_phase] in *. unfold counts. cbn [h_phase]. unfold advance in Ha.
  destruct ph as [|route todo healthy|route x todo healthy|route x|route x|x what|x|x rt calls|x|st|].
  - injection Ha as <- <-. unfold find_route. destruct (RouteTable.Match _ _ _); cbn [counted]; rewrite !decide_False by done; lia.
  - destruct todo as [|y todo].
    + unfold pick in Ha. destruct healthy as [|y healthy]; [injection Ha as <- <-; cbn [counted]; rewrite !decide_False by done; lia|].
      destruct (Balancer.next _ _ _) as [s [x|]]; injection Ha as <- <-; cbn [counted]; rewrite !decide_False by done; unfold tracker; cbn; lia.
    + injection Ha as <- <-. unfold check_drain. destruct (GracefulConn.IsDraining _ _); cbn [counted]; rewrite !decide_False by done; lia.
  - injection Ha as <- <-. cbn [counted check_circuit]. rewrite !decide_False by done. lia.
  - injection Ha as <- <-. cbn [counted]. rewrite decide_False by done. unfold tracker at 1. cbn. rewrite increment_active by done.
    rewrite (decide_ext (Some x = Some b) (x = b)) by (split; congruence). lia.
  - unfold target in Ha. destruct (GoUrl.Parse _); injection Ha as <- <-; unfold tracker; cbn; lia.
  - destruct (i_upstream i); injection Ha as <- <-; cbn [counted]; lia.
  - injection Ha as <- <-. unfold tracker; cbn; lia.
  - destruct calls as [|c calls]; [injection Ha as <- <-; cbn [counted]; lia|]. destruct (wcall_step _ _ _ _). injection Ha as <- <-. unfold tracker; cbn; lia.
  - injection Ha as <- <-. cbn [counted]. rewrite (decide_False (P := None = Some b)) by done. unfold tracker at 1. cbn. rewrite decrement_active by by apply Hpos.
    rewrite (decide_ext (Some x = Some b) (x = b)) by (split; congruence). lia.
  - injection Ha as <- <-. cbn [counted]. rewrite !decide_False by done. unfold tracker. cbn. lia.
  - injection Ha as <- <-. cbn [counted]. rewrite !decide_False by done. unfold tracker. cbn. lia.
Qed.

Definition tracks w : Prop :=
  Z.of_nat (size (handlers w)) < max_int64 ∧ ∀ b, GracefulConn.Active (tracker (proxy w)) b = load b (handlers w).

Lemma tracks_range w b : tracks w → 0 ≤ GracefulConn.Active (tracker (proxy w)) b < max_int64.
Proof. intros [Hs Ht]. rewrite Ht. pose proof (load_bounds b (handlers w)). lia. Qed.

Lemma tracks_counted w h hd x : tracks w → handlers w !! h = Some hd → counted (h_phase hd) = Some x → 0 < GracefulConn.Active (tracker (proxy w)) x.
Proof.
  intros [_ Ht] Hh Hx. rewrite Ht, (load_delete x h hd) by done. pose proof (load_bounds x (delete h (handlers w))).
  unfold counts. rewrite decide_True by done. lia.
Qed.

Lemma step_tracks resets w w' : tracks w → step resets w w' → tracks w'.
Proof.
  intros Ht Hs. assert (∀ b, 0 ≤ GracefulConn.Active (tracker (proxy w)) b < max_int64) as Hrange by (intros; by apply tracks_range).
  assert (∀ h hd x, handlers w !! h = Some hd → counted (h_phase hd) = Some x → 0 < GracefulConn.Active (tracker (proxy w)) x) as Hcnt
    by (intros; by eapply tracks_counted).
  destruct Ht as [Hsz Hact].
  destruct Hs as [w h r Hf Hl|w h hd i rp1 ph1 Hh Ha|w h hd i rp1 Hh Ha|w b now|w b rp1 Hc|w rt|w b now _];
    split; cbn [with_handlers proxy handlers]; try done; try (intros b').
  - rewrite map_size_insert_None by done. lia.
  - rewrite load_insert by done. unfold counts. cbn. apply Hact.
  - by rewrite map_size_insert_Some by eauto.
  - rewrite (advance_tracker _ hd _ _ _ b' Ha) by eauto. rewrite (load_replace b' h hd), Hact by done. done.
  - rewrite map_size_delete_Some by eauto. lia.
  - rewrite (advance_tracker _ hd _ _ _ b' Ha) by eauto. rewrite Hact, (load_delete b' h hd) by done. lia.
  - rewrite <- Hact. unfold StartDrain, GracefulConn.StartDrain. by destruct (GracefulConn.draining _ !! b).
  - rewrite <- Hact. unfold CompleteDrain, GracefulConn.CompleteDrain in Hc. repeat case_match; simplify_eq/=; done.
Qed.

(** *** Open circuits *)

Definition circuit_open (b : string) rp : Prop := GracefulCircuit.M_State (circuit rp) b = GracefulCircuit.CircuitOpen.

Lemma wcall_passive b now cm rt c : ∃ evs rt', Forall GracefulCircuit.passive evs ∧ wcall_step b now (cm, rt) c = (GracefulCircuit.run cm evs, rt').
Proof.
  destruct c as [status|]; cbn; unfold WriteHeader, Write; destruct (rt_written rt); try (by exists [], rt).
  - destruct (500 <=? status); [exists [(b, GracefulCircuit.EvFailure now)]|exists [(b, GracefulCircuit.EvSuccess now)]];
      eexists; (split; [by repeat constructor|done]).
  - exists [(b, GracefulCircuit.EvSuccess now)]. eexists. by split; [repeat constructor|].
Qed.

Lemma failure_open cm b b' now :
  GracefulCircuit.M_State cm b = GracefulCircuit.CircuitOpen →
  GracefulCircuit.M_State (GracefulCircuit.M_RecordFailure cm b' now) b = GracefulCircuit.CircuitOpen.
Proof. intros Ho. apply (GracefulCircuit.run_passive_open [(b', GracefulCircuit.EvFailure now)] cm b); [by repeat constructor|done]. Qed.

Lemma advance_open b rp r ph i rp' o : advance rp r ph i = (rp', o) → circuit_open b rp → circuit_open b rp'.
Proof.
  unfold circuit_open, advance. destruct ph as [|route todo healthy|route x todo healthy|route x|route x|x what|x|x rt calls|x|st|].
  - by intros [= <- _].
  - destruct todo as [|y todo]; [|by intros [= <- _]]. unfold pick. destruct healthy; [by intros [= <- _]|].
    destruct (Balancer.next _ _ _) as [lb1 [z|]]; by intros [= <- _].
  - by intros [= <- _].
  - by intros [= <- _].
  - unfold target. destruct (GoUrl.Parse _); intros [= <- _]; [done|]. apply failure_open.
  - by intros [= <- _].
  - intros [= <- _]. apply failure_open.
  - destruct calls as [|c calls]; [by intros [= <- _]|]. destruct (wcall_passive x (i_now i) (circuit rp) rt c) as (evs & rt' & Hp & ->).
    intros [= <- _]. by apply GracefulCircuit.run_passive_open.
  - by intros [= <- _].
  - by intros [= <- _].
  - by intros [= <- _].
Qed.

Lemma step_open w w' b : circuit_open b (proxy w) → step false w w' → circuit_open b (proxy w') ∧ past w' = past w ++ [proxy w].
Proof.
  intros Ho Hs. split; [|by destruct Hs]. destruct Hs as [w h r _ _|w h hd i rp1 ph1 _ Ha|w h hd i rp1 _ Ha|w b1 now|w b1 rp1 Hc|w rt|w b1 now ?]; cbn; try done.
  - by eapply advance_open.
  - by eapply advance_open.
  - unfold circuit_open, StartDrain. by repeat case_match.
  - unfold CompleteDrain in Hc. unfold circuit_open in *. destruct (GracefulConn.CompleteDrain _ _); by simplify_eq/=.
Qed.

(** As long as no operator resets it, an open circuit stays open. *)
Lemma run_open w w' b :
  circuit_open b (proxy w) → rtc (step false) w w' →
  circuit_open b (proxy w') ∧ ∀ k p, (length (past w) ≤ k)%nat → past w' !! k = Some p → circuit_open b p.
Proof.
  intros Ho Hr. assert (∀ k p, (length (past w) ≤ k)%nat → past w !! k = Some p → circuit_open b p) as Hpast.
  { intros k p Hk Hp. apply lookup_lt_Some in Hp. lia. }
  revert Hpast. generalize (length (past w)). intros n Hpast. induction Hr as [|x y z Hxy _ IH]; [done|].
  destruct (step_open x y b Ho Hxy) as [Ho' Ep]. apply IH; [done|]. intros k p Hk. rewrite Ep. intros [Hp|[_ Hp]]%lookup_app_Some; [by eapply Hpast|].
  apply list_lookup_singleton_Some in Hp as [_ <-]. done.
Qed.

End steps.
Arguments world : clear implicits.
Arguments handler : clear implicits.

(** ** Claims *)

Definition web_table : RouteTable.routesSnapshot :=
  {| RouteTable.entries := [RouteTable.route "a.example.com" "/" 0 "web:80"] |}.
Definition web_request : request :=
  {| rHost := "a.example.com:443"; rPath := "/x"; rRemoteAddr := "10.0.0.1:5000";
     rXFF := ""; rXRealIP := ""; rXProto := ""; rTLS := true |}.



(** Alone, a handler comes to the outcome at once: the filter keeps what is fit, the refusals are as
    the answers say, and otherwise the balancer chooses. *)
Fixpoint alone {S} `{Balancer.Strategy S} (n : nat) (rp : ReverseProxy S) (r : request) (ph : phase) (i : input) : ReverseProxy S * phase :=
  match n with
  | O => (rp, ph)
  | Datatypes.S n => match advance rp r ph i with (rp, Some ph) => alone n rp r ph i | (rp, None) => (rp, ph) end
  end.

Lemma alone_add {S} `{Balancer.Strategy S} n m (rp : ReverseProxy S) r ph i rp' ph' :
  ph' ≠ Leaving → alone n rp r ph i = (rp', ph') → alone (n + m) rp r ph i = alone m rp' r ph' i.
Proof.
  intros Hne. revert rp ph. induction n as [|n IH]; intros rp ph; cbn; [by intros [= <- <-]|].
  destruct (advance rp r ph i) as [rp1 [ph1|]] eqn:E; [apply IH|]. intros [= <- <-]. destruct ph; cbn in E; try done.
  all: repeat case_match; simplify_eq.
Qed.

Lemma filter_alone {S} `{Balancer.Strategy S} (rp : ReverseProxy S) r route todo : ∀ healthy i,
  ∃ n, alone n rp r (Filtering route todo healthy) i = (rp, Filtering route [] (healthy ++ filterHealthyBackends rp todo)).
Proof.
  induction todo as [|b todo IH]; intros healthy i; [exists O; cbn; by rewrite app_nil_r|].
  unfold filterHealthyBackends. rewrite filter_cons. destruct (GracefulConn.IsDraining (drainer rp) b) eqn:Hd.
  - rewrite decide_False by (by intros [? _]). destruct (IH healthy i) as [n Hn]. exists (Datatypes.S n). cbn. unfold check_drain. by rewrite Hd.
  - destruct (GracefulCircuit.M_IsOpen (circuit rp) b) eqn:Ho.
    + rewrite decide_False by (by intros [_ ?]). destruct (IH healthy i) as [n Hn]. exists (Datatypes.S (Datatypes.S n)). cbn.
      unfold check_drain. rewrite Hd. cbn. unfold check_circuit. by rewrite Ho.
    + rewrite decide_True by done. destruct (IH (healthy ++ [b]) i) as [n Hn]. exists (Datatypes.S (Datatypes.S n)). cbn.
      unfold check_drain. rewrite Hd. cbn. unfold check_circuit. rewrite Ho, Hn. by rewrite <- app_assoc.
Qed.

(** A request that nothing disturbs is refused with 502 when no route matches, with 503 when no
    backend of the route is fit, and goes to the balancer's choice among the fit ones otherwise. *)
Theorem undisturbed_request {S} `{Balancer.Strategy S} (rp : ReverseProxy S) r i :
  ∃ n, alone n rp r Arrived i =
    match RouteTable.Match (extractHost (rHost r)) (rPath r) (router rp) with
    | None => (rp, Refusing 502)
    | Some route => pick rp r route (filterHealthyBackends rp (RouteTable.Backends route))
    end.
Proof.
  destruct (RouteTable.Match (extractHost (rHost r)) (rPath r) (router rp)) as [route|] eqn:E.
  2:{ exists 1%nat. cbn. unfold find_route. by rewrite E. }
  destruct (filter_alone rp r route (RouteTable.Backends route) [] i) as [n Hn].
  exists (Datatypes.S (n + 1)). cbn [alone advance]. unfold find_route. rewrite E. cbn [app] in Hn.
  rewrite (alone_add n 1 rp r _ i rp (Filtering route [] (filterHealthyBackends rp (RouteTable.Backends route)))) by done. cbn. unfold prod_map. by destruct (pick _ _ _ _).
Qed.

(** The connection count of every backend equals the number of requests that are counted for it
    and not yet released, in every state reached from a new proxy by overlapping requests, drains,
    route changes and circuit resets. *)
Theorem connection_counts_exact rt w :
  rtc (step true) (starting (NewReverseProxy rt)) w →
  ∀ b, GracefulConn.Active (tracker (proxy w)) b = load b (handlers w).
Proof.
  intros Hr. assert (tracks w) as [_ Ht]; [|done].
  assert (Hi : tracks (starting (NewReverseProxy rt))).
  { split; [done|]. intros b. cbn. unfold load. by rewrite map_to_list_empty. }
  induction Hr as [|x y z Hxy _ IH]; [done|]. apply IH. by eapply step_tracks.
Qed.

(** The proxy never probes an open circuit: once the circuit of a backend is open, then as long as
    no operator resets it, it stays open in every later state, and no request whose lookup comes
    later is sent to the backend. *)
Theorem open_circuit_never_recovers {S} `{Balancer.StrategyLaws S} (rp : ReverseProxy S) w w' b :
  rtc (step false) (starting rp) w → circuit_open b (proxy w) → rtc (step false) w w' → (∀ p, p ∈ past w' → pickable p) →
  circuit_open b (proxy w') ∧
  ∀ h hd what, handlers w' !! h = Some hd → (length (past w) ≤ h_looked hd)%nat → h_phase hd ≠ Sending b what.
Proof.
  intros H0' Ho Hr Hp. destruct (run_open w w' b Ho Hr) as [Ho' Hpast]. split; [done|]. intros h hd what Hh Hl Hph.
  assert (rtc (step false) (starting rp) w') as Hall by by etrans. pose proof (run_backed false rp w' Hall Hp h hd Hh) as Hb. unfold backed_by in Hb. rewrite Hph in Hb.
  destruct Hb as (route & (_ & _ & (j & q & k & s & [Hj Hk] & Hq & Hs & Hd & Hn)) & _). apply Hn. apply (Hpast k s); [lia|done].
Qed.

(** ** Runs *)

Inductive action :=
| AArrive (h : nat) (r : request) | AAdvance (h : nat) (i : input) | ADrain (b : string) (now : instant)
| AReset (b : string) (now : instant).

Section runs.
Context {S : Type} `{Balancer.StrategyLaws S}.

Definition act (w : world S) (a : action) : option (world S) :=
  match a with
  | AArrive h r =>
      if decide (handlers w !! h = None ∧ Z.of_nat (size (handlers w)) < max_int64 - 1) then
        Some (with_handlers w (with_metrics (proxy w) (IncrementActive (metrics (proxy w))))
          (<[h := {| h_req := r; h_phase := Arrived; h_looked := 0 |}]> (handlers w)))
      else None
  | AAdvance h i =>
      hd ← handlers w !! h;
      match advance (proxy w) (h_req hd) (h_phase hd) i with
      | (rp, Some ph) => Some (with_handlers w rp (<[h := {| h_req := h_req hd; h_phase := ph; h_looked := looked_at w hd |}]> (handlers w)))
      | (rp, None) => Some (with_handlers w rp (delete h (handlers w)))
      end
  | ADrain b now => Some (with_handlers w (StartDrain (proxy w) b now).1 (handlers w))
  | AReset b now => Some (with_handlers w (ResetCircuit (proxy w) b now) (handlers w))
  end.

Lemma act_step w a w' : act w a = Some w' → step true w w'.
Proof.
  destruct a as [h r|h i|b now|b now]; cbn.
  - case_decide as Hd; [|done]. intros [= <-]. destruct Hd. by apply step_arrive.
  - intros (hd & Hh & E)%bind_Some. destruct (advance _ _ _ _) as [rp [ph|]] eqn:Ea; injection E as <-; [by eapply step_advance|by eapply step_return].
  - intros [= <-]. apply step_drain.
  - intros [= <-]. by apply step_reset.
Qed.

Definition acts (w : world S) (l : list action) : option (world S) := foldl (λ o a, w ← o; act w a) (Some w) l.

Lemma acts_steps l : ∀ w w', acts w l = Some w' → rtc (step true) w w'.
Proof.
  unfold acts. induction l as [|a l IH]; intros w w'; cbn; [intros [= <-]; apply rtc_refl|].
  destruct (act w a) as [w1|] eqn:E.
  - intros Hl. eapply rtc_l; [by eapply act_step|by apply IH].
  - assert (∀ l, foldl (λ (o : option (world S)) a, w ← o; act w a) None l = None) as Hnone by (clear; induction l; done).
    by rewrite Hnone.
Qed.
End runs.

Definition some_input : input := {| i_now := 5; i_micros := 0; i_upstream := TransportError |}.
Definition advances (n : nat) : list action := replicate n (AAdvance 0 some_input).

(** Six steps: the lookup, the two checks, the choice, the count and the parsing. *)
Definition sent : option (world Balancer.RoundRobin) :=
  acts (starting (NewReverseProxy web_table)) (AArrive 0 web_request :: advances 6).





(** A drain that starts after the check does not stop the request. *)
Example drain_after_the_check :
  match acts (starting (NewReverseProxy web_table)) (AArrive 0 web_request :: advances 2 ++ [ADrain "web:80" 1] ++ advances 4) with
  | Some w => IsDraining (proxy w) "web:80" = true ∧ (h_phase <$> handlers w !! 0%nat) = Some (Sending "web:80" (director (RouteTable.route "a.example.com" "/" 0 "web:80") web_request))
  | None => False
  end.
Proof. vm_compute. done. Qed.

Lemma connection_counts_exact_witness :
  match sent with Some w => GracefulConn.Active (tracker (proxy w)) "web:80" = load "web:80" (handlers w) | None => False end.
Proof.
  destruct sent as [w|] eqn:E; [|vm_compute in E; discriminate E].
  exact (connection_counts_exact web_table w (acts_steps _ _ _ E) "web:80").
Defined.

Definition failing : ReverseProxy Balancer.RoundRobin :=
  with_circuit (NewReverseProxy web_table)
    (Nat.iter 5 (λ cm, GracefulCircuit.M_RecordFailure cm "web:80" Second) (circuit (NewReverseProxy web_table))).

Lemma open_circuit_never_recovers_witness : circuit_open "web:80" failing.
Proof.
  refine (proj1 (open_circuit_never_recovers failing (starting failing) (starting failing) "web:80" (rtc_refl _ _) _ (rtc_refl _ _) _)).
  - vm_compute. reflexivity.
  - intros p Hp. by apply elem_of_nil in Hp.
Defined.

(** The error handler and what it writes, with nobody in between. *)
Definition transport_error (cm : GracefulCircuit.CircuitBreakerManager) (b : string) (now : instant) : GracefulCircuit.CircuitBreakerManager :=
  (foldl (wcall_step b now) (GracefulCircuit.M_RecordFailure cm b now, fresh_tracker) error_calls).1.

(** A transport error is counted twice, once by the error handler and once
    by the status 502 that the handler writes: a closed breaker with [n]
    failures then has [n + 2], or is open when that reaches the threshold. *)
Theorem transport_error_counts_twice cm b now cb :
  GracefulCircuit.config_ok (GracefulCircuit.mconfig cm) → GracefulCircuit.manager_ok cm →
  GracefulCircuit.breakers cm !! b = Some cb →
  GracefulCircuit.state cb = GracefulCircuit.CircuitClosed →
  let n := GracefulCircuit.failureCount cb in
  let limit := GracefulCircuit.FailureThreshold (GracefulCircuit.mconfig cm) in
  ∃ cb', GracefulCircuit.breakers (transport_error cm b now) !! b = Some cb' ∧
    (n + 2 < limit → GracefulCircuit.state cb' = GracefulCircuit.CircuitClosed ∧
                     GracefulCircuit.failureCount cb' = n + 2) ∧
    (limit ≤ n + 2 → GracefulCircuit.state cb' = GracefulCircuit.CircuitOpen).
Proof.
  intros [Hc _] Hm Hb Hs n limit. destruct (Hm b cb Hb) as (Ec & Hf & _).
  specialize (Hf Hs). fold n limit in Hf. cbn.
  unfold GracefulCircuit.M_RecordFailure, GracefulCircuit.breaker_of. rewrite Hb. cbn.
  unfold GracefulCircuit.RecordFailure at 2. rewrite Hs. fold n. rewrite Ec. fold limit limit in Hc |- *.
  rewrite !lookup_insert_eq. cbn. rewrite i64_id by (unfold in_i64, min_int64, limit in *; lia).
  eexists. split; [done|]. unfold GracefulCircuit.RecordFailure.
  destruct (Z.leb_spec limit (n + 1)); cbn; [split; [lia|done]|].
  rewrite Ec. fold limit. rewrite i64_id by (unfold in_i64, min_int64, limit in *; lia).
  destruct (Z.leb_spec limit (n + 1 + 1)); cbn; split; intros; try done; try lia.
  split; [done|lia].
Qed.

Definition one_failure : GracefulCircuit.CircuitBreakerManager :=
  GracefulCircuit.M_RecordFailure
    (GracefulCircuit.NewCircuitBreakerManager GracefulCircuit.DefaultCircuitConfig) "web:80" 1.

Lemma transport_error_counts_twice_witness :
  ∃ cb', GracefulCircuit.breakers (transport_error one_failure "web:80" 9)
           !! "web:80" = Some cb' ∧ GracefulCircuit.failureCount cb' = 3.
Proof.
  destruct (transport_error_counts_twice one_failure "web:80" 9
    (GracefulCircuit.RecordFailure
       (GracefulCircuit.NewCircuitBreaker GracefulCircuit.DefaultCircuitConfig 1) 1))
    as (cb' & H1 & H2 & _).
  - split; vm_compute; split; congruence.
  - apply (GracefulCircuit.run_ok [("web:80", GracefulCircuit.EvFailure 1)]
             (GracefulCircuit.NewCircuitBreakerManager GracefulCircuit.DefaultCircuitConfig)).
    + split; vm_compute; split; congruence.
    + apply map_Forall_empty.
  - vm_compute. reflexivity.
  - vm_compute. reflexivity.
  - exists cb'. split; [exact H1|]. apply H2. vm_compute. reflexivity.
Defined.

End IngressProxy.
