(* ===== verification/Registry.v ===== *)
(** * Registry: module registration and dependency order ([internal/core/registry.go])

    [Resolve] is a depth-first topological sort whose outer loop ranges over a Go
    map, in an order the runtime chooses: the order is a parameter, any list of
    the registered identifiers.  The recursion is bounded by fuel; the theorems
    show that one more than the number of modules is always enough. *)

From S2P Require Import Prelude.
#[local] Open Scope Z_scope.

Module Registry.

(** What the registry uses of a module: its identity, its dependencies, and what
    its lifecycle methods answer ([None] is no error). *)
Record Module_ := {
  ID : string;
  Dependencies : list string;
  InitErr : option string;
  StartErr : option string;
  StopErr : option string }.

(** src/internal/core/registry.go:10-14 Registry *)
Record Registry := { modules : gmap string Module_; order : list string }.

(** src/internal/core/registry.go:17-21 NewRegistry *)
Definition NewRegistry : Registry := {| modules := ∅; order := [] |}.

Inductive reg_error :=
| AlreadyRegistered (id : string)
| Circular (id : string)
| Unknown (id : string)
| Lifecycle (id : string) (e : string).

(** src/internal/core/registry.go:25-35 Registry.Register *)
Definition Register (r : Registry) (m : Module_) : result reg_error Registry :=
  match modules r !! ID m with
  | Some _ => Err (AlreadyRegistered (ID m))
  | None => Ok {| modules := <[ID m := m]> (modules r); order := order r |}
  end.

(** The variables the closure [visit] shares.
    src/internal/core/registry.go:43-45 Registry.Resolve.locals *)
Record dfs := { visited : gset string; visiting : gset string; sorted : list string }.

Section visit.
Context (mods : gmap string Module_).

(** The loop over the dependencies: it stops at the first error. *)
Fixpoint visit_deps (v : string → dfs → option (result reg_error dfs)) (deps : list string)
    (st : dfs) : option (result reg_error dfs) :=
  match deps with
  | [] => Some (Ok st)
  | d :: deps' =>
      match v d st with
      | Some (Ok st') => visit_deps v deps' st'
      | r => r
      end
  end.

(** [None] is running out of fuel.
    src/internal/core/registry.go:47-72 Registry.Resolve.visit *)
Fixpoint visit (fuel : nat) (id : string) (st : dfs) : option (result reg_error dfs) :=
  match fuel with
  | O => None
  | S fuel =>
      if decide (id ∈ visited st) then Some (Ok st)
      else if decide (id ∈ visiting st) then Some (Err (Circular id))
      else
        let st1 := {| visited := visited st; visiting := {[id]} ∪ visiting st;
                      sorted := sorted st |} in
        match mods !! id with
        | None => Some (Err (Unknown id))
        | Some m =>
            match visit_deps (visit fuel) (Dependencies m) st1 with
            | Some (Ok st2) =>
                Some (Ok {| visited := {[id]} ∪ visited st2;
                            visiting := visiting st2 ∖ {[id]};
                            sorted := sorted st2 ++ [id] |})
            | r => r
            end
        end
  end.

End visit.

(** [ids] is the order in which the map is ranged over.
    src/internal/core/registry.go:39-82 Registry.Resolve *)
Definition Resolve (ids : list string) (r : Registry) : option (result reg_error Registry) :=
  match visit_deps (visit (modules r) (S (size (modules r)))) ids
          {| visited := ∅; visiting := ∅; sorted := [] |} with
  | Some (Ok st) => Some (Ok {| modules := modules r; order := sorted st |})
  | Some (Err e) => Some (Err e)
  | None => None
  end.

(** A lifecycle pass in the given order: the modules called, and the error that
    stopped it. *)
Fixpoint lifecycle (call : Module_ → option string) (mods : gmap string Module_)
    (ids : list string) : list string * option reg_error :=
  match ids with
  | [] => ([], None)
  | id :: ids' =>
      match mods !! id ≫= call with
      | Some e => ([id], Some (Lifecycle id e))
      | None => let (called, err) := lifecycle call mods ids' in (id :: called, err)
      end
  end.

(** src/internal/core/registry.go:85-96 Registry.InitAll *)
Definition InitAll (r : Registry) : list string * option reg_error :=
  lifecycle InitErr (modules r) (order r).

(** src/internal/core/registry.go:99-110 Registry.StartAll *)
Definition StartAll (r : Registry) : list string * option reg_error :=
  lifecycle StartErr (modules r) (order r).

(** src/internal/core/registry.go:113-127 Registry.StopAll *)
Definition StopAll (r : Registry) : list string * option reg_error :=
  (reverse (order r),
   foldl (λ firstErr id,
            match modules r !! id ≫= StopErr with
            | Some e => match firstErr with None => Some (Lifecycle id e) | f => f end
            | None => firstErr
            end) None (reverse (order r))).

(** src/internal/core/registry.go:130-134 Registry.Get *)
Definition Get (r : Registry) (id : string) : option Module_ := modules r !! id.

(** src/internal/core/registry.go:137-143 Registry.All *)
Definition All (r : Registry) : list string := order r.

(** ** Correctness of the sort *)

Section correct.
Context (mods : gmap string Module_).

(** [x] depends on [y]. *)
Definition dep (x y : string) : Prop := ∃ m, mods !! x = Some m ∧ y ∈ Dependencies m.

(** Every element is registered and comes after all its dependencies. *)
Definition topological (l : list string) : Prop :=
  ∀ l1 id l2, l = l1 ++ id :: l2 → is_Some (mods !! id) ∧ ∀ d, dep id d → d ∈ l1.

Record dfs_ok (st : dfs) : Prop := {
  ok_nodup : NoDup (sorted st);
  ok_visited : ∀ x, x ∈ visited st ↔ x ∈ sorted st;
  ok_topo : topological (sorted st) }.

(** The calls in progress form a path of dependencies that leads to [id]. *)
Fixpoint chain (stack : list string) (id : string) : Prop :=
  match stack with [] => True | x :: stack' => dep x id ∧ chain stack' x end.

Record stack_ok (stack : list string) (st : dfs) : Prop := {
  so_visiting : ∀ x, x ∈ visiting st ↔ x ∈ stack;
  so_nodup : NoDup stack;
  so_known : ∀ x, x ∈ stack → is_Some (mods !! x);
  so_fresh : ∀ x, x ∈ stack → x ∉ visited st }.

Lemma chain_tc stack : ∀ id x, chain stack id → x ∈ stack → tc dep x id.
Proof.
  induction stack as [|y stack IH]; intros id x Hc Hx; [by apply elem_of_nil in Hx|].
  destruct Hc as [Hd Hc]. apply elem_of_cons in Hx as [->|Hx]; [by apply tc_once|].
  eapply tc_r; [by apply IH|done].
Qed.

Lemma stack_bound stack st : stack_ok stack st → (length stack ≤ size mods)%nat.
Proof.
  intros [_ Hnd Hk _]. rewrite <-(size_dom (D := gset string)).
  rewrite <-(size_list_to_set (C := gset string) stack Hnd). apply subseteq_size.
  intros x. rewrite elem_of_list_to_set, elem_of_dom. auto.
Qed.

Lemma topological_snoc l id :
  topological l → is_Some (mods !! id) → (∀ d, dep id d → d ∈ l) → topological (l ++ [id]).
Proof.
  intros Ht Hid Hd l1 x l2 E. destruct l2 as [|y l2 _] using rev_ind.
  - apply app_inj_tail in E as [-> ->]. done.
  - rewrite app_comm_cons, app_assoc in E. apply app_inj_tail in E as [E _]. by apply Ht in E.
Qed.

(** What a successful call leaves behind, and what an error proves. *)
Definition visit_post (stack : list string) (ids : list string) (st : dfs)
    (r : option (result reg_error dfs)) : Prop :=
  match r with
  | None => False
  | Some (Ok st') =>
      dfs_ok st' ∧ stack_ok stack st' ∧ sorted st `prefix_of` sorted st' ∧
      (∀ id, id ∈ ids → id ∈ visited st')
  | Some (Err (Circular c)) => tc dep c c
  | Some (Err (Unknown u)) => mods !! u = None ∧ (u ∈ ids ∨ ∃ x, dep x u)
  | Some (Err _) => False
  end.

Lemma visit_deps_post v stack deps : ∀ st,
  (∀ d st, d ∈ deps → dfs_ok st → stack_ok stack st → visit_post stack [d] st (v d st)) →
  dfs_ok st → stack_ok stack st → visit_post stack deps st (visit_deps v deps st).
Proof.
  induction deps as [|d deps IH]; intros st Hv Hok Hst; cbn.
  { split_and!; auto. intros id Hid. by apply elem_of_nil in Hid. }
  pose proof (Hv d st ltac:(left) Hok Hst) as Hd.
  destruct (v d st) as [[st'|[]]|]; cbn in Hd |- *; try done.
  - destruct Hd as (Hok' & Hst' & Hp & Hin).
    specialize (IH st' ltac:(intros; apply Hv; auto; by right) Hok' Hst').
    destruct (visit_deps v deps st') as [[st''|[]]|]; cbn in IH |- *; try done.
    + destruct IH as (? & ? & Hp' & Hin'). split_and!; auto; [by etrans|].
      intros x [->|Hx]%elem_of_cons; [|auto].
      apply (ok_visited _ H). apply (elem_of_prefix (sorted st')); [|done].
      apply (ok_visited _ Hok'). apply Hin. left.
    + destruct IH as [? [?|?]]; split; auto. left. by right.
  - destruct Hd as [? [Hu%list_elem_of_singleton|?]]; split; auto. subst. left. left.
Qed.

Lemma visit_correct fuel : ∀ id st stack,
  dfs_ok st → stack_ok stack st → chain stack id → (size mods < fuel + length stack)%nat →
  visit_post stack [id] st (visit mods fuel id st).
Proof.
  induction fuel as [|fuel IH]; intros id st stack Hok Hst Hch Hfuel.
  { pose proof (stack_bound _ _ Hst). lia. }
  cbn [visit]. destruct (decide (id ∈ visited st)) as [Hv|Hv].
  { cbn. split_and!; auto. by intros x ->%list_elem_of_singleton. }
  destruct (decide (id ∈ visiting st)) as [Hi|Hi].
  { cbn. apply (chain_tc stack); [done|]. by apply (so_visiting _ _ Hst). }
  destruct (mods !! id) as [m|] eqn:Em; [|by cbn; split; [|left; left]].
  set (st1 := {| visited := _ |}).
  assert (Hst1 : stack_ok (id :: stack) st1).
  { destruct Hst as [H1 H2 H3 H4]. split; cbn.
    - intros x. rewrite elem_of_union, elem_of_singleton, elem_of_cons, H1. done.
    - constructor; [|done]. by rewrite <-H1.
    - intros x [->|Hx]%elem_of_cons; [by rewrite Em|auto].
    - intros x [->|Hx]%elem_of_cons; auto. }
  assert (Hok1 : dfs_ok st1) by (by destruct Hok; split).
  pose proof (visit_deps_post (visit mods fuel) (id :: stack) (Dependencies m) st1) as Hd.
  specialize (Hd ltac:(intros d s Hin Hs1 Hs2; apply IH; auto;
    [cbn; split; [by exists m|done]|cbn; lia]) Hok1 Hst1).
  destruct (visit_deps _ _ _) as [[st2|[]]|]; cbn in Hd |- *; try done.
  - destruct Hd as (Hok2 & [H1 H2 H3 H4] & Hp & Hin).
    assert (Hnew : id ∉ sorted st2) by (rewrite <-(ok_visited _ Hok2); apply H4; left).
    split_and!; [split| split| |]; cbn.
    + apply NoDup_app. split_and!; [apply Hok2| |apply NoDup_singleton].
      intros x Hx ->%list_elem_of_singleton. done.
    + intros x. rewrite elem_of_union, elem_of_singleton, elem_of_app, list_elem_of_singleton,
        (ok_visited _ Hok2). tauto.
    + apply topological_snoc; [apply Hok2|by rewrite Em|].
      intros d (m' & E & Hdm). rewrite Em in E. injection E as <-.
      apply (ok_visited _ Hok2). auto.
    + intros x. rewrite elem_of_difference, elem_of_singleton, H1, elem_of_cons.
      apply NoDup_cons in H2 as [H2 _]. naive_solver.
    + by apply NoDup_cons in H2 as [_ H2].
    + intros x Hx. apply H3. by right.
    + intros x Hx. rewrite elem_of_union, elem_of_singleton. intros [->|Hxv].
      * apply NoDup_cons in H2 as [H2 _]. done.
      * apply (H4 x); [by right|done].
    + by apply prefix_app_r.
    + intros x ->%list_elem_of_singleton. set_solver.
  - destruct Hd as [? [Hin|?]]; split; auto. right. by exists id, m.
Qed.

End correct.

Lemma resolve_post r ids :
  visit_post (modules r) [] ids {| visited := ∅; visiting := ∅; sorted := [] |}
    (visit_deps (visit (modules r) (S (size (modules r)))) ids
       {| visited := ∅; visiting := ∅; sorted := [] |}).
Proof.
  apply visit_deps_post.
  - intros d st _ Hok Hst. apply visit_correct; auto; cbn; [done|lia].
  - split; cbn; [apply NoDup_nil_2|set_solver|]. intros l1 id l2 E. by destruct l1.
  - split; cbn; [set_solver|apply NoDup_nil_2|..]; intros x Hx; by apply elem_of_nil in Hx.
Qed.

(** [ids] lists the registered identifiers, each once, in any order. *)
Definition enumerates (ids : list string) (r : Registry) : Prop :=
  NoDup ids ∧ ∀ x, x ∈ ids ↔ is_Some (modules r !! x).

(** C23. A successful [Resolve] yields every registered module exactly once, each
    after all its dependencies, whatever order the map is ranged over in. *)
Theorem resolve_topological_order ids r r' :
  enumerates ids r → Resolve ids r = Some (Ok r') →
  modules r' = modules r ∧ order r' ≡ₚ ids ∧ topological (modules r) (order r').
Proof.
  intros [Hnd Hids] Hr. unfold Resolve in Hr. pose proof (resolve_post r ids) as Hp.
  destruct (visit_deps _ _ _) as [[st|e]|]; simplify_eq/=.
  destruct Hp as ([H1 H2 H3] & _ & _ & Hin). split_and!; auto.
  apply NoDup_Permutation; auto. intros x. split.
  - intros Hx. apply Hids. apply list_elem_of_split in Hx as (l1 & l2 & E). by apply H3 in E as [? _].
  - intros Hx. apply H2. auto.
Qed.

Definition mk (id : string) (deps : list string) : Module_ :=
  {| ID := id; Dependencies := deps; InitErr := None; StartErr := None; StopErr := None |}.

Definition sample : Registry :=
  {| modules := {["api" := mk "api" ["db"; "auth"]; "auth" := mk "auth" ["db"]; "db" := mk "db" []]};
     order := [] |}.

Lemma sample_enumerates : enumerates ["api"; "auth"; "db"] sample.
Proof.
  split; [apply (bool_decide_unpack _); vm_compute; exact I|].
  intros x. rewrite <-elem_of_dom. cbn. rewrite !dom_insert, dom_singleton. set_solver.
Qed.

Lemma resolve_topological_order_witness :
  modules {| modules := modules sample; order := ["db"; "auth"; "api"] |} = modules sample ∧
  ["db"; "auth"; "api"] ≡ₚ ["api"; "auth"; "db"] ∧
  topological (modules sample) ["db"; "auth"; "api"].
Proof.
  apply (resolve_topological_order ["api"; "auth"; "db"] sample
           {| modules := modules sample; order := ["db"; "auth"; "api"] |} sample_enumerates).
  vm_compute. reflexivity.
Defined.

(** [Resolve] always terminates, and fails only for a reason that holds: it
    succeeds when every dependency is registered and no module depends on
    itself, directly or not; otherwise its error names a module on a cycle or a
    dependency that is not registered. *)
Theorem resolve_complete ids r :
  enumerates ids r →
  ((∀ x y, dep (modules r) x y → is_Some (modules r !! y)) →
   (∀ x, ¬ tc (dep (modules r)) x x) → ∃ r', Resolve ids r = Some (Ok r')) ∧
  (∀ e, Resolve ids r = Some (Err e) →
     (∃ c, e = Circular c ∧ tc (dep (modules r)) c c) ∨
     (∃ u x, e = Unknown u ∧ modules r !! u = None ∧ dep (modules r) x u)) ∧
  Resolve ids r ≠ None.
Proof.
  intros [Hnd Hids]. unfold Resolve. pose proof (resolve_post r ids) as Hp.
  destruct (visit_deps _ _ _) as [[st|e]|]; cbn in Hp; [|..|done].
  { split_and!; eauto; done. }
  assert (Hun : ∀ u, modules r !! u = None → u ∉ ids).
  { intros u Hu Hin. apply Hids in Hin as [? ?]. congruence. }
  destruct e as [id|id|id|id err]; try done; (split_and!; [|intros ? [= <-]|done]).
  - intros _ Hac. by destruct (Hac id).
  - left. eauto.
  - intros Hall _. destruct Hp as [Hu [Hin|[x Hx]]]; [by apply Hun in Hin|].
    destruct (Hall x id Hx). congruence.
  - right. destruct Hp as [Hu [Hin|[x Hx]]]; [by apply Hun in Hin|eauto].
Qed.

Lemma resolve_complete_witness : Resolve ["api"; "auth"; "db"] sample ≠ None.
Proof. apply (resolve_complete _ _ sample_enumerates). Defined.

Lemma lifecycle_prefix call mods ids :
  (lifecycle call mods ids).1 `prefix_of` ids ∧
  ((lifecycle call mods ids).2 = None → (lifecycle call mods ids).1 = ids).
Proof.
  induction ids as [|id ids [IH1 IH2]]; cbn; [done|].
  destruct (mods !! id ≫= call); cbn.
  - split; [|done]. by apply (prefix_cons id), prefix_nil.
  - destruct (lifecycle call mods ids) as [c e]; cbn in *. split; [by apply prefix_cons|].
    intros ->. f_equal. auto.
Qed.

(** Start-up calls a prefix of the dependency order and stops at the first
    failing module; shutdown calls every module in the reverse order even when
    some fail, and reports the first failure. *)
Theorem lifecycle_order r :
  (StartAll r).1 `prefix_of` order r ∧ ((StartAll r).2 = None → (StartAll r).1 = order r) ∧
  (InitAll r).1 `prefix_of` order r ∧ ((InitAll r).2 = None → (InitAll r).1 = order r) ∧
  (StopAll r).1 = reverse (order r) ∧
  ((StopAll r).2 = None ↔ ∀ id, id ∈ order r → (modules r !! id ≫= StopErr) = None).
Proof.
  destruct (lifecycle_prefix StartErr (modules r) (order r)) as [H1 H2].
  destruct (lifecycle_prefix InitErr (modules r) (order r)) as [H3 H4].
  split_and!; auto. unfold StopAll; cbn.
  assert (Hfold : ∀ l f, foldl (λ firstErr id,
      match modules r !! id ≫= StopErr with
      | Some e => match firstErr with None => Some (Lifecycle id e) | f => f end
      | None => firstErr
      end) f l = None ↔ f = None ∧ ∀ id, id ∈ l → (modules r !! id ≫= StopErr) = None).
  { induction l as [|x l IH]; intros f; cbn; [set_solver|]. rewrite IH.
    destruct (modules r !! x ≫= StopErr) eqn:E; cbn.
    - split; [intros [Hf _]; by destruct f|]. intros [-> Hall]. specialize (Hall x ltac:(left)). congruence.
    - split; intros [-> Hall]; (split; [done|]); [|set_solver].
      intros id [->|Hin]%elem_of_cons; auto. }
  rewrite Hfold. setoid_rewrite elem_of_reverse. tauto.
Qed.

End Registry.
