(* ===== verification/TenantQueue.v ===== *)
(** * TenantQueue: the per-tenant build gate ([internal/build/tenant_queue.go])

    [Submit] and the goroutine it starts run concurrently with every other
    submission, so a job is a program counter and each channel operation or
    critical section is one atomic step.  A buffered channel used as a semaphore
    is its number of tokens: a send is enabled below the capacity, a receive
    above zero. *)

From S2P Require Import Prelude.
#[local] Open Scope Z_scope.

Module TenantQueue.

(** Where a submission stands: waiting for its tenant slot, waiting for a global
    slot (tenant slot held), its job running (both held), the global slot
    already released, returned with an error, or finished. *)
Inductive phase :=
| WaitTenant
| WaitGlobal
| Running
| Releasing
| Rejected (err : string)
| Finished.

Record job := { jtenant : string; jphase : phase }.

(** [stopCh] is closed exactly when [closed] is set, in the same critical
    section, so one flag stands for both.
    src/internal/build/tenant_queue.go:51-63 TenantQueue *)
Record TenantQueue := {
  globalCap : Z;
  perTenant : Z;
  global : Z;
  tenant : gmap string Z;
  closed : bool;
  wg : Z;
  jobs : list job }.

(** src/internal/build/tenant_queue.go:70-88 NewTenantQueue *)
Definition NewTenantQueue (gcap tcap : Z) : TenantQueue :=
  {| globalCap := if gcap <? 1 then 1 else gcap;
     perTenant := if tcap <? 1 then 1 else tcap;
     global := 0; tenant := ∅; closed := false; wg := 0; jobs := [] |}.

(** Tokens in the tenant's channel; the channel is created on first use.
    src/internal/build/tenant_queue.go:92-99 TenantQueue.tenantSlot *)
Definition tenantSlot (q : TenantQueue) (t : string) : Z := default 0 (tenant q !! t).

Definition set_tenant (q : TenantQueue) (t : string) (n : Z) : gmap string Z :=
  <[t := n]> (tenant q).

Definition set_phase (q : TenantQueue) (j : nat) (jb : job) (ph : phase) : list job :=
  <[j := {| jtenant := jtenant jb; jphase := ph |}]> (jobs q).

Definition ErrTenantQueueClosed : string := "tenant build queue is closed".

(** The critical section at the head of [Submit].
    src/internal/build/tenant_queue.go:111-123 TenantQueue.Submit.register *)
Definition Submit_register (q : TenantQueue) (t : string) : TenantQueue :=
  if closed q then
    {| globalCap := globalCap q; perTenant := perTenant q; global := global q;
       tenant := tenant q; closed := closed q; wg := wg q;
       jobs := jobs q ++ [{| jtenant := t; jphase := Rejected ErrTenantQueueClosed |}] |}
  else
    {| globalCap := globalCap q; perTenant := perTenant q; global := global q;
       tenant := set_tenant q t (tenantSlot q t); closed := closed q; wg := wg q + 1;
       jobs := jobs q ++ [{| jtenant := t; jphase := WaitTenant |}] |}.

(** Which case of a [select] is taken: the send, the closed [stopCh], or the
    cancelled context with its error. *)
Inductive choice := Send | Stop | Cancel (err : string).

(** The first [select].
    src/internal/build/tenant_queue.go:126-134 TenantQueue.Submit.phase1 *)
Definition Submit_phase1 (q : TenantQueue) (j : nat) (c : choice) : option TenantQueue :=
  jb ← jobs q !! j;
  match jphase jb with
  | WaitTenant =>
      let t := jtenant jb in
      let leave err :=
        {| globalCap := globalCap q; perTenant := perTenant q; global := global q;
           tenant := tenant q; closed := closed q; wg := wg q - 1;
           jobs := set_phase q j jb (Rejected err) |} in
      match c with
      | Send =>
          if tenantSlot q t <? perTenant q then
            Some {| globalCap := globalCap q; perTenant := perTenant q; global := global q;
                    tenant := set_tenant q t (tenantSlot q t + 1); closed := closed q;
                    wg := wg q; jobs := set_phase q j jb WaitGlobal |}
          else None
      | Stop => if closed q then Some (leave ErrTenantQueueClosed) else None
      | Cancel err => Some (leave err)
      end
  | _ => None
  end.

(** The second [select]; giving up releases the tenant slot.
    src/internal/build/tenant_queue.go:138-148 TenantQueue.Submit.phase2 *)
Definition Submit_phase2 (q : TenantQueue) (j : nat) (c : choice) : option TenantQueue :=
  jb ← jobs q !! j;
  match jphase jb with
  | WaitGlobal =>
      let t := jtenant jb in
      let leave err :=
        if 0 <? tenantSlot q t then
          Some {| globalCap := globalCap q; perTenant := perTenant q; global := global q;
                  tenant := set_tenant q t (tenantSlot q t - 1); closed := closed q;
                  wg := wg q - 1; jobs := set_phase q j jb (Rejected err) |}
        else None in
      match c with
      | Send =>
          if global q <? globalCap q then
            Some {| globalCap := globalCap q; perTenant := perTenant q; global := global q + 1;
                    tenant := tenant q; closed := closed q; wg := wg q;
                    jobs := set_phase q j jb Running |}
          else None
      | Stop => if closed q then leave ErrTenantQueueClosed else None
      | Cancel err => leave err
      end
  | _ => None
  end.

(** The deferred function of the job's goroutine, after [fn] returned or
    panicked: first the global slot.
    src/internal/build/tenant_queue.go:150-158 TenantQueue.Submit.release_global *)
Definition job_release_global (q : TenantQueue) (j : nat) : option TenantQueue :=
  jb ← jobs q !! j;
  match jphase jb with
  | Running =>
      if 0 <? global q then
        Some {| globalCap := globalCap q; perTenant := perTenant q; global := global q - 1;
                tenant := tenant q; closed := closed q; wg := wg q;
                jobs := set_phase q j jb Releasing |}
      else None
  | _ => None
  end.

(** Then the tenant slot and the wait group.
    src/internal/build/tenant_queue.go:159-163 TenantQueue.Submit.release_tenant *)
Definition job_release_tenant (q : TenantQueue) (j : nat) : option TenantQueue :=
  jb ← jobs q !! j;
  match jphase jb with
  | Releasing =>
      let t := jtenant jb in
      if 0 <? tenantSlot q t then
        Some {| globalCap := globalCap q; perTenant := perTenant q; global := global q;
                tenant := set_tenant q t (tenantSlot q t - 1); closed := closed q;
                wg := wg q - 1; jobs := set_phase q j jb Finished |}
      else None
  | _ => None
  end.

(** src/internal/build/tenant_queue.go:170-176 TenantQueue.Shutdown.close *)
Definition Shutdown (q : TenantQueue) : TenantQueue :=
  {| globalCap := globalCap q; perTenant := perTenant q; global := global q;
     tenant := tenant q; closed := true; wg := wg q; jobs := jobs q |}.

(** What [Shutdown] returns: nil once the wait group is at zero, the context's
    error when it fires first; [None] while it waits.
    src/internal/build/tenant_queue.go:178-190 TenantQueue.Shutdown.wait *)
Definition Shutdown_wait (q : TenantQueue) (ctx_err : option string) : option (option string) :=
  if wg q =? 0 then Some None
  else match ctx_err with Some e => Some (Some e) | None => None end.

(** src/internal/build/tenant_queue.go:195-199 TenantQueue.Closed *)
Definition Closed (q : TenantQueue) : bool := closed q.

(** src/internal/build/tenant_queue.go:204-212 TenantQueue.TenantInFlight *)
Definition TenantInFlight (q : TenantQueue) (t : string) : Z := tenantSlot q t.

(** src/internal/build/tenant_queue.go:215-217 TenantQueue.GlobalInFlight *)
Definition GlobalInFlight (q : TenantQueue) : Z := global q.

(** ** Steps *)

Inductive label :=
| LSubmit (t : string)
| LPhase1 (j : nat) (c : choice)
| LPhase2 (j : nat) (c : choice)
| LReleaseGlobal (j : nat)
| LReleaseTenant (j : nat)
| LShutdown.

Definition exec (q : TenantQueue) (l : label) : option TenantQueue :=
  match l with
  | LSubmit t => Some (Submit_register q t)
  | LPhase1 j c => Submit_phase1 q j c
  | LPhase2 j c => Submit_phase2 q j c
  | LReleaseGlobal j => job_release_global q j
  | LReleaseTenant j => job_release_tenant q j
  | LShutdown => Some (Shutdown q)
  end.

Definition step (q q' : TenantQueue) : Prop := ∃ l, exec q l = Some q'.

(** ** Counting jobs *)

Definition holds_global (jb : job) : Z := match jphase jb with Running => 1 | _ => 0 end.
Definition holds_tenant (t : string) (jb : job) : Z :=
  if decide (jtenant jb = t)
  then match jphase jb with WaitGlobal | Running | Releasing => 1 | _ => 0 end else 0.
Definition live (jb : job) : Z :=
  match jphase jb with Rejected _ | Finished => 0 | _ => 1 end.
Definition running_of (t : string) (jb : job) : Z :=
  if decide (jtenant jb = t) then holds_global jb else 0.

(** The semaphores and the wait group count exactly the jobs that hold them, and
    the semaphores respect their capacities. *)
Record queue_ok (q : TenantQueue) : Prop := {
  q_caps : 1 ≤ globalCap q ∧ 1 ≤ perTenant q;
  q_global : global q = zsum holds_global (jobs q);
  q_tenant : ∀ t, tenantSlot q t = zsum (holds_tenant t) (jobs q);
  q_wg : wg q = zsum live (jobs q);
  q_gcap : global q ≤ globalCap q;
  q_tcap : ∀ t, tenantSlot q t ≤ perTenant q }.

Lemma tenantSlot_insert g p gl m c w js t n t' :
  tenantSlot {| globalCap := g; perTenant := p; global := gl; tenant := <[t := n]> m;
                closed := c; wg := w; jobs := js |} t' =
    if decide (t = t') then n else default 0 (m !! t').
Proof. unfold tenantSlot; cbn. rewrite lookup_insert. by destruct (decide (t = t')). Qed.

Lemma set_phase_sum f q j jb ph :
  jobs q !! j = Some jb →
  zsum f (set_phase q j jb ph) = zsum f (jobs q) - f jb + f {| jtenant := jtenant jb; jphase := ph |}.
Proof. apply zsum_insert. Qed.

(** Splits a successful step into its cases. *)
Ltac exec_cases H :=
  cbn in H; unfold Submit_phase1, Submit_phase2, job_release_global, job_release_tenant in H;
  repeat match type of H with
  | context [?o ≫= _] => destruct o eqn:?; cbn in H; [|discriminate H]
  | context [match ?x with _ => _ end] => destruct x eqn:?; cbn in H; try discriminate H
  end; try (injection H as <-).

(** Closes one field of the invariant after a step. *)
Ltac count_jobs :=
  unfold holds_global, holds_tenant, live, tenantSlot in *;
  cbn [jtenant jphase zsum foldr tenant Shutdown] in *;
  repeat match goal with H : jphase _ = _ |- _ => rewrite H in * end;
  repeat case_decide; subst; lia.

Ltac queue_field :=
  try match goal with E : jobs _ !! _ = Some _ |- _ => rewrite ?(set_phase_sum _ _ _ _ _ E) end;
  rewrite ?zsum_app;
  lazymatch goal with
  | Ht : ∀ t, tenantSlot _ t = _, Hc : ∀ t, tenantSlot _ t ≤ _ |- ∀ _, _ =>
      let t := fresh "t" in
      intros t; pose proof (Ht t); pose proof (Hc t);
      try match goal with E : jobs _ !! _ = Some _ |- _ => rewrite ?(set_phase_sum _ _ _ _ _ E) end;
      rewrite ?zsum_app; unfold set_tenant; rewrite ?tenantSlot_insert; count_jobs
  | _ => count_jobs
  end.

Lemma queue_exec_ok q l q' : queue_ok q → exec q l = Some q' → queue_ok q'.
Proof.
  intros [Hc Hg Ht Hw Hgc Htc] H. destruct l; exec_cases H; bools;
    try (unfold Submit_register; destruct (closed q));
    split; cbn [globalCap perTenant global tenant closed wg jobs Shutdown]; queue_field.
Qed.

(** ** Draining *)

(** The steps by which jobs move on without being cancelled. *)
Definition progress (l : label) : Prop :=
  match l with
  | LPhase1 _ Send | LPhase2 _ Send | LReleaseGlobal _ | LReleaseTenant _ => True
  | _ => False
  end.

Definition remaining (jb : job) : Z :=
  match jphase jb with
  | WaitTenant => 4 | WaitGlobal => 3 | Running => 2 | Releasing => 1
  | Rejected _ | Finished => 0
  end.

Definition work (q : TenantQueue) : Z := zsum remaining (jobs q).

Lemma progress_decreases q l q' : progress l → exec q l = Some q' → work q' < work q.
Proof.
  intros Hp H. unfold work. destruct l; cbn in Hp; try done; exec_cases H; try done;
    match goal with E : jobs _ !! _ = Some _ |- _ => cbn [jobs]; rewrite (set_phase_sum _ _ _ _ _ E) end;
    unfold remaining; cbn [jphase];
    repeat match goal with H : jphase _ = _ |- _ => rewrite H end; lia.
Qed.

(** A count that is not zero has a job it counts. *)
Lemma find_job (f : job → Z) js : 0 < zsum f js → ∃ j jb, js !! j = Some jb ∧ 0 < f jb.
Proof.
  intros H. apply zsum_pos_exists in H as (jb & Hin & Hf).
  apply list_elem_of_lookup in Hin as [j Hj]. eauto.
Qed.

(** A sum of zeros is zero. *)
Lemma zsum_all_zero (f : job → Z) js : (∀ jb, jb ∈ js → f jb = 0) → zsum f js = 0.
Proof. intros H. induction js as [|x js IH]; [done|]. rewrite zsum_cons, IH by set_solver. rewrite H; set_solver. Qed.

Lemma find_phase (f : job → Z) js :
  (∀ jb, 0 ≤ f jb) → 0 < zsum f js ∨ (∀ jb, jb ∈ js → f jb = 0).
Proof.
  intros Hf. destruct (decide (0 < zsum f js)) as [|Hn]; [by left|right].
  apply zsum_zero; [auto|]. pose proof (zsum_nonneg f js ltac:(auto)). lia.
Qed.

Lemma holds_global_nonneg jb : 0 ≤ holds_global jb.
Proof. unfold holds_global. case_match; lia. Qed.
Lemma holds_tenant_nonneg t jb : 0 ≤ holds_tenant t jb.
Proof. unfold holds_tenant. repeat case_match; lia. Qed.
Lemma live_nonneg jb : 0 ≤ live jb.
Proof. unfold live. case_match; lia. Qed.
Lemma remaining_nonneg jb : 0 ≤ remaining jb.
Proof. unfold remaining. case_match; lia. Qed.
#[local] Hint Resolve holds_global_nonneg holds_tenant_nonneg live_nonneg remaining_nonneg : core.

Lemma work_nonneg q : 0 ≤ work q.
Proof. apply zsum_nonneg. auto. Qed.

(** *** When each step is enabled *)

Definition can_move (q : TenantQueue) : Prop := ∃ l q', progress l ∧ exec q l = Some q'.

Ltac fire l :=
  exists l; eexists; split; [exact I|]; cbn;
  unfold Submit_phase1, Submit_phase2, job_release_global, job_release_tenant;
  repeat match goal with H : _ !! _ = Some _ |- _ => rewrite H; cbn; clear H end;
  repeat match goal with H : jphase _ = _ |- _ => rewrite H; clear H end;
  rewrite (proj2 (Z.ltb_lt _ _)) by lia; reflexivity.

Lemma running_moves q j jb :
  queue_ok q → jobs q !! j = Some jb → jphase jb = Running → can_move q.
Proof.
  intros Hok Hj E.
  assert (0 < global q).
  { rewrite (q_global _ Hok).
    pose proof (zsum_ge_elem holds_global (jobs q) jb ltac:(auto) (list_elem_of_lookup_2 _ _ _ Hj)).
    unfold holds_global at 1 in H. rewrite E in H. lia. }
  fire (LReleaseGlobal j).
Qed.

Lemma releasing_moves q j jb :
  queue_ok q → jobs q !! j = Some jb → jphase jb = Releasing → can_move q.
Proof.
  intros Hok Hj E.
  assert (0 < tenantSlot q (jtenant jb)).
  { rewrite (q_tenant _ Hok).
    pose proof (zsum_ge_elem (holds_tenant (jtenant jb)) (jobs q) jb ltac:(auto)
                  (list_elem_of_lookup_2 _ _ _ Hj)) as H.
    unfold holds_tenant at 1 in H. rewrite decide_True, E in H by done. lia. }
  fire (LReleaseTenant j).
Qed.

Lemma wait_global_moves q j jb :
  global q < globalCap q → jobs q !! j = Some jb → jphase jb = WaitGlobal → can_move q.
Proof. intros Hg Hj E. fire (LPhase2 j Send). Qed.

Lemma wait_tenant_moves q j jb :
  tenantSlot q (jtenant jb) < perTenant q → jobs q !! j = Some jb → jphase jb = WaitTenant → can_move q.
Proof. intros Hg Hj E. fire (LPhase1 j Send). Qed.

(** A job that holds its tenant slot can move once a global slot is free. *)
Lemma holder_moves q t j jb :
  queue_ok q → global q < globalCap q → jobs q !! j = Some jb → 0 < holds_tenant t jb → can_move q.
Proof.
  intros Hok Hg Hj Hh. unfold holds_tenant in Hh. case_decide; [|lia].
  destruct (jphase jb) eqn:E; try lia;
    eauto using running_moves, releasing_moves, wait_global_moves.
Qed.

(** As long as a job is live, some job can move on. *)
Lemma progress_enabled q : queue_ok q → 0 < wg q → can_move q.
Proof.
  intros Hok Hlive. pose proof Hok as [Hc Hg Ht Hw Hgc Htc]. rewrite Hw in Hlive.
  destruct (find_phase holds_global (jobs q)) as [Hr|Hr]; [auto| |].
  { destruct (find_job _ _ Hr) as (j & jb & Hj & Hh). unfold holds_global in Hh.
    destruct (jphase jb) eqn:E; try lia. by eapply running_moves. }
  assert (Hg0 : global q < globalCap q).
  { rewrite Hg, zsum_all_zero by done. lia. }
  apply find_job in Hlive as (j & jb & Hj & Hl). unfold live in Hl.
  destruct (jphase jb) eqn:E; try lia;
    eauto using running_moves, releasing_moves, wait_global_moves.
  destruct (decide (tenantSlot q (jtenant jb) < perTenant q)) as [Hlt|Hge];
    [by eapply wait_tenant_moves|].
  assert (Hp : 0 < zsum (holds_tenant (jtenant jb)) (jobs q)) by (rewrite <-Ht; lia).
  apply find_job in Hp as (j' & jb' & Hj' & Hh). by eapply holder_moves.
Qed.

(** With no live job every slot is free and [Shutdown] returns nil. *)
Lemma idle_drained q :
  queue_ok q → wg q = 0 →
  GlobalInFlight q = 0 ∧ (∀ tn, TenantInFlight q tn = 0) ∧
  Shutdown_wait (Shutdown q) None = Some None.
Proof.
  intros [Hc Hg Ht Hwg Hgc Htc] H0. unfold GlobalInFlight, TenantInFlight, Shutdown_wait.
  assert (Hl : ∀ jb, jb ∈ jobs q → live jb = 0) by (apply zsum_zero; [auto|lia]).
  split_and!.
  - rewrite Hg. apply zsum_all_zero. intros jb Hin. specialize (Hl jb Hin).
    unfold live, holds_global in *. case_match; lia.
  - intros tn. rewrite Ht. apply zsum_all_zero. intros jb Hin. specialize (Hl jb Hin).
    unfold live, holds_tenant in *. repeat case_match; lia.
  - cbn. by rewrite H0.
Qed.

Lemma queue_reach_ok g t q : rtc step (NewTenantQueue g t) q → queue_ok q.
Proof.
  intros Hr. assert (Hi : queue_ok (NewTenantQueue g t)).
  { split; unfold tenantSlot; cbn; try done; repeat match goal with |- ∀ _, _ => intros ? end; rewrite ?lookup_empty; cbn;
      split_ifs; bools; lia. }
  induction Hr as [|x y z [l Hl] _ IH]; [done|]. apply IH. by eapply queue_exec_ok.
Qed.

(** [q'] is reached from [q] by [n] steps in which jobs move on. *)
Inductive moves : nat → TenantQueue → TenantQueue → Prop :=
| moves_0 q : moves 0 q q
| moves_S n q l q' q'' :
    progress l → exec q l = Some q' → moves n q' q'' → moves (S n) q q''.

Lemma moves_bounded n q q' :
  queue_ok q → moves n q q' → Z.of_nat n ≤ work q ∧ (wg q' = 0 ∨ can_move q').
Proof.
  intros Hok Hm. revert Hok. induction Hm as [q|n q1 l q2 q3 Hp He Hm IH]; intros Hok.
  - split; [apply work_nonneg|]. destruct (decide (0 < wg q)); [right; by apply progress_enabled|left].
    pose proof (zsum_nonneg live (jobs q) ltac:(auto)). pose proof (q_wg _ Hok). lia.
  - pose proof (progress_decreases _ _ _ Hp He).
    destruct (IH (queue_exec_ok _ _ _ Hok He)). split; [lia|done].
Qed.

Lemma moves_to_idle q : queue_ok q → ∃ n q', moves n q q' ∧ queue_ok q' ∧ wg q' = 0.
Proof.
  remember (Z.to_nat (work q)) as k eqn:Ek. revert q Ek.
  induction k as [k IH] using lt_wf_ind. intros q -> Hok.
  destruct (decide (0 < wg q)) as [Hw|Hw].
  - destruct (progress_enabled q Hok Hw) as (l & q1 & Hp & He).
    pose proof (progress_decreases _ _ _ Hp He) as Hd. pose proof (work_nonneg q1).
    destruct (IH (Z.to_nat (work q1)) ltac:(lia) q1 eq_refl (queue_exec_ok _ _ _ Hok He))
      as (n & q2 & Hm & Hrest). exists (S n), q2. split; [by eapply moves_S|done].
  - exists 0%nat, q. split_and!; [constructor|done|].
    pose proof (zsum_nonneg live (jobs q) ltac:(auto)). pose proof (q_wg _ Hok). lia.
Qed.

(** C9. Isolation of tenants: in every reachable state the jobs running at once
    are at most [globalCap], those of any one tenant at most [perTenant], and
    both semaphores count exactly the jobs that hold them. *)
Theorem tenant_caps_hold g t q :
  rtc step (NewTenantQueue g t) q →
  zsum holds_global (jobs q) ≤ globalCap q ∧ GlobalInFlight q = zsum holds_global (jobs q) ∧
  ∀ tn, zsum (running_of tn) (jobs q) ≤ perTenant q ∧
        TenantInFlight q tn = zsum (holds_tenant tn) (jobs q).
Proof.
  intros Hr. apply queue_reach_ok in Hr as [Hc Hg Ht Hw Hgc Htc]. split_and!; [lia|done|].
  intros tn. split; [|apply Ht]. specialize (Htc tn). rewrite Ht in Htc.
  enough (zsum (running_of tn) (jobs q) ≤ zsum (holds_tenant tn) (jobs q)) by lia.
  apply zsum_le. intros jb. unfold running_of, holds_tenant, holds_global. repeat case_match; lia.
Qed.

Definition two_jobs : TenantQueue :=
  Submit_register (Submit_register (NewTenantQueue 5 2) "acme") "acme".

Lemma two_jobs_reachable : rtc step (NewTenantQueue 5 2) two_jobs.
Proof.
  eapply rtc_l; [by exists (LSubmit "acme")|]. eapply rtc_l; [by exists (LSubmit "acme")|]. done.
Qed.

Lemma tenant_caps_hold_witness : zsum holds_global (jobs two_jobs) ≤ globalCap two_jobs.
Proof. apply (tenant_caps_hold 5 2 two_jobs two_jobs_reachable). Defined.

(** C10. The gate never deadlocks and shutdown completes: from every reachable
    state, however the live jobs are scheduled, a run in which none is cancelled
    is at most four steps per job and can go on until no job is live; then no slot
    is held and [Shutdown] returns without an error. *)
Theorem queue_drains g t q :
  rtc step (NewTenantQueue g t) q →
  (∀ n q', moves n q q' → Z.of_nat n ≤ work q ∧ (wg q' = 0 ∨ can_move q')) ∧
  ∃ n q', moves n q q' ∧ wg q' = 0 ∧ GlobalInFlight q' = 0 ∧
    (∀ tn, TenantInFlight q' tn = 0) ∧ Shutdown_wait (Shutdown q') None = Some None.
Proof.
  intros Hr. apply queue_reach_ok in Hr as Hok. split; [by intros n q'; apply moves_bounded|].
  destruct (moves_to_idle q Hok) as (n & q' & Hm & Hok' & H0). exists n, q'.
  split_and!; try done; by apply idle_drained.
Qed.

Lemma queue_drains_witness :
  ∃ n q', moves n two_jobs q' ∧ wg q' = 0 ∧ GlobalInFlight q' = 0 ∧
    (∀ tn, TenantInFlight q' tn = 0) ∧ Shutdown_wait (Shutdown q') None = Some None.
Proof. apply (queue_drains 5 2 two_jobs two_jobs_reachable). Defined.

End TenantQueue.
