(* ===== verification/GoTime.v ===== *)
(** * GoTime: the parts of Go's [time] package the program uses

    [ParseDuration] with its grammar, its overflow tests and its float64
    fraction (computed with the Standard Library's exact IEEE-754 operations),
    and the wall clock of a location with a fixed offset from UTC. *)

From Stdlib Require Import Floats.SpecFloat.
From S2P Require Import Prelude GoStrings.
#[local] Open Scope Z_scope.

Module GoTime.

(** ** float64 *)

Definition f64_of_Z (z : Z) : spec_float := binary_normalize 53 1024 z 0 false.
Definition f64_mul (x y : spec_float) : spec_float := SFmul 53 1024 x y.
Definition f64_div (x y : spec_float) : spec_float := SFdiv 53 1024 x y.

(** [uint64(x)] of a finite non-negative float: truncation. *)
Definition f64_trunc (x : spec_float) : Z :=
  match x with
  | S754_finite false m e =>
      if 0 <=? e then Z.shiftl (Z.pos m) e else Z.shiftr (Z.pos m) (- e)
  | _ => 0
  end.

(** [int64(x)]: truncation towards zero. *)
Definition f64_to_int64 (x : spec_float) : Z :=
  match x with
  | S754_finite true m e => - f64_trunc (S754_finite false m e)
  | _ => f64_trunc x
  end.

(** [int64(d.Seconds())]. *)
Definition seconds_int (d : duration) : Z :=
  f64_to_int64
    (SFadd 53 1024 (f64_of_Z (d `quot` Second))
       (f64_div (f64_of_Z (d `rem` Second)) (f64_of_Z 1000000000))).

Example seconds_minute : seconds_int (90 * Second + 999999999) = 90.
Proof. vm_compute. reflexivity. Qed.

(** ** ParseDuration *)

Definition is_digit (c : ascii) : bool := bool_decide (is_Some (digit_val c)).

(** [leadingInt]: the value of the leading digits and the rest, [None] on overflow. *)
Fixpoint leadingInt (x : Z) (l : list ascii) : option (Z * list ascii) :=
  match l with
  | [] => Some (x, [])
  | c :: r =>
      match digit_val c with
      | None => Some (x, l)
      | Some d =>
          if 2 ^ 63 / 10 <? x then None
          else if 2 ^ 63 <? x * 10 + d then None
          else leadingInt (x * 10 + d) r
      end
  end.

(** [leadingFraction]: digits beyond the precision are consumed and dropped. *)
Fixpoint leadingFraction (x : Z) (scale : spec_float) (overflow : bool) (l : list ascii)
  : Z * spec_float * list ascii :=
  match l with
  | [] => (x, scale, [])
  | c :: r =>
      match digit_val c with
      | None => (x, scale, l)
      | Some d =>
          if overflow then leadingFraction x scale true r
          else if (2 ^ 63 - 1) / 10 <? x then leadingFraction x scale true r
          else if 2 ^ 63 <? x * 10 + d then leadingFraction x scale true r
          else leadingFraction (x * 10 + d) (f64_mul scale (f64_of_Z 10)) false r
      end
  end.

Definition micro (b1 b2 : nat) : string := str [byte b1; byte b2; "s"%char].

Definition unitMap (u : string) : option Z :=
  if decide (u = "ns") then Some Nanosecond
  else if decide (u = "us" ∨ u = micro 194 181 ∨ u = micro 206 188) then Some 1000
  else if decide (u = "ms") then Some Millisecond
  else if decide (u = "s") then Some Second
  else if decide (u = "m") then Some Minute
  else if decide (u = "h") then Some Hour
  else None.

(** The unit is everything up to the next digit or dot. *)
Fixpoint span_unit (l : list ascii) : list ascii * list ascii :=
  match l with
  | [] => ([], [])
  | c :: r => if is_digit c || bool_decide (c = "."%char) then ([], l)
              else let '(u, rest) := span_unit r in (c :: u, rest)
  end.

(** One number with its unit: its nanoseconds and the rest of the input. *)
Definition duration_term (l : list ascii) : option (Z * list ascii) :=
  '(v, l1) ← leadingInt 0 l;
  let pre := negb (Nat.eqb (length l) (length l1)) in
  let '(f, scale, l2, post) :=
    match l1 with
    | "."%char :: r =>
        let '(f, scale, l2) := leadingFraction 0 (f64_of_Z 1) false r in
        (f, scale, l2, negb (Nat.eqb (length r) (length l2)))
    | _ => (0, f64_of_Z 1, l1, false)
    end in
  if negb pre && negb post then None
  else
    let '(u, rest) := span_unit l2 in
    unit ← unitMap (str u);
    if 2 ^ 63 / unit <? v then None
    else
      let v1 := v * unit in
      let v2 := if 0 <? f
                then u64 (v1 + f64_trunc (f64_mul (f64_of_Z f) (f64_div (f64_of_Z unit) scale)))
                else v1 in
      if 2 ^ 63 <? v2 then None else Some (v2, rest).

(** Every iteration consumes at least one byte, so the length is enough fuel. *)
Fixpoint duration_terms (fuel : nat) (d : Z) (l : list ascii) : option Z :=
  match l, fuel with
  | [], _ => Some d
  | _, O => None
  | _, S fuel =>
      '(v, rest) ← duration_term l;
      if 2 ^ 63 <? u64 (d + v) then None else duration_terms fuel (u64 (d + v)) rest
  end.

(** [time.ParseDuration]; the error is not distinguished. *)
Definition ParseDuration (s : string) : option duration :=
  let l := bytes s in
  let '(neg, l1) := match l with
                    | "-"%char :: r => (true, r)
                    | "+"%char :: r => (false, r)
                    | _ => (false, l)
                    end in
  if decide (l1 = ["0"%char]) then Some 0
  else if decide (l1 = []) then None
  else
    d ← duration_terms (length l1) 0 l1;
    if neg : bool then Some (i64 (- d))
    else if 2 ^ 63 - 1 <? d then None else Some d.

Example parse_5m : ParseDuration "5m" = Some (5 * Minute). Proof. vm_compute. reflexivity. Qed.
Example parse_mix : ParseDuration "-1.5h30s" = Some (- (5430 * Second)). Proof. vm_compute. reflexivity. Qed.
Example parse_frac : ParseDuration "0.3us" = Some 300. Proof. vm_compute. reflexivity. Qed.
Example parse_bad : ParseDuration "5 m" = None. Proof. vm_compute. reflexivity. Qed.
Example parse_big : ParseDuration "9223372036854775808ns" = None. Proof. vm_compute. reflexivity. Qed.

(** ** The wall clock of a location at a fixed offset (in nanoseconds) *)

Definition Day : duration := 24 * Hour.

(** Time since local midnight, and that midnight as an instant. *)
Definition time_of_day (off : duration) (t : instant) : duration := (t + off) mod Day.
Definition midnight (off : duration) (t : instant) : instant := t - time_of_day off t.

(** [time.Date(t.Year(), t.Month(), t.Day(), h, m, 0, 0, t.Location())]. *)
Definition date_at (off : duration) (t : instant) (h m : Z) : instant :=
  midnight off t + h * Hour + m * Minute.

Lemma midnight_bounds off t : midnight off t ≤ t < midnight off t + Day.
Proof.
  unfold midnight, time_of_day. pose proof (Z.mod_pos_bound (t + off) Day ltac:(done)). lia.
Qed.

Lemma time_of_day_midnight off t d : 0 ≤ d < Day → time_of_day off (midnight off t + d) = d.
Proof.
  intros Hd. unfold midnight, time_of_day.
  replace (t - (t + off) mod Day + d + off) with (d + ((t + off) / Day) * Day).
  - rewrite Z_mod_plus_full, Z.mod_small; lia.
  - pose proof (Z.div_mod (t + off) Day ltac:(done)). lia.
Qed.

Lemma time_of_day_next off t : time_of_day off (t + Day) = time_of_day off t.
Proof.
  unfold time_of_day. replace (t + Day + off) with (t + off + 1 * Day) by lia.
  apply Z_mod_plus_full.
Qed.

End GoTime.
