(* ===== verification/GoScan.v ===== *)
(** * GoScan: reading numbers with Go's [fmt.Sscanf] and [strconv.ParseFloat]

    The verbs [%d] and [%f] on text without leading white space; input after the
    number is ignored, as [Sscanf] does.  A decimal or hexadecimal number is
    rounded once to the nearest float64. *)

From Stdlib Require Import Floats.SpecFloat.
From S2P Require Import Prelude GoStrings GoTime.
#[local] Open Scope Z_scope.

Module GoScan.

(** ** The scanner: what was accepted so far, reversed, and the rest *)

Definition scan : Type := list ascii * list ascii.

(** [s.accept(set)]: takes one character of the set. *)
Definition accept (set : list ascii) (s : scan) : option scan :=
  match s.2 with
  | c :: r => if decide (c ∈ set) then Some (c :: s.1, r) else None
  | [] => None
  end.
Definition accept_opt (set : list ascii) (s : scan) : scan := default s (accept set s).

(** [for s.accept(set) {}] *)
Fixpoint accept_run (set : list ascii) (buf rest : list ascii) : scan :=
  match rest with
  | c :: r => if decide (c ∈ set) then accept_run set (c :: buf) r else (buf, rest)
  | [] => (buf, rest)
  end.
Definition accept_all (set : list ascii) (s : scan) : scan := accept_run set s.1 s.2.

(** [s.accept(a) && s.accept(b) && ...]: on failure what was taken stays taken. *)
Fixpoint accept_word (sets : list (list ascii)) (s : scan) : bool * scan :=
  match sets with
  | [] => (true, s)
  | set :: rest => match accept set s with
                   | Some s' => accept_word rest s'
                   | None => (false, s)
                   end
  end.

Definition sign : list ascii := bytes "+-".
Definition decimalDigits : list ascii := bytes "0123456789".
Definition hexadecimalDigits : list ascii := bytes "0123456789aAbBcCdDeEfF".

(** [floatToken]: the longest prefix that may be a number. *)
Definition floatToken (l : list ascii) : list ascii :=
  let '(nan, s) := accept_word [bytes "nN"; bytes "aA"; bytes "nN"] ([], l) in
  if nan : bool then reverse s.1
  else
    let '(inf, s) := accept_word [bytes "iI"; bytes "nN"; bytes "fF"] (accept_opt sign s) in
    if inf : bool then reverse s.1
    else
      let '(hex, s) := accept_word [bytes "0"; bytes "xX"] s in
      let digits := (if hex : bool then hexadecimalDigits else decimalDigits) ++ bytes "_" in
      let exp := if hex : bool then bytes "pP" else bytes "eEpP" in
      let s := accept_all digits s in
      let s := match accept (bytes ".") s with Some s' => accept_all digits s' | None => s end in
      let s := match accept exp s with
               | Some s' => accept_all (decimalDigits ++ bytes "_") (accept_opt sign s')
               | None => s
               end in
      reverse s.1.

(** [%d] into an [int64]: a sign, at least one digit, a value in range. *)
Definition Sscanf_d (text : string) : option Z :=
  let s := accept_opt sign ([], bytes text) in
  s' ← accept decimalDigits s;
  Atoi (str (reverse (accept_all decimalDigits s').1)).

(** ** ParseFloat *)

Definition hex_val (c : ascii) : option Z :=
  match digit_val c with
  | Some d => Some d
  | None => let n := Z.of_nat (Ascii.nat_of_ascii (ascii_lower c)) in
            if (97 <=? n) && (n <=? 102) then Some (n - 87) else None
  end.

(** The digits of a mantissa: their value, how many follow the point, whether
    there was a point and a digit, and the rest. *)
Fixpoint mantissa (base : Z) (val : ascii → option Z) (m frac : Z) (dot digits : bool)
    (l : list ascii) : Z * Z * bool * list ascii :=
  match l with
  | [] => (m, frac, digits, [])
  | c :: r =>
      if decide (c = "_"%char) then mantissa base val m frac dot digits r
      else if decide (c = "."%char) then
        if dot then (m, frac, digits, l) else mantissa base val m frac true digits r
      else match val c with
           | Some d => mantissa base val (m * base + d) (if dot then frac + 1 else frac) dot true r
           | None => (m, frac, digits, l)
           end
  end.

(** The digits of an exponent; further ones are dropped from 10000 on. *)
Fixpoint exponent_digits (e : Z) (l : list ascii) : Z * list ascii :=
  match l with
  | [] => (e, [])
  | c :: r =>
      if decide (c = "_"%char) then exponent_digits e r
      else match digit_val c with
           | Some d => exponent_digits (if e <? 10000 then e * 10 + d else e) r
           | None => (e, l)
           end
  end.

Definition starts_with_digit (l : list ascii) : bool :=
  match l with c :: _ => bool_decide (is_Some (digit_val c)) | [] => false end.

(** The exponent after its letter. *)
Definition exponent (l : list ascii) : option (Z * list ascii) :=
  let '(sg, r) := match l with
                  | "+"%char :: r => (1, r)
                  | "-"%char :: r => (-1, r)
                  | _ => (1, l)
                  end in
  if starts_with_digit r
  then let '(e, rest) := exponent_digits 0 r in Some (sg * e, rest) else None.

(** [underscoreOK]: underscores only between digits or after a base prefix.  [saw]
    is the last character class: a digit, an underscore, or another. *)
Inductive saw_class := SawDigit | SawUnderscore | SawOther.
Fixpoint underscores_ok (hex : bool) (saw : saw_class) (l : list ascii) : bool :=
  match l with
  | [] => match saw with SawUnderscore => false | _ => true end
  | c :: r =>
      if decide (is_Some (if hex then hex_val c else digit_val c)) then underscores_ok hex SawDigit r
      else match saw with
           | SawDigit => underscores_ok hex
                           (if decide (c = "_"%char) then SawUnderscore else SawOther) r
           | SawUnderscore => false
           | SawOther => if decide (c = "_"%char) then false else underscores_ok hex SawOther r
           end
  end.

(** The float64 nearest to [(-1)^neg * m * 10^e], and to [(-1)^neg * m * 2^e]. *)
Definition round_decimal (neg : bool) (m e : Z) : spec_float :=
  match m with
  | Z.pos p =>
      if 0 <=? e then binary_normalize 53 1024 ((if neg then -1 else 1) * (m * 10 ^ e)) 0 neg
      else SFdiv 53 1024 (S754_finite neg p 0) (S754_finite false (Z.to_pos (10 ^ (- e))) 0)
  | _ => S754_zero neg
  end.
Definition round_binary (neg : bool) (m e : Z) : spec_float :=
  binary_normalize 53 1024 ((if neg then -1 else 1) * m) e neg.

(** A value out of range is an error. *)
Definition in_range (x : spec_float) : option spec_float :=
  match x with S754_infinity _ => None | _ => Some x end.

(** The text of a decimal number, and of a hexadecimal one after its prefix. *)
Definition parse_decimal (neg : bool) (l : list ascii) : option spec_float :=
  let '(m, frac, digits, rest) := mantissa 10 digit_val 0 0 false false l in
  if negb digits then None
  else
    '(e, tail) ← match rest with
                 | c :: rest' => if decide (ascii_lower c = "e"%char) then exponent rest' else None
                 | [] => Some (0, [])
                 end;
    if decide (tail = []) then
      if underscores_ok false SawOther l then in_range (round_decimal neg m (e - frac)) else None
    else None.

Definition parse_hex (neg : bool) (l : list ascii) : option spec_float :=
  let '(m, frac, digits, rest) := mantissa 16 hex_val 0 0 false false l in
  match rest with
  | c :: rest' =>
      if negb digits || negb (bool_decide (ascii_lower c = "p"%char)) then None
      else
        '(e, tail) ← exponent rest';
        if decide (tail = []) then
          if underscores_ok true SawDigit l then in_range (round_binary neg m (e - 4 * frac)) else None
        else None
  | [] => None
  end.

Definition parse_unsigned (neg : bool) (l : list ascii) : option spec_float :=
  match l with
  | "0"%char :: x :: ((_ :: _) as r) =>
      if decide (ascii_lower x = "x"%char) then parse_hex neg r else parse_decimal neg l
  | _ => parse_decimal neg l
  end.

(** [strconv.ParseFloat(s, 64)]; the error is not distinguished. *)
Definition ParseFloat (l : list ascii) : option spec_float :=
  let '(signed, neg, r) := match l with
                           | "+"%char :: r => (true, false, r)
                           | "-"%char :: r => (true, true, r)
                           | _ => (false, false, l)
                           end in
  let low := str (ascii_lower <$> r) in
  if decide (low = "inf" ∨ low = "infinity") then Some (S754_infinity neg)
  else if decide (signed = false ∧ low = "nan") then Some S754_nan
  else parse_unsigned neg r.

(** [convertFloat]: besides what [ParseFloat] reads, a decimal number with a binary
    exponent. *)
Definition convertFloat (l : list ascii) : option spec_float :=
  match list_find (λ c, c = "p"%char) l with
  | Some (i, _) =>
      if decide (("x"%char : ascii) ∈ l ∨ ("X"%char : ascii) ∈ l) then ParseFloat l
      else f ← ParseFloat (take i l);
           m ← Atoi (str (drop (S i) l));
           Some (SFldexp 53 1024 f m)
  | None => ParseFloat l
  end.

(** [%f] into a [float64]. *)
Definition Sscanf_f (text : string) : option spec_float :=
  if decide (text = "") then None else convertFloat (floatToken (bytes text)).

(** ** Conversion to [int64]

    Go leaves the result of converting a value out of range to the platform:
    [wild] is that result. *)
Definition float_to_int64 (wild : spec_float → Z) (x : spec_float) : Z :=
  match x with
  | S754_zero _ => 0
  | S754_finite _ _ _ =>
      let z := GoTime.f64_to_int64 x in
      if (min_int64 <=? z) && (z <=? max_int64) then z else wild x
  | _ => wild x
  end.

Definition scaled (wild : spec_float → Z) (text : string) (k : Z) : option Z :=
  (λ f, float_to_int64 wild (GoTime.f64_mul f (GoTime.f64_of_Z k))) <$> Sscanf_f text.

Example scan_half : scaled (λ _, -1) "0.5" 1000 = Some 500. Proof. vm_compute. reflexivity. Qed.
Example scan_rest : scaled (λ _, -1) "1.5 and more" 10 = Some 15. Proof. vm_compute. reflexivity. Qed.
Example scan_exp : scaled (λ _, -1) "-2_0e-1" 10 = Some (-20). Proof. vm_compute. reflexivity. Qed.
Example scan_hex : scaled (λ _, -1) "0x1.8p1" 10 = Some 30. Proof. vm_compute. reflexivity. Qed.
Example scan_bin : scaled (λ _, -1) "3p2" 10 = Some 120. Proof. vm_compute. reflexivity. Qed.
Example scan_tenth : scaled (λ _, -1) "0.29" 100 = Some 28. Proof. vm_compute. reflexivity. Qed.
Example scan_inf : scaled (λ _, -1) "Infinity" 10 = Some (-1). Proof. vm_compute. reflexivity. Qed.
Example scan_bad : (scaled (λ _, -1) "abc" 10, scaled (λ _, -1) "1e" 1, scaled (λ _, -1) "1__0" 1) =
  (None, None, None).
Proof. vm_compute. reflexivity. Qed.
Example scan_int : (Sscanf_d "512", Sscanf_d "-7x", Sscanf_d "x", Sscanf_d "1.5") =
  (Some 512, Some (-7), None, Some 1).
Proof. vm_compute. reflexivity. Qed.

(** ** Reading back decimal text *)

Lemma digit_in_digits c : is_Some (digit_val c) → c ∈ decimalDigits ∧ c ∉ sign.
Proof.
  destruct c as [[] [] [] [] [] [] [] []]; intros [d H]; cbv in H; try discriminate H;
    (split; [|intros Hs]; [apply (bool_decide_unpack _); vm_compute; exact I|]);
    apply (bool_decide_pack _) in Hs; vm_compute in Hs; exact Hs.
Qed.

Lemma accept_run_digits l : ∀ buf,
  Forall (λ c, is_Some (digit_val c)) l → accept_run decimalDigits buf l = (reverse l ++ buf, []).
Proof.
  induction l as [|c l IH]; intros buf Hl; [done|]. apply Forall_cons in Hl as [Hc Hl]. cbn [accept_run].
  rewrite decide_True by by apply digit_in_digits.
  by rewrite IH, reverse_cons, <-app_assoc by done.
Qed.

Lemma Sscanf_d_itoa n : 0 ≤ n ≤ max_int64 → Sscanf_d (itoa n) = Some n.
Proof.
  intros Hn. destruct (itoa_nonempty n) as (c & l & E); [lia|].
  pose proof (itoa_digits n ltac:(lia)) as Hd. rewrite E in Hd.
  apply Forall_cons in Hd as [Hc Hl]. destruct (digit_in_digits c Hc) as [H1 H2].
  unfold Sscanf_d, accept_opt, accept, accept_all. cbn [fst snd]. rewrite E, decide_False by done.
  cbn [default snd fst]. rewrite decide_True by done. cbn [mbind option_bind fst snd].
  rewrite accept_run_digits by done. cbn [fst].
  rewrite reverse_app, reverse_involutive. change (reverse [c] ++ l) with (c :: l).
  rewrite <-E, str_bytes. by apply Atoi_itoa.
Qed.

End GoScan.
