(* ===== verification/Scheduler.v ===== *)
(** * Scheduler: the recurring-job scheduler ([internal/core/scheduler.go])

    Jobs are shared pointers: the map, the caller and the goroutine of a run all
    refer to the same [CronJob], so a store of jobs is kept and the map holds
    locations in it.  Each critical section is one atomic step, and so is the
    start and the end of a handler's run. *)

From S2P Require Import Prelude GoStrings GoTime.
#[local] Open Scope Z_scope.

Module Scheduler.
Import GoTime.

(** ** Schedules *)

(** The errors of [parseHHMM], in the order of its tests. *)
Inductive hhmm_error := MissingColon | ParseHour | ParseMinute | HourRange | MinuteRange.

(** src/internal/core/scheduler.go:345-365 parseHHMM *)
Definition parseHHMM (s : string) : result hhmm_error Z :=
  match Index s ":" with
  | None => Err MissingColon
  | Some idx =>
      match Atoi (TrimSpace (str (take idx (bytes s)))) with
      | None => Err ParseHour
      | Some h =>
          match Atoi (TrimSpace (str (drop (idx + 1) (bytes s)))) with
          | None => Err ParseMinute
          | Some m =>
              if (h <? 0) || (23 <? h) then Err HourRange
              else if (m <? 0) || (59 <? m) then Err MinuteRange
              else Ok (h * 60 + m)
          end
      end
  end.

(** [off] is the offset of [now.Location()].
    src/internal/core/scheduler.go:309-338 Scheduler.calcNextRun *)
Definition calcNextRun (off : duration) (now : instant) (schedule : string) : instant :=
  if HasPrefix schedule "@every " then
    match ParseDuration (TrimSpace (TrimPrefix schedule "@every ")) with
    | Some dur => now + dur
    | None => now + Hour
    end
  else if Contains schedule ":" then
    match parseHHMM schedule with
    | Err _ => now + Hour
    | Ok total =>
        let h := total `quot` 60 in
        let m := total `rem` 60 in
        let next := date_at off now h m in
        if negb (now <? next) then next + 24 * Hour else next
    end
  else now + Hour.

(** ** The scheduler *)

(** [Handler] is run by the environment: a run ends when its [LReturn] step is taken.
    src/internal/core/scheduler.go:29-44 CronJob *)
Record CronJob := {
  ID : string; Name : string; Schedule : string; Timeout : duration;
  LastRun : instant; NextRun : instant; Running : bool; Enabled : bool }.

(** [heap] is the store of [CronJob]s, [jobs] the map of pointers into it, [flight]
    the locations whose handler goroutine is running, [exiting] the number of
    goroutines past their critical section that have not left the wait group,
    [looping] whether the loop goroutine runs.  [stopCh] is closed and [stopCtx] cancelled exactly when
    [stopped] is set, in the same critical section.
    src/internal/core/scheduler.go:65-88 Scheduler *)
Record Scheduler := {
  heap : list CronJob;
  jobs : gmap string nat;
  started : bool;
  stopped : bool;
  wg : Z;
  looping : bool;
  flight : list nat;
  exiting : Z }.

(** src/internal/core/scheduler.go:93-105 NewScheduler *)
Definition NewScheduler : Scheduler :=
  {| heap := []; jobs := ∅; started := false; stopped := false; wg := 0;
     looping := false; flight := []; exiting := 0 |}.

Definition set_job (s : Scheduler) (p : nat) (j : CronJob) : list CronJob := <[p := j]> (heap s).

(** [gen] is the identifier [GenerateID] returns.
    src/internal/core/scheduler.go:110-128 Scheduler.Add *)
Definition Add (off : duration) (now : instant) (gen : string) (s : Scheduler) (p : nat)
  : option Scheduler :=
  job ← heap s !! p;
  let id := if decide (ID job = "") then gen else ID job in
  let job' := {| ID := id; Name := Name job; Schedule := Schedule job; Timeout := Timeout job;
                 LastRun := LastRun job; NextRun := calcNextRun off now (Schedule job);
                 Running := Running job; Enabled := true |} in
  Some {| heap := set_job s p job'; jobs := <[id := p]> (jobs s); started := started s;
          stopped := stopped s; wg := wg s; looping := looping s; flight := flight s;
     exiting := exiting s |}.

(** src/internal/core/scheduler.go:134-138 Scheduler.Remove *)
Definition Remove (s : Scheduler) (id : string) : Scheduler :=
  {| heap := heap s; jobs := delete id (jobs s); started := started s; stopped := stopped s;
     wg := wg s; looping := looping s; flight := flight s;
     exiting := exiting s |}.

(** src/internal/core/scheduler.go:145-163 Scheduler.Start *)
Definition Start (s : Scheduler) : Scheduler :=
  if started s || stopped s then s
  else {| heap := heap s; jobs := jobs s; started := true; stopped := stopped s;
          wg := wg s + 1; looping := true; flight := flight s;
     exiting := exiting s |}.

(** The critical section of [Stop].
    src/internal/core/scheduler.go:177-191 Scheduler.Stop.signal *)
Definition Stop (s : Scheduler) : Scheduler :=
  {| heap := heap s; jobs := jobs s; started := started s; stopped := true;
     wg := wg s; looping := looping s; flight := flight s;
     exiting := exiting s |}.

(** [Stop] returns once the wait group is at zero.
    src/internal/core/scheduler.go:193-194 Scheduler.Stop.wait *)
Definition Stop_returned (s : Scheduler) : bool := stopped s && (wg s =? 0).

(** src/internal/core/scheduler.go:199-208 Scheduler.Jobs *)
Definition Jobs (s : Scheduler) : list CronJob :=
  omap (λ ip : string * nat, heap s !! ip.2) (map_to_list (jobs s)).

(** The test of [tick]'s loop.
    src/internal/core/scheduler.go:257-259 Scheduler.tick.due *)
Definition due (now : instant) (j : CronJob) : bool :=
  negb (negb (Enabled j) || Running j || (now <? NextRun j)).

Definition with_running (j : CronJob) (b : bool) : CronJob :=
  {| ID := ID j; Name := Name j; Schedule := Schedule j; Timeout := Timeout j;
     LastRun := LastRun j; NextRun := NextRun j; Running := b; Enabled := Enabled j |}.

(** One iteration of [tick]'s loop.
    src/internal/core/scheduler.go:256-265 Scheduler.tick.dispatch *)
Definition dispatch (now : instant) (s : Scheduler) (p : nat) : Scheduler :=
  match heap s !! p with
  | None => s
  | Some j =>
      if due now j then
        {| heap := set_job s p (with_running j true); jobs := jobs s; started := started s;
           stopped := stopped s; wg := wg s + 1; looping := looping s; flight := p :: flight s;
           exiting := exiting s |}
      else s
  end.

(** [order] is the order in which the map is iterated: any permutation of it.
    src/internal/core/scheduler.go:244-265 Scheduler.tick *)
Definition tick (now : instant) (s : Scheduler) (order : list nat) : Scheduler :=
  if stopped s then s else foldl (dispatch now) s order.

(** The pass of [loop] after a tick of the ticker; it returns when the context
    is already cancelled.
    src/internal/core/scheduler.go:210-232 Scheduler.loop *)
Definition loop_tick (now : instant) (s : Scheduler) (order : list nat) : option Scheduler :=
  if negb (looping s) then None
  else if stopped s then
    Some {| heap := heap s; jobs := jobs s; started := started s; stopped := stopped s;
            wg := wg s - 1; looping := false; flight := flight s;
     exiting := exiting s |}
  else Some (tick now s order).

(** The pass of [loop] on a closed [stopCh].
    src/internal/core/scheduler.go:228-230 Scheduler.loop.stop *)
Definition loop_stop (s : Scheduler) : option Scheduler :=
  if looping s && stopped s then
    Some {| heap := heap s; jobs := jobs s; started := started s; stopped := stopped s;
            wg := wg s - 1; looping := false; flight := flight s;
     exiting := exiting s |}
  else None.

Definition defaultJobTimeout : duration := 30 * Minute.

(** The deadline a handler's context is given.
    src/internal/core/scheduler.go:286-290 Scheduler.runJob.timeout *)
Definition job_timeout (j : CronJob) : duration :=
  if Timeout j <=? 0 then defaultJobTimeout else Timeout j.

(** Removes one occurrence. *)
Fixpoint remove_one (p : nat) (l : list nat) : option (list nat) :=
  match l with
  | [] => None
  | q :: l => if decide (q = p) then Some l else k ← remove_one p l; Some (q :: k)
  end.

(** The deferred critical section of [runJob], entered when the handler returned,
    failed or panicked.
    src/internal/core/scheduler.go:271-284 Scheduler.runJob.finish *)
Definition runJob_finish (off : duration) (now : instant) (s : Scheduler) (p : nat)
  : option Scheduler :=
  fl ← remove_one p (flight s);
  j ← heap s !! p;
  let j' := {| ID := ID j; Name := Name j; Schedule := Schedule j; Timeout := Timeout j;
               LastRun := now; NextRun := calcNextRun off now (Schedule j);
               Running := false; Enabled := Enabled j |} in
  Some {| heap := set_job s p j'; jobs := jobs s; started := started s; stopped := stopped s;
          wg := wg s; looping := looping s; flight := fl; exiting := exiting s + 1 |}.

(** The goroutine leaves the wait group.
    src/internal/core/scheduler.go:272-272 Scheduler.runJob.done *)
Definition runJob_done (s : Scheduler) : option Scheduler :=
  if 0 <? exiting s then
    Some {| heap := heap s; jobs := jobs s; started := started s; stopped := stopped s;
            wg := wg s - 1; looping := looping s; flight := flight s;
            exiting := exiting s - 1 |}
  else None.

(** ** Steps *)

(** What the callers, the loop and the goroutines do; [LAlloc] is a caller that
    builds a [CronJob], which is not running, and [LSwitch] a caller that writes
    [Enabled] through a pointer it got from [Jobs]. *)
Inductive label :=
| LAlloc (j : CronJob)
| LSwitch (p : nat) (b : bool)
| LAdd (now : instant) (gen : string) (p : nat)
| LRemove (id : string)
| LStart
| LStop
| LTick (now : instant) (order : list nat)
| LLoopStop
| LFinish (now : instant) (p : nat)
| LDone.

Definition alloc (s : Scheduler) (j : CronJob) : option Scheduler :=
  if Running j then None
  else Some {| heap := heap s ++ [j]; jobs := jobs s; started := started s;
               stopped := stopped s; wg := wg s; looping := looping s; flight := flight s;
               exiting := exiting s |}.

Definition switch (s : Scheduler) (p : nat) (b : bool) : option Scheduler :=
  j ← heap s !! p;
  Some {| heap := set_job s p {| ID := ID j; Name := Name j; Schedule := Schedule j; Timeout := Timeout j;
                                 LastRun := LastRun j; NextRun := NextRun j; Running := Running j; Enabled := b |};
          jobs := jobs s; started := started s; stopped := stopped s; wg := wg s; looping := looping s;
          flight := flight s; exiting := exiting s |}.

(** The map is iterated in an arbitrary order. *)
Definition order_ok (s : Scheduler) (order : list nat) : Prop :=
  order ≡ₚ (map_to_list (jobs s)).*2.
#[global] Instance order_ok_dec s order : Decision (order_ok s order).
Proof. unfold order_ok. apply _. Defined.

Section Steps.
Variable off : duration.

Definition exec (s : Scheduler) (l : label) : option Scheduler :=
  match l with
  | LAlloc j => alloc s j
  | LSwitch p b => switch s p b
  | LAdd now gen p => Add off now gen s p
  | LRemove id => Some (Remove s id)
  | LStart => Some (Start s)
  | LStop => Some (Stop s)
  | LTick now order => if decide (order_ok s order) then loop_tick now s order else None
  | LLoopStop => loop_stop s
  | LFinish now p => runJob_finish off now s p
  | LDone => runJob_done s
  end.

Definition step (s s' : Scheduler) : Prop := ∃ l, exec s l = Some s'.
Definition reachable (s : Scheduler) : Prop := rtc step NewScheduler s.

(** The wait group counts the loop and the goroutines, a location is in flight
    exactly when its job says [Running], and never twice. *)
Record sched_ok (s : Scheduler) : Prop := {
  k_wg : wg s = (if looping s then 1 else 0) + zlen (flight s) + exiting s;
  k_exiting : 0 ≤ exiting s;
  k_nodup : NoDup (flight s);
  k_running : ∀ p j, heap s !! p = Some j → (Running j = true ↔ p ∈ flight s);
  k_alloc : ∀ p, p ∈ flight s → is_Some (heap s !! p);
  k_started : looping s = true → started s = true }.

Lemma remove_one_Permutation p l k : remove_one p l = Some k → l ≡ₚ p :: k.
Proof.
  revert k. induction l as [|q l IH]; cbn; intros k H; [done|]. case_decide as E.
  - injection H as <-. by subst.
  - destruct (remove_one p l) as [k'|]; cbn in H; [|done]. injection H as <-.
    rewrite (IH k' eq_refl). constructor.
Qed.

Lemma remove_one_is_Some p l : p ∈ l → is_Some (remove_one p l).
Proof.
  induction l as [|q l IH]; cbn; intros H; [set_solver|]. case_decide; [eauto|].
  destruct (IH ltac:(set_solver)) as [k ->]. cbn. eauto.
Qed.

(** Replacing a job by one that is running as often keeps the invariant. *)
Lemma running_set (hp : list CronJob) (fl : list nat) p j j' :
  hp !! p = Some j → Running j' = Running j →
  (∀ q i, hp !! q = Some i → (Running i = true ↔ q ∈ fl)) →
  ∀ q i, <[p := j']> hp !! q = Some i → (Running i = true ↔ q ∈ fl).
Proof.
  intros Hp Hr H q i. rewrite list_lookup_insert. case_decide as E; [|apply H].
  destruct E as [-> _]. intros [= <-]. rewrite Hr. by apply H.
Qed.

Lemma is_Some_set (hp : list CronJob) p j' (fl : list nat) :
  (∀ q, q ∈ fl → is_Some (hp !! q)) → ∀ q, q ∈ fl → is_Some (<[p := j']> hp !! q).
Proof.
  intros H q Hq. specialize (H q Hq). rewrite lookup_lt_is_Some in *.
  by rewrite length_insert.
Qed.

Lemma dispatch_ok now s p : sched_ok s → sched_ok (dispatch now s p).
Proof.
  intros Hok. unfold dispatch. destruct (heap s !! p) as [j|] eqn:Ej; [|done].
  destruct (due now j) eqn:Ed; [|done]. destruct Hok as [Hw He Hn Hr Ha Hs].
  unfold due in Ed. assert (Hnr : Running j = false) by (destruct (Enabled j), (Running j); done).
  assert (Hp : p ∉ flight s) by (intros Hin; apply (Hr p j Ej) in Hin; congruence).
  split; cbn [wg looping flight exiting heap started]; try done.
  - cbn [length]. destruct (looping s); lia.
  - by constructor.
  - intros q i. unfold set_job. rewrite list_lookup_insert. case_decide as E.
    + destruct E as [-> _]. intros [= <-]. cbn. split; [by left|done].
    + intros Hq. rewrite (Hr q i Hq), elem_of_cons. apply lookup_lt_Some in Ej.
      split; [by right|]. intros [->|]; [by destruct E|done].
  - unfold set_job. intros q Hq. apply lookup_lt_Some in Ej.
    apply lookup_lt_is_Some. rewrite length_insert. apply elem_of_cons in Hq as [->|Hq]; [done|].
    by apply lookup_lt_is_Some, Ha.
Qed.

Lemma tick_ok now s order : sched_ok s → sched_ok (tick now s order).
Proof.
  intros Hok. unfold tick. destruct (stopped s); [done|]. revert s Hok.
  induction order as [|p order IH]; intros s Hok; cbn; [done|]. by apply IH, dispatch_ok.
Qed.

Lemma finish_ok now s p s' : sched_ok s → runJob_finish off now s p = Some s' → sched_ok s'.
Proof.
  intros [Hw He Hn Hr Ha Hs] H. unfold runJob_finish in H.
  destruct (remove_one p (flight s)) as [fl|] eqn:Ef; cbn in H; [|done].
  destruct (heap s !! p) as [j|] eqn:Ej; cbn in H; [|done]. injection H as <-.
  apply remove_one_Permutation in Ef. rewrite Ef in Hn. apply NoDup_cons in Hn as [Hp Hn].
  split; cbn [wg looping flight exiting heap started]; try done; try lia.
  - rewrite Hw, Ef. cbn [length]. lia.
  - intros q i. unfold set_job. rewrite list_lookup_insert. case_decide as E.
    + destruct E as [-> _]. intros [= <-]. cbn. split; [done|by intros ?%Hp].
    + intros Hq. rewrite (Hr q i Hq), Ef, elem_of_cons. apply lookup_lt_Some in Ej.
      split; [|by right]. intros [->|]; [by destruct E|done].
  - apply is_Some_set. intros q Hq. apply Ha. rewrite Ef. set_solver.
Qed.

Lemma sched_exec_ok s l s' : sched_ok s → exec s l = Some s' → sched_ok s'.
Proof.
  intros Hok H. destruct l; cbn in H.
  - unfold alloc in H. destruct (Running j) eqn:E; [done|]. injection H as <-.
    destruct Hok as [Hw He Hn Hr Ha Hs]. split; cbn; try done.
    + intros q i [Hq|[Hq Hi]]%lookup_app_Some; [by apply Hr|].
      apply list_lookup_singleton_Some in Hi as [Hq0 <-]. rewrite E. split; [done|].
      intros Hin%Ha%lookup_lt_is_Some. lia.
    + intros q Hq. apply lookup_lt_is_Some. rewrite length_app.
      pose proof (proj1 (lookup_lt_is_Some _ _) (Ha q Hq)). lia.
  - unfold switch in H. destruct (heap s !! p) as [j|] eqn:Ej; cbn in H; [|done]. injection H as <-.
    destruct Hok as [Hw He Hn Hr Ha Hs]. split; cbn [wg looping flight exiting heap started]; try done.
    + unfold set_job. by eapply running_set.
    + by apply is_Some_set.
  - unfold Add in H. destruct (heap s !! p) as [j|] eqn:Ej; cbn in H; [|done]. injection H as <-.
    destruct Hok as [Hw He Hn Hr Ha Hs]. split; cbn [wg looping flight exiting heap started]; try done.
    + unfold set_job. by eapply running_set.
    + by apply is_Some_set.
  - injection H as <-. by destruct Hok.
  - injection H as <-. unfold Start. destruct (started s) eqn:E1; [done|]. destruct (stopped s); [done|].
    destruct Hok as [Hw He Hn Hr Ha Hs]. split; cbn; try done.
    destruct (looping s); [by specialize (Hs eq_refl); congruence|lia].
  - injection H as <-. by destruct Hok.
  - case_decide; [|done]. unfold loop_tick in H. destruct (looping s) eqn:El; cbn in H; [|done].
    destruct (stopped s); injection H as <-; [|by apply tick_ok].
    destruct Hok as [Hw He Hn Hr Ha Hs]. split; cbn; try done. rewrite El in Hw. lia.
  - unfold loop_stop in H. destruct (looping s) eqn:El; cbn in H; [|done].
    destruct (stopped s); [|done]. injection H as <-.
    destruct Hok as [Hw He Hn Hr Ha Hs]. split; cbn; try done. rewrite El in Hw. lia.
  - by eapply finish_ok.
  - unfold runJob_done in H. destruct (0 <? exiting s) eqn:E; [|done]. injection H as <-. bools.
    destruct Hok as [Hw He Hn Hr Ha Hs]. split; cbn; try done; lia.
Qed.

Lemma sched_rtc_ok s s' : sched_ok s → rtc step s s' → sched_ok s'.
Proof. intros Hok Hr. induction Hr as [|x y z [l Hl] _ IH]; [done|]. by eapply IH, sched_exec_ok. Qed.

Lemma reachable_ok s : reachable s → sched_ok s.
Proof. intros Hr. refine (sched_rtc_ok _ _ _ Hr). split; cbn; try done; try set_solver. constructor. Qed.

(** ** What a tick dispatches *)

Definition after_tick (now : instant) (j : CronJob) : CronJob :=
  if due now j then with_running j true else j.

Lemma after_tick_idemp now j : after_tick now (after_tick now j) = after_tick now j.
Proof.
  unfold after_tick at 2 3. destruct (due now j) eqn:E; unfold after_tick; [|by rewrite E].
  unfold due. cbn. by rewrite orb_true_r.
Qed.

Lemma dispatch_heap now s q p j :
  heap s !! p = Some j →
  heap (dispatch now s q) !! p = Some (if decide (q = p) then after_tick now j else j).
Proof.
  intros Hp. unfold dispatch, after_tick. destruct (heap s !! q) as [i|] eqn:Eq.
  - case_decide as E; subst.
    + assert (i = j) as -> by congruence. destruct (due now j); [|done]. cbn.
      apply list_lookup_insert_eq. by eapply lookup_lt_Some.
    + destruct (due now i); [|done]. cbn. unfold set_job. by rewrite list_lookup_insert_ne.
  - case_decide; [congruence|done].
Qed.

Lemma tick_heap now s order p j :
  stopped s = false → heap s !! p = Some j →
  heap (tick now s order) !! p = Some (if decide (p ∈ order) then after_tick now j else j).
Proof.
  intros Hs Hp. unfold tick. rewrite Hs. clear Hs. revert s j Hp.
  induction order as [|q order IH]; intros s j Hp; cbn [foldl].
  - by rewrite decide_False by set_solver.
  - rewrite (IH _ _ (dispatch_heap now s q p j Hp)). f_equal.
    repeat case_decide; try set_solver; rewrite ?after_tick_idemp; done.
Qed.

(** ** After [Stop] *)

Lemma stopped_exec s l s' :
  stopped s = true → exec s l = Some s' → stopped s' = true ∧ wg s' ≤ wg s.
Proof.
  intros Hs H. destruct l; cbn in H;
    unfold alloc, switch, Add, loop_tick, loop_stop, runJob_finish, runJob_done, Start, tick in H;
    rewrite ?Hs, ?orb_true_r in H;
    repeat (case_match || (match type of H with context [?o ≫= _] => destruct o; cbn in H end));
    simplify_eq; cbn; split; try done; lia.
Qed.

Lemma stopped_rtc s s' :
  stopped s = true → rtc step s s' → stopped s' = true ∧ wg s' ≤ wg s.
Proof.
  intros Hs Hr. induction Hr as [|x y z [l Hl] _ IH]; [done|].
  destruct (stopped_exec _ _ _ Hs Hl) as [Hy Hw]. destruct (IH Hy). split; [done|lia].
Qed.

Lemma idle_empty s : sched_ok s → wg s ≤ 0 → flight s = [] ∧ looping s = false ∧ wg s = 0.
Proof.
  intros [Hw He _ _ _ _] H0. destruct (looping s), (flight s); cbn [length] in *; try lia.
  split_and!; [done|done|lia].
Qed.

Definition left_to_do (s : Scheduler) : Z :=
  2 * zlen (flight s) + exiting s + (if looping s then 1 else 0).

(** Whatever is still in the wait group can leave it. *)
Lemma stopped_progress s :
  sched_ok s → stopped s = true → 0 < wg s → ∃ s', step s s' ∧ left_to_do s' < left_to_do s.
Proof.
  intros [Hw He Hn Hr Ha Hs0] Hs H0. unfold left_to_do.
  destruct (flight s) as [|p fl] eqn:Ef.
  - destruct (looping s) eqn:El.
    + eexists. split; [exists LLoopStop; cbn; unfold loop_stop; rewrite El, Hs; reflexivity|].
      cbn [flight exiting looping]. rewrite ?Ef. cbn [length]. lia.
    + cbn [length] in Hw. eexists. split.
      { exists LDone. cbn. unfold runJob_done. by rewrite (proj2 (Z.ltb_lt 0 (exiting s))) by lia. }
      cbn [flight exiting looping]. rewrite ?Ef, ?El. cbn [length]. lia.
  - destruct (Ha p) as [j Hj]; [set_solver|]. eexists. split.
    { exists (LFinish 0 p). cbn. unfold runJob_finish. rewrite Ef. cbn. rewrite decide_True by done.
      cbn. by rewrite Hj. }
    cbn [flight exiting looping length]. lia.
Qed.

Lemma stopped_drains s :
  sched_ok s → stopped s = true → ∃ s', rtc step s s' ∧ Stop_returned s' = true.
Proof.
  remember (Z.to_nat (left_to_do s)) as k eqn:Ek. revert s Ek.
  induction k as [k IH] using lt_wf_ind. intros s -> Hok Hs.
  destruct (decide (0 < wg s)) as [Hw|Hw].
  - destruct (stopped_progress s Hok Hs Hw) as (s1 & [l Hl] & Hd).
    pose proof (sched_exec_ok _ _ _ Hok Hl) as Hok1.
    assert (0 ≤ left_to_do s1).
    { unfold left_to_do. pose proof (k_exiting _ Hok1). destruct (looping s1); lia. }
    destruct (IH (Z.to_nat (left_to_do s1)) ltac:(lia) s1 eq_refl Hok1) as (s' & Hr & Hret);
      [by eapply stopped_exec|].
    exists s'. split; [eapply rtc_l; [by exists l|done]|done].
  - exists s. split; [done|]. unfold Stop_returned. rewrite Hs. cbn.
    apply Z.eqb_eq. by apply idle_empty; [|lia].
Qed.

(** A job is registered: some identifier names its record. *)
Definition registered (s : Scheduler) (p : nat) : Prop := ∃ id, jobs s !! id = Some p.

Lemma registered_order s order p : order_ok s order → p ∈ order ↔ registered s p.
Proof.
  intros ->. rewrite list_elem_of_fmap. split.
  - intros ([id q] & -> & Hin%elem_of_map_to_list). by exists id.
  - intros [id Hid%elem_of_map_to_list]. by exists (id, p).
Qed.

Lemma due_spec now s p j : sched_ok s → heap s !! p = Some j →
  due now j = true ↔ Enabled j = true ∧ p ∉ flight s ∧ NextRun j ≤ now.
Proof.
  intros Hok Hp. rewrite <-(k_running _ Hok p j Hp). unfold due.
  destruct (Enabled j), (Running j), (now <? NextRun j) eqn:E; cbn; bools; naive_solver lia.
Qed.

(** C40. In every reachable state of a scheduler that is not stopped, a tick starts a handler for a
    job record exactly when it is registered, enabled, has no handler in flight and its next
    run has come, whatever the iteration order of the map; the records of those jobs are marked
    running, every other record, and every handler in flight, stays as it was, and no record has two
    handlers.  Two records may have the same job: registering a new record under an identifier
    whose old one is still running gives the job a second handler ([readded_job_runs_twice]). *)
Theorem tick_dispatches_exactly_due now s order :
  reachable s → stopped s = false → order_ok s order →
  NoDup (flight (tick now s order)) ∧
  ∀ p j, heap s !! p = Some j →
    let starts := registered s p ∧ Enabled j = true ∧ p ∉ flight s ∧ NextRun j ≤ now in
    (starts → heap (tick now s order) !! p = Some (with_running j true)) ∧
    (¬ starts → heap (tick now s order) !! p = Some j) ∧
    (p ∈ flight (tick now s order) ↔ p ∈ flight s ∨ starts).
Proof.
  intros Hr Hs Ho. apply reachable_ok in Hr as Hok. pose proof (tick_ok now s order Hok) as Hok'.
  split; [apply Hok'|]. intros p j Hp starts. pose proof (tick_heap now s order p j Hs Hp) as Ht.
  assert (starts ↔ p ∈ order ∧ due now j = true) as Hst
    by (by rewrite (registered_order s order p Ho), (due_spec now s p j Hok Hp)).
  assert (Hh : heap (tick now s order) !! p = Some (if decide (p ∈ order ∧ due now j = true) then with_running j true else j)).
  { rewrite Ht. f_equal. unfold after_tick. destruct (due now j); repeat case_decide; naive_solver. }
  rewrite Hst. split_and!; [by intros H; rewrite Hh, decide_True|by intros H; rewrite Hh, decide_False|].
  rewrite <-(k_running _ Hok' _ _ Hh), <-(k_running _ Hok _ _ Hp). case_decide; cbn; naive_solver.
Qed.

(** [Stop] is final: afterwards nothing joins the wait group again, once [Stop]
    has returned no handler and no loop runs in any later state, and it does
    return when the handlers in flight do. *)
Theorem stop_is_final s :
  reachable s → stopped s = true →
  (∀ s', rtc step s s' → stopped s' = true ∧ wg s' ≤ wg s) ∧
  (Stop_returned s = true → ∀ s', rtc step s s' → flight s' = [] ∧ looping s' = false) ∧
  (∃ s', rtc step s s' ∧ Stop_returned s' = true).
Proof.
  intros Hr Hs. apply reachable_ok in Hr as Hok. split_and!.
  - intros s' Hs'. by apply stopped_rtc.
  - unfold Stop_returned. intros [_ H0]%andb_true_iff s' Hs'. bools.
    destruct (stopped_rtc _ _ Hs Hs') as [_ Hw].
    by destruct (idle_empty s' (sched_rtc_ok _ _ Hok Hs')) as (? & ? & _); [lia|].
  - by apply stopped_drains.
Qed.

End Steps.

(** ** Witnesses: a scheduler in UTC with one job due at its first tick *)

Definition nightly : CronJob :=
  {| ID := "backup"; Name := "nightly"; Schedule := "02:30"; Timeout := 0; LastRun := 0;
     NextRun := 0; Running := false; Enabled := false |}.

Definition started_state : Scheduler :=
  {| heap := [ {| ID := "backup"; Name := "nightly"; Schedule := "02:30"; Timeout := 0;
                  LastRun := 0; NextRun := 150 * Minute; Running := false; Enabled := true |} ];
     jobs := {[ "backup" := 0%nat ]}; started := true; stopped := false; wg := 1;
     looping := true; flight := []; exiting := 0 |}.

Definition due_time : instant := 151 * Minute.

Lemma started_reachable : reachable 0 started_state.
Proof.
  eapply rtc_l; [by exists (LAlloc nightly)|].
  eapply rtc_l; [exists (LAdd 0 "" 0%nat); vm_compute; reflexivity|].
  eapply rtc_l; [exists LStart; vm_compute; reflexivity|]. apply rtc_refl.
Qed.

Lemma started_order : order_ok started_state [0%nat].
Proof. unfold order_ok, started_state. cbn [jobs]. by rewrite map_to_list_singleton. Qed.

Lemma tick_dispatches_exactly_due_witness :
  0%nat ∈ flight (tick due_time started_state [0%nat]) ∧ 0%nat ∉ flight (tick 0 started_state [0%nat]).
Proof.
  pose proof (λ t, tick_dispatches_exactly_due 0 t started_state [0%nat] started_reachable eq_refl started_order) as H.
  split.
  - destruct (H due_time) as [_ Hd]. apply (Hd 0%nat _ eq_refl). right.
    split_and!; [by exists "backup"|reflexivity|apply not_elem_of_nil|vm_compute; discriminate].
  - destruct (H 0) as [_ Hd]. intros Hin. apply (Hd 0%nat _ eq_refl) in Hin as [Hin|(_ & _ & _ & Hn)].
    + by apply not_elem_of_nil in Hin.
    + vm_compute in Hn. by apply Hn.
Defined.

(** The job is registered again while its handler runs, and both records are in flight after its next
    run has come. *)
Example readded_job_runs_twice :
  let running := tick due_time started_state [0%nat] in
  ∃ s, alloc running nightly = Some s ∧
    ((λ s, (flight (tick (due_time + Day) s [1%nat]), (λ j, (ID j, Running j)) <$> heap (tick (due_time + Day) s [1%nat])))
       <$> Add 0 due_time "" s 1%nat) =
    Some ([1%nat; 0%nat], [("backup", true); ("backup", true)]).
Proof. eexists. split; [reflexivity|]. vm_compute. reflexivity. Qed.

Lemma stopped_reachable : reachable 0 (Stop (tick due_time started_state [0%nat])).
Proof.
  unfold reachable. etrans; [apply started_reachable|].
  eapply rtc_l; [|eapply rtc_once; by exists LStop].
  exists (LTick due_time [0%nat]). cbn [exec]. by rewrite decide_True by apply started_order.
Qed.

Lemma stop_is_final_witness :
  ∃ s', rtc (step 0) (Stop (tick due_time started_state [0%nat])) s' ∧ Stop_returned s' = true.
Proof.
  exact (proj2 (proj2 (stop_is_final 0 (Stop (tick due_time started_state [0%nat]))
                         stopped_reachable eq_refl))).
Defined.

(** ** Schedules *)

Lemma parseHHMM_range sch total : parseHHMM sch = Ok total → 0 ≤ total < 24 * 60.
Proof.
  unfold parseHHMM. repeat case_match; try done. intros [= <-]. bools. lia.
Qed.

Lemma parseHHMM_colon sch total : parseHHMM sch = Ok total → Contains sch ":" = true.
Proof. unfold parseHHMM, Contains. destruct (Index sch ":"); [|done]. intros _. by apply bool_decide_true. Qed.

Lemma daily_next off now total :
  0 ≤ total < 24 * 60 →
  let next := date_at off now (total `quot` 60) (total `rem` 60) in
  let r := if negb (now <? next) then next + 24 * Hour else next in
  now < r ≤ now + Day ∧ time_of_day off r = total * Minute.
Proof.
  intros Ht next r.
  assert (Hn : next = midnight off now + total * Minute).
  { unfold next, date_at, Hour. pose proof (Z.quot_rem total 60 ltac:(done)). lia. }
  pose proof (midnight_bounds off now) as Hm.
  assert (Hd : 0 ≤ total * Minute < Day) by (unfold Day, Hour, Minute, Second; lia).
  assert (Htod : time_of_day off next = total * Minute) by (rewrite Hn; by apply time_of_day_midnight).
  unfold r. destruct (now <? next) eqn:E; cbn; bools.
  - split; [lia|done].
  - change (24 * Hour) with Day. rewrite time_of_day_next. split; [lia|done].
Qed.

(** The next run of a job: [@every d] is [d] after now; a valid [HH:MM] is the
    first instant strictly after now, at most a day away, at which the local wall
    clock shows that time; anything else falls back to an hour from now. *)
Theorem calc_next_run_spec off now sch :
  let next := calcNextRun off now sch in
  (HasPrefix sch "@every " = true →
     next = now + default Hour (ParseDuration (TrimSpace (TrimPrefix sch "@every ")))) ∧
  (∀ total, HasPrefix sch "@every " = false → parseHHMM sch = Ok total →
     now < next ≤ now + Day ∧ time_of_day off next = total * Minute) ∧
  (HasPrefix sch "@every " = false → is_ok (parseHHMM sch) = false → next = now + Hour).
Proof.
  cbn zeta. unfold calcNextRun. split_and!.
  - intros ->. by destruct (ParseDuration _).
  - intros total -> Hp. rewrite (parseHHMM_colon _ _ Hp), Hp. cbv zeta.
    by apply daily_next, (parseHHMM_range sch).
  - intros -> Hp. destruct (Contains sch ":"); [|done]. by destruct (parseHHMM sch).
Qed.

Lemma calc_next_run_spec_witness :
  let next := calcNextRun 0 0 "02:30" in 0 < next ≤ Day ∧ time_of_day 0 next = 150 * Minute.
Proof. apply (calc_next_run_spec 0 0 "02:30"); vm_compute; reflexivity. Defined.

End Scheduler.
