(* ===== verification/Http.v ===== *)
(** * Http: the parts of an HTTP request the middleware reads *)

From S2P Require Import Prelude GoStrings.

Module Http.

(** Headers are looked up by the names the program uses; [Header.Get] returns the
    first value, the empty string when there is none. *)
Record Request := {
  Method : string;
  Path : string;
  Header : gmap string string;
  Cookies : gmap string string;
  RemoteAddr : string }.

Definition HeaderGet (r : Request) (k : string) : string := default "" (Header r !! k).

(** [r.Cookie(name)], the empty string when there is none. *)
Definition CookieGet (r : Request) (k : string) : string := default "" (Cookies r !! k).

End Http.
