(* ===== verification/KVStore.v ===== *)
(** * KVStore: the SQLite-backed key-value store ([internal/db/kv.go])

    A table of rows keyed by bucket and key, each with its JSON data and its expiry
    in Unix seconds, and a table of known buckets.  The data column is the document
    it holds, [None] for bytes that are not JSON.  Every statement may fail: the
    argument [fails] says which do, and a transaction that does not commit leaves
    the tables as they were. *)

From Stdlib Require Floats.SpecFloat.
From S2P Require Import Prelude GoStrings.
#[local] Open Scope Z_scope.

Module KV.

(** ** JSON documents; [JBase64 b] is a string that is the base64 text of the
    bytes [b], as a [[]byte] is written, [JTime t] one that is the text of an
    instant, as a [time.Time] is written, [JFloat x] the shortest number that reads
    back as the finite float64 [x]. *)

Inductive json :=
| JNull
| JBool (b : bool)
| JNum (z : Z)
| JFloat (x : SpecFloat.spec_float)
| JStr (s : string)
| JBase64 (bytes : string)
| JTime (t : instant)
| JArr (items : list json)
| JObj (fields : list (string * json)).

(** What [encoding/json] does with a type: [unmarshal] fills a destination that
    already has a value, [representable] are the values of the Go type. *)
Class JSON (A : Type) := {
  representable : A → Prop;
  marshal : A → json;
  unmarshal : json → A → option A }.

(** A value written and read back is the same, whatever the destination held. *)
Class JSONLaws (A : Type) `{JSON A} := {
  unmarshal_marshal : ∀ a d : A, representable a → unmarshal (marshal a) d = Some a }.

Fixpoint jfield (k : string) (fs : list (string * json)) : option json :=
  match fs with
  | [] => None
  | (k', v) :: fs => match jfield k fs with
                     | Some v' => Some v'
                     | None => if decide (k' = k) then Some v else None
                     end
  end.

(** An [int] or [int64] field: absent or null keeps the destination's value, a
    number out of range or another type is an error. *)
Definition read_int (k : string) (fs : list (string * json)) (d : Z) : option Z :=
  match jfield k fs with
  | None | Some JNull => Some d
  | Some (JNum z) => if decide (min_int64 ≤ z ≤ max_int64) then Some z else None
  | Some _ => None
  end.

Definition read_str (k : string) (fs : list (string * json)) (d : string) : option string :=
  match jfield k fs with
  | None | Some JNull => Some d
  | Some (JStr s) => Some s
  | Some _ => None
  end.

Definition read_bool (k : string) (fs : list (string * json)) (d : bool) : option bool :=
  match jfield k fs with
  | None | Some JNull => Some d
  | Some (JBool b) => Some b
  | Some _ => None
  end.

(** A [float64] field takes any number. *)
Definition read_float (k : string) (fs : list (string * json)) (d : SpecFloat.spec_float)
  : option SpecFloat.spec_float :=
  match jfield k fs with
  | None | Some JNull => Some d
  | Some (JFloat x) => Some x
  | Some (JNum z) => Some (SpecFloat.binary_normalize 53 1024 z 0 false)
  | Some _ => None
  end.

Definition read_time (k : string) (fs : list (string * json)) (d : instant) : option instant :=
  match jfield k fs with
  | None | Some JNull => Some d
  | Some (JTime t) => Some t
  | Some _ => None
  end.

(** Fields that are there. *)
Lemma read_int_there k fs d z : jfield k fs = Some (JNum z) → in_i64 z → read_int k fs d = Some z.
Proof. unfold read_int. intros -> ?. by rewrite decide_True. Qed.
Lemma read_str_there k fs d s : jfield k fs = Some (JStr s) → read_str k fs d = Some s.
Proof. unfold read_str. by intros ->. Qed.
Lemma read_bool_there k fs d b : jfield k fs = Some (JBool b) → read_bool k fs d = Some b.
Proof. unfold read_bool. by intros ->. Qed.
Lemma read_float_there k fs d x : jfield k fs = Some (JFloat x) → read_float k fs d = Some x.
Proof. unfold read_float. by intros ->. Qed.
Lemma read_time_there k fs d t : jfield k fs = Some (JTime t) → read_time k fs d = Some t.
Proof. unfold read_time. by intros ->. Qed.

(** Reads the fields of a document with literal keys one after the other. *)
Ltac read_fields :=
  repeat first
    [ erewrite read_int_there by first [reflexivity | assumption]; cbn [mbind option_bind]
    | erewrite read_str_there by reflexivity; cbn [mbind option_bind]
    | erewrite read_bool_there by reflexivity; cbn [mbind option_bind]
    | erewrite read_float_there by reflexivity; cbn [mbind option_bind]
    | erewrite read_time_there by reflexivity; cbn [mbind option_bind] ].

(** ** The store *)

Record row := { data : option json; expires_at : Z }.

(** src/internal/db/kv.go:17-20 KVStore *)
Record KVStore := { rows : gmap (string * string) row; buckets : gset string }.

(** src/internal/db/kv.go:22-49 defaultKVBuckets *)
Definition defaultKVBuckets : list string :=
  ["sessions"; "ratelimit"; "buildcache"; "metrics_ring"; "cronjobs"; "app_pins"; "autoscale";
   "basic_auth"; "api_keys"; "deploy_freeze"; "deploy_notify"; "deploy_approval"; "maintenance";
   "app_middleware"; "container_metrics"; "announcements"; "certificates"; "ssh_keys";
   "log_retention"; "event_webhooks"; "webhook_logs"; "webhooks"; "revoked_tokens"; "vault";
   "git_provider_connections"; "build_queue"].

(** The statements of the store, numbered within a batch. *)
Inductive stmt :=
| Schema | DefaultBucket (i : nat) | Backfill
| Begin | PrepareBucket | PrepareRow | InsertBucket (i : nat) | Upsert (i : nat) | Commit
| Select | SelectKeys | SelectBucket | DeleteRow.

#[global] Instance stmt_eq_dec : EqDecision stmt.
Proof. solve_decision. Defined.

Inductive kv_error :=
| ErrKVNotFound
| ErrMarshal
| ErrUnmarshal
| ErrCallbackRequired
| ErrCallback (e : string)
| ErrSQL (s : stmt).

Section Store.
Variable fails : stmt → bool.

Definition sql {A} (s : stmt) (k : result kv_error A) : result kv_error A :=
  if fails s then Err (ErrSQL s) else k.

Definition add_bucket (b : KVStore) (bucket : string) : KVStore :=
  {| rows := rows b; buckets := {[ bucket ]} ∪ buckets b |}.
Definition upsert (b : KVStore) (bucket key : string) (r : row) : KVStore :=
  {| rows := <[(bucket, key) := r]> (rows b); buckets := buckets b |}.

Fixpoint add_defaults (i : nat) (l : list string) (b : KVStore) : KVStore * result kv_error unit :=
  match l with
  | [] => (b, Ok tt)
  | x :: l => if fails (DefaultBucket i) then (b, Err (ErrSQL (DefaultBucket i)))
              else add_defaults (S i) l (add_bucket b x)
  end.

(** These statements are not in a transaction: what ran before a failure stays.
    src/internal/db/kv.go:88-117 KVStore.initSchema *)
Definition initSchema (b : KVStore) : KVStore * result kv_error unit :=
  if fails Schema then (b, Err (ErrSQL Schema))
  else
    match add_defaults 0 defaultKVBuckets b with
    | (b1, Err e) => (b1, Err e)
    | (b1, Ok _) =>
        if fails Backfill then (b1, Err (ErrSQL Backfill))
        else ({| rows := rows b1;
                 buckets := list_to_set (map_to_list (rows b1)).*1.*1 ∪ buckets b1 |}, Ok tt)
    end.

(** The expiry column for a time to live.
    src/internal/db/kv.go:126-129 KVStore.Set.expiresAt *)
Definition expiry (now ttl : Z) : Z := if 0 <? ttl then i64 (now + ttl) else 0.

(** Whether a row may still be read.
    src/internal/db/kv.go:281-283 KVStore.Get.expired *)
Definition expired (now : Z) (r : row) : bool := (0 <? expires_at r) && (expires_at r <=? now).

(** [value] is [None] when it cannot be marshalled.
    src/internal/db/kv.go:120-154 KVStore.Set *)
Definition Set_ (now : Z) (b : KVStore) (bucket key : string) (value : option json) (ttl : Z)
  : KVStore * result kv_error unit :=
  match
    match value with
    | None => Err ErrMarshal
    | Some d =>
        sql Begin (sql (InsertBucket 0) (sql (Upsert 0) (sql Commit
          (Ok (upsert (add_bucket b bucket) bucket key
                 {| data := Some d; expires_at := expiry now ttl |})))))
    end
  with
  | Ok b' => (b', Ok tt)
  | Err e => (b, Err e)
  end.

(** src/internal/core/interfaces.go:392-397 KVBatchItem *)
Record KVBatchItem := { iBucket : string; iKey : string; iValue : option json; iTTL : Z }.

(** The loop of [BatchSet], on the transaction's copy of the tables.
    src/internal/db/kv.go:186-202 KVStore.BatchSet.loop *)
Fixpoint batch_items (now : Z) (i : nat) (items : list KVBatchItem) (b : KVStore)
  : result kv_error KVStore :=
  match items with
  | [] => Ok b
  | it :: items =>
      match iValue it with
      | None => Err ErrMarshal
      | Some d =>
          sql (InsertBucket i) (sql (Upsert i)
            (batch_items now (S i) items
               (upsert (add_bucket b (iBucket it)) (iBucket it) (iKey it)
                  {| data := Some d; expires_at := expiry now (iTTL it) |})))
      end
  end.

(** src/internal/db/kv.go:157-208 KVStore.BatchSet *)
Definition BatchSet (now : Z) (b : KVStore) (items : list KVBatchItem)
  : KVStore * result kv_error unit :=
  match items with
  | [] => (b, Ok tt)
  | _ =>
      match sql Begin (sql PrepareBucket (sql PrepareRow
              (b' ←! batch_items now 0 items b; sql Commit (Ok b')))) with
      | Ok b' => (b', Ok tt)
      | Err e => (b, Err e)
      end
  end.

(** src/internal/db/kv.go:271-288 KVStore.Get *)
Definition Get {A} `{JSON A} (now : Z) (b : KVStore) (bucket key : string) (dest : A)
  : result kv_error A :=
  sql Select
    (match rows b !! (bucket, key) with
     | None => Err ErrKVNotFound
     | Some r =>
         if expired now r then Err ErrKVNotFound
         else match data r ≫= λ d, unmarshal d dest with
              | Some a => Ok a
              | None => Err ErrUnmarshal
              end
     end).

(** The callback sees whether the key exists and updates the destination.
    src/internal/db/kv.go:211-268 KVStore.Mutate *)
Definition Mutate {A} `{JSON A} (now : Z) (b : KVStore) (bucket key : string) (dest : A) (ttl : Z)
    (mutate : option (bool → A → result string A)) : KVStore * result kv_error A :=
  match mutate with
  | None => (b, Err ErrCallbackRequired)
  | Some f =>
      let loaded : result kv_error (bool * A) :=
        sql Select
          (match rows b !! (bucket, key) with
           | None => Ok (false, dest)
           | Some r =>
               if (expires_at r =? 0) || (now <? expires_at r) then
                 match data r ≫= λ d, unmarshal d dest with
                 | Some a => Ok (true, a)
                 | None => Err ErrUnmarshal
                 end
               else Ok (false, dest)
           end) in
      match
        sql Begin
          (ex ←! loaded;
           match f ex.1 ex.2 with
           | Err e => Err (ErrCallback e)
           | Ok a =>
               sql (InsertBucket 0) (sql (Upsert 0) (sql Commit
                 (Ok (upsert (add_bucket b bucket) bucket key
                        {| data := Some (marshal a); expires_at := expiry now ttl |}, a))))
           end)
      with
      | Ok (b', a) => (b', Ok a)
      | Err e => (b, Err e)
      end
  end.

(** src/internal/db/kv.go:340-350 KVStore.bucketExists *)
Definition bucketExists (b : KVStore) (bucket : string) : result kv_error bool :=
  sql SelectBucket (Ok (bool_decide (bucket ∈ buckets b))).

(** src/internal/db/kv.go:291-303 KVStore.Delete *)
Definition Delete (b : KVStore) (bucket key : string) : KVStore * result kv_error unit :=
  match
    ex ←! bucketExists b bucket;
    if negb ex then Err ErrKVNotFound else sql DeleteRow (Ok tt)
  with
  | Ok _ => ({| rows := delete (bucket, key) (rows b); buckets := buckets b |}, Ok tt)
  | Err e => (b, Err e)
  end.

(** Keys of one bucket that are not expired and hold valid JSON, in table order.
    src/internal/db/kv.go:306-338 KVStore.List *)
Definition List_ (now : Z) (b : KVStore) (bucket : string) : result kv_error (list string) :=
  sql SelectKeys
    (let keys := omap (λ kr : (string * string) * row,
         if decide (kr.1.1 = bucket ∧ (expires_at kr.2 = 0 ∨ now < expires_at kr.2)
                    ∧ is_Some (data kr.2)) then Some kr.1.2 else None)
       (map_to_list (rows b)) in
     match keys with
     | [] => ex ←! bucketExists b bucket; if negb ex then Err ErrKVNotFound else Ok []
     | _ => Ok keys
     end).

End Store.

Definition no_fault : stmt → bool := λ _, false.

(** ** The interface the middleware uses

    Reads and writes of one type of value, times in Unix seconds. *)
Class KVStorer (S A : Type) := {
  kv_Get : Z → S → string → string → A → result kv_error A;
  kv_Set : Z → S → string → string → A → Z → S * result kv_error unit }.

(** What a write promises to later reads: until its time to live is over the key
    reads as the value, no other value is ever read, and other keys are unchanged. *)
Class KVLaws (S A : Type) `{JSON A, KVStorer S A} := {
  kv_get_set_live : ∀ now t s b k (v d : A) ttl,
    0 ≤ now → now + ttl ≤ max_int64 → representable v → ttl ≤ 0 ∨ t < now + ttl →
    kv_Get t (kv_Set now s b k v ttl).1 b k d = Ok v;
  kv_get_set_only : ∀ now t s b k (v v' d : A) ttl,
    representable v → kv_Get t (kv_Set now s b k v ttl).1 b k d = Ok v' → v' = v;
  kv_get_set_other : ∀ now t s b b' k k' (v d : A) ttl,
    (b', k') ≠ (b, k) → kv_Get t (kv_Set now s b k v ttl).1 b' k' d = kv_Get t s b' k' d }.

(** ** What the operations write *)

(** [Set] either fails and changes nothing or writes exactly the one row. *)
Lemma Set_spec fails now b bucket key value ttl b' r :
  Set_ fails now b bucket key value ttl = (b', r) →
  (b' = b ∧ is_ok r = false) ∨
  (∃ d, value = Some d ∧ r = Ok tt ∧
        b' = upsert (add_bucket b bucket) bucket key {| data := Some d; expires_at := expiry now ttl |}).
Proof.
  unfold Set_, sql. repeat case_match; intros; simplify_eq; eauto 10.
Qed.

Lemma Get_upsert {A} `{JSON A} fails now b bucket key d e k' (dest : A) :
  fails Select = false →
  Get fails now (upsert b bucket key {| data := Some d; expires_at := e |}) bucket k' dest =
    if decide (k' = key)
    then if (0 <? e) && (e <=? now) then Err ErrKVNotFound
         else match unmarshal d dest with Some a => Ok a | None => Err ErrUnmarshal end
    else Get fails now b bucket k' dest.
Proof.
  intros Hf. unfold Get, sql. rewrite Hf. unfold upsert. cbn [rows]. rewrite lookup_insert.
  repeat case_decide; simplify_eq; done.
Qed.

#[global] Instance kvstore_storer {A} `{JSON A} : KVStorer KVStore A := {|
  kv_Get := λ now s b k d, Get no_fault now s b k d;
  kv_Set := λ now s b k v ttl, Set_ no_fault now s b k (Some (marshal v)) ttl |}.

(** The SQLite store keeps the interface's promises. *)
#[global] Instance kvstore_laws {A} `{JSONLaws A} : KVLaws KVStore A.
Proof.
  split; intros; unfold kv_Get, kv_Set, kvstore_storer, Set_, sql in *; cbn [fst no_fault] in *.
  - rewrite Get_upsert, decide_True, unmarshal_marshal by done. unfold expiry.
    destruct (0 <? ttl) eqn:E; cbn; [|done]. bools. wrap_id.
    rewrite (proj2 (Z.leb_gt (now + ttl) t)) by lia. by rewrite andb_false_r.
  - rewrite Get_upsert, decide_True, unmarshal_marshal in * by done. case_match; congruence.
  - unfold Get, sql, upsert, add_bucket. cbn [rows no_fault]. by rewrite lookup_insert_ne by congruence.
Qed.

(** The row a batch leaves under a key: that of the last item for it. *)
Fixpoint batch_row (now : Z) (items : list KVBatchItem) (k : string * string) (old : option row)
  : option row :=
  match items with
  | [] => old
  | it :: items =>
      batch_row now items k
        (if decide ((iBucket it, iKey it) = k)
         then Some {| data := iValue it; expires_at := expiry now (iTTL it) |} else old)
  end.

Lemma batch_items_rows fails now i items b b' k :
  batch_items fails now i items b = Ok b' →
  rows b' !! k = batch_row now items k (rows b !! k).
Proof.
  revert i b. induction items as [|it items IH]; intros i b; cbn.
  - by intros [= <-].
  - destruct (iValue it) as [d|] eqn:Ed; [|done]. unfold sql.
    destruct (fails (InsertBucket i)), (fails (Upsert i)); try done.
    intros Hb. rewrite (IH _ _ Hb). unfold upsert, add_bucket. cbn [rows].
    by rewrite lookup_insert.
Qed.

Lemma batch_items_buckets fails now i items b b' :
  batch_items fails now i items b = Ok b' →
  buckets b' = buckets b ∪ list_to_set (iBucket <$> items).
Proof.
  revert i b. induction items as [|it items IH]; intros i b; cbn.
  - intros [= <-]. set_solver.
  - destruct (iValue it); [|done]. unfold sql. repeat case_match; try done.
    intros Hb. rewrite (IH _ _ Hb). cbn. set_solver.
Qed.

(** ** Properties *)

(** Round trip with expiry: a value stored successfully is read back exactly,
    by [Get] and in any later second before its time to live is over, and is not
    found from that second on; a time to live of zero or less never expires.
    Every other key of the bucket reads as before. *)
Theorem kv_get_after_set {A} `{JSONLaws A} now later b bucket key (v dest : A) ttl b' :
  0 ≤ now → now + ttl ≤ max_int64 → representable v →
  Set_ no_fault now b bucket key (Some (marshal v)) ttl = (b', Ok tt) →
  Get no_fault later b' bucket key dest =
    (if (0 <? ttl) && (now + ttl <=? later) then Err ErrKVNotFound else Ok v) ∧
  ∀ k', k' ≠ key → Get no_fault later b' bucket k' dest = Get no_fault later b bucket k' dest.
Proof.
  intros Hnow Hmax Hrep Hset. apply Set_spec in Hset as [[_ ?]|(d & [= <-] & _ & ->)]; [done|].
  assert (He : expiry now ttl = if 0 <? ttl then now + ttl else 0).
  { unfold expiry. destruct (0 <? ttl) eqn:E; [|done]. bools. by wrap_id. }
  split.
  - rewrite Get_upsert, decide_True, He, unmarshal_marshal by done.
    destruct (0 <? ttl) eqn:E; cbn; [|done]. bools.
    by rewrite (proj2 (Z.ltb_lt 0 (now + ttl))) by lia.
  - intros k' Hk. by rewrite Get_upsert, decide_False by done.
Qed.

#[global] Instance json_str : JSON string := {|
  representable := λ _, True;
  marshal := JStr;
  unmarshal := λ d v, match d with JStr s => Some s | JNull => Some v | _ => None end |}.
#[global] Instance json_str_laws : JSONLaws string.
Proof. by split. Qed.

Definition empty_store : KVStore := {| rows := ∅; buckets := ∅ |}.
Definition session_store : KVStore :=
  (Set_ no_fault 1000 empty_store "sessions" "s1" (Some (marshal "alice")) 60).1.

Lemma kv_get_after_set_witness :
  Get no_fault 1059 session_store "sessions" "s1" "" = Ok "alice" ∧
  Get no_fault 1060 session_store "sessions" "s1" "" = Err ErrKVNotFound.
Proof.
  assert (Hmax : 1000 + 60 ≤ max_int64) by (vm_compute; discriminate).
  split.
  - exact (proj1 (kv_get_after_set 1000 1059 empty_store "sessions" "s1" "alice" "" 60 session_store
                    ltac:(lia) Hmax I eq_refl)).
  - exact (proj1 (kv_get_after_set 1000 1060 empty_store "sessions" "s1" "alice" "" 60 session_store
                    ltac:(lia) Hmax I eq_refl)).
Defined.

Lemma BatchSet_spec fails now b items b' r :
  BatchSet fails now b items = (b', r) →
  (is_ok r = false → b' = b) ∧
  (is_ok r = true →
     (∀ k, rows b' !! k = batch_row now items k (rows b !! k)) ∧
     buckets b' = buckets b ∪ list_to_set (iBucket <$> items)).
Proof.
  unfold BatchSet. destruct items as [|it items].
  { intros [= <- <-]. split; [done|]. intros _. cbn. split; [done|set_solver]. }
  remember (it :: items) as l. destruct (batch_items fails now 0 l b) as [b1|e] eqn:E;
    unfold sql; repeat case_match; intros; simplify_eq; split; try done.
  intros _. split; [intros k; by eapply batch_items_rows|by eapply batch_items_buckets].
Qed.

(** A batch is atomic: whichever statement fails, or if an item cannot be
    marshalled, nothing changes; when it succeeds every key holds the value and
    expiry of the last item written to it and no other row changes. *)
Theorem batch_set_atomic fails now b items b' r :
  BatchSet fails now b items = (b', r) →
  (is_ok r = false → b' = b) ∧
  (is_ok r = true →
     (∀ k, rows b' !! k = batch_row now items k (rows b !! k)) ∧
     buckets b' = buckets b ∪ list_to_set (iBucket <$> items)).
Proof. apply BatchSet_spec. Qed.

Definition two_writes : list KVBatchItem :=
  [ {| iBucket := "b"; iKey := "k"; iValue := Some (JNum 1); iTTL := 0 |};
    {| iBucket := "b"; iKey := "k"; iValue := Some (JNum 2); iTTL := 0 |} ].

Lemma batch_set_atomic_witness :
  (BatchSet (λ s, bool_decide (s = Upsert 1)) 0 empty_store two_writes).1 = empty_store.
Proof.
  apply (batch_set_atomic (λ s, bool_decide (s = Upsert 1)) 0 empty_store two_writes _
           (Err (ErrSQL (Upsert 1)))); vm_compute; reflexivity.
Defined.

End KV.
