(* ===== verification/RateLimit.v ===== *)
(** * RateLimit: the request limiters ([internal/api/middleware])

    Three limiters count requests in fixed windows: per client on the
    authentication endpoints and per tenant with the counters in the key-value
    store, and per client for every endpoint with the counters in memory.  The
    store is used through its interface.  Each one is related to one abstract
    machine, whose bound on the requests it lets through they inherit. *)

From S2P Require Import Prelude GoStrings GoNet GoTime Http KVStore.
#[local] Open Scope Z_scope.

Module RateLimit.
Import Http GoTime KV.

(** ** Who the client is *)

(** src/internal/api/middleware/ratelimit.go:86-100 validateIP *)
Definition validateIP (raw : string) : string :=
  if decide (raw = "") then ""
  else match GoNet.ParseIP (TrimSpace raw) with
       | None => ""
       | Some ip =>
           if GoNet.IsPrivate ip || GoNet.IsLoopback ip || GoNet.IsLinkLocalUnicast ip then ""
           else GoNet.IP_String ip
       end.

(** src/internal/api/middleware/ratelimit.go:104-113 validateIPPermissive *)
Definition validateIPPermissive (raw : string) : string :=
  if decide (raw = "") then ""
  else match GoNet.ParseIP (TrimSpace raw) with
       | None => ""
       | Some ip => GoNet.IP_String ip
       end.

(** src/internal/api/middleware/ratelimit.go:116-124 stripPort *)
Definition stripPort (addr : string) : string :=
  match last_index ":"%char (bytes addr) with
  | Some i =>
      if negb (Contains addr "]") && Nat.eqb (count_byte ":"%char (bytes addr)) 1
      then str (take i (bytes addr)) else addr
  | None => addr
  end.

(** src/internal/api/middleware/ratelimit.go:57-82 safeClientIP *)
Definition safeClientIP (r : Request) (trustXFF : bool) : string :=
  let ip := HeaderGet r "X-Real-IP" in
  let real := if decide (ip = "") then "" else validateIPPermissive ip in
  if decide (real = "") then
    let xff := HeaderGet r "X-Forwarded-For" in
    let fwd :=
      if trustXFF then
        if decide (xff = "") then ""
        else validateIP (TrimSpace (str (before_first ","%char (bytes xff))))
      else "" in
    if decide (fwd = "") then stripPort (RemoteAddr r) else fwd
  else real.

(** ** Counters *)

(** src/internal/api/middleware/ratelimit.go:126-129 authRateLimitEntry *)
Record authRateLimitEntry := { Count : Z; ResetAt : Z }.

#[global] Instance entry_json : JSON authRateLimitEntry := {|
  representable := λ e, in_i64 (Count e) ∧ in_i64 (ResetAt e);
  marshal := λ e, JObj [("c", JNum (Count e)); ("r", JNum (ResetAt e))];
  unmarshal := λ j d,
    match j with
    | JObj fs => c ← read_int "c" fs (Count d); r ← read_int "r" fs (ResetAt d);
                 Some {| Count := c; ResetAt := r |}
    | JNull => Some d
    | _ => None
    end |}.

#[global] Instance entry_json_laws : JSONLaws authRateLimitEntry.
Proof.
  split. intros [c r] d [Hc Hr]. unfold in_i64 in *. cbn in Hc, Hr.
  change (unmarshal (marshal {| Count := c; ResetAt := r |}) d) with
    (c' ← (if decide (min_int64 ≤ c ≤ max_int64) then Some c else None);
     r' ← (if decide (min_int64 ≤ r ≤ max_int64) then Some r else None);
     Some {| Count := c'; ResetAt := r' |}).
  by rewrite !decide_True by done.
Qed.

Definition zero_entry : authRateLimitEntry := {| Count := 0; ResetAt := 0 |}.

(** What a limiter does with a request: the handler runs, or a 429 with its
    [Retry-After]. *)
Inductive verdict := Served | TooMany (retryAfter : Z).

Definition served (v : verdict) : bool := match v with Served => true | TooMany _ => false end.

(** The read, test and write of a counter in the store.
    src/internal/api/middleware/ratelimit.go:146-184 AuthRateLimiter.Wrap.window *)
Definition kv_window {S} `{KVStorer S authRateLimitEntry} (rate w now : Z) (s : S) (key : string)
  : S * verdict :=
  let fresh := ((kv_Set now s "ratelimit" key {| Count := 1; ResetAt := i64 (now + w) |} w).1, Served) in
  match kv_Get now s "ratelimit" key zero_entry with
  | Err _ => fresh
  | Ok e =>
      if ResetAt e <=? now then fresh
      else if rate <=? Count e then (s, TooMany (i64 (ResetAt e - now)))
      else ((kv_Set now s "ratelimit" key
               {| Count := i64 (Count e + 1); ResetAt := ResetAt e |} w).1, Served)
  end.

(** src/internal/api/middleware/ratelimit.go:18-25 AuthRateLimiter *)
Record AuthRateLimiter := { rate : Z; window : duration; prefix : string }.

Definition auth_key (rl : AuthRateLimiter) (ip : string) : string :=
  "auth_rl:" +:+ prefix rl +:+ ":" +:+ ip.

(** [now] is the Unix time.
    src/internal/api/middleware/ratelimit.go:133-188 AuthRateLimiter.Wrap *)
Definition Wrap {S} `{KVStorer S authRateLimitEntry} (rl : AuthRateLimiter) (now : Z) (s : S)
    (r : Request) : S * verdict :=
  kv_window (rate rl) (seconds_int (window rl)) now s (auth_key rl (safeClientIP r false)).

(** ** Per tenant *)

(** src/internal/api/middleware/tenant_ratelimit.go:16-19 tenantRateLimitConfig *)
Record tenantRateLimitConfig := { RequestsPerMinute : Z; BurstSize : Z }.

(** src/internal/api/middleware/tenant_ratelimit.go:25-31 TenantRateLimiter *)
Record TenantRateLimiter := { defaultRate : Z; defaultWindow : duration }.

(** [claims] is the tenant of the authenticated request, if there is one.
    src/internal/api/middleware/tenant_ratelimit.go:66-141 TenantRateLimiter.Middleware *)
Definition TenantMiddleware {S} `{KVStorer S tenantRateLimitConfig, KVStorer S authRateLimitEntry}
    (trl : TenantRateLimiter) (now : Z) (s : S) (claims : option string) : S * verdict :=
  match claims with
  | None | Some "" => (s, Served)
  | Some tenantID =>
      let rt :=
        match kv_Get now s "tenant_ratelimit" tenantID {| RequestsPerMinute := 0; BurstSize := 0 |} with
        | Ok cfg => if 0 <? RequestsPerMinute cfg then RequestsPerMinute cfg else defaultRate trl
        | Err _ => defaultRate trl
        end in
      if rt <=? 0 then (s, Served)
      else kv_window rt (seconds_int (defaultWindow trl)) now s ("trl:" +:+ tenantID)
  end.

(** ** In memory *)

(** src/internal/api/middleware/global_ratelimit.go:68-71 rateLimitWindow *)
Record rateLimitWindow := { count : Z; resetAt : instant }.

(** src/internal/api/middleware/global_ratelimit.go:40-66 GlobalRateLimiter *)
Record GlobalRateLimiter := {
  g_rate : Z; g_window : duration; clients : gmap string rateLimitWindow; allowlist : list string }.

(** src/internal/api/middleware/global_ratelimit.go:86-104 NewGlobalRateLimiterWithLogger *)
Definition NewGlobalRateLimiter (rt : Z) (w : duration) : GlobalRateLimiter :=
  {| g_rate := rt; g_window := w; clients := ∅; allowlist := [] |}.

(** src/internal/api/middleware/global_ratelimit.go:113-121 GlobalRateLimiter.SetRateLimitedPrefixes *)
Definition SetRateLimitedPrefixes (rl : GlobalRateLimiter) (prefixes : list string) : GlobalRateLimiter :=
  {| g_rate := g_rate rl; g_window := g_window rl; clients := clients rl; allowlist := prefixes |}.

(** src/internal/api/middleware/global_ratelimit.go:125-135 GlobalRateLimiter.shouldRateLimit *)
Definition shouldRateLimit (rl : GlobalRateLimiter) (path : string) : bool :=
  match allowlist rl with
  | [] => true
  | l => existsb (λ p, HasPrefix path p) l
  end.

Definition set_client (rl : GlobalRateLimiter) (ip : string) (e : rateLimitWindow) : GlobalRateLimiter :=
  {| g_rate := g_rate rl; g_window := g_window rl; clients := <[ip := e]> (clients rl);
     allowlist := allowlist rl |}.

(** [time.Until] of the reset is read at the same instant [now].
    src/internal/api/middleware/global_ratelimit.go:138-182 GlobalRateLimiter.Middleware *)
Definition GlobalMiddleware (rl : GlobalRateLimiter) (now : instant) (r : Request)
  : GlobalRateLimiter * verdict :=
  if g_rate rl <=? 0 then (rl, Served)
  else if negb (shouldRateLimit rl (Path r)) then (rl, Served)
  else
    let ip := safeClientIP r false in
    let fresh := (set_client rl ip {| count := 1; resetAt := now + g_window rl |}, Served) in
    match clients rl !! ip with
    | None => fresh
    | Some e =>
        if resetAt e <? now then fresh
        else if g_rate rl <=? count e then
          (rl, TooMany (i64 (seconds_int (time_sub (resetAt e) now) + 1)))
        else (set_client rl ip {| count := i64 (count e + 1); resetAt := resetAt e |}, Served)
    end.

(** One pass of the cleanup goroutine.
    src/internal/api/middleware/global_ratelimit.go:220-250 GlobalRateLimiter.cleanup *)
Definition cleanup (rl : GlobalRateLimiter) (now : instant) : GlobalRateLimiter :=
  {| g_rate := g_rate rl; g_window := g_window rl;
     clients := filter (λ ie, ¬ (resetAt ie.2 < now)) (clients rl); allowlist := allowlist rl |}.

(** src/internal/api/middleware/global_ratelimit.go:197-205 GlobalRateLimiter.Stats *)
Definition Stats (rl : GlobalRateLimiter) : Z * Z := (g_rate rl, Z.of_nat (size (clients rl))).

(** ** The abstract limiter

    One counter and the time it is reset.  [over] is the limiter's test that the
    window has ended: at its reset time, or only after it. *)

Definition window_step (over : Z → Z → bool) (rt w now : Z) (e : option authRateLimitEntry)
  : option authRateLimitEntry * verdict :=
  let fresh := (Some {| Count := 1; ResetAt := now + w |}, Served) in
  match e with
  | None => fresh
  | Some e =>
      if over (ResetAt e) now then fresh
      else if rt <=? Count e then (Some e, TooMany (ResetAt e - now))
      else (Some {| Count := Count e + 1; ResetAt := ResetAt e |}, Served)
  end.

(** A window has certainly ended [w] after its start, and not before its reset. *)
Definition over_ok (over : Z → Z → bool) : Prop :=
  ∀ reset now, over reset now = true → reset ≤ now.

(** Requests of one client that arrived in [T, T + w) and were served. *)
Definition in_window (T w : Z) (tv : Z * verdict) : Z :=
  if (T <=? tv.1) && (tv.1 <? T + w) && served tv.2 then 1 else 0.

Definition budget (rt : Z) : Z := Z.max 1 rt.

(** The requests counted in [T, T + w) so far are those of the current window if
    it began before [T], and at most one full window more otherwise. *)
Definition count_inv (rt w T : Z) (e : option authRateLimitEntry) (n : Z) : Prop :=
  match e with
  | None => n ≤ 0
  | Some e => 1 ≤ Count e ≤ budget rt ∧
              n ≤ (if ResetAt e - w <? T then Count e else budget rt + Count e)
  end.

Lemma window_step_count over rt w T now e n e' v :
  over_ok over → 0 < w → now < T + w → (now < T → n ≤ 0) → count_inv rt w T e n →
  window_step over rt w now e = (e', v) →
  count_inv rt w T e' (n + in_window T w (now, v)).
Proof.
  intros Ho Hw Hnow Hn Hinv H. unfold window_step, in_window, count_inv, budget in *. cbn [fst snd].
  destruct e as [[c reset]|]; cbn [Count ResetAt] in *.
  - destruct (over reset now) eqn:Eo; [apply Ho in Eo|destruct (rt <=? c) eqn:Ec];
      injection H as <- <-; cbn [Count ResetAt served]; bools;
      split_ifs; bools; lia.
  - injection H as <- <-. cbn [Count ResetAt served]. split_ifs; bools; lia.
Qed.

Lemma count_inv_bound rt w T e n : count_inv rt w T e n → n ≤ 2 * budget rt.
Proof. unfold count_inv, budget. destruct e; [|lia]. split_ifs; lia. Qed.

Fixpoint window_run (over : Z → Z → bool) (rt w : Z) (e : option authRateLimitEntry) (ts : list Z)
  : list (Z * verdict) :=
  match ts with
  | [] => []
  | t :: ts => let '(e', v) := window_step over rt w t e in (t, v) :: window_run over rt w e' ts
  end.

Lemma window_run_late over rt w T e ts :
  (∀ t, t ∈ ts → T + w ≤ t) → zsum (in_window T w) (window_run over rt w e ts) = 0.
Proof.
  revert e. induction ts as [|t ts IH]; intros e Ht; [done|]. cbn [window_run].
  destruct (window_step over rt w t e) as [e' v]. rewrite zsum_cons, IH by set_solver.
  specialize (Ht t ltac:(set_solver)). unfold in_window. cbn [fst snd]. split_ifs; bools; lia.
Qed.

Lemma window_run_count over rt w T e n ts :
  over_ok over → 0 < w → StronglySorted Z.le ts → (∀ t, t ∈ ts → t < T → n ≤ 0) →
  count_inv rt w T e n →
  n + zsum (in_window T w) (window_run over rt w e ts) ≤ 2 * budget rt.
Proof.
  intros Ho Hw. revert e n. induction ts as [|t ts IH]; intros e n Hs Hn Hinv.
  { cbn. apply count_inv_bound in Hinv. lia. }
  apply StronglySorted_inv in Hs as [Hs Hle]. rewrite Forall_forall in Hle.
  destruct (decide (t < T + w)) as [Hlt|Hge].
  - cbn [window_run]. destruct (window_step over rt w t e) as [e' v] eqn:E.
    rewrite zsum_cons. pose proof (window_step_count over rt w T t e n e' v Ho Hw Hlt
      ltac:(intros; apply (Hn t); [set_solver|done]) Hinv E) as Hinv'.
    rewrite Z.add_assoc. apply IH; [done| |done].
    intros t' Ht' HT. specialize (Hle t' Ht'). specialize (Hn t ltac:(set_solver) ltac:(lia)).
    unfold in_window. cbn [fst snd]. split_ifs; bools; lia.
  - rewrite window_run_late; [apply count_inv_bound in Hinv; lia|].
    intros t' [->|Ht']%elem_of_cons; [lia|]. specialize (Hle t' Ht'). lia.
Qed.

Lemma window_run_bound over rt w T ts :
  over_ok over → 0 < w → StronglySorted Z.le ts →
  zsum (in_window T w) (window_run over rt w None ts) ≤ 2 * budget rt.
Proof.
  intros Ho Hw Hs. pose proof (window_run_count over rt w T None 0 ts Ho Hw Hs) as H.
  cbn [count_inv] in H. specialize (H ltac:(lia) ltac:(lia)). lia.
Qed.

(** ** The limiter of the authentication endpoints *)

Definition at_reset (reset now : Z) : bool := reset <=? now.

Lemma at_reset_ok : over_ok at_reset.
Proof. intros reset now H. unfold at_reset in H. by bools. Qed.

Section Auth.
Context {S : Type} `{!KVStorer S authRateLimitEntry, !KVLaws S authRateLimitEntry}.

(** The stored counter is the abstract one: readable until its window ends, and
    nothing else is ever read. *)
Definition stored (rt w last : Z) (s : S) (key : string) (e : option authRateLimitEntry) : Prop :=
  match e with
  | None => ∀ t, is_ok (kv_Get t s "ratelimit" key zero_entry) = false
  | Some e =>
      1 ≤ Count e ≤ budget rt ∧ 0 ≤ ResetAt e ≤ last + w ∧
      (∀ t, t < ResetAt e → kv_Get t s "ratelimit" key zero_entry = Ok e) ∧
      (∀ t e', kv_Get t s "ratelimit" key zero_entry = Ok e' → e' = e)
  end.

Lemma stored_mono rt w last last' s key e :
  last ≤ last' → stored rt w last s key e → stored rt w last' s key e.
Proof. unfold stored. destruct e; [|done]. intros ? (? & ? & ? & ?). split_and!; try done; lia. Qed.

(** After writing a counter that is still readable until its reset. *)
Lemma stored_set rt w now s key e :
  in_i64 rt → 0 < w → 0 ≤ now → now + w ≤ max_int64 →
  1 ≤ Count e ≤ budget rt → 0 ≤ ResetAt e ≤ now + w →
  stored rt w now (kv_Set now s "ratelimit" key e w).1 key (Some e).
Proof.
  intros Hrt Hw Hn Hm Hc Hr. unfold in_i64, budget in *.
  assert (Hrep : representable e).
  { change (in_i64 (Count e) ∧ in_i64 (ResetAt e)). unfold in_i64, min_int64, max_int64 in *. lia. }
  cbn [stored]. unfold budget. split_and!; try lia.
  - intros t Ht. apply kv_get_set_live; [done|done|done|right; lia].
  - intros t e' He. by eapply (kv_get_set_only (S := S)).
Qed.

Lemma stored_set_other rt w last now s key key' e e' ttl :
  key' ≠ key → stored rt w last s key e →
  stored rt w last (kv_Set now s "ratelimit" key' e' ttl).1 key e.
Proof.
  intros Hk. assert (Hg : ∀ t, kv_Get t (kv_Set now s "ratelimit" key' e' ttl).1 "ratelimit" key zero_entry
      = kv_Get t s "ratelimit" key zero_entry).
  { intros t. apply kv_get_set_other. congruence. }
  unfold stored. destruct e; intros; setoid_rewrite Hg; done.
Qed.

Lemma kv_window_simulates rt w last now s key e s' v :
  in_i64 rt → 0 < w → 0 ≤ now → last ≤ now → now + w ≤ max_int64 →
  stored rt w last s key e → kv_window rt w now s key = (s', v) →
  ∃ e', window_step at_reset rt w now e = (e', v) ∧ stored rt w now s' key e'.
Proof.
  intros Hrt Hw Hn Hl Hm Hst Hk. unfold kv_window in Hk.
  assert (Hi : i64 (now + w) = now + w) by (apply i64_id; unfold in_i64, min_int64; lia).
  rewrite Hi in Hk.
  assert (Hfresh : stored rt w now (kv_Set now s "ratelimit" key
      {| Count := 1; ResetAt := now + w |} w).1 key (Some {| Count := 1; ResetAt := now + w |})).
  { apply stored_set; cbn; try done; unfold budget; lia. }
  destruct e as [e|]; cbn [stored] in Hst.
  - destruct Hst as (Hc & Hr & Hlive & Honly).
    destruct (kv_Get now s "ratelimit" key zero_entry) as [e1|] eqn:Eg.
    + apply Honly in Eg as ->. unfold window_step, at_reset. destruct (ResetAt e <=? now) eqn:Er.
      { injection Hk as <- <-. eauto. }
      bools. destruct (rt <=? Count e) eqn:Ec; injection Hk as <- <-; bools.
      * rewrite i64_id by (unfold in_i64, min_int64; lia). eexists. split; [done|].
        cbn [stored]. split_and!; try done; lia.
      * assert (Hci : i64 (Count e + 1) = Count e + 1).
        { apply i64_id. unfold in_i64, min_int64 in *. lia. }
        rewrite Hci. eexists. split; [done|]. apply stored_set; cbn; try done; unfold budget in *; lia.
    + injection Hk as <- <-. unfold window_step, at_reset.
      destruct (decide (now < ResetAt e)) as [Hlt|Hge]; [by rewrite (Hlive now Hlt) in Eg|].
      rewrite (proj2 (Z.leb_le _ _)) by lia. eauto.
  - specialize (Hst now). destruct (kv_Get now s "ratelimit" key zero_entry); [done|].
    injection Hk as <- <-. cbn [window_step]. eauto.
Qed.

Lemma kv_window_other rt rt' w last now s key key' e s' v :
  key' ≠ key → stored rt w last s key e → kv_window rt' w now s key' = (s', v) →
  stored rt w last s' key e.
Proof.
  intros Hk Hst H0. unfold kv_window in H0.
  repeat case_match; injection H0 as <- <-; try done; by apply stored_set_other.
Qed.

Fixpoint auth_run (rl : AuthRateLimiter) (s : S) (reqs : list (Z * Request))
  : list (Z * string * verdict) :=
  match reqs with
  | [] => []
  | (now, r) :: reqs =>
      let '(s', v) := Wrap rl now s r in
      (now, safeClientIP r false, v) :: auth_run rl s' reqs
  end.

(** The requests of one client, with their outcomes. *)
Definition outcome_of (ip : string) (x : Z * string * verdict) : option (Z * verdict) :=
  if decide (x.1.2 = ip) then Some (x.1.1, x.2) else None.
Definition arrival_of (ip : string) (x : Z * Request) : option Z :=
  if decide (safeClientIP x.2 false = ip) then Some x.1 else None.

Lemma auth_key_inj rl ip ip' : auth_key rl ip = auth_key rl ip' → ip = ip'.
Proof.
  unfold auth_key. intros E. apply (f_equal bytes) in E. rewrite !bytes_app in E.
  by apply app_inv_head, app_inv_head, app_inv_head, bytes_inj in E.
Qed.

Lemma auth_run_refines rl ip s last e reqs :
  in_i64 (rate rl) → 0 < seconds_int (window rl) →
  0 ≤ last → StronglySorted Z.le (last :: reqs.*1) →
  (∀ t, t ∈ reqs.*1 → t + seconds_int (window rl) ≤ max_int64) →
  stored (rate rl) (seconds_int (window rl)) last s (auth_key rl ip) e →
  omap (outcome_of ip) (auth_run rl s reqs) =
  window_run at_reset (rate rl) (seconds_int (window rl)) e (omap (arrival_of ip) reqs).
Proof.
  intros Hrt Hw. revert s last e. induction reqs as [|[now r] reqs IH];
    intros s last e Hl Hs Hmax Hst; [done|].
  cbn [fmap list_fmap] in Hs, Hmax. apply StronglySorted_inv in Hs as [Hs Hle].
  apply Forall_cons in Hle as [Hln Hle]. cbn [fst] in Hln.
  cbn [auth_run]. destruct (Wrap rl now s r) as [s' v] eqn:Ew. unfold Wrap in Ew.
  cbn [omap list_omap]. unfold outcome_of at 1, arrival_of at 1. cbn [fst snd].
  specialize (Hmax now) as Hm. case_decide as Ei.
  - subst ip. eapply kv_window_simulates in Ew as (e' & Hstep & Hst');
      [|done|done|lia|done|apply Hm; set_solver|done].
    cbn [window_run]. rewrite Hstep. f_equal. apply (IH s' now e'); [lia|done|set_solver|done].
  - apply (IH s' now); [lia|done|set_solver|]. apply (stored_mono _ _ last); [done|].
    eapply kv_window_other; [|done|done]. by intros ?%auth_key_inj.
Qed.

End Auth.

(** ** The limiter of all endpoints *)

Definition past_reset (reset now : Z) : bool := reset <? now.

Lemma past_reset_ok : over_ok past_reset.
Proof. intros reset now H. unfold past_reset in H. bools. lia. Qed.

(** A request, or a pass of the cleanup goroutine. *)
Inductive event := Arrive (now : instant) (r : Request) | Sweep (now : instant).

Definition event_time (ev : event) : instant := match ev with Arrive t _ | Sweep t => t end.

Fixpoint global_run (rl : GlobalRateLimiter) (evs : list event) : list (instant * Request * verdict) :=
  match evs with
  | [] => []
  | Sweep now :: evs => global_run (cleanup rl now) evs
  | Arrive now r :: evs =>
      let '(rl', v) := GlobalMiddleware rl now r in (now, r, v) :: global_run rl' evs
  end.

(** Requests of one client under the limited prefixes [al]. *)
Definition limited (rl : GlobalRateLimiter) (ip : string) (r : Request) : Prop :=
  shouldRateLimit rl (Path r) = true ∧ safeClientIP r false = ip.

Definition g_outcome (rl : GlobalRateLimiter) (ip : string) (x : instant * Request * verdict)
  : option (instant * bool) :=
  if decide (limited rl ip x.1.2) then Some (x.1.1, served x.2) else None.
Definition g_arrival (rl : GlobalRateLimiter) (ip : string) (ev : event) : option instant :=
  match ev with
  | Arrive t r => if decide (limited rl ip r) then Some t else None
  | Sweep _ => None
  end.

Definition tracked (rl : GlobalRateLimiter) (last : instant) (ip : string)
    (e : option authRateLimitEntry) : Prop :=
  match clients rl !! ip, e with
  | Some c, Some e => count c = Count e ∧ resetAt c = ResetAt e ∧ 1 ≤ Count e ≤ budget (g_rate rl)
  | None, Some e => ResetAt e < last
  | None, None => True
  | Some _, None => False
  end.

Definition same_config (rl rl' : GlobalRateLimiter) : Prop :=
  g_rate rl' = g_rate rl ∧ g_window rl' = g_window rl ∧ allowlist rl' = allowlist rl.

Lemma middleware_config rl now r rl' v : GlobalMiddleware rl now r = (rl', v) → same_config rl rl'.
Proof. unfold GlobalMiddleware. repeat case_match; intros; simplify_eq; done. Qed.

Lemma limited_config rl rl' ip r : same_config rl rl' → limited rl' ip r ↔ limited rl ip r.
Proof. intros (_ & _ & Ha). unfold limited, shouldRateLimit. by rewrite Ha. Qed.

Lemma tracked_mono rl last last' ip e : last ≤ last' → tracked rl last ip e → tracked rl last' ip e.
Proof. unfold tracked. destruct (clients rl !! ip), e; try done. lia. Qed.

Lemma cleanup_tracked rl last now ip e :
  last ≤ now → tracked rl last ip e → tracked (cleanup rl now) now ip e.
Proof.
  intros Hl Ht. apply (tracked_mono _ _ now) in Ht; [|done]. unfold tracked, cleanup in *.
  cbn [clients g_rate]. destruct (clients rl !! ip) as [c|] eqn:Ec.
  - destruct (decide (resetAt c < now)) as [Hlt|Hge].
    + rewrite (map_lookup_filter_None_2 _ _ ip).
      * destruct e; [|done]. destruct Ht as (_ & <- & _). lia.
      * right. intros c' Hc' Hn. simplify_eq. by apply Hn.
    + by rewrite (map_lookup_filter_Some_2 _ _ ip c) by done.
  - by rewrite (map_lookup_filter_None_2 _ _ ip) by auto.
Qed.

Lemma middleware_simulates rl last now r e rl' v :
  0 < g_rate rl → in_i64 (g_rate rl) → last ≤ now → shouldRateLimit rl (Path r) = true →
  tracked rl last (safeClientIP r false) e → GlobalMiddleware rl now r = (rl', v) →
  ∃ e' v', window_step past_reset (g_rate rl) (g_window rl) now e = (e', v') ∧
    served v' = served v ∧ tracked rl' now (safeClientIP r false) e'.
Proof.
  intros Hr Hi Hl Hp Ht. unfold GlobalMiddleware. rewrite (proj2 (Z.leb_gt _ _) Hr), Hp. cbn [negb].
  unfold tracked in *. destruct (clients rl !! safeClientIP r false) as [c|] eqn:Ec.
  - destruct e as [[cn rs]|]; [|done]. cbn [Count ResetAt] in Ht. destruct Ht as (<- & <- & Hc).
    unfold window_step, past_reset. cbn [Count ResetAt].
    destruct (resetAt c <? now) eqn:Eo; [|destruct (g_rate rl <=? count c) eqn:Eg];
      intros [= <- <-]; eexists _, _; (split; [done|]); split; try done;
      rewrite ?Ec; cbn [clients set_client g_rate]; rewrite ?lookup_insert_eq; cbn; bools;
      split_and!; try done; unfold budget in *; try lia;
      rewrite i64_id; try lia; unfold in_i64, min_int64 in *; lia.
  - intros [= <- <-]. unfold window_step, past_reset. cbn [clients set_client g_rate].
    exists (Some {| Count := 1; ResetAt := now + g_window rl |}), Served. rewrite lookup_insert_eq. cbn.
    destruct e as [e|]; [rewrite (proj2 (Z.ltb_lt (ResetAt e) now)) by lia|]; (split_and!; try done; unfold budget; lia).
Qed.

Lemma middleware_other rl last now r ip e rl' v :
  ¬ limited rl ip r → tracked rl last ip e → GlobalMiddleware rl now r = (rl', v) →
  tracked rl' last ip e.
Proof.
  intros Hn Ht H. unfold GlobalMiddleware in H.
  destruct (g_rate rl <=? 0); [by injection H as <- <-|].
  destruct (shouldRateLimit rl (Path r)) eqn:Es; cbn [negb] in H; [|by injection H as <- <-].
  assert (Hne : safeClientIP r false ≠ ip) by (intros <-; by apply Hn).
  repeat case_match; injection H as <- <-; try done; unfold tracked in *; cbn [clients set_client g_rate];
    by rewrite lookup_insert_ne.
Qed.

Lemma same_config_fields rl rl' ip :
  same_config rl rl' →
  (∀ l : list (instant * Request * verdict), omap (g_outcome rl' ip) l = omap (g_outcome rl ip) l) ∧
  (∀ l : list event, omap (g_arrival rl' ip) l = omap (g_arrival rl ip) l).
Proof.
  intros Hc. split; intros l; apply list_omap_ext, Forall_Forall2_diag, Forall_true; intros x;
    unfold g_outcome, g_arrival; [|destruct x; [|done]];
    repeat case_decide; try done; by rewrite (limited_config _ _ _ _ Hc) in *.
Qed.

Lemma global_run_refines rl ip last e evs :
  0 < g_rate rl → in_i64 (g_rate rl) → StronglySorted Z.le (last :: (event_time <$> evs)) →
  tracked rl last ip e →
  omap (g_outcome rl ip) (global_run rl evs) =
  prod_map id served <$> window_run past_reset (g_rate rl) (g_window rl) e (omap (g_arrival rl ip) evs).
Proof.
  revert rl last e. induction evs as [|ev evs IH]; intros rl last e Hr Hi Hs Ht; [done|].
  cbn [fmap list_fmap] in Hs. apply StronglySorted_inv in Hs as [Hs Hle].
  apply Forall_cons in Hle as [Hln _]. destruct ev as [now r|now]; cbn [event_time] in *.
  - cbn [global_run]. destruct (GlobalMiddleware rl now r) as [rl' v] eqn:Em.
    pose proof (middleware_config _ _ _ _ _ Em) as Hc.
    destruct (same_config_fields rl rl' ip Hc) as [Ho Ha]. destruct Hc as (Hc1 & Hc2 & _).
    cbn [omap list_omap]. unfold g_outcome at 1, g_arrival at 1. cbn [fst snd].
    case_decide as Elim.
    + destruct Elim as [Hp <-].
      destruct (middleware_simulates rl last now r e rl' v Hr Hi Hln Hp Ht Em) as (e' & v' & Hw & Hv & Ht').
      cbn [window_run]. rewrite Hw, fmap_cons. unfold prod_map at 1. cbn [fst snd]. rewrite Hv. f_equal.
      etrans; [symmetry; apply Ho|]. rewrite (IH rl' now e'), Hc1, Hc2 by (congruence || done).
      by rewrite Ha.
    + etrans; [symmetry; apply Ho|]. rewrite (IH rl' now e), Hc1, Hc2; try (congruence || done).
      apply (tracked_mono _ last); [done|]. by eapply middleware_other.
  - cbn [global_run]. apply (IH (cleanup rl now) now e Hr Hi Hs). by eapply cleanup_tracked.
Qed.

Definition count_served (T w : Z) (tb : instant * bool) : Z :=
  if (T <=? tb.1) && (tb.1 <? T + w) && tb.2 then 1 else 0.

Lemma sorted_omap {A} (f : A → option Z) (g : A → Z) l :
  (∀ x t, f x = Some t → t = g x) → StronglySorted Z.le (g <$> l) → StronglySorted Z.le (omap f l).
Proof.
  intros Hf. induction l as [|x l IH]; [constructor|]. rewrite fmap_cons.
  intros [Hs Hle]%StronglySorted_inv. cbn [omap list_omap]. destruct (f x) as [t|] eqn:E; [|by apply IH].
  constructor; [by apply IH|]. apply Hf in E as ->. rewrite Forall_forall in *.
  intros y (z & Hz & Hy)%list_elem_of_omap. apply Hf in Hy as ->. apply Hle.
  apply list_elem_of_fmap. eauto.
Qed.

(** C8. The limiter of the authentication endpoints, over any store that keeps its
    promises: for requests at non-decreasing times from any clients, the outcomes
    of one client's requests are those of its own fixed-window counter, so within
    any [w] seconds at most twice the rate of them is served (a rate below one
    still serves one per window). *)
Theorem auth_limiter_bound {S} `{!KVStorer S authRateLimitEntry, !KVLaws S authRateLimitEntry}
    rl (s : S) reqs ip T :
  let w := seconds_int (window rl) in
  in_i64 (rate rl) → 0 < w → StronglySorted Z.le (0 :: reqs.*1) →
  (∀ t, t ∈ reqs.*1 → t + w ≤ max_int64) →
  (∀ t, is_ok (kv_Get t s "ratelimit" (auth_key rl ip) zero_entry) = false) →
  omap (outcome_of ip) (auth_run rl s reqs) =
    window_run at_reset (rate rl) w None (omap (arrival_of ip) reqs) ∧
  zsum (in_window T w) (omap (outcome_of ip) (auth_run rl s reqs)) ≤ 2 * Z.max 1 (rate rl).
Proof.
  intros w Hr Hw Hs Hm Hg. pose proof (auth_run_refines rl ip s 0 None reqs Hr Hw ltac:(lia) Hs Hm Hg) as Href.
  split; [done|]. rewrite Href. apply window_run_bound; [apply at_reset_ok|done|].
  apply StronglySorted_inv in Hs as [Hs _]. apply (sorted_omap _ fst); [|done].
  unfold arrival_of. intros [t r] t' Ht. case_decide; by simplify_eq.
Qed.

Definition login_rl : AuthRateLimiter := {| rate := 2; window := Minute; prefix := "login" |}.
Definition from_ip (real remote : string) : Request :=
  {| Method := "POST"; Path := "/api/v1/auth/login";
     Header := if decide (real = "") then ∅ else {[ "X-Real-IP" := real ]}; Cookies := ∅; RemoteAddr := remote |}.
Definition login_reqs : list (Z * Request) :=
  (λ t, (t, from_ip "" "203.0.113.9:4000")) <$> [100; 101; 102; 103; 160].

Lemma auth_limiter_bound_witness :
  zsum (in_window 100 60) (omap (outcome_of "203.0.113.9") (auth_run login_rl empty_store login_reqs)) ≤ 4.
Proof.
  refine (proj2 (auth_limiter_bound login_rl empty_store login_reqs "203.0.113.9" 100 _ _ _ _ _)).
  - unfold in_i64. split; vm_compute; discriminate.
  - vm_compute. reflexivity.
  - cbn [fmap list_fmap login_reqs fst]. repeat constructor; lia.
  - change (seconds_int (window login_rl)) with 60. unfold max_int64. set_solver by lia.
  - done.
Defined.

(** The limiter of all endpoints, with its cleanup goroutine sweeping at any
    moment: the outcomes of one client's requests under the limited prefixes are
    those of a fixed-window counter that is never swept, so within any window's
    length at most twice the rate of them is served. *)
Theorem global_limiter_bound rt w al evs ip T :
  let rl := SetRateLimitedPrefixes (NewGlobalRateLimiter rt w) al in
  0 < rt ≤ max_int64 → 0 < w → StronglySorted Z.le (0 :: (event_time <$> evs)) →
  omap (g_outcome rl ip) (global_run rl evs) =
    prod_map id served <$> window_run past_reset rt w None (omap (g_arrival rl ip) evs) ∧
  zsum (count_served T w) (omap (g_outcome rl ip) (global_run rl evs)) ≤ 2 * rt.
Proof.
  intros rl Hr Hw Hs.
  assert (Href : omap (g_outcome rl ip) (global_run rl evs) =
    prod_map id served <$> window_run past_reset rt w None (omap (g_arrival rl ip) evs)).
  { apply (global_run_refines rl ip 0 None evs); cbn; try done; try lia.
    unfold in_i64, min_int64. lia. }
  split; [done|]. rewrite Href. rewrite zsum_fmap, (zsum_ext _ (in_window T w)) by done.
  replace (2 * rt) with (2 * budget rt) by (unfold budget; lia).
  apply (window_run_bound past_reset rt w T); [apply past_reset_ok|done|].
  apply StronglySorted_inv in Hs as [Hs _]. apply (sorted_omap _ event_time); [|done].
  unfold g_arrival. intros [t r|t] t' Ht; [case_decide; by simplify_eq|done].
Qed.

Definition api_events : list event :=
  [Arrive 1 (from_ip "" "203.0.113.9:4000"); Arrive 2 (from_ip "" "203.0.113.9:4001"); Sweep 70;
   Arrive 80 (from_ip "" "203.0.113.9:4002")].

Lemma global_limiter_bound_witness :
  zsum (count_served 0 50)
    (omap (g_outcome (SetRateLimitedPrefixes (NewGlobalRateLimiter 1 50) ["/api/"]) "203.0.113.9")
       (global_run (SetRateLimitedPrefixes (NewGlobalRateLimiter 1 50) ["/api/"]) api_events)) ≤ 2.
Proof.
  refine (proj2 (global_limiter_bound 1 50 ["/api/"] api_events "203.0.113.9" 0 _ _ _)).
  - unfold max_int64. lia.
  - lia.
  - cbn [fmap list_fmap api_events event_time]. repeat constructor; lia.
Defined.

(** The client address a forged header names, whatever the connection is. *)
Lemma real_ip_wins r ip trust :
  validateIPPermissive (HeaderGet r "X-Real-IP") = ip → ip ≠ "" → safeClientIP r trust = ip.
Proof.
  intros Hv Hne. unfold safeClientIP. rewrite (decide_False (P := HeaderGet r "X-Real-IP" = "")).
  - by rewrite Hv, decide_False by done.
  - intros E. rewrite E in Hv. by apply Hne.
Qed.

(** The client's own [X-Real-IP] header names the client even when forwarded
    headers are not trusted: requests from one connection address, each with a
    different valid address in that header, are all served, however many and
    whatever the rate. *)
Theorem real_ip_header_evades_limit rl now rs :
  NoDup ((λ r, safeClientIP r false) <$> rs) →
  (∀ r, r ∈ rs → validateIPPermissive (HeaderGet r "X-Real-IP") ≠ "" ∧
                 clients rl !! validateIPPermissive (HeaderGet r "X-Real-IP") = None) →
  ∀ x, x ∈ global_run rl (Arrive now <$> rs) → x.2 = Served.
Proof.
  revert rl. induction rs as [|r rs IH]; intros rl Hnd Hv x; [by intros ?%elem_of_nil|].
  rewrite fmap_cons in Hnd. apply NoDup_cons in Hnd as [Hni Hnd].
  destruct (Hv r ltac:(set_solver)) as [Hne Hnone].
  rewrite fmap_cons. cbn [global_run]. destruct (GlobalMiddleware rl now r) as [rl' v] eqn:Em.
  assert (Hip : ∀ r', r' ∈ r :: rs → safeClientIP r' false = validateIPPermissive (HeaderGet r' "X-Real-IP")).
  { intros r' Hr'. apply real_ip_wins; [done|]. by apply Hv. }
  pose proof Em as Em'. unfold GlobalMiddleware in Em. rewrite (Hip r ltac:(set_solver)), Hnone in Em.
  intros [->|Hx]%elem_of_cons.
  - cbn. repeat case_match; by simplify_eq.
  - eapply (IH rl' Hnd); [|done]. intros r' Hr'. destruct (Hv r' ltac:(set_solver)) as [Hne' Hnone'].
    split; [done|]. repeat case_match; simplify_eq; try done.
    cbn [clients set_client]. rewrite lookup_insert_ne; [done|].
    rewrite <-(Hip r ltac:(set_solver)), <-(Hip r' ltac:(set_solver)). intros E. apply Hni.
    apply list_elem_of_fmap. eauto.
Qed.

Definition forged : list Request :=
  (λ a, from_ip a "203.0.113.9:4000") <$> ["198.51.100.1"; "198.51.100.2"; "198.51.100.3"].

Lemma real_ip_header_evades_limit_witness :
  (default (0, from_ip "" "", TooMany 0) (global_run (NewGlobalRateLimiter 1 Minute) (Arrive 0 <$> forged) !! 2%nat)).2
    = Served.
Proof.
  apply (real_ip_header_evades_limit (NewGlobalRateLimiter 1 Minute) 0 forged).
  - apply (bool_decide_unpack _). vm_compute. exact I.
  - intros r Hr. unfold forged in Hr. apply list_elem_of_fmap in Hr as (a & -> & Ha).
    repeat (apply elem_of_cons in Ha as [->|Ha]; [split; [vm_compute; discriminate|done]|]).
    by apply elem_of_nil in Ha.
  - apply (list_elem_of_lookup_2 _ 2). vm_compute. reflexivity.
Defined.

End RateLimit.
