(* ===== verification/Sha256.v ===== *)
(** * Sha256: [crypto/sha256], [crypto/hmac] and [encoding/hex]

    The hash functions the program calls, executable on byte strings.  Words are
    32-bit integers. *)

From S2P Require Import Prelude GoStrings.
#[local] Open Scope Z_scope.

Module Sha256.

Definition rotr (n x : Z) : Z := Z.lor (Z.shiftr x n) (u32 (Z.shiftl x (32 - n))).
Definition not32 (x : Z) : Z := Z.lxor x (2 ^ 32 - 1).

Definition Ch (x y z : Z) : Z := Z.lxor (Z.land x y) (Z.land (not32 x) z).
Definition Maj (x y z : Z) : Z := Z.lxor (Z.land x y) (Z.lxor (Z.land x z) (Z.land y z)).
Definition S0 (x : Z) : Z := Z.lxor (rotr 2 x) (Z.lxor (rotr 13 x) (rotr 22 x)).
Definition S1 (x : Z) : Z := Z.lxor (rotr 6 x) (Z.lxor (rotr 11 x) (rotr 25 x)).
Definition s0 (x : Z) : Z := Z.lxor (rotr 7 x) (Z.lxor (rotr 18 x) (Z.shiftr x 3)).
Definition s1 (x : Z) : Z := Z.lxor (rotr 17 x) (Z.lxor (rotr 19 x) (Z.shiftr x 10)).

(** The constants are the first 32 bits of the fractional parts of the cube and
    square roots of the first primes. *)
Fixpoint root_bits (pow : Z) (n : Z) (bits : nat) (r : Z) : Z :=
  match bits with
  | O => r
  | S b => let r' := r + 2 ^ Z.of_nat b in root_bits pow n b (if r' ^ pow <=? n then r' else r)
  end.

Definition frac_root (pow p : Z) : Z := root_bits pow (p * 2 ^ (32 * pow)) 40 0 mod 2 ^ 32.

Definition is_prime (n : nat) : bool :=
  forallb (λ d, negb (Nat.eqb (n mod d) 0)) (seq 2 (n - 2)).

Definition primes : list Z :=
  Eval vm_compute in take 64 (Z.of_nat <$> filter (λ n, is_prime n = true) (seq 2 320)).

Definition K : list Z := Eval vm_compute in frac_root 3 <$> primes.

Record state := { ha : Z; hb : Z; hc : Z; hd : Z; he : Z; hf : Z; hg : Z; hh : Z }.

Definition state_of (l : list Z) : state :=
  let at_ i := default 0 (l !! i) in
  {| ha := at_ 0%nat; hb := at_ 1%nat; hc := at_ 2%nat; hd := at_ 3%nat;
     he := at_ 4%nat; hf := at_ 5%nat; hg := at_ 6%nat; hh := at_ 7%nat |}.

Definition H0 : state := Eval vm_compute in state_of (frac_root 2 <$> take 8 primes).

(** The message schedule, newest word first. *)
Fixpoint schedule (n : nat) (w : list Z) : list Z :=
  match n with
  | O => w
  | S n =>
      let at_ i := default 0 (w !! i) in
      schedule n (u32 (s1 (at_ 1%nat) + at_ 6%nat + s0 (at_ 14%nat) + at_ 15%nat) :: w)
  end.

Definition round (st : state) (kw : Z * Z) : state :=
  let t1 := u32 (hh st + S1 (he st) + Ch (he st) (hf st) (hg st) + kw.1 + kw.2) in
  let t2 := u32 (S0 (ha st) + Maj (ha st) (hb st) (hc st)) in
  {| ha := u32 (t1 + t2); hb := ha st; hc := hb st; hd := hc st;
     he := u32 (hd st + t1); hf := he st; hg := hf st; hh := hg st |}.

Definition compress (st : state) (block : list Z) : state :=
  let w := reverse (schedule 48 (reverse block)) in
  let r := foldl round st (zip K w) in
  {| ha := u32 (ha st + ha r); hb := u32 (hb st + hb r); hc := u32 (hc st + hc r);
     hd := u32 (hd st + hd r); he := u32 (he st + he r); hf := u32 (hf st + hf r);
     hg := u32 (hg st + hg r); hh := u32 (hh st + hh r) |}.

Definition byte_val (c : ascii) : Z := Z.of_nat (Ascii.nat_of_ascii c).

(** Big-endian bytes of a value. *)
Fixpoint be_bytes (n : nat) (v : Z) : list Z :=
  match n with
  | O => []
  | S n => be_bytes n (Z.shiftr v 8) ++ [Z.land v 255]
  end.

Definition padded (m : list Z) : list Z :=
  let len := length m in
  m ++ [128] ++ replicate ((119 - len mod 64) mod 64) 0 ++ be_bytes 8 (8 * Z.of_nat len).

Definition word (b : list Z) : Z := foldl (λ acc x, Z.lor (Z.shiftl acc 8) x) 0 b.

(** Consecutive pieces of [n] elements; the length of the list is enough fuel. *)
Fixpoint pieces {A} (fuel n : nat) (l : list A) : list (list A) :=
  match fuel, l with
  | S fuel, _ :: _ => take n l :: pieces fuel n (drop n l)
  | _, _ => []
  end.

Definition digest_words (m : list Z) : list Z :=
  let p := padded m in
  let st := foldl (λ st b, compress st (word <$> pieces 16 4 b)) H0 (pieces (length p) 64 p) in
  [ha st; hb st; hc st; hd st; he st; hf st; hg st; hh st].

(** The 32 bytes of [sha256.Sum256]. *)
Definition sum256 (m : list Z) : list Z := mjoin (be_bytes 4 <$> digest_words m).

Definition hex_digit (v : Z) : ascii :=
  byte (Z.to_nat (if v <? 10 then 48 + v else 87 + v)).

Definition EncodeToString (l : list Z) : string :=
  str (mjoin ((λ b, [hex_digit (Z.shiftr b 4); hex_digit (Z.land b 15)]) <$> l)).

Definition sha256_hex (s : string) : string := EncodeToString (sum256 (byte_val <$> bytes s)).

(** [hmac.New(sha256.New, key)] over a message. *)
Definition hmac_sha256 (key msg : list Z) : list Z :=
  let k0 := if 64 <? zlen key then sum256 key else key in
  let k := k0 ++ replicate (64 - length k0) 0 in
  sum256 ((Z.lxor 92 <$> k) ++ sum256 ((Z.lxor 54 <$> k) ++ msg)).

Example sha256_abc :
  sha256_hex "abc" = "ba7816bf8f01cfea414140de5dae2223b00361a396177a9cb410ff61f20015ad".
Proof. vm_compute. reflexivity. Qed.
Example sha256_empty :
  sha256_hex "" = "e3b0c44298fc1c149afbf4c8996fb92427ae41e4649b934ca495991b7852b855".
Proof. vm_compute. reflexivity. Qed.
Example hmac_test :
  EncodeToString (hmac_sha256 (byte_val <$> bytes "Jefe")
                    (byte_val <$> bytes "what do ya want for nothing?"))
  = "5bdcc146bf60754e6a042426089575c75a003f089d2739839dec58b964ec3843".
Proof. vm_compute. reflexivity. Qed.

Lemma length_be_bytes n v : length (be_bytes n v) = n.
Proof. revert v. induction n as [|n IH]; intros v; [done|]. cbn. rewrite length_app, IH. cbn. lia. Qed.

Lemma length_sum256 m : length (sum256 m) = 32%nat.
Proof. unfold sum256, digest_words. cbn [fmap list_fmap mjoin list_join]. by rewrite !length_app, !length_be_bytes. Qed.

Lemma length_EncodeToString l : slen (EncodeToString l) = (2 * length l)%nat.
Proof.
  unfold slen, EncodeToString. rewrite bytes_str.
  induction l as [|b l IH]; [done|]. rewrite fmap_cons.
  etrans; [exact (f_equal (λ n, S (S n)) IH)|]. cbn [length]. lia.
Qed.

Lemma length_sha256_hex s : slen (sha256_hex s) = 64%nat.
Proof. unfold sha256_hex. by rewrite length_EncodeToString, length_sum256. Qed.

End Sha256.
