(* ===== verification/GoCodec.v ===== *)
(** * GoCodec: [encoding/base32], [crypto/sha1] and HMAC over it

    Positional digits with their round trips, the base32 codec built on them, and
    SHA-1 with the conventions of [Sha256]. *)

From S2P Require Import Prelude GoStrings Sha256.
#[local] Open Scope Z_scope.

Module GoCodec.
Import Sha256.

(** ** Positional digits, most significant first *)

Fixpoint digits_be (b : Z) (n : nat) (v : Z) : list Z :=
  match n with
  | O => []
  | S n => digits_be b n (v / b) ++ [v mod b]
  end.

Definition undigits (b : Z) (l : list Z) : Z := foldl (λ acc x, acc * b + x) 0 l.

Lemma undigits_app b l x : undigits b (l ++ [x]) = undigits b l * b + x.
Proof. unfold undigits. by rewrite foldl_app. Qed.

Lemma length_digits_be b n v : length (digits_be b n v) = n.
Proof. revert v. induction n as [|n IH]; intros v; [done|]. cbn. rewrite length_app, IH. cbn. lia. Qed.

Lemma undigits_digits b n v : 0 < b → undigits b (digits_be b n v) = v mod b ^ Z.of_nat n.
Proof.
  intros Hb. revert v. induction n as [|n IH]; intros v; [by rewrite Z.mod_1_r|].
  cbn [digits_be]. rewrite undigits_app, IH, Nat2Z.inj_succ, Z.pow_succ_r, Z.mul_comm by lia.
  rewrite Z.rem_mul_r by (try apply Z.pow_pos_nonneg; lia). lia.
Qed.

Lemma digits_undigits b l : Forall (λ x, 0 ≤ x < b) l → digits_be b (length l) (undigits b l) = l.
Proof.
  induction l as [|x l IH] using rev_ind; intros Hl; [done|].
  apply Forall_app in Hl as [Hl [Hx _]%Forall_cons]. rewrite length_app, Nat.add_1_r, undigits_app.
  cbn [digits_be]. f_equal.
  - rewrite Z.add_comm, Z.div_add, Z.div_small by lia. by apply IH.
  - f_equal. rewrite Z.add_comm, Z.mod_add, Z.mod_small by lia. done.
Qed.

Lemma undigits_bound b l : 0 < b → Forall (λ x, 0 ≤ x < b) l → 0 ≤ undigits b l < b ^ zlen l.
Proof.
  intros Hb. induction l as [|x l IH] using rev_ind; intros Hl; [done|].
  apply Forall_app in Hl as [Hl [Hx _]%Forall_cons]. specialize (IH Hl). rewrite undigits_app, length_app.
  cbn [length]. rewrite Nat2Z.inj_add, Z.pow_add_r by lia. change (b ^ Z.of_nat 1) with (b ^ 1).
  rewrite Z.pow_1_r. nia.
Qed.

Lemma digits_be_range b n v : 0 < b → Forall (λ x, 0 ≤ x < b) (digits_be b n v).
Proof.
  intros Hb. revert v. induction n as [|n IH]; intros v; [constructor|]. cbn. apply Forall_app. split; [apply IH|].
  constructor; [|constructor]. by apply Z.mod_pos_bound.
Qed.

(** ** base32, the standard alphabet *)

Definition alphabet : list ascii := bytes "ABCDEFGHIJKLMNOPQRSTUVWXYZ234567".
Definition b32_char (v : Z) : ascii := default "="%char (alphabet !! Z.to_nat v).
Definition b32_val (c : ascii) : option Z :=
  match list_find (λ x, x = c) alphabet with Some (i, _) => Some (Z.of_nat i) | None => None end.

Lemma b32_val_char v : 0 ≤ v < 32 → b32_val (b32_char v) = Some v.
Proof.
  intros Hv. assert (∀ n : nat, (n < 32)%nat → b32_val (b32_char (Z.of_nat n)) = Some (Z.of_nat n)) as H.
  { intros n Hn. do 32 (destruct n as [|n]; [reflexivity|]). lia. }
  rewrite <-(Z2Nat.id v) by lia. apply H. lia.
Qed.

Lemma b32_char_not_pad v : 0 ≤ v < 32 → b32_char v ≠ "="%char.
Proof. intros Hv E. pose proof (b32_val_char v Hv) as H. by rewrite E in H. Qed.

(** [WithPadding(NoPadding).EncodeToString]: eight digits for five bytes, and as many
    as needed for the rest. *)
Definition encode_chunk (l : list Z) : list ascii :=
  let k := length l in
  let n := ((8 * k + 4) / 5)%nat in
  b32_char <$> digits_be 32 n (undigits 256 l * 2 ^ (5 * Z.of_nat n - 8 * Z.of_nat k)).
Definition encode_nopad (l : list Z) : list ascii := mjoin (encode_chunk <$> pieces (length l) 5 l).

(** One quantum of eight characters, [rest] characters following: its bytes and
    whether it was padded. *)
Definition decode_quantum (q : list ascii) (rest : nat) : option (list Z * bool) :=
  match list_find (λ c, c = "="%char) q with
  | Some (j, _) =>
      if Nat.leb 2 j && Nat.ltb (7 - j + rest) 8 && forallb (λ c, bool_decide (c = "="%char)) (drop j q)
         && bool_decide (j ∈ [2; 4; 5; 7]%nat) then
        vs ← mapM b32_val (take j q);
        Some (digits_be 256 ((5 * j) / 8)%nat (undigits 32 vs / 2 ^ ((5 * Z.of_nat j) mod 8)), true)
      else None
  | None => vs ← mapM b32_val q; Some (digits_be 256 5 (undigits 32 vs), false)
  end.

Fixpoint decode_quanta (fuel : nat) (l : list ascii) : option (list Z) :=
  match fuel, l with
  | _, [] => Some []
  | O, _ => None
  | S fuel, _ =>
      if Nat.ltb (length l) 8 then None
      else
        '(b, fin) ← decode_quantum (take 8 l) (length (drop 8 l));
        if fin : bool then Some b else r ← decode_quanta fuel (drop 8 l); Some (b ++ r)
  end.

(** [base32.StdEncoding.DecodeString]; line breaks are skipped. *)
Definition DecodeString (s : string) : option (list Z) :=
  let l := filter (λ c, c ≠ byte 10 ∧ c ≠ byte 13) (bytes s) in decode_quanta (length l) l.

Lemma mapM_b32 l : Forall (λ x, 0 ≤ x < 32) l → mapM b32_val (b32_char <$> l) = Some l.
Proof.
  induction 1 as [|x l Hx Hl IH]; [done|]. cbn. rewrite b32_val_char by done. cbn.
  change (mapM b32_val (list_fmap Z ascii b32_char l)) with (mapM b32_val (b32_char <$> l)).
  by rewrite IH.
Qed.

Lemma no_pad l : Forall (λ x, 0 ≤ x < 32) l → list_find (λ c, c = "="%char) (b32_char <$> l) = None.
Proof.
  intros Hl. apply list_find_None. apply Forall_fmap. eapply Forall_impl; [exact Hl|].
  intros x Hx. by apply b32_char_not_pad.
Qed.

Lemma decode_encode_five l rest : length l = 5%nat → Forall (λ x, 0 ≤ x < 256) l →
  decode_quantum (encode_chunk l) rest = Some (l, false).
Proof.
  intros H5 Hl. unfold encode_chunk. rewrite H5. change ((8 * 5 + 4) / 5)%nat with 8%nat.
  change (5 * Z.of_nat 8 - 8 * Z.of_nat 5) with 0. rewrite Z.mul_1_r. unfold decode_quantum.
  pose proof (digits_be_range 32 8 (undigits 256 l) eq_refl) as Hd.
  rewrite no_pad, mapM_b32 by done. cbn [mbind option_bind]. do 2 f_equal.
  rewrite undigits_digits by done. pose proof (undigits_bound 256 l eq_refl Hl) as Hb. rewrite H5 in Hb.
  change (256 ^ Z.of_nat 5) with (32 ^ Z.of_nat 8) in Hb. rewrite Z.mod_small by done.
  rewrite <-H5. by apply digits_undigits.
Qed.

Lemma length_encode_five l : length l = 5%nat → length (encode_chunk l) = 8%nat.
Proof. intros H. unfold encode_chunk. by rewrite H, length_fmap, length_digits_be. Qed.

Lemma b32_char_raised v : raised (b32_char v).
Proof.
  unfold b32_char. destruct (alphabet !! Z.to_nat v) as [c|] eqn:E; [|vm_compute; lia].
  apply list_elem_of_lookup_2 in E. revert c E. apply Forall_forall, (bool_decide_unpack _). vm_compute. exact I.
Qed.

Lemma encode_chunk_plain l : Forall (λ c, c ≠ byte 10 ∧ c ≠ byte 13) (encode_chunk l).
Proof.
  unfold encode_chunk. apply Forall_fmap. eapply Forall_impl; [apply digits_be_range; lia|].
  intros x Hx; cbn. pose proof (b32_val_char x Hx) as H. split; intros E; rewrite E in H; vm_compute in H; discriminate H.
Qed.

Lemma mjoin_cons {A} (x : list A) xs : mjoin (x :: xs) = x ++ mjoin xs.
Proof. done. Qed.

Lemma pieces_five k (l : list Z) : length l = (5 * k)%nat → ∀ fuel, (k ≤ fuel)%nat →
  Forall (λ c, length c = 5%nat) (pieces fuel 5 l) ∧ mjoin (pieces fuel 5 l) = l.
Proof.
  revert l. induction k as [|k IH]; intros l Hl fuel Hf.
  - destruct l; [|cbn in Hl; lia]. by destruct fuel.
  - destruct fuel as [|fuel]; [lia|]. destruct l as [|x l']; [cbn in Hl; lia|].
    cbn [pieces]. destruct (IH (drop 5 (x :: l'))) with (fuel := fuel) as [Ha Hj]; [rewrite length_drop; lia|lia|].
    split; [constructor; [rewrite length_take; lia|done]|]. rewrite mjoin_cons, Hj. apply take_drop.
Qed.

Lemma decode_quanta_encode ps : ∀ fuel, (length ps ≤ fuel)%nat →
  Forall (λ c, length c = 5%nat) ps → Forall (Forall (λ x, 0 ≤ x < 256)) ps →
  decode_quanta fuel (mjoin (encode_chunk <$> ps)) = Some (mjoin ps).
Proof.
  induction ps as [|p ps IH]; intros fuel Hf H5 Hr; [by destruct fuel|].
  destruct fuel as [|fuel]; [cbn in Hf; lia|].
  apply Forall_cons in H5 as [Hp H5]. apply Forall_cons in Hr as [Hrp Hr].
  rewrite fmap_cons, mjoin_cons.
  pose proof (length_encode_five p Hp) as Hl. cbn [decode_quanta].
  assert (take 8 (encode_chunk p ++ mjoin (encode_chunk <$> ps)) = encode_chunk p) as Ht
    by (rewrite <-Hl; apply take_app_length).
  assert (drop 8 (encode_chunk p ++ mjoin (encode_chunk <$> ps)) = mjoin (encode_chunk <$> ps)) as Hd
    by (rewrite <-Hl; apply drop_app_length).
  rewrite Ht, Hd, decode_encode_five by done.
  destruct (encode_chunk p ++ _) eqn:E; [destruct (encode_chunk p); discriminate|]. rewrite <-E.
  rewrite (proj2 (Nat.ltb_ge _ _)) by (rewrite length_app, Hl; lia). cbn [mbind option_bind].
  rewrite IH; [done|cbn in Hf; lia|done..].
Qed.

(** The codec round trip on whole quanta, which is how secrets are stored. *)
Lemma decode_encode l k : length l = (5 * k)%nat → Forall (λ x, 0 ≤ x < 256) l →
  DecodeString (str (encode_nopad l)) = Some l.
Proof.
  intros Hlen Hl. unfold DecodeString, encode_nopad. rewrite bytes_str.
  destruct (pieces_five k l Hlen (length l) ltac:(lia)) as [Hf Hj].
  set (ps := pieces (length l) 5 l) in *. rewrite filter_keeps_all.
  - rewrite decode_quanta_encode; [by rewrite Hj| |done|].
    + clear -Hf. induction Hf as [|p ps Hp Hps IH]; [cbn; lia|]. rewrite fmap_cons, mjoin_cons, length_app, length_encode_five by done. cbn [length]. lia.
    + rewrite <-Hj in Hl. clear -Hl. induction ps as [|p ps IH]; [constructor|].
      cbn in Hl. apply Forall_app in Hl as [? ?]. constructor; [done|by apply IH].
  - clear. induction ps as [|p ps IH]; [constructor|]. rewrite fmap_cons, mjoin_cons.
    apply Forall_app. split; [apply encode_chunk_plain|done].
Qed.

Lemma encode_nopad_raised l : Forall raised (encode_nopad l).
Proof.
  unfold encode_nopad. induction (pieces (length l) 5 l) as [|p ps IH]; [constructor|].
  rewrite fmap_cons, mjoin_cons. apply Forall_app. split; [|done].
  apply Forall_fmap, Forall_true. intros x. apply b32_char_raised.
Qed.

Example base32_vector : str (encode_nopad (byte_val <$> bytes "foobar")) = "MZXW6YTBOI".
Proof. vm_compute. reflexivity. Qed.
Example base32_decode_vector :
  [DecodeString "MZXW6YTBOI======"; DecodeString "MZXW6YTB"; DecodeString "MZXW6YTBOI"; DecodeString "mzxw6ytb"] =
  [Some (byte_val <$> bytes "foobar"); Some (byte_val <$> bytes "fooba"); None; None].
Proof. vm_compute. reflexivity. Qed.

(** ** SHA-1 *)

Definition rotl (n x : Z) : Z := Z.lor (u32 (Z.shiftl x n)) (Z.shiftr x (32 - n)).

(** The round constants are the first 30 bits after the point of square roots. *)
Definition sqrt30 (n : Z) : Z := root_bits 2 (n * 2 ^ 60) 40 0.

Record sha1_state := { a1 : Z; b1 : Z; c1 : Z; d1 : Z; e1 : Z }.

(** The initial state counts nibbles up, down, and in pairs. *)
Definition nibbles (l : list Z) : Z := undigits 16 l.
Definition sha1_init : sha1_state :=
  {| a1 := nibbles [6;7;4;5;2;3;0;1]; b1 := nibbles [14;15;12;13;10;11;8;9];
     c1 := nibbles [9;8;11;10;13;12;15;14]; d1 := nibbles [1;0;3;2;5;4;7;6];
     e1 := nibbles [12;3;13;2;14;1;15;0] |}.

Definition sha1_f (t : nat) (b c d : Z) : Z :=
  if decide (t < 20)%nat then Ch b c d
  else if decide (t < 40)%nat then Z.lxor b (Z.lxor c d)
  else if decide (t < 60)%nat then Maj b c d
  else Z.lxor b (Z.lxor c d).
Definition sha1_k (t : nat) : Z :=
  if decide (t < 20)%nat then sqrt30 2
  else if decide (t < 40)%nat then sqrt30 3
  else if decide (t < 60)%nat then sqrt30 5
  else sqrt30 10.

Fixpoint sha1_schedule (n : nat) (w : list Z) : list Z :=
  match n with
  | O => w
  | S n =>
      let at_ i := default 0 (w !! i) in
      sha1_schedule n
        (rotl 1 (Z.lxor (at_ 2%nat) (Z.lxor (at_ 7%nat) (Z.lxor (at_ 13%nat) (at_ 15%nat)))) :: w)
  end.

Definition sha1_round (st : sha1_state) (tw : nat * Z) : sha1_state :=
  let '(t, w) := tw in
  {| a1 := u32 (rotl 5 (a1 st) + sha1_f t (b1 st) (c1 st) (d1 st) + e1 st + w + sha1_k t);
     b1 := a1 st; c1 := rotl 30 (b1 st); d1 := c1 st; e1 := d1 st |}.

Definition sha1_compress (st : sha1_state) (block : list Z) : sha1_state :=
  let w := reverse (sha1_schedule 64 (reverse block)) in
  let r := foldl sha1_round st (zip (seq 0 80) w) in
  {| a1 := u32 (a1 st + a1 r); b1 := u32 (b1 st + b1 r); c1 := u32 (c1 st + c1 r);
     d1 := u32 (d1 st + d1 r); e1 := u32 (e1 st + e1 r) |}.

(** The twenty bytes of [sha1.Sum]. *)
Definition sum1 (m : list Z) : list Z :=
  let p := padded m in
  let st := foldl (λ st b, sha1_compress st (word <$> pieces 16 4 b)) sha1_init (pieces (length p) 64 p) in
  mjoin (be_bytes 4 <$> [a1 st; b1 st; c1 st; d1 st; e1 st]).

Definition hmac_sha1 (key msg : list Z) : list Z :=
  let k0 := if 64 <? zlen key then sum1 key else key in
  let k := k0 ++ replicate (64 - length k0) 0 in
  sum1 ((Z.lxor 92 <$> k) ++ sum1 ((Z.lxor 54 <$> k) ++ msg)).

Example sha1_abc : EncodeToString (sum1 (byte_val <$> bytes "abc")) = "a9993e364706816aba3e25717850c26c9cd0d89d".
Proof. vm_compute. reflexivity. Qed.
Example hmac_sha1_test :
  EncodeToString (hmac_sha1 (byte_val <$> bytes "Jefe") (byte_val <$> bytes "what do ya want for nothing?"))
  = "effcdf6ae5eb2fa2d27416d5f184df9c259a7c79".
Proof. vm_compute. reflexivity. Qed.

Lemma length_hmac_sha1 k m : length (hmac_sha1 k m) = 20%nat.
Proof. unfold hmac_sha1, sum1. cbn [fmap list_fmap mjoin list_join]. by rewrite !length_app, !length_be_bytes. Qed.

End GoCodec.
