(* ===== verification/Idempotency.v ===== *)
(** * Idempotency: replay of duplicate requests ([internal/api/middleware/idempotency.go])

    Requests run concurrently, so a request is a program counter, and each
    critical section, each access to the store and the call of the wrapped handler
    is one step.  The wrapped handler is the environment: it writes any response,
    or panics. *)

From S2P Require Import Prelude GoStrings Sha256 Http KVStore.
#[local] Open Scope Z_scope.

Module Idempotency.
Import Http KV.

(** ** Which requests are covered *)

Definition idempotencyHeader : string := "Idempotency-Key".
Definition idempotencyBucket : string := "idempotency".
Definition idempotencyTTLSecs : Z := 86400.

(** src/internal/api/middleware/idempotency.go:134-136 idempotencyMethod *)
Definition idempotencyMethod (m : string) : bool :=
  bool_decide (m = "POST" ∨ m = "PUT" ∨ m = "PATCH").

(** src/internal/api/middleware/idempotency.go:138-140 skipIdempotencyPath *)
Definition skipIdempotencyPath (path : string) : bool := HasPrefix path "/api/v1/auth/".

(** src/internal/api/middleware/idempotency.go:154-165 idempotencyAuthScope *)
Definition idempotencyAuthScope (r : Request) : string :=
  if decide (HeaderGet r "Authorization" ≠ "") then "authorization:" +:+ HeaderGet r "Authorization"
  else if decide (HeaderGet r "X-API-Key" ≠ "") then "api-key:" +:+ HeaderGet r "X-API-Key"
  else if decide (HeaderGet r "Cookie" ≠ "") then "cookie:" +:+ HeaderGet r "Cookie"
  else "anonymous".

(** src/internal/api/middleware/idempotency.go:142-152 scopedIdempotencyKey *)
Definition scopedIdempotencyKey (r : Request) (key body : string) : string :=
  Join [Method r; Path r; key;
        "auth=" +:+ Sha256.sha256_hex (idempotencyAuthScope r);
        "body=" +:+ Sha256.sha256_hex body] ":".

(** What the head of the middleware decides: run the handler without caching, refuse
    an unreadable body, or go on under a key. *)
Inductive admission := Bypass | BadRequest | Scoped (key : string).

(** src/internal/api/middleware/idempotency.go:45-64 IdempotencyMiddleware.head *)
Definition head_decision (kv_present : bool) (r : Request) (body : option string) : admission :=
  if negb (idempotencyMethod (Method r)) || skipIdempotencyPath (Path r) then Bypass
  else if decide (HeaderGet r idempotencyHeader = "") then Bypass
  else if negb kv_present then Bypass
  else match body with
       | None => BadRequest
       | Some b => Scoped (scopedIdempotencyKey r (HeaderGet r idempotencyHeader) b)
       end.

(** ** Responses *)

(** src/internal/api/middleware/idempotency.go:24-28 idempotencyEntry *)
Record idempotencyEntry := { StatusCode : Z; ContentType : string; Body : string }.

#[global] Instance entry_json : JSON idempotencyEntry := {|
  representable := λ e, in_i64 (StatusCode e);
  marshal := λ e, JObj [("status_code", JNum (StatusCode e));
                        ("headers", JObj [("Content-Type", JStr (ContentType e))]);
                        ("body", JBase64 (Body e))];
  unmarshal := λ j d,
    match j with
    | JObj fs =>
        st ← read_int "status_code" fs (StatusCode d);
        ct ← match jfield "headers" fs with
             | Some (JObj hs) => read_str "Content-Type" hs (ContentType d)
             | None | Some JNull => Some (ContentType d)
             | Some _ => None
             end;
        bd ← match jfield "body" fs with
             | Some (JBase64 b) => Some b
             | None => Some (Body d)
             | Some JNull => Some ""
             | Some _ => None
             end;
        Some {| StatusCode := st; ContentType := ct; Body := bd |}
    | JNull => Some d
    | _ => None
    end |}.

#[global] Instance entry_json_laws : JSONLaws idempotencyEntry.
Proof.
  split. intros [st ct bd] d Hr. unfold representable, entry_json, in_i64 in Hr. cbn in Hr.
  change (unmarshal (marshal {| StatusCode := st; ContentType := ct; Body := bd |}) d) with
    (st' ← (if decide (min_int64 ≤ st ≤ max_int64) then Some st else None);
     Some {| StatusCode := st'; ContentType := ct; Body := bd |}).
  by rewrite decide_True by done.
Qed.

Definition zero_entry : idempotencyEntry := {| StatusCode := 0; ContentType := ""; Body := "" |}.

(** What a handler does with its response writer. *)
Inductive action := AWriteHeader (code : Z) | AWrite (b : string) | AContentType (v : string).

(** The recorder and the writer under it: what it remembers, and what the client got.
    src/internal/api/middleware/idempotency.go:168-173 idempotencyRecorder *)
Record idempotencyRecorder := {
  status : Z; body : string; wroteHeader : bool; ctype : string;
  client_status : option Z; client_body : string }.

Definition new_recorder : idempotencyRecorder :=
  {| status := 200; body := ""; wroteHeader := false; ctype := ""; client_status := None;
     client_body := "" |}.

(** src/internal/api/middleware/idempotency.go:175-181 idempotencyRecorder.WriteHeader *)
Definition WriteHeader (r : idempotencyRecorder) (code : Z) : idempotencyRecorder :=
  if wroteHeader r then r
  else {| status := code; body := body r; wroteHeader := true; ctype := ctype r;
          client_status := match client_status r with Some c => Some c | None => Some code end;
          client_body := client_body r |}.

(** The writer underneath sends status 200 before the first byte.
    src/internal/api/middleware/idempotency.go:183-189 idempotencyRecorder.Write *)
Definition Write (r : idempotencyRecorder) (b : string) : idempotencyRecorder :=
  {| status := status r; body := body r +:+ b; wroteHeader := true; ctype := ctype r;
     client_status := match client_status r with Some c => Some c | None => Some 200 end;
     client_body := client_body r +:+ b |}.

Definition act (r : idempotencyRecorder) (a : action) : idempotencyRecorder :=
  match a with
  | AWriteHeader c => WriteHeader r c
  | AWrite b => Write r b
  | AContentType v => {| status := status r; body := body r; wroteHeader := wroteHeader r; ctype := v;
                         client_status := client_status r; client_body := client_body r |}
  end.

Definition record (acts : list action) : idempotencyRecorder := foldl act new_recorder acts.

(** src/internal/api/middleware/idempotency.go:116-125 IdempotencyMiddleware.entry *)
Definition cacheable (acts : list action) : option idempotencyEntry :=
  let r := record acts in
  if (200 <=? status r) && (status r <? 300)
  then Some {| StatusCode := status r; ContentType := ctype r; Body := body r |}
  else None.

(** ** Concurrent requests *)

Inductive outcome :=
| Conflict
| Replayed (e : idempotencyEntry)
| Executed (acts : list action)
| Panicked.

(** Where a request stands: about to read the cache, its handler running since a
    time, its response to be stored, about to clear its in-flight mark, done. *)
Inductive phase :=
| Checking
| InHandler (since : Z)
| Storing (e : idempotencyEntry) (acts : list action) (since : Z)
| Leaving (o : outcome)
| Done (o : outcome).

Definition active (ph : phase) : bool := match ph with Done _ => false | _ => true end.

(** The handler of the request runs or has run, and its outcome is not stored yet. *)
Definition executing (ph : phase) : option Z :=
  match ph with InHandler t | Storing _ _ t => Some t | _ => None end.

Section Server.
Context {S : Type} `{!KVStorer S idempotencyEntry}.

(** [stored] records the last successful write under each key, its time and the request that
    made it. *)
Record server := {
  clock : Z;
  kv : S;
  inFlight : gset string;
  requests : list (string * phase);
  stored : gmap string (Z * (nat * idempotencyEntry)) }.

Definition set_request (s : server) (j : nat) (k : string) (ph : phase) : list (string * phase) :=
  <[j := (k, ph)]> (requests s).

(** The critical section that marks the key.
    src/internal/api/middleware/idempotency.go:66-75 IdempotencyMiddleware.mark *)
Definition enter (s : server) (k : string) : server :=
  if decide (k ∈ inFlight s) then
    {| clock := clock s; kv := kv s; inFlight := inFlight s;
       requests := requests s ++ [(k, Done Conflict)]; stored := stored s |}
  else
    {| clock := clock s; kv := kv s; inFlight := {[ k ]} ∪ inFlight s;
       requests := requests s ++ [(k, Checking)]; stored := stored s |}.

(** The read of the cache: a hit is replayed, any failure runs the handler.
    src/internal/api/middleware/idempotency.go:84-106 IdempotencyMiddleware.lookup *)
Definition check (s : server) (j : nat) : option server :=
  match requests s !! j with
  | Some (k, Checking) =>
      let ph := match kv_Get (clock s) (kv s) idempotencyBucket k zero_entry with
                | Ok e => Leaving (Replayed e)
                | Err _ => InHandler (clock s)
                end in
      Some {| clock := clock s; kv := kv s; inFlight := inFlight s;
              requests := set_request s j k ph; stored := stored s |}
  | _ => None
  end.

(** The handler returns after writing its response, or panics ([None]).
    src/internal/api/middleware/idempotency.go:108-117 IdempotencyMiddleware.serve *)
Definition handler_returns (s : server) (j : nat) (acts : option (list action)) : option server :=
  match requests s !! j with
  | Some (k, InHandler t) =>
      let ph := match acts with
                | None => Leaving Panicked
                | Some a => match cacheable a with
                            | Some e => Storing e a t
                            | None => Leaving (Executed a)
                            end
                end in
      Some {| clock := clock s; kv := kv s; inFlight := inFlight s;
              requests := set_request s j k ph; stored := stored s |}
  | _ => None
  end.

(** The write to the cache; [ok = false] is a write that fails and changes nothing.
    src/internal/api/middleware/idempotency.go:126-128 IdempotencyMiddleware.store *)
Definition store_response (s : server) (j : nat) (ok : bool) : option server :=
  match requests s !! j with
  | Some (k, Storing e a t) =>
      Some (if ok then
        {| clock := clock s;
           kv := (kv_Set (clock s) (kv s) idempotencyBucket k e idempotencyTTLSecs).1;
           inFlight := inFlight s; requests := set_request s j k (Leaving (Executed a));
           stored := <[k := (clock s, (j, e))]> (stored s) |}
      else
        {| clock := clock s; kv := kv s; inFlight := inFlight s;
           requests := set_request s j k (Leaving (Executed a)); stored := stored s |})
  | _ => None
  end.

(** The deferred critical section.
    src/internal/api/middleware/idempotency.go:77-82 IdempotencyMiddleware.unmark *)
Definition leave (s : server) (j : nat) : option server :=
  match requests s !! j with
  | Some (k, Leaving o) =>
      Some {| clock := clock s; kv := kv s; inFlight := inFlight s ∖ {[ k ]};
              requests := set_request s j k (Done o); stored := stored s |}
  | _ => None
  end.

Inductive label :=
| LTime (t : Z)
| LEnter (k : string)
| LCheck (j : nat)
| LHandler (j : nat) (acts : option (list action))
| LStore (j : nat) (ok : bool)
| LLeave (j : nat).

Definition exec (s : server) (l : label) : option server :=
  match l with
  | LTime t =>
      if (clock s <=? t) && (t + idempotencyTTLSecs <=? max_int64) then
        Some {| clock := t; kv := kv s; inFlight := inFlight s; requests := requests s;
                stored := stored s |}
      else None
  | LEnter k => Some (enter s k)
  | LCheck j => check s j
  | LHandler j a => handler_returns s j a
  | LStore j ok => store_response s j ok
  | LLeave j => leave s j
  end.

Definition step (s s' : server) : Prop := ∃ l, exec s l = Some s'.

Definition start (kv0 : S) : server :=
  {| clock := 0; kv := kv0; inFlight := ∅; requests := []; stored := ∅ |}.

(** ** Invariant *)

(** The handler of the request has run and written this. *)
Definition answered (ph : phase) : option (list action) :=
  match ph with Leaving (Executed acts) | Done (Executed acts) => Some acts | _ => None end.

Context `{!KVLaws S idempotencyEntry}.

Record srv_ok (s : server) : Prop := {
  v_clock : 0 ≤ clock s ∧ clock s + idempotencyTTLSecs ≤ max_int64;
  v_inflight : ∀ k, k ∈ inFlight s ↔ ∃ j ph, requests s !! j = Some (k, ph) ∧ active ph = true;
  v_unique : ∀ j1 j2 k ph1 ph2, requests s !! j1 = Some (k, ph1) → requests s !! j2 = Some (k, ph2) →
    active ph1 = true → active ph2 = true → j1 = j2;
  v_stored : ∀ k t i e, stored s !! k = Some (t, (i, e)) →
    (∀ t', t' < t + idempotencyTTLSecs → kv_Get t' (kv s) idempotencyBucket k zero_entry = Ok e) ∧
    (∀ t' e', kv_Get t' (kv s) idempotencyBucket k zero_entry = Ok e' → e' = e) ∧
    ∃ ph acts, requests s !! i = Some (k, ph) ∧ answered ph = Some acts ∧ cacheable acts = Some e;
  v_empty : ∀ k, stored s !! k = None →
    ∀ t', is_ok (kv_Get t' (kv s) idempotencyBucket k zero_entry) = false;
  v_executing : ∀ j k ph since, requests s !! j = Some (k, ph) → executing ph = Some since →
    since ≤ clock s ∧ ∀ t e, stored s !! k = Some (t, e) → t + idempotencyTTLSecs ≤ since;
  v_storing : ∀ j k e acts t, requests s !! j = Some (k, Storing e acts t) → cacheable acts = Some e }.

(** A request moves from one active phase to another. *)
Lemma set_active s j k ph ph' :
  requests s !! j = Some (k, ph) → active ph = true → active ph' = true →
  (∀ k0, k0 ∈ inFlight s ↔ ∃ i p, requests s !! i = Some (k0, p) ∧ active p = true) →
  ∀ k0, k0 ∈ inFlight s ↔ ∃ i p, set_request s j k ph' !! i = Some (k0, p) ∧ active p = true.
Proof.
  intros Hj Ha Ha' H k0. rewrite H. unfold set_request. split; intros (i & p & Hi & Hp).
  - destruct (decide (j = i)) as [<-|Hne].
    + simplify_eq. exists j, ph'. rewrite list_lookup_insert_eq by (by eapply lookup_lt_Some). done.
    + exists i, p. by rewrite list_lookup_insert_ne.
  - rewrite list_lookup_insert in Hi. case_decide as E; [destruct E as [-> _]|]; simplify_eq; eauto.
Qed.

(** What holds of every request holds after one changes its phase. *)
Lemma set_request_inv s j k ph i k' p :
  set_request s j k ph !! i = Some (k', p) →
  (i = j ∧ k' = k ∧ p = ph) ∨ (i ≠ j ∧ requests s !! i = Some (k', p)).
Proof.
  unfold set_request. rewrite list_lookup_insert. case_decide as E; intros H.
  - destruct E as [-> _]. simplify_eq. auto.
  - destruct (decide (i = j)) as [->|]; [|auto]. right. exfalso. apply lookup_lt_Some in H. by apply E.
Qed.

Lemma set_unique s j k ph ph' :
  requests s !! j = Some (k, ph) → (active ph' = true → active ph = true) →
  (∀ j1 j2 k ph1 ph2, requests s !! j1 = Some (k, ph1) → requests s !! j2 = Some (k, ph2) →
    active ph1 = true → active ph2 = true → j1 = j2) →
  ∀ j1 j2 k0 ph1 ph2, set_request s j k ph' !! j1 = Some (k0, ph1) →
    set_request s j k ph' !! j2 = Some (k0, ph2) → active ph1 = true → active ph2 = true → j1 = j2.
Proof.
  intros Hj Ha H j1 j2 k0 ph1 ph2 H1%set_request_inv H2%set_request_inv A1 A2.
  destruct H1 as [(? & ? & ?)|[Hn1 H1]], H2 as [(? & ? & ?)|[Hn2 H2]]; subst; try done; eauto.
Qed.

Lemma cacheable_representable acts e : cacheable acts = Some e → representable e.
Proof.
  unfold cacheable. case_match eqn:E; [|done]. intros [= <-]. bools.
  change (in_i64 (status (record acts))). unfold in_i64, min_int64, max_int64. lia.
Qed.

(** What a request has answered stays what it has answered. *)
Lemma set_answered s j k ph ph' i k0 p acts :
  requests s !! j = Some (k, ph) → (∀ a, answered ph = Some a → answered ph' = Some a) →
  requests s !! i = Some (k0, p) → answered p = Some acts →
  ∃ p', set_request s j k ph' !! i = Some (k0, p') ∧ answered p' = Some acts.
Proof.
  intros Hj Ha Hi Hp. unfold set_request. destruct (decide (j = i)) as [<-|Hne].
  - simplify_eq. exists ph'. rewrite list_lookup_insert_eq by (by eapply lookup_lt_Some). eauto.
  - exists p. by rewrite list_lookup_insert_ne.
Qed.

(** One step of a request that leaves the store alone. *)
Lemma phase_step_ok s j k ph ph' :
  srv_ok s → requests s !! j = Some (k, ph) → active ph = true → active ph' = true →
  (∀ since, executing ph' = Some since →
     since ≤ clock s ∧ ∀ t e, stored s !! k = Some (t, e) → t + idempotencyTTLSecs ≤ since) →
  (∀ e acts t, ph' = Storing e acts t → cacheable acts = Some e) →
  (∀ a, answered ph = Some a → answered ph' = Some a) →
  srv_ok {| clock := clock s; kv := kv s; inFlight := inFlight s;
            requests := set_request s j k ph'; stored := stored s |}.
Proof.
  intros [Hc Hi Hu Hs He Hx Hst] Hj Ha Ha' Hex Hsto Hans.
  split; cbn [clock kv inFlight requests stored]; try done.
  - by eapply set_active.
  - by eapply set_unique.
  - intros k0 t i e Hk. destruct (Hs _ _ _ _ Hk) as (H1 & H2 & p & acts & Hp & Hpa & Hc'). split_and!; [done|done|].
    destruct (set_answered s j k ph ph' i k0 p acts Hj Hans Hp Hpa) as (p' & Hp' & Hpa'). eauto.
  - intros i k0 p since [(-> & -> & ->)|[_ H]]%set_request_inv; [apply Hex|by eapply Hx].
  - intros i k0 e acts t [(-> & -> & <-)|[_ H]]%set_request_inv; [by eapply Hsto|by eapply Hst].
Qed.

Lemma enter_ok s k : srv_ok s → srv_ok (enter s k).
Proof.
  intros [Hc Hi Hu Hs He Hx Hst]. unfold enter.
  assert (Hlk : ∀ ph i k0 p, (requests s ++ [(k, ph)]) !! i = Some (k0, p) →
            requests s !! i = Some (k0, p) ∨ (k0 = k ∧ p = ph ∧ i = length (requests s))).
  { intros ph i k0 p [H|[Hle H]]%lookup_app_Some; [by left|right].
    apply list_lookup_singleton_Some in H as [Hz [= <- <-]]. split_and!; try done. lia. }
  assert (Hl : ∀ ph i x, requests s !! i = Some x → (requests s ++ [(k, ph)]) !! i = Some x)
    by (intros; by apply lookup_app_l_Some).
  case_decide as Ek; split; cbn [clock kv inFlight requests stored]; try done.
  - intros k0. rewrite Hi. split; intros (i & p & H & Hp); [eauto 10|].
    apply Hlk in H as [H|(-> & -> & _)]; [eauto|done].
  - intros j1 j2 k0 p1 p2 H1 H2 A1 A2.
    apply Hlk in H1 as [H1|(-> & -> & _)]; [|done]. apply Hlk in H2 as [H2|(-> & -> & _)]; [|done]. eauto.
  - intros k0 t i e Hk. destruct (Hs _ _ _ _ Hk) as (H1 & H2 & p & acts & Hp & Hpa). split_and!; eauto.
  - intros i k0 p since H Hp. apply Hlk in H as [H|(-> & -> & _)]; [by eapply Hx|done].
  - intros i k0 e a t H. apply Hlk in H as [H|(_ & ? & _)]; [by eapply Hst|done].
  - intros k0. rewrite elem_of_union, elem_of_singleton, Hi. split.
    + intros [->|(i & p & H & Hp)]; [|eauto 10]. exists (length (requests s)), Checking.
      split; [|done]. rewrite lookup_app_r, Nat.sub_diag by done. done.
    + intros (i & p & H & Hp). apply Hlk in H as [H|(-> & _ & _)]; eauto.
  - intros j1 j2 k0 p1 p2 H1 H2 A1 A2.
    apply Hlk in H1 as [H1|(-> & -> & ->)]; apply Hlk in H2 as [H2|(? & -> & ->)]; try done; eauto.
    + subst. exfalso. apply Ek, Hi. eauto.
    + exfalso. apply Ek, Hi. eauto.
  - intros k0 t i e Hk. destruct (Hs _ _ _ _ Hk) as (H1 & H2 & p & acts & Hp & Hpa). split_and!; eauto.
  - intros i k0 p since H Hp. apply Hlk in H as [H|(-> & -> & _)]; [by eapply Hx|done].
  - intros i k0 e a t H. apply Hlk in H as [H|(_ & ? & _)]; [by eapply Hst|done].
Qed.

Lemma leave_ok s j s' : srv_ok s → leave s j = Some s' → srv_ok s'.
Proof.
  intros [Hc Hi Hu Hs He Hx Hst] H. unfold leave in H.
  destruct (requests s !! j) as [[k ph]|] eqn:Ej; [|done]. destruct ph; try done. injection H as <-.
  split; cbn [clock kv inFlight requests stored]; try done.
  - intros k0. rewrite elem_of_difference, elem_of_singleton, Hi. split.
    + intros [(i & p & H & Hp) Hne]. exists i, p. unfold set_request.
      rewrite list_lookup_insert_ne; [done|]. intros <-. by simplify_eq.
    + intros (i & p & [(-> & -> & ->)|[Hn H]]%set_request_inv & Hp); [done|]. split; [eauto|].
      intros ->. apply Hn. by eapply Hu.
  - by eapply set_unique.
  - intros k0 t i e Hk. destruct (Hs _ _ _ _ Hk) as (H1 & H2 & p & acts & Hp & Hpa & Hc'). split_and!; [done|done|].
    destruct (set_answered s j k (Leaving o) (Done o) i k0 p acts Ej (λ a H, H) Hp Hpa) as (p' & Hp' & Hpa'). eauto.
  - intros i k0 p since [(-> & -> & ->)|[_ H]]%set_request_inv; [done|by eapply Hx].
  - intros i k0 e a t [(-> & -> & ?)|[_ H]]%set_request_inv; [done|by eapply Hst].
Qed.

Lemma store_ok s j ok s' : srv_ok s → store_response s j ok = Some s' → srv_ok s'.
Proof.
  intros Hok H. unfold store_response in H.
  destruct (requests s !! j) as [[k ph]|] eqn:Ej; [|done]. destruct ph as [| |e acts since| |]; try done.
  injection H as <-. destruct ok; [|by eapply phase_step_ok].
  pose proof Hok as [Hc Hi Hu Hs He Hx Hst]. pose proof (Hst _ _ _ _ _ Ej) as Hca.
  pose proof (cacheable_representable _ _ Hca) as Hrep.
  split; cbn [clock kv inFlight requests stored]; try done.
  - by eapply set_active.
  - by eapply set_unique.
  - intros k0 t0 i0 e0. rewrite lookup_insert. case_decide as Ek.
    + intros [= <- <- <-]. subst k0. split_and!.
      * intros t' Ht'. apply kv_get_set_live; try done; [apply Hc|apply Hc|by right].
      * intros t' e'. by apply (kv_get_set_only (S := S)).
      * exists (Leaving (Executed acts)), acts. unfold set_request. rewrite list_lookup_insert_eq by (by eapply lookup_lt_Some). done.
    + intros Hk. destruct (Hs _ _ _ _ Hk) as (H1 & H2 & p & a & Hp & Hpa & Hc').
      split_and!; [intros; rewrite kv_get_set_other in * by congruence; eauto..|].
      destruct (set_answered s j k _ (Leaving (Executed acts)) i0 k0 p a Ej ltac:(done) Hp Hpa) as (p' & Hp' & Hpa'). eauto.
  - intros k0. rewrite lookup_insert. case_decide; [done|]. intros Hk t'.
    rewrite kv_get_set_other by congruence. by apply He.
  - intros i k0 p t0 [(-> & -> & ->)|[Hn H]]%set_request_inv Hp; [done|].
    destruct (Hx _ _ _ _ H Hp) as [Hle Hexp]. split; [done|]. intros t e0. rewrite lookup_insert.
    case_decide as Ek; [|apply Hexp]. subst k0. exfalso. apply Hn.
    eapply (Hu i j k p); try done. by destruct p.
  - intros i k0 e0 a t [(-> & -> & ?)|[_ H]]%set_request_inv; [done|by eapply Hst].
Qed.

Lemma check_ok s j s' : srv_ok s → check s j = Some s' → srv_ok s'.
Proof.
  intros Hok H. unfold check in H.
  destruct (requests s !! j) as [[k ph]|] eqn:Ej; [|done]. destruct ph; try done. injection H as <-.
  eapply phase_step_ok; [done|done|done|by case_match| |by case_match|done].
  destruct (kv_Get (clock s) (kv s) idempotencyBucket k zero_entry) as [|er] eqn:Eg; [done|].
  intros since [= <-]. split; [lia|]. intros t [i e] Hse.
  destruct (decide (clock s < t + idempotencyTTLSecs)) as [Hlt|]; [|lia].
  destruct (v_stored _ Hok _ _ _ _ Hse) as (Hlive & _). by rewrite (Hlive _ Hlt) in Eg.
Qed.

Lemma handler_ok s j acts s' : srv_ok s → handler_returns s j acts = Some s' → srv_ok s'.
Proof.
  intros Hok H. unfold handler_returns in H.
  destruct (requests s !! j) as [[k ph]|] eqn:Ej; [|done]. destruct ph as [|t0| | |]; try done.
  injection H as <-. eapply phase_step_ok; [done|done|done|by repeat case_match| | |done].
  - intros since Hex. assert (since = t0) as ->.
    { destruct acts as [a|]; [destruct (cacheable a)|]; cbn in Hex; congruence. }
    by eapply (v_executing _ Hok).
  - intros e a t Hph. destruct acts as [a'|]; [|done].
    destruct (cacheable a') eqn:E; [|done]. by simplify_eq.
Qed.

Lemma idem_exec_ok s l s' : srv_ok s → exec s l = Some s' → srv_ok s'.
Proof.
  intros Hok H. destruct l; cbn [exec] in H.
  - case_match eqn:E; [|done]. injection H as <-. bools. destruct Hok as [Hc Hi Hu Hs He Hx Hst].
    split; cbn [clock kv inFlight requests stored]; try done; [lia|].
    intros j k ph since Hj Hp. destruct (Hx _ _ _ _ Hj Hp). split; [lia|done].
  - injection H as <-. by apply enter_ok.
  - by eapply check_ok.
  - by eapply handler_ok.
  - by eapply store_ok.
  - by eapply leave_ok.
Qed.

Lemma start_ok kv0 :
  (∀ k t, is_ok (kv_Get t kv0 idempotencyBucket k zero_entry) = false) → srv_ok (start kv0).
Proof.
  intros H. split; cbn; try done.
  - intros k. split; [set_solver|]. by intros (j & ph & Hj & _).
Qed.

Lemma idem_reach_ok kv0 s :
  (∀ k t, is_ok (kv_Get t kv0 idempotencyBucket k zero_entry) = false) →
  rtc step (start kv0) s → srv_ok s.
Proof.
  intros H Hr. apply start_ok in H. induction Hr as [|x y z [l Hl] _ IH]; [done|].
  by eapply IH, idem_exec_ok.
Qed.

End Server.
Arguments server : clear implicits.

(** ** What the recorder remembers is what the client got *)

Definition rec_ok (r : idempotencyRecorder) : Prop :=
  body r = client_body r ∧
  if wroteHeader r then client_status r = Some (status r) ∨ (client_status r = Some 200 ∧ status r = 200)
  else client_status r = None ∧ status r = 200.

Lemma act_ok r a : rec_ok r → rec_ok (act r a).
Proof.
  unfold rec_ok. intros [Hb Hs]. destruct a; cbn.
  - unfold WriteHeader. destruct (wroteHeader r) eqn:E; [by rewrite E|]. cbn.
    destruct Hs as [-> _]. by split; [|left].
  - rewrite Hb. split; [done|]. destruct (wroteHeader r); [destruct Hs as [->|[-> ->]]; auto|].
    destruct Hs as [-> ->]. auto.
  - by destruct (wroteHeader r).
Qed.

Lemma record_ok acts : rec_ok (record acts).
Proof.
  unfold record. assert (H : rec_ok new_recorder) by done. revert H. generalize new_recorder.
  induction acts as [|a acts IH]; intros r H; [done|]. cbn. by apply IH, act_ok.
Qed.

Lemma cacheable_client acts e :
  cacheable acts = Some e →
  Body e = client_body (record acts) ∧ StatusCode e = default 200 (client_status (record acts)).
Proof.
  unfold cacheable. case_match; [|done]. intros [= <-]. cbn.
  destruct (record_ok acts) as [Hb Hs]. split; [done|].
  destruct (wroteHeader (record acts)); [destruct Hs as [->|[-> ->]]; done|by destruct Hs as [-> ->]].
Qed.

(** C1. Exactly-once execution under concurrency, for any key-value store that keeps its promises
    on reads and on the writes that succeed, starting without an entry; writes may fail at
    will.  At most one request of a key is in its handler at a time, no handler starts within 24
    hours of a stored success for the same key, and in that time a duplicate is answered with
    the status and the body that the client of the very request that stored the entry received. *)
Theorem idempotency_exactly_once {S} `{!KVStorer S idempotencyEntry, !KVLaws S idempotencyEntry}
    (kv0 : S) s :
  (∀ k t, is_ok (kv_Get t kv0 idempotencyBucket k zero_entry) = false) →
  rtc step (start kv0) s →
  (∀ j1 j2 k p1 p2 t1 t2, requests s !! j1 = Some (k, p1) → requests s !! j2 = Some (k, p2) →
     executing p1 = Some t1 → executing p2 = Some t2 → j1 = j2) ∧
  (∀ j k ph since t e, requests s !! j = Some (k, ph) → executing ph = Some since →
     stored s !! k = Some (t, e) → t + 86400 ≤ since) ∧
  (∀ j k t i e, requests s !! j = Some (k, Checking) → stored s !! k = Some (t, (i, e)) →
     clock s < t + 86400 →
     ∃ s' ph acts, check s j = Some s' ∧ requests s' !! j = Some (k, Leaving (Replayed e)) ∧
       requests s !! i = Some (k, ph) ∧ answered ph = Some acts ∧
       Body e = client_body (record acts) ∧
       StatusCode e = default 200 (client_status (record acts))).
Proof.
  intros H0 Hr. pose proof (idem_reach_ok kv0 s H0 Hr) as Hok. split_and!.
  - intros j1 j2 k p1 p2 t1 t2 H1 H2 E1 E2. eapply (v_unique _ Hok); try done; by destruct p1, p2.
  - intros j k ph since t e Hj Hp Hs. by eapply (v_executing _ Hok).
  - intros j k t i e Hj Hs Ht. destruct (v_stored _ Hok _ _ _ _ Hs) as (Hlive & _ & ph & acts & Hp & Hpa & Ha).
    eexists _, ph, acts. unfold check. rewrite Hj, (Hlive _ Ht). split_and!; [done| |done|done|by apply cacheable_client..].
    cbn. apply list_lookup_insert_eq. by eapply lookup_lt_Some.
Qed.

(** A POST succeeds, is stored, and its duplicate arrives a minute later. *)
Definition ok_acts : list action := [AContentType "application/json"; AWriteHeader 201; AWrite "done"].

Definition duplicate_labels : list label :=
  [LTime 100; LEnter "k"; LCheck 0; LHandler 0 (Some ok_acts); LStore 0 true; LLeave 0;
   LTime 160; LEnter "k"].

Fixpoint run (s : server KVStore) (ls : list label) : option (server KVStore) :=
  match ls with [] => Some s | l :: ls => s' ← exec s l; run s' ls end.

Lemma idem_run_steps s ls s' : run s ls = Some s' → rtc step s s'.
Proof.
  revert s. induction ls as [|l ls IH]; cbn [run]; intros s H; [by injection H as <-|].
  destruct (exec s l) as [s1|] eqn:E; [|done]. eapply rtc_l; [by exists l|by apply IH].
Qed.

Definition duplicate_state : server KVStore := default (start empty_store) (run (start empty_store) duplicate_labels).

Lemma duplicate_reachable : rtc step (start empty_store) duplicate_state.
Proof.
  apply (idem_run_steps _ duplicate_labels). unfold duplicate_state.
  destruct (run (start empty_store) duplicate_labels) eqn:E; [done|].
  exfalso. revert E. vm_compute. discriminate.
Qed.

Lemma idempotency_exactly_once_witness :
  ∃ s' ph acts e, check duplicate_state 1 = Some s' ∧ requests s' !! 1%nat = Some ("k", Leaving (Replayed e)) ∧
    requests duplicate_state !! 0%nat = Some ("k", ph) ∧ answered ph = Some acts ∧ Body e = client_body (record acts) ∧ Body e = "done".
Proof.
  destruct (proj2 (proj2 (idempotency_exactly_once empty_store duplicate_state ltac:(done) duplicate_reachable))
    1%nat "k" 100 0%nat {| StatusCode := 201; ContentType := "application/json"; Body := "done" |})
    as (s' & ph & acts & H1 & H2 & H3 & H4 & H5 & _); [vm_compute; reflexivity..|].
  exists s', ph, acts. eexists. split; [exact H1|]. split; [exact H2|]. split; [exact H3|]. split; [exact H4|]. split; [exact H5|reflexivity].
Defined.

(** ** Scope of a key *)

(** Splitting at the first separator, when the first parts do not contain it. *)
Lemma app_sep_inj (c : ascii) (l1 l2 r1 r2 : list ascii) :
  c ∉ l1 → c ∉ l2 → l1 ++ c :: r1 = l2 ++ c :: r2 → l1 = l2 ∧ r1 = r2.
Proof.
  revert l2. induction l1 as [|x l1 IH]; intros [|y l2] H1 H2 E; cbn in E; simplify_eq; try done.
  - exfalso. apply H2. by left.
  - exfalso. apply H1. by left.
  - destruct (IH l2) as [-> ->]; [set_solver|set_solver|done|done].
Qed.

Lemma method_no_colon m : idempotencyMethod m = true → ":"%char ∉ bytes m.
Proof.
  unfold idempotencyMethod. rewrite bool_decide_eq_true.
  intros [-> | [-> | ->]]; apply (bool_decide_unpack _); vm_compute; exact I.
Qed.

(** The key without its last two fields, and those two, of fixed length. *)
Lemma scoped_key_bytes r k b :
  bytes (scopedIdempotencyKey r k b) =
    (bytes (Method r) ++ ":"%char :: (bytes (Path r) ++ ":"%char :: bytes k)) ++
    ((bytes ":auth=" ++ bytes (Sha256.sha256_hex (idempotencyAuthScope r))) ++
     (bytes ":body=" ++ bytes (Sha256.sha256_hex b))).
Proof.
  unfold scopedIdempotencyKey. cbn [Join]. rewrite !bytes_app.
  change (bytes ":") with [":"%char]. change (bytes ":auth=") with (":"%char :: bytes "auth=").
  change (bytes ":body=") with (":"%char :: bytes "body=").
  by repeat (cbn [app]; rewrite <-!app_assoc).
Qed.

(** Two covered requests share a cache key exactly when they agree in method,
    in the digest of their credentials, in the digest of their body, and in the
    text [path:key]: responses are never replayed to other credentials, but a colon
    in the path and one in the client's key are not told apart. *)
Theorem scoped_key_scope r1 k1 b1 r2 k2 b2 :
  idempotencyMethod (Method r1) = true → idempotencyMethod (Method r2) = true →
  scopedIdempotencyKey r1 k1 b1 = scopedIdempotencyKey r2 k2 b2 ↔
  Method r1 = Method r2 ∧ (Path r1 +:+ ":" +:+ k1) = (Path r2 +:+ ":" +:+ k2) ∧
  Sha256.sha256_hex (idempotencyAuthScope r1) = Sha256.sha256_hex (idempotencyAuthScope r2) ∧
  Sha256.sha256_hex b1 = Sha256.sha256_hex b2.
Proof.
  intros Hm1 Hm2. split.
  - intros E. apply (f_equal bytes) in E. rewrite !scoped_key_bytes in E.
    assert (Hlen : ∀ x, length (bytes (Sha256.sha256_hex x)) = 64%nat)
      by (intros; apply Sha256.length_sha256_hex).
    apply app_inj_2 in E as [E1 E2]; [|by rewrite !length_app, !Hlen].
    apply app_inj_2 in E2 as [E2 E3]; [|by rewrite !length_app, !Hlen].
    apply app_inv_head, bytes_inj in E2. apply app_inv_head, bytes_inj in E3.
    apply app_sep_inj in E1 as [Em Ep]; [|by apply method_no_colon..].
    apply bytes_inj in Em. split_and!; try done. apply bytes_inj. by rewrite !bytes_app.
  - intros (Em & Ep & Ea & Eb). apply bytes_inj. rewrite !scoped_key_bytes, Em, Ea, Eb.
    apply (f_equal bytes) in Ep. rewrite !bytes_app in Ep.
    change (bytes ":") with [":"%char] in Ep. cbn [app] in Ep. by rewrite Ep.
Qed.

Definition post (path : string) : Request :=
  {| Method := "POST"; Path := path; Header := {[ "Authorization" := "Bearer t" ]};
     Cookies := ∅; RemoteAddr := "203.0.113.9:4000" |}.

(** The same client's posts to [/a] with key [b:c] and to [/a:b] with key [c]. *)
Lemma scoped_key_scope_witness :
  scopedIdempotencyKey (post "/a") "b:c" "" = scopedIdempotencyKey (post "/a:b") "c" "".
Proof. apply (scoped_key_scope (post "/a") "b:c" "" (post "/a:b") "c" ""); vm_compute; auto. Defined.

End Idempotency.
