(* ===== verification/Jwt.v ===== *)
(** * Jwt: access and refresh tokens ([internal/auth/jwt.go])

    Issuing, validation, key rotation and revocation.  The token library is a
    parameter, the class [JWTLib]: it signs a payload and gives the payload of a
    token back when the signature fits the key.  What the library checks of a
    payload's registered claims is written out.  An operation reads the clock once. *)

From S2P Require Import Prelude GoStrings GoTime KVStore.
#[local] Open Scope Z_scope.

Module Jwt.
Import GoTime KV.

(** ** Tokens *)

(** The JSON object of either kind of token; a field that is absent reads as its
    zero value.  Dates are whole seconds.
    src/internal/auth/jwt.go:27-33 Claims *)
Record payload := {
  exp : option instant; nbf : option instant; iat : option instant;
  jti : string; sub : string; iss : string; aud : list string;
  uid : string; tid : string; rid : string; email : string; fia : Z }.

Class JWTLib := {
  sign : string → payload → string;
  verify : string → string → option payload }.

(** The library's promises: a token verifies under the key that signed it and,
    whatever the key, a token only ever yields the payload it carries. *)
Class JWTLaws `{JWTLib} := {
  verify_sign : ∀ k p, verify k (sign k p) = Some p;
  verify_payload : ∀ k k' p p', verify k' (sign k p) = Some p' → p' = p }.

Definition tokenIssuer : string := "deploymonster".
Definition tokenAudience : string := "deploymonster".

(** The registered claims, as [ParseWithClaims] checks them with [WithIssuer] and
    [WithAudience]: dates only when present. *)
Definition claims_valid (now : instant) (p : payload) : bool :=
  match exp p with Some e => now <? e | None => true end &&
  match nbf p with Some n => n <=? now | None => true end &&
  bool_decide (iss p = tokenIssuer) && bool_decide (tokenAudience ∈ aud p).

(** [jwt.NewNumericDate]: whole seconds. *)
Definition numeric_date (t : instant) : instant := t - t mod Second.

(** ** The service *)

Definition RotationGracePeriod : duration := 20 * Minute.

(** src/internal/auth/jwt.go:58-65 JWTService *)
Record JWTService := {
  secretKey : string;
  previousKeys : list string;
  previousAdded : list instant;
  accessExpiry : duration;
  refreshExpiry : duration }.

Definition with_previous (j : JWTService) (ks : list string) (ts : list instant) : JWTService :=
  {| secretKey := secretKey j; previousKeys := ks; previousAdded := ts;
     accessExpiry := accessExpiry j; refreshExpiry := refreshExpiry j |}.

Inductive jwt_error := ErrSecretTooShort | ErrTokenSignatureInvalid | ErrSessionExpired.

(** src/internal/auth/jwt.go:72-98 NewJWTService *)
Definition NewJWTService (secret : string) (previousSecrets : list string)
  : result jwt_error JWTService :=
  if Nat.ltb (slen secret) 32 then Err ErrSecretTooShort
  else
    let prev := filter (λ s, s ≠ "") previousSecrets in
    Ok {| secretKey := secret; previousKeys := prev;
          previousAdded := replicate (length prev) zero_time;
          accessExpiry := 15 * Minute; refreshExpiry := 7 * 24 * Hour |}.

(** Whether a key added at [t] is kept. *)
Definition keeps (now : instant) (t : instant) : bool :=
  (t =? zero_time) || (now - RotationGracePeriod <? t).

(** The compaction in place: the loop ranges over the additions as they were when
    it started, [keys] and [added] are overwritten from the front.
    src/internal/auth/jwt.go:141-153 JWTService.purgeExpiredPreviousKeysLocked.loop *)
Fixpoint purge_loop (now : instant) (ranged : list instant) (i validIdx : nat)
    (keys : list string) (added : list instant) : nat * list string * list instant :=
  match ranged with
  | [] => (validIdx, keys, added)
  | _ :: ranged =>
      match added !! i with
      | Some t =>
          if keeps now t then
            let keys' := if Nat.eqb validIdx i then keys
                         else match keys !! i with Some k => <[validIdx := k]> keys | None => keys end in
            let added' := if Nat.eqb validIdx i then added else <[validIdx := t]> added in
            purge_loop now ranged (S i) (S validIdx) keys' added'
          else purge_loop now ranged (S i) validIdx keys added
      | None => purge_loop now ranged (S i) validIdx keys added
      end
  end.

(** src/internal/auth/jwt.go:138-158 JWTService.purgeExpiredPreviousKeysLocked *)
Definition purgeExpiredPreviousKeysLocked (now : instant) (j : JWTService) : JWTService :=
  let '(n, ks, ts) := purge_loop now (previousAdded j) 0 0 (previousKeys j) (previousAdded j) in
  if Nat.ltb n (length (previousKeys j)) then with_previous j (take n ks) (take n ts)
  else with_previous j ks ts.

(** src/internal/auth/jwt.go:103-112 JWTService.AddPreviousKey *)
Definition AddPreviousKey (now : instant) (j : JWTService) (secret : string) : JWTService :=
  if decide (secret = "") then j
  else purgeExpiredPreviousKeysLocked now
         (with_previous j (previousKeys j ++ [secret]) (previousAdded j ++ [now])).

(** src/internal/auth/jwt.go:119-126 JWTService.RevokeAllPreviousKeys *)
Definition RevokeAllPreviousKeys (j : JWTService) : JWTService * nat :=
  (with_previous j [] [], length (previousKeys j)).

(** src/internal/auth/jwt.go:344-355 JWTService.allKeys *)
Definition allKeys (now : instant) (j : JWTService) : JWTService * list string :=
  let j' := purgeExpiredPreviousKeysLocked now j in (j', secretKey j' :: previousKeys j').

(** src/internal/auth/jwt.go:36-41 TokenPair *)
Record TokenPair := { AccessToken : string; RefreshToken : string; ExpiresIn : Z }.

(** The claims of an access token issued at [now] with the identifier [id].
    src/internal/auth/jwt.go:165-178 JWTService.GenerateTokenPair.access *)
Definition access_claims (j : JWTService) (now : instant) (id userID tenantID roleID mail : string)
  : payload :=
  {| exp := Some (numeric_date (now + accessExpiry j)); nbf := Some (numeric_date now);
     iat := Some (numeric_date now); jti := id; sub := ""; iss := tokenIssuer;
     aud := [tokenAudience]; uid := userID; tid := tenantID; rid := roleID; email := mail; fia := 0 |}.

(** src/internal/auth/jwt.go:186-196 JWTService.GenerateTokenPair.refresh *)
Definition refresh_claims (j : JWTService) (now : instant) (id userID : string) : payload :=
  {| exp := Some (numeric_date (now + refreshExpiry j)); nbf := None;
     iat := Some (numeric_date now); jti := id; sub := userID; iss := tokenIssuer;
     aud := [tokenAudience]; uid := ""; tid := ""; rid := ""; email := ""; fia := time_unix now |}.

Section Service.
Context `{JWTLib}.

(** Signing with HS256 and a byte key does not fail; the two identifiers are drawn
    at random.
    src/internal/auth/jwt.go:161-209 JWTService.GenerateTokenPair *)
Definition GenerateTokenPair (j : JWTService) (now : instant) (id1 id2 : string)
    (userID tenantID roleID mail : string) : TokenPair :=
  {| AccessToken := sign (secretKey j) (access_claims j now id1 userID tenantID roleID mail);
     RefreshToken := sign (secretKey j) (refresh_claims j now id2 userID);
     ExpiresIn := seconds_int (accessExpiry j) |}.

(** [jwt.ParseWithClaims] for one key. *)
Definition ParseWithClaims (now : instant) (key tok : string) : option payload :=
  p ← verify key tok; if claims_valid now p then Some p else None.

Fixpoint first_key (now : instant) (keys : list string) (tok : string) : option payload :=
  match keys with
  | [] => None
  | k :: keys => match ParseWithClaims now k tok with
                 | Some p => Some p
                 | None => first_key now keys tok
                 end
  end.

(** src/internal/auth/jwt.go:214-239 JWTService.ValidateAccessToken *)
Definition ValidateAccessToken (now : instant) (j : JWTService) (tok : string)
  : JWTService * result jwt_error payload :=
  let '(j', keys) := allKeys now j in
  (j', match first_key now keys tok with Some p => Ok p | None => Err ErrTokenSignatureInvalid end).

(** src/internal/auth/jwt.go:281-284 RefreshTokenClaims *)
Record RefreshTokenClaims := { rUserID : string; rJTI : string }.

Definition RefreshTokenTTLSeconds : Z := 7 * 24 * 60 * 60.
Definition MaxAbsoluteSessionSeconds : Z := 30 * 24 * 60 * 60.

(** src/internal/auth/jwt.go:308-340 JWTService.ValidateRefreshToken *)
Definition ValidateRefreshToken (now : instant) (j : JWTService) (tok : string)
  : JWTService * result jwt_error RefreshTokenClaims :=
  let '(j', keys) := allKeys now j in
  (j', match first_key now keys tok with
       | None => Err ErrTokenSignatureInvalid
       | Some p =>
           if (0 <? fia p) && (MaxAbsoluteSessionSeconds <? i64 (time_unix now - fia p))
           then Err ErrSessionExpired
           else Ok {| rUserID := sub p; rJTI := jti p |}
       end).

End Service.

(** ** Revocation of access tokens *)

(** src/internal/auth/jwt.go:242-246 AccessTokenRevocation *)
Record AccessTokenRevocation := { revJTI : string; revExpiresAt : instant; revUserID : string }.

#[global] Instance revocation_json : JSON AccessTokenRevocation := {|
  representable := λ _, True;
  marshal := λ r, JObj [("jti", JStr (revJTI r)); ("expires_at", JTime (revExpiresAt r));
                        ("user_id", JStr (revUserID r))];
  unmarshal := λ d r,
    match d with
    | JObj fs => j ← read_str "jti" fs (revJTI r); e ← read_time "expires_at" fs (revExpiresAt r);
                 u ← read_str "user_id" fs (revUserID r);
                 Some {| revJTI := j; revExpiresAt := e; revUserID := u |}
    | JNull => Some r
    | _ => None
    end |}.

#[global] Instance revocation_json_laws : JSONLaws AccessTokenRevocation.
Proof. split. by intros [???] [???] _. Qed.

Definition no_revocation : AccessTokenRevocation :=
  {| revJTI := ""; revExpiresAt := zero_time; revUserID := "" |}.

Section Revocation.
Variable fails : stmt → bool.

(** src/internal/auth/jwt.go:251-265 JWTService.RevokeAccessToken *)
Definition RevokeAccessToken (now : instant) (kv : KVStore) (id userID : string) (expiresAt : instant)
  : KVStore * result kv_error unit :=
  let remaining := time_sub expiresAt now in
  if remaining <=? 0 then (kv, Ok tt)
  else Set_ fails (time_unix now) kv "revoked_access_tokens" id
         (Some (marshal {| revJTI := id; revExpiresAt := expiresAt; revUserID := userID |}))
         (seconds_int remaining).

(** src/internal/auth/jwt.go:268-278 JWTService.IsAccessTokenRevoked *)
Definition IsAccessTokenRevoked (now : instant) (kv : option KVStore) (id : string) : bool :=
  match kv with
  | None => false
  | Some kv => is_ok (Get fails (time_unix now) kv "revoked_access_tokens" id no_revocation)
  end.

End Revocation.

(** ** The keys in use *)

Definition wf (j : JWTService) : Prop := length (previousKeys j) = length (previousAdded j).

Definition kept (now : instant) (kts : list (string * instant)) : list (string * instant) :=
  filter (λ kt, keeps now kt.2 = true) kts.

Lemma take_insert_end {A} (l : list A) (v : nat) x :
  (v < length l)%nat → take (S v) (<[v := x]> l) = take v l ++ [x].
Proof.
  intros Hv. rewrite (take_S_r _ _ x) by (by apply list_lookup_insert_eq). f_equal. by rewrite take_insert_ge by lia.
Qed.

(** Moving element [i] to the place [v] before it. *)
Lemma move_front {A} (l : list A) (v i : nat) x :
  l !! i = Some x → (v ≤ i)%nat →
  let l' := if Nat.eqb v i then l else <[v := x]> l in
  length l' = length l ∧ take (S v) l' = take v l ++ [x] ∧ drop (S i) l' = drop (S i) l.
Proof.
  intros Hx Hv. cbv zeta. pose proof (lookup_lt_Some _ _ _ Hx). destruct (Nat.eqb_spec v i) as [->|].
  - split_and!; [done|by apply take_S_r|done].
  - rewrite length_insert, drop_insert_lt, take_insert_end by lia. done.
Qed.

(** The loop leaves the kept entries in front, in their order. *)
Lemma purge_loop_spec now ranged : ∀ i v keys added,
  length keys = length added → (i + length ranged = length added)%nat → (v ≤ i)%nat →
  let '(n, ks, ts) := purge_loop now ranged i v keys added in
  let k := kept now (zip (drop i keys) (drop i added)) in
  n = (v + length k)%nat ∧ length ks = length keys ∧ length ts = length added ∧
  take n ks = take v keys ++ k.*1 ∧ take n ts = take v added ++ k.*2.
Proof.
  induction ranged as [|r ranged IH]; intros i v keys added Hl Hi Hv; cbn [purge_loop].
  - cbn in Hi. rewrite (drop_ge keys), (drop_ge added) by lia. cbn. rewrite !app_nil_r, Nat.add_0_r. done.
  - cbn in Hi. destruct (lookup_lt_is_Some_2 added i ltac:(lia)) as [t Ht].
    destruct (lookup_lt_is_Some_2 keys i ltac:(lia)) as [k Hk]. rewrite Ht, Hk.
    rewrite (drop_S keys k i Hk), (drop_S added t i Ht). cbn [zip zip_with]. unfold kept.
    rewrite filter_cons. cbn [snd].
    destruct (keeps now t) eqn:E; [|rewrite decide_False by done; apply IH; lia].
    rewrite decide_True by done. set (K' := if Nat.eqb v i then keys else <[v:=k]> keys).
    set (T' := if Nat.eqb v i then added else <[v:=t]> added).
    destruct (move_front keys v i k Hk Hv) as (HK & EK & DK).
    destruct (move_front added v i t Ht Hv) as (HT & ET & DT). fold K' in HK, EK, DK. fold T' in HT, ET, DT.
    specialize (IH (S i) (S v) K' T' ltac:(lia) ltac:(lia) ltac:(lia)).
    destruct (purge_loop now ranged (S i) (S v) K' T') as [[n ks] ts].
    rewrite DK, DT, EK, ET in IH. unfold kept in IH. destruct IH as (-> & ? & ? & -> & ->).
    rewrite !fmap_cons, <-!app_assoc. cbn [length]. split_and!; done || lia.
Qed.

Lemma purge_eq now j : wf j →
  purgeExpiredPreviousKeysLocked now j =
    with_previous j (kept now (zip (previousKeys j) (previousAdded j))).*1
                    (kept now (zip (previousKeys j) (previousAdded j))).*2.
Proof.
  intros Hw. unfold wf in Hw. unfold purgeExpiredPreviousKeysLocked.
  pose proof (purge_loop_spec now (previousAdded j) 0 0 _ _ Hw ltac:(lia) ltac:(lia)) as H.
  destruct (purge_loop _ _ _ _ _ _) as [[n ks] ts]. rewrite !drop_0, !take_0 in H. cbn [app Nat.add] in H.
  destruct H as (Hn & Hk & Ht & Eks & Ets). destruct (Nat.ltb_spec n (length (previousKeys j))).
  - by rewrite Eks, Ets.
  - by rewrite <-Eks, <-Ets, !take_ge by lia.
Qed.

(** The purge of expired keys, which compacts two slices in place, is the filter
    of the keys that are still in their grace period: same keys, same order, and the
    two slices stay aligned. *)
Theorem purge_is_filter now j : wf j →
  let live := kept now (zip (previousKeys j) (previousAdded j)) in
  purgeExpiredPreviousKeysLocked now j = with_previous j live.*1 live.*2 ∧
  wf (purgeExpiredPreviousKeysLocked now j).
Proof. intros Hw. rewrite purge_eq by done. split; [done|]. unfold wf. cbn. by rewrite !length_fmap. Qed.

Definition rotated : JWTService :=
  {| secretKey := "current"; previousKeys := ["old"; "config"; "recent"];
     previousAdded := [100 * Minute; zero_time; 130 * Minute];
     accessExpiry := 15 * Minute; refreshExpiry := 7 * 24 * Hour |}.

Lemma purge_is_filter_witness :
  previousKeys (purgeExpiredPreviousKeysLocked (140 * Minute) rotated) = ["config"; "recent"].
Proof. destruct (purge_is_filter (140 * Minute) rotated eq_refl) as [-> _]. vm_compute. reflexivity. Defined.

(** The keys a validation tries. *)
Definition accepted (now : instant) (j : JWTService) (k : string) : Prop :=
  k = secretKey j ∨ ∃ t, (k, t) ∈ zip (previousKeys j) (previousAdded j) ∧ keeps now t = true.

Lemma allKeys_accepted now j k : wf j → k ∈ (allKeys now j).2 ↔ accepted now j k.
Proof.
  intros Hw. unfold allKeys, accepted. rewrite purge_eq by done. cbn [snd with_previous secretKey previousKeys].
  rewrite elem_of_cons, list_elem_of_fmap. f_equiv. unfold kept. split.
  - intros ([k' t] & -> & [Hk Hin]%list_elem_of_filter). by exists t.
  - intros (t & Hin & Hk). exists (k, t). split; [done|]. by apply list_elem_of_filter.
Qed.

Section Tokens.
Context `{JWTLaws}.

Lemma first_key_sound now keys k p p' :
  first_key now keys (sign k p) = Some p' → p' = p ∧ claims_valid now p = true.
Proof.
  induction keys as [|k' keys IH]; cbn; [done|]. unfold ParseWithClaims.
  destruct (verify k' (sign k p)) as [q|] eqn:E; cbn; [|done].
  apply verify_payload in E as ->. destruct (claims_valid now p) eqn:Ev; [|done]. by intros [= <-].
Qed.

Lemma first_key_complete now keys k p :
  k ∈ keys → claims_valid now p = true → first_key now keys (sign k p) = Some p.
Proof.
  intros Hk Hv. destruct (first_key now keys (sign k p)) as [p'|] eqn:E.
  - by apply first_key_sound in E as [-> _].
  - exfalso. induction keys as [|k' keys IH]; [by apply elem_of_nil in Hk|]. cbn in E.
    destruct (ParseWithClaims now k' (sign k p)) eqn:Ep; [done|].
    apply elem_of_cons in Hk as [->|Hk]; [|by apply IH].
    unfold ParseWithClaims in Ep. rewrite verify_sign in Ep. cbn in Ep. by rewrite Hv in Ep.
Qed.

Lemma validate_issued now j k p :
  wf j → accepted now j k → claims_valid now p = true →
  (ValidateAccessToken now j (sign k p)).2 = Ok p.
Proof.
  intros Hw Hacc%allKeys_accepted Hv; [|done]. unfold ValidateAccessToken.
  destruct (allKeys now j) as [j' keys]. cbn [snd] in *. by rewrite (first_key_complete now keys).
Qed.

Lemma access_claims_valid now t0 j id u tn r m :
  claims_valid now (access_claims j t0 id u tn r m) = true ↔
  numeric_date t0 ≤ now < numeric_date (t0 + accessExpiry j).
Proof. unfold claims_valid. cbn [exp nbf iss aud access_claims]. bools. set_solver by lia. Qed.

Lemma refresh_claims_valid now t0 j id u :
  claims_valid now (refresh_claims j t0 id u) = true ↔ now < numeric_date (t0 + refreshExpiry j).
Proof. unfold claims_valid. cbn [exp nbf iss aud refresh_claims]. bools. set_solver by lia. Qed.

End Tokens.

(** An issued access token is valid exactly for its lifetime: it validates, under
    every service that accepts the issuer's key, from the second it was issued in until
    fifteen minutes later, and yields exactly the claims it was issued with; outside
    that time no service accepts it, and no service ever reads other claims from it. *)
Theorem access_token_lifetime `{JWTLaws} j0 t0 id id' u tn r m j now :
  wf j → let c := access_claims j0 t0 id u tn r m in
  let tok := AccessToken (GenerateTokenPair j0 t0 id id' u tn r m) in
  let life := numeric_date t0 ≤ now < numeric_date (t0 + accessExpiry j0) in
  (∀ p, (ValidateAccessToken now j tok).2 = Ok p → p = c ∧ life) ∧
  (accepted now j (secretKey j0) → life → (ValidateAccessToken now j tok).2 = Ok c).
Proof.
  intros Hw c tok life. split.
  - intros p Hp. unfold ValidateAccessToken in Hp. destruct (allKeys now j) as [j' keys]. cbn [snd] in Hp. destruct (first_key now keys tok) as [q|] eqn:E; [|done]. injection Hp as <-.
    apply first_key_sound in E as [-> Hv]. split; [done|]. by apply access_claims_valid in Hv.
  - intros Hacc Hlife. apply validate_issued; [done..|]. by apply access_claims_valid.
Qed.

(** A concrete library for the examples: the token is the number that encodes key
    and claims. *)
#[global] Instance payload_eq_dec : EqDecision payload.
Proof. solve_decision. Defined.
#[global] Instance payload_countable : Countable payload.
Proof.
  refine (inj_countable'
    (λ p, (exp p, nbf p, iat p, jti p, sub p, iss p, aud p, (uid p, tid p, rid p, email p, fia p)))
    (λ '(e, n, i, j, s, w, a, (u, t, r, m, f)),
      {| exp := e; nbf := n; iat := i; jti := j; sub := s; iss := w; aud := a;
         uid := u; tid := t; rid := r; email := m; fia := f |}) _).
  by intros [].
Defined.

Definition toy_lib : JWTLib := {|
  sign := λ k p, "t" +:+ itoa (Z.pos (encode (k, p)));
  verify := λ k tok,
    match digits_val 0 (bytes (TrimPrefix tok "t")) with
    | Some (Z.pos n) =>
        '(k', p) ← decode (A := string * payload) n; if decide (k' = k) then Some p else None
    | _ => None
    end |}.

Lemma toy_laws : @JWTLaws toy_lib.
Proof.
  split.
  - intros k p. cbn [verify sign toy_lib]. rewrite TrimPrefix_app, digits_val_itoa, decode_encode by done. cbn. by rewrite decide_True.
  - intros k k' p p'. cbn [verify sign toy_lib]. rewrite TrimPrefix_app, digits_val_itoa, decode_encode by done. cbn. by case_decide; intros [=].
Qed.

Definition issuer : JWTService :=
  {| secretKey := "before-rotation"; previousKeys := []; previousAdded := [];
     accessExpiry := 15 * Minute; refreshExpiry := 7 * 24 * Hour |}.

(** The service after a rotation thirteen minutes after the token was issued. *)
Definition issue_time : instant := (unix_epoch_s + 1700000000) * Second.
Definition successor : JWTService :=
  AddPreviousKey (issue_time + 13 * Minute)
    {| secretKey := "after-rotation"; previousKeys := []; previousAdded := [];
       accessExpiry := 15 * Minute; refreshExpiry := 7 * 24 * Hour |} "before-rotation".

Lemma access_token_lifetime_witness :
  (@ValidateAccessToken toy_lib (issue_time + 14 * Minute) successor
     (AccessToken (@GenerateTokenPair toy_lib issuer issue_time "a" "b" "u1" "t1" "role_admin" "x@y.z"))).2
  = Ok (access_claims issuer issue_time "a" "u1" "t1" "role_admin" "x@y.z").
Proof.
  destruct (@access_token_lifetime toy_lib toy_laws issuer issue_time "a" "b" "u1" "t1" "role_admin" "x@y.z"
              successor (issue_time + 14 * Minute) eq_refl) as [_ H].
  apply H.
  - right. exists (issue_time + 13 * Minute). split; [vm_compute; left|vm_compute; reflexivity].
  - vm_compute. split; congruence.
Defined.

(** Rotation: a key that was rotated out is accepted for exactly the grace period of
    twenty minutes, which is longer than an access token lives, so rotation ends no
    session early; an emergency revocation ends the acceptance at once. *)
Theorem rotation_grace j a now k :
  wf j → k ≠ "" → k ≠ secretKey j → k ∉ previousKeys j → zero_time < a ≤ now →
  (accepted now (AddPreviousKey a j k) k ↔ now < a + RotationGracePeriod) ∧
  ¬ accepted now (RevokeAllPreviousKeys (AddPreviousKey a j k)).1 k.
Proof.
  intros Hw Hk Hs Hp Ha. unfold AddPreviousKey. rewrite decide_False by done.
  rewrite purge_eq by (unfold wf in *; cbn; rewrite !length_app, Hw; done).
  unfold accepted. cbn [with_previous RevokeAllPreviousKeys fst secretKey previousKeys previousAdded].
  rewrite zip_fst_snd. split; [|intros [?|(t & Ht & _)]; [done|by apply elem_of_nil in Ht]].
  rewrite zip_with_app by done. unfold kept. setoid_rewrite list_elem_of_filter. setoid_rewrite elem_of_app.
  assert (∀ t, (k, t) ∉ zip (previousKeys j) (previousAdded j)) as Hno.
  { intros t Ht%elem_of_zip_l. done. }
  unfold keeps, zero_time in *. split.
  - intros [?|(t & (_ & [Ht|Ht]) & Hk')]; [done|by apply Hno in Ht|].
    apply list_elem_of_singleton in Ht. injection Ht as ->. bools. lia.
  - intros Hnow. right. exists a. cbn [snd]. split_and!; [|right; left|]; bools; unfold RotationGracePeriod in *.
    + right. unfold RotationGracePeriod, Minute, Second. lia.
    + right. lia.
Qed.

Lemma rotation_grace_witness :
  accepted (issue_time + 32 * Minute) successor "before-rotation" ∧
  ¬ accepted (issue_time + 33 * Minute) successor "before-rotation".
Proof.
  split.
  - apply (rotation_grace {| secretKey := "after-rotation"; previousKeys := []; previousAdded := [];
       accessExpiry := 15 * Minute; refreshExpiry := 7 * 24 * Hour |} (issue_time + 13 * Minute));
      first [done|apply not_elem_of_nil|vm_compute; split; congruence].
  - intros Hacc.
    apply (rotation_grace {| secretKey := "after-rotation"; previousKeys := []; previousAdded := [];
       accessExpiry := 15 * Minute; refreshExpiry := 7 * 24 * Hour |} (issue_time + 13 * Minute)) in Hacc;
      first [done|apply not_elem_of_nil|vm_compute; split; congruence].
Defined.

(** The absolute session limit never applies: no refresh token the service issues
    is ever refused for the age of its session, because each one carries its own
    issuing time as the session's start and expires after seven days, long before the
    limit of thirty. *)
Theorem absolute_timeout_never_fires `{JWTLaws} j0 t0 id id' u tn r m j now :
  refreshExpiry j0 = 7 * 24 * Hour → unix_epoch_s * Second < t0 → t0 ≤ now →
  (ValidateRefreshToken now j (RefreshToken (GenerateTokenPair j0 t0 id id' u tn r m))).2
    ≠ Err ErrSessionExpired.
Proof.
  intros He Ht0 Hnow. unfold ValidateRefreshToken. destruct (allKeys now j) as [j' keys]. cbn [snd].
  cbn [RefreshToken GenerateTokenPair].
  destruct (first_key now keys _) as [p|] eqn:E; [|done].
  apply first_key_sound in E as [-> Hv%refresh_claims_valid]. cbn [fia refresh_claims]. rewrite He in Hv.
  destruct (_ && _) eqn:Eb; [|done]. exfalso. apply andb_true_iff in Eb as [_ Hl%Z.ltb_lt]. revert Hl.
  unfold time_unix, numeric_date, MaxAbsoluteSessionSeconds in *. pose proof (Z.mod_pos_bound (t0 + 7 * 24 * Hour) Second eq_refl).
  assert (now / Second - t0 / Second ≤ 7 * 24 * 3600 + 1).
  { unfold Hour, Minute, Second in *. Z.div_mod_to_equations. lia. }
  assert (0 ≤ now / Second - t0 / Second) by (unfold Second in *; Z.div_mod_to_equations; lia).
  wrap_id. lia.
Qed.

Lemma absolute_timeout_never_fires_witness :
  (@ValidateRefreshToken toy_lib (issue_time + 6 * 24 * Hour) issuer
     (RefreshToken (@GenerateTokenPair toy_lib issuer issue_time "a" "b" "u1" "t1" "role_admin" "x@y.z"))).2
  ≠ Err ErrSessionExpired.
Proof.
  apply (@absolute_timeout_never_fires toy_lib toy_laws issuer issue_time "a" "b" "u1" "t1" "role_admin" "x@y.z");
    [reflexivity|vm_compute; reflexivity|vm_compute; congruence].
Defined.

(** Keys from the configuration are accepted for ever. *)
Theorem configured_key_never_expires secret prev j k now :
  NewJWTService secret prev = Ok j → k ∈ prev → k ≠ "" → accepted now j k.
Proof.
  unfold NewJWTService. case_match; [done|]. intros [= <-] Hk Hne. right. exists zero_time.
  cbn [previousKeys previousAdded]. split; [|done].
  assert (k ∈ filter (λ s, s ≠ "") prev) as Hin by (by apply list_elem_of_filter).
  revert Hin. generalize (filter (λ s, s ≠ "") prev). clear. intros l.
  induction l as [|x l IH]; intros Hin; [by apply elem_of_nil in Hin|]. cbn.
  apply elem_of_cons in Hin as [->|Hin]; [left|right; by apply IH].
Qed.

(** The two kinds of token are not told apart: a refresh token is accepted as an
    access token, for a request without a user. *)
Theorem refresh_token_passes_as_access `{JWTLaws} j0 t0 id id' u tn r m j now :
  wf j → accepted now j (secretKey j0) → now < numeric_date (t0 + refreshExpiry j0) →
  ∃ p, (ValidateAccessToken now j (RefreshToken (GenerateTokenPair j0 t0 id id' u tn r m))).2 = Ok p
       ∧ uid p = "" ∧ rid p = "".
Proof.
  intros Hw Hacc Hnow. exists (refresh_claims j0 t0 id' u). split; [|done].
  apply validate_issued; [done..|]. by apply refresh_claims_valid.
Qed.

(** A revocation recorded by the store holds until its time to live is over. *)
Lemma revoked_until now t kv id u e :
  0 ≤ time_unix now → 0 < time_sub e now → 0 < seconds_int (time_sub e now) →
  time_unix now + seconds_int (time_sub e now) ≤ max_int64 →
  time_unix t < time_unix now + seconds_int (time_sub e now) →
  IsAccessTokenRevoked no_fault t (Some (RevokeAccessToken no_fault now kv id u e).1) id = true.
Proof.
  intros Hn He Hs Hm Ht. unfold RevokeAccessToken, IsAccessTokenRevoked.
  rewrite (proj2 (Z.leb_gt _ _)) by lia.
  pose proof (kv_get_set_live (S := KVStore) (time_unix now) (time_unix t) kv "revoked_access_tokens" id
    {| revJTI := id; revExpiresAt := e; revUserID := u |} no_revocation (seconds_int (time_sub e now))
    Hn Hm I (or_intror Ht)) as Hget.
  cbn [kv_Get kv_Set kvstore_storer] in Hget. by rewrite Hget.
Qed.

(** The time to live is rounded down to seconds twice, so a revocation made within a
    second lapses up to a second before the token does: half a second after it was
    issued the token is revoked, and in the last second of its life it is accepted. *)
Theorem revocation_lapses_early `{JWTLaws} :
  let tok := AccessToken (GenerateTokenPair issuer issue_time "a" "b" "u1" "t1" "role_admin" "x@y.z") in
  let e := issue_time + 15 * Minute in
  let kv := (RevokeAccessToken no_fault (issue_time + 500 * Millisecond) empty_store "a" "u1" e).1 in
  let late := e - 400 * Millisecond in
  is_ok (ValidateAccessToken late issuer tok).2 = true ∧
  IsAccessTokenRevoked no_fault late (Some kv) "a" = false.
Proof.
  cbv zeta. split; [|vm_compute; reflexivity]. cbn [AccessToken GenerateTokenPair].
  rewrite validate_issued; [done|done|by left|]. apply access_claims_valid. vm_compute. split; congruence.
Qed.

End Jwt.
