(* ===== verification/Access.v ===== *)
(** * Access: who may do what ([internal/api/middleware], [internal/auth/rbac.go])

    The middleware between the network and a handler: the IP allow list, the
    draining gate, CORS, CSRF protection, authentication and the permission checks;
    and the rules by which a member may invite another.  A middleware either answers
    or passes the request on; the claims it found are passed with it. *)

From S2P Require Import Prelude GoStrings GoNet GoTime Http KVStore RateLimit Sha256 Jwt.
#[local] Open Scope Z_scope.

Module Access.
Import Http KV Jwt.

(** ** Roles *)

(** [perms] is the decoded [PermissionsJSON], [None] when it is empty or not a list of
    strings.
    src/internal/core/store.go:336-344 Role *)
Record Role := { rID : string; rTenantID : string; perms : option (list string) }.

(** The test of one entry of a role.
    src/internal/core/store.go:357-367 Role.HasPermission.entry *)
Definition grants (p permission : string) : bool :=
  bool_decide (p = "*") || bool_decide (p = permission) ||
  if HasSuffix p ".*" then
    let prefix := TrimSuffix p ".*" in
    Nat.ltb (slen prefix) (slen permission) &&
    bool_decide (take (slen prefix) (bytes permission) = bytes prefix) &&
    bool_decide (bytes permission !! slen prefix = Some "."%char)
  else false.

(** src/internal/core/store.go:349-369 Role.HasPermission *)
Definition HasPermission (r : Role) (permission : string) : bool :=
  match perms r with
  | None => false
  | Some ps => existsb (λ p, grants p permission) ps
  end.

(** src/internal/auth/rbac.go:78-95 RoleLevel *)
Definition RoleLevel (roleID : string) : Z :=
  if decide (roleID = "role_super_admin") then 6
  else if decide (roleID = "role_owner") then 5
  else if decide (roleID = "role_admin") then 4
  else if decide (roleID = "role_developer") then 3
  else if decide (roleID = "role_operator") then 2
  else if decide (roleID = "role_viewer") then 1
  else 3.

(** src/internal/auth/rbac.go:100-102 CanAssignRole *)
Definition CanAssignRole (inviterRoleID targetRoleID : string) : bool :=
  RoleLevel targetRoleID <=? RoleLevel inviterRoleID.

(** src/internal/api/handlers/invites.go:121-139 canInviteWithRole *)
Definition canInviteWithRole (inviter target : option Role) : bool :=
  match inviter, target with
  | Some inviter, Some target =>
      if CanAssignRole (rID inviter) (rID target) then
        match perms target with
        | None => false
        | Some ps => forallb (HasPermission inviter) ps
        end
      else false
  | _, _ => false
  end.

(** ** What a middleware does with a request *)

(** The claims a handler sees.
    src/internal/auth/rbac.go:56-59 ClaimsFromContext *)
Record Claims := { UserID : string; TenantID : string; RoleID : string; ID : string;
                   ExpiresAt : option instant }.

Definition claims_of (p : payload) : Claims :=
  {| UserID := uid p; TenantID := tid p; RoleID := rid p; ID := jti p; ExpiresAt := exp p |}.

(** A request on its way: the claims in its context and the response headers set. *)
Record ctx := { claims : option Claims; rheaders : gmap string string }.

Inductive outcome := Pass (c : ctx) | Answer (status : Z).

Definition middleware : Type := ctx → Request → outcome.

(** Middlewares run in the order in which they are listed.
    src/internal/api/middleware/middleware.go:23-28 Chain *)
Fixpoint Chain (ms : list middleware) (c : ctx) (r : Request) : outcome :=
  match ms with
  | [] => Pass c
  | m :: ms => match m c r with
               | Pass c' => Chain ms c' r
               | Answer s => Answer s
               end
  end.

Definition set_header (c : ctx) (k v : string) : ctx :=
  {| claims := claims c; rheaders := <[k := v]> (rheaders c) |}.

(** ** The allow list *)

(** src/internal/api/middleware/ip_allowlist.go:33-54 NewIPAllowlist *)
Definition NewIPAllowlist (cidrs : list string) : list GoNet.IPNet :=
  omap (λ c, let c := TrimSpace c in if decide (c = "") then None else GoNet.ParseCIDR c) cidrs.

(** src/internal/api/middleware/ip_allowlist.go:57-79 IPAllowlist.Middleware *)
Definition IPAllowlist (allowed : list GoNet.IPNet) : middleware := λ c r,
  match allowed with
  | [] => Pass c
  | _ =>
      match GoNet.ParseIP (RateLimit.safeClientIP r false) with
      | None => Answer 403
      | Some ip => if existsb (λ n, GoNet.Contains n ip) allowed then Pass c else Answer 403
      end
  end.

(** ** CORS *)

(** src/internal/api/middleware/middleware.go:138-150 parseCORSOrigins *)
Definition parseCORSOrigins (s : string) : list string :=
  if decide (s = "") then []
  else filter (λ v, v ≠ "") (TrimSpace <$> Split s ","%char).

(** src/internal/api/middleware/middleware.go:153-160 originAllowed *)
Definition originAllowed (origin : string) (allowlist : list string) : bool :=
  existsb (λ a, bool_decide (a = origin)) allowlist.

(** src/internal/api/middleware/middleware.go:101-135 CORS *)
Definition CORS (allowedOrigins : string) : middleware := λ c r,
  let origins := parseCORSOrigins allowedOrigins in
  let publicMode := bool_decide (origins = [] ∨ origins = ["*"]) in
  let c := set_header c "Vary" "Origin" in
  let c := set_header c "Access-Control-Allow-Methods" "GET, POST, PUT, PATCH, DELETE, OPTIONS" in
  let c := set_header c "Access-Control-Allow-Headers"
             "Content-Type, Authorization, X-API-Key, X-Request-ID, X-CSRF-Token, Idempotency-Key" in
  let c := set_header c "Access-Control-Expose-Headers"
             "X-Request-ID, X-DeployMonster-Version, X-API-Version" in
  let c := set_header c "Access-Control-Max-Age" "86400" in
  let origin := HeaderGet r "Origin" in
  let c :=
    if publicMode then set_header c "Access-Control-Allow-Origin" "*"
    else if negb (bool_decide (origin = "")) && originAllowed origin origins then
      set_header (set_header c "Access-Control-Allow-Origin" origin)
        "Access-Control-Allow-Credentials" "true"
    else c in
  if decide (Method r = "OPTIONS") then Answer 204 else Pass c.

(** ** CSRF *)

(** src/internal/api/middleware/csrf.go:67-70 hasCookie *)
Definition hasCookie (r : Request) (name : string) : bool := negb (bool_decide (CookieGet r name = "")).

(** src/internal/api/middleware/csrf.go:72-80 csrfCookieValue *)
Definition csrfCookieValue (r : Request) : string :=
  if hasCookie r "__Host-dm_csrf" then CookieGet r "__Host-dm_csrf" else CookieGet r "dm_csrf".

(** src/internal/api/middleware/csrf.go:21-65 CSRFProtect *)
Definition CSRFProtect : middleware := λ c r,
  if decide (Method r = "GET" ∨ Method r = "HEAD" ∨ Method r = "OPTIONS") then Pass c
  else if decide (HeaderGet r "Authorization" ≠ "" ∨ HeaderGet r "X-API-Key" ≠ "") then Pass c
  else
    let cookieValue := csrfCookieValue r in
    if decide (cookieValue = "") then
      if hasCookie r "dm_access" || hasCookie r "dm_refresh" then Answer 403 else Pass c
    else
      let headerToken := HeaderGet r "X-CSRF-Token" in
      if decide (headerToken = "" ∨ headerToken ≠ cookieValue) then Answer 403 else Pass c.

(** ** Authentication *)

(** src/internal/db/kv.go:392-405 apiKeyKVRecord *)
Record APIKey := { kUserID : string; kTenantID : string; KeyHash : string; KeyPrefix : string;
                   kExpiresAt : option instant }.

(** One text field of a record, falling back to an older field. *)
Definition field_or (fs : list (string * json)) (k old : string) : option string :=
  v ← read_str k fs ""; w ← read_str old fs ""; Some (if decide (v = "") then w else v).

(** An older envelope holds the record in its field [d].
    src/internal/db/kv.go:83-86 kvEntry *)
Definition unwrap (raw : json) : json :=
  match raw with
  | JObj fs => match read_int "e" fs 0, jfield "d" fs with
               | Some _, Some d => d
               | _, _ => raw
               end
  | _ => raw
  end.

(** src/internal/db/kv.go:407-454 decodeAPIKeyRecord *)
Definition decodeAPIKeyRecord (raw : json) : option APIKey :=
  match unwrap raw with
  | JObj fs =>
      h ← field_or fs "key_hash" "hash";
      p ← field_or fs "key_prefix" "prefix";
      u ← field_or fs "user_id" "created_by";
      t ← read_str "tenant_id" fs "";
      e ← match jfield "expires_at" fs with
          | None | Some JNull => Some None
          | Some (JTime t) => Some (Some t)
          | Some _ => None
          end;
      if decide (p = "" ∨ u = "") then None
      else Some {| kUserID := u; kTenantID := t; KeyHash := h; KeyPrefix := p; kExpiresAt := e |}
  | _ => None
  end.

(** The rows of the bucket are ranged over in the table's order; the expiry column is
    not looked at.
    src/internal/db/kv.go:362-390 KVStore.GetAPIKeyByPrefix *)
Definition GetAPIKeyByPrefix (kv : KVStore) (prefix : string) : option APIKey :=
  head (omap (λ kr : (string * string) * row,
      if decide (kr.1.1 = "api_keys") then
        k ← data kr.2 ≫= decodeAPIKeyRecord; if decide (KeyPrefix k = prefix) then Some k else None
      else None) (map_to_list (rows kv))).

(** src/internal/auth/apikey.go:14-14 APIKeyPrefixLength *)
Definition APIKeyPrefixLength : nat := 15.

Record Membership := { mTenantID : string; mRoleID : string }.

Section Auth.
Context `{JWTLib}.
(** [bcrypt.CompareHashAndPassword] succeeds. *)
Variable bcrypt_ok : string → string → bool.
Variable fails : stmt → bool.

(** src/internal/auth/apikey.go:65-68 VerifyAPIKey *)
Definition VerifyAPIKey (key hash : string) : bool := bcrypt_ok hash key.

(** src/internal/api/middleware/middleware.go:166-179 validateJWTAndServe *)
Definition validateJWTAndServe (now : instant) (jwtSvc : JWTService) (kv : option KVStore) (tok : string)
    (c : ctx) : outcome :=
  match (ValidateAccessToken now jwtSvc tok).2 with
  | Err _ => Answer 401
  | Ok p =>
      if IsAccessTokenRevoked fails now kv (jti p) then Answer 401
      else Pass {| claims := Some (claims_of p); rheaders := rheaders c |}
  end.

(** src/internal/api/middleware/middleware.go:183-266 RequireAuth *)
Definition RequireAuth (now : instant) (jwtSvc : JWTService) (kv : option KVStore)
    (membership : string → option Membership) : middleware := λ c r,
  let header := HeaderGet r "Authorization" in
  if HasPrefix header "Bearer " then
    validateJWTAndServe now jwtSvc kv (TrimPrefix header "Bearer ") c
  else if negb (bool_decide (CookieGet r "dm_access" = "")) then
    validateJWTAndServe now jwtSvc kv (CookieGet r "dm_access") c
  else
    let apiKey := HeaderGet r "X-API-Key" in
    if decide (apiKey = "") then Answer 401
    else if negb (HasPrefix apiKey "dm_") then Answer 401
    else if Nat.ltb (slen apiKey) APIKeyPrefixLength then Answer 401
    else
      match kv with
      | None => Answer 401
      | Some kv =>
          match GetAPIKeyByPrefix kv (str (take APIKeyPrefixLength (bytes apiKey))) with
          | None => Answer 401
          | Some k =>
              if negb (VerifyAPIKey apiKey (KeyHash k)) then Answer 401
              else if match kExpiresAt k with Some e => e <? now | None => false end then Answer 401
              else
                let cl :=
                  match membership (kUserID k) with
                  | Some m => {| UserID := kUserID k; RoleID := mRoleID m; ID := ""; ExpiresAt := None;
                                 TenantID := if decide (kTenantID k = "") then mTenantID m
                                             else kTenantID k |}
                  | None => {| UserID := kUserID k; TenantID := kTenantID k; RoleID := ""; ID := "";
                               ExpiresAt := None |}
                  end in
                Pass {| claims := Some cl; rheaders := rheaders c |}
          end
      end.

End Auth.

(** src/internal/api/middleware/admin.go:25-40 requireRole *)
Definition requireRole (allowed : gset string) : middleware := λ c r,
  match claims c with
  | None => Answer 401
  | Some cl => if decide (RoleID cl ∈ allowed) then Pass c else Answer 403
  end.

(** src/internal/api/middleware/admin.go:45-49 RequireSuperAdmin *)
Definition RequireSuperAdmin : middleware := requireRole {[ "role_super_admin" ]}.

(** src/internal/api/middleware/admin.go:54-74 RequirePermission *)
Definition RequirePermission (role : string → option Role) (permission : string) : middleware := λ c r,
  match claims c with
  | None => Answer 401
  | Some cl =>
      match role (RoleID cl) with
      | None => Answer 403
      | Some ro => if HasPermission ro permission then Pass c else Answer 403
      end
  end.

(** ** Permissions *)

(** What an entry of a role grants: everything, itself, or what is below its prefix. *)
Lemma grants_spec p q :
  grants p q = true ↔ p = "*" ∨ p = q ∨
    ∃ a, p = a +:+ ".*" ∧ bytes (a +:+ ".") `prefix_of` bytes q.
Proof.
  unfold grants. rewrite !orb_true_iff, !bool_decide_eq_true.
  rewrite Logic.or_assoc. do 2 f_equiv. destruct (HasSuffix p ".*") eqn:E.
  - apply HasSuffix_spec in E as [a ->]. rewrite TrimSuffix_app. bools. unfold slen. split.
    + intros [[Hl%Nat.ltb_lt Ht] Hd]. exists a. split; [done|]. rewrite bytes_app, <-Ht.
      exists (drop (S (length (bytes a))) (bytes q)).
      rewrite <-app_assoc. change (bytes "." ++ ?x) with ("."%char :: x).
      by rewrite <-(drop_S _ _ _ Hd), take_drop.
    + intros (a' & Ha & [k Hk]). assert (a = a') as ->.
      { apply (f_equal (λ s, TrimSuffix s ".*")) in Ha. by rewrite !TrimSuffix_app in Ha. }
      rewrite bytes_app, <-app_assoc in Hk. rewrite Hk. split_and!.
      * apply Nat.ltb_lt. rewrite !length_app. cbn. lia.
      * apply take_app_length.
      * by rewrite lookup_app_r, Nat.sub_diag by lia.
  - split; [done|]. intros (a & -> & _). rewrite (proj2 (HasSuffix_spec _ _)) in E by eauto. done.
Qed.

Lemma prefix_cut (a b : list ascii) x y : x ≠ y →
  (a ++ [x]) `prefix_of` (b ++ [x; y]) → (a ++ [x]) `prefix_of` (b ++ [x]).
Proof.
  intros Hxy [k Hk]. destruct k as [|c k _] using rev_ind.
  - rewrite app_nil_r in Hk. change [x; y] with ([x] ++ [y]) in Hk. rewrite app_assoc in Hk.
    apply app_inj_tail in Hk as [_ ?]. congruence.
  - change [x; y] with ([x] ++ [y]) in Hk. rewrite !app_assoc in Hk.
    apply app_inj_tail in Hk as [Hk _]. exists k. by rewrite Hk.
Qed.

(** Granting is transitive: an entry that grants another grants all it grants. *)
Lemma grants_trans g p q : grants g p = true → grants p q = true → grants g q = true.
Proof.
  rewrite !grants_spec. intros [->|[->|(a & -> & Ha)]] Hp; [by left|done|].
  destruct Hp as [->|[->|(b & -> & Hb)]].
  - rewrite bytes_app in Ha. destruct Ha as [k Hk]. apply (f_equal length) in Hk as Hl.
    rewrite !length_app in Hl. cbn in Hl. destruct (bytes a) as [|c l] eqn:E; [|cbn in Hl; lia]. done.
  - right; right. by exists a.
  - right; right. exists a. split; [done|]. rewrite !bytes_app in *. etrans; [|exact Hb].
    eapply prefix_cut; [|exact Ha]. done.
Qed.

(** Invitations cannot escalate privileges: when a member may invite someone with a
    role, that role is not above the member's own, and every permission it grants, by
    name, by prefix or by wildcard, the member's role grants too. *)
Theorem invite_no_escalation i t :
  canInviteWithRole (Some i) (Some t) = true →
  RoleLevel (rID t) ≤ RoleLevel (rID i) ∧
  ∀ q, HasPermission t q = true → HasPermission i q = true.
Proof.
  unfold canInviteWithRole, CanAssignRole. destruct (_ <=? _) eqn:El; [|done]. apply Z.leb_le in El.
  unfold HasPermission at 2. destruct (perms t) as [ps|]; [|done]. intros Hall. split; [done|].
  intros q (p & Hp & Hg)%existsb_exists. rewrite forallb_forall in Hall. specialize (Hall p Hp).
  unfold HasPermission in *. destruct (perms i) as [gs|]; [|done].
  apply existsb_exists in Hall as (g & Hin & Hgp). apply existsb_exists. exists g.
  split; [done|]. by eapply grants_trans.
Qed.

Definition role_admin : Role :=
  {| rID := "role_admin"; rTenantID := ""; perms := Some ["app.*"; "member.*"; "secret.*"] |}.
Definition custom_role : Role :=
  {| rID := "deployers"; rTenantID := "t1"; perms := Some ["app.deploy"; "secret.app.*"] |}.

Lemma invite_no_escalation_witness : HasPermission role_admin "secret.app.read" = true.
Proof. apply (proj2 (invite_no_escalation role_admin custom_role eq_refl)). vm_compute. reflexivity. Defined.

(** ** Requests *)

Lemma chain_cons_pass m ms c r c' :
  Chain (m :: ms) c r = Pass c' ↔ ∃ c1, m c r = Pass c1 ∧ Chain ms c1 r = Pass c'.
Proof.
  cbn. destruct (m c r) as [c1|s]; [|naive_solver]. split; [eauto|]. by intros (? & [= ->] & ?).
Qed.

Lemma chain_app_pass ms1 ms2 c r c' :
  Chain (ms1 ++ ms2) c r = Pass c' ↔ ∃ c1, Chain ms1 c r = Pass c1 ∧ Chain ms2 c1 r = Pass c'.
Proof.
  revert c. induction ms1 as [|m ms1 IH]; intros c; cbn.
  - naive_solver.
  - destruct (m c r) as [c1|s]; [apply IH|naive_solver].
Qed.

(** CSRF protection only inspects. *)
Lemma csrf_pass c r c' : CSRFProtect c r = Pass c' → c' = c.
Proof. unfold CSRFProtect. repeat case_decide; repeat case_match; naive_solver. Qed.

Definition safe_method (m : string) : Prop := m = "GET" ∨ m = "HEAD" ∨ m = "OPTIONS".

(** A browser's session cannot be used across sites: a request that changes state and
    is authenticated by its cookie alone reaches a handler only if it carries, in a
    header that another site cannot set, the token of its CSRF cookie. *)
Theorem cookie_mutations_carry_token `{JWTLib} bcrypt_ok fails now j kv mem ms c r c' :
  ¬ safe_method (Method r) → HeaderGet r "Authorization" = "" → HeaderGet r "X-API-Key" = "" →
  Chain (CSRFProtect :: RequireAuth bcrypt_ok fails now j kv mem :: ms) c r = Pass c' →
  CookieGet r "dm_access" ≠ "" ∧
  HeaderGet r "X-CSRF-Token" ≠ "" ∧ HeaderGet r "X-CSRF-Token" = csrfCookieValue r.
Proof.
  intros Hm Ha Hk (c1 & Hc & (c2 & Hr & _)%chain_cons_pass)%chain_cons_pass.
  assert (CookieGet r "dm_access" ≠ "") as Hcookie.
  { intros E. unfold RequireAuth in Hr. rewrite Ha, E, Hk in Hr. done. }
  split; [done|]. unfold CSRFProtect in Hc. rewrite Ha, Hk in Hc.
  rewrite decide_False in Hc by done. rewrite decide_False in Hc by naive_solver.
  assert (hasCookie r "dm_access" = true) as Hhas by (unfold hasCookie; by rewrite bool_decide_eq_false_2).
  rewrite Hhas in Hc. cbn [orb] in Hc. case_decide; [done|]. case_decide as Hd; [done|].
  split; [naive_solver|]. apply dec_stable. naive_solver.
Qed.

Definition post_with_cookie : Request :=
  {| Method := "POST"; Path := "/api/v1/apps"; Header := {[ "X-CSRF-Token" := "c5rf" ]};
     Cookies := {[ "dm_csrf" := "c5rf"; "dm_access" :=
       AccessToken (@GenerateTokenPair toy_lib issuer issue_time "a" "b" "u1" "t1" "role_admin" "x@y.z") ]};
     RemoteAddr := "203.0.113.9:4000" |}.
Lemma cookie_of_post : CookieGet post_with_cookie "dm_access" =
  AccessToken (@GenerateTokenPair toy_lib issuer issue_time "a" "b" "u1" "t1" "role_admin" "x@y.z").
Proof.
  unfold CookieGet, post_with_cookie. cbn [Cookies]. generalize (AccessToken
    (@GenerateTokenPair toy_lib issuer issue_time "a" "b" "u1" "t1" "role_admin" "x@y.z")). reflexivity.
Qed.
Definition empty_ctx : ctx := {| claims := None; rheaders := ∅ |}.

(** A cookie that validates is passed on with its claims. *)
Lemma require_auth_cookie `{JWTLib} bcrypt_ok fails now j kv mem c r p :
  HasPrefix (HeaderGet r "Authorization") "Bearer " = false → CookieGet r "dm_access" ≠ "" →
  (ValidateAccessToken now j (CookieGet r "dm_access")).2 = Ok p →
  IsAccessTokenRevoked fails now kv (jti p) = false →
  RequireAuth bcrypt_ok fails now j kv mem c r =
    Pass {| claims := Some (claims_of p); rheaders := rheaders c |}.
Proof.
  intros Hh Hc Hv Hr. unfold RequireAuth. rewrite Hh, bool_decide_eq_false_2 by done.
  cbn [negb]. unfold validateJWTAndServe. by rewrite Hv, Hr.
Qed.

Definition demo_auth : middleware :=
  @RequireAuth toy_lib (λ _ _, false) no_fault (issue_time + Minute) issuer None (λ _, None).
Definition demo_ctx : ctx :=
  {| claims := Some (claims_of (access_claims issuer issue_time "a" "u1" "t1" "role_admin" "x@y.z"));
     rheaders := ∅ |}.

Lemma demo_auth_passes : demo_auth empty_ctx post_with_cookie = Pass demo_ctx.
Proof.
  apply (@require_auth_cookie toy_lib); [reflexivity|rewrite cookie_of_post; discriminate| |reflexivity].
  rewrite cookie_of_post.
  apply (@validate_issued toy_lib toy_laws); [reflexivity|by left|vm_compute; reflexivity].
Qed.

Lemma cookie_mutations_carry_token_witness :
  HeaderGet post_with_cookie "X-CSRF-Token" = csrfCookieValue post_with_cookie.
Proof.
  refine (proj2 (proj2 (@cookie_mutations_carry_token toy_lib (λ _ _, false) no_fault (issue_time + Minute) issuer
    None (λ _, None) [] empty_ctx post_with_cookie demo_ctx _ _ _ _))).
  - intros [H|[H|H]]; discriminate H.
  - reflexivity.
  - reflexivity.
  - apply chain_cons_pass. exists empty_ctx. split; [reflexivity|]. apply chain_cons_pass. exists demo_ctx.
    split; [apply demo_auth_passes|reflexivity].
Defined.

(** How a request is authenticated. *)
Inductive credential `{JWTLib} (bcrypt_ok : string → string → bool) (fails : stmt → bool) (now : instant)
    (j : JWTService) (kv : option KVStore) (mem : string → option Membership) (r : Request)
  : Claims → Prop :=
| ByToken tok p :
    tok = TrimPrefix (HeaderGet r "Authorization") "Bearer " ∨ tok = CookieGet r "dm_access" →
    (ValidateAccessToken now j tok).2 = Ok p → IsAccessTokenRevoked fails now kv (jti p) = false →
    credential bcrypt_ok fails now j kv mem r (claims_of p)
| ByKey store k cl :
    kv = Some store → GetAPIKeyByPrefix store (str (take APIKeyPrefixLength (bytes (HeaderGet r "X-API-Key")))) = Some k →
    bcrypt_ok (KeyHash k) (HeaderGet r "X-API-Key") = true →
    (∀ e, kExpiresAt k = Some e → now ≤ e) → UserID cl = kUserID k →
    RoleID cl = default "" (mRoleID <$> mem (kUserID k)) →
    credential bcrypt_ok fails now j kv mem r cl.

Lemma require_auth_sound `{JWTLib} bcrypt_ok fails now j kv mem c r c' :
  RequireAuth bcrypt_ok fails now j kv mem c r = Pass c' →
  ∃ cl, claims c' = Some cl ∧ credential bcrypt_ok fails now j kv mem r cl.
Proof.
  assert (∀ tok, validateJWTAndServe fails now j kv tok c = Pass c' → ∃ p, claims c' = Some (claims_of p) ∧
    (ValidateAccessToken now j tok).2 = Ok p ∧ IsAccessTokenRevoked fails now kv (jti p) = false) as Hjwt.
  { intros tok. unfold validateJWTAndServe. destruct (ValidateAccessToken now j tok).2 as [p|]; [|done].
    destruct (IsAccessTokenRevoked _ _ _ _) eqn:E; [done|]. intros [= <-]. by exists p. }
  unfold RequireAuth. destruct (HasPrefix _ _).
  { intros (p & ? & ? & ?)%Hjwt. exists (claims_of p). split; [done|]. eapply ByToken; [by left|done..]. }
  destruct (negb _).
  { intros (p & ? & ? & ?)%Hjwt. exists (claims_of p). split; [done|]. eapply ByToken; [by right|done..]. }
  case_decide; [done|]. do 2 (case_match; [done|]).
  destruct kv as [store|]; [|done]. destruct (GetAPIKeyByPrefix store _) as [k|] eqn:Ek; [|done].
  unfold VerifyAPIKey. destruct (bcrypt_ok _ _) eqn:Eb; [|done]. cbn [negb].
  destruct (match kExpiresAt k with Some e => e <? now | None => false end) eqn:Ee; [done|].
  intros [= <-]. eexists. split; [done|]. eapply ByKey; [done|done|done| |by destruct (mem _)|by destruct (mem _)].
  intros e He. rewrite He in Ee. by apply Z.ltb_ge in Ee.
Qed.

(** What guards a route: behind authentication and a permission check, a handler only
    runs for a request with a valid, unrevoked token or a matching unexpired API key,
    whose role grants the permission; behind the administrator check, only for the
    platform's administrators.  Whatever middlewares stand around them. *)
Theorem guarded_handlers_are_authorized `{JWTLib} bcrypt_ok fails now j kv mem role perm before after c r c' :
  (∀ m c1 c2, m ∈ after → m c1 r = Pass c2 → claims c2 = claims c1) →
  let auth := RequireAuth bcrypt_ok fails now j kv mem in
  (Chain (before ++ auth :: RequirePermission role perm :: after) c r = Pass c' →
     ∃ cl ro, claims c' = Some cl ∧ credential bcrypt_ok fails now j kv mem r cl ∧
              role (RoleID cl) = Some ro ∧ HasPermission ro perm = true) ∧
  (Chain (before ++ auth :: RequireSuperAdmin :: after) c r = Pass c' →
     ∃ cl, claims c' = Some cl ∧ credential bcrypt_ok fails now j kv mem r cl ∧
           RoleID cl = "role_super_admin").
Proof.
  intros Hafter. cbv zeta.
  assert (∀ c1, Chain after c1 r = Pass c' → claims c' = claims c1) as Hkeep.
  { clear -Hafter. induction after as [|m after IH]; cbn; intros c1; [by intros [= ->]|].
    destruct (m c1 r) as [c2|s] eqn:E; [|done]. intros H'.
    rewrite (IH ltac:(intros; eapply Hafter; [by right|done]) c2 H'). eapply Hafter; [left|done]. }
  split; intros (c0 & _ & (c1 & (cl & Hcl & Hcr)%require_auth_sound & (c2 & Hp & Ha)%chain_cons_pass)%chain_cons_pass)%chain_app_pass;
    apply Hkeep in Ha.
  - unfold RequirePermission in Hp. rewrite Hcl in Hp. destruct (role (RoleID cl)) as [ro|] eqn:Er; [|done].
    destruct (HasPermission ro perm) eqn:Eh; [|done]. injection Hp as <-. exists cl, ro. by rewrite Ha.
  - unfold RequireSuperAdmin, requireRole in Hp. rewrite Hcl in Hp. case_decide as Hd; [|done].
    injection Hp as <-. exists cl. rewrite Ha. split_and!; [done|done|set_solver].
Qed.

Definition demo_role (id : string) : option Role := if decide (id = "role_admin") then Some role_admin else None.

Lemma guarded_handlers_are_authorized_witness :
  ∃ cl ro, claims demo_ctx = Some cl ∧ demo_role (RoleID cl) = Some ro ∧ HasPermission ro "app.deploy" = true.
Proof.
  destruct (proj1 (@guarded_handlers_are_authorized toy_lib (λ _ _, false) no_fault (issue_time + Minute) issuer
    None (λ _, None) demo_role "app.deploy" [CSRFProtect] [] empty_ctx post_with_cookie demo_ctx
    ltac:(intros m c1 c2 Hm; by apply elem_of_nil in Hm))) as (cl & ro & ? & _ & ? & ?).
  - apply chain_app_pass. exists empty_ctx. split; [reflexivity|]. apply chain_cons_pass. exists demo_ctx.
    split; [apply demo_auth_passes|]. apply chain_cons_pass. exists demo_ctx. split; reflexivity.
  - by exists cl, ro.
Defined.

(** The allow list does not hold: a client anywhere whose request names an allowed
    address in its [X-Real-IP] header is let through. *)
Theorem allowlist_trusts_header allowed c r ip :
  GoNet.ParseIP (RateLimit.validateIPPermissive (HeaderGet r "X-Real-IP")) = Some ip →
  (∃ n, n ∈ allowed ∧ GoNet.Contains n ip = true) →
  IPAllowlist allowed c r = Pass c.
Proof.
  intros Hip (n & Hn & Hc). unfold IPAllowlist. destruct allowed as [|a al]; [done|].
  rewrite (RateLimit.real_ip_wins r _ false eq_refl); [|intros E; by rewrite E in Hip].
  rewrite Hip. replace (existsb _ (a :: al)) with true; [done|]. symmetry. apply existsb_exists.
  exists n. by rewrite <-list_elem_of_In.
Qed.

(** Only the office network is allowed; the request comes from elsewhere. *)
Definition office : list GoNet.IPNet := NewIPAllowlist [" 10.0.0.0/8 "; ""; "office"].
Definition outsider (real : string) : Request :=
  {| Method := "GET"; Path := "/api/v1/apps"; Header := {[ "X-Real-IP" := real ]}; Cookies := ∅;
     RemoteAddr := "203.0.113.9:4000" |}.

Lemma allowlist_trusts_header_witness :
  IPAllowlist office empty_ctx (outsider "") = Answer 403 ∧
  IPAllowlist office empty_ctx (outsider "10.1.2.3") = Pass empty_ctx.
Proof.
  split; [vm_compute; reflexivity|].
  eapply (allowlist_trusts_header office empty_ctx (outsider "10.1.2.3")); [vm_compute; reflexivity|].
  exists {| GoNet.nIP := [10; 0; 0; 0]; GoNet.nMask := [255; 0; 0; 0] |}.
  split; [vm_compute; left|vm_compute; reflexivity].
Defined.

(** Credentials are only ever allowed to the request's own origin, when it is on the
    list; a wildcard never comes with credentials. *)
Theorem cors_credentials_exact origins c r c' :
  rheaders c !! "Access-Control-Allow-Credentials" = None → CORS origins c r = Pass c' →
  rheaders c' !! "Access-Control-Allow-Credentials" = Some "true" →
  HeaderGet r "Origin" ∈ parseCORSOrigins origins ∧
  rheaders c' !! "Access-Control-Allow-Origin" = Some (HeaderGet r "Origin") ∧
  parseCORSOrigins origins ≠ ["*"].
Proof.
  intros Hn. unfold CORS. case_decide; [done|]. destruct (bool_decide _) eqn:Ep.
  { intros [= <-]. cbn [rheaders set_header]. rewrite !lookup_insert_ne by done. congruence. }
  destruct (negb _ && _) eqn:Eo; intros [= <-]; cbn [rheaders set_header];
    [|rewrite !lookup_insert_ne by done; congruence].
  apply andb_true_iff in Eo as [_ (a & Ha & Heq)%existsb_exists]. apply bool_decide_eq_true in Heq as ->.
  intros _. split_and!; [by apply list_elem_of_In| |].
  - by rewrite lookup_insert_ne, lookup_insert_eq by done.
  - apply bool_decide_eq_false in Ep. naive_solver.
Qed.

End Access.
