(* ===== verification/Router.v ===== *)
(** * Router: the routes of the API and what guards them ([internal/api/router.go],
    [routes_admin.go])

    The table of patterns as they are registered, each with the wrapper of its handler,
    and the matching of Go's [http.ServeMux]: the most specific pattern that matches a
    request serves it, and registering two patterns of which neither is more specific
    although both match some request ends the program.  A request's path is its list of
    segments, the last one empty for a path that ends in a slash. *)

From S2P Require Import Prelude GoStrings Http KVStore Jwt Access.
#[local] Open Scope Z_scope.

Module Router.
Import KV Jwt Access.

(** How a handler is wrapped: not at all, by a rate limiter for credentials, by a check of
    the sender's signature in the handler, or by [authMiddleware], [protected],
    [protectedPerm] or [adminOnly].
    src/internal/api/router.go:97-115 Router.registerRoutes.wrappers *)
Inductive guard := Public | Limited | Signed | AuthOnly | Protected | Perm (p : string) | AdminOnly.

(** Pattern, wrapper and handler. *)
Definition entry : Type := string * guard * string.

(** ** The table *)

(** Health, set-up, sign-in, sessions and webhooks.
    src/internal/api/router.go:118-184 Router.registerRoutes.routes_auth *)
Definition routes_auth : list entry :=
  [("GET /health", Public, "r.handleHealth");
   ("GET /api/v1/health", Public, "r.handleHealth");
   ("GET /readyz", Public, "r.handleReadiness");
   ("GET /health/detailed", Public, "detailedH.DetailedHealth");
   ("GET /api/v1/setup/checks", Protected, "setupH.Checks");
   ("GET /api/v1/openapi.json", Public, "openAPIH.Spec");
   ("POST /api/v1/auth/login", Limited, "authH.Login");
   ("POST /api/v1/auth/register", Limited, "authH.Register");
   ("POST /api/v1/auth/refresh", Limited, "authH.Refresh");
   ("POST /api/v1/auth/logout", Public, "authH.Logout");
   ("GET /api/v1/auth/me", AuthOnly, "sessionH.GetCurrentUser");
   ("PATCH /api/v1/auth/me", Protected, "sessionH.UpdateProfile");
   ("POST /api/v1/auth/change-password", Protected, "sessionH.ChangePassword");
   ("GET /api/v1/auth/sessions", Protected, "sessionH.ListSessions");
   ("POST /api/v1/auth/logout-all", Protected, "sessionH.LogoutAll");
   ("GET /api/v1/auth/totp/status", Protected, "sessionH.GetTOTPStatus");
   ("POST /api/v1/auth/totp/enroll", Protected, "sessionH.EnableTOTP");
   ("POST /api/v1/auth/totp/disable", Protected, "sessionH.DisableTOTP");
   ("POST /api/v1/auth/totp/backup-codes", Protected, "sessionH.GenerateBackupCodes");
   ("POST /hooks/v1/{webhookID}", Signed, "webhookRecv.HandleWebhook");
   ("GET /api/v1/dashboard/stats", Protected, "dashH.Stats")].

(** Applications: life cycle, configuration.
    src/internal/api/router.go:188-299 Router.registerRoutes.routes_apps *)
Definition routes_apps : list entry :=
  [("GET /api/v1/apps", Protected, "appH.List");
   ("POST /api/v1/apps", Perm "app.create", "appH.Create");
   ("POST /api/v1/apps/import", Perm "app.create", "ixH.Import");
   ("GET /api/v1/apps/{id}/export", Protected, "ixH.Export");
   ("GET /api/v1/apps/{id}", Protected, "appH.Get");
   ("PATCH /api/v1/apps/{id}", Perm "app.create", "appH.Update");
   ("DELETE /api/v1/apps/{id}", Perm "app.delete", "appH.Delete");
   ("POST /api/v1/apps/{id}/restart", Perm "app.restart", "appH.Restart");
   ("POST /api/v1/apps/{id}/stop", Perm "app.stop", "appH.Stop");
   ("POST /api/v1/apps/{id}/start", Perm "app.restart", "appH.Start");
   ("POST /api/v1/apps/{id}/deploy", Perm "app.deploy", "deployTriggerH.TriggerDeploy");
   ("POST /api/v1/apps/{id}/suspend", Perm "app.stop", "suspH.Suspend");
   ("POST /api/v1/apps/{id}/resume", Perm "app.restart", "suspH.Resume");
   ("POST /api/v1/apps/{id}/transfer", AdminOnly, "txfrH.TransferApp");
   ("GET /api/v1/apps/{id}/metrics/export", Protected, "mxExportH.Export");
   ("POST /api/v1/apps/{id}/rename", Perm "app.create", "renameH.Rename");
   ("GET /api/v1/apps/{id}/gpu", Protected, "gpuH.Get");
   ("PUT /api/v1/apps/{id}/gpu", Perm "app.create", "gpuH.Update");
   ("POST /api/v1/apps/{id}/pin", Perm "app.create", "pinH.Pin");
   ("DELETE /api/v1/apps/{id}/pin", Perm "app.create", "pinH.Unpin");
   ("POST /api/v1/apps/{id}/save-template", Perm "app.create", "saveTmplH.Save");
   ("POST /api/v1/apps/{id}/rollback-to-commit", Perm "app.deploy", "crH.RollbackToCommit");
   ("GET /api/v1/apps/{id}/snapshots", Protected, "snapH.List");
   ("POST /api/v1/apps/{id}/snapshots", Perm "app.create", "snapH.Create");
   ("POST /api/v1/apps/{id}/webhooks/{logId}/replay", Perm "app.create", "whReplayH.Replay");
   ("POST /api/v1/apps/{id}/clone", Perm "app.create", "cloneH.Clone");
   ("POST /api/v1/apps/bulk", Perm "app.create", "bulkH.Execute");
   ("PUT /api/v1/apps/{id}/restart-policy", Perm "app.create", "rpH.Update");
   ("GET /api/v1/apps/{id}/labels", Protected, "labelsH.Get");
   ("PUT /api/v1/apps/{id}/labels", Perm "app.create", "labelsH.Update");
   ("GET /api/v1/apps/{id}/disk", Protected, "diskH.AppDisk");
   ("POST /api/v1/apps/{id}/webhooks/test", Perm "app.create", "whTestH.TestDeliver");
   ("GET /api/v1/apps/{id}/ports", Protected, "portH.Get");
   ("PUT /api/v1/apps/{id}/ports", Perm "app.create", "portH.Update");
   ("GET /api/v1/apps/{id}/healthcheck", Protected, "hcH.Get");
   ("PUT /api/v1/apps/{id}/healthcheck", Perm "app.create", "hcH.Update");
   ("POST /api/v1/apps/{id}/commands", Perm "app.restart", "cmdH.Run");
   ("GET /api/v1/apps/{id}/commands", Protected, "cmdH.History");
   ("GET /api/v1/apps/{id}/log-retention", Protected, "lrH.Get");
   ("PUT /api/v1/apps/{id}/log-retention", Perm "app.create", "lrH.Update");
   ("GET /api/v1/apps/{id}/middleware", Protected, "amwH.Get");
   ("PUT /api/v1/apps/{id}/middleware", Perm "app.create", "amwH.Update");
   ("GET /api/v1/apps/{id}/restarts", Protected, "rstHistH.List")].

(** Applications: settings, deployments, statistics.
    src/internal/api/router.go:303-424 Router.registerRoutes.routes_app_settings *)
Definition routes_app_settings : list entry :=
  [("POST /api/v1/apps/{id}/webhooks/rotate", Perm "app.create", "whRotH.Rotate");
   ("POST /api/v1/apps/{id}/deploy/preview", Perm "app.deploy", "dpH.Preview");
   ("GET /api/v1/apps/{id}/deployments/diff", Protected, "diffH.Diff");
   ("GET /api/v1/apps/{id}/builds/latest/log", Protected, "bldLogH.Get");
   ("GET /api/v1/apps/{id}/builds/latest/log/download", Protected, "bldLogH.Download");
   ("GET /api/v1/apps/{id}/maintenance", Protected, "maintH.Get");
   ("PUT /api/v1/apps/{id}/maintenance", Perm "app.create", "maintH.Update");
   ("GET /api/v1/apps/{id}/redirects", Protected, "redirH.List");
   ("POST /api/v1/apps/{id}/redirects", Perm "app.create", "redirH.Create");
   ("DELETE /api/v1/apps/{id}/redirects/{ruleId}", Perm "app.create", "redirH.Delete");
   ("GET /api/v1/apps/{id}/error-pages", Protected, "epH.Get");
   ("PUT /api/v1/apps/{id}/error-pages", Perm "app.create", "epH.Update");
   ("GET /api/v1/apps/{id}/sticky-sessions", Protected, "stickyH.Get");
   ("PUT /api/v1/apps/{id}/sticky-sessions", Perm "app.create", "stickyH.Update");
   ("GET /api/v1/apps/{id}/autoscale", Protected, "asH.Get");
   ("PUT /api/v1/apps/{id}/autoscale", Perm "app.create", "asH.Update");
   ("GET /api/v1/apps/{id}/response-headers", Protected, "rhH.Get");
   ("PUT /api/v1/apps/{id}/response-headers", Perm "app.create", "rhH.Update");
   ("GET /api/v1/apps/{id}/containers/history", Protected, "chH.History");
   ("GET /api/v1/apps/{id}/deploy-notifications", Protected, "dnH.Get");
   ("PUT /api/v1/apps/{id}/deploy-notifications", Perm "app.create", "dnH.Update");
   ("GET /api/v1/apps/{id}/basic-auth", Protected, "baH.Get");
   ("PUT /api/v1/apps/{id}/basic-auth", Perm "app.create", "baH.Update");
   ("GET /api/v1/apps/{id}/processes", Protected, "topH.Top");
   ("GET /api/v1/apps/{id}/webhooks/logs", Protected, "whLogH.List");
   ("GET /api/v1/apps/{id}/cron", Protected, "cronH.List");
   ("POST /api/v1/apps/{id}/cron", Perm "app.create", "cronH.Create");
   ("DELETE /api/v1/apps/{id}/cron/{jobId}", Perm "app.create", "cronH.Delete");
   ("GET /api/v1/apps/{id}/logs/download", Protected, "logDlH.Download");
   ("POST /api/v1/apps/{id}/rollback", Perm "app.deploy", "rollbackH.Rollback");
   ("GET /api/v1/apps/{id}/versions", Protected, "rollbackH.ListVersions");
   ("GET /api/v1/apps/{id}/deployments", Protected, "depH.ListByApp");
   ("GET /api/v1/apps/{id}/deployments/latest", Protected, "depH.GetLatest");
   ("GET /api/v1/apps/{id}/files", Protected, "fbH.List");
   ("GET /api/v1/apps/{id}/stats", Protected, "statsH.AppStats");
   ("GET /api/v1/servers/stats", Protected, "statsH.ServerStats");
   ("GET /api/v1/metrics/server", Protected, "monitoringH.Metrics");
   ("GET /api/v1/alerts", Protected, "monitoringH.Alerts");
   ("POST /api/v1/apps/{id}/scale", Perm "app.deploy", "scaleH.Scale");
   ("GET /api/v1/apps/{id}/resources", Protected, "resH.GetLimits");
   ("PUT /api/v1/apps/{id}/resources", Perm "app.create", "resH.SetLimits");
   ("GET /api/v1/apps/{id}/dependencies", Protected, "depGraphH.Graph");
   ("GET /api/v1/apps/{id}/metrics", Protected, "metricsH.AppMetrics");
   ("GET /api/v1/servers/{id}/metrics", Protected, "metricsH.ServerMetrics");
   ("GET /api/v1/environments/presets", Public, "envPresetsH.ListPresets");
   ("POST /api/v1/projects/{id}/environment", Perm "project.create", "envPresetsH.ApplyPreset")].

(** Networks, domains, projects, team, databases, backups.
    src/internal/api/router.go:428-523 Router.registerRoutes.routes_platform *)
Definition routes_platform : list entry :=
  [("GET /api/v1/networks", Protected, "netH.List");
   ("POST /api/v1/networks/connect", Perm "network.manage", "netH.Connect");
   ("POST /api/v1/apps/{id}/env/import", Perm "app.env.edit", "envImH.Import");
   ("GET /api/v1/apps/{id}/env/export", Protected, "envImH.Export");
   ("GET /api/v1/dns/records", Protected, "dnsRecH.List");
   ("POST /api/v1/dns/records", Perm "domain.manage", "dnsRecH.Create");
   ("DELETE /api/v1/dns/records/{id}", Perm "domain.manage", "dnsRecH.Delete");
   ("GET /api/v1/domains/ssl-check", Protected, "sslStatH.Check");
   ("GET /api/v1/agents", Protected, "agentH.List");
   ("GET /api/v1/agents/{id}", Protected, "agentH.GetAgent");
   ("GET /api/v1/apps/{id}/logs", Protected, "logH.GetLogs");
   ("POST /api/v1/domains/{id}/verify", Perm "domain.manage", "dvH.Verify");
   ("POST /api/v1/domains/verify-batch", Perm "domain.manage", "dvH.BatchVerify");
   ("GET /api/v1/certificates", Protected, "certH.List");
   ("POST /api/v1/certificates", Perm "domain.manage", "certH.Upload");
   ("POST /api/v1/certificates/wildcard", Perm "domain.manage", "wildcardH.Request");
   ("GET /api/v1/images/tags", Protected, "imgTagH.List");
   ("GET /api/v1/images/dangling", Protected, "imgCleanH.DanglingImages");
   ("DELETE /api/v1/images/prune", Perm "server.manage", "imgCleanH.Prune");
   ("GET /api/v1/volumes", Protected, "volH.List");
   ("POST /api/v1/volumes", Perm "volume.manage", "volH.Create");
   ("GET /api/v1/projects", Protected, "projH.List");
   ("POST /api/v1/projects", Perm "project.create", "projH.Create");
   ("GET /api/v1/projects/{id}", Protected, "projH.Get");
   ("DELETE /api/v1/projects/{id}", Perm "project.delete", "projH.Delete");
   ("GET /api/v1/apps/{id}/env", Protected, "envH.Get");
   ("PUT /api/v1/apps/{id}/env", Perm "app.env.edit", "envH.Update");
   ("GET /api/v1/registries", Protected, "regH.List");
   ("POST /api/v1/registries", Perm "registry.manage", "regH.Add");
   ("GET /api/v1/domains", Protected, "domH.List");
   ("POST /api/v1/domains", Perm "domain.manage", "domH.Create");
   ("DELETE /api/v1/domains/{id}", Perm "domain.manage", "domH.Delete");
   ("POST /api/v1/apps/{id}/exec", Perm "app.restart", "execH.Exec");
   ("GET /api/v1/team/members", Protected, "teamH.ListMembers");
   ("DELETE /api/v1/team/members/{id}", Perm "member.remove", "teamH.RemoveMember");
   ("GET /api/v1/team/roles", Protected, "teamH.ListRoles");
   ("GET /api/v1/team/invites", Protected, "inviteH.List");
   ("POST /api/v1/team/invites", Perm "member.invite", "inviteH.Create");
   ("GET /api/v1/team/audit-log", Protected, "teamH.GetAuditLog");
   ("GET /api/v1/databases", Protected, "dbH.List");
   ("GET /api/v1/databases/engines", Public, "dbH.ListEngines");
   ("POST /api/v1/databases", Perm "db.manage", "dbH.Create")].

(** Servers, tenant settings, git, stacks, secrets, billing.
    src/internal/api/router.go:533-606 Router.registerRoutes.routes_services *)
Definition routes_services : list entry :=
  [("GET /api/v1/backups", Protected, "backupH.List");
   ("POST /api/v1/backups", Perm "backup.create", "backupH.Create");
   ("POST /api/v1/backups/restore/{key...}", Perm "backup.restore", "backupH.Restore");
   ("GET /api/v1/backups/download/{key...}", Protected, "backupH.Download");
   ("GET /api/v1/servers", Protected, "serverH.List");
   ("POST /api/v1/servers", Perm "server.manage", "serverH.Create");
   ("DELETE /api/v1/servers/{id}", Perm "server.manage", "serverH.Delete");
   ("GET /api/v1/servers/providers", Protected, "serverH.ListProviders");
   ("GET /api/v1/servers/providers/{provider}/regions", Protected, "serverH.ListRegions");
   ("GET /api/v1/servers/providers/{provider}/sizes", Protected, "serverH.ListSizes");
   ("POST /api/v1/servers/provision", Perm "server.manage", "serverH.Provision");
   ("POST /api/v1/servers/test-ssh", Perm "server.manage", "sshTestH.Test");
   ("GET /api/v1/build/cache", Protected, "bcH.Stats");
   ("DELETE /api/v1/build/cache", Perm "server.manage", "bcH.Clear");
   ("GET /api/v1/tenant/settings", Protected, "tsH.Get");
   ("PATCH /api/v1/tenant/settings", Perm "tenant.manage", "tsH.Update");
   ("GET /api/v1/storage/usage", Protected, "storageH.Usage");
   ("GET /api/v1/git/providers", Protected, "gitH.ListProviders");
   ("POST /api/v1/git/providers", Perm "git.manage", "gitH.Connect");
   ("DELETE /api/v1/git/providers/{id}", Perm "git.manage", "gitH.Disconnect");
   ("GET /api/v1/git/{provider}/repos", Protected, "gitH.ListRepos");
   ("GET /api/v1/git/{provider}/repos/{repo}/branches", Protected, "gitH.ListBranches");
   ("POST /api/v1/stacks", Perm "app.create", "composeH.Deploy");
   ("POST /api/v1/stacks/validate", Protected, "composeH.Validate");
   ("GET /api/v1/secrets", Protected, "secretH.List");
   ("POST /api/v1/secrets", Perm "secret.create", "secretH.Create");
   ("DELETE /api/v1/secrets/{id}", Perm "secret.delete", "secretH.Delete");
   ("GET /api/v1/billing/plans", Public, "billingH.ListPlans");
   ("GET /api/v1/billing/usage", Protected, "billingH.GetUsage");
   ("GET /api/v1/billing/usage/history", Protected, "usageHistH.Hourly")].

(** Topology, webhooks, freeze, terminal, search, streams.
    src/internal/api/router.go:642-706 Router.registerRoutes.routes_tools *)
Definition routes_tools : list entry :=
  [("POST /api/v1/topology", Perm "topology.manage", "topologyH.Save");
   ("GET /api/v1/topology/{projectId}/{environment}", Protected, "topologyH.Load");
   ("POST /api/v1/topology/compile", Protected, "topologyH.Compile");
   ("POST /api/v1/topology/validate", Protected, "topologyH.Validate");
   ("POST /api/v1/topology/deploy", Perm "topology.deploy", "topologyH.Deploy");
   ("GET /api/v1/topology/templates", Protected, "topologyH.Templates");
   ("GET /api/v1/webhooks/outbound", Protected, "evtWhH.List");
   ("POST /api/v1/webhooks/outbound", Perm "webhook.manage", "evtWhH.Create");
   ("DELETE /api/v1/webhooks/outbound/{id}", Perm "webhook.manage", "evtWhH.Delete");
   ("GET /api/v1/deploy/freeze", Protected, "freezeH.Get");
   ("POST /api/v1/deploy/freeze", Perm "deploy.freeze.manage", "freezeH.Create");
   ("DELETE /api/v1/deploy/freeze/{id}", Perm "deploy.freeze.manage", "freezeH.Delete");
   ("POST /api/v1/apps/env/compare", Protected, "ecH.Compare");
   ("POST /api/v1/notifications/test", Perm "webhook.manage", "notifH.Test");
   ("GET /api/v1/apps/{id}/terminal", Protected, "termH.StreamOutput");
   ("POST /api/v1/apps/{id}/terminal", Perm "app.restart", "termH.SendCommand");
   ("GET /api/v1/deploy/approvals", Protected, "daH.ListPending");
   ("POST /api/v1/deploy/approvals/{id}/approve", Perm "deploy.approval.manage", "daH.Approve");
   ("POST /api/v1/deploy/approvals/{id}/reject", Perm "deploy.approval.manage", "daH.Reject");
   ("GET /api/v1/search", Protected, "searchH.Search");
   ("GET /api/v1/activity", Protected, "activityH.Feed");
   ("GET /api/v1/ssh-keys", Protected, "sshH.List");
   ("POST /api/v1/ssh-keys/generate", Perm "server.manage", "sshH.Generate");
   ("GET /mcp/v1/tools", AdminOnly, "mcpH.ListTools");
   ("POST /mcp/v1/tools/{name}", AdminOnly, "mcpH.CallTool");
   ("GET /api/v1/apps/{id}/logs/stream", Protected, "logStreamer.StreamLogs");
   ("GET /api/v1/events/stream", Protected, "eventStreamer.StreamEvents");
   ("GET /api/v1/topology/deploy/{projectId}/progress", Protected, "DeployHub.ServeWS")].

(** Metrics and the user interface.
    src/internal/api/router.go:721-739 Router.registerRoutes.routes_tail *)
Definition routes_tail : list entry :=
  [("GET /metrics", Protected, "promExporter.Handler");
   ("GET /metrics/api", Protected, "r.apiMetrics.Handler");
   ("/", Public, "newSPAHandler")].

(** Only when billing has a payment provider.
    src/internal/api/router.go:614-614 Router.registerRoutes.stripe *)
Definition routes_stripe : list entry :=
  [("POST /api/v1/webhooks/stripe", Signed, "stripeWH")].

(** Only with the marketplace module.
    src/internal/api/router.go:633-637 Router.registerRoutes.marketplace *)
Definition routes_marketplace : list entry :=
  [("GET /api/v1/marketplace", Public, "mpH.List");
   ("GET /api/v1/marketplace/{slug}", Public, "mpH.Get");
   ("POST /api/v1/marketplace/deploy", Perm "marketplace.deploy", "mpDeployH.Deploy")].

(** Only when profiling is enabled.
    src/internal/api/router.go:731-735 Router.registerRoutes.pprof *)
Definition routes_pprof : list entry :=
  [("GET /debug/pprof/", Protected, "pprof.Index");
   ("GET /debug/pprof/cmdline", Protected, "pprof.Cmdline");
   ("GET /debug/pprof/profile", Protected, "pprof.Profile");
   ("GET /debug/pprof/symbol", Protected, "pprof.Symbol");
   ("GET /debug/pprof/trace", Protected, "pprof.Trace")].

(** src/internal/api/routes_admin.go:13-89 registerAdminRoutes *)
Definition routes_admin : list entry :=
  [("GET /api/v1/announcements", Public, "announcH.List");
   ("POST /api/v1/admin/announcements", AdminOnly, "announcH.Create");
   ("DELETE /api/v1/admin/announcements/{id}", AdminOnly, "announcH.Dismiss");
   ("GET /api/v1/admin/disk", AdminOnly, "diskH.SystemDisk");
   ("GET /api/v1/admin/tenants/{id}/ratelimit", AdminOnly, "trlH.Get");
   ("PUT /api/v1/admin/tenants/{id}/ratelimit", AdminOnly, "trlH.Update");
   ("GET /api/v1/admin/stats", AdminOnly, "platH.Overview");
   ("GET /api/v1/admin/license", AdminOnly, "licH.Get");
   ("POST /api/v1/admin/license", AdminOnly, "licH.Activate");
   ("GET /api/v1/admin/db/backup", AdminOnly, "dbBackupH.Backup");
   ("GET /api/v1/admin/db/status", AdminOnly, "dbBackupH.Status");
   ("GET /api/v1/admin/api-keys", AdminOnly, "adminKeyH.List");
   ("POST /api/v1/admin/api-keys", AdminOnly, "adminKeyH.Generate");
   ("DELETE /api/v1/admin/api-keys/{prefix}", AdminOnly, "adminKeyH.Revoke");
   ("GET /api/v1/admin/db/migrations", AdminOnly, "migH.Status");
   ("GET /api/v1/admin/system", AdminOnly, "adminH.SystemInfo");
   ("PATCH /api/v1/admin/settings", AdminOnly, "adminH.UpdateSettings");
   ("GET /api/v1/admin/tenants", AdminOnly, "adminH.ListTenants");
   ("POST /api/v1/admin/keys/revoke-all", AdminOnly, "adminH.RevokeAllKeys");
   ("GET /api/v1/admin/updates", AdminOnly, "updateH.CheckUpdate");
   ("GET /api/v1/branding", Public, "brandingH.Get");
   ("PATCH /api/v1/admin/branding", AdminOnly, "brandingH.Update")].

(** What depends on the configuration. *)
Record options := { with_stripe : bool; with_marketplace : bool; with_pprof : bool }.

(** src/internal/api/router.go:96-740 Router.registerRoutes *)
Definition registerRoutes (o : options) : list entry :=
  routes_auth ++ routes_apps ++ routes_app_settings ++ routes_platform ++ routes_services ++
  (if with_stripe o then routes_stripe else []) ++ (if with_marketplace o then routes_marketplace else []) ++
  routes_tools ++ routes_admin ++ (if with_pprof o then routes_pprof else []) ++ routes_tail.

(** ** Patterns *)

Inductive seg := Lit (s : string) | Wild | Multi.
Definition pattern : Type := string * list seg.

#[global] Instance seg_eq_dec : EqDecision seg.
Proof. solve_decision. Defined.
#[global] Instance guard_eq_dec : EqDecision guard.
Proof. solve_decision. Defined.

Definition parse_seg (last : bool) (s : string) : seg :=
  if HasPrefix s "{" then if HasSuffix s "...}" then Multi else Wild
  else if last && bool_decide (s = "") then Multi else Lit s.

Fixpoint parse_segs (l : list string) : list seg :=
  match l with
  | [] => []
  | [s] => [parse_seg true s]
  | s :: l => parse_seg false s :: parse_segs l
  end.

(** ["METHOD /path"] or ["/path"]. *)
Definition parse_pattern (p : string) : pattern :=
  match cut p " " with
  | (m, Some path) => (m, parse_segs (drop 1 (Split path "/")))
  | (path, None) => ("", parse_segs (drop 1 (Split path "/")))
  end.

(** A pattern for GET also serves HEAD. *)
Definition method_covers (m m' : string) : bool :=
  bool_decide (m = "" ∨ m = m' ∨ (m = "GET" ∧ m' = "HEAD")).

Fixpoint match_segs (p : list seg) (path : list string) : bool :=
  match p, path with
  | [], [] => true
  | [Multi], _ :: _ => true
  | Lit a :: p, s :: path => bool_decide (a = s) && match_segs p path
  | Wild :: p, s :: path => negb (bool_decide (s = "")) && match_segs p path
  | _, _ => false
  end.

Definition matches (p : pattern) (method : string) (path : list string) : bool :=
  method_covers p.1 method && match_segs p.2 path.

(** Every path of the second pattern is one of the first. *)
Fixpoint covers_segs (q p : list seg) : bool :=
  match q, p with
  | [], [] => true
  | [Multi], _ :: _ => true
  | Lit a :: q, Lit b :: p => bool_decide (a = b) && covers_segs q p
  | Wild :: q, Lit b :: p => negb (bool_decide (b = "")) && covers_segs q p
  | Wild :: q, Wild :: p => covers_segs q p
  | _, _ => false
  end.

Definition covers (q p : pattern) : bool := method_covers q.1 p.1 && covers_segs q.2 p.2.

(** No path is one of both. *)
Fixpoint disjoint_segs (p q : list seg) : bool :=
  match p, q with
  | [], [] => false
  | [Multi], _ :: _ => false
  | _ :: _, [Multi] => false
  | Lit a :: p, Lit b :: q => negb (bool_decide (a = b)) || disjoint_segs p q
  | Lit a :: p, Wild :: q | Wild :: p, Lit a :: q => bool_decide (a = "") || disjoint_segs p q
  | Wild :: p, Wild :: q => disjoint_segs p q
  | _, _ => true
  end.

Definition disjoint (p q : pattern) : bool :=
  negb (method_covers p.1 q.1 || method_covers q.1 p.1) || disjoint_segs p.2 q.2.

(** The registration of the second of two patterns panics. *)
Definition conflict (p q : pattern) : bool := negb (disjoint p q) && negb (xorb (covers p q) (covers q p)).

Fixpoint no_conflicts (l : list pattern) : bool :=
  match l with
  | [] => true
  | p :: l => forallb (λ q, negb (conflict p q)) l && no_conflicts l
  end.

(** The most specific pattern that matches. *)
Definition better (method : string) (path : list string) (best : option entry) (e : entry) : option entry :=
  if matches (parse_pattern e.1.1) method path then
    match best with
    | None => Some e
    | Some b => if covers (parse_pattern b.1.1) (parse_pattern e.1.1) then Some e else best
    end
  else best.

Definition dispatch (o : options) (method : string) (path : list string) : option entry :=
  foldl (better method path) None (registerRoutes o).

(** ** Matching *)

(** Patterns as they are parsed: only the last segment may take the rest of the path. *)
Fixpoint wf_segs (p : list seg) : bool :=
  match p with
  | [] => true
  | Multi :: p => bool_decide (p = [])
  | _ :: p => wf_segs p
  end.

Ltac segs :=
  cbn in *; rewrite ?andb_true_iff, ?orb_true_iff, ?bool_decide_eq_true, ?negb_true_iff, ?bool_decide_eq_false in *;
  destruct_and?; simplify_eq/=.

Lemma covers_sound q : ∀ p path, wf_segs q = true → wf_segs p = true → covers_segs q p = true →
  match_segs p path = true → match_segs q path = true.
Proof.
  induction q as [|[a| |] q IH]; intros [|[b| |] p] [|s path] Hq Hp Hc Hm; segs;
    try done; try (by destruct q); try (by destruct p); split; try done; by apply (IH p path).
Qed.

Lemma covers_trans q : ∀ p r, wf_segs q = true → wf_segs p = true → wf_segs r = true →
  covers_segs q p = true → covers_segs p r = true → covers_segs q r = true.
Proof.
  induction q as [|[a| |] q IH]; intros [|[b| |] p] [|[c| |] r] Hq Hp Hr H1 H2; segs;
    try done; try (by destruct q); try (by destruct p); try (split; try done); by apply (IH p r).
Qed.

Lemma disjoint_sound p : ∀ q path, wf_segs p = true → wf_segs q = true → disjoint_segs p q = true →
  match_segs p path = true → match_segs q path = true → False.
Proof.
  induction p as [|[a| |] p IH]; intros [|[b| |] q] [|s path] Hp Hq Hd H1 H2; segs;
    try done; try (by destruct p); try (by destruct q); try (destruct Hd as [?|?]; [done|]); by apply (IH q path).
Qed.

Definition pat (e : entry) : pattern := parse_pattern e.1.1.

Lemma method_trans a b c : method_covers a b = true → method_covers b c = true → method_covers a c = true.
Proof. unfold method_covers. rewrite !bool_decide_eq_true. naive_solver. Qed.

Lemma method_comparable a b m : method_covers a m = true → method_covers b m = true →
  method_covers a b = true ∨ method_covers b a = true.
Proof. unfold method_covers. rewrite !bool_decide_eq_true. naive_solver. Qed.

Definition wf_pattern (p : pattern) : Prop := wf_segs p.2 = true.

Lemma pattern_covers_trans p q r : wf_pattern p → wf_pattern q → wf_pattern r →
  covers p q = true → covers q r = true → covers p r = true.
Proof.
  unfold covers, wf_pattern. rewrite !andb_true_iff. intros ??? [??] [??].
  split; [by eapply method_trans|by apply (covers_trans p.2 q.2 r.2)].
Qed.

(** Two patterns that do not conflict and match one request: exactly one is more general. *)
Lemma matched_comparable p q m path : wf_pattern p → wf_pattern q → conflict p q = false →
  matches p m path = true → matches q m path = true → covers p q = negb (covers q p).
Proof.
  unfold conflict, matches, wf_pattern. rewrite !andb_true_iff. intros Hp Hq Hc [Hm1 Hs1] [Hm2 Hs2].
  assert (disjoint p q = false) as Hd.
  { unfold disjoint. destruct (method_comparable _ _ _ Hm1 Hm2) as [-> | ->]; rewrite ?orb_true_r; cbn;
      apply not_true_iff_false; intros Hd; by apply (disjoint_sound p.2 q.2 path). }
  rewrite Hd in Hc. cbn in Hc. by destruct (covers p q), (covers q p).
Qed.

(** The best of a part of the table: it matches, and every other that matches is strictly
    more general. *)
Definition best_of (m : string) (path : list string) (l : list entry) (best : option entry) : Prop :=
  match best with
  | None => ∀ e, e ∈ l → matches (pat e) m path = false
  | Some b => b ∈ l ∧ matches (pat b) m path = true ∧
      ∀ e, e ∈ l → matches (pat e) m path = true → e = b ∨ covers (pat e) (pat b) = true ∧ covers (pat b) (pat e) = false
  end.

Lemma better_step m path pre best e : Forall (λ e, wf_pattern (pat e)) (pre ++ [e]) →
  (∀ x, x ∈ pre → conflict (pat x) (pat e) = false) →
  best_of m path pre best → best_of m path (pre ++ [e]) (better m path best e).
Proof.
  intros [Hwf Hwe]%Forall_app Hc Hb. rewrite Forall_forall in Hwf. apply Forall_cons in Hwe as [Hwe _].
  unfold better. fold (pat e). destruct (matches (pat e) m path) eqn:Em.
  2:{ destruct best as [b|]; cbn in *.
      - destruct Hb as (Hin & Hm & Hr). split_and!; [apply elem_of_app; by left|done|].
        intros x [Hx| ->%list_elem_of_singleton]%elem_of_app Hmx; [by apply Hr|congruence].
      - intros x [Hx| ->%list_elem_of_singleton]%elem_of_app; [by apply Hb|done]. }
  destruct best as [b|]; cbn in *.
  2:{ split_and!; [apply elem_of_app; right; by left|done|].
      intros x [Hx| ->%list_elem_of_singleton]%elem_of_app Hmx; [|by left]. rewrite Hb in Hmx by done. done. }
  destruct Hb as (Hin & Hm & Hr). fold (pat b).
  pose proof (matched_comparable (pat b) (pat e) m path (Hwf b Hin) Hwe (Hc b Hin) Hm Em) as Hx.
  destruct (covers (pat b) (pat e)) eqn:Ebe; symmetry in Hx; [apply negb_true_iff in Hx|apply negb_false_iff in Hx].
  - split_and!; [apply elem_of_app; right; by left|done|].
    intros x [Hxi| ->%list_elem_of_singleton]%elem_of_app Hmx; [|by left]. right.
    destruct (Hr x Hxi Hmx) as [->|[H1 H2]]; [done|].
    split; [apply (pattern_covers_trans (pat x) (pat b) (pat e)); auto|].
    apply not_true_iff_false. intros H3. apply not_true_iff_false in Hx. apply Hx.
    apply (pattern_covers_trans (pat e) (pat x) (pat b)); auto.
  - split_and!; [apply elem_of_app; by left|done|].
    intros x [Hxi| ->%list_elem_of_singleton]%elem_of_app Hmx; [by apply Hr|]. by right.
Qed.

Lemma better_fold m path l : ∀ pre best, Forall (λ e, wf_pattern (pat e)) (pre ++ l) →
  (∀ x y, x ∈ pre → y ∈ l → conflict (pat x) (pat y) = false) → no_conflicts (pat <$> l) = true →
  best_of m path pre best → best_of m path (pre ++ l) (foldl (better m path) best l).
Proof.
  induction l as [|e l IH]; intros pre best Hwf Hpre Hl Hb; [by rewrite app_nil_r|].
  cbn [fmap list_fmap no_conflicts] in Hl. apply andb_true_iff in Hl as [He Hl].
  rewrite forallb_forall in He. cbn [foldl]. rewrite (app_assoc pre [e] l : pre ++ e :: l = _).
  rewrite (app_assoc pre [e] l : pre ++ e :: l = _) in Hwf. apply IH; [done| |done|].
  - intros x y [Hx| ->%list_elem_of_singleton]%elem_of_app Hy; [apply Hpre; [done|by right]|].
    apply negb_true_iff, He, list_elem_of_In, list_elem_of_fmap. by exists y.
  - apply better_step; [by apply Forall_app in Hwf as [? _]| |done]. intros x Hx. apply Hpre; [done|by left].
Qed.

(** Everything configured. *)
Definition full : options := {| with_stripe := true; with_marketplace := true; with_pprof := true |}.

Lemma optional_sublist {A} (b : bool) (l : list A) : (if b then l else []) `sublist_of` l.
Proof. destruct b; [done|apply sublist_nil_l]. Qed.

Lemma registered_sublist o : registerRoutes o `sublist_of` registerRoutes full.
Proof. unfold registerRoutes. repeat (apply sublist_app; [done || apply optional_sublist|]). done. Qed.

Lemma sublist_no_conflicts l1 l2 : l1 `sublist_of` l2 → no_conflicts l2 = true → no_conflicts l1 = true.
Proof.
  induction 1 as [|p l1 l2 Hs IH|p l1 l2 Hs IH]; cbn [no_conflicts]; [done| |]; intros [Hp Hl]%andb_true_iff; [|by apply IH].
  apply andb_true_iff. split; [|by apply IH]. rewrite forallb_forall in *. intros q Hq. apply Hp.
  apply list_elem_of_In. apply list_elem_of_In in Hq. by eapply sublist_subseteq.
Qed.

Lemma full_registers : no_conflicts (pat <$> registerRoutes full) && forallb (λ e, wf_segs (pat e).2) (registerRoutes full) = true.
Proof. vm_compute. reflexivity. Qed.

Lemma table_registers o : no_conflicts (pat <$> registerRoutes o) = true ∧
  ∀ e, e ∈ registerRoutes o → wf_pattern (pat e).
Proof.
  destruct (proj1 (andb_true_iff _ _) full_registers) as [Hn Hw]. pose proof (registered_sublist o) as Hs. split.
  - eapply sublist_no_conflicts; [|exact Hn]. by apply fmap_sublist.
  - intros e He. rewrite forallb_forall in Hw. apply Hw, list_elem_of_In. eapply sublist_subseteq; [exact Hs|exact He].
Qed.

Lemma fallback_registered o : ("/", Public, "newSPAHandler") ∈ registerRoutes o.
Proof. unfold registerRoutes. repeat (apply elem_of_app; right). apply (bool_decide_unpack _). vm_compute. exact I. Qed.

(** Every request has one handler: registering the routes does not panic, whatever optional parts
    are configured, and a request is served by the one pattern that matches it and is
    more specific than every other pattern that does. *)
Theorem dispatch_is_unique o m path :
  no_conflicts (pat <$> registerRoutes o) = true ∧
  (path ≠ [] → ∃ e, dispatch o m path = Some e ∧ e ∈ registerRoutes o ∧ matches (pat e) m path = true ∧
     ∀ e', e' ∈ registerRoutes o → matches (pat e') m path = true →
       e' = e ∨ covers (pat e') (pat e) = true ∧ covers (pat e) (pat e') = false).
Proof.
  destruct (table_registers o) as [Hn Hw]. split; [exact Hn|]. intros Hp.
  pose proof (fallback_registered o) as Hf. unfold dispatch. revert Hn Hw Hf. generalize (registerRoutes o). intros l Hn Hw Hf.
  assert (best_of m path l (foldl (better m path) None l)) as Hb.
  { apply (better_fold m path l [] None); [by apply Forall_forall|by intros x y ?%elem_of_nil|done|by intros e ?%elem_of_nil]. }
  destruct (foldl (better m path) None l) as [e|]; [by exists e|]. exfalso.
  specialize (Hb _ Hf). by destruct path.
Qed.

(** ** What a request has to present *)

(** The pattern can match a path that starts with the given segments. *)
Fixpoint may_start (p : list seg) (prefix : list string) : bool :=
  match prefix, p with
  | [], _ => true
  | _ :: _, [Multi] => true
  | s :: prefix, Lit a :: p => bool_decide (a = s) && may_start p prefix
  | s :: prefix, Wild :: p => may_start p prefix
  | _, _ => false
  end.

Lemma may_start_sound prefix : ∀ p rest, match_segs p (prefix ++ rest) = true → may_start p prefix = true.
Proof.
  induction prefix as [|s prefix IH]; intros [|[a| |] p] rest Hm; segs; try done.
  - split; [done|]. by eapply IH.
  - by eapply IH.
Qed.

Definition admin_path : list string := ["api"; "v1"; "admin"].

Definition is_fallback (e : entry) : bool := bool_decide (e.1.1 = "/").

(** The routes that change something and ask for no permission: signing in and out, the
    user's own account, signed webhooks, and three that only compute an answer. *)
Definition self_service : list string :=
  ["POST /api/v1/auth/login"; "POST /api/v1/auth/register"; "POST /api/v1/auth/refresh"; "POST /api/v1/auth/logout";
   "PATCH /api/v1/auth/me"; "POST /api/v1/auth/change-password"; "POST /api/v1/auth/logout-all";
   "POST /api/v1/auth/totp/enroll"; "POST /api/v1/auth/totp/disable"; "POST /api/v1/auth/totp/backup-codes";
   "POST /hooks/v1/{webhookID}"; "POST /api/v1/webhooks/stripe"; "POST /api/v1/stacks/validate";
   "POST /api/v1/topology/compile"; "POST /api/v1/topology/validate"; "POST /api/v1/apps/env/compare"].

Definition has_permission_guard (g : guard) : bool := match g with Perm _ | AdminOnly => true | _ => false end.

Lemma admin_table : forallb (λ e : entry, negb (may_start (pat e).2 admin_path) || bool_decide (e.1.2 = AdminOnly) || is_fallback e)
  (registerRoutes full) = true.
Proof. vm_compute. reflexivity. Qed.

Lemma mutation_table : forallb (λ e : entry,
    bool_decide ((pat e).1 = "GET") || has_permission_guard e.1.2 || bool_decide (e.1.1 ∈ self_service) || is_fallback e)
  (registerRoutes full) = true.
Proof. vm_compute. reflexivity. Qed.

Lemma table_check o (f : entry → bool) e : forallb f (registerRoutes full) = true → e ∈ registerRoutes o → f e = true.
Proof.
  rewrite forallb_forall. intros Hf He. apply Hf, list_elem_of_In. eapply sublist_subseteq; [apply registered_sublist|exact He].
Qed.

Lemma dispatch_matches o m path e : dispatch o m path = Some e → e ∈ registerRoutes o ∧ matches (pat e) m path = true.
Proof.
  unfold dispatch. generalize (registerRoutes o). intros l.
  assert (∀ best, foldl (better m path) best l = Some e → (e ∈ l ∧ matches (pat e) m path = true) ∨ best = Some e) as Hg.
  { induction l as [|x l IH]; intros best H; [by right|]. cbn [foldl] in H.
    destruct (IH _ H) as [[? ?]|Hb]; [left; split; [by right|done]|]. unfold better in Hb. fold (pat x) in Hb.
    destruct (matches (pat x) m path) eqn:Em; [|by right].
    destruct best as [b|]; [destruct (covers _ _); [|by right]|]; injection Hb as ->; left; (split; [by left|done]). }
  intros H. by destruct (Hg None H) as [?|?].
Qed.

Section Guards.
Context `{JWTLib}.
Variables (bcrypt_ok : string → string → bool) (fails : stmt → bool) (now : instant) (j : JWTService)
  (kv : option KVStore) (mem : string → option Membership) (role : string → option Role).
(** The limiters for credentials and per tenant; neither changes who the caller is. *)
Variables authRL tenantRL : middleware.
Hypothesis tenantRL_claims : ∀ c r c', tenantRL c r = Pass c' → claims c' = claims c.

Definition auth : middleware := RequireAuth bcrypt_ok fails now j kv mem.

(** The middlewares around a handler, outermost first.
    src/internal/api/router.go:97-115 Router.registerRoutes.protected *)
Definition wrap (g : guard) : list middleware :=
  match g with
  | Public | Signed => []
  | Limited => [authRL]
  | AuthOnly => [auth]
  | Protected => [auth; tenantRL]
  | Perm p => [auth; tenantRL; RequirePermission role p]
  | AdminOnly => [auth; tenantRL; RequireSuperAdmin]
  end.

(** The handler's entry is reached with the context [c']. *)
Definition reaches (o : options) (m : string) (path : list string) (c : ctx) (r : Http.Request) (e : entry) (c' : ctx) : Prop :=
  dispatch o m path = Some e ∧ Chain (wrap e.1.2) c r = Pass c'.

Lemma behind_auth g c r c' last : wrap g = [auth; tenantRL; last] → Chain (wrap g) c r = Pass c' →
  ∃ c1 cl, claims c1 = Some cl ∧ credential bcrypt_ok fails now j kv mem r cl ∧ last c1 r = Pass c'.
Proof.
  intros -> (c0 & Ha & (c1 & Ht & (c2 & Hl & Hc)%chain_cons_pass)%chain_cons_pass)%chain_cons_pass.
  apply require_auth_sound in Ha as (cl & Hcl & Hcr). apply tenantRL_claims in Ht. injection Hc as <-.
  exists c1, cl. split; [congruence|]. done.
Qed.

(** What the caller of a permission-guarded or an administrator's route is. *)
Lemma guard_sound g c r c' : has_permission_guard g = true → Chain (wrap g) c r = Pass c' →
  ∃ cl, claims c' = Some cl ∧ credential bcrypt_ok fails now j kv mem r cl ∧
    match g with
    | Perm p => ∃ ro, role (RoleID cl) = Some ro ∧ HasPermission ro p = true
    | _ => RoleID cl = "role_super_admin"
    end.
Proof.
  destruct g as [| | | | |p|]; try done; intros _ Hc.
  - destruct (behind_auth (Perm p) c r c' _ eq_refl Hc) as (c1 & cl & Hcl & Hcr & Hl).
    unfold RequirePermission in Hl. rewrite Hcl in Hl. destruct (role (RoleID cl)) as [ro|] eqn:Er; [|done].
    destruct (HasPermission ro p) eqn:Eh; [|done]. injection Hl as <-. exists cl. eauto.
  - destruct (behind_auth AdminOnly c r c' _ eq_refl Hc) as (c1 & cl & Hcl & Hcr & Hl).
    unfold RequireSuperAdmin, requireRole in Hl. rewrite Hcl in Hl. case_decide as Hd; [|done].
    injection Hl as <-. exists cl. split_and!; [done|done|set_solver].
Qed.

(** C30. Administrators' routes are for administrators: a request whose path starts with /api/v1/admin reaches a
    handler other than the user interface's only with the credentials of a platform
    administrator. *)
Theorem admin_routes_need_super_admin o m rest c r e c' :
  reaches o m (admin_path ++ rest) c r e c' → is_fallback e = false →
  ∃ cl, claims c' = Some cl ∧ credential bcrypt_ok fails now j kv mem r cl ∧ RoleID cl = "role_super_admin".
Proof.
  intros [Hd Hc] Hf. apply dispatch_matches in Hd as [He Hm]. pose proof (table_check o _ e admin_table He) as Ht. cbn beta in Ht.
  apply andb_true_iff in Hm as [_ Hm]. apply may_start_sound in Hm. rewrite Hm, Hf, orb_false_r in Ht.
  cbn [negb orb] in Ht. apply bool_decide_eq_true in Ht.
  destruct (guard_sound e.1.2 c r c') as (cl & Hcl & Hcr & Hr); [by rewrite Ht|done|]. exists cl. rewrite Ht in Hr. done.
Qed.

(** C29. Every change needs a permission: a request with a method other than GET and HEAD that reaches a
    handler, other than the user interface's fallback under / (which has no method and answers
    any path that no route takes, without credentials) and outside the listed self-service
    routes, was made with valid credentials whose role grants the permission of the route, or by
    a platform administrator. *)
Theorem mutations_need_permission o m path c r e c' :
  m ∉ ["GET"; "HEAD"] → reaches o m path c r e c' → is_fallback e = false → e.1.1 ∉ self_service →
  ∃ cl, claims c' = Some cl ∧ credential bcrypt_ok fails now j kv mem r cl ∧
    (RoleID cl = "role_super_admin" ∨ ∃ p ro, e.1.2 = Perm p ∧ role (RoleID cl) = Some ro ∧ HasPermission ro p = true).
Proof.
  intros Hm [Hd Hc] Hf Hs. apply dispatch_matches in Hd as [He Hmt]. pose proof (table_check o _ e mutation_table He) as Ht. cbn beta in Ht.
  rewrite Hf, orb_false_r, (bool_decide_false _ Hs), orb_false_r in Ht.
  apply andb_true_iff in Hmt as [Hmt _]. unfold method_covers in Hmt. rewrite bool_decide_eq_true in Hmt.
  assert ((pat e).1 ≠ "GET") as Hg.
  { intros Hg. rewrite Hg in Hmt. rewrite !not_elem_of_cons in Hm. naive_solver. }
  rewrite (bool_decide_false _ Hg) in Ht. cbn [orb] in Ht.
  destruct (guard_sound e.1.2 c r c' Ht Hc) as (cl & Hcl & Hcr & Hr). exists cl. split_and!; [done|done|].
  destruct (e.1.2) as [| | | | |p|]; try done; [|by left]. right. destruct Hr as (ro & ? & ?). by exists p, ro.
Qed.

End Guards.

(** ** Health *)

Inductive health := HealthOK | HealthDegraded | HealthDown.

(** The status of [/health]: 503 as soon as one module is down.
    src/internal/api/router.go:742-757 Router.handleHealth *)
Definition handleHealth (modules : list (string * health)) : string * Z :=
  foldl (λ acc h, match h.2 with HealthDown => ("degraded", 503) | _ => acc end) ("ok", 200) modules.

(** Draining, then the database and the container runtime, each [None] when it is not
    configured, else whether it answers.
    src/internal/api/router.go:763-802 Router.handleReadiness *)
Definition handleReadiness (draining : bool) (store container : option bool) : string * list string * Z :=
  if draining then ("draining", [], 503)
  else
    let reasons := (match store with Some false => ["database unreachable"] | _ => [] end) ++
                   (match container with Some false => ["container runtime unreachable"] | _ => [] end) in
    match reasons with [] => ("ready", [], 200) | _ => ("not_ready", reasons, 503) end.

Lemma health_ok_iff modules : (handleHealth modules).2 = 200 ↔ ∀ h, h ∈ modules → h.2 ≠ HealthDown.
Proof.
  unfold handleHealth.
  assert (∀ acc, (foldl (λ acc h, match h.2 with HealthDown => ("degraded", 503) | _ => acc end) acc modules).2 = 200
            ↔ acc.2 = 200 ∧ ∀ h : string * health, h ∈ modules → h.2 ≠ HealthDown) as Hg; [|rewrite Hg; naive_solver].
  induction modules as [|h modules IH]; intros acc; cbn [foldl]; [split; [intros; split; [done|by intros ? ?%elem_of_nil]|by intros []]|].
  rewrite IH. setoid_rewrite elem_of_cons. destruct h as [n []]; cbn; naive_solver.
Qed.

(** Ready exactly when not draining and everything configured answers. *)
Lemma ready_iff draining store container : (handleReadiness draining store container).2 = 200 ↔
  draining = false ∧ store ≠ Some false ∧ container ≠ Some false.
Proof. destruct draining, store as [[]|], container as [[]|]; cbn; naive_solver. Qed.

(** ** Examples *)

(** An API key whose owner is a platform administrator, or a developer. *)
Definition key_store : KVStore :=
  {| rows := {[ ("api_keys", "dm_0123456789ab") :=
       {| data := Some (JObj [("key_hash", JStr "h"); ("key_prefix", JStr "dm_0123456789ab"); ("user_id", JStr "u0")]);
          expires_at := 0 |} ]}; buckets := {[ "api_keys" ]} |}.
Definition with_key : Http.Request :=
  {| Http.Method := "POST"; Http.Path := "/"; Http.Header := {[ "X-API-Key" := "dm_0123456789abcdef" ]};
     Http.Cookies := ∅; Http.RemoteAddr := "192.0.2.1:4711" |}.
Definition no_limit : middleware := λ c _, Pass c.
Definition owner_role (id : string) (_ : string) : option Membership := Some {| mTenantID := "t0"; mRoleID := id |}.
Definition caller (id : string) : ctx :=
  {| claims := Some {| UserID := "u0"; TenantID := "t0"; RoleID := id; ID := ""; ExpiresAt := None |}; rheaders := ∅ |}.
Definition deployer (id : string) : option Role :=
  if decide (id = "role_developer") then Some {| rID := id; rTenantID := ""; perms := Some ["app.deploy"] |} else None.

Lemma admin_routes_need_super_admin_witness :
  ∃ cl, claims (caller "role_super_admin") = Some cl ∧ RoleID cl = "role_super_admin".
Proof.
  destruct (@admin_routes_need_super_admin toy_lib (λ _ _, true) no_fault issue_time issuer (Some key_store) (owner_role "role_super_admin")
    (λ _, None) no_limit no_limit ltac:(by intros c r c' [= ->]) full "POST" ["keys"; "revoke-all"] empty_ctx with_key
    ("POST /api/v1/admin/keys/revoke-all", AdminOnly, "adminH.RevokeAllKeys") (caller "role_super_admin")) as (cl & ? & _ & ?).
  - split; vm_compute; reflexivity.
  - reflexivity.
  - by exists cl.
Defined.

Lemma mutations_need_permission_witness :
  ∃ cl, claims (caller "role_developer") = Some cl ∧
    (RoleID cl = "role_super_admin" ∨ ∃ ro, deployer (RoleID cl) = Some ro ∧ HasPermission ro "app.deploy" = true).
Proof.
  destruct (@mutations_need_permission toy_lib (λ _ _, true) no_fault issue_time issuer (Some key_store) (owner_role "role_developer")
    deployer no_limit no_limit ltac:(by intros c r c' [= ->]) full "POST" ["api"; "v1"; "apps"; "a1"; "deploy"] empty_ctx with_key
    ("POST /api/v1/apps/{id}/deploy", Perm "app.deploy", "deployTriggerH.TriggerDeploy") (caller "role_developer"))
    as (cl & Hcl & _ & Hr).
  - apply (bool_decide_unpack _). vm_compute. exact I.
  - split; vm_compute; reflexivity.
  - reflexivity.
  - apply (bool_decide_unpack _). vm_compute. exact I.
  - exists cl. split; [exact Hcl|]. destruct Hr as [Hr|(p & ro & Hp & Hro & Hh)]; [by left|right]. injection Hp as <-. by exists ro.
Defined.
End Router.
