(* ===== verification/Users.v ===== *)
(** * Users: accounts, memberships, tenants and invitations ([internal/db])

    The tables behind sign-in, and the statements of [users.go], [setup.go],
    [tenants.go] and [invites.go] on them.  A statement runs as a whole or fails and
    changes nothing; a transaction likewise.  Besides the constraints of the schema a
    statement can fail for reasons of its own, which [works] decides; whether the
    connection enforces foreign keys is [fk] ([sqlite.go] asks for it in the data source
    name only).  Identifiers are drawn at random and are arguments.  The times of
    creation, change and last login are left out. *)

From S2P Require Import Prelude GoStrings.
#[local] Open Scope Z_scope.

Module Users.

(** src/internal/core/store.go:215-228 User *)
Record User := {
  uID : string; uEmail : string; PasswordHash : string; uName : string; AvatarURL : string;
  uStatus : string; TOTPEnabled : bool; TOTPSecret : string; TOTPBackupCodes : list string }.

(** src/internal/core/store.go:372-379 TeamMember *)
Record TeamMember := { mTenantID : string; mUserID : string; mRoleID : string; mStatus : string }.

(** src/internal/core/store.go:200-212 Tenant *)
Record Tenant := {
  tName : string; tSlug : string; tAvatarURL : string; tPlanID : string; tOwnerID : string; tStatus : string;
  tLimitsJSON : string; tMetadataJSON : string }.

(** src/internal/core/store.go:421-432 Invitation *)
Record Invitation := {
  iTenantID : string; iEmail : string; iRoleID : string; iInvitedBy : string; iTokenHash : string;
  iExpiresAt : instant; iAcceptedAt : option instant; iStatus : string }.

(** The tables, by primary key; [projects] maps a project to its tenant. *)
Record Db := {
  users : gmap string User;
  members : gmap string TeamMember;
  tenants : gmap string Tenant;
  projects : gmap string string;
  invitations : gmap string Invitation }.

Inductive db_error := ErrNotFound | ErrInvalidToken | ErrConstraint | ErrIO.

Inductive db_op :=
| OpGetUser | OpGetUserByEmail | OpCreateUser | OpUpdateUser | OpUpdatePassword | OpUpdateTOTP
| OpUpdateBackupCodes | OpLastLogin | OpMembership | OpCreateTenant | OpCreateUserWithMembership
| OpCreateInvite | OpGetInvite | OpAcceptInvite | OpRemoveMember
| OpInsertTenant | OpGetTenant | OpUpdateTenant | OpDeleteTenant | OpCreateProject | OpDeleteProject.

Section Statements.
Variable works : db_op → bool.
Variable fk : bool.

Definition run {A} (op : db_op) (r : result db_error A) : result db_error A :=
  if works op then r else Err ErrIO.

Definition with_users (d : Db) (m : gmap string User) : Db :=
  {| users := m; members := members d; tenants := tenants d; projects := projects d;
     invitations := invitations d |}.
Definition with_members (d : Db) (m : gmap string TeamMember) : Db :=
  {| users := users d; members := m; tenants := tenants d; projects := projects d;
     invitations := invitations d |}.
Definition with_tenants (d : Db) (m : gmap string Tenant) : Db :=
  {| users := users d; members := members d; tenants := m; projects := projects d;
     invitations := invitations d |}.
Definition with_invitations (d : Db) (m : gmap string Invitation) : Db :=
  {| users := users d; members := members d; tenants := tenants d; projects := projects d;
     invitations := m |}.

(** The row a query finds first. *)
Definition first_row {A} (m : gmap string A) (P : A → bool) : option (string * A) :=
  head (filter (λ kv, P kv.2 = true) (map_to_list m)).

(** ** users.go *)

(** src/internal/db/users.go:29-47 SQLiteDB.GetUser *)
Definition GetUser (d : Db) (id : string) : result db_error User :=
  run OpGetUser match users d !! id with Some u => Ok u | None => Err ErrNotFound end.

(** src/internal/db/users.go:50-68 SQLiteDB.GetUserByEmail *)
Definition GetUserByEmail (d : Db) (email : string) : result db_error User :=
  run OpGetUserByEmail
    match first_row (users d) (λ u, bool_decide (uEmail u = email)) with
    | Some (_, u) => Ok u
    | None => Err ErrNotFound
    end.

Definition email_taken (d : Db) (email : string) : bool :=
  match first_row (users d) (λ u, bool_decide (uEmail u = email)) with Some _ => true | None => false end.

(** Primary key, unique address and the values allowed for the status. *)
Definition insert_user (d : Db) (u : User) : result db_error Db :=
  if decide (is_Some (users d !! uID u) ∨ email_taken d (uEmail u) = true
             ∨ uStatus u ∉ ["active"; "pending"; "suspended"; "deleted"])
  then Err ErrConstraint
  else Ok (with_users d (<[uID u := u]> (users d))).

(** The columns an insertion does not mention have their defaults.
    src/internal/db/users.go:14-26 SQLiteDB.CreateUser *)
Definition CreateUser (d : Db) (u : User) (fresh : string) : result db_error Db :=
  let id := if decide (uID u = "") then fresh else uID u in
  run OpCreateUser
    (insert_user d {| uID := id; uEmail := uEmail u; PasswordHash := PasswordHash u; uName := uName u;
                      AvatarURL := AvatarURL u; uStatus := uStatus u; TOTPEnabled := false;
                      TOTPSecret := ""; TOTPBackupCodes := [] |}).

(** An update of the row with an identifier; without such a row nothing changes and
    it is no error. *)
Definition update_user (d : Db) (id : string) (f : User → User) : Db :=
  with_users d (alter f id (users d)).

(** src/internal/db/users.go:71-79 SQLiteDB.UpdateUser *)
Definition UpdateUser (d : Db) (v : User) : result db_error Db :=
  run OpUpdateUser
    (match users d !! uID v with
     | None => Ok d
     | Some _ =>
         if decide (is_Some (first_row (users d) (λ u, bool_decide (uID u ≠ uID v ∧ uEmail u = uEmail v)))
                    ∨ uStatus v ∉ ["active"; "pending"; "suspended"; "deleted"])
         then Err ErrConstraint
         else Ok (update_user d (uID v) (λ u,
                {| uID := uID u; uEmail := uEmail v; PasswordHash := PasswordHash u; uName := uName v;
                   AvatarURL := AvatarURL v; uStatus := uStatus v; TOTPEnabled := TOTPEnabled u;
                   TOTPSecret := TOTPSecret u; TOTPBackupCodes := TOTPBackupCodes u |}))
     end).

(** src/internal/db/users.go:82-90 SQLiteDB.UpdatePassword *)
Definition UpdatePassword (d : Db) (id hash : string) : result db_error Db :=
  run OpUpdatePassword
    (Ok (update_user d id (λ u,
       {| uID := uID u; uEmail := uEmail u; PasswordHash := hash; uName := uName u;
          AvatarURL := AvatarURL u; uStatus := uStatus u; TOTPEnabled := TOTPEnabled u;
          TOTPSecret := TOTPSecret u; TOTPBackupCodes := TOTPBackupCodes u |}))).

(** src/internal/db/users.go:103-113 SQLiteDB.UpdateTOTPEnabled *)
Definition UpdateTOTPEnabled (d : Db) (id : string) (enabled : bool) (secretEnc : string)
  : result db_error Db :=
  run OpUpdateTOTP
    (Ok (update_user d id (λ u,
       {| uID := uID u; uEmail := uEmail u; PasswordHash := PasswordHash u; uName := uName u;
          AvatarURL := AvatarURL u; uStatus := uStatus u; TOTPEnabled := enabled;
          TOTPSecret := secretEnc; TOTPBackupCodes := TOTPBackupCodes u |}))).

(** src/internal/db/users.go:116-126 SQLiteDB.UpdateTOTPBackupCodes *)
Definition UpdateTOTPBackupCodes (d : Db) (id : string) (hashes : list string) : result db_error Db :=
  run OpUpdateBackupCodes
    (Ok (update_user d id (λ u,
       {| uID := uID u; uEmail := uEmail u; PasswordHash := PasswordHash u; uName := uName u;
          AvatarURL := AvatarURL u; uStatus := uStatus u; TOTPEnabled := TOTPEnabled u;
          TOTPSecret := TOTPSecret u; TOTPBackupCodes := hashes |}))).

(** ** setup.go *)

(** src/internal/db/setup.go:12-35 SQLiteDB.CreateTenantWithDefaults *)
Definition CreateTenantWithDefaults (d : Db) (name slug tenantID projectID : string) : result db_error Db :=
  run OpCreateTenant
    (if decide (is_Some (tenants d !! tenantID) ∨ is_Some (first_row (tenants d) (λ t, bool_decide (tSlug t = slug)))
                ∨ is_Some (projects d !! projectID))
     then Err ErrConstraint
     else Ok {| users := users d; members := members d;
                tenants := <[tenantID := {| tName := name; tSlug := slug; tAvatarURL := ""; tPlanID := "free";
                                            tOwnerID := ""; tStatus := "active"; tLimitsJSON := "{}";
                                            tMetadataJSON := "{}" |}]> (tenants d);
                projects := <[projectID := tenantID]> (projects d);
                invitations := invitations d |}).

(** Primary key, the references of the row, and one row per tenant and user. *)
Definition insert_member (d : Db) (id : string) (m : TeamMember) : result db_error Db :=
  if decide (is_Some (members d !! id) ∨ (fk = true ∧ (tenants d !! mTenantID m = None ∨ users d !! mUserID m = None))
             ∨ is_Some (first_row (members d) (λ m', bool_decide (mTenantID m' = mTenantID m ∧ mUserID m' = mUserID m))))
  then Err ErrConstraint
  else Ok (with_members d (<[id := m]> (members d))).

(** The user, the membership and the owner of the tenant in one transaction.
    src/internal/db/setup.go:38-68 SQLiteDB.CreateUserWithMembership *)
Definition CreateUserWithMembership (d : Db) (email hash name status tenantID roleID userID memberID : string)
  : result db_error Db :=
  run OpCreateUserWithMembership
    (d1 ←! insert_user d {| uID := userID; uEmail := email; PasswordHash := hash; uName := name;
                            AvatarURL := ""; uStatus := status; TOTPEnabled := false; TOTPSecret := "";
                            TOTPBackupCodes := [] |};
     d2 ←! insert_member d1 memberID {| mTenantID := tenantID; mUserID := userID; mRoleID := roleID;
                                        mStatus := "active" |};
     Ok (with_tenants d2 (alter (λ t, {| tName := tName t; tSlug := tSlug t; tAvatarURL := tAvatarURL t;
                                         tPlanID := tPlanID t; tOwnerID := userID; tStatus := tStatus t;
                                         tLimitsJSON := tLimitsJSON t; tMetadataJSON := tMetadataJSON t |})
                                tenantID (tenants d2)))).

(** src/internal/db/setup.go:71-81 SQLiteDB.GetUserMembership *)
Definition GetUserMembership (d : Db) (userID : string) : result db_error TeamMember :=
  run OpMembership
    match first_row (members d) (λ m, bool_decide (mUserID m = userID ∧ mStatus m = "active")) with
    | Some (_, m) => Ok m
    | None => Err ErrNotFound
    end.

(** src/internal/db/setup.go:107-123 SQLiteDB.RemoveTeamMember *)
Definition RemoveTeamMember (d : Db) (tenantID memberID : string) : result db_error Db :=
  run OpRemoveMember
    match members d !! memberID with
    | Some m =>
        if decide (mTenantID m = tenantID ∧ mStatus m = "active") then
          Ok (with_members d (<[memberID := {| mTenantID := mTenantID m; mUserID := mUserID m;
                                               mRoleID := mRoleID m; mStatus := "removed" |}]> (members d)))
        else Err ErrNotFound
    | None => Err ErrNotFound
    end.

(** src/internal/db/setup.go:163-175 SQLiteDB.CreateProject *)
Definition CreateProject (d : Db) (id tenantID fresh : string) : result db_error Db :=
  let id := if decide (id = "") then fresh else id in
  run OpCreateProject
    (if decide (is_Some (projects d !! id) ∨ (fk = true ∧ tenants d !! tenantID = None)) then Err ErrConstraint
     else Ok {| users := users d; members := members d; tenants := tenants d;
                projects := <[id := tenantID]> (projects d); invitations := invitations d |}).

(** src/internal/db/setup.go:215-220 SQLiteDB.DeleteProject *)
Definition DeleteProject (d : Db) (id : string) : result db_error Db :=
  run OpDeleteProject
    (Ok {| users := users d; members := members d; tenants := tenants d;
           projects := delete id (projects d); invitations := invitations d |}).

(** ** tenants.go *)

Definition slug_taken (d : Db) (id slug : string) : Prop := ∃ a t, tenants d !! a = Some t ∧ a ≠ id ∧ tSlug t = slug.

#[export] Instance slug_taken_dec d id slug : Decision (slug_taken d id slug).
Proof.
  refine (cast_if (decide (Exists (λ kv, kv.1 ≠ id ∧ tSlug kv.2 = slug) (map_to_list (tenants d)))));
    rewrite Exists_exists in *.
  - destruct e as ([a t] & Hin%elem_of_map_to_list & ? & ?). by exists a, t.
  - intros (a & t & Hin & ? & ?). apply n. exists (a, t). split; [by apply elem_of_map_to_list|done].
Defined.

(** src/internal/db/tenants.go:11-23 SQLiteDB.CreateTenant *)
Definition CreateTenant (d : Db) (id : string) (t : Tenant) (fresh : string) : result db_error Db :=
  let id := if decide (id = "") then fresh else id in
  run OpInsertTenant
    (if decide (is_Some (tenants d !! id) ∨ slug_taken d id (tSlug t) ∨ tStatus t ∉ ["active"; "suspended"; "deleted"])
     then Err ErrConstraint
     else Ok (with_tenants d (<[id := t]> (tenants d)))).

(** src/internal/db/tenants.go:26-39 SQLiteDB.GetTenant *)
Definition GetTenant (d : Db) (id : string) : result db_error Tenant :=
  run OpGetTenant match tenants d !! id with Some t => Ok t | None => Err ErrNotFound end.

(** Every column but the owner; without the row nothing changes and it is no error.
    src/internal/db/tenants.go:58-67 SQLiteDB.UpdateTenant *)
Definition UpdateTenant (d : Db) (id : string) (v : Tenant) : result db_error Db :=
  run OpUpdateTenant
    match tenants d !! id with
    | None => Ok d
    | Some t =>
        if decide (slug_taken d id (tSlug v) ∨ tStatus v ∉ ["active"; "suspended"; "deleted"]) then Err ErrConstraint
        else Ok (with_tenants d (<[id :=
               {| tName := tName v; tSlug := tSlug v; tAvatarURL := tAvatarURL v; tPlanID := tPlanID v;
                  tOwnerID := tOwnerID t; tStatus := tStatus v; tLimitsJSON := tLimitsJSON v;
                  tMetadataJSON := tMetadataJSON v |}]> (tenants d)))
    end.

(** With foreign keys the rows that refer to the tenant go with it ([ON DELETE CASCADE]).
    src/internal/db/tenants.go:70-75 SQLiteDB.DeleteTenant *)
Definition DeleteTenant (d : Db) (id tenantID : string) : result db_error Db :=
  run OpDeleteTenant
    (if decide (id = tenantID) then
       if fk then Ok {| users := users d; members := filter (λ km, mTenantID km.2 ≠ id) (members d);
                        tenants := delete id (tenants d); projects := filter (λ kt, kt.2 ≠ id) (projects d);
                        invitations := filter (λ ki, iTenantID ki.2 ≠ id) (invitations d) |}
       else Ok (with_tenants d (delete id (tenants d)))
     else Ok d).

(** ** invites.go *)

(** The time of acceptance is not among the columns: it is NULL.
    src/internal/db/invites.go:13-26 SQLiteDB.CreateInvite *)
Definition CreateInvite (d : Db) (id : string) (i : Invitation) (fresh : string) : result db_error Db :=
  let id := if decide (id = "") then fresh else id in
  run OpCreateInvite
    (if decide (is_Some (invitations d !! id)
                ∨ (fk = true ∧ (tenants d !! iTenantID i = None ∨ users d !! iInvitedBy i = None))
                ∨ is_Some (first_row (invitations d) (λ i', bool_decide (iTokenHash i' = iTokenHash i)))
                ∨ iStatus i ∉ ["pending"; "accepted"; "expired"; "revoked"])
     then Err ErrConstraint
     else Ok (with_invitations d
            (<[id := {| iTenantID := iTenantID i; iEmail := iEmail i; iRoleID := iRoleID i;
                        iInvitedBy := iInvitedBy i; iTokenHash := iTokenHash i; iExpiresAt := iExpiresAt i;
                        iAcceptedAt := None; iStatus := iStatus i |}]> (invitations d)))).

(** src/internal/db/invites.go:30-46 SQLiteDB.GetInviteByTokenHash *)
Definition GetInviteByTokenHash (d : Db) (hash : string) : result db_error (string * Invitation) :=
  run OpGetInvite
    match first_row (invitations d) (λ i, bool_decide (iTokenHash i = hash)) with
    | Some (id, i) => Ok (id, i)
    | None => Err ErrNotFound
    end.

(** src/internal/db/invites.go:51-67 SQLiteDB.AcceptInvite *)
Definition AcceptInvite (now : instant) (d : Db) (id : string) : result db_error Db :=
  run OpAcceptInvite
    match invitations d !! id with
    | Some i =>
        if decide (iStatus i = "pending") then
          Ok (with_invitations d
                (<[id := {| iTenantID := iTenantID i; iEmail := iEmail i; iRoleID := iRoleID i;
                            iInvitedBy := iInvitedBy i; iTokenHash := iTokenHash i;
                            iExpiresAt := iExpiresAt i; iAcceptedAt := Some now;
                            iStatus := "accepted" |}]> (invitations d)))
        else Err ErrInvalidToken
    | None => Err ErrInvalidToken
    end.

End Statements.

(** ** Invariant of the tables *)

Record db_ok (d : Db) : Prop := {
  user_key : ∀ id u, users d !! id = Some u → uID u = id;
  email_unique : ∀ a b u v, users d !! a = Some u → users d !! b = Some v → uEmail u = uEmail v → a = b;
  member_user : ∀ id m, members d !! id = Some m → is_Some (users d !! mUserID m);
  member_unique : ∀ a b m n, members d !! a = Some m → members d !! b = Some n → mUserID m = mUserID n → a = b;
  slug_unique : ∀ a b s t, tenants d !! a = Some s → tenants d !! b = Some t → tSlug s = tSlug t → a = b;
  token_unique : ∀ a b i j, invitations d !! a = Some i → invitations d !! b = Some j →
    iTokenHash i = iTokenHash j → a = b }.

Lemma first_row_Some {A} (m : gmap string A) P id x :
  first_row m P = Some (id, x) → m !! id = Some x ∧ P x = true.
Proof.
  unfold first_row. intros H%head_Some_elem_of. apply list_elem_of_filter in H as [HP Hin].
  by apply elem_of_map_to_list in Hin.
Qed.

Lemma first_row_None {A} (m : gmap string A) P :
  ¬ is_Some (first_row m P) → ∀ id x, m !! id = Some x → P x = false.
Proof.
  unfold first_row. intros H id x Hx. destruct (P x) eqn:E; [|done]. exfalso. apply H.
  assert ((id, x) ∈ filter (λ kv, P kv.2 = true) (map_to_list m)) as Hin.
  { apply list_elem_of_filter. split; [done|]. by apply elem_of_map_to_list. }
  destruct (filter _ _); [by apply elem_of_nil in Hin|]. by eexists.
Qed.

Lemma first_row_free {A} (m : gmap string A) P :
  ¬ is_Some (first_row m P) → ∀ id x, m !! id = Some x → P x = true → False.
Proof. intros H id x Hx HP. by rewrite (first_row_None _ _ H id x Hx) in HP. Qed.

Lemma run_Ok works op {A} (r : result db_error A) a : run works op r = Ok a → r = Ok a.
Proof. unfold run. by case_match. Qed.

(** A statement that adds or changes one row keeps a column unique when no other row
    has the new value. *)
Lemma unique_insert {A B} (m : gmap string A) (col : A → B) k x :
  (∀ a b u v, m !! a = Some u → m !! b = Some v → col u = col v → a = b) →
  (∀ a u, a ≠ k → m !! a = Some u → col u ≠ col x) →
  ∀ a b u v, <[k := x]> m !! a = Some u → <[k := x]> m !! b = Some v → col u = col v → a = b.
Proof.
  intros Hu Hx a b u v Ha Hb Hc.
  destruct (decide (a = k)) as [->|Hak], (decide (b = k)) as [->|Hbk]; [done| | |].
  - rewrite lookup_insert_eq in Ha. injection Ha as <-. rewrite lookup_insert_ne in Hb by done.
    by destruct (Hx b v Hbk Hb).
  - rewrite lookup_insert_eq in Hb. injection Hb as <-. rewrite lookup_insert_ne in Ha by done.
    by destruct (Hx a u Hak Ha).
  - rewrite lookup_insert_ne in Ha by done. rewrite lookup_insert_ne in Hb by done. by eapply Hu.
Qed.

Lemma insert_user_ok d u d' : db_ok d → insert_user d u = Ok d' →
  db_ok d' ∧ d' = with_users d (<[uID u := u]> (users d)) ∧ users d !! uID u = None.
Proof.
  intros [Hk He Hm Hmu Hs Ht]. unfold insert_user. case_decide as Hd; [done|]. intros [= <-].
  assert (users d !! uID u = None) as Hnone by (apply eq_None_not_Some; naive_solver).
  assert (∀ a v, users d !! a = Some v → uEmail v ≠ uEmail u) as Hfree.
  { intros a v Hv Heq. destruct Hd. right; left. unfold email_taken.
    destruct (first_row (users d) _) eqn:E; [done|].
    assert (¬ is_Some (first_row (users d) (λ u0, bool_decide (uEmail u0 = uEmail u)))) as Hn
      by (rewrite E; by intros []).
    pose proof (first_row_None _ _ Hn a v Hv) as Hf. by rewrite bool_decide_eq_false in Hf. }
  split; [|done]. split; cbn [users members tenants invitations with_users]; [| |..|done|done|done].
  - intros id v. destruct (decide (id = uID u)) as [->|]; [rewrite lookup_insert_eq; by intros [= <-]|].
    rewrite lookup_insert_ne by done. apply Hk.
  - apply (unique_insert _ uEmail); [done|]. intros a v _ Hv. by apply (Hfree a).
  - intros id m Hin. apply lookup_insert_is_Some'. right. by eapply Hm.
Qed.

Lemma update_user_ok d id f :
  (∀ u, users d !! id = Some u → uID (f u) = uID u) →
  (∀ a u v, a ≠ id → users d !! a = Some v → users d !! id = Some u → uEmail v ≠ uEmail (f u)) →
  db_ok d → db_ok (update_user d id f).
Proof.
  intros Hid Hfree [Hk He Hm Hmu Hs Ht]. unfold update_user.
  split; cbn [users members tenants invitations with_users]; [| | |done|done|done].
  - intros a v [(-> & u & Hu & ->)|[_ Hv]]%lookup_alter_Some; [rewrite Hid by done|]; by apply Hk.
  - intros a b u v [(-> & u' & Hu & ->)|[Ha Hu]]%lookup_alter_Some
      [(-> & v' & Hv & ->)|[Hb Hv]]%lookup_alter_Some Heq; try done.
    + by destruct (Hfree b u' v).
    + by destruct (Hfree a v' u).
    + by eapply He.
  - intros a m Hin. rewrite lookup_alter_is_Some. by eapply Hm.
Qed.

Lemma update_user_same d id f :
  (∀ u, uID (f u) = uID u ∧ uEmail (f u) = uEmail u) → db_ok d → db_ok (update_user d id f).
Proof.
  intros Hf Hd. apply update_user_ok; [naive_solver| |done].
  intros a u v Ha Hv Hu Heq. rewrite (proj2 (Hf u)) in Heq. by destruct Ha; eapply email_unique.
Qed.

(** A member that is added for a user without a row among the members. *)
Lemma insert_member_ok fk d id m d' : db_ok d → is_Some (users d !! mUserID m) →
  (∀ a n, members d !! a = Some n → mUserID n ≠ mUserID m) →
  insert_member fk d id m = Ok d' → db_ok d' ∧ d' = with_members d (<[id := m]> (members d)).
Proof.
  intros [Hk He Hm Hmu Hs Ht] Hu Hnew. unfold insert_member. case_decide as Hd; [done|]. intros [= <-].
  split; [|done]. split; cbn [users members tenants invitations with_members]; try done.
  - intros a n. destruct (decide (a = id)) as [->|].
    + rewrite lookup_insert_eq. by intros [= <-].
    + rewrite lookup_insert_ne by done. apply Hm.
  - apply (unique_insert _ mUserID); [done|]. intros a n _ Hn. by eapply Hnew.
Qed.

(** A change of the tenant table in which the slugs stay unique. *)
Lemma with_tenants_ok d m :
  (∀ a b s t, m !! a = Some s → m !! b = Some t → tSlug s = tSlug t → a = b) → db_ok d → db_ok (with_tenants d m).
Proof. intros Hm []. by split. Qed.

Lemma alter_tenant_ok d id f : (∀ t, tSlug (f t) = tSlug t) → db_ok d → db_ok (with_tenants d (alter f id (tenants d))).
Proof.
  intros Hf Hd. apply with_tenants_ok; [|done].
  assert (∀ a t, alter f id (tenants d) !! a = Some t → ∃ t', tenants d !! a = Some t' ∧ tSlug t = tSlug t') as Hback.
  { intros a t [(-> & t' & Ht' & ->)|[_ Ht']]%lookup_alter_Some; [exists t'; by rewrite Hf|eauto]. }
  intros a b s u (s' & Hs' & Es)%Hback (u' & Hu' & Eu)%Hback Heq. eapply (slug_unique d Hd); [done..|congruence].
Qed.

Lemma insert_tenant_ok d id t : ¬ slug_taken d id (tSlug t) → db_ok d → db_ok (with_tenants d (<[id := t]> (tenants d))).
Proof.
  intros Hn Hd. apply with_tenants_ok; [|done]. apply (unique_insert _ tSlug); [apply Hd|].
  intros a u Ha Hu Heq. apply Hn. by exists a, u.
Qed.

(** Rows taken away. *)
Lemma fewer_rows_ok d d' : db_ok d → users d' = users d → members d' ⊆ members d → tenants d' ⊆ tenants d →
  invitations d' ⊆ invitations d → db_ok d'.
Proof.
  intros [Hk He Hm Hmu Hs Ht] Hus Hms Hts His.
  split; rewrite ?Hus; try done.
  - intros a m Ha. by eapply Hm, lookup_weaken.
  - intros a b m n Ha Hb. eapply Hmu; by eapply lookup_weaken.
  - intros a b m n Ha Hb. eapply Hs; by eapply lookup_weaken.
  - intros a b m n Ha Hb. eapply Ht; by eapply lookup_weaken.
Qed.

(** What the statements can do, on a connection that enforces foreign keys or not. *)
Inductive db_step (fk : bool) (d d' : Db) : Prop :=
| SCreateUser works u fresh : CreateUser works d u fresh = Ok d' → db_step fk d d'
| SUpdateUser works u : UpdateUser works d u = Ok d' → db_step fk d d'
| SUpdatePassword works id h : UpdatePassword works d id h = Ok d' → db_step fk d d'
| SUpdateTOTP works id b s : UpdateTOTPEnabled works d id b s = Ok d' → db_step fk d d'
| SUpdateCodes works id hs : UpdateTOTPBackupCodes works d id hs = Ok d' → db_step fk d d'
| STenantWithDefaults works n s t p : CreateTenantWithDefaults works d n s t p = Ok d' → db_step fk d d'
| SCreateMember works e h n s t r u m : CreateUserWithMembership works fk d e h n s t r u m = Ok d' → db_step fk d d'
| SRemoveMember works t m : RemoveTeamMember works d t m = Ok d' → db_step fk d d'
| SCreateProject works p t fresh : CreateProject works fk d p t fresh = Ok d' → db_step fk d d'
| SDeleteProject works p : DeleteProject works d p = Ok d' → db_step fk d d'
| SCreateTenant works id t fresh : CreateTenant works d id t fresh = Ok d' → db_step fk d d'
| SUpdateTenant works id t : UpdateTenant works d id t = Ok d' → db_step fk d d'
| SDeleteTenant works id t : DeleteTenant works fk d id t = Ok d' → db_step fk d d'
| SCreateInvite works id i fresh : CreateInvite works fk d id i fresh = Ok d' → db_step fk d d'
| SAcceptInvite works now id : AcceptInvite works now d id = Ok d' → db_step fk d d'.

Definition empty_db : Db :=
  {| users := ∅; members := ∅; tenants := ∅; projects := ∅; invitations := ∅ |}.

Lemma update_user_step d v works d' : db_ok d → UpdateUser works d v = Ok d' → db_ok d'.
Proof.
  intros Hd H%run_Ok. destruct (users d !! uID v) as [u0|] eqn:E; [|by injection H as <-].
  case_decide as Hc; [done|]. injection H as <-. apply update_user_ok; [done| |done].
  intros a u w Ha Hw Hu Heq. cbn in Heq. apply Hc. left. apply dec_stable. intros Hn.
  eapply (first_row_free _ _ Hn a w Hw). apply bool_decide_eq_true. split; [|done].
  rewrite (user_key d Hd a w Hw). done.
Qed.

Lemma create_tenant_ok d works n s t p d' :
  db_ok d → CreateTenantWithDefaults works d n s t p = Ok d' → db_ok d'.
Proof.
  intros Hd H%run_Ok. case_decide as Hc; [done|]. injection H as <-.
  set (row := {| tName := n |}).
  assert (db_ok (with_tenants d (<[t := row]> (tenants d)))) as [] by
    (apply insert_tenant_ok; [|done]; intros (a & u & Hu & _ & Heq); apply Hc; right; left;
     apply dec_stable; intros Hn; eapply (first_row_free _ _ Hn a u Hu); by apply bool_decide_eq_true).
  by split.
Qed.

Lemma create_member_ok fk works d e h n s t r u m d' :
  db_ok d → CreateUserWithMembership works fk d e h n s t r u m = Ok d' →
  db_ok d' ∧ users d !! u = None ∧ invitations d' = invitations d ∧
  members d' = <[m := {| mTenantID := t; mUserID := u; mRoleID := r; mStatus := "active" |}]> (members d) ∧
  ∀ v, is_Some (users d !! v) → is_Some (users d' !! v).
Proof.
  intros Hd H%run_Ok. destruct (insert_user d _) as [d1|] eqn:E1; [|done].
  apply insert_user_ok in E1 as (Hd1 & -> & Hnew); [|done]. cbn [uID] in *.
  destruct (insert_member fk _ _ _) as [d2|] eqn:E2; [|done]. apply insert_member_ok in E2 as [Hd2 Ed2]; [|done|..].
  - injection H as <-. split_and!; [by apply alter_tenant_ok|done|by rewrite Ed2..|].
    intros v Hv. rewrite Ed2. cbn. apply lookup_insert_is_Some'. by right.
  - cbn. rewrite lookup_insert_eq. eauto.
  - intros a x Ha Heq. cbn in *. destruct (member_user d Hd a x Ha) as [? Hx]. rewrite Heq in Hx. congruence.
Qed.

Lemma invitations_ok d m :
  (∀ a b i j, m !! a = Some i → m !! b = Some j → iTokenHash i = iTokenHash j → a = b) →
  db_ok d → db_ok (with_invitations d m).
Proof. intros Hm []. by split. Qed.

Lemma remove_member_ok d works t m d' : db_ok d → RemoveTeamMember works d t m = Ok d' → db_ok d'.
Proof.
  intros Hd H%run_Ok. destruct (members d !! m) as [tm|] eqn:Em; [|done]. case_decide; [|done]. injection H as <-.
  destruct Hd as [Hk He Hm Hmu Hs Ht]. split; cbn [users members tenants invitations with_members]; try done.
  - intros a n. destruct (decide (a = m)) as [->|]; [rewrite lookup_insert_eq; intros [= <-]; by apply (Hm m tm)|].
    rewrite lookup_insert_ne by done. apply Hm.
  - apply (unique_insert _ mUserID); [done|]. intros a n Ha Hn Heq. destruct Ha. by eapply (Hmu a m).
Qed.

Lemma delete_tenant_ok d works fk id t d' : db_ok d → DeleteTenant works fk d id t = Ok d' → db_ok d'.
Proof.
  intros Hd H%run_Ok. case_decide; [|by injection H as <-]. destruct fk; injection H as <-;
    (apply (fewer_rows_ok d); [done..| | |]); cbn; try done; try apply map_filter_subseteq; apply delete_subseteq.
Qed.

Lemma db_step_ok fk d d' : db_ok d → db_step fk d d' → db_ok d'.
Proof.
  intros Hd [works u fresh H%run_Ok|works u H|works id h H%run_Ok|works id b s H%run_Ok|works id hs H%run_Ok|
    works n s t p H|works e h n s t r u m H|works t m H|works p t fresh H%run_Ok|works p H%run_Ok|
    works id t fresh H%run_Ok|works id t H%run_Ok|works id t H|works id i fresh H%run_Ok|works now id H%run_Ok].
  - by apply insert_user_ok in H as [? _].
  - by eapply update_user_step.
  - injection H as <-. by apply update_user_same.
  - injection H as <-. by apply update_user_same.
  - injection H as <-. by apply update_user_same.
  - by eapply create_tenant_ok.
  - by eapply create_member_ok.
  - by eapply remove_member_ok.
  - case_decide; [done|]. injection H as <-. by destruct Hd.
  - injection H as <-. by destruct Hd.
  - case_decide as Hc; [done|]. injection H as <-. apply insert_tenant_ok; [|done]. naive_solver.
  - destruct (tenants d !! id); [|by injection H as <-]. case_decide; [done|]. injection H as <-.
    apply insert_tenant_ok; [|done]. naive_solver.
  - by eapply delete_tenant_ok.
  - case_decide as Hc; [done|]. injection H as <-. apply invitations_ok; [|done].
    apply (unique_insert _ iTokenHash); [apply Hd|]. intros a j _ Hj Heq. apply Hc. do 2 right; left.
    apply dec_stable. intros Hn. eapply (first_row_free _ _ Hn a j Hj). by apply bool_decide_eq_true.
  - destruct (invitations d !! id) as [i|] eqn:Ei; [|done]. case_decide; [|done]. injection H as <-.
    apply invitations_ok; [|done]. apply (unique_insert _ iTokenHash); [apply Hd|]. cbn.
    intros a j Ha Hj Heq. destruct Ha. by eapply (token_unique d Hd a id).
Qed.

(** ** Memberships and invitations over time *)

(** The user belongs to the tenant's team. *)
Definition active_in (d : Db) (u t : string) : Prop :=
  ∃ id m, members d !! id = Some m ∧ mUserID m = u ∧ mTenantID m = t ∧ mStatus m = "active".

(** What a statement does to the memberships of the users there are: it adds none. *)
Definition adds_no_access (d d' : Db) : Prop :=
  (∀ u, is_Some (users d !! u) → is_Some (users d' !! u)) ∧
  ∀ u t, is_Some (users d !! u) → active_in d' u t → active_in d u t.

Lemma same_members d d' :
  (∀ u, is_Some (users d !! u) → is_Some (users d' !! u)) → members d' ⊆ members d → adds_no_access d d'.
Proof. intros Hu Hm. split; [done|]. intros u t _ (id & m & Hid & ?). exists id, m. split; [by eapply lookup_weaken|done]. Qed.

Lemma updates_add_no_access d id f : adds_no_access d (update_user d id f).
Proof. apply same_members; [|done]. intros u Hu. cbn. by rewrite lookup_alter_is_Some. Qed.

Lemma new_user_no_access d u d' : db_ok d → insert_user d u = Ok d' → adds_no_access d d'.
Proof.
  intros Hd (_ & -> & _)%insert_user_ok; [|done]. apply same_members; [|done]. intros v Hv. cbn.
  apply lookup_insert_is_Some'. by right.
Qed.

Lemma new_member_no_access d fk works e h n s t r u m d' : db_ok d →
  CreateUserWithMembership works fk d e h n s t r u m = Ok d' → adds_no_access d d'.
Proof.
  intros Hd (_ & Hu & _ & Hm & Hus)%create_member_ok; [|done]. split; [done|].
  intros v x Hv (id & k & Hk & Hkv & ?). rewrite Hm in Hk. apply lookup_insert_Some in Hk as [[<- <-]|[Hne Hk]].
  - cbn in Hkv. subst v. rewrite Hu in Hv. by destruct Hv.
  - by exists id, k.
Qed.

Lemma removal_no_access d works t m d' : RemoveTeamMember works d t m = Ok d' → adds_no_access d d'.
Proof.
  intros H%run_Ok. destruct (members d !! m); [|done]. case_decide; [|done]. injection H as <-. split; [done|].
  intros u x _ (id & k & Hk & Hku & Hkt & Hks). cbn in Hk. apply lookup_insert_Some in Hk as [[<- <-]|[Hne Hk]]; [done|]. by exists id, k.
Qed.

Lemma db_step_no_access fk d d' : db_ok d → db_step fk d d' → adds_no_access d d'.
Proof.
  intros Hd [works u fresh H%run_Ok|works u H%run_Ok|works id h H%run_Ok|works id b s H%run_Ok|works id hs H%run_Ok|
    works n s t p H%run_Ok|works e h n s t r u m H|works t m H|works p t fresh H%run_Ok|works p H%run_Ok|
    works id t fresh H%run_Ok|works id t H%run_Ok|works id t H%run_Ok|works id i fresh H%run_Ok|works now id H%run_Ok].
  - by eapply new_user_no_access.
  - destruct (users d !! uID u); [case_decide; [done|]|]; injection H as <-; [apply updates_add_no_access|by apply same_members].
  - injection H as <-. apply updates_add_no_access.
  - injection H as <-. apply updates_add_no_access.
  - injection H as <-. apply updates_add_no_access.
  - case_decide; [done|]. injection H as <-. by apply same_members.
  - by eapply new_member_no_access.
  - by eapply removal_no_access.
  - case_decide; [done|]. injection H as <-. by apply same_members.
  - injection H as <-. by apply same_members.
  - case_decide; [done|]. injection H as <-. by apply same_members.
  - destruct (tenants d !! id); [case_decide; [done|]|]; injection H as <-; by apply same_members.
  - case_decide; [destruct fk|]; injection H as <-; (apply same_members; [done|]); cbn; [|done..]. apply map_filter_subseteq.
  - case_decide; [done|]. injection H as <-. by apply same_members.
  - destruct (invitations d !! id); [|done]. case_decide; [|done]. injection H as <-. by apply same_members.
Qed.

(** What a statement does to an invitation that is not pending: nothing, unless it deletes its tenant. *)
Lemma db_step_invitation fk d d' id i :
  db_ok d → db_step fk d d' → invitations d !! id = Some i → iStatus i ≠ "pending" →
  invitations d' !! id = Some i ∨ fk = true ∧ tenants d' !! iTenantID i = None.
Proof.
  intros Hd H Hi Hp. destruct H as [works u fresh H%run_Ok|works u H%run_Ok|works k h H%run_Ok|works k b s H%run_Ok|works k hs H%run_Ok|
    works n s t p H%run_Ok|works e h n s t r u m H|works t m H%run_Ok|works p t fresh H%run_Ok|works p H%run_Ok|
    works k t fresh H%run_Ok|works k t H%run_Ok|works k t H%run_Ok|works k j fresh H%run_Ok|works now k H%run_Ok].
  7: { left. by destruct (create_member_ok _ _ _ _ _ _ _ _ _ _ _ _ Hd H) as (_ & _ & -> & _). }
  - left. by apply insert_user_ok in H as (_ & -> & _).
  - left. destruct (users d !! uID u); [case_decide; [done|]|]; by injection H as <-.
  - left. by injection H as <-.
  - left. by injection H as <-.
  - left. by injection H as <-.
  - left. case_decide; [done|]. by injection H as <-.
  - left. destruct (members d !! m); [|done]. case_decide; [|done]. by injection H as <-.
  - left. case_decide; [done|]. by injection H as <-.
  - left. by injection H as <-.
  - left. case_decide; [done|]. by injection H as <-.
  - left. destruct (tenants d !! k); [case_decide; [done|]|]; by injection H as <-.
  - case_decide; [destruct fk|]; injection H as <-; [|by left..]. cbn. destruct (decide (iTenantID i = k)) as [Hk|Hk].
    + right. split; [done|]. rewrite Hk. apply lookup_delete_eq.
    + left. by apply map_lookup_filter_Some.
  - left. case_decide as Hc; [done|]. injection H as <-. cbn.
    rewrite lookup_insert_ne; [done|]. intros Heq. apply Hc. left. rewrite Heq. by exists i.
  - left. destruct (invitations d !! k) as [j|] eqn:Ej; [|done]. case_decide as Hj; [|done]. injection H as <-. cbn.
    rewrite lookup_insert_ne; [done|]. intros Heq. rewrite Heq in Ej. congruence.
Qed.

Abbreviation runs_to fk := (rtc (db_step fk)).

Lemma runs_ok fk d d' : runs_to fk d d' → db_ok d → db_ok d'.
Proof. induction 1 as [|d1 d2 d3 H1 _ IH]; [done|]. intros H0. by eapply IH, db_step_ok. Qed.

Lemma empty_ok : db_ok empty_db.
Proof. split; cbn; setoid_rewrite lookup_empty; done. Qed.

Lemma runs_no_access fk d d' : runs_to fk d d' → db_ok d → adds_no_access d d'.
Proof.
  induction 1 as [d|d1 d2 d3 H1 _ IH]; intros H0; [by apply same_members|].
  destruct (db_step_no_access _ _ _ H0 H1) as [Hu Ha]. destruct (IH (db_step_ok _ _ _ H0 H1)) as [Hu' Ha'].
  split; [auto|]. intros u t Hus Hact. by apply Ha, Ha'; [..|apply Hu|].
Qed.

Lemma runs_invitation fk d d' id i :
  runs_to fk d d' → db_ok d → invitations d !! id = Some i → iStatus i ≠ "pending" →
  invitations d' !! id = Some i ∨
  (fk = true ∧ ∃ d1, runs_to fk d d1 ∧ runs_to fk d1 d' ∧ tenants d1 !! iTenantID i = None).
Proof.
  induction 1 as [d|d1 d2 d3 H1 Hr IH]; [by left|]. intros H0 Hi Hp.
  destruct (db_step_invitation _ _ _ _ _ H0 H1 Hi Hp) as [Hi'|[Hfk Ht]].
  - destruct (IH (db_step_ok _ _ _ H0 H1) Hi' Hp) as [?|(Hfk & d0 & ? & ? & ?)]; [by left|right].
    split; [done|]. exists d0. split_and!; [|done..]. by eapply rtc_l.
  - right. split; [done|]. exists d2. split_and!; [by apply rtc_once|done..].
Qed.

(** The membership that signs a user in is the only one the user has. *)
Lemma membership_found works d u m : db_ok d → works OpMembership = true →
  GetUserMembership works d u = Ok m ↔ ∃ id, members d !! id = Some m ∧ mUserID m = u ∧ mStatus m = "active".
Proof.
  intros Hd Hw. unfold GetUserMembership, run. rewrite Hw. split.
  - destruct (first_row _ _) as [[id n]|] eqn:E; [|done]. intros [= ->]. apply first_row_Some in E as [Hin Hp].
    apply bool_decide_eq_true in Hp. by exists id.
  - intros (id & Hid & Hu & Hs). destruct (first_row _ _) as [[k n]|] eqn:E.
    + apply first_row_Some in E as [Hk Hp]. apply bool_decide_eq_true in Hp as [Hn _].
      rewrite (member_unique d Hd k id n m Hk Hid) in Hk by congruence. congruence.
    + exfalso. eapply (first_row_free (members d)); [rewrite E; by intros []|exact Hid|]. by apply bool_decide_eq_true.
Qed.

(** C39. Who may sign in where, whatever statements run, fail or are left out, with foreign keys
    enforced or not.  In every state that is reached the query for a user's membership, which takes
    one row of any, finds exactly the user's active membership: a user has at most one.  From
    there on a user that exists never gains a membership, so a removed member stays out and nobody
    changes tenant.  An invitation that is not pending any more is never changed, so it is accepted
    once and at one time; only the deletion of its tenant, with foreign keys enforced, takes it away. *)
Theorem membership_is_final fk d d' : rtc (db_step fk) empty_db d → rtc (db_step fk) d d' →
  (∀ works u m, works OpMembership = true →
     GetUserMembership works d u = Ok m ↔ ∃ id, members d !! id = Some m ∧ mUserID m = u ∧ mStatus m = "active") ∧
  (∀ u t, is_Some (users d !! u) → active_in d' u t → active_in d u t) ∧
  (∀ id i, invitations d !! id = Some i → iStatus i ≠ "pending" →
     invitations d' !! id = Some i ∨
     (fk = true ∧ ∃ d1, rtc (db_step fk) d d1 ∧ rtc (db_step fk) d1 d' ∧ tenants d1 !! iTenantID i = None)).
Proof.
  intros H0 H. pose proof (runs_ok _ _ _ H0 empty_ok) as Hd. split_and!.
  - intros works u m. by apply membership_found.
  - by apply (runs_no_access fk).
  - intros id i. by apply runs_invitation.
Qed.

Definition all_work : db_op → bool := λ _, true.

(** A tenant with its first user, and an invitation of that user. *)
Definition first_tenant : Db :=
  match CreateTenantWithDefaults all_work empty_db "Acme" "acme" "t1" "p1" with
  | Ok d => match CreateUserWithMembership all_work true d "a@acme.test" "hash" "Ann" "active" "t1" "role_owner" "u1" "m1" with
            | Ok d' => d' | Err _ => d end
  | Err _ => empty_db end.

Definition open_invitation : Invitation :=
  {| iTenantID := "t1"; iEmail := "b@acme.test"; iRoleID := "role_viewer"; iInvitedBy := "u1"; iTokenHash := "h1";
     iExpiresAt := 100; iAcceptedAt := None; iStatus := "pending" |}.
Definition taken_invitation : Invitation :=
  {| iTenantID := "t1"; iEmail := "b@acme.test"; iRoleID := "role_viewer"; iInvitedBy := "u1"; iTokenHash := "h1";
     iExpiresAt := 100; iAcceptedAt := Some 5; iStatus := "accepted" |}.
Definition accepted_once : Db := with_invitations first_tenant {[ "i1" := taken_invitation ]}.

(** The owner is removed. *)
Definition removed_owner : Db :=
  with_members accepted_once {[ "m1" := {| mTenantID := "t1"; mUserID := "u1"; mRoleID := "role_owner"; mStatus := "removed" |} ]}.

Lemma invitation_accepted : rtc (db_step true) empty_db accepted_once.
Proof.
  eapply rtc_l.
  { apply (STenantWithDefaults true _ _ all_work "Acme" "acme" "t1" "p1"). reflexivity. }
  eapply rtc_l.
  { apply (SCreateMember true _ _ all_work "a@acme.test" "hash" "Ann" "active" "t1" "role_owner" "u1" "m1"). reflexivity. }
  eapply rtc_l.
  { apply (SCreateInvite true _ _ all_work "i1" open_invitation ""). reflexivity. }
  eapply rtc_once. apply (SAcceptInvite true _ _ all_work 5 "i1"). reflexivity.
Qed.

Lemma membership_is_final_witness :
  GetUserMembership all_work accepted_once "u1" =
    Ok {| mTenantID := "t1"; mUserID := "u1"; mRoleID := "role_owner"; mStatus := "active" |} ∧
  (∀ d', rtc (db_step true) removed_owner d' → ¬ active_in d' "u1" "t1") ∧
  (∀ d', rtc (db_step true) accepted_once d' →
     invitations d' !! "i1" = Some taken_invitation ∨
     (true = true ∧ ∃ d1, rtc (db_step true) accepted_once d1 ∧ rtc (db_step true) d1 d' ∧ tenants d1 !! "t1" = None)).
Proof.
  split_and!.
  - destruct (membership_is_final true accepted_once accepted_once invitation_accepted (rtc_refl _ _)) as [H _].
    apply H; [reflexivity|]. exists "m1". split_and!; reflexivity.
  - intros d' Hr Hact. destruct (membership_is_final true removed_owner d') as (_ & H & _); [|done|].
    { eapply rtc_r; [exact invitation_accepted|]. apply (SRemoveMember true _ _ all_work "t1" "m1"). reflexivity. }
    destruct (H "u1" "t1") as (id & m & Hid & _ & _ & Hs); [by eexists|done|].
    cbn [members removed_owner with_members] in Hid. apply lookup_singleton_Some in Hid as [_ <-]. discriminate Hs.
  - intros d' Hr. destruct (membership_is_final true accepted_once d' invitation_accepted Hr) as (_ & _ & H).
    apply (H "i1" taken_invitation); [reflexivity|discriminate].
Defined.

End Users.
