(* ===== verification/Secrets.v ===== *)
(** * Secrets: the secret vault ([internal/secrets], [internal/api/handlers/secrets.go],
    [internal/db/secrets.go])

    Secrets and their encrypted versions, the module that resolves, migrates and rotates
    them, and the handler that creates and deletes them.  The cipher (AES-256-GCM) and the key
    derivation (Argon2id) are parameters, the class [Cipher].  A write of one version's
    value may fail, or the process may end there: [fails] says at which write; [lists] is
    whether the listing of the versions succeeds. *)

From S2P Require Import Prelude GoStrings KVStore.
#[local] Open Scope Z_scope.

Module Secrets.
Import KV.

(** ** The cipher *)

(** Keys are derived from the master secret and a salt; encryption draws a nonce. *)
Class Cipher := {
  IDKey : string → string → string;
  Encrypt : string → string → string → string;
  Decrypt : string → string → option string }.

(** What the authenticated cipher promises: text encrypted under a key decrypts under it,
    and under no other key. *)
Class CipherLaws `{Cipher} := {
  decrypt_encrypt : ∀ key nonce p, Decrypt key (Encrypt key nonce p) = Some p;
  decrypt_other : ∀ key key' nonce p, key' ≠ key → Decrypt key' (Encrypt key nonce p) = None }.

(** ** The tables *)

(** src/internal/core/store.go:396-408 Secret *)
Record Secret := {
  sTenantID : string; sProjectID : string; sAppID : string; sName : string; sDescription : string;
  sScope : string; sCurrentVersion : Z }.

(** src/internal/core/store.go:411-418 SecretVersion *)
Record SecretVersion := { vSecretID : string; vVersion : Z; ValueEnc : string; vCreatedBy : string }.

Record tables := { secrets : gmap string Secret; versions : gmap string SecretVersion }.

Inductive secret_error :=
| ErrNotFound | ErrConstraint | ErrIO | ErrDecrypt | ErrNoVersion | ErrDecodeSalt | ErrSaltTooShort
| ErrPersistSalt | ErrStoreNotInitialized.

(** src/internal/db/secrets.go:25-38 SQLiteDB.CreateSecret *)
Definition CreateSecret (t : tables) (id : string) (s : Secret) : result secret_error tables :=
  if decide (is_Some (secrets t !! id) ∨ sScope s ∉ ["global"; "tenant"; "project"; "app"]) then Err ErrConstraint
  else Ok {| secrets := <[id := s]> (secrets t); versions := versions t |}.

(** src/internal/db/secrets.go:41-53 SQLiteDB.CreateSecretVersion *)
Definition CreateSecretVersion (t : tables) (id : string) (v : SecretVersion) : result secret_error tables :=
  if decide (is_Some (versions t !! id) ∨ secrets t !! vSecretID v = None
             ∨ Exists (λ kv, vSecretID kv.2 = vSecretID v ∧ vVersion kv.2 = vVersion v) (map_to_list (versions t)))
  then Err ErrConstraint
  else Ok {| secrets := secrets t; versions := <[id := v]> (versions t) |}.

(** The versions of a deleted secret go with it.
    src/internal/db/secrets.go:82-98 SQLiteDB.DeleteSecret *)
Definition DeleteSecret (t : tables) (tenantID id : string) : result secret_error tables :=
  match secrets t !! id with
  | Some s =>
      if decide (sTenantID s = tenantID)
      then Ok {| secrets := delete id (secrets t);
                 versions := filter (λ kv, vSecretID kv.2 ≠ id) (versions t) |}
      else Err ErrNotFound
  | None => Err ErrNotFound
  end.

(** The first row with the scope and the name; the tenant is not part of the query.
    src/internal/db/secrets.go:101-117 SQLiteDB.GetSecretByScopeAndName *)
Definition GetSecretByScopeAndName (t : tables) (scope name : string) : result secret_error (string * Secret) :=
  match head (filter (λ kv, sScope kv.2 = scope ∧ sName kv.2 = name) (map_to_list (secrets t))) with
  | Some r => Ok r
  | None => Err ErrNotFound
  end.

(** [ORDER BY secret_id, version] *)
Definition listed_before (v w : string * SecretVersion) : Prop :=
  match String.compare (vSecretID v.2) (vSecretID w.2) with
  | Lt => True | Gt => False | Eq => vVersion v.2 ≤ vVersion w.2
  end.
#[global] Instance listed_before_dec : RelDecision listed_before.
Proof. intros v w. unfold listed_before. case_match; apply _. Defined.

(** [LIMIT 10000] *)
Definition row_limit : nat := Z.to_nat 10000.

(** The rows of the listing. *)
Definition all_versions (t : tables) : list (string * SecretVersion) :=
  take row_limit (merge_sort listed_before (map_to_list (versions t))).

(** [lists] is whether the query and the reading of its rows succeed.
    src/internal/db/secrets.go:120-139 SQLiteDB.ListAllSecretVersions *)
Definition ListAllSecretVersions (lists : bool) (t : tables) : result secret_error (list (string * SecretVersion)) :=
  if lists then Ok (all_versions t) else Err ErrIO.

(** src/internal/db/secrets.go:142-149 SQLiteDB.UpdateSecretVersionValue *)
Definition UpdateSecretVersionValue (t : tables) (id enc : string) : tables :=
  {| secrets := secrets t;
     versions := alter (λ v, {| vSecretID := vSecretID v; vVersion := vVersion v; ValueEnc := enc;
                                vCreatedBy := vCreatedBy v |}) id (versions t) |}.

(** src/internal/db/secrets.go:152-166 SQLiteDB.GetLatestSecretVersion *)
Definition GetLatestSecretVersion (t : tables) (secretID : string) : option SecretVersion :=
  foldl (λ best kv,
    if decide (vSecretID kv.2 = secretID) then
      match best with
      | Some b => if vVersion b <? vVersion kv.2 then Some kv.2 else best
      | None => Some kv.2
      end
    else best) None (map_to_list (versions t)).

(** ** The module *)

(** The salt as the key-value store holds it: base64 text of some bytes, or another string. *)
Inductive salt_text := Base64 (b : string) | OtherText (s : string).

#[global] Instance salt_json : JSON salt_text := {|
  representable := λ _, True;
  marshal := λ s, match s with Base64 b => JBase64 b | OtherText s => JStr s end;
  unmarshal := λ d s, match d with JBase64 b => Some (Base64 b) | JStr s => Some (OtherText s) | JNull => Some s | _ => None end |}.

#[global] Instance salt_json_laws : JSONLaws salt_text.
Proof. split. by intros [|]. Qed.

(** The derived key in use and the master secret; the tables and the key-value store are
    [None] when the program runs without them.
    src/internal/secrets/module.go:32-46 Module *)
Record Module_ := { key : string; masterSecret : string; store : option tables; kv : option KVStore }.

Section Vault.
Context `{Cipher}.
(** The salt of old installations, a constant of the program. *)
Variable LegacyVaultSalt : string.

(** src/internal/secrets/vault.go:85-91 NewVaultWithSalt *)
Definition NewVaultWithSalt (master salt : string) : string :=
  IDKey master (if decide (salt = "") then LegacyVaultSalt else salt).

Variable kv_fails : stmt → bool.
Variable lists : bool.

(** src/internal/secrets/module.go:157-162 Module.persistSalt *)
Definition persistSalt (now : Z) (k : option KVStore) (salt : string) : option KVStore * bool :=
  match k with
  | None => (None, true)
  | Some k => let '(k', r) := Set_ kv_fails now k "vault" "salt" (Some (marshal (Base64 salt))) 0 in (Some k', is_ok r)
  end.

(** The salt in the store, if there is one.
    src/internal/secrets/module.go:114-124 Module.resolveVaultSalt.stored *)
Definition stored_salt (now : Z) (k : KVStore) : option (result secret_error string) :=
  match Get kv_fails now k "vault" "salt" (OtherText "") with
  | Ok (Base64 b) => if decide (b = "") then None
                     else if (slen b <? 16)%nat then Some (Err ErrSaltTooShort) else Some (Ok b)
  | Ok (OtherText s) => if decide (s = "") then None else Some (Err ErrDecodeSalt)
  | Err _ => None
  end.

(** [fresh] is the salt drawn at random.  The result: the key-value store afterwards, the
    salt, and whether existing secrets have to be migrated.
    src/internal/secrets/module.go:107-155 Module.resolveVaultSalt *)
Definition resolveVaultSalt (now : Z) (k : option KVStore) (t : option tables) (fresh : string)
  : option KVStore * result secret_error (string * bool) :=
  match k with
  | None => (None, Ok (LegacyVaultSalt, false))
  | Some k0 =>
      match stored_salt now k0 with
      | Some (Ok s) => (k, Ok (s, false))
      | Some (Err e) => (k, Err e)
      | None =>
          let hasLegacy := match t with
                           | Some t => match ListAllSecretVersions lists t with Ok (_ :: _) => true | _ => false end
                           | None => false end in
          if (hasLegacy : bool) then (k, Ok (fresh, true))
          else match persistSalt now k fresh with
               | (k', true) => (k', Ok (fresh, false))
               | (k', false) => (k', Err ErrPersistSalt)
               end
      end
  end.

(** src/internal/secrets/module.go:57-98 Module.Init *)
Definition Init (now : Z) (master : string) (t : option tables) (k : option KVStore) (fresh : string)
  : result secret_error Module_ :=
  match resolveVaultSalt now k t fresh with
  | (_, Err e) => Err e
  | (k', Ok (salt, usedLegacy)) =>
      Ok {| key := NewVaultWithSalt master (if (usedLegacy : bool) then LegacyVaultSalt else salt);
            masterSecret := master; store := t; kv := k' |}
  end.

(** The loop over the listed versions, shared by migration and rotation: each value is
    decrypted with the old key, encrypted with the new one and written back.  [i] numbers
    the writes; the result counts those done.
    src/internal/secrets/module.go:344-363 Module.RotateEncryptionKey.loop *)
Fixpoint reencrypt (fails : nat → bool) (nonce : nat → string) (old new : string) (i : nat)
    (l : list (string * SecretVersion)) (t : tables) : tables * result secret_error nat :=
  match l with
  | [] => (t, Ok i)
  | (id, v) :: l =>
      match Decrypt old (ValueEnc v) with
      | None => (t, Err ErrDecrypt)
      | Some p =>
          if fails i then (t, Err ErrIO)
          else reencrypt fails nonce old new (S i) l (UpdateSecretVersionValue t id (Encrypt new (nonce i) p))
      end
  end.

(** src/internal/secrets/module.go:327-381 Module.RotateEncryptionKey *)
Definition RotateEncryptionKey (fails : nat → bool) (nonce : nat → string) (now : Z) (m : Module_)
    (newMaster newSalt : string) : Module_ * result secret_error nat :=
  match store m with
  | None => (m, Err ErrStoreNotInitialized)
  | Some t =>
      let newKey := NewVaultWithSalt newMaster newSalt in
      match ListAllSecretVersions lists t with
      | Err e => (m, Err e)
      | Ok versions =>
      match reencrypt fails nonce (key m) newKey 0 versions t with
      | (t', Err e) => ({| key := key m; masterSecret := masterSecret m; store := Some t'; kv := kv m |}, Err e)
      | (t', Ok n) =>
          match persistSalt now (kv m) newSalt with
          | (k', false) => ({| key := key m; masterSecret := masterSecret m; store := Some t'; kv := k' |}, Err ErrPersistSalt)
          | (k', true) => ({| key := newKey; masterSecret := newMaster; store := Some t'; kv := k' |}, Ok n)
          end
      end
      end
  end.

(** src/internal/secrets/module.go:186-224 Module.migrateLegacyVault *)
Definition migrateLegacyVault (fails : nat → bool) (nonce : nat → string) (now : Z) (m : Module_) (t : tables)
    (newSalt : string) : Module_ * result secret_error unit :=
  let newKey := NewVaultWithSalt (masterSecret m) newSalt in
  let oldKey := NewVaultWithSalt (masterSecret m) LegacyVaultSalt in
  match ListAllSecretVersions lists t with
  | Err e => (m, Err e)
  | Ok versions =>
  match reencrypt fails nonce oldKey newKey 0 versions t with
  | (t', Err e) => ({| key := key m; masterSecret := masterSecret m; store := Some t'; kv := kv m |}, Err e)
  | (t', Ok n) =>
      match persistSalt now (kv m) newSalt with
      | (k', false) => ({| key := key m; masterSecret := masterSecret m; store := Some t'; kv := k' |}, Err ErrPersistSalt)
      | (k', true) => ({| key := newKey; masterSecret := masterSecret m; store := Some t'; kv := k' |}, Ok tt)
      end
  end
  end.

(** A module with a key-value store has its tables as well.
    src/internal/secrets/module.go:164-180 Module.Start *)
Definition Start (fails : nat → bool) (nonce : nat → string) (now : Z) (m : Module_) (newSalt : string)
  : Module_ * result secret_error unit :=
  match kv m, store m with
  | Some k, Some t =>
      match stored_salt now k with
      | None => migrateLegacyVault fails nonce now m t newSalt
      | Some _ => (m, Ok tt)
      end
  | _, _ => (m, Ok tt)
  end.

(** src/internal/secrets/module.go:239-258 buildScopeHierarchy *)
Definition buildScopeHierarchy (scope : string) : list string :=
  let scopeType := default "" (head (Split scope "/")) in
  if decide (scopeType = "global") then ["global"]
  else if decide (scopeType ∈ ["tenant"; "project"; "app"]) then [scope; "global"]
  else [scope].

(** The scopes in order, the last error kept.
    src/internal/secrets/module.go:272-307 Module.Resolve.loop *)
Fixpoint resolve_scopes (k : string) (t : tables) (name : string) (scopes : list string) (lastErr : secret_error)
  : result secret_error string :=
  match scopes with
  | [] => Err lastErr
  | scope :: scopes =>
      match GetSecretByScopeAndName t scope name with
      | Err e => resolve_scopes k t name scopes e
      | Ok (id, _) =>
          match GetLatestSecretVersion t id with
          | None => resolve_scopes k t name scopes ErrNoVersion
          | Some v => match Decrypt k (ValueEnc v) with Some p => Ok p | None => Err ErrDecrypt end
          end
      end
  end.

(** src/internal/secrets/module.go:263-313 Module.Resolve *)
Definition Resolve (m : Module_) (scope name : string) : result secret_error string :=
  match store m with
  | None => Err ErrStoreNotInitialized
  | Some t => resolve_scopes (key m) t name (buildScopeHierarchy scope) ErrNotFound
  end.

Definition marker : string := "${SECRET:".

(** The first reference of a text: what is before it, its name, what is after it. *)
Definition next_ref (l : list ascii) : option (list ascii * list ascii * list ascii) :=
  idx ← index_of (bytes marker) l;
  e ← index_of ["}"%char] (drop idx l);
  Some (take idx l, take (e - 9) (drop (idx + 9) l), drop (idx + e + 1) l).

(** The loop, [fuel] rounds of it; [None] when they are not enough.
    src/internal/secrets/module.go:385-409 Module.ResolveAll *)
Fixpoint ResolveAll (fuel : nat) (m : Module_) (scope : string) (l : list ascii)
  : option (result secret_error (list ascii)) :=
  match fuel with
  | O => None
  | S fuel =>
      match next_ref l with
      | None => Some (Ok l)
      | Some (before, ref, after) =>
          match Resolve m scope (str ref) with
          | Err e => Some (Err e)
          | Ok value => ResolveAll fuel m scope (before ++ bytes value ++ after)
          end
      end
  end.

End Vault.

(** ** Rotation keeps the secrets *)

(** What the values say under a key: the specification's view of the vault. *)
Definition plain `{Cipher} (k : string) (t : tables) (id : string) : option string :=
  v ← versions t !! id; Decrypt k (ValueEnc v).

Section Rotation.
Context `{CipherLaws}.
Variable LegacyVaultSalt : string.

Lemma update_plain k t id enc id' :
  plain k (UpdateSecretVersionValue t id enc) id' =
    if decide (id' = id) then (match versions t !! id with Some _ => Decrypt k enc | None => None end)
    else plain k t id'.
Proof.
  unfold plain, UpdateSecretVersionValue. cbn [versions]. destruct (decide (id' = id)) as [->|Hne].
  - rewrite lookup_alter_eq. by destruct (versions t !! id).
  - by rewrite lookup_alter_ne by done.
Qed.

(** The version's text has moved from the old key to the new one. *)
Definition moved (old new : string) (t t' : tables) (id : string) : Prop :=
  ∃ v n p, versions t' !! id = Some v ∧ ValueEnc v = Encrypt new n p ∧ plain old t id = Some p.

Lemma moved_plain old new t t' id : moved old new t t' id → plain new t' id = plain old t id.
Proof. intros (v & n & p & Hv & He & Hp). unfold plain at 1. rewrite Hv. cbn. by rewrite He, decrypt_encrypt, Hp. Qed.

Lemma moved_lost old new t t' id : old ≠ new → moved old new t t' id → plain old t' id = None.
Proof. intros Hne (v & n & p & Hv & He & _). unfold plain. rewrite Hv. cbn. by rewrite He, decrypt_other. Qed.

(** The loop when no write fails: the listed versions hold their text under the new key,
    the others are as they were. *)
Lemma reencrypt_ok nonce old new l : ∀ i t, old ≠ new → NoDup l.*1 →
  (∀ id v, (id, v) ∈ l → versions t !! id = Some v ∧ is_Some (Decrypt old (ValueEnc v))) →
  ∃ t', reencrypt (λ _, false) nonce old new i l t = (t', Ok (i + length l)%nat) ∧
    (∀ id, id ∈ l.*1 → moved old new t t' id) ∧
    (∀ id, id ∉ l.*1 → versions t' !! id = versions t !! id) ∧ dom (versions t') = dom (versions t).
Proof.
  induction l as [|[id v] l IH]; intros i t Hne Hnd Hl; cbn [reencrypt].
  { exists t. rewrite Nat.add_0_r. split_and!; try done. by intros id ?%elem_of_nil. }
  cbn [fmap list_fmap fst] in Hnd. apply NoDup_cons in Hnd as [Hid Hnd].
  destruct (Hl id v ltac:(by left)) as [Hv [p Hp]]. rewrite Hp.
  set (t1 := UpdateSecretVersionValue t id (Encrypt new (nonce i) p)).
  assert (∀ id', id' ≠ id → versions t1 !! id' = versions t !! id') as Hother.
  { intros id' Hn. unfold t1, UpdateSecretVersionValue. cbn. by rewrite lookup_alter_ne. }
  destruct (IH (S i) t1 Hne Hnd) as (t' & Ht' & Hin & Hout & Hdom).
  { intros id' v' Hin. rewrite Hother; [apply Hl; by right|]. intros ->. apply Hid. apply list_elem_of_fmap. by exists (id, v'). }
  exists t'. split; [rewrite Ht'; f_equal; f_equal; cbn; lia|]. cbn [fmap list_fmap fst]. split_and!.
  - intros id' [->|Hi]%elem_of_cons.
    + unfold moved, plain. rewrite Hout by done. unfold t1, UpdateSecretVersionValue. cbn [versions].
      rewrite lookup_alter_eq, Hv. cbn [fmap option_fmap option_map mbind option_bind]. by eexists _, _, p.
    + destruct (Hin id' Hi) as (v' & n & q & ? & ? & Hq). exists v', n, q. split_and!; try done. rewrite <-Hq.
      unfold plain. rewrite Hother; [done|]. by intros ->.
  - intros id' [Hn Hi]%not_elem_of_cons. rewrite Hout by done. by apply Hother.
  - rewrite Hdom. unfold t1, UpdateSecretVersionValue. cbn. apply dom_alter_L.
Qed.

Lemma listed_versions t :
  NoDup (all_versions t).*1 ∧ ∀ id v, (id, v) ∈ all_versions t → versions t !! id = Some v.
Proof.
  unfold all_versions. set (l := merge_sort listed_before (map_to_list (versions t))).
  assert (l ≡ₚ map_to_list (versions t)) as Hp by apply merge_sort_Permutation.
  assert (NoDup l.*1) as Hnd by (rewrite Hp; apply NoDup_fst_map_to_list). split.
  - rewrite <-(take_drop row_limit l), fmap_app in Hnd. by apply NoDup_app in Hnd as [? _].
  - intros id v Hin. apply elem_of_map_to_list. rewrite <-Hp. rewrite <-(take_drop row_limit l). apply elem_of_app. by left.
Qed.

Lemma length_listed t : (size (versions t) ≤ row_limit)%nat → length (all_versions t) = size (versions t).
Proof.
  intros. unfold all_versions.
  rewrite length_take, (Permutation_length (merge_sort_Permutation listed_before (map_to_list (versions t)))), length_map_to_list. lia.
Qed.

Lemma listed_all t id : (size (versions t) ≤ row_limit)%nat → is_Some (versions t !! id) → id ∈ (all_versions t).*1.
Proof.
  intros Hs [v Hv]. unfold all_versions. set (l := merge_sort listed_before (map_to_list (versions t))).
  assert (l ≡ₚ map_to_list (versions t)) as Hp by apply merge_sort_Permutation.
  rewrite take_ge by (rewrite Hp, length_map_to_list; done). rewrite Hp. apply list_elem_of_fmap. exists (id, v).
  by rewrite elem_of_map_to_list.
Qed.

(** C31. Rotating the master key keeps every secret: when all of at most ten thousand versions decrypt under
    the key in use and neither the listing nor a write fails, rotation succeeds, every version holds the same
    text under the new key, and a restart with the new master secret derives that key
    from the salt it stored. *)
Theorem rotation_keeps_secrets nonce now later lists m t k newMaster newSalt fresh :
  let newKey := NewVaultWithSalt LegacyVaultSalt newMaster newSalt in
  store m = Some t → kv m = Some k → key m ≠ newKey → (size (versions t) ≤ row_limit)%nat → (16 ≤ slen newSalt)%nat →
  (∀ id v, versions t !! id = Some v → is_Some (Decrypt (key m) (ValueEnc v))) →
  ∃ m' t', RotateEncryptionKey LegacyVaultSalt no_fault true (λ _, false) nonce now m newMaster newSalt = (m', Ok (size (versions t))) ∧
    store m' = Some t' ∧ key m' = newKey ∧ (∀ id, plain newKey t' id = plain (key m) t id) ∧
    ∃ m'', Init LegacyVaultSalt no_fault lists later newMaster (store m') (kv m') fresh = Ok m'' ∧ key m'' = newKey.
Proof.
  cbv zeta. intros Ht Hk Hne Hsize Hsalt Hdec. set (newKey := NewVaultWithSalt LegacyVaultSalt newMaster newSalt) in *.
  destruct (listed_versions t) as [Hnd Hin].
  destruct (reencrypt_ok nonce (key m) newKey (all_versions t) 0 t Hne Hnd) as (t' & E & Hl & Hout & Hdom).
  { intros id v Hv. split; [by apply Hin|]. by eapply Hdec, Hin. }
  pose proof (length_listed t Hsize) as Hlen.
  unfold RotateEncryptionKey, ListAllSecretVersions. rewrite Ht. cbv zeta. fold newKey. rewrite E, Hk. cbn [Nat.add]. rewrite Hlen.
  unfold persistSalt, Set_, sql, no_fault. cbn [is_ok]. eexists _, t'. split; [done|]. cbn [store key kv]. split_and!; try done.
  - intros id. destruct (versions t !! id) as [v|] eqn:Ev.
    + apply moved_plain, Hl. apply listed_all; [done|by eexists].
    + unfold plain. rewrite Ev. assert (versions t' !! id = None) as ->; [|done].
      apply not_elem_of_dom. rewrite Hdom. by apply not_elem_of_dom.
  - unfold Init, resolveVaultSalt, stored_salt, Get, sql, no_fault. cbn [rows upsert add_bucket].
    rewrite lookup_insert_eq. unfold expired, expiry. cbn [expires_at data Z.ltb Z.compare andb mbind option_bind unmarshal salt_json marshal].
    assert (newSalt ≠ "") as Hns by (intros ->; cbn in Hsalt; lia). rewrite decide_False by done.
    rewrite (proj2 (Nat.ltb_ge (slen newSalt) 16)) by done. by eexists.
Qed.

(** ** Interrupted rotation *)

Lemma reencrypt_app fails nonce old new l1 l2 : ∀ i t,
  reencrypt fails nonce old new i (l1 ++ l2) t =
    match reencrypt fails nonce old new i l1 t with
    | (t1, Ok j) => reencrypt fails nonce old new j l2 t1
    | (t1, Err e) => (t1, Err e)
    end.
Proof.
  induction l1 as [|[id v] l1 IH]; intros i t; [done|]. cbn [app reencrypt].
  destruct (Decrypt old (ValueEnc v)); [|done]. destruct (fails i); [done|]. apply IH.
Qed.

Lemma reencrypt_no_fail fails nonce old new l : ∀ i t, (∀ j, (i ≤ j < i + length l)%nat → fails j = false) →
  reencrypt fails nonce old new i l t = reencrypt (λ _, false) nonce old new i l t.
Proof.
  induction l as [|[id v] l IH]; intros i t Hf; [done|]. cbn [reencrypt length] in *.
  destruct (Decrypt old (ValueEnc v)); [|done]. rewrite Hf by lia. apply IH. intros. apply Hf. lia.
Qed.

(** One value that does not decrypt stops the loop, whatever comes before it. *)
Lemma reencrypt_stuck fails nonce old new l id v : ∀ i t, (id, v) ∈ l → Decrypt old (ValueEnc v) = None →
  ∃ e, (reencrypt fails nonce old new i l t).2 = Err e.
Proof.
  induction l as [|[id' v'] l IH]; intros i t Hin Hd; [by apply elem_of_nil in Hin|]. cbn [reencrypt].
  apply elem_of_cons in Hin as [[= <- <-]|Hin]; [rewrite Hd; by eexists|].
  destruct (Decrypt old (ValueEnc v')); [|by eexists]. destruct (fails i); [by eexists|]. by apply IH.
Qed.

(** The write number [n] fails: the versions before it are under the new key, and only it. *)
Lemma reencrypt_interrupted nonce old new l n t : old ≠ new → NoDup l.*1 → (n < length l)%nat →
  (∀ id v, (id, v) ∈ l → versions t !! id = Some v ∧ is_Some (Decrypt old (ValueEnc v))) →
  ∃ t', reencrypt (λ i, bool_decide (i = n)) nonce old new 0 l t = (t', Err ErrIO) ∧
    (∀ id, id ∈ (take n l).*1 → moved old new t t' id) ∧ dom (versions t') = dom (versions t).
Proof.
  intros Hne Hnd Hn Hl. destruct (lookup_lt_is_Some_2 l n Hn) as [[id v] Hx].
  pose proof (take_drop_middle l n _ Hx) as Hsplit. rewrite <-Hsplit. rewrite reencrypt_app.
  rewrite reencrypt_no_fail by (intros j Hj; apply bool_decide_eq_false; rewrite length_take in Hj; lia).
  destruct (reencrypt_ok nonce old new (take n l) 0 t Hne) as (t' & -> & Hin & _ & Hdom).
  { rewrite <-Hsplit, fmap_app in Hnd. by apply NoDup_app in Hnd as [? _]. }
  { intros id' v' Hin. apply Hl. rewrite <-(take_drop n l). apply elem_of_app. by left. }
  cbn [Nat.add]. rewrite length_take_le by lia. cbn [reencrypt].
  destruct (Hl id v) as [_ [p ->]]; [by eapply list_elem_of_lookup_2|]. rewrite bool_decide_true by done.
  exists t'. split; [done|]. rewrite take_app_length' by (rewrite length_take; lia). done.
Qed.

(** Once a version does not decrypt under a key, no rotation from that key goes through. *)
Lemma rotation_stuck lists fails nonce now m t id newMaster newSalt :
  store m = Some t → (size (versions t) ≤ row_limit)%nat → is_Some (versions t !! id) → plain (key m) t id = None →
  ∃ e, (RotateEncryptionKey LegacyVaultSalt no_fault lists fails nonce now m newMaster newSalt).2 = Err e.
Proof.
  intros Ht Hsize Hid Hp. destruct (listed_versions t) as [_ Hin].
  destruct (proj1 (list_elem_of_fmap _ _ _) (listed_all t id Hsize Hid)) as ([id' v] & -> & Hv). cbn [fst] in *.
  unfold plain in Hp. rewrite (Hin id' v Hv) in Hp. cbn [mbind option_bind] in Hp.
  unfold RotateEncryptionKey, ListAllSecretVersions. rewrite Ht. cbv zeta. destruct lists; [|by eexists].
  destruct (reencrypt_stuck fails nonce (key m) (NewVaultWithSalt LegacyVaultSalt newMaster newSalt) _ id' v 0 t Hv Hp) as [e He].
  destruct (reencrypt _ _ _ _ _ _ _) as [t' r]. cbn [snd] in He. subst r. by eexists.
Qed.

(** An interrupted rotation loses secrets: when the write of version number [n] fails, the versions before
    it no longer decrypt under the key in use, the salt of the key they are now under is
    not stored, and no later rotation goes through. *)
Theorem interrupted_rotation_loses_secrets nonce now m t newMaster newSalt n :
  let newKey := NewVaultWithSalt LegacyVaultSalt newMaster newSalt in
  store m = Some t → key m ≠ newKey → (size (versions t) ≤ row_limit)%nat → (0 < n < size (versions t))%nat →
  (∀ id v, versions t !! id = Some v → is_Some (Decrypt (key m) (ValueEnc v))) →
  ∃ m' t', RotateEncryptionKey LegacyVaultSalt no_fault true (λ i, bool_decide (i = n)) nonce now m newMaster newSalt = (m', Err ErrIO) ∧
    key m' = key m ∧ kv m' = kv m ∧ store m' = Some t' ∧
    (∀ id, id ∈ (take n (all_versions t)).*1 → is_Some (plain (key m) t id) ∧ plain (key m) t' id = None) ∧
    ∀ lists fails nonce' later master salt, ∃ e,
      (RotateEncryptionKey LegacyVaultSalt no_fault lists fails nonce' later m' master salt).2 = Err e.
Proof.
  cbv zeta. intros Ht Hne Hsize Hn Hdec. set (newKey := NewVaultWithSalt LegacyVaultSalt newMaster newSalt) in *.
  destruct (listed_versions t) as [Hnd Hin].
  pose proof (length_listed t Hsize) as Hlen.
  destruct (reencrypt_interrupted nonce (key m) newKey (all_versions t) n t Hne Hnd) as (t' & E & Hmoved & Hdom).
  { lia. } { intros id v Hv. split; [by apply Hin|]. by eapply Hdec, Hin. }
  unfold RotateEncryptionKey at 1, ListAllSecretVersions at 1. rewrite Ht. cbv zeta. fold newKey. rewrite E. eexists _, t'. split; [done|]. cbn [key kv store].
  split_and!; try done.
  - intros id Hid. split; [|by eapply moved_lost, Hmoved]. destruct (Hmoved id Hid) as (? & ? & p & _ & _ & ->). by eexists.
  - intros. destruct (lookup_lt_is_Some_2 (all_versions t) 0 ltac:(lia)) as [[id v] Hx].
    assert (id ∈ (take n (all_versions t)).*1) as Hid.
    { apply list_elem_of_fmap. exists (id, v). split; [done|]. apply list_elem_of_lookup. exists 0%nat. by rewrite lookup_take_lt by lia. }
    eapply (rotation_stuck lists fails nonce' later _ t' id); [done| | |by eapply moved_lost, Hmoved].
    + rewrite <-size_dom, Hdom, size_dom. done.
    + destruct (Hmoved id Hid) as (v' & ? & ? & -> & _). by eexists.
Qed.

(** An interrupted migration keeps the program from starting: when the write of version number [n]
    fails during the migration from the old salt, the versions before it no longer
    decrypt, and every later start fails at its migration. *)
Theorem interrupted_migration_blocks_start nonce now m t k newSalt n :
  let legacy := NewVaultWithSalt LegacyVaultSalt (masterSecret m) LegacyVaultSalt in
  store m = Some t → kv m = Some k → rows k !! ("vault", "salt") = None →
  legacy ≠ NewVaultWithSalt LegacyVaultSalt (masterSecret m) newSalt →
  (size (versions t) ≤ row_limit)%nat → (0 < n < size (versions t))%nat →
  (∀ id v, versions t !! id = Some v → is_Some (Decrypt legacy (ValueEnc v))) →
  ∃ m', Start LegacyVaultSalt no_fault true (λ i, bool_decide (i = n)) nonce now m newSalt = (m', Err ErrIO) ∧
    ∀ later fresh, ∃ m2, Init LegacyVaultSalt no_fault true later (masterSecret m) (store m') (kv m') fresh = Ok m2 ∧
      ∀ lists fails nonce' salt, ∃ e, (Start LegacyVaultSalt no_fault lists fails nonce' later m2 salt).2 = Err e.
Proof.
  cbv zeta. intros Ht Hk Hrow Hne Hsize Hn Hdec. set (legacy := NewVaultWithSalt LegacyVaultSalt (masterSecret m) LegacyVaultSalt) in *.
  assert (∀ t0, stored_salt no_fault t0 k = None) as Hnone by (intros; unfold stored_salt, Get, sql, no_fault; by rewrite Hrow).
  destruct (listed_versions t) as [Hnd Hin].
  pose proof (length_listed t Hsize) as Hlen.
  destruct (reencrypt_interrupted nonce legacy _ (all_versions t) n t Hne Hnd) as (t' & E & Hmoved & Hdom).
  { lia. } { intros id v Hv. split; [by apply Hin|]. by eapply Hdec, Hin. }
  unfold Start at 1. rewrite Hk, Ht, Hnone. unfold migrateLegacyVault at 1, ListAllSecretVersions at 1. cbv zeta. fold legacy. rewrite E. eexists. split; [done|].
  cbn [store kv]. rewrite Hk. intros later fresh.
  destruct (lookup_lt_is_Some_2 (all_versions t) 0 ltac:(lia)) as [[id v] Hx].
  assert (id ∈ (take n (all_versions t)).*1) as Hid.
  { apply list_elem_of_fmap. exists (id, v). split; [done|]. apply list_elem_of_lookup. exists 0%nat. by rewrite lookup_take_lt by lia. }
  pose proof (moved_lost _ _ _ _ _ Hne (Hmoved id Hid)) as Hlost.
  assert (id ∈ (all_versions t').*1) as Hid'.
  { apply listed_all; [by rewrite <-size_dom, Hdom, size_dom|]. destruct (Hmoved id Hid) as (v' & ? & ? & -> & _). by eexists. }
  apply list_elem_of_fmap in Hid' as ([id' v'] & -> & Hv'). cbn [fst] in *.
  unfold plain in Hlost. rewrite (proj2 (listed_versions t') id' v' Hv') in Hlost. cbn [mbind option_bind] in Hlost.
  unfold Init, resolveVaultSalt, ListAllSecretVersions. rewrite Hnone. destruct (all_versions t') as [|y l'] eqn:EL; [by apply elem_of_nil in Hv'|].
  eexists. split; [done|]. intros lists fails nonce' salt. unfold Start. cbn [kv store]. rewrite Hnone.
  unfold migrateLegacyVault, ListAllSecretVersions. cbv zeta. destruct lists; [|by eexists]. cbn [masterSecret]. fold legacy. rewrite EL.
  destruct (reencrypt_stuck fails nonce' legacy (NewVaultWithSalt LegacyVaultSalt (masterSecret m) salt) _ id' v' 0 t' Hv' Hlost) as [e He].
  match type of He with (?x).2 = _ => destruct x as [t2 r] end. cbn [snd] in He. subst r. by eexists.
Qed.

(** A start that cannot list the versions takes an old installation for a new one: [Init] stores a
    fresh salt, [Start] finds it and migrates nothing, and no value that the old key
    encrypted can be read any more. *)
Theorem failed_listing_replaces_salt fails nonce now later m t k fresh fresh' :
  let legacy := NewVaultWithSalt LegacyVaultSalt (masterSecret m) LegacyVaultSalt in
  let new := NewVaultWithSalt LegacyVaultSalt (masterSecret m) fresh in
  rows k !! ("vault", "salt") = None → (16 ≤ slen fresh)%nat → legacy ≠ new →
  (∀ id v, versions t !! id = Some v → ∃ n p, ValueEnc v = Encrypt legacy n p) →
  ∃ m', Init LegacyVaultSalt no_fault false now (masterSecret m) (Some t) (Some k) fresh = Ok m' ∧ key m' = new ∧
    Start LegacyVaultSalt no_fault true fails nonce later m' fresh' = (m', Ok tt) ∧ ∀ id, plain (key m') t id = None.
Proof.
  cbv zeta. intros Hrow Hlen Hne Henc.
  assert (stored_salt no_fault now k = None) as Hnone by (unfold stored_salt, Get, sql, no_fault; by rewrite Hrow).
  unfold Init, resolveVaultSalt. rewrite Hnone. cbn [ListAllSecretVersions]. unfold persistSalt, Set_, sql, no_fault. cbn [is_ok].
  eexists. split; [done|]. cbn [key]. split; [done|]. split.
  - unfold Start. cbn [kv store]. unfold stored_salt, Get, sql, no_fault. cbn [rows upsert add_bucket]. rewrite lookup_insert_eq.
    unfold expired, expiry. cbn [expires_at data Z.ltb Z.compare andb mbind option_bind unmarshal salt_json marshal].
    rewrite decide_False by (intros ->; cbn in Hlen; lia). by rewrite (proj2 (Nat.ltb_ge (slen fresh) 16)).
  - intros id. unfold plain. destruct (versions t !! id) as [v|] eqn:Ev; [|done]. cbn.
    destruct (Henc id v Ev) as (n & p & ->). by apply decrypt_other.
Qed.

End Rotation.

(** ** Templates *)

Section Templates.
Context `{Cipher}.

Definition dollar : ascii := "$"%char.

Lemma next_ref_split l before ref after : next_ref l = Some (before, ref, after) →
  ∃ rest, l = before ++ bytes marker ++ rest ∧ after `suffix_of` rest.
Proof.
  unfold next_ref. destruct (index_of (bytes marker) l) as [idx|] eqn:Ei; [|done]. cbn [mbind option_bind].
  destruct (index_of ["}"%char] (drop idx l)) as [e|] eqn:Ee; [|done]. cbn [mbind option_bind]. intros [= <- <- <-].
  apply index_of_Some in Ei as [[k Hk] _]. apply index_of_Some in Ee as [Hp _].
  exists k. split; [by rewrite <-Hk, take_drop|].
  assert (9 ≤ e)%nat as He.
  { destruct (decide (e < 9)%nat) as [Hlt|]; [exfalso|lia]. rewrite Hk in Hp.
    do 9 (destruct e as [|e]; [destruct Hp as [? [=]]|cbn in Hp]). lia. }
  exists (take (e - 8) k). replace (idx + e + 1)%nat with (idx + (e + 1))%nat by lia. rewrite <-drop_drop, Hk.
  rewrite drop_app_ge by (cbn; lia). replace (e + 1 - length (bytes marker))%nat with (e - 8)%nat by (cbn; lia).
  by rewrite take_drop.
Qed.

(** Each replaced reference takes a dollar sign away when the values have none. *)
Lemma next_ref_dollars l before ref after v : next_ref l = Some (before, ref, after) → count_byte dollar v = 0%nat →
  (count_byte dollar (before ++ v ++ after) < count_byte dollar l)%nat.
Proof.
  intros (rest & -> & r & ->)%next_ref_split Hv. unfold count_byte in *.
  rewrite !filter_app, !length_app. change (length (filter (λ x, x = dollar) (bytes marker))) with 1%nat. lia.
Qed.

(** C32. Filling in a template ends when no secret's value contains a dollar sign: as many rounds as the template has
    dollar signs, and one more, are enough. *)
Theorem resolve_all_terminates m scope l :
  (∀ name v, Resolve m scope name = Ok v → count_byte dollar (bytes v) = 0%nat) →
  is_Some (ResolveAll (S (count_byte dollar l)) m scope l).
Proof.
  intros Hv. remember (count_byte dollar l) as n eqn:Hn. assert (count_byte dollar l ≤ n)%nat as Hle by lia. clear Hn.
  revert l Hle. induction n as [|n IH]; intros l Hle; cbn [ResolveAll].
  - destruct (next_ref l) as [[[before ref] after]|] eqn:E; [|by eexists].
    pose proof (next_ref_dollars _ _ _ _ [] E eq_refl). lia.
  - destruct (next_ref l) as [[[before ref] after]|] eqn:E; [|by eexists].
    destruct (Resolve m scope (str ref)) as [v|] eqn:Er; [|by eexists].
    apply IH. pose proof (next_ref_dollars _ _ _ _ (bytes v) E (Hv _ _ Er)). lia.
Qed.

(** A secret whose value refers to itself makes the loop run forever: no number of rounds is enough. *)
Theorem self_reference_diverges m scope name :
  "}"%char ∉ bytes name → Resolve m scope name = Ok (marker +:+ name +:+ "}") →
  ∀ fuel, ResolveAll fuel m scope (bytes (marker +:+ name +:+ "}")) = None.
Proof.
  intros Hname Hres fuel. induction fuel as [|fuel IH]; [done|]. cbn [ResolveAll].
  assert (next_ref (bytes (marker +:+ name +:+ "}")) = Some ([], bytes name, [])) as ->.
  { unfold next_ref. rewrite !bytes_app. change (bytes "}") with ["}"%char].
    assert (index_of (bytes marker) (bytes marker ++ bytes name ++ ["}"%char]) = Some 0%nat) as ->.
    { destruct (bytes marker ++ bytes name ++ ["}"%char]) eqn:E; cbn [index_of]; rewrite decide_True; try done; rewrite <-E; by eexists. }
    cbn [mbind option_bind]. rewrite drop_0, take_0.
    assert (∀ a, "}"%char ∉ a → index_of ["}"%char] (a ++ ["}"%char]) = Some (length a)) as Hidx.
    { induction a as [|c a IHa]; intros Ha; [by cbn|]. apply not_elem_of_cons in Ha as [Hc Ha]. cbn [app index_of length].
      rewrite decide_False; [by rewrite IHa|]. intros [k [= Hk _]]. by destruct Hc. }
    assert (index_of ["}"%char] (bytes marker ++ bytes name ++ ["}"%char]) = Some (9 + length (bytes name))%nat) as ->.
    { rewrite app_assoc, Hidx; [by rewrite length_app|]. rewrite elem_of_app. intros [Hm|Hm]; [|done].
      revert Hm. apply (bool_decide_unpack _). vm_compute. exact I. }
    cbn [mbind option_bind].
    replace (9 + length (bytes name) - 9)%nat with (length (bytes name)) by lia.
    change (drop (0 + 9) (bytes marker ++ bytes name ++ ["}"%char])) with (bytes name ++ ["}"%char]).
    rewrite take_app_length. rewrite drop_ge; [done|]. rewrite !length_app. cbn. lia. }
  rewrite str_bytes, Hres. cbn [app]. rewrite app_nil_r. exact IH.
Qed.

End Templates.

(** ** The handlers *)

(** src/internal/api/handlers/secrets.go:29-36 createSecretRequest *)
Record createSecretRequest := {
  cName : string; cValue : string; cScope : string; cDescription : string; cProjectID : string; cAppID : string }.

(** The type of the vault accessor, as the secrets module declares it and as the router
    and the authentication module ask for it.  A type assertion to an interface succeeds
    when the method has exactly the type the interface names. *)
Definition Vault_method : string := "func() *secrets.Vault".
Definition vaultProvider_method : string :=
  "func() interface { Decrypt(string) (string, error); Encrypt(string) (string, error) }".

(** The vault the router hands to the handlers.
    src/internal/api/router.go:564-579 Router.registerRoutes.vault *)
Definition wired_vault {V} (vault : V) : option V :=
  if decide (Vault_method = vaultProvider_method) then Some vault else None.

Section Handlers.
(** The tenant of an application and of a project. *)
Variables app_tenant project_tenant : string → option string.
(** Encryption by the vault handed to the handler; it may fail. *)
Variable vault : option (string → option string).

(** The checks on scope, application and project.
    src/internal/api/handlers/secrets.go:60-99 SecretHandler.Create.checks *)
Definition create_checks (tenantID scope : string) (req : createSecretRequest) : option Z :=
  if decide (scope ∉ ["global"; "tenant"; "project"; "app"]) then Some 400
  else if decide (scope = "app" ∧ cAppID req = "") then Some 400
  else
    match (if decide (cAppID req = "") then None
           else match app_tenant (cAppID req) with
                | None => Some 404
                | Some t => if decide (t = tenantID) then None else Some 403
                end) with
    | Some st => Some st
    | None =>
        if decide (scope = "project" ∧ cProjectID req = "") then Some 400
        else if decide (cProjectID req = "") then None
        else match project_tenant (cProjectID req) with
             | None => Some 404
             | Some t => if decide (t = tenantID) then None else Some 403
             end
    end.

(** [claims] are the tenant and the user of the caller; the result is the status.
    src/internal/api/handlers/secrets.go:43-152 SecretHandler.Create *)
Definition Create (claims : option (string * string)) (body : option createSecretRequest) (id vid : string) (t : tables)
  : tables * Z :=
  match claims with
  | None => (t, 401)
  | Some (tenantID, userID) =>
      match body with
      | None => (t, 400)
      | Some req =>
          if decide (cName req = "" ∨ cValue req = "") then (t, 400)
          else
            let scope := if decide (cScope req = "") then "tenant" else cScope req in
            match create_checks tenantID scope req with
            | Some st => (t, st)
            | None =>
                match match vault with Some enc => enc (cValue req) | None => Some (cValue req) end with
                | None => (t, 500)
                | Some encrypted =>
                    match CreateSecret t id {| sTenantID := tenantID; sProjectID := cProjectID req; sAppID := cAppID req;
                                               sName := cName req; sDescription := cDescription req; sScope := scope;
                                               sCurrentVersion := 1 |} with
                    | Err _ => (t, 500)
                    | Ok t1 =>
                        match CreateSecretVersion t1 vid {| vSecretID := id; vVersion := 1; ValueEnc := encrypted;
                                                            vCreatedBy := userID |} with
                        | Err _ => (t1, 500)
                        | Ok t2 => (t2, 201)
                        end
                    end
                end
            end
      end
  end.

(** src/internal/api/handlers/secrets.go:155-184 SecretHandler.Delete *)
Definition Delete_ (claims : option (string * string)) (id : string) (t : tables) : tables * Z :=
  match claims with
  | None => (t, 401)
  | Some (tenantID, _) =>
      if decide (id = "") then (t, 400)
      else match DeleteSecret t tenantID id with
           | Err ErrNotFound => (t, 404)
           | Err _ => (t, 500)
           | Ok t' => (t', 204)
           end
  end.

(** Metadata only: identifier, name, scope, description, version.
    src/internal/api/handlers/secrets.go:188-220 SecretHandler.List *)
Definition List_secrets (claims : option (string * string)) (t : tables)
  : option (list (string * (string * string * string * Z))) :=
  '(tenantID, _) ← claims;
  Some ((λ kv : string * Secret, (kv.1, (sName kv.2, sScope kv.2, sDescription kv.2, sCurrentVersion kv.2))) <$>
        filter (λ kv, sTenantID kv.2 = tenantID) (map_to_list (secrets t))).

(** What a creation that succeeds writes. *)
Lemma create_writes tenantID userID req id vid t t' :
  Create (Some (tenantID, userID)) (Some req) id vid t = (t', 201) →
  ∃ enc s, match vault with Some e => e (cValue req) | None => Some (cValue req) end = Some enc ∧
    secrets t' !! id = Some s ∧ sTenantID s = tenantID ∧ sName s = cName req ∧
    versions t' !! vid = Some {| vSecretID := id; vVersion := 1; ValueEnc := enc; vCreatedBy := userID |}.
Proof.
  unfold Create. destruct (decide (cName req = "" ∨ cValue req = "")); [done|]. cbv zeta.
  generalize (if decide (cScope req = "") then "tenant" else cScope req); intros scope. destruct (create_checks _ _ _) as [st|] eqn:Ec.
  { intros [= _ ->]. exfalso. unfold create_checks in Ec. repeat (case_decide || case_match; simplify_eq/=). }
  destruct (match vault with Some _ => _ | None => _ end) as [enc|]; [|done].
  unfold CreateSecret. case_decide; [done|]. unfold CreateSecretVersion. case_decide; [done|].
  intros [= <-]. exists enc. eexists. cbn [secrets versions]. rewrite !lookup_insert_eq. done.
Qed.

End Handlers.

(** Secrets are stored in the clear: the vault's accessor does not have the type the router asserts, so the
    handler has no vault and the stored value is the submitted text; the vault itself
    cannot read it back unless the text happens to be one of its ciphertexts. *)
Theorem secrets_stored_in_clear `{Cipher} app_tenant project_tenant vault tenantID userID req id vid t t' :
  Create app_tenant project_tenant (wired_vault vault) (Some (tenantID, userID)) (Some req) id vid t = (t', 201) →
  (∃ v, versions t' !! vid = Some v ∧ ValueEnc v = cValue req) ∧ ∀ k, plain k t' vid = Decrypt k (cValue req).
Proof.
  intros (enc & s & He & _ & _ & _ & Hv)%create_writes. change (wired_vault vault) with (@None (string → option string)) in He.
  injection He as <-. split; [by eexists|]. intros k. unfold plain. by rewrite Hv.
Qed.

(** A tenant deletes its own secrets only, and nobody else's are touched. *)
Theorem delete_stays_in_tenant tenantID userID id t t' :
  Delete_ (Some (tenantID, userID)) id t = (t', 204) →
  (∃ s, secrets t !! id = Some s ∧ sTenantID s = tenantID) ∧ secrets t' !! id = None ∧
  (∀ id', id' ≠ id → secrets t' !! id' = secrets t !! id') ∧
  ∀ vid v, versions t' !! vid = Some v ↔ versions t !! vid = Some v ∧ vSecretID v ≠ id.
Proof.
  unfold Delete_. case_decide; [done|]. unfold DeleteSecret. destruct (secrets t !! id) as [s|] eqn:Es; [|done].
  case_decide; [|done]. intros [= <-]. cbn [secrets versions]. split_and!; [by exists s|by rewrite lookup_delete_eq| |].
  - intros id' Hne. by rewrite lookup_delete_ne.
  - intros vid v. by rewrite map_lookup_filter_Some.
Qed.

(** ** Examples *)

(** A cipher whose ciphertext is the number that encodes key and text. *)
Definition toy_cipher : Cipher := {|
  IDKey := λ m s, m +:+ "/" +:+ s;
  Encrypt := λ k _ p, "c" +:+ itoa (Z.pos (encode (k, p)));
  Decrypt := λ k c,
    match digits_val 0 (bytes (TrimPrefix c "c")) with
    | Some (Z.pos n) => '(k', p) ← decode (A := string * string) n; if decide (k' = k) then Some p else None
    | _ => None
    end |}.

Lemma toy_cipher_laws : @CipherLaws toy_cipher.
Proof.
  split.
  - intros k n p. cbn [Decrypt Encrypt toy_cipher]. rewrite TrimPrefix_app, digits_val_itoa, decode_encode by done. cbn. by rewrite decide_True.
  - intros k k' n p Hne. cbn [Decrypt Encrypt toy_cipher]. rewrite TrimPrefix_app, digits_val_itoa, decode_encode by done. cbn. by rewrite decide_False.
Qed.

Definition value (i : Z) (p : string) : SecretVersion :=
  {| vSecretID := "s1"; vVersion := i; ValueEnc := @Encrypt toy_cipher "k/old" "n" p; vCreatedBy := "u1" |}.
Definition two_versions : tables :=
  {| secrets := {[ "s1" := {| sTenantID := "t1"; sProjectID := ""; sAppID := ""; sName := "API_KEY"; sDescription := "";
                              sScope := "tenant"; sCurrentVersion := 2 |} ]};
     versions := <["v1" := value 1 "first"]> {[ "v2" := value 2 "second" ]} |}.
Definition vault_module : Module_ :=
  {| key := "k/old"; masterSecret := "k"; store := Some two_versions; kv := Some empty_store |}.

Lemma two_versions_readable id v : versions two_versions !! id = Some v → is_Some (@Decrypt toy_cipher "k/old" (ValueEnc v)).
Proof.
  cbn [two_versions versions]. intros [[<- <-]|[_ [<- <-]%lookup_singleton_Some]]%lookup_insert_Some;
    unfold value; cbn [ValueEnc]; rewrite (@decrypt_encrypt toy_cipher toy_cipher_laws); by eexists.
Qed.

Lemma two_versions_size : size (versions two_versions) = 2%nat.
Proof. reflexivity. Qed.

Lemma two_versions_fit : (size (versions two_versions) ≤ row_limit)%nat.
Proof. rewrite two_versions_size. unfold row_limit. lia. Qed.

Lemma rotation_keeps_secrets_witness :
  ∃ m' t', @RotateEncryptionKey toy_cipher "old" no_fault true (λ _, false) (λ _, "n") 0 vault_module "k2" "0123456789abcdef" = (m', Ok 2%nat) ∧
    store m' = Some t' ∧ @plain toy_cipher "k2/0123456789abcdef" t' "v1" = @plain toy_cipher "k/old" two_versions "v1".
Proof.
  destruct (@rotation_keeps_secrets toy_cipher toy_cipher_laws "old" (λ _, "n") 0 0 true vault_module two_versions empty_store
              "k2" "0123456789abcdef" "")
    as (m' & t' & E & Hs & _ & Hp & _); [done|done|done|exact two_versions_fit|cbn; lia|exact two_versions_readable|].
  exists m', t'. split; [exact E|]. split; [exact Hs|]. apply (Hp "v1").
Defined.

Lemma interrupted_rotation_loses_secrets_witness :
  ∃ m' t', @RotateEncryptionKey toy_cipher "old" no_fault true (λ i, bool_decide (i = 1%nat)) (λ _, "n") 0 vault_module "k2" "0123456789abcdef"
             = (m', Err ErrIO) ∧ store m' = Some t' ∧ @plain toy_cipher "k/old" t' "v1" = None.
Proof.
  destruct (@interrupted_rotation_loses_secrets toy_cipher toy_cipher_laws "old" (λ _, "n") 0 vault_module two_versions
              "k2" "0123456789abcdef" 1) as (m' & t' & E & _ & _ & Hs & Hp & _);
    [done|done|exact two_versions_fit|rewrite two_versions_size; lia|exact two_versions_readable|].
  exists m', t'. split; [exact E|]. split; [exact Hs|]. apply (Hp "v1"). vm_compute. by left.
Defined.

Lemma interrupted_migration_blocks_start_witness :
  ∃ m', @Start toy_cipher "old" no_fault true (λ i, bool_decide (i = 1%nat)) (λ _, "n") 0 vault_module "0123456789abcdef" = (m', Err ErrIO).
Proof.
  destruct (@interrupted_migration_blocks_start toy_cipher toy_cipher_laws "old" (λ _, "n") 0 vault_module two_versions empty_store
              "0123456789abcdef" 1) as (m' & E & _);
    [done|done|done|done|exact two_versions_fit|rewrite two_versions_size; lia|exact two_versions_readable|].
  exists m'. exact E.
Defined.

Lemma failed_listing_replaces_salt_witness :
  ∃ m', @Init toy_cipher "old" no_fault false 0 "k" (Some two_versions) (Some empty_store) "0123456789abcdef" = Ok m' ∧
        @plain toy_cipher (key m') two_versions "v1" = None.
Proof.
  destruct (@failed_listing_replaces_salt toy_cipher toy_cipher_laws "old" (λ _, false) (λ _, "n") 0 0 vault_module two_versions
              empty_store "0123456789abcdef" "fedcba9876543210") as (m' & E & _ & _ & Hp); [done|cbn; lia|done| |].
  - cbn [two_versions versions]. intros id v [[<- <-]|[_ [<- <-]%lookup_singleton_Some]]%lookup_insert_Some;
      unfold value; cbn [ValueEnc]; by eexists _, _.
  - exists m'. split; [exact E|apply Hp].
Defined.

(** One secret, created over the API and named in a template. *)
Definition asked : createSecretRequest :=
  {| cName := "TOKEN"; cValue := "hunter2"; cScope := "global"; cDescription := ""; cProjectID := ""; cAppID := "" |}.
Definition no_tables : tables := {| secrets := ∅; versions := ∅ |}.

Lemma secrets_stored_in_clear_witness :
  let t' := (Create (λ _, None) (λ _, None) (wired_vault (λ p, Some (@Encrypt toy_cipher "k/old" "n" p)))
               (Some ("t1", "u1")) (Some asked) "s1" "v1" no_tables).1 in
  ∃ v, versions t' !! "v1" = Some v ∧ ValueEnc v = "hunter2".
Proof.
  cbv zeta.
  set (r := Create (λ _, None) (λ _, None) (wired_vault (λ p, Some (@Encrypt toy_cipher "k/old" "n" p)))
              (Some ("t1", "u1")) (Some asked) "s1" "v1" no_tables).
  assert (r = (r.1, 201)) as E by reflexivity.
  apply (@secrets_stored_in_clear toy_cipher (λ _, None) (λ _, None) (λ p, Some (@Encrypt toy_cipher "k/old" "n" p)) "t1" "u1"
           asked "s1" "v1" no_tables r.1 E).
Defined.

Definition stored_under (p : string) : Module_ :=
  {| key := "k/old"; masterSecret := "k"; kv := None;
     store := Some {| secrets := {[ "s1" := {| sTenantID := "t1"; sProjectID := ""; sAppID := ""; sName := "A"; sDescription := "";
                                                sScope := "global"; sCurrentVersion := 1 |} ]};
                      versions := {[ "v1" := value 1 p ]} |} |}.

Lemma resolve_stored p : @Resolve toy_cipher (stored_under p) "global" "A" = Ok p.
Proof.
  unfold Resolve, stored_under. cbn [store key]. change (buildScopeHierarchy "global") with ["global"]. cbn [resolve_scopes].
  change (GetSecretByScopeAndName _ "global" "A") with (@Ok secret_error _ ("s1", {| sTenantID := "t1"; sProjectID := ""; sAppID := "";
    sName := "A"; sDescription := ""; sScope := "global"; sCurrentVersion := 1 |})).
  unfold GetLatestSecretVersion. cbn [versions]. rewrite map_to_list_singleton. cbn [foldl snd value vSecretID].
  rewrite decide_True by done. cbn [ValueEnc value].
  by rewrite (@decrypt_encrypt toy_cipher toy_cipher_laws).
Qed.

Lemma resolve_stored_other p name v : @Resolve toy_cipher (stored_under p) "global" name = Ok v → v = p.
Proof.
  destruct (decide (name = "A")) as [->|Hne]; [rewrite resolve_stored; congruence|].
  unfold Resolve, stored_under. cbn [store key]. change (buildScopeHierarchy "global") with ["global"]. cbn [resolve_scopes].
  unfold GetSecretByScopeAndName. cbn [secrets]. rewrite map_to_list_singleton, filter_cons_False; [done|].
  cbn. intros [_ E]. congruence.
Qed.

Lemma resolve_all_terminates_witness :
  is_Some (@ResolveAll toy_cipher 3 (stored_under "hunter2") "global" (bytes "a=${SECRET:A} b=$HOME")).
Proof.
  apply (@resolve_all_terminates toy_cipher (stored_under "hunter2") "global" (bytes "a=${SECRET:A} b=$HOME")).
  intros name v ->%resolve_stored_other. reflexivity.
Defined.

Lemma self_reference_diverges_witness :
  @ResolveAll toy_cipher 1000 (stored_under (marker +:+ "A" +:+ "}")) "global" (bytes (marker +:+ "A" +:+ "}")) = None.
Proof.
  apply (@self_reference_diverges toy_cipher (stored_under (marker +:+ "A" +:+ "}")) "global" "A").
  - apply (bool_decide_unpack _). vm_compute. exact I.
  - apply resolve_stored.
Defined.

End Secrets.
