(* ===== verification/Totp.v ===== *)
(** * Totp: one-time codes ([internal/auth/totp.go], [totp_service.go])

    Generation and validation of time-based codes, and the service that enrols
    users, accepts codes once and consumes backup codes.  The vault that encrypts the
    stored secrets and the password hash of the backup codes are parameters. *)

From S2P Require Import Prelude GoStrings GoTime KVStore Sha256 GoCodec Users.
#[local] Open Scope Z_scope.

Module Totp.
Import KV Users.

(** ** Codes *)

Definition Period : Z := 30.

(** [fmt.Sprintf("%0*d", width, v)] of a number that is not negative. *)
Definition zero_padded (width : nat) (v : Z) : string :=
  str (replicate (width - slen (itoa v)) "0"%char ++ bytes (itoa v)).

(** The code of the time step [counter / period].
    src/internal/auth/totp.go:106-127 generateTOTP *)
Definition generateTOTP (secret : list Z) (counter period : Z) (digits : nat) : string :=
  let msg := Sha256.be_bytes 8 (u64 (counter `quot` period)) in
  let mac := GoCodec.hmac_sha1 secret msg in
  let offset := Z.to_nat (Z.land (default 0 (mac !! (length mac - 1)%nat)) 15) in
  let truncated := Z.land (Sha256.word (take 4 (drop offset mac))) (2 ^ 31 - 1) in
  let mod_ := Nat.iter digits (λ m, u32 (m * 10)) 1 in
  zero_padded digits (truncated mod mod_).

(** The stored text is decoded as it is, then with padding.
    src/internal/auth/totp.go:78-86 ValidateTOTPStep.secret *)
Definition decode_secret (secret : string) : option (list Z) :=
  let s := ToUpper (TrimSpace secret) in
  match GoCodec.DecodeString s with
  | Some b => Some b
  | None => GoCodec.DecodeString (s +:+ "==")
  end.

(** src/internal/auth/totp.go:93-102 ValidateTOTPStep.loop *)
Fixpoint try_offsets (secretBytes : list Z) (token : string) (now : Z) (offsets : list Z) : option Z :=
  match offsets with
  | [] => None
  | o :: offsets =>
      let t := i64 (now + o * Period) in
      if decide (token = generateTOTP secretBytes t Period (slen token)) then Some (t `quot` Period)
      else try_offsets secretBytes token now offsets
  end.

(** [now] in Unix seconds.
    src/internal/auth/totp.go:73-103 ValidateTOTPStep *)
Definition ValidateTOTPStep (now : Z) (token secret : string) : option Z :=
  if decide (slen token ≠ 6%nat ∧ slen token ≠ 8%nat) then None
  else b ← decode_secret secret; try_offsets b token now [-1; 0; 1].

(** src/internal/auth/totp.go:64-67 ValidateTOTP *)
Definition ValidateTOTP (now : Z) (token secret : string) : bool :=
  bool_decide (is_Some (ValidateTOTPStep now token secret)).

(** The secret of twenty random bytes.
    src/internal/auth/totp.go:34-59 GenerateTOTPSecret *)
Definition GenerateTOTPSecret (random : list Z) : string := str (GoCodec.encode_nopad random).

(** The plain text of backup codes from eight random bytes each.
    src/internal/auth/totp.go:156-182 GenerateBackupCodes *)
Definition GenerateBackupCodes (hash : string → nat → string) (random : list (list Z))
  : list string * list string :=
  let plain := (λ b, str (take 8 (GoCodec.encode_nopad b))) <$> random in
  (imap (λ i p, hash p i) plain, plain).

(** ** The service *)

(** A stored step is an [int64]. *)
#[global] Instance step_json : JSON Z := {|
  representable := in_i64;
  marshal := JNum;
  unmarshal := λ j d,
    match j with
    | JNum z => if decide (min_int64 ≤ z ≤ max_int64) then Some z else None
    | JNull => Some d
    | _ => None
    end |}.

#[global] Instance step_json_laws : JSONLaws Z.
Proof. split. intros z d Hz. cbn. by rewrite decide_True. Qed.

(** [replay] is [None] when no store is configured.
    src/internal/auth/totp_service.go:20-30 TOTPService *)
Record state := { db : Db; replay : option KVStore }.

Inductive totp_error :=
| ErrNoVault | ErrGetUser (e : db_error) | ErrAlreadyEnabled | ErrNotStarted | ErrInvalidCode
| ErrNotEnabled | ErrEncrypt | ErrStore (e : db_error).

Section Service.
Variable works : db_op → bool.
Variable fails : stmt → bool.
(** The vault, [None] when it is not configured: encryption and decryption, which may fail. *)
Variable vault : option ((string → option string) * (string → option string)).
(** [bcrypt.CompareHashAndPassword] succeeds for a hash and a code. *)
Variable bcrypt_ok : string → string → bool.

Definition with_db (s : state) (d : Db) : state := {| db := d; replay := replay s |}.

(** src/internal/auth/totp_service.go:61-97 TOTPService.Enroll *)
Definition Enroll (random : list Z) (s : state) (userID : string) : state * result totp_error string :=
  match vault with
  | None => (s, Err ErrNoVault)
  | Some (encrypt, _) =>
      match GetUser works (db s) userID with
      | Err e => (s, Err (ErrGetUser e))
      | Ok user =>
          if TOTPEnabled user then (s, Err ErrAlreadyEnabled)
          else
            let secret := GenerateTOTPSecret random in
            match encrypt secret with
            | None => (s, Err ErrEncrypt)
            | Some enc =>
                match UpdateTOTPEnabled works (db s) userID false enc with
                | Err e => (s, Err (ErrStore e))
                | Ok d => (with_db s d, Ok secret)
                end
            end
      end
  end.

(** The part of the validation that keeps a code from being used again.
    src/internal/auth/totp_service.go:163-178 TOTPService.validateStoredSecret.replay *)
Definition claim_step (now : Z) (s : state) (userID : string) (step : Z) : state * bool :=
  match replay s with
  | None => (s, true)
  | Some kv =>
      let replayed := match Get fails now kv "totp_last_step" userID 0 with
                      | Ok last => step <=? last
                      | Err _ => false
                      end in
      if replayed then (s, false)
      else ({| db := db s;
               replay := Some (Set_ fails now kv "totp_last_step" userID (Some (marshal step)) 0).1 |}, true)
  end.

(** src/internal/auth/totp_service.go:137-181 TOTPService.validateStoredSecret *)
Definition validateStoredSecret (now : Z) (s : state) (userID code : string) (requireEnabled : bool)
  : state * bool :=
  match vault with
  | None => (s, false)
  | Some (_, decrypt) =>
      match GetUser works (db s) userID with
      | Err _ => (s, false)
      | Ok user =>
          if decide (TOTPSecret user = "") then (s, false)
          else if requireEnabled && negb (TOTPEnabled user) then (s, false)
          else
            match decrypt (TOTPSecret user) ≫= ValidateTOTPStep now code with
            | None => (s, false)
            | Some step => if requireEnabled then claim_step now s userID step else (s, true)
            end
      end
  end.

(** src/internal/auth/totp_service.go:183-208 TOTPService.consumeBackupCode *)
Definition consumeBackupCode (s : state) (userID code : string) : state * bool :=
  if decide (code = "") then (s, false)
  else
    match GetUser works (db s) userID with
    | Err _ => (s, false)
    | Ok user =>
        if negb (TOTPEnabled user) then (s, false)
        else
          match list_find (λ h, bcrypt_ok h code = true) (TOTPBackupCodes user) with
          | None => (s, false)
          | Some (i, _) =>
              match UpdateTOTPBackupCodes works (db s) userID
                      (take i (TOTPBackupCodes user) ++ drop (S i) (TOTPBackupCodes user)) with
              | Err _ => (s, false)
              | Ok d => (with_db s d, true)
              end
          end
    end.

(** src/internal/auth/totp_service.go:130-135 TOTPService.ValidateContext *)
Definition ValidateContext (now : Z) (s : state) (userID code : string) : state * bool :=
  match validateStoredSecret now s userID code true with
  | (s', true) => (s', true)
  | (s', false) => consumeBackupCode s' userID code
  end.

(** src/internal/auth/totp_service.go:101-120 TOTPService.ConfirmEnrollment *)
Definition ConfirmEnrollment (now : Z) (s : state) (userID code : string) : state * result totp_error unit :=
  match GetUser works (db s) userID with
  | Err e => (s, Err (ErrGetUser e))
  | Ok user =>
      if TOTPEnabled user then (s, Err ErrAlreadyEnabled)
      else if decide (TOTPSecret user = "") then (s, Err ErrNotStarted)
      else
        match validateStoredSecret now s userID code false with
        | (s', false) => (s', Err ErrInvalidCode)
        | (s', true) =>
            match UpdateTOTPEnabled works (db s') userID true (TOTPSecret user) with
            | Err e => (s', Err (ErrStore e))
            | Ok d => (with_db s' d, Ok tt)
            end
        end
  end.

(** src/internal/auth/totp_service.go:211-234 TOTPService.Disable *)
Definition Disable (now : Z) (s : state) (userID code : string) : state * result totp_error unit :=
  match GetUser works (db s) userID with
  | Err e => (s, Err (ErrGetUser e))
  | Ok user =>
      if negb (TOTPEnabled user) then (s, Err ErrNotEnabled)
      else
        match ValidateContext now s userID code with
        | (s', false) => (s', Err ErrInvalidCode)
        | (s', true) =>
            match UpdateTOTPEnabled works (db s') userID false "" with
            | Err e => (s', Err (ErrStore e))
            | Ok d => (with_db s' d, Ok tt)
            end
        end
  end.

(** src/internal/auth/totp_service.go:252-275 TOTPService.GenerateBackupCodes *)
Definition ServiceBackupCodes (hash : string → nat → string) (random : list (list Z)) (s : state)
    (userID : string) : state * result totp_error (list string) :=
  match GetUser works (db s) userID with
  | Err e => (s, Err (ErrGetUser e))
  | Ok user =>
      if negb (TOTPEnabled user) then (s, Err ErrNotEnabled)
      else
        let '(hashes, plain) := GenerateBackupCodes hash random in
        match UpdateTOTPBackupCodes works (db s) userID hashes with
        | Err e => (s, Err (ErrStore e))
        | Ok d => (with_db s d, Ok plain)
        end
  end.

End Service.

(** The test vectors of RFC 6238 for HMAC-SHA1. *)
Definition rfc_secret : list Z := Sha256.byte_val <$> bytes "12345678901234567890".
Example totp_vectors :
  (λ t, generateTOTP rfc_secret t Period 8) <$> [59; 1111111109; 1111111111; 1234567890; 2000000000]
  = ["94287082"; "07081804"; "14050471"; "89005924"; "69279037"].
Proof. vm_compute. reflexivity. Qed.

(** ** What is accepted *)

(** The code of a time step. *)
Definition code_at (secret : list Z) (step : Z) (digits : nat) : string :=
  generateTOTP secret (step * Period) Period digits.

Lemma generate_step secret t digits : generateTOTP secret t Period digits = code_at secret (t `quot` Period) digits.
Proof. unfold code_at, generateTOTP. by rewrite Z.quot_mul by done. Qed.

Lemma decode_generated random : length random = 20%nat → Forall (λ x, 0 ≤ x < 256) random →
  decode_secret (GenerateTOTPSecret random) = Some random.
Proof.
  intros Hl Hr. unfold decode_secret, GenerateTOTPSecret. pose proof (GoCodec.encode_nopad_raised random) as Hp.
  rewrite TrimSpace_printable, ToUpper_raised, (GoCodec.decode_encode random 4); try done; rewrite bytes_str; [done|].
  eapply Forall_impl; [exact Hp|]. unfold raised, printable. lia.
Qed.

Lemma try_offsets_spec b tok now os :
  match try_offsets b tok now os with
  | Some s => ∃ o, o ∈ os ∧ s = i64 (now + o * Period) `quot` Period ∧ tok = code_at b s (slen tok)
  | None => ∀ o, o ∈ os → tok ≠ code_at b (i64 (now + o * Period) `quot` Period) (slen tok)
  end.
Proof.
  induction os as [|o os IH]; cbn [try_offsets]; [by intros o ?%elem_of_nil|].
  rewrite generate_step. case_decide as Hd; [exists o; split_and!; [left|done|done]|].
  destruct (try_offsets b tok now os) as [s|].
  - destruct IH as (o' & ? & ?). exists o'. split; [by right|done].
  - intros o' [->|?]%elem_of_cons; [done|by apply IH].
Qed.

(** The three steps around a time are its own and its neighbours. *)
Lemma window_steps now o : Period ≤ now ≤ 2 ^ 62 → o ∈ [-1; 0; 1] →
  i64 (now + o * Period) `quot` Period = now / Period + o.
Proof.
  intros Hn Ho. assert (-1 ≤ o ≤ 1) by (set_solver by lia). unfold Period in *. wrap_id.
  rewrite Z.quot_div_nonneg by lia. by rewrite Z.div_add by done.
Qed.

(** A one-time code is accepted exactly in its window: against the secret a user was
    enrolled with, a code of six or eight digits is accepted if and only if it is the
    code of the current time step or of one of its two neighbours, and the step that is
    reported is one whose code it is. *)
Theorem totp_accepts_exactly_window now tok random :
  length random = 20%nat → Forall (λ x, 0 ≤ x < 256) random → Period ≤ now ≤ 2 ^ 62 →
  slen tok = 6%nat ∨ slen tok = 8%nat →
  (∀ s, ValidateTOTPStep now tok (GenerateTOTPSecret random) = Some s →
     now / Period - 1 ≤ s ≤ now / Period + 1 ∧ tok = code_at random s (slen tok)) ∧
  (∀ s, now / Period - 1 ≤ s ≤ now / Period + 1 → tok = code_at random s (slen tok) →
     is_Some (ValidateTOTPStep now tok (GenerateTOTPSecret random))).
Proof.
  intros Hl Hr Hn Ht. unfold ValidateTOTPStep. rewrite decide_False by lia.
  rewrite decode_generated by done. cbn [mbind option_bind].
  pose proof (try_offsets_spec random tok now [-1; 0; 1]) as H. destruct (try_offsets _ _ _ _) as [s|].
  - destruct H as (o & Ho & -> & Hc). rewrite window_steps in * by done. assert (-1 ≤ o ≤ 1) by (set_solver by lia).
    split; [|done]. intros s [= <-]. split; [lia|done].
  - split; [done|]. intros s Hs Hc. exfalso. apply (H (s - now / Period)); [set_solver by lia|].
    rewrite window_steps by (done || set_solver by lia). by replace (now / Period + (s - now / Period)) with s by lia.
Qed.

Lemma totp_accepts_exactly_window_witness :
  is_Some (ValidateTOTPStep 1234567919 "89005924" (GenerateTOTPSecret rfc_secret)).
Proof.
  apply (totp_accepts_exactly_window 1234567919 "89005924" rfc_secret) with (s := 41152263).
  - reflexivity.
  - apply (bool_decide_unpack _). vm_compute. exact I.
  - vm_compute. split; congruence.
  - by right.
  - vm_compute. split; congruence.
  - vm_compute. reflexivity.
Defined.

(** ** Codes are used once *)

Section Runs.
Variable vault : option ((string → option string) * (string → option string)).
Variable bcrypt_ok : string → string → bool.

(** The step of a code that is valid for a user now, used or not. *)
Definition code_step (now : Z) (s : state) (u code : string) : option Z :=
  '(_, decrypt) ← vault;
  match GetUser all_work (db s) u with
  | Err _ => None
  | Ok user => if decide (TOTPSecret user = "") then None
               else if negb (TOTPEnabled user) then None
               else decrypt (TOTPSecret user) ≫= ValidateTOTPStep now code
  end.

Lemma validate_claims now s u code :
  validateStoredSecret all_work no_fault vault now s u code true =
    match code_step now s u code with
    | None => (s, false)
    | Some step => claim_step no_fault now s u step
    end.
Proof.
  unfold validateStoredSecret, code_step. destruct vault as [[encrypt decrypt]|]; [|done]. cbn [mbind option_bind].
  destruct (GetUser all_work (db s) u) as [user|]; [|done]. case_decide; [done|].
  destruct (TOTPEnabled user); cbn; [|done]. by destruct (decrypt (TOTPSecret user)) as [x|]; cbn; [destruct (ValidateTOTPStep now code x)|].
Qed.

(** Calls at their times, for their users; what was accepted as a time-based code. *)
Fixpoint totp_run (s : state) (calls : list (Z * string * string)) : list (string * Z) :=
  match calls with
  | [] => []
  | (now, u, code) :: calls =>
      let s' := (ValidateContext all_work no_fault vault bcrypt_ok now s u code).1 in
      match validateStoredSecret all_work no_fault vault now s u code true with
      | (_, true) => (u, default 0 (code_step now s u code)) :: totp_run s' calls
      | (_, false) => totp_run s' calls
      end
  end.

Definition steps_of (u : string) (l : list (string * Z)) : list Z := (filter (λ x, x.1 = u) l).*2.

(** The last step recorded for a user. *)
Definition last_step (s : state) (u : string) (last : option Z) : Prop :=
  ∃ kv, replay s = Some kv ∧
    match last with
    | None => True
    | Some z => rows kv !! ("totp_last_step", u) = Some {| data := Some (JNum z); expires_at := 0 |} ∧ in_i64 z
    end.

Lemma consume_replay s u code : replay (consumeBackupCode all_work bcrypt_ok s u code).1 = replay s.
Proof.
  unfold consumeBackupCode, UpdateTOTPBackupCodes, run. cbn [all_work]. repeat case_match; simplify_eq; done.
Qed.

Lemma quot_in_i64 z : in_i64 (i64 z `quot` Period).
Proof.
  pose proof (i64_range z) as H. unfold in_i64, min_int64, max_int64, Period in *.
  Z.quot_rem_to_equations. lia.
Qed.

Lemma code_step_i64 now s u code step : code_step now s u code = Some step → in_i64 step.
Proof.
  unfold code_step. destruct vault as [[encrypt decrypt]|]; [|done]. cbn [mbind option_bind].
  destruct (GetUser all_work (db s) u) as [user|]; [|done]. case_decide; [done|].
  destruct (negb _); [done|]. destruct (decrypt _) as [x|]; cbn [mbind option_bind]; [|done]. unfold ValidateTOTPStep. case_decide; [done|].
  destruct (decode_secret x) as [b|]; cbn [mbind option_bind]; [|done]. intros E.
  pose proof (try_offsets_spec b code now [-1; 0; 1]) as Ht. rewrite E in Ht. destruct Ht as (o & _ & -> & _).
  apply quot_in_i64.
Qed.

Lemma set_forever now kv b k d :
  rows (Set_ no_fault now kv b k (Some d) 0).1 = <[(b, k) := {| data := Some d; expires_at := 0 |}]> (rows kv).
Proof. reflexivity. Qed.

Lemma claim_step_spec now s u last step :
  last_step s u last → in_i64 step →
  match claim_step no_fault now s u step with
  | (s', true) => (∀ z, last = Some z → z < step) ∧ db s' = db s ∧ last_step s' u (Some step) ∧
                  (∀ v l, v ≠ u → last_step s v l → last_step s' v l)
  | (s', false) => s' = s
  end.
Proof.
  intros (kv & Hkv & Hl) Hs. unfold claim_step. rewrite Hkv.
  assert (∀ v l, v ≠ u → last_step s v l → last_step {| db := db s; replay := Some
    (Set_ no_fault now kv "totp_last_step" u (Some (marshal step)) 0).1 |} v l) as Hother.
  { intros v l Hv (kv' & Hkv' & Hl'). simplify_eq. eexists. split; [done|]. destruct l as [z|]; [|done].
    by rewrite set_forever, lookup_insert_ne by congruence. }
  assert (last_step {| db := db s; replay := Some
    (Set_ no_fault now kv "totp_last_step" u (Some (marshal step)) 0).1 |} u (Some step)) as Hnew.
  { eexists. split; [done|]. split; [|done]. by rewrite set_forever, lookup_insert_eq. }
  destruct last as [z|].
  - destruct Hl as [Hrow Hz]. unfold Get, sql. cbn [no_fault]. rewrite Hrow. cbn [data].
    unfold expired. cbn [expires_at]. change (0 <? 0) with false. cbn [andb mbind option_bind unmarshal step_json].
    rewrite decide_True by done. cbv zeta beta iota. destruct (step <=? z) eqn:E; [done|]. apply Z.leb_gt in E.
    repeat split; [by intros ? [= <-]|done|done].
  - cbv zeta. match goal with |- context [if ?b then _ else _] => destruct b end; [done|]. repeat split; done.
Qed.

Lemma validate_context_state now s u code :
  replay (ValidateContext all_work no_fault vault bcrypt_ok now s u code).1 =
  replay (validateStoredSecret all_work no_fault vault now s u code true).1.
Proof.
  unfold ValidateContext. destruct (validateStoredSecret _ _ _ _ _ _ _ _) as [s' []]; [done|]. apply consume_replay.
Qed.

Lemma last_step_replay s s' u l : replay s' = replay s → last_step s u l → last_step s' u l.
Proof. intros E (kv & Hkv & H). exists kv. by rewrite E. Qed.

Lemma totp_run_steps calls : ∀ s u last, last_step s u last →
  StronglySorted Z.lt (steps_of u (totp_run s calls)) ∧
  ∀ z st, last = Some z → st ∈ steps_of u (totp_run s calls) → z < st.
Proof.
  induction calls as [|[[now v] code] calls IH]; intros s u last Hl.
  { split; [constructor|]. intros z st _ H. by apply elem_of_nil in H. }
  cbn [totp_run]. pose proof (validate_context_state now s v code) as Hst.
  set (s2 := (ValidateContext all_work no_fault vault bcrypt_ok now s v code).1) in *.
  rewrite validate_claims in *. destruct (code_step now s v code) as [step|] eqn:Ec.
  2:{ apply IH. by eapply last_step_replay. }
  assert (last_step s v None) as Hvn by (destruct Hl as (kv & ? & _); by exists kv).
  destruct (decide (v = u)) as [->|Hne].
  - pose proof (claim_step_spec now s u last step Hl (code_step_i64 _ _ _ _ _ Ec)) as H.
    destruct (claim_step no_fault now s u step) as [s' []].
    + destruct H as (Hlt & _ & Hnew & _). cbn [default from_option id].
      destruct (IH s2 u (Some step)) as [Hss Hgt]; [by eapply last_step_replay|].
      unfold steps_of. rewrite filter_cons_True by done. cbn [fmap list_fmap snd].
      change (list_fmap _ _ snd (filter (λ x, x.1 = u) (totp_run s2 calls))) with (steps_of u (totp_run s2 calls)).
      assert (∀ x, x ∈ steps_of u (totp_run s2 calls) → step < x) as Hall by (intros x Hx; by eapply Hgt).
      split; [constructor; [done|by apply Forall_forall]|].
      intros z st Hz [->|Hin]%elem_of_cons; [by apply Hlt|]. specialize (Hlt z Hz). specialize (Hall st Hin). lia.
    + subst s'. apply IH. by eapply last_step_replay.
  - pose proof (claim_step_spec now s v None step Hvn (code_step_i64 _ _ _ _ _ Ec)) as H.
    destruct (claim_step no_fault now s v step) as [s' []].
    + destruct H as (_ & _ & _ & Ho). unfold steps_of. rewrite filter_cons_False by (cbn; congruence).
      apply IH. eapply last_step_replay; [exact Hst|]. by apply Ho.
    + subst s'. apply IH. by eapply last_step_replay.
Qed.

End Runs.

(** A one-time code is used once: whatever codes are presented for whatever users, in
    whatever order and at whatever times, the time steps accepted for one user strictly
    increase, so no code is ever accepted again for the step it was accepted for. *)
Theorem totp_single_use vault bcrypt_ok s calls u :
  is_Some (replay s) → StronglySorted Z.lt (steps_of u (totp_run vault bcrypt_ok s calls)).
Proof. intros [kv Hkv]. apply (totp_run_steps _ _ _ _ _ None). by exists kv. Qed.

(** A user with an enabled code, and a code presented twice. *)
Definition plain_vault : option ((string → option string) * (string → option string)) := Some (Some, Some).
Definition enrolled : state :=
  {| db := with_users empty_db {[ "u1" :=
       {| uID := "u1"; uEmail := "a@b.test"; PasswordHash := "h"; uName := ""; AvatarURL := ""; uStatus := "active";
          TOTPEnabled := true; TOTPSecret := GenerateTOTPSecret rfc_secret; TOTPBackupCodes := [] |} ]};
     replay := Some empty_store |}.
Definition replayed : list (Z * string * string) :=
  [(1234567890, "u1", "89005924"); (1234567891, "u1", "89005924"); (2000000000, "u1", "69279037")].

Lemma totp_single_use_witness :
  steps_of "u1" (totp_run plain_vault (λ _ _, false) enrolled replayed) = [41152263; 66666666] ∧
  StronglySorted Z.lt (steps_of "u1" (totp_run plain_vault (λ _ _, false) enrolled replayed)).
Proof.
  split; [vm_compute; reflexivity|]. apply (totp_single_use plain_vault (λ _ _, false) enrolled replayed "u1").
  by eexists.
Defined.

(** A backup code is consumed: one hash it matches is removed and the others stay. *)
Theorem backup_code_consumed bcrypt_ok s s' u code user :
  users (db s) !! u = Some user → consumeBackupCode all_work bcrypt_ok s u code = (s', true) →
  ∃ l1 h l2, TOTPBackupCodes user = l1 ++ h :: l2 ∧ bcrypt_ok h code = true ∧
    TOTPBackupCodes <$> users (db s') !! u = Some (l1 ++ l2).
Proof.
  intros Hu. unfold consumeBackupCode, GetUser, run. cbn [all_work]. rewrite Hu. do 2 (case_match; [done|]).
  destruct (list_find _ _) as [[i h]|] eqn:E; [|done]. unfold UpdateTOTPBackupCodes, run. cbn [all_work].
  intros [= <-]. apply list_find_Some in E as (Hi & Hb & _).
  exists (take i (TOTPBackupCodes user)), h, (drop (S i) (TOTPBackupCodes user)). split_and!; [|done|].
  - by rewrite take_drop_middle.
  - cbn [db with_db update_user with_users users]. by rewrite lookup_alter_eq, Hu.
Qed.

(** Without a vault the second factor cannot be set up: enrolment and its confirmation always fail and change
    nothing, and no time-based code is accepted. *)
Theorem no_vault_no_totp works fails bcrypt_ok random now s u code :
  Enroll works None random s u = (s, Err ErrNoVault) ∧
  (∃ e, ConfirmEnrollment works fails None now s u code = (s, Err e)) ∧
  validateStoredSecret works fails None now s u code true = (s, false) ∧
  ValidateContext works fails None bcrypt_ok now s u code = consumeBackupCode works bcrypt_ok s u code.
Proof.
  split_and!; [done| |done|done]. unfold ConfirmEnrollment. destruct (GetUser works (db s) u) as [user|]; [|by eexists].
  destruct (TOTPEnabled user); [by eexists|]. case_decide; by eexists.
Qed.

End Totp.
