(* ===== verification/Login.v ===== *)
(** * Login: sign-in, registration, sessions ([internal/api/handlers/auth.go], [sessions.go],
    [invites.go])

    The handlers act on three stores: the account tables, the key-value store (lockout
    counters, tracked sessions, revoked tokens, accepted TOTP steps) and the token
    service's keys.  A handler reads the clock once; what it draws at random, and the
    decoded body, are arguments ([None] for a body that does not decode).  Each call of
    the key-value store may fail on its own, which [fails] decides by the call. *)

From Stdlib Require Import Sorting.Sorted.
From S2P Require Import Prelude GoStrings GoTime Http KVStore RateLimit Sha256 Policy Jwt Access Users Totp.
#[local] Open Scope Z_scope.

Module Login.
Import Http GoTime KV Jwt Users.

(** ** Requests and responses *)

(** What a handler is given besides the body: the clock, the request, whether it came
    over TLS, and the random identifiers it draws. *)
Record call := {
  now : instant; http : Request; tls : bool;
  id_access : string; id_refresh : string; csrf_token : string }.

Definition secs (c : call) : Z := time_unix (now c).

Record Cookie := {
  cName : string; cValue : string; cPath : string; cMaxAge : Z; cHttpOnly : bool; cSecure : bool }.

Record response := {
  status : Z; message : string; headers : list (string * string); cookies : list Cookie;
  pair : option TokenPair }.

Definition reply (st : Z) (msg : string) (ck : list Cookie) : response :=
  {| status := st; message := msg; headers := []; cookies := ck; pair := None |}.

(** src/internal/api/handlers/auth.go:49-60 isSecureRequest *)
Definition isSecureRequest (c : call) : bool :=
  tls c || bool_decide (HeaderGet (http c) "X-Forwarded-Proto" = "https").

(** src/internal/api/handlers/auth.go:63-86 setTokenCookies *)
Definition setTokenCookies (c : call) (t : TokenPair) : list Cookie :=
  [{| cName := "dm_access"; cValue := AccessToken t; cPath := "/"; cMaxAge := ExpiresIn t;
      cHttpOnly := true; cSecure := isSecureRequest c |};
   {| cName := "dm_refresh"; cValue := RefreshToken t; cPath := "/"; cMaxAge := RefreshTokenTTLSeconds;
      cHttpOnly := true; cSecure := isSecureRequest c |}].

(** src/internal/api/handlers/auth.go:89-113 clearTokenCookies *)
Definition clearTokenCookies (c : call) : list Cookie :=
  p ← ["/"; "/api"; "/api/v1/auth"];
  (λ n, {| cName := n; cValue := ""; cPath := p; cMaxAge := -1; cHttpOnly := true;
           cSecure := isSecureRequest c |}) <$> ["dm_access"; "dm_refresh"].

(** src/internal/api/middleware/csrf.go:86-102 SetCSRFCookie *)
Definition SetCSRFCookie (c : call) : Cookie :=
  {| cName := if isSecureRequest c then "__Host-dm_csrf" else "dm_csrf"; cValue := csrf_token c;
     cPath := "/"; cMaxAge := 86400; cHttpOnly := false; cSecure := isSecureRequest c |}.

(** ** State *)

(** The handlers' stores; [kv] is [None] when the program runs without one. *)
Record world := { db : Db; kv : option KVStore; jwt : JWTService }.

Definition with_kv (w : world) (k : KVStore) : world := {| db := db w; kv := Some k; jwt := jwt w |}.
Definition with_jwt (w : world) (j : JWTService) : world := {| db := db w; kv := kv w; jwt := j |}.
Definition with_db (w : world) (d : Db) : world := {| db := d; kv := kv w; jwt := jwt w |}.

(** The calls of the key-value store, to say which of them fail. *)
Inductive kv_call :=
| LockRead | CountRead | CountWrite | TotpCall | RevokedRead | RevokedWrite (jti : string)
| AccessRevoke | SessionWrite | SessionList | SessionRead (key : string) | SessionDelete (key : string).

(** src/internal/api/handlers/auth.go:715-718 accountRateLimitEntry *)
Record accountRateLimitEntry := { FailedCount : Z; LockedUntil : Z }.

#[global] Instance account_json : JSON accountRateLimitEntry := {|
  representable := λ e, in_i64 (FailedCount e) ∧ in_i64 (LockedUntil e);
  marshal := λ e, JObj [("f", JNum (FailedCount e)); ("l", JNum (LockedUntil e))];
  unmarshal := λ d e,
    match d with
    | JObj fs => f ← read_int "f" fs (FailedCount e); l ← read_int "l" fs (LockedUntil e);
                 Some {| FailedCount := f; LockedUntil := l |}
    | JNull => Some e
    | _ => None
    end |}.

#[global] Instance account_json_laws : JSONLaws accountRateLimitEntry.
Proof.
  split. intros [f l] d [Hf Hl]. unfold in_i64 in *. cbn in Hf, Hl.
  change (unmarshal (marshal {| FailedCount := f; LockedUntil := l |}) d) with
    (f' ← (if decide (min_int64 ≤ f ≤ max_int64) then Some f else None);
     l' ← (if decide (min_int64 ≤ l ≤ max_int64) then Some l else None);
     Some {| FailedCount := f'; LockedUntil := l' |}).
  by rewrite !decide_True by done.
Qed.

#[global] Instance bool_json : JSON bool := {|
  representable := λ _, True;
  marshal := JBool;
  unmarshal := λ d b, match d with JBool b' => Some b' | JNull => Some b | _ => None end |}.

#[global] Instance bool_json_laws : JSONLaws bool.
Proof. by split. Qed.

(** src/internal/api/handlers/sessions.go:190-196 SessionTrackingInfo *)
Record SessionTrackingInfo := {
  sUserID : string; sJTI : string; sIP : string; sUserAgent : string; sCreatedAt : instant }.

#[global] Instance session_json : JSON SessionTrackingInfo := {|
  representable := λ _, True;
  marshal := λ s, JObj [("user_id", JStr (sUserID s)); ("jti", JStr (sJTI s)); ("ip", JStr (sIP s));
                        ("user_agent", JStr (sUserAgent s)); ("created_at", JTime (sCreatedAt s))];
  unmarshal := λ d s,
    match d with
    | JObj fs =>
        u ← read_str "user_id" fs (sUserID s); j ← read_str "jti" fs (sJTI s);
        i ← read_str "ip" fs (sIP s); a ← read_str "user_agent" fs (sUserAgent s);
        t ← read_time "created_at" fs (sCreatedAt s);
        Some {| sUserID := u; sJTI := j; sIP := i; sUserAgent := a; sCreatedAt := t |}
    | JNull => Some s
    | _ => None
    end |}.

#[global] Instance session_json_laws : JSONLaws SessionTrackingInfo.
Proof. split. by intros [?????] [?????] _. Qed.

Definition no_session : SessionTrackingInfo :=
  {| sUserID := ""; sJTI := ""; sIP := ""; sUserAgent := ""; sCreatedAt := zero_time |}.

(** The two fields the session limit reads.
    src/internal/api/handlers/auth.go:644-647 AuthHandler.enforceSessionLimit.session *)
Record sessionStub := { stubJTI : string; stubCreatedAt : instant }.

#[global] Instance stub_json : JSON sessionStub := {|
  representable := λ _, True;
  marshal := λ s, JObj [("jti", JStr (stubJTI s)); ("created_at", JTime (stubCreatedAt s))];
  unmarshal := λ d s,
    match d with
    | JObj fs => j ← read_str "jti" fs (stubJTI s); t ← read_time "created_at" fs (stubCreatedAt s);
                 Some {| stubJTI := j; stubCreatedAt := t |}
    | JNull => Some s
    | _ => None
    end |}.

Definition no_stub : sessionStub := {| stubJTI := ""; stubCreatedAt := zero_time |}.

Definition no_failures : accountRateLimitEntry := {| FailedCount := 0; LockedUntil := 0 |}.

Section Handlers.
Context `{JWTLib}.
Variable works : db_op → bool.
Variable fk : bool.
Variable fails : kv_call → stmt → bool.
(** The TOTP service's vault, [None] when it is not configured, and whether there is
    a TOTP service at all. *)
Variable vault : option ((string → option string) * (string → option string)).
Variable totp_service : bool.
(** [bcrypt.CompareHashAndPassword] and [bcrypt.GenerateFromPassword]. *)
Variable bcrypt_ok : string → string → bool.
Variable HashPassword : string → option string.

(** ** Lockout of an account *)

Definition maxFailedAttempts : Z := 5.
Definition accountLockoutWindow : duration := 15 * Minute.

(** src/internal/api/handlers/auth.go:720-743 AuthHandler.checkPerAccountRateLimit *)
Definition checkPerAccountRateLimit (c : call) (w : world) (email : string) : option Z :=
  match kv w with
  | None => None
  | Some k =>
      match Get (fails LockRead) (secs c) k "account_rl" email no_failures with
      | Err _ => None
      | Ok e => if LockedUntil e =? 0 then None
                else if secs c <? LockedUntil e then Some (LockedUntil e) else None
      end
  end.

(** src/internal/api/handlers/auth.go:745-780 AuthHandler.incrementPerAccountRateLimit *)
Definition incrementPerAccountRateLimit (c : call) (w : world) (email : string) : world :=
  match kv w with
  | None => w
  | Some k =>
      match
        match Get (fails CountRead) (secs c) k "account_rl" email no_failures with
        | Ok e => Some e
        | Err ErrKVNotFound => Some no_failures
        | Err _ => None
        end
      with
      | None => w
      | Some e =>
          if 0 <? LockedUntil e then w
          else
            let count := i64 (FailedCount e + 1) in
            let resetAt := i64 (secs c + seconds_int accountLockoutWindow) in
            let e' := {| FailedCount := count;
                         LockedUntil := if maxFailedAttempts <=? count then resetAt else LockedUntil e |} in
            with_kv w (Set_ (fails CountWrite) (secs c) k "account_rl" email (Some (marshal e'))
                         (seconds_int accountLockoutWindow)).1
      end
  end.

(** The response to a locked account; [None] lets the request go on.
    src/internal/api/handlers/auth.go:784-798 AuthHandler.loginRateLimitCheck *)
Definition loginRateLimitCheck (c : call) (w : world) (email : string) (ck : list Cookie) : option response :=
  match checkPerAccountRateLimit c w email with
  | None => None
  | Some until =>
      Some {| status := 429; message := "account temporarily locked due to too many failed attempts";
              headers := [("Retry-After", itoa (i64 (until - secs c)));
                          ("X-RateLimit-Limit", itoa maxFailedAttempts); ("X-RateLimit-Remaining", "0")];
              cookies := ck; pair := None |}
  end.

(** ** Sessions *)

(** src/internal/api/handlers/auth.go:632-636 AuthHandler.enforceSessionLimit.sessionInfo *)
Record sessionInfo := { skey : string; sjti : string; createdAt : instant }.

(** The sessions of a user among the listed keys; an entry that does not read back is
    left out.
    src/internal/api/handlers/auth.go:637-655 AuthHandler.enforceSessionLimit.collect *)
Definition collect (c : call) (k : KVStore) (userID : string) (keys : list string) : list sessionInfo :=
  omap (λ key,
    if HasPrefix key (userID +:+ ":") then
      match Get (fails (SessionRead key)) (secs c) k "user_sessions" key no_stub with
      | Ok s => Some {| skey := key; sjti := stubJTI s; createdAt := stubCreatedAt s |}
      | Err _ => None
      end
    else None) keys.

(** One round of the inner loop: [x] is the element in front, [l] the ones behind it.
    src/internal/api/handlers/auth.go:659-663 AuthHandler.enforceSessionLimit.inner *)
Fixpoint pass (x : sessionInfo) (l : list sessionInfo) : sessionInfo * list sessionInfo :=
  match l with
  | [] => (x, [])
  | y :: l =>
      if createdAt y <? createdAt x
      then let '(m, r) := pass y l in (m, x :: r)
      else let '(m, r) := pass x l in (m, y :: r)
  end.

(** The exchange sort, [n] rounds at most.
    src/internal/api/handlers/auth.go:658-664 AuthHandler.enforceSessionLimit.sort *)
Fixpoint exchange_sort (n : nat) (l : list sessionInfo) : list sessionInfo :=
  match n, l with
  | S n, x :: l => let '(m, r) := pass x l in m :: exchange_sort n r
  | _, _ => l
  end.

(** Revokes one tracked session and forgets it, each write on its own. *)
Definition drop_session (c : call) (k : KVStore) (jti key : string) : KVStore :=
  let k1 := (Set_ (fails (RevokedWrite jti)) (secs c) k "revoked_tokens" jti (Some (marshal true))
               RefreshTokenTTLSeconds).1 in
  (Delete (fails (SessionDelete key)) k1 "user_sessions" key).1.

Definition maxConcurrentSessions : nat := 10.

(** src/internal/api/handlers/auth.go:621-680 AuthHandler.enforceSessionLimit *)
Definition enforceSessionLimit (c : call) (w : world) (userID : string) : world :=
  match kv w with
  | None => w
  | Some k =>
      match List_ (fails SessionList) (secs c) k "user_sessions" with
      | Err _ => w
      | Ok keys =>
          let found := collect c k userID keys in
          let sessions := exchange_sort (length found) found in
          with_kv w (foldl (λ k s, drop_session c k (sjti s) (skey s)) k
                       (take (length sessions - maxConcurrentSessions) sessions))
      end
  end.

(** src/internal/api/handlers/auth.go:586-618 AuthHandler.trackSession *)
Definition trackSession (c : call) (w : world) (userID refreshToken : string) : world :=
  match kv w with
  | None => w
  | Some k =>
      let '(j, r) := ValidateRefreshToken (now c) (jwt w) refreshToken in
      let w := with_jwt w j in
      match r with
      | Err _ => w
      | Ok cl =>
          let s := {| sUserID := userID; sJTI := rJTI cl; sIP := RateLimit.safeClientIP (http c) false;
                      sUserAgent := HeaderGet (http c) "User-Agent"; sCreatedAt := now c |} in
          match Set_ (fails SessionWrite) (secs c) k "user_sessions" (userID +:+ ":" +:+ rJTI cl)
                  (Some (marshal s)) RefreshTokenTTLSeconds with
          | (_, Err _) => w
          | (k', Ok _) => enforceSessionLimit c (with_kv w k') userID
          end
      end
  end.

(** ** Signing in *)

(** src/internal/api/handlers/auth.go:171-175 loginRequest *)
Record loginRequest := { lEmail : string; lPassword : string; lTOTPCode : string }.

(** src/internal/api/handlers/auth.go:163-169 AuthHandler.validateTOTP *)
Definition validateTOTP (c : call) (w : world) (userID code : string) : world * bool :=
  if totp_service then
    let '(s, ok) := Totp.ValidateContext works (fails TotpCall) vault bcrypt_ok (secs c)
                      {| Totp.db := db w; Totp.replay := kv w |} userID code in
    ({| db := Totp.db s; kv := Totp.replay s; jwt := jwt w |}, ok)
  else (w, false).

(** New tokens for a user, and the response that carries them. *)
Definition issue (c : call) (w : world) (userID tenantID roleID mail : string) : TokenPair :=
  GenerateTokenPair (jwt w) (now c) (id_access c) (id_refresh c) userID tenantID roleID mail.

Definition signed_in (c : call) (st : Z) (ck : list Cookie) (t : TokenPair) : response :=
  {| status := st; message := ""; headers := []; cookies := ck ++ setTokenCookies c t ++ [SetCSRFCookie c];
     pair := Some t |}.

(** The second factor: the world afterwards and, when the request ends here, its response.
    src/internal/api/handlers/auth.go:239-253 AuthHandler.Login.totp *)
Definition second_factor (c : call) (w : world) (user : User) (req : loginRequest) (ck : list Cookie)
  : world * option response :=
  if negb (TOTPEnabled user) then (w, None)
  else if decide (lTOTPCode req = "") then
    (w, Some {| status := 401; message := "TOTP code required"; headers := [("X-TOTP-Required", "true")];
                cookies := ck; pair := None |})
  else
    match validateTOTP c w (uID user) (lTOTPCode req) with
    | (w, true) => (w, None)
    | (w, false) =>
        (incrementPerAccountRateLimit c w (lEmail req), Some (reply 401 "invalid TOTP code" ck))
    end.

(** The last-login column is not kept; a failure to write it is only logged.
    src/internal/api/handlers/auth.go:189-281 AuthHandler.Login *)
Definition Login (c : call) (w : world) (body : option loginRequest) : world * response :=
  let ck := clearTokenCookies c in
  match body with
  | None => (w, reply 400 "invalid request body" ck)
  | Some req =>
      if decide (lEmail req = "" ∨ lPassword req = "") then (w, reply 400 "email and password required" ck)
      else if (256 <? slen (lPassword req))%nat then (w, reply 400 "password must not exceed 256 characters" ck)
      else
        match GetUserByEmail works (db w) (lEmail req) with
        | Err ErrNotFound => (w, reply 401 "invalid credentials" ck)
        | Err _ => (w, reply 500 "internal error" ck)
        | Ok user =>
            match loginRateLimitCheck c w (lEmail req) ck with
            | Some r => (w, r)
            | None =>
                if negb (bcrypt_ok (PasswordHash user) (lPassword req)) then
                  (incrementPerAccountRateLimit c w (lEmail req), reply 401 "invalid credentials" ck)
                else
                  match second_factor c w user req ck with
                  | (w, Some r) => (w, r)
                  | (w, None) =>
                      match GetUserMembership works (db w) (uID user) with
                      | Err _ => (w, reply 500 "internal error" ck)
                      | Ok m =>
                          let t := issue c w (uID user) (mTenantID m) (mRoleID m) (uEmail user) in
                          (trackSession c w (uID user) (RefreshToken t), signed_in c 200 ck t)
                      end
                  end
            end
        end
  end.

(** ** Ending sessions *)

(** src/internal/api/handlers/auth.go:562-582 AuthHandler.revokeAccessTokenFromRequest *)
Definition revokeAccessTokenFromRequest (c : call) (w : world) : world :=
  match kv w with
  | None => w
  | Some k =>
      let hdr := HeaderGet (http c) "Authorization" in
      let tok := if HasPrefix hdr "Bearer " then TrimPrefix hdr "Bearer " else CookieGet (http c) "dm_access" in
      if decide (tok = "") then w
      else
        let '(j, r) := ValidateAccessToken (now c) (jwt w) tok in
        let w := with_jwt w j in
        match r with
        | Err _ => w
        | Ok p =>
            match exp p with
            | None => w
            | Some e =>
                if decide (jti p = "") then w
                else with_kv w (RevokeAccessToken (fails AccessRevoke) (now c) k (jti p) (uid p) e).1
            end
        end
  end.

(** Marks a refresh token as revoked for as long as any token lives. *)
Definition revoke_refresh (c : call) (w : world) (jti : string) : world :=
  match kv w with
  | Some k =>
      if decide (jti = "") then w
      else with_kv w (Set_ (fails (RevokedWrite jti)) (secs c) k "revoked_tokens" jti (Some (marshal true))
                        RefreshTokenTTLSeconds).1
  | None => w
  end.

Definition is_revoked (c : call) (w : world) (jti : string) : bool :=
  match kv w with
  | Some k => negb (bool_decide (jti = "")) &&
      match Get (fails RevokedRead) (secs c) k "revoked_tokens" jti false with Ok b => b | Err _ => false end
  | None => false
  end.

(** The token of the body, else that of the cookie. *)
Definition refresh_token (c : call) (token : string) : string :=
  if decide (token = "") then CookieGet (http c) "dm_refresh" else token.

(** [body] is the token the body carries, empty when it has none.
    src/internal/api/handlers/auth.go:427-502 AuthHandler.Refresh *)
Definition Refresh (c : call) (w : world) (body : option string) : world * response :=
  match body with
  | None => (w, reply 400 "invalid request body" [])
  | Some token =>
      let tok := refresh_token c token in
      if decide (tok = "") then (w, reply 400 "refresh_token required" [])
      else
        let '(j, r) := ValidateRefreshToken (now c) (jwt w) tok in
        let w := with_jwt w j in
        match r with
        | Err _ => (w, reply 401 "invalid refresh token" [])
        | Ok cl =>
            if is_revoked c w (rJTI cl) then (w, reply 401 "token has been revoked" [])
            else
              match GetUser works (db w) (rUserID cl) with
              | Err _ => (w, reply 401 "user not found" [])
              | Ok user =>
                  match GetUserMembership works (db w) (uID user) with
                  | Err _ => (w, reply 500 "internal error" [])
                  | Ok m =>
                      let w := revokeAccessTokenFromRequest c (revoke_refresh c w (rJTI cl)) in
                      let t := issue c w (uID user) (mTenantID m) (mRoleID m) (uEmail user) in
                      (trackSession c w (uID user) (RefreshToken t), signed_in c 200 [] t)
                  end
              end
        end
  end.

(** src/internal/api/handlers/auth.go:509-556 AuthHandler.Logout *)
Definition Logout (c : call) (w : world) (body : option string) : world * response :=
  match body with
  | None => (w, reply 400 "invalid request body" [])
  | Some token =>
      let tok := refresh_token c token in
      let w := revokeAccessTokenFromRequest c w in
      let done := reply 200 "" (clearTokenCookies c) in
      if decide (tok = "") then (w, done)
      else
        let '(j, r) := ValidateRefreshToken (now c) (jwt w) tok in
        let w := with_jwt w j in
        match r with
        | Err _ => (w, done)
        | Ok cl => (revoke_refresh c w (rJTI cl), done)
        end
  end.

(** ** Registration *)

(** src/internal/api/handlers/auth.go:177-182 registerRequest *)
Record registerRequest := { rgEmail : string; rgPassword : string; rgName : string; rgInviteCode : string }.

(** What registration draws at random. *)
Record drawn := {
  d_user : string; d_member : string; d_tenant : string; d_project : string;
  d_slug : string; d_suffix : string }.

(** The letters, digits and dashes of a name.
    src/internal/api/handlers/auth.go:684-693 generateSlug.loop *)
Definition slug_bytes (name : list ascii) : list ascii :=
  omap (λ c, let n := Ascii.nat_of_ascii c in
    if decide ((97 ≤ n ≤ 122)%nat ∨ (48 ≤ n ≤ 57)%nat ∨ n = 45%nat) then Some c
    else if decide (65 ≤ n ≤ 90)%nat then Some (byte (n + 32))
    else if decide (n = 32%nat ∨ n = 95%nat) then Some (byte 45)
    else None) name.

(** src/internal/api/handlers/auth.go:683-698 generateSlug *)
Definition generateSlug (fresh name : string) : string :=
  match slug_bytes (bytes name) with [] => str (take 8 (bytes fresh)) | l => str l end.

(** src/internal/core/id_short.go:5-10 ShortID *)
Definition ShortID (id : string) (max : Z) : string :=
  if decide (max ≤ 0 ∨ Z.of_nat (slen id) ≤ max) then id else str (take (Z.to_nat max) (bytes id)).

(** src/internal/api/handlers/auth.go:700-706 registrationTenantSlug *)
Definition registrationTenantSlug (dr : drawn) (name : string) : string :=
  let base := generateSlug (d_slug dr) name in
  let base := if (80 <? slen base)%nat then str (take 80 (bytes base)) else base in
  base +:+ "-" +:+ ShortID (d_suffix dr) 8.

(** src/internal/api/handlers/invites.go:161-170 hashToken *)
Definition hashToken (token : string) : string := Sha256.sha256_hex token.

(** [mail.ParseAddress] accepts an address; [strings.EqualFold]. *)
Variable ParseAddress : string → bool.
Variable EqualFold : string → string → bool.

(** src/internal/api/handlers/auth.go:399-424 AuthHandler.redeemInvite *)
Definition redeemInvite (c : call) (w : world) (code email : string) : world * result string Invitation :=
  match GetInviteByTokenHash works (db w) (hashToken code) with
  | Err ErrNotFound => (w, Err "invalid or expired invite code")
  | Err _ => (w, Err "could not verify invite code")
  | Ok (id, inv) =>
      if decide (iStatus inv ≠ "pending") then (w, Err "invite code has already been used")
      else if iExpiresAt inv <? now c then (w, Err "invite code has expired")
      else if negb (bool_decide (iEmail inv = "")) && negb (EqualFold (iEmail inv) email)
      then (w, Err "invite code does not match this email")
      else
        match AcceptInvite works (now c) (db w) id with
        | Err _ => (w, Err "invite code has already been used")
        | Ok d => (with_db w d, Ok inv)
        end
  end.

(** src/internal/api/handlers/auth.go:302-326 AuthHandler.Register.fields *)
Definition register_fields (req : registerRequest) : list (string * string) :=
  (if decide (rgEmail req = "") then [("email", "email is required")]
   else if (254 <? slen (rgEmail req))%nat then [("email", "must not exceed 254 characters")]
   else if negb (ParseAddress (rgEmail req)) then [("email", "invalid email format")] else []) ++
  (if decide (rgPassword req = "") then [("password", "password is required")]
   else if (256 <? slen (rgPassword req))%nat then [("password", "must not exceed 256 characters")]
   else match Password.ValidatePasswordStrength (rgPassword req) 0 with
        | Ok _ => []
        | Err _ => [("password", "too weak")]
        end) ++
  (if (100 <? slen (rgName req))%nat then [("name", "must not exceed 100 characters")] else []).

(** The tenant and role the new account joins, or the response that ends the request.
    src/internal/api/handlers/auth.go:346-367 AuthHandler.Register.tenant *)
Definition join_tenant (c : call) (dr : drawn) (mode name : string) (w : world) (req : registerRequest)
  : world * result response (string * string) :=
  if decide (mode = "open" ∨ mode = "approval") then
    match CreateTenantWithDefaults works (db w) (name +:+ "'s Team") (registrationTenantSlug dr name)
            (d_tenant dr) (d_project dr) with
    | Err _ => (w, Err (reply 500 "internal error" []))
    | Ok d => (with_db w d, Ok (d_tenant dr, "role_owner"))
    end
  else if decide (rgInviteCode req = "") then (w, Err (reply 403 "registration is by invitation only" []))
  else
    match redeemInvite c w (rgInviteCode req) (rgEmail req) with
    | (w, Err e) => (w, Err (reply 403 e []))
    | (w, Ok inv) => (w, Ok (iTenantID inv, iRoleID inv))
    end.

(** [mode] is what the configured getter returns, [None] without one.
    src/internal/api/handlers/auth.go:284-392 AuthHandler.Register *)
Definition Register (c : call) (dr : drawn) (mode : option string) (w : world) (body : option registerRequest)
  : world * response :=
  let mode := default "invite_only" mode in
  if decide (mode = "disabled") then (w, reply 403 "registration is disabled" [])
  else
    match body with
    | None => (w, reply 400 "invalid request body" [])
    | Some req =>
        match register_fields req with
        | _ :: _ => (w, reply 400 "validation failed" [])
        | [] =>
            match GetUserByEmail works (db w) (rgEmail req) with
            | Ok _ => (w, reply 409 "email already registered" [])
            | Err _ =>
                let name := if decide (rgName req = "") then rgEmail req else rgName req in
                match join_tenant c dr mode name w req with
                | (w, Err r) => (w, r)
                | (w, Ok (tenantID, roleID)) =>
                    match HashPassword (rgPassword req) with
                    | None => (w, reply 500 "internal error" [])
                    | Some hash =>
                        match CreateUserWithMembership works fk (db w) (rgEmail req) hash name "active"
                                tenantID roleID (d_user dr) (d_member dr) with
                        | Err _ => (w, reply 500 "internal error" [])
                        | Ok d =>
                            let w := with_db w d in
                            (w, signed_in c 201 [] (issue c w (d_user dr) tenantID roleID (rgEmail req)))
                        end
                    end
                end
            end
        end
    end.

(** ** All sessions of a user *)

(** [sort.Slice] by a key: for at most twelve elements, insertion sort. *)
Fixpoint insert_by (x : SessionTrackingInfo) (l : list SessionTrackingInfo) : list SessionTrackingInfo :=
  match l with
  | [] => [x]
  | y :: r => if sCreatedAt x <? sCreatedAt y then x :: l else y :: insert_by x r
  end.
Definition sort_by_creation (l : list SessionTrackingInfo) : list SessionTrackingInfo :=
  foldl (λ acc x, insert_by x acc) [] l.

(** src/internal/api/handlers/sessions.go:202-232 SessionHandler.GetUserSessions *)
Definition GetUserSessions (c : call) (w : world) (userID : string) : result kv_error (list SessionTrackingInfo) :=
  match kv w with
  | None => Ok []
  | Some k =>
      keys ←! List_ (fails SessionList) (secs c) k "user_sessions";
      Ok (sort_by_creation (omap (λ key,
        if HasPrefix key (userID +:+ ":") then
          match Get (fails (SessionRead key)) (secs c) k "user_sessions" key no_session with
          | Ok s => Some s
          | Err _ => None
          end
        else None) keys))
  end.

(** src/internal/api/handlers/sessions.go:235-261 SessionHandler.revokeAllUserSessions *)
Definition revokeAllUserSessions (c : call) (w : world) (userID : string) : world * result kv_error unit :=
  match GetUserSessions c w userID with
  | Err e => (w, Err e)
  | Ok sessions =>
      (match kv w with
       | None => w
       | Some k =>
           with_kv w (foldl (λ k s, drop_session c k (sJTI s) (userID +:+ ":" +:+ sJTI s)) k sessions)
       end, Ok tt)
  end.

(** The access token of the request, when it has an identifier.  A caller with a token
    identifier has an expiry too: claims of an API key have neither. *)
Definition revoke_current (c : call) (w : world) (cl : Access.Claims) : world :=
  match kv w, Access.ExpiresAt cl with
  | Some k, Some e =>
      if decide (Access.ID cl = "") then w
      else with_kv w (RevokeAccessToken (fails AccessRevoke) (now c) k (Access.ID cl) (Access.UserID cl) e).1
  | _, _ => w
  end.

(** src/internal/api/handlers/sessions.go:416-446 SessionHandler.LogoutAll *)
Definition LogoutAll (c : call) (w : world) (claims : option Access.Claims) : world * response :=
  match claims with
  | None => (w, reply 401 "unauthorized" [])
  | Some cl =>
      match revokeAllUserSessions c w (Access.UserID cl) with
      | (w, Err _) => (w, reply 500 "failed to logout all sessions" [])
      | (w, Ok _) => (revoke_current c w cl, reply 200 "" (clearTokenCookies c))
      end
  end.

(** [body] holds the current and the new password.
    src/internal/api/handlers/sessions.go:115-187 SessionHandler.ChangePassword *)
Definition ChangePassword (c : call) (w : world) (claims : option Access.Claims) (body : option (string * string))
  : world * response :=
  match claims with
  | None => (w, reply 401 "unauthorized" [])
  | Some cl =>
      match body with
      | None => (w, reply 400 "invalid request body" [])
      | Some (current, new) =>
          if (256 <? slen new)%nat then (w, reply 400 "password must not exceed 256 characters" [])
          else
            match GetUser works (db w) (Access.UserID cl) with
            | Err _ => (w, reply 404 "user not found" [])
            | Ok user =>
                if negb (bcrypt_ok (PasswordHash user) current)
                then (w, reply 401 "current password is incorrect" [])
                else
                  match Password.ValidatePasswordStrength new 0 with
                  | Err _ => (w, reply 400 "password too weak" [])
                  | Ok _ =>
                      match HashPassword new with
                      | None => (w, reply 500 "internal error" [])
                      | Some hash =>
                          match UpdatePassword works (db w) (Access.UserID cl) hash with
                          | Err _ => (w, reply 500 "password update failed" [])
                          | Ok d =>
                              let w := with_db w d in
                              (revoke_current c (revokeAllUserSessions c w (Access.UserID cl)).1 cl,
                               reply 200 "" [])
                          end
                      end
                  end
            end
      end
  end.

End Handlers.

(** ** What the handlers leave alone

    [untouched b w w']: no row of the bucket [b] differs. *)

Definition cell (w : world) (b key : string) : option (option row) := (λ k, rows k !! (b, key)) <$> kv w.

Definition untouched (b : string) (w w' : world) : Prop := ∀ key, cell w' b key = cell w b key.

#[global] Instance untouched_preorder b : PreOrder (untouched b).
Proof. split; [by intros ??|]. intros w1 w2 w3 H1 H2 key. by rewrite H2. Qed.

Lemma rows_set fails now k b' key' v ttl b key : b ≠ b' →
  rows (Set_ fails now k b' key' v ttl).1 !! (b, key) = rows k !! (b, key).
Proof.
  intros Hb. destruct (Set_ _ _ _ _ _ _ _) as [k' r] eqn:E. apply Set_spec in E as [[-> _]|(d & _ & _ & ->)]; [done|].
  cbn. by rewrite lookup_insert_ne by congruence.
Qed.

Lemma rows_delete fails k b' key' b key : b ≠ b' → rows (Delete fails k b' key').1 !! (b, key) = rows k !! (b, key).
Proof. intros Hb. unfold Delete. repeat case_match; try done; cbn; by rewrite lookup_delete_ne by congruence. Qed.

Lemma rows_revoke fails now k id u e b key : b ≠ "revoked_access_tokens" →
  rows (RevokeAccessToken fails now k id u e).1 !! (b, key) = rows k !! (b, key).
Proof. intros Hb. unfold RevokeAccessToken. cbv zeta. destruct (time_sub e now <=? 0); [done|]. by apply rows_set. Qed.

Lemma untouched_kv b w k k' : kv w = Some k → (∀ key, rows k' !! (b, key) = rows k !! (b, key)) →
  untouched b w (with_kv w k').
Proof. intros E H key. unfold cell. cbn. rewrite E. cbn. by rewrite H. Qed.

Lemma untouched_set b w k fails now b' key' v ttl : kv w = Some k → b ≠ b' →
  untouched b w (with_kv w (Set_ fails now k b' key' v ttl).1).
Proof. intros E Hb. apply (untouched_kv b w k _ E). intros. by apply rows_set. Qed.

Lemma untouched_same b w w' : kv w' = kv w → untouched b w w'.
Proof. intros E key. unfold cell. by rewrite E. Qed.

Section Frames.
Context `{JWTLib}.
Variables (works : db_op → bool) (fk : bool) (fails : kv_call → stmt → bool).
Variable vault : option ((string → option string) * (string → option string)).
Variables (totp_service : bool) (bcrypt_ok : string → string → bool) (HashPassword : string → option string).
Variables (ParseAddress : string → bool) (EqualFold : string → string → bool).

Lemma increment_frame c w e b : b ≠ "account_rl" → untouched b w (incrementPerAccountRateLimit fails c w e).
Proof.
  intros Hb. unfold incrementPerAccountRateLimit. destruct (kv w) as [k|] eqn:E; [|done].
  destruct (match Get _ _ _ _ _ _ with Ok _ => _ | Err _ => _ end); [|done].
  case_match; [done|]. by apply untouched_set.
Qed.

Lemma drop_session_frame c k jti key b key' : b ≠ "revoked_tokens" → b ≠ "user_sessions" →
  rows (drop_session fails c k jti key) !! (b, key') = rows k !! (b, key').
Proof. intros. unfold drop_session. by rewrite rows_delete, rows_set. Qed.

Lemma drops_frame {A} c (f g : A → string) l b key : ∀ k, b ≠ "revoked_tokens" → b ≠ "user_sessions" →
  rows (foldl (λ k s, drop_session fails c k (f s) (g s)) k l) !! (b, key) = rows k !! (b, key).
Proof. induction l as [|x l IH]; intros k ??; [done|]. cbn [foldl]. by rewrite IH, drop_session_frame. Qed.

Lemma enforce_frame c w u b : b ≠ "revoked_tokens" → b ≠ "user_sessions" →
  untouched b w (enforceSessionLimit fails c w u).
Proof.
  intros. unfold enforceSessionLimit. destruct (kv w) as [k|] eqn:E; [|done].
  case_match; [|done]. apply (untouched_kv b w k _ E). intros. by rewrite drops_frame.
Qed.

Lemma track_frame c w u tok b : b ≠ "revoked_tokens" → b ≠ "user_sessions" →
  untouched b w (trackSession fails c w u tok).
Proof.
  intros. unfold trackSession. destruct (kv w) as [k|] eqn:E; [|done].
  destruct (ValidateRefreshToken _ _ _) as [j [cl|]]; [|by apply untouched_same].
  destruct (Set_ _ _ _ _ _ _ _) as [k' [|]] eqn:Es; [|by apply untouched_same].
  etrans; [|by apply enforce_frame]. apply (untouched_kv b (with_jwt w j) k); [done|].
  intros. change k' with (k', @Ok kv_error unit a).1. rewrite <-Es. by rewrite rows_set.
Qed.

Lemma totp_frame c w u code b : b ≠ "totp_last_step" →
  untouched b w (validateTOTP works fails vault totp_service bcrypt_ok c w u code).1.
Proof.
  intros Hb. unfold validateTOTP. destruct totp_service; [|done].
  set (s := {| Totp.db := db w; Totp.replay := kv w |}).
  assert (∀ s' u code, Totp.replay (Totp.consumeBackupCode works bcrypt_ok s' u code).1 = Totp.replay s') as Hc.
  { intros s' ? ?. unfold Totp.consumeBackupCode. repeat case_match; done. }
  assert (∀ key, (λ k, rows k !! (b, key)) <$> Totp.replay
            (Totp.ValidateContext works (fails TotpCall) vault bcrypt_ok (secs c) s u code).1 = cell w b key) as Hv.
  { intros key. unfold Totp.ValidateContext.
    assert ((λ k, rows k !! (b, key)) <$> Totp.replay (Totp.validateStoredSecret works (fails TotpCall) vault
              (secs c) s u code true).1 = cell w b key) as Hs.
    { unfold Totp.validateStoredSecret, Totp.claim_step, cell. cbn [s Totp.replay].
      repeat case_match; cbn; rewrite ?rows_set by done; congruence || (by destruct (kv w)) || (by simplify_eq). }
    destruct (Totp.validateStoredSecret _ _ _ _ _ _ _ _) as [s' []]; [done|]. by rewrite Hc. }
  destruct (Totp.ValidateContext _ _ _ _ _ _ _ _) as [s' r]. intros key. apply Hv.
Qed.

Lemma second_factor_frame c w u r ck b : b ≠ "totp_last_step" → b ≠ "account_rl" →
  untouched b w (second_factor works fails vault totp_service bcrypt_ok c w u r ck).1.
Proof.
  intros Ht Ha. unfold second_factor. case_match; [done|]. case_decide; [done|].
  pose proof (totp_frame c w (uID u) (lTOTPCode r) b Ht) as Hf.
  destruct (validateTOTP _ _ _ _ _ _ _ _ _) as [w' []]; [done|]. cbn [fst] in *.
  etrans; [exact Hf|]. by apply increment_frame.
Qed.

Lemma access_frame c w b : b ≠ "revoked_access_tokens" → untouched b w (revokeAccessTokenFromRequest fails c w).
Proof.
  intros Hb. unfold revokeAccessTokenFromRequest. destruct (kv w) as [k|] eqn:E; [|done]. case_decide; [done|].
  destruct (ValidateAccessToken _ _ _) as [j [p|]]; [|by apply untouched_same].
  destruct (exp p); [|by apply untouched_same]. case_decide; [by apply untouched_same|].
  apply (untouched_kv b (with_jwt w j) k); [done|]. intros. by apply rows_revoke.
Qed.

Lemma revoke_frame c w jti b : b ≠ "revoked_tokens" → untouched b w (revoke_refresh fails c w jti).
Proof.
  intros. unfold revoke_refresh. destruct (kv w) as [k|] eqn:E; [|done]. case_decide; [done|]. by apply untouched_set.
Qed.

Lemma current_frame c w cl b : b ≠ "revoked_access_tokens" → untouched b w (revoke_current fails c w cl).
Proof.
  intros. unfold revoke_current. destruct (kv w) as [k|] eqn:E; [|done].
  case_match; [|done]. case_decide; [done|]. apply (untouched_kv b w k _ E). intros. by apply rows_revoke.
Qed.

Lemma revoke_all_frame c w u b : b ≠ "revoked_tokens" → b ≠ "user_sessions" →
  untouched b w (revokeAllUserSessions fails c w u).1.
Proof.
  intros. unfold revokeAllUserSessions. case_match; [|done]. cbn [fst]. destruct (kv w) as [k|] eqn:E; [|done].
  apply (untouched_kv b w k _ E). intros. by apply drops_frame.
Qed.

Lemma redeem_kv c w code email : kv (redeemInvite works EqualFold c w code email).1 = kv w.
Proof.
  unfold redeemInvite. destruct (GetInviteByTokenHash _ _ _) as [[id inv]|[]]; try done.
  case_decide; [done|]. destruct (_ <? _); [done|]. destruct (_ && _); [done|]. by destruct (AcceptInvite _ _ _ _).
Qed.

Lemma join_kv c dr mode name w req : kv (join_tenant works EqualFold c dr mode name w req).1 = kv w.
Proof.
  unfold join_tenant. case_decide; [by destruct (CreateTenantWithDefaults _ _ _ _ _ _)|]. case_decide; [done|].
  pose proof (redeem_kv c w (rgInviteCode req) (rgEmail req)) as Hk. by destruct (redeemInvite _ _ _ _ _ _) as [w' []].
Qed.

(** Registration never writes to the key-value store. *)
Lemma register_frame c dr mode w body :
  kv (Register works fk HashPassword ParseAddress EqualFold c dr mode w body).1 = kv w.
Proof.
  unfold Register. cbv zeta. case_decide; [done|]. destruct body as [req|]; [|done].
  destruct (register_fields _ _); [|done]. destruct (GetUserByEmail _ _ _); [done|].
  match goal with |- context [join_tenant ?a ?b ?c ?d ?e ?f ?g ?h] => pose proof (join_kv c d e f g h) as Hk;
    destruct (join_tenant a b c d e f g h) as [w' [[tn rl]|r]]; [|done] end.
  destruct (HashPassword _); [|done]. by destruct (CreateUserWithMembership _ _ _ _ _ _ _ _ _ _ _).
Qed.

End Frames.

(** ** Histories of requests *)

Inductive event :=
| ELogin (c : call) (body : option loginRequest)
| ERefresh (c : call) (body : option string)
| ELogout (c : call) (body : option string)
| ERegister (c : call) (dr : drawn) (mode : option string) (body : option registerRequest)
| ELogoutAll (c : call) (claims : option Access.Claims)
| EChangePassword (c : call) (claims : option Access.Claims) (body : option (string * string)).

Definition call_of (e : event) : call :=
  match e with
  | ELogin c _ | ERefresh c _ | ELogout c _ | ERegister c _ _ _ | ELogoutAll c _ | EChangePassword c _ _ => c
  end.

(** No call of the key-value store fails. *)
Definition sound : kv_call → stmt → bool := λ _, no_fault.

(** A request in a history, with what the calls of the key-value store do while it is handled. *)
Record turn := { ev : event; faults : kv_call → stmt → bool }.

Definition at_second (x : turn) : Z := secs (call_of (ev x)).

Section Histories.
Context `{JWTLib}.
Variable works : db_op → bool.
Variable fk : bool.
Variable vault : option ((string → option string) * (string → option string)).
Variables (totp_service : bool) (bcrypt_ok : string → string → bool) (HashPassword : string → option string).
Variables (ParseAddress : string → bool) (EqualFold : string → string → bool).

Definition step (w : world) (x : turn) : world * response :=
  match ev x with
  | ELogin c body => Login works (faults x) vault totp_service bcrypt_ok c w body
  | ERefresh c body => Refresh works (faults x) c w body
  | ELogout c body => Logout (faults x) c w body
  | ERegister c dr mode body => Register works fk HashPassword ParseAddress EqualFold c dr mode w body
  | ELogoutAll c cl => LogoutAll (faults x) c w cl
  | EChangePassword c cl body => ChangePassword works (faults x) bcrypt_ok HashPassword c w cl body
  end.

(** *** Failed sign-ins *)

(** The request is a sign-in to a known account that was refused for its password or code. *)
Definition failed_guess (email : string) (w : world) (x : turn) : bool :=
  match ev x with
  | ELogin c (Some req) =>
      bool_decide (lEmail req = email) && is_ok (GetUserByEmail works (db w) email) &&
      bool_decide (message (step w x).2 ∈ ["invalid credentials"; "invalid TOTP code"])
  | _ => false
  end.

(** The times, in Unix seconds, of the refused sign-ins of a history. *)
Fixpoint guesses (email : string) (w : world) (es : list turn) : list Z :=
  match es with
  | [] => []
  | x :: es => (if failed_guess email w x then [at_second x] else []) ++ guesses email (step w x).1 es
  end.

(** A request other than a sign-in leaves the lockout counters alone. *)
Lemma other_requests_frame w x : (∀ c b, ev x ≠ ELogin c b) → untouched "account_rl" w (step w x).1.
Proof.
  destruct x as [e F]. cbn [ev]. intros Hne. destruct e as [c b|c [tok|]|c [tok|]|c dr mode b|c [cl|]|c [cl|] [[cur new]|]]; try done; cbn [step ev faults].
  - by destruct (Hne c b).
  - unfold Refresh. cbv zeta. case_decide; [done|]. destruct (ValidateRefreshToken _ _ _) as [j [cl|]]; [|by apply untouched_same].
    destruct (is_revoked _ _ _ _); [by apply untouched_same|]. destruct (GetUser _ _ _) as [u|]; [|by apply untouched_same].
    destruct (GetUserMembership _ _ _) as [m|]; [|by apply untouched_same]. cbn [fst].
    etrans; [|by apply track_frame]. etrans; [|by apply access_frame].
    etrans; [|by apply revoke_frame]. by apply untouched_same.
  - unfold Logout. cbv zeta. assert (untouched "account_rl" w (revokeAccessTokenFromRequest F c w)) as Ha by by apply access_frame.
    case_decide; [done|]. destruct (ValidateRefreshToken _ _ _) as [j [cl|]]; cbn [fst].
    + etrans; [exact Ha|]. etrans; [|by apply revoke_frame]. by apply untouched_same.
    + etrans; [exact Ha|]. by apply untouched_same.
  - apply untouched_same. by apply register_frame.
  - unfold LogoutAll. pose proof (revoke_all_frame F c w (Access.UserID cl) "account_rl") as Hr.
    destruct (revokeAllUserSessions _ _ _ _) as [w' []]; cbn [fst] in *; [|by apply Hr].
    etrans; [by apply Hr|]. by apply current_frame.
  - unfold ChangePassword. destruct (_ <? _)%nat; [done|]. destruct (GetUser _ _ _); [|done].
    destruct (negb _); [done|]. destruct (Password.ValidatePasswordStrength _ _); [|done].
    destruct (HashPassword new); [|done]. destruct (UpdatePassword _ _ _ _) as [d|]; [|done]. cbn [fst].
    etrans; [|by apply current_frame]. etrans; [|by apply revoke_all_frame]. by apply untouched_same.
Qed.

(** A sign-in counts exactly when it is refused, after the lockout check let it through. *)
Lemma login_counts F c w req : let '(w', r) := Login works F vault totp_service bcrypt_ok c w (Some req) in
  untouched "account_rl" w w' ∧ failed_guess (lEmail req) w {| ev := ELogin c (Some req); faults := F |} = false ∨
  failed_guess (lEmail req) w {| ev := ELogin c (Some req); faults := F |} = true ∧
  checkPerAccountRateLimit F c w (lEmail req) = None ∧
  ∃ w1, untouched "account_rl" w w1 ∧ w' = incrementPerAccountRateLimit F c w1 (lEmail req).
Proof.
  unfold failed_guess, step. cbn [ev faults]. rewrite (bool_decide_true (lEmail req = lEmail req)) by done. cbn [andb].
  unfold Login. cbv zeta. case_decide; [left; split; [done|by rewrite andb_false_r]|].
  destruct (_ <? _)%nat; [left; split; [done|by rewrite andb_false_r]|].
  destruct (GetUserByEmail works (db w) (lEmail req)) as [user|[]]; [|by left..]. cbn [is_ok andb].
  unfold loginRateLimitCheck. destruct (checkPerAccountRateLimit _ _ _ _) as [until|]; [by left|].
  destruct (negb (bcrypt_ok _ _)); [right; split; [done|]; split; [done|]; by exists w|].
  unfold second_factor. destruct (negb (TOTPEnabled user)).
  - destruct (GetUserMembership _ _ _) as [m|]; [|by left]. left. split; [by apply track_frame|done].
  - case_decide; [by left|].
    pose proof (totp_frame works F vault totp_service bcrypt_ok c w (uID user) (lTOTPCode req) "account_rl") as Hf.
    destruct (validateTOTP _ _ _ _ _ _ _ _ _) as [w1 []]; cbn [fst] in Hf.
    + destruct (GetUserMembership _ _ _) as [m|]; [|by left; split; [apply Hf|]]. left.
      split; [|done]. etrans; [by apply Hf|]. by apply track_frame.
    + right. split; [done|]. split; [done|]. exists w1. split; [by apply Hf|done].
Qed.

Definition window : Z := 900.

Lemma window_secs : seconds_int accountLockoutWindow = window.
Proof. vm_compute. reflexivity. Qed.

Definition in_range (s : Z) : Prop := 0 ≤ s ≤ 2 ^ 62.

(** The row of an account whose last failure was at [t], the [n]th of its series. *)
Definition counter (t n : Z) : row :=
  {| data := Some (marshal {| FailedCount := n; LockedUntil := if maxFailedAttempts <=? n then t + window else 0 |});
     expires_at := t + window |}.

Lemma read_counter f s w k email t n :
  f = no_fault → kv w = Some k → cell w "account_rl" email = Some (Some (counter t n)) → in_range t → 0 ≤ n ≤ 5 →
  Get f s k "account_rl" email no_failures =
    if t + window <=? s then Err ErrKVNotFound
    else Ok {| FailedCount := n; LockedUntil := if maxFailedAttempts <=? n then t + window else 0 |}.
Proof.
  intros -> Hk Hc Ht Hn. unfold cell in Hc. rewrite Hk in Hc. cbn in Hc. injection Hc as Hc.
  unfold Get, sql, no_fault. rewrite Hc. unfold expired, counter. cbn [expires_at data].
  unfold in_range, window in *. rewrite (proj2 (Z.ltb_lt 0 (t + 900))) by lia. cbn [andb].
  destruct (t + 900 <=? s) eqn:E; [done|]. cbn [mbind option_bind].
  rewrite unmarshal_marshal; [done|]. split; unfold in_i64, min_int64, max_int64; cbn; [lia|case_match; lia].
Qed.

(** What the failures so far, the latest first, say about the row. *)
Definition recorded (email : string) (h : list Z) (w : world) : Prop :=
  match h with
  | [] => cell w "account_rl" email = Some None
  | t :: _ => ∃ n, 1 ≤ n ≤ 5 ∧ in_range t ∧ cell w "account_rl" email = Some (Some (counter t n)) ∧
                Forall (λ s, s ≤ t) h ∧ zlen (filter (λ s, t - window < s) h) ≤ n
  end.

(** At most five failures in any window. *)
Definition bounded (h : list Z) : Prop :=
  ∀ T, zlen (filter (λ s, T ≤ s < T + window) h) ≤ 5.

Lemma filter_sub_length {A} (P Q : A → Prop) `{∀ x, Decision (P x)} `{∀ x, Decision (Q x)} (l : list A) :
  (∀ x, x ∈ l → P x → Q x) → zlen (filter P l) ≤ zlen (filter Q l).
Proof.
  intros HPQ. induction l as [|x l IH]; [done|]. rewrite !filter_cons.
  specialize (IH ltac:(intros; apply HPQ; [by right|done])).
  destruct (decide (P x)) as [Hp|Hp], (decide (Q x)) as [Hq|Hq]; cbn [length]; try lia.
  destruct Hq. apply HPQ; [by left|done].
Qed.

(** A new failure, at [s], while the row of the last one is gone or still counts below five. *)
Lemma bounded_cons h t s n :
  bounded (t :: h) → Forall (λ x, x ≤ t) (t :: h) → zlen (filter (λ x, t - window < x) (t :: h)) ≤ n →
  t ≤ s → t + window ≤ s ∨ n < 5 →
  bounded (s :: t :: h) ∧
  zlen (filter (λ x, s - window < x) (s :: t :: h)) ≤ if t + window <=? s then 1 else n + 1.
Proof.
  intros Hb Hle Hn Hts Hs. rewrite Forall_forall in Hle. unfold bounded, window in *.
  assert (∀ (P : Z → Prop) `{∀ x, Decision (P x)}, (∀ x, P x → s - 900 < x) →
    zlen (filter P (t :: h)) ≤ if t + 900 <=? s then 0 else n) as Hrest.
  { intros P HP Hsub. destruct (Z.leb_spec (t + 900) s).
    - rewrite (proj2 (filter_nil_iff P _)); [done|]. intros x Hx HPx. specialize (Hle x Hx). apply Hsub in HPx. lia.
    - etrans; [|exact Hn]. apply filter_sub_length. intros x Hx HPx. apply Hsub in HPx. lia. }
  split.
  - intros T. rewrite filter_cons. destruct (decide _) as [HT|HT]; [|apply Hb]. cbn [length].
    specialize (Hrest (λ x, T ≤ x < T + 900) _ ltac:(intros ? [??]; lia)). destruct (Z.leb_spec (t + 900) s); lia.
  - rewrite filter_cons, decide_True by lia. cbn [length].
    specialize (Hrest (λ x, s - 900 < x) _ ltac:(done)). destruct (Z.leb_spec (t + 900) s); lia.
Qed.

Lemma recorded_frame email h w w' : untouched "account_rl" w w' → recorded email h w → recorded email h w'.
Proof. intros Hu. destruct h; cbn [recorded]; by rewrite (Hu email). Qed.

Lemma increment_other F c w e e' : e ≠ e' →
  cell (incrementPerAccountRateLimit F c w e') "account_rl" e = cell w "account_rl" e.
Proof.
  intros Hne. unfold incrementPerAccountRateLimit, cell. destruct (kv w) as [k|] eqn:E; [|by rewrite E].
  destruct (match Get _ _ _ _ _ _ with Ok _ => _ | Err _ => _ end); [|by rewrite E].
  destruct (0 <? _); [by rewrite E|]. cbv zeta.
  destruct (Set_ _ _ _ _ _ _ _) as [k' r] eqn:Es. apply Set_spec in Es as [[-> _]|(d & _ & _ & ->)]; cbn; [done|].
  rewrite lookup_insert_ne; congruence.
Qed.

(** The counter after a failure, from what is read before it. *)
Lemma increment_writes F c w k email e :
  F CountWrite = no_fault → kv w = Some k → in_range (secs c) → 0 ≤ FailedCount e < 5 → LockedUntil e = 0 →
  match Get (F CountRead) (secs c) k "account_rl" email no_failures with
  | Ok e' => e' = e | Err ErrKVNotFound => e = no_failures | Err _ => False
  end →
  cell (incrementPerAccountRateLimit F c w email) "account_rl" email =
    Some (Some (counter (secs c) (FailedCount e + 1))).
Proof.
  intros Hw Hk Hs Hf Hl Hg. unfold incrementPerAccountRateLimit. rewrite Hk.
  assert (match Get (F CountRead) (secs c) k "account_rl" email no_failures with
          | Ok e => Some e | Err ErrKVNotFound => Some no_failures | Err _ => None end = Some e) as ->.
  { destruct (Get _ _ _ _ _ _) as [?|[]]; by subst. }
  rewrite Hl, Hw, window_secs. unfold in_range in Hs. cbn [Z.ltb Z.compare].
  unfold cell, with_kv. cbn [kv fmap option_fmap option_map]. unfold Set_, sql, no_fault. cbn [fst rows upsert add_bucket].
  rewrite lookup_insert_eq. unfold counter, expiry, window. cbn [Z.ltb Z.compare].
  rewrite (i64_id (FailedCount e + 1)) by (split; unfold min_int64, max_int64; lia).
  rewrite i64_id by (split; unfold min_int64, max_int64; lia). done.
Qed.

Lemma cell_kv w b key x : cell w b key = Some x → ∃ k, kv w = Some k ∧ rows k !! (b, key) = x.
Proof. unfold cell. destruct (kv w) as [k|]; [|done]. intros [= <-]. by exists k. Qed.

(** The calls on the counter do not fail. *)
Definition counter_works (F : kv_call → stmt → bool) : Prop :=
  F LockRead = no_fault ∧ F CountRead = no_fault ∧ F CountWrite = no_fault.

(** A refused sign-in, and what it does to the record. *)
Lemma failure_recorded F email h c w w1 :
  counter_works F →
  recorded email h w → bounded h → in_range (secs c) → (∀ t, t ∈ h → t ≤ secs c) →
  checkPerAccountRateLimit F c w email = None → untouched "account_rl" w w1 →
  recorded email (secs c :: h) (incrementPerAccountRateLimit F c w1 email) ∧ bounded (secs c :: h).
Proof.
  intros (HL & HR & HW) Hr Hb Hs Hlast Hc Hu. set (s := secs c) in *.
  destruct h as [|t h]; cbn [recorded] in Hr.
  - rewrite <-(Hu email) in Hr. destruct (cell_kv _ _ _ _ Hr) as (k & Hk & Hrow). split.
    + exists 1. split; [lia|]. split; [done|]. rewrite (increment_writes F c w1 k email no_failures) by
        (done || (cbn; lia) || (rewrite HR; unfold Get, sql, no_fault; by rewrite Hrow)).
      split; [done|]. split; [by repeat constructor|]. rewrite filter_cons, decide_True by (unfold window; lia). done.
    + intros T. rewrite filter_cons. destruct (decide _); cbn; lia.
  - destruct Hr as (n & Hn & Ht & Hcell & Hle & Hcount). pose proof (Hlast t ltac:(by left)) as Hts.
    assert (t + window ≤ s ∨ n < 5) as Hcase.
    { destruct (decide (t + window ≤ s)) as [|Hlive]; [by left|right].
      destruct (decide (n < 5)) as [|Hn5]; [done|exfalso]. destruct (cell_kv _ _ _ _ Hcell) as (k & Hk & _).
      unfold checkPerAccountRateLimit in Hc. rewrite Hk, (read_counter _ _ w k email t n HL) in Hc by (done || lia).
      fold s in Hc. rewrite (proj2 (Z.leb_gt (t + window) s)) in Hc by lia.
      replace n with 5 in Hc by lia. cbn [maxFailedAttempts LockedUntil Z.leb Z.compare Pos.compare Pos.compare_cont] in Hc.
      unfold in_range, window in *. rewrite (proj2 (Z.eqb_neq (t + 900) 0)), (proj2 (Z.ltb_lt s (t + 900))) in Hc by lia. done. }
    destruct (bounded_cons h t s n Hb Hle Hcount Hts Hcase) as [Hb' Hcount']. split; [|done].
    rewrite <-(Hu email) in Hcell. destruct (cell_kv _ _ _ _ Hcell) as (k & Hk & _).
    pose proof (read_counter _ s w1 k email t n HR Hk Hcell Ht ltac:(lia)) as Hget.
    exists (if t + window <=? s then 1 else n + 1). split; [case_match eqn:E; bools; lia|]. split; [done|].
    split; [|split; [constructor; [done|eapply Forall_impl; [exact Hle|intros; cbn in *; lia]]|done]].
    destruct (Z.leb_spec (t + window) s) as [Hx|Hx].
    + apply (increment_writes F c w1 k email no_failures); try done. fold s. by rewrite Hget.
    + apply (increment_writes F c w1 k email {| FailedCount := n; LockedUntil := 0 |}); try done; cbn [FailedCount]; [lia|].
      fold s. rewrite Hget. rewrite (proj2 (Z.leb_gt maxFailedAttempts n)) by (unfold maxFailedAttempts; lia). done.
Qed.

Lemma step_recorded email h w x :
  counter_works (faults x) → recorded email h w → bounded h → in_range (at_second x) → (∀ t, t ∈ h → t ≤ at_second x) →
  let h' := (if failed_guess email w x then [at_second x] else []) ++ h in
  recorded email h' (step w x).1 ∧ bounded h'.
Proof.
  destruct x as [e F]. unfold at_second. cbn [ev faults]. intros HF Hr Hb Hs Hlast. cbv zeta.
  assert ((∀ c b, e ≠ ELogin c b) ∨ ∃ c b, e = ELogin c b) as [Hne|(c & body & ->)]
    by (destruct e; [right; eauto|left; done..]).
  { assert (failed_guess email w {| ev := e; faults := F |} = false) as -> by (destruct e; try done; by destruct (Hne c body)).
    split; [|done]. eapply recorded_frame; [by apply other_requests_frame|done]. }
  destruct body as [req|]; [|done]. cbn [call_of] in *.
  pose proof (login_counts F c w req) as Hl. unfold step at 1. cbn [ev faults].
  destruct (Login _ _ _ _ _ _ _ _) as [w' r] eqn:EL. cbn [fst].
  destruct (decide (lEmail req = email)) as [<-|Hne].
  - destruct Hl as [(Hu & ->)|(-> & Hc & w1 & Hu & ->)]; [split; [by eapply recorded_frame|done]|].
    cbn [app]. by apply (failure_recorded F _ h c w w1).
  - assert (failed_guess email w {| ev := ELogin c (Some req); faults := F |} = false) as ->.
    { unfold failed_guess. cbn [ev]. by rewrite bool_decide_false. }
    split; [|done]. destruct Hl as [(Hu & _)|(_ & _ & w1 & Hu & ->)]; [by eapply recorded_frame|].
    assert (cell (incrementPerAccountRateLimit F c w1 (lEmail req)) "account_rl" email
            = cell w "account_rl" email) as E by (rewrite increment_other by done; apply Hu).
    destruct h; cbn [recorded app] in *; by rewrite E.
Qed.

Lemma guesses_bounded email es : ∀ h w,
  recorded email h w → bounded h → Forall (λ x, counter_works (faults x)) es → StronglySorted Z.le (map at_second es) →
  Forall (λ x, in_range (at_second x)) es → (∀ t x, t ∈ h → x ∈ es → t ≤ at_second x) →
  bounded (reverse (guesses email w es) ++ h).
Proof.
  induction es as [|x es IH]; intros h w Hr Hb HF Hso Hra Hle; [done|].
  cbn [map] in Hso. apply StronglySorted_inv in Hso as [Hso Hle']. apply Forall_cons in Hra as [Hra1 Hra].
  apply Forall_cons in HF as [HF1 HF]. rewrite Forall_map, Forall_forall in Hle'.
  destruct (step_recorded email h w x HF1 Hr Hb Hra1) as [Hr' Hb']; [intros; apply Hle; [done|by left]|].
  cbn [guesses]. rewrite reverse_app, <-app_assoc.
  replace (reverse (if failed_guess email w x then [at_second x] else []))
    with (if failed_guess email w x then [at_second x] else []) by by case_match.
  apply IH; try done. intros t x' Ht Hx'. apply elem_of_app in Ht as [Ht|Ht]; [|apply Hle; [done|by right]].
  destruct (failed_guess email w x); [|by apply elem_of_nil in Ht]. apply list_elem_of_singleton in Ht as ->.
  by apply Hle'.
Qed.

(** C27. Password guessing is slow: whatever sign-ins, refreshes, sign-outs, registrations and password
    changes are handled one after another, at most five sign-ins to an account are refused for
    their password or TOTP code within any fifteen minutes.  The conditions: a key-value store is
    there and has no counter of the account at the start, the reads and writes of the counter do
    not fail (other calls of the store and the database may; a failed read lets the sign-in
    through and a failed write is ignored, so the bound is lost then), the clock does not go
    back, and no two sign-ins overlap. *)
Theorem failed_guesses_bounded email w es T :
  cell w "account_rl" email = Some None → Forall (λ x, counter_works (faults x)) es →
  StronglySorted Z.le (map at_second es) →
  Forall (λ x, in_range (at_second x)) es →
  zlen (filter (λ s, T ≤ s < T + window) (guesses email w es)) ≤ 5.
Proof.
  intros Hc HF Hso Hra.
  pose proof (guesses_bounded email es [] w Hc ltac:(done) HF Hso Hra ltac:(by intros ?? ?%elem_of_nil) T) as Hbd.
  rewrite app_nil_r in Hbd. rewrite <-(reverse_Permutation (guesses email w es)). exact Hbd.
Qed.

(** *** Rotated refresh tokens *)

(** The token is marked as revoked until [e] at least. *)
Definition dead (e : Z) (jti : string) (w : world) : Prop :=
  ∃ r, cell w "revoked_tokens" jti = Some (Some r) ∧ data r = Some (marshal true) ∧ e ≤ expires_at r.

Lemma dead_frame e jti w w' : untouched "revoked_tokens" w w' → dead e jti w → dead e jti w'.
Proof. intros Hu (r & Hr & Hrest). exists r. by rewrite (Hu jti). Qed.

(** A revocation written at a time from which it lasts as long. *)
Lemma dead_new e jti w c k :
  kv w = Some k → in_range (secs c) → e ≤ secs c + RefreshTokenTTLSeconds →
  dead e jti (with_kv w (upsert (add_bucket k "revoked_tokens") "revoked_tokens" jti
    {| data := Some (marshal true); expires_at := expiry (secs c) RefreshTokenTTLSeconds |})).
Proof.
  intros Hk Hs He. unfold dead, cell, with_kv. cbn [kv fmap option_fmap option_map rows upsert add_bucket].
  eexists. rewrite lookup_insert_eq. split; [done|]. split; [done|]. cbn [expires_at]. unfold expiry.
  unfold in_range in Hs. change RefreshTokenTTLSeconds with 604800 in *. rewrite (proj2 (Z.ltb_lt 0 604800)) by done.
  rewrite i64_id; [lia|]. split; unfold min_int64, max_int64; lia.
Qed.

(** A write of a revocation, failing or not, leaves a dead token dead. *)
Lemma dead_write f e jti w c k jti' :
  kv w = Some k → in_range (secs c) → e ≤ secs c + RefreshTokenTTLSeconds → dead e jti w →
  dead e jti (with_kv w (Set_ f (secs c) k "revoked_tokens" jti' (Some (marshal true)) RefreshTokenTTLSeconds).1).
Proof.
  intros Hk Hs He Hd. destruct (Set_ f _ _ _ _ _ _) as [k' r] eqn:E. cbn [fst].
  apply Set_spec in E as [[-> _]|(d & [= <-] & _ & ->)].
  { by replace (with_kv w k) with w by (destruct w; cbn in *; by subst). }
  destruct (decide (jti' = jti)) as [->|Hne]; [by apply dead_new|].
  destruct Hd as (r0 & Hr & Hrest). exists r0. unfold cell in *. rewrite Hk in Hr. cbn in Hr |- *.
  rewrite lookup_insert_ne by congruence. split; [by injection Hr as ->|done].
Qed.

Lemma dead_drops {A} F e jti c w (f g : A → string) l : ∀ k,
  kv w = Some k → in_range (secs c) → e ≤ secs c + RefreshTokenTTLSeconds → dead e jti w →
  dead e jti (with_kv w (foldl (λ k s, drop_session F c k (f s) (g s)) k l)).
Proof.
  revert w. induction l as [|x l IH]; intros w k Hk Hs He Hd; cbn [foldl].
  { by replace (with_kv w k) with w by (destruct w; cbn in *; by subst). }
  set (k' := drop_session F c k (f x) (g x)).
  change (dead e jti (with_kv (with_kv w k') (foldl (λ k s, drop_session F c k (f s) (g s)) k' l))).
  apply IH; try done. unfold k', drop_session. cbv zeta.
  match goal with |- context [Delete ?f ?k1 ?b ?key] => set (k2 := k1) end.
  assert (dead e jti (with_kv w k2)) as Hd2 by (by apply dead_write).
  eapply dead_frame; [|exact Hd2].
  change (untouched "revoked_tokens" (with_kv w k2) (with_kv (with_kv w k2) (Delete (F (SessionDelete (g x))) k2 "user_sessions" (g x)).1)).
  apply (untouched_kv _ _ k2); [done|]. intros. by apply rows_delete.
Qed.

Lemma dead_enforce F e jti c w u : in_range (secs c) → e ≤ secs c + RefreshTokenTTLSeconds → dead e jti w →
  dead e jti (enforceSessionLimit F c w u).
Proof.
  intros Hs He Hd. unfold enforceSessionLimit. destruct (kv w) as [k|] eqn:Ek; [|done].
  destruct (List_ _ _ _ _); [|done]. cbv zeta. by apply dead_drops.
Qed.

Lemma dead_track F e jti c w u tok : in_range (secs c) → e ≤ secs c + RefreshTokenTTLSeconds → dead e jti w →
  dead e jti (trackSession F c w u tok).
Proof.
  intros Hs He Hd. unfold trackSession. destruct (kv w) as [k|] eqn:Ek; [|done].
  destruct (ValidateRefreshToken _ _ _) as [j [cl|]]; [|eapply dead_frame; [|done]; by apply untouched_same].
  destruct (Set_ _ _ _ _ _ _ _) as [k' [a|]] eqn:Es; [|eapply dead_frame; [|done]; by apply untouched_same].
  apply dead_enforce; [done..|]. eapply dead_frame; [|exact Hd].
  etrans; [by apply (untouched_same _ w (with_jwt w j))|]. apply (untouched_kv _ _ k); [done|].
  intros. change k' with (k', @Ok kv_error unit a).1. rewrite <-Es. by rewrite rows_set.
Qed.

Lemma dead_revoke F e jti c w jti' : in_range (secs c) → e ≤ secs c + RefreshTokenTTLSeconds → dead e jti w →
  dead e jti (revoke_refresh F c w jti').
Proof.
  intros Hs He Hd. unfold revoke_refresh. destruct (kv w) as [k|] eqn:Ek; [|done]. case_decide; [done|].
  by apply dead_write.
Qed.

Lemma dead_revoke_all F e jti c w u : in_range (secs c) → e ≤ secs c + RefreshTokenTTLSeconds → dead e jti w →
  dead e jti (revokeAllUserSessions F c w u).1.
Proof.
  intros Hs He Hd. unfold revokeAllUserSessions. destruct (GetUserSessions _ _ _ _); [|done]. cbn [fst].
  destruct (kv w) as [k|] eqn:Ek; [|done]. by apply dead_drops.
Qed.

Lemma dead_step e jti w x :
  in_range (at_second x) → e ≤ at_second x + RefreshTokenTTLSeconds → dead e jti w → dead e jti (step w x).1.
Proof.
  destruct x as [e0 F]. unfold at_second. cbn [ev]. intros Hs He Hd.
  assert (∀ w', kv w' = kv w → dead e jti w') as Hsame
    by (intros w' Hw; eapply dead_frame; [by apply untouched_same|done]).
  destruct e0 as [c [req|]|c [tok|]|c [tok|]|c dr mode b|c [cl|]|c [cl|] [[cur new]|]]; try done;
    cbn [step ev faults call_of] in *.
  - unfold Login. cbv zeta. case_decide; [done|]. destruct (_ <? _)%nat; [done|].
    destruct (GetUserByEmail _ _ _) as [user|[]]; try done. destruct (loginRateLimitCheck _ _ _ _ _); [done|].
    destruct (negb _); [cbn [fst]; eapply dead_frame; [by apply increment_frame|done]|].
    pose proof (second_factor_frame works F vault totp_service bcrypt_ok c w user req (clearTokenCookies c) "revoked_tokens") as Hf.
    destruct (second_factor _ _ _ _ _ _ _ _ _ _) as [w' [r|]]; cbn [fst] in *; [by eapply dead_frame; [apply Hf|]|].
    destruct (GetUserMembership _ _ _); cbn [fst]; [apply dead_track; [done..|]|]; by eapply dead_frame; [apply Hf|].
  - unfold Refresh. cbv zeta. case_decide; [done|]. destruct (ValidateRefreshToken _ _ _) as [j [cl|]]; [|by apply Hsame].
    destruct (is_revoked _ _ _ _); [by apply Hsame|]. destruct (GetUser _ _ _) as [u|]; [|by apply Hsame].
    destruct (GetUserMembership _ _ _) as [m|]; [|by apply Hsame]. cbn [fst]. apply dead_track; [done..|].
    eapply dead_frame; [by apply access_frame|]. apply dead_revoke; [done..|by apply Hsame].
  - unfold Logout. cbv zeta.
    assert (dead e jti (revokeAccessTokenFromRequest F c w)) as Ha by (eapply dead_frame; [by apply access_frame|done]).
    case_decide; [done|]. destruct (ValidateRefreshToken _ _ _) as [j [cl|]]; cbn [fst]; [apply dead_revoke; [done..|]|];
      (eapply dead_frame; [|exact Ha]; by apply untouched_same).
  - apply Hsame. apply register_frame.
  - unfold LogoutAll. pose proof (dead_revoke_all F e jti c w (Access.UserID cl) Hs He Hd) as Hr.
    destruct (revokeAllUserSessions _ _ _ _) as [w' []]; cbn [fst] in *; [|done].
    eapply dead_frame; [by apply current_frame|done].
  - unfold ChangePassword. destruct (_ <? _)%nat; [done|]. destruct (GetUser _ _ _); [|done].
    destruct (negb _); [done|]. destruct (Password.ValidatePasswordStrength _ _); [|done].
    destruct (HashPassword new); [|done]. destruct (UpdatePassword _ _ _ _) as [d|]; [|done]. cbn [fst].
    eapply dead_frame; [by apply current_frame|]. apply dead_revoke_all; [done..|by apply Hsame].
Qed.

Definition runs (w : world) (es : list turn) : world := foldl (λ w x, (step w x).1) w es.

Lemma dead_runs e jti es : ∀ w,
  Forall (λ x, in_range (at_second x) ∧ e ≤ at_second x + RefreshTokenTTLSeconds) es →
  dead e jti w → dead e jti (runs w es).
Proof.
  induction es as [|ev es IH]; intros w Hes Hd; [done|]. apply Forall_cons in Hes as [[? ?] Hes].
  apply IH; [done|]. by apply dead_step.
Qed.

Context `{!JWTLaws}.

(** An issued refresh token only ever validates as itself, and before it expires. *)
Lemma validate_refresh_issued t j j0 t0 id u r : let tok := sign (secretKey j0) (refresh_claims j0 t0 id u) in
  (ValidateRefreshToken t j tok).2 = Ok r → r = {| rUserID := u; rJTI := id |} ∧ t < numeric_date (t0 + refreshExpiry j0).
Proof.
  cbv zeta. unfold ValidateRefreshToken. destruct (allKeys t j) as [j' keys]. cbn [snd].
  destruct (first_key _ _ _) as [p|] eqn:E; [|done]. apply first_key_sound in E as [-> Hv].
  apply refresh_claims_valid in Hv. case_match; [done|]. by intros [= <-].
Qed.

(** A dead token is refused as long as it would otherwise be accepted. *)
Lemma dead_refused F e c w j0 t0 id u body :
  let tok := sign (secretKey j0) (refresh_claims j0 t0 id u) in
  F RevokedRead = no_fault → dead e id w → id ≠ "" → time_unix (numeric_date (t0 + refreshExpiry j0)) ≤ e → 0 < e →
  refresh_token c body = tok → tok ≠ "" → status (Refresh works F c w (Some body)).2 = 401.
Proof.
  cbv zeta. intros HF (r & Hr & Hdata & Hexp) Hid He He0 Htok Hne. unfold Refresh. cbv zeta. rewrite Htok, decide_False by done.
  pose proof (validate_refresh_issued (now c) (jwt w) j0 t0 id u) as Hv. cbv zeta in Hv.
  destruct (ValidateRefreshToken _ _ _) as [j [cl|]]; [|done]. destruct (Hv cl eq_refl) as [-> Hlt]. cbn [rJTI].
  destruct (cell_kv _ _ _ _ Hr) as (k & Hk & Hrow).
  assert (is_revoked F c (with_jwt w j) id = true) as ->; [|done].
  unfold is_revoked. cbn [kv with_jwt]. rewrite Hk, bool_decide_false by done. cbn [negb andb].
  rewrite HF. unfold Get, sql, no_fault. rewrite Hrow. unfold expired.
  assert (secs c < expires_at r) as Hlive.
  { unfold secs. assert (time_unix (now c) < time_unix (numeric_date (t0 + refreshExpiry j0))); [|lia].
    unfold time_unix, numeric_date in *. set (x := t0 + refreshExpiry j0) in *.
    pose proof (Z.div_mod x Second ltac:(done)) as Hdm. replace (x - x mod Second) with (x / Second * Second) in * by lia.
    rewrite Z.div_mul by done. assert (now c / Second < x / Second); [|lia]. apply Z.div_lt_upper_bound; [done|lia]. }
  rewrite (proj2 (Z.leb_gt (expires_at r) (secs c))), andb_false_r by done. rewrite Hdata. done.
Qed.

(** C28. A refresh token works once: when a refresh with an issued token succeeds and its write of the
    revocation does not fail, every later refresh with the same token whose read of the
    revocation does not fail is refused with 401, whatever requests are handled in between and
    whatever calls of the store fail in them, for as long as the token has not expired and after.
    A refresh whose write fails still issues tokens and only logs, so the token works again
    then; so does one without a key-value store.  Requests are handled one after another. *)
Theorem refresh_token_single_use w c body j0 t0 id id' u tn rl m es c' body' F F' :
  let tok := RefreshToken (GenerateTokenPair j0 t0 id' id u tn rl m) in
  refreshExpiry j0 = 7 * 24 * Hour → t0 ≤ now c → id ≠ "" → tok ≠ "" → is_Some (kv w) →
  F (RevokedWrite id) = no_fault → F' RevokedRead = no_fault →
  refresh_token c body = tok → status (Refresh works F c w (Some body)).2 = 200 →
  in_range (secs c) → Forall (λ x, secs c ≤ at_second x ≤ 2 ^ 62) es →
  refresh_token c' body' = tok →
  status (Refresh works F' c' (runs (Refresh works F c w (Some body)).1 es) (Some body')).2 = 401.
Proof.
  cbv zeta. cbn [RefreshToken GenerateTokenPair]. intros Hexp Ht0 Hid Hne [k Hk] HF HF' Htok Hok Hs Hes Htok'.
  set (e := secs c + RefreshTokenTTLSeconds).
  assert (dead e id (Refresh works F c w (Some body)).1) as Hd.
  { unfold Refresh in *. cbv zeta in *. rewrite Htok, decide_False in * by done.
    pose proof (validate_refresh_issued (now c) (jwt w) j0 t0 id u) as Hv. cbv zeta in Hv.
    destruct (ValidateRefreshToken _ _ _) as [j [cl|]]; [|done]. destruct (Hv cl eq_refl) as [-> _]. cbn [rJTI rUserID] in *.
    destruct (is_revoked _ _ _ _); [done|]. destruct (GetUser _ _ _) as [user|]; [|done].
    destruct (GetUserMembership _ _ _) as [mb|]; [|done]. cbn [fst]. apply dead_track; [done..|].
    eapply dead_frame; [by apply access_frame|]. unfold revoke_refresh. cbn [kv with_jwt]. rewrite Hk, decide_False by done.
    rewrite HF. by apply (dead_new e id (with_jwt w j) c k). }
  eapply (dead_refused F' e); [exact HF'| |exact Hid| | |exact Htok'|exact Hne].
  - apply dead_runs; [|exact Hd]. eapply Forall_impl; [exact Hes|]. cbn. unfold in_range, e in *. lia.
  - rewrite Hexp. unfold e, secs. change RefreshTokenTTLSeconds with 604800. unfold time_unix, numeric_date.
    set (x := t0 + 7 * 24 * Hour). pose proof (Z.div_mod x Second ltac:(done)) as Hdm.
    replace (x - x mod Second) with (x / Second * Second) by lia. rewrite Z.div_mul by done.
    replace x with (t0 + 604800 * Second) by (unfold x, Hour, Minute; lia). rewrite Z.div_add by done.
    assert (t0 / Second ≤ now c / Second) by (apply Z.div_le_mono; [done|lia]). lia.
  - unfold e, in_range in *. change RefreshTokenTTLSeconds with 604800. lia.
Qed.

(** A refresh with a token that is signed with an accepted key, not expired and not
    revoked succeeds when the account is there. *)
Lemma refresh_succeeds w c body j0 t0 id u user mb :
  let tok := sign (secretKey j0) (refresh_claims j0 t0 id u) in
  wf (jwt w) → accepted (now c) (jwt w) (secretKey j0) → now c < numeric_date (t0 + refreshExpiry j0) →
  in_range (secs c) → in_range (time_unix t0) → secs c - time_unix t0 ≤ MaxAbsoluteSessionSeconds →
  refresh_token c body = tok → tok ≠ "" → is_revoked sound c w id = false →
  GetUser works (db w) u = Ok user → GetUserMembership works (db w) (uID user) = Ok mb →
  status (Refresh works sound c w (Some body)).2 = 200.
Proof.
  cbv zeta. intros Hw Hacc Hlt Hs Hs0 Habs Htok Hne Hrev Hu Hm. unfold Refresh. cbv zeta. rewrite Htok, decide_False by done.
  unfold ValidateRefreshToken. apply allKeys_accepted in Hacc; [|done]. destruct (allKeys (now c) (jwt w)) as [j' keys].
  cbn [snd] in Hacc. rewrite (first_key_complete (now c) keys) by (done || by apply refresh_claims_valid).
  cbn [fia refresh_claims]. fold (secs c). unfold in_range in *.
  rewrite i64_id by (split; unfold min_int64, max_int64; lia).
  rewrite (proj2 (Z.ltb_ge MaxAbsoluteSessionSeconds (secs c - time_unix t0))), andb_false_r by lia.
  cbn [rJTI rUserID sub jti refresh_claims]. unfold is_revoked in *. cbn [kv with_jwt] in *. rewrite Hrev.
  cbn [db with_jwt]. rewrite Hu, Hm. done.
Qed.

End Histories.

(** ** The limit on sessions *)

Definition by_age (a b : sessionInfo) : Prop := createdAt a ≤ createdAt b.

Lemma pass_spec x l : let '(m, r) := pass x l in
  m :: r ≡ₚ x :: l ∧ Forall (by_age m) r ∧ length r = length l.
Proof.
  unfold by_age. revert x. induction l as [|y l IH]; intros x; cbn [pass]; [done|].
  destruct (Z.ltb_spec (createdAt y) (createdAt x)) as [Hlt|Hge].
  - specialize (IH y). destruct (pass y l) as [m r]. destruct IH as (Hp & Hm & Hl). cbn [length]. split_and!; [| |lia].
    + by rewrite (Permutation_swap x m r), Hp.
    + constructor; [|done]. assert (y ∈ m :: r) as [->|Hin]%elem_of_cons by (rewrite Hp; by left); [lia|].
      rewrite Forall_forall in Hm. specialize (Hm y Hin). lia.
  - specialize (IH x). destruct (pass x l) as [m r]. destruct IH as (Hp & Hm & Hl). cbn [length]. split_and!; [| |lia].
    + rewrite (Permutation_swap y m r), Hp. apply Permutation_swap.
    + constructor; [|done]. assert (x ∈ m :: r) as [->|Hin]%elem_of_cons by (rewrite Hp; by left); [lia|].
      rewrite Forall_forall in Hm. specialize (Hm x Hin). lia.
Qed.

Lemma exchange_sort_spec n : ∀ l, (length l ≤ n)%nat →
  exchange_sort n l ≡ₚ l ∧ StronglySorted by_age (exchange_sort n l).
Proof.
  induction n as [|n IH]; intros [|x l] Hl; cbn [exchange_sort]; try (split; [done|by constructor]); [cbn in Hl; lia|].
  pose proof (pass_spec x l) as Hp. destruct (pass x l) as [m r]. destruct Hp as (Hperm & Hm & Hlen).
  destruct (IH r) as [Hp' Hs]; [cbn in Hl; lia|]. split; [by rewrite Hp'|]. constructor; [done|].
  rewrite Forall_forall in *. intros y Hy. apply Hm. by rewrite <-Hp'.
Qed.

(** The sessions of a user that the store tracks at the time of a call. *)
Definition tracked (c : call) (k : KVStore) (userID : string) : list sessionInfo :=
  match List_ (sound SessionList) (secs c) k "user_sessions" with
  | Ok keys => collect sound c k userID keys
  | Err _ => []
  end.

(** What is read under one key. *)
Definition session_at (c : call) (k : KVStore) (userID key : string) : option sessionInfo :=
  if HasPrefix key (userID +:+ ":") then
    match Get (sound (SessionRead key)) (secs c) k "user_sessions" key no_stub with
    | Ok s => Some {| skey := key; sjti := stubJTI s; createdAt := stubCreatedAt s |}
    | Err _ => None
    end
  else None.

Lemma session_at_key c k u key s : session_at c k u key = Some s → skey s = key.
Proof. unfold session_at. case_match; [|done]. case_match; [|done]. by intros [= <-]. Qed.

(** A row that is listed. *)
Definition live_row (now : Z) (k : KVStore) (key : string) : Prop :=
  ∃ r, rows k !! ("user_sessions", key) = Some r ∧ (expires_at r = 0 ∨ now < expires_at r) ∧ is_Some (data r).

(** The keys listed are those of the rows, each once. *)
Lemma listed_keys now k keys : List_ (sound SessionList) now k "user_sessions" = Ok keys →
  NoDup keys ∧ ∀ key, key ∈ keys ↔ live_row now k key.
Proof.
  unfold List_, bucketExists, sql, sound, no_fault. set (l := omap _ (map_to_list (rows k))). intros E.
  assert (l = keys) as <-.
  { clearbody l. destruct l; [|by injection E]. case_bool_decide; [by injection E|done]. }
  clear E. split.
  - unfold l. clear l. pose proof (NoDup_fst_map_to_list (rows k)) as Hnd.
    induction (map_to_list (rows k)) as [|[[b key] r] m IH]; [constructor|]. cbn [omap list_omap fmap list_fmap fst snd] in *.
    apply NoDup_cons in Hnd as [Hx Hnd]. destruct (decide _) as [(-> & _ & _)|]; [|by apply IH].
    constructor; [|by apply IH]. intros Hin. apply list_elem_of_omap in Hin as ([[b' key'] r'] & Hin & Hf).
    cbn [fst snd] in Hf. destruct (decide _) as [(-> & _ & _)|]; [|done]. injection Hf as ->.
    apply Hx. apply list_elem_of_fmap. by exists ("user_sessions", key, r').
  - intros key. unfold l, live_row. rewrite list_elem_of_omap. split.
    + intros ([[b' key'] r'] & Hin & Hf). cbn [fst snd] in Hf. destruct (decide _) as [(-> & He & Hd)|]; [|done].
      injection Hf as ->. apply elem_of_map_to_list in Hin. by exists r'.
    + intros (r & Hr & He & Hd). exists ("user_sessions", key, r). cbn [fst snd].
      by rewrite elem_of_map_to_list, decide_True.
Qed.

Lemma tracked_spec c k u : "user_sessions" ∈ buckets k →
  NoDup (skey <$> tracked c k u) ∧
  ∀ s, s ∈ tracked c k u ↔ session_at c k u (skey s) = Some s ∧ live_row (secs c) k (skey s).
Proof.
  intros Hb. unfold tracked. destruct (List_ _ _ _ _) as [keys|] eqn:E.
  2:{ exfalso. unfold List_, bucketExists, sql, sound, no_fault in E. rewrite bool_decide_true in E by done.
      by destruct (omap _ _). }
  destruct (listed_keys _ _ _ E) as [Hnd Hk]. change (collect sound c k u keys) with (omap (session_at c k u) keys).
  split.
  - clear E Hk. induction Hnd as [|key keys Hkey Hnd IH]; [constructor|]. cbn [omap list_omap].
    destruct (session_at c k u key) as [s|] eqn:Es; [|done]. cbn [fmap list_fmap]. constructor; [|done].
    rewrite (session_at_key _ _ _ _ _ Es). intros (s' & Hs' & Hin)%list_elem_of_fmap.
    apply list_elem_of_omap in Hin as (key' & Hin & Hk'). apply session_at_key in Hk'. congruence.
  - intros s. rewrite list_elem_of_omap. split.
    + intros (key & Hin & Hs). rewrite (session_at_key _ _ _ _ _ Hs). by apply Hk in Hin.
    + intros [Hs Hlive]. exists (skey s). split; [by apply Hk|done].
Qed.

(** Revoking a list of sessions: their rows go, each one's token is revoked, and other
    sessions keep their rows. *)
Lemma drops_spec c (l : list sessionInfo) : ∀ k,
  "user_sessions" ∈ buckets k → let k' := foldl (λ k s, drop_session sound c k (sjti s) (skey s)) k l in
  "user_sessions" ∈ buckets k' ∧
  ∀ key, rows k' !! ("user_sessions", key) = if decide (key ∈ skey <$> l) then None else rows k !! ("user_sessions", key).
Proof.
  induction l as [|s l IH]; intros k Hb; cbn [foldl]; cbv zeta.
  { split; [done|]. intros key. by rewrite decide_False by (cbn; apply not_elem_of_nil). }
  set (k1 := drop_session sound c k (sjti s) (skey s)).
  assert ("user_sessions" ∈ buckets k1 ∧ ∀ key, rows k1 !! ("user_sessions", key) =
            if decide (key = skey s) then None else rows k !! ("user_sessions", key)) as [Hb1 Hr1].
  { unfold k1, drop_session, Delete, bucketExists, Set_, sql, sound, no_fault. cbn [fst buckets upsert add_bucket].
    rewrite bool_decide_true by set_solver. cbn [negb fst buckets rows upsert add_bucket]. split; [set_solver|]. intros key.
    destruct (decide (key = skey s)) as [->|Hne]; [by rewrite lookup_delete_eq|].
    rewrite lookup_delete_ne, lookup_insert_ne by congruence. done. }
  destruct (IH k1 Hb1) as [Hb' Hr']. split; [done|]. intros key. rewrite Hr', Hr1. cbn [fmap list_fmap].
  destruct (decide (key ∈ skey <$> l)) as [Hin|Hin]; [by rewrite decide_True by (by right)|].
  destruct (decide (key = skey s)) as [->|Hne]; [by rewrite decide_True by (by left)|].
  rewrite decide_False; [done|]. by rewrite elem_of_cons; intros [|].
Qed.

Lemma session_at_row c k k' u key :
  rows k' !! ("user_sessions", key) = rows k !! ("user_sessions", key) →
  session_at c k' u key = session_at c k u key ∧ (live_row (secs c) k' key ↔ live_row (secs c) k key).
Proof. intros E. unfold session_at, live_row, Get, sql, sound, no_fault. by rewrite E. Qed.

(** At most ten sessions per user: when the limit has been enforced the store tracks at most ten
    sessions of the user, those that remain were tracked before, and one that was
    dropped is no younger than any that remains. *)
Theorem session_limit_keeps_newest w c u k :
  kv w = Some k → "user_sessions" ∈ buckets k →
  ∃ k', kv (enforceSessionLimit sound c w u) = Some k' ∧
    (length (tracked c k' u) ≤ maxConcurrentSessions)%nat ∧
    (∀ s, s ∈ tracked c k' u → s ∈ tracked c k u) ∧
    (∀ s s', s ∈ tracked c k u → s ∉ tracked c k' u → s' ∈ tracked c k' u → createdAt s ≤ createdAt s').
Proof.
  intros Hk Hb. destruct (tracked_spec c k u Hb) as [Hnd Hin]. unfold enforceSessionLimit. rewrite Hk.
  unfold tracked in Hnd, Hin. destruct (List_ _ _ _ _) as [keys|] eqn:EL.
  2:{ exfalso. unfold List_, bucketExists, sql, sound, no_fault in EL. rewrite bool_decide_true in EL by done.
      by destruct (omap _ _). }
  cbv zeta. set (found := collect sound c k u keys) in *.
  destruct (exchange_sort_spec (length found) found ltac:(done)) as [Hp Hs].
  set (so := exchange_sort (length found) found) in *. set (n := (length so - maxConcurrentSessions)%nat).
  destruct (drops_spec c (take n so) k Hb) as [Hb' Hr']. cbv zeta in Hb', Hr'.
  set (k' := foldl _ k (take n so)) in *. exists k'. split; [done|].
  destruct (tracked_spec c k' u Hb') as [Hnd' Hin'].
  assert (∀ s, s ∈ tracked c k' u ↔ s ∈ found ∧ skey s ∉ skey <$> take n so) as Hkept.
  { intros s. rewrite Hin', Hin. specialize (Hr' (skey s)). destruct (decide (skey s ∈ skey <$> take n so)) as [Hd|Hd].
    - split; [|by intros []]. intros [_ (r & Hr & _)]. by rewrite Hr' in Hr.
    - destruct (session_at_row c k k' u (skey s) Hr') as [-> ->]. tauto. }
  assert (NoDup (skey <$> so)) as Hndso by (by rewrite Hp).
  assert (∀ s, s ∈ so ↔ s ∈ found) as Hso by (intros; by rewrite Hp).
  assert (∀ s, s ∈ tracked c k' u → s ∈ drop n so) as Hdrop.
  { intros s Hs'. apply Hkept in Hs' as [Hf Hn]. apply Hso in Hf. rewrite <-(take_drop n so) in Hf.
    apply elem_of_app in Hf as [Hf|Hf]; [|done]. destruct Hn. by apply list_elem_of_fmap_2. }
  unfold tracked in *. rewrite EL. fold found. fold (tracked c k' u) in *. split_and!.
  - rewrite <-(length_fmap skey (tracked c k' u)).
    assert (length (skey <$> tracked c k' u) ≤ length (skey <$> drop n so))%nat as Hl.
    { apply NoDup_incl_length; [by apply NoDup_ListNoDup|]. intros key Hkey. apply list_elem_of_In in Hkey.
      apply list_elem_of_fmap in Hkey as (s & -> & Hs'). apply list_elem_of_In, list_elem_of_fmap_2. auto. }
    etrans; [exact Hl|]. rewrite length_fmap, length_drop. unfold n. lia.
  - intros s Hs'. by apply Hkept in Hs' as [].
  - intros s s' Hf Hgone Hs'. apply Hdrop in Hs'.
    assert (s ∈ take n so) as Ht.
    { rewrite Hkept in Hgone. destruct (decide (skey s ∈ skey <$> take n so)) as [Hd|Hd]; [|by destruct Hgone].
      apply list_elem_of_fmap in Hd as (s2 & Heq & Hs2). apply Hso in Hf.
      assert (s2 ∈ so) as Hs2' by (rewrite <-(take_drop n so); apply elem_of_app; by left).
      apply list_elem_of_lookup in Hf as [i Hi], Hs2' as [j Hj].
      assert (i = j) as -> by (eapply (NoDup_lookup (skey <$> so)); [done|rewrite list_lookup_fmap, Hi; done|rewrite list_lookup_fmap, Hj; cbn; by rewrite Heq]).
      by simplify_eq. }
    rewrite <-(take_drop n so) in Hs. by eapply (StronglySorted_app_1_elem_of by_age (take n so) (drop n so)).
Qed.

(** ** Invitations *)

(** No invitation with the hash can be redeemed any more. *)
Definition spent (h : string) (d : Db) : Prop :=
  ∀ id i, invitations d !! id = Some i → iTokenHash i = h → iStatus i ≠ "pending".

Definition by_invitation (mode : option string) : Prop :=
  default "invite_only" mode ∉ ["open"; "approval"].

Section Invitations.
Context `{JWTLib}.
Variable works : db_op → bool.
Variable fk : bool.
Variable vault : option ((string → option string) * (string → option string)).
Variables (totp_service : bool) (bcrypt_ok : string → string → bool) (HashPassword : string → option string).
Variables (ParseAddress : string → bool) (EqualFold : string → string → bool).

Notation step := (step works fk vault totp_service bcrypt_ok HashPassword ParseAddress EqualFold).
Notation runs := (runs works fk vault totp_service bcrypt_ok HashPassword ParseAddress EqualFold).
Notation Register := (Register works fk HashPassword ParseAddress EqualFold).

Lemma member_tables d email hash name st tn rl u m d' :
  CreateUserWithMembership works fk d email hash name st tn rl u m = Ok d' →
  invitations d' = invitations d ∧
  members d' !! m = Some {| Users.mTenantID := tn; mUserID := u; Users.mRoleID := rl; mStatus := "active" |}.
Proof.
  intros E%run_Ok. unfold insert_user, insert_member in E. repeat (case_decide; [done|]). injection E as <-.
  cbn. by rewrite lookup_insert_eq.
Qed.

Lemma tenant_invitations d name slug t p d' :
  CreateTenantWithDefaults works d name slug t p = Ok d' → invitations d' = invitations d.
Proof. intros E%run_Ok. case_decide; [done|]. by injection E as <-. Qed.

Lemma totp_invitations fails c w u code :
  invitations (db (validateTOTP works fails vault totp_service bcrypt_ok c w u code).1) = invitations (db w).
Proof.
  unfold validateTOTP. destruct totp_service; [|done].
  set (s := {| Totp.db := db w; Totp.replay := kv w |}).
  assert (∀ s' v code', invitations (Totp.db (Totp.consumeBackupCode works bcrypt_ok s' v code').1) = invitations (Totp.db s')) as Hc.
  { intros s' v code'. unfold Totp.consumeBackupCode. case_decide; [done|]. destruct (GetUser _ _ _); [|done].
    destruct (negb _); [done|]. destruct (list_find _ _) as [[]|]; [|done].
    destruct (UpdateTOTPBackupCodes _ _ _ _) eqn:E; [|done]. apply run_Ok in E. by injection E as <-. }
  assert (invitations (Totp.db (Totp.ValidateContext works (fails TotpCall) vault bcrypt_ok (secs c) s u code).1) = invitations (db w)) as Hv.
  { unfold Totp.ValidateContext.
    assert (Totp.db (Totp.validateStoredSecret works (fails TotpCall) vault (secs c) s u code true).1 = db w) as Hs.
    { unfold Totp.validateStoredSecret, Totp.claim_step. repeat case_match; by simplify_eq/=. }
    destruct (Totp.validateStoredSecret _ _ _ _ _ _ _ _) as [s' []]; cbn [fst] in *; [by rewrite Hs|by rewrite Hc, Hs]. }
  by destruct (Totp.ValidateContext _ _ _ _ _ _ _ _).
Qed.

Lemma db_increment fails c w e : db (incrementPerAccountRateLimit fails c w e) = db w.
Proof.
  unfold incrementPerAccountRateLimit. destruct (kv w); [|done].
  destruct (match Get _ _ _ _ _ _ with Ok _ => _ | Err _ => _ end); [|done]. by case_match.
Qed.

Lemma db_track fails c w u t : db (trackSession fails c w u t) = db w.
Proof.
  unfold trackSession, enforceSessionLimit. destruct (kv w); [|done].
  destruct (ValidateRefreshToken _ _ _) as [j [cl|]]; [|done]. destruct (Set_ _ _ _ _ _ _ _) as [k' []]; [|done].
  cbn [kv with_kv]. by destruct (List_ _ _ _ _).
Qed.

Lemma db_access fails c w : db (revokeAccessTokenFromRequest fails c w) = db w.
Proof.
  unfold revokeAccessTokenFromRequest. destruct (kv w); [|done]. case_decide; [done|].
  destruct (ValidateAccessToken _ _ _) as [j [p|]]; [|done]. destruct (exp p); [|done]. by case_decide.
Qed.

Lemma db_revoke fails c w j : db (revoke_refresh fails c w j) = db w.
Proof. unfold revoke_refresh. destruct (kv w); [|done]. by case_decide. Qed.

Lemma db_current fails c w cl : db (revoke_current fails c w cl) = db w.
Proof. unfold revoke_current. destruct (kv w); [|done]. destruct (Access.ExpiresAt cl); [|done]. by case_decide. Qed.

Lemma db_revoke_all fails c w u : db (revokeAllUserSessions fails c w u).1 = db w.
Proof. unfold revokeAllUserSessions. destruct (GetUserSessions _ _ _ _); [|done]. by destruct (kv w). Qed.

(** Only registration touches the invitations. *)
Lemma other_invitations w x : (∀ c dr mode b, ev x ≠ ERegister c dr mode b) →
  invitations (db (step w x).1) = invitations (db w).
Proof.
  destruct x as [e F]. cbn [ev]. intros Hne. destruct e as [c [req|]|c [tok|]|c [tok|]|c dr mode b|c [cl|]|c [cl|] [[cur new]|]]; try done; cbn [Login.step ev faults].
  - unfold Login. cbv zeta. case_decide; [done|]. destruct (_ <? _)%nat; [done|].
    destruct (GetUserByEmail _ _ _) as [user|[]]; try done. destruct (loginRateLimitCheck _ _ _ _ _); [done|].
    destruct (negb _); [cbn [fst]; by rewrite db_increment|].
    unfold second_factor. pose proof (totp_invitations F c w (uID user) (lTOTPCode req)) as Ht.
    destruct (negb (TOTPEnabled user)); [|case_decide; [done|destruct (validateTOTP _ _ _ _ _ _ _ _ _) as [w' []]]];
      cbn [fst] in *; try (by rewrite db_increment);
      (destruct (GetUserMembership _ _ _); cbn [fst]; [by rewrite db_track|done]).
  - unfold Refresh. cbv zeta. case_decide; [done|]. destruct (ValidateRefreshToken _ _ _) as [j [cl|]]; [|done].
    destruct (is_revoked _ _ _ _); [done|]. destruct (GetUser _ _ _) as [u|]; [|done].
    destruct (GetUserMembership _ _ _) as [m|]; [|done]. cbn [fst]. by rewrite db_track, db_access, db_revoke.
  - unfold Logout. cbv zeta. case_decide; [cbn [fst]; by rewrite db_access|].
    destruct (ValidateRefreshToken _ _ _) as [j [cl|]]; cbn [fst]; rewrite ?db_revoke; cbn; by rewrite db_access.
  - by destruct (Hne c dr mode b).
  - unfold LogoutAll. pose proof (db_revoke_all F c w (Access.UserID cl)) as Hr.
    destruct (revokeAllUserSessions _ _ _ _) as [w' []]; cbn [fst] in *; rewrite ?db_current; by rewrite Hr.
  - unfold ChangePassword. destruct (_ <? _)%nat; [done|]. destruct (GetUser _ _ _); [|done].
    destruct (negb _); [done|]. destruct (Password.ValidatePasswordStrength _ _); [|done].
    destruct (HashPassword new); [|done]. destruct (UpdatePassword _ _ _ _) as [d|] eqn:E; [|done]. cbn [fst].
    rewrite db_current, db_revoke_all. apply run_Ok in E. by injection E as <-.
Qed.

(** The invitation a code stands for, and that redeeming it spends it. *)
Lemma redeem_spends c w code email w' inv : db_ok (db w) →
  redeemInvite works EqualFold c w code email = (w', Ok inv) →
  (∃ id, invitations (db w) !! id = Some inv) ∧ iTokenHash inv = hashToken code ∧ iStatus inv = "pending" ∧
  now c ≤ iExpiresAt inv ∧ (iEmail inv = "" ∨ EqualFold (iEmail inv) email = true) ∧ spent (hashToken code) (db w').
Proof.
  intros Hdb. unfold redeemInvite. destruct (GetInviteByTokenHash _ _ _) as [[id i]|[]] eqn:Eg; try done.
  apply run_Ok in Eg. destruct (first_row _ _) as [[id' i']|] eqn:Ef; [|done]. injection Eg as -> ->.
  apply first_row_Some in Ef as [Hi Hh]. apply bool_decide_eq_true in Hh. case_decide as Hp; [done|].
  destruct (Z.ltb_spec (iExpiresAt i) (now c)); [done|].
  destruct (negb (bool_decide _) && negb _) eqn:Ee; [done|]. destruct (AcceptInvite _ _ _ _) as [d|] eqn:Ea; [|done].
  intros [= <- <-]. apply run_Ok in Ea. rewrite Hi, decide_True in Ea by done. injection Ea as <-.
  split_and!; [by exists id|done..| |].
  - apply andb_false_iff in Ee as [Ee|Ee]; apply negb_false_iff in Ee; [left; by apply bool_decide_eq_true in Ee|by right].
  - intros id2 i2. cbn [db with_db with_invitations invitations]. intros [[<- <-]|[Hne Hi2]]%lookup_insert_Some Hh2; [done|].
    destruct Hne. eapply (token_unique _ Hdb); [exact Hi|exact Hi2|congruence].
Qed.

(** Redeeming some invitation leaves the spent ones spent. *)
Lemma redeem_keeps_spent h c w code email :
  spent h (db w) → spent h (db (redeemInvite works EqualFold c w code email).1).
Proof.
  intros Hs. unfold redeemInvite. destruct (GetInviteByTokenHash _ _ _) as [[id i]|[]]; try done. case_decide; [done|].
  destruct (_ <? _); [done|]. destruct (_ && _); [done|]. destruct (AcceptInvite _ _ _ _) as [d|] eqn:Ea; [|done].
  apply run_Ok in Ea. destruct (invitations (db w) !! id) as [j|] eqn:Ej; [|done]. case_decide; [|done]. injection Ea as <-.
  intros id2 i2. cbn. intros [[<- <-]|[_ Hi2]]%lookup_insert_Some Hh; [done|]. by eapply Hs.
Qed.

Lemma register_keeps_spent h c dr mode w body : spent h (db w) → spent h (db (Register c dr mode w body).1).
Proof.
  intros Hs. unfold Login.Register. cbv zeta. case_decide; [done|]. destruct body as [req|]; [|done].
  destruct (register_fields _ _); [|done]. destruct (GetUserByEmail _ _ _); [done|].
  match goal with |- context [join_tenant ?x1 ?x2 ?x3 ?x4 ?x5 ?x6 ?x7 ?x8] =>
    assert (spent h (db (join_tenant x1 x2 x3 x4 x5 x6 x7 x8).1)) as Hj;
    [|destruct (join_tenant x1 x2 x3 x4 x5 x6 x7 x8) as [w' [[tn rl]|r]]; [|done]] end.
  { unfold join_tenant. case_decide.
    - destruct (CreateTenantWithDefaults _ _ _ _ _ _) eqn:E; [|done]. apply tenant_invitations in E.
      unfold spent. cbn. by rewrite E.
    - case_decide; [done|]. pose proof (redeem_keeps_spent h c w (rgInviteCode req) (rgEmail req) Hs) as Hr.
      by destruct (redeemInvite _ _ _ _ _ _) as [? []]. }
  destruct (HashPassword _); [|done]. destruct (CreateUserWithMembership _ _ _ _ _ _ _ _ _ _ _) eqn:E; [|done].
  apply member_tables in E as [E _]. unfold spent. cbn. by rewrite E.
Qed.

Lemma runs_keep_spent h es : ∀ w, spent h (db w) → spent h (db (runs w es)).
Proof.
  induction es as [|[e F] es IH]; intros w Hs; [done|]. apply IH.
  assert ((∀ c dr mode b, e ≠ ERegister c dr mode b) ∨ ∃ c dr mode b, e = ERegister c dr mode b) as [Hne|(c & dr & mode & b & ->)]
    by (destruct e; (right; by eauto 10) || (left; done)).
  - unfold spent. by rewrite other_invitations.
  - by apply register_keeps_spent.
Qed.

(** A registration by invitation, and what it takes for it to succeed. *)
Lemma register_invited c dr mode w req : db_ok (db w) → by_invitation mode →
  status (Register c dr mode w (Some req)).2 = 201 →
  ∃ inv, (∃ id, invitations (db w) !! id = Some inv) ∧ iTokenHash inv = hashToken (rgInviteCode req) ∧
    iStatus inv = "pending" ∧ now c ≤ iExpiresAt inv ∧ (iEmail inv = "" ∨ EqualFold (iEmail inv) (rgEmail req) = true) ∧
    members (db (Register c dr mode w (Some req)).1) !! d_member dr =
      Some {| Users.mTenantID := iTenantID inv; mUserID := d_user dr; Users.mRoleID := iRoleID inv; mStatus := "active" |} ∧
    spent (hashToken (rgInviteCode req)) (db (Register c dr mode w (Some req)).1).
Proof.
  intros Hdb Hmode. unfold by_invitation in Hmode. rewrite !not_elem_of_cons in Hmode. destruct Hmode as (Ho & Ha & _).
  unfold Login.Register. cbv zeta. case_decide; [done|]. destruct (register_fields _ _); [|done].
  destruct (GetUserByEmail _ _ _); [done|]. unfold join_tenant. rewrite decide_False by tauto. case_decide; [done|].
  destruct (redeemInvite _ _ _ _ _ _) as [w' [inv|]] eqn:Er; [|done].
  apply redeem_spends in Er as (Hid & Hh & Hp & Ht & He & Hsp); [|done].
  destruct (HashPassword _); [|done]. destruct (CreateUserWithMembership _ _ _ _ _ _ _ _ _ _ _) as [d|] eqn:E; [|done].
  intros _. apply member_tables in E as [Einv Hm]. exists inv. cbn [fst db with_db]. split_and!; try done.
  unfold spent. by rewrite Einv.
Qed.

(** An invitation admits one account: registration by invitation succeeds only with the code of a pending,
    unexpired invitation for that address, the account joins the invitation's tenant
    with its role and, whatever requests follow, nobody registers with the code again. *)
Theorem invitation_admits_one_account c dr mode w req es c' dr' mode' req' :
  db_ok (db w) → by_invitation mode → by_invitation mode' →
  status (Register c dr mode w (Some req)).2 = 201 → rgInviteCode req' = rgInviteCode req →
  (∃ inv, (∃ id, invitations (db w) !! id = Some inv) ∧ iTokenHash inv = hashToken (rgInviteCode req) ∧
     iStatus inv = "pending" ∧ now c ≤ iExpiresAt inv ∧ (iEmail inv = "" ∨ EqualFold (iEmail inv) (rgEmail req) = true) ∧
     members (db (Register c dr mode w (Some req)).1) !! d_member dr =
       Some {| Users.mTenantID := iTenantID inv; mUserID := d_user dr; Users.mRoleID := iRoleID inv; mStatus := "active" |}) ∧
  status (Register c' dr' mode' (runs (Register c dr mode w (Some req)).1 es) (Some req')).2 ≠ 201.
Proof.
  intros Hdb Hm Hm' Hok Hcode. destruct (register_invited c dr mode w req Hdb Hm Hok) as (inv & Hid & Hh & Hp & Ht & He & Hmem & Hsp).
  split; [by exists inv|]. set (w2 := runs _ es). assert (spent (hashToken (rgInviteCode req)) (db w2)) as Hsp2 by by apply runs_keep_spent.
  unfold by_invitation in Hm'. rewrite !not_elem_of_cons in Hm'. destruct Hm' as (Ho & Ha & _).
  unfold Login.Register. cbv zeta. case_decide; [done|]. destruct (register_fields _ _); [|done].
  destruct (GetUserByEmail _ _ _); [done|]. unfold join_tenant. rewrite decide_False by tauto. case_decide; [done|].
  rewrite Hcode. unfold redeemInvite. destruct (GetInviteByTokenHash _ _ _) as [[id2 i2]|[]] eqn:Eg; try done.
  apply run_Ok in Eg. destruct (first_row _ _) as [[id' i']|] eqn:Ef; [|done]. injection Eg as -> ->.
  apply first_row_Some in Ef as [Hi Hh2]. apply bool_decide_eq_true in Hh2.
  rewrite decide_True by (by eapply Hsp2). done.
Qed.

End Invitations.

(** ** Sessions that are not tracked *)

Section Untracked.
Context `{JWTLaws}.
Variable fk : bool.
Variables (HashPassword : string → option string) (ParseAddress : string → bool) (EqualFold : string → string → bool).

(** No tracked session, of whatever user, has the token identifier. *)
Definition untracked (k : KVStore) (jti : string) : Prop :=
  ∀ key r s, rows k !! ("user_sessions", key) = Some r → (data r ≫= λ d, unmarshal d no_session) = Some s → sJTI s ≠ jti.

Lemma drops_other {A} c (f g : A → string) l jti : ∀ k, (∀ x, x ∈ l → f x ≠ jti) →
  rows (foldl (λ k s, drop_session sound c k (f s) (g s)) k l) !! ("revoked_tokens", jti) = rows k !! ("revoked_tokens", jti).
Proof.
  induction l as [|x l IH]; intros k Hl; [done|]. cbn [foldl]. rewrite IH by (intros; apply Hl; by right).
  unfold drop_session. rewrite rows_delete by done. unfold Set_, sql, sound, no_fault. cbn.
  rewrite lookup_insert_ne; [done|]. intros [= E]. apply (Hl x); [by left|done].
Qed.

Lemma insert_by_elem x l s : s ∈ insert_by x l → s = x ∨ s ∈ l.
Proof.
  induction l as [|y l IH]; cbn [insert_by]; [by intros ?%list_elem_of_singleton; left|].
  case_match; [by intros [|]%elem_of_cons; [left|right]|]. intros [->|Hs]%elem_of_cons; [right; by left|].
  destruct (IH Hs) as [|]; [by left|right; by right].
Qed.

Lemma sort_elem l s : s ∈ sort_by_creation l → s ∈ l.
Proof.
  unfold sort_by_creation. assert (∀ acc, s ∈ foldl (λ acc x, insert_by x acc) acc l → s ∈ acc ∨ s ∈ l) as Hg.
  { induction l as [|x l IH]; intros acc Hs; [by left|]. cbn [foldl] in Hs.
    destruct (IH _ Hs) as [Hi|Hi]; [|right; by right]. apply insert_by_elem in Hi as [->|]; [right; by left|by left]. }
  intros Hs. destruct (Hg [] Hs) as [Hn|]; [by apply elem_of_nil in Hn|done].
Qed.

Lemma revoke_all_untracked c w k u jti : kv w = Some k → untracked k jti →
  cell (revokeAllUserSessions sound c w u).1 "revoked_tokens" jti = cell w "revoked_tokens" jti.
Proof.
  intros Hk Hun. unfold revokeAllUserSessions. destruct (GetUserSessions sound c w u) as [ss|] eqn:E; [|done].
  rewrite Hk. cbn [fst]. unfold cell. cbn [kv with_kv fmap option_fmap option_map]. rewrite Hk. cbn. f_equal.
  apply drops_other. intros s Hs. unfold GetUserSessions in E. rewrite Hk in E.
  destruct (List_ _ _ _ _) as [keys|]; [|done]. injection E as <-. apply sort_elem, list_elem_of_omap in Hs as (key & _ & Hs).
  destruct (HasPrefix _ _); [|done]. unfold Get, sql, sound, no_fault in Hs.
  destruct (rows k !! ("user_sessions", key)) as [r|] eqn:Er; [|done]. destruct (expired _ _); [done|].
  destruct (data r ≫= _) as [s'|] eqn:Es; [|done]. injection Hs as ->. by eapply Hun.
Qed.

Lemma logout_all_fixed c w cl :
  db (LogoutAll sound c w (Some cl)).1 = db w ∧ jwt (LogoutAll sound c w (Some cl)).1 = jwt w.
Proof.
  assert (∀ w', jwt (revoke_current sound c w' cl) = jwt w') as Hj.
  { intros w'. unfold revoke_current. destruct (kv w'); [|done]. destruct (Access.ExpiresAt cl); [|done]. by case_decide. }
  assert (jwt (revokeAllUserSessions sound c w (Access.UserID cl)).1 = jwt w) as Hr.
  { unfold revokeAllUserSessions. destruct (GetUserSessions _ _ _ _); [|done]. by destruct (kv w). }
  unfold LogoutAll. pose proof (db_revoke_all sound c w (Access.UserID cl)) as Hd.
  destruct (revokeAllUserSessions _ _ _ _) as [w' []]; cbn [fst] in *; rewrite ?db_current, ?Hj; by rewrite Hd, Hr.
Qed.

Lemma join_jwt works c dr mode name w req : jwt (join_tenant works EqualFold c dr mode name w req).1 = jwt w.
Proof.
  unfold join_tenant, redeemInvite. case_decide; [by destruct (CreateTenantWithDefaults _ _ _ _ _ _)|]. case_decide; [done|].
  destruct (GetInviteByTokenHash _ _ _) as [[]|[]]; try done. case_decide; [done|]. destruct (_ <? _); [done|].
  destruct (_ && _); [done|]. by destruct (AcceptInvite _ _ _ _).
Qed.

(** What a successful registration leaves behind: the account, its membership and a
    token, with the key-value store as it was. *)
Lemma register_result c dr mode w req :
  let '(w', r) := Register all_work fk HashPassword ParseAddress EqualFold c dr mode w (Some req) in
  status r = 201 →
  kv w' = kv w ∧ jwt w' = jwt w ∧ (∃ user, users (db w') !! d_user dr = Some user ∧ uID user = d_user dr) ∧
  (∃ m, members (db w') !! d_member dr = Some m ∧ mUserID m = d_user dr ∧ mStatus m = "active") ∧
  ∃ t, pair r = Some t ∧ RefreshToken t = sign (secretKey (jwt w)) (refresh_claims (jwt w) (now c) (id_refresh c) (d_user dr)).
Proof.
  pose proof (register_frame all_work fk HashPassword ParseAddress EqualFold c dr mode w (Some req)) as Hkv.
  unfold Register in *. cbv zeta in *. case_decide; [done|]. destruct (register_fields _ _); [|done].
  destruct (GetUserByEmail _ _ _); [done|].
  match goal with |- context [join_tenant ?x1 ?x2 ?x3 ?x4 ?x5 ?x6 ?x7 ?x8] =>
    assert (jwt (join_tenant x1 x2 x3 x4 x5 x6 x7 x8).1 = jwt w) as Hj;
    [|destruct (join_tenant x1 x2 x3 x4 x5 x6 x7 x8) as [w' [[tn rl]|r]] eqn:EJ] end.
  { apply join_jwt. }
  2:{ intros Hst. exfalso. unfold join_tenant in EJ. revert EJ. generalize (if decide (rgName req = "") then rgEmail req else rgName req).
      intros nm EJ. case_decide; [destruct (CreateTenantWithDefaults _ _ _ _ _ _); by simplify_eq/=|].
      case_decide; [by simplify_eq/=|]. destruct (redeemInvite _ _ _ _ _ _) as [? []]; by simplify_eq/=. }
  destruct (HashPassword _); [|done]. destruct (CreateUserWithMembership _ _ _ _ _ _ _ _ _ _ _) as [d|] eqn:E; [|done].
  intros _. cbn [fst] in *. cbn [kv jwt with_db db]. split; [done|]. split; [done|].
  pose proof (member_tables _ _ _ _ _ _ _ _ _ _ _ _ E) as [_ Hm].
  split.
  - apply run_Ok in E. unfold insert_user, insert_member in E. repeat (case_decide; [done|]). injection E as <-.
    cbn. rewrite lookup_insert_eq. by eexists.
  - split; [by eexists|]. unfold signed_in, issue, GenerateTokenPair. cbn [pair jwt with_db]. rewrite <-Hj. by eexists.
Qed.

(** Signing out everywhere misses the session a registration opened: its refresh token is not tracked, so
    after the new user asks for all sessions to be ended the token still refreshes, until
    it expires. *)
Theorem registration_session_survives c dr mode w req k c1 cl c2 t :
  let '(w1, r) := Register all_work fk HashPassword ParseAddress EqualFold c dr mode w (Some req) in
  status r = 201 → pair r = Some t → kv w = Some k → untracked k (id_refresh c) →
  rows k !! ("revoked_tokens", id_refresh c) = None → wf (jwt w) → refreshExpiry (jwt w) = 7 * 24 * Hour →
  RefreshToken t ≠ "" → in_range (secs c) → in_range (secs c2) → now c ≤ now c2 → now c2 < numeric_date (now c + 7 * 24 * Hour) →
  status (Refresh all_work sound c2 (LogoutAll sound c1 w1 (Some cl)).1 (Some (RefreshToken t))).2 = 200.
Proof.
  pose proof (register_result c dr mode w req) as Hreg. destruct (Register _ _ _ _ _ _ _ _ _ _) as [w1 r].
  intros Hst Hpair Hk Hun Hrow Hwf Hexp Hne Hr Hr2 Hle Hlt.
  destruct (Hreg Hst) as (Hkv & Hjwt & (user & Huser & Huid) & (m & Hm & Hmu & Hma) & t' & Ht' & Htok).
  rewrite Hpair in Ht'. injection Ht' as <-. destruct (logout_all_fixed c1 w1 cl) as [Hdb Hj].
  set (w2 := (LogoutAll sound c1 w1 (Some cl)).1) in *.
  assert (cell w2 "revoked_tokens" (id_refresh c) = Some None) as Hcell.
  { unfold w2, LogoutAll. pose proof (revoke_all_untracked c1 w1 k (Access.UserID cl) (id_refresh c) ltac:(congruence) Hun) as Hc.
    assert (cell w1 "revoked_tokens" (id_refresh c) = Some None) as Hc1 by (unfold cell; by rewrite Hkv, Hk; cbn; rewrite Hrow).
    rewrite Hc1 in Hc. destruct (revokeAllUserSessions _ _ _ _) as [w' []]; cbn [fst] in *; [|done].
    by rewrite (current_frame sound c1 w' cl "revoked_tokens" ltac:(done)). }
  assert (time_unix (now c) ≤ secs c2 ∧ secs c2 - time_unix (now c) ≤ 604800) as [Hs1 Hs2].
  { unfold secs, time_unix, numeric_date in *. set (x := now c + 7 * 24 * Hour) in *.
    pose proof (Z.mod_pos_bound x Second ltac:(done)).
    assert (now c2 ≤ now c + 604800 * Second) as Hub by (unfold x, Hour, Minute in *; lia).
    assert (now c / Second ≤ now c2 / Second) by (apply Z.div_le_mono; [done|lia]).
    assert (now c2 / Second ≤ (now c + 604800 * Second) / Second) by (apply Z.div_le_mono; [done|lia]).
    rewrite Z.div_add in * by done. lia. }
  assert (is_Some (first_row (members (db w2)) (λ m, bool_decide (mUserID m = d_user dr ∧ mStatus m = "active")))) as [[mid mb] Hmb].
  { destruct (first_row _ _) eqn:E; [by eexists|exfalso]. rewrite Hdb in E.
    eapply (first_row_free _ _ ltac:(rewrite E; by intros []) _ _ Hm). by rewrite bool_decide_true. }
  rewrite Htok in *.
  apply (refresh_succeeds all_work w2 c2 _ (jwt w) (now c) (id_refresh c) (d_user dr) user mb); rewrite ?Hj, ?Hjwt; try done.
  - by left.
  - by rewrite Hexp.
  - change MaxAbsoluteSessionSeconds with 2592000. lia.
  - unfold refresh_token. by rewrite decide_False.
  - unfold is_revoked. destruct (cell_kv _ _ _ _ Hcell) as (k2 & -> & Hr2'). unfold Get, sql, sound, no_fault.
    rewrite Hr2'. by rewrite andb_false_r.
  - unfold GetUser, run. cbn [all_work]. by rewrite Hdb, Huser.
  - unfold GetUserMembership, run. cbn [all_work]. by rewrite Huid, Hmb.
Qed.

End Untracked.

(** ** Examples *)

(** A tenant with one account, an open and an empty invitation, and no session yet. *)
Definition ann : User :=
  {| uID := "u1"; uEmail := "a@acme.test"; PasswordHash := "hash"; uName := "Ann"; AvatarURL := "";
     uStatus := "active"; TOTPEnabled := false; TOTPSecret := ""; TOTPBackupCodes := [] |}.
Definition acme_db : Db :=
  {| users := {[ "u1" := ann ]};
     members := {[ "m1" := {| Users.mTenantID := "t1"; mUserID := "u1"; Users.mRoleID := "role_owner"; mStatus := "active" |} ]};
     tenants := {[ "t1" := {| tName := "Acme"; tSlug := "acme"; tAvatarURL := ""; tPlanID := "free"; tOwnerID := "u1"; tStatus := "active"; tLimitsJSON := "{}"; tMetadataJSON := "{}" |} ]};
     projects := ∅;
     invitations := {[ "i1" := {| iTenantID := "t1"; iEmail := "b@acme.test"; iRoleID := "role_developer"; iInvitedBy := "u1";
                                  iTokenHash := hashToken "let-me-in"; iExpiresAt := issue_time + 7 * 24 * Hour;
                                  iAcceptedAt := None; iStatus := "pending" |} ]} |}.
Definition acme : world := {| db := acme_db; kv := Some empty_store; jwt := issuer |}.

Definition plain_request : Request :=
  {| Method := "POST"; Path := "/"; Header := ∅; Cookies := ∅; RemoteAddr := "192.0.2.1:4711" |}.
Definition at_time (t : instant) : call :=
  {| now := t; http := plain_request; tls := true; id_access := "a1"; id_refresh := "r1"; csrf_token := "x" |}.

Lemma acme_db_ok : db_ok acme_db.
Proof.
  split; cbn [acme_db users members tenants invitations].
  - by intros id u [<- <-]%lookup_singleton_Some.
  - by intros a b u v [<- _]%lookup_singleton_Some [<- _]%lookup_singleton_Some.
  - intros id m [<- <-]%lookup_singleton_Some. by eexists.
  - by intros a b m n [<- _]%lookup_singleton_Some [<- _]%lookup_singleton_Some.
  - by intros a b m n [<- _]%lookup_singleton_Some [<- _]%lookup_singleton_Some.
  - by intros a b m n [<- _]%lookup_singleton_Some [<- _]%lookup_singleton_Some.
Qed.

(** Seven wrong passwords within a minute: the first five are counted, the account is
    locked for the other two. *)
Definition attempts : list turn :=
  (λ i, {| ev := ELogin (at_time (issue_time + i * Second)) (Some {| lEmail := "a@acme.test"; lPassword := "wrong"; lTOTPCode := "" |});
           faults := sound |}) <$> [1; 2; 3; 5; 8; 13; 21].

(** The same with a store whose reads of the lock fail: all seven are tried. *)
Example lockout_fails_open :
  let deaf := λ x, match x with LockRead | CountRead => λ _, true | _ => no_fault end in
  zlen (@guesses toy_lib all_work true None true (λ _ _, false) (λ p, Some p) (λ _, true) (λ a b, bool_decide (a = b))
          "a@acme.test" acme ((λ x, {| ev := ev x; faults := deaf |}) <$> attempts)) = 7.
Proof. vm_compute. reflexivity. Qed.

Lemma failed_guesses_bounded_witness :
  let gs := @guesses toy_lib all_work true None true (λ _ _, false) (λ p, Some p) (λ _, true) (λ a b, bool_decide (a = b))
              "a@acme.test" acme attempts in
  zlen gs = 5 ∧ zlen (filter (λ s, 1700000000 ≤ s < 1700000000 + window) gs) ≤ 5.
Proof.
  cbv zeta. split; [vm_compute; reflexivity|].
  apply (@failed_guesses_bounded toy_lib all_work true None true (λ _ _, false) (λ p, Some p) (λ _, true)
           (λ a b, bool_decide (a = b)) "a@acme.test" acme attempts 1700000000).
  - vm_compute. reflexivity.
  - unfold attempts. cbn [fmap list_fmap]. repeat constructor.
  - vm_compute. repeat constructor; done.
  - unfold attempts. cbn [fmap list_fmap]. repeat constructor; vm_compute; done.
Defined.

(** Twelve sessions of a user. *)
Definition crowded : KVStore :=
  foldl (λ k i, (Set_ no_fault (secs (at_time issue_time)) k "user_sessions" ("u1:s" +:+ itoa i)
    (Some (marshal {| sUserID := "u1"; sJTI := "s" +:+ itoa i; sIP := ""; sUserAgent := "";
                      sCreatedAt := issue_time + ((i * 7) mod 12) * Second |})) RefreshTokenTTLSeconds).1)
    empty_store (seqZ 0 12).

Lemma session_limit_keeps_newest_witness :
  length (tracked (at_time issue_time) crowded "u1") = 12%nat ∧
  ∃ k', kv (enforceSessionLimit sound (at_time issue_time) {| db := acme_db; kv := Some crowded; jwt := issuer |} "u1") = Some k' ∧
    (length (tracked (at_time issue_time) k' "u1") ≤ maxConcurrentSessions)%nat.
Proof.
  split; [vm_compute; reflexivity|].
  destruct (session_limit_keeps_newest {| db := acme_db; kv := Some crowded; jwt := issuer |} (at_time issue_time) "u1" crowded)
    as (k' & Hk & Hl & _); [done|apply (bool_decide_unpack _); vm_compute; exact I|].
  exists k'. split; [exact Hk|exact Hl].
Defined.

(** The invited account registers; the code is spent. *)
Definition stub_lib : JWTLib := {| sign := λ _ _, "token"; verify := λ _ _, None |}.
Definition ids : drawn :=
  {| d_user := "u2"; d_member := "m2"; d_tenant := "t2"; d_project := "p2"; d_slug := "00000000"; d_suffix := "11111111" |}.
Definition invited : registerRequest :=
  {| rgEmail := "b@acme.test"; rgPassword := "Correct-Horse7"; rgName := "Bea"; rgInviteCode := "let-me-in" |}.
Definition reg_invited (t : instant) (w : world) : world * response :=
  @Register stub_lib all_work true (λ p, Some p) (λ _, true) (λ a b, bool_decide (a = b)) (at_time t) ids None w (Some invited).

Lemma invitation_admits_one_account_witness :
  status (reg_invited issue_time acme).2 = 201 ∧
  status (reg_invited (issue_time + Second) (reg_invited issue_time acme).1).2 ≠ 201.
Proof.
  assert (status (reg_invited issue_time acme).2 = 201) as Hok by (vm_compute; reflexivity). split; [exact Hok|].
  unfold reg_invited in *.
  refine (proj2 (@invitation_admits_one_account stub_lib all_work true None true (λ _ _, false) (λ p, Some p) (λ _, true)
            (λ a b, bool_decide (a = b)) (at_time issue_time) ids None acme invited [] (at_time (issue_time + Second)) ids None invited
            acme_db_ok _ _ Hok eq_refl)); apply (bool_decide_unpack _); vm_compute; exact I.
Defined.

(** A refresh two days after the token was issued, and again a day later. *)
Definition first_pair : TokenPair := @GenerateTokenPair toy_lib issuer issue_time "a0" "r0" "u1" "t1" "role_owner" "a@acme.test".
Definition refresh_at (t : instant) (w : world) : world * response :=
  @Refresh toy_lib all_work sound (at_time t) w (Some (RefreshToken first_pair)).

Lemma first_pair_ne : RefreshToken first_pair ≠ "".
Proof. unfold first_pair. cbn [RefreshToken GenerateTokenPair sign toy_lib]. done. Qed.

Lemma refresh_token_at t : refresh_token (at_time t) (RefreshToken first_pair) = RefreshToken first_pair.
Proof. unfold refresh_token. by rewrite decide_False by apply first_pair_ne. Qed.

Lemma first_refresh : status (refresh_at (issue_time + 48 * Hour) acme).2 = 200.
Proof.
  unfold refresh_at.
  apply (@refresh_succeeds toy_lib all_work toy_laws acme (at_time (issue_time + 48 * Hour)) _ issuer issue_time "r0" "u1" ann
           {| Users.mTenantID := "t1"; mUserID := "u1"; Users.mRoleID := "role_owner"; mStatus := "active" |});
    [done|by left|done|done|done|done|apply refresh_token_at|apply first_pair_ne|done|done|done].
Qed.

Lemma refresh_token_single_use_witness :
  status (refresh_at (issue_time + 48 * Hour) acme).2 = 200 ∧
  status (refresh_at (issue_time + 72 * Hour) (refresh_at (issue_time + 48 * Hour) acme).1).2 = 401.
Proof.
  split; [exact first_refresh|]. pose proof first_refresh as Hok. unfold refresh_at in *.
  pose proof (@refresh_token_single_use toy_lib all_work true None true (λ _ _, false) (λ p, Some p) (λ _, true)
           (λ a b, bool_decide (a = b)) toy_laws acme (at_time (issue_time + 48 * Hour)) (RefreshToken first_pair) issuer issue_time
           "r0" "a0" "u1" "t1" "role_owner" "a@acme.test" [] (at_time (issue_time + 72 * Hour)) (RefreshToken first_pair) sound sound) as Hs.
  cbv zeta in Hs. fold first_pair in Hs. unfold runs in Hs. cbn [foldl] in Hs.
  apply Hs; [reflexivity|discriminate|discriminate|apply first_pair_ne|by eexists|reflexivity|reflexivity|apply refresh_token_at|exact Hok| | |
    apply refresh_token_at]; clear; [split; vm_compute; discriminate|constructor].
Defined.

(** Open registration, then all sessions ended, then a refresh. *)
Definition newcomer : registerRequest :=
  {| rgEmail := "c@new.test"; rgPassword := "Correct-Horse7"; rgName := "Cy"; rgInviteCode := "" |}.
Definition joined : world * response :=
  @Register toy_lib all_work true (λ p, Some p) (λ _, true) (λ a b, bool_decide (a = b)) (at_time issue_time) ids (Some "open") acme (Some newcomer).
Definition cy : Access.Claims :=
  {| Access.UserID := "u2"; Access.TenantID := "t2"; Access.RoleID := "role_owner"; Access.ID := "a1"; Access.ExpiresAt := None |}.

Lemma registration_session_survives_witness :
  ∃ t, pair joined.2 = Some t ∧
    status (@Refresh toy_lib all_work sound (at_time (issue_time + 24 * Hour))
              (LogoutAll sound (at_time (issue_time + Hour)) joined.1 (Some cy)).1 (Some (RefreshToken t))).2 = 200.
Proof.
  assert (status joined.2 = 201) as Hst by reflexivity.
  pose proof (@register_result toy_lib true (λ p, Some p) (λ _, true) (λ a b, bool_decide (a = b)) (at_time issue_time) ids (Some "open")
                acme newcomer) as Hr.
  pose proof (λ t, @registration_session_survives toy_lib toy_laws true (λ p, Some p) (λ _, true) (λ a b, bool_decide (a = b))
                (at_time issue_time) ids (Some "open") acme newcomer empty_store (at_time (issue_time + Hour)) cy
                (at_time (issue_time + 24 * Hour)) t) as Hs.
  fold joined in Hr, Hs. destruct joined as [w1 r]. cbn [fst snd] in *.
  destruct (Hr Hst) as (_ & _ & _ & _ & t & Ht & Htok). exists t. split; [exact Ht|].
  apply Hs; [exact Hst|exact Ht|reflexivity|by intros ???|reflexivity|reflexivity|reflexivity| | | | |];
    clear Hs Hr Hst Ht; [rewrite Htok; discriminate|clear..].
  - split; vm_compute; discriminate.
  - split; vm_compute; discriminate.
  - vm_compute. discriminate.
  - vm_compute. reflexivity.
Defined.

End Login.
