(* ===== verification/Deploy.v ===== *)
(** * Deploy: the deployment table and the engine that rolls back ([internal/deploy])

    The operations of this component talk to a database and to a container runtime, and
    both may refuse any call.  A [World] holds the tables, the calls made to the runtime
    so far and the events published; an [Env] says how the database and the runtime
    answer, the runtime as a function of every call it has seen.  Code is written in the
    state monad over [World], every database statement counting one step. *)

From S2P Require Import Prelude GoStrings.
#[local] Open Scope Z_scope.

Module Deploy.

(** src/internal/core/store.go:238-257 Application *)
Record Application := {
  aID : string; ProjectID : string; aTenantID : string; aName : string; SourceType : string;
  SourceURL : string; Branch : string; Dockerfile : string; Port : Z; aStatus : string;
  ServerID : string }.

(** src/internal/core/store.go:260-275 Deployment *)
Record Deployment := {
  dID : string; dAppID : string; Version : Z; Image : string; ContainerID : string; Status : string;
  BuildLog : string; CommitSHA : string; CommitMessage : string; TriggeredBy : string;
  Strategy : string; StartedAt : option instant; FinishedAt : option instant; CreatedAt : instant }.

Record Domain := { domApp : string; FQDN : string }.

(** ** The container runtime *)

(** src/internal/core/interfaces.go:45-58 ContainerOpts *)
Record ContainerOpts := {
  oName : string; oImage : string; oEnv : list string; oLabels : gmap string string;
  oNetwork : string; oRestart : string }.

Record ContainerInfo := { cID : string; cState : string; cLabels : gmap string string }.

(** What is asked of a runtime; [Sleep] is the caller waiting. *)
Inductive call :=
| CreateAndStart (o : ContainerOpts)
| Stop (id : string) (timeout : Z)
| Remove (id : string) (force : bool)
| Stats (id : string)
| Restart (id : string)
| ListByLabels (k v : string)
| EnsureNetwork (name : string)
| Sleep (d : duration).

(** A call with the node it goes to, [""] being the local one. *)
Definition history : Type := list (string * call).

(** src/internal/core/events.go:456-465 DeployEventData *)
Record DeployEventData := {
  eAppID : string; eDeploymentID : string; eVersion : Z; eImage : string; eContainerID : string;
  eStrategy : string; eCommitSHA : string }.

(** The payload of an event, which subscribers tell apart by its Go type. *)
Inductive event_data :=
| DeployData (d : DeployEventData)
| AppData (app status : string)
| MapData (m : gmap string string).

Record event := { eType : string; eSource : string; eData : event_data }.

Definition EventDeployFailed : string := "deploy.failed".
Definition EventBuildFailed : string := "build.failed".
Definition EventAppDeployed : string := "app.deployed".
Definition EventAppCrashed : string := "app.crashed".
Definition EventRollbackDone : string := "deploy.rollback".

Inductive db_error := ErrNotFound | ErrConstraint | ErrIO.

Record Env := {
  works : nat → bool;
  clock : nat → instant;
  fresh : nat → string;
  has_runtime : bool;
  has_bus : bool;
  on_create : history → option string;
  on_stats : history → option (option bool);
  on_list : history → option (list ContainerInfo);
  on_other : history → bool }.

(** The applications table has no port column, see [GetApp]. *)
Record World := {
  deployments : list Deployment;
  apps : gmap string Application;
  domains : list Domain;
  steps : nat;
  calls : history;
  events : list event }.

Definition with_deployments (w : World) (l : list Deployment) : World :=
  {| deployments := l; apps := apps w; domains := domains w; steps := steps w; calls := calls w;
     events := events w |}.
Definition with_apps (w : World) (m : gmap string Application) : World :=
  {| deployments := deployments w; apps := m; domains := domains w; steps := steps w;
     calls := calls w; events := events w |}.
Definition tick (w : World) : World :=
  {| deployments := deployments w; apps := apps w; domains := domains w; steps := S (steps w);
     calls := calls w; events := events w |}.
Definition add_call (w : World) (node : string) (c : call) : World :=
  {| deployments := deployments w; apps := apps w; domains := domains w; steps := steps w;
     calls := calls w ++ [(node, c)]; events := events w |}.
Definition add_event (w : World) (e : event) : World :=
  {| deployments := deployments w; apps := apps w; domains := domains w; steps := steps w;
     calls := calls w; events := events w ++ [e] |}.

(** ** The monad *)

Definition M (A : Type) : Type := World → A * World.
#[global] Instance M_ret : MRet M := λ A a w, (a, w).
#[global] Instance M_bind : MBind M := λ A B k m w, let '(a, w') := m w in k a w'.

Fixpoint each {A} (f : A → M unit) (l : list A) : M unit :=
  match l with
  | [] => mret tt
  | x :: l => f x;; each f l
  end.

Definition with_status (d : Deployment) (s : string) : Deployment :=
  {| dID := dID d; dAppID := dAppID d; Version := Version d; Image := Image d;
     ContainerID := ContainerID d; Status := s; BuildLog := BuildLog d; CommitSHA := CommitSHA d;
     CommitMessage := CommitMessage d; TriggeredBy := TriggeredBy d; Strategy := Strategy d;
     StartedAt := StartedAt d; FinishedAt := FinishedAt d; CreatedAt := CreatedAt d |}.
Definition with_container (d : Deployment) (c : string) : Deployment :=
  {| dID := dID d; dAppID := dAppID d; Version := Version d; Image := Image d;
     ContainerID := c; Status := Status d; BuildLog := BuildLog d; CommitSHA := CommitSHA d;
     CommitMessage := CommitMessage d; TriggeredBy := TriggeredBy d; Strategy := Strategy d;
     StartedAt := StartedAt d; FinishedAt := FinishedAt d; CreatedAt := CreatedAt d |}.
Definition with_finished (d : Deployment) (t : instant) : Deployment :=
  {| dID := dID d; dAppID := dAppID d; Version := Version d; Image := Image d;
     ContainerID := ContainerID d; Status := Status d; BuildLog := BuildLog d;
     CommitSHA := CommitSHA d; CommitMessage := CommitMessage d; TriggeredBy := TriggeredBy d;
     Strategy := Strategy d; StartedAt := StartedAt d; FinishedAt := Some t;
     CreatedAt := CreatedAt d |}.
Definition with_log (d : Deployment) (l : string) : Deployment :=
  {| dID := dID d; dAppID := dAppID d; Version := Version d; Image := Image d;
     ContainerID := ContainerID d; Status := Status d; BuildLog := l; CommitSHA := CommitSHA d;
     CommitMessage := CommitMessage d; TriggeredBy := TriggeredBy d; Strategy := Strategy d;
     StartedAt := StartedAt d; FinishedAt := FinishedAt d; CreatedAt := CreatedAt d |}.
Definition with_app_status (a : Application) (s : string) : Application :=
  {| aID := aID a; ProjectID := ProjectID a; aTenantID := aTenantID a; aName := aName a;
     SourceType := SourceType a; SourceURL := SourceURL a; Branch := Branch a;
     Dockerfile := Dockerfile a; Port := Port a; aStatus := s; ServerID := ServerID a |}.

Section Operations.
Variable E : Env.

(** A statement on the database: it runs as a whole, or fails and changes nothing. *)
Definition stmt {A} (f : World → result db_error A * World) : M (result db_error A) := λ w,
  if works E (steps w) then let '(r, w') := f w in (r, tick w') else (Err ErrIO, tick w).

Definition query {A} (f : World → result db_error A) : M (result db_error A) :=
  stmt (λ w, (f w, w)).

Definition Now : M instant := λ w, (clock E (steps w), tick w).
Definition GenerateID : M string := λ w, (fresh E (steps w), tick w).

(** A call to a runtime: it joins the history, and the runtime answers the history. *)
Definition ask {A} (node : string) (c : call) (answer : history → A) : M A := λ w,
  let w' := add_call w node c in (answer (calls w'), w').

Definition sleep (d : duration) : M unit := ask "" (Sleep d) (λ _, tt).

Definition publish (e : event) : M unit := λ w, (tt, if has_bus E then add_event w e else w).

(** ** deployments.go and apps.go *)

(** The columns the listing queries read: all but the build log. *)
Definition read_row (d : Deployment) : Deployment := with_log d "".

Definition newer (x y : Deployment) : Prop := Version y ≤ Version x.
#[global] Instance newer_dec x y : Decision (newer x y) := ltac:(unfold newer; apply _).

Definition of_app (appID : string) (l : list Deployment) : list Deployment :=
  filter (λ d, dAppID d = appID) l.

(** [LIMIT n], which a negative [n] lifts. *)
Definition limit {A} (n : Z) (l : list A) : list A := if n <? 0 then l else take (Z.to_nat n) l.

(** src/internal/db/deployments.go:114-137 SQLiteDB.ListDeploymentsByApp *)
Definition ListDeploymentsByApp (appID : string) (n : Z) : M (result db_error (list Deployment)) :=
  query (λ w, Ok (read_row <$> limit n (merge_sort newer (of_app appID (deployments w))))).

(** src/internal/db/deployments.go:71-84 SQLiteDB.GetLatestDeployment *)
Definition GetLatestDeployment (appID : string) : M (result db_error Deployment) :=
  query (λ w, match head (merge_sort newer (of_app appID (deployments w))) with
              | Some d => Ok (read_row d)
              | None => Err ErrNotFound
              end).

Definition older_created (x y : Deployment) : Prop := CreatedAt y ≤ CreatedAt x.
#[global] Instance older_created_dec x y : Decision (older_created x y) :=
  ltac:(unfold older_created; apply _).

(** src/internal/db/deployments.go:89-111 SQLiteDB.ListDeploymentsByStatus *)
Definition ListDeploymentsByStatus (status : string) : M (result db_error (list Deployment)) :=
  query (λ w, Ok (read_row <$> limit 10000
           (merge_sort older_created (filter (λ d, Status d = status) (deployments w))))).

(** [MAX(version)] over the rows of an application, [NULL] when there is none. *)
Definition max_version (appID : string) (l : list Deployment) : option Z :=
  match of_app appID l with
  | [] => None
  | d :: ds => Some (foldr (λ d m, Z.max (Version d) m) (Version d) ds)
  end.

Definition next_version (appID : string) (l : list Deployment) : Z :=
  default 0 (max_version appID l) + 1.

(** src/internal/db/deployments.go:140-152 SQLiteDB.GetNextDeployVersion *)
Definition GetNextDeployVersion (appID : string) : M (result db_error Z) :=
  query (λ w, Ok (match max_version appID (deployments w) with
                  | None => 1
                  | Some m => i64 (m + 1)
                  end)).

Definition numbered (d : Deployment) (id : string) (v : Z) : Deployment :=
  {| dID := id; dAppID := dAppID d; Version := v; Image := Image d; ContainerID := ContainerID d;
     Status := Status d; BuildLog := BuildLog d; CommitSHA := CommitSHA d;
     CommitMessage := CommitMessage d; TriggeredBy := TriggeredBy d; Strategy := Strategy d;
     StartedAt := StartedAt d; FinishedAt := FinishedAt d; CreatedAt := CreatedAt d |}.

(** The row as it is inserted: no end yet, created at the time of the statement. *)
Definition inserted (d : Deployment) (now : instant) : Deployment :=
  {| dID := dID d; dAppID := dAppID d; Version := Version d; Image := Image d;
     ContainerID := ContainerID d; Status := Status d; BuildLog := BuildLog d;
     CommitSHA := CommitSHA d; CommitMessage := CommitMessage d; TriggeredBy := TriggeredBy d;
     Strategy := Strategy d; StartedAt := StartedAt d; FinishedAt := None;
     CreatedAt := now - now mod Second |}.

Definition insert_row (d : Deployment) (now : instant) (w : World) : result db_error unit * World :=
  if decide (Exists (λ r, dID r = dID d) (deployments w)) then (Err ErrConstraint, w)
  else (Ok tt, with_deployments w (deployments w ++ [inserted d now])).

Definition with_id (d : Deployment) : M Deployment :=
  if decide (dID d = "") then id ← GenerateID; mret (numbered d id (Version d)) else mret d.

(** src/internal/db/deployments.go:13-26 SQLiteDB.CreateDeployment *)
Definition CreateDeployment (d : Deployment) : M (result db_error Deployment) :=
  d ← with_id d;
  r ← stmt (λ w, insert_row d (clock E (steps w)) w);
  mret (match r with Ok _ => Ok d | Err e => Err e end).

(** src/internal/db/deployments.go:33-49 SQLiteDB.CreateDeploymentAtomicVersion *)
Definition CreateDeploymentAtomicVersion (d : Deployment) : M (result db_error Deployment) :=
  d ← with_id d;
  stmt (λ w,
    let d := numbered d (dID d) (next_version (dAppID d) (deployments w)) in
    match insert_row d (clock E (steps w)) w with
    | (Ok _, w') => (Ok d, w')
    | (Err e, w') => (Err e, w')
    end).

Definition update_row (d r : Deployment) : Deployment :=
  if decide (dID r = dID d) then
    {| dID := dID r; dAppID := dAppID r; Version := Version r; Image := Image r;
       ContainerID := ContainerID d; Status := Status d; BuildLog := BuildLog d;
       CommitSHA := CommitSHA r; CommitMessage := CommitMessage r; TriggeredBy := TriggeredBy r;
       Strategy := Strategy r; StartedAt := StartedAt r; FinishedAt := FinishedAt d;
       CreatedAt := CreatedAt r |}
  else r.

(** src/internal/db/deployments.go:58-68 SQLiteDB.UpdateDeployment *)
Definition UpdateDeployment (d : Deployment) : M (result db_error unit) :=
  stmt (λ w, (Ok tt, with_deployments w (update_row d <$> deployments w))).

(** The query names every column but the port, which therefore reads as [0].
    src/internal/db/apps.go:29-43 SQLiteDB.GetApp *)
Definition GetApp (id : string) : M (result db_error Application) :=
  query (λ w, match apps w !! id with
              | None => Err ErrNotFound
              | Some a => Ok {| aID := aID a; ProjectID := ProjectID a; aTenantID := aTenantID a;
                                aName := aName a; SourceType := SourceType a;
                                SourceURL := SourceURL a; Branch := Branch a;
                                Dockerfile := Dockerfile a; Port := 0; aStatus := aStatus a;
                                ServerID := ServerID a |}
              end).

(** src/internal/db/apps.go:170-176 SQLiteDB.UpdateAppStatus *)
Definition UpdateAppStatus (id status tenantID : string) : M (result db_error unit) :=
  stmt (λ w, (Ok tt, with_apps w (alter (λ a,
     if decide (aTenantID a = tenantID) then with_app_status a status else a) id (apps w)))).

(** src/internal/db/domains.go:54-78 SQLiteDB.ListDomainsByApp *)
Definition ListDomainsByApp (appID tenantID : string) : M (result db_error (list Domain)) :=
  query (λ w, Ok match apps w !! appID with
                 | Some a => if decide (aTenantID a = tenantID) then
                     limit 500 (filter (λ d, domApp d = appID) (domains w)) else []
                 | None => []
                 end).

(** ** rollback.go *)

(** The routing labels of one application, domain by domain.
    src/internal/deploy/rollback.go:98-103 RollbackEngine.Rollback.labels *)
Fixpoint domain_labels (name : string) (port : Z) (i : nat) (ds : list Domain)
    (m : gmap string string) : gmap string string :=
  match ds with
  | [] => m
  | d :: ds =>
      let router := name +:+ "-" +:+ itoa (Z.of_nat i) in
      domain_labels name port (S i) ds
        (<["monster.http.services." +:+ router +:+ ".loadbalancer.server.port" := itoa port]>
         (<["monster.http.routers." +:+ router +:+ ".rule" := "Host(`" +:+ FQDN d +:+ "`)"]> m))
  end.

(** At most [n] looks at the new container, half a second apart.
    src/internal/deploy/rollback.go:136-147 RollbackEngine.Rollback.health *)
Fixpoint await_running (n : nat) (id : string) : M bool :=
  match n with
  | O => mret false
  | S n =>
      s ← ask "" (Stats id) (on_stats E);
      match s with
      | Some (Some true) => mret true
      | Some (Some false) => mret false
      | _ => sleep (500 * Millisecond);; await_running n id
      end
  end.

Inductive rb_error :=
| ListFailed | NoSuchVersion | NoImage | GetAppFailed | CreateFailed | DeployFailed
| Unhealthy | PersistFailed.

(** The whole check of the new container.
    src/internal/deploy/rollback.go:134-151 RollbackEngine.Rollback.healthy *)
Definition healthy (id : string) : M bool :=
  if negb (has_runtime E) || bool_decide (id = "") then mret true else
  ok ← await_running 10 id;
  if (ok : bool) then mret true else
  s ← ask "" (Stats id) (on_stats E);
  mret (match s with Some (Some true) => true | _ => false end).

Definition rollback_row (appID : string) (t : Deployment) (v : Z) (now : instant) : Deployment :=
  {| dID := ""; dAppID := appID; Version := 0; Image := Image t; ContainerID := "";
     Status := "deploying"; BuildLog := ""; CommitSHA := CommitSHA t;
     CommitMessage := "Rollback to v" +:+ itoa v; TriggeredBy := "rollback";
     Strategy := "recreate"; StartedAt := Some now; FinishedAt := None; CreatedAt := zero_time |}.

Definition rollback_labels (appID : string) (app : Application) (newv v : Z) (ds : list Domain)
  : gmap string string :=
  domain_labels (aName app) (if Port app <=? 0 then 80 else Port app) 0 ds
    (list_to_map [
      ("monster.enable", "true"); ("monster.app.id", appID); ("monster.app.name", aName app);
      ("monster.tenant", aTenantID app); ("monster.deploy.version", itoa newv);
      ("monster.rollback.from", itoa v)]).

(** Marks the rollback's own row and the application after a failure. *)
Definition give_up_rollback (appID tenant appStatus : string) (d : Deployment) : M unit :=
  now ← Now;
  _ ← UpdateDeployment (with_finished (with_status d "failed") now);
  _ ← UpdateAppStatus appID appStatus tenant;
  mret tt.

Definition stop_and_remove (node id : string) (timeout : Z) : M unit :=
  _ ← ask node (Stop id timeout) (on_other E);
  _ ← ask node (Remove id true) (on_other E);
  mret tt.

(** Starting the new container: its identifier, or the failure after the clean-up.
    src/internal/deploy/rollback.go:105-130 RollbackEngine.Rollback.start *)
Definition start_rollback (appID : string) (app : Application) (v : Z) (ds : list Domain)
    (d : Deployment) : M (result rb_error string) :=
  if negb (has_runtime E) then mret (Ok "") else
  let name := "dm-" +:+ aID app +:+ "-" +:+ itoa (Version d) in
  r ← ask "" (CreateAndStart
        {| oName := name; oImage := Image d; oEnv := [];
           oLabels := rollback_labels appID app (Version d) v ds;
           oNetwork := "monster-network"; oRestart := "unless-stopped" |}) (on_create E);
  match r with
  | Some id => mret (Ok id)
  | None =>
      give_up_rollback appID (aTenantID app) "failed" d;;
      stop_and_remove "" name 10;;
      mret (Err DeployFailed)
  end.

(** src/internal/deploy/rollback.go:166-193 RollbackEngine.Rollback.finish *)
Definition finish_rollback (appID tenant old : string) (d : Deployment)
  : M (result rb_error Deployment) :=
  (if negb (bool_decide (old = "")) && has_runtime E then stop_and_remove "" old 30 else mret tt);;
  now ← Now;
  let d := with_finished (with_status d "running") now in
  r ← UpdateDeployment d;
  match r with
  | Err _ => mret (Err PersistFailed)
  | Ok _ =>
      _ ← UpdateAppStatus appID "running" tenant;
      publish {| eType := EventRollbackDone; eSource := "deploy"; eData := DeployData
        {| eAppID := appID; eDeploymentID := dID d; eVersion := Version d; eImage := Image d;
           eContainerID := ""; eStrategy := "rollback"; eCommitSHA := "" |} |};;
      mret (Ok d)
  end.

(** src/internal/deploy/rollback.go:25-194 RollbackEngine.Rollback *)
Definition Rollback (appID : string) (v : Z) : M (result rb_error Deployment) :=
  r ← ListDeploymentsByApp appID 50;
  match r with
  | Err _ => mret (Err ListFailed)
  | Ok ds =>
  match head (filter (λ d, Version d = v) ds) with
  | None => mret (Err NoSuchVersion)
  | Some t =>
  if bool_decide (Image t = "") then mret (Err NoImage) else
  r ← GetApp appID;
  match r with
  | Err _ => mret (Err GetAppFailed)
  | Ok app =>
  r ← GetLatestDeployment appID;
  let old := match r with Ok d => ContainerID d | Err _ => "" end in
  now ← Now;
  r ← CreateDeploymentAtomicVersion (rollback_row appID t v now);
  match r with
  | Err _ => mret (Err CreateFailed)
  | Ok d =>
  _ ← UpdateAppStatus appID "deploying" (aTenantID app);
  r ← ListDomainsByApp appID (aTenantID app);
  let doms := match r with Ok ds => ds | Err _ => [] end in
  r ← start_rollback appID app v doms d;
  match r with
  | Err e => mret (Err e)
  | Ok id =>
  let d := with_container d id in
  ok ← healthy id;
  if negb ok then
    stop_and_remove "" id 10;;
    give_up_rollback appID (aTenantID app) "running" d;;
    mret (Err Unhealthy)
  else finish_rollback appID (aTenantID app) old d
  end end end end end.

(** src/internal/deploy/rollback.go:218-225 VersionInfo *)
Record VersionInfo := {
  vVersion : Z; vImage : string; vStatus : string; vCommitSHA : string; vCreatedAt : instant;
  IsCurrent : bool }.

(** src/internal/deploy/rollback.go:197-215 RollbackEngine.ListVersions *)
Definition ListVersions (appID : string) (n : Z) : M (result db_error (list VersionInfo)) :=
  r ← ListDeploymentsByApp appID n;
  mret (match r with
        | Err e => Err e
        | Ok ds => Ok (imap (λ i d, {| vVersion := Version d; vImage := Image d; vStatus := Status d;
                     vCommitSHA := CommitSHA d; vCreatedAt := CreatedAt d;
                     IsCurrent := bool_decide (i = 0%nat) |}) ds)
        end).

(** ** autorollback.go *)

(** src/internal/deploy/autorollback.go:39-58 AutoRollbackManager *)
Record AutoRollback := { lastAttempt : gmap string instant; closed : bool }.

Definition NewAutoRollbackManager : AutoRollback :=
  {| lastAttempt := ∅; closed := false |}.

Definition cooldown : duration := 5 * Minute.

(** The locked part of the handler: whether this failure starts a rollback.  [t1] is the
    reading that measures the time since the last attempt, [t2] the one recorded.
    src/internal/deploy/autorollback.go:180-194 AutoRollbackManager.handleFailure.gate *)
Definition gate (m : AutoRollback) (appID : string) (t1 t2 : instant) : option AutoRollback :=
  if closed m then None else
  match lastAttempt m !! appID with
  | Some last => if time_sub t1 last <? cooldown then None
                 else Some {| lastAttempt := <[appID := t2]> (lastAttempt m); closed := closed m |}
  | None => Some {| lastAttempt := <[appID := t2]> (lastAttempt m); closed := closed m |}
  end.

(** src/internal/deploy/autorollback.go:232-247 AutoRollbackManager.findLastStable *)
Definition findLastStable (appID : string) : M (option Z) :=
  r ← ListDeploymentsByApp appID 20;
  mret (match r with
        | Err _ => None
        | Ok ds => Version <$> head (filter (λ d, Status d = "running" ∧ Image d ≠ "") (tail ds))
        end).

(** src/internal/deploy/autorollback.go:178-228 AutoRollbackManager.handleFailure *)
Definition handleFailure (m : AutoRollback) (appID : string) : M AutoRollback :=
  t1 ← Now;
  t2 ← Now;
  match gate m appID t1 t2 with
  | None => mret m
  | Some m =>
      v ← findLastStable appID;
      match v with
      | None => mret m
      | Some v => _ ← Rollback appID v; mret m
      end
  end.

(** The subscription to [deploy.failed], run to its end.
    src/internal/deploy/autorollback.go:83-130 AutoRollbackManager.Start *)
Definition on_deploy_failed (m : AutoRollback) (e : event) : M AutoRollback :=
  if closed m then mret m else
  match eData e with
  | DeployData d => handleFailure m (eAppID d)
  | _ => mret m
  end.

(** src/internal/deploy/autorollback.go:136-146 AutoRollbackManager.Stop *)
Definition ar_Stop (m : AutoRollback) : AutoRollback :=
  {| lastAttempt := lastAttempt m; closed := true |}.

(** ** autorestart.go *)

(** src/internal/deploy/autorestart.go:32-34 defaultAutoRestartRetryDelay *)
Definition defaultAutoRestartRetryDelay (attempt : Z) : duration := i64 (i64 (attempt * 5) * Second).

(** The tenant of an application, [""] when it cannot be read. *)
Definition tenant_of (appID : string) : M string :=
  r ← GetApp appID;
  mret (match r with Ok a => aTenantID a | Err _ => "" end).

Definition mark_app (appID status : string) : M unit :=
  tenant ← tenant_of appID;
  _ ← UpdateAppStatus appID status tenant;
  mret tt.

(** Attempts [attempt], [attempt + 1], ... of which [n] are left.
    src/internal/deploy/autorestart.go:104-139 AutoRestarter.handleCrash.loop *)
Fixpoint restart_loop (n : nat) (attempt : Z) (appID containerID : string) : M unit :=
  match n with
  | O => mark_app appID "failed"
  | S n =>
      sleep (defaultAutoRestartRetryDelay attempt);;
      if negb (has_runtime E) then mark_app appID "failed" else
      ok ← ask "" (Restart containerID) (on_other E);
      if (ok : bool) then mark_app appID "running"
      else restart_loop n (attempt + 1) appID containerID
  end.

Definition maxRetries : nat := 5.

(** src/internal/deploy/autorestart.go:90-140 AutoRestarter.handleCrash *)
Definition handleCrash (appID containerID : string) : M unit :=
  mark_app appID "crashed";;
  publish {| eType := EventAppCrashed; eSource := "deploy"; eData := AppData appID "crashed" |};;
  restart_loop maxRetries 1 appID containerID.

Definition crashed (c : ContainerInfo) : bool :=
  bool_decide (cState c = "exited") || bool_decide (cState c = "dead").

(** src/internal/deploy/autorestart.go:142-163 AutoRestarter.checkCrashed *)
Definition checkCrashed : M unit :=
  if negb (has_runtime E) then mret tt else
  r ← ask "" (ListByLabels "monster.enable" "true") (on_list E);
  match r with
  | None => mret tt
  | Some cs => each (λ c,
      let appID := default "" (cLabels c !! "monster.app.id") in
      if crashed c && negb (bool_decide (appID = "")) then handleCrash appID (cID c) else mret tt) cs
  end.

(** ** module.go *)

Definition reclaim_reason (status : string) : string :=
  "[reclaimed on startup after crash — previous status: " +:+ status +:+ "]".

Definition newline : string := String.String (Ascii.ascii_of_nat 10) "".

(** src/internal/deploy/module.go:146-170 Module.reclaimStaleDeployments.loop *)
Definition reclaim_one (status : string) (d : Deployment) : M unit :=
  now ← Now;
  let reason := reclaim_reason status in
  let d := with_log (with_finished (with_status d "failed") now)
             (if bool_decide (BuildLog d = "") then reason else BuildLog d +:+ newline +:+ reason) in
  r ← UpdateDeployment d;
  match r with
  | Err _ => mret tt
  | Ok _ =>
      a ← GetApp (dAppID d);
      match a with
      | Ok a => _ ← UpdateAppStatus (dAppID d) "failed" (aTenantID a); mret tt
      | Err _ => mret tt
      end
  end.

(** src/internal/deploy/module.go:136-176 Module.reclaimStaleDeployments *)
Definition reclaimStaleDeployments : M unit :=
  each (λ status,
    r ← ListDeploymentsByStatus status;
    match r with
    | Err _ => mret tt
    | Ok ds => each (reclaim_one status) ds
    end) ["deploying"; "building"].

(** src/internal/deploy/module.go:179-217 Module.cleanOrphanContainers *)
Definition cleanOrphanContainers : M unit :=
  r ← ask "" (ListByLabels "monster.managed" "true") (on_list E);
  match r with
  | None => mret tt
  | Some cs => each (λ c,
      let appID := default "" (cLabels c !! "monster.app.id") in
      if bool_decide (appID = "") then mret tt else
      a ← GetApp appID;
      match a with
      | Ok _ => mret tt
      | Err _ => _ ← ask "" (Remove (cID c) true) (on_other E); mret tt
      end) cs
  end.

(** src/internal/deploy/module.go:91-123 Module.Start *)
Definition Start : M unit :=
  reclaimStaleDeployments;;
  if has_runtime E then
    _ ← ask "" (EnsureNetwork "monster-network") (on_other E);
    cleanOrphanContainers
  else mret tt.

End Operations.

(** ** Reasoning about code in the monad *)

(** [keeps I m]: running [m] preserves [I]. *)
Class keeps (I : World → Prop) {A} (m : M A) := keeps_run : ∀ w, I w → I (m w).2.

Lemma bind_run {A B} (m : M A) (k : A → M B) w : (m ≫= k) w = k (m w).1 (m w).2.
Proof. unfold mbind, M_bind. by destruct (m w). Qed.

Section Keeps.
Context (I : World → Prop).

#[export] Instance keeps_ret {A} (a : A) : keeps I (mret a).
Proof. by intros w. Qed.
#[export] Instance keeps_bind {A B} (m : M A) (k : A → M B) :
  keeps I m → (∀ a, keeps I (k a)) → keeps I (m ≫= k).
Proof. intros Hm Hk w Hw. rewrite bind_run. apply Hk, Hm, Hw. Qed.
#[export] Instance keeps_each {A} (f : A → M unit) l : (∀ a, keeps I (f a)) → keeps I (each f l).
Proof. intros Hf. induction l; simpl; apply _. Qed.
#[export] Instance keeps_if {A} (b : bool) (m n : M A) :
  keeps I m → keeps I n → keeps I (if b then m else n).
Proof. by destruct b. Qed.
#[export] Instance keeps_decide {A} {P Q : Prop} (d : {P} + {Q}) (m n : M A) :
  keeps I m → keeps I n → keeps I (if d then m else n).
Proof. by destruct d. Qed.
#[export] Instance keeps_result {A B C} (r : result A B) (f : B → M C) (g : A → M C) :
  (∀ b, keeps I (f b)) → (∀ a, keeps I (g a)) →
  keeps I (match r with Ok b => f b | Err a => g a end).
Proof. by destruct r. Qed.
#[export] Instance keeps_option {A C} (r : option A) (f : A → M C) (g : M C) :
  (∀ a, keeps I (f a)) → keeps I g → keeps I (match r with Some a => f a | None => g end).
Proof. by destruct r. Qed.
#[export] Instance keeps_data {C} (e : event_data) (f : DeployEventData → M C) (g : M C) :
  (∀ a, keeps I (f a)) → keeps I g → keeps I (match e with DeployData a => f a | _ => g end).
Proof. by destruct e. Qed.

End Keeps.

(** ** The deployment table *)

(** Identifiers are unique, and the rows of an application are numbered from 1 on in the
    order of their creation. *)
Record table_ok (w : World) : Prop := {
  ids_unique : NoDup (dID <$> deployments w);
  versions_consecutive : ∀ app,
    Version <$> of_app app (deployments w) = seqZ 1 (zlen (of_app app (deployments w))) }.

Lemma fold_max_seqZ (l : list Deployment) k :
  Version <$> l = seqZ k (zlen l) → ∀ b, b < k →
  foldr (λ d m, Z.max (Version d) m) b l = if decide (l = []) then b else k + zlen l - 1.
Proof.
  revert k. induction l as [|d l IH]; intros k Hl b Hb; [done|]. cbn [length fmap list_fmap] in *.
  rewrite Nat2Z.inj_succ, seqZ_cons in Hl by lia. injection Hl as Hd Hl.
  replace (Z.pred (Z.succ (zlen l))) with (zlen l) in Hl by lia.
  cbn [foldr]. rewrite (IH (Z.succ k) Hl b) by lia. destruct l; simpl; lia.
Qed.

Lemma next_version_numbered app l :
  Version <$> of_app app l = seqZ 1 (zlen (of_app app l)) →
  next_version app l = zlen (of_app app l) + 1.
Proof.
  intros H. unfold next_version, max_version. destruct (of_app app l) as [|d ds] eqn:He; [done|].
  cbn [default]. cbn [length fmap list_fmap] in H.
  rewrite Nat2Z.inj_succ, seqZ_cons in H by lia. injection H as Hd Hds.
  replace (Z.pred (Z.succ (zlen ds))) with (zlen ds) in Hds by lia.
  rewrite (fold_max_seqZ ds (Z.succ 1) Hds) by lia. rewrite Hd. destruct ds; simpl; lia.
Qed.

Lemma of_app_snoc app l d :
  of_app app (l ++ [d]) = of_app app l ++ (if decide (dAppID d = app) then [d] else []).
Proof. unfold of_app. rewrite filter_app, filter_cons. by case_decide. Qed.

Lemma insert_row_ok d now w r w' :
  Version d = next_version (dAppID d) (deployments w) →
  insert_row d now w = (r, w') → table_ok w → table_ok w'.
Proof.
  intros Hv. unfold insert_row. case_decide as Hex; intros [= <- <-] [Hi Hn]; [done|].
  split; simpl.
  - rewrite fmap_app. apply NoDup_app. split; [done|]. split; [|apply NoDup_singleton].
    intros x Hx Hs. apply list_elem_of_singleton in Hs as ->. apply Hex, Exists_exists.
    apply list_elem_of_fmap in Hx as (r & Hr & ?). exists r. split; [done|]. by rewrite <- Hr.
  - intros app. rewrite of_app_snoc. cbn [dAppID inserted]. case_decide as Ha; [|by rewrite app_nil_r].
    subst app. rewrite fmap_app, length_app, Hn. cbn [fmap list_fmap length Version inserted].
    rewrite Hv, next_version_numbered by done. rewrite Nat2Z.inj_add, seqZ_app by lia.
    f_equal. rewrite (Z.add_comm _ 1). by rewrite seqZ_cons by lia.
Qed.

Lemma update_row_columns d r :
  dID (update_row d r) = dID r ∧ dAppID (update_row d r) = dAppID r ∧
  Version (update_row d r) = Version r.
Proof. unfold update_row. by case_decide. Qed.

Lemma of_app_update app d l : of_app app (update_row d <$> l) = update_row d <$> of_app app l.
Proof.
  induction l as [|r l IH]; [done|]. unfold of_app in *. cbn [fmap list_fmap]. rewrite !filter_cons, IH.
  destruct (update_row_columns d r) as (_ & -> & _). by case_decide.
Qed.

Lemma update_rows_ok d w : table_ok w → table_ok (with_deployments w (update_row d <$> deployments w)).
Proof.
  intros [Hi Hn]. split; simpl.
  - rewrite <- list_fmap_compose. erewrite list_fmap_ext; [exact Hi|].
    intros ? x _. apply update_row_columns.
  - intros app. rewrite of_app_update, length_fmap, <- Hn, <- list_fmap_compose. apply list_fmap_ext.
    intros ? x _. simpl. apply update_row_columns.
Qed.

Lemma table_ok_frame w w' : deployments w' = deployments w → table_ok w → table_ok w'.
Proof. intros He [Hi Hn]. by split; rewrite He. Qed.

Section TableKept.
Variable E : Env.

#[export] Instance stmt_table {A} (f : World → result db_error A * World) :
  (∀ w, table_ok w → table_ok (f w).2) → keeps table_ok (stmt E f).
Proof.
  intros Hf w Hw. unfold stmt. destruct (works E (steps w)); [|by apply (table_ok_frame w)].
  specialize (Hf w Hw). destruct (f w) as [r w']. by apply (table_ok_frame w').
Qed.
#[export] Instance query_table {A} (f : World → result db_error A) : keeps table_ok (query E f).
Proof. by apply stmt_table. Qed.
#[export] Instance Now_table : keeps table_ok (Now E).
Proof. intros w. by apply table_ok_frame. Qed.
#[export] Instance GenerateID_table : keeps table_ok (GenerateID E).
Proof. intros w. by apply table_ok_frame. Qed.
#[export] Instance ask_table {A} node c (f : history → A) : keeps table_ok (ask node c f).
Proof. intros w. by apply table_ok_frame. Qed.
#[export] Instance publish_table e : keeps table_ok (publish E e).
Proof. intros w. unfold publish. simpl. destruct (has_bus E); by apply table_ok_frame. Qed.
#[export] Instance UpdateDeployment_table d : keeps table_ok (UpdateDeployment E d).
Proof. apply stmt_table. intros w. apply update_rows_ok. Qed.
#[export] Instance UpdateAppStatus_table a s t : keeps table_ok (UpdateAppStatus E a s t).
Proof. apply stmt_table. intros w. by apply table_ok_frame. Qed.
#[export] Instance Create_table d : keeps table_ok (CreateDeploymentAtomicVersion E d).
Proof.
  apply keeps_bind; [unfold with_id; apply _|]. intros d'. apply stmt_table. intros w Hw.
  cbv zeta. destruct (insert_row _ _ w) as [r w'] eqn:Hi.
  apply insert_row_ok in Hi; [|done|done]. by destruct r.
Qed.
#[export] Instance await_table n id : keeps table_ok (await_running E n id).
Proof.
  induction n; simpl; [apply _|]. apply keeps_bind; [apply _|]. intros [[[]|]|]; apply _.
Qed.

(** Every engine operation keeps the table well formed. *)
Ltac table := repeat (simpl; apply _ || (apply keeps_bind; [|intros ?]) || case_match).

#[export] Instance Rollback_table app v : keeps table_ok (Rollback E app v).
Proof.
  unfold Rollback, ListDeploymentsByApp, GetApp, GetLatestDeployment, ListDomainsByApp, start_rollback,
    healthy, finish_rollback, give_up_rollback, stop_and_remove, sleep. apply _.
Qed.

End TableKept.

(** ** What a rollback does to containers *)

(** The container a call stops or removes. *)
Definition touches (c : call) : option string :=
  match c with Stop id _ | Remove id _ => Some id | _ => None end.

(** The runtime reported that it started [id], that it failed to start a container named
    [name], that it saw [id] running, at some point of the history. *)
Definition started (E : Env) (h : history) (id : string) : Prop :=
  ∃ h1 o, h1 ++ [("", CreateAndStart o)] `prefix_of` h ∧
    on_create E (h1 ++ [("", CreateAndStart o)]) = Some id.
Definition start_failed (E : Env) (h : history) (name : string) : Prop :=
  ∃ h1 o, h1 ++ [("", CreateAndStart o)] `prefix_of` h ∧
    on_create E (h1 ++ [("", CreateAndStart o)]) = None ∧ name = oName o.
Definition seen_running (E : Env) (h : history) (id : string) : Prop :=
  ∃ h1, h1 ++ [("", Stats id)] `prefix_of` h ∧ on_stats E (h1 ++ [("", Stats id)]) = Some (Some true).

(** When stopping [x] after the history [h] is right: [x] is the container of this
    rollback, or its replacement was started and seen running. *)
Definition justified (E : Env) (h : history) (x : string) : Prop :=
  started E h x ∨ start_failed E h x ∨ ∃ id, started E h id ∧ (id ≠ "" → seen_running E h id).

(** From its [n]th call on, [h] stops and removes only what is justified. *)
Definition safe (E : Env) (n : nat) (h : history) : Prop :=
  ∀ h1 node c h2 x, h = h1 ++ (node, c) :: h2 → (n ≤ length h1)%nat → touches c = Some x →
    justified E h1 x.

(** A property of the calls alone is kept by whatever makes no call. *)
Definition on_calls (P : history → Prop) (w : World) : Prop := P (calls w).

Section Quiet.
Variable E : Env.
Variable P : history → Prop.

#[export] Instance stmt_quiet {A} (f : World → result db_error A * World) :
  (∀ w, calls (f w).2 = calls w) → keeps (on_calls P) (stmt E f).
Proof.
  intros Hf w Hw. unfold stmt, on_calls in *. destruct (works E (steps w)); [|done].
  specialize (Hf w). destruct (f w) as [r w']. simpl in *. by rewrite Hf.
Qed.
#[export] Instance query_quiet {A} (f : World → result db_error A) : keeps (on_calls P) (query E f).
Proof. by apply stmt_quiet. Qed.
#[export] Instance Now_quiet : keeps (on_calls P) (Now E).
Proof. by intros w. Qed.
#[export] Instance GenerateID_quiet : keeps (on_calls P) (GenerateID E).
Proof. by intros w. Qed.
#[export] Instance publish_quiet e : keeps (on_calls P) (publish E e).
Proof. intros w Hw. unfold publish. simpl. by destruct (has_bus E). Qed.
#[export] Instance UpdateDeployment_quiet d : keeps (on_calls P) (UpdateDeployment E d).
Proof. by apply stmt_quiet. Qed.
#[export] Instance UpdateAppStatus_quiet a s t : keeps (on_calls P) (UpdateAppStatus E a s t).
Proof. by apply stmt_quiet. Qed.
#[export] Instance Create_quiet d : keeps (on_calls P) (CreateDeploymentAtomicVersion E d).
Proof.
  apply keeps_bind; [unfold with_id; apply _|]. intros d'. apply stmt_quiet. intros w. cbv zeta.
  unfold insert_row. by case_decide.
Qed.
#[export] Instance give_up_quiet a t s d : keeps (on_calls P) (give_up_rollback E a t s d).
Proof. unfold give_up_rollback. apply _. Qed.
#[export] Instance GetApp_quiet a : keeps (on_calls P) (GetApp E a) := query_quiet _.
#[export] Instance GetLatest_quiet a : keeps (on_calls P) (GetLatestDeployment E a) := query_quiet _.
#[export] Instance ListByApp_quiet a k : keeps (on_calls P) (ListDeploymentsByApp E a k) := query_quiet _.
#[export] Instance Domains_quiet a t : keeps (on_calls P) (ListDomainsByApp E a t) := query_quiet _.

End Quiet.

Section Safe.
Variable E : Env.
Variable n : nat.

Lemma started_mono h h' id : h `prefix_of` h' → started E h id → started E h' id.
Proof. intros Hp (h1 & o & H1 & H2). exists h1, o. split; [by etrans|done]. Qed.
Lemma seen_running_mono h h' id : h `prefix_of` h' → seen_running E h id → seen_running E h' id.
Proof. intros Hp (h1 & H1 & H2). exists h1. split; [by etrans|done]. Qed.
Lemma justified_mono h h' x : h `prefix_of` h' → justified E h x → justified E h' x.
Proof.
  intros Hp [H|[(h1 & o & H1 & H2 & H3)|(id & H1 & H2)]].
  - left. by apply (started_mono h).
  - right. left. exists h1, o. split; [by etrans|done].
  - right. right. exists id. split; [by apply (started_mono h)|].
    intros Hid. by apply (seen_running_mono h), H2.
Qed.

Lemma safe_snoc h node c :
  safe E n h → (∀ x, touches c = Some x → justified E h x) → safe E n (h ++ [(node, c)]).
Proof.
  intros Hs Hc h1 node' c' h2 x Heq Hn Ht.
  destruct h2 as [|y h2 _] using rev_ind.
  - apply app_inj_tail in Heq as [-> [= <- <-]]. by apply Hc.
  - rewrite app_comm_cons, app_assoc in Heq. apply app_inj_tail in Heq as [-> <-].
    by apply (Hs h1 node' c' h2 x).
Qed.

Lemma ask_safe {A} node c (f : history → A) w :
  safe E n (calls w) → (∀ x, touches c = Some x → justified E (calls w) x) →
  safe E n (calls (ask node c f w).2).
Proof. apply safe_snoc. Qed.

Lemma stop_and_remove_safe node id t w :
  safe E n (calls w) → justified E (calls w) id → safe E n (calls (stop_and_remove E node id t w).2).
Proof.
  intros Hs Hj. unfold stop_and_remove. rewrite !bind_run. apply ask_safe.
  - apply ask_safe; [done|]. by intros ? [= <-].
  - intros ? [= <-]. eapply justified_mono; [|exact Hj]. simpl. by apply prefix_app_r.
Qed.

(** The look at the new container: it makes no change, and what it answers was seen. *)
Lemma await_running_run k id w :
  safe E n (calls w) →
  let '(ok, w') := await_running E k id w in
  safe E n (calls w') ∧ calls w `prefix_of` calls w' ∧ (ok = true → seen_running E (calls w') id).
Proof.
  revert w. induction k as [|k IH]; intros w Hs; [done|]. cbn [await_running]. rewrite bind_run.
  assert (safe E n (calls w ++ [("", Stats id)])) as Hs1 by (apply safe_snoc; [done|by intros]).
  cbn [ask fst snd add_call calls].
  assert (let '(ok, w') := (sleep (500 * Millisecond);; await_running E k id) (add_call w "" (Stats id)) in
          safe E n (calls w') ∧ calls w `prefix_of` calls w' ∧ (ok = true → seen_running E (calls w') id)) as Hrec.
  { rewrite bind_run. specialize (IH (sleep (500 * Millisecond) (add_call w "" (Stats id))).2).
    destruct (await_running E k id _) as [ok w'].
    destruct IH as (H1 & H2 & H3); [by apply safe_snoc|].
    split; [done|]. split; [|done]. etrans; [|exact H2]. cbn. rewrite <- app_assoc. by apply prefix_app_r. }
  destruct (on_stats E (calls w ++ [("", Stats id)])) as [[[]|]|] eqn:Hst; [| |exact Hrec..].
  - split; [done|]. split; [by apply prefix_app_r|]. intros _. by exists (calls w).
  - split; [done|]. split; [by apply prefix_app_r|done].
Qed.

Lemma healthy_run id w :
  has_runtime E = true → safe E n (calls w) →
  let '(ok, w') := healthy E id w in
  safe E n (calls w') ∧ calls w `prefix_of` calls w' ∧
  (ok = true → id ≠ "" → seen_running E (calls w') id).
Proof.
  intros Hr Hs. unfold healthy. rewrite Hr. cbn [negb orb]. case_bool_decide as Hid; [done|].
  rewrite bind_run. pose proof (await_running_run 10 id w Hs) as Ha.
  destruct (await_running E 10 id w) as [[] w1]; cbn [fst snd].
  - destruct Ha as (H1 & H2 & H3). split; [done|]. split; [done|]. intros _ _. by apply H3.
  - destruct Ha as (H1 & H2 & _). rewrite bind_run. cbn [ask fst snd add_call calls mret M_ret].
    split; [by apply safe_snoc|]. split; [etrans; [exact H2|]; by apply prefix_app_r|].
    destruct (on_stats E _) as [[[]|]|] eqn:Hst; [|done..]. intros _ _. by exists (calls w1).
Qed.

Lemma start_rollback_run app a v ds d w :
  has_runtime E = true → safe E n (calls w) →
  let '(r, w') := start_rollback E app a v ds d w in
  safe E n (calls w') ∧ match r with Ok id => started E (calls w') id | Err _ => True end.
Proof.
  intros Hr Hs. unfold start_rollback. rewrite Hr. cbn [negb]. cbv zeta. rewrite bind_run.
  set (o := {| oName := _ |}). cbn [ask fst snd]. set (w1 := add_call w "" (CreateAndStart o)).
  assert (safe E n (calls w1)) as Hs1 by (by apply safe_snoc).
  destruct (on_create E (calls w1)) as [id|] eqn:Hc.
  - split; [done|]. by exists (calls w), o.
  - rewrite !bind_run. cbn [mret M_ret snd]. split; [|done].
    pose proof (give_up_quiet E (λ h, safe E n h ∧ start_failed E h (oName o)) app (aTenantID a) "failed" d w1) as Hg.
    destruct Hg as [Hg1 Hg2]. { split; [done|]. by exists (calls w), o. }
    apply stop_and_remove_safe; [done|]. right. by left.
Qed.

Lemma finish_rollback_run app t old d w :
  safe E n (calls w) → justified E (calls w) old → safe E n (calls (finish_rollback E app t old d w).2).
Proof.
  intros Hs Hj. unfold finish_rollback. rewrite bind_run.
  match goal with |- context [snd ((if ?b then ?x else ?y) w)] =>
    assert (safe E n (calls ((if b then x else y) w).2)) as Hs1;
      [destruct b; [by apply stop_and_remove_safe|done]|];
    generalize dependent ((if b then x else y) w) end.
  intros [[] w1] Hs1. cbn [fst snd] in *.
  match goal with |- safe E n (calls (?m _).2) =>
    apply (keeps_run (I := on_calls (safe E n)) (m := m) w1 Hs1) end.
Qed.

End Safe.

(** C4. A rollback keeps the old container until the new one runs: whatever the database
    and the runtime answer, every container it stops or removes is the one it started
    itself (or failed to start), unless the replacement was started and, when the runtime
    named it, seen running before. *)
Theorem rollback_keeps_old_until_new_runs E app v w :
  has_runtime E = true → safe E (length (calls w)) (calls (Rollback E app v w).2).
Proof.
  intros Hr. set (n := length (calls w)).
  assert (on_calls (safe E n) w) as Hs.
  { intros h1 node c h2 x Heq Hn. apply (f_equal length) in Heq. rewrite length_app in Heq. simpl in Heq. lia. }
  clearbody n. revert w Hs. change (keeps (on_calls (safe E n)) (Rollback E app v)). unfold Rollback.
  repeat first [apply keeps_bind; [apply _|intros ?] | apply keeps_ret | apply keeps_result; intros ?
               | apply keeps_option; intros ? | apply keeps_if | progress cbv zeta].
  intros w1 Hs1. rewrite bind_run.
  match goal with |- context [start_rollback E ?a ?b ?c ?e ?f w1] =>
    pose proof (start_rollback_run E n a b c e f w1 Hr Hs1) as Hst;
    destruct (start_rollback E a b c e f w1) as [[id|err] w2] end; cbn [fst snd] in *; [|apply Hst].
  destruct Hst as [Hs2 Hstart]. rewrite bind_run.
  pose proof (healthy_run E n id w2 Hr Hs2) as Hh.
  destruct (healthy E id w2) as [ok w3]. cbn [fst snd] in *. destruct Hh as (Hs3 & Hpre & Hseen).
  apply (started_mono E _ (calls w3)) in Hstart; [|done]. destruct ok; cbn [negb].
  - apply finish_rollback_run; [done|]. right. right. exists id. auto.
  - rewrite !bind_run. match goal with |- context [give_up_rollback E ?a ?b ?c ?e] =>
      apply (give_up_quiet E (safe E n) a b c e) end.
    apply stop_and_remove_safe; [done|]. by left.
Qed.

(** An application with a running version 1 and a failed version 2. *)
Definition demo_row (id : string) (v : Z) (image container status : string) : Deployment :=
  {| dID := id; dAppID := "shop"; Version := v; Image := image; ContainerID := container;
     Status := status; BuildLog := ""; CommitSHA := "c0ffee" +:+ itoa v; CommitMessage := "";
     TriggeredBy := "manual"; Strategy := "recreate"; StartedAt := None; FinishedAt := None;
     CreatedAt := v |}.
Definition demo_app : Application :=
  {| aID := "shop"; ProjectID := "p"; aTenantID := "t"; aName := "Shop"; SourceType := "image";
     SourceURL := "shop:3"; Branch := "main"; Dockerfile := ""; Port := 8080; aStatus := "running";
     ServerID := "" |}.
Definition demo_world : World :=
  {| deployments := [demo_row "d1" 1 "shop:1" "c1" "running"; demo_row "d2" 2 "shop:2" "c2" "failed"];
     apps := {[ "shop" := demo_app ]}; domains := [{| domApp := "shop"; FQDN := "shop.example" |}];
     steps := 0; calls := []; events := [] |}.
Definition demo_env : Env :=
  {| works := λ _, true; clock := λ n, Z.of_nat n * Second; fresh := λ n, "id" +:+ itoa (Z.of_nat n);
     has_runtime := true; has_bus := true; on_create := λ _, Some "c3";
     on_stats := λ _, Some (Some true); on_list := λ _, Some []; on_other := λ _, true |}.

Lemma rollback_keeps_old_until_new_runs_witness :
  safe demo_env 0 (calls (Rollback demo_env "shop" 1 demo_world).2) ∧
  ("", Stop "c2" 30) ∈ calls (Rollback demo_env "shop" 1 demo_world).2.
Proof.
  split; [by apply (rollback_keeps_old_until_new_runs demo_env "shop" 1 demo_world)|].
  vm_compute. repeat constructor.
Defined.

(** ** Automatic rollback as a system of handlers

    Every [deploy.failed] event runs its handler in a goroutine of its own.  A handler
    enters (the check of [closed] and the wait group under one lock), decides under the
    lock whether a rollback starts, and leaves; [Stop] closes the manager and returns
    when no handler is left. *)
Record ar_sys := { mgr : AutoRollback; entered : list string; rolling : list string }.

(** The visible steps: a rollback that starts at a time, [Stop] returning. *)
Inductive ar_label := Silent | Starts (app : string) (t : instant) | Stopped.

Inductive ar_step : ar_sys → ar_label → ar_sys → Prop :=
| ar_enter m es rs d : closed m = false →
    ar_step {| mgr := m; entered := es; rolling := rs |} Silent
            {| mgr := m; entered := eAppID d :: es; rolling := rs |}
| ar_skip m es1 app es2 rs t1 t2 : t1 ≤ t2 → gate m app t1 t2 = None →
    ar_step {| mgr := m; entered := es1 ++ app :: es2; rolling := rs |} Silent
            {| mgr := m; entered := es1 ++ es2; rolling := rs |}
| ar_start m m' es1 app es2 rs t1 t2 : t1 ≤ t2 → gate m app t1 t2 = Some m' →
    ar_step {| mgr := m; entered := es1 ++ app :: es2; rolling := rs |} (Starts app t2)
            {| mgr := m'; entered := es1 ++ es2; rolling := app :: rs |}
| ar_finish m es rs1 app rs2 :
    ar_step {| mgr := m; entered := es; rolling := rs1 ++ app :: rs2 |} Silent
            {| mgr := m; entered := es; rolling := rs1 ++ rs2 |}
| ar_stop m es rs :
    ar_step {| mgr := m; entered := es; rolling := rs |} Silent
            {| mgr := ar_Stop m; entered := es; rolling := rs |}
| ar_stopped m : closed m = true →
    ar_step {| mgr := m; entered := []; rolling := [] |} Stopped
            {| mgr := m; entered := []; rolling := [] |}.

Inductive ar_run : ar_sys → list ar_label → ar_sys → Prop :=
| ar_done s : ar_run s [] s
| ar_more s l s' ls s'' : ar_step s l s' → ar_run s' ls s'' → ar_run s (l :: ls) s''.

Definition ar_initial : ar_sys := {| mgr := NewAutoRollbackManager; entered := []; rolling := [] |}.

(** The times at which rollbacks of [app] started. *)
Definition starts_of (app : string) (ls : list ar_label) : list instant :=
  omap (λ l, match l with Starts a t => if decide (a = app) then Some t else None | _ => None end) ls.

Definition spaced (ts : list instant) : Prop := StronglySorted (λ t u, t + cooldown ≤ u) ts.

Lemma gate_some m app t1 t2 m' :
  gate m app t1 t2 = Some m' → t1 ≤ t2 →
  closed m = false ∧ closed m' = false ∧ lastAttempt m' = <[app := t2]> (lastAttempt m) ∧
  (∀ last, lastAttempt m !! app = Some last → last + cooldown ≤ t2).
Proof.
  unfold gate. destruct (closed m) eqn:Hc; [done|].
  destruct (lastAttempt m !! app) as [last|] eqn:Hl.
  - destruct (_ <? _) eqn:Hlt; [done|]. intros [= <-] Ht. repeat split.
    intros ? [= <-]. bools. unfold time_sub, cooldown, Minute, Second, max_int64, min_int64 in *. lia.
  - intros [= <-] _. by repeat split.
Qed.

(** From a state, the starts of an application are spaced and come after its last one. *)
Lemma ar_run_spaced s ls s' app : ar_run s ls s' →
  spaced (starts_of app ls) ∧
  (∀ last, lastAttempt (mgr s) !! app = Some last → Forall (λ t, last + cooldown ≤ t) (starts_of app ls)).
Proof.
  induction 1 as [|s l s1 ls s2 Hstep _ [IH1 IH2]]; [split; constructor|].
  destruct Hstep as [| |m m' es1 a es2 rs t1 t2 Ht Hg| | |]; simpl in *; try by split.
  apply gate_some in Hg as (_ & _ & Hm & Hl); [|done]. case_decide as Ha.
  - subst a. assert (Forall (λ t, t2 + cooldown ≤ t) (starts_of app ls)) as Hf.
    { apply IH2. rewrite Hm. by rewrite lookup_insert_eq. }
    split; [by constructor|]. intros last Hlast. specialize (Hl last Hlast).
    constructor; [done|]. eapply Forall_impl; [exact Hf|]. intros t. unfold cooldown, Minute, Second in *. lia.
  - split; [done|]. intros last Hlast. apply IH2. rewrite Hm. by rewrite lookup_insert_ne by congruence.
Qed.

(** Once [Stop] has returned nothing happens any more. *)
Definition ar_ended (s : ar_sys) : Prop := closed (mgr s) = true ∧ entered s = [] ∧ rolling s = [].

Lemma ar_ended_step s l s' : ar_step s l s' → ar_ended s → ar_ended s' ∧ ∀ a t, l ≠ Starts a t.
Proof.
  destruct 1 as [m es rs d Hc|m es1 a es2|m m' es1 a es2|m es rs1 a rs2| |];
    intros (H1 & H2 & H3); simpl in *; try (split; [split; [|split]|]; congruence || done).
  - by destruct es1.
  - by destruct es1.
  - by destruct rs1.
Qed.

Lemma ar_ended_run s ls s' a t : ar_run s ls s' → ar_ended s → Starts a t ∉ ls.
Proof.
  induction 1 as [|s l s1 ls s2 Hstep _ IH]; intros He; [by intros ?%elem_of_nil|].
  destruct (ar_ended_step _ _ _ Hstep He) as [He1 Hl].
  intros [<-|Hin]%elem_of_cons; [by eapply Hl|by apply IH].
Qed.

(** Automatic rollback is rate-limited and stops for good: in every interleaving of failure
    events, handlers and [Stop], two rollbacks of one application start at least the
    cooldown of five minutes apart, and none starts after a [Stop] has returned. *)
Theorem auto_rollback_limited ls s app :
  ar_run ar_initial ls s →
  spaced (starts_of app ls) ∧
  ∀ ls1 ls2 t, ls = ls1 ++ Stopped :: ls2 → Starts app t ∉ ls2.
Proof.
  intros Hrun. split; [by eapply ar_run_spaced|]. intros ls1 ls2 t ->.
  revert Hrun. generalize ar_initial. induction ls1 as [|l ls1 IH]; intros s0 Hrun; inversion Hrun; subst.
  - eapply ar_ended_run; [done|]. by match goal with H : ar_step _ Stopped _ |- _ => inversion H; subst end.
  - eauto.
Qed.

(** Two failures of one application within the cooldown, a third after it. *)
Definition demo_ar : list ar_label := [Silent; Starts "shop" Second; Silent; Silent; Silent; Silent; Starts "shop" (6 * Minute)].

Lemma auto_rollback_limited_witness :
  spaced (starts_of "shop" demo_ar) ∧ starts_of "shop" demo_ar = [Second; 6 * Minute].
Proof.
  split; [|done].
  set (d := {| eAppID := "shop"; eDeploymentID := ""; eVersion := 0; eImage := ""; eContainerID := "";
               eStrategy := ""; eCommitSHA := "" |}).
  eapply (auto_rollback_limited demo_ar _ "shop"). unfold demo_ar, ar_initial.
  eapply ar_more; [by apply (ar_enter _ _ _ d)|].
  eapply ar_more; [eapply (ar_start _ _ [] "shop" [] _ Second Second); [done|vm_compute; reflexivity]|].
  eapply ar_more; [by apply (ar_enter _ _ _ d)|].
  eapply ar_more; [eapply (ar_skip _ [] "shop" [] _ Minute Minute); [done|vm_compute; reflexivity]|].
  eapply ar_more; [eapply (ar_finish _ _ [] "shop" [])|].
  eapply ar_more; [by apply (ar_enter _ _ _ d)|].
  eapply ar_more; [eapply (ar_start _ _ [] "shop" [] _ (6 * Minute) (6 * Minute)); [done|vm_compute; reflexivity]|].
  apply ar_done.
Defined.

(** ** The other operations and the deployment table *)

Section TableKeptByAll.
Variable E : Env.

#[export] Instance findLastStable_table app : keeps table_ok (findLastStable E app).
Proof. unfold findLastStable, ListDeploymentsByApp. apply _. Qed.
#[export] Instance handleFailure_table m app : keeps table_ok (handleFailure E m app).
Proof.
  unfold handleFailure. apply keeps_bind; [apply _|intros t1]. apply keeps_bind; [apply _|intros t2].
  destruct (gate m app t1 t2); apply _.
Qed.
#[export] Instance on_deploy_failed_table m e : keeps table_ok (on_deploy_failed E m e).
Proof. unfold on_deploy_failed. apply _. Qed.
#[export] Instance mark_app_table app s : keeps table_ok (mark_app E app s).
Proof. unfold mark_app, tenant_of, GetApp. apply _. Qed.
#[export] Instance restart_loop_table n k app c : keeps table_ok (restart_loop E n k app c).
Proof. revert k. induction n; intros k; simpl; unfold sleep; apply _. Qed.
#[export] Instance handleCrash_table app c : keeps table_ok (handleCrash E app c).
Proof. unfold handleCrash. apply _. Qed.
#[export] Instance checkCrashed_table : keeps table_ok (checkCrashed E).
Proof. unfold checkCrashed. cbv zeta. apply _. Qed.
#[export] Instance reclaim_one_table s d : keeps table_ok (reclaim_one E s d).
Proof. unfold reclaim_one, GetApp. cbv zeta. apply _. Qed.
#[export] Instance Start_table : keeps table_ok (Start E).
Proof.
  unfold Start, reclaimStaleDeployments, cleanOrphanContainers, ListDeploymentsByStatus, GetApp.
  cbv zeta. apply _.
Qed.

End TableKeptByAll.

(** ** The sweep at start-up *)

(** A row before and after the sweep settled it. *)
Definition settled (r r' : Deployment) : Prop :=
  Status r' = "failed" ∧ is_Some (FinishedAt r') ∧ dID r' = dID r ∧ dAppID r' = dAppID r ∧
  Version r' = Version r ∧ Image r' = Image r ∧ ContainerID r' = ContainerID r.

Definition fail_app (a : Application) : Application := with_app_status a "failed".

(** What one pass over the rows [ds] does: a row with the identifier of one of them takes
    their failure, the applications of [ds] are failed, the rest stays. *)
Definition took (ds : list Deployment) (r r' : Deployment) : Prop :=
  if decide (dID r ∈ (dID <$> ds)) then
    ∃ d, d ∈ ds ∧ dID d = dID r ∧ Status r' = "failed" ∧ is_Some (FinishedAt r') ∧
      dID r' = dID r ∧ dAppID r' = dAppID r ∧ Version r' = Version r ∧ Image r' = Image r ∧
      ContainerID r' = ContainerID d
  else r' = r.
Definition apps_took (ds : list Deployment) (m m' : gmap string Application) : Prop :=
  ∀ id, m' !! id = if decide (id ∈ (dAppID <$> ds)) then fail_app <$> m !! id else m !! id.

Lemma stmt_works E {A} (f : World → result db_error A * World) w :
  works E (steps w) = true → stmt E f w = ((f w).1, tick (f w).2).
Proof. intros H. unfold stmt. rewrite H. by destruct (f w). Qed.

Lemma Forall2_fmap_same {A} (f : A → A) (R : A → A → Prop) l :
  (∀ x, x ∈ l → R x (f x)) → Forall2 R l (f <$> l).
Proof. intros H. apply Forall2_fmap_r, Forall_Forall2_diag, Forall_forall, H. Qed.

Lemma took_single d r r' :
  took [d] r r' ↔
  if decide (dID r = dID d) then
    ∃ d', d' ∈ [d] ∧ dID d' = dID r ∧ Status r' = "failed" ∧ is_Some (FinishedAt r') ∧
      dID r' = dID r ∧ dAppID r' = dAppID r ∧ Version r' = Version r ∧ Image r' = Image r ∧
      ContainerID r' = ContainerID d'
  else r' = r.
Proof. unfold took. simpl. by rewrite (decide_ext _ (dID r = dID d)) by apply list_elem_of_singleton. Qed.

Lemma reclaim_one_run E s d w :
  (∀ n, works E n = true) →
  let w' := (reclaim_one E s d w).2 in
  Forall2 (took [d]) (deployments w) (deployments w') ∧ apps_took [d] (apps w) (apps w') ∧
  domains w' = domains w ∧ calls w' = calls w.
Proof.
  intros Hw. cbv zeta. unfold reclaim_one. rewrite bind_run. cbv zeta. set (now := (Now E w).1).
  rewrite bind_run. unfold UpdateDeployment. rewrite stmt_works by done. cbn [fst snd].
  set (d' := with_log _ _). rewrite bind_run. unfold GetApp, query. rewrite stmt_works by done.
  cbn [fst snd]. split; [|split].
  - match goal with |- Forall2 _ _ (deployments ?x) =>
      replace (deployments x) with (update_row d' <$> deployments w) end.
    + apply Forall2_fmap_same. intros r _. rewrite took_single. unfold update_row.
      change (dID d') with (dID d). repeat case_decide; try congruence.
      exists d. split; [by left|]. repeat split; by try eexists.
    + destruct (apps w !! dAppID d) eqn:Ha; simpl; rewrite ?Ha; [|done]. rewrite bind_run.
      unfold UpdateAppStatus. by rewrite stmt_works by done.
  - intros id. simpl. rewrite (decide_ext _ (id = dAppID d)) by apply list_elem_of_singleton.
    destruct (apps w !! dAppID d) as [a|] eqn:Ha; simpl; rewrite ?Ha.
    + rewrite bind_run. unfold UpdateAppStatus. rewrite stmt_works by done. simpl. case_decide as Hid.
      * subst id. rewrite lookup_alter_eq, Ha. simpl. by rewrite decide_True.
      * by rewrite lookup_alter_ne by congruence.
    + case_decide as Hid; [|done]. subst id. by rewrite Ha.
  - destruct (apps w !! dAppID d) eqn:Ha; simpl; rewrite ?Ha; [|done]. rewrite bind_run.
    unfold UpdateAppStatus. by rewrite stmt_works by done.
Qed.

Lemma took_trans d ds r1 r2 r3 : took [d] r1 r2 → took ds r2 r3 → took (d :: ds) r1 r3.
Proof.
  rewrite took_single. unfold took. simpl. intros H1 H2.
  destruct (decide (dID r1 = dID d)) as [Hd|Hd]; [destruct H1 as (d0 & Hd0 & H1 & H1')|subst r2].
  - apply list_elem_of_singleton in Hd0 as ->. destruct H1' as (S1 & F1 & I1 & A1 & V1 & M1 & C1).
    rewrite I1 in H2. destruct (decide (dID r1 ∈ dID <$> ds)) as [Hin|Hin].
    + destruct H2 as (d1 & Hd1 & H2 & S2 & F2 & I2 & A2 & V2 & M2 & C2).
      rewrite decide_True by (rewrite elem_of_cons; by right).
      exists d1. split; [by right|]. repeat split; congruence.
    + subst r3. rewrite decide_True by (rewrite elem_of_cons; by left).
      exists d. split; [by left|]. by repeat split.
  - destruct (decide (dID r1 ∈ dID <$> ds)) as [Hin|Hin].
    + destruct H2 as (d1 & Hd1 & H2). rewrite decide_True by (rewrite elem_of_cons; by right).
      exists d1. split; [by right|done].
    + subst r3. rewrite decide_False; [done|]. rewrite elem_of_cons. naive_solver.
Qed.

Lemma apps_took_trans d ds m1 m2 m3 :
  apps_took [d] m1 m2 → apps_took ds m2 m3 → apps_took (d :: ds) m1 m3.
Proof.
  intros H1 H2 id. rewrite H2, H1.
  assert (id ∈ dAppID <$> [d] ↔ id = dAppID d) as E1 by apply list_elem_of_singleton.
  assert (id ∈ dAppID <$> d :: ds ↔ id = dAppID d ∨ id ∈ dAppID <$> ds) as E2 by apply elem_of_cons.
  repeat case_decide; try tauto; by destruct (m1 !! id).
Qed.

Lemma reclaim_each_run E s ds w :
  (∀ n, works E n = true) →
  let w' := (each (reclaim_one E s) ds w).2 in
  Forall2 (took ds) (deployments w) (deployments w') ∧ apps_took ds (apps w) (apps w') ∧
  domains w' = domains w ∧ calls w' = calls w.
Proof.
  intros Hw. cbv zeta. revert w. induction ds as [|d ds IH]; intros w.
  - split; [|split; [|done]].
    + apply Forall_Forall2_diag, Forall_forall. intros r _. unfold took.
      by rewrite decide_False by apply not_elem_of_nil.
    + intros id. by rewrite decide_False by apply not_elem_of_nil.
  - cbn [each]. rewrite bind_run. pose proof (reclaim_one_run E s d w Hw) as H1. cbv zeta in H1.
    set (w1 := (reclaim_one E s d w).2) in *. destruct H1 as (H1 & A1 & D1 & C1).
    destruct (IH w1) as (H2 & A2 & D2 & C2). split; [|split; [|split; congruence]].
    + eapply Forall2_trans; [|exact H1|exact H2]. apply took_trans.
    + by apply (apps_took_trans d ds (apps w) (apps w1)).
Qed.

Lemma NoDup_fmap_same {A B} (f : A → B) l x y :
  NoDup (f <$> l) → x ∈ l → y ∈ l → f x = f y → x = y.
Proof.
  induction l as [|a l IH]; cbn; intros Hn Hx Hy Hf; [by apply elem_of_nil in Hx|].
  apply NoDup_cons in Hn as [Ha Hn]. apply elem_of_cons in Hx, Hy.
  destruct Hx as [->|Hx], Hy as [->|Hy]; [done| | |by apply IH].
  - destruct Ha. rewrite Hf. by apply list_elem_of_fmap_2.
  - destruct Ha. rewrite <- Hf. by apply list_elem_of_fmap_2.
Qed.

Lemma Forall2_with_l {A B} (P R : A → B → Prop) (Q : A → Prop) l k :
  Forall2 P l k → Forall Q l → (∀ x y, Q x → P x y → R x y) → Forall2 R l k.
Proof. intros H HQ HR. induction H; inversion HQ; subst; constructor; auto. Qed.

Definition stale_with (s : string) (r : Deployment) : Prop := Status r = s.
#[global] Instance stale_with_dec s r : Decision (stale_with s r) := ltac:(unfold stale_with; apply _).

(** The rows one pass reads. *)
Lemma stale_listed E s w :
  (∀ n, works E n = true) → zlen (filter (stale_with s) (deployments w)) ≤ 10000 →
  ∃ ds, ListDeploymentsByStatus E s w = (Ok ds, tick w) ∧
    ∀ d, d ∈ ds ↔ ∃ r, r ∈ deployments w ∧ Status r = s ∧ d = read_row r.
Proof.
  intros Hw Hlen. unfold ListDeploymentsByStatus, query. rewrite stmt_works by done.
  eexists. split; [reflexivity|]. intros d. rewrite list_elem_of_fmap.
  unfold limit. cbn [Z.ltb Z.compare].
  assert (length (merge_sort older_created (filter (λ d, Status d = s) (deployments w))) ≤ Z.to_nat 10000)%nat.
  { rewrite merge_sort_Permutation. change (zlen (filter (λ d, Status d = s) (deployments w)) ≤ 10000) in Hlen. lia. }
  rewrite take_ge by done. split.
  - intros (r & -> & Hr). rewrite merge_sort_Permutation in Hr. apply list_elem_of_filter in Hr as [? ?]. eauto.
  - intros (r & Hr & Hs & ->). exists r. split; [done|]. rewrite merge_sort_Permutation.
    by apply list_elem_of_filter.
Qed.

(** One pass over the rows of a status. *)
Definition reclaim_pass (E : Env) (s : string) : M unit :=
  r ← ListDeploymentsByStatus E s;
  match r with
  | Err _ => mret tt
  | Ok ds => each (reclaim_one E s) ds
  end.

Definition swept (stale : Deployment → Prop) `{!∀ r, Decision (stale r)} (w w' : World) : Prop :=
  Forall2 (λ r r', if decide (stale r) then settled r r' else r' = r) (deployments w) (deployments w') ∧
  (∀ id, apps w' !! id =
    if decide (Exists (λ r, stale r ∧ dAppID r = id) (deployments w)) then fail_app <$> apps w !! id
    else apps w !! id) ∧
  domains w' = domains w ∧ calls w' = calls w.

Lemma reclaim_pass_run E s w :
  (∀ n, works E n = true) → NoDup (dID <$> deployments w) →
  zlen (filter (stale_with s) (deployments w)) ≤ 10000 →
  swept (stale_with s) w (reclaim_pass E s w).2.
Proof.
  intros Hw Hn Hlen. destruct (stale_listed E s w Hw Hlen) as (ds & Hl & Hds).
  unfold reclaim_pass. rewrite bind_run, Hl. cbn [fst snd].
  destruct (reclaim_each_run E s ds (tick w) Hw) as (H1 & H2 & H3 & H4).
  split; [|split; [|by split]].
  - eapply (Forall2_with_l _ _ (λ r, r ∈ deployments w)); [exact H1|by apply Forall_forall|].
    intros r r' Hr Ht. unfold took in Ht.
    destruct (decide (stale_with s r)) as [Hs|Hs].
    + rewrite decide_True in Ht by (apply list_elem_of_fmap; exists (read_row r); split; [done|]; apply Hds; eauto).
      destruct Ht as (d & Hd & Hid & ? & ? & ? & ? & ? & ? & Hc). apply Hds in Hd as (r2 & Hr2 & _ & ->).
      assert (r2 = r) as -> by (by apply (NoDup_fmap_same dID (deployments w))). by repeat split.
    + rewrite decide_False in Ht; [done|]. intros (d & Hid & Hd)%list_elem_of_fmap.
      apply Hds in Hd as (r2 & Hr2 & Hs2 & ->).
      assert (r2 = r) as -> by (by apply (NoDup_fmap_same dID (deployments w))). done.
  - intros id. rewrite H2. cbn [apps tick]. apply decide_ext. rewrite Exists_exists, list_elem_of_fmap. split.
    + intros (d & -> & Hd). apply Hds in Hd as (r & Hr & Hs & ->). exists r. by repeat split.
    + intros (r & Hr & Hs & <-). exists (read_row r). split; [done|]. apply Hds. eauto.
Qed.

Lemma length_filter_impl {A} (P Q : A → Prop) `{!∀ x, Decision (P x)} `{!∀ x, Decision (Q x)} l :
  (∀ x, P x → Q x) → (length (filter P l) ≤ length (filter Q l))%nat.
Proof.
  intros HPQ. induction l as [|a l IH]; [done|]. rewrite !filter_cons.
  repeat case_decide; simpl; naive_solver lia.
Qed.

Definition in_flight (r : Deployment) : Prop := Status r = "deploying" ∨ Status r = "building".
#[global] Instance in_flight_dec r : Decision (in_flight r) := ltac:(unfold in_flight; apply _).

Lemma Forall2_fmap_eq {A B} (f : A → B) R l k :
  Forall2 R l k → (∀ x y, R x y → f y = f x) → f <$> k = f <$> l.
Proof. intros H Hf. induction H; cbn; f_equal; auto. Qed.

Lemma swept_ids s w w' : swept (stale_with s) w w' → dID <$> deployments w' = dID <$> deployments w.
Proof.
  intros (H & _). eapply Forall2_fmap_eq; [exact H|]. intros x y. cbv beta. case_decide; [|congruence].
  by intros (_ & _ & ? & _).
Qed.

Lemma swept_trans w w1 w2 :
  swept (stale_with "deploying") w w1 → swept (stale_with "building") w1 w2 → swept in_flight w w2.
Proof.
  intros (H1 & A1 & D1 & C1) (H2 & A2 & D2 & C2). split; [|split; [|split; congruence]].
  - eapply Forall2_trans; [|exact H1|exact H2]. intros r1 r2 r3 Hr1 Hr2. unfold in_flight, stale_with in *.
    repeat case_decide; try (subst; naive_solver).
    destruct Hr1 as (Hf & _). congruence.
  - intros id. rewrite A2, A1.
    assert (Exists (λ r, stale_with "building" r ∧ dAppID r = id) (deployments w1) ↔
            Exists (λ r, stale_with "building" r ∧ dAppID r = id) (deployments w)) as HE.
    { clear -H1. induction H1 as [|r r' l k Hr _ IH]; [done|]. rewrite !Exists_cons, IH.
      unfold stale_with in *. case_decide as Hd; [|naive_solver].
      destruct Hr as (Hf & _). rewrite Hf, Hd. naive_solver. }
    assert (Exists (λ r, in_flight r ∧ dAppID r = id) (deployments w) ↔
            Exists (λ r, stale_with "deploying" r ∧ dAppID r = id) (deployments w) ∨
            Exists (λ r, stale_with "building" r ∧ dAppID r = id) (deployments w)) as HU.
    { rewrite !Exists_exists. unfold in_flight, stale_with. naive_solver. }
    repeat case_decide; try tauto; by destruct (apps w !! id).
Qed.

Lemma reclaim_sweeps E w :
  (∀ n, works E n = true) → NoDup (dID <$> deployments w) →
  zlen (filter in_flight (deployments w)) ≤ 10000 →
  swept in_flight w (reclaimStaleDeployments E w).2.
Proof.
  intros Hw Hn Hlen.
  change (reclaimStaleDeployments E) with (each (reclaim_pass E) ["deploying"; "building"]).
  cbn [each]. rewrite !bind_run. cbn [mret M_ret snd].
  change (swept in_flight w (reclaim_pass E "building" (reclaim_pass E "deploying" w).2).2).
  assert (zlen (filter (stale_with "deploying") (deployments w)) ≤ 10000 ∧
          zlen (filter (stale_with "building") (deployments w)) ≤ 10000) as [L1 L2].
  { split; etrans; [|exact Hlen| |exact Hlen]; apply inj_le, length_filter_impl;
      unfold in_flight, stale_with; auto. }
  pose proof (reclaim_pass_run E "deploying" w Hw Hn L1) as S1.
  set (w1 := (reclaim_pass E "deploying" w).2) in *. clearbody w1.
  pose proof (swept_ids _ _ _ S1) as Hids.
  assert (∀ r r', (if decide (stale_with "deploying" r) then settled r r' else r' = r) →
            stale_with "building" r ↔ stale_with "building" r') as Hb.
  { intros r r'. unfold stale_with. case_decide as Hd; [|naive_solver]. intros (Hf & _). rewrite Hf, Hd. done. }
  assert (length (filter (stale_with "building") (deployments w1)) =
          length (filter (stale_with "building") (deployments w))) as HL.
  { destruct S1 as [H1 _]. clear -H1 Hb. induction H1 as [|r r' l k Hr _ IH]; [done|]. rewrite !filter_cons.
    specialize (Hb r r' Hr). repeat case_decide; try tauto; simpl; congruence. }
  assert (swept (stale_with "building") w1 (reclaim_pass E "building" w1).2) as S2.
  { apply reclaim_pass_run; [done|by rewrite Hids|by rewrite HL]. }
  clear HL. generalize dependent (reclaim_pass E "building" w1). intros [[] w2] S2. simpl in *.
  exact (swept_trans _ _ _ S1 S2).
Qed.

(** The sweep at start-up settles every deployment a crash left in flight, and nothing
    else: with a working database and no more than the 10000 rows a query returns, exactly
    the rows that were deploying or building are marked failed and finished (identity,
    version, image and container unchanged), exactly their applications are marked failed,
    and no container is touched. *)
Theorem reclaim_settles_in_flight E w :
  (∀ n, works E n = true) → NoDup (dID <$> deployments w) →
  zlen (filter in_flight (deployments w)) ≤ 10000 →
  swept in_flight w (reclaimStaleDeployments E w).2.
Proof. apply reclaim_sweeps. Qed.

(** A crash with one deployment under way and one being built. *)
Definition crashed_world : World :=
  with_deployments demo_world [demo_row "d1" 1 "shop:1" "c1" "running";
    demo_row "d2" 2 "shop:2" "" "deploying"; demo_row "d3" 3 "shop:3" "" "building"].

Lemma reclaim_settles_in_flight_witness :
  swept in_flight crashed_world (reclaimStaleDeployments demo_env crashed_world).2 ∧
  Status <$> deployments (reclaimStaleDeployments demo_env crashed_world).2 = ["running"; "failed"; "failed"].
Proof.
  split; [|by vm_compute]. apply (reclaim_settles_in_flight demo_env crashed_world); [done| |done].
  by apply (bool_decide_unpack _).
Defined.

(** ** Restarting a crashed container *)

Lemma mark_app_run E app status w a :
  (∀ n, works E n = true) → apps w !! app = Some a →
  let w' := (mark_app E app status w).2 in
  apps w' = <[app := with_app_status a status]> (apps w) ∧ calls w' = calls w ∧
  deployments w' = deployments w.
Proof.
  intros Hw Ha. cbv zeta. unfold mark_app, tenant_of. rewrite !bind_run. unfold GetApp, query.
  rewrite stmt_works by done. unfold UpdateAppStatus. rewrite stmt_works by done. simpl. rewrite Ha. simpl.
  split; [|done]. apply map_eq. intros i. destruct (decide (i = app)) as [->|Hne].
  - rewrite lookup_alter_eq, lookup_insert_eq, Ha. simpl. by rewrite decide_True.
  - by rewrite lookup_alter_ne, lookup_insert_ne by congruence.
Qed.

(** The calls of attempts [i], [i + 1], ..., [k] of them. *)
Fixpoint attempts (c : string) (i : Z) (k : nat) : history :=
  match k with
  | O => []
  | S k => ("", Sleep (i * 5 * Second)) :: ("", Restart c) :: attempts c (i + 1) k
  end.

Lemma restart_loop_run E n i app c w a :
  (∀ n, works E n = true) → has_runtime E = true → apps w !! app = Some a →
  1 ≤ i → i + Z.of_nat n ≤ 1000 →
  let w' := (restart_loop E n i app c w).2 in
  ∃ k status, (k ≤ n)%nat ∧ calls w' = calls w ++ attempts c i k ∧
    apps w' = <[app := with_app_status a status]> (apps w) ∧
    (∀ j, (0 < j < k)%nat → on_other E (calls w ++ attempts c i j) = false) ∧
    ((status = "running" ∧ (0 < k)%nat ∧ on_other E (calls w') = true) ∨
     (status = "failed" ∧ k = n ∧ ((0 < k)%nat → on_other E (calls w') = false))).
Proof.
  intros Hw Hr Ha. cbv zeta. revert i w Ha. induction n as [|n IH]; intros i w Ha Hi Hn; cbn [restart_loop].
  - destruct (mark_app_run E app "failed" w a Hw Ha) as (H1 & H2 & _).
    exists 0%nat, "failed". cbn [attempts]. rewrite app_nil_r. repeat split; [done|done|done|lia|].
    right. repeat split; lia.
  - rewrite bind_run. cbn [sleep ask fst snd]. rewrite Hr. cbn [negb]. rewrite bind_run. cbn [ask fst snd].
    unfold defaultAutoRestartRetryDelay. unfold Second. wrap_id. fold Second.
    set (w1 := add_call (add_call w "" (Sleep (i * 5 * Second))) "" (Restart c)).
    assert (calls w1 = calls w ++ attempts c i 1) as Hc1 by (cbn; by rewrite <- app_assoc).
    assert (∀ k, calls w1 ++ attempts c (i + 1) k = calls w ++ attempts c i (S k)) as Hc.
    { intros k. rewrite Hc1. cbn [attempts]. by rewrite <- app_assoc. }
    destruct (on_other E (calls w1)) eqn:Ho.
    + destruct (mark_app_run E app "running" w1 a Hw Ha) as (H1 & H2 & _).
      exists 1%nat, "running". rewrite H2, <- Hc1. repeat split; [lia|done|lia|]. left. rewrite Ho. auto.
    + destruct (IH (i + 1) w1 Ha) as (k & st & Hk & Hcalls & Happs & Hbad & Hres); [lia|lia|].
      exists (S k), st. rewrite Hcalls, Hc in *. split; [lia|]. split; [done|]. split; [done|]. split.
      * intros [|[|j]] Hj; [lia|by rewrite <- Hc1|]. rewrite <- Hc. apply Hbad. lia.
      * destruct Hres as [(-> & ? & ?)|(-> & -> & Hlast)]; [left; auto with lia|right].
        split; [done|]. split; [done|]. intros _. destruct n as [|n].
        -- by rewrite <- Hc1.
        -- apply Hlast. lia.
Qed.

(** A crashed container is restarted at most five times, after waits of 5, 10, 15, 20 and 25
    seconds: the attempts stop at the first one the runtime accepts, which marks the
    application running, and only when all five were refused it is marked failed. *)
Theorem crash_restarts_bounded E app c w a :
  (∀ n, works E n = true) → has_runtime E = true → apps w !! app = Some a →
  let w' := (handleCrash E app c w).2 in
  ∃ k status, (k ≤ 5)%nat ∧ calls w' = calls w ++ attempts c 1 k ∧
    (∃ a', apps w' !! app = Some a' ∧ aStatus a' = status) ∧
    (∀ j, (0 < j < k)%nat → on_other E (calls w ++ attempts c 1 j) = false) ∧
    ((status = "running" ∧ (0 < k)%nat ∧ on_other E (calls w') = true) ∨
     (status = "failed" ∧ k = 5%nat ∧ on_other E (calls w') = false)).
Proof.
  intros Hw Hr Ha. cbv zeta. unfold handleCrash. rewrite !bind_run.
  destruct (mark_app_run E app "crashed" w a Hw Ha) as (H1 & H2 & _).
  set (w1 := (mark_app E app "crashed" w).2) in *. clearbody w1.
  match goal with |- context [publish E ?e w1] => set (w2 := (publish E e w1).2) end.
  assert (calls w2 = calls w ∧ apps w2 = apps w1) as [Hc2 Ha2].
  { rewrite <- H2. subst w2. unfold publish. simpl. by destruct (has_bus E). }
  clearbody w2.
  destruct (restart_loop_run E maxRetries 1 app c w2 (with_app_status a "crashed") Hw Hr)
    as (k & st & Hk & Hcalls & Happs & Hbad & Hres); [by rewrite Ha2, H1, lookup_insert_eq|done|done|].
  rewrite Hc2 in *. exists k, st. split; [done|]. split; [done|]. split.
  { rewrite Happs, lookup_insert_eq. eauto. }
  split; [done|]. destruct Hres as [?|(-> & -> & Hl)]; [by left|]. right. split; [done|]. split; [done|].
  apply Hl. unfold maxRetries. lia.
Qed.

Lemma crash_restarts_bounded_witness :
  ∃ k status, (k ≤ 5)%nat ∧
    calls (handleCrash demo_env "shop" "c1" demo_world).2 = [] ++ attempts "c1" 1 k ∧ status = "running".
Proof.
  destruct (crash_restarts_bounded demo_env "shop" "c1" demo_world demo_app) as (k & st & Hk & Hc & _ & _ & Hres);
    [done..|]. exists k, st. split; [done|]. split; [done|].
  destruct Hres as [(-> & _)|(_ & _ & Hf)]; [done|]. by vm_compute in Hf.
Defined.

(** The sweep of orphans takes every failure to read an application for its absence: when
    the database refuses the query, the container of a live application is removed. *)
Example orphan_sweep_removes_live_app :
  let c := {| cID := "c1"; cState := "running"; cLabels := {[ "monster.app.id" := "shop" ]} |} in
  let E := {| works := λ _, false; clock := λ _, 0; fresh := λ _, ""; has_runtime := true;
              has_bus := true; on_create := λ _, None; on_stats := λ _, None;
              on_list := λ _, Some [c]; on_other := λ _, true |} in
  calls (cleanOrphanContainers E demo_world).2 =
  [("", ListByLabels "monster.managed" "true"); ("", Remove "c1" true)].
Proof. by vm_compute. Qed.

End Deploy.
