(* ===== verification/DeployPipeline.v ===== *)
(** * DeployPipeline: the deployment handlers ([internal/api/handlers/deploy_pipeline.go])

    Freeze windows, approvals, the build-and-deploy path of applications built from git or
    run from an image, and the handlers over the deployment history.  The code runs in the
    monad of [Deploy]; the builder is a function of the handler, as in the source, and its
    own effects are not modelled.  A handler's response is its status and its body. *)

From S2P Require Import Prelude GoStrings Access Login Deploy.
Import Deploy.
#[local] Open Scope Z_scope.

Module Pipeline.

(** ** Freeze windows *)

(** src/internal/api/handlers/deploy_pipeline.go:250-256 FreezeWindow *)
Record FreezeWindow := {
  fID : string; Reason : string; StartsAt : instant; EndsAt : instant; Active : bool }.

(** The bucket [deploy_freeze] of the key-value store: the windows of each tenant, without
    expiry.  A read or a write may fail. *)
Abbreviation freezes := (gmap string (list FreezeWindow)).

Definition covers (now : instant) (fw : FreezeWindow) : bool :=
  Active fw && (StartsAt fw <? now) && (now <? EndsAt fw).

(** [kv] is [None] without a store, [reads] whether the read succeeds.
    src/internal/api/handlers/deploy_pipeline.go:263-278 activeDeployFreeze *)
Definition activeDeployFreeze (now : instant) (kv : option freezes) (reads : bool) (tenant : string) : bool :=
  match kv with
  | None => false
  | Some m =>
      if bool_decide (tenant = "") || negb reads then false
      else match m !! tenant with
           | Some ws => existsb (covers now) ws
           | None => false
           end
  end.

Inductive body :=
| NoBody
| Message (s : string)
| Windows (ws : list FreezeWindow) (frozen : bool)
| Window (w : FreezeWindow)
| Deployed (d : Deployment)
| History (ds : list Deployment)
| Versions (vs : list VersionInfo)
| Difference (from to : Deployment).

Record reply := { code : Z; answer : body }.
Definition fail (c : Z) (s : string) : reply := {| code := c; answer := Message s |}.

(** src/internal/api/handlers/deploy_pipeline.go:281-305 DeployFreezeHandler.Get *)
Definition Freeze_Get (now : instant) (m : freezes) (reads : bool) (cl : option Access.Claims) : reply :=
  match cl with
  | None => fail 401 "unauthorized"
  | Some cl =>
      match (if reads then m !! Access.TenantID cl else None) with
      | None => {| code := 200; answer := Windows [] false |}
      | Some ws => {| code := 200; answer := Windows (filter (λ w, Active w = true) ws) (existsb (covers now) ws) |}
      end
  end.

(** The body of a request to freeze: a reason and two times, [None] for a text that is not
    a time, or [None] for a body that does not decode.
    src/internal/api/handlers/deploy_pipeline.go:308-351 DeployFreezeHandler.Create *)
Definition Freeze_Create (now : instant) (id : string) (m : freezes) (reads writes : bool)
    (cl : option Access.Claims) (req : option (string * option instant * option instant)) : freezes * reply :=
  match cl with
  | None => (m, fail 401 "unauthorized")
  | Some cl =>
  match req with
  | None => (m, fail 400 "invalid request body")
  | Some (reason, starts, ends) =>
      let s := default zero_time starts in
      let s := if s =? zero_time then now else s in
      let e := default zero_time ends in
      let e := if e =? zero_time then s + 24 * Hour else e in
      let fw := {| fID := id; Reason := reason; StartsAt := s; EndsAt := e; Active := true |} in
      let ws := default [] (if reads then m !! Access.TenantID cl else None) in
      if bool_decide (50 ≤ length ws)%nat then (m, fail 409 "freeze window limit reached (50)")
      else if writes then (<[Access.TenantID cl := ws ++ [fw]]> m, {| code := 201; answer := Window fw |})
      else (m, fail 500 "failed to save freeze window")
  end end.

(** The first window with the identifier is switched off.
    src/internal/api/handlers/deploy_pipeline.go:369-374 DeployFreezeHandler.Delete.loop *)
Fixpoint deactivate (id : string) (ws : list FreezeWindow) : list FreezeWindow :=
  match ws with
  | [] => []
  | w :: ws =>
      if decide (fID w = id) then
        {| fID := fID w; Reason := Reason w; StartsAt := StartsAt w; EndsAt := EndsAt w; Active := false |} :: ws
      else w :: deactivate id ws
  end.

(** src/internal/api/handlers/deploy_pipeline.go:354-382 DeployFreezeHandler.Delete *)
Definition Freeze_Delete (m : freezes) (reads writes : bool) (cl : option Access.Claims) (id : string)
  : freezes * reply :=
  match cl with
  | None => (m, fail 401 "unauthorized")
  | Some cl =>
  if bool_decide (id = "") then (m, fail 400 "id is required") else
  match (if reads then m !! Access.TenantID cl else None) with
  | None => (m, {| code := 204; answer := NoBody |})
  | Some ws =>
      if writes then (<[Access.TenantID cl := deactivate id ws]> m, {| code := 204; answer := NoBody |})
      else (m, fail 500 "failed to update freeze window")
  end end.

(** ** Approvals *)

(** src/internal/api/handlers/deploy_pipeline.go:40-52 ApprovalRequest *)
Record ApprovalRequest := {
  rAppID : string; rTenantID : string; RequestedBy : string; rStatus : string; rReason : string;
  ReviewedBy : string; ReviewedAt : option instant }.

(** src/internal/api/handlers/deploy_pipeline.go:55-70 DeployApprovalHandler.ListPending *)
Definition ListPending (pending : gmap string ApprovalRequest) (cl : option Access.Claims)
  : result Z (gmap string ApprovalRequest) :=
  match cl with
  | None => Err 401
  | Some cl => Ok (filter (λ kv, rStatus kv.2 = "pending" ∧ rTenantID kv.2 = Access.TenantID cl) pending)
  end.

Definition reviewed (r : ApprovalRequest) (status reason by_ : string) (now : instant) : ApprovalRequest :=
  {| rAppID := rAppID r; rTenantID := rTenantID r; RequestedBy := RequestedBy r; rStatus := status;
     rReason := reason; ReviewedBy := by_; ReviewedAt := Some now |}.

(** The checks and the update that approving and rejecting share. *)
Definition review (now : instant) (pending : gmap string ApprovalRequest) (cl : Access.Claims)
    (id status reason : string) : gmap string ApprovalRequest * Z :=
  match pending !! id with
  | None => (pending, 404)
  | Some r =>
      if negb (bool_decide (rStatus r = "pending")) then (pending, 409)
      else if negb (bool_decide (rTenantID r = Access.TenantID cl)) then (pending, 403)
      else (<[id := reviewed r status reason (Access.UserID cl) now]> pending, 200)
  end.

(** src/internal/api/handlers/deploy_pipeline.go:73-115 DeployApprovalHandler.Approve *)
Definition Approve (now : instant) (pending : gmap string ApprovalRequest) (cl : option Access.Claims)
    (id : string) : gmap string ApprovalRequest * Z :=
  match cl with
  | None => (pending, 401)
  | Some cl => if bool_decide (id = "") then (pending, 400)
               else match pending !! id with
                    | Some r => review now pending cl id "approved" (rReason r)
                    | None => (pending, 404)
                    end
  end.

(** The reason is optional: [None] is a body that does not decode.
    src/internal/api/handlers/deploy_pipeline.go:118-167 DeployApprovalHandler.Reject *)
Definition Reject (now : instant) (pending : gmap string ApprovalRequest) (cl : option Access.Claims)
    (id : string) (reason : option string) : gmap string ApprovalRequest * Z :=
  match cl with
  | None => (pending, 401)
  | Some cl => if bool_decide (id = "") then (pending, 400)
               else match reason with
                    | None => (pending, 400)
                    | Some reason => review now pending cl id "rejected" reason
                    end
  end.

(** ** Naming images *)

(** src/internal/api/handlers/deploy_pipeline.go:615-617 isRemoteApp *)
Definition isRemoteApp (app : Application) : bool :=
  negb (bool_decide (ServerID app = "")) && negb (bool_decide (ServerID app = "local")).

(** src/internal/api/handlers/deploy_pipeline.go:663-672 containsAny *)
Definition containsAny (s : list ascii) (chars : list ascii) : bool :=
  existsb (λ c, existsb (λ want, bool_decide (c = want)) chars) s.

(** src/internal/api/handlers/deploy_pipeline.go:618-626 imageRefHasRegistry *)
Definition imageRefHasRegistry (ref : string) : bool :=
  if decide ("/"%char ∈ bytes ref) then
    let first := before_first "/"%char (bytes ref) in
    bool_decide (str first = "localhost") || containsAny first (bytes ".:")
  else false.

(** Both ends, as [strings.Trim] with a set of bytes. *)
Definition Trim (s cutset : string) : string :=
  TrimRight (str (drop_set (bytes cutset) (bytes s))) cutset.

Definition name_byte (c : ascii) : bool :=
  let n := Ascii.nat_of_ascii c in
  ((97 <=? n) && (n <=? 122) || (48 <=? n) && (n <=? 57))%nat.
Definition sep_byte (c : ascii) : bool := bool_decide (c ∈ bytes "._- ").

(** One dash for every run of separators after the first letter; other bytes are dropped.
    src/internal/api/handlers/deploy_pipeline.go:643-656 imageNamePart.loop *)
Fixpoint name_bytes (wrote lastSep : bool) (l : list ascii) : list ascii :=
  match l with
  | [] => []
  | c :: l =>
      if name_byte c then c :: name_bytes true false l
      else if sep_byte c then
        if wrote && negb lastSep then "-"%char :: name_bytes true true l
        else name_bytes wrote lastSep l
      else name_bytes wrote lastSep l
  end.

Section Handlers.
Variable E : Env.

(** src/internal/api/handlers/deploy_pipeline.go:638-662 imageNamePart *)
Definition imageNamePart (name fallback : string) : M string :=
  let source := ToLower (TrimSpace name) in
  let source := if bool_decide (source = "") then ToLower (TrimSpace fallback) else source in
  let part := Trim (str (name_bytes false false (bytes source))) "-" in
  if bool_decide (part = "") then id ← GenerateID E; mret ("app-" +:+ Login.ShortID id 8) else mret part.

(** src/internal/api/handlers/deploy_pipeline.go:627-637 buildImageTagForRegistry *)
Definition buildImageTagForRegistry (prefix : string) (app : Application) (commitSHA : string) : M string :=
  let prefix := Trim (TrimSpace prefix) "/" in
  if bool_decide (prefix = "") then mret "" else
  let tag := Login.ShortID commitSHA 12 in
  tag ← (if bool_decide (tag = "") then id ← GenerateID E; mret (Login.ShortID id 12) else mret tag);
  part ← imageNamePart (aName app) (aID app);
  mret (prefix +:+ "/" +:+ part +:+ ":" +:+ tag).

(** ** The build-and-deploy path *)

(** src/internal/build/builder.go:22-36 BuildOpts *)
Record BuildOpts := {
  bAppID : string; bAppName : string; bSourceURL : string; bBranch : string; bCommitSHA : string;
  bDockerfile : string; bImageTag : string; bPush : bool; bUser : string; bPass : string }.

(** [nodes] are the connected remote servers; [buildGit] is the builder, which answers an
    image and a commit or fails, [frozen] the answer of [activeDeployFreeze] for a tenant.
    src/internal/api/handlers/deploy_pipeline.go:510-522 DeployTriggerHandler *)
Record DeployTriggerHandler := {
  nodes : option (gset string);
  frozen : string → bool;
  buildGit : BuildOpts → option (string * string);
  buildRepo : string; buildPush : bool; buildUser : string; buildPass : string }.

Variable h : DeployTriggerHandler.

(** src/internal/api/handlers/deploy_pipeline.go:566-593 DeployTriggerHandler.buildDeployLabels *)
Definition buildDeployLabels (app : Application) (version : Z) : M (gmap string string) :=
  r ← ListDomainsByApp E (aID app) (aTenantID app);
  let ds := match r with Ok ds => ds | Err _ => [] end in
  mret (domain_labels (aName app) (if Port app <=? 0 then 80 else Port app) 0 ds
    (list_to_map [
      ("monster.enable", "true"); ("monster.app.id", aID app); ("monster.app.name", aName app);
      ("monster.project", ProjectID app); ("monster.tenant", aTenantID app);
      ("monster.deploy.version", itoa version)])).

(** The node the application runs on, [""] for the local runtime.
    src/internal/api/handlers/deploy_pipeline.go:599-614 DeployTriggerHandler.deployRuntimeForApp *)
Definition deployRuntimeForApp (app : Application) : option string :=
  if isRemoteApp app then
    match nodes h with
    | Some ns => if decide (ServerID app ∈ ns) then Some (ServerID app) else None
    | None => None
    end
  else if has_runtime E then Some "" else None.

(** src/internal/api/handlers/deploy_pipeline.go:673-693 DeployTriggerHandler.cleanupPreviousAppContainers *)
Definition cleanupPreviousAppContainers (node appID keep : string) : M unit :=
  r ← ask node (ListByLabels "monster.app.id" appID) (on_list E);
  match r with
  | None => mret tt
  | Some cs => each (λ c,
      if bool_decide (cID c = "") || bool_decide (cID c = keep) then mret tt
      else stop_and_remove E node (cID c) 30) cs
  end.

Definition error_data (appID msg : string) : event_data :=
  MapData (list_to_map [("app_id", appID); ("error", msg)]).

(** src/internal/api/handlers/deploy_pipeline.go:873-877 DeployTriggerHandler.failApp *)
Definition failApp (appID tenant : string) : M unit := _ ← UpdateAppStatus E appID "failed" tenant; mret tt.

(** src/internal/api/handlers/deploy_pipeline.go:881-887 DeployTriggerHandler.failAppAndPublish *)
Definition failAppAndPublish (etype appID tenant msg : string) : M unit :=
  failApp appID tenant;;
  publish E {| eType := etype; eSource := "deploy_trigger"; eData := error_data appID msg |}.

(** src/internal/api/handlers/deploy_pipeline.go:891-896 DeployTriggerHandler.publishDeployFailed *)
Definition publishDeployFailed (source appID msg : string) : M unit :=
  publish E {| eType := EventDeployFailed; eSource := source; eData := error_data appID msg |}.

(** src/internal/api/handlers/deploy_pipeline.go:846-858 DeployTriggerHandler.failReservedDeployment *)
Definition failReservedDeployment (appID tenant : string) (dep : Deployment) : M unit :=
  _ ← UpdateAppStatus E appID "failed" tenant;
  if bool_decide (dID dep = "") then mret tt else
  now ← Now E;
  _ ← UpdateDeployment E (with_finished (with_status dep "failed") now);
  mret tt.

(** src/internal/api/handlers/deploy_pipeline.go:866-869 DeployTriggerHandler.failReserved *)
Definition failReserved (appID tenant : string) (dep : Deployment) (msg : string) : M unit :=
  failReservedDeployment appID tenant dep;;
  publishDeployFailed "deploy_trigger" appID msg.

Inductive deploy_error :=
| NoRuntime | BuildFailed | NeedsRegistry | NotConnected | ReserveFailed | NetworkFailed | StartFailed.

Definition new_deployment (app : Application) (image sha by_ : string) : Deployment :=
  {| dID := ""; dAppID := aID app; Version := 0; Image := image; ContainerID := ""; Status := "deploying";
     BuildLog := ""; CommitSHA := sha; CommitMessage := ""; TriggeredBy := by_; Strategy := "recreate";
     Deploy.StartedAt := None; FinishedAt := None; CreatedAt := zero_time |}.

Definition app_opts (app : Application) (d : Deployment) (labels : gmap string string) : ContainerOpts :=
  {| oName := "dm-" +:+ aID app +:+ "-" +:+ itoa (Version d); oImage := Image d; oEnv := [];
     oLabels := labels; oNetwork := "monster-network"; oRestart := "unless-stopped" |}.

Definition deployed_event (app : Application) (d : Deployment) : event :=
  {| eType := EventAppDeployed; eSource := "deploy_trigger"; eData := DeployData
     {| eAppID := aID app; eDeploymentID := dID d; eVersion := Version d; eImage := Image d;
        eContainerID := ContainerID d; eStrategy := "recreate"; eCommitSHA := CommitSHA d |} |}.

Definition build_opts (app : Application) (sha : string) : M BuildOpts :=
  let o tag push user pass :=
    {| bAppID := aID app; bAppName := aName app; bSourceURL := SourceURL app; bBranch := Branch app;
       bCommitSHA := sha; bDockerfile := Dockerfile app; bImageTag := tag; bPush := push;
       bUser := user; bPass := pass |} in
  if isRemoteApp app && negb (bool_decide (buildRepo h = "")) then
    tag ← buildImageTagForRegistry (buildRepo h) app sha;
    mret (o tag (buildPush h) (buildUser h) (buildPass h))
  else mret (o "" false "" "").

(** From the reserved row to the running container.
    src/internal/api/handlers/deploy_pipeline.go:802-840 DeployTriggerHandler.deployGitApp.run *)
Definition run_reserved (app : Application) (node : string) (dep : Deployment) : M (option deploy_error) :=
  labels ← buildDeployLabels app (Version dep);
  ok ← ask node (EnsureNetwork "monster-network") (on_other E);
  if negb ok then
    failReserved (aID app) (aTenantID app) dep "network";; mret (Some NetworkFailed)
  else
  r ← ask node (CreateAndStart (app_opts app dep labels)) (on_create E);
  match r with
  | None => failReserved (aID app) (aTenantID app) dep "start";; mret (Some StartFailed)
  | Some id =>
      cleanupPreviousAppContainers node (aID app) id;;
      let dep := with_status (with_container dep id) "running" in
      _ ← UpdateDeployment E dep;
      _ ← UpdateAppStatus E (aID app) "running" (aTenantID app);
      publish E (deployed_event app dep);;
      mret None
  end.

(** src/internal/api/handlers/deploy_pipeline.go:741-840 DeployTriggerHandler.deployGitApp *)
Definition deployGitApp (app : Application) (triggeredBy commitSHA : string) : M (option deploy_error) :=
  let fails e etype msg := failAppAndPublish etype (aID app) (aTenantID app) msg;; mret (Some e) in
  if negb (has_runtime E) then fails NoRuntime EventDeployFailed "container runtime not available" else
  _ ← UpdateAppStatus E (aID app) "building" (aTenantID app);
  opts ← build_opts app commitSHA;
  match buildGit h opts with
  | None => fails BuildFailed EventBuildFailed "build"
  | Some (image, sha) =>
  if isRemoteApp app && negb (imageRefHasRegistry image) then
    fails NeedsRegistry EventDeployFailed "remote git deploy requires a registry-qualified image tag" else
  _ ← UpdateAppStatus E (aID app) "deploying" (aTenantID app);
  match deployRuntimeForApp app with
  | None => fails NotConnected EventDeployFailed "not connected"
  | Some node =>
  r ← CreateDeploymentAtomicVersion E (new_deployment app image sha triggeredBy);
  match r with
  | Err _ => fails ReserveFailed EventDeployFailed "reserve"
  | Ok dep => run_reserved app node dep
  end end end.

(** src/internal/api/handlers/helpers.go:141-169 requireTenantApp *)
Definition requireTenantApp (cl : option Access.Claims) (id : string) : M (result reply Application) :=
  match cl with
  | None => mret (Err (fail 401 "unauthorized"))
  | Some cl =>
      if bool_decide (id = "") then mret (Err (fail 400 "application id is required")) else
      r ← GetApp E id;
      mret (match r with
            | Err ErrNotFound => Err (fail 404 "application not found")
            | Err _ => Err (fail 500 "internal error")
            | Ok app => if decide (aTenantID app = Access.TenantID cl) then Ok app
                        else Err (fail 404 "application not found")
            end)
  end.

(** The image path of a manual deployment.
    src/internal/api/handlers/deploy_pipeline.go:910-984 DeployTriggerHandler.TriggerDeploy.image *)
Definition deployImageApp (app : Application) : M reply :=
  let broken := failApp (aID app) (aTenantID app);; mret (fail 500 "deploy failed") in
  let finish dep :=
    _ ← UpdateAppStatus E (aID app) "running" (aTenantID app);
    publish E (deployed_event app dep);;
    mret {| code := 200; answer := Deployed dep |} in
  _ ← UpdateAppStatus E (aID app) "deploying" (aTenantID app);
  r ← CreateDeploymentAtomicVersion E (new_deployment app (SourceURL app) "" "manual");
  match r with
  | Err _ => mret (fail 500 "internal error")
  | Ok dep =>
  match deployRuntimeForApp app with
  | None => if bool_decide (ServerID app = "") then finish dep else broken
  | Some node =>
  labels ← buildDeployLabels app (Version dep);
  ok ← ask node (EnsureNetwork "monster-network") (on_other E);
  if negb ok then broken else
  r ← ask node (CreateAndStart (app_opts app dep labels)) (on_create E);
  match r with
  | None => broken
  | Some id =>
      let dep := with_container dep id in
      _ ← UpdateDeployment E dep;
      cleanupPreviousAppContainers node (aID app) id;;
      finish dep
  end end end.

(** The response, and the application whose build is started in the background.
    src/internal/api/handlers/deploy_pipeline.go:900-999 DeployTriggerHandler.TriggerDeploy *)
Definition TriggerDeploy (cl : option Access.Claims) (id : string) : M (reply * option Application) :=
  r ← requireTenantApp cl id;
  match r with
  | Err e => mret (e, None)
  | Ok app =>
      if frozen h (aTenantID app) then mret (fail 423 "deployments are currently frozen", None) else
      if decide (SourceType app = "image") then r ← deployImageApp app; mret (r, None)
      else mret ({| code := 202; answer := Message "building" |}, Some app)
  end.

(** src/internal/core/events.go:503-509 WebhookEventData *)
Record WebhookEventData := { WebhookID : string; wBranch : string; wCommitSHA : string }.

(** src/internal/api/handlers/deploy_pipeline.go:705-740 DeployTriggerHandler.SubscribeWebhookDeploys *)
Definition on_webhook (d : WebhookEventData) : M unit :=
  if bool_decide (WebhookID d = "") then mret tt else
  r ← GetApp E (WebhookID d);
  match r with
  | Err _ => mret tt
  | Ok app =>
      if negb (bool_decide (SourceType app = "git")) then mret tt else
      if negb (bool_decide (Branch app = "")) && negb (bool_decide (wBranch d = "")) &&
         negb (bool_decide (Branch app = wBranch d)) then mret tt else
      if frozen h (aTenantID app) then
        publish E {| eType := EventDeployFailed; eSource := "webhook_deploy";
                     eData := error_data (aID app) "deployments are currently frozen" |}
      else _ ← deployGitApp app "webhook" (wCommitSHA d); mret tt
  end.

(** ** Reading the history *)

(** Every match overwrites the last one.
    src/internal/api/handlers/deploy_pipeline.go:197-205 DeployDiffHandler.Diff.loop *)
Definition last_version (v : Z) (ds : list Deployment) : option Deployment :=
  last (filter (λ d, Version d = v) ds).

(** [from] and [to] are the numbers of the query, [0] when they do not parse.
    src/internal/api/handlers/deploy_pipeline.go:180-234 DeployDiffHandler.Diff *)
Definition Diff (cl : option Access.Claims) (id : string) (from to : Z) : M reply :=
  r ← requireTenantApp cl id;
  match r with
  | Err e => mret e
  | Ok app =>
      if (from <=? 0) || (to <=? 0) then mret (fail 400 "from and to version numbers required") else
      r ← ListDeploymentsByApp E (aID app) 50;
      mret (match r with
            | Err _ => fail 500 "internal error"
            | Ok ds => match last_version from ds, last_version to ds with
                       | Some f, Some t => {| code := 200; answer := Difference f t |}
                       | _, _ => fail 404 "one or both versions not found"
                       end
            end)
  end.

(** src/internal/api/handlers/deploy_pipeline.go:1032-1047 DeploymentHandler.GetLatest *)
Definition GetLatest (cl : option Access.Claims) (id : string) : M reply :=
  r ← requireTenantApp cl id;
  match r with
  | Err e => mret e
  | Ok app =>
      r ← GetLatestDeployment E (aID app);
      mret (match r with
            | Ok d => {| code := 200; answer := Deployed d |}
            | Err ErrNotFound => fail 404 "no deployments found"
            | Err _ => fail 500 "internal error"
            end)
  end.

(** [perPage] as the query gives it.
    src/internal/api/handlers/deploy_pipeline.go:1013-1029 DeploymentHandler.ListByApp *)
Definition ListByApp (cl : option Access.Claims) (id : string) (perPage : Z) : M reply :=
  r ← requireTenantApp cl id;
  match r with
  | Err e => mret e
  | Ok app =>
      r ← ListDeploymentsByApp E (aID app) (if (perPage <? 1) || (100 <? perPage) then 20 else perPage);
      mret (match r with
            | Ok ds => {| code := 200; answer := History ds |}
            | Err _ => fail 500 "internal error"
            end)
  end.

(** src/internal/api/handlers/deploy_pipeline.go:1068-1090 RollbackHandler.Rollback *)
Definition Rollback_handler (cl : option Access.Claims) (id : string) (version : option Z) : M reply :=
  r ← requireTenantApp cl id;
  match r with
  | Err e => mret e
  | Ok app =>
  match version with
  | None => mret (fail 400 "invalid request body")
  | Some v =>
      if v <=? 0 then mret (fail 400 "version must be positive") else
      r ← Rollback E (aID app) v;
      mret (match r with
            | Ok d => {| code := 200; answer := Deployed d |}
            | Err _ => fail 500 "rollback failed"
            end)
  end end.

(** src/internal/api/handlers/deploy_pipeline.go:1093-1104 RollbackHandler.ListVersions *)
Definition ListVersions_handler (cl : option Access.Claims) (id : string) : M reply :=
  r ← requireTenantApp cl id;
  match r with
  | Err e => mret e
  | Ok app =>
      r ← ListVersions E (aID app) 20;
      mret (match r with
            | Ok vs => {| code := 200; answer := Versions vs |}
            | Err _ => fail 500 "failed to list versions"
            end)
  end.

(** Whether a commit is the one asked for: the whole, or a prefix of seven bytes or more.
    src/internal/api/handlers/deploy_pipeline.go:1149-1160 CommitRollbackHandler.RollbackToCommit.match *)
Definition commit_matches (req sha : string) : bool :=
  bool_decide (sha = req) ||
  ((7 <=? slen req) && (slen req <=? slen sha) && bool_decide (take (slen req) (bytes sha) = bytes req))%nat.

(** src/internal/api/handlers/deploy_pipeline.go:1128-1179 CommitRollbackHandler.RollbackToCommit *)
Definition RollbackToCommit (cl : option Access.Claims) (id : string) (commit : option string) : M reply :=
  r ← requireTenantApp cl id;
  match r with
  | Err e => mret e
  | Ok app =>
  match commit with
  | None => mret (fail 400 "invalid request body")
  | Some sha =>
      if bool_decide (sha = "") then mret (fail 400 "commit_sha required") else
      r ← ListDeploymentsByApp E (aID app) 50;
      match r with
      | Err _ => mret (fail 500 "internal error")
      | Ok ds =>
          match head (filter (λ d, commit_matches sha (CommitSHA d) = true) ds) with
          | None => mret (fail 404 ("no deployment found for commit " +:+ sha))
          | Some t =>
              r ← Rollback E (aID app) (Version t);
              mret (match r with
                    | Ok d => {| code := 200; answer := Deployed d |}
                    | Err _ => fail 500 "rollback failed"
                    end)
          end
      end
  end end.

End Handlers.

(** ** The deployment table under every operation *)

Section PipelineTable.
Variable E : Env.
Variable h : DeployTriggerHandler.

#[export] Instance GetApp_table id : keeps table_ok (GetApp E id) := query_table E _.
#[export] Instance Domains_table a t : keeps table_ok (ListDomainsByApp E a t) := query_table E _.
#[export] Instance ListByApp_table a n : keeps table_ok (ListDeploymentsByApp E a n) := query_table E _.
#[export] Instance Latest_table a : keeps table_ok (GetLatestDeployment E a) := query_table E _.
#[export] Instance stop_and_remove_table n c t : keeps table_ok (stop_and_remove E n c t).
Proof. unfold stop_and_remove. apply _. Qed.
#[export] Instance build_opts_table app sha : keeps table_ok (build_opts E h app sha).
Proof. unfold build_opts, buildImageTagForRegistry, imageNamePart. cbv zeta. apply _. Qed.
#[export] Instance cleanup_table n a k : keeps table_ok (cleanupPreviousAppContainers E n a k).
Proof. unfold cleanupPreviousAppContainers. apply _. Qed.
#[export] Instance deployGitApp_table app by_ sha : keeps table_ok (deployGitApp E h app by_ sha).
Proof.
  unfold deployGitApp, run_reserved, buildDeployLabels, failAppAndPublish, failApp, failReserved,
    failReservedDeployment, publishDeployFailed. cbv zeta.
  apply keeps_if; [apply _|]. apply keeps_bind; [apply _|intros _]. apply keeps_bind; [apply _|intros o].
  destruct (buildGit h o) as [[image sha']|]; apply _.
Qed.
#[export] Instance requireTenantApp_table cl id : keeps table_ok (requireTenantApp E cl id).
Proof. unfold requireTenantApp. apply _. Qed.
#[export] Instance deployImageApp_table app : keeps table_ok (deployImageApp E h app).
Proof. unfold deployImageApp, buildDeployLabels, failApp. cbv zeta. apply _. Qed.
#[export] Instance TriggerDeploy_table cl id : keeps table_ok (TriggerDeploy E h cl id).
Proof. unfold TriggerDeploy. apply _. Qed.
#[export] Instance on_webhook_table d : keeps table_ok (on_webhook E h d).
Proof. unfold on_webhook. apply _. Qed.
#[export] Instance RollbackToCommit_table cl id c : keeps table_ok (RollbackToCommit E cl id c).
Proof. unfold RollbackToCommit. apply _. Qed.
#[export] Instance Rollback_handler_table cl id v : keeps table_ok (Rollback_handler E cl id v).
Proof. unfold Rollback_handler. apply _. Qed.

End PipelineTable.

(** ** Everything that changes deployments, in any order *)

Inductive op :=
| Trigger (cl : option Access.Claims) (id : string)
| GitDeploy (app : Application) (by_ sha : string)
| Webhook (d : WebhookEventData)
| ManualRollback (cl : option Access.Claims) (id : string) (v : option Z)
| CommitRollback (cl : option Access.Claims) (id : string) (sha : option string)
| Crash (app container : string)
| CheckCrashed
| Failure (m : AutoRollback) (e : event)
| Restarted.

Definition run_op (E : Env) (h : DeployTriggerHandler) (o : op) : M unit :=
  match o with
  | Trigger cl id => _ ← TriggerDeploy E h cl id; mret tt
  | GitDeploy app by_ sha => _ ← deployGitApp E h app by_ sha; mret tt
  | Webhook d => on_webhook E h d
  | ManualRollback cl id v => _ ← Rollback_handler E cl id v; mret tt
  | CommitRollback cl id sha => _ ← RollbackToCommit E cl id sha; mret tt
  | Crash app c => handleCrash E app c
  | CheckCrashed => checkCrashed E
  | Failure m e => _ ← on_deploy_failed E m e; mret tt
  | Restarted => Start E
  end.

(** One operation, with a database, a runtime and a builder that answer as they like. *)
Definition platform_step (w w' : World) : Prop := ∃ E h o, w' = (run_op E h o w).2.

Definition no_deployments (w : World) : Prop := deployments w = [].

Lemma platform_keeps (I : World → Prop) :
  (∀ E h o, keeps I (run_op E h o)) → ∀ w w', rtc platform_step w w' → I w → I w'.
Proof. intros HI w w'. induction 1 as [|w1 w2 w3 (E & h & o & ->) _ IH]; [done|]. intros H. by apply IH, HI. Qed.

Lemma run_op_table E h o : keeps table_ok (run_op E h o).
Proof. destruct o; simpl; apply _. Qed.

(** C6. Deployments are numbered without gaps: whatever deployments, webhooks, rollbacks, crash
    restarts, automatic rollbacks and restarts of the platform happen, and whatever the
    database and the runtime refuse, identifiers stay unique and the rows of every
    application carry the versions 1, 2, 3, ... in the order of their creation. *)
Theorem deployments_numbered w0 w :
  no_deployments w0 → rtc platform_step w0 w →
  NoDup (dID <$> deployments w) ∧
  ∀ app, Version <$> of_app app (deployments w) = seqZ 1 (zlen (of_app app (deployments w))).
Proof.
  intros H0 Hr. cut (table_ok w); [by intros [? ?]|].
  apply (platform_keeps table_ok run_op_table w0); [done|].
  split; unfold no_deployments in H0; rewrite H0; [constructor|done].
Qed.

Definition no_rows : World := with_deployments demo_world [].
Definition demo_handler : DeployTriggerHandler :=
  {| nodes := None; frozen := λ _, false; buildGit := λ _, Some ("shop:git", "abc"); buildRepo := "";
     buildPush := false; buildUser := ""; buildPass := "" |}.
Definition demo_claims : Access.Claims :=
  {| Access.UserID := "u"; Access.TenantID := "t"; Access.RoleID := "role_admin"; Access.ID := "j";
     Access.ExpiresAt := None |}.

(** A deployment, a rollback to it and another deployment. *)
Definition demo_ops : list op :=
  [Trigger (Some demo_claims) "shop"; ManualRollback (Some demo_claims) "shop" (Some 1);
   GitDeploy demo_app "manual" ""].
Definition after_ops (w : World) (os : list op) : World :=
  foldl (λ w o, (run_op demo_env demo_handler o w).2) w os.

Lemma after_ops_steps os w : rtc platform_step w (after_ops w os).
Proof.
  revert w. induction os as [|o os IH]; intros w; [apply rtc_refl|].
  eapply rtc_l; [by exists demo_env, demo_handler, o|apply IH].
Qed.

Lemma deployments_numbered_witness :
  NoDup (dID <$> deployments (after_ops no_rows demo_ops)) ∧
  (Version <$> of_app "shop" (deployments (after_ops no_rows demo_ops))) = [1; 2; 3].
Proof.
  split; [|by vm_compute].
  apply (deployments_numbered no_rows); [done|apply after_ops_steps].
Defined.

(** ** Failure events and automatic rollback *)

(** A property of the events alone. *)
Definition on_events (P : event → Prop) (w : World) : Prop := Forall P (events w).

Section Events.
Variable P : event → Prop.
Variable E : Env.
Variable h : DeployTriggerHandler.

#[export] Instance stmt_events {A} (f : World → result db_error A * World) :
  (∀ w, events (f w).2 = events w) → keeps (on_events P) (stmt E f).
Proof.
  intros Hf w Hw. unfold stmt, on_events in *. destruct (works E (steps w)); [|done].
  specialize (Hf w). destruct (f w) as [r w']. simpl in *. by rewrite Hf.
Qed.
#[export] Instance query_events {A} (f : World → result db_error A) : keeps (on_events P) (query E f).
Proof. by apply stmt_events. Qed.
#[export] Instance Now_events : keeps (on_events P) (Now E).
Proof. by intros w. Qed.
#[export] Instance GenerateID_events : keeps (on_events P) (GenerateID E).
Proof. by intros w. Qed.
#[export] Instance ask_events {A} node c (f : history → A) : keeps (on_events P) (ask node c f).
Proof. by intros w. Qed.
#[export] Instance UpdateDeployment_events d : keeps (on_events P) (UpdateDeployment E d).
Proof. by apply stmt_events. Qed.
#[export] Instance UpdateAppStatus_events a s t : keeps (on_events P) (UpdateAppStatus E a s t).
Proof. by apply stmt_events. Qed.
#[export] Instance Create_events d : keeps (on_events P) (CreateDeploymentAtomicVersion E d).
Proof.
  apply keeps_bind; [unfold with_id; apply _|]. intros d'. apply stmt_events. intros w. cbv zeta.
  unfold insert_row. by case_decide.
Qed.
#[export] Instance GetApp_events id : keeps (on_events P) (GetApp E id) := query_events _.
#[export] Instance Domains_events a t : keeps (on_events P) (ListDomainsByApp E a t) := query_events _.
#[export] Instance ListByApp_events a n : keeps (on_events P) (ListDeploymentsByApp E a n) := query_events _.
#[export] Instance Latest_events a : keeps (on_events P) (GetLatestDeployment E a) := query_events _.
#[export] Instance ByStatus_events s : keeps (on_events P) (ListDeploymentsByStatus E s) := query_events _.
#[export] Instance await_events n id : keeps (on_events P) (await_running E n id).
Proof. induction n; simpl; unfold sleep; [apply _|]. apply keeps_bind; [apply _|]. intros [[[]|]|]; apply _. Qed.
Lemma publish_events e : P e → keeps (on_events P) (publish E e).
Proof.
  intros He w Hw. unfold publish, on_events in *. simpl. destruct (has_bus E); [|done]. simpl.
  apply Forall_app. auto.
Qed.

End Events.

(** What every event published by the platform satisfies: a failed deployment is reported
    with a map of strings. *)
Definition failure_is_map (e : event) : Prop :=
  eType e = EventDeployFailed → ∃ m, eData e = MapData m.

#[global] Hint Extern 1 (keeps (on_events failure_is_map) (publish _ _)) =>
  (apply publish_events; unfold failure_is_map, error_data; cbn; (done || by eexists)) : typeclass_instances.

Section FailureEvents.
Variable E : Env.
Variable h : DeployTriggerHandler.

#[local] Instance Rollback_events app v : keeps (on_events failure_is_map) (Rollback E app v).
Proof. unfold Rollback, start_rollback, healthy, finish_rollback, give_up_rollback, stop_and_remove. apply _. Qed.
#[local] Instance requireTenantApp_events cl id : keeps (on_events failure_is_map) (requireTenantApp E cl id).
Proof. unfold requireTenantApp. apply _. Qed.
#[local] Instance cleanup_events n a k : keeps (on_events failure_is_map) (cleanupPreviousAppContainers E n a k).
Proof. unfold cleanupPreviousAppContainers, stop_and_remove. apply _. Qed.
#[local] Instance deployGitApp_events app by_ sha :
  keeps (on_events failure_is_map) (deployGitApp E h app by_ sha).
Proof.
  unfold deployGitApp, build_opts, buildImageTagForRegistry, imageNamePart, run_reserved, buildDeployLabels,
    failAppAndPublish, failApp, failReserved, failReservedDeployment, publishDeployFailed. cbv zeta.
  apply keeps_if; [apply _|]. apply keeps_bind; [apply _|intros _]. apply keeps_bind; [apply _|intros o].
  destruct (buildGit h o) as [[image sha']|]; apply _.
Qed.
#[local] Instance mark_app_events app s : keeps (on_events failure_is_map) (mark_app E app s).
Proof. unfold mark_app, tenant_of. apply _. Qed.
#[local] Instance handleCrash_events app c : keeps (on_events failure_is_map) (handleCrash E app c).
Proof.
  assert (∀ n k, keeps (on_events failure_is_map) (restart_loop E n k app c)).
  { induction n; intros k; simpl; unfold sleep; apply _. }
  unfold handleCrash. apply _.
Qed.
#[local] Instance on_deploy_failed_events m e : keeps (on_events failure_is_map) (on_deploy_failed E m e).
Proof.
  unfold on_deploy_failed, handleFailure, findLastStable. apply keeps_if; [apply _|].
  apply keeps_data; intros; [|apply _].
  apply keeps_bind; [apply _|intros t1]. apply keeps_bind; [apply _|intros t2].
  destruct (gate m _ t1 t2); apply _.
Qed.

Lemma run_op_events o : keeps (on_events failure_is_map) (run_op E h o).
Proof.
  destruct o; simpl; unfold TriggerDeploy, deployImageApp, buildDeployLabels, failApp, on_webhook,
    Rollback_handler, RollbackToCommit, checkCrashed, Start, reclaimStaleDeployments, reclaim_one,
    cleanOrphanContainers; cbv zeta; apply _.
Qed.

End FailureEvents.

(** Automatic rollback never fires: the handler that listens for failed deployments asks
    for a payload that no part of the platform publishes, so in every history, whatever
    the manager's state, delivering any of the failure events published so far changes
    nothing and starts no rollback. *)
Theorem auto_rollback_never_fires w0 w E m e :
  events w0 = [] → rtc platform_step w0 w → e ∈ events w → eType e = EventDeployFailed →
  on_deploy_failed E m e w = (m, w).
Proof.
  intros H0 Hr He Ht.
  assert (on_events failure_is_map w) as HF.
  { apply (platform_keeps _ run_op_events w0); [done|]. unfold on_events. by rewrite H0. }
  unfold on_events in HF. rewrite Forall_forall in HF. destruct (HF e He Ht) as [x Hx].
  unfold on_deploy_failed. rewrite Hx. by destruct (closed m).
Qed.

(** A deployment from git that the runtime cannot start. *)
Definition broken_env : Env :=
  {| works := λ _, true; clock := λ n, Z.of_nat n * Second; fresh := λ n, "id" +:+ itoa (Z.of_nat n);
     has_runtime := true; has_bus := true; on_create := λ _, None;
     on_stats := λ _, None; on_list := λ _, Some []; on_other := λ _, true |}.
Definition failed_world : World := (run_op broken_env demo_handler (GitDeploy demo_app "manual" "") demo_world).2.

Lemma auto_rollback_never_fires_witness :
  ∃ e, e ∈ events failed_world ∧ eType e = EventDeployFailed ∧
    on_deploy_failed demo_env NewAutoRollbackManager e failed_world = (NewAutoRollbackManager, failed_world).
Proof.
  set (e := {| eType := EventDeployFailed; eSource := "deploy_trigger"; eData := error_data "shop" "start" |}).
  assert (e ∈ events failed_world) as He by (vm_compute; repeat constructor).
  exists e. split; [done|]. split; [done|].
  apply (auto_rollback_never_fires demo_world failed_world); [done| |done|done].
  apply rtc_once. by exists broken_env, demo_handler, (GitDeploy demo_app "manual" "").
Defined.

(** ** A deployment that fails *)

(** The history grew from [h0] by calls that stop and remove nothing. *)
Definition leaves_alone (h0 h : history) : Prop :=
  ∃ l, h = h0 ++ l ∧ Forall (λ c, touches c.2 = None) l.

(** [keeps_err I m]: if [m] answers with an error, it preserved [I]. *)
Definition keeps_err (I : World → Prop) (m : M (option deploy_error)) : Prop :=
  ∀ w, I w → (m w).1 ≠ None → I (m w).2.

Lemma keeps_err_of I m : keeps I m → keeps_err I m.
Proof. intros Hm w Hw _. by apply Hm. Qed.
Lemma keeps_err_bind I {A} (m : M A) k :
  keeps I m → (∀ a, keeps_err I (k a)) → keeps_err I (m ≫= k).
Proof. intros Hm Hk w Hw. rewrite bind_run. apply Hk. by apply keeps_run. Qed.

Lemma ask_leaves h0 {A} node c (f : history → A) :
  touches c = None → keeps (on_calls (leaves_alone h0)) (ask node c f).
Proof.
  intros Hc w (l & Hl & HF). exists (l ++ [(node, c)]). cbn. rewrite Hl, app_assoc. split; [done|].
  apply Forall_app. auto.
Qed.

#[global] Hint Extern 1 (keeps (on_calls (leaves_alone _)) (ask _ _ _)) =>
  (apply ask_leaves; reflexivity) : typeclass_instances.

Lemma run_reserved_err E h0 app node d : keeps_err (on_calls (leaves_alone h0)) (run_reserved E app node d).
Proof.
  unfold run_reserved, buildDeployLabels, failReserved, failReservedDeployment, publishDeployFailed.
  apply keeps_err_bind; [apply _|intros labels]. apply keeps_err_bind; [apply _|intros ok].
  destruct ok; cbn [negb]; [|apply keeps_err_of; apply _].
  apply keeps_err_bind; [apply _|intros [id|]]; [|apply keeps_err_of; apply _].
  intros w _. by rewrite !bind_run.
Qed.

Lemma leaves_alone_refl h0 : leaves_alone h0 h0.
Proof. exists []. by rewrite app_nil_r. Qed.

(** C5. A failed deployment is contained: whatever the builder, the database and the runtime
    answer, when building and deploying an application from git ends in an error, no
    container has been stopped or removed, so what was serving still serves. *)
Theorem failed_deploy_is_contained E h app by_ sha w :
  (deployGitApp E h app by_ sha w).1 ≠ None →
  ∃ l, calls (deployGitApp E h app by_ sha w).2 = calls w ++ l ∧ Forall (λ c, touches c.2 = None) l.
Proof.
  revert w. cut (∀ h0, keeps_err (on_calls (leaves_alone h0)) (deployGitApp E h app by_ sha)).
  { intros H w. apply (H (calls w) w), leaves_alone_refl. }
  intros h0. unfold deployGitApp, build_opts, buildImageTagForRegistry, imageNamePart, failAppAndPublish,
    failApp. cbv zeta.
  destruct (has_runtime E); cbn [negb]; [|apply keeps_err_of; apply _].
  apply keeps_err_bind; [apply _|intros _]. apply keeps_err_bind; [apply _|intros o].
  destruct (buildGit h o) as [[image sha']|]; [|apply keeps_err_of; apply _].
  destruct (isRemoteApp app && _); [apply keeps_err_of; apply _|].
  apply keeps_err_bind; [apply _|intros _].
  destruct (deployRuntimeForApp E h app) as [node|]; [|apply keeps_err_of; apply _].
  apply keeps_err_bind; [apply _|intros [d|]]; [apply run_reserved_err|apply keeps_err_of; apply _].
Qed.

Lemma failed_deploy_is_contained_witness :
  ∃ l, calls (deployGitApp broken_env demo_handler demo_app "manual" "" demo_world).2 = [] ++ l ∧
    Forall (λ c, touches c.2 = None) l.
Proof.
  apply (failed_deploy_is_contained broken_env demo_handler demo_app "manual" "" demo_world).
  by vm_compute.
Defined.

(** ** Deploying an image *)

(** The table has an unfinished row of [app]. *)
Definition pending_row (id app : string) (w : World) : Prop :=
  ∃ r, r ∈ deployments w ∧ dID r = id ∧ dAppID r = app ∧ Status r = "deploying".

Section ImageDeploy.
Variable E : Env.
Variable h : DeployTriggerHandler.
Context (id app : string).

Lemma pending_frame w w' : deployments w' = deployments w → pending_row id app w → pending_row id app w'.
Proof. intros Hd. unfold pending_row. by rewrite Hd. Qed.

#[export] Instance stmt_pending {A} (f : World → result db_error A * World) :
  (∀ w, pending_row id app w → pending_row id app (f w).2) → keeps (pending_row id app) (stmt E f).
Proof.
  intros Hf w Hw. unfold stmt. destruct (works E (steps w)); [|by apply (pending_frame w)].
  specialize (Hf w Hw). destruct (f w) as [r w']. by apply (pending_frame w').
Qed.
#[export] Instance query_pending {A} (f : World → result db_error A) : keeps (pending_row id app) (query E f).
Proof. by apply stmt_pending. Qed.
#[export] Instance ask_pending {A} node c (f : history → A) : keeps (pending_row id app) (ask node c f).
Proof. intros w. by apply pending_frame. Qed.
#[export] Instance publish_pending e : keeps (pending_row id app) (publish E e).
Proof. intros w. unfold publish. simpl. destruct (has_bus E); by apply pending_frame. Qed.
#[export] Instance UpdateAppStatus_pending a s t : keeps (pending_row id app) (UpdateAppStatus E a s t).
Proof. apply stmt_pending. intros w. by apply pending_frame. Qed.
#[export] Instance Domains_pending a t : keeps (pending_row id app) (ListDomainsByApp E a t).
Proof. apply query_pending. Qed.

Lemma UpdateDeployment_pending d :
  Status d = "deploying" → keeps (pending_row id app) (UpdateDeployment E d).
Proof.
  intros Hd. apply stmt_pending. intros w (r & Hr & Hi & Ha & Hs). exists (update_row d r).
  split; [by apply list_elem_of_fmap_2|]. destruct (update_row_columns d r) as (-> & -> & _).
  repeat split; [done|done|]. unfold update_row. by case_decide.
Qed.

End ImageDeploy.

Lemma Create_pending E d w d' w' :
  CreateDeploymentAtomicVersion E d w = (Ok d', w') → Status d = "deploying" →
  pending_row (dID d') (dAppID d) w' ∧ Status d' = "deploying" ∧ apps w' = apps w.
Proof.
  unfold CreateDeploymentAtomicVersion. rewrite bind_run.
  assert (Status (with_id E d w).1 = Status d ∧ dAppID (with_id E d w).1 = dAppID d ∧
          apps (with_id E d w).2 = apps w) as (Hs & Ha & Hw).
  { unfold with_id. by case_decide. }
  destruct (with_id E d w) as [d1 w1]. cbn [fst snd] in *. unfold stmt.
  destruct (works E (steps w1)); [|done]. unfold insert_row. case_decide; [done|].
  intros [= <- <-] Hd. split; [|split; simpl; congruence].
  eexists. split; [apply elem_of_app; right; by left|]. cbn. repeat split; congruence.
Qed.

Definition keyed (m : gmap string Application) : Prop := ∀ i a, m !! i = Some a → aID a = i.

(** A successful image deployment leaves its own row unfinished. *)
Lemma deployImageApp_pending E h app w :
  code (deployImageApp E h app w).1 = 200 →
  ∃ rid, pending_row rid (aID app) (deployImageApp E h app w).2.
Proof.
  unfold deployImageApp. cbv zeta. rewrite bind_run. set (w1 := (UpdateAppStatus _ _ _ _ w).2). clearbody w1.
  rewrite bind_run. destruct (CreateDeploymentAtomicVersion E _ w1) as [[d|e] w2] eqn:Hc; cbn [fst snd]; [|done].
  apply Create_pending in Hc as (Hp & Hs & _); [|done]. cbn [dAppID new_deployment] in Hp.
  intros _. exists (dID d).
  match goal with |- pending_row ?i ?a (?m w2).2 => cut (keeps (pending_row i a) m); [intros HK; by apply HK|] end.
  pose proof (UpdateDeployment_pending E (dID d) (aID app)) as HU.
  unfold buildDeployLabels, failApp, cleanupPreviousAppContainers, stop_and_remove.
  destruct (deployRuntimeForApp E h app) as [node|]; [|apply _].
  repeat first [apply keeps_bind; [apply _|intros ?] | apply keeps_if | apply keeps_option; intros ? | apply _
    | progress cbv zeta].
  apply keeps_bind; [by apply HU|intros ?]. apply _.
Qed.

(** Applications are never removed here. *)
Definition present (id : string) (w : World) : Prop := is_Some (apps w !! id).

Section Present.
Variable E : Env.
Variable h : DeployTriggerHandler.
Context (id : string).

#[export] Instance stmt_present {A} (f : World → result db_error A * World) :
  (∀ w, present id w → present id (f w).2) → keeps (present id) (stmt E f).
Proof.
  intros Hf w Hw. unfold stmt. destruct (works E (steps w)); [|done].
  specialize (Hf w Hw). by destruct (f w).
Qed.
#[export] Instance query_present {A} (f : World → result db_error A) : keeps (present id) (query E f).
Proof. by apply stmt_present. Qed.
#[export] Instance ask_present {A} node c (f : history → A) : keeps (present id) (ask node c f).
Proof. by intros w. Qed.
#[export] Instance publish_present e : keeps (present id) (publish E e).
Proof. intros w. unfold publish. simpl. by destruct (has_bus E). Qed.
#[export] Instance GenerateID_present : keeps (present id) (GenerateID E).
Proof. by intros w. Qed.
#[export] Instance UpdateAppStatus_present a s t : keeps (present id) (UpdateAppStatus E a s t).
Proof. apply stmt_present. intros w. unfold present. simpl. by rewrite lookup_alter_is_Some. Qed.
#[export] Instance UpdateDeployment_present d : keeps (present id) (UpdateDeployment E d).
Proof. by apply stmt_present. Qed.
#[export] Instance Create_present d : keeps (present id) (CreateDeploymentAtomicVersion E d).
Proof.
  apply keeps_bind; [unfold with_id; apply _|]. intros d'. apply stmt_present. intros w. cbv zeta.
  unfold insert_row. by case_decide.
Qed.
#[export] Instance deployImageApp_present app : keeps (present id) (deployImageApp E h app).
Proof.
  unfold deployImageApp, buildDeployLabels, failApp, cleanupPreviousAppContainers, stop_and_remove,
    ListDomainsByApp. cbv zeta. apply _.
Qed.

End Present.

Lemma requireTenantApp_ok E cl id w app :
  (requireTenantApp E cl id w).1 = Ok app →
  ∃ a c, apps w !! id = Some a ∧ aID app = aID a ∧ cl = Some c ∧ aTenantID app = Access.TenantID c ∧
    aTenantID a = aTenantID app.
Proof.
  unfold requireTenantApp. destruct cl as [c|]; [|done]. case_bool_decide; [done|].
  rewrite bind_run. unfold GetApp, query, stmt. destruct (works E (steps w)); [|done]. cbn.
  destruct (apps w !! id) as [a|]; [|done]. simpl. case_decide; [|done]. intros [= <-]. by exists a, c.
Qed.

Lemma requireTenantApp_err E cl id w e : (requireTenantApp E cl id w).1 = Err e → code e ≠ 200.
Proof.
  unfold requireTenantApp. destruct cl as [c|]; [|by intros [= <-]]. case_bool_decide; [by intros [= <-]|].
  rewrite bind_run. destruct (GetApp E id w) as [[a|[]] w1]; cbn; [case_decide; [done|]|..]; by intros [= <-].
Qed.

Lemma requireTenantApp_same E cl id w :
  deployments (requireTenantApp E cl id w).2 = deployments w ∧ apps (requireTenantApp E cl id w).2 = apps w.
Proof.
  unfold requireTenantApp. destruct cl as [c|]; [|done]. case_bool_decide; [done|].
  rewrite bind_run. unfold GetApp, query, stmt. by destruct (works E (steps w)).
Qed.

(** A manual deployment of an image never settles: its row stays "deploying" although the
    request is answered with success, so the sweep at the next start of the platform
    takes it for a crashed one and marks the application failed. *)
Theorem image_deploy_fails_at_restart E h cl id w :
  (∀ n, works E n = true) → table_ok w → keyed (apps w) →
  let '(r, _, w1) := TriggerDeploy E h cl id w in
  code r = 200 → zlen (filter in_flight (deployments w1)) ≤ 10000 →
  (∃ rid, pending_row rid id w1) ∧
  ∃ a, apps (reclaimStaleDeployments E w1).2 !! id = Some a ∧ aStatus a = "failed".
Proof.
  intros Hw Ht Hk. pose proof (TriggerDeploy_table E h cl id w Ht) as Ht1.
  destruct (TriggerDeploy E h cl id w) as [[r job] w1] eqn:HT. cbn [snd] in Ht1. intros Hr Hlen.
  assert (present id w1 ∧ ∃ rid, pending_row rid id w1) as [Hpres Hp].
  { revert HT. unfold TriggerDeploy. rewrite bind_run.
    pose proof (requireTenantApp_ok E cl id w) as Hok. pose proof (requireTenantApp_same E cl id w) as [_ Hsame].
    pose proof (requireTenantApp_err E cl id w) as Herr.
    destruct (requireTenantApp E cl id w) as [[app|e] w0]; cbn [fst snd] in *.
    - destruct (Hok app eq_refl) as (a & c & Ha & Hid & _). apply Hk in Ha as Hka.
      destruct (frozen h _); [intros [= <- _ _]; done|]. case_decide; [|intros [= <- _ _]; done].
      rewrite bind_run. intros [= <- _ <-]. split.
      + apply deployImageApp_present. unfold present. rewrite Hsame, Ha. eauto.
      + apply deployImageApp_pending in Hr. by rewrite Hid, Hka in Hr.
    - intros [= -> _ _]. by destruct (Herr r eq_refl). }
  split; [done|].
  destruct (reclaim_sweeps E w1 Hw (ids_unique w1 Ht1) Hlen) as (_ & Happs & _).
  destruct Hp as (rid & rr & Hin & _ & Hra & Hrs).
  rewrite Happs, decide_True; [|apply Exists_exists; exists rr; split; [done|]; split; [by left|done]].
  destruct Hpres as [a ->]. by exists (fail_app a).
Qed.

Definition image_world : World := no_rows.

Lemma image_deploy_fails_at_restart_witness :
  code (TriggerDeploy demo_env demo_handler (Some demo_claims) "shop" image_world).1.1 = 200 ∧
  ∃ a, apps (reclaimStaleDeployments demo_env
              (TriggerDeploy demo_env demo_handler (Some demo_claims) "shop" image_world).2).2 !! "shop" = Some a ∧
    aStatus a = "failed".
Proof.
  pose proof (image_deploy_fails_at_restart demo_env demo_handler (Some demo_claims) "shop" image_world) as H.
  assert (table_ok image_world) as Ht by (split; [constructor|done]).
  assert (keyed (apps image_world)) as Hk.
  { intros i a. cbn. by intros [<- <-]%lookup_singleton_Some. }
  specialize (H (λ _, eq_refl) Ht Hk).
  assert (code (TriggerDeploy demo_env demo_handler (Some demo_claims) "shop" image_world).1.1 = 200) as Hc
    by (vm_compute; reflexivity).
  assert (zlen (filter in_flight (deployments
     (TriggerDeploy demo_env demo_handler (Some demo_claims) "shop" image_world).2)) ≤ 10000) as Hl
    by (vm_compute; discriminate).
  split; [exact Hc|].
  destruct (TriggerDeploy demo_env demo_handler (Some demo_claims) "shop" image_world) as [[r j] w1].
  exact (proj2 (H Hc Hl)).
Defined.

(** ** A deployment that succeeds *)

Definition status_of (w : World) (app : string) : option string := aStatus <$> apps w !! app.

Lemma UpdateAppStatus_run E a s t w :
  works E (steps w) = true →
  let w' := (UpdateAppStatus E a s t w).2 in
  deployments w' = deployments w ∧ calls w' = calls w ∧ steps w' = S (steps w) ∧
  (∀ x, apps w !! a = Some x → aTenantID x = t →
        status_of w' a = Some s ∧ ∃ y, apps w' !! a = Some y ∧ aTenantID y = t).
Proof.
  intros Hw. unfold UpdateAppStatus. rewrite stmt_works by done. simpl. repeat split; unfold status_of; simpl.
  - rewrite lookup_alter_eq, H. simpl. by rewrite decide_True.
  - rewrite lookup_alter_eq, H. simpl. rewrite decide_True by done. eexists. by split.
Qed.

Definition clean_calls (node keep : string) (cs : list ContainerInfo) : history :=
  cs ≫= λ c, if bool_decide (cID c = "") || bool_decide (cID c = keep) then []
             else [(node, Stop (cID c) 30); (node, Remove (cID c) true)].

Lemma cleanup_run E node app keep cs w :
  on_list E (calls w ++ [(node, ListByLabels "monster.app.id" app)]) = Some cs →
  let w' := (cleanupPreviousAppContainers E node app keep w).2 in
  deployments w' = deployments w ∧ apps w' = apps w ∧ steps w' = steps w ∧
  calls w' = calls w ++ [(node, ListByLabels "monster.app.id" app)] ++ clean_calls node keep cs.
Proof.
  intros Hl. cbv zeta. unfold cleanupPreviousAppContainers. rewrite bind_run. cbn [ask fst snd add_call calls].
  rewrite Hl. set (w1 := add_call w node _).
  assert (deployments w1 = deployments w ∧ apps w1 = apps w ∧ steps w1 = steps w ∧
          calls w1 = calls w ++ [(node, ListByLabels "monster.app.id" app)]) as (<- & <- & <- & Hc) by done.
  rewrite app_assoc, <- Hc. clearbody w1. clear Hl Hc. revert w1.
  induction cs as [|c cs IH]; intros w1; cbn [each clean_calls mbind list_bind]; [by rewrite app_nil_r|].
  rewrite bind_run. destruct (_ || _); [apply IH|].
  change ((stop_and_remove E node (cID c) 30 w1).2)
    with (add_call (add_call w1 node (Stop (cID c) 30)) node (Remove (cID c) true)).
  destruct (IH (add_call (add_call w1 node (Stop (cID c) 30)) node (Remove (cID c) true))) as (-> & -> & -> & ->).
  cbn [add_call deployments apps steps calls]. by rewrite <- !app_assoc.
Qed.

Lemma Create_run E d w :
  (∀ n, works E n = true) → dID d = "" → fresh E (steps w) ≠ "" →
  fresh E (steps w) ∉ (dID <$> deployments w) →
  ∃ w', CreateDeploymentAtomicVersion E d w =
      (Ok (numbered d (fresh E (steps w)) (next_version (dAppID d) (deployments w))), w') ∧
    deployments w' = deployments w ++
      [inserted (numbered d (fresh E (steps w)) (next_version (dAppID d) (deployments w))) (clock E (S (steps w)))] ∧
    apps w' = apps w ∧ calls w' = calls w.
Proof.
  intros Hw Hd Hf Hn. unfold CreateDeploymentAtomicVersion, with_id. rewrite decide_True by done.
  rewrite bind_run. cbn [mbind M_bind GenerateID mret M_ret fst snd]. unfold stmt. rewrite Hw.
  unfold insert_row. rewrite decide_False.
  - eexists. split; [reflexivity|]. by repeat split.
  - cbn. intros (r & Hr & Hi)%Exists_exists. apply Hn.
    change (dID r = fresh E (steps w)) in Hi. rewrite <- Hi. by apply list_elem_of_fmap_2.
Qed.

(** The row a successful deployment leaves. *)
Definition running_row (app : Application) (image sha by_ id container : string) (v : Z) (now : instant)
  : Deployment :=
  update_row (with_status (with_container (numbered (new_deployment app image sha by_) id v) container) "running")
    (inserted (numbered (new_deployment app image sha by_) id v) now).

Lemma run_reserved_run E app d w cid cs :
  (∀ n, works E n = true) → (∀ x, on_other E x = true) →
  (∀ x, on_create E x = Some cid) → (∀ x, on_list E x = Some cs) →
  (∃ a, apps w !! aID app = Some a ∧ aTenantID a = aTenantID app) →
  let '(r, w') := run_reserved E app "" d w in
  r = None ∧ status_of w' (aID app) = Some "running" ∧
  deployments w' = update_row (with_status (with_container d cid) "running") <$> deployments w ∧
  ∃ labels, calls w' = calls w ++ [("", EnsureNetwork "monster-network");
     ("", CreateAndStart (app_opts app d labels)); ("", ListByLabels "monster.app.id" (aID app))] ++
     clean_calls "" cid cs.
Proof.
  intros Hw Ho Hcr Hl (a & Ha & Hta). unfold run_reserved. rewrite bind_run.
  assert (deployments (buildDeployLabels E app (Version d) w).2 = deployments w ∧
          apps (buildDeployLabels E app (Version d) w).2 = apps w ∧
          calls (buildDeployLabels E app (Version d) w).2 = calls w) as (D1 & A1 & C1).
  { unfold buildDeployLabels. rewrite bind_run. unfold ListDomainsByApp, query. by rewrite stmt_works by done. }
  destruct (buildDeployLabels E app (Version d) w) as [labels w1]. cbn [fst snd] in *.
  rewrite bind_run. cbn [ask fst snd]. rewrite Ho. cbn [negb]. rewrite bind_run. cbn [ask fst snd]. rewrite Hcr.
  rewrite bind_run. set (w2 := add_call (add_call w1 _ _) _ _).
  pose proof (cleanup_run E "" (aID app) cid cs w2 (Hl _)) as (D2 & A2 & S2 & C2).
  set (w3 := (cleanupPreviousAppContainers E "" (aID app) cid w2).2) in *. clearbody w3.
  assert (calls w2 = calls w ++ [("", EnsureNetwork "monster-network"); ("", CreateAndStart (app_opts app d labels))]) as C2'.
  { unfold w2. cbn. by rewrite C1, <- app_assoc. }
  assert (deployments w2 = deployments w ∧ apps w2 = apps w) as [D2' A2'] by (unfold w2; cbn; by rewrite D1, A1).
  clearbody w2. cbv zeta. rewrite bind_run. unfold UpdateDeployment. rewrite stmt_works by done. cbn [fst snd].
  rewrite bind_run. set (w4 := tick (with_deployments w3 _)).
  destruct (UpdateAppStatus_run E (aID app) "running" (aTenantID app) w4 (Hw _)) as (D5 & C5 & _ & Hst).
  set (w5 := (UpdateAppStatus E (aID app) "running" (aTenantID app) w4).2) in *. clearbody w5.
  rewrite bind_run. cbn [mret M_ret]. match goal with |- context [publish E ?e w5] => set (w6 := (publish E e w5).2) end.
  assert (deployments w6 = deployments w5 ∧ apps w6 = apps w5 ∧ calls w6 = calls w5) as (D6 & A6 & C6).
  { unfold w6, publish. simpl. by destruct (has_bus E). }
  clearbody w6. split; [done|]. split.
  - unfold status_of. rewrite A6. apply (Hst a); [|done]. unfold w4. cbn. by rewrite A2, A2'.
  - split; [by rewrite D6, D5; unfold w4; cbn; rewrite D2, D2'|]. exists labels.
    rewrite C6, C5. unfold w4. cbn. rewrite C2, C2', <- !app_assoc. done.
Qed.

Lemma update_row_other d (l : list Deployment) : dID d ∉ (dID <$> l) → update_row d <$> l = l.
Proof.
  intros Hd. transitivity (id <$> l); [|apply list_fmap_id]. apply list_fmap_ext.
  intros i r Hr. unfold update_row. rewrite decide_False; [done|]. intros He. apply Hd. rewrite <- He.
  apply list_elem_of_fmap_2. by eapply list_elem_of_lookup_2.
Qed.

(** C7. A deployment from git replaces the old containers: when the build, the database and
    the local runtime answer, it ends without error, its row has the next version and is
    running in the new container, no other row changed, the application is running, and
    the calls are exactly the network, the start of the new container, the listing and,
    only then, stopping and removing every listed container but the new one. *)
Theorem git_deploy_succeeds E h app by_ sha w image sha' cid cs :
  (∀ n, works E n = true) → has_runtime E = true → (∀ x, on_other E x = true) →
  (∀ x, on_create E x = Some cid) → (∀ x, on_list E x = Some cs) →
  (∀ n, fresh E n ≠ "" ∧ fresh E n ∉ (dID <$> deployments w)) →
  isRemoteApp app = false → (∀ o, buildGit h o = Some (image, sha')) →
  (∃ a, apps w !! aID app = Some a ∧ aTenantID a = aTenantID app) →
  let '(r, w') := deployGitApp E h app by_ sha w in
  r = None ∧ status_of w' (aID app) = Some "running" ∧
  (∃ id now, deployments w' = deployments w ++
     [running_row app image sha' by_ id cid (next_version (aID app) (deployments w)) now]) ∧
  ∃ o, oImage o = image ∧ calls w' = calls w ++ [("", EnsureNetwork "monster-network");
     ("", CreateAndStart o); ("", ListByLabels "monster.app.id" (aID app))] ++ clean_calls "" cid cs.
Proof.
  intros Hw Hr Ho Hcr Hl Hf Hloc Hb (a & Ha & Hta). unfold deployGitApp. rewrite Hr. cbn [negb]. cbv zeta.
  rewrite bind_run.
  destruct (UpdateAppStatus_run E (aID app) "building" (aTenantID app) w (Hw _)) as (D1 & C1 & _ & A1).
  set (w1 := (UpdateAppStatus E (aID app) "building" (aTenantID app) w).2) in *. clearbody w1.
  destruct (A1 a Ha Hta) as (_ & a1 & Ha1 & Ht1). rewrite bind_run.
  unfold build_opts. rewrite Hloc. cbn [andb mret M_ret fst snd]. rewrite Hb. cbv beta iota zeta.
  rewrite bind_run.
  destruct (UpdateAppStatus_run E (aID app) "deploying" (aTenantID app) w1 (Hw _)) as (D2 & C2 & _ & A2).
  set (w2 := (UpdateAppStatus E (aID app) "deploying" (aTenantID app) w1).2) in *. clearbody w2.
  destruct (A2 a1 Ha1 Ht1) as (_ & a2 & Ha2 & Ht2).
  unfold deployRuntimeForApp. rewrite Hloc, Hr. rewrite bind_run.
  destruct (Hf (steps w2)) as [Hf1 Hf2].
  destruct (Create_run E (new_deployment app image sha' by_) w2 Hw eq_refl Hf1) as (w3 & Hc & D3 & A3 & C3).
  { by rewrite D2, D1. }
  rewrite Hc. cbn [fst snd]. set (d := numbered _ _ _) in *.
  pose proof (run_reserved_run E app d w3 cid cs Hw Ho Hcr Hl) as Hrun.
  destruct (run_reserved E app "" d w3) as [r w4].
  destruct Hrun as (-> & Hs & Hd & labels & Hcalls); [rewrite A3; eauto|].
  split; [done|]. split; [done|]. split.
  - exists (fresh E (steps w2)), (clock E (S (steps w2))). rewrite Hd, D3, fmap_app. f_equal.
    + rewrite update_row_other by (by rewrite D2, D1). congruence.
    + cbn [fmap list_fmap]. unfold running_row. unfold d. by rewrite D2, D1.
  - exists (app_opts app d labels). split; [done|]. by rewrite Hcalls, C3, C2, C1.
Qed.

Lemma git_deploy_succeeds_witness :
  let '(r, w') := deployGitApp demo_env demo_handler demo_app "manual" "" demo_world in
  r = None ∧ status_of w' "shop" = Some "running".
Proof.
  pose proof (git_deploy_succeeds demo_env demo_handler demo_app "manual" "" demo_world "shop:git" "abc" "c3" []
    (λ _, eq_refl) eq_refl (λ _, eq_refl) (λ _, eq_refl) (λ _, eq_refl)) as H.
  destruct (deployGitApp demo_env demo_handler demo_app "manual" "" demo_world) as [r w'].
  destruct H as (H1 & H2 & _); [|done|done|by exists demo_app|by split].
  intros n. cbn [demo_env fresh]. split; [done|].
  cbn. intros [H|[H|H%elem_of_nil]%elem_of_cons]%elem_of_cons; done.
Defined.

(** ** Freezing and deploying *)

(** A request to freeze or to lift a freeze, with the answers of the store. *)
Inductive freeze_op :=
| FCreate (now : instant) (id : string) (reads writes : bool) (cl : option Access.Claims)
    (req : option (string * option instant * option instant))
| FDelete (reads writes : bool) (cl : option Access.Claims) (id : string).

Definition freeze_run (m : freezes) (o : freeze_op) : freezes :=
  match o with
  | FCreate now id reads writes cl req => (Freeze_Create now id m reads writes cl req).1
  | FDelete reads writes cl id => (Freeze_Delete m reads writes cl id).1
  end.

Lemma deactivate_length id ws : length (deactivate id ws) = length ws.
Proof. induction ws as [|w ws IH]; [done|]. simpl. case_decide; simpl; lia. Qed.

Lemma deactivate_covers now id ws :
  existsb (covers now) (deactivate id ws) = true → existsb (covers now) ws = true.
Proof.
  induction ws as [|w ws IH]; [done|]. simpl. case_decide; simpl.
  - intros ->. apply orb_true_r.
  - intros [->|Hr]%orb_true_iff; [done|]. apply IH in Hr as ->. apply orb_true_r.
Qed.

(** A freeze holds from its start to its end: once created for a tenant, and as long as
    nothing else changes the tenant's windows, deployments are refused at exactly the times strictly between its
    bounds (or when an earlier window covers them), whatever happens to other tenants; and lifting a window
    never freezes anything. *)
Theorem freeze_covers_its_window now id m cl reason starts ends t :
  Access.TenantID cl ≠ "" →
  let '(m', r) := Freeze_Create now id m true true (Some cl) (Some (reason, starts, ends)) in
  code r = 201 →
  ∃ fw, answer r = Window fw ∧
  activeDeployFreeze t (Some m') true (Access.TenantID cl) =
    activeDeployFreeze t (Some m) true (Access.TenantID cl) || ((StartsAt fw <? t) && (t <? EndsAt fw)) ∧
  (∀ tenant, tenant ≠ Access.TenantID cl →
     activeDeployFreeze t (Some m') true tenant = activeDeployFreeze t (Some m) true tenant) ∧
  ∀ gone, activeDeployFreeze t (Some (Freeze_Delete m' true true (Some cl) gone).1) true (Access.TenantID cl) = true →
     activeDeployFreeze t (Some m') true (Access.TenantID cl) = true.
Proof.
  intros Ht. unfold Freeze_Create. cbv beta iota zeta. case_bool_decide; [done|]. cbv iota. intros _. eexists. split; [reflexivity|].
  unfold activeDeployFreeze, Freeze_Delete. cbn [answer]. rewrite lookup_insert_eq.
  rewrite (bool_decide_eq_false_2 _ Ht). cbn [orb negb]. split; [|split].
  - rewrite existsb_app. cbn [existsb]. unfold covers at 2. cbn [Active StartsAt EndsAt andb].
    rewrite orb_false_r. by destruct (m !! Access.TenantID cl).
  - intros tenant Hne. by rewrite lookup_insert_ne by congruence.
  - intros gone. case_bool_decide; cbn [fst]; rewrite ?lookup_insert_eq; [done|]. apply deactivate_covers.
Qed.

Lemma freeze_covers_its_window_witness :
  let '(m', r) := Freeze_Create Second "f" ∅ true true (Some demo_claims) (Some ("release", None, None)) in
  code r = 201 ∧ activeDeployFreeze Minute (Some m') true "t" = true.
Proof.
  pose proof (freeze_covers_its_window Second "f" ∅ demo_claims "release" None None Minute) as H.
  destruct (Freeze_Create Second "f" ∅ true true (Some demo_claims) (Some ("release", None, None)))
    as [m' r] eqn:Hc.
  assert (code r = 201 ∧ answer r = Window {| fID := "f"; Reason := "release"; StartsAt := Second;
     EndsAt := Second + 24 * Hour; Active := true |}) as [Hr Ha].
  { change r with (m', r).2. rewrite <- Hc. by vm_compute. }
  clear Hc. split; [done|]. destruct H as (fw & Hfw & Hact & _); [done|done|].
  rewrite Ha in Hfw. injection Hfw as <-. change "t" with (Access.TenantID demo_claims). rewrite Hact. by vm_compute.
Defined.

Definition reads_work (o : freeze_op) : Prop :=
  match o with FCreate _ _ reads _ _ _ | FDelete reads _ _ _ => reads = true end.

(** A tenant that has used its fifty windows can never freeze again: lifted windows keep
    their place, so the number of windows, which every later request counts, never
    shrinks. *)
Lemma freeze_limit_never_frees (m : freezes) (ops : list freeze_op) tenant :
  Forall reads_work ops → (50 ≤ length (default [] (m !! tenant)))%nat →
  (50 ≤ length (default [] (foldl freeze_run m ops !! tenant)))%nat.
Proof.
  intros Hops. revert m. induction Hops as [|o ops Ho _ IH]; intros m Hm; [done|]. apply IH. clear IH.
  assert (∀ k ws, (length (default [] (m !! k)) ≤ length ws)%nat →
            (50 ≤ length (default [] (<[k := ws]> m !! tenant)))%nat) as Hins.
  { intros k ws Hle. destruct (decide (k = tenant)) as [->|Hne].
    - rewrite lookup_insert_eq. simpl. lia.
    - by rewrite lookup_insert_ne by done. }
  destruct o as [now id reads writes [cl|] [[[reason s] e]|]|reads writes [cl|] id]; simpl in *; subst; try done.
  - case_bool_decide; [done|]. destruct writes; [|done]. apply Hins. rewrite length_app. simpl. lia.
  - case_bool_decide; [done|]. destruct (m !! Access.TenantID cl) as [ws|] eqn:Hws; [|done].
    destruct writes; [|done]. apply Hins. rewrite Hws, deactivate_length. done.
Qed.

(** A request to freeze that cannot read the windows it has replaces them all: the freeze
    that was in force is gone. *)
Example failed_read_drops_freezes :
  let m := (Freeze_Create Second "f" ∅ true true (Some demo_claims) (Some ("release", None, None))).1 in
  let m' := (Freeze_Create Second "g" m false true (Some demo_claims)
              (Some ("later", Some (100 * Hour), None))).1 in
  activeDeployFreeze Minute (Some m) true "t" = true ∧ activeDeployFreeze Minute (Some m') true "t" = false.
Proof. by vm_compute. Qed.

(** A frozen tenant deploys nothing by hand: the request is refused and neither the tables
    nor the runtime are touched. *)
Lemma frozen_deploys_nothing E h cl id w app w1 :
  requireTenantApp E cl id w = (Ok app, w1) → frozen h (aTenantID app) = true →
  let '(r, job, w') := TriggerDeploy E h cl id w in
  code r = 423 ∧ job = None ∧ deployments w' = deployments w ∧ apps w' = apps w.
Proof.
  intros Hreq Hf. unfold TriggerDeploy. rewrite bind_run.
  pose proof (requireTenantApp_same E cl id w) as [Hd Ha]. rewrite Hreq in *. cbn [fst snd] in *.
  rewrite Hf. cbn. auto.
Qed.

(** ** Approvals *)

(** A request is decided once and only by its tenant: a review changes the requests only
    from pending, for a reviewer of the same tenant, and afterwards it answers 409. *)
Lemma review_once now pending cl id status reason pending' :
  status ≠ "pending" → review now pending cl id status reason = (pending', 200) →
  (∃ r, pending !! id = Some r ∧ rStatus r = "pending" ∧ rTenantID r = Access.TenantID cl) ∧
  ∀ now' cl' status' reason', review now' pending' cl' id status' reason' = (pending', 409).
Proof.
  intros Hs. unfold review. destruct (pending !! id) as [r|] eqn:Hr; [|done].
  repeat case_bool_decide; simpl; try done. intros [= <-]. split; [by exists r|]. intros.
  rewrite lookup_insert_eq. simpl. by rewrite bool_decide_eq_false_2.
Qed.

(** Nothing ever asks for an approval: from the empty handler every review is answered
    with 404 and the handler stays empty. *)
Lemma approvals_stay_empty now cl id reason :
  (Approve now ∅ cl id).1 = ∅ ∧ (Reject now ∅ cl id reason).1 = ∅ ∧
  (cl ≠ None → id ≠ "" → (Approve now ∅ cl id).2 = 404).
Proof.
  unfold Approve, Reject, review. rewrite !lookup_empty.
  destruct cl, reason; repeat case_bool_decide; done.
Qed.

End Pipeline.
