(* ===== verification/Webhooks.v ===== *)
(** * Webhooks: inbound deliveries and their secrets ([internal/webhooks], event_webhooks.go)

    The receiver of the git providers' deliveries (provider detection, signatures, replay
    protection, normalised payloads), the rotation of the secrets it checks, the replay
    handler and the list of outbound webhooks.  A request's body is its bytes, decoded as a
    JSON document by [Unmarshal]; the key-value store is the one of [KVStore], and each of
    its calls may fail. *)

From S2P Require Import Prelude GoStrings GoNet Http KVStore Sha256 Access Login Deploy DeployPipeline.
Import KV Http.
#[local] Open Scope Z_scope.

Module Webhooks.

(** ** Signatures *)

(** src/internal/webhooks/receiver.go:421-425 signPayload *)
Definition signPayload (body secret : string) : string :=
  Sha256.EncodeToString (Sha256.hmac_sha256 (Sha256.byte_val <$> bytes secret) (Sha256.byte_val <$> bytes body)).

(** src/internal/webhooks/receiver.go:408-414 VerifyGitHubSignature *)
Definition VerifyGitHubSignature (body secret signature : string) : bool :=
  if HasPrefix signature "sha256=" then bool_decide (str (drop 7 (bytes signature)) = signPayload body secret)
  else false.

(** src/internal/webhooks/receiver.go:417-419 VerifyGitLabToken *)
Definition VerifyGitLabToken (header secret : string) : bool := bool_decide (header = secret).

(** src/internal/webhooks/receiver.go:434-442 VerifyBitbucketSignature *)
Definition VerifyBitbucketSignature (body secret signature : string) : bool :=
  if bool_decide (signature = "") then false
  else bool_decide (TrimPrefix signature "sha256=" = signPayload body secret).

(** src/internal/webhooks/receiver.go:173-190 detectProvider *)
Definition detectProvider (r : Request) : string :=
  if negb (bool_decide (HeaderGet r "X-GitHub-Event" = "")) then "github"
  else if negb (bool_decide (HeaderGet r "X-Gitlab-Event" = "")) then "gitlab"
  else if negb (bool_decide (HeaderGet r "X-Gitea-Event" = "")) then "gitea"
  else if negb (bool_decide (HeaderGet r "X-Gogs-Event" = "")) then "gogs"
  else if negb (bool_decide (HeaderGet r "X-Event-Key" = "")) then "bitbucket"
  else "generic".

(** src/internal/webhooks/receiver.go:448-486 VerifySignature *)
Definition VerifySignature (provider body secret : string) (r : Request) : bool :=
  if decide (provider = "github") then VerifyGitHubSignature body secret (HeaderGet r "X-Hub-Signature-256")
  else if decide (provider = "gitlab") then VerifyGitLabToken (HeaderGet r "X-Gitlab-Token") secret
  else if decide (provider = "gitea" ∨ provider = "gogs") then
    let sig := HeaderGet r "X-Gitea-Signature" in
    let sig := if bool_decide (sig = "") then HeaderGet r "X-Gogs-Signature" else sig in
    VerifyGitHubSignature body secret ("sha256=" +:+ sig)
  else if decide (provider = "bitbucket") then
    let sig := HeaderGet r "X-Hub-Signature" in
    if negb (bool_decide (sig = "")) then VerifyBitbucketSignature body secret sig else true
  else
    let sig := HeaderGet r "X-Signature-256" in
    if negb (bool_decide (sig = "")) then VerifyBitbucketSignature body secret sig else
    let sig := HeaderGet r "X-Hub-Signature-256" in
    if negb (bool_decide (sig = "")) then VerifyBitbucketSignature body secret sig else true.

(** The headers that carry a delivery's identifier. *)
Definition delivery_headers : list string :=
  ["X-GitHub-Delivery"; "X-Gitlab-Event-UUID"; "X-Gitea-Delivery"; "X-Gogs-Delivery"; "X-Hook-UUID";
   "X-Request-Id"].

(** src/internal/webhooks/receiver.go:43-61 deliveryDedupKey *)
Definition deliveryDedupKey (webhookID body : string) (r : Request) : string :=
  match head (filter (λ v, v ≠ "") (HeaderGet r <$> delivery_headers)) with
  | Some v => webhookID +:+ ":" +:+ v
  | None => if bool_decide (body = "") then "" else webhookID +:+ ":" +:+ Sha256.sha256_hex body
  end.

(** ** Payloads *)

(** src/internal/webhooks/receiver.go:64-73 WebhookPayload *)
Record WebhookPayload := {
  Provider : string; EventType : string; pBranch : string; pCommitSHA : string; CommitMsg : string;
  Author : string; RepoURL : string; RepoName : string }.

(** [json.Unmarshal] into a [map[string]any]. *)
Definition as_map (j : json) : option (list (string * json)) :=
  match j with JObj fs => Some fs | JNull => Some [] | _ => None end.

(** The assertions of the parsers: a field that is an object, an array, a string. *)
Definition obj (k : string) (fs : list (string * json)) : option (list (string * json)) :=
  match jfield k fs with Some (JObj gs) => Some gs | _ => None end.
Definition arr (k : string) (fs : list (string * json)) : option (list json) :=
  match jfield k fs with Some (JArr l) => Some l | _ => None end.
Definition text (k : string) (fs : list (string * json)) : option string :=
  match jfield k fs with Some (JStr s) => Some s | _ => None end.
Definition text0 (k : string) (fs : list (string * json)) : string := default "" (text k fs).
Definition map_of (j : json) : option (list (string * json)) :=
  match j with JObj fs => Some fs | _ => None end.

Definition branch_of (fs : list (string * json)) : string :=
  match text "ref" fs with Some ref => TrimPrefix ref "refs/heads/" | None => "" end.

(** src/internal/webhooks/receiver.go:306-332 parseGitHub *)
Definition parseGitHub (j : json) (r : Request) : option WebhookPayload :=
  raw ← as_map j;
  let head := default [] (obj "head_commit" raw) in
  let author := default [] (obj "author" head) in
  let repo := default [] (obj "repository" raw) in
  Some {| Provider := "github"; EventType := HeaderGet r "X-GitHub-Event"; pBranch := branch_of raw;
          pCommitSHA := text0 "id" head; CommitMsg := text0 "message" head; Author := text0 "name" author;
          RepoURL := text0 "clone_url" repo; RepoName := text0 "full_name" repo |}.

(** The last commit of a push, empty when it is not an object. *)
Definition last_commit (raw : list (string * json)) : list (string * json) :=
  default [] (cs ← arr "commits" raw; c ← last cs; map_of c).

(** src/internal/webhooks/receiver.go:334-362 parseGitLab *)
Definition parseGitLab (j : json) (r : Request) : option WebhookPayload :=
  raw ← as_map j;
  let commit := last_commit raw in
  let proj := default [] (obj "project" raw) in
  Some {| Provider := "gitlab"; EventType := HeaderGet r "X-Gitlab-Event"; pBranch := branch_of raw;
          pCommitSHA := text0 "checkout_sha" raw; CommitMsg := text0 "message" commit;
          Author := text0 "name" (default [] (obj "author" commit));
          RepoURL := text0 "git_http_url" proj; RepoName := text0 "path_with_namespace" proj |}.

(** src/internal/webhooks/receiver.go:364-394 parseGitea *)
Definition parseGitea (j : json) (r : Request) : option WebhookPayload :=
  raw ← as_map j;
  let et := HeaderGet r "X-Gitea-Event" in
  let repo := default [] (obj "repository" raw) in
  Some {| Provider := "gitea"; EventType := if bool_decide (et = "") then HeaderGet r "X-Gogs-Event" else et;
          pBranch := branch_of raw; pCommitSHA := text0 "after" raw;
          CommitMsg := text0 "message" (last_commit raw); Author := "";
          RepoURL := text0 "clone_url" repo; RepoName := text0 "full_name" repo |}.

(** A string field of a struct: names are matched without case, every match assigns, [null]
    assigns nothing and any other type is an error. *)
Fixpoint field_text (k : string) (fs : list (string * json)) (d : string) : option string :=
  match fs with
  | [] => Some d
  | (k', v) :: fs =>
      if decide (ToLower k' = k) then
        match v with
        | JStr s => field_text k fs s
        | JNull => field_text k fs d
        | _ => None
        end
      else field_text k fs d
  end.

Definition flat_payload (j : json) : option WebhookPayload :=
  fs ← as_map j;
  p ← field_text "provider" fs ""; e ← field_text "event_type" fs ""; b ← field_text "branch" fs "";
  c ← field_text "commit_sha" fs ""; m ← field_text "commit_message" fs ""; a ← field_text "author" fs "";
  u ← field_text "repo_url" fs ""; n ← field_text "repo_name" fs "";
  Some {| Provider := p; EventType := e; pBranch := b; pCommitSHA := c; CommitMsg := m; Author := a;
          RepoURL := u; RepoName := n |}.

(** src/internal/webhooks/receiver.go:396-405 parseGeneric *)
Definition parseGeneric (j : json) : option WebhookPayload :=
  p ← flat_payload j;
  Some (if bool_decide (Provider p = "") then
          {| Provider := "generic"; EventType := EventType p; pBranch := pBranch p; pCommitSHA := pCommitSHA p;
             CommitMsg := CommitMsg p; Author := Author p; RepoURL := RepoURL p; RepoName := RepoName p |}
        else p).

(** The first clone link named https: its address, [""] when it has none. *)
Definition https_link (repo : list (string * json)) : option string :=
  ls ← arr "clone" (default [] (obj "links" repo));
  head (omap (λ e, m ← map_of e; if decide (text0 "name" m = "https") then Some (text0 "href" m) else None) ls).

(** src/internal/webhooks/receiver.go:217-304 parseBitbucket *)
Definition parseBitbucket (j : json) (r : Request) : option WebhookPayload :=
  raw ← as_map j;
  let newRef := push ← obj "push" raw; cs ← arr "changes" push; c ← head cs; m ← map_of c; obj "new" m in
  let ref := default [] newRef in
  let target := default [] (obj "target" ref) in
  let repo := default [] (obj "repository" raw) in
  let link := https_link repo in
  let native := bool_decide (is_Some newRef) || negb (bool_decide (text0 "full_name" repo = "")) ||
                bool_decide (is_Some link) in
  let p := {| Provider := "bitbucket"; EventType := HeaderGet r "X-Event-Key"; pBranch := text0 "name" ref;
              pCommitSHA := text0 "hash" target; CommitMsg := text0 "message" target;
              Author := text0 "raw" (default [] (obj "author" target));
              RepoURL := default "" link; RepoName := text0 "full_name" repo |} in
  if native then Some p else
  match flat_payload j with
  | None => Some p
  | Some f =>
      let or_ new old := if bool_decide (new = "") then old else new in
      Some {| Provider := "bitbucket"; EventType := or_ (EventType p) (EventType f);
              pBranch := or_ (pBranch f) (pBranch p); pCommitSHA := or_ (pCommitSHA f) (pCommitSHA p);
              CommitMsg := or_ (CommitMsg f) (CommitMsg p); Author := or_ (Author f) (Author p);
              RepoURL := or_ (RepoURL f) (RepoURL p); RepoName := or_ (RepoName f) (RepoName p) |}
  end.

(** src/internal/webhooks/receiver.go:193-206 parsePayload *)
Definition parsePayload (provider : string) (j : json) (r : Request) : option WebhookPayload :=
  if decide (provider = "github") then parseGitHub j r
  else if decide (provider = "gitlab") then parseGitLab j r
  else if decide (provider = "gitea" ∨ provider = "gogs") then parseGitea j r
  else if decide (provider = "bitbucket") then parseBitbucket j r
  else parseGeneric j.

(** ** The receiver *)

Definition webhookDedupBucket : string := "webhook_dedup".
Definition webhookDedupTTLSeconds : Z := 600.

(** The bytes a request's body is read up to, 10 MiB. *)
Definition read_limit (b : string) : string :=
  if Z.of_nat (slen b) <=? 10 * 2 ^ 20 then b else str (take (Z.to_nat (10 * 2 ^ 20)) (bytes b)).

(** Which calls of the store fail. *)
Inductive wh_call := SecretRead | DedupRead | DedupWrite | RotateRead | RotateWrite | ListWrite.

Section Receiver.
Variable Unmarshal : string → option json.
Variable fails : wh_call → stmt → bool.

(** src/internal/db/kv.go:457-482 KVStore.GetWebhookSecret *)
Definition GetWebhookSecret (kv : KVStore) (webhookID : string) : option string :=
  if fails SecretRead Select then None else
  r ← rows kv !! ("webhooks", webhookID);
  d ← data r;
  match Access.unwrap d with
  | JObj fs => s ← read_str "secret_hash" fs ""; if decide (s = "") then None else Some s
  | _ => None
  end.

(** A delivery that is answered: the status and the event published, if any. *)
Record outcome := { status : Z; said : string; published : option Pipeline.WebhookEventData }.
Definition refused (c : Z) : outcome := {| status := c; said := ""; published := None |}.

(** Parsing and the event, once the delivery is let in.
    src/internal/webhooks/receiver.go:139-170 Receiver.HandleWebhook.dispatch *)
Definition dispatch (webhookID body : string) (r : Request) : outcome :=
  match Unmarshal body ≫= λ j, parsePayload (detectProvider r) j r with
  | None => refused 400
  | Some p => {| status := 200; said := "received"; published := Some
      {| Pipeline.WebhookID := webhookID; Pipeline.wBranch := pBranch p; Pipeline.wCommitSHA := pCommitSHA p |} |}
  end.

(** A handler after its check: it has answered, or it has let the delivery in and records it next. *)
Inductive stage := Answered (o : outcome) | LetIn (key body : string).

(** The handler up to the read of the record of deliveries; [body] is [None] when it cannot be
    read.
    src/internal/webhooks/receiver.go:76-131 Receiver.HandleWebhook.check *)
Definition check (now : Z) (kv : option KVStore) (webhookID : string) (body : option string) (r : Request) : stage :=
  if bool_decide (webhookID = "") then Answered (refused 400) else
  match body with
  | None => Answered (refused 400)
  | Some b =>
  let b := read_limit b in
  match kv with
  | None => Answered (dispatch webhookID b r)
  | Some s =>
      match GetWebhookSecret s webhookID with
      | None => Answered (refused 401)
      | Some secret =>
          if negb (VerifySignature (detectProvider r) b secret r) then Answered (refused 401) else
          let key := deliveryDedupKey webhookID b r in
          if bool_decide (key = "") then Answered (dispatch webhookID b r) else
          match Get (A := bool) (fails DedupRead) now s webhookDedupBucket key false with
          | Ok true => Answered {| status := 200; said := "duplicate"; published := None |}
          | _ => LetIn key b
          end
      end
  end end.

(** The rest of it: a write that fails is only logged.
    src/internal/webhooks/receiver.go:132-170 Receiver.HandleWebhook.let_in *)
Definition let_in (now : Z) (kv : option KVStore) (webhookID key body : string) (r : Request) : option KVStore * outcome :=
  ((λ s, (Set_ (fails DedupWrite) now s webhookDedupBucket key (Some (marshal true)) webhookDedupTTLSeconds).1) <$> kv,
   dispatch webhookID body r).

(** [between] is what other requests do to the store between the read and the write.
    src/internal/webhooks/receiver.go:76-170 Receiver.HandleWebhook *)
Definition HandleWebhook (now : Z) (between : option KVStore → option KVStore) (kv : option KVStore) (webhookID : string)
    (body : option string) (r : Request) : option KVStore * outcome :=
  match check now kv webhookID body r with
  | Answered o => (kv, o)
  | LetIn key b => let_in now (between kv) webhookID key b r
  end.

(** ** Secrets *)

(** src/internal/api/handlers/event_webhooks.go:46-49 hashSecret *)
Definition hashSecret (secret : string) : string := Sha256.sha256_hex secret.

(** src/internal/api/handlers/event_webhooks.go:392-399 webhookSecretRecord *)
Record webhookSecretRecord := {
  recID : string; recAppID : string; SecretHash : string; recStatus : string; recCreated : instant;
  recUpdated : instant }.

#[global] Instance secret_json : JSON webhookSecretRecord := {|
  representable := λ _, True;
  marshal := λ s, JObj [("id", JStr (recID s)); ("app_id", JStr (recAppID s)); ("secret_hash", JStr (SecretHash s));
     ("status", JStr (recStatus s)); ("created_at", JTime (recCreated s)); ("updated_at", JTime (recUpdated s))];
  unmarshal := λ d s,
    match d with
    | JObj fs =>
        i ← read_str "id" fs (recID s); a ← read_str "app_id" fs (recAppID s);
        h ← read_str "secret_hash" fs (SecretHash s); st ← read_str "status" fs (recStatus s);
        c ← read_time "created_at" fs (recCreated s); u ← read_time "updated_at" fs (recUpdated s);
        Some {| recID := i; recAppID := a; SecretHash := h; recStatus := st; recCreated := c; recUpdated := u |}
    | JNull => Some s
    | _ => None
    end |}.

Definition no_record : webhookSecretRecord :=
  {| recID := ""; recAppID := ""; SecretHash := ""; recStatus := ""; recCreated := zero_time;
     recUpdated := zero_time |}.

(** src/internal/api/handlers/event_webhooks.go:421-439 WebhookRotateHandler.persistSecret *)
Definition persistSecret (now : instant) (kv : option KVStore) (appID secret : string)
  : option KVStore * bool :=
  match kv with
  | None => (None, false)
  | Some s =>
      let secs := time_unix now in
      let found := match Get (fails RotateRead) secs s "webhooks" appID no_record with
                   | Ok rec => Some rec
                   | Err ErrKVNotFound => Some no_record
                   | Err _ => None
                   end in
      match found with
      | None => (kv, false)
      | Some rec =>
          let fresh := bool_decide (recID rec = "") in
          let '(s', r) := Set_ (fails RotateWrite) secs s "webhooks" appID (Some (marshal
            {| recID := if fresh then appID else recID rec; recAppID := appID; SecretHash := hashSecret secret;
               recStatus := "active"; recCreated := if fresh then now else recCreated rec; recUpdated := now |})) 0 in
          (Some s', is_ok r)
      end
  end.

(** What [GenerateSecret(32)] draws: 32 random bytes in 44 characters of base64.  The answer
    carries the new secret.
    src/internal/api/handlers/event_webhooks.go:403-420 WebhookRotateHandler.Rotate *)
Definition Rotate (now : instant) (kv : option KVStore) (app : result Pipeline.reply Deploy.Application)
    (drawn : string) : option KVStore * Z * option string :=
  match app with
  | Err e => (kv, Pipeline.code e, None)
  | Ok app =>
      match persistSecret now kv (Deploy.aID app) drawn with
      | (kv', true) => (kv', 200, Some drawn)
      | (kv', false) => (kv', 500, None)
      end
  end.

(** The event a replay publishes.
    src/internal/api/handlers/event_webhooks.go:291-310 WebhookReplayHandler.Replay *)
Definition Replay (app : result Pipeline.reply Deploy.Application) (logID : string)
  : Z * option Pipeline.WebhookEventData :=
  match app with
  | Err e => (Pipeline.code e, None)
  | Ok _ => if bool_decide (logID = "") then (400, None)
            else (202, Some {| Pipeline.WebhookID := logID; Pipeline.wBranch := ""; Pipeline.wCommitSHA := "" |})
  end.

End Receiver.

(** ** What is let in *)

(** The request carries the proof its provider's protocol asks for. *)
Inductive signed (b secret : string) (r : Request) : Prop :=
| by_github : detectProvider r = "github" →
    HeaderGet r "X-Hub-Signature-256" = "sha256=" +:+ signPayload b secret → signed b secret r
| by_gitlab : detectProvider r = "gitlab" → HeaderGet r "X-Gitlab-Token" = secret → signed b secret r
| by_gitea h : detectProvider r = "gitea" ∨ detectProvider r = "gogs" →
    h ∈ ["X-Gitea-Signature"; "X-Gogs-Signature"] →
    HeaderGet r h = signPayload b secret → signed b secret r
| by_other h : detectProvider r = "bitbucket" ∨ detectProvider r = "generic" →
    h ∈ ["X-Hub-Signature"; "X-Signature-256"; "X-Hub-Signature-256"] →
    TrimPrefix (HeaderGet r h) "sha256=" = signPayload b secret → signed b secret r.

(** Requests the receiver lets in without any proof: a provider that may be unsigned, and no
    signature header of that provider. *)
Definition unsigned (r : Request) : Prop :=
  (detectProvider r = "bitbucket" ∧ HeaderGet r "X-Hub-Signature" = "") ∨
  (detectProvider r = "generic" ∧ HeaderGet r "X-Signature-256" = "" ∧ HeaderGet r "X-Hub-Signature-256" = "").

Lemma detectProvider_cases r :
  detectProvider r ∈ ["github"; "gitlab"; "gitea"; "gogs"; "bitbucket"; "generic"].
Proof. unfold detectProvider. repeat case_bool_decide; cbn; set_solver. Qed.

Lemma VerifyGitHub_spec b secret sig :
  VerifyGitHubSignature b secret sig = true ↔ sig = "sha256=" +:+ signPayload b secret.
Proof.
  unfold VerifyGitHubSignature. destruct (HasPrefix sig "sha256=") eqn:Hp.
  - apply HasPrefix_spec in Hp as [x ->].
    replace (str (drop 7 (bytes ("sha256=" +:+ x)))) with x
      by (rewrite bytes_app; change 7%nat with (length (bytes "sha256=")); by rewrite drop_app_length, str_bytes).
    rewrite bool_decide_eq_true. split; [by intros ->|]. by intros ?%(inj (String.append "sha256=")).
  - split; [done|]. intros ->. assert (HasPrefix ("sha256=" +:+ signPayload b secret) "sha256=" = true) as H
      by (apply HasPrefix_spec; eauto). congruence.
Qed.

Lemma VerifyBitbucket_spec b secret sig :
  sig ≠ "" → VerifyBitbucketSignature b secret sig = true ↔ TrimPrefix sig "sha256=" = signPayload b secret.
Proof. intros Hs. unfold VerifyBitbucketSignature. by rewrite bool_decide_eq_false_2, bool_decide_eq_true by done. Qed.

Lemma VerifySignature_sound b secret r :
  VerifySignature (detectProvider r) b secret r = true → signed b secret r ∨ unsigned r.
Proof.
  pose proof (detectProvider_cases r) as Hc. unfold VerifySignature.
  destruct (decide (detectProvider r = "github")) as [H1|H1]; [|
  destruct (decide (detectProvider r = "gitlab")) as [H2|H2]; [|
  destruct (decide (detectProvider r = "gitea" ∨ detectProvider r = "gogs")) as [H3|H3]; [|
  destruct (decide (detectProvider r = "bitbucket")) as [H4|H4]]]]; cbv zeta; intros Hv.
  - left. apply by_github; [done|]. by apply VerifyGitHub_spec.
  - left. apply by_gitlab; [done|]. by apply bool_decide_eq_true in Hv.
  - left. apply VerifyGitHub_spec in Hv. apply (inj (String.append "sha256=")) in Hv.
    case_bool_decide; (eapply by_gitea; [done| |exact Hv]); set_solver.
  - case_bool_decide as He; cbn in Hv; [right; left; done|left].
    apply VerifyBitbucket_spec in Hv; [|done]. eapply by_other; [by left| |exact Hv]. set_solver.
  - assert (detectProvider r = "generic") as Hg.
    { rewrite !elem_of_cons, elem_of_nil in Hc. naive_solver. }
    case_bool_decide as He; cbn in Hv.
    + case_bool_decide as He2; cbn in Hv; [right; right; done|left].
      apply VerifyBitbucket_spec in Hv; [|done]. eapply by_other; [by right| |exact Hv]. set_solver.
    + left. apply VerifyBitbucket_spec in Hv; [|done]. eapply by_other; [by right| |exact Hv]. set_solver.
Qed.

Lemma refused_not_published c : published (refused c) = None.
Proof. done. Qed.

(** What the receiver lets in: with a secret store, an event is published only for a webhook
    that has a stored secret and for a delivery that either carries its provider's proof
    over exactly the bytes received, or claims a provider that need not sign (Bitbucket or
    an unknown one) and has no signature header. *)
Theorem published_delivery_is_checked Unmarshal fails now between s id body r :
  published (HandleWebhook Unmarshal fails now between (Some s) id body r).2 ≠ None →
  ∃ b secret, body = Some b ∧ GetWebhookSecret fails s id = Some secret ∧
    (signed (read_limit b) secret r ∨ unsigned r).
Proof.
  unfold HandleWebhook, check, let_in. case_bool_decide; [done|]. destruct body as [b|]; [|done]. cbv zeta.
  destruct (GetWebhookSecret fails s id) as [secret|]; [|done].
  destruct (VerifySignature _ _ secret r) eqn:Hv; [|done]. intros _. exists b, secret.
  split; [done|]. split; [done|]. by apply VerifySignature_sound.
Qed.

Definition demo_store (hash : string) : KVStore :=
  {| rows := {[ ("webhooks", "shop") := {| data := Some (JObj [("secret_hash", JStr hash)]); expires_at := 0 |} ]};
     buckets := {[ "webhooks" ]} |}.
Definition no_faults : wh_call → stmt → bool := λ _ _, false.
Definition demo_decode : string → option json := λ _, Some (JObj [("branch", JStr "main")]).
Definition request (hs : list (string * string)) : Request :=
  {| Method := "POST"; Path := "/hooks/v1/shop"; Header := list_to_map hs; Cookies := ∅; RemoteAddr := "203.0.113.9:1" |}.

Lemma published_delivery_is_checked_witness :
  let r := request [("X-Gitlab-Event", "Push Hook"); ("X-Gitlab-Token", "k")] in
  published (HandleWebhook demo_decode no_faults 5 id (Some (demo_store "k")) "shop" (Some "{}") r).2 ≠ None ∧
  ∃ b secret, Some "{}" = Some b ∧ GetWebhookSecret no_faults (demo_store "k") "shop" = Some secret ∧
    (signed (read_limit b) secret r ∨ unsigned r).
Proof.
  cbv zeta. match goal with |- ?P ∧ _ => assert P as HP by (vm_compute; discriminate) end.
  split; [exact HP|]. exact (published_delivery_is_checked _ _ _ _ _ _ _ _ HP).
Defined.

(** Signing is optional: a request that names no provider and carries no signature is let in
    with any body that decodes, whatever secret the webhook has. *)
Lemma unsigned_delivery_is_let_in Unmarshal fails now between s id b secret j p :
  id ≠ "" → GetWebhookSecret fails s id = Some secret →
  Unmarshal (read_limit b) = Some j → parseGeneric j = Some p →
  Get (A := bool) (fails DedupRead) now s webhookDedupBucket
    (deliveryDedupKey id (read_limit b) (request [])) false ≠ Ok true →
  published (HandleWebhook Unmarshal fails now between (Some s) id (Some b) (request [])).2 =
    Some {| Pipeline.WebhookID := id; Pipeline.wBranch := pBranch p; Pipeline.wCommitSHA := pCommitSHA p |}.
Proof.
  intros Hid Hs Hj Hp Hg. unfold HandleWebhook, check, let_in. rewrite bool_decide_eq_false_2 by done. cbv zeta. rewrite Hs.
  assert (∀ k, HeaderGet (request []) k = "") as Hh by (intros k; unfold HeaderGet, request; cbn; by rewrite lookup_empty).
  assert (detectProvider (request []) = "generic") as Hd by (unfold detectProvider; by rewrite !Hh).
  assert (dispatch Unmarshal id (read_limit b) (request []) = {| status := 200; said := "received"; published :=
    Some {| Pipeline.WebhookID := id; Pipeline.wBranch := pBranch p; Pipeline.wCommitSHA := pCommitSHA p |} |}) as Hdis.
  { unfold dispatch. rewrite Hj, Hd. cbn. unfold parsePayload.
    rewrite !decide_False by (try (intros [?|?]); done). by rewrite Hp. }
  rewrite Hd. change (VerifySignature "generic" (read_limit b) secret (request [])) with true. cbn [negb].
  case_bool_decide; [by rewrite Hdis|]. destruct (Get _ _ _ _ _ _) as [[]|]; [done|by rewrite Hdis..].
Qed.

(** ** Replays *)

Record delivery := { at_ : Z; hook : string; raw : option string; req : Request }.

(** The key under which a delivery is remembered. *)
Definition key_of (d : delivery) : string :=
  deliveryDedupKey (hook d) (read_limit (default "" (raw d))) (req d).

(** The key is remembered at least until [T]. *)
Definition remembered (T : Z) (k : string) (s : KVStore) : Prop :=
  ∃ e, rows s !! (webhookDedupBucket, k) = Some {| data := Some (JBool true); expires_at := e |} ∧ T ≤ e.

(** The accesses of the handlers to the store, in the order in which they come: the checks and the
    records of whatever deliveries, each with the faults of the store at that time. *)
Inductive access := Checks (d : delivery) (F : wh_call → stmt → bool) | Records (d : delivery) (F : wh_call → stmt → bool).

Definition time_of (x : access) : Z := match x with Checks d _ | Records d _ => at_ d end.

Section Once.
Variable Unmarshal : string → option json.

Definition check_of (F : wh_call → stmt → bool) (s : KVStore) (d : delivery) : stage :=
  check Unmarshal F (at_ d) (Some s) (hook d) (raw d) (req d).

Definition record_of (F : wh_call → stmt → bool) (s : KVStore) (d : delivery) : KVStore :=
  default s (let_in Unmarshal F (at_ d) (Some s) (hook d) (key_of d) (read_limit (default "" (raw d))) (req d)).1.

Definition after (s : KVStore) (l : list access) : KVStore :=
  foldl (λ s x, match x with Checks _ _ => s | Records d F => record_of F s d end) s l.

Lemma remembered_seen F T k s now :
  F DedupRead Select = false → remembered T k s → now < T →
  Get (A := bool) (F DedupRead) now s webhookDedupBucket k false = Ok true.
Proof.
  intros HF (e & Hr & HT) Hn. unfold Get, sql. rewrite HF, Hr. unfold expired. cbn [expires_at data].
  rewrite (proj2 (Z.leb_gt e now)) by lia. by rewrite andb_false_r.
Qed.

(** A record of a delivery, of this key or of another, leaves the key remembered as long. *)
Lemma record_remembers F T k s d :
  remembered T k s → (key_of d = k → T ≤ at_ d + webhookDedupTTLSeconds) → 0 ≤ at_ d → at_ d + webhookDedupTTLSeconds ≤ max_int64 →
  remembered T k (record_of F s d).
Proof.
  intros Hrem Hk H0 Hmax. unfold record_of, let_in. cbn [fmap option_fmap option_map fst default from_option id].
  destruct (Set_ _ _ _ _ _ _ _) as [s' r] eqn:Hs. apply Set_spec in Hs as [[-> _]|(x & [= <-] & _ & ->)]; [done|]. cbn [fst].
  destruct (decide (key_of d = k)) as [Heq|Hne].
  - eexists. cbn [upsert rows]. rewrite Heq, lookup_insert_eq. split; [reflexivity|]. specialize (Hk Heq).
    unfold expiry, webhookDedupTTLSeconds in *. change (0 <? 600) with true. cbv iota. wrap_id. lia.
  - destruct Hrem as (e & Hr & HT). exists e. split; [|done]. cbn. by rewrite lookup_insert_ne by congruence.
Qed.

Lemma after_remembers T k l : ∀ s,
  remembered T k s → Forall (λ x, 0 ≤ time_of x ∧ time_of x + webhookDedupTTLSeconds ≤ max_int64 ∧ T ≤ time_of x + webhookDedupTTLSeconds) l →
  remembered T k (after s l).
Proof.
  induction l as [|[d F|d F] l IH]; intros s Hs Hl; [done|..]; apply Forall_cons in Hl as [(H0 & Hm & HT) Hl]; cbn [after foldl];
    apply IH; try done. by apply record_remembers.
Qed.

(** C33. A delivery is processed once: after a delivery was recorded, every delivery whose check comes in
    the next ten minutes, with the same identifier (or, without one, the same body) for the same
    webhook, publishes nothing, whatever checks and records of other deliveries come in between.
    The conditions: the record of the first does not fail (the failure of a later one is of no
    consequence), the read of the later check does not fail (a failed read lets the delivery in),
    and the clock does not go back.  Two deliveries that are checked before either is recorded
    are both let in. *)
Theorem delivery_published_once F s d l k d' F' :
  (∀ x, F DedupWrite x = false) → 0 ≤ at_ d → key_of d ≠ "" →
  Forall (λ x, at_ d ≤ time_of x < at_ d + webhookDedupTTLSeconds ∧ time_of x + webhookDedupTTLSeconds ≤ max_int64) l →
  l !! k = Some (Checks d' F') → F' DedupRead Select = false → key_of d' = key_of d →
  ∃ o, check_of F' (after (record_of F s d) (take k l)) d' = Answered o ∧ published o = None.
Proof.
  intros Hw H0 Hk Hl Hd' HF' Heq. destruct (Forall_lookup_1 _ _ _ _ Hl Hd') as [[Hlo Hhi] Hmax]. cbn [time_of] in *.
  assert (remembered (at_ d + webhookDedupTTLSeconds) (key_of d) (after (record_of F s d) (take k l))) as Hrem.
  { apply after_remembers.
    - unfold record_of, let_in. cbn [fmap option_fmap option_map fst default from_option id]. unfold Set_, sql. rewrite !Hw.
      eexists. cbn [fst upsert rows]. rewrite lookup_insert_eq. split; [reflexivity|]. unfold expiry, webhookDedupTTLSeconds in *. change (0 <? 600) with true. cbv iota. wrap_id. lia.
    - apply Forall_take. eapply Forall_impl; [exact Hl|]. intros x [[? ?] ?]. unfold webhookDedupTTLSeconds in *. cbn. lia. }
  unfold check_of, check. case_bool_decide; [by eexists|]. unfold key_of in Heq at 1. destruct (raw d') as [b|]; [|by eexists]. cbn [default from_option id] in Heq.
  cbv zeta. destruct (GetWebhookSecret F' _ (hook d')) as [secret|]; [|by eexists].
  destruct (VerifySignature _ _ secret _); [|by eexists]. cbn [negb]. rewrite Heq, (bool_decide_eq_false_2 _ Hk).
  rewrite (remembered_seen F' _ _ _ (at_ d') HF' Hrem Hhi). by eexists.
Qed.

End Once.

(** A delivery and its replay a minute later. *)
Definition demo_delivery (t : Z) : delivery :=
  {| at_ := t; hook := "shop"; raw := Some "{}"; req := request [("X-GitHub-Delivery", "42")] |}.

Lemma delivery_published_once_witness :
  check_of demo_decode no_faults (demo_store "k") (demo_delivery 100) = LetIn (key_of (demo_delivery 100)) "{}" ∧
  ∃ o, check_of demo_decode no_faults (record_of demo_decode no_faults (demo_store "k") (demo_delivery 100)) (demo_delivery 160) = Answered o ∧
    published o = None.
Proof.
  split; [vm_compute; reflexivity|].
  apply (delivery_published_once demo_decode no_faults (demo_store "k") (demo_delivery 100) [Checks (demo_delivery 160) no_faults] 0
    (demo_delivery 160) no_faults);
    [done|done|by vm_compute|repeat constructor; vm_compute; done|reflexivity|reflexivity|reflexivity].
Defined.

(** Two copies that are checked before either is recorded are both let in and both published. *)
Example overlapping_copies_both_published :
  let d := demo_delivery 100 in
  let d' := demo_delivery 101 in
  let s1 := record_of demo_decode no_faults (demo_store "k") d in
  check_of demo_decode no_faults (demo_store "k") d = LetIn (key_of d) "{}" ∧
  check_of demo_decode no_faults (demo_store "k") d' = LetIn (key_of d') "{}" ∧ key_of d' = key_of d ∧
  status (let_in demo_decode no_faults 100 (Some (demo_store "k")) "shop" (key_of d) "{}" (req d)).2 = 200 ∧
  published (let_in demo_decode no_faults 101 (Some s1) "shop" (key_of d') "{}" (req d')).2 =
    published (let_in demo_decode no_faults 100 (Some (demo_store "k")) "shop" (key_of d) "{}" (req d)).2.
Proof. vm_compute. done. Qed.

(** ** Rotating a secret *)

Lemma secret_of_record fails s id rec e :
  fails SecretRead Select = false → SecretHash rec ≠ "" →
  rows s !! ("webhooks", id) = Some {| data := Some (marshal rec); expires_at := e |} →
  GetWebhookSecret fails s id = Some (SecretHash rec).
Proof.
  intros Hf Hne Hr. unfold GetWebhookSecret. rewrite Hf, Hr. cbn [mbind option_bind data].
  change (Access.unwrap (marshal rec)) with (marshal rec). cbn [marshal secret_json].
  match goal with |- context [read_str ?k ?fs ?d] => change (read_str k fs d) with (Some (SecretHash rec)) end.
  cbn [mbind option_bind]. by rewrite decide_False.
Qed.

Lemma rotated_hash fails now kv app drawn kv' :
  (∀ c x, fails c x = false) → Rotate fails now kv (Ok app) drawn = (kv', 200, Some drawn) →
  ∃ s, kv' = Some s ∧ GetWebhookSecret fails s (Deploy.aID app) = Some (hashSecret drawn).
Proof.
  intros Hf. unfold Rotate, persistSecret. destruct kv as [s|]; [|done].
  assert (hashSecret drawn ≠ "") as Hne.
  { intros He. pose proof (Sha256.length_sha256_hex drawn) as Hl. unfold hashSecret in He. by rewrite He in Hl. }
  destruct (match Get _ _ _ _ _ _ with Ok rec => Some rec | Err _ => _ end) as [rec|]; [|done]. cbv zeta.
  destruct (Set_ _ _ _ _ _ _ _) as [s' r] eqn:Hs. apply Set_spec in Hs as [[-> Hr]|(x & [= <-] & -> & ->)].
  - rewrite Hr. done.
  - intros [= <-]. eexists. split; [done|]. eapply (secret_of_record _ _ _ {| recID := _; SecretHash := hashSecret drawn |});
      [done|done|]. cbn [upsert rows]. by rewrite lookup_insert_eq.
Qed.

(** A rotated secret does not work: the receiver checks deliveries with the stored hash of the
    secret, while the handler returns the secret itself for the provider's configuration.
    A GitLab delivery with the returned secret as its token is always refused, and a GitHub
    delivery signed with it is refused unless the two keys give the same signature. *)
Theorem rotated_secret_is_refused Unmarshal fails now kv app drawn kv' t between b r :
  (∀ c x, fails c x = false) → slen drawn = 44%nat →
  Rotate fails now kv (Ok app) drawn = (kv', 200, Some drawn) →
  (detectProvider r = "gitlab" ∧ HeaderGet r "X-Gitlab-Token" = drawn) ∨
  (detectProvider r = "github" ∧
   HeaderGet r "X-Hub-Signature-256" = "sha256=" +:+ signPayload (read_limit b) drawn ∧
   signPayload (read_limit b) drawn ≠ signPayload (read_limit b) (hashSecret drawn)) →
  published (HandleWebhook Unmarshal fails t between kv' (Deploy.aID app) (Some b) r).2 = None.
Proof.
  intros Hf Hl Hrot Hr. apply rotated_hash in Hrot as (s & -> & Hs); [|done].
  unfold HandleWebhook, check, let_in. case_bool_decide; [done|]. cbv zeta. rewrite Hs.
  assert (VerifySignature (detectProvider r) (read_limit b) (hashSecret drawn) r = false) as ->; [|done].
  unfold VerifySignature. destruct Hr as [[-> Ht]|(-> & Hsig & Hne)].
  - rewrite decide_False, decide_True by done. unfold VerifyGitLabToken. apply bool_decide_eq_false_2.
    rewrite Ht. intros He. pose proof (Sha256.length_sha256_hex drawn) as Hl'. unfold hashSecret in He.
    rewrite <- He in Hl'. lia.
  - rewrite decide_True by done. rewrite Hsig. apply not_true_is_false.
    rewrite VerifyGitHub_spec. intros Heq. apply Hne. exact (inj (String.append "sha256=") _ _ Heq).
Qed.

Definition demo_secret : string := "AAECAwQFBgcICQoLDA0ODxAREhMUFRYXGBkaGxwdHh8=".
Definition rotated_store : option KVStore :=
  (Rotate no_faults (Hour * 24 * 365 * 2024) (Some (demo_store "old")) (Ok Deploy.demo_app) demo_secret).1.1.
Definition gitlab_push : Request := request [("X-Gitlab-Event", "Push Hook"); ("X-Gitlab-Token", demo_secret)].

Lemma rotated_secret_is_refused_witness :
  published (HandleWebhook demo_decode no_faults 5 id rotated_store "shop" (Some "{}") gitlab_push).2 = None.
Proof.
  refine (rotated_secret_is_refused demo_decode no_faults (Hour * 24 * 365 * 2024) (Some (demo_store "old"))
    Deploy.demo_app demo_secret rotated_store 5 id "{}" gitlab_push (λ _ _, eq_refl) _ _ _).
  - vm_compute. reflexivity.
  - assert ((Rotate no_faults (Hour * 24 * 365 * 2024) (Some (demo_store "old")) (Ok Deploy.demo_app) demo_secret).1.2
            = 200) as H1 by (vm_compute; reflexivity).
    assert ((Rotate no_faults (Hour * 24 * 365 * 2024) (Some (demo_store "old")) (Ok Deploy.demo_app) demo_secret).2
            = Some demo_secret) as H2 by (vm_compute; reflexivity).
    unfold rotated_store. destruct (Rotate _ _ _ _ _) as [[kv c] o]. cbn [fst snd] in *. by rewrite H1, H2.
  - left. vm_compute. by split.
Defined.

(** ** Replaying a delivery *)

(** The replay of a delivery names its webhook freely: a request that passed the check for one
    application starts the build of whatever git application its path names, of any
    tenant. *)
Lemma replay_deploys_any_app E h own log w w' app :
  log ≠ "" → Deploy.GetApp E log w = (Ok app, w') → Deploy.SourceType app = "git" →
  Pipeline.frozen h (Deploy.aTenantID app) = false →
  ∃ e, Replay (Ok own) log = (202, Some e) ∧
    (Pipeline.on_webhook E h e w).2 = (Pipeline.deployGitApp E h app "webhook" "" w').2.
Proof.
  intros Hl Hg Hs Hf. unfold Replay. rewrite bool_decide_eq_false_2 by done. eexists. split; [done|].
  unfold Pipeline.on_webhook. cbn [Pipeline.WebhookID Pipeline.wBranch Pipeline.wCommitSHA].
  rewrite bool_decide_eq_false_2 by done. rewrite Deploy.bind_run, Hg. cbn [fst snd].
  rewrite (bool_decide_eq_true_2 _ Hs). cbn [negb]. rewrite andb_false_r. cbn [andb]. rewrite Hf.
  by rewrite Deploy.bind_run.
Qed.

(** ** Outbound webhooks *)

(** src/internal/api/handlers/event_webhooks.go:35-42 EventWebhookConfig *)
Record EventWebhookConfig := {
  wID : string; URL : string; wSecretHash : string; Events : list string; wActive : bool; wTenantID : string }.

Definition omitempty (k v : string) : list (string * json) := if bool_decide (v = "") then [] else [(k, JStr v)].

Definition enc_hook (w : EventWebhookConfig) : json :=
  JObj ([("id", JStr (wID w)); ("url", JStr (URL w))] ++ omitempty "secret_hash" (wSecretHash w) ++
        [("events", JArr (JStr <$> Events w)); ("active", JBool (wActive w))] ++ omitempty "tenant_id" (wTenantID w)).

Definition dec_strings (l : list json) : option (list string) :=
  mapM (λ j, match j with JStr s => Some s | JNull => Some "" | _ => None end) l.

Definition dec_hook (j : json) : option EventWebhookConfig :=
  match j with
  | JObj fs =>
      i ← read_str "id" fs ""; u ← read_str "url" fs ""; h ← read_str "secret_hash" fs "";
      e ← match jfield "events" fs with
          | None | Some JNull => Some []
          | Some (JArr l) => dec_strings l
          | Some _ => None
          end;
      a ← match jfield "active" fs with
          | None | Some JNull => Some false
          | Some (JBool b) => Some b
          | Some _ => None
          end;
      t ← read_str "tenant_id" fs "";
      Some {| wID := i; URL := u; wSecretHash := h; Events := e; wActive := a; wTenantID := t |}
  | JNull => Some {| wID := ""; URL := ""; wSecretHash := ""; Events := []; wActive := false; wTenantID := "" |}
  | _ => None
  end.

Abbreviation eventWebhookList := (list EventWebhookConfig).

#[global] Instance hooks_json : JSON eventWebhookList := {|
  representable := λ _, True;
  marshal := λ l, JObj [("webhooks", JArr (enc_hook <$> l))];
  unmarshal := λ d l,
    match d with
    | JObj fs => match jfield "webhooks" fs with
                 | None | Some JNull => Some l
                 | Some (JArr js) => mapM dec_hook js
                 | Some _ => None
                 end
    | JNull => Some l
    | _ => None
    end |}.

Lemma dec_strings_enc l : dec_strings (JStr <$> l) = Some l.
Proof. unfold dec_strings. induction l as [|s l IH]; [done|]. cbn in *. by rewrite IH. Qed.

Lemma dec_enc_hook w : dec_hook (enc_hook w) = Some w.
Proof.
  destruct w as [i u h e a t]. unfold enc_hook, dec_hook, omitempty.
  cbn [wID URL wSecretHash Events wActive wTenantID].
  pose proof (dec_strings_enc e) as He. generalize dependent (JStr <$> e). intros x He.
  case_bool_decide as Hh; case_bool_decide as Ht; cbv -[dec_strings]; rewrite He; by subst.
Qed.

#[global] Instance hooks_json_laws : JSONLaws eventWebhookList.
Proof.
  split. intros l d _. change (unmarshal (marshal l) d) with (mapM dec_hook (enc_hook <$> l)).
  apply mapM_fmap_Some, dec_enc_hook.
Qed.

(** src/internal/api/handlers/event_webhooks.go:52-54 webhookListKey *)
Definition webhookListKey (tenantID : string) : string := "tenant:" +:+ tenantID.

Definition IsMulticast (ip : GoNet.IP) : bool :=
  match GoNet.To4 ip with
  | Some (a :: _) => Z.land a 240 =? 224
  | Some [] => false
  | None => match ip with a :: _ => a =? 255 | [] => false end
  end.

Definition EqualFold (a b : string) : bool := bool_decide (ToLower a = ToLower b).

Definition internalHostnames : list string :=
  ["metadata.google.internal"; "metadata"; "metadata.ec2.internal"; "kubernetes.default";
   "kubernetes.default.svc"; "kubernetes.default.svc.cluster.local"].

(** The checks of the parsed address, link-local multicast being multicast: [None] is a text
    that is no URL.
    src/internal/api/handlers/event_webhooks.go:58-108 validateWebhookURL *)
Definition validateWebhookURL (url : option (string * string)) : bool :=
  match url with
  | None => false
  | Some (scheme, hostname) =>
      bool_decide (scheme = "https") && negb (bool_decide (hostname = "")) &&
      negb (existsb (EqualFold hostname) ["localhost"; "127.0.0.1"; "::1"; "0.0.0.0"; "[::1]"]) &&
      match GoNet.ParseIP hostname with
      | Some ip => negb (GoNet.IsPrivate ip || GoNet.IsLoopback ip || GoNet.IsLinkLocalUnicast ip || IsMulticast ip)
                   && negb (bool_decide (GoNet.IP_String ip = "169.254.169.254")
                            || bool_decide (GoNet.IP_String ip = "169.254.169.253"))
      | None => true
      end &&
      negb (existsb (λ i, EqualFold hostname i || HasSuffix (ToLower hostname) ("." +:+ ToLower i)) internalHostnames)
  end.

Example private_hosts_refused :
  (λ h, validateWebhookURL (Some ("https", h))) <$>
    ["10.0.0.1"; "192.168.1.9"; "LOCALHOST"; "169.254.169.254"; "fd00::1"; "a.metadata"; "hooks.example.com"] =
  [false; false; false; false; false; false; true].
Proof. by vm_compute. Qed.

(** The unspecified IPv6 address, which reaches the host itself, passes the checks. *)
Example unspecified_host_accepted : validateWebhookURL (Some ("https", "::")) = true.
Proof. by vm_compute. Qed.

Section Outbound.
Variable fails : stmt → bool.

Inductive hook_error := LimitReached | ListMissing.

Definition limit_reached : string := "webhook limit reached".
Definition list_missing : string := "webhook list missing".

(** The request: an address and its parsed form, a secret and the events.
    src/internal/api/handlers/event_webhooks.go:163-236 EventWebhookHandler.Create *)
Definition Hook_Create (now : Z) (kv : KVStore) (cl : option Access.Claims) (id drawn : string)
    (rq : option (string * option (string * string) * string * list string)) : KVStore * Z :=
  match cl with
  | None => (kv, 401)
  | Some cl =>
  match rq with
  | None => (kv, 400)
  | Some (url, parsed, secret, evs) =>
      if bool_decide (url = "") || bool_decide (evs = []) then (kv, 400)
      else if (2048 <? slen url)%nat || (50 <? length evs)%nat then (kv, 400)
      else if negb (validateWebhookURL parsed) then (kv, 400)
      else
        let secret := if bool_decide (secret = "") then drawn else secret in
        let wh := {| wID := id; URL := url; wSecretHash := hashSecret secret; Events := evs; wActive := true;
                     wTenantID := Access.TenantID cl |} in
        match Mutate fails now kv "event_webhooks" (webhookListKey (Access.TenantID cl)) ([] : eventWebhookList) 0
          (Some (λ _ l, if (20 <=? length l)%nat then Err limit_reached else Ok (l ++ [wh]))) with
        | (kv', Ok _) => (kv', 201)
        | (kv', Err (ErrCallback _)) => (kv', 409)
        | (kv', Err _) => (kv', 500)
        end
  end end.

(** src/internal/api/handlers/event_webhooks.go:239-277 EventWebhookHandler.Delete *)
Definition Hook_Delete (now : Z) (kv : KVStore) (cl : option Access.Claims) (id : string) : KVStore * Z :=
  match cl with
  | None => (kv, 401)
  | Some cl =>
      if bool_decide (id = "") then (kv, 400) else
      match Mutate fails now kv "event_webhooks" (webhookListKey (Access.TenantID cl)) ([] : eventWebhookList) 0
        (Some (λ ex l, if (ex : bool) then Ok (filter (λ w, wID w ≠ id) l) else Err list_missing)) with
      | (kv', Ok _) => (kv', 204)
      | (kv', Err (ErrCallback _)) => (kv', 204)
      | (kv', Err _) => (kv', 500)
      end
  end.

End Outbound.

(** The webhooks a tenant has. *)
Definition hooks_of (now : Z) (kv : KVStore) (tenant : string) : eventWebhookList :=
  match Get no_fault now kv "event_webhooks" (webhookListKey tenant) ([] : eventWebhookList) with
  | Ok l => l
  | Err _ => []
  end.

(** A read-modify-write either fails and changes nothing, or writes what the callback made of
    the value that was there. *)
Lemma Mutate_hooks fails now kv key f kv' r :
  Mutate fails now kv "event_webhooks" key ([] : eventWebhookList) 0 (Some f) = (kv', r) →
  kv' = kv ∨
  ∃ ex l l', f ex l = Ok l' ∧
    kv' = upsert (add_bucket kv "event_webhooks") "event_webhooks" key {| data := Some (marshal l'); expires_at := 0 |} ∧
    (l = [] ∨ l = match Get no_fault now kv "event_webhooks" key ([] : eventWebhookList) with Ok l => l | Err _ => [] end).
Proof.
  unfold Mutate, Get, sql, no_fault. destruct (fails Begin); [cbn; intros ?; simplify_eq; by left|].
  destruct (fails Select); [cbn; intros ?; simplify_eq; by left|].
  destruct (rows kv !! ("event_webhooks", key)) as [[d e]|] eqn:Hr.
  - unfold expired. cbn [expires_at data].
    destruct ((e =? 0) || (now <? e)) eqn:Hlive.
    + replace ((0 <? e) && (e <=? now)) with false by (symmetry; bools; lia).
      destruct (d ≫= λ d, unmarshal d []) as [l|] eqn:Hd; [|cbn; intros ?; simplify_eq; by left]. cbv beta iota; cbn [fst snd].
      destruct (f true l) as [l'|] eqn:Hf; [|cbn; intros ?; simplify_eq; by left].
      repeat case_match; intros ?; simplify_eq; try (by left); right; (eexists true, l, _; split; [done|split; [done|by right]]).
    + cbv beta iota; cbn [fst snd].
      destruct (f false []) as [l'|] eqn:Hf; [|cbn; intros ?; simplify_eq; by left].
      repeat case_match; intros ?; simplify_eq; try (by left); right; (eexists false, [], _; split; [done|split; [done|by left]]).
  - cbv beta iota; cbn [fst snd]. destruct (f false []) as [l'|] eqn:Hf; [|cbn; intros ?; simplify_eq; by left].
    repeat case_match; intros ?; simplify_eq; try (by left); right; (eexists false, [], _; split; [done|split; [done|by left]]).
Qed.

Lemma hooks_of_upsert now kv key l tenant :
  hooks_of now (upsert (add_bucket kv "event_webhooks") "event_webhooks" key
     {| data := Some (marshal (l : eventWebhookList)); expires_at := 0 |}) tenant =
  if decide (webhookListKey tenant = key) then l else hooks_of now kv tenant.
Proof.
  unfold hooks_of. rewrite Get_upsert by done. case_decide; [|done].
  cbn [andb Z.ltb Z.compare]. by rewrite unmarshal_marshal.
Qed.

Inductive hook_op := HCreate (now : Z) (cl : option Access.Claims) (id drawn : string)
    (rq : option (string * option (string * string) * string * list string))
| HDelete (now : Z) (cl : option Access.Claims) (id : string).

Definition hook_claims (o : hook_op) : option Access.Claims :=
  match o with HCreate _ cl _ _ _ | HDelete _ cl _ => cl end.
Definition hook_run (fails : stmt → bool) (kv : KVStore) (o : hook_op) : KVStore :=
  match o with
  | HCreate now cl id drawn rq => (Hook_Create fails now kv cl id drawn rq).1
  | HDelete now cl id => (Hook_Delete fails now kv cl id).1
  end.

(** One request: nothing changes, or the list of the caller's own tenant becomes one that is
    at most the limit or no longer than it was. *)
Lemma hook_run_spec fails kv o :
  hook_run fails kv o = kv ∨
  ∃ cl l' now, hook_claims o = Some cl ∧
    (length l' ≤ Nat.max 20 (length (hooks_of now kv (Access.TenantID cl))))%nat ∧
    hook_run fails kv o = upsert (add_bucket kv "event_webhooks") "event_webhooks"
      (webhookListKey (Access.TenantID cl)) {| data := Some (marshal (l' : eventWebhookList)); expires_at := 0 |}.
Proof.
  destruct o as [now [cl|] id drawn rq|now [cl|] id]; [|by left| |by left]; cbn [hook_run hook_claims].
  - unfold Hook_Create. destruct rq as [[[[url p] sec] evs]|]; [|by left].
    destruct (_ || _); [by left|]. destruct (_ || _); [by left|]. destruct (negb _); [by left|]. cbv zeta.
    destruct (Mutate _ _ _ _ _ _ _ _) as [kv' r] eqn:Hm. apply Mutate_hooks in Hm as [->|(ex & l & l' & Hf & -> & Hl)].
    + left. by destruct r as [|[]].
    + right. destruct (20 <=? length l)%nat eqn:H20; [done|]. injection Hf as <-. apply Nat.leb_gt in H20.
      eexists cl, _, now. split; [done|]. split; [|by destruct r as [|[]]].
      rewrite length_app. cbn. lia.
  - unfold Hook_Delete. case_bool_decide; [by left|].
    destruct (Mutate _ _ _ _ _ _ _ _) as [kv' r] eqn:Hm. apply Mutate_hooks in Hm as [->|(ex & l & l' & Hf & -> & Hl)].
    + left. by destruct r as [|[]].
    + right. destruct ex; [|done]. injection Hf as <-. eexists cl, _, now. split; [done|].
      split; [|by destruct r as [|[]]]. etrans; [apply length_filter|].
      destruct Hl as [->|Hl]; [cbn; lia|]. unfold hooks_of. rewrite <- Hl. lia.
Qed.

(** Outbound webhooks are confined to their tenant: whatever requests arrive and whichever
    statements fail, a tenant never has more than twenty, and requests of other tenants
    change none of them. *)
Theorem outbound_hooks_confined fails kv os tenant :
  (∀ t, (length (hooks_of t kv tenant) ≤ 20)%nat) →
  (∀ t, (length (hooks_of t (foldl (hook_run fails) kv os) tenant) ≤ 20)%nat) ∧
  (Forall (λ o, Access.TenantID <$> hook_claims o ≠ Some tenant) os →
   ∀ t, hooks_of t (foldl (hook_run fails) kv os) tenant = hooks_of t kv tenant).
Proof.
  revert kv. induction os as [|o os IH]; intros kv Hkv; [done|]. cbn [foldl].
  destruct (hook_run_spec fails kv o) as [->|(cl & l' & now & Hcl & Hlen & ->)].
  { destruct (IH kv Hkv) as [H1 H2]. split; [done|]. intros HF. inversion HF; subst. by apply H2. }
  match goal with |- context [foldl _ ?k os] => set (kv1 := k) end.
  assert (∀ t, hooks_of t kv1 tenant =
    if decide (webhookListKey tenant = webhookListKey (Access.TenantID cl)) then l' else hooks_of t kv tenant) as Hup
    by (intros t; apply hooks_of_upsert).
  destruct (IH kv1) as [H1 H2].
  - intros t. rewrite Hup. case_decide as Hk; [|done]. unfold webhookListKey in Hk.
    apply (inj (String.append "tenant:")) in Hk. rewrite <- Hk in Hlen. specialize (Hkv now). lia.
  - split; [done|]. intros HF t. inversion HF as [|? ? Ho HF']; subst. rewrite (H2 HF' t), Hup.
    rewrite decide_False; [done|]. unfold webhookListKey. intros Hk%(inj (String.append "tenant:")).
    apply Ho. rewrite Hcl. cbn. congruence.
Qed.

Definition demo_hook_op : hook_op :=
  HCreate 5 (Some Pipeline.demo_claims) "w1" "s" (Some ("https://hooks.example.com/x", Some ("https", "hooks.example.com"), "", ["app.deployed"])).

Lemma outbound_hooks_confined_witness :
  (∀ t, (length (hooks_of t (foldl (hook_run no_fault) empty_store [demo_hook_op]) "t") ≤ 20)%nat) ∧
  length (hooks_of 9 (foldl (hook_run no_fault) empty_store [demo_hook_op]) "t") = 1%nat.
Proof.
  split; [|by vm_compute].
  apply (outbound_hooks_confined no_fault empty_store [demo_hook_op] "t"). intros t.
  unfold hooks_of, Get, sql, no_fault, empty_store. cbn. rewrite lookup_empty. cbn. lia.
Defined.

End Webhooks.
