(* ===== verification/GoFloat.v ===== *)
(** * GoFloat: [float64] arithmetic, order and [%.nf] formatting

    The operations are the Standard Library's exact IEEE-754 ones at double precision.
    The comparison of [SpecFloat] is shown to be a strict order by way of a
    lexicographic key. *)

From Stdlib Require Import Floats.SpecFloat.
From S2P Require Import Prelude GoStrings GoTime.
#[local] Open Scope Z_scope.

Module GoFloat.

Definition f64 : Type := spec_float.
Definition f64_zero : f64 := S754_zero false.
Definition f64_add (x y : f64) : f64 := SFadd 53 1024 x y.
Definition f64_ltb (x y : f64) : bool := SFltb x y.
Definition f64_leb (x y : f64) : bool := SFleb x y.
Definition f64_eqb (x y : f64) : bool := SFeqb x y.

(** Neither an infinity nor NaN: what [encoding/json] can write. *)
Definition f64_finite (x : f64) : bool :=
  match x with S754_zero _ | S754_finite _ _ _ => true | _ => false end.

(** ** The order *)

(** NaN has no key; the others are ordered by class, exponent and mantissa. *)
Definition fkey (x : f64) : option (Z * Z * Z) :=
  match x with
  | S754_nan => None
  | S754_infinity true => Some (-2, 0, 0)
  | S754_finite true m e => Some (-1, - e, - Z.pos m)
  | S754_zero _ => Some (0, 0, 0)
  | S754_finite false m e => Some (1, e, Z.pos m)
  | S754_infinity false => Some (2, 0, 0)
  end.

Definition key_lt (a b : Z * Z * Z) : Prop :=
  let '(a1, a2, a3) := a in let '(b1, b2, b3) := b in
  a1 < b1 ∨ a1 = b1 ∧ (a2 < b2 ∨ a2 = b2 ∧ a3 < b3).

Lemma key_compare x y a b :
  fkey x = Some a → fkey y = Some b →
  ∃ c, SFcompare x y = Some c ∧
       match c with Lt => key_lt a b | Eq => a = b | Gt => key_lt b a end.
Proof.
  unfold fkey. intros Hx Hy.
  destruct x as [sx|[]| |[] mx ex], y as [sy|[]| |[] my ey]; simplify_eq/=; eexists; (split; [reflexivity|]); try (cbn; lia); try done.
  - destruct (Z.compare_spec ex ey); cbn; [subst|lia|lia].
    change (Pos.compare_cont Eq mx my) with (Pos.compare mx my).
    destruct (Pos.compare_spec mx my); cbn; [by subst|lia|lia].
  - destruct (Z.compare_spec ex ey); cbn; [subst|lia|lia].
    change (Pos.compare_cont Eq mx my) with (Pos.compare mx my).
    destruct (Pos.compare_spec mx my); cbn; [by subst|lia|lia].
Qed.

Lemma nan_compare x y : fkey x = None ∨ fkey y = None → SFcompare x y = None.
Proof. intros [H|H]; destruct x as [|[]| |[]], y as [|[]| |[]]; done. Qed.

Lemma key_lt_trans a b c : key_lt a b → key_lt b c → key_lt a c.
Proof. destruct a as [[??]?], b as [[??]?], c as [[??]?]. cbn. lia. Qed.

Lemma key_lt_irrefl a : ¬ key_lt a a.
Proof. destruct a as [[??]?]. cbn. lia. Qed.

Lemma key_lt_asym a b : key_lt a b → key_lt b a → False.
Proof. destruct a as [[??]?], b as [[??]?]. cbn. lia. Qed.

Lemma ltb_spec x y : f64_ltb x y = true ↔ ∃ a b, fkey x = Some a ∧ fkey y = Some b ∧ key_lt a b.
Proof.
  unfold f64_ltb, SFltb. destruct (fkey x) as [a|] eqn:Hx, (fkey y) as [b|] eqn:Hy.
  2-4: rewrite nan_compare by auto; split; [done|intros (? & ? & ? & ? & _); congruence].
  destruct (key_compare x y a b Hx Hy) as (c & -> & Hc).
  split; [destruct c; try done; intros _; by exists a, b|].
  intros (? & ? & ? & ? & Hlt). simplify_eq.
  destruct c; [subst; by apply key_lt_irrefl in Hlt|done|by destruct (key_lt_asym _ _ Hlt Hc)].
Qed.

Lemma leb_spec x y :
  f64_leb x y = true ↔ ∃ a b, fkey x = Some a ∧ fkey y = Some b ∧ (key_lt a b ∨ a = b).
Proof.
  unfold f64_leb, SFleb. destruct (fkey x) as [a|] eqn:Hx, (fkey y) as [b|] eqn:Hy.
  2-4: rewrite nan_compare by auto; split; [done|intros (? & ? & ? & ? & _); congruence].
  destruct (key_compare x y a b Hx Hy) as (c & -> & Hc).
  split; [destruct c; try done; intros _; exists a, b; auto|].
  intros (? & ? & ? & ? & Hle). simplify_eq.
  destruct c; [done|done|]. destruct Hle as [Hlt|Hlt]; [by destruct (key_lt_asym _ _ Hlt Hc)|].
  subst. by apply key_lt_irrefl in Hc.
Qed.

(** A value at or above one bound is not below a smaller one. *)
Lemma leb_not_ltb t x r : f64_leb r t = true → f64_leb t x = true → f64_ltb x r = false.
Proof.
  intros (a & b & Hr & Ht & H1)%leb_spec (b' & c & Ht' & Hx & H2)%leb_spec.
  rewrite Ht in Ht'. injection Ht' as <-.
  destruct (f64_ltb x r) eqn:E; [|done].
  apply ltb_spec in E as (c' & a' & Hx' & Hr' & H3).
  rewrite Hx in Hx'. injection Hx' as <-. rewrite Hr in Hr'. injection Hr' as <-.
  assert (key_lt b a) by (destruct H2 as [?| ->]; [by eapply key_lt_trans|done]).
  destruct H1 as [?| ->]; [by destruct (key_lt_asym a b)|by destruct (key_lt_irrefl b)].
Qed.

(** ** [fmt.Sprintf("%.nf", x)] *)

(** The nearest integer to [n / d], halves to the even one. *)
Definition round_even (n d : Z) : Z :=
  let q := n / d in
  match (2 * (n mod d)) ?= d with
  | Lt => q
  | Gt => q + 1
  | Eq => if Z.even q then q else q + 1
  end.

Lemma round_even_near n d : 0 < d → - d ≤ 2 * (round_even n d * d - n) ≤ d.
Proof.
  intros Hd. unfold round_even. pose proof (Z.div_mod n d ltac:(lia)).
  pose proof (Z.mod_pos_bound n d Hd). destruct (Z.compare_spec (2 * (n mod d)) d); [destruct (Z.even _)| |]; nia.
Qed.

Definition pad_left (n : nat) (s : string) : string := str (replicate (n - slen s) "0"%char ++ bytes s).

Definition fixed_digits (prec : nat) (v : Z) : string :=
  let p := 10 ^ Z.of_nat prec in
  itoa (v / p) +:+ (if decide (prec = O) then "" else "." +:+ pad_left prec (itoa (v mod p))).

Definition FormatFixed (prec : nat) (x : f64) : string :=
  match x with
  | S754_nan => "NaN"
  | S754_infinity s => if s : bool then "-Inf" else "+Inf"
  | S754_zero s => (if s : bool then "-" else "") +:+ fixed_digits prec 0
  | S754_finite s m e =>
      let p := 10 ^ Z.of_nat prec in
      (if s : bool then "-" else "") +:+
      fixed_digits prec (if 0 <=? e then Z.shiftl (Z.pos m) e * p
                         else round_even (Z.pos m * p) (Z.shiftl 1 (- e)))
  end.

Example format_93 : FormatFixed 1 (GoTime.f64_div (GoTime.f64_of_Z 187) (GoTime.f64_of_Z 2)) = "93.5".
Proof. vm_compute. reflexivity. Qed.
Example format_half : FormatFixed 1 (GoTime.f64_div (GoTime.f64_of_Z 1) (GoTime.f64_of_Z 4)) = "0.2".
Proof. vm_compute. reflexivity. Qed.
Example format_two : FormatFixed 2 (GoTime.f64_div (GoTime.f64_of_Z 100001) (GoTime.f64_of_Z 1000)) = "100.00".
Proof. vm_compute. reflexivity. Qed.

End GoFloat.
