(* ===== verification/Autoscale.v ===== *)
(** * Autoscale: the evaluator of autoscaling rules ([internal/autoscale], [handlers/autoscale.go])

    Rules and decisions are rows of the key-value store, the replica count a column of the
    application.  One evaluation reads the load of an application's containers, the last
    decision and the rule, and moves the count by at most one. *)

From Stdlib Require Import Floats.SpecFloat.
From S2P Require Import Prelude GoStrings GoTime GoFloat KVStore Access.
#[local] Open Scope Z_scope.

Module Autoscale.
Import KV GoFloat GoTime.

(** ** Data *)

(** src/internal/autoscale/module.go:106-114 autoscaleConfig *)
Record autoscaleConfig := {
  Enabled : bool; MinReplicas : Z; MaxReplicas : Z; CPUTarget : Z; RAMTarget : Z;
  ScaleUpDelay : Z; ScaleDownDelay : Z }.

Definition no_config : autoscaleConfig :=
  {| Enabled := false; MinReplicas := 0; MaxReplicas := 0; CPUTarget := 0; RAMTarget := 0;
     ScaleUpDelay := 0; ScaleDownDelay := 0 |}.

Definition config_fields (c : autoscaleConfig) : list (string * json) :=
  [("enabled", JBool (Enabled c)); ("min_replicas", JNum (MinReplicas c));
   ("max_replicas", JNum (MaxReplicas c)); ("cpu_target_percent", JNum (CPUTarget c));
   ("ram_target_percent", JNum (RAMTarget c)); ("scale_up_delay_sec", JNum (ScaleUpDelay c));
   ("scale_down_delay_sec", JNum (ScaleDownDelay c))].

Definition read_config (fs : list (string * json)) (d : autoscaleConfig) : option autoscaleConfig :=
  en ← read_bool "enabled" fs (Enabled d);
  lo ← read_int "min_replicas" fs (MinReplicas d);
  hi ← read_int "max_replicas" fs (MaxReplicas d);
  ct ← read_int "cpu_target_percent" fs (CPUTarget d);
  rt ← read_int "ram_target_percent" fs (RAMTarget d);
  up ← read_int "scale_up_delay_sec" fs (ScaleUpDelay d);
  dn ← read_int "scale_down_delay_sec" fs (ScaleDownDelay d);
  Some {| Enabled := en; MinReplicas := lo; MaxReplicas := hi; CPUTarget := ct; RAMTarget := rt;
          ScaleUpDelay := up; ScaleDownDelay := dn |}.

Definition config_ints (c : autoscaleConfig) : list Z :=
  [MinReplicas c; MaxReplicas c; CPUTarget c; RAMTarget c; ScaleUpDelay c; ScaleDownDelay c].

#[export] Instance config_json : JSON autoscaleConfig := {|
  representable := λ c, Forall in_i64 (config_ints c);
  marshal := λ c, JObj (config_fields c);
  unmarshal := λ j d, match j with JObj fs => read_config fs d | JNull => Some d | _ => None end |}.

(** src/internal/api/handlers/autoscale.go:28-37 AutoscaleConfig *)
Record AutoscaleConfig := { rule : autoscaleConfig; LastDecision : option (list (string * json)) }.

(** An empty map is not written. *)
#[export] Instance handler_config_json : JSON AutoscaleConfig := {|
  representable := λ c, representable (rule c) ∧ LastDecision c ≠ Some [];
  marshal := λ c, JObj (config_fields (rule c) ++
                        match LastDecision c with
                        | None | Some [] => []
                        | Some fs => [("last_decision", JObj fs)]
                        end);
  unmarshal := λ j d,
    match j with
    | JNull => Some d
    | JObj fs =>
        r ← read_config fs (rule d);
        l ← match jfield "last_decision" fs with
            | None => Some (LastDecision d)
            | Some JNull => Some None
            | Some (JObj m) => Some (Some (default [] (LastDecision d) ++ m))
            | Some _ => None
            end;
        Some {| rule := r; LastDecision := l |}
    | _ => None
    end |}.

(** src/internal/autoscale/module.go:119-128 decision *)
Record decision := {
  dAppID : string; EvaluatedAt : instant; CPUPercent : f64; MemoryPercent : f64;
  dReplicas : Z; DesiredReps : Z; Action : string; Reason : string }.

Definition no_decision : decision :=
  {| dAppID := ""; EvaluatedAt := zero_time; CPUPercent := f64_zero; MemoryPercent := f64_zero;
     dReplicas := 0; DesiredReps := 0; Action := ""; Reason := "" |}.

#[export] Instance decision_json : JSON decision := {|
  representable := λ d, in_i64 (dReplicas d) ∧ in_i64 (DesiredReps d);
  marshal := λ d, JObj [("app_id", JStr (dAppID d)); ("evaluated_at", JTime (EvaluatedAt d));
    ("cpu_percent", JFloat (CPUPercent d)); ("memory_percent", JFloat (MemoryPercent d));
    ("replicas", JNum (dReplicas d)); ("desired_replicas", JNum (DesiredReps d));
    ("action", JStr (Action d)); ("reason", JStr (Reason d))];
  unmarshal := λ j d,
    match j with
    | JNull => Some d
    | JObj fs =>
        a ← read_str "app_id" fs (dAppID d);
        t ← read_time "evaluated_at" fs (EvaluatedAt d);
        c ← read_float "cpu_percent" fs (CPUPercent d);
        m ← read_float "memory_percent" fs (MemoryPercent d);
        r ← read_int "replicas" fs (dReplicas d);
        w ← read_int "desired_replicas" fs (DesiredReps d);
        x ← read_str "action" fs (Action d);
        y ← read_str "reason" fs (Reason d);
        Some {| dAppID := a; EvaluatedAt := t; CPUPercent := c; MemoryPercent := m;
                dReplicas := r; DesiredReps := w; Action := x; Reason := y |}
    | _ => None
    end |}.

Lemma read_config_fields fs c d :
  representable c → (∀ k v, (k, v) ∈ config_fields c → jfield k fs = Some v) →
  read_config fs d = Some c.
Proof.
  intros Hr Hf. cbn in Hr. unfold config_ints in Hr. rewrite !Forall_cons in Hr. destruct_and! Hr.
  unfold read_config.
  let field p := (rewrite (p c) by first [done | apply Hf; unfold config_fields; set_solver]) in
  field (λ c, read_bool_there "enabled" fs (Enabled d) (Enabled c));
  field (λ c, read_int_there "min_replicas" fs (MinReplicas d) (MinReplicas c));
  field (λ c, read_int_there "max_replicas" fs (MaxReplicas d) (MaxReplicas c));
  field (λ c, read_int_there "cpu_target_percent" fs (CPUTarget d) (CPUTarget c));
  field (λ c, read_int_there "ram_target_percent" fs (RAMTarget d) (RAMTarget c));
  field (λ c, read_int_there "scale_up_delay_sec" fs (ScaleUpDelay d) (ScaleUpDelay c));
  field (λ c, read_int_there "scale_down_delay_sec" fs (ScaleDownDelay d) (ScaleDownDelay c)).
  by destruct c.
Qed.

#[export] Instance config_laws : JSONLaws autoscaleConfig.
Proof.
  split. intros c d Hr. apply (read_config_fields (config_fields c)); [done|].
  intros k v Hkv. unfold config_fields in Hkv. set_unfold in Hkv.
  repeat (destruct Hkv as [[= -> ->]|Hkv]; [reflexivity|]). done.
Qed.

(** What the handler wrote, the evaluator reads. *)
Lemma evaluator_reads_rule (c : AutoscaleConfig) (d : autoscaleConfig) :
  representable (rule c) → unmarshal (marshal c) d = Some (rule c).
Proof.
  intros Hr. cbn [marshal unmarshal config_json handler_config_json]. apply read_config_fields; [done|].
  intros k v Hkv. unfold config_fields in Hkv |- *. set_unfold in Hkv.
  destruct (LastDecision c) as [[|]|]; repeat (destruct Hkv as [[= -> ->]|Hkv]; [reflexivity|]); done.
Qed.

#[export] Instance decision_laws : JSONLaws decision.
Proof.
  split. intros [? ? ? ? r w ? ?] d [Hr Hw]. cbn [unmarshal marshal decision_json]. cbn in Hr, Hw.
  read_fields. done.
Qed.

(** ** The evaluator *)

(** The columns of an application the evaluator reads or writes back. *)
Record App := { aTenant : string; aName : string; aStatus : string; Replicas : Z }.

(** [core.AppEventData] of an [app.scaled] event. *)
Record AppEventData := { evAppID : string; evAppName : string; evStatus : string }.

Record Platform := { kv : KVStore; apps : gmap string App; scaled : list AppEventData }.

(** How a container runtime answers one evaluation. *)
Record Runtime := { listed : option (list string); stats : string → option (f64 * f64) }.

(** The clock readings and the outcomes of one evaluation; errors carry their text. *)
Record tick := {
  started : instant; checked : instant; saved : instant;
  container : option Runtime;
  get_error : option string; update_error : option string;
  kv_read : stmt → bool; kv_write : stmt → bool;
  bus : bool }.

Definition EvalInterval : duration := 30 * Second.
Definition decisionBucket : string := "autoscale_decisions".
Definition decisionTTL : Z := 7 * 24 * 3600.

Definition with_kv (p : Platform) (s : KVStore) : Platform := {| kv := s; apps := apps p; scaled := scaled p |}.

(** A load that is not a number cannot be marshalled, and nothing is written then.
    src/internal/autoscale/module.go:275-291 Module.persist *)
Definition persist (e : tick) (p : Platform) (d : decision) : Platform :=
  with_kv p (Set_ (kv_write e) (time_unix (saved e)) (kv p) decisionBucket (dAppID d)
    (if f64_finite (CPUPercent d) && f64_finite (MemoryPercent d) then Some (marshal d) else None)
    decisionTTL).1.

(** src/internal/autoscale/module.go:293-302 Module.lastDecision *)
Definition lastDecision (e : tick) (p : Platform) (appID : string) : option decision :=
  match Get (kv_read e) (time_unix (checked e)) (kv p) decisionBucket appID no_decision with
  | Ok d => Some d
  | Err _ => None
  end.

(** The totals over the containers that answered, and how many did.
    src/internal/autoscale/module.go:196-206 Module.evaluate.samples *)
Fixpoint totals (rt : Runtime) (cs : list string) (cpu mem : f64) (n : Z) : f64 * f64 * Z :=
  match cs with
  | [] => (cpu, mem, n)
  | c :: cs =>
      match stats rt c with
      | None => totals rt cs cpu mem n
      | Some (c1, m1) => totals rt cs (f64_add cpu c1) (f64_add mem m1) (n + 1)
      end
  end.

(** The release level is 0.7 of the target. *)
Definition release (target : Z) : f64 := f64_mul (f64_of_Z target) (f64_div (f64_of_Z 7) (f64_of_Z 10)).
Definition at_target (load : f64) (target : Z) : bool := f64_leb (f64_of_Z target) load.
Definition below_release (load : f64) (target : Z) : bool := f64_ltb load (release target).

(** src/internal/autoscale/module.go:223-241 Module.evaluate.cooldown *)
Definition cooling (e : tick) (cfg : autoscaleConfig) (last : option decision) : option string :=
  match last with
  | None => None
  | Some l =>
      let age := time_sub (checked e) (EvaluatedAt l) in
      if decide (Action l = "scale_up") then
        if age <? i64 (ScaleUpDelay cfg * Second) then Some "scale-up cooldown" else None
      else if decide (Action l = "scale_down") then
        if age <? i64 (ScaleDownDelay cfg * Second) then Some "scale-down cooldown" else None
      else None
  end.

Definition pct (x : f64) : string := FormatFixed 1 x +:+ "%".

(** The new count, the action and its reason.
    src/internal/autoscale/module.go:243-255 Module.evaluate.switch *)
Definition choose (cfg : autoscaleConfig) (cpu mem : f64) (reps : Z) : Z * string * string :=
  let load := "cpu=" +:+ pct cpu +:+ " mem=" +:+ pct mem in
  if (at_target cpu (CPUTarget cfg) || at_target mem (RAMTarget cfg)) && (reps <? MaxReplicas cfg) then
    (reps + 1, "scale_up",
     load +:+ " (cpu_target=" +:+ itoa (CPUTarget cfg) +:+ " mem_target=" +:+ itoa (RAMTarget cfg) +:+ ")")
  else if below_release cpu (CPUTarget cfg) && below_release mem (RAMTarget cfg)
          && (MinReplicas cfg <? reps) then
    (reps - 1, "scale_down",
     load +:+ " (release thresholds " +:+ pct (release (CPUTarget cfg)) +:+ " / "
       +:+ pct (release (RAMTarget cfg)) +:+ ")")
  else (reps, "hold", load).

(** [UPDATE applications] with the record [GetApp] read. *)
Definition UpdateApp (e : tick) (p : Platform) (id : string) (a : App) : Platform * option string :=
  match update_error e with
  | Some x => (p, Some x)
  | None => ({| kv := kv p; apps := if decide (is_Some (apps p !! id)) then <[id := a]> (apps p) else apps p;
                scaled := scaled p |}, None)
  end.

Definition with_replicas (a : App) (r : Z) : App :=
  {| aTenant := aTenant a; aName := aName a; aStatus := aStatus a; Replicas := r |}.

Definition announce (e : tick) (p : Platform) (id : string) (a : App) : Platform :=
  if bus e then {| kv := kv p; apps := apps p;
                   scaled := scaled p ++ [{| evAppID := id; evAppName := aName a; evStatus := aStatus a |}] |}
  else p.

(** src/internal/autoscale/module.go:165-273 Module.evaluate *)
Definition evaluate (e : tick) (p : Platform) (appID : string) (cfg : autoscaleConfig) : Platform :=
  let record cpu mem reps want action reason :=
    {| dAppID := appID; EvaluatedAt := started e; CPUPercent := cpu; MemoryPercent := mem;
       dReplicas := reps; DesiredReps := want; Action := action; Reason := reason |} in
  let skip reps reason := persist e p (record f64_zero f64_zero reps reps "skip" reason) in
  match container e with
  | None => skip 0 "container runtime not available"
  | Some rt =>
  match match get_error e with Some x => Err x
        | None => match apps p !! appID with Some a => Ok a | None => Err "not found" end end with
  | Err x => skip 0 ("app lookup failed: " +:+ x)
  | Ok app =>
  match listed rt with
  | None | Some [] => skip (Replicas app) "no containers running"
  | Some cs =>
      let '(tc, tm, n) := totals rt cs f64_zero f64_zero 0 in
      if n =? 0 then skip (Replicas app) "no stats samples" else
      let cpu := f64_div tc (f64_of_Z n) in
      let mem := f64_div tm (f64_of_Z n) in
      match cooling e cfg (lastDecision e p appID) with
      | Some reason => persist e p (record cpu mem (Replicas app) (Replicas app) "cooldown" reason)
      | None =>
          let '(want, action, reason) := choose cfg cpu mem (Replicas app) in
          if want =? Replicas app then persist e p (record cpu mem (Replicas app) want action reason)
          else
            let app' := with_replicas app want in
            match UpdateApp e p appID app' with
            | (p', Some x) => persist e p' (record cpu mem (Replicas app) want "skip" ("replica update failed: " +:+ x))
            | (p', None) =>
                persist e (announce e p' appID app') (record cpu mem (Replicas app) want action reason)
            end
      end
  end end end.

(** One wake-up: [list_fails] and [read_fails] are the store's outcomes on the rules, and
    every application gets the environment [env] gives it.
    src/internal/autoscale/module.go:135-160 Module.evaluateAll *)
Definition evaluateAll (now : Z) (list_fails : stmt → bool) (read_fails : string → stmt → bool)
    (env : string → tick) (p : Platform) : Platform :=
  match List_ list_fails now (kv p) "autoscale" with
  | Err _ => p
  | Ok keys =>
      foldl (λ p appID,
        match Get (read_fails appID) now (kv p) "autoscale" appID no_config with
        | Err _ => p
        | Ok cfg => if Enabled cfg then evaluate (env appID) p appID cfg else p
        end) p keys
  end.

(** ** The handlers *)

(** src/internal/api/handlers/autoscale.go:40-50 defaultAutoscaleConfig *)
Definition defaultAutoscaleConfig : AutoscaleConfig :=
  {| rule := {| Enabled := false; MinReplicas := 1; MaxReplicas := 10; CPUTarget := 80; RAMTarget := 85;
                ScaleUpDelay := 60; ScaleDownDelay := 300 |};
     LastDecision := None |}.

(** [requireTenantApp]: the status of a refusal, or the application's id. *)
Definition tenant_app (p : Platform) (cl : option Access.Claims) (id : string) (get_fails : bool) : result Z string :=
  match cl with
  | None => Err 401
  | Some cl =>
      if bool_decide (id = "") then Err 400
      else if get_fails then Err 500
      else match apps p !! id with
           | None => Err 404
           | Some a => if decide (aTenant a = Access.TenantID cl) then Ok id else Err 404
           end
  end.

(** A document read into a [map[string]any]. *)
#[export] Instance object_json : JSON (option (list (string * json))) := {|
  representable := λ _, True;
  marshal := λ m, match m with None => JNull | Some fs => JObj fs end;
  unmarshal := λ j d, match j with JNull => Some None | JObj fs => Some (Some fs) | _ => None end |}.

(** src/internal/api/handlers/autoscale.go:57-79 AutoscaleHandler.Get *)
Definition Handler_Get (now : Z) (rule_fails decision_fails : stmt → bool) (p : Platform)
    (app : result Z string) : result Z AutoscaleConfig :=
  id ←! app;
  let cfg :=
    match Get rule_fails now (kv p) "autoscale" id {| rule := no_config; LastDecision := None |} with
    | Err _ => defaultAutoscaleConfig
    | Ok c => if (MinReplicas (rule c) =? 0) && (MaxReplicas (rule c) =? 0) && (CPUTarget (rule c) =? 0)
              then defaultAutoscaleConfig else c
    end in
  match Get decision_fails now (kv p) decisionBucket id (None : option (list (string * json))) with
  | Ok (Some d) => Ok {| rule := rule cfg; LastDecision := Some d |}
  | _ => Ok cfg
  end.

(** The bounds are repaired, the targets and the delays are taken as they come.
    src/internal/api/handlers/autoscale.go:94-99 AutoscaleHandler.Update.clamp *)
Definition clamp (c : AutoscaleConfig) : AutoscaleConfig :=
  let r := rule c in
  let lo := if MinReplicas r <? 1 then 1 else MinReplicas r in
  let hi := if MaxReplicas r <? lo then lo else MaxReplicas r in
  {| rule := {| Enabled := Enabled r; MinReplicas := lo; MaxReplicas := hi; CPUTarget := CPUTarget r;
                RAMTarget := RAMTarget r; ScaleUpDelay := ScaleUpDelay r;
                ScaleDownDelay := ScaleDownDelay r |};
     LastDecision := LastDecision c |}.

(** [body] is the decoded request, fields it does not have being zero.
    src/internal/api/handlers/autoscale.go:82-112 AutoscaleHandler.Update *)
Definition Update (now : Z) (fails : stmt → bool) (p : Platform) (app : result Z string)
    (body : option AutoscaleConfig) : Platform * Z :=
  match app with
  | Err c => (p, c)
  | Ok id =>
  match body with
  | None => (p, 400)
  | Some cfg =>
      match Set_ fails now (kv p) "autoscale" id (Some (marshal (clamp cfg))) 0 with
      | (s, Err _) => (with_kv p s, 500)
      | (s, Ok _) => (with_kv p s, 200)
      end
  end end.

(** ** One evaluation *)

Lemma persist_apps e p d : apps (persist e p d) = apps p.
Proof. done. Qed.

Lemma announce_apps e p id a : apps (announce e p id a) = apps p.
Proof. unfold announce. by destruct (bus e). Qed.
Lemma announce_kv e p id a : kv (announce e p id a) = kv p.
Proof. unfold announce. by destruct (bus e). Qed.

(** Decisions are written to their own bucket. *)
Lemma persist_rows e p d b k : b ≠ decisionBucket → rows (kv (persist e p d)) !! (b, k) = rows (kv p) !! (b, k).
Proof.
  intros Hb. unfold persist, with_kv. cbn [kv].
  match goal with |- context [Set_ ?f ?t ?s ?x ?y ?v ?n] => destruct (Set_ f t s x y v n) as [s' r] eqn:E end.
  apply Set_spec in E as [[-> _]|(? & _ & _ & ->)]; cbn; [done|]. rewrite lookup_insert_ne; congruence.
Qed.

(** A move of the replica count the rule allows. *)
Definition moved (cfg : autoscaleConfig) (r r' : Z) : Prop :=
  r' = r + 1 ∧ r < MaxReplicas cfg ∨ r' = r - 1 ∧ MinReplicas cfg < r.

Lemma choose_moved cfg cpu mem r want action reason :
  choose cfg cpu mem r = (want, action, reason) → want = r ∨ moved cfg r want.
Proof. unfold choose, moved. repeat case_match; intros; simplify_eq; bools; naive_solver lia. Qed.

Lemma UpdateApp_kv e p id a : kv (UpdateApp e p id a).1 = kv p.
Proof. unfold UpdateApp. by destruct (update_error e). Qed.

(** An evaluation writes one decision, and at most moves the count of its application. *)
Lemma evaluate_frame e p id cfg :
  (∀ b k, b ≠ decisionBucket → rows (kv (evaluate e p id cfg)) !! (b, k) = rows (kv p) !! (b, k)) ∧
  (apps (evaluate e p id cfg) = apps p ∨
   ∃ a r, apps p !! id = Some a ∧ moved cfg (Replicas a) r ∧
          apps (evaluate e p id cfg) = <[id := with_replicas a r]> (apps p)).
Proof.
  unfold evaluate. destruct (container e) as [rt|]; [|split; [intros; by apply persist_rows|by left]].
  destruct (get_error e); [split; [intros; by apply persist_rows|by left]|].
  destruct (apps p !! id) as [app|] eqn:Happ; [|split; [intros; by apply persist_rows|by left]].
  destruct (listed rt) as [[|c cs]|]; try (split; [intros; by apply persist_rows|by left]).
  destruct (totals rt (c :: cs) f64_zero f64_zero 0) as [[tc tm] n].
  destruct (n =? 0); [split; [intros; by apply persist_rows|by left]|].
  destruct (cooling e cfg _); [split; [intros; by apply persist_rows|by left]|].
  destruct (choose cfg _ _ _) as [[want action] reason] eqn:Hc.
  apply choose_moved in Hc. destruct (want =? Replicas app) eqn:Hw;
    [split; [intros; by apply persist_rows|by left]|]. bools.
  destruct Hc as [|Hc]; [done|]. unfold UpdateApp. destruct (update_error e).
  { split; [intros; by apply persist_rows|by left]. }
  split; [intros; rewrite persist_rows, announce_kv by done; done|].
  right. exists app, want. split_and!; [done|done|]. rewrite persist_apps, announce_apps. cbn.
  by rewrite decide_True by eauto.
Qed.

(** Evaluations of one application under one rule. *)
Definition evaluations (cfg : autoscaleConfig) (id : string) (p : Platform) (es : list tick) : Platform :=
  foldl (λ p e, evaluate e p id cfg) p es.

Definition within (cfg : autoscaleConfig) (r0 r : Z) : Prop :=
  Z.min r0 (MinReplicas cfg) ≤ r ≤ Z.max r0 (MaxReplicas cfg).

Lemma evaluate_within cfg id e p a r0 :
  apps p !! id = Some a → within cfg r0 (Replicas a) →
  ∃ r, apps (evaluate e p id cfg) !! id = Some (with_replicas a r) ∧ within cfg r0 r ∧
       Z.abs (r - Replicas a) ≤ 1.
Proof.
  intros Ha Hw. destruct (evaluate_frame e p id cfg) as [_ [->|(a' & r & Ha' & Hm & ->)]].
  - exists (Replicas a). destruct a. cbn in *. split_and!; [done|done|lia].
  - simplify_eq. exists r. rewrite lookup_insert_eq. split; [done|]. unfold within, moved in *. lia.
Qed.

Lemma evaluate_others cfg id id' e p : id' ≠ id → apps (evaluate e p id cfg) !! id' = apps p !! id'.
Proof.
  intros Hne. destruct (evaluate_frame e p id cfg) as [_ [->|(? & ? & _ & _ & ->)]]; [done|].
  by rewrite lookup_insert_ne.
Qed.

Lemma evaluations_within cfg id r0 es : ∀ p a,
  apps p !! id = Some a → within cfg r0 (Replicas a) →
  ∃ r, apps (evaluations cfg id p es) !! id = Some (with_replicas a r) ∧ within cfg r0 r.
Proof.
  induction es as [|e es IH]; intros p a Ha Hw; cbn.
  { exists (Replicas a). by destruct a. }
  destruct (evaluate_within cfg id e p a r0 Ha Hw) as (r & Hr & Hrw & _).
  destruct (IH _ _ Hr Hrw) as (r' & Hr' & Hw'). by exists r'.
Qed.

(** However long it runs and whatever loads it sees, the evaluator of a rule keeps the replica
    count of an application between the rule's bounds (or the count it started from, if that
    was outside them), changes nothing else of the application, and touches no other one. *)
Theorem replicas_stay_in_band cfg id es p a :
  apps p !! id = Some a →
  (∃ r, apps (evaluations cfg id p es) !! id = Some (with_replicas a r) ∧ within cfg (Replicas a) r) ∧
  (∀ id', id' ≠ id → apps (evaluations cfg id p es) !! id' = apps p !! id').
Proof.
  intros Ha. split; [apply evaluations_within; [done|unfold within; lia]|].
  intros id' Hne. clear Ha. revert p. induction es as [|e es IH]; intros p; cbn; [done|].
  unfold evaluations in IH. by rewrite IH, evaluate_others.
Qed.

(** ** The saved rules *)

Definition sane (c : autoscaleConfig) : Prop := representable c ∧ 1 ≤ MinReplicas c ≤ MaxReplicas c.

Lemma clamp_sane c : representable (rule c) → sane (rule (clamp c)).
Proof.
  destruct c as [[en lo hi ct rt up dn] ld]. unfold sane. cbn. unfold config_ints. cbn.
  rewrite !Forall_cons. unfold in_i64, min_int64, max_int64. intros Hr. destruct_and! Hr.
  repeat case_match; bools; split_and!; try done; lia.
Qed.

(** What happens to the platform: a rule is saved, or the evaluator wakes. *)
Inductive op :=
| OUpdate (now : Z) (fails : stmt → bool) (cl : option Access.Claims) (id : string) (get_fails : bool)
    (body : option AutoscaleConfig)
| OWake (now : Z) (list_fails : stmt → bool) (read_fails : string → stmt → bool) (env : string → tick).

(** The numbers of a decoded body fit their Go types. *)
Definition op_ok (o : op) : Prop :=
  match o with
  | OUpdate _ _ _ _ _ (Some c) => representable (rule c)
  | _ => True
  end.

Definition run_op (p : Platform) (o : op) : Platform :=
  match o with
  | OUpdate now fails cl id get_fails body => (Update now fails p (tenant_app p cl id get_fails) body).1
  | OWake now lf rf env => evaluateAll now lf rf env p
  end.

Definition rules_sane (p : Platform) : Prop :=
  ∀ id r, rows (kv p) !! ("autoscale", id) = Some r →
    ∃ c : AutoscaleConfig, data r = Some (marshal c) ∧ sane (rule c).

Definition all_running (p : Platform) : Prop := ∀ id a, apps p !! id = Some a → 1 ≤ Replicas a.

Lemma sane_read fails now p id cfg :
  rules_sane p → Get fails now (kv p) "autoscale" id no_config = Ok cfg → sane cfg.
Proof.
  intros Hs. unfold Get, sql. destruct (fails Select); [done|].
  destruct (rows (kv p) !! _) as [r|] eqn:Hr; [|done]. destruct (expired now r); [done|].
  destruct (Hs _ _ Hr) as (c & -> & Hc).
  change (Some (marshal c) ≫= λ d, unmarshal d no_config) with (unmarshal (marshal c) no_config).
  rewrite evaluator_reads_rule by apply Hc. by intros [= <-].
Qed.

Lemma evaluate_invariant e p id cfg :
  sane cfg → rules_sane p → all_running p →
  rules_sane (evaluate e p id cfg) ∧ all_running (evaluate e p id cfg).
Proof.
  intros [_ Hc] Hs Ha. destruct (evaluate_frame e p id cfg) as [Hk Happs]. split.
  - intros i r Hr. rewrite Hk in Hr by done. by apply (Hs i).
  - intros i a Hi. destruct Happs as [E|(a0 & r & Ha0 & Hm & E)]; rewrite E in Hi; [by apply (Ha i)|].
    destruct (decide (i = id)) as [->|]; [rewrite lookup_insert_eq in Hi|rewrite lookup_insert_ne in Hi by done; by apply (Ha i)].
    simplify_eq. specialize (Ha _ _ Ha0). unfold moved in Hm. cbn. lia.
Qed.

Lemma run_op_invariant p o :
  op_ok o → rules_sane p → all_running p → rules_sane (run_op p o) ∧ all_running (run_op p o).
Proof.
  intros Ho Hs Ha. destruct o as [now fails cl id gf body|now lf rf env]; cbn [run_op].
  - unfold Update. destruct (tenant_app p cl id gf) as [i|]; [|by split]. destruct body as [c|]; [|by split].
    destruct (Set_ _ _ _ _ _ _ _) as [s r] eqn:E.
    assert (rules_sane (with_kv p s)) as Hs'.
    { apply Set_spec in E as [[-> _]|(d & [= <-] & _ & ->)]; [done|].
      intros j row. cbn -[marshal clamp]. rewrite lookup_insert_Some. intros [[_ <-]|[_ Hr]]; [|by apply (Hs j)].
      exists (clamp c). split; [done|]. by apply clamp_sane. }
    by destruct r.
  - unfold evaluateAll. destruct (List_ _ _ _ _) as [keys|]; [|by split]. revert p Hs Ha.
    induction keys as [|k keys IH]; intros p Hs Ha; [by split|]. cbn [foldl].
    destruct (Get _ _ _ _ _ _) as [cfg|] eqn:E; [|by apply IH].
    destruct (Enabled cfg); [|by apply IH].
    destruct (evaluate_invariant (env k) p k cfg) as [H1 H2]; eauto using sane_read.
Qed.

(** Whatever rules tenants save and whatever the evaluator measures, every saved rule has bounds
    [1 ≤ min ≤ max] and no application is ever scaled below one replica. *)
Theorem saved_rules_keep_apps_running os p :
  Forall op_ok os → rules_sane p → all_running p →
  rules_sane (foldl run_op p os) ∧ all_running (foldl run_op p os).
Proof.
  intros Ho. revert p. induction Ho as [|o os Ho _ IH]; intros p Hs Ha; cbn; [done|].
  destruct (run_op_invariant p o Ho Hs Ha) as [H1 H2]. by apply IH.
Qed.

(** ** Load *)

(** The averages one evaluation measures, if the runtime answers. *)
Definition measured (e : tick) : option (f64 * f64) :=
  match container e with
  | None => None
  | Some rt =>
      match listed rt with
      | None | Some [] => None
      | Some cs =>
          let '(tc, tm, n) := totals rt cs f64_zero f64_zero 0 in
          if n =? 0 then None else Some (f64_div tc (f64_of_Z n), f64_div tm (f64_of_Z n))
      end
  end.

(** Every target of a percentage is at or above its release level. *)
Lemma release_le_target t : 0 ≤ t ≤ 100 → f64_leb (release t) (f64_of_Z t) = true.
Proof.
  intros Ht. assert (forallb (λ t, f64_leb (release t) (f64_of_Z t)) (seqZ 0 101) = true) as H
    by (vm_compute; reflexivity).
  rewrite forallb_forall in H. apply H. apply list_elem_of_In, elem_of_seqZ. lia.
Qed.

(** A load at its target is not below its release level: the same load never asks for both. *)
Lemma hysteresis x t : 0 ≤ t ≤ 100 → at_target x t = true → below_release x t = false.
Proof. intros Ht Hx. by eapply leb_not_ltb; [apply release_le_target|]. Qed.

Definition percent_targets (cfg : autoscaleConfig) : Prop := 0 ≤ CPUTarget cfg ≤ 100 ∧ 0 ≤ RAMTarget cfg ≤ 100.

(** An evaluation that measures a load at a target and meets no error. *)
Record loaded (cfg : autoscaleConfig) (e : tick) : Prop := {
  l_get : get_error e = None;
  l_update : update_error e = None;
  l_write : ∀ s, kv_write e s = false;
  l_load : ∃ cpu mem, measured e = Some (cpu, mem) ∧ f64_finite cpu = true ∧ f64_finite mem = true ∧
             (at_target cpu (CPUTarget cfg) = true ∨ at_target mem (RAMTarget cfg) = true) }.

(** No evaluation finds the application in its cooldown. *)
Definition ready (cfg : autoscaleConfig) (p : Platform) (id : string) : Prop :=
  ∀ e, cooling e cfg (lastDecision e p id) = None.

Lemma evaluate_measured cfg e p id a cpu mem :
  get_error e = None → apps p !! id = Some a → measured e = Some (cpu, mem) →
  let record want action reason :=
    {| dAppID := id; EvaluatedAt := started e; CPUPercent := cpu; MemoryPercent := mem;
       dReplicas := Replicas a; DesiredReps := want; Action := action; Reason := reason |} in
  evaluate e p id cfg =
    match cooling e cfg (lastDecision e p id) with
    | Some reason => persist e p (record (Replicas a) "cooldown" reason)
    | None =>
        let '(want, action, reason) := choose cfg cpu mem (Replicas a) in
        if want =? Replicas a then persist e p (record want action reason)
        else match UpdateApp e p id (with_replicas a want) with
             | (p', Some x) => persist e p' (record want "skip" ("replica update failed: " +:+ x))
             | (p', None) => persist e (announce e p' id (with_replicas a want)) (record want action reason)
             end
    end.
Proof.
  intros Hg Ha Hm. unfold measured in Hm. unfold evaluate.
  destruct (container e) as [rt|]; [|done]. rewrite Hg, Ha.
  destruct (listed rt) as [[|c cs]|]; [done| |done].
  destruct (totals rt (c :: cs) f64_zero f64_zero 0) as [[tc tm] n]. destruct (n =? 0); [done|].
  injection Hm as <- <-. done.
Qed.

(** A cooldown decision that is written replaces the scaling decision it was made for. *)
Lemma cooldown_forgets cfg e p id d :
  (∀ s, kv_write e s = false) → representable d → dAppID d = id → Action d = "cooldown" →
  f64_finite (CPUPercent d) = true → f64_finite (MemoryPercent d) = true →
  ready cfg (persist e p d) id.
Proof.
  intros Hw Hr <- Ha Hc Hm e'. unfold lastDecision, persist, with_kv, Set_, sql. cbn [kv].
  rewrite Hc, Hm, !Hw. cbn [andb fst]. destruct (kv_read e' Select) eqn:Hf.
  { unfold Get, sql. by rewrite Hf. }
  rewrite Get_upsert, decide_True, unmarshal_marshal by done.
  destruct (_ && _); [done|]. unfold cooling. rewrite Ha. done.
Qed.

Lemma choose_loaded cfg cpu mem r :
  percent_targets cfg → r ≤ MaxReplicas cfg →
  at_target cpu (CPUTarget cfg) = true ∨ at_target mem (RAMTarget cfg) = true →
  (choose cfg cpu mem r).1.1 = Z.min (r + 1) (MaxReplicas cfg).
Proof.
  intros [Hct Hrt] Hr Hl. unfold choose.
  assert (at_target cpu (CPUTarget cfg) || at_target mem (RAMTarget cfg) = true) as ->
    by (destruct Hl as [->| ->]; [done|apply orb_true_r]).
  assert (below_release cpu (CPUTarget cfg) && below_release mem (RAMTarget cfg) = false) as ->
    by (destruct Hl as [Hl|Hl]; apply hysteresis in Hl; [by rewrite Hl|done|rewrite Hl; apply andb_false_r|done]).
  cbn [andb]. destruct (r <? MaxReplicas cfg) eqn:E; bools; cbn [fst]; lia.
Qed.

(** Under load an evaluation adds a replica, up to the maximum, or leaves the count and the
    application out of its cooldown. *)
Lemma loaded_step cfg e p id a :
  percent_targets cfg → loaded cfg e → in_i64 (MaxReplicas cfg) →
  apps p !! id = Some a → min_int64 ≤ Replicas a ≤ MaxReplicas cfg →
  let p' := evaluate e p id cfg in
  cooling e cfg (lastDecision e p id) = None ∧
    apps p' !! id = Some (with_replicas a (Z.min (Replicas a + 1) (MaxReplicas cfg))) ∨
  cooling e cfg (lastDecision e p id) ≠ None ∧ apps p' !! id = Some a ∧ ready cfg p' id.
Proof.
  intros Ht [Hg Hu Hw (cpu & mem & Hm & Hc & Hmm & Hl)] Hmax Ha Hr p'. subst p'.
  pose proof (choose_loaded cfg cpu mem (Replicas a) Ht (proj2 Hr) Hl) as Hch.
  rewrite (evaluate_measured cfg e p id a cpu mem Hg Ha Hm). cbv zeta.
  destruct (cooling e cfg _).
  { right. split_and!; [done|done|]. unfold in_i64 in *. apply cooldown_forgets; try done. cbn. unfold in_i64. lia. }
  left. split; [done|]. destruct (choose cfg cpu mem (Replicas a)) as [[want action] reason]. cbn in Hch.
  destruct (want =? Replicas a) eqn:E; bools.
  { rewrite persist_apps, Ha, <- Hch, E. by destruct a. }
  unfold UpdateApp. rewrite Hu, persist_apps, announce_apps. cbn [apps].
  by rewrite decide_True, lookup_insert_eq, Hch by eauto.
Qed.

(** Two evaluations under load add a replica, whatever the delays of the rule. *)
Lemma loaded_pair cfg e1 e2 p id a :
  percent_targets cfg → loaded cfg e1 → loaded cfg e2 → in_i64 (MaxReplicas cfg) →
  apps p !! id = Some a → min_int64 ≤ Replicas a ≤ MaxReplicas cfg →
  ∃ r, apps (evaluate e2 (evaluate e1 p id cfg) id cfg) !! id = Some (with_replicas a r) ∧
       Z.min (Replicas a + 1) (MaxReplicas cfg) ≤ r ≤ MaxReplicas cfg.
Proof.
  intros Ht H1 H2 Hmax Ha Hr. pose proof Hmax as [? ?].
  destruct (loaded_step cfg e1 p id a) as [[_ Ha1]|(_ & Ha1 & Hrd)]; [done..| |];
    destruct (loaded_step cfg e2 _ id _ Ht H2 Hmax Ha1) as [[_ Ha2]|(Hn & Ha2 & _)]; cbn in *; try lia.
  1-3: eexists; (split; [exact Ha2|]); cbn; lia.
  by rewrite Hrd in Hn.
Qed.

Lemma loaded_to_max cfg es id p a :
  percent_targets cfg → Forall (loaded cfg) es → in_i64 (MaxReplicas cfg) →
  apps p !! id = Some a → min_int64 ≤ Replicas a ≤ MaxReplicas cfg →
  2 * (MaxReplicas cfg - Replicas a) ≤ zlen es →
  apps (evaluations cfg id p es) !! id = Some (with_replicas a (MaxReplicas cfg)).
Proof.
  intros Ht Hes Hmax. assert (∃ n, (length es ≤ n)%nat) as [n Hn] by eauto.
  revert es p a Hes Hn. induction n as [n IH] using lt_wf_ind. intros es p a Hes Hn Ha Hr Hlen.
  destruct es as [|e1 [|e2 es]]; cbn [length] in *.
  - assert (Replicas a = MaxReplicas cfg) as <- by lia. cbn. rewrite Ha. by destruct a.
  - apply Forall_cons in Hes as [He _]. assert (Replicas a = MaxReplicas cfg) as Heq by lia. cbn.
    destruct (loaded_step cfg e1 p id a) as [[_ Ha1]|(_ & Ha1 & _)]; [done..| |]; rewrite Ha1, <- Heq.
    + f_equal. f_equal. lia.
    + by destruct a.
  - apply Forall_cons in Hes as [H1 [H2 Hes]%Forall_cons].
    destruct (loaded_pair cfg e1 e2 p id a) as (r & Ha2 & Hr2); [done..|].
    pose proof Hmax as [? ?].
    change (apps (evaluations cfg id (evaluate e2 (evaluate e1 p id cfg) id cfg) es) !! id =
            Some (with_replicas a (MaxReplicas cfg))).
    rewrite (IH (length es) ltac:(lia) es _ _ Hes ltac:(lia) Ha2); cbn; [done|lia|lia].
Qed.

(** Under a load that stays at a target the count reaches the maximum in two evaluations a
    replica and stays there, whatever delays the rule asks for: a decision to wait replaces
    the decision it waits for, so that no delay lasts longer than one evaluation. *)
Theorem sustained_load_reaches_max cfg es id p a :
  percent_targets cfg → Forall (loaded cfg) es → in_i64 (MaxReplicas cfg) →
  apps p !! id = Some a → min_int64 ≤ Replicas a ≤ MaxReplicas cfg →
  2 * (MaxReplicas cfg - Replicas a) ≤ zlen es →
  apps (evaluations cfg id p es) !! id = Some (with_replicas a (MaxReplicas cfg)).
Proof. apply loaded_to_max. Qed.

(** An evaluation without errors that measures some non-negative load. *)
Record idle (e : tick) : Prop := {
  i_get : get_error e = None;
  i_update : update_error e = None;
  i_write : ∀ s, kv_write e s = false;
  i_load : ∃ cpu mem, measured e = Some (cpu, mem) ∧ f64_finite cpu = true ∧ f64_finite mem = true ∧
             f64_leb f64_zero cpu = true }.

(** A rule whose body leaves out the CPU target is saved with the target 0, which every load
    meets: an application that does nothing is scaled to the maximum. *)
Theorem missing_target_scales_idle_app now fails p p' cl id body a es :
  Update now fails p (tenant_app p cl id false) (Some body) = (p', 200) →
  fails Select = false → representable (rule body) →
  CPUTarget (rule body) = 0 → 0 ≤ RAMTarget (rule body) ≤ 100 →
  apps p' !! id = Some a → min_int64 ≤ Replicas a ≤ MaxReplicas (rule (clamp body)) →
  Forall idle es → 2 * (MaxReplicas (rule (clamp body)) - Replicas a) ≤ zlen es →
  ∃ cfg, Get fails now (kv p') "autoscale" id no_config = Ok cfg ∧
         apps (evaluations cfg id p' es) !! id = Some (with_replicas a (MaxReplicas cfg)).
Proof.
  intros Hu Hf Hrep Hc Hm Ha Hr Hes Hlen. exists (rule (clamp body)). split.
  - unfold Update, tenant_app in Hu. repeat (case_match; simplify_eq).
    match goal with H : Set_ _ _ _ _ _ _ _ = _ |- _ => apply Set_spec in H as [[_ ?]|(d & Hd & _ & ->)] end; [done|].
    apply (inj Some) in Hd as <-.
    unfold with_kv. cbn [kv]. rewrite Get_upsert, decide_True by done. cbn [expiry Z.ltb Z.compare andb].
    rewrite evaluator_reads_rule; [done|]. by apply clamp_sane.
  - destruct (clamp_sane _ Hrep) as [Hci _]. cbn in Hci. unfold config_ints in Hci. rewrite !Forall_cons in Hci.
    apply loaded_to_max; [|apply (Forall_impl idle); [done|]|apply Hci|done..].
    + unfold percent_targets. change (CPUTarget (rule (clamp body))) with (CPUTarget (rule body)).
      change (RAMTarget (rule (clamp body))) with (RAMTarget (rule body)). lia.
    + intros e [? ? ? (cpu & mem & ? & ? & ? & Hz)]. split; try done.
      exists cpu, mem. split_and!; [done..|]. left. unfold at_target.
      change (CPUTarget (rule (clamp body))) with (CPUTarget (rule body)). by rewrite Hc.
Qed.

(** ** Examples *)

Definition demo_app (r : Z) : App := {| aTenant := "t1"; aName := "shop"; aStatus := "running"; Replicas := r |}.
Definition demo_platform (r : Z) : Platform :=
  {| kv := empty_store; apps := {[ "a1" := demo_app r ]}; scaled := [] |}.

(** An evaluation [n] intervals after a fixed day, with one container at the given loads. *)
Definition demo_tick (n : Z) (cpu mem : Z) : tick :=
  let t := 63900000000 * Second + n * EvalInterval in
  {| started := t; checked := t + 1; saved := t + 2;
     container := Some {| listed := Some ["c1"]; stats := λ _, Some (f64_of_Z cpu, f64_of_Z mem) |};
     get_error := None; update_error := None; kv_read := no_fault; kv_write := no_fault; bus := true |}.

Definition demo_rule (ct up : Z) : autoscaleConfig :=
  {| Enabled := true; MinReplicas := 1; MaxReplicas := 3; CPUTarget := ct; RAMTarget := 85;
     ScaleUpDelay := up; ScaleDownDelay := 300 |}.

Definition replicas_of (p : Platform) : option Z := Replicas <$> apps p !! "a1".

Lemma demo_loaded ct up n cpu mem :
  (∃ c m, measured (demo_tick n cpu mem) = Some (c, m) ∧ f64_finite c = true ∧ f64_finite m = true ∧
     (at_target c ct = true ∨ at_target m 85 = true)) →
  loaded (demo_rule ct up) (demo_tick n cpu mem).
Proof. by split. Qed.

(** With a delay of an hour, four evaluations within two minutes still scale from one
    replica to three. *)
Lemma sustained_load_reaches_max_witness :
  apps (evaluations (demo_rule 80 3600) "a1" (demo_platform 1)
          [demo_tick 0 95 40; demo_tick 1 95 40; demo_tick 2 95 40; demo_tick 3 95 40]) !! "a1" =
  Some (demo_app 3).
Proof.
  rewrite (sustained_load_reaches_max (demo_rule 80 3600) _ "a1" (demo_platform 1) (demo_app 1)); try done.
  - repeat (apply Forall_cons; split; [apply demo_loaded; vm_compute; eauto 10|]). done.
Defined.

Lemma replicas_stay_in_band_witness :
  ∃ r, apps (evaluations (demo_rule 80 60) "a1" (demo_platform 1) [demo_tick 0 95 40; demo_tick 9 1 1]) !! "a1" =
         Some (with_replicas (demo_app 1) r) ∧ within (demo_rule 80 60) 1 r.
Proof. apply (replicas_stay_in_band (demo_rule 80 60) "a1" _ (demo_platform 1) (demo_app 1)). reflexivity. Defined.

Example band_up_down :
  replicas_of (evaluations (demo_rule 80 60) "a1" (demo_platform 1) [demo_tick 0 95 40]) = Some 2 ∧
  replicas_of (evaluations (demo_rule 80 60) "a1" (demo_platform 1) [demo_tick 0 95 40; demo_tick 9 1 1]) = Some 1.
Proof. vm_compute. done. Qed.

Definition demo_claims : Access.Claims :=
  {| Access.UserID := "u1"; Access.TenantID := "t1"; Access.RoleID := "role_owner"; Access.ID := "j1";
     Access.ExpiresAt := None |}.

(** [{"enabled": true, "max_replicas": 2, "ram_target_percent": 85}]. *)
Definition demo_body : AutoscaleConfig :=
  {| rule := {| Enabled := true; MinReplicas := 0; MaxReplicas := 2; CPUTarget := 0; RAMTarget := 85;
                ScaleUpDelay := 0; ScaleDownDelay := 0 |}; LastDecision := None |}.
Definition demo_saved : Platform :=
  (Update 1000 no_fault (demo_platform 1) (tenant_app (demo_platform 1) (Some demo_claims) "a1" false)
     (Some demo_body)).1.

Lemma missing_target_scales_idle_app_witness :
  ∃ cfg, Get no_fault 1000 (kv demo_saved) "autoscale" "a1" no_config = Ok cfg ∧
         apps (evaluations cfg "a1" demo_saved [demo_tick 0 0 0; demo_tick 1 0 0]) !! "a1" =
         Some (with_replicas (demo_app 1) (MaxReplicas cfg)).
Proof.
  apply (missing_target_scales_idle_app 1000 no_fault (demo_platform 1) demo_saved (Some demo_claims) "a1"
           demo_body (demo_app 1)); try done.
  - repeat constructor; done.
  - repeat (apply Forall_cons; split; [split; try done; vm_compute; eauto 10|]). done.
Defined.

Lemma saved_rules_keep_apps_running_witness :
  rules_sane (foldl run_op (demo_platform 1)
    [OUpdate 1000 no_fault (Some demo_claims) "a1" false (Some demo_body);
     OWake 1030 no_fault (λ _, no_fault) (λ _, demo_tick 0 0 0)]) ∧
  all_running (foldl run_op (demo_platform 1)
    [OUpdate 1000 no_fault (Some demo_claims) "a1" false (Some demo_body);
     OWake 1030 no_fault (λ _, no_fault) (λ _, demo_tick 0 0 0)]).
Proof.
  apply (saved_rules_keep_apps_running
    [OUpdate 1000 no_fault (Some demo_claims) "a1" false (Some demo_body);
     OWake 1030 no_fault (λ _, no_fault) (λ _, demo_tick 0 0 0)] (demo_platform 1)).
  - repeat constructor; done.
  - intros id r. cbn. by rewrite lookup_empty.
  - intros id a Ha. apply (lookup_singleton_Some "a1" id (demo_app 1)) in Ha as [_ <-]. cbn. lia.
Defined.

End Autoscale.
