(* ===== verification/Monitor.v ===== *)
(** * Monitor: alert rules, metric rings and host statistics ([internal/resource])

    Module [Alerts] is the engine that compares a sample of the server with its rules,
    [Metrics] the rings of samples in the key-value store, [HostStats] the readers of
    [/proc]. *)

From Stdlib Require Import Floats.SpecFloat.
From S2P Require Import Prelude GoStrings GoTime GoScan GoFloat KVStore.
#[local] Open Scope Z_scope.

Module Alerts.
Import GoFloat GoTime.

(** src/internal/core/agent.go:79-91 ServerMetrics *)
Record ServerMetrics := {
  ServerID : string; Timestamp : instant; CPUPercent : f64; RAMUsedMB : Z; RAMTotalMB : Z;
  DiskUsedMB : Z; DiskTotalMB : Z; NetworkRxMB : Z; NetworkTxMB : Z; LoadAvg : list f64; Containers : Z }.

(** src/internal/resource/alerts.go:17-25 AlertRule *)
Record AlertRule := {
  Name : string; Metric : string; Operator : string; Threshold : f64; Duration : duration;
  Severity : string; Channels : list string }.

(** src/internal/resource/alerts.go:28-34 AlertState *)
Record AlertState := {
  Rule : AlertRule; Firing : bool; FiredAt : instant; ResolvedAt : instant; Value : f64 }.

(** src/internal/resource/alerts.go:101-107 AlertmanagerAlert *)
Record AlertmanagerAlert := {
  Labels : list (string * string); Annotations : list (string * string); StartsAt : instant;
  GeneratorURL : string }.

(** src/internal/resource/alerts.go:110-117 AlertEngine *)
Record AlertEngine := {
  rules : list AlertRule; states : gmap string AlertState; has_bus : bool; has_amClient : bool }.

(** [core.AlertEventData] with the event's type. *)
Record alert_event := {
  evType : string; evName : string; evSeverity : string; evMessage : string; evResource : string }.

Definition EventAlertTriggered : string := "alert.triggered".
Definition EventAlertResolved : string := "alert.resolved".

(** src/internal/resource/alerts.go:253-270 extractMetricValue *)
Definition extractMetricValue (metric : string) (m : ServerMetrics) : f64 :=
  let percent used total :=
    if 0 <? total then f64_mul (f64_div (f64_of_Z used) (f64_of_Z total)) (f64_of_Z 100) else f64_zero in
  if decide (metric = "cpu_percent") then CPUPercent m
  else if decide (metric = "ram_percent") then percent (RAMUsedMB m) (RAMTotalMB m)
  else if decide (metric = "disk_percent") then percent (DiskUsedMB m) (DiskTotalMB m)
  else f64_zero.

(** src/internal/resource/alerts.go:273-288 evaluateCondition *)
Definition evaluateCondition (value : f64) (operator : string) (threshold : f64) : bool :=
  if decide (operator = ">") then f64_ltb threshold value
  else if decide (operator = ">=") then f64_leb threshold value
  else if decide (operator = "<") then f64_ltb value threshold
  else if decide (operator = "<=") then f64_leb value threshold
  else if decide (operator = "==") then f64_eqb value threshold
  else false.

(** src/internal/resource/alerts.go:153-158 AlertEngine.AddRule *)
Definition AddRule (ae : AlertEngine) (r : AlertRule) : AlertEngine :=
  {| rules := rules ae ++ [r];
     states := <[Name r := {| Rule := r; Firing := false; FiredAt := zero_time; ResolvedAt := zero_time;
                              Value := f64_zero |}]> (states ae);
     has_bus := has_bus ae; has_amClient := has_amClient ae |}.

(** src/internal/resource/alerts.go:133-147 NewAlertEngine.rules *)
Definition default_rules : list AlertRule :=
  [ {| Name := "high_cpu"; Metric := "cpu_percent"; Operator := ">"; Threshold := f64_of_Z 90;
       Duration := 5 * Minute; Severity := "warning"; Channels := ["email"; "slack"] |};
    {| Name := "disk_full"; Metric := "disk_percent"; Operator := ">"; Threshold := f64_of_Z 95;
       Duration := Minute; Severity := "critical"; Channels := ["email"; "slack"; "telegram"] |};
    {| Name := "high_memory"; Metric := "ram_percent"; Operator := ">"; Threshold := f64_of_Z 90;
       Duration := 5 * Minute; Severity := "warning"; Channels := ["email"; "slack"] |} ].

(** src/internal/resource/alerts.go:122-150 NewAlertEngine *)
Definition NewAlertEngine (bus : bool) : AlertEngine :=
  foldl AddRule {| rules := []; states := ∅; has_bus := bus; has_amClient := false |} default_rules.

(** src/internal/resource/alerts.go:161-165 AlertEngine.SetAlertmanagerClient *)
Definition SetAlertmanagerClient (ae : AlertEngine) (present : bool) : AlertEngine :=
  {| rules := rules ae; states := states ae; has_bus := has_bus ae; has_amClient := present |}.

(** What an evaluation sends out. *)
Inductive sent := ToBus (e : alert_event) | ToAlertmanager (a : AlertmanagerAlert).

Definition fired_alert (r : AlertRule) (v : f64) (now : instant) (m : ServerMetrics) : AlertmanagerAlert :=
  {| Labels := [("alertname", Name r); ("severity", Severity r); ("instance", ServerID m)];
     Annotations := [("summary", Name r +:+ " threshold exceeded"); ("value", FormatFixed 2 v)];
     StartsAt := now; GeneratorURL := "deploymonster://server/" +:+ ServerID m |}.
Definition fired_event (r : AlertRule) (m : ServerMetrics) : alert_event :=
  {| evType := EventAlertTriggered; evName := Name r; evSeverity := Severity r;
     evMessage := Name r +:+ " threshold exceeded"; evResource := ServerID m |}.
Definition resolved_event (r : AlertRule) (m : ServerMetrics) : alert_event :=
  {| evType := EventAlertResolved; evName := Name r; evSeverity := "info";
     evMessage := Name r +:+ " returned to normal"; evResource := ServerID m |}.

Definition publish (ae : AlertEngine) (e : alert_event) : list sent := if has_bus ae then [ToBus e] else [].

Definition with_states (ae : AlertEngine) (s : gmap string AlertState) : AlertEngine :=
  {| rules := rules ae; states := s; has_bus := has_bus ae; has_amClient := has_amClient ae |}.

Definition triggered (r : AlertRule) (m : ServerMetrics) : bool :=
  evaluateCondition (extractMetricValue (Metric r) m) (Operator r) (Threshold r).

(** The body of the loop, for one rule.
    src/internal/resource/alerts.go:173-241 AlertEngine.Evaluate.rule *)
Definition evaluate_rule (now : instant) (m : ServerMetrics) (ae : AlertEngine) (r : AlertRule)
  : AlertEngine * list sent :=
  let value := extractMetricValue (Metric r) m in
  match states ae !! Name r with
  | None => (ae, [])
  | Some st =>
      if triggered r m && negb (Firing st) then
        (with_states ae (<[Name r := {| Rule := Rule st; Firing := true; FiredAt := now;
                                        ResolvedAt := ResolvedAt st; Value := value |}]> (states ae)),
         (if has_amClient ae then [ToAlertmanager (fired_alert r value now m)] else []) ++
         publish ae (fired_event r m))
      else if negb (triggered r m) && Firing st then
        (with_states ae (<[Name r := {| Rule := Rule st; Firing := false; FiredAt := FiredAt st;
                                        ResolvedAt := now; Value := Value st |}]> (states ae)),
         publish ae (resolved_event r m))
      else (ae, [])
  end.

Fixpoint evaluate_rules (now : string → instant) (m : ServerMetrics) (ae : AlertEngine) (rs : list AlertRule)
  : AlertEngine * list sent :=
  match rs with
  | [] => (ae, [])
  | r :: rs =>
      let '(ae1, out1) := evaluate_rule (now (Name r)) m ae r in
      let '(ae2, out2) := evaluate_rules now m ae1 rs in
      (ae2, out1 ++ out2)
  end.

(** [now] is the clock at each rule.
    src/internal/resource/alerts.go:168-243 AlertEngine.Evaluate *)
Definition Evaluate (now : string → instant) (ae : AlertEngine) (m : ServerMetrics) : AlertEngine * list sent :=
  evaluate_rules now m ae (rules ae).

(** *** Delivery to Alertmanager *)

Inductive send_error := BadRequest | SendFailed (last : option Z).

(** [answer i] is what the [i]-th request got: a status, or no response.
    src/internal/resource/alerts.go:72-97 AlertmanagerClient.Send.loop *)
Fixpoint attempts (answer : nat → option Z) (i n : nat) (last : option Z) : result send_error unit * nat :=
  match n with
  | O => (Err (SendFailed last), O)
  | S n =>
      match answer i with
      | Some c => if (200 <=? c) && (c <? 300) then (Ok tt, 1%nat)
                  else let '(r, k) := attempts answer (S i) n (Some c) in (r, S k)
      | None => let '(r, k) := attempts answer (S i) n None in (r, S k)
      end
  end.

Definition send_retries : nat := 3.

(** The result and the number of requests made.
    src/internal/resource/alerts.go:62-98 AlertmanagerClient.Send *)
Definition Send (url : string) (valid : bool) (answer : nat → option Z) : result send_error unit * nat :=
  if decide (url = "") then (Ok tt, O)
  else if negb valid then (Err BadRequest, O)
  else attempts answer 0 send_retries None.

(** ** Properties *)

Definition good (c : Z) : bool := (200 <=? c) && (c <? 300).

Lemma attempts_spec answer n : ∀ i last r k,
  attempts answer i n last = (r, k) →
  (r = Ok tt ↔ ∃ j c, (j < n)%nat ∧ answer (i + j)%nat = Some c ∧ good c = true) ∧ (k ≤ n)%nat ∧
  ∀ j c, (S j < k)%nat → answer (i + j)%nat = Some c → good c = false.
Proof.
  induction n as [|n IH]; intros i last r k; cbn.
  { intros [= <- <-]. split_and!; [split; [done|intros (? & ? & ? & _); lia]|lia|lia]. }
  assert (∀ last', (answer i = None ∨ ∃ c, answer i = Some c ∧ good c = false) →
    (let '(r, k) := attempts answer (S i) n last' in (r, S k)) = (r, k) →
    (r = Ok tt ↔ ∃ j c, (j < S n)%nat ∧ answer (i + j)%nat = Some c ∧ good c = true) ∧ (k ≤ S n)%nat ∧
    ∀ j c, (S j < k)%nat → answer (i + j)%nat = Some c → good c = false) as Hnext.
  { intros last' Hi. destruct (attempts answer (S i) n last') as [r' k'] eqn:E. intros [= <- <-].
    destruct (IH _ _ _ _ E) as (Hr & Hk & Hb). split_and!; [|lia|].
    - rewrite Hr. split; intros (j & c & Hj & Ha & Hc).
      + exists (S j), c. rewrite Nat.add_succ_r. split_and!; [lia|done|done].
      + destruct j as [|j]; [rewrite Nat.add_0_r in Ha; naive_solver congruence|].
        exists j, c. rewrite Nat.add_succ_r in Ha. split_and!; [lia|done|done].
    - intros [|j] c Hj Ha; [rewrite Nat.add_0_r in Ha; naive_solver congruence|].
      rewrite Nat.add_succ_r in Ha. apply (Hb j); [lia|done]. }
  destruct (answer i) as [c|] eqn:Hi; [|apply Hnext; auto]. fold (good c).
  destruct (good c) eqn:Hc; [|apply Hnext; eauto]. intros [= <- <-].
  split_and!; [split; [intros _|done]|lia|lia]. exists O, c. rewrite Nat.add_0_r. split_and!; [lia|done|done].
Qed.

(** Delivery to Alertmanager makes at most three requests, stops at the first 2xx answer and
    succeeds exactly when there is one among them. *)
Theorem send_retries_bounded url answer r n :
  url ≠ "" → Send url true answer = (r, n) →
  (n ≤ 3)%nat ∧ (r = Ok tt ↔ ∃ j c, (j < 3)%nat ∧ answer j = Some c ∧ good c = true) ∧
  ∀ j c, (S j < n)%nat → answer j = Some c → good c = false.
Proof.
  intros Hu. unfold Send. rewrite decide_False by done. intros H.
  apply attempts_spec in H as (H1 & H2 & H3). by split_and!.
Qed.

(** The changes of a sequence of conditions: [true] where it begins to hold, [false] where it
    stops. *)
Fixpoint edges (was : bool) (l : list bool) : list bool :=
  match l with
  | [] => []
  | b :: l => (if eqb was b then [] else [b]) ++ edges b l
  end.

(** The alert events of one rule: [true] for triggered, [false] for resolved. *)
Definition alerts_of (name : string) (out : list sent) : list bool :=
  omap (λ s, match s with
             | ToBus e => if decide (evName e = name) then Some (bool_decide (evType e = EventAlertTriggered))
                          else None
             | ToAlertmanager _ => None
             end) out.

Lemma alerts_of_app name l1 l2 : alerts_of name (l1 ++ l2) = alerts_of name l1 ++ alerts_of name l2.
Proof. apply omap_app. Qed.

(** Whether a rule is firing. *)
Definition firing (ae : AlertEngine) (name : string) : option bool := Firing <$> states ae !! name.

Record engine_ok (ae : AlertEngine) : Prop := {
  names_distinct : NoDup (Name <$> rules ae);
  bus_there : has_bus ae = true }.

(** One rule: its own state follows the condition, others keep theirs. *)
Lemma evaluate_rule_spec now m ae r b ae' out :
  has_bus ae = true → firing ae (Name r) = Some b → evaluate_rule now m ae r = (ae', out) →
  rules ae' = rules ae ∧ has_bus ae' = true ∧ firing ae' (Name r) = Some (triggered r m) ∧
  alerts_of (Name r) out = edges b [triggered r m] ∧
  ∀ n, n ≠ Name r → firing ae' n = firing ae n ∧ alerts_of n out = [].
Proof.
  unfold firing, evaluate_rule, publish. intros Hbus Hst. rewrite Hbus.
  destruct (states ae !! Name r) as [st|] eqn:Hs; [|done]. injection Hst as <-.
  destruct (triggered r m) eqn:Ht, (Firing st) eqn:Hf; cbn [andb negb]; intros [= <- <-].
  1, 4: rewrite Hs; cbn; by rewrite Hf.
  - cbn [rules has_bus with_states states]. rewrite lookup_insert_eq, alerts_of_app. split_and!; try done.
    + destruct (has_amClient ae); cbn; by rewrite decide_True.
    + intros n Hn. rewrite lookup_insert_ne, alerts_of_app by done. split; [done|].
      destruct (has_amClient ae); cbn; by rewrite decide_False.
  - cbn [rules has_bus with_states states]. rewrite lookup_insert_eq. split_and!; try done.
    + cbn. by rewrite decide_True.
    + intros n Hn. rewrite lookup_insert_ne by done. split; [done|]. cbn. by rewrite decide_False.
Qed.

Lemma evaluate_rules_spec now m rs : ∀ ae ae' out,
  has_bus ae = true → NoDup (Name <$> rs) → (∀ r, r ∈ rs → is_Some (firing ae (Name r))) →
  evaluate_rules now m ae rs = (ae', out) →
  rules ae' = rules ae ∧ has_bus ae' = true ∧
  (∀ r b, r ∈ rs → firing ae (Name r) = Some b →
     firing ae' (Name r) = Some (triggered r m) ∧ alerts_of (Name r) out = edges b [triggered r m]) ∧
  (∀ n, n ∉ Name <$> rs → firing ae' n = firing ae n ∧ alerts_of n out = []).
Proof.
  induction rs as [|r rs IH]; intros ae ae' out Hbus Hnd Hsome; cbn.
  { intros [= <- <-]. split_and!; [done|done|set_solver|done]. }
  destruct (evaluate_rule _ m ae r) as [ae1 out1] eqn:E1. destruct (evaluate_rules now m ae1 rs) as [ae2 out2] eqn:E2.
  intros [= <- <-]. apply NoDup_cons in Hnd as [Hnotin Hnd].
  destruct (Hsome r) as [b0 Hb0]; [set_solver|].
  destruct (evaluate_rule_spec _ m ae r b0 _ _ Hbus Hb0 E1) as (Hr1 & Hbus1 & Hf1 & Ha1 & Ho1).
  assert (∀ r', r' ∈ rs → Name r' ≠ Name r) as Hne.
  { intros r' Hr' Heq. apply Hnotin. rewrite <- Heq. by apply list_elem_of_fmap_2. }
  destruct (IH ae1 ae2 out2 Hbus1 Hnd) as (Hr2 & Hbus2 & Hin & Hout); [|done|].
  { intros r' Hr'. destruct (Ho1 (Name r')) as [-> _]; [by apply Hne|]. apply Hsome. set_solver. }
  split_and!; [congruence|done| |].
  - intros r' b [->|Hr']%elem_of_cons Hb; rewrite alerts_of_app.
    + destruct (Hout (Name r)) as [-> ->]; [done|]. simplify_eq. by rewrite app_nil_r.
    + destruct (Ho1 (Name r')) as [Hf' ->]; [by apply Hne|]. apply Hin; [done|congruence].
  - intros n Hn. cbn in Hn. apply not_elem_of_cons in Hn as [Hn1 Hn2]. rewrite alerts_of_app.
    destruct (Hout n Hn2) as [-> ->], (Ho1 n Hn1) as [-> ->]. done.
Qed.

(** Samples one after the other. *)
Fixpoint evaluate_all (ae : AlertEngine) (ms : list ((string → instant) * ServerMetrics))
  : AlertEngine * list sent :=
  match ms with
  | [] => (ae, [])
  | (now, m) :: ms =>
      let '(ae1, out1) := Evaluate now ae m in
      let '(ae2, out2) := evaluate_all ae1 ms in
      (ae2, out1 ++ out2)
  end.

(** C38. Over any samples the events of a rule are exactly the changes of its condition, so that
    triggered and resolved alternate and a rule fires on its first sample over the threshold:
    the rule's duration plays no part. *)
Theorem alerts_are_edges ae ms r b :
  engine_ok ae → (∀ r, r ∈ rules ae → is_Some (firing ae (Name r))) →
  r ∈ rules ae → firing ae (Name r) = Some b →
  let '(ae', out) := evaluate_all ae ms in
  alerts_of (Name r) out = edges b (triggered r <$> ms.*2) ∧
  firing ae' (Name r) = Some (default b (last (triggered r <$> ms.*2))).
Proof.
  revert ae b. induction ms as [|[now m] ms IH]; intros ae b [Hnd Hbus] Hsome Hr Hb; cbn; [done|].
  unfold Evaluate. destruct (evaluate_rules now m ae (rules ae)) as [ae1 out1] eqn:E1.
  destruct (evaluate_rules_spec now m _ _ _ _ Hbus Hnd Hsome E1) as (Hrs & Hbus1 & Hin & _).
  destruct (Hin r b Hr Hb) as [Hf1 Ha1].
  specialize (IH ae1 (triggered r m)). destruct (evaluate_all ae1 ms) as [ae2 out2].
  destruct IH as [Ha2 Hf2]; [split; [by rewrite Hrs|done]| |by rewrite Hrs|done|].
  { intros r' Hr'. rewrite Hrs in Hr'. destruct (Hsome r' Hr') as [b' Hb'].
    destruct (Hin r' b' Hr' Hb') as [-> _]. eauto. }
  rewrite alerts_of_app, Ha1, Ha2. cbn. rewrite app_nil_r. split; [done|]. rewrite Hf2.
  f_equal. rewrite last_cons. by destruct (last _).
Qed.

Definition high_cpu : AlertRule :=
  {| Name := "high_cpu"; Metric := "cpu_percent"; Operator := ">"; Threshold := f64_of_Z 90;
     Duration := 5 * Minute; Severity := "warning"; Channels := ["email"; "slack"] |}.
Definition demo_sample (cpu : Z) : ServerMetrics :=
  {| ServerID := "local"; Timestamp := zero_time; CPUPercent := f64_of_Z cpu; RAMUsedMB := 1; RAMTotalMB := 4;
     DiskUsedMB := 1; DiskTotalMB := 4; NetworkRxMB := 0; NetworkTxMB := 0; LoadAvg := []; Containers := 0 |}.
Definition demo_samples : list ((string → instant) * ServerMetrics) :=
  (λ c, (λ _, zero_time, demo_sample c)) <$> [50; 91; 99; 90; 95].

(** The five-minute rule fires on a single sample. *)
Lemma alerts_are_edges_witness :
  alerts_of "high_cpu" (evaluate_all (NewAlertEngine true) demo_samples).2 = [true; false; true].
Proof.
  pose proof (alerts_are_edges (NewAlertEngine true) demo_samples high_cpu false) as H.
  destruct (evaluate_all (NewAlertEngine true) demo_samples) as [ae out].
  destruct H as [H _]; [split; [apply (bool_decide_unpack _); vm_compute; exact I|done]| |set_solver|reflexivity|].
  - intros r Hr. cbn in Hr. set_unfold in Hr. destruct Hr as [->|[->|[->|[]]]]; vm_compute; eauto.
  - cbn [snd]. change "high_cpu" with (Name high_cpu). rewrite H. vm_compute. reflexivity.
Defined.

Lemma send_retries_bounded_witness :
  let answer i := if decide (i = 1%nat) then Some 200 else Some 503 in
  (Send "http://am" true answer).2 = 2%nat ∧ (2 ≤ 3)%nat.
Proof.
  cbv zeta. split; [vm_compute; reflexivity|].
  apply (send_retries_bounded "http://am" (λ i, if decide (i = 1%nat) then Some 200 else Some 503) (Ok tt) 2);
    [done|vm_compute; reflexivity].
Defined.

End Alerts.

Module Metrics.
Import KV GoFloat Alerts.

(** ** The collector *)

(** src/internal/core/agent.go:94-104 ContainerMetrics *)
Record ContainerMetrics := {
  mContainerID : string; mAppID : string; mTimestamp : instant; mCPU : f64; mRAMUsedMB : Z; mRAMLimitMB : Z;
  mNetworkRxMB : Z; mNetworkTxMB : Z; mPIDs : Z }.

Record ContainerStats := {
  sCPU : f64; sMemoryUsage : Z; sMemoryLimit : Z; sNetworkRx : Z; sNetworkTx : Z; sPIDs : Z }.

Record ContainerInfo := { iID : string; iState : string; iLabels : gmap string string }.

(** What the container runtime answers during one collection, and the clock at each container. *)
Record Runtime := {
  listing : option (list ContainerInfo);
  stats : string → option ContainerStats;
  clock : string → instant }.

Definition mb : Z := 1024 * 1024.

(** src/internal/resource/collector.go:123-147 Collector.CollectContainers.loop *)
Definition container_metrics (rt : Runtime) (c : ContainerInfo) : option ContainerMetrics :=
  if negb (bool_decide (iState c = "running")) then None
  else
    let app := default "" (iLabels c !! "monster.app.id") in
    Some match stats rt (iID c) with
         | None => {| mContainerID := iID c; mAppID := app; mTimestamp := clock rt (iID c); mCPU := f64_zero;
                      mRAMUsedMB := 0; mRAMLimitMB := 0; mNetworkRxMB := 0; mNetworkTxMB := 0; mPIDs := 0 |}
         | Some s => {| mContainerID := iID c; mAppID := app; mTimestamp := clock rt (iID c); mCPU := sCPU s;
                        mRAMUsedMB := sMemoryUsage s `quot` mb; mRAMLimitMB := sMemoryLimit s `quot` mb;
                        mNetworkRxMB := sNetworkRx s `quot` mb; mNetworkTxMB := sNetworkTx s `quot` mb;
                        mPIDs := sPIDs s |}
         end.

(** src/internal/resource/collector.go:108-151 Collector.CollectContainers *)
Definition CollectContainers (rt : option Runtime) : list ContainerMetrics :=
  match rt with
  | None => []
  | Some rt => match listing rt with None => [] | Some cs => omap (container_metrics rt) cs end
  end.

(** src/internal/resource/collector.go:153-164 Collector.countContainers *)
Definition countContainers (rt : option Runtime) : Z :=
  match rt ≫= listing with None => 0 | Some cs => zlen cs end.

(** Readings of the host, [None] where the provider failed; [sys_mb] is what the Go runtime
    has from the system, in MB. *)
Record Host := {
  h_now : instant; h_cpu : option f64; h_mem : option (Z * Z); h_disk : option (Z * Z);
  h_net : option (Z * Z); h_load : option (list f64); sys_mb : Z }.

(** src/internal/resource/collector.go:42-103 Collector.CollectServer *)
Definition CollectServer (rt : option Runtime) (h : Host) : ServerMetrics :=
  let mem := default (0, 0) (h_mem h) in
  let sys := if max_int64 <? sys_mb h then max_int64 else sys_mb h in
  let mem := if mem.2 =? 0 then (sys, sys) else mem in
  let disk := default (0, 0) (h_disk h) in
  let net := default (0, 0) (h_net h) in
  {| ServerID := "local"; Timestamp := h_now h; CPUPercent := default f64_zero (h_cpu h);
     RAMUsedMB := mem.1; RAMTotalMB := mem.2; DiskUsedMB := disk.1; DiskTotalMB := disk.2;
     NetworkRxMB := net.1; NetworkTxMB := net.2;
     LoadAvg := default [f64_zero; f64_zero; f64_zero] (h_load h); Containers := countContainers rt |}.

(** ** The rings *)

Definition maxRingPoints : nat := 288.

(** src/internal/resource/module.go:123-129 metricsPoint *)
Record metricsPoint := { pTime : instant; pCPU : f64; pMem : Z; pRx : Z; pTx : Z }.

Abbreviation metricsRing := (list metricsPoint).

Definition enc_point (p : metricsPoint) : json :=
  JObj [("timestamp", JTime (pTime p)); ("cpu_percent", JFloat (pCPU p)); ("memory_mb", JNum (pMem p));
        ("network_rx_mb", JNum (pRx p)); ("network_tx_mb", JNum (pTx p))].

Definition dec_point (j : json) : option metricsPoint :=
  let fs := match j with JObj fs => Some fs | JNull => Some [] | _ => None end in
  fs ← fs;
  t ← read_time "timestamp" fs zero_time; c ← read_float "cpu_percent" fs f64_zero;
  m ← read_int "memory_mb" fs 0; r ← read_int "network_rx_mb" fs 0; x ← read_int "network_tx_mb" fs 0;
  Some {| pTime := t; pCPU := c; pMem := m; pRx := r; pTx := x |}.

Definition point_ok (p : metricsPoint) : Prop := in_i64 (pMem p) ∧ in_i64 (pRx p) ∧ in_i64 (pTx p).

#[export] Instance ring_json : JSON metricsRing := {|
  representable := Forall point_ok;
  marshal := λ l, JObj [("points", JArr (enc_point <$> l))];
  unmarshal := λ j d,
    match j with
    | JNull => Some d
    | JObj fs => match jfield "points" fs with
                 | None => Some d
                 | Some JNull => Some []
                 | Some (JArr l) => mapM dec_point l
                 | Some _ => None
                 end
    | _ => None
    end |}.

#[export] Instance ring_laws : JSONLaws metricsRing.
Proof.
  split. intros l d Hl. cbn [representable ring_json] in Hl.
  change (unmarshal (marshal l) d) with (mapM dec_point (enc_point <$> l)).
  induction Hl as [|p l (Hm & Hr & Hx) _ IH]; [done|]. cbn [fmap list_fmap mapM]. rewrite IH.
  unfold dec_point, enc_point. cbn [mbind option_bind]. read_fields. by destruct p.
Qed.

(** The newest [maxRingPoints] points. *)
Definition trim (l : metricsRing) : metricsRing :=
  if (maxRingPoints <? length l)%nat then drop (length l - maxRingPoints) l else l.

(** A ring that cannot be read counts as empty.
    src/internal/resource/module.go:205-214 Module.appendPoint *)
Definition appendPoint (fails : stmt → bool) (now : Z) (s : KVStore) (key : string) (p : metricsPoint) : metricsRing :=
  trim (match Get fails now s "metrics_ring" key ([] : metricsRing) with Ok l => l | Err _ => [] end ++ [p]).

(** The points of one collection with their keys.
    src/internal/resource/module.go:168-193 Module.batchStoreMetrics.points *)
Definition points (server : option ServerMetrics) (cs : list ContainerMetrics) : list (string * metricsPoint) :=
  match server with
  | None => []
  | Some m => [("server:" +:+ ServerID m +:+ ":24h",
                {| pTime := Timestamp m; pCPU := CPUPercent m; pMem := RAMUsedMB m; pRx := 0; pTx := 0 |})]
  end ++
  omap (λ c, if decide (mAppID c = "") then None
             else Some (mAppID c +:+ ":24h",
                        {| pTime := mTimestamp c; pCPU := mCPU c; pMem := mRAMUsedMB c; pRx := mNetworkRxMB c;
                           pTx := mNetworkTxMB c |})) cs.

Definition ring_item (reads : string → stmt → bool) (now : Z) (s : KVStore) (kp : string * metricsPoint) : KVBatchItem :=
  let ring := appendPoint (reads kp.1) now s kp.1 kp.2 in
  {| iBucket := "metrics_ring"; iKey := kp.1;
     iValue := if forallb (λ p, f64_finite (pCPU p)) ring then Some (marshal ring) else None; iTTL := 0 |}.

(** Every ring is read before the one transaction that writes them all.
    src/internal/resource/module.go:161-202 Module.batchStoreMetrics *)
Definition batchStoreMetrics (reads : string → stmt → bool) (fails : stmt → bool) (now : Z) (s : KVStore)
    (server : option ServerMetrics) (cs : list ContainerMetrics) : KVStore :=
  (BatchSet fails now s (ring_item reads now s <$> points server cs)).1.

(** src/internal/resource/module.go:147-158 Module.collectOnce *)
Definition collectOnce (reads : string → stmt → bool) (fails : stmt → bool) (now : Z) (at_rule : string → instant)
    (ae : AlertEngine) (s : option KVStore) (rt : option Runtime) (h : Host)
  : AlertEngine * list sent * option KVStore :=
  let m := CollectServer rt h in
  let '(ae', out) := Evaluate at_rule ae m in
  (ae', out, (λ s, batchStoreMetrics reads fails now s (Some m) (CollectContainers rt)) <$> s).

(** ** Properties *)

(** The last [n] elements. *)
Definition newest {A} (n : nat) (l : list A) : list A := drop (length l - n) l.

Lemma trim_newest l : trim l = newest maxRingPoints l.
Proof.
  unfold trim, newest. destruct (maxRingPoints <? length l)%nat eqn:E; [done|].
  apply Nat.ltb_ge in E. by rewrite (proj2 (Nat.sub_0_le _ _) E).
Qed.

Lemma newest_app {A} n (l k : list A) : newest n (newest n l ++ k) = newest n (l ++ k).
Proof.
  unfold newest. rewrite !length_app, length_drop.
  destruct (decide (length l ≤ n)%nat) as [Hle|Hgt].
  - rewrite (proj2 (Nat.sub_0_le (length l) n) Hle), drop_0. f_equal. lia.
  - rewrite <- (drop_app_le l k (length l - n)) by lia. rewrite drop_drop. f_equal. lia.
Qed.

Lemma newest_short {A} n (l : list A) : (length l ≤ n)%nat → newest n l = l.
Proof. intros H. unfold newest. by rewrite (proj2 (Nat.sub_0_le _ _) H). Qed.

Lemma newest_length {A} n (l : list A) : (length (newest n l) ≤ n)%nat.
Proof. unfold newest. rewrite length_drop. lia. Qed.

Lemma Forall_newest {A} (P : A → Prop) n l : Forall P l → Forall P (newest n l).
Proof. apply Forall_drop. Qed.

(** The ring the store holds under a key. *)
Definition ring_at (now : Z) (s : KVStore) (key : string) : metricsRing :=
  match Get no_fault now s "metrics_ring" key ([] : metricsRing) with Ok l => l | Err _ => [] end.

(** The last point of a collection for a key. *)
Definition last_point (key : string) (ps : list (string * metricsPoint)) : option metricsPoint :=
  last (omap (λ kp, if decide (kp.1 = key) then Some kp.2 else None) ps).

Definition point_good (p : metricsPoint) : Prop := point_ok p ∧ f64_finite (pCPU p) = true.

(** Every ring is a document the module wrote, without expiry. *)
Definition rings_ok (s : KVStore) : Prop :=
  ∀ key r, rows s !! ("metrics_ring", key) = Some r →
    ∃ l : metricsRing, r = {| data := Some (marshal l); expires_at := 0 |} ∧ Forall point_good l ∧
      (length l ≤ maxRingPoints)%nat.

Lemma ring_row now s key (l : metricsRing) :
  Forall point_good l →
  rows s !! ("metrics_ring", key) = Some {| data := Some (marshal l); expires_at := 0 |} → ring_at now s key = l.
Proof.
  intros Hl Hr. unfold ring_at, Get, sql. cbn [no_fault]. rewrite Hr. unfold expired. cbn [expires_at data Z.ltb Z.compare andb].
  cbn [mbind option_bind]. rewrite unmarshal_marshal; [done|].
  cbn. apply (Forall_impl point_good); [done|]. by intros ? [].
Qed.

Lemma ring_good now s key : rings_ok s → Forall point_good (ring_at now s key).
Proof.
  intros Hs. destruct (rows s !! ("metrics_ring", key)) as [r|] eqn:Hr.
  - destruct (Hs _ _ Hr) as (l & -> & Hl & _). by rewrite (ring_row now s key l).
  - unfold ring_at, Get, sql. cbn [no_fault]. by rewrite Hr.
Qed.

Definition no_reads_fail : string → stmt → bool := λ _, no_fault.

Lemma ring_item_value now s key p :
  rings_ok s → point_good p →
  ring_item no_reads_fail now s (key, p) =
  {| iBucket := "metrics_ring"; iKey := key;
     iValue := Some (marshal (newest maxRingPoints (ring_at now s key ++ [p]))); iTTL := 0 |}.
Proof.
  intros Hs Hp. unfold ring_item. cbn [fst snd]. unfold appendPoint, no_reads_fail. fold (ring_at now s key).
  rewrite trim_newest. rewrite (proj2 (forallb_forall _ _)); [done|].
  intros q Hq%list_elem_of_In. assert (Forall point_good (newest maxRingPoints (ring_at now s key ++ [p]))) as Hg.
  { apply Forall_newest, Forall_app. split; [by apply ring_good|by apply Forall_singleton]. }
  rewrite Forall_forall in Hg. by apply Hg.
Qed.

(** The row the batch leaves: that of the last point for the key. *)
Lemma ring_batch_row now now' s ps key old :
  rings_ok s → Forall (λ kp, point_good kp.2) ps →
  batch_row now' (ring_item no_reads_fail now s <$> ps) ("metrics_ring", key) old =
  match last_point key ps with
  | None => old
  | Some p => Some {| data := Some (marshal (newest maxRingPoints (ring_at now s key ++ [p]))); expires_at := 0 |}
  end.
Proof.
  intros Hs Hps. revert old. induction Hps as [|[k p] ps Hp _ IH]; intros old; [done|].
  cbn [fmap list_fmap batch_row]. rewrite IH, ring_item_value by done. cbn [iBucket iKey iValue iTTL].
  unfold last_point. cbn [omap list_omap fst snd]. destruct (decide (k = key)) as [->|Hne].
  - rewrite decide_True by done. rewrite last_cons. by destruct (last _).
  - by rewrite decide_False by congruence.
Qed.

Lemma batch_store_rows now s server cs :
  rings_ok s → Forall (λ kp, point_good kp.2) (points server cs) →
  ∀ key, rows (batchStoreMetrics no_reads_fail no_fault now s server cs) !! ("metrics_ring", key) =
    match last_point key (points server cs) with
    | None => rows s !! ("metrics_ring", key)
    | Some p => Some {| data := Some (marshal (newest maxRingPoints (ring_at now s key ++ [p]))); expires_at := 0 |}
    end.
Proof.
  intros Hs Hps key. unfold batchStoreMetrics.
  destruct (BatchSet no_fault now s (ring_item no_reads_fail now s <$> points server cs)) as [s' r] eqn:E. cbn [fst].
  assert (is_ok r = true) as Hok.
  { revert E. unfold BatchSet, sql, no_fault.
    assert (∀ i b, ∃ b', batch_items (λ _, false) now i (ring_item no_reads_fail now s <$> points server cs) b = Ok b') as Hb.
    { induction Hps as [|[k p] ps Hp _ IH]; intros i b; [by exists b|].
      cbn [fmap list_fmap batch_items]. rewrite ring_item_value by done. unfold sql. cbn [iValue]. apply IH. }
    destruct (Hb 0%nat s) as [b' ->]. by destruct (ring_item no_reads_fail now s <$> points server cs); intros [= <- <-]. }
  apply BatchSet_spec in E as [_ E]. rewrite (proj1 (E Hok)). by apply ring_batch_row.
Qed.

Lemma ring_short now s key : rings_ok s → (length (ring_at now s key) ≤ maxRingPoints)%nat.
Proof.
  intros Hs. destruct (rows s !! ("metrics_ring", key)) as [r|] eqn:Hr.
  - destruct (Hs _ _ Hr) as (l & -> & Hl & Hlen). by rewrite (ring_row now s key l).
  - unfold ring_at, Get, sql. cbn [no_fault]. rewrite Hr. cbn. lia.
Qed.

(** Rings do not expire. *)
Lemma ring_at_any now now' s key : rings_ok s → ring_at now s key = ring_at now' s key.
Proof.
  intros Hs. destruct (rows s !! ("metrics_ring", key)) as [r|] eqn:Hr.
  - destruct (Hs _ _ Hr) as (l & -> & Hl & Hlen). by rewrite !(ring_row _ s key l).
  - unfold ring_at, Get, sql. cbn [no_fault]. by rewrite Hr.
Qed.

Lemma batch_store_ok now s server cs :
  rings_ok s → Forall (λ kp, point_good kp.2) (points server cs) →
  rings_ok (batchStoreMetrics no_reads_fail no_fault now s server cs) ∧
  ∀ now' key, ring_at now' (batchStoreMetrics no_reads_fail no_fault now s server cs) key =
    newest maxRingPoints (ring_at now s key ++ option_list (last_point key (points server cs))).
Proof.
  intros Hs Hps. pose proof (batch_store_rows now s server cs Hs Hps) as Hrows.
  assert (∀ key p, last_point key (points server cs) = Some p →
            Forall point_good (newest maxRingPoints (ring_at now s key ++ [p]))) as Hgood.
  { intros key p Hp. apply Forall_newest, Forall_app. split; [by apply ring_good|]. apply Forall_singleton.
    unfold last_point in Hp. apply last_Some_elem_of, list_elem_of_omap in Hp as ([k q] & Hin & Hq).
    cbn in Hq. case_decide; [|done]. simplify_eq. rewrite Forall_forall in Hps. by apply (Hps _ Hin). }
  split.
  - intros key r. rewrite Hrows. destruct (last_point key (points server cs)) as [p|] eqn:Hp; [|apply Hs].
    intros [= <-]. eexists. split_and!; [done|by apply Hgood|apply newest_length].
  - intros now' key. specialize (Hrows key). destruct (last_point key (points server cs)) as [p|] eqn:Hp; cbn.
    + by apply ring_row; [apply Hgood|].
    + rewrite app_nil_r, newest_short by (by apply ring_short).
      unfold ring_at at 1, Get, sql. cbn [no_fault]. rewrite Hrows. fold (ring_at now' s key).
      transitivity (ring_at now' s key); [done|by apply ring_at_any].
Qed.

Record collection := { at_ : Z; server : option ServerMetrics; conts : list ContainerMetrics }.

Definition collect (s : KVStore) (c : collection) : KVStore :=
  batchStoreMetrics no_reads_fail no_fault (at_ c) s (server c) (conts c).

Definition collection_good (c : collection) : Prop :=
  Forall (λ kp, point_good kp.2) (points (server c) (conts c)).

(** Over any number of collections a ring holds, in order, the newest 288 of the points it had
    and of those collected under its key, of which each collection contributes only its last
    one: of an application with several containers the others are lost. *)
Theorem rings_hold_newest_points s cs now now' key :
  rings_ok s → Forall collection_good cs →
  rings_ok (foldl collect s cs) ∧
  ring_at now' (foldl collect s cs) key =
  newest maxRingPoints (ring_at now s key ++ omap (λ c, last_point key (points (server c) (conts c))) cs).
Proof.
  intros Hs Hcs. revert s now Hs. induction Hcs as [|c cs Hc _ IH]; intros s now Hs; cbn [foldl omap list_omap].
  { split; [done|]. rewrite app_nil_r, newest_short by (by apply ring_short). by apply ring_at_any. }
  destruct (batch_store_ok (at_ c) s (server c) (conts c) Hs Hc) as [Hs' Hring].
  destruct (IH (collect s c) now Hs') as [Hok Hfinal]. split; [done|].
  rewrite Hfinal. unfold collect. rewrite Hring, newest_app, (ring_at_any (at_ c) now) by done.
  rewrite <- app_assoc. by destruct (last_point key (points (server c) (conts c))).
Qed.

Definition demo_container (app : string) (cpu : Z) : ContainerMetrics :=
  {| mContainerID := "c"; mAppID := app; mTimestamp := zero_time; mCPU := GoTime.f64_of_Z cpu; mRAMUsedMB := 10;
     mRAMLimitMB := 20; mNetworkRxMB := 0; mNetworkTxMB := 0; mPIDs := 1 |}.
Definition demo_collection (cpus : list Z) : collection :=
  {| at_ := 1000; server := None; conts := demo_container "a1" <$> cpus |}.

(** Two containers, three collections: three points, of the second container. *)
Lemma rings_hold_newest_points_witness :
  pCPU <$> ring_at 2000 (foldl collect empty_store
             [demo_collection [5; 60]; demo_collection [7; 61]; demo_collection [9; 62]]) "a1:24h" =
  GoTime.f64_of_Z <$> [60; 61; 62].
Proof.
  destruct (rings_hold_newest_points empty_store
    [demo_collection [5; 60]; demo_collection [7; 61]; demo_collection [9; 62]] 0 2000 "a1:24h") as [_ ->].
  - intros k r. cbn. by rewrite lookup_empty.
  - repeat constructor; vm_compute; done.
  - vm_compute. reflexivity.
Defined.

(** A ring that could not be read is replaced by the new point alone. *)
Lemma failed_read_drops_ring reads now s key p :
  reads key Select = true → appendPoint (reads key) now s key p = [p] ∧
  ring_item reads now s (key, p) =
  {| iBucket := "metrics_ring"; iKey := key;
     iValue := if f64_finite (pCPU p) then Some (marshal ([p] : metricsRing)) else None; iTTL := 0 |}.
Proof.
  intros Hr. assert (appendPoint (reads key) now s key p = [p]) as Ha.
  { unfold appendPoint, Get, sql. by rewrite Hr. }
  split; [done|]. unfold ring_item. cbn [fst snd]. rewrite Ha. cbn [forallb]. by rewrite andb_true_r.
Qed.

End Metrics.

Module HostStats.
Import GoFloat GoTime.

(** ** Text *)

(** The words of [strings.Fields]; [cur] is the word being read, reversed, and [fuel] the number
    of bytes. *)
Fixpoint fields_from (fuel : nat) (cur l : list ascii) : list (list ascii) :=
  let flush := match cur with [] => [] | _ => [reverse cur] end in
  match fuel, l with
  | O, _ | _, [] => flush
  | S fuel, c :: r =>
      match list_find (λ p, p `prefix_of` l) all_spaces with
      | Some (_, p) => flush ++ fields_from fuel [] (drop (length p) l)
      | None => fields_from fuel (c :: cur) r
      end
  end.

Definition Fields (s : string) : list string := str <$> fields_from (length (bytes s)) [] (bytes s).

(** [bufio.Scanner] over lines: a final newline ends the last line, a carriage return before a
    newline is dropped, and a line of 64 KiB stops the scan. *)
Definition MaxScanTokenSize : nat := 16 * 4096.

Definition drop_cr (l : list ascii) : list ascii :=
  match last l with
  | Some c => if decide (c = byte 13) then take (length l - 1) l else l
  | None => l
  end.

Definition raw_lines (l : list ascii) : list (list ascii) :=
  let ls := split_on (byte 10) l in
  match last ls with Some [] => take (length ls - 1) ls | _ => ls end.

(** The lines that are scanned, and whether the scan stopped at a long one. *)
Fixpoint scan_lines (ls : list (list ascii)) : list string * bool :=
  match ls with
  | [] => ([], false)
  | l :: ls => if (MaxScanTokenSize <=? length l)%nat then ([], true)
               else let '(rest, stopped) := scan_lines ls in (str (drop_cr l) :: rest, stopped)
  end.

Definition Scan (content : string) : list string * bool := scan_lines (raw_lines (bytes content)).

(** [strconv.ParseUint(s, 10, 64)] *)
Definition ParseUint (s : string) : option Z :=
  match bytes s with
  | [] => None
  | l => n ← digits_val 0 l; if n <? 2 ^ 64 then Some n else None
  end.

(** ** CPU *)

(** src/internal/resource/host_linux.go:26-29 cpuSample *)
Record cpuSample := { total : Z; idle : Z }.

(** src/internal/resource/host_linux.go:34-38 hostStats *)
Record hostStats := { lastCPU : cpuSample; haveLast : bool }.

Definition newHostStats : hostStats := {| lastCPU := {| total := 0; idle := 0 |}; haveLast := false |}.

(** src/internal/resource/host_linux.go:94-107 readCPUSample.loop *)
Fixpoint sum_fields (i : nat) (fs : list string) (s : cpuSample) : option cpuSample :=
  match fs with
  | [] => Some s
  | f :: fs =>
      n ← ParseUint f;
      sum_fields (S i) fs
        {| total := u64 (total s + n);
           idle := if decide (i = 3%nat ∨ i = 4%nat) then u64 (idle s + n) else idle s |}
  end.

(** [content] is [/proc/stat], [None] if it cannot be opened.
    src/internal/resource/host_linux.go:77-108 readCPUSample *)
Definition readCPUSample (content : option string) : option cpuSample :=
  c ← content;
  match (Scan c).1 with
  | [] => None
  | line :: _ =>
      if negb (HasPrefix line "cpu ") && negb (HasPrefix line (str (bytes "cpu" ++ [byte 9]))) then None
      else sum_fields 0 (drop 1 (Fields line)) {| total := 0; idle := 0 |}
  end.

(** src/internal/resource/host_linux.go:46-70 hostStats.CPUPercent *)
Definition CPUPercent (h : hostStats) (content : option string) : hostStats * option f64 :=
  match readCPUSample content with
  | None => (h, None)
  | Some cur =>
      let h' := {| lastCPU := cur; haveLast := true |} in
      if negb (haveLast h) then (h', Some f64_zero)
      else
        let totalDelta := u64 (total cur - total (lastCPU h)) in
        let idleDelta := u64 (idle cur - idle (lastCPU h)) in
        if totalDelta =? 0 then (h', Some f64_zero)
        else
          let busy := u64 (totalDelta - idleDelta) in
          (h', Some (f64_div (f64_mul (f64_of_Z busy) (f64_of_Z 100)) (f64_of_Z totalDelta)))
  end.

(** ** Memory, disk, network, load *)

(** src/internal/resource/host_linux.go:150-160 parseMeminfoKB *)
Definition parseMeminfoKB (line : string) : Z :=
  match Fields line with
  | _ :: f :: _ => default 0 (Atoi f)
  | _ => 0
  end.

(** src/internal/resource/host_linux.go:124-135 hostStats.MemoryMB.loop *)
Fixpoint meminfo (lines : list string) (tot avail : Z) : Z * Z * bool :=
  match lines with
  | [] => (tot, avail, false)
  | line :: lines =>
      let '(tot, avail) :=
        if HasPrefix line "MemTotal:" then (parseMeminfoKB line, avail)
        else if HasPrefix line "MemAvailable:" then (tot, parseMeminfoKB line)
        else (tot, avail) in
      if (0 <? tot) && (0 <? avail) then (tot, avail, true) else meminfo lines tot avail
  end.

(** Used and total MB; a scan that stopped early is an error unless both rows came before.
    src/internal/resource/host_linux.go:115-145 hostStats.MemoryMB *)
Definition MemoryMB (content : option string) : option (Z * Z) :=
  c ← content;
  let '(lines, stopped) := Scan c in
  let '(tot, avail, found) := meminfo lines 0 0 in
  if stopped && negb found then None
  else if tot =? 0 then None
  else Some (i64 (tot - avail) `quot` 1024, tot `quot` 1024).

(** [statfs]: block size, blocks and available blocks.
    src/internal/resource/host_linux.go:165-175 hostStats.DiskMB *)
Definition DiskMB (stat : option (Z * Z * Z)) : option (Z * Z) :=
  '(bsize, blocks, bavail) ← stat;
  let totalBytes := i64 (i64 blocks * bsize) in
  let freeBytes := i64 (i64 bavail * bsize) in
  Some (i64 (totalBytes - freeBytes) `quot` Metrics.mb, totalBytes `quot` Metrics.mb).

(** One row: the bytes received and sent it adds.
    src/internal/resource/host_linux.go:200-217 hostStats.NetworkMB.row *)
Definition net_row (line : string) : Z * Z :=
  match index_of [":"%char] (bytes line) with
  | None => (0, 0)
  | Some i =>
      let iface := TrimSpace (str (take i (bytes line))) in
      if bool_decide (iface = "") || bool_decide (iface = "lo") then (0, 0)
      else
        let fs := Fields (str (drop (i + 1) (bytes line))) in
        if (length fs <? 10)%nat then (0, 0)
        else (default 0 (fs !! 0%nat ≫= Atoi), default 0 (fs !! 8%nat ≫= Atoi))
  end.

(** src/internal/resource/host_linux.go:180-220 hostStats.NetworkMB *)
Definition NetworkMB (content : option string) : option (Z * Z) :=
  c ← content;
  let '(rx, tx) := foldl (λ acc line, let '(r, x) := net_row line in (i64 (acc.1 + r), i64 (acc.2 + x)))
                     (0, 0) (drop 2 (Scan c).1) in
  Some (rx `quot` Metrics.mb, tx `quot` Metrics.mb).

(** src/internal/resource/host_linux.go:223-241 hostStats.LoadAvg *)
Definition LoadAvg (content : option string) : option (list f64) :=
  c ← content;
  match Fields c with
  | a :: b :: d :: _ => mapM (λ f, GoScan.ParseFloat (bytes f)) [a; b; d]
  | _ => None
  end.

Definition nl : string := str [byte 10].

Example net_example :
  NetworkMB (Some ("Inter-|   Receive" +:+ nl +:+ " face |bytes" +:+ nl +:+
    "    lo: 9999999 1 0 0 0 0 0 0 9999999 1 0 0 0 0 0 0" +:+ nl +:+
    "  eth0: 10485760 1 0 0 0 0 0 0 2097152 1 0 0 0 0 0 0" +:+ nl)) = Some (10, 2).
Proof. vm_compute. reflexivity. Qed.

Example mem_example :
  MemoryMB (Some ("MemTotal:       2048000 kB" +:+ nl +:+ "MemFree: 5 kB" +:+ nl +:+ "MemAvailable:   1024000 kB" +:+ nl))
  = Some (1000, 2000).
Proof. vm_compute. reflexivity. Qed.

Example load_example :
  LoadAvg (Some ("0.50 1 2.25 1/200 999" +:+ nl)) =
  Some [f64_div (f64_of_Z 1) (f64_of_Z 2); f64_of_Z 1; f64_div (f64_of_Z 9) (f64_of_Z 4)].
Proof. vm_compute. reflexivity. Qed.

(** ** Reading a row of counters *)

Lemma split_on_first c w l : c ∉ w → split_on c (w ++ c :: l) = w :: split_on c l.
Proof.
  induction w as [|x w IH]; intros Hc; cbn.
  - by rewrite decide_True.
  - apply not_elem_of_cons in Hc as [? Hc]. by rewrite decide_False, IH.
Qed.

Lemma scan_first w rest :
  w ≠ [] → byte 10 ∉ w → last w ≠ Some (byte 13) → (length w < MaxScanTokenSize)%nat →
  ∃ ls, (Scan (str (w ++ byte 10 :: rest))).1 = str w :: ls.
Proof.
  intros Hne Hnl Hcr Hlen. unfold Scan, raw_lines. rewrite bytes_str, split_on_first by done.
  assert (∃ ls, (match last (w :: split_on (byte 10) rest) with
                 | Some [] => take (length (w :: split_on (byte 10) rest) - 1) (w :: split_on (byte 10) rest)
                 | _ => w :: split_on (byte 10) rest
                 end) = w :: ls) as [ls ->].
  { destruct (last (w :: split_on (byte 10) rest)) as [[|]|]; [|by eexists..].
    destruct (split_on (byte 10) rest) eqn:E; [by apply split_on_nonempty in E|]. cbn. by eexists. }
  cbn [scan_lines]. rewrite (proj2 (Nat.leb_gt _ _) Hlen). destruct (scan_lines ls). cbn [fst].
  assert (drop_cr w = w) as ->; [|by eexists].
  unfold drop_cr. destruct (last w); [|done]. by rewrite decide_False by congruence.
Qed.

(** Every space sequence starts with a byte that is not printable. *)
Lemma spaces_start : Forall (λ p, match p with c :: _ => ¬ printable c | [] => False end) all_spaces.
Proof. repeat (constructor; [vm_compute; lia|]). constructor. Qed.

Lemma no_space_here c l : printable c → list_find (λ p, p `prefix_of` (c :: l)) all_spaces = None.
Proof.
  intros Hc. apply list_find_None. eapply Forall_impl; [apply spaces_start|].
  intros [|x p]; [done|]. intros Hx [k Hk]. by injection Hk as ->.
Qed.

Lemma space_here l : ∃ i, list_find (λ p, p `prefix_of` (" "%char :: l)) all_spaces = Some (i, [" "%char]).
Proof.
  destruct (list_find (λ p, p `prefix_of` (" "%char :: l)) all_spaces) as [[i p]|] eqn:E.
  - apply list_find_Some in E as (Hi & Hp & _). exists i. do 2 f_equal.
    assert (Forall (λ p, head p = Some " "%char → p = [" "%char]) all_spaces) as Hall
      by (apply (bool_decide_unpack _); vm_compute; exact I).
    rewrite Forall_forall in Hall. apply Hall; [by eapply list_elem_of_lookup_2|].
    assert (Forall (λ p, match p with c :: _ => ¬ printable c | [] => False end) all_spaces) as Hne by apply spaces_start.
    rewrite Forall_forall in Hne. specialize (Hne p ltac:(by eapply list_elem_of_lookup_2)).
    destruct p as [|c p]; [done|]. destruct Hp as [k Hk]. by injection Hk as <- _.
  - exfalso. apply list_find_None in E. rewrite Forall_forall in E. apply (E [" "%char]).
    + apply (bool_decide_unpack _). vm_compute. exact I.
    + by exists l.
Qed.

Lemma fields_word w l : ∀ fuel cur, Forall printable w →
  fields_from (length w + fuel) cur (w ++ l) = fields_from fuel (reverse w ++ cur) l.
Proof.
  induction w as [|c w IH]; intros fuel cur Hw; [done|]. apply Forall_cons in Hw as [Hc Hw].
  cbn [length Nat.add app fields_from]. rewrite no_space_here, IH by done. f_equal.
  by rewrite reverse_cons, <- app_assoc.
Qed.

Lemma fields_space fuel cur l :
  fields_from (S fuel) cur (" "%char :: l) =
  match cur with [] => [] | _ => [reverse cur] end ++ fields_from fuel [] l.
Proof. cbn [fields_from]. by destruct (space_here l) as [i ->]. Qed.

(** The words of a row, each after a space. *)
Definition spaced (ws : list (list ascii)) : list ascii := concat ((λ w, " "%char :: w) <$> ws).

Lemma fields_spaced ws : ∀ cur,
  Forall (λ w, w ≠ [] ∧ Forall printable w) ws →
  fields_from (length (spaced ws)) cur (spaced ws) =
  match cur with [] => [] | _ => [reverse cur] end ++ ws.
Proof.
  unfold spaced. induction ws as [|w ws IH]; intros cur Hws; [by destruct cur; cbn; rewrite ?app_nil_r|].
  apply Forall_cons in Hws as [[Hne Hw] Hws]. cbn [fmap list_fmap concat app length].
  rewrite fields_space. f_equal. rewrite length_app, fields_word by done. rewrite app_nil_r, IH by done.
  destruct (reverse w) eqn:E; [by apply (f_equal reverse) in E; rewrite reverse_involutive in E|].
  by rewrite <- E, reverse_involutive.
Qed.

Lemma itoa_word n : 0 ≤ n → bytes (itoa n) ≠ [] ∧ Forall printable (bytes (itoa n)).
Proof.
  intros Hn. split; [by destruct (itoa_nonempty n Hn) as (? & ? & ->)|].
  eapply Forall_impl; [by apply itoa_digits|]. intros c Hc. by apply plain_printable, digit_plain.
Qed.

(** The kernel's row: the label, two spaces and the counters. *)
Definition cpu_row (ns : list Z) : list ascii := bytes "cpu " ++ spaced ((λ n, bytes (itoa n)) <$> ns).

Lemma Fields_row ns : Forall (λ n, 0 ≤ n) ns → Fields (str (cpu_row ns)) = "cpu" :: (itoa <$> ns).
Proof.
  intros Hns. unfold Fields, cpu_row. rewrite bytes_str, length_app.
  change (bytes "cpu ") with (bytes "cpu" ++ [" "%char]). rewrite <- app_assoc.
  change (length (bytes "cpu" ++ [" "%char]) + ?x)%nat with (length (bytes "cpu") + S x)%nat.
  rewrite fields_word by (apply (bool_decide_unpack _); vm_compute; exact I). cbn [app].
  rewrite fields_space, fields_spaced.
  - cbn -[itoa]. f_equal. induction Hns as [|n ns Hn _ IH]; [done|]. cbn -[itoa]. by rewrite str_bytes, IH.
  - apply Forall_fmap. eapply Forall_impl; [exact Hns|]. intros n Hn. by apply itoa_word.
Qed.

Lemma ParseUint_itoa n : 0 ≤ n < 2 ^ 64 → ParseUint (itoa n) = Some n.
Proof.
  intros Hn. unfold ParseUint. destruct (itoa_nonempty n) as (c & l & Hl); [lia|]. rewrite Hl, <- Hl.
  rewrite digits_val_itoa by lia. cbn. by rewrite (proj2 (Z.ltb_lt _ _)) by lia.
Qed.

(** The counters at positions 3 and 4, [idle] and [iowait], from position [i] on. *)
Fixpoint idle_from (i : nat) (ns : list Z) : Z :=
  match ns with
  | [] => 0
  | n :: ns => (if decide (i = 3%nat ∨ i = 4%nat) then n else 0) + idle_from (S i) ns
  end.

Lemma sum_fields_spec ns : ∀ i s,
  Forall (λ n, 0 ≤ n < 2 ^ 64) ns →
  sum_fields i (itoa <$> ns) {| total := u64 (total s); idle := u64 (idle s) |} =
  Some {| total := u64 (total s + zsum id ns); idle := u64 (idle s + idle_from i ns) |}.
Proof.
  induction ns as [|n ns IH]; intros i s Hns; [by cbn; rewrite !Z.add_0_r|].
  apply Forall_cons in Hns as [Hn Hns]. cbn [fmap list_fmap sum_fields]. rewrite ParseUint_itoa by done.
  cbn [mbind option_bind total idle].
  specialize (IH (S i) {| total := total s + n;
                          idle := if decide (i = 3%nat ∨ i = 4%nat) then idle s + n else idle s |} Hns).
  cbn [total idle] in IH. rewrite zsum_cons. cbn [idle_from]. rewrite !Z.add_assoc.
  assert (∀ a b, u64 (u64 a + b) = u64 (a + b)) as Hu by (intros; unfold u64; by rewrite Zplus_mod_idemp_l).
  rewrite Hu. destruct (decide (i = 3%nat ∨ i = 4%nat)).
  - rewrite Hu. exact IH.
  - rewrite Z.add_0_r. exact IH.
Qed.

Definition stat_file (ns : list Z) (rest : list ascii) : string := str (cpu_row ns ++ byte 10 :: rest).

(** Counters as the kernel prints them. *)
Record counters (ns : list Z) : Prop := {
  c_range : Forall (λ n, 0 ≤ n < 2 ^ 64) ns;
  c_short : (length (cpu_row ns) < MaxScanTokenSize)%nat }.

Lemma row_bytes ns : Forall (λ n, 0 ≤ n) ns → Forall (λ c, c = " "%char ∨ printable c) (cpu_row ns).
Proof.
  intros Hns. unfold cpu_row, spaced. apply Forall_app. split.
  - repeat constructor; vm_compute; auto with lia; right; lia.
  - induction Hns as [|n ns Hn _ IH]; [done|]. cbn [fmap list_fmap concat app].
    apply Forall_cons. split; [by left|]. apply Forall_app. split; [|done].
    eapply Forall_impl; [apply (itoa_word n Hn)|]. by right.
Qed.

Lemma read_row ns rest :
  counters ns →
  readCPUSample (Some (stat_file ns rest)) = Some {| total := u64 (zsum id ns); idle := u64 (idle_from 0 ns) |}.
Proof.
  intros [Hr Hs]. assert (Forall (λ n, 0 ≤ n) ns) as Hn by (eapply Forall_impl; [exact Hr|]; cbn; lia).
  pose proof (row_bytes ns Hn) as Hb. rewrite Forall_forall in Hb.
  assert (∀ c, c ∈ cpu_row ns → c ≠ byte 10 ∧ c ≠ byte 13) as Hc.
  { intros c Hc%Hb. split; intros ->; destruct Hc as [Hc|Hc]; revert Hc; vm_compute; [done|lia|done|lia]. }
  destruct (scan_first (cpu_row ns) rest) as [ls Hl]; [done|intros Hin; by destruct (Hc _ Hin)| |done|].
  { intros Hlast%last_Some_elem_of. by destruct (Hc _ Hlast). }
  unfold readCPUSample. cbn [mbind option_bind]. unfold stat_file. rewrite Hl.
  assert (HasPrefix (str (cpu_row ns)) "cpu " = true) as ->.
  { unfold HasPrefix. rewrite bytes_str. apply bool_decide_eq_true. by eexists. }
  cbn [negb andb]. rewrite Fields_row by done. cbn [drop].
  exact (sum_fields_spec ns 0 {| total := 0; idle := 0 |} Hr).
Qed.

Lemma u64_sub a b : u64 (u64 a - u64 b) = u64 (a - b).
Proof. unfold u64. by rewrite <- Zminus_mod. Qed.

Lemma u64_sub_r a b c : u64 (c - (u64 a - u64 b)) = u64 (c - (a - b)).
Proof. unfold u64. by rewrite <- Zminus_mod_idemp_r, <- Zminus_mod, Zminus_mod_idemp_r. Qed.

Lemma CPUPercent_state h c cur :
  readCPUSample c = Some cur → (CPUPercent h c).1 = {| lastCPU := cur; haveLast := true |}.
Proof. unfold CPUPercent. intros ->. by repeat case_match. Qed.

(** Between two readings of [/proc/stat] whose idle time grew, but no more than the total, the
    CPU usage is 100 times the busy part of the difference over the whole, also when the sums
    wrapped around in between. *)
Theorem cpu_percent_between_readings h ns1 rest1 ns2 rest2 :
  counters ns1 → counters ns2 →
  let T := zsum id ns2 - zsum id ns1 in
  let I := idle_from 0 ns2 - idle_from 0 ns1 in
  0 ≤ I ≤ T → 0 < T < 2 ^ 64 →
  (CPUPercent (CPUPercent h (Some (stat_file ns1 rest1))).1 (Some (stat_file ns2 rest2))).2 =
  Some (f64_div (f64_mul (f64_of_Z (T - I)) (f64_of_Z 100)) (f64_of_Z T)).
Proof.
  intros H1 H2 T I HI HT.
  rewrite (CPUPercent_state h _ _ (read_row ns1 rest1 H1)). unfold CPUPercent. rewrite read_row by done.
  cbn [haveLast lastCPU total idle negb]. rewrite !u64_sub. fold T I. rewrite (u64_id T) by lia.
  rewrite (proj2 (Z.eqb_neq T 0)) by lia. cbn [snd]. rewrite u64_sub_r. fold I. by rewrite u64_id by lia.
Qed.

(** The idle counter going backwards, as [iowait] may, reads as more than the whole. *)
Example idle_backwards :
  let h := {| lastCPU := {| total := 1000; idle := 900 |}; haveLast := true |} in
  (CPUPercent h (Some (stat_file [10; 0; 90; 890; 100] []))).2 = Some (f64_of_Z 0) ∧
  (CPUPercent h (Some (stat_file [100; 0; 110; 790; 100] []))).2 = Some (f64_of_Z 110).
Proof. vm_compute. done. Qed.

Lemma cpu_percent_between_readings_witness :
  (CPUPercent (CPUPercent newHostStats (Some (stat_file [100; 0; 100; 700; 100] []))).1
     (Some (stat_file [125; 0; 125; 740; 110] []))).2 =
  Some (f64_div (f64_mul (f64_of_Z 50) (f64_of_Z 100)) (f64_of_Z 100)).
Proof.
  apply (cpu_percent_between_readings newHostStats [100; 0; 100; 700; 100] [] [125; 0; 125; 740; 110] []).
  - split; [repeat constructor; lia|apply (bool_decide_unpack _); vm_compute; exact I].
  - split; [repeat constructor; lia|apply (bool_decide_unpack _); vm_compute; exact I].
  - vm_compute. split; discriminate.
  - vm_compute. split; reflexivity.
Defined.

End HostStats.
