(* ===== verification/Billing.v ===== *)
(** * Billing: plans, Stripe's events and usage metering ([internal/billing])

    Stripe's state of a tenant is a document under one key of the tenant's free-form
    metadata.  Signed deliveries change it, the meter reads it to report usage.  A
    delivery's body is its bytes, decoded as a JSON document by [decode]. *)

From Stdlib Require Import Floats.SpecFloat.
From S2P Require Import Prelude GoStrings GoTime GoFloat KVStore Sha256.
#[local] Open Scope Z_scope.

Module Billing.
Import KV.

(** ** Plans *)

(** src/internal/billing/plans.go:4-24 Plan *)
Record Plan := {
  ID : string; Name : string; Description : string; PriceCents : Z; Currency : string; StripePriceID : string;
  MaxApps : Z; MaxContainers : Z; MaxCPUCores : Z; MaxRAMMB : Z; MaxDiskGB : Z; MaxBandwidthGB : Z;
  MaxDomains : Z; MaxDatabases : Z; MaxTeamMembers : Z; MaxServers : Z; BuildMinutes : Z; BackupGB : Z;
  Features : list string }.

(** src/internal/billing/plans.go:27-60 BuiltinPlans *)
Definition BuiltinPlans : list Plan :=
  [ {| ID := "free"; Name := "Free"; Description := "For personal projects"; PriceCents := 0; Currency := "USD";
       StripePriceID := ""; MaxApps := 3; MaxContainers := 5; MaxCPUCores := 2; MaxRAMMB := 2048; MaxDiskGB := 10;
       MaxBandwidthGB := 100; MaxDomains := 3; MaxDatabases := 2; MaxTeamMembers := 1; MaxServers := 1;
       BuildMinutes := 300; BackupGB := 5; Features := ["community_support"] |};
    {| ID := "pro"; Name := "Pro"; Description := "For professional developers"; PriceCents := 1500;
       Currency := "USD"; StripePriceID := ""; MaxApps := 25; MaxContainers := 50; MaxCPUCores := 8;
       MaxRAMMB := 16384; MaxDiskGB := 100; MaxBandwidthGB := 1000; MaxDomains := 50; MaxDatabases := 10;
       MaxTeamMembers := 5; MaxServers := 5; BuildMinutes := 3000; BackupGB := 50;
       Features := ["priority_support"; "custom_domains"; "auto_backups"] |};
    {| ID := "business"; Name := "Business"; Description := "For teams and companies"; PriceCents := 4900;
       Currency := "USD"; StripePriceID := ""; MaxApps := 100; MaxContainers := 200; MaxCPUCores := 32;
       MaxRAMMB := 65536; MaxDiskGB := 500; MaxBandwidthGB := 5000; MaxDomains := 200; MaxDatabases := 50;
       MaxTeamMembers := 25; MaxServers := 20; BuildMinutes := 10000; BackupGB := 200;
       Features := ["priority_support"; "custom_domains"; "auto_backups"; "rbac"; "audit_log"; "sso"] |};
    {| ID := "enterprise"; Name := "Enterprise"; Description := "Custom limits, white-label, dedicated support";
       PriceCents := 0; Currency := "USD"; StripePriceID := ""; MaxApps := -1; MaxContainers := -1;
       MaxCPUCores := -1; MaxRAMMB := -1; MaxDiskGB := -1; MaxBandwidthGB := -1; MaxDomains := -1;
       MaxDatabases := -1; MaxTeamMembers := -1; MaxServers := -1; BuildMinutes := -1; BackupGB := -1;
       Features := ["priority_support"; "custom_domains"; "auto_backups"; "rbac"; "audit_log"; "sso";
                    "white_label"; "reseller"; "whmcs"; "dedicated_support"] |} ].

(** src/internal/billing/stripe_webhook.go:461-468 findPlanByID *)
Definition findPlanByID (plans : list Plan) (id : string) : option Plan :=
  snd <$> list_find (λ p, ID p = id) plans.

(** src/internal/billing/tenant_metadata.go:99-109 PlanByStripePriceID *)
Definition PlanByStripePriceID (plans : list Plan) (priceID : string) : option Plan :=
  if decide (priceID = "") then None else snd <$> list_find (λ p, StripePriceID p = priceID) plans.

(** ** A tenant's Stripe state *)

(** The metadata column: empty, text that is not JSON, or a document. *)
Inductive metadata := NoText | BadText | Doc (j : json).

(** The columns of a tenant billing reads or writes. *)
Record Tenant := { PlanID : string; MetadataJSON : metadata }.

(** src/internal/billing/tenant_metadata.go:19-28 StripeMetadata *)
Record StripeMetadata := {
  CustomerID : string; SubscriptionID : string; SubscriptionItemID : string; PriceID : string; Status : string;
  PaymentLastSucceededAt : instant; PaymentLastFailedAt : instant; UpdatedAt : instant }.

Definition no_stripe : StripeMetadata :=
  {| CustomerID := ""; SubscriptionID := ""; SubscriptionItemID := ""; PriceID := ""; Status := "";
     PaymentLastSucceededAt := zero_time; PaymentLastFailedAt := zero_time; UpdatedAt := zero_time |}.

(** src/internal/billing/tenant_metadata.go:31-39 StripeMetadata.IsZero *)
Definition IsZero (m : StripeMetadata) : bool :=
  bool_decide (CustomerID m = "") && bool_decide (SubscriptionID m = "") &&
  bool_decide (SubscriptionItemID m = "") && bool_decide (PriceID m = "") && bool_decide (Status m = "") &&
  (PaymentLastSucceededAt m =? zero_time) && (PaymentLastFailedAt m =? zero_time).

Definition omitempty (k v : string) : list (string * json) := if decide (v = "") then [] else [(k, JStr v)].

(** [omitempty] leaves out empty strings, not zero times. *)
Definition enc_stripe (m : StripeMetadata) : json :=
  JObj (omitempty "customer_id" (CustomerID m) ++ omitempty "subscription_id" (SubscriptionID m) ++
        omitempty "subscription_item_id" (SubscriptionItemID m) ++ omitempty "price_id" (PriceID m) ++
        omitempty "status" (Status m) ++
        [("payment_last_succeeded_at", JTime (PaymentLastSucceededAt m));
         ("payment_last_failed_at", JTime (PaymentLastFailedAt m)); ("updated_at", JTime (UpdatedAt m))]).

Definition dec_stripe (j : json) : option StripeMetadata :=
  match j with
  | JNull => Some no_stripe
  | JObj fs =>
      c ← read_str "customer_id" fs ""; s ← read_str "subscription_id" fs "";
      i ← read_str "subscription_item_id" fs ""; p ← read_str "price_id" fs ""; st ← read_str "status" fs "";
      ok ← read_time "payment_last_succeeded_at" fs zero_time;
      ko ← read_time "payment_last_failed_at" fs zero_time; u ← read_time "updated_at" fs zero_time;
      Some {| CustomerID := c; SubscriptionID := s; SubscriptionItemID := i; PriceID := p; Status := st;
              PaymentLastSucceededAt := ok; PaymentLastFailedAt := ko; UpdatedAt := u |}
  | _ => None
  end.

Inductive md_error := ParseTenant | ParseStripe | NilMap.

Definition stripeMetadataKey : string := "stripe".

(** The metadata read as a map: [null] is the nil map. *)
Definition blob_of (m : metadata) : result md_error (option (gmap string json)) :=
  match m with
  | NoText => Ok (Some ∅)
  | Doc (JObj fs) => Ok (Some (list_to_map (reverse fs)))
  | Doc JNull => Ok None
  | _ => Err ParseTenant
  end.

(** src/internal/billing/tenant_metadata.go:44-62 GetStripeMetadata *)
Definition GetStripeMetadata (t : Tenant) : result md_error StripeMetadata :=
  b ←! blob_of (MetadataJSON t);
  match b ≫= λ m, m !! stripeMetadataKey with
  | None => Ok no_stripe
  | Some raw => match dec_stripe raw with Some md => Ok md | None => Err ParseStripe end
  end.

(** Writing to the nil map is a panic.
    src/internal/billing/tenant_metadata.go:66-95 SetStripeMetadata *)
Definition SetStripeMetadata (t : Tenant) (md : StripeMetadata) : result md_error Tenant :=
  b ←! blob_of (MetadataJSON t);
  b ←! (if IsZero md then Ok (delete stripeMetadataKey (default ∅ b))
        else match b with
             | None => Err NilMap
             | Some m => Ok (<[stripeMetadataKey := enc_stripe md]> m)
             end);
  Ok {| PlanID := PlanID t;
        MetadataJSON := if decide (b = ∅) then NoText else Doc (JObj (map_to_list b)) |}.

(** ** Signatures *)

(** The last [t] and [v1] of the header.
    src/internal/billing/stripe.go:138-151 StripeClient.VerifyWebhookSignature.parts *)
Definition signature_parts (header : string) : string * string :=
  foldl (λ acc part,
    match cut part "="%char with
    | (k, Some v) => if decide (k = "t") then (v, acc.2) else if decide (k = "v1") then (acc.1, v) else acc
    | (_, None) => acc
    end) ("", "") (Split header ","%char).

Definition hmac_hex (key msg : string) : string :=
  Sha256.EncodeToString (Sha256.hmac_sha256 (Sha256.byte_val <$> bytes key) (Sha256.byte_val <$> bytes msg)).

(** src/internal/billing/stripe.go:132-164 StripeClient.VerifyWebhookSignature *)
Definition VerifyWebhookSignature (webhookKey payload header : string) : bool :=
  if decide (webhookKey = "") then false
  else
    let '(ts, sig) := signature_parts header in
    if bool_decide (ts = "") || bool_decide (sig = "") then false
    else bool_decide (hmac_hex webhookKey (ts +:+ "." +:+ payload) = sig).

(** ** Stripe's objects *)

(** A nested object: absent and null leave the zero value. *)
Definition read_obj (k : string) (fs : list (string * json)) : option (list (string * json)) :=
  match jfield k fs with
  | None | Some JNull => Some []
  | Some (JObj m) => Some m
  | Some _ => None
  end.

Definition doc_fields (j : json) : option (list (string * json)) :=
  match j with JObj fs => Some fs | JNull => Some [] | _ => None end.

(** The object is [None] when the envelope has none.
    src/internal/billing/stripe_webhook.go:115-122 stripeEventEnvelope *)
Record stripeEventEnvelope := { eID : string; eType : string; Created : Z; Object : option json }.

Definition dec_envelope (j : json) : option stripeEventEnvelope :=
  fs ← doc_fields j;
  i ← read_str "id" fs ""; t ← read_str "type" fs ""; c ← read_int "created" fs 0; d ← read_obj "data" fs;
  Some {| eID := i; eType := t; Created := c; Object := jfield "object" d |}.

Definition read_tenant (fs : list (string * json)) : option string :=
  m ← read_obj "metadata" fs; read_str "tenant_id" m "".

(** Of the items only the first is used.
    src/internal/billing/stripe_webhook.go:190-205 stripeSubscription *)
Record stripeSubscription := {
  subID : string; subCustomer : string; subStatus : string; subTenant : string; subItem : option (string * string) }.

Definition dec_item (j : json) : option (string * string) :=
  fs ← doc_fields j; i ← read_str "id" fs ""; p ← read_obj "price" fs; x ← read_str "id" p ""; Some (i, x).

Definition dec_subscription (j : json) : option stripeSubscription :=
  fs ← doc_fields j;
  i ← read_str "id" fs ""; c ← read_str "customer" fs ""; s ← read_str "status" fs ""; t ← read_tenant fs;
  its ← read_obj "items" fs;
  l ← match jfield "data" its with
      | None | Some JNull => Some []
      | Some (JArr l) => mapM dec_item l
      | Some _ => None
      end;
  Some {| subID := i; subCustomer := c; subStatus := s; subTenant := t; subItem := head l |}.

(** src/internal/billing/stripe_webhook.go:305-316 stripeInvoice *)
Record stripeInvoice := {
  invID : string; invCustomer : string; invSubscription : string; invStatus : string; AmountPaid : Z;
  AmountDue : Z; invCurrency : string; invTenant : string }.

Definition dec_invoice (j : json) : option stripeInvoice :=
  fs ← doc_fields j;
  i ← read_str "id" fs ""; c ← read_str "customer" fs ""; s ← read_str "subscription" fs "";
  st ← read_str "status" fs ""; p ← read_int "amount_paid" fs 0; d ← read_int "amount_due" fs 0;
  u ← read_str "currency" fs ""; t ← read_tenant fs;
  Some {| invID := i; invCustomer := c; invSubscription := s; invStatus := st; AmountPaid := p; AmountDue := d;
          invCurrency := u; invTenant := t |}.

(** src/internal/billing/stripe_webhook.go:387-395 stripePaymentIntent *)
Record stripePaymentIntent := {
  piID : string; piAmount : Z; piCurrency : string; piCustomer : string; piTenant : string }.

Definition dec_payment_intent (j : json) : option stripePaymentIntent :=
  fs ← doc_fields j;
  i ← read_str "id" fs ""; a ← read_int "amount" fs 0; u ← read_str "currency" fs "";
  c ← read_str "customer" fs ""; t ← read_tenant fs;
  Some {| piID := i; piAmount := a; piCurrency := u; piCustomer := c; piTenant := t |}.

(** src/internal/billing/stripe_webhook.go:411-421 stripeCheckoutSession *)
Record stripeCheckoutSession := {
  ckID : string; ckCustomer : string; ckSubscription : string; ckPaymentStatus : string; ckAmount : Z;
  ckCurrency : string; ckTenant : string }.

Definition dec_checkout (j : json) : option stripeCheckoutSession :=
  fs ← doc_fields j;
  i ← read_str "id" fs ""; c ← read_str "customer" fs ""; s ← read_str "subscription" fs "";
  p ← read_str "payment_status" fs ""; a ← read_int "amount_total" fs 0; u ← read_str "currency" fs "";
  t ← read_tenant fs;
  Some {| ckID := i; ckCustomer := c; ckSubscription := s; ckPaymentStatus := p; ckAmount := a; ckCurrency := u;
          ckTenant := t |}.

(** ** The event handler *)

(** An event of the bus: its type, its tenant and its data. *)
Record emitted := { evType : string; evTenant : string; evData : list (string * json) }.

(** src/internal/billing/stripe_webhook.go:30-48 StripeEventHandler *)
Record StripeEventHandler := {
  tenants : gmap string Tenant; outbox : list emitted; seen : gmap string instant }.

(** The handler's configuration. *)
Record Config := { webhookKey : option string; plans : list Plan; has_bus : bool; decode : string → option json }.

(** One delivery: the clock when replays are swept, when it is applied and when it is marked, and
    whether the store answers. *)
Record moment := { t_check : instant; t_apply : instant; t_mark : instant; gets : bool; updates : bool }.

Definition seenTTL : duration := 72 * Hour.

(** src/internal/billing/stripe_webhook.go:100-111 StripeEventHandler.sweepLocked *)
Definition sweepLocked (now : instant) (s : gmap string instant) : gmap string instant :=
  filter (λ kt, now - seenTTL ≤ kt.2) s.

Definition with_seen (h : StripeEventHandler) (s : gmap string instant) : StripeEventHandler :=
  {| tenants := tenants h; outbox := outbox h; seen := s |}.

(** src/internal/billing/stripe_webhook.go:78-84 StripeEventHandler.alreadyProcessed *)
Definition alreadyProcessed (now : instant) (h : StripeEventHandler) (id : string) : StripeEventHandler * bool :=
  let s := sweepLocked now (seen h) in (with_seen h s, bool_decide (is_Some (s !! id))).

(** src/internal/billing/stripe_webhook.go:90-95 StripeEventHandler.markProcessed *)
Definition markProcessed (now : instant) (h : StripeEventHandler) (id : string) : StripeEventHandler :=
  with_seen h (<[id := now]> (sweepLocked now (seen h))).

Inductive stripe_error :=
| ErrStripeInvalidSignature | DecodeEnvelope | MissingType | DecodeObject | NoSubscriptionID
| LoadTenant | ReadMetadata | WriteMetadata | UpdateFailed.

Section Handler.
Variable cfg : Config.

(** src/internal/billing/stripe_webhook.go:452-459 StripeEventHandler.emit *)
Definition emit (h : StripeEventHandler) (ty tenant : string) (data : list (string * json)) : StripeEventHandler :=
  if has_bus cfg then
    {| tenants := tenants h; outbox := outbox h ++ [{| evType := ty; evTenant := tenant; evData := data |}];
       seen := seen h |}
  else h.

Definition GetTenant (m : moment) (h : StripeEventHandler) (id : string) : option Tenant :=
  if gets m then tenants h !! id else None.

(** [UPDATE tenants] by primary key: without a row it changes nothing and is no error. *)
Definition UpdateTenant (m : moment) (h : StripeEventHandler) (id : string) (t : Tenant)
  : result stripe_error StripeEventHandler :=
  if updates m then
    Ok {| tenants := if decide (is_Some (tenants h !! id)) then <[id := t]> (tenants h) else tenants h;
          outbox := outbox h; seen := seen h |}
  else Err UpdateFailed.

Definition orelse {A} (e : stripe_error) (o : option A) : result stripe_error A :=
  match o with Some a => Ok a | None => Err e end.
Definition remap {A} (e : stripe_error) (r : result md_error A) : result stripe_error A :=
  match r with Ok a => Ok a | Err _ => Err e end.

(** src/internal/billing/stripe_webhook.go:207-257 StripeEventHandler.handleSubscriptionUpdated *)
Definition handleSubscriptionUpdated (m : moment) (h : StripeEventHandler) (env : stripeEventEnvelope)
  : result stripe_error StripeEventHandler :=
  sub ←! orelse DecodeObject (Object env ≫= dec_subscription);
  if decide (subID sub = "") then Err NoSubscriptionID
  else if decide (subTenant sub = "") then Ok h
  else
    t ←! orelse LoadTenant (GetTenant m h (subTenant sub));
    md ←! remap ReadMetadata (GetStripeMetadata t);
    let '(item, price) := match subItem sub with
                          | Some ip => ip
                          | None => (SubscriptionItemID md, PriceID md)
                          end in
    let md := {| CustomerID := subCustomer sub; SubscriptionID := subID sub; SubscriptionItemID := item;
                 PriceID := price; Status := subStatus sub; PaymentLastSucceededAt := PaymentLastSucceededAt md;
                 PaymentLastFailedAt := PaymentLastFailedAt md; UpdatedAt := t_apply m |} in
    let plan := match PlanByStripePriceID (plans cfg) price with Some p => ID p | None => PlanID t end in
    t ←! remap WriteMetadata (SetStripeMetadata {| PlanID := plan; MetadataJSON := MetadataJSON t |} md);
    h ←! UpdateTenant m h (subTenant sub) t;
    Ok (emit h "billing.subscription.updated" (subTenant sub)
          [("subscription_id", JStr (subID sub)); ("status", JStr (subStatus sub)); ("price_id", JStr price);
           ("plan_id", JStr plan)]).

(** src/internal/billing/stripe_webhook.go:259-301 StripeEventHandler.handleSubscriptionCanceled *)
Definition handleSubscriptionCanceled (m : moment) (h : StripeEventHandler) (env : stripeEventEnvelope)
  : result stripe_error StripeEventHandler :=
  sub ←! orelse DecodeObject (Object env ≫= dec_subscription);
  if decide (subTenant sub = "") then Ok h
  else
    t ←! orelse LoadTenant (GetTenant m h (subTenant sub));
    md ←! remap ReadMetadata (GetStripeMetadata t);
    let md := {| CustomerID := CustomerID md; SubscriptionID := ""; SubscriptionItemID := ""; PriceID := "";
                 Status := "canceled"; PaymentLastSucceededAt := PaymentLastSucceededAt md;
                 PaymentLastFailedAt := PaymentLastFailedAt md; UpdatedAt := t_apply m |} in
    let plan := match findPlanByID (plans cfg) "free" with Some p => ID p | None => PlanID t end in
    t ←! remap WriteMetadata (SetStripeMetadata {| PlanID := plan; MetadataJSON := MetadataJSON t |} md);
    h ←! UpdateTenant m h (subTenant sub) t;
    Ok (emit h "billing.subscription.canceled" (subTenant sub)
          [("subscription_id", JStr (subID sub)); ("plan_id", JStr plan)]).

(** The tenant's state changed by [f], every failure ignored. *)
Definition try_update (m : moment) (h : StripeEventHandler) (id : string) (f : StripeMetadata → StripeMetadata)
  : StripeEventHandler :=
  if decide (id = "") then h
  else match
      t ←! orelse LoadTenant (GetTenant m h id);
      md ←! remap ReadMetadata (GetStripeMetadata t);
      t ←! remap WriteMetadata (SetStripeMetadata t (f md));
      UpdateTenant m h id t
    with Ok h => h | Err _ => h end.

(** src/internal/billing/stripe_webhook.go:442-450 StripeEventHandler.resolveTenantID *)
Definition resolveTenantID (meta customer subscription : string) : string :=
  if decide (meta = "") then "" else meta.

(** src/internal/billing/stripe_webhook.go:318-353 StripeEventHandler.handleInvoicePaid *)
Definition handleInvoicePaid (m : moment) (h : StripeEventHandler) (env : stripeEventEnvelope)
  : result stripe_error StripeEventHandler :=
  inv ←! orelse DecodeObject (Object env ≫= dec_invoice);
  let tid := resolveTenantID (invTenant inv) (invCustomer inv) (invSubscription inv) in
  let h := try_update m h tid (λ md,
    {| CustomerID := CustomerID md; SubscriptionID := SubscriptionID md; SubscriptionItemID := SubscriptionItemID md;
       PriceID := PriceID md; Status := "active"; PaymentLastSucceededAt := t_apply m;
       PaymentLastFailedAt := PaymentLastFailedAt md; UpdatedAt := UpdatedAt md |}) in
  let h := emit h "invoice.generated" tid
    [("invoice_id", JStr (invID inv)); ("amount_paid", JNum (AmountPaid inv)); ("currency", JStr (invCurrency inv))] in
  Ok (emit h "payment.received" tid
    [("invoice_id", JStr (invID inv)); ("amount_cents", JNum (AmountPaid inv)); ("currency", JStr (invCurrency inv))]).

(** src/internal/billing/stripe_webhook.go:355-385 StripeEventHandler.handleInvoicePaymentFailed *)
Definition handleInvoicePaymentFailed (m : moment) (h : StripeEventHandler) (env : stripeEventEnvelope)
  : result stripe_error StripeEventHandler :=
  inv ←! orelse DecodeObject (Object env ≫= dec_invoice);
  let tid := resolveTenantID (invTenant inv) (invCustomer inv) (invSubscription inv) in
  let h := try_update m h tid (λ md,
    {| CustomerID := CustomerID md; SubscriptionID := SubscriptionID md; SubscriptionItemID := SubscriptionItemID md;
       PriceID := PriceID md; Status := "past_due"; PaymentLastSucceededAt := PaymentLastSucceededAt md;
       PaymentLastFailedAt := t_apply m; UpdatedAt := UpdatedAt md |}) in
  Ok (emit h "payment.failed" tid
    [("invoice_id", JStr (invID inv)); ("amount_due", JNum (AmountDue inv)); ("currency", JStr (invCurrency inv))]).

(** src/internal/billing/stripe_webhook.go:397-409 StripeEventHandler.handlePaymentIntentSucceeded *)
Definition handlePaymentIntentSucceeded (h : StripeEventHandler) (env : stripeEventEnvelope)
  : result stripe_error StripeEventHandler :=
  pi ←! orelse DecodeObject (Object env ≫= dec_payment_intent);
  Ok (emit h "payment.received" (resolveTenantID (piTenant pi) (piCustomer pi) "")
    [("payment_intent_id", JStr (piID pi)); ("amount_cents", JNum (piAmount pi)); ("currency", JStr (piCurrency pi))]).

(** src/internal/billing/stripe_webhook.go:423-436 StripeEventHandler.handleCheckoutCompleted *)
Definition handleCheckoutCompleted (h : StripeEventHandler) (env : stripeEventEnvelope)
  : result stripe_error StripeEventHandler :=
  s ←! orelse DecodeObject (Object env ≫= dec_checkout);
  Ok (emit h "billing.checkout.completed" (resolveTenantID (ckTenant s) (ckCustomer s) (ckSubscription s))
    [("session_id", JStr (ckID s)); ("subscription_id", JStr (ckSubscription s)); ("amount_cents", JNum (ckAmount s));
     ("currency", JStr (ckCurrency s))]).

(** src/internal/billing/stripe_webhook.go:160-176 StripeEventHandler.Handle.dispatch *)
Definition dispatch (m : moment) (h : StripeEventHandler) (env : stripeEventEnvelope)
  : result stripe_error StripeEventHandler :=
  let ty := eType env in
  if decide (ty = "customer.subscription.created" ∨ ty = "customer.subscription.updated") then
    handleSubscriptionUpdated m h env
  else if decide (ty = "customer.subscription.deleted") then handleSubscriptionCanceled m h env
  else if decide (ty = "invoice.paid" ∨ ty = "invoice.payment_succeeded") then handleInvoicePaid m h env
  else if decide (ty = "invoice.payment_failed") then handleInvoicePaymentFailed m h env
  else if decide (ty = "payment_intent.succeeded") then handlePaymentIntentSucceeded h env
  else if decide (ty = "checkout.session.completed") then handleCheckoutCompleted h env
  else Ok h.

Definition verified (payload signature : string) : bool :=
  match webhookKey cfg with None => false | Some k => VerifyWebhookSignature k payload signature end.

(** The envelope of a delivery that passes the signature check. *)
Definition envelope_of (payload : string) : result stripe_error stripeEventEnvelope :=
  env ←! orelse DecodeEnvelope (decode cfg payload ≫= dec_envelope);
  if decide (eType env = "") then Err MissingType else Ok env.

(** What a delivery does under the lock of the replay table before it is dispatched: it is refused,
    acknowledged as a replay ([None]) or goes on with its envelope.
    src/internal/billing/stripe_webhook.go:137-155 StripeEventHandler.Handle.check *)
Definition check (now : instant) (h : StripeEventHandler) (payload signature : string)
  : StripeEventHandler * result stripe_error (option stripeEventEnvelope) :=
  if negb (verified payload signature) then (h, Err ErrStripeInvalidSignature)
  else
    match envelope_of payload with
    | Err e => (h, Err e)
    | Ok env =>
        let '(h, replay) := if decide (eID env = "") then (h, false) else alreadyProcessed now h (eID env) in
        (h, Ok (if replay then None else Some env))
    end.

(** src/internal/billing/stripe_webhook.go:181-183 StripeEventHandler.Handle.mark *)
Definition mark (now : instant) (h : StripeEventHandler) (id : string) : StripeEventHandler :=
  if decide (id = "") then h else markProcessed now h id.

(** What other requests do to the tables while this one holds no lock: between its check and its
    dispatch, and between its dispatch and its mark. *)
Record others := { before_dispatch : StripeEventHandler → StripeEventHandler; before_mark : StripeEventHandler → StripeEventHandler }.
Definition alone : others := {| before_dispatch := λ h, h; before_mark := λ h, h |}.

(** A dispatch that fails leaves the tables as it found them.
    src/internal/billing/stripe_webhook.go:136-185 StripeEventHandler.Handle *)
Definition Handle (o : others) (m : moment) (h : StripeEventHandler) (payload signature : string)
  : StripeEventHandler * result stripe_error unit :=
  match check (t_check m) h payload signature with
  | (h, Err e) => (h, Err e)
  | (h, Ok None) => (h, Ok tt)
  | (h, Ok (Some env)) =>
      let h := before_dispatch o h in
      match dispatch m h env with
      | Err e => (h, Err e)
      | Ok h => (mark (t_mark m) (before_mark o h) (eID env), Ok tt)
      end
  end.

End Handler.

(** ** The meter *)

Record Container := { cLabels : gmap string string }.

(** src/internal/billing/metering.go:304-310 TenantUsage *)
Record TenantUsage := { Containers : Z; AppIDs : list string }.

(** src/internal/core/store.go:435-443 UsageRecord *)
Record UsageRecord := { rTenantID : string; rMetricType : string; rValue : GoFloat.f64; rHourBucket : instant; rCreatedAt : instant }.

(** A request to Stripe's usage API, whose [increment] action adds the quantity. *)
Record Report := { item : string; quantity : Z; timestamp : Z }.

Record Meter := {
  accounts : gmap string Tenant; usage : list UsageRecord; reports : list Report; told : list emitted }.

(** One collection: the clock, the listing of labelled containers, which tenants the context and
    the stores still answer for, and Stripe's answers. *)
Record cycle := {
  c_now : instant;
  listing : option (list Container);
  saved_at : string → instant;
  alive : string → bool; saves : string → bool;
  alive_stripe : string → bool; loads : string → bool; accepts : string → bool }.

(** src/internal/billing/metering.go:209-222 Meter.collect.group *)
Definition add_container (m : gmap string TenantUsage) (c : Container) : gmap string TenantUsage :=
  let tid := default "" (cLabels c !! "monster.tenant") in
  if decide (tid = "") then m
  else
    let u := default {| Containers := 0; AppIDs := [] |} (m !! tid) in
    <[tid := {| Containers := Containers u + 1;
                AppIDs := AppIDs u ++ [default "" (cLabels c !! "monster.app.id")] |}]> m.

Definition tenant_usage (cs : list Container) : gmap string TenantUsage := foldl add_container ∅ cs.

(** [time.Now().UTC().Truncate(time.Hour)] *)
Definition hour_of (t : instant) : instant := t - t `mod` Hour.

(** A tenant after the context ended is not reached, nor is any after it. *)
Fixpoint until_dead {A} (alive : string → bool) (l : list (string * A)) : list (string * A) :=
  match l with
  | [] => []
  | ku :: l => if alive ku.1 then ku :: until_dead alive l else []
  end.

(** src/internal/billing/metering.go:224-242 Meter.collect.record *)
Definition usage_rows (c : cycle) (l : list (string * TenantUsage)) : list UsageRecord :=
  omap (λ ku, if saves c ku.1 then
                Some {| rTenantID := ku.1; rMetricType := "containers";
                        rValue := GoTime.f64_of_Z (Containers ku.2);
                        rHourBucket := hour_of (c_now c); rCreatedAt := saved_at c ku.1 |}
              else None) (until_dead (alive c) l).

(** src/internal/billing/stripe.go:113-129 StripeClient.ReportUsage *)
Definition ReportUsage (it : string) (qty : Z) (ts : instant) (ok : bool) : option Report :=
  if decide (it = "") then None
  else if qty <? 0 then None
  else if ok then Some {| item := it; quantity := qty; timestamp := time_unix ts |} else None.

(** What one tenant's usage makes of the cycle: the report that Stripe accepted.
    src/internal/billing/metering.go:266-287 Meter.reportUsageToStripe.tenant *)
Definition report_one (accounts : gmap string Tenant) (c : cycle) (ku : string * TenantUsage) : option Report :=
  t ← (if loads c ku.1 then accounts !! ku.1 else None);
  match GetStripeMetadata t with
  | Err _ => None
  | Ok md => if decide (SubscriptionItemID md = "") then None
             else ReportUsage (SubscriptionItemID md) (Containers ku.2) (hour_of (c_now c)) (accepts c ku.1)
  end.

(** src/internal/billing/metering.go:260-301 Meter.reportUsageToStripe *)
Definition reportUsageToStripe (bus : bool) (m : Meter) (c : cycle) (l : list (string * TenantUsage)) : Meter :=
  let done := omap (λ ku, r ← report_one (accounts m) c ku; Some (ku.1, r)) (until_dead (alive_stripe c) l) in
  {| accounts := accounts m; usage := usage m; reports := reports m ++ done.*2;
     told := told m ++
       (if bus then (λ kr : string * Report,
          {| evType := "billing.usage.reported"; evTenant := kr.1;
             evData := [("subscription_item_id", JStr (item kr.2)); ("quantity", JNum (quantity kr.2));
                        ("bucket", JTime (hour_of (c_now c)))] |}) <$> done else []) |}.

(** [order] is how the map is walked; when the context ends while rows are written nothing is
    reported.
    src/internal/billing/metering.go:183-252 Meter.collect *)
Definition collect (order : gmap string TenantUsage → list (string * TenantUsage)) (stripe bus : bool)
    (m : Meter) (c : cycle) : Meter :=
  match listing c with
  | None => m
  | Some cs =>
      let l := order (tenant_usage cs) in
      let m := {| accounts := accounts m; usage := usage m ++ usage_rows c l; reports := reports m;
                  told := told m |} in
      if forallb (λ ku, alive c ku.1) l && stripe then reportUsageToStripe bus m c l else m
  end.

(** *** Its lifecycle *)

(** [loops] counts the collecting goroutines, [stopping] the calls of [Stop] that wait for them.
    src/internal/billing/metering.go:71-76 Meter.mu *)
Record lifecycle := { started : bool; stopped : bool; loops : nat; stopping : nat }.

(** src/internal/billing/metering.go:110-119 Meter.Start *)
Definition Start (s : lifecycle) : lifecycle :=
  if stopped s || started s then s
  else {| started := true; stopped := stopped s; loops := S (loops s); stopping := stopping s |}.

(** The part of [Stop] under the lock; it then waits, unless there is nothing to wait for.
    src/internal/billing/metering.go:125-144 Meter.Stop *)
Definition Stop_begin (s : lifecycle) : lifecycle :=
  if stopped s then {| started := started s; stopped := true; loops := loops s; stopping := S (stopping s) |}
  else {| started := started s; stopped := true; loops := loops s;
          stopping := if started s then S (stopping s) else stopping s |}.

Inductive life_step : lifecycle → lifecycle → Prop :=
| L_start s : life_step s (Start s)
| L_stop s : life_step s (Stop_begin s)
| L_exit s n : loops s = S n → stopped s = true →
    life_step s {| started := started s; stopped := true; loops := n; stopping := stopping s |}
| L_panic s n : loops s = S n →
    life_step s {| started := started s; stopped := stopped s; loops := n; stopping := stopping s |}
| L_wait s n : stopping s = S n → loops s = 0%nat →
    life_step s {| started := started s; stopped := stopped s; loops := 0; stopping := n |}.

Definition new_meter : lifecycle := {| started := false; stopped := false; loops := 0; stopping := 0 |}.

(** ** Quotas and the handlers *)

(** src/internal/billing/metering.go:334-338 QuotaStatus *)
Record QuotaStatus := { AppsUsed : Z; AppsLimit : Z; AppsOK : bool }.

(** [total] is the tenant's number of applications, [None] if it cannot be read.
    src/internal/billing/metering.go:317-331 QuotaCheckCtx *)
Definition QuotaCheckCtx (total : option Z) (plan : Plan) : option QuotaStatus :=
  n ← total;
  Some {| AppsUsed := n; AppsLimit := MaxApps plan; AppsOK := (MaxApps plan <? 0) || (n <? MaxApps plan) |}.

(** src/internal/api/handlers/billing.go:126-131 usageRecordTime *)
Definition usageRecordTime (r : UsageRecord) : instant :=
  if rHourBucket r =? zero_time then rCreatedAt r else rHourBucket r.

(** [records] is the tenant's first page, [None] if it cannot be read.
    src/internal/api/handlers/billing.go:100-124 latestUsageMetric *)
Definition latestUsageMetric (records : option (list UsageRecord)) (types : list string) : Z :=
  match records with
  | None => 0
  | Some rs =>
      let latest := foldl (λ acc r,
        if decide (rMetricType r ∉ types) then acc
        else match acc with
             | None => Some r
             | Some l => if usageRecordTime l <? usageRecordTime r then Some r else acc
             end) None rs in
      match latest with Some r => GoTime.f64_to_int64 (rValue r) | None => 0 end
  end.

Record Usage := {
  u_plan : Plan; u_apps : Z; u_containers : Z; u_ram : Z; u_apps_ok : bool; u_containers_ok : bool; u_ram_ok : bool }.

(** src/internal/api/handlers/billing.go:29-98 BillingHandler.GetUsage *)
Definition GetUsage (tenant : option (option Tenant)) (apps quota_apps : option Z)
    (recs_containers recs_ram : option (list UsageRecord)) : result Z Usage :=
  match tenant with
  | None => Err 401
  | Some None => Err 500
  | Some (Some t) =>
      match BuiltinPlans with
      | [] => Err 500
      | free :: _ =>
          let plan := default free (findPlanByID BuiltinPlans (PlanID t)) in
          let n := default 0 apps in
          let containers := latestUsageMetric recs_containers ["containers"] in
          let ram := latestUsageMetric recs_ram ["ram_mb"; "memory_mb"; "ram"] in
          Ok {| u_plan := plan; u_apps := n; u_containers := containers; u_ram := ram;
                u_apps_ok := match QuotaCheckCtx quota_apps plan with
                             | Some q => AppsOK q
                             | None => (MaxApps plan <? 0) || (n <? MaxApps plan)
                             end;
                u_containers_ok := (MaxContainers plan <? 0) || (containers <? MaxContainers plan);
                u_ram_ok := (MaxRAMMB plan <? 0) || (ram <=? MaxRAMMB plan) |}
      end
  end.

(** src/internal/api/handlers/stripe_webhook.go:29-32 stripeRateLimitEntry *)
Record stripeRateLimitEntry := { Count : Z; ResetAt : instant }.

Definition stripeWebhookRateLimit : Z := 30.
Definition stripeWebhookRateWindow : duration := Minute.
Definition maxStripeWebhookBody : Z := 512 * 1024.

(** src/internal/api/handlers/stripe_webhook.go:151-158 stripPort *)
Definition stripPort (addr : string) : string :=
  match last_index ":"%char (bytes addr) with
  | Some i => if negb (Contains addr "]") && Nat.eqb (count_byte ":"%char (bytes addr)) 1
              then str (take i (bytes addr)) else addr
  | None => addr
  end.

(** The limiter: the new table and whether the request goes on.
    src/internal/api/handlers/stripe_webhook.go:81-108 StripeWebhookHandler.ServeHTTP.limit *)
Definition limit (now : instant) (ls : gmap string stripeRateLimitEntry) (ip : string)
  : gmap string stripeRateLimitEntry * bool :=
  let fresh := (<[ip := {| Count := 1; ResetAt := now + stripeWebhookRateWindow |}]> ls, true) in
  match ls !! ip with
  | None => fresh
  | Some e => if ResetAt e <? now then fresh
              else if stripeWebhookRateLimit <=? Count e then (ls, false)
              else (<[ip := {| Count := Count e + 1; ResetAt := ResetAt e |}]> ls, true)
  end.

(** The body is [None] when it cannot be read.
    src/internal/api/handlers/stripe_webhook.go:75-148 StripeWebhookHandler.ServeHTTP *)
Definition ServeHTTP (cfg : Config) (configured : bool) (now : instant) (o : others) (m : moment)
    (st : gmap string stripeRateLimitEntry * StripeEventHandler) (addr signature : string) (b : option string)
  : gmap string stripeRateLimitEntry * StripeEventHandler * Z :=
  let '(ls, h) := st in
  if negb configured then (ls, h, 503)
  else
    let '(ls, go) := limit now ls (stripPort addr) in
    if negb go then (ls, h, 429)
    else if decide (signature = "") then (ls, h, 400)
    else match b with
         | None => (ls, h, 400)
         | Some s =>
             if maxStripeWebhookBody <? Z.of_nat (slen s) then (ls, h, 413) else
             match Handle cfg o m h s signature with
             | (h, Ok _) => (ls, h, 200)
             | (h, Err ErrStripeInvalidSignature) => (ls, h, 400)
             | (h, Err _) => (ls, h, 500)
             end
         end.

(** ** The metadata *)

Lemma dec_enc_stripe m : dec_stripe (enc_stripe m) = Some m.
Proof.
  destruct m as [c s i p st ok ko u]. unfold enc_stripe, omitempty.
  cbn [CustomerID SubscriptionID SubscriptionItemID PriceID Status PaymentLastSucceededAt PaymentLastFailedAt UpdatedAt].
  repeat match goal with |- context [decide (?x = "")] => destruct (decide (x = "")) as [->|] end; reflexivity.
Qed.

Definition blob (t : Tenant) : gmap string json :=
  match blob_of (MetadataJSON t) with Ok (Some m) => m | _ => ∅ end.

Lemma blob_written (b : gmap string json) plan :
  blob_of (if decide (b = ∅) then NoText else Doc (JObj (map_to_list b))) = Ok (Some b) ∧
  blob {| PlanID := plan; MetadataJSON := if decide (b = ∅) then NoText else Doc (JObj (map_to_list b)) |} = b.
Proof.
  assert (blob_of (if decide (b = ∅) then NoText else Doc (JObj (map_to_list b))) = Ok (Some b)) as H.
  { destruct (decide (b = ∅)) as [->|Hne]; [done|]. cbn. do 2 f_equal.
    rewrite <- (list_to_map_to_list b) at 2. apply list_to_map_proper.
    - rewrite fmap_reverse. apply (NoDup_Permutation_proper _ _ (reverse_Permutation _)). apply NoDup_fst_map_to_list.
    - apply reverse_Permutation. }
  split; [done|]. unfold blob. cbn [MetadataJSON]. by rewrite H.
Qed.

Lemma SetStripe_spec t md t' :
  SetStripeMetadata t md = Ok t' →
  PlanID t' = PlanID t ∧ GetStripeMetadata t' = Ok (if IsZero md then no_stripe else md) ∧
  ∀ k, k ≠ stripeMetadataKey → blob t' !! k = blob t !! k.
Proof.
  unfold SetStripeMetadata. destruct (blob_of (MetadataJSON t)) as [b|] eqn:Hb; [|done].
  assert (default ∅ b = blob t) as Hbl by (unfold blob; rewrite Hb; by destruct b).
  destruct (if IsZero md then _ else _) as [b'|] eqn:Hb'; [|done]. intros [= <-]. cbn [PlanID].
  destruct (blob_written b' (PlanID t)) as [Hw Hbw]. split_and!; [done| |].
  - unfold GetStripeMetadata. cbn [MetadataJSON]. rewrite Hw. cbn [mbind option_bind].
    destruct (IsZero md); [injection Hb' as <-; by rewrite lookup_delete_eq|].
    destruct b as [b|]; [|done]. injection Hb' as <-. by rewrite lookup_insert_eq, dec_enc_stripe.
  - intros k Hk. rewrite Hbw, <- Hbl.
    destruct (IsZero md); [injection Hb' as <-; by rewrite lookup_delete_ne|].
    destruct b as [b|]; [|done]. injection Hb' as <-. by rewrite lookup_insert_ne.
Qed.

(** What is written to a tenant's Stripe state is read back, the other keys of its metadata and its
    plan unchanged; a state with nothing but an update time is removed. *)
Theorem stripe_metadata_roundtrip t md t' :
  SetStripeMetadata t md = Ok t' →
  PlanID t' = PlanID t ∧ GetStripeMetadata t' = Ok (if IsZero md then no_stripe else md) ∧
  ∀ k, k ≠ stripeMetadataKey → blob t' !! k = blob t !! k.
Proof. apply SetStripe_spec. Qed.

Definition demo_tenant : Tenant := {| PlanID := "free"; MetadataJSON := Doc (JObj [("crm", JStr "42")]) |}.
Definition demo_stripe : StripeMetadata :=
  {| CustomerID := "cus_1"; SubscriptionID := "sub_1"; SubscriptionItemID := "si_1"; PriceID := "price_pro";
     Status := "active"; PaymentLastSucceededAt := zero_time; PaymentLastFailedAt := zero_time; UpdatedAt := 5 |}.

Lemma stripe_metadata_roundtrip_witness :
  ∃ t', SetStripeMetadata demo_tenant demo_stripe = Ok t' ∧ GetStripeMetadata t' = Ok demo_stripe.
Proof.
  destruct (SetStripeMetadata demo_tenant demo_stripe) as [t'|e] eqn:E; [|discriminate E].
  exists t'. split; [done|]. apply (stripe_metadata_roundtrip demo_tenant demo_stripe t' E).
Defined.

(** ** Deliveries *)

Section Deliveries.
Variable cfg : Config.

(** What [dispatch] does to the replay table: nothing. *)
Lemma emit_seen h ty t d : seen (emit cfg h ty t d) = seen h.
Proof. unfold emit. by destruct (has_bus cfg). Qed.

Lemma UpdateTenant_seen m h id t h' : UpdateTenant m h id t = Ok h' → seen h' = seen h.
Proof. unfold UpdateTenant. destruct (updates m); [|done]. by intros [= <-]. Qed.

Lemma try_update_seen m h id f : seen (try_update m h id f) = seen h.
Proof.
  unfold try_update. destruct (decide (id = "")); [done|].
  destruct (orelse _ _) as [t|]; [|done]. destruct (remap _ _) as [md|]; [|done].
  destruct (remap _ _) as [t'|]; [|done].
  destruct (UpdateTenant m h id t') as [h'|] eqn:E; [|done]. by eapply UpdateTenant_seen.
Qed.

Lemma dispatch_seen m h env h' : dispatch cfg m h env = Ok h' → seen h' = seen h.
Proof.
  unfold dispatch, handleSubscriptionUpdated, handleSubscriptionCanceled, handleInvoicePaid,
    handleInvoicePaymentFailed, handlePaymentIntentSucceeded, handleCheckoutCompleted.
  intros H. repeat (case_match; simplify_eq; try done); rewrite ?emit_seen, ?try_update_seen; try done;
    by eapply UpdateTenant_seen.
Qed.

Record delivery := { at_ : moment; payload : string; signature : string }.

Definition deliver (o : others) (h : StripeEventHandler) (d : delivery) : StripeEventHandler * result stripe_error unit :=
  Handle cfg o (at_ d) h (payload d) (signature d).

(** One access of one request to the shared tables.  Requests interleave access by access; a
    restart of the process loses the replay table. *)
Inductive access :=
| ACheck (now : instant) (payload signature : string)
| ADispatch (m : moment) (env : stripeEventEnvelope)
| AMark (now : instant) (id : string)
| ARestart.

Definition make (h : StripeEventHandler) (a : access) : StripeEventHandler :=
  match a with
  | ACheck now p s => (check cfg now h p s).1
  | ADispatch m env => match dispatch cfg m h env with Ok h => h | Err _ => h end
  | AMark now id => mark now h id
  | ARestart => with_seen h ∅
  end.

(** The access happens in the 72 hours from [t] on, in the same process. *)
Definition within_ttl (t : instant) (a : access) : Prop :=
  match a with
  | ACheck now _ _ | AMark now _ => t ≤ now ≤ t + seenTTL
  | ADispatch _ _ => True
  | ARestart => False
  end.

(** The event is remembered since [t] or later. *)
Definition remembered (t : instant) (id : string) (s : gmap string instant) : Prop := ∃ t', s !! id = Some t' ∧ t ≤ t'.

Lemma sweep_keeps t now s id : now ≤ t + seenTTL → remembered t id s → remembered t id (sweepLocked now s).
Proof.
  intros Hn (t' & Hs & Ht). exists t'. split; [|done]. unfold sweepLocked. apply map_lookup_filter_Some. split; [done|]. cbn. lia.
Qed.

Lemma mark_remembers t now h id id' :
  t ≤ now ≤ t + seenTTL → id' = id ∨ remembered t id (seen h) → id ≠ "" → remembered t id (seen (mark now h id')).
Proof.
  intros Hn H Hid. unfold mark, markProcessed. destruct (decide (id' = id)) as [->|Hne].
  - rewrite decide_False by done. exists now. cbn [seen with_seen]. rewrite lookup_insert_eq. split; [done|lia].
  - destruct H as [|H]; [done|]. destruct (decide (id' = "")); [done|]. cbn [seen with_seen].
    destruct (sweep_keeps t now _ _ (proj2 Hn) H) as (t' & Hs & Ht). exists t'. by rewrite lookup_insert_ne.
Qed.

(** What the check leaves of the replay table: all of it, or what the sweep keeps. *)
Lemma check_seen now h p s :
  seen (check cfg now h p s).1 = seen h ∨ seen (check cfg now h p s).1 = sweepLocked now (seen h).
Proof.
  unfold check. destruct (verified cfg p s); [|by left]. destruct (envelope_of cfg p) as [env|]; [|by left].
  cbn [negb]. destruct (decide (eID env = "")); [by left|by right].
Qed.

Lemma access_remembers t id h a :
  id ≠ "" → within_ttl t a → remembered t id (seen h) → remembered t id (seen (make h a)).
Proof.
  intros Hid Ha Hs. destruct a as [now p s|m env|now id'|]; cbn [make within_ttl] in *; [| | |done].
  - destruct (check_seen now h p s) as [->| ->]; [done|]. apply sweep_keeps; [lia|done].
  - destruct (dispatch cfg m h env) as [h'|] eqn:E; [|done]. by rewrite (dispatch_seen _ _ _ _ E).
  - apply mark_remembers; auto.
Qed.

Lemma accesses_remember t id acts : ∀ h,
  id ≠ "" → Forall (within_ttl t) acts → remembered t id (seen h) → remembered t id (seen (foldl make h acts)).
Proof.
  induction acts as [|a acts IH]; intros h Hid Ha Hs; [done|]. apply Forall_cons in Ha as [Ha Hr].
  cbn. apply IH; [done..|]. by apply access_remembers.
Qed.

(** A delivery that went past the check and succeeded has marked its event, last. *)
Lemma success_marks o h d env h1 :
  (check cfg (t_check (at_ d)) h (payload d) (signature d)).2 = Ok (Some env) → deliver o h d = (h1, Ok tt) →
  ∃ h0, h1 = mark (t_mark (at_ d)) h0 (eID env).
Proof.
  unfold deliver, Handle. destruct (check cfg _ h _ _) as [h0 r]. cbn [snd]. intros ->.
  destruct (dispatch cfg (at_ d) _ env); [|done]. intros [= <-]. by eexists.
Qed.

(** A delivery of a remembered event is a replay. *)
Lemma replay_checked t now h p s env :
  verified cfg p s = true → envelope_of cfg p = Ok env → eID env ≠ "" → now ≤ t + seenTTL →
  remembered t (eID env) (seen h) →
  check cfg now h p s = (with_seen h (sweepLocked now (seen h)), Ok None).
Proof.
  intros Hv He Hid Hn Hs. unfold check. rewrite Hv, He. cbn [negb]. rewrite decide_False by done.
  unfold alreadyProcessed. cbv zeta. rewrite bool_decide_eq_true_2; [done|].
  destruct (sweep_keeps t now _ _ Hn Hs) as (t' & Hs' & _). by exists t'.
Qed.

(** C35. Stripe's events take effect once: after an event was handled with success, a delivery with
    its identifier that is signed, parsable and checked in the 72 hours after the first one's mark is
    acknowledged and changes neither a tenant nor the event bus.  Between the mark and that check,
    and during both deliveries, other requests may check, dispatch and mark in any order.  Conditions:
    the process is not restarted (the table of handled events is in memory) and its clock stays in
    the 72 hours.  The table is not locked from the check to the mark: a copy checked before the
    first one's mark takes effect as well ([overlapping_copies_both_apply]). *)
Theorem stripe_event_takes_effect_once o h d env h1 acts o2 d2 env2 :
  (check cfg (t_check (at_ d)) h (payload d) (signature d)).2 = Ok (Some env) → eID env ≠ "" →
  deliver o h d = (h1, Ok tt) →
  Forall (within_ttl (t_mark (at_ d))) acts → t_check (at_ d2) ≤ t_mark (at_ d) + seenTTL →
  verified cfg (payload d2) (signature d2) = true → envelope_of cfg (payload d2) = Ok env2 →
  eID env2 = eID env →
  let h2 := foldl make h1 acts in
  (deliver o2 h2 d2).2 = Ok tt ∧ tenants (deliver o2 h2 d2).1 = tenants h2 ∧ outbox (deliver o2 h2 d2).1 = outbox h2.
Proof.
  intros Hc Hid Hd Hacts Hd2 Hv2 He2 Hid2 h2. destruct (success_marks _ _ _ _ _ Hc Hd) as [h0 ->].
  assert (remembered (t_mark (at_ d)) (eID env) (seen h2)) as Hs.
  { apply accesses_remember; [done..|]. apply mark_remembers; auto. unfold seenTTL, Hour, Minute, Second. lia. }
  unfold deliver, Handle. rewrite <- Hid2 in Hid, Hs. by rewrite (replay_checked _ _ _ _ _ _ Hv2 He2 Hid Hd2 Hs).
Qed.

End Deliveries.

Lemma md_errors {A} e (r : result md_error A) x : remap e r = Err x → x = e.
Proof. destruct r; cbn; congruence. Qed.

Lemma load_errors {A} e (o : option A) x : orelse e o = Err x → x = e.
Proof. destruct o; cbn; congruence. Qed.

Lemma update_errors m h id t x : UpdateTenant m h id t = Err x → x = UpdateFailed.
Proof. unfold UpdateTenant. destruct (updates m); congruence. Qed.

(** A dispatch never reports a bad signature. *)
Lemma dispatch_error cfg m h env e : dispatch cfg m h env = Err e → e ≠ ErrStripeInvalidSignature.
Proof.
  unfold dispatch, handleSubscriptionUpdated, handleSubscriptionCanceled, handleInvoicePaid,
    handleInvoicePaymentFailed, handlePaymentIntentSucceeded, handleCheckoutCompleted.
  intros H ->. repeat (case_match; simplify_eq; try done);
    repeat match goal with
    | H : orelse _ _ = Err _ |- _ => apply load_errors in H
    | H : remap _ _ = Err _ |- _ => apply md_errors in H
    | H : UpdateTenant _ _ _ _ = Err _ |- _ => apply update_errors in H
    end; congruence.
Qed.

Lemma verified_error cfg o m h body sig h' e :
  verified cfg body sig = true → Handle cfg o m h body sig = (h', Err e) → e ≠ ErrStripeInvalidSignature.
Proof.
  intros Hv. unfold Handle, check. rewrite Hv. cbn [negb].
  destruct (envelope_of cfg body) as [env|e'] eqn:He.
  - destruct (if decide (eID env = "") then _ else _) as [h1 []]; [done|].
    destruct (dispatch cfg m _ env) eqn:E; intros [= <- <-]; by eapply dispatch_error.
  - intros [= <- <-]. unfold envelope_of, orelse in He. repeat (case_match; simplify_eq; try done).
Qed.

(** Only a delivery signed with the webhook key changes a tenant or reaches the event bus; the
    time in the signature may be any. *)
Theorem only_signed_deliveries_count cfg conf now m ls h addr sig b ls' h' code :
  ServeHTTP cfg conf now alone m (ls, h) addr sig b = (ls', h', code) →
  tenants h' ≠ tenants h ∨ outbox h' ≠ outbox h →
  ∃ key ts body, webhookKey cfg = Some key ∧ key ≠ "" ∧ b = Some body ∧ ts ≠ "" ∧
    signature_parts sig = (ts, hmac_hex key (ts +:+ "." +:+ body)) ∧ code ≠ 400 ∧ code ≠ 429.
Proof.
  unfold ServeHTTP. intros H Hch.
  assert (h' ≠ h) as Hne by (intros ->; by destruct Hch).
  destruct conf; cbn [negb] in H; [|by simplify_eq]. destruct (limit now ls (stripPort addr)) as [ls1 []];
    cbn [negb] in H; [|by simplify_eq]. destruct (decide (sig = "")); [by simplify_eq|].
  destruct b as [body|]; [|by simplify_eq]. destruct (maxStripeWebhookBody <? Z.of_nat (slen body)); [by simplify_eq|].
  destruct (Handle cfg alone m h body sig) as [h2 r] eqn:E.
  assert (verified cfg body sig = true) as Hv.
  { destruct (verified cfg body sig) eqn:Hv; [done|]. unfold Handle, check in E. rewrite Hv in E. cbn in E.
    injection E as <- <-. by simplify_eq. }
  pose proof Hv as Hv'. unfold verified in Hv'. destruct (webhookKey cfg) as [key|] eqn:Hk; [|done].
  unfold VerifyWebhookSignature in Hv'. destruct (decide (key = "")); [done|].
  destruct (signature_parts sig) as [ts sg] eqn:Hsig. destruct (bool_decide (ts = "") || bool_decide (sg = "")) eqn:Hb; [done|].
  apply orb_false_iff in Hb as [Hts%bool_decide_eq_false _]. apply bool_decide_eq_true in Hv' as <-.
  exists key, ts, body. split_and!; try done.
  all: destruct r as [|e]; [by simplify_eq|].
  all: pose proof (verified_error cfg alone m h body sig h2 e Hv E) as He; by destruct e; simplify_eq.
Qed.

(** *** Subscriptions *)

(** The Stripe state of a tenant. *)
Definition stripe_of (h : StripeEventHandler) (id : string) : option StripeMetadata :=
  t ← tenants h !! id; match GetStripeMetadata t with Ok md => Some md | Err _ => None end.

Lemma emit_tenants cfg h ty t d : tenants (emit cfg h ty t d) = tenants h.
Proof. unfold emit. by destruct (has_bus cfg). Qed.

Lemma UpdateTenant_there m h id t0 t h' :
  tenants h !! id = Some t0 → UpdateTenant m h id t = Ok h' → tenants h' = <[id := t]> (tenants h).
Proof. intros Ht. unfold UpdateTenant. destruct (updates m); [|done]. intros [= <-]. cbn. by rewrite decide_True by eauto. Qed.

Lemma GetTenant_there m h id t : orelse LoadTenant (GetTenant m h id) = Ok t → tenants h !! id = Some t.
Proof. unfold GetTenant. destruct (gets m); [|done]. destruct (tenants h !! id); [|done]. cbn. congruence. Qed.

Lemma remap_ok {A} e (r : result md_error A) a : remap e r = Ok a → r = Ok a.
Proof. destruct r; cbn; congruence. Qed.

Lemma IsZero_subscribed md : SubscriptionID md ≠ "" → IsZero md = false.
Proof. intros H. unfold IsZero. by rewrite (bool_decide_eq_false_2 _ H), andb_false_r. Qed.
Lemma IsZero_status md : Status md ≠ "" → IsZero md = false.
Proof. intros H. unfold IsZero. by rewrite (bool_decide_eq_false_2 _ H), andb_false_r. Qed.

Lemma update_applied cfg m h env sub h' :
  Object env ≫= dec_subscription = Some sub → subTenant sub ≠ "" → handleSubscriptionUpdated cfg m h env = Ok h' →
  ∃ md, stripe_of h' (subTenant sub) = Some md ∧ SubscriptionID md = subID sub ∧ Status md = subStatus sub ∧
        CustomerID md = subCustomer sub ∧ (∀ i p, subItem sub = Some (i, p) → SubscriptionItemID md = i ∧ PriceID md = p).
Proof.
  intros Hsub Ht. unfold handleSubscriptionUpdated. rewrite Hsub. cbn [orelse].
  destruct (decide (subID sub = "")) as [|Hid]; [done|]. rewrite decide_False by done.
  destruct (orelse LoadTenant _) as [t|] eqn:Hg; [|done]. apply GetTenant_there in Hg.
  destruct (remap ReadMetadata _) as [md|]; [|done].
  destruct (match subItem sub with Some ip => ip | None => _ end) as [it pr] eqn:Hit. cbv zeta.
  destruct (remap WriteMetadata _) as [t'|] eqn:Hset; [|done]. apply remap_ok, SetStripe_spec in Hset as (_ & Hget & _).
  destruct (UpdateTenant m h (subTenant sub) t') as [h1|] eqn:Hup; [|done]. intros [= <-].
  unfold stripe_of. rewrite emit_tenants, (UpdateTenant_there _ _ _ _ _ _ Hg Hup), lookup_insert_eq. cbn [mbind option_bind].
  rewrite Hget, IsZero_subscribed by done. eexists. split_and!; [done..|].
  intros i p Hi. rewrite Hi in Hit. by injection Hit as -> ->.
Qed.

Lemma cancel_applied cfg m h env sub h' :
  Object env ≫= dec_subscription = Some sub → subTenant sub ≠ "" → handleSubscriptionCanceled cfg m h env = Ok h' →
  (∃ md, stripe_of h' (subTenant sub) = Some md ∧ SubscriptionID md = "" ∧ SubscriptionItemID md = "" ∧
         Status md = "canceled") ∧
  (∀ p, findPlanByID (plans cfg) "free" = Some p →
        ∃ t, tenants h' !! subTenant sub = Some t ∧ PlanID t = ID p).
Proof.
  intros Hsub Ht. unfold handleSubscriptionCanceled. rewrite Hsub. cbn [orelse]. rewrite decide_False by done.
  destruct (orelse LoadTenant _) as [t|] eqn:Hg; [|done]. apply GetTenant_there in Hg.
  destruct (remap ReadMetadata _) as [md|]; [|done]. cbv zeta.
  destruct (remap WriteMetadata _) as [t'|] eqn:Hset; [|done]. apply remap_ok, SetStripe_spec in Hset as (Hp & Hget & _).
  destruct (UpdateTenant m h (subTenant sub) t') as [h1|] eqn:Hup; [|done]. intros [= <-].
  unfold stripe_of. rewrite emit_tenants, (UpdateTenant_there _ _ _ _ _ _ Hg Hup), lookup_insert_eq. cbn [mbind option_bind].
  rewrite Hget, IsZero_status by done.
  split; [by eexists|]. intros p Hfree. exists t'. split; [done|]. rewrite Hp. cbn. by rewrite Hfree.
Qed.

(** A delivery whose identifier is not remembered. *)
Definition fresh (h : StripeEventHandler) (env : stripeEventEnvelope) : Prop :=
  eID env = "" ∨ seen h !! eID env = None.

(** Its dispatch, up to the replay table. *)
Lemma fresh_dispatched cfg h d env h' :
  envelope_of cfg (payload d) = Ok env → fresh h env → deliver cfg alone h d = (h', Ok tt) →
  ∃ h0 h1, tenants h0 = tenants h ∧ dispatch cfg (at_ d) h0 env = Ok h1 ∧ tenants h' = tenants h1.
Proof.
  intros He Hf. unfold deliver, Handle, check, mark. destruct (verified cfg _ _); [|done]. cbn [negb]. rewrite He.
  cbn [before_dispatch before_mark alone]. destruct (decide (eID env = "")) as [Hid|Hid].
  - destruct (dispatch cfg (at_ d) h env) as [h1|] eqn:E; [|done]. intros [= <-]. exists h, h1. by case_decide.
  - destruct Hf as [|Hf]; [done|]. unfold alreadyProcessed. cbv zeta. rewrite bool_decide_eq_false_2.
    + set (h0 := with_seen h _). destruct (dispatch cfg (at_ d) h0 env) as [h1|] eqn:E; [|done].
      intros [= <-]. exists h0, h1. by case_decide.
    + unfold sweepLocked. rewrite map_lookup_filter, Hf. by intros [? ?].
Qed.

(** Deliveries are applied in the order they arrive, not in the order they were created: a
    cancellation takes the tenant's subscription away, and an update that Stripe created before
    it and that is delivered after it gives the subscription back. *)
Theorem stale_update_reverts_cancellation cfg h d1 env1 sub1 h1 d2 env2 sub2 h2 :
  envelope_of cfg (payload d1) = Ok env1 → eType env1 = "customer.subscription.deleted" → fresh h env1 →
  Object env1 ≫= dec_subscription = Some sub1 →
  envelope_of cfg (payload d2) = Ok env2 → eType env2 = "customer.subscription.updated" → fresh h1 env2 →
  Object env2 ≫= dec_subscription = Some sub2 → Created env2 < Created env1 →
  subTenant sub1 = subTenant sub2 → subTenant sub2 ≠ "" →
  deliver cfg alone h d1 = (h1, Ok tt) → deliver cfg alone h1 d2 = (h2, Ok tt) →
  (∃ md, stripe_of h1 (subTenant sub2) = Some md ∧ SubscriptionID md = "" ∧ Status md = "canceled") ∧
  (∃ md, stripe_of h2 (subTenant sub2) = Some md ∧ SubscriptionID md = subID sub2 ∧ Status md = subStatus sub2).
Proof.
  intros He1 Hty1 Hf1 Hsub1 He2 Hty2 Hf2 Hsub2 _ Heq Ht Hd1 Hd2.
  destruct (fresh_dispatched cfg h d1 env1 h1 He1 Hf1 Hd1) as (a & a' & _ & Ha & Hta).
  destruct (fresh_dispatched cfg h1 d2 env2 h2 He2 Hf2 Hd2) as (b & b' & _ & Hb & Htb).
  unfold dispatch in Ha, Hb. rewrite Hty1 in Ha. rewrite Hty2 in Hb. cbv zeta in Ha, Hb.
  rewrite decide_True in Hb by auto. rewrite decide_False in Ha by (by intros [?|?]). rewrite decide_True in Ha by done.
  split.
  - destruct (cancel_applied cfg _ _ _ _ _ Hsub1 ltac:(by rewrite Heq) Ha) as [(md & Hmd & ? & _ & ?) _].
    exists md. rewrite Heq in Hmd. unfold stripe_of in *. by rewrite Hta.
  - destruct (update_applied cfg _ _ _ _ _ Hsub2 Ht Hb) as (md & Hmd & ? & ? & _).
    exists md. unfold stripe_of in *. by rewrite Htb.
Qed.

(** A tenant whose subscription was canceled is back on the free plan and is not metered: no
    collection reports usage for it. *)
Theorem canceled_tenant_not_metered cfg h d env sub h' free c u :
  envelope_of cfg (payload d) = Ok env → eType env = "customer.subscription.deleted" → fresh h env →
  Object env ≫= dec_subscription = Some sub → subTenant sub ≠ "" →
  findPlanByID (plans cfg) "free" = Some free → deliver cfg alone h d = (h', Ok tt) →
  (∃ t, tenants h' !! subTenant sub = Some t ∧ PlanID t = ID free) ∧
  report_one (tenants h') c (subTenant sub, u) = None.
Proof.
  intros He Hty Hf Hsub Ht Hfree Hd. destruct (fresh_dispatched cfg h d env h' He Hf Hd) as (a & a' & _ & Ha & Hta).
  unfold dispatch in Ha. rewrite Hty in Ha. cbv zeta in Ha. rewrite decide_False in Ha by (by intros [?|?]). rewrite decide_True in Ha by done.
  destruct (cancel_applied cfg _ _ _ _ _ Hsub Ht Ha) as [(md & Hmd & _ & Hit & _) Hplan].
  rewrite Hta. split; [by apply Hplan|]. unfold report_one. cbn [fst]. destruct (loads c (subTenant sub)); [|done].
  unfold stripe_of in Hmd. destruct (tenants a' !! subTenant sub) as [t|]; [|done]. cbn [mbind option_bind] in *.
  destruct (GetStripeMetadata t) as [md'|]; [|done]. simplify_eq. by rewrite decide_True.
Qed.

(** *** Metering *)

Definition tenant_label (c : Container) : string := default "" (cLabels c !! "monster.tenant").
Definition count_of (tid : string) (cs : list Container) : Z := zlen (filter (λ c, tenant_label c = tid) cs).

Lemma tenant_usage_count tid cs :
  tid ≠ "" → match tenant_usage cs !! tid with Some u => Containers u | None => 0 end = count_of tid cs.
Proof.
  intros Ht. unfold tenant_usage, count_of. induction cs as [|c cs IH] using rev_ind; [done|].
  rewrite foldl_app, filter_app, length_app, Nat2Z.inj_add, <- IH. cbn [foldl].
  generalize (foldl add_container ∅ cs) as m. intros m. unfold add_container.
  fold (tenant_label c). destruct (decide (tenant_label c = tid)) as [<-|Hne].
  - rewrite filter_cons_True by done. rewrite decide_False, lookup_insert_eq by done. cbn [Containers].
    destruct (m !! tenant_label c); cbn; lia.
  - rewrite filter_cons_False by done. rewrite filter_nil, Z.add_0_r.
    destruct (decide (tenant_label c = "")); [done|]. by rewrite lookup_insert_ne.
Qed.

Lemma zsum_perm {A} (f : A → Z) l k : l ≡ₚ k → zsum f l = zsum f k.
Proof. induction 1; rewrite ?zsum_cons; lia. Qed.

Lemma zsum_omap {A B} (g : A → option B) (f : B → Z) l :
  zsum f (omap g l) = zsum (λ x, match g x with Some y => f y | None => 0 end) l.
Proof. induction l as [|x l IH]; [done|]. cbn [omap list_omap]. rewrite zsum_cons. destruct (g x); rewrite ?zsum_cons; lia. Qed.

(** A sum to which only one key contributes. *)
Lemma zsum_one_key {A} (f : string * A → Z) (l : list (string * A)) k :
  NoDup l.*1 → (∀ k' a, k' ≠ k → f (k', a) = 0) →
  zsum f l = match (list_to_map l : gmap string A) !! k with Some a => f (k, a) | None => 0 end.
Proof.
  intros Hnd Hf. induction l as [|[k' a] l IH]; [done|]. cbn in Hnd. apply NoDup_cons in Hnd as [Hin Hnd].
  rewrite zsum_cons, IH by done. cbn [list_to_map foldr]. cbn. destruct (decide (k' = k)) as [->|Hne].
  - rewrite lookup_insert_eq. rewrite (not_elem_of_list_to_map_1 l k Hin). lia.
  - rewrite lookup_insert_ne, Hf by done. lia.
Qed.

(** A cycle in which everything answers, in the hour [H]. *)
Record good_cycle (H : instant) (c : cycle) : Prop := {
  g_hour : hour_of (c_now c) = H;
  g_listing : is_Some (listing c);
  g_alive : ∀ t, alive c t = true; g_alive2 : ∀ t, alive_stripe c t = true;
  g_loads : ∀ t, loads c t = true; g_accepts : ∀ t, accepts c t = true }.

Lemma until_dead_all {A} alive (l : list (string * A)) : (∀ t, alive t = true) → until_dead alive l = l.
Proof. intros Ha. induction l as [|ku l IH]; [done|]. cbn. by rewrite Ha, IH. Qed.

(** The subscription item of a tenant. *)
Definition item_of (acc : gmap string Tenant) (tid : string) : option string :=
  t ← acc !! tid; match GetStripeMetadata t with Ok md => Some (SubscriptionItemID md) | Err _ => None end.

Section Quantities.
Variable order : gmap string TenantUsage → list (string * TenantUsage).
Hypothesis order_all : ∀ m, order m ≡ₚ map_to_list m.
Variables (bus : bool) (tid it : string) (H : instant) (acc : gmap string Tenant).
Hypothesis item_it : item_of acc tid = Some it.
Hypothesis it_set : it ≠ "".
Hypothesis item_only : ∀ k, item_of acc k = Some it → k = tid.

Definition billed (r : Report) : Z := if decide (item r = it ∧ timestamp r = time_unix H) then quantity r else 0.

Lemma report_billed c k u :
  good_cycle H c → 0 ≤ Containers u →
  match report_one acc c (k, u) with Some r => billed r | None => 0 end = if decide (k = tid) then Containers u else 0.
Proof.
  intros [Hh _ _ _ Hl Ha] Hu. unfold report_one. cbn [fst snd]. rewrite Hl.
  assert (item_of acc k = t ← acc !! k; match GetStripeMetadata t with Ok md => Some (SubscriptionItemID md) | Err _ => None end) as Hi by done.
  destruct (acc !! k) as [t|] eqn:Hk; cbn [mbind option_bind] in *.
  - destruct (GetStripeMetadata t) as [md|].
    + destruct (decide (SubscriptionItemID md = "")) as [He|He].
      * rewrite decide_False; [done|]. intros ->. congruence.
      * unfold ReportUsage. rewrite decide_False by done. rewrite (proj2 (Z.ltb_ge _ _) Hu), Ha. unfold billed.
        cbn [item quantity timestamp]. rewrite Hh. destruct (decide (k = tid)) as [->|Hne].
        -- rewrite decide_True; [done|]. split; [congruence|done].
        -- rewrite decide_False; [done|]. intros [Heq _]. apply Hne, item_only. congruence.
    + rewrite decide_False; [done|]. intros ->. congruence.
  - rewrite decide_False; [done|]. intros ->. congruence.
Qed.

Lemma usage_nonneg cs k u : tenant_usage cs !! k = Some u → 0 ≤ Containers u.
Proof.
  unfold tenant_usage. revert k u. induction cs as [|c cs IH] using rev_ind; intros k u; [done|].
  rewrite foldl_app. cbn [foldl]. revert IH. generalize (foldl add_container ∅ cs) as m. intros m IH.
  unfold add_container. fold (tenant_label c).
  destruct (decide (tenant_label c = "")); [apply IH|].
  rewrite lookup_insert_Some. intros [[<- <-]|[_ Hk]]; [|by apply (IH k)]. cbn.
  destruct (m !! tenant_label c) as [v|] eqn:E; cbn; [apply IH in E; lia|lia].
Qed.

Lemma collect_billed m c :
  accounts m = acc → good_cycle H c → tid ≠ "" →
  zsum billed (reports (collect order true bus m c)) =
  zsum billed (reports m) + count_of tid (default [] (listing c)) ∧ accounts (collect order true bus m c) = acc.
Proof.
  intros Hacc Hg Ht. pose proof Hg as [_ [cs Hcs] Hal Hal2 _ _]. unfold collect. rewrite Hcs. change (default [] (Some cs)) with cs.
  assert (forallb (λ ku, alive c ku.1) (order (tenant_usage cs)) = true) as ->
    by (apply forallb_forall; intros; apply Hal).
  cbn [andb]. unfold reportUsageToStripe. cbn [accounts reports]. rewrite Hacc. split; [|done].
  rewrite zsum_app, until_dead_all by done. f_equal. rewrite zsum_fmap, zsum_omap.
  rewrite (zsum_perm _ _ _ (order_all _)).
  transitivity (zsum (λ ku : string * TenantUsage, if decide (ku.1 = tid) then Containers ku.2 else 0) (map_to_list (tenant_usage cs))).
  - apply zsum_ext. intros [k u] Hku%elem_of_map_to_list. cbn [fst snd].
    rewrite <- (report_billed c k u Hg (usage_nonneg _ _ _ Hku)).
    destruct (report_one acc c (k, u)); reflexivity.
  - rewrite (zsum_one_key _ _ tid).
    + rewrite list_to_map_to_list, <- tenant_usage_count by done. destruct (tenant_usage cs !! tid); [|done]. cbn. by rewrite decide_True.
    + apply NoDup_fst_map_to_list.
    + intros k a Hk. cbn. by rewrite decide_False.
Qed.

(** Every collection adds the tenant's number of containers to the quantity of its subscription
    item for the running hour: with a collection a minute, one container that runs for an hour is
    billed sixty times. *)
Theorem usage_added_every_collection m cs :
  accounts m = acc → tid ≠ "" → Forall (good_cycle H) cs →
  zsum billed (reports (foldl (collect order true bus) m cs)) =
  zsum billed (reports m) + zsum (λ c, count_of tid (default [] (listing c))) cs.
Proof.
  intros Hacc Ht Hcs. revert m Hacc. induction Hcs as [|c cs Hc _ IH]; intros m Hacc; [cbn; lia|].
  destruct (collect_billed m c Hacc Hc Ht) as [Hr Ha]. cbn [foldl]. rewrite IH, Hr, zsum_cons by done. lia.
Qed.

End Quantities.

(** *** The lifecycle of the meter *)

Definition life_ok (s : lifecycle) : Prop := (loops s ≤ 1)%nat ∧ (started s = false → loops s = 0%nat).

Lemma life_step_ok s s' : life_step s s' → life_ok s → life_ok s'.
Proof.
  unfold life_ok. intros [s0|s0|s0 n Hn _|s0 n Hn|s0 n _ _] [H1 H2].
  - unfold Start. destruct (stopped s0 || started s0) eqn:E; [done|]. apply orb_false_iff in E as [_ E].
    cbn. rewrite (H2 E). split; [lia|done].
  - unfold Stop_begin. destruct (stopped s0); cbn; done.
  - cbn. split; [lia|]. intros Hs. apply H2 in Hs. lia.
  - cbn. split; [lia|]. intros Hs. apply H2 in Hs. lia.
  - cbn. split; [lia|done].
Qed.

Lemma life_reachable_ok s s' : rtc life_step s s' → life_ok s → life_ok s'.
Proof. induction 1; eauto using life_step_ok. Qed.

(** At most one goroutine ever collects, so no interval is counted twice; once a [Stop] has found
    none running, none runs again, whatever [Start] and [Stop] are called. *)
Theorem one_meter_loop s s' :
  rtc life_step new_meter s → rtc life_step s s' →
  (loops s ≤ 1)%nat ∧ (stopped s = true → loops s = 0%nat → loops s' = 0%nat).
Proof.
  intros Hs Hs'. split; [apply (life_reachable_ok _ _ Hs); by split; [cbn; lia|]|].
  induction Hs' as [s|s s1 s2 Hstep _ IH]; [done|]. intros Hst Hl. apply IH.
  - eapply rtc_r; eauto.
  - destruct Hstep; cbn; try done; unfold Start, Stop_begin; by rewrite ?Hst.
  - destruct Hstep; cbn; try congruence; unfold Start, Stop_begin; by rewrite ?Hst.
Qed.

(** ** Examples *)

Definition sub_doc (id created : string * Z) (ty sub item status : string) : json :=
  JObj [("id", JStr (id.1)); ("type", JStr ty); ("created", JNum (created.2));
        ("data", JObj [("object", JObj [("id", JStr sub); ("customer", JStr "cus_1"); ("status", JStr status);
          ("metadata", JObj [("tenant_id", JStr "t1")]);
          ("items", JObj [("data", JArr [JObj [("id", JStr item); ("price", JObj [("id", JStr "price_pro")])]])])])])].

Definition update_doc : json := sub_doc ("evt_1", 0) ("", 100) "customer.subscription.updated" "sub_1" "si_1" "active".
Definition cancel_doc : json := sub_doc ("evt_2", 0) ("", 200) "customer.subscription.deleted" "sub_1" "si_1" "canceled".

Definition demo_cfg : Config :=
  {| webhookKey := Some "whsec_1"; plans := BuiltinPlans; has_bus := true;
     decode := λ s, if decide (s = "update") then Some update_doc
                    else if decide (s = "cancel") then Some cancel_doc else None |}.

Definition demo_moment (t : Z) : moment :=
  {| t_check := t * Second; t_apply := t * Second; t_mark := t * Second; gets := true; updates := true |}.
Definition sign (p : string) : string := "t=1,v1=" +:+ hmac_hex "whsec_1" ("1." +:+ p).
Definition demo_delivery (t : Z) (p : string) : delivery := {| at_ := demo_moment t; payload := p; signature := sign p |}.
Definition demo_handler : StripeEventHandler :=
  {| tenants := {[ "t1" := demo_tenant ]}; outbox := []; seen := ∅ |}.

Definition envelope (j : json) : stripeEventEnvelope :=
  default {| eID := ""; eType := ""; Created := 0; Object := None |} (dec_envelope j).
Definition subscription (j : json) : stripeSubscription :=
  default {| subID := ""; subCustomer := ""; subStatus := ""; subTenant := ""; subItem := None |}
    (Object (envelope j) ≫= dec_subscription).

Definition after (p : string) (h : StripeEventHandler) (t : Z) : StripeEventHandler :=
  (deliver demo_cfg alone h (demo_delivery t p)).1.

Lemma demo_verified : verified demo_cfg "update" (sign "update") = true ∧ verified demo_cfg "cancel" (sign "cancel") = true.
Proof. split; vm_compute; reflexivity. Qed.

Lemma demo_ok : (deliver demo_cfg alone demo_handler (demo_delivery 1000 "update")).2 = Ok tt.
Proof. vm_compute. reflexivity. Qed.

Lemma pair_of {A B} (p : A * B) b : p.2 = b → p = (p.1, b).
Proof. by destruct p; intros <-. Qed.

(** A cancellation, applied in three accesses, and a copy of the first event checked meanwhile. *)
Definition meanwhile : list access :=
  [ACheck (2000 * Second) "cancel" (sign "cancel"); ACheck (2001 * Second) "update" (sign "update");
   ADispatch (demo_moment 2002) (envelope cancel_doc); AMark (2003 * Second) "evt_2"].
Definition demo_state : StripeEventHandler := foldl (make demo_cfg) (after "update" demo_handler 1000) meanwhile.

Lemma stripe_event_takes_effect_once_witness :
  (deliver demo_cfg alone demo_state (demo_delivery 3000 "update")).2 = Ok tt ∧
  tenants (deliver demo_cfg alone demo_state (demo_delivery 3000 "update")).1 = tenants demo_state ∧
  outbox (deliver demo_cfg alone demo_state (demo_delivery 3000 "update")).1 = outbox demo_state.
Proof.
  refine (stripe_event_takes_effect_once demo_cfg alone demo_handler (demo_delivery 1000 "update") (envelope update_doc)
            (after "update" demo_handler 1000) meanwhile alone (demo_delivery 3000 "update")
            (envelope update_doc) _ _ (pair_of _ _ demo_ok) _ _ (proj1 demo_verified) eq_refl eq_refl).
  - vm_compute. reflexivity.
  - discriminate.
  - repeat apply List.Forall_cons; [vm_compute; split; discriminate..|exact I|vm_compute; split; discriminate|apply List.Forall_nil].
  - vm_compute. discriminate.
Defined.

(** Two copies checked before either is marked: both are applied and published. *)
Example overlapping_copies_both_apply :
  let o := {| before_dispatch := λ h, after "update" h 1000; before_mark := λ h, h |} in
  let r := deliver demo_cfg o demo_handler (demo_delivery 999 "update") in
  r.2 = Ok tt ∧ length (outbox r.1) = (2 * length (outbox (after "update" demo_handler 1000)))%nat ∧
  outbox (after "update" demo_handler 1000) ≠ [].
Proof. vm_compute. split_and!; [reflexivity..|discriminate]. Qed.

(** A restart forgets the handled events: the next copy is applied again. *)
Example restart_forgets_handled_events :
  let h := make demo_cfg (after "update" demo_handler 1000) ARestart in
  length (outbox (after "update" h 2000)) = S (length (outbox h)).
Proof. vm_compute. reflexivity. Qed.

Lemma demo_cancel_ok :
  (deliver demo_cfg alone demo_handler (demo_delivery 1000 "cancel")).2 = Ok tt ∧
  (deliver demo_cfg alone (after "cancel" demo_handler 1000) (demo_delivery 2000 "update")).2 = Ok tt.
Proof. split; vm_compute; reflexivity. Qed.

Lemma demo_fresh : fresh (after "cancel" demo_handler 1000) (envelope update_doc).
Proof. right. vm_compute. reflexivity. Qed.

Lemma stale_update_reverts_cancellation_witness :
  ∃ md, stripe_of (after "update" (after "cancel" demo_handler 1000) 2000) "t1" = Some md ∧ Status md = "active".
Proof.
  destruct (stale_update_reverts_cancellation demo_cfg demo_handler (demo_delivery 1000 "cancel") (envelope cancel_doc)
    (subscription cancel_doc) (after "cancel" demo_handler 1000) (demo_delivery 2000 "update") (envelope update_doc)
    (subscription update_doc) (after "update" (after "cancel" demo_handler 1000) 2000)) as [_ (md & H & _ & Hs)].
  - reflexivity.
  - reflexivity.
  - right. reflexivity.
  - reflexivity.
  - reflexivity.
  - reflexivity.
  - exact demo_fresh.
  - reflexivity.
  - reflexivity.
  - reflexivity.
  - discriminate.
  - exact (pair_of _ _ (proj1 demo_cancel_ok)).
  - exact (pair_of _ _ (proj2 demo_cancel_ok)).
  - exists md. split; [exact H|exact Hs].
Defined.

Definition busy_cycle (n : nat) : cycle :=
  {| c_now := Hour; listing := Some (replicate n {| cLabels := {[ "monster.tenant" := "t1" ]} |});
     saved_at := λ _, Hour; alive := λ _, true; saves := λ _, true; alive_stripe := λ _, true; loads := λ _, true;
     accepts := λ _, true |}.

Lemma canceled_tenant_not_metered_witness :
  report_one (tenants (after "cancel" demo_handler 1000)) (busy_cycle 1) ("t1", {| Containers := 1; AppIDs := ["a"] |}) = None.
Proof.
  apply (canceled_tenant_not_metered demo_cfg demo_handler (demo_delivery 1000 "cancel") (envelope cancel_doc)
    (subscription cancel_doc) (after "cancel" demo_handler 1000)
    (default {| ID := ""; Name := ""; Description := ""; PriceCents := 0; Currency := ""; StripePriceID := "";
       MaxApps := 0; MaxContainers := 0; MaxCPUCores := 0; MaxRAMMB := 0; MaxDiskGB := 0; MaxBandwidthGB := 0;
       MaxDomains := 0; MaxDatabases := 0; MaxTeamMembers := 0; MaxServers := 0; BuildMinutes := 0; BackupGB := 0;
       Features := [] |} (head BuiltinPlans))).
  - reflexivity.
  - reflexivity.
  - right. reflexivity.
  - reflexivity.
  - discriminate.
  - reflexivity.
  - exact (pair_of _ _ (proj1 demo_cancel_ok)).
Defined.

Lemma only_signed_deliveries_count_witness :
  ∃ key ts body, webhookKey demo_cfg = Some key ∧ key ≠ "" ∧ Some "update" = Some body ∧ ts ≠ "" ∧
    signature_parts (sign "update") = (ts, hmac_hex key (ts +:+ "." +:+ body)) ∧ 200 ≠ 400 ∧ 200 ≠ 429.
Proof.
  pose (r := ServeHTTP demo_cfg true 0 alone (demo_moment 1000) (∅, demo_handler) "1.2.3.4:5" (sign "update") (Some "update")).
  apply (only_signed_deliveries_count demo_cfg true 0 (demo_moment 1000) ∅ demo_handler "1.2.3.4:5" (sign "update")
           (Some "update") r.1.1 r.1.2 200).
  - change (r = (r.1.1, r.1.2, 200)). assert (r.2 = 200) as H by (vm_compute; reflexivity).
    destruct r as [[a b] c]. cbn in *. by rewrite H.
  - right. intros H. apply (f_equal length) in H. vm_compute in H. discriminate H.
Defined.

Definition subscribed : Meter :=
  {| accounts := {[ "t1" := {| PlanID := "pro"; MetadataJSON := Doc (JObj [("stripe", enc_stripe demo_stripe)]) |} ]};
     usage := []; reports := []; told := [] |}.

(** Sixty collections in one hour, of one container: sixty units. *)
Lemma usage_added_every_collection_witness :
  zsum (billed "si_1" Hour) (reports (foldl (collect map_to_list true true) subscribed (replicate 60 (busy_cycle 1)))) = 60.
Proof.
  rewrite (usage_added_every_collection map_to_list (λ m, reflexivity _) true "t1" "si_1" Hour (accounts subscribed)).
  - vm_compute. reflexivity.
  - vm_compute. reflexivity.
  - discriminate.
  - intros k. unfold item_of. destruct (decide (k = "t1")) as [->|Hne]; [done|].
    cbn [accounts subscribed]. by rewrite lookup_singleton_ne.
  - reflexivity.
  - discriminate.
  - apply Forall_replicate. by split.
Defined.

Lemma one_meter_loop_witness :
  (loops (Start (Start new_meter)) ≤ 1)%nat ∧ loops (Start (Stop_begin new_meter)) = 0%nat.
Proof.
  split.
  - apply (one_meter_loop (Start (Start new_meter)) (Start (Start new_meter))); [|reflexivity].
    apply rtc_l with (Start new_meter); [apply (L_start new_meter)|]. apply rtc_once, (L_start (Start new_meter)).
  - apply (one_meter_loop (Stop_begin new_meter) (Start (Stop_begin new_meter))); [| |reflexivity..].
    + apply rtc_once, (L_stop new_meter).
    + apply rtc_once, (L_start (Stop_begin new_meter)).
Defined.

(** Connections over IPv6 keep their port, and have a limit each. *)
Example ipv6_port_kept : stripPort "1.2.3.4:5" = "1.2.3.4" ∧ stripPort "[2001:db8::1]:5" = "[2001:db8::1]:5".
Proof. vm_compute. done. Qed.

End Billing.
