(* ===== verification/Discovery.v ===== *)
(** * Discovery: container labels to routes, and backend health ([internal/discovery])

    The watcher makes the route table follow the running containers; the health checker
    counts failed probes.  Go walks a map in any order: each walk over a container's labels
    is an argument. *)

From S2P Require Import Prelude GoStrings RouteTable Login Deploy DeployPipeline.
#[local] Open Scope Z_scope.

Module Discovery.
Import RouteTable.

(** ** Labels *)

(** The text between the first occurrence of [start] and the next [stop] after it.
    src/internal/discovery/watcher.go:269-275 parseRule.extract *)
Definition extract (start stop rule : string) : string :=
  match Index rule start with
  | None => ""
  | Some i =>
      let rest := drop (i + slen start) (bytes rule) in
      match index_of (bytes stop) rest with
      | Some j => str (take j rest)
      | None => ""
      end
  end.

Definition host_open : string := "Host(`".
Definition path_open : string := "PathPrefix(`".
Definition rule_close : string := "`)".

(** src/internal/discovery/watcher.go:267-287 parseRule *)
Definition parseRule (rule : string) : string * string :=
  (extract host_open rule_close rule, extract path_open rule_close rule).

(** The value of the first label, in the order of the walk, whose key has this shape. *)
Definition find_label (pre suf : string) (walk : list (string * string)) : option string :=
  snd <$> (snd <$> list_find (λ kv, HasSuffix kv.1 suf = true ∧ HasPrefix kv.1 pre = true) walk).

Definition routers : string := "monster.http.routers.".
Definition services : string := "monster.http.services.".

(** [walk n] is the order of the [n]-th loop over the labels.
    src/internal/discovery/watcher.go:197-263 ParseLabelsToRoute *)
Definition ParseLabelsToRoute (walk : nat → list (string * string)) (labels : gmap string string)
    (containerID : string) : option RouteEntry :=
  let '(host, path) := match find_label routers ".rule" (walk 0%nat) with
                       | Some v => parseRule v
                       | None => ("", "")
                       end in
  if decide (host = "") then None
  else
    let port := default "80" (find_label services ".server.port" (walk 1%nat)) in
    let middlewares := match find_label routers ".middlewares" (walk 2%nat) with
                       | Some v => TrimSpace <$> Split v ","%char
                       | None => []
                       end in
    let strategy := default "round-robin" (find_label "" ".strategy" (walk 3%nat)) in
    Some {| Host := host; PathPrefix := if decide (path = "") then "/" else path; Priority := 100;
            ServiceName := default "" (labels !! "monster.app.name");
            Backends := [Login.ShortID containerID 12 +:+ ":" +:+ port]; LBStrategy := strategy;
            Middlewares := middlewares; TLS := false; StripPrefix := false; HealthPath := "";
            AppID := default "" (labels !! "monster.app.id") |}.

(** ** The watcher *)

Record Container := { cID : string; cState : string; cLabels : gmap string string }.

Section Watcher.
Variable srt : list RouteEntry → list RouteEntry.
Variable walk : string → nat → list (string * string).

Definition app_of (c : Container) : string := default "" (cLabels c !! "monster.app.id").

(** A container the watcher looks at.
    src/internal/discovery/watcher.go:139-146 Watcher.syncRoutes.running *)
Definition running (c : Container) : bool :=
  bool_decide (cState c = "running") && negb (bool_decide (app_of c = "")).

Definition route_of (c : Container) : option RouteEntry := ParseLabelsToRoute (walk (cID c)) (cLabels c) (cID c).

(** The first pass: the table and the applications that are up.
    src/internal/discovery/watcher.go:138-155 Watcher.syncRoutes.upsert *)
Fixpoint upsert_all (cs : list Container) (rt : routesSnapshot) (active : gset string)
  : routesSnapshot * gset string :=
  match cs with
  | [] => (rt, active)
  | c :: cs =>
      if running c then
        upsert_all cs (match route_of c with Some r => Upsert srt r rt | None => rt end) ({[app_of c]} ∪ active)
      else upsert_all cs rt active
  end.

(** The second pass, over the routes as they were when it began.
    src/internal/discovery/watcher.go:157-178 Watcher.syncRoutes.stale *)
Fixpoint drop_stale (routes : list RouteEntry) (active seen : gset string) (rt : routesSnapshot) : routesSnapshot :=
  match routes with
  | [] => rt
  | r :: routes =>
      if bool_decide (AppID r = "") || bool_decide (AppID r ∈ active) || bool_decide (AppID r ∈ seen)
      then drop_stale routes active seen rt
      else drop_stale routes active ({[AppID r]} ∪ seen) (RemoveByAppID srt (AppID r) rt)
  end.

(** src/internal/discovery/watcher.go:125-188 Watcher.syncRoutes *)
Definition syncRoutes (containers : option (list Container)) (rt : routesSnapshot) : routesSnapshot :=
  match containers with
  | None => rt
  | Some cs =>
      let '(rt, active) := upsert_all cs rt ∅ in
      drop_stale (All rt) active ∅ rt
  end.

End Watcher.

(** ** The health checker *)

(** src/internal/discovery/health.go:40-51 HealthCheck *)
Record HealthCheck := {
  Backend : string; Type_ : string; Path : string; Interval : duration; Timeout : duration; Healthy : bool;
  LastChecked : instant; LastError : string; Failures : Z; Threshold : Z }.

(** src/internal/discovery/health.go:23-37 HealthChecker *)
Record HealthChecker := { checks : gmap string HealthCheck }.

(** src/internal/discovery/health.go:54-65 NewHealthChecker *)
Definition NewHealthChecker : HealthChecker := {| checks := ∅ |}.

(** src/internal/discovery/health.go:68-81 HealthChecker.Register *)
Definition Register (hc : HealthChecker) (backend ty path : string) : HealthChecker :=
  {| checks := <[backend := {| Backend := backend; Type_ := ty; Path := path; Interval := 10 * Second;
                               Timeout := 5 * Second; Healthy := true; LastChecked := zero_time; LastError := "";
                               Failures := 0; Threshold := 3 |}]> (checks hc) |}.

(** src/internal/discovery/health.go:84-88 HealthChecker.Deregister *)
Definition Deregister (hc : HealthChecker) (backend : string) : HealthChecker :=
  {| checks := delete backend (checks hc) |}.

(** src/internal/discovery/health.go:91-100 HealthChecker.IsHealthy *)
Definition IsHealthy (hc : HealthChecker) (backend : string) : bool :=
  match checks hc !! backend with None => true | Some c => Healthy c end.

(** src/internal/discovery/health.go:268-278 HealthChecker.Status *)
Definition Status (hc : HealthChecker) : gmap string HealthCheck := checks hc.

(** The probes of a sweep, and what each asks.
    src/internal/discovery/health.go:165-175 HealthChecker.checkAll.snapshot *)
Inductive probe := ProbeHTTP (url : string) | ProbeTCP (address : string).

Definition probe_of (c : HealthCheck) : probe :=
  if decide (Type_ c = "http") then ProbeHTTP ("http://" +:+ Backend c +:+ Path c) else ProbeTCP (Backend c).

Definition snapshot (hc : HealthChecker) : list (string * probe) :=
  (λ kc : string * HealthCheck, (Backend kc.2, probe_of kc.2)) <$> map_to_list (checks hc).

(** What a response means: [None] is a healthy backend, [Some] the error.
    src/internal/discovery/health.go:233-256 HealthChecker.probeHTTP *)
Definition probeHTTP (answer : result string Z) : option string :=
  match answer with
  | Err e => Some e
  | Ok code => if 400 <=? code then Some ("HTTP " +:+ itoa code) else None
  end.

(** src/internal/discovery/health.go:146-150 checkResult *)
Record checkResult := { rBackend : string; rErr : option string; rNow : instant }.

(** src/internal/discovery/health.go:205-230 HealthChecker.checkAll.result *)
Definition commit (hc : HealthChecker) (r : checkResult) : HealthChecker :=
  match checks hc !! rBackend r with
  | None => hc
  | Some c =>
      let '(healthy, fails, err) :=
        match rErr r with
        | Some e => (if Threshold c <=? Failures c + 1 then false else Healthy c, Failures c + 1, e)
        | None => (true, 0, "")
        end in
      {| checks := <[rBackend r := {| Backend := Backend c; Type_ := Type_ c; Path := Path c;
           Interval := Interval c; Timeout := Timeout c; Healthy := healthy; LastChecked := rNow r;
           LastError := err; Failures := fails; Threshold := Threshold c |}]> (checks hc) |}
  end.

(** The results of a sweep are committed together; others may have registered or left since its
    snapshot.
    src/internal/discovery/health.go:155-231 HealthChecker.checkAll *)
Definition commit_all (hc : HealthChecker) (rs : list checkResult) : HealthChecker := foldl commit hc rs.

(** ** Routes follow containers *)

Section Sync.
Variable srt : list RouteEntry → list RouteEntry.
Hypothesis srt_ok : sorts srt.
Variable walk : string → nat → list (string * string).

(** The routes the running containers ask for, in the order of the listing. *)
Definition wanted (cs : list Container) : list RouteEntry :=
  omap (λ c, if running c then route_of walk c else None) cs.

(** The last of them with a key. *)
Definition want (cs : list Container) (k : string * string) : option RouteEntry :=
  last (filter (λ r, key r = k) (wanted cs)).

Definition up (cs : list Container) : gset string := list_to_set (app_of <$> filter (λ c, running c = true) cs).

Lemma parsed_route c r :
  route_of walk c = Some r →
  PathPrefix r ≠ "" ∧ AppID r = app_of c ∧ ∃ b, Backends r = [b].
Proof.
  unfold route_of, ParseLabelsToRoute. destruct (match find_label _ _ _ with Some v => _ | None => _ end) as [host path].
  destruct (decide (host = "")); [done|]. intros [= <-]. cbn. split_and!; [by case_decide|done|by eexists].
Qed.

Lemma set_path_same r : PathPrefix r ≠ "" → set_path r (norm_path (PathPrefix r)) = r.
Proof. intros H. unfold norm_path. rewrite decide_False by done. by destruct r. Qed.

Lemma upsert_all_spec cs : ∀ rt active,
  table_ok rt →
  let '(rt', active') := upsert_all srt walk cs rt active in
  table_ok rt' ∧ active' = up cs ∪ active ∧
  ∀ k, abs rt' !! k = match want cs k with Some r => Some r | None => abs rt !! k end.
Proof.
  unfold want, up. induction cs as [|c cs IH]; intros rt active Hok; cbn [upsert_all wanted omap list_omap].
  { split_and!; [done|set_solver|done]. }
  destruct (running c) eqn:Hr.
  - destruct (route_of walk c) as [r|] eqn:Hroute.
    + destruct (parsed_route c r Hroute) as (Hp & Happ & _).
      destruct (upsert_ok srt r rt srt_ok Hok) as [Hok' Habs]. rewrite set_path_same in Habs by done.
      specialize (IH (Upsert srt r rt) ({[app_of c]} ∪ active) Hok').
      destruct (upsert_all srt walk cs _ _) as [rt' active']. destruct IH as (Hok2 & Hact & Hk).
      split_and!; [done|rewrite Hact, filter_cons_True by done; set_solver|]. intros k. rewrite Hk, Habs.
      fold (wanted cs). assert ((Host r, norm_path (PathPrefix r)) = key r) as ->.
      { unfold key, norm_path. by rewrite decide_False. }
      destruct (decide (key r = k)) as [<-|Hne].
      * rewrite filter_cons_True, last_cons, lookup_insert_eq by done. by destruct (last _).
      * rewrite filter_cons_False, lookup_insert_ne by done. done.
    + specialize (IH rt ({[app_of c]} ∪ active) Hok).
      destruct (upsert_all srt walk cs _ _) as [rt' active']. destruct IH as (Hok2 & Hact & Hk).
      split_and!; [done|rewrite Hact, filter_cons_True by done; set_solver|done].
  - specialize (IH rt active Hok). destruct (upsert_all srt walk cs _ _) as [rt' active'].
    destruct IH as (Hok2 & Hact & Hk). split_and!; [done|rewrite Hact, filter_cons_False by (by rewrite Hr); done|done].
Qed.

(** Dropping the stale applications of the listed routes. *)
Lemma drop_stale_spec routes active : ∀ seen rt,
  table_ok rt →
  (∀ k r, abs rt !! k = Some r → AppID r ∉ seen) →
  table_ok (drop_stale srt routes active seen rt) ∧
  ∀ k r, abs (drop_stale srt routes active seen rt) !! k = Some r ↔
    abs rt !! k = Some r ∧ (AppID r = "" ∨ AppID r ∈ active ∨ AppID r ∉ AppID <$> routes).
Proof.
  induction routes as [|r0 routes IH]; intros seen rt Hok Hseen; cbn [drop_stale].
  { split; [done|]. intros k r. cbn. set_solver. }
  destruct (bool_decide (AppID r0 = "") || bool_decide (AppID r0 ∈ active) || bool_decide (AppID r0 ∈ seen)) eqn:Hb.
  - destruct (IH seen rt Hok Hseen) as [Hok' Hk]. split; [done|]. intros k r. rewrite Hk.
    split; intros [Hr Hc]; (split; [done|]).
    + destruct Hc as [?|[?|Hnot]]; [auto..|]. destruct (decide (AppID r = AppID r0)) as [E|E]; [|cbn; set_solver].
      rewrite !orb_true_iff, !bool_decide_eq_true in Hb. rewrite <- E in Hb.
      destruct Hb as [[?|?]|Hs]; [auto..|]. by destruct (Hseen k r Hr).
    + destruct Hc as [?|[?|Hnot]]; [auto..|]. cbn in Hnot. set_solver.
  - rewrite !orb_false_iff, !bool_decide_eq_false in Hb. destruct Hb as [[Hne Hna] Hns].
    destruct (remove_app_ok srt (AppID r0) rt srt_ok Hok) as [Hok' Habs].
    destruct (IH ({[AppID r0]} ∪ seen) (RemoveByAppID srt (AppID r0) rt) Hok') as [Hok2 Hk].
    { intros k r. rewrite Habs, map_lookup_filter_Some. intros [Hr Hn]. cbn in Hn. apply not_elem_of_union.
      split; [set_solver|by apply (Hseen k)]. }
    split; [done|]. intros k r. rewrite Hk, Habs, map_lookup_filter_Some. cbn [snd].
    split; [intros [[Hr Hn] Hc]|intros [Hr Hc]].
    + split; [done|]. destruct Hc as [?|[?|?]]; [auto..|]. cbn. set_solver.
    + assert (AppID r ≠ AppID r0) as Hn.
      { intros E. destruct Hc as [?|[?|Hnot]]; [congruence|congruence|]. apply Hnot. cbn. rewrite E. set_solver. }
      split; [done|]. destruct Hc as [?|[?|?]]; [auto..|]. cbn in *. set_solver.
Qed.

Lemma listed_routes rt k r : abs rt !! k = Some r → AppID r ∈ AppID <$> All rt.
Proof.
  intros Hr. apply elem_of_list_to_map_2, list_elem_of_fmap in Hr as (r' & [= _ ->] & Hin).
  by apply list_elem_of_fmap_2.
Qed.

Lemma sync_spec cs rt k :
  table_ok rt →
  table_ok (syncRoutes srt walk (Some cs) rt) ∧
  abs (syncRoutes srt walk (Some cs) rt) !! k =
    match want cs k with
    | Some r => Some r
    | None => match abs rt !! k with
              | Some r => if decide (AppID r = "" ∨ AppID r ∈ up cs) then Some r else None
              | None => None
              end
    end.
Proof.
  intros Hok. unfold syncRoutes. pose proof (upsert_all_spec cs rt ∅ Hok) as Hup.
  destruct (upsert_all srt walk cs rt ∅) as [rt1 active]. destruct Hup as (Hok1 & Hact & Hk).
  rewrite union_empty_r_L in Hact.
  destruct (drop_stale_spec (All rt1) active ∅ rt1 Hok1) as [Hok2 Hd]; [set_solver|].
  split; [done|]. apply option_eq. intros r. rewrite Hd, Hk, Hact.
  destruct (want cs k) as [w|] eqn:Hw.
  - assert (AppID w ∈ up cs) as Hin.
    { unfold want in Hw. apply last_Some_elem_of, list_elem_of_filter in Hw as [_ Hin].
      unfold wanted in Hin. apply list_elem_of_omap in Hin as (c & Hc & Hr). destruct (running c) eqn:Hrun; [|done].
      destruct (parsed_route c w Hr) as (_ & -> & _). unfold up. apply elem_of_list_to_set, list_elem_of_fmap_2.
      by apply list_elem_of_filter. }
    split; [by intros [? _]|]. intros [= <-]. auto.
  - destruct (abs rt !! k) as [r0|] eqn:Hr0; [|naive_solver].
    assert (AppID r0 ∈ AppID <$> All rt1) as Hl by (apply (listed_routes rt1 k); by rewrite Hk, Hw).
    destruct (decide (AppID r0 = "" ∨ AppID r0 ∈ up cs)) as [Hkeep|Hgone]; split; try (by intros [? _]); try naive_solver.
Qed.

(** After a synchronisation the table is the one before, updated: a key that running containers
    ask for has the route of the last of them, a key of an application with no running container
    is gone, and every other route is as it was. *)
Theorem sync_follows_containers cs rt k :
  table_ok rt →
  table_ok (syncRoutes srt walk (Some cs) rt) ∧
  abs (syncRoutes srt walk (Some cs) rt) !! k =
    match want cs k with
    | Some r => Some r
    | None => match abs rt !! k with
              | Some r => if decide (AppID r = "" ∨ AppID r ∈ up cs) then Some r else None
              | None => None
              end
    end.
Proof. apply sync_spec. Qed.

End Sync.

(** With several containers of an application behind one host only the last of the listing gets
    traffic: every route found by discovery has exactly one backend. *)
Theorem discovered_route_has_one_backend srt walk cs k r :
  sorts srt → abs (syncRoutes srt walk (Some cs) NewRouteTable) !! k = Some r →
  ∃ c, c ∈ cs ∧ running c = true ∧ route_of walk c = Some r ∧ length (Backends r) = 1%nat ∧
       want walk cs k = Some r.
Proof.
  intros Hsrt. destruct (sync_spec srt Hsrt walk cs NewRouteTable k) as [_ ->];
    [split; cbn; constructor|].
  destruct (want walk cs k) as [w|] eqn:Hw; [|done]. intros [= <-].
  pose proof Hw as Hin. unfold want in Hin. apply last_Some_elem_of, list_elem_of_filter in Hin as [_ Hin].
  unfold wanted in Hin. apply list_elem_of_omap in Hin as (c & Hc & Hr). destruct (running c) eqn:Hrun; [|done].
  exists c. split_and!; try done. destruct (parsed_route walk c w Hr) as (_ & _ & b & ->). done.
Qed.

(** ** Labels written by a deployment *)

(** A host name as it stands in a rule. *)
Definition hostname (h : list ascii) : Prop := h ≠ [] ∧ Forall (λ c, c ≠ "`"%char ∧ c ≠ "("%char) h.

Lemma extract_host h : hostname h → extract host_open rule_close (host_open +:+ str h +:+ rule_close) = str h.
Proof.
  intros [_ Hh]. unfold extract, Index. rewrite !bytes_app, bytes_str.
  assert (index_of (bytes host_open) (bytes host_open ++ h ++ bytes rule_close) = Some 0%nat) as ->.
  { destruct (index_of _ _) as [i|] eqn:E.
    - apply index_of_Some in E as [_ Hmin]. destruct i as [|i]; [done|].
      exfalso. apply (Hmin 0%nat); [lia|]. by exists (h ++ bytes rule_close).
    - exfalso. apply (index_of_None _ _ E 0%nat). by exists (h ++ bytes rule_close). }
  cbv zeta. change (0 + slen host_open)%nat with (length (bytes host_open)). rewrite drop_app_length.
  assert (index_of (bytes rule_close) (h ++ bytes rule_close) = Some (length h)) as ->.
  { destruct (index_of _ _) as [i|] eqn:E.
    - apply index_of_Some in E as [Hi Hmin]. f_equal.
      destruct (decide (i < length h)%nat) as [Hlt|Hge].
      + exfalso. destruct Hi as [k Hk]. rewrite drop_app_le in Hk by lia.
        destruct (lookup_lt_is_Some_2 h i Hlt) as [c Hc]. rewrite (drop_S _ _ _ Hc) in Hk.
        injection Hk as -> _. apply list_elem_of_lookup_2 in Hc. rewrite Forall_forall in Hh. by destruct (Hh _ Hc).
      + destruct (decide (i = length h)); [done|]. exfalso. apply (Hmin (length h)); [lia|].
        rewrite drop_app_length. by exists [].
    - exfalso. apply (index_of_None _ _ E (length h)). rewrite drop_app_length. by exists []. }
  by rewrite take_app_length.
Qed.

Lemma extract_no_path h : hostname h → extract path_open rule_close (host_open +:+ str h +:+ rule_close) = "".
Proof.
  intros [_ Hh]. unfold extract, Index. destruct (index_of _ _) as [j|] eqn:E; [|done]. exfalso.
  apply index_of_Some in E as [[k Hk] _]. rewrite !bytes_app, bytes_str in Hk.
  assert ((bytes host_open ++ h ++ bytes rule_close) !! (j + 10)%nat = Some "("%char) as Hc.
  { rewrite <- lookup_drop, Hk. done. }
  rewrite Forall_forall in Hh. change (bytes host_open) with (bytes "Host(" ++ ["`"%char]) in Hc.
  rewrite <- app_assoc in Hc. rewrite lookup_app_r in Hc by (cbn; lia). change (length (bytes "Host(")) with 5%nat in Hc.
  rewrite lookup_app_r in Hc by (cbn; lia). apply lookup_app_Some in Hc as [Hc|[_ Hc]].
  - apply list_elem_of_lookup_2 in Hc. by destruct (Hh _ Hc).
  - apply list_elem_of_lookup_2 in Hc. revert Hc. change (bytes rule_close) with ["`"%char; ")"%char]. set_solver.
Qed.

Lemma parseRule_host h : hostname h → parseRule (host_open +:+ str h +:+ rule_close) = (str h, "").
Proof. intros Hh. unfold parseRule. by rewrite extract_host, extract_no_path. Qed.

(** The only label of a shape is found in every walk. *)
Lemma find_label_only pre suf (m : gmap string string) walk k v :
  walk ≡ₚ map_to_list m → m !! k = Some v → HasSuffix k suf = true → HasPrefix k pre = true →
  (∀ k' v', m !! k' = Some v' → HasSuffix k' suf = true → HasPrefix k' pre = true → k' = k) →
  find_label pre suf walk = Some v.
Proof.
  intros Hw Hk Hs Hp Honly. unfold find_label.
  assert ((k, v) ∈ walk) as Hin by (rewrite Hw; by apply elem_of_map_to_list).
  destruct (list_find _ walk) as [[i [k' v']]|] eqn:E.
  - apply list_find_Some in E as (Hi & [Hs' Hp'] & _). apply list_elem_of_lookup_2 in Hi.
    rewrite Hw in Hi. apply elem_of_map_to_list in Hi. cbn in *. rewrite (Honly k' v' Hi Hs' Hp') in Hi. congruence.
  - apply list_find_None in E. rewrite Forall_forall in E. by destruct (E _ Hin).
Qed.

Definition app_labels (app : Deploy.Application) (version : Z) : gmap string string :=
  list_to_map [
    ("monster.enable", "true"); ("monster.app.id", Deploy.aID app); ("monster.app.name", Deploy.aName app);
    ("monster.project", Deploy.ProjectID app); ("monster.tenant", Deploy.aTenantID app);
    ("monster.deploy.version", itoa version)].

Definition router_key (app : Deploy.Application) : string :=
  "monster.http.routers." +:+ (Deploy.aName app +:+ "-" +:+ "0") +:+ ".rule".
Definition port_key (app : Deploy.Application) : string :=
  "monster.http.services." +:+ (Deploy.aName app +:+ "-" +:+ "0") +:+ ".loadbalancer.server.port".

(** The labels of a deployed application with one domain. *)
Lemma one_domain_labels app version port d :
  Deploy.domain_labels (Deploy.aName app) port 0 [d] (app_labels app version) =
  <[port_key app := itoa port]> (<[router_key app := host_open +:+ Deploy.FQDN d +:+ rule_close]> (app_labels app version)).
Proof. reflexivity. Qed.

Definition app_keys : list string :=
  ["monster.enable"; "monster.app.id"; "monster.app.name"; "monster.project"; "monster.tenant"; "monster.deploy.version"].

Lemma app_labels_keys app version k v : app_labels app version !! k = Some v → k ∈ app_keys.
Proof.
  intros H. apply elem_of_list_to_map_2 in H. unfold app_keys. set_unfold in H.
  repeat (destruct H as [[= -> _]|H]; [set_solver|]). done.
Qed.

Lemma label_cases app version port d k v :
  Deploy.domain_labels (Deploy.aName app) port 0 [d] (app_labels app version) !! k = Some v →
  k = port_key app ∨ k = router_key app ∨ k ∈ app_keys.
Proof.
  rewrite one_domain_labels. intros [[<- _]|[_ [[<- _]|[_ H]]%lookup_insert_Some]]%lookup_insert_Some; [auto..|].
  right. right. by eapply app_labels_keys.
Qed.

Lemma app_keys_plain k pre : k ∈ app_keys → pre = routers ∨ pre = services → HasPrefix k pre = false.
Proof.
  intros Hk [->| ->]; unfold app_keys in Hk; set_unfold in Hk;
    repeat (destruct Hk as [->|Hk]; [vm_compute; reflexivity|]); done.
Qed.

(** Deployment and discovery agree: an application deployed with one domain gets, whatever order
    its labels are walked in, the route for that domain, at the root path, to its container and
    port. *)
Theorem deployed_domain_is_routed walk app version port d cid :
  hostname (bytes (Deploy.FQDN d)) →
  (∀ n, walk n ≡ₚ map_to_list (Deploy.domain_labels (Deploy.aName app) port 0 [d] (app_labels app version))) →
  ∃ r, ParseLabelsToRoute walk (Deploy.domain_labels (Deploy.aName app) port 0 [d] (app_labels app version)) cid = Some r ∧
    Host r = Deploy.FQDN d ∧ PathPrefix r = "/" ∧ AppID r = Deploy.aID app ∧
    Backends r = [Login.ShortID cid 12 +:+ ":" +:+ itoa port].
Proof.
  intros Hh Hw. set (m := Deploy.domain_labels _ _ _ _ _) in *.
  assert (port_key app ≠ router_key app) as Hkeys by discriminate.
  assert (m !! router_key app = Some (host_open +:+ Deploy.FQDN d +:+ rule_close)) as Hr.
  { subst m. rewrite one_domain_labels, lookup_insert_ne by done. apply lookup_insert_eq. }
  assert (m !! port_key app = Some (itoa port)) as Hp by (subst m; rewrite one_domain_labels; apply lookup_insert_eq).
  assert (m !! "monster.app.id" = Some (Deploy.aID app)) as Hid.
  { subst m. by rewrite one_domain_labels, !lookup_insert_ne by discriminate. }
  unfold ParseLabelsToRoute.
  rewrite (find_label_only routers ".rule" m (walk 0%nat) _ _ (Hw 0%nat) Hr).
  - rewrite <- (str_bytes (Deploy.FQDN d)), parseRule_host, str_bytes by done.
    destruct (decide (Deploy.FQDN d = "")) as [E|_]; [by destruct Hh as [Hh _]; rewrite E in Hh|].
    rewrite (find_label_only services ".server.port" m (walk 1%nat) _ _ (Hw 1%nat) Hp).
    + eexists. split; [reflexivity|]. cbn [Host PathPrefix AppID Backends]. rewrite Hid. done.
    + apply HasSuffix_spec. exists ("monster.http.services." +:+ (Deploy.aName app +:+ "-" +:+ "0") +:+ ".loadbalancer").
      unfold port_key. by rewrite !str_app_assoc.
    + apply HasPrefix_spec. by eexists.
    + intros k' v' Hk' _ Hpre. subst m. apply label_cases in Hk' as [?|[->|Hin]]; [done| |].
      * apply HasPrefix_spec in Hpre as [x Hx]. discriminate Hx.
      * by rewrite (app_keys_plain k' services) in Hpre by auto.
  - apply HasSuffix_spec. exists ("monster.http.routers." +:+ (Deploy.aName app +:+ "-" +:+ "0")).
    unfold router_key. by rewrite !str_app_assoc.
  - apply HasPrefix_spec. by eexists.
  - intros k' v' Hk' _ Hpre. subst m. apply label_cases in Hk' as [->|[?|Hin]]; [|done|].
    + apply HasPrefix_spec in Hpre as [x Hx]. discriminate Hx.
    + by rewrite (app_keys_plain k' routers) in Hpre by auto.
Qed.

(** ** Health *)

Inductive hc_op :=
| HRegister (backend ty path : string)
| HDeregister (backend : string)
| HSweep (results : list checkResult).

Definition hc_run (hc : HealthChecker) (o : hc_op) : HealthChecker :=
  match o with
  | HRegister b ty path => Register hc b ty path
  | HDeregister b => Deregister hc b
  | HSweep rs => commit_all hc rs
  end.

(** The outcomes of a backend's probes in a sweep: [true] for a failure. *)
Definition outcomes (b : string) (rs : list checkResult) : list bool :=
  omap (λ r, if decide (rBackend r = b) then Some (bool_decide (is_Some (rErr r))) else None) rs.

(** The outcomes since a backend was registered, [None] while it is not. *)
Definition history_step (b : string) (h : option (list bool)) (o : hc_op) : option (list bool) :=
  match o with
  | HRegister b' _ _ => if decide (b' = b) then Some [] else h
  | HDeregister b' => if decide (b' = b) then None else h
  | HSweep rs => (λ l, l ++ outcomes b rs) <$> h
  end.
Definition history (b : string) (os : list hc_op) : option (list bool) := foldl (history_step b) None os.

(** The failures at the end of a history. *)
Definition trailing (l : list bool) : Z := foldl (λ n f, if f : bool then n + 1 else 0) 0 l.

Lemma trailing_snoc l f : trailing (l ++ [f]) = if f : bool then trailing l + 1 else 0.
Proof. unfold trailing. by rewrite foldl_app. Qed.

Definition check_matches (c : option HealthCheck) (h : option (list bool)) : Prop :=
  match c, h with
  | Some c, Some l => Failures c = trailing l ∧ Threshold c = 3 ∧ Healthy c = (trailing l <? 3)
  | None, None => True
  | _, _ => False
  end.

Lemma commit_matches b rs : ∀ hc h,
  check_matches (checks hc !! b) h →
  check_matches (checks (commit_all hc rs) !! b) ((λ l, l ++ outcomes b rs) <$> h).
Proof.
  unfold commit_all. induction rs as [|r rs IH]; intros hc h Hm.
  { cbn. destruct h as [l|]; cbn; [by rewrite app_nil_r|done]. }
  cbn [foldl]. change (outcomes b (r :: rs)) with (outcomes b ([r] ++ rs)).
  assert (outcomes b ([r] ++ rs) = outcomes b [r] ++ outcomes b rs) as -> by apply omap_app.
  assert ((λ l, l ++ outcomes b [r] ++ outcomes b rs) <$> h =
          (λ l, l ++ outcomes b rs) <$> ((λ l, l ++ outcomes b [r]) <$> h)) as ->.
  { destruct h; cbn; [|done]. by rewrite <- app_assoc. }
  apply IH. unfold commit. unfold outcomes. cbn [omap list_omap].
  destruct (decide (rBackend r = b)) as [<-|Hne].
  - destruct (checks hc !! rBackend r) as [c|] eqn:Hc; [|by rewrite Hc; destruct h].
    destruct h as [l|]; [|done]. destruct Hm as (Hf & Ht & Hh). cbn [fmap option_fmap option_map].
    destruct (rErr r); cbn [checks]; rewrite lookup_insert_eq; cbn [check_matches Failures Threshold Healthy is_Some];
      rewrite trailing_snoc, Ht.
    + rewrite bool_decide_eq_true_2 by eauto. split_and!; [lia|done|]. rewrite Hf, Hh.
      destruct (3 <=? trailing l + 1) eqn:E1, (trailing l <? 3) eqn:E2, (trailing l + 1 <? 3) eqn:E3; bools; lia || done.
    + rewrite bool_decide_eq_false_2 by (by intros [? ?]). done.
  - assert ((λ l, l ++ []) <$> h = h) as -> by (destruct h; cbn; [by rewrite app_nil_r|done]).
    destruct (checks hc !! rBackend r) as [c|] eqn:Hc; [|done].
    destruct (match rErr r with Some e => _ | None => _ end) as [[??]?]. cbn [checks]. by rewrite lookup_insert_ne.
Qed.

Lemma history_matches b os : check_matches (checks (foldl hc_run NewHealthChecker os) !! b) (history b os).
Proof.
  unfold history. induction os as [|o os IH] using rev_ind; [done|]. rewrite !foldl_app. cbn [foldl].
  destruct o as [b' ty path|b'|rs]; cbn [hc_run history_step].
  - cbn [Register checks]. destruct (decide (b' = b)) as [->|Hne]; [by rewrite lookup_insert_eq|by rewrite lookup_insert_ne].
  - cbn [Deregister checks]. destruct (decide (b' = b)) as [->|Hne]; [by rewrite lookup_delete_eq|by rewrite lookup_delete_ne].
  - by apply commit_matches.
Qed.

(** A backend is taken out of service exactly when its last three probes since it was registered
    failed, whatever was registered, removed or probed in between; a backend nobody registered
    is in service. *)
Theorem unhealthy_after_three_failures os b :
  IsHealthy (foldl hc_run NewHealthChecker os) b = false ↔
  ∃ l, history b os = Some l ∧ 3 ≤ trailing l.
Proof.
  pose proof (history_matches b os) as Hm. unfold IsHealthy, check_matches in *.
  destruct (checks _ !! b) as [c|], (history b os) as [l|]; try done.
  - destruct Hm as (_ & _ & ->). rewrite Z.ltb_ge. naive_solver.
  - naive_solver.
Qed.

Definition probe_result (b : string) (err : option string) : checkResult := {| rBackend := b; rErr := err; rNow := 0 |}.

Example three_strikes :
  let fail := HSweep [probe_result "b" (Some "refused")] in
  IsHealthy (foldl hc_run NewHealthChecker [HRegister "b" "tcp" ""; fail; fail]) "b" = true ∧
  IsHealthy (foldl hc_run NewHealthChecker [HRegister "b" "tcp" ""; fail; fail; fail]) "b" = false.
Proof. vm_compute. done. Qed.

(** ** Examples *)

Definition demo_app : Deploy.Application :=
  {| Deploy.aID := "a1"; Deploy.ProjectID := "p"; Deploy.aTenantID := "t"; Deploy.aName := "shop";
     Deploy.SourceType := "git"; Deploy.SourceURL := ""; Deploy.Branch := ""; Deploy.Dockerfile := ""; Deploy.Port := 0;
     Deploy.aStatus := "running"; Deploy.ServerID := "" |}.
Definition demo_domain : Deploy.Domain := {| Deploy.domApp := "a1"; Deploy.FQDN := "shop.example.com" |}.
Definition demo_labels : gmap string string :=
  Deploy.domain_labels (Deploy.aName demo_app) 80 0 [demo_domain] (app_labels demo_app 1).
Definition demo_walk (c : string) (n : nat) : list (string * string) := map_to_list demo_labels.
Definition demo_container (id : string) : Container := {| cID := id; cState := "running"; cLabels := demo_labels |}.

Lemma deployed_domain_is_routed_witness :
  ∃ r, ParseLabelsToRoute (demo_walk "") demo_labels "0123456789abcdef" = Some r ∧ Host r = "shop.example.com" ∧
    PathPrefix r = "/" ∧ AppID r = "a1" ∧ Backends r = [Login.ShortID "0123456789abcdef" 12 +:+ ":" +:+ itoa 80].
Proof.
  apply (deployed_domain_is_routed (demo_walk "") demo_app 1 80 demo_domain "0123456789abcdef").
  - split; [discriminate|]. repeat constructor; discriminate.
  - intros n. reflexivity.
Defined.

Definition two_replicas : list Container := [demo_container "aaaaaaaaaaaa"; demo_container "bbbbbbbbbbbb"].

Definition demo_key : string * string := ("shop.example.com", "/").

Lemma demo_want : Backends <$> want demo_walk two_replicas demo_key = Some ["bbbbbbbbbbbb:80"].
Proof. vm_compute. reflexivity. Qed.

Lemma empty_table_ok : table_ok NewRouteTable.
Proof. split; cbn; constructor. Qed.

Lemma sync_follows_containers_witness :
  let rt := syncRoutes (merge_sort route_ge) demo_walk (Some two_replicas) NewRouteTable in
  table_ok rt ∧ Backends <$> abs rt !! demo_key = Some ["bbbbbbbbbbbb:80"].
Proof.
  destruct (sync_follows_containers (merge_sort route_ge) merge_sort_sorts demo_walk two_replicas NewRouteTable
    demo_key empty_table_ok) as [Hok E].
  cbv zeta. split; [exact Hok|]. rewrite E. pose proof demo_want as Hw.
  destruct (want demo_walk two_replicas demo_key) as [r|]; [exact Hw|discriminate Hw].
Defined.

Lemma discovered_route_has_one_backend_witness :
  ∃ c r, c ∈ two_replicas ∧ running c = true ∧ route_of demo_walk c = Some r ∧ length (Backends r) = 1%nat.
Proof.
  destruct (sync_spec (merge_sort route_ge) merge_sort_sorts demo_walk two_replicas NewRouteTable
    demo_key empty_table_ok) as [_ E].
  pose proof demo_want as Hw. destruct (want demo_walk two_replicas demo_key) as [r|]; [|discriminate Hw].
  destruct (discovered_route_has_one_backend (merge_sort route_ge) demo_walk two_replicas demo_key r merge_sort_sorts E)
    as (c & H1 & H2 & H3 & H4 & _). exact (ex_intro _ c (ex_intro _ r (conj H1 (conj H2 (conj H3 H4))))).
Defined.

End Discovery.
