(* ===== verification/Storage.v ===== *)
(** * Storage: where backups are kept ([internal/backup/local.go], [s3.go])

    The class [BackupStorage] is the interface the scheduler uses, [StorageLaws] what it
    promises; the local file system is an instance.  Paths are lists of components, the
    disk's faults and the random nonces are arguments. *)

From S2P Require Import Prelude GoStrings.
#[local] Open Scope Z_scope.

Module Storage.

(** ** Paths *)

Abbreviation path := (list string).

(** [filepath.Clean] of a rooted path, component by component. *)
Definition clean_step (acc : path) (e : string) : path :=
  if decide (e = "" ∨ e = ".") then acc
  else if decide (e = "..") then take (length acc - 1) acc
  else acc ++ [e].

(** [filepath.Clean(filepath.Join(base, key))] for a clean rooted [base]. *)
Definition Resolve (base : path) (key : string) : path := foldl clean_step base (Split key "/"%char).

(** The components of [filepath.Rel] of two clean rooted paths. *)
Fixpoint rel_path (base target : path) : path :=
  match base, target with
  | b :: base', t :: target' =>
      if decide (b = t) then rel_path base' target' else replicate (length base) ".." ++ target
  | _, _ => replicate (length base) ".." ++ target
  end.

Definition Rel (base target : path) : string :=
  match rel_path base target with [] => "." | p => Join p "/" end.

(** ** The interface *)

(** src/internal/core/interfaces.go:296-300 BackupEntry *)
Record BackupEntry := { Key : string; Size : Z; CreatedAt : Z }.

Inductive storage_error :=
| AbsoluteKey | OutsideRoot | SymlinkTarget | StatFailed | ReadFailed | EncryptFailed | DecryptFailed
| CreateFailed | WriteFailed | NotFound | ListFailed | RemoveFailed | Exhausted (last : string) | Canceled.

(** What the disk does during an operation; a failing write leaves the first [n] bytes. *)
Inductive fault := NoFault | Fails | FailsAfter (n : nat).

(** src/internal/core/interfaces.go:287-293 BackupStorage *)
Class BackupStorage (S : Type) := {
  Upload : fault → instant → string → string → string → S → result storage_error unit * S;
  Download : fault → string → S → result storage_error string;
  Delete : fault → string → S → result storage_error unit * S;
  List_ : fault → string → S → result storage_error (list BackupEntry) }.

(** What a client relies on: an object is a place with contents, which may be unreadable, and a time. *)
Class StorageLaws (S : Type) `{BackupStorage S} := {
  sound : S → Prop;
  place : S → string → option path;
  view : S → path → option (option string * instant);
  upload_ok : ∀ f now nonce key data s, sound s → slen nonce = 12%nat →
    let '(r, s') := Upload f now nonce key data s in
    sound s' ∧ place s' = place s ∧
    (∀ q, place s key ≠ Some q → view s' q = view s q) ∧
    (is_ok r = true → ∃ p, place s key = Some p ∧ view s' p = Some (Some data, now));
  download_ok : ∀ key s p data t, sound s → place s key = Some p → view s p = Some (Some data, t) →
    Download NoFault key s = Ok data;
  download_gone : ∀ f key s p, sound s → place s key = Some p → view s p = None → is_ok (Download f key s) = false;
  delete_ok : ∀ f key s p o, sound s → place s key = Some p → view s p = Some o →
    let '(r, s') := Delete f key s in
    sound s' ∧ place s' = place s ∧
    (∀ q, p ≠ q → view s' q = view s q) ∧
    view s' p = (if is_ok r then None else Some o) ∧ (f = NoFault → is_ok r = true);
  list_ok : ∀ prefix s d, sound s → place s prefix = Some d → is_ok (List_ NoFault prefix s) = true;
  list_sound : ∀ f prefix s es e, sound s → List_ f prefix s = Ok es → e ∈ es →
    ∃ p c t, place s (Key e) = Some p ∧ view s p = Some (c, t) ∧ CreatedAt e = time_unix t;
  list_nodup : ∀ f prefix s es, sound s → List_ f prefix s = Ok es → NoDup ((λ e, place s (Key e)) <$> es);
  list_complete : ∀ f prefix s es d p c t, sound s → List_ f prefix s = Ok es →
    place s prefix = Some d → d `prefix_of` p → d ≠ p → view s p = Some (c, t) →
    ∃ e, e ∈ es ∧ place s (Key e) = Some p ∧ CreatedAt e = time_unix t }.

(** ** The local file system *)

(** [crypto/cipher]'s authenticated encryption. *)
Class GCM := {
  Seal : string → string → string → string;
  Open : string → string → string → option string }.
Class GCMLaws `{GCM} := { open_seal : ∀ key nonce p, Open key nonce (Seal key nonce p) = Some p }.

Inductive node := File (content : string) (mtime : instant) | Link.

(** Directories and files by their full path.
    src/internal/backup/local.go:23-26 LocalStorage *)
Record LocalStorage := {
  basePath : path; encryptionKey : option string; nodes : gmap path node; dirs : gset path }.

Definition with_nodes (l : LocalStorage) (n : gmap path node) (d : gset path) : LocalStorage :=
  {| basePath := basePath l; encryptionKey := encryptionKey l; nodes := n; dirs := d |}.

(** The directories above a path, and itself. *)
Definition prefixes (p : path) : list path := (λ n, take n p) <$> seq 0 (S (length p)).
Definition parents (p : path) : list path := (λ n, take n p) <$> seq 0 (length p).

Definition is_file (l : LocalStorage) (p : path) : bool := bool_decide (is_Some (nodes l !! p)).

(** [os.MkdirAll], whose error is ignored: it stops at the first component that is a file. *)
Fixpoint mkdir_all (l : LocalStorage) (ps : list path) : gset path :=
  match ps with
  | [] => dirs l
  | p :: ps => if is_file l p then dirs l else {[p]} ∪ mkdir_all l ps
  end.

(** src/internal/backup/local.go:34-42 NewLocalStorage *)
Definition NewLocalStorage (base : path) (key : option string) (fs : LocalStorage) : LocalStorage :=
  let l := {| basePath := base; encryptionKey := key; nodes := nodes fs; dirs := dirs fs |} in
  with_nodes l (nodes l) (mkdir_all l (prefixes base)).

Section Local.
Context `{GCM}.

(** [aes.NewCipher] takes keys of three sizes. *)
Definition valid_key (key : string) : bool := bool_decide (slen key ∈ [16%nat; 24%nat; 32%nat]).
Definition NonceSize : nat := 12.

(** src/internal/backup/local.go:97-111 encryptAES256GCM *)
Definition encryptAES256GCM (plaintext key nonce : string) : option string :=
  if valid_key key then Some (nonce +:+ Seal key nonce plaintext) else None.

(** src/internal/backup/local.go:115-134 decryptAES256GCM *)
Definition decryptAES256GCM (ciphertext key : string) : option string :=
  if negb (valid_key key) then None
  else if (slen ciphertext <? NonceSize)%nat then None
  else Open key (str (take NonceSize (bytes ciphertext))) (str (drop NonceSize (bytes ciphertext))).

(** The check every operation makes on its key.
    src/internal/backup/local.go:47-57 LocalStorage.Upload.path *)
Definition locate (l : LocalStorage) (key : string) : result storage_error path :=
  if HasPrefix key "/" then Err AbsoluteKey
  else
    let cleanPath := Resolve (basePath l) key in
    if HasPrefix (Rel (basePath l) cleanPath) ".." then Err OutsideRoot else Ok cleanPath.

(** [os.Lstat] when a component above the path is a file. *)
Definition blocked (l : LocalStorage) (p : path) : bool := bool_decide (Exists (λ q, is_file l q = true) (parents p)).

(** The file system refuses to create a file where a directory is or under no directory. *)
Definition creatable (l : LocalStorage) (p : path) : bool :=
  bool_decide (p ∉ dirs l) && bool_decide (Forall (λ q, q ∈ dirs l) (parents p)).

(** [f] is the fault of creating or writing the file.
    src/internal/backup/local.go:46-93 LocalStorage.Upload *)
Definition local_Upload (f : fault) (now : instant) (nonce key data : string) (l : LocalStorage)
  : result storage_error unit * LocalStorage :=
  match locate l key with
  | Err e => (Err e, l)
  | Ok p =>
      let l := with_nodes l (nodes l) (mkdir_all l (parents p)) in
      match nodes l !! p with
      | Some Link => (Err SymlinkTarget, l)
      | _ =>
          if blocked l p then (Err StatFailed, l)
          else
            match (match encryptionKey l with Some k => encryptAES256GCM data k nonce | None => Some data end) with
            | None => (Err EncryptFailed, l)
            | Some data =>
                if negb (creatable l p) then (Err CreateFailed, l)
                else match f with
                | Fails => (Err CreateFailed, l)
                | FailsAfter n =>
                    (Err WriteFailed, with_nodes l (<[p := File (str (take n (bytes data))) now]> (nodes l)) (dirs l))
                | NoFault => (Ok tt, with_nodes l (<[p := File data now]> (nodes l)) (dirs l))
                end
            end
      end
  end.

(** A directory opens but cannot be read.
    src/internal/backup/local.go:136-175 LocalStorage.Download *)
Definition local_Download (f : fault) (key : string) (l : LocalStorage) : result storage_error string :=
  match locate l key with
  | Err e => Err e
  | Ok p =>
      match nodes l !! p with
      | Some Link => Err SymlinkTarget
      | None => Err (if decide (p ∈ dirs l) then ReadFailed else NotFound)
      | Some (File c _) =>
          match f with
          | NoFault =>
              match encryptionKey l with
              | None => Ok c
              | Some k => match decryptAES256GCM c k with Some d => Ok d | None => Err DecryptFailed end
              end
          | _ => Err ReadFailed
          end
      end
  end.

(** [os.Remove] of a file, a link or an empty directory.
    src/internal/backup/local.go:177-191 LocalStorage.Delete *)
Definition local_Delete (f : fault) (key : string) (l : LocalStorage) : result storage_error unit * LocalStorage :=
  match locate l key with
  | Err e => (Err e, l)
  | Ok p =>
      match f with
      | NoFault =>
          if is_file l p then (Ok tt, with_nodes l (delete p (nodes l)) (dirs l))
          else if decide (p ∈ dirs l) then
            if decide (Exists (λ q, p `prefix_of` q ∧ p ≠ q) (elements (dom (nodes l)) ++ elements (dirs l)))
            then (Err RemoveFailed, l)
            else (Ok tt, with_nodes l (nodes l) (dirs l ∖ {[p]}))
          else (Err NotFound, l)
      | _ => (Err RemoveFailed, l)
      end
  end.

Definition newest_first (x y : BackupEntry) : Prop := CreatedAt y ≤ CreatedAt x.
#[global] Instance newest_first_dec x y : Decision (newest_first x y) := ltac:(unfold newest_first; apply _).

(** The entry of a file that the walk reports.
    src/internal/backup/local.go:225-251 LocalStorage.List.entry *)
Definition entry_of (l : LocalStorage) (root : path) (filter_ : string) (pn : path * node) : option BackupEntry :=
  match pn.2 with
  | Link => None
  | File c t =>
      if bool_decide (root `prefix_of` pn.1) && (bool_decide (filter_ = "") || HasPrefix (default "" (last pn.1)) filter_)
      then Some {| Key := Rel (basePath l) pn.1; Size := Z.of_nat (slen c); CreatedAt := time_unix t |}
      else None
  end.

(** src/internal/backup/local.go:193-262 LocalStorage.List *)
Definition local_List (f : fault) (prefix : string) (l : LocalStorage) : result storage_error (list BackupEntry) :=
  let target := Resolve (basePath l) prefix in
  if HasPrefix (Rel (basePath l) target) ".." then Err OutsideRoot
  else
    let '(walkRoot, filenameFilter) :=
      if decide (target ∈ dirs l) then (target, "")
      else (take (length target - 1) target, default "/" (last target)) in
    match f with
    | NoFault => Ok (merge_sort newest_first (omap (entry_of l walkRoot filenameFilter) (map_to_list (nodes l))))
    | _ => Err ListFailed
    end.

#[global] Instance LocalStorage_storage : BackupStorage LocalStorage := {|
  Upload := local_Upload; Download := local_Download; Delete := local_Delete; List_ := local_List |}.

End Local.

(** ** Paths stay under the root *)

Definition slash : ascii := "/"%char.

(** A component that [Clean] leaves alone. *)
Definition component (e : string) : Prop := e ≠ "" ∧ e ≠ "." ∧ e ≠ ".." ∧ slash ∉ bytes e.

Lemma clean_component acc e : component e → clean_step acc e = acc ++ [e].
Proof. intros (H1 & H2 & H3 & _). unfold clean_step. rewrite decide_False by tauto. by rewrite decide_False. Qed.

Lemma clean_components r : ∀ acc, Forall component r → foldl clean_step acc r = acc ++ r.
Proof.
  induction r as [|e r IH]; intros acc Hr; [by rewrite app_nil_r|]. apply Forall_cons in Hr as [He Hr]. cbn [foldl].
  rewrite clean_component, IH by done. by rewrite <- app_assoc.
Qed.

(** What cleaning keeps of the base, and what it adds. *)
Lemma clean_shape base es : Forall (λ e, slash ∉ bytes e) es → ∀ k r,
  Forall component r →
  ∃ k' r', foldl clean_step (take k base ++ r) es = take k' base ++ r' ∧ Forall component r'.
Proof.
  induction es as [|e es IH]; intros Hes k r Hr; [by exists k, r|]. apply Forall_cons in Hes as [He Hes]. cbn [foldl].
  unfold clean_step at 2. case_decide as H1; [by apply IH|]. case_decide as H2.
  - destruct r as [|x r' _] using rev_ind.
    + rewrite app_nil_r. rewrite take_take. destruct (IH Hes ((length (take k base) - 1) `min` k)%nat []) as (k' & r' & E & ?); [done|].
      rewrite app_nil_r in E. eauto.
    + assert (take (length (take k base ++ r' ++ [x]) - 1) (take k base ++ r' ++ [x]) = take k base ++ r') as ->.
      { rewrite app_assoc. apply take_app_length'. rewrite !length_app. cbn. lia. }
      apply IH; [done|]. by apply Forall_app in Hr as [? _].
  - rewrite <- app_assoc. apply IH; [done|]. apply Forall_app. split; [done|]. repeat constructor; tauto || done.
Qed.

Lemma split_no_slash key : Forall (λ e, slash ∉ bytes e) (Split key slash).
Proof.
  unfold Split. apply Forall_fmap. eapply Forall_impl; [apply split_on_fields|]. intros w Hw. cbn. by rewrite bytes_str.
Qed.

Lemma rel_path_under base r : rel_path base (base ++ r) = r.
Proof. induction base as [|b base IH]; [done|]. cbn. by rewrite decide_True. Qed.

(** Outside the base the relative path climbs first. *)
Lemma rel_path_outside base : ∀ t, ¬ base `prefix_of` t → ∃ r, rel_path base t = ".." :: r.
Proof.
  induction base as [|b base IH]; intros t Ht; [destruct Ht; by exists t|].
  destruct t as [|x t]; [by eexists|]. cbn [rel_path]. case_decide as E; [|by eexists].
  subst. apply IH. intros Hp. apply Ht. by apply prefix_cons.
Qed.

Lemma Join_head c cs : ∃ t, Join (c :: cs) "/" = c +:+ t ∧ (t = "" ∨ HasPrefix t "/" = true).
Proof.
  destruct cs as [|d cs]; [exists ""; cbn; split; [|by left]|].
  - apply bytes_inj. rewrite bytes_app. cbn. by rewrite app_nil_r.
  - exists ("/" +:+ Join (d :: cs) "/"). split; [done|]. right. apply HasPrefix_spec. by eexists.
Qed.

Lemma Rel_outside base t : ¬ base `prefix_of` t → HasPrefix (Rel base t) ".." = true.
Proof.
  intros H. unfold Rel. destruct (rel_path_outside base t H) as [r ->].
  destruct (Join_head ".." r) as (t' & -> & _). apply HasPrefix_spec. by exists t'.
Qed.

Section LocalLaws.
Context `{GCM}.

Lemma locate_base l l' key : basePath l' = basePath l → locate l' key = locate l key.
Proof. unfold locate. intros E. by rewrite E. Qed.

(** An accepted key names a file under the root. *)
Lemma locate_under l key p : locate l key = Ok p → ∃ r, p = basePath l ++ r ∧ Forall component r.
Proof.
  unfold locate. destruct (HasPrefix key "/"); [done|]. destruct (HasPrefix (Rel _ _) "..") eqn:Hrel; [done|]. intros [= <-].
  destruct (decide (basePath l `prefix_of` Resolve (basePath l) key)) as [[r Hr]|Hout];
    [|by rewrite (Rel_outside _ _ Hout) in Hrel].
  destruct (clean_shape (basePath l) (Split key slash) (split_no_slash key) (length (basePath l)) [])
    as (k & r' & Hs & Hc); [done|]. rewrite app_nil_r, firstn_all in Hs. unfold Resolve, slash in *. rewrite Hr in Hs. rewrite Hr.
  exists r. split; [done|]. rewrite <- (take_drop k (basePath l)), <- app_assoc in Hs at 1.
  apply app_inv_head in Hs. subst r'. by apply Forall_app in Hc as [_ ?].
Qed.

Lemma Split_Join c cs : Forall component (c :: cs) → Split (Join (c :: cs) "/") slash = c :: cs.
Proof.
  intros Hc. unfold Split.
  assert (∀ cs, bytes (Join cs "/") = join_bytes slash (bytes <$> cs)) as Hj.
  { clear. intros cs. induction cs as [|a [|b cs] IH]; [done..|].
    change (Join (a :: b :: cs) "/") with (a +:+ "/" +:+ Join (b :: cs) "/"). by rewrite !bytes_app, IH. }
  rewrite Hj, split_join; [|done|].
  - rewrite <- list_fmap_compose. rewrite <- (list_fmap_id (c :: cs)) at 2. apply list_fmap_ext. intros ???. apply str_bytes.
  - apply Forall_fmap. eapply Forall_impl; [exact Hc|]. by intros e (_ & _ & _ & ?).
Qed.

(** The relative path of an accepted file is a key of it. *)
Lemma locate_rel l key p : locate l key = Ok p → locate l (Rel (basePath l) p) = Ok p.
Proof.
  intros Hl. destruct (locate_under l key p Hl) as (r & -> & Hr).
  assert (HasPrefix (Rel (basePath l) (basePath l ++ r)) ".." = false) as Hrel.
  { unfold locate in Hl. destruct (HasPrefix key "/"); [done|]. destruct (HasPrefix (Rel _ (Resolve _ _)) "..") eqn:E; [done|].
    injection Hl as E'. by rewrite E' in E. }
  assert (Resolve (basePath l) (Rel (basePath l) (basePath l ++ r)) = basePath l ++ r ∧
          HasPrefix (Rel (basePath l) (basePath l ++ r)) "/" = false) as [Hres Habs].
  { unfold Rel, Resolve. rewrite rel_path_under. destruct r as [|c cs]; [by rewrite app_nil_r|].
    split; [rewrite Split_Join by done; by apply clean_components|].
    destruct (HasPrefix (Join _ _) _) eqn:E; [|done]. apply HasPrefix_spec in E as [t Ht].
    destruct (Join_head c cs) as (t' & Ht' & _). rewrite Ht' in Ht. apply Forall_cons in Hr as [(Hne & _ & _ & Hs) _].
    apply (f_equal bytes) in Ht. rewrite !bytes_app in Ht. destruct (bytes c) as [|x xs] eqn:Ec; [by apply bytes_nil in Ec|].
    injection Ht as -> _. by destruct Hs; constructor. }
  unfold locate. by rewrite Habs, Hres, Hrel.
Qed.


(** Every file under the root has a key, stands in directories and is none. *)
Definition local_sound (l : LocalStorage) : Prop :=
  basePath l ∈ dirs l ∧
  ∀ p n, nodes l !! p = Some n → basePath l `prefix_of` p →
    locate l (Rel (basePath l) p) = Ok p ∧ Forall (λ q, q ∈ dirs l) (parents p) ∧ p ∉ dirs l.

Definition plaintext (l : LocalStorage) (c : string) : option string :=
  match encryptionKey l with None => Some c | Some k => decryptAES256GCM c k end.

Definition local_view (l : LocalStorage) (p : path) : option (option string * instant) :=
  if decide (basePath l `prefix_of` p) then
    match nodes l !! p with Some (File c t) => Some (plaintext l c, t) | _ => None end
  else None.

Definition local_place (l : LocalStorage) (key : string) : option path :=
  match locate l key with Ok p => Some p | Err _ => None end.

Lemma place_locate l key p : local_place l key = Some p ↔ locate l key = Ok p.
Proof. unfold local_place. destruct (locate l key); naive_solver. Qed.

Lemma decrypt_encrypt `{!GCMLaws} data k nonce c :
  slen nonce = 12%nat → encryptAES256GCM data k nonce = Some c → decryptAES256GCM c k = Some data.
Proof.
  unfold encryptAES256GCM, decryptAES256GCM, NonceSize. intros Hn. destruct (valid_key k); [|done]. intros [= <-]. cbn [negb].
  unfold slen in *. rewrite bytes_app, length_app, Hn. destruct (Nat.ltb_spec (12 + length (bytes (Seal k nonce data))) 12); [lia|].
  rewrite <- Hn, take_app_length, drop_app_length, !str_bytes. apply open_seal.
Qed.

Lemma mkdir_all_files l ps p : p ∈ mkdir_all l ps → p ∈ dirs l ∨ is_file l p = false.
Proof.
  induction ps as [|q ps IH]; cbn; [by left|]. destruct (is_file l q) eqn:E; [by left|]. set_unfold. naive_solver.
Qed.

Lemma mkdir_all_mono l ps : dirs l ⊆ mkdir_all l ps.
Proof. induction ps as [|q ps IH]; cbn; [done|]. destruct (is_file l q); set_solver. Qed.

Lemma mkdir_sound l ps : local_sound l → local_sound (with_nodes l (nodes l) (mkdir_all l ps)).
Proof.
  intros [Hb Hl]. pose proof (mkdir_all_mono l ps) as Hm. split; [set_solver|]. cbn [nodes basePath dirs with_nodes].
  intros p n Hp Hu. destruct (Hl p n Hp Hu) as (Hk & Hpar & Hnot).
  rewrite (locate_base l) by done. split_and!; [done|eapply Forall_impl; [exact Hpar|set_solver]|].
  intros Hin. destruct (mkdir_all_files _ _ _ Hin) as [?|Hf]; [done|].
  unfold is_file in Hf. apply bool_decide_eq_false in Hf. by rewrite Hp in Hf; destruct Hf.
Qed.

Lemma insert_sound l key p n :
  local_sound l → locate l key = Ok p → creatable l p = true → local_sound (with_nodes l (<[p := n]> (nodes l)) (dirs l)).
Proof.
  intros [Hb Hl] Hk Hc. unfold creatable in Hc. apply andb_true_iff in Hc as [Hd Hp]. apply bool_decide_eq_true in Hd, Hp.
  split; [done|]. cbn [nodes basePath dirs with_nodes]. intros q m Hq Hu. rewrite (locate_base l) by done.
  apply lookup_insert_Some in Hq as [[<- _]|[_ Hq]]; [|by apply (Hl q m)].
  split_and!; [by eapply locate_rel|done|done].
Qed.

Lemma insert_view l key p c t :
  locate l key = Ok p →
  let l' := with_nodes l (<[p := File c t]> (nodes l)) (dirs l) in
  (∀ q, Some p ≠ Some q → local_view l' q = local_view l q) ∧ local_view l' p = Some (plaintext l c, t).
Proof.
  intros Hk. destruct (locate_under l key p Hk) as (r & -> & _). unfold local_view. cbn [nodes basePath with_nodes]. split.
  - intros q Hq. by rewrite lookup_insert_ne by congruence.
  - rewrite decide_True, lookup_insert_eq by by eexists. done.
Qed.

Lemma local_upload_ok `{!GCMLaws} f now nonce key data l :
  local_sound l → slen nonce = 12%nat →
  let '(r, l') := local_Upload f now nonce key data l in
  local_sound l' ∧ local_place l' = local_place l ∧
  (∀ q, local_place l key ≠ Some q → local_view l' q = local_view l q) ∧
  (is_ok r = true → ∃ p, local_place l key = Some p ∧ local_view l' p = Some (Some data, now)).
Proof.
  intros Hs Hn. unfold local_Upload, local_place. destruct (locate l key) as [p|e] eqn:Hk; [|done].
  set (l1 := with_nodes l (nodes l) (mkdir_all l (parents p))).
  assert (local_sound l1) as Hs1 by by apply mkdir_sound.
  assert (locate l1 key = Ok p) as Hk1 by exact Hk.
  assert (local_sound l1 ∧ local_place l1 = local_place l ∧
    (∀ q, Some p ≠ Some q → local_view l1 q = local_view l q)) as Hsame by done.
  destruct (match nodes l1 !! p with Some Link => true | _ => false end) eqn:Hlink.
  { destruct (nodes l1 !! p) as [[|]|]; cbn; naive_solver. }
  assert (∀ X : result storage_error unit * LocalStorage,
    match nodes l1 !! p with Some Link => (Err SymlinkTarget, l1) | _ => X end = X) as Hx
    by (intros X; by destruct (nodes l1 !! p) as [[|]|]).
  rewrite Hx. clear Hx Hlink. destruct (blocked l1 p); [cbn; naive_solver|].
  destruct (match encryptionKey l1 with Some k => _ | None => _ end) as [c|] eqn:Hc; [|cbn; naive_solver].
  destruct (creatable l1 p) eqn:Hcr; cbn [negb]; [|cbn; naive_solver].
  assert (plaintext l1 c = Some data) as Hplain.
  { unfold plaintext. destruct (encryptionKey l1) as [k|]; [by eapply decrypt_encrypt|congruence]. }
  destruct f as [| |n].
  - destruct (insert_view l1 key p c now Hk1) as [Hv1 Hv2]. rewrite Hplain in Hv2.
    split_and!; [by eapply insert_sound|done|exact Hv1|by eexists].
  - cbn. naive_solver.
  - destruct (insert_view l1 key p (str (take n (bytes c))) now Hk1) as [Hv1 _].
    split_and!; [by eapply insert_sound|done|exact Hv1|done].
Qed.

Lemma local_download_ok key l p data t :
  local_place l key = Some p → local_view l p = Some (Some data, t) → local_Download NoFault key l = Ok data.
Proof.
  rewrite place_locate. intros Hk Hv. unfold local_Download. rewrite Hk. unfold local_view, plaintext in Hv. case_decide; [|done].
  destruct (nodes l !! p) as [[c m|]|]; try done. destruct (encryptionKey l) as [k|]; [|congruence].
  injection Hv as Hd _. by rewrite Hd.
Qed.

Lemma local_download_gone f key l p :
  local_place l key = Some p → local_view l p = None → is_ok (local_Download f key l) = false.
Proof.
  rewrite place_locate. intros Hk Hv. unfold local_Download. rewrite Hk.
  destruct (locate_under l key p Hk) as (r & -> & _). unfold local_view in Hv. rewrite decide_True in Hv by by eexists.
  by destruct (nodes l !! _) as [[c m|]|].
Qed.

Lemma local_delete_ok f key l p o :
  local_sound l → local_place l key = Some p → local_view l p = Some o →
  let '(r, l') := local_Delete f key l in
  local_sound l' ∧ local_place l' = local_place l ∧ (∀ q, p ≠ q → local_view l' q = local_view l q) ∧
  local_view l' p = (if is_ok r then None else Some o) ∧ (f = NoFault → is_ok r = true).
Proof.
  rewrite place_locate. intros [Hb Hs] Hk Hv. unfold local_Delete. rewrite Hk. destruct f; [|done..].
  assert (is_Some (nodes l !! p)) as Hn.
  { unfold local_view in Hv. case_decide; [|done]. destruct (nodes l !! p); [by eexists|done]. }
  unfold is_file. rewrite bool_decide_eq_true_2 by done. split_and!; [| |intros q Hq| |done].
  - split; [done|]. cbn [nodes basePath dirs with_nodes]. intros q n Hq Hu. apply lookup_delete_Some in Hq as [_ Hq].
    rewrite (locate_base l) by done. by apply (Hs q n).
  - done.
  - unfold local_view. cbn [nodes basePath with_nodes]. by rewrite lookup_delete_ne.
  - unfold local_view. cbn [nodes basePath with_nodes is_ok]. rewrite lookup_delete_eq. by case_decide.
Qed.

(** The root of the walk is under the storage root. *)
Definition walk_root (l : LocalStorage) (target : path) : path :=
  if decide (target ∈ dirs l) then target else take (length target - 1) target.

Lemma walk_root_under l r : basePath l ∈ dirs l → basePath l `prefix_of` walk_root l (basePath l ++ r).
Proof.
  intros Hb. unfold walk_root. case_decide as Hd; [by eexists|].
  destruct r as [|x r _] using rev_ind; [by rewrite app_nil_r in Hd|].
  rewrite app_assoc, take_app_length' by (rewrite !length_app; cbn; lia). by eexists.
Qed.

Lemma list_entries f prefix l es :
  local_List f prefix l = Ok es → ∃ r fl,
    f = NoFault ∧ Resolve (basePath l) prefix = basePath l ++ r ∧
    (Resolve (basePath l) prefix ∈ dirs l → fl = "") ∧
    ∀ e, e ∈ es ↔ ∃ p c t, nodes l !! p = Some (File c t) ∧ entry_of l (walk_root l (basePath l ++ r)) fl (p, File c t) = Some e.
Proof.
  unfold local_List. destruct (HasPrefix (Rel _ _) "..") eqn:Hrel; [done|].
  destruct (decide (basePath l `prefix_of` Resolve (basePath l) prefix)) as [[r Hr]|Hout];
    [|by rewrite (Rel_outside _ _ Hout) in Hrel].
  rewrite Hr. unfold walk_root. destruct f; [|by case_decide..].
  assert (∀ root fl e, e ∈ merge_sort newest_first (omap (entry_of l root fl) (map_to_list (nodes l))) ↔
    ∃ p c t, nodes l !! p = Some (File c t) ∧ entry_of l root fl (p, File c t) = Some e) as Hlist.
  { intros root fl e. rewrite (merge_sort_Permutation newest_first), list_elem_of_omap. split.
    - intros ([p [c t|]] & Hin & He); [|done]. exists p, c, t. by apply elem_of_map_to_list in Hin.
    - intros (p & c & t & Hin & He). exists (p, File c t). by rewrite elem_of_map_to_list. }
  destruct (decide (basePath l ++ r ∈ dirs l)) as [Hd|Hd]; intros [= <-]; exists r.
  - exists "". split_and!; try done. rewrite decide_True by done. apply Hlist.
  - exists (default "/" (last (basePath l ++ r))). split_and!; [done|done|intros ?; done|rewrite decide_False by done; apply Hlist].
Qed.

Lemma local_list_ok prefix l d : local_place l prefix = Some d → is_ok (local_List NoFault prefix l) = true.
Proof.
  rewrite place_locate. unfold locate, local_List. destruct (HasPrefix prefix "/"); [done|].
  destruct (HasPrefix _ ".."); [done|]. by case_decide.
Qed.

Lemma local_list_sound f prefix l es e :
  local_sound l → local_List f prefix l = Ok es → e ∈ es →
  ∃ p c t, local_place l (Key e) = Some p ∧ local_view l p = Some (c, t) ∧ CreatedAt e = time_unix t.
Proof.
  intros [Hb Hs] Hl. destruct (list_entries f prefix l es Hl) as (r & fl & _ & Hr & _ & Hes).
  rewrite Hes. intros (p & c & t & Hp & He). unfold entry_of in He. cbn [fst snd] in He.
  destruct (bool_decide (walk_root l _ `prefix_of` p)) eqn:Hpre; [|done]. apply bool_decide_eq_true in Hpre.
  assert (basePath l `prefix_of` p) as Hu by (etrans; [by apply walk_root_under|done]).
  destruct (_ && _); [|done]. injection He as <-. cbn [Key CreatedAt].
  exists p, (plaintext l c), t. split_and!; [apply place_locate; by apply (Hs p _ Hp)| |done].
  unfold local_view. rewrite decide_True by done. by rewrite Hp.
Qed.

(** The listing is the walk of a root under the storage root, in some order. *)
Lemma list_walk f prefix l es :
  local_sound l → local_List f prefix l = Ok es →
  ∃ root fl, basePath l `prefix_of` root ∧ es ≡ₚ omap (entry_of l root fl) (map_to_list (nodes l)).
Proof.
  intros [Hb _]. unfold local_List. destruct (HasPrefix (Rel _ _) "..") eqn:Hrel; [done|].
  destruct (decide (basePath l `prefix_of` Resolve (basePath l) prefix)) as [[r Hr]|Hout];
    [|by rewrite (Rel_outside _ _ Hout) in Hrel].
  rewrite Hr. pose proof (walk_root_under l r Hb) as Hu. unfold walk_root in Hu.
  case_decide; destruct f; try done; intros [= <-]; eexists _, _; (split; [exact Hu|apply merge_sort_Permutation]).
Qed.

Lemma entry_place l root fl pn e :
  local_sound l → basePath l `prefix_of` root → nodes l !! pn.1 = Some pn.2 → entry_of l root fl pn = Some e →
  local_place l (Key e) = Some pn.1.
Proof.
  intros [_ Hs] Hr Hp He. unfold entry_of in He. destruct pn as [p [c t|]]; [|done]. cbn [fst snd] in *.
  destruct (bool_decide (root `prefix_of` p)) eqn:Hpre; [|done]. apply bool_decide_eq_true in Hpre.
  destruct (_ && _); [|done]. injection He as <-. apply place_locate, (Hs p _ Hp). by etrans.
Qed.

Lemma local_list_nodup f prefix l es :
  local_sound l → local_List f prefix l = Ok es → NoDup ((λ e, local_place l (Key e)) <$> es).
Proof.
  intros Hs Hl. destruct (list_walk f prefix l es Hs Hl) as (root & fl & Hr & ->).
  assert (∀ ns, (∀ pn, pn ∈ ns → nodes l !! pn.1 = Some pn.2) →
    (λ e, local_place l (Key e)) <$> omap (entry_of l root fl) ns `sublist_of` Some ∘ fst <$> ns) as Hsub.
  { induction ns as [|pn ns IH]; intros Hns; [done|]. cbn [omap list_omap].
    assert ((λ e, local_place l (Key e)) <$> omap (entry_of l root fl) ns `sublist_of` Some ∘ fst <$> ns) as Hrec
      by (apply IH; intros ??; apply Hns; by constructor).
    destruct (entry_of l root fl pn) as [e|] eqn:He; [|by apply sublist_cons].
    rewrite !fmap_cons, (entry_place l root fl pn e Hs Hr (Hns pn (list_elem_of_here pn ns)) He). by apply sublist_skip. }
  eapply sublist_NoDup; [|apply Hsub].
  - rewrite list_fmap_compose. apply NoDup_fmap; [apply _|]. apply NoDup_fst_map_to_list.
  - intros [p n] Hin. by apply elem_of_map_to_list in Hin.
Qed.

Lemma local_list_complete f prefix l es d p c t :
  local_sound l → local_List f prefix l = Ok es → local_place l prefix = Some d → d `prefix_of` p → d ≠ p →
  local_view l p = Some (c, t) →
  ∃ e, e ∈ es ∧ local_place l (Key e) = Some p ∧ CreatedAt e = time_unix t.
Proof.
  intros [Hb Hs] Hl Hd Hpre Hne Hv. destruct (list_entries f prefix l es Hl) as (r & fl & _ & Hr & Hfl & Hes).
  rewrite place_locate in Hd. assert (d = basePath l ++ r) as ->.
  { unfold locate in Hd. rewrite Hr in Hd. destruct (HasPrefix prefix "/"); [done|]. destruct (HasPrefix _ _); [done|]. congruence. }
  assert (basePath l `prefix_of` p) as Hu by (etrans; [|exact Hpre]; by eexists).
  unfold local_view in Hv. rewrite decide_True in Hv by done.
  destruct (nodes l !! p) as [[b m|]|] eqn:Hp; try done. injection Hv as _ ->.
  destruct (Hs p _ Hp Hu) as (Hk & Hpar & _).
  assert (basePath l ++ r ∈ dirs l) as Hdir.
  { rewrite Forall_forall in Hpar. apply Hpar. destruct Hpre as [s ->]. unfold parents. apply list_elem_of_fmap.
    exists (length (basePath l ++ r)). rewrite take_app_length. split; [done|]. apply elem_of_seq. rewrite (length_app _ s).
    destruct s as [|x s]; [by rewrite app_nil_r in Hne|]. cbn. lia. }
  eexists. rewrite Hes. split; [exists p, b, t; split; [done|]|].
  - unfold entry_of, walk_root. rewrite decide_True by done. cbn [fst snd]. rewrite bool_decide_eq_true_2 by done.
    rewrite Hfl by (by rewrite Hr). cbn. done.
  - cbn [Key CreatedAt]. split; [by apply place_locate|done].
Qed.

(** The file system keeps the promises of the interface. *)
#[global] Instance local_storage_laws `{!GCMLaws} : StorageLaws LocalStorage := {|
  sound := local_sound; place := local_place; view := local_view;
  upload_ok := local_upload_ok;
  download_ok := λ key s p data t _, local_download_ok key s p data t;
  download_gone := λ f key s p _, local_download_gone f key s p;
  delete_ok := local_delete_ok;
  list_ok := λ prefix s d _, local_list_ok prefix s d;
  list_sound := local_list_sound;
  list_nodup := local_list_nodup;
  list_complete := local_list_complete |}.

(** No key reaches a file outside the storage root: an upload or a deletion leaves every such
    file as it was, and a download reads a file under it. *)
Theorem storage_confined f now nonce key data l p :
  ¬ basePath l `prefix_of` p →
  nodes (local_Upload f now nonce key data l).2 !! p = nodes l !! p ∧
  nodes (local_Delete f key l).2 !! p = nodes l !! p ∧
  (∀ c, local_Download f key l = Ok c → ∃ q b t, basePath l `prefix_of` q ∧ nodes l !! q = Some (File b t)).
Proof.
  intros Hout. unfold local_Upload, local_Delete, local_Download. destruct (locate l key) as [q|e] eqn:Hk; [|done].
  assert (basePath l `prefix_of` q) as Hq by (destruct (locate_under l key q Hk) as (r & -> & _); by eexists).
  assert (q ≠ p) as Hne by (by intros ->). cbn [nodes with_nodes]. split_and!.
  - repeat case_match; subst; cbn [snd nodes with_nodes]; by rewrite ?lookup_insert_ne by done.
  - repeat case_match; subst; cbn [snd nodes with_nodes]; by rewrite ?lookup_delete_ne by done.
  - intros c. destruct (nodes l !! q) as [[b t|]|] eqn:En; try done. intros _. by exists q, b, t.
Qed.

End LocalLaws.

(** ** S3 *)

(** src/internal/backup/s3.go:40-51 S3Config *)
Record S3Config := {
  Endpoint : string; Bucket : string; Region : string; PathStyle : bool; MaxRetries : Z; InitialDelay : Z; MaxDelay : Z;
  EncryptionKey : option string }.

(** src/internal/backup/s3.go:24-37 S3Storage *)
Record S3Storage := {
  endpoint : string; bucket : string; region : string; pathStyle : bool; s3Key : option string; maxRetries : Z;
  initialDelay : duration; maxDelay : duration }.

(** src/internal/backup/s3.go:95-103 stripScheme *)
Definition stripScheme (endpoint : string) : string :=
  if HasPrefix endpoint "https://" then TrimPrefix endpoint "https://"
  else if HasPrefix endpoint "http://" then TrimPrefix endpoint "http://"
  else endpoint.

(** src/internal/backup/s3.go:54-90 NewS3Storage *)
Definition NewS3Storage (cfg : S3Config) : S3Storage :=
  let initial := i64 (InitialDelay cfg * Millisecond) in
  let max := i64 (MaxDelay cfg * Second) in
  {| endpoint := if decide (Endpoint cfg = "") then "s3." +:+ Region cfg +:+ ".amazonaws.com" else stripScheme (Endpoint cfg);
     bucket := Bucket cfg; region := Region cfg; pathStyle := PathStyle cfg; s3Key := EncryptionKey cfg;
     maxRetries := if MaxRetries cfg <=? 0 then 3 else MaxRetries cfg;
     initialDelay := if initial <=? 0 then 100 * Millisecond else initial;
     maxDelay := if max <=? 0 then 5 * Second else max |}.

Definition scheme (s : S3Storage) : string := if HasPrefix (endpoint s) "http://" then "http" else "https".

(** src/internal/backup/s3.go:351-361 S3Storage.bucketURL *)
Definition bucketURL (s : S3Storage) : string :=
  let host := stripScheme (endpoint s) in
  if pathStyle s then scheme s +:+ "://" +:+ host +:+ "/" +:+ bucket s
  else scheme s +:+ "://" +:+ bucket s +:+ "." +:+ host.

(** src/internal/backup/s3.go:363-373 S3Storage.objectURL *)
Definition objectURL (s : S3Storage) (key : string) : string :=
  let host := stripScheme (endpoint s) in
  if pathStyle s then scheme s +:+ "://" +:+ host +:+ "/" +:+ bucket s +:+ "/" +:+ key
  else scheme s +:+ "://" +:+ bucket s +:+ "." +:+ host +:+ "/" +:+ key.

(** The wait after attempt [i].
    src/internal/backup/s3.go:126-129 S3Storage.retry.delay *)
Definition retry_delay (s : S3Storage) (i : nat) : duration :=
  let delay := i64 (initialDelay s * (if (i <? 64)%nat then i64 (2 ^ Z.of_nat i) else 0)) in
  if maxDelay s <? delay then maxDelay s else delay.

(** [op i] is the error of attempt [i], [canceled i] whether the context ends during the wait
    after it; the attempts made and the waits come with the verdict.
    src/internal/backup/s3.go:106-147 S3Storage.retry *)
Fixpoint retry_from (s : S3Storage) (op : nat → option string) (canceled : nat → bool) (tries i : nat) (lastErr : string)
  : result storage_error unit * list duration :=
  match tries with
  | O => (Err (Exhausted lastErr), [])
  | S tries =>
      match op i with
      | None => (Ok tt, [])
      | Some e =>
          if canceled i then (Err Canceled, [retry_delay s i])
          else let '(r, ws) := retry_from s op canceled tries (S i) e in (r, retry_delay s i :: ws)
      end
  end.

Definition retry (s : S3Storage) (op : nat → option string) (canceled : nat → bool) : result storage_error unit * list duration :=
  retry_from s op canceled (Z.to_nat (if maxRetries s <=? 0 then 1 else maxRetries s)) 0 "".

(** An S3 request: an answer's status or the error of the exchange. *)
Abbreviation answer := (result string Z).

Definition refused (what : string) (a : answer) (tolerated : Z) : option string :=
  match a with
  | Err e => Some (what +:+ ": " +:+ e)
  | Ok code => if (400 <=? code) && negb (code =? tolerated) then Some (what +:+ " failed: HTTP " +:+ itoa code) else None
  end.

Section S3.
Context `{GCM}.

(** The bytes every attempt sends, and the verdict.
    src/internal/backup/s3.go:149-195 S3Storage.Upload *)
Definition s3_Upload (s : S3Storage) (net : nat → answer) (canceled : nat → bool) (nonce data : string)
  : result storage_error string :=
  match (match s3Key s with Some k => encryptAES256GCM data k nonce | None => Some data end) with
  | None => Err EncryptFailed
  | Some body => match (retry s (λ i, refused "S3 upload" (net i) 0) canceled).1 with Ok _ => Ok body | Err e => Err e end
  end.

(** [stored] is the body of the answer.
    src/internal/backup/s3.go:209-250 S3Storage.Download *)
Definition s3_Download (s : S3Storage) (net : nat → answer) (canceled : nat → bool) (stored : string)
  : result storage_error string :=
  match (retry s (λ i, refused "S3 download" (net i) 0) canceled).1 with
  | Err e => Err e
  | Ok _ =>
      match s3Key s with
      | None => Ok stored
      | Some k => match decryptAES256GCM stored k with Some d => Ok d | None => Err DecryptFailed end
      end
  end.

(** An object that is not there counts as deleted.
    src/internal/backup/s3.go:252-276 S3Storage.Delete *)
Definition s3_Delete (s : S3Storage) (net : nat → answer) (canceled : nat → bool) : result storage_error unit :=
  (retry s (λ i, refused "S3 delete" (net i) 404) canceled).1.

End S3.

(** ** What the retries do *)

(** The attempts of a run: none after a success, one for each wait and the successful one. *)
Lemma s3_retry_spec s op tries : ∀ i err,
  let '(r, ws) := retry_from s op (λ _, false) tries i err in
  match r with
  | Ok _ => ∃ k, (k < tries)%nat ∧ op (i + k)%nat = None ∧ (∀ j, (j < k)%nat → is_Some (op (i + j)%nat)) ∧
                 ws = retry_delay s <$> seq i k
  | Err e => (∀ j, (j < tries)%nat → is_Some (op (i + j)%nat)) ∧ ws = retry_delay s <$> seq i tries ∧
             e = Exhausted (if tries is S n then default "" (op (i + n)%nat) else err)
  end.
Proof.
  induction tries as [|tries IH]; intros i err; cbn [retry_from]; [split_and!; [lia|done|done]|].
  destruct (op i) as [e|] eqn:Ho.
  - specialize (IH (S i) e). destruct (retry_from _ _ _ tries (S i) e) as [[[]|x] ws]; cbn [fst snd].
    + destruct IH as (k & Hk & Hn & Hb & ->). exists (S k). rewrite Nat.add_succ_r.
      split_and!; [lia|done| |done]. intros [|j] Hj; [by rewrite Nat.add_0_r, Ho|rewrite Nat.add_succ_r; apply Hb; lia].
    + destruct IH as (Hb & -> & ->). split_and!; [|done|].
      * intros [|j] Hj; [by rewrite Nat.add_0_r, Ho|rewrite Nat.add_succ_r; apply Hb; lia].
      * f_equal. destruct tries; [by rewrite Nat.add_0_r, Ho|by rewrite Nat.add_succ_r].
  - exists 0%nat. rewrite Nat.add_0_r. split_and!; [lia|done|lia|done].
Qed.

(** An upload that the service accepts within its attempts is stored, and reading the stored body
    gives the data back, encrypted or not. *)
Theorem s3_upload_download `{GCM, !GCMLaws} s net net' nonce data body :
  slen nonce = 12%nat → s3_Upload s net (λ _, false) nonce data = Ok body →
  (∃ k, (k < Z.to_nat (maxRetries s `max` 1))%nat ∧ refused "S3 download" (net' k) 0 = None) →
  s3_Download s net' (λ _, false) body = Ok data.
Proof.
  intros Hn Hu (k & Hk & Hok). unfold s3_Upload in Hu. unfold s3_Download, retry.
  destruct (match s3Key s with Some k => _ | None => _ end) as [c|] eqn:Hc; [|done].
  destruct (retry s _ _).1; [|done]. injection Hu as ->.
  pose proof (s3_retry_spec s (λ i, refused "S3 download" (net' i) 0)
    (Z.to_nat (if maxRetries s <=? 0 then 1 else maxRetries s)) 0 "") as Hr.
  destruct (retry_from _ _ _ _ 0 "") as [[[]|e] ws]; cbn [fst].
  - destruct (s3Key s) as [key|]; [|by injection Hc as ->]. by rewrite (decrypt_encrypt data key nonce body).
  - destruct Hr as (Hall & _). destruct (Hall k) as [x Hx]; [|cbn in Hx; congruence].
    destruct (Z.leb_spec (maxRetries s) 0); lia.
Qed.

(** A storage given a plain-text endpoint is reached over TLS: the scheme is dropped when the
    storage is made and looked for when a URL is. *)
Theorem s3_scheme_is_lost cfg host key :
  Endpoint cfg = "http://" +:+ host → HasPrefix host "http://" = false →
  HasPrefix (objectURL (NewS3Storage cfg) key) "https://" = true ∧ HasPrefix (bucketURL (NewS3Storage cfg)) "https://" = true.
Proof.
  intros He Hh. assert (stripScheme (Endpoint cfg) = host) as Hstrip.
  { rewrite He. unfold stripScheme. destruct (HasPrefix _ "https://") eqn:E.
    - exfalso. apply HasPrefix_spec in E as [r Hr]. apply (f_equal bytes) in Hr. rewrite !bytes_app in Hr. done.
    - assert (HasPrefix ("http://" +:+ host) "http://" = true) as -> by (apply HasPrefix_spec; by exists host).
      by rewrite TrimPrefix_app. }
  assert (scheme (NewS3Storage cfg) = "https") as Hsch.
  { unfold scheme, NewS3Storage. cbn [endpoint]. rewrite decide_False by (by rewrite He). by rewrite Hstrip, Hh. }
  unfold objectURL, bucketURL. rewrite Hsch. split; apply HasPrefix_spec;
    destruct (pathStyle _); eexists; reflexivity.
Qed.

(** ** Round trips *)

Section RoundTrip.
Context `{GCM, !GCMLaws}.

Lemma local_download_iff key l d :
  local_Download NoFault key l = Ok d ↔ ∃ p t, local_place l key = Some p ∧ local_view l p = Some (Some d, t).
Proof.
  split; [|intros (p & t & Hp & Hv); by eapply local_download_ok].
  unfold local_Download, local_place. destruct (locate l key) as [p|] eqn:Hk; [|done]. intros Hd. exists p.
  destruct (locate_under l key p Hk) as (r & -> & _). unfold local_view, plaintext. rewrite decide_True by by eexists.
  destruct (nodes l !! _) as [[c t|]|]; [|done..]. exists t. split; [done|].
  destruct (encryptionKey l) as [k|]; [|congruence]. destruct (decryptAES256GCM c k); congruence.
Qed.

(** A stored backup reads back as it was, encrypted or not, and every backup under a key that
    names another file reads as before. *)
Theorem stored_backup_reads_back now nonce key data l l' :
  local_sound l → slen nonce = 12%nat → local_Upload NoFault now nonce key data l = (Ok tt, l') →
  local_Download NoFault key l' = Ok data ∧
  ∀ key' d, local_place l key' ≠ local_place l key →
    local_Download NoFault key' l' = Ok d ↔ local_Download NoFault key' l = Ok d.
Proof.
  intros Hs Hn Hu. pose proof (local_upload_ok NoFault now nonce key data l Hs Hn) as Hok. rewrite Hu in Hok.
  destruct Hok as (_ & Hpl & Hrest & Hdone). destruct (Hdone eq_refl) as (p & Hp & Hv). split.
  - eapply local_download_ok; [by rewrite Hpl|done].
  - intros key' d Hne. rewrite !local_download_iff, Hpl. split; intros (q & t & Hq & Hd); exists q, t;
      (split; [done|]); [rewrite <- Hrest|rewrite Hrest]; congruence.
Qed.

End RoundTrip.

(** ** Examples *)

Definition toy_gcm : GCM := {|
  Seal := λ k _ p, k +:+ p;
  Open := λ k _ c, if HasPrefix c k then Some (TrimPrefix c k) else None |}.

#[local] Instance toy_gcm_laws : @GCMLaws toy_gcm.
Proof.
  split. intros k n p. cbn. assert (HasPrefix (k +:+ p) k = true) as -> by (apply HasPrefix_spec; by exists p).
  by rewrite TrimPrefix_app.
Qed.

Definition no_files : LocalStorage := {| basePath := []; encryptionKey := None; nodes := {[ ["etc"; "passwd"] := File "root" 0 ]};
  dirs := {[ []; ["etc"] ]} |}.
Definition demo_base : path := ["srv"; "backups"].
Definition demo_key : string := "0123456789abcdef".
Definition demo_storage : LocalStorage := NewLocalStorage demo_base (Some demo_key) no_files.
Definition demo_upload := @local_Upload toy_gcm NoFault 5 "nonce-of-12b" "t1/app/b1.json" "{}" demo_storage.

Example paths_are_cleaned :
  @locate demo_storage "t1/./a//../b.json" = Ok ["srv"; "backups"; "t1"; "b.json"] ∧
  @locate demo_storage "t1/../../../etc/passwd" = Err OutsideRoot ∧
  @locate demo_storage "..hidden" = Err OutsideRoot ∧ @locate demo_storage "/etc/passwd" = Err AbsoluteKey.
Proof. vm_compute. done. Qed.

Lemma demo_storage_sound : local_sound demo_storage.
Proof.
  split; [by vm_compute|]. intros p n Hp Hu. cbn [demo_storage nodes NewLocalStorage with_nodes no_files] in Hp.
  apply lookup_singleton_Some in Hp as [<- _]. destruct Hu as [r Hr]. discriminate Hr.
Qed.

Lemma stored_backup_reads_back_witness : @local_Download toy_gcm NoFault "t1/app/b1.json" demo_upload.2 = Ok "{}".
Proof.
  refine (proj1 (@stored_backup_reads_back toy_gcm toy_gcm_laws 5 "nonce-of-12b" "t1/app/b1.json" "{}" demo_storage
    demo_upload.2 demo_storage_sound eq_refl _)).
  vm_compute. reflexivity.
Defined.

Lemma storage_confined_witness :
  nodes (local_Delete NoFault "../../etc/passwd" demo_storage).2 !! ["etc"; "passwd"] = Some (File "root" 0).
Proof.
  refine (eq_trans (proj1 (proj2 (@storage_confined toy_gcm NoFault 0 "" "../../etc/passwd" "" demo_storage ["etc"; "passwd"] _))) _).
  - intros [r Hr]. discriminate Hr.
  - vm_compute. reflexivity.
Defined.

Definition minio : S3Config := {| Endpoint := "http://minio:9000"; Bucket := "b"; Region := ""; PathStyle := true; MaxRetries := 0;
  InitialDelay := 0; MaxDelay := 0; EncryptionKey := Some demo_key |}.

Lemma s3_scheme_is_lost_witness : HasPrefix (objectURL (NewS3Storage minio) "k") "https://" = true.
Proof. exact (proj1 (s3_scheme_is_lost minio "minio:9000" "k" eq_refl eq_refl)). Defined.

Lemma s3_upload_download_witness :
  @s3_Download toy_gcm (NewS3Storage minio) (λ i, if (i =? 0)%nat then Ok 503 else Ok 200) (λ _, false)
    ("nonce-of-12b" +:+ demo_key +:+ "{}") = Ok "{}".
Proof.
  refine (@s3_upload_download toy_gcm toy_gcm_laws (NewS3Storage minio) (λ _, Ok 200) _ "nonce-of-12b" "{}" _ eq_refl eq_refl _).
  exists 1%nat. split; [vm_compute; lia|reflexivity].
Defined.

End Storage.
