(* ===== verification/Backup.v ===== *)
(** * Backup: the scheduled backups and their restoration ([internal/backup], [api/handlers/backups.go])

    The scheduler, the module and the handlers over any storage that keeps the promises of
    [StorageLaws].  The tables are [db/backups.go]'s and those of the applications and
    tenants.  The environment decides which statements and storage operations fail, the
    clock and the generated identifiers; JSON text is a parameter with its round trip. *)

From S2P Require Import Prelude GoStrings GoTime KVStore Sha256 Storage.
#[local] Open Scope Z_scope.

Module Backup.
Import GoTime KV Sha256 Storage.

(** ** Data *)

(** src/internal/core/store.go:238-257 Application *)
Record Application := {
  aID : string; ProjectID : string; aTenantID : string; aName : string; Type_ : string; SourceType : string;
  SourceURL : string; Branch : string; Dockerfile : string; BuildPack : string; EnvVarsEnc : string;
  LabelsJSON : string; Replicas : Z; Port : Z; aStatus : string; ServerID : string; aCreatedAt : instant;
  aUpdatedAt : instant }.

(** src/internal/core/store.go:452-471 Backup *)
Record Backup := {
  bID : string; bTenantID : string; bSourceType : string; SourceID : string; StorageTarget : string;
  FilePath : string; SizeBytes : Z; Encryption : string; bStatus : string; Scheduled : bool; RetentionDays : Z;
  BackupType : string; bCompletedAt : option instant; bCreatedAt : instant }.

Record Tenant := { tID : string; tCreatedAt : instant }.

(** A field with [omitempty]. *)
Definition omitempty (k v : string) : list (string * json) := if decide (v = "") then [] else [(k, JStr v)].

(** The document of an application: the encrypted variables are not in it.
    src/internal/core/store.go:238-257 Application.json *)
Definition app_doc (a : Application) : json :=
  JObj ([("id", JStr (aID a)); ("project_id", JStr (ProjectID a)); ("tenant_id", JStr (aTenantID a));
         ("name", JStr (aName a)); ("type", JStr (Type_ a)); ("source_type", JStr (SourceType a));
         ("source_url", JStr (SourceURL a)); ("branch", JStr (Branch a))] ++
        omitempty "dockerfile" (Dockerfile a) ++ omitempty "build_pack" (BuildPack a) ++
        omitempty "labels_json" (LabelsJSON a) ++
        [("replicas", JNum (Replicas a)); ("port", JNum (Port a)); ("status", JStr (aStatus a))] ++
        omitempty "server_id" (ServerID a) ++
        [("created_at", JTime (aCreatedAt a)); ("updated_at", JTime (aUpdatedAt a))]).

Definition read_app (d : json) : option Application :=
  match d with
  | JObj fs =>
      replicas ← read_int "replicas" fs 0; port ← read_int "port" fs 0; id ← read_str "id" fs ""; project ← read_str "project_id" fs ""; tenant ← read_str "tenant_id" fs "";
      name ← read_str "name" fs ""; ty ← read_str "type" fs ""; source ← read_str "source_type" fs "";
      url ← read_str "source_url" fs ""; branch ← read_str "branch" fs ""; docker ← read_str "dockerfile" fs "";
      pack ← read_str "build_pack" fs ""; labels ← read_str "labels_json" fs "";
      status ← read_str "status" fs ""; server ← read_str "server_id" fs "";
      created ← read_time "created_at" fs zero_time; updated ← read_time "updated_at" fs zero_time;
      Some {| aID := id; ProjectID := project; aTenantID := tenant; aName := name; Type_ := ty; SourceType := source;
              SourceURL := url; Branch := branch; Dockerfile := docker; BuildPack := pack; EnvVarsEnc := "";
              LabelsJSON := labels; Replicas := replicas; Port := port; aStatus := status; ServerID := server;
              aCreatedAt := created; aUpdatedAt := updated |}
  | _ => None
  end.

(** The text of documents. *)
Class JSONText := { MarshalIndent : json → string; Unmarshal : string → option json }.
Class JSONTextLaws `{JSONText} := {
  unmarshal_indent : ∀ d, Unmarshal (MarshalIndent d) = Some d;
  indent_nonempty : ∀ d, MarshalIndent d ≠ "" }.

(** ** Dates *)

Definition pad (n : nat) (z : Z) : string :=
  let d := itoa z in str (replicate (n - slen d) "0"%char) +:+ d.

(** Year, month and day of the [n]-th day since January 1 of year 1, counted from March. *)
Definition civil (n : Z) : Z * Z * Z :=
  let z := n + 306 in
  let era := z / 146097 in
  let doe := z mod 146097 in
  let yoe := (doe - doe / 1460 + doe / 36524 - doe / 146096) / 365 in
  let doy := doe - (365 * yoe + yoe / 4 - yoe / 100) in
  let mp := (5 * doy + 2) / 153 in
  let m := if mp <? 10 then mp + 3 else mp - 9 in
  (yoe + era * 400 + (if m <=? 2 then 1 else 0), m, doy - (153 * mp + 2) / 5 + 1).

Definition day_number (off : duration) (t : instant) : Z := (t + off) / Day.

(** [Format("2006-01-02")] *)
Definition format_date (off : duration) (t : instant) : string :=
  let '(y, m, d) := civil (day_number off t) in pad 4 y +:+ "-" +:+ pad 2 m +:+ "-" +:+ pad 2 d.

Definition hour_of (off : duration) (t : instant) : Z := time_of_day off t / Hour.
Definition minute_of (off : duration) (t : instant) : Z := time_of_day off t mod Hour / Minute.

(** [Format("20060102-150405")] *)
Definition format_stamp (off : duration) (t : instant) : string :=
  let '(y, m, d) := civil (day_number off t) in
  pad 4 y +:+ pad 2 m +:+ pad 2 d +:+ "-" +:+ pad 2 (hour_of off t) +:+ pad 2 (minute_of off t) +:+
  pad 2 (time_of_day off t mod Minute / Second).

Example format_date_ex :
  format_date 0 ((unix_epoch_s + 951782400) * Second) = "2000-02-29" ∧
  format_stamp 0 ((unix_epoch_s + 1704067199) * Second) = "20231231-235959".
Proof. vm_compute. done. Qed.

(** ** The world *)

Inductive event :=
| Published (type_ : string) (data : list (string * string)).

Section World.
Context {S : Type}.

Record World := {
  tenants : list Tenant; projects : gset string; apps : list Application; backups : list Backup;
  storages : gmap string S; events : list event; steps : nat }.

(** What the code does not decide, by the number of the step: whether a statement works, what the
    disk does, whether the scheduler is stopping, the clock, the generated identifiers and nonces,
    the order of a walk over the storages, the snapshot of the database. *)
Record Env := {
  works : nat → bool; disk : nat → fault; stopping : nat → bool; clock : nat → instant; fresh : nat → string;
  nonce : nat → string; walk : nat → list string; snapshotter : option (nat → option string); has_bus : bool;
  off : duration }.

Definition M (A : Type) : Type := World → A * World.
#[global] Instance M_ret : MRet M := λ A a w, (a, w).
#[global] Instance M_bind : MBind M := λ A B k m w, let '(a, w') := m w in k a w'.

Definition tick (w : World) : World :=
  {| tenants := tenants w; projects := projects w; apps := apps w; backups := backups w; storages := storages w;
     events := events w; steps := Datatypes.S (steps w) |}.
Definition with_backups (w : World) (l : list Backup) : World :=
  {| tenants := tenants w; projects := projects w; apps := apps w; backups := l; storages := storages w;
     events := events w; steps := steps w |}.
Definition with_apps (w : World) (l : list Application) : World :=
  {| tenants := tenants w; projects := projects w; apps := l; backups := backups w; storages := storages w;
     events := events w; steps := steps w |}.
Definition with_storages (w : World) (m : gmap string S) : World :=
  {| tenants := tenants w; projects := projects w; apps := apps w; backups := backups w; storages := m;
     events := events w; steps := steps w |}.
Definition add_event (w : World) (e : event) : World :=
  {| tenants := tenants w; projects := projects w; apps := apps w; backups := backups w; storages := storages w;
     events := events w ++ [e]; steps := steps w |}.

Context `{BackupStorage S, JSONText}.
Variable E : Env.

Inductive db_error := ErrIO | ErrConstraint | ErrNoRow.

(** A statement runs as a whole, or fails and changes nothing. *)
Definition stmt {A} (f : World → result db_error A * World) : M (result db_error A) := λ w,
  if works E (steps w) then let '(r, w') := f w in (r, tick w') else (Err ErrIO, tick w).
Definition query {A} (f : World → A) : M (result db_error A) := stmt (λ w, (Ok (f w), w)).

Definition Now : M instant := λ w, (clock E (steps w), tick w).
Definition GenerateID : M string := λ w, (fresh E (steps w), tick w).
Definition Err_ : M bool := λ w, (stopping E (steps w), tick w).

(** src/internal/backup/scheduler.go:536-541 Scheduler.publishEvent *)
Definition publishEvent (type_ : string) (data : list (string * string)) : M unit := λ w,
  (tt, if has_bus E then add_event w (Published type_ data) else w).

(** An operation on the storage with a name; [None] when there is none. *)
Definition on_storage {A} (name : string) (f : fault → instant → string → S → A * S) : M (option A) := λ w,
  match storages w !! name with
  | None => (None, tick w)
  | Some s =>
      let '(a, s') := f (disk E (steps w)) (clock E (steps w)) (nonce E (steps w)) s in
      (Some a, tick (with_storages w (<[name := s']> (storages w))))
  end.

Definition upload (name key data : string) : M (result storage_error unit) :=
  r ← on_storage name (λ f now n s, Upload f now n key data s);
  mret (default (Err NotFound) r).

(** ** The tables *)

(** A page of an ordered query. *)
Definition page {A} (limit offset : nat) (l : list A) : list A := take limit (drop offset l).

Definition newer_tenant (x y : Tenant) : Prop := tCreatedAt y ≤ tCreatedAt x.
#[global] Instance newer_tenant_dec x y : Decision (newer_tenant x y) := ltac:(unfold newer_tenant; apply _).
Definition newer_app (x y : Application) : Prop := aCreatedAt y ≤ aCreatedAt x.
#[global] Instance newer_app_dec x y : Decision (newer_app x y) := ltac:(unfold newer_app; apply _).
Definition newer_backup (x y : Backup) : Prop := bCreatedAt y ≤ bCreatedAt x.
#[global] Instance newer_backup_dec x y : Decision (newer_backup x y) := ltac:(unfold newer_backup; apply _).

(** src/internal/db/invites.go:95-121 SQLiteDB.ListAllTenants *)
Definition ListAllTenants (limit offset : nat) : M (result db_error (list Tenant)) :=
  query (λ w, page limit offset (merge_sort newer_tenant (tenants w))).

(** The columns the listing reads; the others are left at their zero value. *)
Definition listed (a : Application) : Application :=
  {| aID := aID a; ProjectID := ProjectID a; aTenantID := aTenantID a; aName := aName a; Type_ := Type_ a;
     SourceType := SourceType a; SourceURL := SourceURL a; Branch := Branch a; Dockerfile := ""; BuildPack := "";
     EnvVarsEnc := ""; LabelsJSON := ""; Replicas := Replicas a; Port := 0; aStatus := aStatus a;
     ServerID := ServerID a; aCreatedAt := aCreatedAt a; aUpdatedAt := aUpdatedAt a |}.

Definition apps_of (tenant : string) (w : World) : list Application :=
  listed <$> merge_sort newer_app (filter (λ a, aTenantID a = tenant) (apps w)).

(** src/internal/db/apps.go:99-129 SQLiteDB.ListAppsByTenant *)
Definition ListAppsByTenant (tenant : string) (limit offset : nat) : M (result db_error (list Application)) :=
  query (λ w, page limit offset (apps_of tenant w)).

Definition app_types : list string := ["service"; "worker"; "static"; "database"; "cron"; "compose-stack"].
Definition source_types : list string := ["git"; "image"; "compose"; "dockerfile"; "marketplace"].
Definition statuses : list string := ["pending"; "building"; "deploying"; "running"; "stopped"; "crashed"; "failed"].

(** The constraints of the table. *)
Definition app_valid (w : World) (a : Application) : bool :=
  bool_decide (Type_ a ∈ app_types) && bool_decide (SourceType a ∈ source_types) && bool_decide (aStatus a ∈ statuses) &&
  bool_decide (ProjectID a ∈ projects w) && bool_decide (Exists (λ t, tID t = aTenantID a) (tenants w)) &&
  bool_decide (Forall (λ b, aID b ≠ aID a) (apps w)).

(** The row as it is inserted: there is no port column, the times are the statement's.
    src/internal/db/apps.go:13-26 SQLiteDB.CreateApp *)
Definition CreateApp (a : Application) : M (result db_error unit) :=
  stmt (λ w,
    let now := clock E (steps w) - clock E (steps w) mod Second in
    if app_valid w a then
      (Ok tt, with_apps w (apps w ++ [{|
         aID := aID a; ProjectID := ProjectID a; aTenantID := aTenantID a; aName := aName a; Type_ := Type_ a;
         SourceType := SourceType a; SourceURL := SourceURL a; Branch := Branch a; Dockerfile := Dockerfile a;
         BuildPack := BuildPack a; EnvVarsEnc := EnvVarsEnc a; LabelsJSON := LabelsJSON a; Replicas := Replicas a;
         Port := 0; aStatus := aStatus a; ServerID := ServerID a; aCreatedAt := now; aUpdatedAt := now |}]))
    else (Err ErrConstraint, w)).

Definition update_row (a r : Application) (now : instant) : Application :=
  {| aID := aID r; ProjectID := ProjectID r; aTenantID := aTenantID r; aName := aName a; Type_ := Type_ r;
     SourceType := SourceType r; SourceURL := SourceURL a; Branch := Branch a; Dockerfile := Dockerfile a;
     BuildPack := BuildPack r; EnvVarsEnc := EnvVarsEnc a; LabelsJSON := LabelsJSON a; Replicas := Replicas a;
     Port := Port r; aStatus := aStatus a; ServerID := ServerID a; aCreatedAt := aCreatedAt r; aUpdatedAt := now |}.

(** src/internal/db/apps.go:157-167 SQLiteDB.UpdateApp *)
Definition UpdateApp (a : Application) : M (result db_error unit) :=
  stmt (λ w,
    let now := clock E (steps w) - clock E (steps w) mod Second in
    if decide (aStatus a ∈ statuses) then
      (Ok tt, with_apps w ((λ r, if decide (aID r = aID a) then update_row a r now else r) <$> apps w))
    else (Err ErrConstraint, w)).

Definition backup_sources : list string := ["volume"; "database"; "config"; "full"].

(** The type of a backup has no column.
    src/internal/db/backups.go:11-19 SQLiteDB.CreateBackup *)
Definition CreateBackup (b : Backup) : M (result db_error unit) :=
  stmt (λ w,
    if decide (Forall (λ r, bID r ≠ bID b) (backups w) ∧ bSourceType b ∈ backup_sources ∧
               Exists (λ t, tID t = bTenantID b) (tenants w)) then
      (Ok tt, with_backups w (backups w ++ [{|
         bID := bID b; bTenantID := bTenantID b; bSourceType := bSourceType b; SourceID := SourceID b;
         StorageTarget := StorageTarget b; FilePath := FilePath b; SizeBytes := SizeBytes b; Encryption := Encryption b;
         bStatus := bStatus b; Scheduled := Scheduled b; RetentionDays := RetentionDays b; BackupType := "";
         bCompletedAt := None; bCreatedAt := clock E (steps w) |}]))
    else (Err ErrConstraint, w)).

Definition backups_of (tenant : string) (w : World) : list Backup :=
  merge_sort newer_backup (filter (λ b, bTenantID b = tenant) (backups w)).

(** src/internal/db/backups.go:22-61 SQLiteDB.ListBackupsByTenant *)
Definition ListBackupsByTenant (tenant : string) (limit offset : Z) : M (result db_error (list Backup)) :=
  query (λ w, page (Z.to_nat (if limit <=? 0 then 20 else limit)) (Z.to_nat offset) (backups_of tenant w)).

Definition set_status (b : Backup) (status : string) (size : Z) (now : instant) : Backup :=
  {| bID := bID b; bTenantID := bTenantID b; bSourceType := bSourceType b; SourceID := SourceID b;
     StorageTarget := StorageTarget b; FilePath := FilePath b; SizeBytes := size; Encryption := Encryption b;
     bStatus := status; Scheduled := Scheduled b; RetentionDays := RetentionDays b; BackupType := BackupType b;
     bCompletedAt := if decide (status = "completed" ∨ status = "failed") then Some now else None;
     bCreatedAt := bCreatedAt b |}.

(** src/internal/db/backups.go:64-74 SQLiteDB.UpdateBackupStatus *)
Definition UpdateBackupStatus (id status : string) (size : Z) (tenant : string) : M (result db_error unit) :=
  stmt (λ w, (Ok tt, with_backups w ((λ b,
    if decide (bID b = id ∧ bTenantID b = tenant) then set_status b status size (clock E (steps w)) else b) <$> backups w))).

(** ** The scheduler *)

(** src/internal/backup/scheduler.go:544-562 CleanupOldBackups *)
Fixpoint delete_old (name : string) (cutoff : Z) (es : list BackupEntry) (deleted : Z) : M Z :=
  match es with
  | [] => mret deleted
  | e :: es =>
      if CreatedAt e <? cutoff then
        r ← on_storage name (λ f _ _ s, Delete f (Key e) s);
        delete_old name cutoff es (if r is Some (Ok _) then deleted + 1 else deleted)
      else delete_old name cutoff es deleted
  end.

Definition CleanupOldBackups (name prefix : string) (retentionDays : Z) : M (result storage_error Z) :=
  r ← on_storage name (λ f _ _ s, (List_ f prefix s, s));
  match default (Err NotFound) r with
  | Err e => mret (Err e)
  | Ok entries =>
      now ← Now;
      d ← delete_old name (time_unix (now - retentionDays * Day)) entries 0;
      mret (Ok d)
  end.

(** src/internal/backup/scheduler.go:497-518 Scheduler.findLastBackupForApp *)
Definition findLastBackupForApp (tenant app : string) : M (option Backup) :=
  r ← ListBackupsByTenant tenant 1 0;
  mret (match r with
        | Err _ => None
        | Ok l => snd <$> list_find (λ b, SourceID b = app ∧ bStatus b = "completed") l
        end).

(** src/internal/backup/scheduler.go:523-532 Scheduler.markFailed *)
Definition markFailed (id tenant : string) : M unit := _ ← UpdateBackupStatus id "failed" 0 tenant; mret tt.

(** The row a backup starts with.
    src/internal/backup/scheduler.go:455-472 Scheduler.backupApp.row *)
Definition pending_row (id tenant app target key : string) (size : Z) (hash : string) (incremental : bool) : Backup :=
  {| bID := id; bTenantID := tenant; bSourceType := "config"; SourceID := app; StorageTarget := target; FilePath := key;
     SizeBytes := size; Encryption := hash; bStatus := "pending"; Scheduled := true; RetentionDays := 30;
     BackupType := if incremental then "incremental" else "full"; bCompletedAt := None; bCreatedAt := zero_time |}.

Definition payload_of (app : Application) : string := MarshalIndent (app_doc app).

(** The file of an earlier backup with the same contents.
    src/internal/backup/scheduler.go:444-453 Scheduler.backupApp.incremental *)
Definition reusable (last : option Backup) (hash : string) : option string :=
  match last with
  | Some b => if decide (Encryption b = hash ∧ FilePath b ≠ "") then Some (FilePath b) else None
  | None => None
  end.

(** src/internal/backup/scheduler.go:422-492 Scheduler.backupApp *)
Definition backupApp (tenant : string) (app : Application) (name : string) : M bool :=
  backupID ← GenerateID;
  let payload := payload_of app in
  let size := Z.of_nat (slen payload) in
  if size =? 0 then markFailed backupID tenant;; mret false
  else
    let hash := sha256_hex payload in
    last ← findLastBackupForApp tenant (aID app);
    let old := reusable last hash in
    let key := default (tenant +:+ "/" +:+ aID app +:+ "/" +:+ backupID +:+ ".json") old in
    r ← CreateBackup (pending_row backupID tenant (aID app) name key size hash (bool_decide (is_Some old)));
    match r with
    | Err _ => mret false
    | Ok _ =>
        u ← (match old with Some _ => mret (Ok tt) | None => upload name key payload end);
        match u with
        | Err _ => markFailed backupID tenant;; mret false
        | Ok _ => UpdateBackupStatus backupID "completed" size tenant;; mret true
        end
    end.

(** The applications of a page; [None] when the scheduler stops.
    src/internal/backup/scheduler.go:392-401 Scheduler.backupTenant.page *)
Fixpoint backup_apps (tenant : string) (l : list Application) (name : string) (n : Z * Z) : M (bool * (Z * Z)) :=
  match l with
  | [] => mret (true, n)
  | a :: l =>
      stop ← Err_;
      if stop : bool then mret (false, n)
      else ok ← backupApp tenant a name;
           backup_apps tenant l name (if ok : bool then (n.1 + 1, n.2) else (n.1, n.2 + 1))
  end.

Definition pageSize : nat := Z.to_nat 500.

(** [true] when every page was seen.  Each page but the last is full, so the number of rows bounds
    the number of pages.
    src/internal/backup/scheduler.go:378-406 Scheduler.backupTenant.pages *)
Fixpoint app_pages (fuel : nat) (tenant name : string) (offset : nat) (n : Z * Z) : M (bool * (Z * Z)) :=
  match fuel with
  | O => mret (false, n)
  | Datatypes.S fuel =>
      stop ← Err_;
      if stop : bool then mret (false, n)
      else r ← ListAppsByTenant tenant pageSize offset;
      match r with
      | Err _ => mret (false, n)
      | Ok [] => mret (true, n)
      | Ok l =>
          x ← backup_apps tenant l name n;
          let '(go, n) := x in
          if negb go then mret (false, n)
          else if (length l <? pageSize)%nat then mret (true, n)
          else app_pages fuel tenant name (offset + length l) n
      end
  end.

(** src/internal/backup/scheduler.go:371-417 Scheduler.backupTenant *)
Definition backupTenant (tenant name : string) : M (Z * Z) := λ w,
  let '((complete, n), w) := app_pages (Datatypes.S (length (apps w))) tenant name 0 (0, 0) w in
  if complete : bool then let '(_, w) := CleanupOldBackups name (tenant +:+ "/") 30 w in (n, w) else (n, w).

(** src/internal/backup/scheduler.go:278-286 Scheduler.runBackupsCtx.page *)
Fixpoint backup_tenants (l : list Tenant) (name : string) (n : Z * Z) : M (bool * (Z * Z)) :=
  match l with
  | [] => mret (true, n)
  | t :: l =>
      stop ← Err_;
      if stop : bool then mret (false, n)
      else m ← backupTenant (tID t) name; backup_tenants l name (n.1 + m.1, n.2 + m.2)
  end.

(** src/internal/backup/scheduler.go:262-291 Scheduler.runBackupsCtx.pages *)
Fixpoint tenant_pages (fuel : nat) (name : string) (offset : nat) (n : Z * Z) : M (bool * (Z * Z)) :=
  match fuel with
  | O => mret (false, n)
  | Datatypes.S fuel =>
      stop ← Err_;
      if stop : bool then mret (false, n)
      else r ← ListAllTenants pageSize offset;
      match r with
      | Err _ => mret (false, n)
      | Ok [] => mret (true, n)
      | Ok l =>
          x ← backup_tenants l name n;
          let '(go, n) := x in
          if negb go then mret (false, n)
          else if (length l <? pageSize)%nat then mret (true, n)
          else tenant_pages fuel name (offset + length l) n
      end
  end.

(** src/internal/backup/scheduler.go:307-314 Scheduler.pickStorage *)
Definition pickStorage : M (option string) := λ w,
  (snd <$> list_find (λ name, is_Some (storages w !! name)) (walk E (steps w)), tick w).

Definition SnapshotBackup (snap : nat → option string) : M (option string) := λ w, (snap (steps w), tick w).

(** The snapshot file is gone when the function returns.
    src/internal/backup/scheduler.go:320-366 Scheduler.snapshotAndUpload *)
Definition snapshotAndUpload (snap : nat → option string) (name : string) : M unit :=
  now ← Now;
  file ← SnapshotBackup snap;
  match file with
  | None => mret tt
  | Some data => upload name ("_system/db/" +:+ "db-snapshot-" +:+ format_stamp (off E) now +:+ ".db") data;; mret tt
  end.

(** src/internal/backup/scheduler.go:250-252 Scheduler.runBackupsCtx.snapshot *)
Definition take_snapshot (name : string) : M unit :=
  match snapshotter E with Some snap => snapshotAndUpload snap name | None => mret tt end.

Definition all_tenants (name : string) : M (bool * (Z * Z)) := λ w,
  tenant_pages (Datatypes.S (length (tenants w))) name 0 (0, 0) w.

(** src/internal/backup/scheduler.go:221-303 Scheduler.runBackupsCtx *)
Definition runBackupsCtx : M unit :=
  stop ← Err_;
  if stop : bool then mret tt
  else
    publishEvent "backup.started" [];;
    st ← pickStorage;
    match st with
    | None => publishEvent "backup.failed" [("reason", "no-storage")]
    | Some name =>
        take_snapshot name;;
        x ← all_tenants name;
        let '(complete, n) := x in
        if complete : bool then
          publishEvent "backup.completed" [("type", "scheduled"); ("backed_up", itoa n.1); ("failed", itoa n.2)]
        else mret tt
    end.

(** ** Restoring *)

Inductive restore_error :=
| ErrList | ErrBackupNotFound | ErrNotCompleted | ErrNoFull | ErrStorageTarget | ErrDownload | ErrDecode | ErrListApps
| ErrRecreate | ErrUpdate.

(** The full backup an incremental one stands for: the last of the listing created before it.
    src/internal/backup/module.go:163-176 Module.RestoreBackup.full *)
Definition full_before (b : Backup) (l : list Backup) : Backup :=
  foldl (λ t c, if decide (SourceID c = SourceID b ∧ BackupType c = "full" ∧ bCreatedAt c < bCreatedAt b) then c else t) b l.

Definition download (name key : string) : M (option (result storage_error string)) :=
  on_storage name (λ f _ _ s, (Download f key s, s)).

(** An archived application becomes a new row, or replaces fields of the row with its name.
    src/internal/backup/module.go:199-243 Module.RestoreBackup.apply *)
Definition apply_archive (archived : Application) (tenant : string) : M (result restore_error unit) :=
  r ← ListAppsByTenant tenant (Z.to_nat 1000) 0;
  match r with
  | Err _ => mret (Err ErrListApps)
  | Ok l =>
      match snd <$> list_find (λ a, aName a = aName archived ∧ aTenantID a = tenant) l with
      | None =>
          id ← GenerateID;
          now ← Now;
          r ← CreateApp {|
            aID := id; ProjectID := ProjectID archived; aTenantID := tenant; aName := aName archived;
            Type_ := Type_ archived; SourceType := SourceType archived; SourceURL := SourceURL archived;
            Branch := Branch archived; Dockerfile := Dockerfile archived; BuildPack := BuildPack archived;
            EnvVarsEnc := EnvVarsEnc archived; LabelsJSON := LabelsJSON archived; Replicas := Replicas archived;
            Port := Port archived; aStatus := aStatus archived; ServerID := ServerID archived; aCreatedAt := now;
            aUpdatedAt := aUpdatedAt archived |};
          mret (if is_ok r then Ok tt else Err ErrRecreate)
      | Some a =>
          now ← Now;
          r ← UpdateApp {|
            aID := aID a; ProjectID := ProjectID a; aTenantID := aTenantID a; aName := aName a;
            Type_ := Type_ archived; SourceType := SourceType a; SourceURL := SourceURL archived;
            Branch := Branch archived; Dockerfile := Dockerfile archived; BuildPack := BuildPack archived;
            EnvVarsEnc := EnvVarsEnc archived; LabelsJSON := LabelsJSON archived; Replicas := Replicas archived;
            Port := Port archived; aStatus := aStatus a; ServerID := ServerID a; aCreatedAt := aCreatedAt a;
            aUpdatedAt := now |};
          mret (if is_ok r then Ok tt else Err ErrUpdate)
      end
  end.

(** src/internal/backup/module.go:144-244 Module.RestoreBackup *)
Definition RestoreBackup (backupID tenant : string) : M (result restore_error unit) :=
  r ← ListBackupsByTenant tenant 1000 0;
  match r with
  | Err _ => mret (Err ErrList)
  | Ok l =>
      match snd <$> list_find (λ b, bID b = backupID) l with
      | None => mret (Err ErrBackupNotFound)
      | Some b =>
          if decide (bStatus b ≠ "completed") then mret (Err ErrNotCompleted)
          else
            let target := if decide (BackupType b = "incremental") then full_before b l else b in
            if decide (BackupType b = "incremental" ∧ BackupType target ≠ "full") then mret (Err ErrNoFull)
            else
              d ← download (StorageTarget target) (FilePath target);
              match d with
              | None => mret (Err ErrStorageTarget)
              | Some (Err _) => mret (Err ErrDownload)
              | Some (Ok data) =>
                  match Unmarshal data ≫= read_app with
                  | None => mret (Err ErrDecode)
                  | Some a => apply_archive a tenant
                  end
              end
      end
  end.

(** ** The handlers *)

(** [strings.Trim(tenantID, "/") + "/"].
    src/internal/api/handlers/backups.go:43-45 tenantBackupPrefix *)
Definition tenantBackupPrefix (tenant : string) : string :=
  str (reverse (drop_set ["/"%char] (reverse (drop_set ["/"%char] (bytes tenant))))) +:+ "/".

Definition key_char (c : ascii) : bool :=
  let n := Z.of_nat (Ascii.nat_of_ascii c) in
  ((97 <=? n) && (n <=? 122)) || ((65 <=? n) && (n <=? 90)) || ((48 <=? n) && (n <=? 57)) ||
  bool_decide (c ∈ ["-"; "_"; "."]%char).

(** A key that decodes to itself holds no escape; one with a stray percent sign does not decode.
    src/internal/api/handlers/backups.go:64-92 isStrictBackupKey *)
Definition isStrictBackupKey (key : string) : bool :=
  if bool_decide ("%"%char ∈ bytes key) || Contains key "//" || HasSuffix key "/" then false
  else forallb (λ part, negb (bool_decide (part ∈ [""; "."; ".."])) && forallb key_char (bytes part)) (Split key "/"%char).

(** The status of a refusal.
    src/internal/api/handlers/backups.go:47-62 requireTenantBackupKey *)
Definition requireTenantBackupKey (key tenant : string) : option Z :=
  let key := TrimSpace key in
  if bool_decide (key = "") || Contains key ".." || HasPrefix key "/" || Contains key "\" then Some 400
  else if negb (isStrictBackupKey key) then Some 400
  else if negb (HasPrefix key (tenantBackupPrefix tenant)) then Some 404
  else None.

(** src/internal/api/handlers/backups.go:163-227 BackupHandler.Restore *)
Definition Restore (tenant : option string) (key : string) : M Z :=
  match tenant with
  | None => mret 401
  | Some tenant =>
      if decide (key = "") then mret 400
      else
        match requireTenantBackupKey key tenant with
        | Some code => mret code
        | None =>
            d ← download "local" key;
            match d with
            | None => mret 503
            | Some (Err _) => mret 404
            | Some (Ok data) =>
                match Unmarshal data ≫= read_app with
                | None => mret 422
                | Some a =>
                    id ← GenerateID;
                    now ← Now;
                    r ← CreateApp {|
                      aID := id; ProjectID := ProjectID a; aTenantID := tenant; aName := aName a; Type_ := Type_ a;
                      SourceType := SourceType a; SourceURL := SourceURL a; Branch := Branch a;
                      Dockerfile := Dockerfile a; BuildPack := BuildPack a; EnvVarsEnc := EnvVarsEnc a;
                      LabelsJSON := LabelsJSON a; Replicas := Replicas a; Port := Port a; aStatus := "restoring";
                      ServerID := ServerID a; aCreatedAt := now; aUpdatedAt := now |};
                    match r with
                    | Err _ => mret 500
                    | Ok _ =>
                        publishEvent "backup.restore_started" [("key", key); ("app_id", id)];; mret 202
                    end
                end
            end
        end
  end.

(** The status and what is sent.
    src/internal/api/handlers/backups.go:230-274 BackupHandler.Download *)
Definition Download_ (tenant : option string) (key : string) : M (Z * string) :=
  match tenant with
  | None => mret (401, "")
  | Some tenant =>
      if decide (key = "") then mret (400, "")
      else
        match requireTenantBackupKey key tenant with
        | Some code => mret (code, "")
        | None =>
            d ← download "local" key;
            mret (match d with None => (503, "") | Some (Err _) => (404, "") | Some (Ok data) => (200, data) end)
        end
  end.

(** src/internal/api/handlers/backups.go:105-123 BackupHandler.List *)
Definition List_backups (tenant : option string) : M (Z * list BackupEntry) :=
  match tenant with
  | None => mret (401, [])
  | Some tenant =>
      r ← on_storage "local" (λ f _ _ s, (List_ f (tenantBackupPrefix tenant) s, s));
      mret (match r with None => (200, []) | Some (Err _) => (500, []) | Some (Ok es) => (200, es) end)
  end.

(** A run of every tenant's backups, whatever the request names.
    src/internal/api/handlers/backups.go:128-158 BackupHandler.Create *)
Definition Create (tenant : option string) (req : option (string * string)) (ready : bool) : M Z :=
  match tenant, req with
  | None, _ => mret 401
  | _, None => mret 400
  | Some _, Some (ty, id) =>
      publishEvent "backup.started" [("source_type", ty); ("source_id", id)];;
      if ready then runBackupsCtx;; mret 202 else mret 503
  end.

End World.
Arguments World : clear implicits.

(** ** The clock of the scheduler *)

(** [h, _ := strconv.Atoi(s)]: zero on a syntax error, the nearest value on a range error. *)
Definition atoi_value (s : string) : Z :=
  let '(sg, l) := match bytes s with
                  | "-"%char :: l => (-1, l)
                  | "+"%char :: l => (1, l)
                  | l => (1, l)
                  end in
  match l, digits_val 0 l with
  | [], _ | _, None => 0
  | _, Some v => Z.max min_int64 (Z.min max_int64 (sg * v))
  end.

(** src/internal/backup/scheduler.go:564-573 parseSimpleSchedule *)
Definition parseSimpleSchedule (schedule : string) : Z * Z :=
  match cut schedule ":"%char with
  | (h, Some m) => (atoi_value (TrimSpace h), atoi_value (TrimSpace m))
  | (_, None) => (2, 0)
  end.

(** A tick of the loop: the date of the last run, and whether a run starts now.
    src/internal/backup/scheduler.go:186-195 Scheduler.loop.tick *)
Definition loop_tick (off : duration) (hour minute : Z) (lastRunDate : string) (now : instant) : string * bool :=
  if negb (hour_of off now =? hour) || negb (minute_of off now =? minute) then (lastRunDate, false)
  else
    let dateKey := format_date off now in
    if decide (lastRunDate = dateKey) then (lastRunDate, false) else (dateKey, true).

(** The times at which runs start, over the ticks the ticker delivers.
    src/internal/backup/scheduler.go:160-200 Scheduler.loop *)
Fixpoint loop_from (off : duration) (hm : Z * Z) (lastRunDate : string) (ticks : list instant) : list instant :=
  match ticks with
  | [] => []
  | t :: ticks =>
      let '(d, run) := loop_tick off hm.1 hm.2 lastRunDate t in
      (if run : bool then [t] else []) ++ loop_from off hm d ticks
  end.

Definition loop (off : duration) (schedule : string) (ticks : list instant) : list instant :=
  loop_from off (parseSimpleSchedule schedule) "" ticks.

(** ** One run per day *)

Definition due (off : duration) (hm : Z * Z) (t : instant) : Prop := hour_of off t = hm.1 ∧ minute_of off t = hm.2.

Lemma loop_tick_spec off hm d t :
  let '(d', run) := loop_tick off hm.1 hm.2 d t in
  (run = true → due off hm t ∧ d' = format_date off t ∧ d ≠ d') ∧
  (run = false → d' = d ∧ (due off hm t → d = format_date off t)).
Proof.
  unfold loop_tick, due. destruct (Z.eqb_spec (hour_of off t) hm.1), (Z.eqb_spec (minute_of off t) hm.2); cbn;
    try (case_decide; naive_solver); naive_solver.
Qed.

Lemma day_number_mono off t u : t ≤ u → day_number off t ≤ day_number off u.
Proof. intros H. unfold day_number. apply Z.div_le_mono; [done|lia]. Qed.

Lemma same_day_same_date off t u : day_number off t = day_number off u → format_date off t = format_date off u.
Proof. unfold format_date. by intros ->. Qed.

Lemma loop_from_runs off hm ticks : ∀ d t,
  t ∈ loop_from off hm d ticks → t ∈ ticks ∧ due off hm t.
Proof.
  induction ticks as [|u ticks IH]; intros d t; cbn [loop_from]; [by intros ?%elem_of_nil|].
  pose proof (loop_tick_spec off hm d u) as Hu. destruct (loop_tick off hm.1 hm.2 d u) as [d' run].
  rewrite elem_of_app. intros [Ht|Ht].
  - destruct run; [|by apply elem_of_nil in Ht]. apply list_elem_of_singleton in Ht as ->. split; [by constructor|].
    by destruct (proj1 Hu eq_refl).
  - destruct (IH d' t Ht). split; [by constructor|done].
Qed.

Lemma loop_from_days off hm ticks : ∀ d m,
  StronglySorted Z.le (m :: ticks) → (d = "" ∨ d = format_date off m) →
  StronglySorted Z.lt (day_number off <$> loop_from off hm d ticks) ∧
  (∀ t, t ∈ loop_from off hm d ticks → d = format_date off m → day_number off m < day_number off t) ∧
  (∀ t, t ∈ ticks → due off hm t → d = format_date off t ∨ ∃ u, u ∈ loop_from off hm d ticks ∧ format_date off u = format_date off t).
Proof.
  induction ticks as [|u ticks IH]; intros d m Hs Hd; cbn [loop_from].
  { split; [constructor|]. split; [by intros t ?%elem_of_nil|by intros t ?%elem_of_nil]. }
  inversion Hs as [|?? Hs' Hm]; subst. apply Forall_cons in Hm as [Hmu Hm].
  pose proof (loop_tick_spec off hm d u) as Hu. destruct (loop_tick off hm.1 hm.2 d u) as [d' run]. destruct run; cbn [app].
  - destruct (proj1 Hu eq_refl) as (Hdue & -> & Hne). clear Hu.
    destruct (IH (format_date off u) u Hs' (or_intror eq_refl)) as (IH1 & IH2 & IH3). split_and!.
    + rewrite fmap_cons. constructor; [done|]. rewrite Forall_fmap, Forall_forall. intros t Ht. by apply IH2.
    + intros t Ht ->. assert (day_number off m ≠ day_number off u) by (intros E; by apply same_day_same_date in E).
      pose proof (day_number_mono off m u Hmu). apply elem_of_cons in Ht as [->|Ht]; [lia|]. pose proof (IH2 t Ht eq_refl). lia.
    + intros t Ht Hdt. right. apply elem_of_cons in Ht as [->|Ht]; [exists u; split; [by constructor|done]|].
      destruct (IH3 t Ht Hdt) as [E|(v & Hv & E)]; [exists u|exists v]; (split; [by constructor|done]).
  - destruct (proj2 Hu eq_refl) as (-> & Hsame). clear Hu.
    assert (StronglySorted Z.le (m :: ticks)) as Hs2 by (inversion Hs'; subst; by constructor).
    destruct (IH d m Hs2 Hd) as (IH1 & IH2 & IH3). split_and!; [done|done|].
    intros t Ht Hdt. apply elem_of_cons in Ht as [->|Ht]; [left; by apply Hsame|by apply IH3].
Qed.

(** On a clock that does not go back, backups start at most once a day, at the scheduled minute,
    and a tick within that minute starts the run of its day unless it has started. *)
Theorem one_run_per_day off schedule ticks :
  StronglySorted Z.le ticks →
  StronglySorted Z.lt (day_number off <$> loop off schedule ticks) ∧
  (∀ t, t ∈ loop off schedule ticks → t ∈ ticks ∧ due off (parseSimpleSchedule schedule) t) ∧
  (∀ t, t ∈ ticks → due off (parseSimpleSchedule schedule) t →
     ∃ u, u ∈ loop off schedule ticks ∧ format_date off u = format_date off t).
Proof.
  intros Hs. unfold loop. destruct ticks as [|t0 ticks].
  { cbn. split; [constructor|]. split; intros t ?%elem_of_nil; done. }
  destruct (loop_from_days off (parseSimpleSchedule schedule) (t0 :: ticks) "" t0) as (H1 & H2 & H3).
  { inversion Hs; subst. constructor; [done|]. constructor; [lia|done]. }
  { by left. }
  split_and!; [done|apply loop_from_runs|]. intros t Ht Hd. destruct (H3 t Ht Hd) as [E|?]; [|done].
  exfalso. unfold format_date in E. destruct (civil _) as [[y m] dd]. apply (f_equal slen) in E. revert E. unfold slen. clear.
  rewrite !bytes_app, !length_app. change (length (bytes "-")) with 1%nat. change (length (bytes "")) with 0%nat. lia.
Qed.

Definition at_ (day h m s : Z) : instant := day * Day + h * Hour + m * Minute + s * Second.

Lemma one_run_per_day_witness :
  loop 0 "02:00" [at_ 1 1 59 30; at_ 1 2 0 10; at_ 1 2 0 50; at_ 2 2 0 10] = [at_ 1 2 0 10; at_ 2 2 0 10] ∧
  StronglySorted Z.lt (day_number 0 <$> loop 0 "02:00" [at_ 1 1 59 30; at_ 1 2 0 10; at_ 1 2 0 50; at_ 2 2 0 10]).
Proof.
  split; [vm_compute; reflexivity|]. refine (proj1 (one_run_per_day 0 "02:00" _ _)).
  repeat constructor; vm_compute; discriminate.
Defined.

(** A schedule that names no time of the day, such as "24:00", is accepted and no run ever starts. *)
Theorem bad_schedule_never_runs off schedule ticks :
  ¬ (0 ≤ (parseSimpleSchedule schedule).1 < 24 ∧ 0 ≤ (parseSimpleSchedule schedule).2 < 60) → loop off schedule ticks = [].
Proof.
  intros Hbad. destruct (loop off schedule ticks) as [|t l] eqn:E; [done|]. exfalso. apply Hbad.
  destruct (loop_from_runs off (parseSimpleSchedule schedule) ticks "" t) as [_ [<- <-]].
  { unfold loop in E. rewrite E. by constructor. }
  unfold hour_of, minute_of. assert (0 ≤ time_of_day off t < Day) by (apply Z.mod_pos_bound; done).
  assert (0 ≤ time_of_day off t mod Hour < Hour) by (apply Z.mod_pos_bound; done).
  split; split; (apply Z.div_pos || apply Z.div_lt_upper_bound); unfold Day, Hour, Minute, Second in *; lia.
Qed.

Lemma bad_schedule_never_runs_witness : loop 0 "24:00" [at_ 1 0 0 5; at_ 1 23 59 5] = [].
Proof. apply (bad_schedule_never_runs 0 "24:00"). vm_compute. intros [[_ H] _]. discriminate H. Defined.

(** ** Restoring *)

Section Restoring.
Context {S : Type} `{BackupStorage S, JSONText}.
Implicit Types w : World S.

(** The handler inserts the application with a status the table refuses: no backup is ever
    restored through the API, and the answer is never a success. *)
Theorem restore_never_succeeds E tenant key w :
  (Restore E tenant key w).1 ≠ 202 ∧ apps (Restore E tenant key w).2 = apps w.
Proof.
  unfold Restore. destruct tenant as [tenant|]; [|done]. destruct (decide (key = "")); [done|].
  destruct (requireTenantBackupKey key tenant) as [z|] eqn:Hk.
  { split; [|done]. unfold requireTenantBackupKey in Hk. repeat case_match; cbn; congruence. }
  unfold mbind, M_bind, download, on_storage. destruct (storages w !! "local") as [s|]; [|done].
  destruct (Download _ key s) as [data|e]; [|done]. cbv beta iota.
  destruct (option_bind _ _ read_app (Unmarshal data)) as [a|]; [|done].
  unfold GenerateID, Now, CreateApp, stmt. cbv beta iota. destruct (works E _); [|done].
  assert (∀ w' a', aStatus a' = "restoring" → app_valid w' a' = false) as Hv.
  { intros w' a' Ha. unfold app_valid. rewrite Ha, !andb_false_iff. do 3 left. right. reflexivity. }
  rewrite Hv by done. done.
Qed.

(** What an archive keeps. *)
Definition archived (a : Application) : Application :=
  {| aID := aID a; ProjectID := ProjectID a; aTenantID := aTenantID a; aName := aName a; Type_ := Type_ a;
     SourceType := SourceType a; SourceURL := SourceURL a; Branch := Branch a; Dockerfile := Dockerfile a;
     BuildPack := BuildPack a; EnvVarsEnc := ""; LabelsJSON := LabelsJSON a; Replicas := Replicas a; Port := Port a;
     aStatus := aStatus a; ServerID := ServerID a; aCreatedAt := aCreatedAt a; aUpdatedAt := aUpdatedAt a |}.

Lemma archive_ok a : in_i64 (Replicas a) → in_i64 (Port a) → read_app (app_doc a) = Some (archived a).
Proof.
  intros Hr Hp. unfold app_doc, read_app, omitempty. destruct a; cbn in Hr, Hp |- *.
  repeat case_decide; subst; do 2 (erewrite read_int_there; [|reflexivity|assumption]); reflexivity.
Qed.

(** Everything but the encrypted variables survives an archive. *)
Theorem archive_roundtrip a : in_i64 (Replicas a) → in_i64 (Port a) → read_app (app_doc a) = Some (archived a).
Proof. apply archive_ok. Qed.

Lemma listed_archive a a' : in_i64 (Replicas a) → read_app (app_doc (listed a)) = Some a' →
  aName a' = aName a ∧ Dockerfile a' = "" ∧ EnvVarsEnc a' = "" ∧ LabelsJSON a' = "".
Proof. intros Hr. rewrite archive_ok by done. by intros [= <-]. Qed.

(** The application the archive is applied to, when there is one with its name. *)
Lemma apply_archive_updates E a' tenant w w' a :
  apply_archive E a' tenant w = (Ok tt, w') → (length (apps w) ≤ 1000)%nat →
  a ∈ apps w → aTenantID a = tenant → aName a = aName a' →
  (∀ b, b ∈ apps w → aTenantID b = tenant → aName b = aName a → aID b = aID a) →
  (∃ r, r ∈ apps w' ∧ aID r = aID a) ∧
  ∀ r, r ∈ apps w' → aID r = aID a →
    Dockerfile r = Dockerfile a' ∧ EnvVarsEnc r = EnvVarsEnc a' ∧ LabelsJSON r = LabelsJSON a'.
Proof.
  intros Happ Hlen Ha Ht Hn Huniq. unfold apply_archive, mbind, M_bind, ListAppsByTenant, query, stmt in Happ.
  destruct (works E (steps w)); [|done]. cbv beta iota in Happ.
  assert (page (Z.to_nat 1000) 0 (apps_of tenant w) = apps_of tenant w) as Hpage.
  { unfold page. apply take_ge. unfold apps_of. rewrite length_fmap, (merge_sort_Permutation newer_app).
    etrans; [apply length_filter|]. lia. }
  rewrite Hpage in Happ.
  destruct (list_find (λ x, aName x = aName a' ∧ aTenantID x = tenant) (apps_of tenant w)) as [[i b]|] eqn:Hf; cbn in Happ.
  - apply list_find_Some in Hf as (Hi & [Hbn Hbt] & _). apply list_elem_of_lookup_2 in Hi.
    unfold apps_of in Hi. apply list_elem_of_fmap in Hi as (b0 & -> & Hin).
    rewrite (merge_sort_Permutation newer_app), list_elem_of_filter in Hin. destruct Hin as [_ Hin].
    assert (aID b0 = aID a) as Hid by (apply Huniq; [done|done|cbn in Hbn; congruence]).
    unfold UpdateApp, stmt in Happ. destruct (works E _); [|done]. cbn [aStatus] in Happ.
    case_decide; [|done]. injection Happ as <-. cbn [apps tick with_apps]. split.
    + eexists. split; [apply list_elem_of_fmap_2; exact Ha|]. cbn. by case_decide.
    + intros r Hr Hrid. apply list_elem_of_fmap in Hr as (r0 & -> & _). cbn [aID] in *. case_decide as Hd; [done|].
      cbn in Hd. by rewrite Hid in Hd.
  - exfalso. apply list_find_None in Hf. rewrite Forall_forall in Hf.
    apply (Hf (listed a)); [|done]. unfold apps_of. apply list_elem_of_fmap_2.
    rewrite (merge_sort_Permutation newer_app). by apply list_elem_of_filter.
Qed.

(** Restoring a scheduled backup of an application that still exists empties its Dockerfile, its
    encrypted variables and its labels: the scheduler archives what the listing reads. *)
Theorem restored_app_loses_configuration `{!JSONTextLaws} E id tenant w w' a b s :
  RestoreBackup E id tenant w = (Ok tt, w') →
  NoDup (bID <$> backups w) → b ∈ backups w → bID b = id → BackupType b = "" →
  storages w !! StorageTarget b = Some s →
  (∀ f d, Download f (FilePath b) s = Ok d → d = payload_of (listed a)) →
  in_i64 (Replicas a) → a ∈ apps w → aTenantID a = tenant → (length (apps w) ≤ 1000)%nat →
  (∀ a', a' ∈ apps w → aTenantID a' = tenant → aName a' = aName a → aID a' = aID a) →
  (∃ r, r ∈ apps w' ∧ aID r = aID a) ∧
  ∀ r, r ∈ apps w' → aID r = aID a → Dockerfile r = "" ∧ EnvVarsEnc r = "" ∧ LabelsJSON r = "".
Proof.
  intros Hrun Hnd Hb Hid Hty Hst Hdl Hrep Ha Ht Hlen Huniq.
  unfold RestoreBackup, mbind, M_bind, ListBackupsByTenant, query, stmt in Hrun.
  destruct (works E (steps w)); [|done]. cbv beta iota in Hrun.
  destruct (list_find (λ x, bID x = id) (page _ _ (backups_of tenant w))) as [[i x]|] eqn:Hf; [|done].
  cbn [fmap option_fmap option_map snd] in Hrun.
  assert (x = b) as ->.
  { apply list_find_Some in Hf as (Hi & Hx & _). apply list_elem_of_lookup_2 in Hi. unfold page in Hi.
    apply elem_of_take in Hi as (j & Hi & _). change (drop (Z.to_nat 0) (backups_of tenant w)) with (backups_of tenant w) in Hi.
    apply list_elem_of_lookup_2 in Hi.
    unfold backups_of in Hi. rewrite (merge_sort_Permutation newer_backup) in Hi. apply list_elem_of_filter in Hi as [_ Hi].
    apply list_elem_of_lookup in Hb as [n1 Hb], Hi as [n2 Hi2].
    assert (n1 = n2) as -> by (apply (NoDup_lookup (bID <$> backups w) n1 n2 id); [done| |];
      rewrite list_lookup_fmap; [rewrite Hb|rewrite Hi2]; cbn; congruence). congruence. }
  rewrite Hty in Hrun. cbv beta iota in Hrun. destruct (decide (bStatus b ≠ "completed")); [done|].
  destruct (decide ("" = "incremental")); [done|]. destruct (decide ("" = "incremental" ∧ _)) as [[? _]|_]; [done|].
  unfold download, on_storage in Hrun. cbn [storages tick steps] in Hrun. rewrite Hst in Hrun.
  destruct (Download _ (FilePath b) s) as [d|e] eqn:Hd; cbv beta iota in Hrun; [|done].
  rewrite (Hdl _ _ Hd) in Hrun. unfold payload_of in Hrun. rewrite unmarshal_indent in Hrun. cbn [option_bind] in Hrun.
  destruct (read_app (app_doc (listed a))) as [a'|] eqn:Hread; [|done].
  destruct (listed_archive a a' Hrep Hread) as (Hname & E1 & E2 & E3).
  destruct (apply_archive_updates E a' tenant _ w' a Hrun) as [Hex Hall]; try done. split; [done|].
  intros r Hr Hri. destruct (Hall r Hr Hri) as (-> & -> & ->). done.
Qed.

End Restoring.

(** ** Keys of the API *)

Lemma strict_parts key : isStrictBackupKey key = true → Forall component (Split key slash).
Proof.
  unfold isStrictBackupKey. destruct (_ || _); [done|]. intros Hf. apply Forall_forall. intros e He.
  rewrite forallb_forall in Hf. specialize (Hf e (proj1 (list_elem_of_In _ _) He)). apply andb_true_iff in Hf as [Hn _].
  apply negb_true_iff, bool_decide_eq_false in Hn. pose proof (split_no_slash key) as Hs. rewrite Forall_forall in Hs.
  split_and!; [set_solver..|by apply Hs].
Qed.

Lemma drop_set_none (c : ascii) l : c ∉ l → drop_set [c] l = l.
Proof. destruct l as [|x l]; [done|]. intros H. cbn. rewrite decide_False; [done|]. set_solver. Qed.

Lemma tenant_prefix tenant : component tenant → tenantBackupPrefix tenant = tenant +:+ "/".
Proof.
  intros (_ & _ & _ & Hs). unfold tenantBackupPrefix. fold slash in *.
  rewrite (drop_set_none slash (bytes tenant)) by done. rewrite drop_set_none by (by rewrite elem_of_reverse).
  by rewrite reverse_involutive, str_bytes.
Qed.

Lemma Join_Split key : Join (Split key slash) "/" = key.
Proof.
  apply bytes_inj. transitivity (join_bytes slash (split_on slash (bytes key))); [|apply join_split]. unfold Split. pose proof (split_on_nonempty slash (bytes key)).
  induction (split_on slash (bytes key)) as [|a [|b l] IH]; [done|cbn; by rewrite bytes_str|].
  change (Join (str <$> a :: b :: l) "/") with (str a +:+ "/" +:+ Join (str <$> b :: l) "/").
  by rewrite !bytes_app, bytes_str, IH.
Qed.

Lemma HasPrefix_dots key : Contains key ".." = false → HasPrefix key ".." = false.
Proof.
  intros Hc. destruct (HasPrefix key "..") eqn:E; [|done]. rewrite <- Hc. symmetry. apply Contains_spec.
  apply HasPrefix_spec in E as [r ->]. exists [], (bytes r). by rewrite bytes_app.
Qed.

(** A key the API accepts for a tenant names a file inside the tenant's own directory. *)
Theorem backup_key_stays_in_tenant l key tenant :
  component tenant → TrimSpace key = key → requireTenantBackupKey key tenant = None →
  ∃ r, r ≠ [] ∧ locate l key = Ok (basePath l ++ tenant :: r).
Proof.
  intros Ht Htrim Hk. unfold requireTenantBackupKey in Hk. rewrite Htrim in Hk.
  destruct (bool_decide (key = "") || Contains key ".." || HasPrefix key "/" || Contains key "\") eqn:Hb; [done|].
  rewrite !orb_false_iff in Hb. destruct Hb as [[[_ Hdots] Habs] _].
  destruct (isStrictBackupKey key) eqn:Hstrict; [|done]. cbn [negb] in Hk.
  rewrite tenant_prefix in Hk by done. destruct (HasPrefix key (tenant +:+ "/")) eqn:Hp; [|done]. clear Hk.
  pose proof (strict_parts key Hstrict) as Hparts. apply HasPrefix_spec in Hp as [rest Hkey].
  assert (∃ p r, Split key slash = tenant :: p :: r) as (p & r & Hsplit).
  { subst key. unfold Split. rewrite !bytes_app. change (bytes "/") with [slash]. cbn [app].
    destruct Ht as (_ & _ & _ & Hs). assert (∀ a b, slash ∉ a → split_on slash (a ++ slash :: b) = a :: split_on slash b) as Happ.
    { clear. induction a as [|x a IH]; intros b Ha; cbn; [done|]. apply not_elem_of_cons in Ha as [Hx Ha].
      rewrite decide_False by done. by rewrite IH. }
    rewrite <- app_assoc. cbn [app]. rewrite Happ by done. rewrite fmap_cons, str_bytes.
    pose proof (split_on_nonempty slash (bytes rest)). destruct (split_on slash (bytes rest)); [done|]. by eexists _, _. }
  exists (p :: r). split; [done|]. unfold locate. rewrite Habs. cbv zeta.
  assert (Resolve (basePath l) key = basePath l ++ tenant :: p :: r) as ->.
  { unfold Resolve. fold slash. rewrite clean_components by done. by rewrite Hsplit. }
  unfold Rel. rewrite rel_path_under, <- Hsplit, Join_Split, Hsplit, HasPrefix_dots by done. done.
Qed.

Lemma backup_key_stays_in_tenant_witness :
  ∃ r, r ≠ [] ∧ locate demo_storage "t1/app/b1.json" = Ok (["srv"; "backups"] ++ "t1" :: r).
Proof.
  refine (backup_key_stays_in_tenant demo_storage "t1/app/b1.json" "t1" _ eq_refl eq_refl).
  split_and!; [discriminate..|]. vm_compute. intros H. repeat (apply elem_of_cons in H as [H|H]; [discriminate H|]). by apply elem_of_nil in H.
Defined.

(** ** A run backs up every application once *)

Section Coverage.
Context {S : Type} `{BackupStorage S, JSONText, !JSONTextLaws}.
Implicit Types w : World S.
Variable E : Env.
Hypothesis Hworks : ∀ n, works E n = true.
Hypothesis Hstop : ∀ n, stopping E n = false.
Hypothesis Hfresh : Inj (=) (=) (fresh E).

(** No row has an identifier that is still to be generated. *)
Definition ids_ok w : Prop := ∀ b n, b ∈ backups w → (steps w ≤ n)%nat → bID b ≠ fresh E n.

(** From [w] to [w'] the rows are added, and nothing else but the storages changes. *)
Record adds (rows : list Backup) w w' : Prop := {
  adds_rows : backups w' = backups w ++ rows;
  adds_tenants : tenants w' = tenants w;
  adds_apps : apps w' = apps w;
  adds_events : events w' = events w;
  adds_steps : (steps w ≤ steps w')%nat;
  adds_ids : ids_ok w' }.

Lemma adds_trans r1 r2 w1 w2 w3 : adds r1 w1 w2 → adds r2 w2 w3 → adds (r1 ++ r2) w1 w3.
Proof.
  intros [] []. split; [by rewrite app_assoc; congruence|congruence|congruence|congruence|lia|done].
Qed.

(** A step that touches no table. *)
Lemma adds_quiet w w' :
  ids_ok w → backups w' = backups w → tenants w' = tenants w → apps w' = apps w → events w' = events w →
  (steps w ≤ steps w')%nat → adds [] w w'.
Proof.
  intros Hi Hb Ht Ha He Hs. split; [by rewrite app_nil_r|done|done|done|done|].
  intros b n Hin Hn. rewrite Hb in Hin. apply Hi; [done|lia].
Qed.

Lemma adds_refl w : ids_ok w → adds [] w w.
Proof. intros Hi. by apply adds_quiet. Qed.

Lemma tick_quiet w : ids_ok w → adds [] w (tick w).
Proof. intros Hi. apply adds_quiet; cbn; lia || done. Qed.

Lemma on_storage_quiet {A} name (f : fault → instant → string → S → A * S) w :
  ids_ok w → adds [] w (on_storage E name f w).2.
Proof.
  intros Hi. unfold on_storage. destruct (storages w !! name) as [s|]; [|by apply tick_quiet].
  destruct (f _ _ _ s) as [a s']. apply adds_quiet; cbn; lia || done.
Qed.

Definition row_for (tenant app : string) (ok : bool) (b : Backup) : Prop :=
  bTenantID b = tenant ∧ SourceID b = app ∧ bStatus b = (if ok then "completed" else "failed").

(** The status of the row that was added last. *)
Lemma update_last id status size tenant w b r :
  adds [b] w r → bID b = id → bTenantID b = tenant → ids_ok w → (∃ n, (steps w ≤ n < steps r)%nat ∧ id = fresh E n) →
  ∃ now, adds [set_status b status size now] w (UpdateBackupStatus E id status size tenant r).2.
Proof.
  intros [Hb Ht Ha He Hs Hi] Hid Hten Hw (n & Hn & Hidn). unfold UpdateBackupStatus, stmt. rewrite Hworks.
  exists (clock E (steps r)). assert (∀ (l : list Backup), (∀ x, x ∈ l → bID x ≠ id) →
    (λ x, if decide (bID x = id ∧ bTenantID x = tenant) then set_status x status size (clock E (steps r)) else x) <$> l = l) as Hsame.
  { induction l as [|x l IH]; intros Hl; [done|]. rewrite fmap_cons, IH by (intros; apply Hl; by constructor). f_equal.
    rewrite decide_False; [done|]. intros [E' _]. apply (Hl x); [by constructor|done]. }
  assert (backups (UpdateBackupStatus E id status size tenant r).2 =
    backups w ++ [set_status b status size (clock E (steps r))]) as Hrows.
  { unfold UpdateBackupStatus, stmt. rewrite Hworks. cbn [snd backups tick with_backups]. rewrite Hb, fmap_app, Hsame.
    - cbn. by rewrite decide_True.
    - intros x Hx. rewrite Hidn. apply Hw; [done|lia]. }
  unfold UpdateBackupStatus, stmt in Hrows. rewrite Hworks in Hrows. cbn [snd fst] in Hrows |- *.
  split; [exact Hrows|done|done|done|cbn; lia|].
  intros x m Hx Hm. rewrite Hrows in Hx. apply elem_of_app in Hx as [Hx|Hx].
  - apply Hw; [done|]. cbn in Hm. lia.
  - apply list_elem_of_singleton in Hx as ->. cbn [set_status bID]. rewrite Hid, Hidn. intros Heq%Hfresh. cbn in Hm. lia.
Qed.

(** The newest row of the tenant, when it is a completed backup of the application. *)
Definition last_backup (tenant app : string) w : option Backup :=
  snd <$> list_find (λ b, SourceID b = app ∧ bStatus b = "completed") (take 1 (backups_of tenant w)).

Lemma findLast_eq tenant app w : findLastBackupForApp E tenant app w = (last_backup tenant app w, tick w).
Proof. unfold findLastBackupForApp, mbind, M_bind, ListBackupsByTenant, query, stmt. by rewrite Hworks. Qed.

(** The key of a backup, and the row as it is stored. *)
Definition key_for (tenant app id hash : string) w : string :=
  default (tenant +:+ "/" +:+ app +:+ "/" +:+ id +:+ ".json") (reusable (last_backup tenant app w) hash).

Definition new_row (tenant : string) (app : Application) (name id key : string) (now : instant) : Backup :=
  {| bID := id; bTenantID := tenant; bSourceType := "config"; SourceID := aID app; StorageTarget := name;
     FilePath := key; SizeBytes := Z.of_nat (slen (payload_of app)); Encryption := sha256_hex (payload_of app);
     bStatus := "pending"; Scheduled := true; RetentionDays := 30; BackupType := ""; bCompletedAt := None;
     bCreatedAt := now |}.

(** What a backup does once its row is there. *)
Definition finish (tenant : string) (app : Application) (name id key : string) (old : option string) : @M S bool :=
  u ← (match old with Some _ => mret (Ok tt) | None => upload E name key (payload_of app) end);
  match u with
  | Err _ => markFailed E id tenant;; mret false
  | Ok _ => UpdateBackupStatus E id "completed" (Z.of_nat (slen (payload_of app))) tenant;; mret true
  end.

Lemma backupApp_eq tenant app name w :
  ids_ok w → Exists (λ t, tID t = tenant) (tenants w) →
  let id := fresh E (steps w) in
  let hash := sha256_hex (payload_of app) in
  let key := key_for tenant (aID app) id hash w in
  backupApp E tenant app name w =
  finish tenant app name id key (reusable (last_backup tenant (aID app) w) hash)
    (tick (with_backups (tick (tick w)) (backups w ++ [new_row tenant app name id key (clock E (2 + steps w)%nat)]))).
Proof.
  intros Hi Ht id hash key. unfold backupApp, mbind at 1, M_bind at 1, GenerateID. cbv beta iota zeta.
  destruct (Z.eqb_spec (Z.of_nat (slen (payload_of app))) 0) as [Hz|_].
  { exfalso. apply (indent_nonempty (app_doc app)). apply bytes_nil, length_zero_iff_nil. unfold slen, payload_of in Hz. lia. }
  unfold mbind at 1, M_bind at 1. rewrite findLast_eq. cbv beta iota.
  change (last_backup tenant (aID app) (tick w)) with (last_backup tenant (aID app) w).
  unfold mbind at 1, M_bind at 1, CreateBackup, stmt. rewrite Hworks, decide_True; [reflexivity|].
  split_and!; [|by right; right; left|done]. apply Forall_forall. intros b Hb. cbn [bID pending_row]. by apply Hi.
Qed.

Lemma upload_quiet name key data w : ids_ok w → adds [] w (upload E name key data w).2.
Proof.
  intros Hi. unfold upload, mbind, M_bind. pose proof (on_storage_quiet name (λ f now n s, Upload f now n key data s) w Hi) as Hq.
  destruct (on_storage E name _ w) as [r w']. exact Hq.
Qed.

Lemma backupApp_adds tenant app name w :
  ids_ok w → Exists (λ t, tID t = tenant) (tenants w) →
  let '(ok, w') := backupApp E tenant app name w in ∃ b, adds [b] w w' ∧ row_for tenant (aID app) ok b.
Proof.
  intros Hi Ht. rewrite backupApp_eq by done.
  set (id := fresh E (steps w)). set (key := key_for _ _ _ _ _). set (old := reusable _ _).
  set (b := new_row tenant app name id key _). set (w1 := tick (with_backups _ _)).
  assert (adds [b] w w1) as Hrow.
  { split; [done..|cbn; lia|]. intros x n Hx Hn. cbn in Hn. apply elem_of_app in Hx as [Hx|Hx]; [apply Hi; [done|lia]|].
    apply list_elem_of_singleton in Hx as ->. cbn. intros Heq%Hfresh. lia. }
  unfold finish, mbind, M_bind.
  assert (∀ w2 status size, adds [] w1 w2 → ∃ now, adds [set_status b status size now] w (UpdateBackupStatus E id status size tenant w2).2) as Hup.
  { intros w2 status size Hq. apply update_last; [exact (adds_trans _ _ _ _ _ Hrow Hq)|done..|].
    exists (steps w). split; [|done]. pose proof (adds_steps _ _ _ Hq) as Hs2. cbn in Hs2. lia. }
  assert (∃ u w2, (match old with Some _ => mret (Ok tt) | None => upload E name key (payload_of app) end) w1 = (u, w2) ∧
    adds [] w1 w2) as (u & w2 & -> & Hq).
  { destruct old.
    - exists (Ok tt), w1. split; [done|]. apply adds_refl, (adds_ids _ _ _ Hrow).
    - pose proof (upload_quiet name key (payload_of app) w1 (adds_ids _ _ _ Hrow)). destruct (upload _ _ _ _ w1) as [u w2]. by exists u, w2. }
  destruct u as [[]|e].
  - destruct (Hup w2 "completed" (Z.of_nat (slen (payload_of app))) Hq) as [now Hadd].
    destruct (UpdateBackupStatus _ _ _ _ _ w2) as [r w3]. by exists (set_status b "completed" (Z.of_nat (slen (payload_of app))) now).
  - destruct (Hup w2 "failed" 0 Hq) as [now Hadd]. unfold markFailed, mbind, M_bind.
    destruct (UpdateBackupStatus _ _ _ _ _ w2) as [r w3]. by exists (set_status b "failed" 0 now).
Qed.

Definition with_status (status : string) (rows : list Backup) : Z := zsum (λ b, if decide (bStatus b = status) then 1 else 0) rows.
Definition tally (n : Z * Z) (rows : list Backup) : Z * Z := (n.1 + with_status "completed" rows, n.2 + with_status "failed" rows).

Lemma tally_app n r1 r2 : tally (tally n r1) r2 = tally n (r1 ++ r2).
Proof. unfold tally, with_status. cbn [fst snd]. rewrite !zsum_app. f_equal; lia. Qed.

Definition backed (tenant : string) (a : Application) (b : Backup) : Prop := ∃ ok, row_for tenant (aID a) ok b.

Lemma tally_row n tenant app ok b : row_for tenant app ok b → tally n [b] = if ok then (n.1 + 1, n.2) else (n.1, n.2 + 1).
Proof. intros (_ & _ & Hs). unfold tally, with_status. cbn [zsum foldr]. rewrite Hs. destruct n, ok; cbn; repeat (case_decide; try done); f_equal; lia. Qed.

(** A pass over applications: it ends, and every application has its row. *)
Definition pass (tenant : string) (l : list Application) (n : Z * Z) (w : World S) (out : bool * (Z * Z) * World S) : Prop :=
  ∃ rows, out.1 = (true, tally n rows) ∧ adds rows w out.2 ∧ Forall2 (backed tenant) l rows.

Lemma tally_nil n : tally n [] = n.
Proof. unfold tally, with_status. cbn. destruct n. f_equal; cbn; lia. Qed.

Lemma backup_apps_pass tenant name l : ∀ n w,
  ids_ok w → Exists (λ t, tID t = tenant) (tenants w) → pass tenant l n w (backup_apps E tenant l name n w).
Proof.
  induction l as [|a l IH]; intros n w Hi Ht.
  { exists []. cbn. rewrite tally_nil. split_and!; [done|by apply adds_refl|constructor]. }
  cbn [backup_apps]. unfold mbind at 1, M_bind at 1, Err_. rewrite Hstop. cbv beta iota.
  unfold mbind, M_bind. pose proof (backupApp_adds tenant a name (tick w)) as Hb.
  destruct (backupApp E tenant a name (tick w)) as [ok w1]. destruct Hb as (b & Hadd & Hrow); [by apply (adds_ids _ _ _ (tick_quiet w Hi))|done|].
  pose proof (adds_trans _ _ _ _ _ (tick_quiet w Hi) Hadd) as Hadd1. cbn [app] in Hadd1.
  destruct (IH (if ok then (n.1 + 1, n.2) else (n.1, n.2 + 1)) w1 (adds_ids _ _ _ Hadd1)) as (rows & Hout & Hrest & Hall).
  { by rewrite (adds_tenants _ _ _ Hadd1). }
  exists (b :: rows). split_and!.
  - rewrite Hout. rewrite <- (tally_row n _ _ _ _ Hrow), tally_app. done.
  - exact (adds_trans _ _ _ _ _ Hadd1 Hrest).
  - constructor; [by exists ok|done].
Qed.

Lemma apps_of_adds rows tenant w w' : adds rows w w' → apps_of tenant w' = apps_of tenant w.
Proof. intros Hadd. unfold apps_of. by rewrite (adds_apps _ _ _ Hadd). Qed.

Lemma pages_step {A} (l : list A) (o : nat) :
  drop o l = take pageSize (drop o l) ++ drop (o + length (take pageSize (drop o l))) l.
Proof.
  rewrite <- drop_drop, length_take. rewrite <- (take_drop pageSize (drop o l)) at 1. f_equal.
  destruct (decide (pageSize ≤ length (drop o l))%nat); [by rewrite Nat.min_l|].
  rewrite Nat.min_r, !drop_ge by lia. done.
Qed.

Lemma pageSize_pos : (0 < pageSize)%nat.
Proof. unfold pageSize. lia. Qed.

Lemma app_pages_pass tenant name fuel : ∀ offset n w,
  ids_ok w → Exists (λ t, tID t = tenant) (tenants w) → (length (drop offset (apps_of tenant w)) < fuel)%nat →
  pass tenant (drop offset (apps_of tenant w)) n w (app_pages E fuel tenant name offset n w).
Proof.
  induction fuel as [|fuel IH]; intros offset n w Hi Ht Hf; [lia|]. cbn [app_pages].
  unfold mbind at 1, M_bind at 1, Err_. rewrite Hstop. cbv beta iota.
  unfold mbind at 1, M_bind at 1, ListAppsByTenant, query, stmt. rewrite Hworks. cbv beta iota.
  change (apps_of tenant (tick w)) with (apps_of tenant w). unfold page.
  pose proof (pages_step (apps_of tenant w) offset) as Hstep.
  set (w1 := tick (tick w)). assert (adds [] w w1) as Hq by (apply adds_quiet; cbn; lia || done).
  destruct (take pageSize (drop offset (apps_of tenant w))) as [|a l] eqn:Hl.
  { exists []. rewrite tally_nil. split_and!; [done|done|].
    assert (drop offset (apps_of tenant w) = []) as ->; [|constructor].
    destruct (drop offset (apps_of tenant w)); [done|]. pose proof pageSize_pos. destruct pageSize; [lia|done]. }
  unfold mbind at 1, M_bind at 1.
  destruct (backup_apps_pass tenant name (a :: l) n w1 (adds_ids _ _ _ Hq)) as (rows & Hout & Hadd & Hall); [done|].
  destruct (backup_apps E tenant (a :: l) name n w1) as [[go n1] w2]. cbn [fst snd] in *. injection Hout as -> ->. cbn [negb].
  pose proof (adds_trans _ _ _ _ _ Hq Hadd) as Hadd2. cbn [app] in Hadd2.
  destruct (Nat.ltb_spec (length (a :: l)) pageSize) as [Hlt|Hge].
  - exists rows. split_and!; [done|done|]. rewrite Hstep.
    assert (drop (offset + length (a :: l)) (apps_of tenant w) = []) as ->; [|by rewrite app_nil_r].
    rewrite <- Hl in Hlt. rewrite length_take in Hlt. rewrite <- Hl, <- drop_drop, length_take. apply drop_ge. lia.
  - destruct (IH (offset + length (a :: l))%nat (tally n rows) w2 (adds_ids _ _ _ Hadd2)) as (rows2 & Hout2 & Hadd3 & Hall2).
    + by rewrite (adds_tenants _ _ _ Hadd2).
    + rewrite (apps_of_adds _ _ _ _ Hadd2). rewrite Hstep, length_app in Hf. cbn in Hf. cbn. lia.
    + exists (rows ++ rows2). rewrite (apps_of_adds _ _ _ _ Hadd2) in Hall2. split_and!.
      * by rewrite Hout2, tally_app.
      * exact (adds_trans _ _ _ _ _ Hadd2 Hadd3).
      * rewrite Hstep. by apply Forall2_app.
Qed.

Lemma delete_old_quiet name cutoff es : ∀ d w, ids_ok w → adds [] w (delete_old E name cutoff es d w).2.
Proof.
  induction es as [|e es IH]; intros d w Hi; [by apply adds_refl|]. cbn [delete_old]. destruct (_ <? _); [|by apply IH].
  unfold mbind, M_bind. pose proof (on_storage_quiet name (λ f _ _ s, Delete f (Key e) s) w Hi) as Hq.
  destruct (on_storage E name _ w) as [r w1]. exact (adds_trans _ _ _ _ _ Hq (IH _ w1 (adds_ids _ _ _ Hq))).
Qed.

Lemma cleanup_quiet name prefix days w : ids_ok w → adds [] w (CleanupOldBackups E name prefix days w).2.
Proof.
  intros Hi. unfold CleanupOldBackups, mbind at 1, M_bind at 1.
  pose proof (on_storage_quiet name (λ f _ _ s, (List_ f prefix s, s)) w Hi) as Hq. destruct (on_storage E name _ w) as [r w1].
  destruct (default (Err NotFound) r) as [es|e]; [|exact Hq]. unfold mbind, M_bind, Now.
  pose proof (adds_trans _ _ _ _ _ Hq (tick_quiet w1 (adds_ids _ _ _ Hq))) as Hq2.
  match goal with |- context [delete_old E name ?c es 0 ?x] => pose proof (delete_old_quiet name c es 0 x (adds_ids _ _ _ Hq2)) as Hq3 end.
  destruct (delete_old _ _ _ _ _ _) as [d w2]. exact (adds_trans _ _ _ _ _ Hq2 Hq3).
Qed.

Lemma backupTenant_pass tenant name w :
  ids_ok w → Exists (λ t, tID t = tenant) (tenants w) →
  ∃ rows, (backupTenant E tenant name w).1 = tally (0, 0) rows ∧ adds rows w (backupTenant E tenant name w).2 ∧
          Forall2 (backed tenant) (apps_of tenant w) rows.
Proof.
  intros Hi Ht. unfold backupTenant.
  destruct (app_pages_pass tenant name (Datatypes.S (length (apps w))) 0 (0, 0) w Hi Ht) as (rows & Hout & Hadd & Hall).
  { rewrite drop_0. unfold apps_of. rewrite length_fmap, (merge_sort_Permutation newer_app).
    pose proof (length_filter (λ a, aTenantID a = tenant) (apps w)). lia. }
  destruct (app_pages _ _ _ _ _ _ w) as [[go n] w1]. cbn [fst snd] in Hout, Hadd. injection Hout as -> ->. rewrite drop_0 in Hall.
  pose proof (cleanup_quiet name (tenant +:+ "/") 30 w1 (adds_ids _ _ _ Hadd)) as Hq.
  destruct (CleanupOldBackups _ _ _ _ w1) as [r w2]. exists rows. split_and!; [done| |done].
  pose proof (adds_trans _ _ _ _ _ Hadd Hq) as Ha. by rewrite app_nil_r in Ha.
Qed.

(** The applications of tenants, in the order of a run. *)
Definition apps_of_all (ts : list Tenant) w : list (string * Application) :=
  mjoin ((λ t, (tID t,.) <$> apps_of (tID t) w) <$> ts).

Definition backed_pair (ta : string * Application) (b : Backup) : Prop := backed ta.1 ta.2 b.

Lemma apps_of_all_adds rows ts w w' : adds rows w w' → apps_of_all ts w' = apps_of_all ts w.
Proof.
  intros Hadd. unfold apps_of_all. f_equal. apply list_fmap_ext. intros i t _. by rewrite (apps_of_adds _ _ _ _ Hadd).
Qed.

Definition pass_all (ts : list Tenant) (n : Z * Z) (w : World S) (out : bool * (Z * Z) * World S) : Prop :=
  ∃ rows, out.1 = (true, tally n rows) ∧ adds rows w out.2 ∧ Forall2 backed_pair (apps_of_all ts w) rows.

Lemma backup_tenants_pass name l : ∀ n w,
  ids_ok w → (∀ t, t ∈ l → t ∈ tenants w) → pass_all l n w (backup_tenants E l name n w).
Proof.
  induction l as [|t l IH]; intros n w Hi Ht.
  { exists []. cbn. rewrite tally_nil. split_and!; [done|by apply adds_refl|constructor]. }
  cbn [backup_tenants]. unfold mbind at 1, M_bind at 1, Err_. rewrite Hstop. cbv beta iota. unfold mbind, M_bind.
  destruct (backupTenant_pass (tID t) name (tick w)) as (rows & Hout & Hadd & Hall).
  { apply (adds_ids _ _ _ (tick_quiet w Hi)). }
  { apply Exists_exists. exists t. split; [apply Ht; by constructor|done]. }
  destruct (backupTenant E (tID t) name (tick w)) as [m w1]. cbn [fst snd] in Hout, Hadd.
  pose proof (adds_trans _ _ _ _ _ (tick_quiet w Hi) Hadd) as Hadd1. cbn [app] in Hadd1.
  destruct (IH (n.1 + m.1, n.2 + m.2) w1 (adds_ids _ _ _ Hadd1)) as (rows2 & Hout2 & Hadd2 & Hall2).
  { intros t' Ht'. rewrite (adds_tenants _ _ _ Hadd1). apply Ht. by constructor. }
  exists (rows ++ rows2). split_and!.
  - rewrite Hout2, <- tally_app. f_equal. f_equal. subst m. unfold tally. cbn [fst snd]. f_equal; lia.
  - exact (adds_trans _ _ _ _ _ Hadd1 Hadd2).
  - unfold apps_of_all. rewrite fmap_cons. cbn [mjoin list_join]. apply Forall2_app.
    + apply Forall2_fmap_l. eapply Forall2_impl; [exact Hall|]. done.
    + rewrite (apps_of_all_adds _ _ _ _ Hadd1) in Hall2. exact Hall2.
Qed.

Lemma tenant_pages_pass name fuel : ∀ offset n w,
  let ts := merge_sort newer_tenant (tenants w) in
  ids_ok w → (length (drop offset ts) < fuel)%nat → pass_all (drop offset ts) n w (tenant_pages E fuel name offset n w).
Proof.
  induction fuel as [|fuel IH]; intros offset n w ts Hi Hf; [lia|]. cbn [tenant_pages].
  unfold mbind at 1, M_bind at 1, Err_. rewrite Hstop. cbv beta iota.
  unfold mbind at 1, M_bind at 1, ListAllTenants, query, stmt. rewrite Hworks. cbv beta iota.
  change (merge_sort newer_tenant (tenants (tick w))) with ts. unfold page.
  pose proof (pages_step ts offset) as Hstep.
  set (w1 := tick (tick w)). assert (adds [] w w1) as Hq by (apply adds_quiet; cbn; lia || done).
  destruct (take pageSize (drop offset ts)) as [|t l] eqn:Hl.
  { exists []. rewrite tally_nil. split_and!; [done|done|].
    assert (drop offset ts = []) as ->; [|constructor].
    destruct (drop offset ts); [done|]. pose proof pageSize_pos. destruct pageSize; [lia|done]. }
  unfold mbind at 1, M_bind at 1.
  destruct (backup_tenants_pass name (t :: l) n w1 (adds_ids _ _ _ Hq)) as (rows & Hout & Hadd & Hall).
  { intros t' Ht'. change (t' ∈ tenants w). rewrite <- (merge_sort_Permutation newer_tenant (tenants w)). fold ts.
    rewrite <- (take_drop offset ts). apply elem_of_app. right. rewrite Hstep. apply elem_of_app. by left. }
  destruct (backup_tenants E (t :: l) name n w1) as [[go n1] w2]. cbn [fst snd] in *. injection Hout as -> ->. cbn [negb].
  pose proof (adds_trans _ _ _ _ _ Hq Hadd) as Hadd2. cbn [app] in Hadd2.
  change (apps_of_all (t :: l) w1) with (apps_of_all (t :: l) w) in Hall.
  destruct (Nat.ltb_spec (length (t :: l)) pageSize) as [Hlt|Hge].
  - exists rows. split_and!; [done|done|]. rewrite Hstep.
    assert (drop (offset + length (t :: l)) ts = []) as ->; [|by rewrite app_nil_r].
    rewrite <- Hl in Hlt. rewrite length_take in Hlt. rewrite <- Hl, <- drop_drop, length_take. apply drop_ge. lia.
  - destruct (IH (offset + length (t :: l))%nat (tally n rows) w2 (adds_ids _ _ _ Hadd2)) as (rows2 & Hout2 & Hadd3 & Hall2).
    + rewrite (adds_tenants _ _ _ Hadd2). fold ts. rewrite Hstep, length_app in Hf. cbn in Hf. cbn. lia.
    + rewrite (adds_tenants _ _ _ Hadd2) in Hall2. fold ts in Hall2. rewrite (apps_of_all_adds _ _ _ _ Hadd2) in Hall2.
      exists (rows ++ rows2). split_and!.
      * by rewrite Hout2, tally_app.
      * exact (adds_trans _ _ _ _ _ Hadd2 Hadd3).
      * rewrite Hstep. unfold apps_of_all. rewrite fmap_app, join_app. by apply Forall2_app.
Qed.

Lemma snapshot_quiet snap name w : ids_ok w → adds [] w (snapshotAndUpload E snap name w).2.
Proof.
  intros Hi. unfold snapshotAndUpload, mbind, M_bind, Now, SnapshotBackup, mret, M_ret.
  assert (adds [] w (tick (tick w))) as Hq by (apply adds_quiet; cbn; lia || done).
  destruct (snap _) as [data|]; [|done]. 
  match goal with |- context [upload E name ?k data ?x] => pose proof (upload_quiet name k data x (adds_ids _ _ _ Hq)) as Hu; destruct (upload E name k data x) as [r w'] end.
  exact (adds_trans [] [] _ _ _ Hq Hu).
Qed.

(** What the subscribers of the bus get, when there is one. *)
Definition heard (evs : list event) : list event := if has_bus E then evs else [].

Lemma publish_heard type_ data w : events (publishEvent E type_ data w).2 = events w ++ heard [Published type_ data].
Proof. unfold publishEvent, heard. by destruct (has_bus E); [|rewrite app_nil_r]. Qed.

Lemma publish_quiet type_ data w :
  backups (publishEvent E type_ data w).2 = backups w ∧ tenants (publishEvent E type_ data w).2 = tenants w ∧
  apps (publishEvent E type_ data w).2 = apps w ∧ steps (publishEvent E type_ data w).2 = steps w.
Proof. unfold publishEvent. by destruct (has_bus E). Qed.

Lemma heard_app l1 l2 : heard (l1 ++ l2) = heard l1 ++ heard l2.
Proof. unfold heard. by destruct (has_bus E). Qed.

(** From the storage on: the snapshot adds no row, the pages do. *)
Lemma run_pages name w :
  ids_ok w →
  let out := (take_snapshot E name;; all_tenants E name) w in
  ∃ rows, out.1 = (true, tally (0, 0) rows) ∧ adds rows w out.2 ∧
    Forall2 backed_pair (apps_of_all (merge_sort newer_tenant (tenants w)) w) rows.
Proof.
  intros Hi. cbv zeta. unfold mbind, M_bind. destruct (take_snapshot E name w) as [[] w1] eqn:Es.
  assert (adds [] w w1) as Hq.
  { unfold take_snapshot in Es. destruct (snapshotter E) as [snap|]; [|injection Es as <-; by apply adds_refl].
    pose proof (snapshot_quiet snap name w Hi) as Hq. by rewrite Es in Hq. }
  unfold all_tenants. destruct (tenant_pages_pass name (Datatypes.S (length (tenants w1))) 0 (0, 0) w1 (adds_ids _ _ _ Hq)) as (rows & Hout & Hadd & Hall).
  { rewrite drop_0, (merge_sort_Permutation newer_tenant). lia. }
  exists rows. split_and!; [done|exact (adds_trans [] rows _ _ _ Hq Hadd)|]. rewrite drop_0, (adds_tenants _ _ _ Hq) in Hall.
  by rewrite (apps_of_all_adds _ _ _ _ Hq) in Hall.
Qed.

(** A run that is not stopped, storage by storage. *)
Lemma run_started w :
  let w1 := (publishEvent E "backup.started" [] (tick w)).2 in
  runBackupsCtx E w =
    match (pickStorage E w1).1 with
    | None => publishEvent E "backup.failed" [("reason", "no-storage")] (tick w1)
    | Some name =>
        let '((complete, n), w2) := (take_snapshot E name;; all_tenants E name) (tick w1) in
        if complete : bool then publishEvent E "backup.completed" [("type", "scheduled"); ("backed_up", itoa n.1); ("failed", itoa n.2)] w2
        else (tt, w2)
    end.
Proof.
  cbv zeta. unfold runBackupsCtx, mbind, M_bind, Err_, mret, M_ret. rewrite Hstop.
  destruct (publishEvent E "backup.started" [] (tick w)) as [[] w1]. cbn [snd].
  change (pickStorage E w1) with ((pickStorage E w1).1, tick w1). cbn [fst snd]. destruct (pickStorage E w1).1 as [name|]; [|done].
  destruct (take_snapshot E name (tick w1)) as [[] w2]. destruct (all_tenants E name w2) as [[complete n] w3]. by destruct complete.
Qed.

(** C22. With a database that works and nobody stopping the scheduler or writing beside it, a run that
    finds a storage makes exactly one row for every application of every tenant, however many
    pages they fill, whatever the storage and the snapshot of the database do; each row ends
    completed or failed, and the event of the end has their numbers, if there is a bus.  A run
    that finds no storage makes no row and says so.  Generated identifiers are assumed never to
    repeat. *)
Theorem run_covers_every_app w :
  ids_ok w →
  match (pickStorage E (publishEvent E "backup.started" [] (tick w)).2).1 with
  | None => backups (runBackupsCtx E w).2 = backups w ∧
      events (runBackupsCtx E w).2 = events w ++ heard [Published "backup.started" []; Published "backup.failed" [("reason", "no-storage")]]
  | Some _ =>
      ∃ rows,
        Forall2 backed_pair (apps_of_all (merge_sort newer_tenant (tenants w)) w) rows ∧
        backups (runBackupsCtx E w).2 = backups w ++ rows ∧ apps (runBackupsCtx E w).2 = apps w ∧
        events (runBackupsCtx E w).2 = events w ++
          heard [Published "backup.started" [];
                 Published "backup.completed" [("type", "scheduled"); ("backed_up", itoa (with_status "completed" rows));
                                               ("failed", itoa (with_status "failed" rows))]]
  end.
Proof.
  intros Hi. rewrite run_started. cbv zeta.
  pose proof (publish_heard "backup.started" [] (tick w)) as Hev. pose proof (publish_quiet "backup.started" [] (tick w)) as (Hb & Ht & Ha & Hs).
  set (w1 := (publishEvent E "backup.started" [] (tick w)).2) in *. clearbody w1. cbn [tick backups tenants apps events steps] in *.
  destruct (pickStorage E w1).1 as [name|].
  2:{ rewrite publish_heard. destruct (publish_quiet "backup.failed" [("reason", "no-storage")] (tick w1)) as (-> & _).
      cbn [tick backups events]. split; [done|]. by rewrite Hev, <- app_assoc, <- heard_app. }
  assert (ids_ok (tick w1)) as Hi2 by (intros x n Hx Hn; cbn in Hx, Hn; rewrite Hb in Hx; apply Hi; [done|lia]).
  destruct (run_pages name (tick w1) Hi2) as (rows & Hout & Hadd & Hall).
  destruct ((take_snapshot E name;; all_tenants E name) (tick w1)) as [x w2]. cbn [fst snd] in *. subst x. cbn [tally fst snd]. exists rows.
  rewrite publish_heard. match goal with |- context [publishEvent E ?t ?d w2] => destruct (publish_quiet t d w2) as (-> & _ & -> & _) end.
  destruct Hadd as [-> _ -> -> _ _]. cbn [tick backups apps events].
  rewrite !Z.add_0_l, Hb, Ha, Hev. split_and!; [|done|done|by rewrite <- app_assoc, <- heard_app].
  cbn [tick tenants] in Hall. rewrite Ht in Hall. unfold apps_of_all, apps_of in *. cbn [tick apps] in Hall. by rewrite Ha in Hall.
Qed.

End Coverage.

(** ** Retention *)

Section Retention.
Context {S : Type} `{StorageLaws S, JSONText, !JSONTextLaws}.
Implicit Types w : World S.
Variable E : Env.
Hypothesis Hdisk : ∀ n, disk E n = NoFault.

(** Deleting listed entries: those before the cutoff are gone, everything else stays. *)
Lemma delete_old_views name cutoff es : ∀ d w s,
  storages w !! name = Some s → sound s →
  NoDup ((λ e, place s (Key e)) <$> es) →
  (∀ e, e ∈ es → ∃ p o, place s (Key e) = Some p ∧ view s p = Some o) →
  ∃ s', storages (delete_old E name cutoff es d w).2 !! name = Some s' ∧ sound s' ∧ place s' = place s ∧
    ∀ q, view s' q = if decide (Exists (λ e, CreatedAt e < cutoff ∧ place s (Key e) = Some q) es) then None else view s q.
Proof.
  induction es as [|e es IH]; intros d w s Hs Hok Hnd Hes; cbn [delete_old].
  { exists s. split_and!; [done..|]. intros q. rewrite decide_False; [done|]. intros Hx. inversion Hx. }
  rewrite fmap_cons in Hnd. apply NoDup_cons in Hnd as [Hnot Hnd].
  destruct (Z.ltb_spec (CreatedAt e) cutoff) as [Hold|Hnew].
  - unfold mbind, M_bind, on_storage. rewrite Hs, Hdisk.
    destruct (Hes e (list_elem_of_here e es)) as (p & o & Hp & Hv).
    pose proof (delete_ok NoFault (Key e) s p o Hok Hp Hv) as Hdel.
    destruct (Delete NoFault (Key e) s) as [r s1]. destruct Hdel as (Hok1 & Hpl & Hrest & Hgone & Hr). rewrite Hr in Hgone by done.
    match goal with |- context [delete_old E name cutoff es ?x ?y] => destruct (IH x y s1) as (s' & Hs' & Hok' & Hpl' & Hview) end.
    + cbn. by rewrite lookup_insert_eq.
    + done.
    + by rewrite Hpl.
    + intros e' He'. destruct (Hes e' (list_elem_of_further _ _ _ He')) as (p' & o' & Hp' & Hv').
      exists p', o'. rewrite Hpl. split; [done|]. rewrite Hrest; [done|]. intros ->. apply Hnot, list_elem_of_fmap. exists e'. by rewrite Hp.
    + exists s'. split_and!; [done|done|congruence|]. intros q. rewrite Hview, Hpl.
      destruct (decide (p = q)) as [<-|Hne].
      * assert (Exists (λ x, CreatedAt x < cutoff ∧ place s (Key x) = Some p) (e :: es)) as Hex by (left; by rewrite Hp).
        rewrite (decide_True (P := Exists _ (e :: es))) by exact Hex. case_decide; [done|exact Hgone].
      * rewrite Hrest by done. apply decide_ext. rewrite Exists_cons. rewrite Hp. naive_solver.
  - destruct (IH d w s Hs Hok Hnd) as (s' & Hs' & Hok' & Hpl' & Hview); [intros; apply Hes; by constructor|].
    exists s'. split_and!; [done..|]. intros q. rewrite Hview. apply decide_ext. rewrite Exists_cons. split; [tauto|].
    intros [[? _]|?]; [lia|done].
Qed.

Definition cutoff_at (t : instant) (days : Z) : Z := time_unix (t - days * Day).

(** What the sweep leaves of the objects under a directory. *)
Lemma cleanup_views name prefix days w s dir :
  storages w !! name = Some s → sound s → place s prefix = Some dir →
  ∃ s', storages (CleanupOldBackups E name prefix days w).2 !! name = Some s' ∧ sound s' ∧ place s' = place s ∧
    (∀ q, view s' q = view s q ∨ view s' q = None ∧ ∃ c t, view s q = Some (c, t) ∧
       time_unix t < cutoff_at (clock E (Datatypes.S (steps w))) days) ∧
    ∀ q c t, dir `prefix_of` q → dir ≠ q → view s q = Some (c, t) →
      view s' q = if decide (time_unix t < cutoff_at (clock E (Datatypes.S (steps w))) days) then None else Some (c, t).
Proof.
  intros Hs Hok Hdir. pose proof (list_ok prefix s dir Hok Hdir) as Hlist. unfold CleanupOldBackups, mbind, M_bind, on_storage, Now. rewrite Hs, Hdisk. cbv beta iota.
  destruct (List_ NoFault prefix s) as [es|] eqn:Hl; [|done]. cbv beta iota delta [from_option id].
  match goal with |- context [delete_old E name ?c es 0 ?x] => destruct (delete_old_views name c es 0 x s) as (s' & Hs' & Hok' & Hpl & Hv) end.
  - cbn. by rewrite lookup_insert_eq.
  - done.
  - by eapply list_nodup.
  - intros e He. destruct (list_sound NoFault prefix s es e Hok Hl He) as (p & c & t & ? & ? & _). by eexists _, _.
  - unfold M_ret, mret. destruct (delete_old _ _ _ _ _ _) as [dl w2]. cbn [snd steps tick with_storages] in *. exists s'. split_and!; [done..| |].
    + intros q. rewrite Hv. case_decide as Hex; [right|by left]. split; [done|]. apply Exists_exists in Hex as (e & He & Hlt & Hp).
      destruct (list_sound NoFault prefix s es e Hok Hl He) as (p & c & t & Hp2 & Hv2 & Hc2). rewrite Hp in Hp2. injection Hp2 as <-.
      exists c, t. by rewrite <- Hc2.
    + intros q c t Hq Hne Hview. rewrite Hv. destruct (list_complete NoFault prefix s es dir q c t Hok Hl Hdir Hq Hne Hview)
        as (e & He & Hpe & Hce). unfold cutoff_at. destruct (decide (time_unix t < _)) as [Hlt|Hge].
      * rewrite decide_True; [done|]. apply Exists_exists. exists e. split; [done|]. by rewrite Hce.
      * rewrite decide_False; [done|]. rewrite Exists_exists. intros (e' & He' & Hlt & Hp').
        destruct (list_sound NoFault prefix s es e' Hok Hl He') as (p' & c' & t' & Hp2 & Hv2 & Hc2). rewrite Hp' in Hp2.
        injection Hp2 as <-. rewrite Hview in Hv2. injection Hv2 as <- <-. by rewrite Hc2 in Hlt.
Qed.

(** Retention deletes exactly the backups of the tenant's directory that are older than the limit,
    and deletes nothing younger anywhere. *)
Theorem retention_is_exact name prefix days w s dir :
  storages w !! name = Some s → sound s → place s prefix = Some dir →
  ∃ s', storages (CleanupOldBackups E name prefix days w).2 !! name = Some s' ∧
    (∀ q, view s' q = view s q ∨ view s' q = None ∧ ∃ c t, view s q = Some (c, t) ∧
       time_unix t < cutoff_at (clock E (Datatypes.S (steps w))) days) ∧
    ∀ q c t, dir `prefix_of` q → dir ≠ q → view s q = Some (c, t) →
      view s' q = if decide (time_unix t < cutoff_at (clock E (Datatypes.S (steps w))) days) then None else Some (c, t).
Proof.
  intros Hs Hok Hdir. destruct (cleanup_views name prefix days w s dir Hs Hok Hdir) as (s' & ? & ? & ? & ? & ?).
  by exists s'.
Qed.

(** ** An application that never changes *)

Hypothesis Hworks : ∀ n, works E n = true.
Hypothesis Hstop : ∀ n, stopping E n = false.
Hypothesis Hfresh : Inj (=) (=) (fresh E).

Section Unchanged.
Variables (tenant name p : string) (a : Application).

(** A completed backup of the application as it is, in the file [p]. *)
Definition same_backup (b : Backup) : Prop :=
  SourceID b = aID a ∧ bStatus b = "completed" ∧ Encryption b = sha256_hex (payload_of a) ∧ FilePath b = p ∧
  StorageTarget b = name ∧ BackupType b = "".

(** The tenant has one application and has backed it up, as it is, before. *)
Record steady w : Prop := {
  steady_ids : ids_ok E w;
  steady_tenant : Exists (λ t, tID t = tenant) (tenants w);
  steady_app : apps_of tenant w = [a];
  steady_some : ∃ b, b ∈ backups w ∧ bTenantID b = tenant;
  steady_rows : ∀ b, b ∈ backups w → bTenantID b = tenant → same_backup b }.

Hypothesis Hp : p ≠ "".

Lemma backups_of_iff w b : b ∈ backups_of tenant w ↔ b ∈ backups w ∧ bTenantID b = tenant.
Proof. unfold backups_of. rewrite (merge_sort_Permutation newer_backup), list_elem_of_filter. tauto. Qed.

(** The row points to the old file, and nothing is uploaded. *)
Lemma steady_backupApp w :
  steady w → ∃ w', backupApp E tenant a name w = (true, w') ∧ storages w' = storages w ∧ steady w'.
Proof.
  intros [Hi Ht Ha Hsome Hrows].
  assert (reusable (last_backup tenant (aID a) w) (sha256_hex (payload_of a)) = Some p) as Hold.
  { unfold last_backup. destruct (backups_of tenant w) as [|b l] eqn:Hl.
    { destruct Hsome as (b & Hb & Htb). exfalso. apply (not_elem_of_nil b). by rewrite <- Hl, backups_of_iff. }
    assert (same_backup b) as (H1' & H2' & H3' & H4' & _).
    { assert (b ∈ backups_of tenant w) as Hin by (rewrite Hl; by constructor). apply backups_of_iff in Hin as [??]. by apply Hrows. }
    cbn [take list_find]. rewrite decide_True by (split; assumption).
    cbn [fmap option_fmap option_map snd]. unfold reusable. rewrite H4', decide_True by (split; assumption). reflexivity. }
  pose proof (backupApp_adds E Hworks Hfresh tenant a name w Hi Ht) as Hadds.
  revert Hadds. rewrite (backupApp_eq E Hworks tenant a name w Hi Ht). unfold key_for. rewrite Hold. cbn [default from_option id].
  unfold finish, mbind, M_bind, mret at 1, M_ret at 1. cbv beta iota.
  unfold UpdateBackupStatus, stmt. rewrite Hworks. cbv beta iota.
  match goal with |- context [mret true ?x] => set (w' := x) end. unfold mret, M_ret.
  intros (row & Hadd & Hrow). exists w'. split_and!; [by rewrite ?Hworks|done|]. split.
  - apply (adds_ids _ _ _ _ Hadd).
  - by rewrite (adds_tenants _ _ _ _ Hadd).
  - by rewrite (apps_of_adds _ _ _ _ _ Hadd).
  - destruct Hsome as (b & Hb & Htb). exists b. rewrite (adds_rows _ _ _ _ Hadd). split; [apply elem_of_app; by left|done].
  - intros b Hb Htb. unfold w' in Hb. cbn [backups tick with_backups] in Hb. apply list_elem_of_fmap in Hb as (b0 & -> & Hb0).
    apply elem_of_app in Hb0 as [Hb0|Hb0].
    + assert (¬ (bID b0 = fresh E (steps w) ∧ bTenantID b0 = tenant)) as Hno.
      { intros [Heq _]. by apply (Hi b0 (steps w) Hb0). }
      rewrite decide_False in Htb |- * by done. by apply Hrows.
    + apply list_elem_of_singleton in Hb0 as ->. rewrite decide_True by done. done.
Qed.

Lemma steady_pages w :
  steady w → ∃ w', app_pages E (Datatypes.S (length (apps w))) tenant name 0 (0, 0) w = ((true, (1, 0)), w') ∧
    storages w' = storages w ∧ steady w' ∧ (steps w ≤ steps w')%nat.
Proof.
  intros Hw. cbn [app_pages]. unfold mbind at 1, M_bind at 1, Err_. rewrite Hstop. cbv beta iota.
  unfold mbind at 1, M_bind at 1, ListAppsByTenant, query, stmt. rewrite Hworks. cbv beta iota.
  change (apps_of tenant (tick w)) with (apps_of tenant w). rewrite (steady_app w Hw). unfold page. cbn [drop].
  assert (take pageSize [a] = [a]) as -> by (apply take_ge; cbn; pose proof pageSize_pos; lia).
  set (w1 := tick (tick (tick w))).
  assert (steady w1) as Hw1.
  { destruct Hw as [Hi Ht Ha Hsome Hrows]. split; [|done..]. intros b n Hb Hn. cbn in Hn. apply Hi; [done|lia]. }
  destruct (steady_backupApp w1 Hw1) as (w2 & Hb & Hst & Hw2).
  pose proof (backupApp_adds E Hworks Hfresh tenant a name w1 (steady_ids _ Hw1) (steady_tenant _ Hw1)) as Hadds. rewrite Hb in Hadds.
  destruct Hadds as (row & Hadd & _). exists w2.
  unfold mbind at 1, M_bind at 1. cbn [backup_apps]. unfold mbind at 1, M_bind at 1, Err_. rewrite Hstop. cbv beta iota.
  fold w1. unfold mbind at 1, M_bind at 1. rewrite Hb. cbv beta iota. cbn [backup_apps fst snd]. unfold mret, M_ret. cbn [negb length].
  assert ((1 <? pageSize)%nat = true) as -> by reflexivity. split_and!; [done|done|done|].
  pose proof (adds_steps _ _ _ _ Hadd) as Hstep. cbn in Hstep. lia.
Qed.

(** A backup of the tenant: the rows still point to the file, which is uploaded no more. *)
Lemma steady_step w s dir q :
  steady w → storages w !! name = Some s → sound s → place s (tenant +:+ "/") = Some dir → place s p = Some q →
  dir `prefix_of` q → dir ≠ q →
  (∀ c t n, view s q = Some (c, t) → (steps w ≤ n)%nat → time_unix t < cutoff_at (clock E n) 30) →
  ∃ s' w', backupTenant E tenant name w = ((1, 0), w') ∧ steady w' ∧ storages w' !! name = Some s' ∧ sound s' ∧
    place s' = place s ∧ view s' q = None.
Proof.
  intros Hw Hs Hok Hdir Hq Hpre Hne Hold. unfold backupTenant.
  destruct (steady_pages w Hw) as (w1 & -> & Hst & Hw1 & Hsteps). rewrite <- Hst in Hs.
  destruct (cleanup_views name (tenant +:+ "/") 30 w1 s dir Hs Hok Hdir) as (s' & Hs' & Hok' & Hpl & Hany & Hview).
  pose proof (cleanup_quiet E name (tenant +:+ "/") 30 w1 (steady_ids _ Hw1)) as Hq'.
  destruct (CleanupOldBackups E name (tenant +:+ "/") 30 w1) as [r w2]. cbn [snd] in *. exists s', w2. split_and!; try done.
  - destruct Hw1 as [Hi Ht Ha Hsome Hrows]. destruct Hq' as [Hb2 Ht2 Ha2 _ _ Hi2]. rewrite app_nil_r in Hb2.
    split; [done|by rewrite Ht2|unfold apps_of in *; by rewrite Ha2|by rewrite Hb2|by rewrite Hb2].
  - destruct (view s q) as [[c t]|] eqn:Hv.
    + rewrite (Hview q c t) by done. rewrite decide_True; [done|]. apply (Hold c t); [done|lia].
    + destruct (Hany q) as [->|[? _]]; done.
Qed.

(** None of the tenant's backups can be restored when the file is gone. *)
Lemma steady_unrestorable E' w s q b :
  steady w → storages w !! name = Some s → sound s → place s p = Some q → view s q = None →
  bTenantID b = tenant → is_ok (RestoreBackup E' (bID b) tenant w).1 = false.
Proof.
  intros Hw Hs Hok Hq Hv Hb. unfold RestoreBackup, mbind, M_bind, ListBackupsByTenant, query, stmt.
  destruct (works E' (steps w)); [|done]. cbv beta iota.
  destruct (list_find (λ x, bID x = bID b) (page _ _ (backups_of tenant w))) as [[i x]|] eqn:Hf; [|done].
  cbn [fmap option_fmap option_map snd].
  assert (same_backup x) as (_ & Hst & _ & Hpath & Htarget & Hty).
  { apply list_find_Some in Hf as (Hi & _ & _). apply list_elem_of_lookup_2 in Hi. unfold page in Hi.
    apply elem_of_take in Hi as (j & Hi & _). change (drop (Z.to_nat 0) (backups_of tenant w)) with (backups_of tenant w) in Hi.
    apply list_elem_of_lookup_2, backups_of_iff in Hi as [??]. by apply (steady_rows w Hw). }
  rewrite Hst, Hty. destruct (decide ("completed" ≠ "completed")); [done|].
  destruct (decide ("" = "incremental")); [done|]. destruct (decide ("" = "incremental" ∧ _)) as [[? _]|_]; [done|].
  unfold download, on_storage. cbn [storages tick]. rewrite Htarget, Hs, Hpath.
  pose proof (download_gone (disk E' (Datatypes.S (steps w))) p s q Hok Hq Hv) as Hgone. cbn [steps tick] in *.
  destruct (Download _ p s); [done|]. done.
Qed.

Definition tenant_runs (k : nat) w : World S := Nat.iter k (λ w, (backupTenant E tenant name w).2) w.

(** An application that does not change is uploaded once: every later backup is recorded as
    completed and points to that file.  When the file is thirty days old the retention deletes
    it, and from then on every backup succeeds, uploads nothing, and no backup of the tenant can
    be restored. *)
Theorem unchanged_app_ends_without_backup w s dir q k :
  steady w → storages w !! name = Some s → sound s → place s (tenant +:+ "/") = Some dir → place s p = Some q →
  dir `prefix_of` q → dir ≠ q →
  (∀ c t n, view s q = Some (c, t) → (steps w ≤ n)%nat → time_unix t < cutoff_at (clock E n) 30) →
  (backupTenant E tenant name (tenant_runs k w)).1 = (1, 0) ∧
  ∀ E' b, bTenantID b = tenant → is_ok (RestoreBackup E' (bID b) tenant (tenant_runs (Datatypes.S k) w)).1 = false.
Proof.
  intros Hw Hs Hok Hdir Hq Hpre Hne Hold.
  assert (∀ k, ∃ s, steady (tenant_runs k w) ∧ storages (tenant_runs k w) !! name = Some s ∧ sound s ∧
    place s (tenant +:+ "/") = Some dir ∧ place s p = Some q ∧
    (∀ c t n, view s q = Some (c, t) → (steps (tenant_runs k w) ≤ n)%nat → time_unix t < cutoff_at (clock E n) 30)) as Hinv.
  { clear k. induction k as [|k (s1 & H1' & H2' & H3' & H4' & H5' & H6')]; [by exists s|].
    destruct (steady_step (tenant_runs k w) s1 dir q) as (s2 & w2 & Hstep & Hw2 & Hs2 & Hok2 & Hpl2 & Hv2); try done.
    exists s2.
    change (tenant_runs (Datatypes.S k) w) with (backupTenant E tenant name (tenant_runs k w)).2. by rewrite Hstep, Hpl2, Hv2. }
  destruct (Hinv k) as (s1 & H1' & H2' & H3' & H4' & H5' & H6').
  destruct (steady_step (tenant_runs k w) s1 dir q) as (s2 & w2 & Hstep & Hw2 & Hs2 & Hok2 & Hpl2 & Hv2); try done.
  split; [by rewrite Hstep|]. intros E' b Hb. change (tenant_runs (Datatypes.S k) w) with (backupTenant E tenant name (tenant_runs k w)).2.
  rewrite Hstep. eapply steady_unrestorable; try done. by rewrite Hpl2.
Qed.

End Unchanged.

End Retention.

(** ** Examples *)

(** A text for every document: the number that encodes it. *)
Module Text.

Definition leaf : Type := string * list Z * string.

Definition float_code (x : SpecFloat.spec_float) : list Z :=
  match x with
  | SpecFloat.S754_zero b => [0; if b then 1 else 0]
  | SpecFloat.S754_infinity b => [1; if b then 1 else 0]
  | SpecFloat.S754_nan => [2]
  | SpecFloat.S754_finite b m e => [3; (if b then 1 else 0); Z.pos m; e]
  end.

Definition float_of (l : list Z) : option SpecFloat.spec_float :=
  match l with
  | [0; b] => Some (SpecFloat.S754_zero (b =? 1))
  | [1; b] => Some (SpecFloat.S754_infinity (b =? 1))
  | [2] => Some SpecFloat.S754_nan
  | [3; b; Z.pos m; e] => Some (SpecFloat.S754_finite (b =? 1) m e)
  | _ => None
  end.

Fixpoint tree (d : json) : gen_tree leaf :=
  match d with
  | JNull => GenLeaf ("null", [], "")
  | JBool b => GenLeaf ("bool", [if b then 1 else 0], "")
  | JNum z => GenLeaf ("num", [z], "")
  | JFloat x => GenLeaf ("float", float_code x, "")
  | JStr s => GenLeaf ("str", [], s)
  | JBase64 s => GenLeaf ("base64", [], s)
  | JTime t => GenLeaf ("time", [t], "")
  | JArr l => GenNode 0 ((fix go l := match l with [] => [] | d :: l => tree d :: go l end) l)
  | JObj fs => GenNode 1 ((fix go fs := match fs with
                           | [] => []
                           | (k, d) :: fs => GenNode 2 [GenLeaf ("key", [], k); tree d] :: go fs
                           end) fs)
  end.

Definition leaf_doc (l : leaf) : option json :=
  match l with
  | ("null", _, _) => Some JNull
  | ("bool", [b], _) => Some (JBool (b =? 1))
  | ("num", [z], _) => Some (JNum z)
  | ("float", c, _) => JFloat <$> float_of c
  | ("str", _, s) => Some (JStr s)
  | ("base64", _, s) => Some (JBase64 s)
  | ("time", [t], _) => Some (JTime t)
  | _ => None
  end.

Fixpoint doc (t : gen_tree leaf) : option json :=
  match t with
  | GenLeaf l => leaf_doc l
  | GenNode 0 l =>
      JArr <$> (fix go l := match l with [] => Some [] | t :: l => d ← doc t; ds ← go l; Some (d :: ds) end) l
  | GenNode 1 l =>
      JObj <$> (fix go l := match l with
                            | [] => Some []
                            | GenNode 2 [GenLeaf (_, _, k); t] :: l => d ← doc t; ds ← go l; Some ((k, d) :: ds)
                            | _ => None
                            end) l
  | _ => None
  end.

Fixpoint doc_tree (d : json) : doc (tree d) = Some d.
Proof.
  destruct d as [|b|z|x|s|s|t|l|fs]; cbn [tree doc leaf_doc]; try done.
  - by destruct b.
  - destruct x as [b|b| |b m e]; cbn; by try destruct b.
  - induction l as [|d l IH]; [done|]. cbn in IH |- *. rewrite doc_tree. cbn.
    destruct ((fix go l := match l with [] => Some [] | t :: l => d ← doc t; ds ← go l; Some (d :: ds) end) _) as [ds|]; [|done].
    cbn in IH |- *. by injection IH as ->.
  - induction fs as [|[k d] fs IH]; [done|]. cbn in IH |- *. rewrite doc_tree. cbn.
    match type of IH with _ <$> ?g = _ => destruct g as [ds|] end; [|done]. cbn in IH |- *. by injection IH as ->.
Qed.

End Text.

#[local] Instance demo_text : JSONText := {|
  MarshalIndent := λ d, "#" +:+ itoa (Z.pos (encode (Text.tree d)));
  Unmarshal := λ s, match digits_val 0 (bytes (TrimPrefix s "#")) with
                    | Some (Z.pos n) => decode n ≫= Text.doc
                    | _ => None
                    end |}.

#[local] Instance demo_text_laws : JSONTextLaws.
Proof.
  split.
  - intros d. cbn [Unmarshal MarshalIndent demo_text]. rewrite TrimPrefix_app, digits_val_itoa, decode_encode by done.
    apply Text.doc_tree.
  - intros d. cbn. done.
Qed.


Definition demo_app : Application :=
  {| aID := "app"; ProjectID := "p1"; aTenantID := "t1"; aName := "shop"; Type_ := "service"; SourceType := "git";
     SourceURL := "https://git"; Branch := "main"; Dockerfile := "FROM go"; BuildPack := "go"; EnvVarsEnc := "c2VjcmV0";
     LabelsJSON := "{}"; Replicas := 2; Port := 0; aStatus := "running"; ServerID := ""; aCreatedAt := 7; aUpdatedAt := 7 |}.

Definition demo_path : string := "t1/app/b0.json".

Definition demo_backup : Backup :=
  {| bID := "old"; bTenantID := "t1"; bSourceType := "config"; SourceID := "app"; StorageTarget := "local"; FilePath := demo_path;
     SizeBytes := 2; Encryption := sha256_hex (payload_of (listed demo_app)); bStatus := "completed"; Scheduled := true;
     RetentionDays := 30; BackupType := ""; bCompletedAt := None; bCreatedAt := 0 |}.

#[local] Existing Instance toy_gcm.
#[local] Existing Instance toy_gcm_laws.

(** The storage with the file of a backup, written at the epoch. *)
Definition demo_files (data : string) : LocalStorage :=
  (local_Upload NoFault 0 "nonce-of-12b" demo_path data demo_storage).2.

Definition demo_world (data : string) : World LocalStorage :=
  {| tenants := [{| tID := "t1"; tCreatedAt := 0 |}]; projects := {["p1"]}; apps := [demo_app]; backups := [demo_backup];
     storages := {["local" := demo_files data]}; events := []; steps := 0 |}.

Definition demo_env : Env :=
  {| works := λ _, true; disk := λ _, NoFault; stopping := λ _, false; clock := λ n, 40 * Day + Z.of_nat n * Second;
     fresh := λ n, "b" +:+ pretty n; nonce := λ _, "nonce-of-12b"; walk := λ _, ["local"]; snapshotter := None;
     has_bus := true; off := 0 |}.

Lemma demo_fresh_inj : Inj (=) (=) (fresh demo_env).
Proof.
  intros n m Heq. cbn [fresh demo_env] in Heq. apply (f_equal (λ s, TrimPrefix s "b")) in Heq. rewrite !TrimPrefix_app in Heq.
  by apply (inj pretty) in Heq.
Qed.

Lemma demo_ids data : ids_ok demo_env (demo_world data).
Proof. intros b n Hb _. apply list_elem_of_singleton in Hb as ->. discriminate. Qed.

Lemma demo_files_sound data : sound (demo_files data).
Proof.
  pose proof (local_upload_ok NoFault 0 "nonce-of-12b" demo_path data demo_storage demo_storage_sound eq_refl) as Hok.
  unfold demo_files. destruct (local_Upload _ _ _ _ _ _) as [r l]. by destruct Hok.
Qed.

Definition snapping_env : Env :=
  {| works := works demo_env; disk := disk demo_env; stopping := stopping demo_env; clock := clock demo_env; fresh := fresh demo_env;
     nonce := nonce demo_env; walk := walk demo_env; snapshotter := Some (λ _, Some "SQLite format 3"); has_bus := true; off := 0 |}.

Lemma run_covers_every_app_witness : ∃ rows,
  Forall2 backed_pair (apps_of_all (merge_sort newer_tenant (tenants (demo_world "{}"))) (demo_world "{}")) rows ∧
  backups (runBackupsCtx snapping_env (demo_world "{}")).2 = [demo_backup] ++ rows.
Proof.
  destruct (run_covers_every_app snapping_env (λ _, eq_refl) (λ _, eq_refl) demo_fresh_inj (demo_world "{}")
    (demo_ids "{}")) as (rows & Hall & Hrows & _).
  exact (ex_intro _ rows (conj Hall Hrows)).
Defined.

Lemma demo_dir data : place (demo_files data) "t1/" = Some ["srv"; "backups"; "t1"].
Proof.
  pose proof (local_upload_ok NoFault 0 "nonce-of-12b" demo_path data demo_storage demo_storage_sound eq_refl) as Hok.
  unfold demo_files. destruct (local_Upload _ _ _ _ _ _) as [r l]. destruct Hok as (_ & Hpl & _). cbn [snd place local_storage_laws].
  rewrite Hpl. vm_compute. reflexivity.
Qed.

Lemma demo_view data c t : view (demo_files data) ["srv"; "backups"; "t1"; "app"; "b0.json"] = Some (c, t) → t = 0.
Proof.
  assert ((local_Upload NoFault 0 "nonce-of-12b" demo_path data demo_storage).1 = Ok tt) as Hr by (vm_compute; reflexivity).
  pose proof (local_upload_ok NoFault 0 "nonce-of-12b" demo_path data demo_storage demo_storage_sound eq_refl) as Hok.
  unfold demo_files. destruct (local_Upload _ _ _ _ _ _) as [r l]. cbn [fst] in Hr. subst r. destruct Hok as (_ & _ & _ & Hd).
  destruct (Hd eq_refl) as (p & Hp & Hv). assert (local_place demo_storage demo_path = Some ["srv"; "backups"; "t1"; "app"; "b0.json"]) as Hp'
    by (vm_compute; reflexivity). rewrite Hp' in Hp. injection Hp as <-. cbn [snd view local_storage_laws]. rewrite Hv. congruence.
Qed.


Definition demo_file : path := ["srv"; "backups"; "t1"; "app"; "b0.json"].

Lemma demo_place data : place (demo_files data) demo_path = Some demo_file.
Proof.
  pose proof (local_upload_ok NoFault 0 "nonce-of-12b" demo_path data demo_storage demo_storage_sound eq_refl) as Hok.
  unfold demo_files. destruct (local_Upload _ _ _ _ _ _) as [r l]. destruct Hok as (_ & Hpl & _). cbn [snd place local_storage_laws].
  rewrite Hpl. vm_compute. reflexivity.
Qed.

Lemma retention_is_exact_witness : ∃ s',
  storages (CleanupOldBackups demo_env "local" "t1/" 30 (demo_world "{}")).2 !! "local" = Some s' ∧
  ∀ c t, view (demo_files "{}") demo_file = Some (c, t) →
    view s' demo_file = if decide (time_unix t < cutoff_at (clock demo_env 1) 30) then None else Some (c, t).
Proof.
  destruct (retention_is_exact demo_env (λ _, eq_refl) "local" "t1/" 30 (demo_world "{}") (demo_files "{}") ["srv"; "backups"; "t1"]
    (lookup_singleton_eq _ _) (demo_files_sound "{}") (demo_dir "{}")) as (s' & Hs' & _ & Hv).
  refine (ex_intro _ s' (conj Hs' (λ c t, Hv demo_file c t _ _))); [by exists ["app"; "b0.json"]|discriminate].
Defined.

Lemma demo_steady data : steady demo_env "t1" "local" demo_path (listed demo_app) (demo_world data).
Proof.
  split; [apply demo_ids|by left|reflexivity|exists demo_backup; split; [by left|reflexivity]|].
  intros b Hb _. apply list_elem_of_singleton in Hb as ->. repeat split.
Qed.

Lemma unchanged_app_ends_without_backup_witness :
  (backupTenant demo_env "t1" "local" (tenant_runs demo_env "t1" "local" 1 (demo_world "{}"))).1 = (1, 0) ∧
  is_ok (RestoreBackup demo_env "old" "t1" (tenant_runs demo_env "t1" "local" 2 (demo_world "{}"))).1 = false.
Proof.
  destruct (unchanged_app_ends_without_backup demo_env (λ _, eq_refl) (λ _, eq_refl) (λ _, eq_refl) demo_fresh_inj "t1" "local"
    demo_path (listed demo_app) ltac:(discriminate) (demo_world "{}") (demo_files "{}") ["srv"; "backups"; "t1"] demo_file 1%nat
    (demo_steady "{}") (lookup_singleton_eq _ _) (demo_files_sound "{}") (demo_dir "{}") (demo_place "{}")) as [Hone Hall].
  - by exists ["app"; "b0.json"].
  - discriminate.
  - intros c t n Hv _. rewrite (demo_view "{}" c t Hv). unfold cutoff_at, time_unix. cbn [clock demo_env].
    apply Z.sub_lt_mono_r. change (0 / Second) with 0. apply Z.div_str_pos. unfold Day, Hour, Minute, Second. lia.
  - exact (conj Hone (Hall demo_env demo_backup eq_refl)).
Defined.

Lemma archive_roundtrip_witness : read_app (app_doc demo_app) = Some (archived demo_app).
Proof. apply (archive_roundtrip demo_app); split; vm_compute; discriminate. Defined.

Definition demo_payload : string := payload_of (listed demo_app).

Lemma demo_download f d : local_Download f demo_path (demo_files demo_payload) = Ok d → d = demo_payload.
Proof.
  assert ((local_Upload NoFault 0 "nonce-of-12b" demo_path demo_payload demo_storage).1 = Ok tt) as Hr
    by (generalize demo_payload; intros x; vm_compute; reflexivity).
  assert (local_Download NoFault demo_path (demo_files demo_payload) = Ok demo_payload) as Hd.
  { refine (proj1 (stored_backup_reads_back 0 "nonce-of-12b" demo_path demo_payload demo_storage _ demo_storage_sound eq_refl _)).
    unfold demo_files. destruct (local_Upload _ _ _ _ _ _) as [r l]. cbn [fst snd] in *. by rewrite Hr. }
  intros Hf. destruct f; [congruence|unfold local_Download in Hf; repeat case_match; done..].
Qed.

Lemma demo_restore : (RestoreBackup demo_env "old" "t1" (demo_world demo_payload)).1 = Ok tt.
Proof.
  assert (local_Download NoFault demo_path (demo_files demo_payload) = Ok demo_payload) as Hd.
  { assert ((local_Upload NoFault 0 "nonce-of-12b" demo_path demo_payload demo_storage).1 = Ok tt) as Hr
      by (generalize demo_payload; intros x; vm_compute; reflexivity).
    refine (proj1 (stored_backup_reads_back 0 "nonce-of-12b" demo_path demo_payload demo_storage _ demo_storage_sound eq_refl _)).
    unfold demo_files. destruct (local_Upload _ _ _ _ _ _) as [r l]. cbn [fst snd] in *. by rewrite Hr. }
  unfold RestoreBackup, mbind, M_bind, ListBackupsByTenant, query, stmt. cbn [works demo_env]. cbv beta iota.
  change (page _ _ (backups_of "t1" (demo_world demo_payload))) with [demo_backup]. cbn [list_find].
  rewrite decide_True by done. cbn [fmap option_fmap option_map snd]. change (bStatus demo_backup) with "completed".
  change (BackupType demo_backup) with "". destruct (decide ("completed" ≠ "completed")) as [Hx|_]; [destruct (Hx eq_refl)|].
  destruct (decide ("" = "incremental")) as [Hx|_]; [discriminate Hx|].
  destruct (decide ("" = "incremental" ∧ _)) as [[Hx _]|_]; [discriminate Hx|].
  unfold download, on_storage. cbn [storages tick demo_world StorageTarget demo_backup]. rewrite lookup_singleton_eq.
  cbn [Download LocalStorage_storage disk demo_env FilePath demo_backup]. rewrite Hd. unfold demo_payload at 1, payload_of at 1.
  rewrite unmarshal_indent. cbn [option_bind]. rewrite archive_ok by (split; vm_compute; discriminate).
  generalize (demo_files demo_payload). intros fs. vm_compute. reflexivity.
Qed.

Lemma restored_app_loses_configuration_witness :
  ∀ r, r ∈ apps (RestoreBackup demo_env "old" "t1" (demo_world demo_payload)).2 → aID r = "app" →
    Dockerfile r = "" ∧ EnvVarsEnc r = "" ∧ LabelsJSON r = "".
Proof.
  refine (proj2 (restored_app_loses_configuration demo_env "old" "t1" (demo_world demo_payload) _ demo_app demo_backup
    (demo_files demo_payload) _ _ _ eq_refl eq_refl (lookup_singleton_eq _ _) demo_download _ _ eq_refl _ _)).
  - generalize demo_restore. destruct (RestoreBackup _ _ _ _) as [x w']. cbn [fst snd]. by intros ->.
  - repeat constructor. apply not_elem_of_nil.
  - by left.
  - split; vm_compute; discriminate.
  - by left.
  - cbn. lia.
  - intros a' Ha' _ _. apply list_elem_of_singleton in Ha' as ->. reflexivity.
Defined.

End Backup.
