(* ===== verification/Leader.v ===== *)
(** * Leader: which instance is the master ([db/postgres.go], [swarm/module.go])

    The lease is a row with an expiry; an advisory lock of the database guards it, held by a
    session of the instance's connection pool.  Each call names the instance, the time and the
    session the pool hands out; database and instances read one clock. *)

From S2P Require Import Prelude.
#[local] Open Scope Z_scope.

Module Leader.

Record Lease := { holder : string; expires : instant }.

(** The row of the key, and the sessions that hold the advisory lock, once per time it was taken.
    src/internal/db/postgres.go:994-996 PostgresLeaderElector *)
Record Election := { row : option Lease; lock : list (string * nat) }.

Definition no_election : Election := {| row := None; lock := [] |}.

Inductive verdict := Won | Lost | Blocked.

(** Whether a session can take the lock: it is free or its own. *)
Definition lockable (e : Election) (s : string * nat) : bool := bool_decide (Forall (λ x, x = s) (lock e)).

(** The row after stale ones are deleted and a claim is made.
    src/internal/db/postgres.go:1024-1040 PostgresLeaderElector.Elect.claim *)
Definition claimed (e : Election) (i : string) (now : instant) (lease : duration) : Lease :=
  match row e with
  | Some r => if expires r <? now then {| holder := i; expires := now + lease |} else r
  | None => {| holder := i; expires := now + lease |}
  end.

(** A lost election is rolled back.
    src/internal/db/postgres.go:1011-1074 PostgresLeaderElector.Elect *)
Definition Elect (e : Election) (i : string) (session : nat) (now : instant) (lease : duration) : verdict * Election :=
  let r := claimed e i now lease in
  if negb (now <? expires r) || negb (bool_decide (holder r = i)) then (Lost, e)
  else if lockable e (i, session) then (Won, {| row := Some r; lock := (i, session) :: lock e |})
  else (Blocked, e).

Definition held (e : Election) (i : string) (now : instant) : bool :=
  match row e with Some r => (now <? expires r) && bool_decide (holder r = i) | None => false end.

(** [pg_advisory_unlock] on a session that does not hold the lock does nothing. *)
Fixpoint unlock (s : string * nat) (l : list (string * nat)) : list (string * nat) :=
  match l with
  | [] => []
  | x :: l => if decide (x = s) then l else x :: unlock s l
  end.

(** src/internal/db/postgres.go:1111-1125 PostgresLeaderElector.Resign *)
Definition Resign (e : Election) (i : string) (session : nat) : Election :=
  {| row := match row e with Some r => if decide (holder r = i) then None else Some r | None => None end;
     lock := unlock (i, session) (lock e) |}.

(** src/internal/db/postgres.go:1128-1142 PostgresLeaderElector.IsLeader *)
Definition IsLeader (e : Election) (i : string) (now : instant) : bool := held e i now.

(** A renewal is two statements: the first looks whether the lease is the caller's and runs, the
    second moves the end of a row that names the caller, if there is one; how many rows it
    changed is not looked at.
    src/internal/db/postgres.go:1083-1095 PostgresLeaderElector.Renew.check *)
Definition renew_check (e : Election) (i : string) (now : instant) : bool := held e i now.

(** src/internal/db/postgres.go:1097-1105 PostgresLeaderElector.Renew.write *)
Definition renew_write (e : Election) (i : string) (at_ : instant) (lease : duration) : Election :=
  {| row := match row e with
            | Some r => Some (if decide (holder r = i) then {| holder := i; expires := at_ + lease |} else r)
            | None => None
            end;
     lock := lock e |}.

(** The statements the instances run, one after the other: an election and a resignation are one
    each, a renewal two. *)
Inductive call := CElect (i : string) (session : nat) (now : instant) | CCheck (i : string) (now : instant)
                | CWrite (i : string) (at_ : instant) | CResign (i : string) (session : nat).

Definition caller (c : call) : string := match c with CElect i _ _ | CCheck i _ | CWrite i _ | CResign i _ => i end.

(** The state after a call, and whether it tells its caller that it leads. *)
Definition run (lease : duration) (e : Election) (c : call) : bool * Election :=
  match c with
  | CElect i s now => let '(v, e') := Elect e i s now lease in (match v with Won => true | _ => false end, e')
  | CCheck i now => (renew_check e i now, e)
  | CWrite i at_ => (true, renew_write e i at_ lease)
  | CResign i s => (false, Resign e i s)
  end.

Definition after (lease : duration) (e : Election) (cs : list call) : Election := foldl (λ e c, (run lease e c).2) e cs.

(** A renewal with the calls of other instances that come between its statements.
    src/internal/db/postgres.go:1079-1108 PostgresLeaderElector.Renew *)
Definition Renew (e : Election) (i : string) (now : instant) (between : list call) (at_ : instant) (lease : duration) : bool * Election :=
  if renew_check e i now then (true, renew_write (after lease e between) i at_ lease) else (false, e).

(** ** A renewed lease excludes the others *)

(** Nobody is elected and no renewal begins. *)
Definition nobody_leads (lease : duration) (e : Election) (cs : list call) : Prop :=
  ∀ k c, cs !! k = Some c → (∀ i at_, c ≠ CWrite i at_) → (run lease (after lease e (take k cs)) c).1 = false.

(** The elections and checks come before a time. *)
Definition before (t : instant) (c : call) : Prop :=
  match c with CElect _ _ now | CCheck _ now => now < t | CWrite _ _ | CResign _ _ => True end.

Lemma others_lose lease i r c e :
  row e = Some r → holder r = i → caller c ≠ i → before (expires r) c →
  ((∀ j at_, c ≠ CWrite j at_) → (run lease e c).1 = false) ∧ row (run lease e c).2 = Some r.
Proof.
  intros Hr Hh Hc Hb. destruct c as [j s now|j now|j at_|j s]; cbn in *.
  - unfold Elect, claimed. rewrite Hr. destruct (Z.ltb_spec (expires r) now); [lia|].
    rewrite (bool_decide_eq_false_2 (holder r = j)) by congruence. by rewrite orb_true_r.
  - unfold renew_check, held. rewrite Hr, (bool_decide_eq_false_2 (holder r = j)) by congruence. by rewrite andb_false_r.
  - rewrite Hr, decide_False by congruence. split; [|done]. intros H. by destruct (H j at_).
  - rewrite Hr. split; [done|]. rewrite decide_False by congruence. done.
Qed.

Lemma others_wait lease i r cs e :
  row e = Some r → holder r = i → Forall (λ c, caller c ≠ i ∧ before (expires r) c) cs →
  nobody_leads lease e cs ∧ row (after lease e cs) = Some r.
Proof.
  intros Hr Hh Hcs. assert (∀ l, Forall (λ c, caller c ≠ i ∧ before (expires r) c) l → row (after lease e l) = Some r) as Hrow.
  { intros l Hl. revert e Hr. induction Hl as [|c l [Hc Hb] _ IH]; intros e Hr; [done|]. cbn. apply IH.
    by apply (others_lose lease i r c e). }
  split; [|by apply Hrow]. intros k c Hk. destruct (Forall_lookup_1 _ _ _ _ Hcs Hk) as [Hc Hb].
  apply (others_lose lease i r c); [|done..]. by apply Hrow, Forall_take.
Qed.

Lemma renewal_holds lease e r i now at_ cs e' :
  row e = Some r → Forall (λ c, caller c ≠ i ∧ before (expires r) c) cs → Renew e i now cs at_ lease = (true, e') →
  nobody_leads lease e cs ∧ row e' = Some {| holder := i; expires := at_ + lease |}.
Proof.
  intros Hr Hcs. unfold Renew, renew_check, held. rewrite Hr. destruct (_ && _) eqn:E; [|done]. intros [= <-].
  apply andb_true_iff in E as [_ Hh%bool_decide_eq_true]. destruct (others_wait lease i r cs e Hr Hh Hcs) as [Hn Hrow].
  split; [done|]. cbn. by rewrite Hrow, decide_True.
Qed.

(** C17. A renewal whose second statement comes before the old lease runs out excludes the others:
    from its first statement to the end of the lease it bought, no other instance is elected and
    none begins a renewal, whatever the others try between the two statements and after them, and
    the row is the caller's with the new end.  The condition is that what the others do between
    the statements they do before the old lease's end; without it another may win there and the
    renewal still reports success.  Instances have names of their own and read one clock. *)
Theorem renewed_lease_excludes lease e r i now at_ between e' cs :
  row e = Some r →
  Forall (λ c, caller c ≠ i ∧ before (expires r) c) between →
  Renew e i now between at_ lease = (true, e') →
  Forall (λ c, caller c ≠ i ∧ before (at_ + lease) c) cs →
  nobody_leads lease e between ∧ nobody_leads lease e' cs ∧
  row (after lease e' cs) = Some {| holder := i; expires := at_ + lease |}.
Proof.
  intros Hr Hb HR Hcs. destruct (renewal_holds lease e r i now at_ between e' Hr Hb HR) as [Hn Hrow]. split; [done|].
  by apply (others_wait lease i {| holder := i; expires := at_ + lease |}).
Qed.

(** When the old lease runs out between the statements and another instance wins there, the
    second statement changes no row and the renewal still tells its caller that it leads: two
    leaders until the next renewal. *)
Theorem stale_renewal_reports_leadership lease e r i j s now t at_ :
  row e = Some r → renew_check e i now = true → expires r < t → j ≠ i → 0 < lease → lockable e (j, s) = true →
  (Renew e i now [CElect j s t] at_ lease).1 = true ∧
  row (Renew e i now [CElect j s t] at_ lease).2 = Some {| holder := j; expires := t + lease |}.
Proof.
  intros Hr Hc Ht Hj Hl Hk. unfold Renew. rewrite Hc. split; [done|]. cbn. unfold Elect, claimed. rewrite Hr.
  destruct (Z.ltb_spec (expires r) t); [|lia]. cbn [expires holder]. destruct (Z.ltb_spec t (t + lease)); [|lia].
  rewrite bool_decide_eq_true_2 by done. cbn [negb orb]. rewrite Hk. cbn. by rewrite decide_False.
Qed.

(** ** Elections that go wrong *)

(** An instance that starts again on its host wins with what is left of its old lease, so that
    another may win while it still counts on a full one. *)
Theorem restarted_leader_keeps_old_expiry e i s t now lease :
  row e = Some {| holder := i; expires := t |} → now < t → lockable e (i, s) = true →
  Elect e i s now lease = (Won, {| row := Some {| holder := i; expires := t |}; lock := (i, s) :: lock e |}).
Proof.
  intros Hr Ht Hl. unfold Elect, claimed. rewrite Hr. cbn [expires].
  destruct (Z.ltb_spec t now); [lia|]. cbn [expires holder]. destruct (Z.ltb_spec now t); [|lia].
  rewrite bool_decide_eq_true_2 by done. cbn. by rewrite Hl.
Qed.

(** A leader that resigns on another session of its pool than the one it was elected on leaves
    the advisory lock behind: the lease is free and every other instance waits for ever. *)
Theorem resignation_can_block_elections i s s' now lease e j k now' :
  Elect no_election i s now lease = (Won, e) → s' ≠ s → j ≠ i → 0 < lease →
  row (Resign e i s') = None ∧ Elect (Resign e i s') j k now' lease = (Blocked, Resign e i s').
Proof.
  intros He Hs Hj Hpos. unfold Elect, claimed in He. cbn in He. repeat case_match; simplify_eq. unfold Resign. cbn.
  rewrite !decide_True by done. split; [done|]. rewrite decide_False by congruence. unfold Elect, claimed. cbn.
  destruct (Z.ltb_spec now' (now' + lease)); [|lia]. rewrite bool_decide_eq_true_2 by done. cbn.
  unfold lockable. cbn. rewrite bool_decide_eq_false_2; [done|]. intros [E _]%Forall_cons. congruence.
Qed.

(** ** Examples *)

Definition second_60 : instant := 60 * Second.

Definition sample_lease : Election := {| row := Some {| holder := "a"; expires := second_60 + Second |}; lock := [] |}.

Lemma renewed_lease_excludes_witness :
  row (after (30 * Second) (Renew sample_lease "a" second_60 [CElect "b" 1 second_60] (second_60 + 1) (30 * Second)).2
    [CElect "b" 1 (second_60 + 29 * Second); CCheck "b" second_60]) = Some {| holder := "a"; expires := second_60 + 1 + 30 * Second |}.
Proof.
  refine (proj2 (proj2 (renewed_lease_excludes (30 * Second) sample_lease {| holder := "a"; expires := second_60 + Second |}
    "a" second_60 (second_60 + 1) [CElect "b" 1 second_60] _ [CElect "b" 1 (second_60 + 29 * Second); CCheck "b" second_60] eq_refl _ eq_refl _)));
    repeat constructor; cbn; try discriminate; unfold second_60, Second; lia.
Defined.

Lemma stale_renewal_reports_leadership_witness :
  (Renew sample_lease "a" second_60 [CElect "b" 1 (second_60 + 2 * Second)] (second_60 + 3 * Second) (30 * Second)).1 = true.
Proof.
  refine (proj1 (stale_renewal_reports_leadership (30 * Second) sample_lease {| holder := "a"; expires := second_60 + Second |}
    "a" "b" 1 second_60 (second_60 + 2 * Second) _ eq_refl eq_refl _ _ _ eq_refl)); [done|done|done].
Defined.

Lemma restarted_leader_keeps_old_expiry_witness :
  (Elect {| row := Some {| holder := "a"; expires := 5 |}; lock := [] |} "a" 0 4 30).1 = Won.
Proof.
  exact (f_equal fst (restarted_leader_keeps_old_expiry {| row := Some {| holder := "a"; expires := 5 |}; lock := [] |}
    "a" 0 5 4 30 eq_refl eq_refl eq_refl)).
Defined.

Lemma resignation_can_block_elections_witness :
  (Elect (Resign (Elect no_election "a" 1 10 30).2 "a" 2) "b" 7 100 30).1 = Blocked.
Proof.
  refine (f_equal fst (proj2 (resignation_can_block_elections "a" 1 2 10 30 _ "b" 7 100 eq_refl _ _ _))); [lia|discriminate|lia].
Defined.

(** ** The swarm module and its lease *)

(** src/internal/swarm/module.go:27-40 Module *)
Record Module_ := {
  mEnabled : bool; mHost : string; isLeader : bool; renewing : bool; agentsStopped : bool; heartbeat : bool }.

(** src/internal/swarm/module.go:16-16 leaderLeaseDuration *)
Definition leaderLeaseDuration : duration := 30 * Second.
Definition leaderRenewalInterval : duration := Z.quot leaderLeaseDuration 2.

(** src/internal/swarm/module.go:175-188 Module.startMaster *)
Definition startMaster (m : Module_) : Module_ :=
  {| mEnabled := mEnabled m; mHost := mHost m; isLeader := isLeader m; renewing := renewing m; agentsStopped := agentsStopped m;
     heartbeat := negb (agentsStopped m) |}.

Definition lead (m : Module_) (renew : bool) : Module_ :=
  {| mEnabled := mEnabled m; mHost := mHost m; isLeader := true; renewing := renew; agentsStopped := agentsStopped m;
     heartbeat := heartbeat m |}.

(** One attempt; a lost or failed one is not repeated.
    src/internal/swarm/module.go:111-138 Module.startWithElection *)
Definition startWithElection (m : Module_) (e : Election) (session : nat) (now : instant) : Module_ * Election :=
  match Elect e (mHost m) session now leaderLeaseDuration with
  | (Won, e) => (startMaster (lead m true), e)
  | (_, e) => (m, e)
  end.

(** [elector] is whether the store has one.
    src/internal/swarm/module.go:94-109 Module.Start *)
Definition Start (m : Module_) (elector : bool) (e : Election) (session : nat) (now : instant) : Module_ * Election :=
  if negb (mEnabled m) then (m, e)
  else if elector then startWithElection m e session now
  else (startMaster (lead m false), e).

(** A tick of the renewal loop; [down] is an error of the database, which counts as a lost lease.
    src/internal/swarm/module.go:140-173 Module.leaderRenewLoop *)
Definition leaderRenewLoop (m : Module_) (e : Election) (now : instant) (between : list call) (at_ : instant) (down : bool) : Module_ * Election :=
  if negb (renewing m) then (m, e)
  else
    match (if down then (false, e) else Renew e (mHost m) now between at_ leaderLeaseDuration) with
    | (true, e) => (m, e)
    | (false, e) => ({| mEnabled := mEnabled m; mHost := mHost m; isLeader := false; renewing := false; agentsStopped := true;
                        heartbeat := false |}, e)
    end.

(** src/internal/swarm/module.go:190-204 Module.Stop *)
Definition StopModule (m : Module_) (elector : bool) (e : Election) (session : nat) : Module_ * Election :=
  ({| mEnabled := mEnabled m; mHost := mHost m; isLeader := isLeader m; renewing := false; agentsStopped := true; heartbeat := false |},
   if isLeader m && elector then Resign e (mHost m) session else e).

(** Whether the connection handler takes an agent: it asks the server, not the leadership.
    src/internal/swarm/module.go:84-87 Module.Init.route *)
Definition accepts_agents (m : Module_) : bool := mEnabled m && negb (agentsStopped m).

Inductive tick := Tick (now : instant) (between : list call) (at_ : instant) (down : bool) | Halt (session : nat).

Definition module_step (s : Module_ * Election) (t : tick) : Module_ * Election :=
  match t with Tick now between at_ down => leaderRenewLoop s.1 s.2 now between at_ down | Halt n => StopModule s.1 true s.2 n end.

(** An instance that lost its election serves agents all the same, beside the leader, and never
    tries again: no tick makes it the leader. *)
Theorem follower_never_leads_and_serves m e session now ts :
  mEnabled m = true → agentsStopped m = false → renewing m = false → isLeader m = false →
  (Elect e (mHost m) session now leaderLeaseDuration).1 ≠ Won → (∀ n, Halt n ∉ ts) →
  let s := foldl module_step (Start m true e session now) ts in
  isLeader s.1 = false ∧ accepts_agents s.1 = true.
Proof.
  intros Hen Hst Hre Hl Hel Hts. unfold Start, startWithElection. rewrite Hen. cbn [negb].
  destruct (Elect e (mHost m) session now leaderLeaseDuration) as [v e'] eqn:E. cbn in Hel.
  assert (match v with Won => (startMaster (lead m true), e') | _ => (m, e') end = (m, e')) as -> by by destruct v.
  cbv zeta. assert (∀ e0, ∃ e1, foldl module_step (m, e0) ts = (m, e1)) as Hfold.
  { induction ts as [|[t cs a d|n] ts IH]; intros e0; [by exists e0| |exfalso; by apply (Hts n), list_elem_of_here].
    cbn [foldl module_step fst snd]. unfold leaderRenewLoop. rewrite Hre. cbn [negb]. apply IH. intros n Hn.
    apply (Hts n). by right. }
  destruct (Hfold e') as (e1 & ->). unfold accepts_agents. cbn. by rewrite Hen, Hst.
Qed.

(** One failed renewal, or one error of the database, ends the leadership for good: the agents'
    server is closed and the loop is over, whatever ticks follow. *)
Theorem lost_lease_ends_leadership m e now between at_ ts :
  renewing m = true → held e (mHost m) now = false →
  let s := foldl module_step (leaderRenewLoop m e now between at_ false) ts in
  isLeader s.1 = false ∧ accepts_agents s.1 = false ∧ heartbeat s.1 = false.
Proof.
  intros Hr Hh. unfold leaderRenewLoop, Renew, renew_check. rewrite Hr, Hh. cbn [negb]. cbv zeta.
  assert (∀ l s, isLeader s.1 = false ∧ renewing s.1 = false ∧ agentsStopped s.1 = true ∧ heartbeat s.1 = false →
    isLeader (foldl module_step s l).1 = false ∧ accepts_agents (foldl module_step s l).1 = false ∧
    heartbeat (foldl module_step s l).1 = false) as Hfold; [|by apply Hfold].
  induction l as [|[t cs a d|n] l IH]; intros s (H1 & H2 & H3 & H4); cbn [foldl module_step].
  - unfold accepts_agents. by rewrite H1, H3, H4, andb_false_r.
  - apply IH. unfold leaderRenewLoop. by rewrite H2.
  - apply IH. cbn. by rewrite H1.
Qed.

Definition follower (h : string) : Module_ :=
  {| mEnabled := true; mHost := h; isLeader := false; renewing := false; agentsStopped := false; heartbeat := false |}.

Lemma follower_never_leads_and_serves_witness :
  accepts_agents (foldl module_step
    (Start (follower "b") true {| row := Some {| holder := "a"; expires := 20 |}; lock := [] |} 1 10) [Tick 1000 [] 1000 false]).1 = true.
Proof.
  refine (proj2 (follower_never_leads_and_serves (follower "b") {| row := Some {| holder := "a"; expires := 20 |}; lock := [] |} 1 10
    [Tick 1000 [] 1000 false] eq_refl eq_refl eq_refl eq_refl _ _)); [discriminate|].
  intros n Hn. apply list_elem_of_singleton in Hn. discriminate.
Defined.

Lemma lost_lease_ends_leadership_witness :
  accepts_agents (foldl module_step (leaderRenewLoop (startMaster (lead (follower "a") true)) no_election 7 [] 7 false) [Tick 8 [] 8 false]).1 = false.
Proof.
  exact (proj1 (proj2 (lost_lease_ends_leadership (startMaster (lead (follower "a") true)) no_election 7 [] 7 [Tick 8 [] 8 false] eq_refl eq_refl))).
Defined.

End Leader.
