(* ===== verification/Swarm.v ===== *)
(** * Swarm: the master's connections to its agents ([internal/swarm], [core/agent.go])

    The master keeps one connection per server, routes every answer to the request that waits
    for it, and drops what is silent for too long.  Read loops, requests, the heartbeat and
    the shutdown run side by side: each critical section is one step of a shared state, and
    channels and connections are shared objects named by their number.  The frames of the
    protocol and the agent's dispatch are functions. *)

From S2P Require Import Prelude GoStrings KVStore.
#[local] Open Scope Z_scope.

Module Swarm.
Import KV.

(** ** Messages *)

(** src/internal/core/agent.go:25-31 AgentMessage *)
Record AgentMessage := { mID : string; mType : string; mServerID : string; mTime : instant; Payload : json }.

(** src/internal/core/agent.go:65-76 AgentInfo *)
Record AgentInfo := {
  iServerID : string; Hostname : string; IPAddress : string; OS : string; Arch : string; DockerVersion : string;
  AgentVersion : string; CPUCores : Z; RAMMB : Z; DiskMB : Z }.

(** src/internal/core/agent.go:79-91 ServerMetrics *)
Record ServerMetrics := {
  sServerID : string; sTimestamp : instant; CPUPercent : SpecFloat.spec_float; RAMUsedMB : Z; RAMTotalMB : Z;
  DiskUsedMB : Z; DiskTotalMB : Z; NetworkRxMB : Z; NetworkTxMB : Z; LoadAvg : list SpecFloat.spec_float; Containers : Z }.

Definition f_zero : SpecFloat.spec_float := SpecFloat.S754_zero false.

(** A [[3]float64]: missing items are zero, further ones are dropped. *)
Definition read_three (k : string) (fs : list (string * json)) : option (list SpecFloat.spec_float) :=
  match jfield k fs with
  | None | Some JNull => Some [f_zero; f_zero; f_zero]
  | Some (JArr l) =>
      xs ← mapM (λ d, read_float "x" [("x", d)] f_zero) (take 3 l);
      Some (xs ++ replicate (3 - length xs) f_zero)
  | Some _ => None
  end.

(** The members of a document; a struct reads [null] as nothing. *)
Definition members (d : json) : option (list (string * json)) :=
  match d with JObj fs => Some fs | JNull => Some [] | _ => None end.

(** src/internal/swarm/server.go:820-837 decodePayload *)
Definition decode_metrics (d : json) : option ServerMetrics :=
  fs ← members d;
  id ← read_str "server_id" fs ""; t ← read_time "timestamp" fs zero_time;
  cpu ← read_float "cpu_percent" fs f_zero; ru ← read_int "ram_used_mb" fs 0; rt ← read_int "ram_total_mb" fs 0;
  du ← read_int "disk_used_mb" fs 0; dt ← read_int "disk_total_mb" fs 0; nr ← read_int "network_rx_mb" fs 0;
  nt ← read_int "network_tx_mb" fs 0; la ← read_three "load_avg" fs; n ← read_int "containers" fs 0;
  Some {| sServerID := id; sTimestamp := t; CPUPercent := cpu; RAMUsedMB := ru; RAMTotalMB := rt; DiskUsedMB := du;
          DiskTotalMB := dt; NetworkRxMB := nr; NetworkTxMB := nt; LoadAvg := la; Containers := n |}.

(** src/internal/swarm/server.go:820-837 decodePayload *)
Definition decode_info (d : json) : option AgentInfo :=
  fs ← members d;
  id ← read_str "server_id" fs ""; h ← read_str "hostname" fs ""; ip ← read_str "ip_address" fs "";
  os ← read_str "os" fs ""; ar ← read_str "arch" fs ""; dv ← read_str "docker_version" fs "";
  av ← read_str "agent_version" fs ""; cores ← read_int "cpu_cores" fs 0; ram ← read_int "ram_mb" fs 0;
  disk ← read_int "disk_mb" fs 0;
  Some {| iServerID := id; Hostname := h; IPAddress := ip; OS := os; Arch := ar; DockerVersion := dv;
          AgentVersion := av; CPUCores := cores; RAMMB := ram; DiskMB := disk |}.

(** src/internal/swarm/server.go:430-445 tryDecodeServerMetrics *)
Definition tryDecodeServerMetrics (d : json) : option ServerMetrics :=
  match d with
  | JNull => None
  | _ => m ← decode_metrics d; if decide (sServerID m = "") then None else Some m
  end.

(** ** Frames *)

Definition maxAgentMessageBytes : nat := Z.to_nat (2 ^ 23).
Definition newline : ascii := "010"%char.

(** [bufio.Reader.ReadSlice] at a newline: the part read, what stopped it and the rest. *)
Inductive slice_end := Delimiter | BufferFull | EOF.

Fixpoint ReadSlice (size : nat) (l : list ascii) : list ascii * slice_end * list ascii :=
  match size, l with
  | O, _ => ([], BufferFull, l)
  | _, [] => ([], EOF, [])
  | S size, c :: l =>
      if decide (c = newline) then ([c], Delimiter, l)
      else let '(part, e, rest) := ReadSlice size l in (c :: part, e, rest)
  end.

Inductive frame_error := TooLong | Ended.

(** [size] is the size of the buffer, [max] the limit; each turn but the last reads a full buffer.
    src/internal/swarm/protocol.go:47-69 agentProtocolDecoder.readFrame *)
Fixpoint read_frame (fuel size max : nat) (frame l : list ascii) : result frame_error (string * list ascii) :=
  match fuel with
  | O => Err Ended
  | S fuel =>
      let '(part, e, rest) := ReadSlice size l in
      if decide (part ≠ [] ∧ (max < length frame + length part)%nat) then Err TooLong
      else
        let frame := frame ++ part in
        match e with
        | Delimiter => Ok (TrimSpace (str frame), rest)
        | BufferFull => read_frame fuel size max frame rest
        | EOF => if decide (frame = []) then Err Ended else Ok (TrimSpace (str frame), rest)
        end
  end.

Definition readFrame (size : nat) (l : list ascii) : result frame_error (string * list ascii) :=
  read_frame (S (length l)) size maxAgentMessageBytes [] l.

(** ** The state of the master *)

(** A response channel holds one message. *)
Inductive chan := Empty | Full (m : AgentMessage) | Closed.

(** Where a read loop is: a message it took from [pending] is still to be put on its channel;
    leaving, it closes the connection, then unregisters, then closes the pending requests. *)
Inductive reader := Reading | Handing (ch : nat) (m : AgentMessage) | Unregistering | Clearing | Gone.

(** src/internal/swarm/server.go:85-110 AgentConn *)
Record AgentConn := {
  ServerID : string; Info : AgentInfo; open : bool; canceled : bool; lastSeen : instant;
  lastMetrics : option ServerMetrics; pending : gmap string nat; loop : reader; inbox : list AgentMessage }.

Inductive send_result := Got (m : AgentMessage) | AgentError (m : AgentMessage) | SendFailed | Disconnected | TimedOut.

(** Where a request is: registered, sent and waiting, or over. *)
Inductive phase := Registered | Waiting | Over (r : send_result).

Record request := { rConn : nat; rMsg : AgentMessage; rChan : nat; rPhase : phase }.

Inductive sw_event :=
| EConnected (id host ip : string) | EDisconnected (id : string) | EMetrics (d : json) | EContainer (d : json)
| EStatus (d : json) | ELogs (d : json).

(** src/internal/swarm/server.go:46-82 AgentServer *)
Record AgentServer := {
  agents : gmap string nat; conns : list AgentConn; chans : list chan; requests : list request; closed : bool;
  sent : list sw_event; crashed : bool; interval : duration; dead : duration }.

Definition defaultHeartbeatInterval : duration := 30 * Second.
Definition defaultHeartbeatDead : duration := 90 * Second.

(** src/internal/swarm/server.go:162-178 NewAgentServer *)
Definition NewAgentServer : AgentServer :=
  {| agents := ∅; conns := []; chans := []; requests := []; closed := false; sent := []; crashed := false;
     interval := defaultHeartbeatInterval; dead := defaultHeartbeatDead |}.

(** src/internal/swarm/server.go:183-191 AgentServer.SetHeartbeat *)
Definition SetHeartbeat (s : AgentServer) (i d : duration) : AgentServer :=
  if (i <=? 0) || (d <=? 0) || (d <? i) then s
  else {| agents := agents s; conns := conns s; chans := chans s; requests := requests s; closed := closed s;
          sent := sent s; crashed := crashed s; interval := i; dead := d |}.

Definition with_agents (s : AgentServer) (a : gmap string nat) : AgentServer :=
  {| agents := a; conns := conns s; chans := chans s; requests := requests s; closed := closed s; sent := sent s;
     crashed := crashed s; interval := interval s; dead := dead s |}.
Definition with_conns (s : AgentServer) (l : list AgentConn) : AgentServer :=
  {| agents := agents s; conns := l; chans := chans s; requests := requests s; closed := closed s; sent := sent s;
     crashed := crashed s; interval := interval s; dead := dead s |}.
Definition with_chans (s : AgentServer) (l : list chan) : AgentServer :=
  {| agents := agents s; conns := conns s; chans := l; requests := requests s; closed := closed s; sent := sent s;
     crashed := crashed s; interval := interval s; dead := dead s |}.
Definition with_requests (s : AgentServer) (l : list request) : AgentServer :=
  {| agents := agents s; conns := conns s; chans := chans s; requests := l; closed := closed s; sent := sent s;
     crashed := crashed s; interval := interval s; dead := dead s |}.
Definition publish (s : AgentServer) (e : sw_event) : AgentServer :=
  {| agents := agents s; conns := conns s; chans := chans s; requests := requests s; closed := closed s;
     sent := sent s ++ [e]; crashed := crashed s; interval := interval s; dead := dead s |}.
Definition crash (s : AgentServer) : AgentServer :=
  {| agents := agents s; conns := conns s; chans := chans s; requests := requests s; closed := closed s; sent := sent s;
     crashed := true; interval := interval s; dead := dead s |}.
Definition shut (s : AgentServer) : AgentServer :=
  {| agents := ∅; conns := conns s; chans := chans s; requests := requests s; closed := true; sent := sent s;
     crashed := crashed s; interval := interval s; dead := dead s |}.

Definition set_conn (s : AgentServer) (c : nat) (f : AgentConn → AgentConn) : AgentServer :=
  with_conns s (alter f c (conns s)).

(** [cancel()] and [conn.Close()]. *)
Definition hang_up (a : AgentConn) : AgentConn :=
  {| ServerID := ServerID a; Info := Info a; open := false; canceled := true; lastSeen := lastSeen a;
     lastMetrics := lastMetrics a; pending := pending a; loop := loop a; inbox := inbox a |}.
Definition with_loop (r : reader) (a : AgentConn) : AgentConn :=
  {| ServerID := ServerID a; Info := Info a; open := open a; canceled := canceled a; lastSeen := lastSeen a;
     lastMetrics := lastMetrics a; pending := pending a; loop := r; inbox := inbox a |}.
Definition with_pending (p : gmap string nat) (a : AgentConn) : AgentConn :=
  {| ServerID := ServerID a; Info := Info a; open := open a; canceled := canceled a; lastSeen := lastSeen a;
     lastMetrics := lastMetrics a; pending := p; loop := loop a; inbox := inbox a |}.
Definition with_phase (p : phase) (r : request) : request :=
  {| rConn := rConn r; rMsg := rMsg r; rChan := rChan r; rPhase := p |}.

(** ** Connecting *)

(** src/internal/swarm/server.go:202-210 AgentServer.HandleConnect.token *)
Definition authorized (expected header query : string) : bool :=
  let token := if decide (header = "") then query else header in
  negb (bool_decide (token = "")) && bool_decide (token = expected).

Definition new_conn (info : AgentInfo) (now : instant) : AgentConn :=
  {| ServerID := iServerID info; Info := info; open := true; canceled := false; lastSeen := now; lastMetrics := None;
     pending := ∅; loop := Reading; inbox := [] |}.

(** The registration, after the first message was read.
    src/internal/swarm/server.go:264-310 AgentServer.HandleConnect.register *)
Definition register (s : AgentServer) (info : AgentInfo) (now : instant) : AgentServer :=
  if closed s then s
  else
    let s := match agents s !! iServerID info with Some old => set_conn s old hang_up | None => s end in
    let s := with_agents s (<[iServerID info := length (conns s)]> (agents s)) in
    publish (with_conns s (conns s ++ [new_conn info now])) (EConnected (iServerID info) (Hostname info) (IPAddress info)).

(** ** The read loop *)

(** [touch], and [setLastMetrics] when the payload is a report. *)
Definition seen (now : instant) (m : option ServerMetrics) (msg : AgentMessage) (a : AgentConn) : AgentConn :=
  {| ServerID := ServerID a; Info := Info a; open := open a; canceled := canceled a; lastSeen := now;
     lastMetrics := match m with Some _ => m | None => lastMetrics a end; pending := pending a; loop := loop a;
     inbox := inbox a ++ [msg] |}.

Definition is_answer (t : string) : bool := bool_decide (t ∈ ["pong"; "result"; "error"]).

(** The metrics a message carries: pongs are not looked at.
    src/internal/swarm/server.go:383-387 AgentServer.handleAgentMessage.metrics *)
Definition reported (m : AgentMessage) : option ServerMetrics :=
  if decide (mType m ∈ ["result"; "error"; "metrics.report"]) then tryDecodeServerMetrics (Payload m) else None.

Definition event_of (m : AgentMessage) : option sw_event :=
  if decide (mType m = "metrics.report") then Some (EMetrics (Payload m))
  else if decide (mType m = "container.event") then Some (EContainer (Payload m))
  else if decide (mType m = "server.status") then Some (EStatus (Payload m))
  else if decide (mType m = "log.stream") then Some (ELogs (Payload m))
  else None.

(** A message is read and dispatched, up to the channel it goes to.
    src/internal/swarm/server.go:356-425 AgentServer.handleAgentMessage *)
Definition take_message (s : AgentServer) (c : nat) (m : AgentMessage) (now : instant) : AgentServer :=
  match conns s !! c with
  | None => s
  | Some a =>
      let s := set_conn s c (seen now (reported m) m) in
      if is_answer (mType m) then
        match pending a !! mID m with
        | Some ch => set_conn s c (λ a, with_loop (Handing ch m) (with_pending (delete (mID m) (pending a)) a))
        | None => s
        end
      else match event_of m with Some e => publish s e | None => s end
  end.

(** [ch <- msg]: on a closed channel a panic, on a full one the loop stays where it is.
    src/internal/swarm/server.go:395-397 AgentServer.handleAgentMessage.send *)
Definition put_message (s : AgentServer) (c ch : nat) (m : AgentMessage) : AgentServer :=
  match chans s !! ch with
  | Some Empty => set_conn (with_chans s (<[ch := Full m]> (chans s))) c (with_loop Reading)
  | Some Closed => crash s
  | _ => s
  end.

(** The three parts of leaving.
    src/internal/swarm/server.go:449-450 AgentServer.removeAgent.close *)
Definition leave (s : AgentServer) (c : nat) : AgentServer := set_conn s c (λ a, with_loop Unregistering (hang_up a)).

(** src/internal/swarm/server.go:452-454 AgentServer.removeAgent.unregister *)
Definition unregister (s : AgentServer) (c : nat) : AgentServer :=
  match conns s !! c with
  | None => s
  | Some a => set_conn (with_agents s (delete (ServerID a) (agents s))) c (with_loop Clearing)
  end.

(** src/internal/swarm/server.go:456-482 AgentServer.removeAgent.clear *)
Definition clear (s : AgentServer) (c : nat) : AgentServer :=
  match conns s !! c with
  | None => s
  | Some a =>
      let s := with_chans s (foldr (λ ch l, <[ch := Closed]> l) (chans s) (map_to_list (pending a)).*2) in
      publish (set_conn s c (λ a, with_loop Gone (with_pending ∅ a))) (EDisconnected (ServerID a))
  end.

(** ** Requests *)

(** src/internal/swarm/server.go:487-492 AgentServer.Send.begin *)
Definition send_begin (s : AgentServer) (c : nat) (m : AgentMessage) : AgentServer :=
  let ch := length (chans s) in
  let s := with_chans s (chans s ++ [Empty]) in
  let s := set_conn s c (λ a, with_pending (<[mID m := ch]> (pending a)) a) in
  with_requests s (requests s ++ [{| rConn := c; rMsg := m; rChan := ch; rPhase := Registered |}]).

Definition set_phase (s : AgentServer) (i : nat) (p : phase) : AgentServer :=
  with_requests s (alter (with_phase p) i (requests s)).

Definition forget (s : AgentServer) (r : request) : AgentServer :=
  set_conn s (rConn r) (λ a, with_pending (delete (mID (rMsg r)) (pending a)) a).

(** Writing the message; a closed connection refuses it.
    src/internal/swarm/server.go:494-504 AgentServer.Send.encode *)
Definition send_encode (s : AgentServer) (i : nat) (ok : bool) : AgentServer :=
  match requests s !! i with
  | Some r =>
      match conns s !! rConn r with
      | Some a => if open a && ok then set_phase s i Waiting else set_phase (forget s r) i (Over SendFailed)
      | None => s
      end
  | None => s
  end.

(** src/internal/swarm/server.go:508-516 AgentServer.Send.receive *)
Definition send_receive (s : AgentServer) (i : nat) : AgentServer :=
  match requests s !! i with
  | Some r =>
      match chans s !! rChan r with
      | Some (Full m) => set_phase s i (Over (if decide (mType m = "error") then AgentError m else Got m))
      | Some Closed => set_phase s i (Over Disconnected)
      | _ => s
      end
  | None => s
  end.

(** src/internal/swarm/server.go:517-522 AgentServer.Send.timeout *)
Definition send_timeout (s : AgentServer) (i : nat) : AgentServer :=
  match requests s !! i with
  | Some r => set_phase (forget s r) i (Over TimedOut)
  | None => s
  end.

(** ** Heartbeat and shutdown *)

(** src/internal/swarm/server.go:728-740 AgentServer.heartbeatTick.check *)
Definition check_dead (s : AgentServer) (c : nat) (now : instant) : AgentServer :=
  match conns s !! c with
  | Some a => if dead s <? time_sub now (lastSeen a) then set_conn s c hang_up else s
  | None => s
  end.

(** The connections a sweep looks at, and those it pings.
    src/internal/swarm/server.go:716-779 AgentServer.heartbeatTick *)
Definition heartbeatTick (s : AgentServer) (now : instant) : AgentServer * list nat :=
  let snapshot := (map_to_list (agents s)).*2 in
  (foldl (λ s c, check_dead s c now) s snapshot,
   if closed s then []
   else filter (λ c, match conns s !! c with
                     | Some a => time_sub now (lastSeen a) <=? dead s
                     | None => false
                     end = true) snapshot).

(** src/internal/swarm/server.go:636-658 AgentServer.Stop *)
Definition Stop (s : AgentServer) : AgentServer :=
  shut (foldl (λ s c, set_conn s c hang_up) s (map_to_list (agents s)).*2).

(** ** Queries *)

Inductive executor := LocalExecutor | RemoteExecutor (c : nat).

(** src/internal/swarm/server.go:548-561 AgentServer.Get *)
Definition Get (s : AgentServer) (local : option string) (id : string) : option executor :=
  if decide (local = Some id) then Some LocalExecutor else RemoteExecutor <$> agents s !! id.

(** src/internal/swarm/server.go:569-581 AgentServer.All *)
Definition All (s : AgentServer) (local : option string) : list string :=
  option_list local ++ (map_to_list (agents s)).*1.

(** src/internal/swarm/server.go:598-607 AgentServer.ConnectedAgents *)
Definition ConnectedAgents (s : AgentServer) : list AgentInfo :=
  omap (λ c, Info <$> conns s !! c) (map_to_list (agents s)).*2.

(** src/internal/swarm/server.go:782-789 AgentHealth *)
Record AgentHealth := {
  hServerID : string; hInfo : AgentInfo; hLastSeen : instant; SecondsIdle : Z; Healthy : bool;
  hMetrics : option ServerMetrics }.

Definition health_of (s : AgentServer) (now : instant) (a : AgentConn) : AgentHealth :=
  {| hServerID := ServerID a; hInfo := Info a; hLastSeen := lastSeen a;
     SecondsIdle := Z.quot (time_sub now (lastSeen a)) Second; Healthy := time_sub now (lastSeen a) <=? dead s;
     hMetrics := lastMetrics a |}.

(** The inner loop: an item moves left past greater ones.  The sorted part is kept reversed.
    src/internal/swarm/server.go:810-815 AgentServer.Snapshot.sort *)
Fixpoint sink (x : AgentHealth) (sorted : list AgentHealth) : list AgentHealth :=
  match sorted with
  | [] => [x]
  | y :: ys => if String.ltb (hServerID x) (hServerID y) then y :: sink x ys else x :: sorted
  end.

(** src/internal/swarm/server.go:793-817 AgentServer.Snapshot *)
Definition Snapshot (s : AgentServer) (now : instant) : list AgentHealth :=
  reverse (foldl (λ acc x, sink x acc) [] (omap (λ c, health_of s now <$> conns s !! c) (map_to_list (agents s)).*2)).

(** ** Steps *)

Inductive step : AgentServer → AgentServer → Prop :=
| step_register s info now : step s (register s info now)
| step_take s c a m now :
    conns s !! c = Some a → loop a = Reading → step s (take_message s c m now)
| step_put s c a ch m :
    conns s !! c = Some a → loop a = Handing ch m → step s (put_message s c ch m)
| step_leave s c a :
    conns s !! c = Some a → loop a = Reading → step s (leave s c)
| step_unregister s c a :
    conns s !! c = Some a → loop a = Unregistering → step s (unregister s c)
| step_clear s c a :
    conns s !! c = Some a → loop a = Clearing → step s (clear s c)
| step_begin s c a m :
    conns s !! c = Some a → (∀ r, r ∈ requests s → mID (rMsg r) ≠ mID m) → step s (send_begin s c m)
| step_encode s i r ok :
    requests s !! i = Some r → rPhase r = Registered → step s (send_encode s i ok)
| step_receive s i r :
    requests s !! i = Some r → rPhase r = Waiting → step s (send_receive s i)
| step_timeout s i r :
    requests s !! i = Some r → rPhase r = Waiting → step s (send_timeout s i)
| step_heartbeat s c now : step s (check_dead s c now)
| step_stop s : step s (Stop s).

Inductive reachable : AgentServer → Prop :=
| reach_init : reachable NewAgentServer
| reach_step s s' : reachable s → step s s' → reachable s'.

(** ** The invariant *)

Definition leaving (r : reader) : bool := match r with Unregistering | Clearing | Gone => true | _ => false end.

(** What a connection holds: its pending requests and the message in the hand of its loop each
    belong to a request whose channel is empty. *)
Definition pending_ok (rs : list request) (chs : list chan) (c : nat) (a : AgentConn) : Prop :=
  ∀ id ch, pending a !! id = Some ch → ∃ r, rs !! ch = Some r ∧ rConn r = c ∧ mID (rMsg r) = id ∧ chs !! ch = Some Empty ∧
    (loop a = Gone → rPhase r ≠ Waiting).

Definition hand_ok (rs : list request) (chs : list chan) (c : nat) (a : AgentConn) : Prop :=
  ∀ ch m, loop a = Handing ch m → ∃ r, rs !! ch = Some r ∧ rConn r = c ∧ mID (rMsg r) = mID m ∧ chs !! ch = Some Empty ∧
    m ∈ inbox a ∧ pending a !! mID m = None.

Record conn_ok (rs : list request) (chs : list chan) (c : nat) (a : AgentConn) : Prop := {
  c_pending : pending_ok rs chs c a;
  c_hand : hand_ok rs chs c a;
  c_hung : leaving (loop a) = true → open a = false }.

(** An answer to a request: it has its identifier and came in on its connection. *)
Definition answers (r : request) (a : AgentConn) (m : AgentMessage) : Prop := mID m = mID (rMsg r) ∧ m ∈ inbox a.

Definition chan_ok (ch : option chan) (i : nat) (r : request) (a : AgentConn) : Prop :=
  match ch with
  | Some Empty => (∀ x, rPhase r ≠ Over x) → pending a !! mID (rMsg r) = Some i ∨ ∃ m, loop a = Handing i m
  | Some (Full m) => answers r a m
  | Some Closed => True
  | None => False
  end.

Definition phase_ok (r : request) (a : AgentConn) : Prop :=
  match rPhase r with Over (Got m) | Over (AgentError m) => answers r a m | _ => True end.

Definition req_ok (cs : list AgentConn) (chs : list chan) (i : nat) (r : request) : Prop :=
  rChan r = i ∧ ∃ a, cs !! rConn r = Some a ∧ chan_ok (chs !! i) i r a ∧ phase_ok r a.

Record inv (s : AgentServer) : Prop := {
  v_conns : ∀ c a, conns s !! c = Some a → conn_ok (requests s) (chans s) c a;
  v_reqs : ∀ i r, requests s !! i = Some r → req_ok (conns s) (chans s) i r;
  v_ids : NoDup ((λ r, mID (rMsg r)) <$> requests s);
  v_len : length (chans s) = length (requests s);
  v_agents : ∀ id c, agents s !! id = Some c → ∃ a, conns s !! c = Some a ∧ ServerID a = id;
  v_closed : closed s = true → agents s = ∅;
  v_alive : crashed s = false }.

Lemma lookup_alter_conn (f : AgentConn → AgentConn) (l : list AgentConn) c c' a :
  alter f c l !! c' = Some a ↔ ∃ b, l !! c' = Some b ∧ a = if decide (c = c') then f b else b.
Proof.
  destruct (decide (c = c')) as [<-|Hne].
  - rewrite list_lookup_alter_eq, fmap_Some. naive_solver.
  - rewrite list_lookup_alter_ne by done. naive_solver.
Qed.

(** Changes of a connection that nobody else can see: it is touched or hung up. *)
Record frame (f : AgentConn → AgentConn) : Prop := {
  f_pending : ∀ a, pending (f a) = pending a;
  f_loop : ∀ a, loop (f a) = loop a;
  f_server : ∀ a, ServerID (f a) = ServerID a;
  f_open : ∀ a, open a = false → open (f a) = false;
  f_inbox : ∀ a m, m ∈ inbox a → m ∈ inbox (f a) }.

Lemma frame_hang_up : frame hang_up.
Proof. by split. Qed.

Lemma frame_seen now x m : frame (seen now x m).
Proof. split; try done. intros a m' Hm. cbn. apply elem_of_app. by left. Qed.

Lemma chan_ok_frame f ch i r a : frame f → chan_ok ch i r a → chan_ok ch i r (f a).
Proof.
  intros Hf. unfold chan_ok, answers. rewrite (f_pending _ Hf), (f_loop _ Hf).
  destruct ch as [[]|]; try done. intros [??]. split; [done|by apply (f_inbox _ Hf)].
Qed.

Lemma phase_ok_frame f r a : frame f → phase_ok r a → phase_ok r (f a).
Proof.
  intros Hf. unfold phase_ok, answers. destruct (rPhase r) as [| |[]]; try done; intros [??]; (split; [done|by apply (f_inbox _ Hf)]).
Qed.

Lemma inv_frame s c f : frame f → inv s → inv (set_conn s c f).
Proof.
  intros Hf [Hc Hr Hid Hl Ha Hcl Hal]. split; try done; cbn [conns requests chans agents set_conn with_conns].
  - intros c' a (b & Hb & ->)%lookup_alter_conn. destruct (decide (c = c')) as [<-|]; [|by apply Hc].
    destruct (Hc c b Hb) as [Hp Hh Ho]. split.
    + intros id ch. rewrite (f_pending _ Hf), (f_loop _ Hf). apply Hp.
    + intros ch m. rewrite (f_pending _ Hf), (f_loop _ Hf). intros Hm. destruct (Hh ch m Hm) as (r & ?&?&?&?&?&?).
      exists r. split_and!; try done. by apply (f_inbox _ Hf).
    + rewrite (f_loop _ Hf). intros ?. apply (f_open _ Hf), Ho. done.
  - intros i r Hi. destruct (Hr i r Hi) as (Hch & a & Hca & Hk & Hp). split; [done|].
    destruct (decide (c = rConn r)) as [->|Hne].
    + exists (f a). rewrite list_lookup_alter_eq, Hca. split_and!; [done|by apply chan_ok_frame|by apply phase_ok_frame].
    + exists a. rewrite list_lookup_alter_ne by done. done.
  - intros id c' Hag. destruct (Ha id c' Hag) as (a & Hca & <-). destruct (decide (c = c')) as [<-|].
    + exists (f a). rewrite list_lookup_alter_eq, Hca. split; [done|apply (f_server _ Hf)].
    + exists a. by rewrite list_lookup_alter_ne.
Qed.

Lemma inv_publish s e : inv s → inv (publish s e).
Proof. by intros []. Qed.

Lemma inv_register s info now : inv s → inv (register s info now).
Proof.
  intros Hi. unfold register. destruct (closed s) eqn:Hcl; [done|].
  set (s1 := match agents s !! iServerID info with Some old => set_conn s old hang_up | None => s end).
  assert (inv s1 ∧ closed s1 = false) as [[Hc Hr Hid Hl Ha _ Hal] Hcl1].
  { unfold s1. destruct (agents s !! iServerID info); [|done]. split; [by apply inv_frame, Hi; apply frame_hang_up|done]. }
  apply inv_publish. split; try done; cbn [conns requests chans agents closed with_conns with_agents].
  - intros c a [Hca|[Hn Hca]]%lookup_app_Some; [by apply Hc|].
    apply list_lookup_singleton_Some in Hca as [_ <-]. split; [by intros ??|by intros ??|done].
  - intros i r Hri. destruct (Hr i r Hri) as (Hch & a & Hca & ?). split; [done|]. exists a. by rewrite (lookup_app_l_Some _ _ _ _ Hca).
  - intros id c. rewrite lookup_insert_Some. intros [[<- <-]|[_ Hag]].
    + exists (new_conn info now). by rewrite list_lookup_middle.
    + destruct (Ha id c Hag) as (a & Hca & ?). exists a. by rewrite (lookup_app_l_Some _ _ _ _ Hca).
  - congruence.
Qed.

(** A request is the only one with its identifier. *)
Lemma same_request s i j r r' :
  inv s → requests s !! i = Some r → requests s !! j = Some r' → mID (rMsg r) = mID (rMsg r') → i = j.
Proof.
  intros Hi Hr Hr' E. apply (NoDup_lookup _ i j (mID (rMsg r)) (v_ids s Hi)); rewrite list_lookup_fmap; [by rewrite Hr|by rewrite Hr', E].
Qed.

Lemma inv_hand s c a ch m :
  inv s → conns s !! c = Some a → loop a = Reading → pending a !! mID m = Some ch → m ∈ inbox a →
  inv (set_conn s c (λ a, with_loop (Handing ch m) (with_pending (delete (mID m) (pending a)) a))).
Proof.
  intros Hi Hca Hl Hp Hm. destruct Hi as [Hc Hr Hid Hlen Ha Hcl Hal]. split; try done; cbn [conns requests chans agents set_conn with_conns].
  - intros c' a' (b & Hb & ->)%lookup_alter_conn. destruct (decide (c = c')) as [<-|]; [|by apply Hc].
    rewrite Hca in Hb. injection Hb as <-. destruct (Hc c a Hca) as [Hpo Hho Hop]. split.
    + intros id ch'. cbn. rewrite lookup_delete_Some. intros [_ Hid']. destruct (Hpo id ch' Hid') as (r & ?&?&?&?&_). by exists r.
    + intros ch' m'. cbn. intros [= <- <-]. destruct (Hpo (mID m) ch Hp) as (r & ?&?&?&?&_). exists r.
      split_and!; try done. by rewrite lookup_delete_eq.
    + done.
  - intros i r Hri. destruct (Hr i r Hri) as (Hch & b & Hcb & Hk & Hph). split; [done|]. destruct (decide (c = rConn r)) as [->|Hne].
    + rewrite Hca in Hcb. injection Hcb as <-. eexists. rewrite list_lookup_alter_eq, Hca. split_and!; [done| |exact Hph].
      unfold chan_ok in *. destruct (chans s !! i) as [[]|]; try done. intros Hw. cbn. destruct (Hk Hw) as [Hpi|(m' & Hl')]; [|congruence].
      destruct (decide (mID m = mID (rMsg r))) as [E|E]; [right; exists m; congruence|left; by rewrite lookup_delete_ne].
    + exists b. by rewrite list_lookup_alter_ne.
  - intros id c' Hag. destruct (Ha id c' Hag) as (b & Hcb & <-). destruct (decide (c = c')) as [<-|].
    + rewrite Hca in Hcb. injection Hcb as <-. eexists. by rewrite list_lookup_alter_eq, Hca.
    + exists b. by rewrite list_lookup_alter_ne.
Qed.

Lemma inv_take s c a m now :
  inv s → conns s !! c = Some a → loop a = Reading → inv (take_message s c m now).
Proof.
  intros Hi Hca Hl. unfold take_message. rewrite Hca.
  pose proof (inv_frame s c _ (frame_seen now (reported m) m) Hi) as Hi1.
  destruct (is_answer (mType m)).
  - destruct (pending a !! mID m) as [ch|] eqn:Hp; [|done]. apply (inv_hand _ c (seen now (reported m) m a)); [done| |done|done|].
    + cbn [conns set_conn with_conns]. by rewrite list_lookup_alter_eq, Hca.
    + cbn. apply elem_of_app. right. by apply list_elem_of_singleton.
  - destruct (event_of m); [by apply inv_publish|done].
Qed.

(** The loop of a connection moves on between the parts that hold nothing. *)
Lemma inv_loop s c a r :
  inv s → conns s !! c = Some a → (∀ ch m, loop a ≠ Handing ch m) → (∀ ch m, r ≠ Handing ch m) → r ≠ Gone →
  (leaving r = true → open a = false) → inv (set_conn s c (with_loop r)).
Proof.
  intros Hi Hca Hl Hr0 Hg Ho. destruct Hi as [Hc Hr Hid Hlen Ha Hcl Hal]. split; try done; cbn [conns requests chans agents set_conn with_conns].
  - intros c' a' (b & Hb & ->)%lookup_alter_conn. destruct (decide (c = c')) as [<-|]; [|by apply Hc].
    rewrite Hca in Hb. injection Hb as <-. destruct (Hc c a Hca) as [Hpo Hho Hop]. split; [|by intros ch m ?%Hr0|done].
    intros id ch' Hp. destruct (Hpo id ch' Hp) as (x & ?&?&?&?&_). by exists x.
  - intros i x Hri. destruct (Hr i x Hri) as (Hch & b & Hcb & Hk & Hph). split; [done|]. destruct (decide (c = rConn x)) as [->|Hne].
    + rewrite Hca in Hcb. injection Hcb as <-. eexists. rewrite list_lookup_alter_eq, Hca. split_and!; [done| |exact Hph].
      unfold chan_ok in *. destruct (chans s !! i) as [[]|]; try done. intros Hw. destruct (Hk Hw) as [?|(m' & Hl')]; [by left|by apply Hl in Hl'].
    + exists b. by rewrite list_lookup_alter_ne.
  - intros id c' Hag. destruct (Ha id c' Hag) as (b & Hcb & <-). destruct (decide (c = c')) as [<-|].
    + rewrite Hca in Hcb. injection Hcb as <-. eexists. by rewrite list_lookup_alter_eq, Hca.
    + exists b. by rewrite list_lookup_alter_ne.
Qed.

Lemma alter_twice (f g : AgentConn → AgentConn) (l : list AgentConn) (c : nat) : alter (λ a, f (g a)) c l = alter f c (alter g c l).
Proof.
  apply list_eq. intros i. destruct (decide (c = i)) as [<-|].
  - rewrite !list_lookup_alter_eq. by destruct (l !! c).
  - by rewrite !list_lookup_alter_ne.
Qed.

Lemma inv_leave s c a : inv s → conns s !! c = Some a → loop a = Reading → inv (leave s c).
Proof.
  intros Hi Hca Hl. unfold leave, set_conn. rewrite (alter_twice (with_loop Unregistering) hang_up).
  change (inv (set_conn (set_conn s c hang_up) c (with_loop Unregistering))).
  apply (inv_loop _ c (hang_up a)); [by apply inv_frame; [apply frame_hang_up|]| |cbn; by rewrite Hl|done|done|done].
  cbn [conns set_conn with_conns]. by rewrite list_lookup_alter_eq, Hca.
Qed.

Lemma inv_unregister s c a : inv s → conns s !! c = Some a → loop a = Unregistering → inv (unregister s c).
Proof.
  intros Hi Hca Hl. unfold unregister. rewrite Hca.
  assert (inv (with_agents s (delete (ServerID a) (agents s)))) as Hi1.
  { destruct Hi as [Hc Hr Hid Hlen Ha Hcl Hal]. split; try done; cbn [agents with_agents closed].
    - intros id c' [_ Hag]%lookup_delete_Some. by apply Ha.
    - intros Hx. rewrite (Hcl Hx). apply delete_empty. }
  apply (inv_loop _ c a); [exact Hi1|exact Hca|by rewrite Hl|done|done|].
  intros _. apply (c_hung _ _ _ _ (v_conns s Hi c a Hca)). by rewrite Hl.
Qed.

(** Two holders of a channel are the same. *)
Lemma pending_distinct s c c' a a' id id' ch :
  inv s → conns s !! c = Some a → conns s !! c' = Some a' → pending a !! id = Some ch → pending a' !! id' = Some ch →
  c = c' ∧ id = id'.
Proof.
  intros Hi Hca Hca' Hp Hp'. destruct (c_pending _ _ _ _ (v_conns s Hi c a Hca) id ch Hp) as (r & Hr & <- & <- & _).
  destruct (c_pending _ _ _ _ (v_conns s Hi c' a' Hca') id' ch Hp') as (r' & Hr' & <- & <- & _). by simplify_eq.
Qed.

Lemma hand_distinct s c c' a a' id ch ch' m :
  inv s → conns s !! c = Some a → conns s !! c' = Some a' → loop a = Handing ch m → pending a' !! id = Some ch' → ch ≠ ch'.
Proof.
  intros Hi Hca Hca' Hl Hp <-. destruct (c_hand _ _ _ _ (v_conns s Hi c a Hca) ch m Hl) as (r & Hr & Hrc & Hid & _ & _ & Hnone).
  destruct (c_pending _ _ _ _ (v_conns s Hi c' a' Hca') id ch Hp) as (r' & Hr' & Hrc' & Hid' & _). simplify_eq. congruence.
Qed.

Lemma hands_distinct s c c' a a' ch m m' :
  inv s → conns s !! c = Some a → conns s !! c' = Some a' → loop a = Handing ch m → loop a' = Handing ch m' → c = c'.
Proof.
  intros Hi Hca Hca' Hl Hl'. destruct (c_hand _ _ _ _ (v_conns s Hi c a Hca) ch m Hl) as (r & Hr & <- & _).
  destruct (c_hand _ _ _ _ (v_conns s Hi c' a' Hca') ch m' Hl') as (r' & Hr' & <- & _). congruence.
Qed.

(** The message goes to an empty channel. *)
Lemma put_finds_room s c a ch m :
  inv s → conns s !! c = Some a → loop a = Handing ch m → chans s !! ch = Some Empty.
Proof. intros Hi Hca Hl. by destruct (c_hand _ _ _ _ (v_conns s Hi c a Hca) ch m Hl) as (r & ?&?&?&?&_). Qed.

Lemma inv_put s c a ch m :
  inv s → conns s !! c = Some a → loop a = Handing ch m → inv (put_message s c ch m).
Proof.
  intros Hi Hca Hl. unfold put_message. pose proof (put_finds_room s c a ch m Hi Hca Hl) as Hroom. rewrite Hroom.
  pose proof Hi as [Hc Hr Hid Hlen Ha Hcl Hal]. split; try done; cbn [conns requests chans agents set_conn with_conns with_chans].
  - intros c' a' (b & Hb & ->)%lookup_alter_conn. destruct (Hc c' b Hb) as [Hpo Hho Hop]. split.
    + intros id ch' Hp. assert (pending b !! id = Some ch') as Hp' by (by case_decide).
      destruct (Hpo id ch' Hp') as (r & ?&?&?&?&Hg). exists r. split_and!; try done.
      * rewrite list_lookup_insert_ne; [done|]. by eapply (hand_distinct s c c').
      * case_decide; [done|exact Hg].
    + intros ch' m'. case_decide as E; [done|]. intros Hl'. destruct (Hho ch' m' Hl') as (r & ?&?&?&?&?&?).
      exists r. split_and!; try done. rewrite list_lookup_insert_ne; [done|]. intros <-. apply E. by eapply (hands_distinct s c c').
    + case_decide; [done|exact Hop].
  - intros i r Hri. destruct (Hr i r Hri) as (Hch & b & Hcb & Hk & Hph). split; [done|].
    destruct (c_hand _ _ _ _ (Hc c a Hca) ch m Hl) as (r0 & Hr0 & Hrc0 & Hid0 & _ & Hin & _).
    exists (if decide (c = rConn r) then with_loop Reading b else b). split; [apply lookup_alter_conn; by exists b|].
    split; [|by case_decide]. destruct (decide (ch = i)) as [<-|Hne].
    + rewrite list_lookup_insert_eq by (by eapply lookup_lt_Some). simplify_eq. rewrite decide_True by done. done.
    + rewrite list_lookup_insert_ne by done. unfold chan_ok in *. destruct (chans s !! i) as [[]|]; [|by try case_decide..].
      intros Hw. destruct (Hk Hw) as [Hp|(m' & Hl')]; [left; by case_decide|]. case_decide as E; [|by right; exists m'].
      exfalso. subst. congruence.
  - by rewrite length_insert.
  - intros id c' Hag. destruct (Ha id c' Hag) as (b & Hcb & <-). eexists. split; [apply lookup_alter_conn; by exists b|]. by case_decide.
Qed.

Lemma lookup_closed (l : list nat) : ∀ (chs : list chan) i,
  foldr (λ ch l, <[ch := Closed]> l) chs l !! i =
  if decide (i ∈ l ∧ (i < length chs)%nat) then Some Closed else chs !! i.
Proof.
  induction l as [|x l IH]; intros chs i; cbn [foldr].
  { rewrite decide_False; [done|]. by intros [?%elem_of_nil _]. }
  assert (length (foldr (λ ch l, <[ch := Closed]> l) chs l) = length chs) as Hlen.
  { clear. induction l; cbn; [done|]. by rewrite length_insert. }
  destruct (decide (x = i)) as [->|Hne].
  - destruct (decide (i < length chs)%nat) as [Hlt|Hge].
    + rewrite list_lookup_insert_eq by lia. rewrite decide_True; [done|]. split; [by left|done].
    + rewrite decide_False by (by intros [_ ?]). rewrite list_insert_ge by lia. rewrite IH. rewrite decide_False; [done|]. tauto.
  - rewrite list_lookup_insert_ne by done. rewrite IH. apply decide_ext. rewrite elem_of_cons. naive_solver.
Qed.

Lemma inv_clear s c a : inv s → conns s !! c = Some a → loop a = Clearing → inv (clear s c).
Proof.
  intros Hi Hca Hl. unfold clear. rewrite Hca. apply inv_publish.
  assert (∀ ch, ch ∈ (map_to_list (pending a)).*2 ↔ ∃ id, pending a !! id = Some ch) as Hin.
  { intros ch. rewrite list_elem_of_fmap. split.
    - intros ([id x] & -> & Hx). exists id. by apply elem_of_map_to_list in Hx.
    - intros [id Hid]. exists (id, ch). by rewrite elem_of_map_to_list. }
  pose proof Hi as [Hc Hr Hid Hlen Ha Hcl Hal]. split; try done; cbn [conns requests chans agents set_conn with_conns with_chans].
  - intros c' a' (b & Hb & ->)%lookup_alter_conn. destruct (Hc c' b Hb) as [Hpo Hho Hop].
    destruct (decide (c = c')) as [<-|Hne].
    + rewrite Hca in Hb. injection Hb as <-. split; [by intros id ch|done|]. intros _. cbn. apply Hop. by rewrite Hl.
    + split; [| |done].
      * intros id ch Hp. destruct (Hpo id ch Hp) as (r & ?&?&?&?&?). exists r. split_and!; try done.
        rewrite lookup_closed, decide_False; [done|]. intros [[id' Hp']%Hin _]. by destruct (pending_distinct s c c' a b id' id ch).
      * intros ch m Hl'. destruct (Hho ch m Hl') as (r & ?&?&?&?&?&?). exists r. split_and!; try done.
        rewrite lookup_closed, decide_False; [done|]. intros [[id' Hp']%Hin _]. by apply (hand_distinct s c' c b a id' ch ch m).
  - intros i r Hri. destruct (Hr i r Hri) as (Hch & b & Hcb & Hk & Hph). split; [done|].
    exists (if decide (c = rConn r) then with_loop Gone (with_pending ∅ b) else b). split; [apply lookup_alter_conn; by exists b|].
    split; [|by case_decide]. rewrite lookup_closed. destruct (decide (i ∈ _ ∧ _)) as [_|Hno]; [done|].
    unfold chan_ok in *. destruct (chans s !! i) as [[]|] eqn:Hci; [|by try case_decide..].
    intros Hw. case_decide as E; [|by apply Hk]. subst. simplify_eq. exfalso. destruct (Hk Hw) as [Hp|(m & Hl')]; [|congruence].
    apply Hno. split; [apply Hin; by eexists|by eapply lookup_lt_Some].
  - rewrite <- Hlen. clear. induction (map_to_list (pending a)).*2; cbn; [done|]. by rewrite length_insert.
  - intros id c' Hag. destruct (Ha id c' Hag) as (b & Hcb & <-). eexists. split; [apply lookup_alter_conn; by exists b|]. by case_decide.
Qed.

Lemma inv_begin s c a m :
  inv s → conns s !! c = Some a → (∀ r, r ∈ requests s → mID (rMsg r) ≠ mID m) → inv (send_begin s c m).
Proof.
  intros Hi Hca Hfresh. unfold send_begin. pose proof Hi as [Hc Hr Hid Hlen Ha Hcl Hal].
  assert (∀ i r, requests s !! i = Some r → mID (rMsg r) ≠ mID m) as Hnew by (intros i r Hri; by eapply Hfresh, list_elem_of_lookup_2).
  split; try done; cbn [conns requests chans agents set_conn with_conns with_chans with_requests].
  - intros c' a' (b & Hb & ->)%lookup_alter_conn. destruct (Hc c' b Hb) as [Hpo Hho Hop]. split.
    + intros id ch Hp. assert ((id = mID m ∧ ch = length (chans s) ∧ c = c') ∨ pending b !! id = Some ch) as [(-> & -> & <-)|Hp'].
      { case_decide; [|by right]. cbn in Hp. apply lookup_insert_Some in Hp as [[<- <-]|[_ ?]]; [by left|by right]. }
      * eexists. rewrite Hlen at 1. rewrite list_lookup_middle by done. split_and!; try done. by rewrite list_lookup_middle.
      * destruct (Hpo id ch Hp') as (r & Hrr & ?&?&?&?). exists r. rewrite (lookup_app_l_Some _ _ _ _ Hrr).
        split_and!; try done; [by apply lookup_app_l_Some|]. by case_decide.
    + intros ch m' Hl'. assert (loop b = Handing ch m') as Hl by (by case_decide). destruct (Hho ch m' Hl) as (r & Hrr & ?&Hidr&?&?&?).
      exists r. rewrite (lookup_app_l_Some _ _ _ _ Hrr). split_and!; try done; [by apply lookup_app_l_Some|by case_decide|].
      case_decide; [|done]. cbn. rewrite lookup_insert_ne; [done|]. rewrite <- Hidr. intros E. by apply (Hnew _ _ Hrr).
    + case_decide; [exact Hop|exact Hop].
  - intros i r [Hri|[Hge Hri]]%lookup_app_Some.
    + destruct (Hr i r Hri) as (Hch & b & Hcb & Hk & Hph). split; [done|]. eexists. split; [apply lookup_alter_conn; by exists b|].
      split; [|by case_decide]. destruct (chans s !! i) as [x|] eqn:Hx; [|done]. rewrite (lookup_app_l_Some _ _ _ _ Hx).
      unfold chan_ok in *. destruct x; [|by try case_decide..]. intros Hw. destruct (Hk Hw) as [Hp|(m' & Hl)]; [left|right; exists m'; by case_decide].
      case_decide; [|done]. cbn. rewrite lookup_insert_ne; [done|]. intros E. by apply (Hnew _ _ Hri).
    + apply list_lookup_singleton_Some in Hri as [Hi0 <-]. assert (i = length (chans s)) as -> by lia. split; [done|].
      cbn [rConn]. eexists. split; [apply lookup_alter_conn; by exists a|]. split; [|done].
      rewrite list_lookup_middle by done. cbn. intros _. left. rewrite decide_True by done. cbn. by rewrite lookup_insert_eq.
  - rewrite fmap_app. apply NoDup_app. split_and!; [done| |apply NoDup_singleton].
    intros x (r & -> & Hx)%list_elem_of_fmap Hy. apply list_elem_of_singleton in Hy. by apply (Hfresh r Hx).
  - rewrite !length_app. cbn. lia.
  - intros id c' Hag. destruct (Ha id c' Hag) as (b & Hcb & <-). eexists. split; [apply lookup_alter_conn; by exists b|]. by case_decide.
Qed.

Lemma lookup_alter_req (f : request → request) (l : list request) i j r :
  alter f i l !! j = Some r ↔ ∃ b, l !! j = Some b ∧ r = if decide (i = j) then f b else b.
Proof.
  destruct (decide (i = j)) as [<-|Hne].
  - rewrite list_lookup_alter_eq, fmap_Some. naive_solver.
  - rewrite list_lookup_alter_ne by done. naive_solver.
Qed.

Lemma ids_alter i p (l : list request) :
  (λ r, mID (rMsg r)) <$> alter (with_phase p) i l = (λ r, mID (rMsg r)) <$> l.
Proof.
  apply list_eq. intros j. rewrite !list_lookup_fmap. destruct (decide (i = j)) as [<-|].
  - rewrite list_lookup_alter_eq. by destruct (l !! i).
  - by rewrite list_lookup_alter_ne.
Qed.

(** A request changes its phase: the new phase is right for its channel, and a connection whose
    loop is gone holds only requests that were not sent. *)
Lemma inv_phase s i r p :
  inv s → requests s !! i = Some r →
  (∀ a, conns s !! rConn r = Some a → phase_ok (with_phase p r) a) →
  (∀ a, conns s !! rConn r = Some a → pending a !! mID (rMsg r) = Some i → loop a = Gone → p ≠ Waiting) →
  ((∀ x, p ≠ Over x) → ∀ x, rPhase r ≠ Over x) →
  inv (set_phase s i p).
Proof.
  intros Hi Hri Hphase Hgone Hover. pose proof Hi as [Hc Hr Hid Hlen Ha Hcl Hal].
  split; try done; cbn [conns requests chans agents set_phase with_requests].
  - intros c a Hca. destruct (Hc c a Hca) as [Hpo Hho Hop]. split; [| |done].
    + intros id ch Hp. destruct (Hpo id ch Hp) as (x & Hx & Hxc & Hxi & He & Hg). eexists.
      split; [apply lookup_alter_req; by exists x|]. destruct (decide (i = ch)) as [<-|]; [|done].
      simplify_eq. split_and!; try done. cbn. intros HG. by apply (Hgone a).
    + intros ch m Hl. destruct (Hho ch m Hl) as (x & Hx & Hrest). eexists.
      split; [apply lookup_alter_req; by exists x|]. by case_decide.
  - intros j x (b & Hb & ->)%lookup_alter_req. destruct (Hr j b Hb) as (Hch & a & Hca & Hk & Hph).
    destruct (decide (i = j)) as [<-|]; [|split; [done|by exists a]]. rewrite Hri in Hb. injection Hb as <-. split; [done|]. exists a.
    split_and!; [done| |by apply Hphase]. unfold chan_ok in *. destruct (chans s !! i) as [[]|]; try done. cbn. intros Hw. apply Hk, Hover, Hw.
  - by rewrite ids_alter.
  - by rewrite length_alter.
Qed.

(** A request that is over leaves the map. *)
Lemma inv_forget s i r x : inv s → requests s !! i = Some r → rPhase r = Over x → inv (forget s r).
Proof.
  intros Hi Hri Hx. unfold forget. pose proof Hi as [Hc Hr Hid Hlen Ha Hcl Hal].
  split; try done; cbn [conns requests chans agents set_conn with_conns].
  - intros c a (b & Hb & ->)%lookup_alter_conn. destruct (Hc c b Hb) as [Hpo Hho Hop]. destruct (decide (rConn r = c)) as [<-|]; [|done]. split.
    + intros id ch. cbn. intros [_ Hp]%lookup_delete_Some. by apply Hpo.
    + intros ch m Hl. destruct (Hho ch m Hl) as (y & ?&?&?&?&?&Hn). exists y. split_and!; try done. cbn. by rewrite lookup_delete_None; right.
    + done.
  - intros j y Hy. destruct (Hr j y Hy) as (Hch & a & Hca & Hk & Hph). split; [done|]. eexists.
    split; [apply lookup_alter_conn; by exists a|]. split; [|by case_decide].
    unfold chan_ok in *. destruct (chans s !! j) as [[]|]; [|by try case_decide..]. intros Hw. case_decide as E; [|by apply Hk]. cbn.
    destruct (Hk Hw) as [Hp|Hl]; [left|by right]. rewrite lookup_delete_ne; [done|]. intros E'.
    assert (i = j) as -> by (by eapply same_request). simplify_eq. by apply (Hw x).
  - intros id c Hag. destruct (Ha id c Hag) as (b & Hcb & <-). eexists. split; [apply lookup_alter_conn; by exists b|]. by case_decide.
Qed.

Lemma forget_phase s i r p : set_phase (forget s r) i p = forget (set_phase s i p) (with_phase p r).
Proof. done. Qed.

Lemma inv_over s i r x :
  inv s → requests s !! i = Some r → (∀ m, x ≠ Got m ∧ x ≠ AgentError m) → inv (set_phase (forget s r) i (Over x)).
Proof.
  intros Hi Hri Hx. rewrite forget_phase.
  assert (inv (set_phase s i (Over x))) as Hi1.
  { apply (inv_phase s i r); try done.
    - intros a _. unfold phase_ok. cbn. destruct x as [m|m| | |]; [by destruct (Hx m)|by destruct (Hx m)|done..].
    - intros Hno. by destruct (Hno x). }
  eapply (inv_forget _ i); [done| |done]. cbn. by rewrite list_lookup_alter_eq, Hri.
Qed.

Lemma inv_encode s i r ok : inv s → requests s !! i = Some r → rPhase r = Registered → inv (send_encode s i ok).
Proof.
  intros Hi Hri Hp. unfold send_encode. rewrite Hri. destruct (conns s !! rConn r) as [a|] eqn:Hca; [|done].
  destruct (open a && ok) eqn:Ho; [|by apply inv_over]. apply andb_true_iff in Ho as [Ho _].
  apply (inv_phase s i r); try done.
  - intros a' Ha' _ Hg. rewrite Hca in Ha'. injection Ha' as <-. exfalso.
    pose proof (c_hung _ _ _ _ (v_conns s Hi _ a Hca)) as Hh. rewrite Hg in Hh. rewrite Hh in Ho by done. done.
  - intros _ x. by rewrite Hp.
Qed.

Lemma inv_receive s i r : inv s → requests s !! i = Some r → rPhase r = Waiting → inv (send_receive s i).
Proof.
  intros Hi Hri Hp. unfold send_receive. rewrite Hri. destruct (v_reqs s Hi i r Hri) as (Hch & a & Hca & Hk & _). rewrite Hch.
  destruct (chans s !! i) as [[|m|]|] eqn:Hx; try done; apply (inv_phase s i r); try done.
  - intros a' Ha'. rewrite Hca in Ha'. injection Ha' as <-. unfold phase_ok. cbn. by case_decide.
  - intros Hno. exfalso. by eapply Hno.
  - intros Hno. exfalso. by eapply Hno.
Qed.

Lemma inv_Stop s : inv s → inv (Stop s).
Proof.
  intros Hi. unfold Stop. assert (∀ l s, inv s → inv (foldl (λ s c, set_conn s c hang_up) s l)) as Hfold.
  { induction l as [|c l IH]; intros s' Hs'; [done|]. cbn. apply IH, inv_frame; [apply frame_hang_up|done]. }
  destruct (Hfold (map_to_list (agents s)).*2 s Hi) as [Hc Hr Hid Hlen Ha Hcl Hal]. by split.
Qed.

Lemma inv_step s s' : inv s → step s s' → inv s'.
Proof.
  intros Hi Hstep. destruct Hstep.
  - by apply inv_register.
  - by eapply inv_take.
  - by eapply inv_put.
  - by eapply inv_leave.
  - by eapply inv_unregister.
  - by eapply inv_clear.
  - by eapply inv_begin.
  - by eapply inv_encode.
  - by eapply inv_receive.
  - unfold send_timeout. rewrite H. by apply inv_over.
  - unfold check_dead. destruct (conns s !! c); [|done]. destruct (_ <? _); [|done]. apply inv_frame; [apply frame_hang_up|done].
  - by apply inv_Stop.
Qed.

Lemma reachable_inv s : reachable s → inv s.
Proof.
  induction 1 as [|s s' _ IH Hstep]; [|by eapply inv_step]. split; try done; try (intros ??; rewrite lookup_nil; done).
  apply NoDup_nil_2.
Qed.

(** ** Requests and answers *)

(** C15. However connections, requests, the heartbeat and the shutdown interleave, no loop ever sends
    on a closed or a full channel, an answer goes to the request with its identifier on the
    connection it came in on, and the registry names only connections of the right server. *)
Theorem answers_reach_their_requests s :
  reachable s →
  crashed s = false ∧
  (∀ c a ch m, conns s !! c = Some a → loop a = Handing ch m → chans s !! ch = Some Empty) ∧
  (∀ i r m, requests s !! i = Some r → rPhase r = Over (Got m) ∨ rPhase r = Over (AgentError m) →
     ∃ a, conns s !! rConn r = Some a ∧ mID m = mID (rMsg r) ∧ m ∈ inbox a) ∧
  (∀ id c, agents s !! id = Some c → ∃ a, conns s !! c = Some a ∧ ServerID a = id).
Proof.
  intros Hi%reachable_inv. split_and!; [apply (v_alive s Hi)| | |apply (v_agents s Hi)].
  - intros c a ch m. by apply put_finds_room.
  - intros i r m Hri Hm. destruct (v_reqs s Hi i r Hri) as (_ & a & Hca & _ & Hph). exists a. split; [done|].
    unfold phase_ok in Hph. by destruct Hm as [Hm|Hm]; rewrite Hm in Hph.
Qed.

(** C16. A request whose connection is gone does not wait: its channel holds its answer or is closed. *)
Theorem no_request_waits_for_a_lost_agent s i r a :
  reachable s → requests s !! i = Some r → rPhase r = Waiting → conns s !! rConn r = Some a → loop a = Gone →
  ∃ x, rPhase <$> requests (send_receive s i) !! i = Some (Over x).
Proof.
  intros Hi%reachable_inv Hri Hw Hca Hg. unfold send_receive. rewrite Hri.
  destruct (v_reqs s Hi i r Hri) as (-> & b & Hcb & Hk & _). rewrite Hca in Hcb. injection Hcb as <-.
  destruct (chans s !! i) as [[|m|]|]; [exfalso| | |done].
  - destruct Hk as [Hp|(m & Hl)]; [intros x; congruence| |congruence].
    destruct (c_pending _ _ _ _ (v_conns s Hi _ a Hca) _ _ Hp) as (y & Hy & _ & _ & _ & Hno). simplify_eq. by apply Hno.
  - eexists. cbn. by rewrite list_lookup_alter_eq, Hri.
  - eexists. cbn. by rewrite list_lookup_alter_eq, Hri.
Qed.

(** ** Reconnection *)

Lemma hang_up_others (l : list nat) c : ∀ s, c ∉ l → conns (foldl (λ s c, set_conn s c hang_up) s l) !! c = conns s !! c.
Proof.
  induction l as [|x l IH]; intros s Hl; [done|]. apply not_elem_of_cons in Hl as [Hx Hl]. cbn [foldl]. rewrite IH by done.
  cbn [conns set_conn with_conns]. by rewrite list_lookup_alter_ne.
Qed.

(** When an agent that has reconnected loses its old connection, the registry forgets the new
    one: the loop of the old connection removes whatever is registered under its server.  The
    agent is connected and cannot be reached, and a shutdown does not close its connection. *)
Theorem reconnect_unregisters_agent s c a c' b :
  reachable s → conns s !! c = Some a → loop a = Unregistering →
  agents s !! ServerID a = Some c' → c ≠ c' → conns s !! c' = Some b →
  Get (unregister s c) None (ServerID a) = None ∧ conns (unregister s c) !! c' = Some b ∧
  conns (Stop (unregister s c)) !! c' = Some b.
Proof.
  intros Hi%reachable_inv Hca Hl Hag Hne Hcb. unfold unregister. rewrite Hca.
  set (s1 := set_conn _ c (with_loop Clearing)).
  assert (conns s1 !! c' = Some b) as Hb by (cbn; by rewrite list_lookup_alter_ne).
  split_and!; [|done|].
  - unfold Get. cbn [agents s1 set_conn with_conns with_agents]. by rewrite decide_False, lookup_delete_eq.
  - unfold Stop. cbn [conns shut]. rewrite hang_up_others; [done|]. intros ([id x] & -> & Hin)%list_elem_of_fmap.
    apply elem_of_map_to_list in Hin. cbn in Hin. apply lookup_delete_Some in Hin as [Hid Hx].
    destruct (v_agents s Hi _ _ Hx) as (y & Hy & <-). destruct (v_agents s Hi _ _ Hag) as (z & Hz & Ez). cbn in *. congruence.
Qed.

(** After a shutdown no agent is registered, however long loops and requests go on. *)
Theorem stopped_server_has_no_agents s s' : reachable s → rtc step (Stop s) s' → agents s' = ∅ ∧ closed s' = true.
Proof.
  intros Hr Hsteps. assert (reachable s' ∧ closed s' = true) as [Hr' Hc].
  { assert (reachable (Stop s) ∧ closed (Stop s) = true) as Hstop by (split; [eapply reach_step; [done|constructor]|done]).
    clear Hr. induction Hsteps as [x|x y z Hxy _ IH]; [done|]. apply IH. destruct Hstop as [Hrx Hcx]. split; [by eapply reach_step|].
    assert (∀ l s, closed (foldl (λ s c, set_conn s c hang_up) s l) = closed s) as Hfold by (induction l; intros; cbn; [done|by rewrite IHl]).
    destruct Hxy; try done; cbn; unfold register, take_message, put_message, leave, unregister, clear, send_encode, send_receive,
      send_timeout, check_dead; repeat case_match; cbn; congruence. }
  split; [by apply (v_closed s' (reachable_inv s' Hr'))|done].
Qed.

(** ** Frames *)

(** The text up to and with the first newline, and the rest. *)
Fixpoint line (l : list ascii) : list ascii * bool * list ascii :=
  match l with
  | [] => ([], false, [])
  | c :: l => if decide (c = newline) then ([c], true, l) else let '(a, e, r) := line l in (c :: a, e, r)
  end.

(** A frame is a line of at most [max] bytes; a last line needs no newline. *)
Definition frame_of (max : nat) (l : list ascii) : result frame_error (string * list ascii) :=
  let '(a, _, r) := line l in
  if decide (a = []) then Err Ended
  else if decide (max < length a)%nat then Err TooLong
  else Ok (TrimSpace (str a), r).

Lemma ReadSlice_line size l :
  let '(part, e, rest) := ReadSlice size l in
  let '(a, nl, r) := line l in
  match e with
  | Delimiter => a = part ∧ nl = true ∧ r = rest ∧ part ≠ []
  | EOF => a = part ∧ nl = false ∧ r = rest
  | BufferFull => length part = size ∧ l = part ++ rest ∧
      let '(a', nl', r') := line rest in a = part ++ a' ∧ nl = nl' ∧ r = r'
  end.
Proof.
  revert l. induction size as [|size IH]; intros l; cbn.
  { destruct (line l) as [[a nl] r]. done. }
  destruct l as [|c l]; [done|]. cbn. case_decide; [done|]. specialize (IH l).
  destruct (ReadSlice size l) as [[part e] rest], (line l) as [[a nl] r]. destruct e; cbn.
  - by destruct IH as (-> & -> & -> & _).
  - destruct (line rest) as [[a' nl'] r']. destruct IH as (<- & -> & -> & -> & ->). done.
  - by destruct IH as (-> & -> & ->).
Qed.

Lemma read_frame_spec size max fuel : ∀ frame l,
  (0 < size)%nat → (length frame ≤ max)%nat → (length l < fuel)%nat →
  read_frame fuel size max frame l =
    let '(a, _, r) := line l in
    if decide (frame ++ a = []) then Err Ended
    else if decide (max < length (frame ++ a))%nat then Err TooLong
    else Ok (TrimSpace (str (frame ++ a)), r).
Proof.
  induction fuel as [|fuel IH]; intros frame l Hs Hf Hl; [lia|]. cbn [read_frame].
  pose proof (ReadSlice_line size l) as Hline. destruct (ReadSlice size l) as [[part e] rest], (line l) as [[a nl] r].
  destruct e.
  - destruct Hline as (-> & -> & -> & Hne).
    rewrite (decide_False (P := frame ++ part = [])) by (intros [_ ?]%app_eq_nil; done). rewrite length_app.
    apply decide_ext. tauto.
  - destruct (line rest) as [[a' nl'] r'] eqn:Hrest. destruct Hline as (Hlen & -> & -> & -> & ->).
    assert (part ≠ []) as Hne by (intros ->; cbn in Hlen; lia).
    destruct (decide (part ≠ [] ∧ (max < length frame + length part)%nat)) as [[_ Hlong]|Hok].
    + rewrite decide_False by (intros [_ [? _]%app_eq_nil]%app_eq_nil; done). rewrite decide_True; [done|].
      rewrite !length_app. lia.
    + rewrite IH; [|done|rewrite length_app; destruct (decide (max < length frame + length part)%nat); [tauto|lia]|].
      * rewrite Hrest. by rewrite app_assoc.
      * rewrite length_app in Hl. lia.
  - destruct Hline as (-> & -> & ->). destruct part as [|x part].
    + rewrite decide_False by (by intros [? _]). rewrite app_nil_r. case_decide; [done|]. rewrite decide_False by lia. done.
    + rewrite !(decide_False (P := frame ++ x :: part = [])) by (intros [_ ?]%app_eq_nil; done).
      rewrite length_app. apply decide_ext. split; [tauto|done].
Qed.

(** Frames do not depend on how the reader's buffer cuts the stream: reading gives the next line
    when it has at most eight megabytes, and an error when it is longer or the stream is at its
    end. *)
Theorem frames_are_lines size l : (0 < size)%nat → readFrame size l = frame_of maxAgentMessageBytes l.
Proof.
  intros Hs. unfold readFrame, frame_of. rewrite read_frame_spec by (done || cbn; lia). by destruct (line l) as [[a nl] r].
Qed.

Lemma frames_are_lines_witness :
  readFrame 3 (bytes "abcdefg" ++ newline :: bytes "x") = frame_of maxAgentMessageBytes (bytes "abcdefg" ++ newline :: bytes "x").
Proof. apply (frames_are_lines 3). lia. Defined.

Example frame_cut : read_frame 20 3 8 [] (bytes "abcdefg" ++ newline :: bytes "x") = Ok ("abcdefg", bytes "x").
Proof. vm_compute. reflexivity. Qed.

(** ** Examples *)

Definition sample_info : AgentInfo :=
  {| iServerID := "srv"; Hostname := "h"; IPAddress := "10.0.0.2"; OS := "linux"; Arch := "amd64"; DockerVersion := "";
     AgentVersion := "1"; CPUCores := 4; RAMMB := 0; DiskMB := 0 |}.
Definition sample_request : AgentMessage := {| mID := "r1"; mType := "ping"; mServerID := "srv"; mTime := 0; Payload := JNull |}.
Definition sample_answer : AgentMessage := {| mID := "r1"; mType := "pong"; mServerID := "srv"; mTime := 1; Payload := JNull |}.

Definition connected : AgentServer := register NewAgentServer sample_info 0.
Definition asked : AgentServer := send_encode (send_begin connected 0 sample_request) 0 true.
Definition taken : AgentServer := take_message asked 0 sample_answer 1.
Definition answered : AgentServer := send_receive (put_message taken 0 0 sample_answer) 0.
Definition lost : AgentServer := clear (unregister (leave asked 0) 0) 0.
Definition reconnected : AgentServer := leave (register connected sample_info 5) 0.

Lemma connected_reachable : reachable connected.
Proof. eapply reach_step; [apply reach_init|]. apply step_register. Qed.

Lemma asked_reachable : reachable asked.
Proof.
  eapply reach_step; [eapply reach_step; [apply connected_reachable|]|].
  - eapply (step_begin _ 0); [reflexivity|]. intros r []%elem_of_nil.
  - eapply (step_encode _ 0); reflexivity.
Qed.

Lemma answered_reachable : reachable answered.
Proof.
  apply (reach_step (put_message taken 0 0 sample_answer)); [apply (reach_step taken); [apply (reach_step asked); [apply asked_reachable|]|]|].
  - eapply (step_take _ 0); reflexivity.
  - eapply (step_put _ 0); reflexivity.
  - eapply (step_receive _ 0); reflexivity.
Qed.

Lemma lost_reachable : reachable lost.
Proof.
  apply (reach_step (unregister (leave asked 0) 0)); [apply (reach_step (leave asked 0)); [apply (reach_step asked); [apply asked_reachable|]|]|].
  - eapply (step_leave _ 0); reflexivity.
  - eapply (step_unregister _ 0); reflexivity.
  - eapply (step_clear _ 0); reflexivity.
Qed.

Lemma reconnected_reachable : reachable reconnected.
Proof.
  eapply reach_step; [eapply reach_step; [apply connected_reachable|apply step_register]|].
  eapply (step_leave _ 0); reflexivity.
Qed.

Lemma answers_reach_their_requests_witness :
  (rPhase <$> requests answered !! 0%nat) = Some (Over (Got sample_answer)) ∧
  ∃ a, conns answered !! 0%nat = Some a ∧ mID sample_answer = "r1" ∧ sample_answer ∈ inbox a.
Proof.
  split; [reflexivity|].
  destruct (answers_reach_their_requests answered answered_reachable) as (_ & _ & Hgot & _).
  exact (Hgot 0%nat _ sample_answer eq_refl (or_introl eq_refl)).
Defined.

Lemma no_request_waits_for_a_lost_agent_witness :
  ∃ x, rPhase <$> requests (send_receive lost 0) !! 0%nat = Some (Over x).
Proof.
  exact (no_request_waits_for_a_lost_agent lost 0 _ _ lost_reachable eq_refl eq_refl eq_refl eq_refl).
Defined.

Lemma reconnect_unregisters_agent_witness : Get (unregister reconnected 0) None "srv" = None.
Proof.
  refine (proj1 (reconnect_unregisters_agent reconnected 0 _ 1 _ reconnected_reachable eq_refl eq_refl eq_refl _ eq_refl)).
  discriminate.
Defined.

Lemma stopped_server_has_no_agents_witness : agents (Stop asked) = ∅ ∧ closed (Stop asked) = true.
Proof. exact (stopped_server_has_no_agents asked _ asked_reachable (rtc_refl step (Stop asked))). Defined.

End Swarm.
