(* ===== verification/Agent.v ===== *)
(** * Agent: the agent's side of the swarm ([swarm/client.go], [swarm/remote.go], [swarm/local.go])

    What an agent does with each command of the master, and the two executors of the master's
    node interface: the local one, which calls its runtime, and the remote one, which sends a
    command and decodes the answer.  The container runtime is a record of state-passing
    operations over a world.  A payload crosses the wire as JSON and is read into an [any] before
    it is decoded, on both sides: its numbers pass through [float64] and its texts through UTF-8,
    and a frame has at most eight megabytes. *)

From Stdlib Require Import Floats.SpecFloat.
From S2P Require Import Prelude GoStrings KVStore Policy Swarm.
#[local] Open Scope Z_scope.

Module Agent.
Import KV.
Import Swarm.

(** ** Wire data *)

(** src/internal/core/interfaces.go:45-58 ContainerOpts *)
Record ContainerOpts := {
  Name : string; Image : string; Env : list string; Labels : gmap string string; Ports : gmap string string;
  Volumes : gmap string string; Network : string; CPUQuota : Z; MemoryMB : Z; RestartPolicy : string;
  AllowDockerSocket : bool; Privileged : bool }.

(** src/internal/core/interfaces.go:129-137 ContainerInfo *)
Record ContainerInfo := {
  cID : string; cName : string; cImage : string; cStatus : string; cState : string; cLabels : gmap string string;
  Created : Z }.

(** src/internal/core/sysmetrics.go:8-18 SysMetrics *)
Record SysMetrics := {
  mCPUPercent : spec_float; mRAMUsedMB : Z; mRAMTotalMB : Z; mDiskUsedMB : Z; mDiskTotalMB : Z; mLoadAvg : list spec_float }.

Definition jstrings (l : list string) : json := JArr (JStr <$> l).
Definition jmap (m : gmap string string) : json := JObj (prod_map id JStr <$> map_to_list m).

Definition jtext (d : json) : option string :=
  match d with JStr s => Some s | JNull => Some "" | _ => None end.

Definition jlist (d : json) : option (list json) :=
  match d with JArr l => Some l | JNull => Some [] | _ => None end.

(** A [[]string] and a [map[string]string]; in a document the last of equal keys counts. *)
Definition read_strings (k : string) (fs : list (string * json)) : option (list string) :=
  l ← jlist (default JNull (jfield k fs)); mapM jtext l.

Definition read_texts (k : string) (fs : list (string * json)) : option (gmap string string) :=
  kvs ← members (default JNull (jfield k fs));
  l ← mapM (λ kv : string * json, t ← jtext kv.2; Some (kv.1, t)) kvs;
  Some (list_to_map (reverse l)).

Definition opts_fields (o : ContainerOpts) : list (string * json) :=
  [("Name", JStr (Name o)); ("Image", JStr (Image o)); ("Env", jstrings (Env o)); ("Labels", jmap (Labels o));
   ("Ports", jmap (Ports o)); ("Volumes", jmap (Volumes o)); ("Network", JStr (Network o)); ("CPUQuota", JNum (CPUQuota o));
   ("MemoryMB", JNum (MemoryMB o)); ("RestartPolicy", JStr (RestartPolicy o));
   ("AllowDockerSocket", JBool (AllowDockerSocket o)); ("Privileged", JBool (Privileged o))].

Definition decode_opts (d : json) : option ContainerOpts :=
  fs ← members d;
  n ← read_str "Name" fs ""; i ← read_str "Image" fs ""; e ← read_strings "Env" fs; l ← read_texts "Labels" fs;
  p ← read_texts "Ports" fs; v ← read_texts "Volumes" fs; w ← read_str "Network" fs ""; c ← read_int "CPUQuota" fs 0;
  m ← read_int "MemoryMB" fs 0; r ← read_str "RestartPolicy" fs ""; a ← read_bool "AllowDockerSocket" fs false;
  q ← read_bool "Privileged" fs false;
  Some {| Name := n; Image := i; Env := e; Labels := l; Ports := p; Volumes := v; Network := w; CPUQuota := c; MemoryMB := m;
          RestartPolicy := r; AllowDockerSocket := a; Privileged := q |}.

Definition info_fields (c : ContainerInfo) : list (string * json) :=
  [("ID", JStr (cID c)); ("Name", JStr (cName c)); ("Image", JStr (cImage c)); ("Status", JStr (cStatus c));
   ("State", JStr (cState c)); ("Labels", jmap (cLabels c)); ("Created", JNum (Created c))].

Definition decode_container (d : json) : option ContainerInfo :=
  fs ← members d;
  i ← read_str "ID" fs ""; n ← read_str "Name" fs ""; g ← read_str "Image" fs ""; s ← read_str "Status" fs "";
  t ← read_str "State" fs ""; l ← read_texts "Labels" fs; c ← read_int "Created" fs 0;
  Some {| cID := i; cName := n; cImage := g; cStatus := s; cState := t; cLabels := l; Created := c |}.

Definition decode_containers (d : json) : option (list ContainerInfo) := l ← jlist d; mapM decode_container l.

Definition metrics_fields (m : ServerMetrics) : list (string * json) :=
  [("server_id", JStr (sServerID m)); ("timestamp", JTime (sTimestamp m)); ("cpu_percent", JFloat (CPUPercent m));
   ("ram_used_mb", JNum (RAMUsedMB m)); ("ram_total_mb", JNum (RAMTotalMB m)); ("disk_used_mb", JNum (DiskUsedMB m));
   ("disk_total_mb", JNum (DiskTotalMB m)); ("network_rx_mb", JNum (NetworkRxMB m)); ("network_tx_mb", JNum (NetworkTxMB m));
   ("load_avg", JArr (JFloat <$> LoadAvg m)); ("containers", JNum (Containers m))].

(** ** The passage through [any] *)

(** The [float64] nearest to an integer, ties to even. *)
Definition round53 (z : Z) : Z :=
  let a := Z.abs z in
  let u := 2 ^ Z.max 0 (Z.log2 a - 52) in
  let q := a / u in
  let up := match 2 * (a mod u) ?= u with Lt => false | Gt => true | Eq => Z.odd q end in
  Z.sgn z * ((if up then q + 1 else q) * u).

(** The shortest decimal number that is read as the [float64] [f]: a multiple of the largest
    power of ten below [10^p] that has one, and of two such the nearer. *)
Fixpoint shortest (p : nat) (f : Z) : Z :=
  match p with
  | O => f
  | S p' =>
      let t := 10 ^ Z.of_nat p in
      let lo := f / t * t in
      let hi := lo + t in
      match round53 lo =? f, round53 hi =? f with
      | true, true => match 2 * (f - lo) ?= t with Lt => lo | Gt => hi | Eq => if Z.even (f / t) then lo else hi end
      | true, false => lo
      | false, true => hi
      | false, false => shortest p' f
      end
  end.

(** An integer read into an [any] and written again. *)
Definition through_float64 (z : Z) : Z := Z.sgn z * shortest 19 (round53 (Z.abs z)).

(** src/internal/swarm/protocol.go:29-45 agentProtocolDecoder.Decode *)
Fixpoint through_any (d : json) : json :=
  match d with
  | JNum z => JNum (through_float64 z)
  | JStr s => JStr (ToValidUTF8 s)
  | JArr l => JArr (map through_any l)
  | JObj fs => JObj (map (λ kv, (ToValidUTF8 kv.1, through_any kv.2)) fs)
  | d => d
  end.

(** Documents that pass unchanged: integers below [2^53] and UTF-8 texts. *)
Fixpoint plain (d : json) : bool :=
  match d with
  | JNum z => Z.abs z <? 2 ^ 53
  | JStr s => bool_decide (utf8_text s)
  | JArr l => forallb plain l
  | JObj fs => forallb (λ kv, bool_decide (utf8_text kv.1) && plain kv.2) fs
  | _ => true
  end.

(** ** Actions over a world *)

Section World.
Context {W : Type}.

Definition act (A : Type) : Type := W → W * result string A.
Definition ret {A} (a : A) : act A := λ w, (w, Ok a).
Definition fail {A} (e : string) : act A := λ w, (w, Err e).
Definition bind {A B} (m : act A) (k : A → act B) : act B :=
  λ w, match m w with (w, Ok a) => k a w | (w, Err e) => (w, Err e) end.
#[local] Notation "x <~ m ; k" := (bind m (λ x, k)) (at level 100, m at next level, right associativity).

(** [fmt.Errorf] around an error. *)
Definition wrap {A} (p : string) (m : act A) : act A :=
  λ w, match m w with (w, Ok a) => (w, Ok a) | (w, Err e) => (w, Err (p +:+ e)) end.

(** [EnsureNetwork] is there when the runtime has the method.  [Logs] gives what the successive
    reads of its reader return.
    src/internal/core/interfaces.go:27-42 ContainerRuntime *)
Record ContainerRuntime := {
  Ping : act unit; CreateAndStart : ContainerOpts → act string; Stop : string → Z → act unit;
  Remove : string → bool → act unit; Restart : string → act unit; Logs : string → string → bool → act (list string);
  ListByLabels : gmap string string → act (list ContainerInfo); Exec : string → list string → act string;
  ImagePull : string → act unit; EnsureNetwork : option (string → act unit) }.

(** src/internal/swarm/client.go:34-58 AgentClient *)
Record AgentClient := {
  serverID : string; version : string; platform : string; runtime : option ContainerRuntime;
  sysRead : W → W * SysMetrics; buildMod : bool }.

Variable json_error : json → string.

Definition decoded {A} (what : string) (f : json → option A) (d : json) : act A :=
  match f d with Some a => ret a | None => fail (what +:+ ": " +:+ json_error d) end.

(** src/internal/swarm/client.go:115-120 AgentClient.requireRuntime *)
Definition requireRuntime (c : AgentClient) : act ContainerRuntime :=
  match runtime c with Some rt => ret rt | None => fail "container runtime not configured on agent" end.

(** ** The commands *)

(** src/internal/swarm/client.go:323-333 AgentClient.handleContainerCreate *)
Definition handleContainerCreate (c : AgentClient) (d : json) : act string :=
  rt <~ requireRuntime c; opts <~ decoded "decode container opts" decode_opts d; CreateAndStart rt opts.

(** src/internal/swarm/client.go:335-348 AgentClient.handleContainerStop *)
Definition handleContainerStop (c : AgentClient) (d : json) : act unit :=
  rt <~ requireRuntime c;
  p <~ decoded "decode container stop payload"
         (λ d, fs ← members d; i ← read_str "container_id" fs ""; t ← read_int "timeout_sec" fs 0; Some (i, t)) d;
  Stop rt p.1 p.2.

(** src/internal/swarm/client.go:350-363 AgentClient.handleContainerRemove *)
Definition handleContainerRemove (c : AgentClient) (d : json) : act unit :=
  rt <~ requireRuntime c;
  p <~ decoded "decode container remove payload"
         (λ d, fs ← members d; i ← read_str "container_id" fs ""; b ← read_bool "force" fs false; Some (i, b)) d;
  Remove rt p.1 p.2.

(** src/internal/swarm/client.go:365-377 AgentClient.handleContainerRestart *)
Definition handleContainerRestart (c : AgentClient) (d : json) : act unit :=
  rt <~ requireRuntime c;
  i <~ decoded "decode container restart payload" (λ d, fs ← members d; read_str "container_id" fs "") d;
  Restart rt i.

(** src/internal/swarm/client.go:379-391 AgentClient.handleContainerList *)
Definition handleContainerList (c : AgentClient) (d : json) : act (list ContainerInfo) :=
  rt <~ requireRuntime c;
  l <~ decoded "decode container list payload" (λ d, fs ← members d; read_texts "labels" fs) d;
  ListByLabels rt l.

Definition logBuffer : nat := Z.to_nat 65536.

(** One read into a buffer.
    src/internal/swarm/client.go:412-414 AgentClient.handleContainerLogs.read *)
Definition first_read (reads : list string) : string :=
  str (take logBuffer (bytes (default "" (head reads)))).

(** src/internal/swarm/client.go:393-415 AgentClient.handleContainerLogs *)
Definition handleContainerLogs (c : AgentClient) (d : json) : act string :=
  rt <~ requireRuntime c;
  p <~ decoded "decode container logs payload"
         (λ d, fs ← members d; i ← read_str "container_id" fs ""; t ← read_str "tail" fs ""; Some (i, t)) d;
  r <~ wrap ("fetch logs for " +:+ p.1 +:+ ": ") (Logs rt p.1 p.2 false);
  ret (first_read r).

(** src/internal/swarm/client.go:417-430 AgentClient.handleContainerExec *)
Definition handleContainerExec (c : AgentClient) (d : json) : act string :=
  rt <~ requireRuntime c;
  p <~ decoded "decode container exec payload"
         (λ d, fs ← members d; i ← read_str "container_id" fs ""; l ← read_strings "cmd" fs; Some (i, l)) d;
  Exec rt p.1 p.2.

(** src/internal/swarm/client.go:432-444 AgentClient.handleImagePull *)
Definition handleImagePull (c : AgentClient) (d : json) : act unit :=
  rt <~ requireRuntime c;
  i <~ decoded "decode image pull payload" (λ d, fs ← members d; read_str "image" fs "") d;
  ImagePull rt i.

(** src/internal/swarm/client.go:446-467 AgentClient.handleNetworkCreate *)
Definition handleNetworkCreate (c : AgentClient) (d : json) : act unit :=
  rt <~ requireRuntime c;
  match EnsureNetwork rt with
  | None => fail "container runtime does not support network ensure"
  | Some ensure =>
      n <~ decoded "decode network create payload" (λ d, fs ← members d; read_str "name" fs "") d;
      if decide (n = "") then fail "network name is required" else ensure n
  end.

Definition managed : gmap string string := {["monster.enable" := "true"]}.

Definition metrics_of (id : string) (now : instant) (s : SysMetrics) (n : Z) : ServerMetrics :=
  {| sServerID := id; sTimestamp := now; CPUPercent := mCPUPercent s; RAMUsedMB := mRAMUsedMB s; RAMTotalMB := mRAMTotalMB s;
     DiskUsedMB := mDiskUsedMB s; DiskTotalMB := mDiskTotalMB s; NetworkRxMB := 0; NetworkTxMB := 0; LoadAvg := mLoadAvg s;
     Containers := n |}.

(** The counting of containers is best effort.
    src/internal/swarm/client.go:469-491 AgentClient.handleMetricsCollect *)
Definition handleMetricsCollect (c : AgentClient) (now : instant) : act ServerMetrics := λ w,
  let '(w, s) := sysRead c w in
  match runtime c with
  | None => (w, Ok (metrics_of (serverID c) now s 0))
  | Some rt =>
      let '(w, r) := ListByLabels rt managed w in
      (w, Ok (metrics_of (serverID c) now s (match r with Ok l => Z.of_nat (length l) | Err _ => 0 end)))
  end.

(** src/internal/swarm/client.go:493-501 AgentClient.handleHealthCheck *)
Definition handleHealthCheck (c : AgentClient) (now : instant) : json :=
  JObj [("runtime", JStr (platform c)); ("server_id", JStr (serverID c)); ("status", JStr "ok"); ("timestamp", JTime now);
        ("version", JStr (version c))].

(** The payload of a build task; [fn_bytes] is written in base64.
    src/internal/core/agent.go:107-114 BuildTaskPayload *)
Definition decode_task (d : json) : option string :=
  fs ← members d;
  i ← read_str "deploy_id" fs ""; t ← read_str "tenant_id" fs ""; a ← read_str "app_id" fs ""; s ← read_str "commit_sha" fs "";
  g ← read_str "image_tag" fs "";
  match jfield "fn_bytes" fs with None | Some JNull | Some (JBase64 _) => Some i | _ => None end.

(** The extra answers it sends itself, and its result.
    src/internal/swarm/client.go:503-537 AgentClient.handleBuildTask *)
Definition handleBuildTask (c : AgentClient) (now : instant) (d : json) : list (string * json) * result string json :=
  match decode_task d with
  | None => ([], Err ("invalid build task payload: " +:+ json_error d))
  | Some i =>
      if buildMod c then
        ([], Ok (JObj [("deploy_id", JStr i); ("server_id", JStr (serverID c)); ("status", JStr "accepted"); ("timestamp", JTime now)]))
      else ([("error", JStr "build module not wired on this agent")], Err "build module not wired")
  end.

Definition answer_with {A} (f : A → json) (m : act A) : W → W * list (string * json) := λ w,
  let '(w, r) := m w in (w, [match r with Ok a => ("result", f a) | Err e => ("error", JStr e) end]).

Definition nothing (_ : unit) : json := JNull.

(** The answers to a message, in order: type and payload.
    src/internal/swarm/client.go:267-321 AgentClient.handleMessage *)
Definition handleMessage (c : AgentClient) (now : instant) (m : AgentMessage) : W → W * list (string * json) :=
  let d := Payload m in
  let t := mType m in
  if decide (t = "ping") then λ w, (w, [("pong", JNull)])
  else if decide (t = "container.create") then answer_with JStr (handleContainerCreate c d)
  else if decide (t = "container.stop") then answer_with nothing (handleContainerStop c d)
  else if decide (t = "container.remove") then answer_with nothing (handleContainerRemove c d)
  else if decide (t = "container.restart") then answer_with nothing (handleContainerRestart c d)
  else if decide (t = "container.list") then answer_with (λ l, JArr (JObj ∘ info_fields <$> l)) (handleContainerList c d)
  else if decide (t = "container.logs") then answer_with JStr (handleContainerLogs c d)
  else if decide (t = "container.exec") then answer_with JStr (handleContainerExec c d)
  else if decide (t = "image.pull") then answer_with nothing (handleImagePull c d)
  else if decide (t = "network.create") then answer_with nothing (handleNetworkCreate c d)
  else if decide (t = "metrics.collect") then answer_with (JObj ∘ metrics_fields) (handleMetricsCollect c now)
  else if decide (t = "health.check") then λ w, (w, [("result", handleHealthCheck c now)])
  else if decide (t = "build.task") then λ w,
    let '(l, r) := handleBuildTask c now d in (w, l ++ [match r with Ok d => ("result", d) | Err e => ("error", JStr e) end])
  else λ w, (w, [("error", JStr ("unknown command type: " +:+ t))]).

(** src/internal/swarm/client.go:540-554 AgentClient.sendResponse *)
Definition sendResponse (c : AgentClient) (requestID : string) (now : instant) (r : string * json) : AgentMessage :=
  {| mID := requestID; mType := r.1; mServerID := serverID c; mTime := now; Payload := r.2 |}.

Definition reply (c : AgentClient) (now : instant) (m : AgentMessage) (w : W) : W * list AgentMessage :=
  let '(w, l) := handleMessage c now m w in (w, sendResponse c (mID m) now <$> l).

(** ** The executors of the node interface *)

(** The operations, each with the type of its result; the logs of a container are the whole
    text its reader gives.
    src/internal/core/agent.go:135-153 NodeExecutor *)
Inductive node_op : Type → Type :=
| OCreate (o : ContainerOpts) : node_op string
| OStop (id : string) (timeout : Z) : node_op unit
| ORemove (id : string) (force : bool) : node_op unit
| ORestart (id : string) : node_op unit
| OLogs (id tail : string) (follow : bool) : node_op string
| OList (labels : gmap string string) : node_op (list ContainerInfo)
| ONetwork (name : string) : node_op unit
| OExec (command : string) : node_op string
| OMetrics : node_op ServerMetrics
| OPing : node_op unit.

Definition NodeExecutor : Type := ∀ A, node_op A → act A.





(** The length of the line the encoder writes for a message; a float that is no number has none. *)
Variable frame : AgentMessage → option Z.

Inductive passage := Arrives (m : AgentMessage) | TooLong | Unwritten.

(** src/internal/swarm/protocol.go:47-69 agentProtocolDecoder.readFrame *)
Definition crosses (m : AgentMessage) : passage :=
  match frame m with
  | None => Unwritten
  | Some n =>
      if Z.of_nat maxAgentMessageBytes <? n then TooLong
      else Arrives {| mID := mID m; mType := mType m; mServerID := mServerID m; mTime := mTime m; Payload := through_any (Payload m) |}
  end.

Definition message (c : AgentClient) (now : instant) (id t : string) (d : json) : AgentMessage :=
  {| mID := id; mType := t; mServerID := serverID c; mTime := now; Payload := d |}.

(** A command and its first answer.  A frame that is too long ends the connection, an answer that
    cannot be written is only logged by the agent.
    src/internal/swarm/remote.go:143-160 RemoteExecutor.sendCommand *)
Definition sendCommand (c : AgentClient) (now : instant) (id t : string) (d : json) : act AgentMessage := λ w,
  match crosses (message c now id t d) with
  | Unwritten => (w, Err ("send to agent " +:+ serverID c +:+ ": json: unsupported value"))
  | TooLong => (w, Err ("agent " +:+ serverID c +:+ " disconnected"))
  | Arrives m =>
      let '(w, l) := reply c now m w in
      (w, match l with
          | [] => Err "context deadline exceeded"
          | a :: _ =>
              match crosses a with
              | Unwritten => Err "context deadline exceeded"
              | TooLong => Err ("agent " +:+ serverID c +:+ " disconnected")
              | Arrives a => if decide (mType a = "error") then Err ("agent error: " +:+ default "" (jtext (Payload a))) else Ok a
              end
          end)
  end.

Section Remote.
Variables (c : AgentClient) (now : instant) (reqID : string).

Definition command (t : string) (d : json) : act unit := _ <~ sendCommand c now reqID t d; ret tt.

(** src/internal/swarm/remote.go:26-36 RemoteExecutor.CreateAndStart *)
Definition remoteCreate (o : ContainerOpts) : act string :=
  r <~ sendCommand c now reqID "container.create" (JObj (opts_fields o)); decoded "decode container ID" jtext (Payload r).

(** src/internal/swarm/remote.go:38-44 RemoteExecutor.Stop *)
Definition remoteStop (i : string) (t : Z) : act unit :=
  command "container.stop" (JObj [("container_id", JStr i); ("timeout_sec", JNum t)]).

(** src/internal/swarm/remote.go:46-52 RemoteExecutor.Remove *)
Definition remoteRemove (i : string) (f : bool) : act unit :=
  command "container.remove" (JObj [("container_id", JStr i); ("force", JBool f)]).

(** src/internal/swarm/remote.go:54-59 RemoteExecutor.Restart *)
Definition remoteRestart (i : string) : act unit := command "container.restart" (JObj [("container_id", JStr i)]).

(** src/internal/swarm/remote.go:61-80 RemoteExecutor.Logs *)
Definition remoteLogs (i t : string) (follow : bool) : act string :=
  if follow then fail "follow mode not supported over agent protocol"
  else r <~ sendCommand c now reqID "container.logs" (JObj [("container_id", JStr i); ("tail", JStr t)]);
       decoded "decode logs" jtext (Payload r).

(** src/internal/swarm/remote.go:82-95 RemoteExecutor.ListByLabels *)
Definition remoteList (l : gmap string string) : act (list ContainerInfo) :=
  r <~ sendCommand c now reqID "container.list" (JObj [("labels", jmap l)]);
  decoded "decode container list" decode_containers (Payload r).

(** src/internal/swarm/remote.go:97-102 RemoteExecutor.EnsureNetwork *)
Definition remoteNetwork (n : string) : act unit := command "network.create" (JObj [("name", JStr n)]).

(** src/internal/swarm/remote.go:104-122 RemoteExecutor.Exec *)
Definition remoteExec (cmdline : string) : act string :=
  let cmd := Command.SplitCommand cmdline in
  if negb (Command.CommandTokensSafe cmd) then fail "node command blocked by security policy"
  else r <~ sendCommand c now reqID "container.exec" (JObj [("cmd", jstrings cmd); ("container_id", JStr "")]);
       decoded "decode exec output" jtext (Payload r).

(** src/internal/swarm/remote.go:124-135 RemoteExecutor.Metrics *)
Definition remoteMetrics : act ServerMetrics :=
  r <~ sendCommand c now reqID "metrics.collect" JNull; decoded "decode metrics" decode_metrics (Payload r).

(** src/internal/swarm/remote.go:137-140 RemoteExecutor.Ping *)
Definition remotePing : act unit := command "ping" JNull.

(** src/internal/swarm/remote.go:15-18 RemoteExecutor *)
Definition RemoteExecutor : NodeExecutor := λ A op,
  match op in node_op A return act A with
  | OCreate o => remoteCreate o
  | OStop i t => remoteStop i t
  | ORemove i f => remoteRemove i f
  | ORestart i => remoteRestart i
  | OLogs i t f => remoteLogs i t f
  | OList l => remoteList l
  | ONetwork n => remoteNetwork n
  | OExec x => remoteExec x
  | OMetrics => remoteMetrics
  | OPing => remotePing
  end.
End Remote.

End World.
(** ** Reading back what was written *)









(** ** What the passage keeps *)

Lemma round53_small z : 0 ≤ z < 2 ^ 53 → round53 z = z.
Proof.
  intros Hz. unfold round53. rewrite (Z.abs_eq z) by lia.
  assert (Z.log2 z ≤ 52) as Hl.
  { destruct (decide (z = 0)) as [->|]; [cbn; lia|]. assert (Z.log2 z < 53); [|lia]. apply Z.log2_lt_pow2; lia. }
  rewrite Z.max_l by lia. change (2 ^ 0) with 1. rewrite Z.mod_1_r, Z.div_1_r. change (2 * 0 ?= 1) with Lt. cbn [Z.compare].
  rewrite Z.mul_1_r. destruct (Z.sgn_spec z) as [[? ->]|[[? ->]|[? ->]]]; lia.
Qed.

Lemma round53_large z : 2 ^ 53 ≤ z → 2 ^ 53 ≤ round53 z.
Proof.
  intros Hz. assert (0 < z) as Hp by lia. unfold round53. rewrite (Z.abs_eq z), Z.sgn_pos, Z.mul_1_l by lia.
  pose proof (Z.log2_spec z Hp) as [Hl _]. assert (53 ≤ Z.log2 z) as H53 by (by apply Z.log2_le_pow2).
  rewrite Z.max_r by lia. set (e := Z.log2 z - 52) in *. assert (1 ≤ e) as He by lia.
  assert (2 ^ Z.log2 z = 2 ^ 52 * 2 ^ e) as Hs by (rewrite <- Z.pow_add_r by lia; f_equal; lia).
  assert (2 ≤ 2 ^ e) as Hu by (change 2 with (2 ^ 1) at 1; apply Z.pow_le_mono_r; lia).
  assert (2 ^ 52 ≤ z / 2 ^ e) as Hq by (apply Z.div_le_lower_bound; lia).
  destruct (2 * (z mod 2 ^ e) ?= 2 ^ e); [destruct (Z.odd _)|..]; nia.
Qed.

Lemma rounds_to z f : 0 ≤ z → f < 2 ^ 53 → round53 z = f → z = f.
Proof.
  intros Hz Hf E. destruct (decide (z < 2 ^ 53)); [by rewrite round53_small in E by lia|].
  assert (2 ^ 53 ≤ round53 z) by (apply round53_large; lia). lia.
Qed.

Lemma shortest_small p f : 0 ≤ f < 2 ^ 53 → shortest p f = f.
Proof.
  intros Hf. induction p as [|p IH]; [done|]. cbn [shortest].
  set (t := 10 ^ Z.of_nat (S p)). assert (0 < t) as Ht by (apply Z.pow_pos_nonneg; lia).
  assert (0 ≤ f / t * t) as Hlo by (pose proof (Z.div_pos f t); nia).
  destruct (Z.eqb_spec (round53 (f / t * t)) f) as [E1|]; destruct (Z.eqb_spec (round53 (f / t * t + t)) f) as [E2|];
    [apply rounds_to in E1, E2; lia|by apply rounds_to in E1; try lia|apply rounds_to in E2; lia|done].
Qed.

Lemma through_float64_small z : Z.abs z < 2 ^ 53 → through_float64 z = z.
Proof.
  intros Hz. unfold through_float64. rewrite round53_small, shortest_small by lia. rewrite Z.mul_comm. apply Z.abs_sgn.
Qed.

Lemma through_plain : ∀ d, plain d = true → through_any d = d.
Proof.
  fix IH 1. intros [| | z | | s | | | l | fs]; cbn [plain through_any]; try done.
  - intros Hz%Z.ltb_lt. by rewrite through_float64_small.
  - intros Hs%bool_decide_eq_true. by rewrite Hs.
  - intros Hl. f_equal. induction l as [|d l IHl]; [done|]. cbn [forallb map] in *. apply andb_true_iff in Hl as [Hd Hl].
    f_equal; [by apply IH|by apply IHl].
  - intros Hl. f_equal. induction fs as [|[k d] l IHl]; [done|]. cbn [forallb map fst snd] in *.
    apply andb_true_iff in Hl as [[Hk%bool_decide_eq_true Hd]%andb_true_iff Hl]. f_equal; [|by apply IHl].
    f_equal; [done|by apply IH].
Qed.

(** A message of a known type goes to its handler. *)
Ltac dispatch f h := etransitivity; [exact (eq_refl (answer_with f (h _) _))|].

(** ** The remote executor does what a local one on the agent's host would *)

Section Refinement.
Context {W : Type} (json_error : json → string) (frame : AgentMessage → option Z).
Variables (c : AgentClient (W := W)) (now : instant) (reqID : string).

(** A message that arrives as it was sent. *)
Definition passes (m : AgentMessage) : Prop :=
  plain (Payload m) = true ∧ ∃ n, frame m = Some n ∧ n ≤ Z.of_nat maxAgentMessageBytes.

Lemma passes_crosses m : passes m → crosses frame m = Arrives m.
Proof.
  intros [Hp (n & Hn & Hle)]. unfold crosses. rewrite Hn. destruct (Z.ltb_spec (Z.of_nat maxAgentMessageBytes) n); [lia|].
  destruct m. cbn in *. by rewrite through_plain.
Qed.

(** What an agent answers to a result. *)
Definition answer_of {A} (f : A → json) (r : result string A) : string * json :=
  match r with Ok a => ("result", f a) | Err e => ("error", JStr e) end.

Lemma sendCommand_result {A} t d (m : act A) (f : A → json) w :
  passes (message c now reqID t d) → passes (sendResponse c reqID now (answer_of f (m w).2)) →
  (∀ w, handleMessage json_error c now (message c now reqID t d) w = answer_with f m w) →
  sendCommand json_error frame c now reqID t d w =
    ((m w).1, match (m w).2 with
              | Ok a => Ok (sendResponse c reqID now ("result", f a))
              | Err e => Err ("agent error: " +:+ e)
              end).
Proof.
  intros Hin Hout Hm. unfold sendCommand. rewrite (passes_crosses _ Hin). unfold reply. rewrite Hm. unfold answer_with.
  destruct (m w) as [w' [a|e]]; cbn [fst snd answer_of fmap list_fmap mID message] in *; by rewrite (passes_crosses _ Hout).
Qed.

Lemma command_result t d (m : act unit) w :
  passes (message c now reqID t d) → passes (sendResponse c reqID now (answer_of nothing (m w).2)) →
  (∀ w, handleMessage json_error c now (message c now reqID t d) w = answer_with nothing m w) →
  command json_error frame c now reqID t d w =
    ((m w).1, match (m w).2 with Ok a => Ok a | Err e => Err ("agent error: " +:+ e) end).
Proof.
  intros Hin Hout Hm. unfold command, bind. rewrite (sendCommand_result _ _ m nothing) by done. by destruct (m w) as [w' [[]|e]].
Qed.

Lemma bind_ret {A B} (a : A) (k : A → act B) (w : W) : bind (ret a) k w = k a w.
Proof. done. Qed.

(** A command whose payload decodes runs the runtime's operation. *)
Lemma decoded_some {A B} what (f : json → option A) d a (k : A → act B) (w : W) :
  f d = Some a → bind (decoded json_error what f d) k w = k a w.
Proof. intros E. unfold decoded, bind. by rewrite E. Qed.

Variable rt : ContainerRuntime (W := W).
Hypothesis has_runtime : runtime c = Some rt.

Abbreviation local := (LocalExecutor rt (serverID c) (sysRead c) now).
Abbreviation remote := (RemoteExecutor json_error frame c now reqID).







Lemma require_runtime : requireRuntime c = ret rt.
Proof. unfold requireRuntime. by rewrite has_runtime. Qed.


End Refinement.


(** Logs over the wire are the first read of the container's log, at most 64 KiB of it: a
    container whose log comes in several pieces loses the rest without an error. *)
Theorem remote_logs_are_the_first_read {W} (json_error : json → string) frame (c : AgentClient (W := W)) rt now reqID i t w w' r :
  runtime c = Some rt → Logs rt i t false w = (w', Ok r) →
  passes frame (message c now reqID "container.logs" (JObj [("container_id", JStr i); ("tail", JStr t)])) →
  passes frame (sendResponse c reqID now ("result", JStr (first_read r))) →
  RemoteExecutor json_error frame c now reqID _ (OLogs i t false) w = (w', Ok (first_read r)) ∧
  first_read r = str (take logBuffer (bytes (default "" (head r)))).
Proof.
  intros Hc Hr Hin Hout. split; [|done]. cbn [RemoteExecutor]. unfold remoteLogs. unfold bind at 1.
  rewrite (sendCommand_result _ _ _ _ _ _ _ (bind (wrap ("fetch logs for " +:+ i +:+ ": ") (Logs rt i t false)) (λ r, ret (first_read r))) JStr);
    [..|done|unfold bind, wrap; by rewrite Hr|].
  - unfold bind, wrap. by rewrite Hr.
  - intros w0. dispatch JStr (handleContainerLogs json_error c). unfold answer_with, handleContainerLogs.
    by rewrite (require_runtime c rt), bind_ret, (decoded_some _ _ _ _ (i, t)).
Qed.

(** An agent without a container runtime refuses a command that reaches it, and its world stays. *)
Theorem agent_without_runtime_refuses {W} (json_error : json → string) frame (c : AgentClient (W := W)) now reqID w :
  runtime c = None →
  passes frame (sendResponse c reqID now ("error", JStr "container runtime not configured on agent")) →
  (∀ i t, passes frame (message c now reqID "container.stop" (JObj [("container_id", JStr i); ("timeout_sec", JNum t)])) →
     RemoteExecutor json_error frame c now reqID _ (OStop i t) w = (w, Err "agent error: container runtime not configured on agent")) ∧
  (∀ n, passes frame (message c now reqID "network.create" (JObj [("name", JStr n)])) →
     RemoteExecutor json_error frame c now reqID _ (ONetwork n) w = (w, Err "agent error: container runtime not configured on agent")).
Proof.
  intros Hc Hout. assert (requireRuntime c = fail "container runtime not configured on agent") as Hrt by (unfold requireRuntime; by rewrite Hc).
  split; [intros i t|intros n]; intros Hin; cbn [RemoteExecutor].
  - apply (command_result _ _ _ _ _ _ _ (fail "container runtime not configured on agent")); [done..|].
    intros w0. dispatch nothing (handleContainerStop json_error c). unfold answer_with, handleContainerStop. by rewrite Hrt.
  - apply (command_result _ _ _ _ _ _ _ (fail "container runtime not configured on agent")); [done..|].
    intros w0. dispatch nothing (handleNetworkCreate json_error c). unfold answer_with, handleNetworkCreate. by rewrite Hrt.
Qed.

(** ** Answers *)

Lemma answered {W A} (f : A → json) (m : act (W := W) A) w (P : Prop) :
  P → ∃ r, (answer_with f m w).2 = [r] ∧ is_answer r.1 = true ∧ P.
Proof. intros HP. unfold answer_with. destruct (m w) as [w' [a|e]]; eexists; (split_and!; [reflexivity|reflexivity|done]). Qed.

(** Every message is answered with its own identifier, by types the master takes as answers, and
    once; only a build task on an agent without a build module is answered twice. *)
Theorem agent_answers_every_message {W} (json_error : json → string) (c : AgentClient (W := W)) now m w :
  Forall (λ a, mID a = mID m ∧ is_answer (mType a) = true) (reply json_error c now m w).2 ∧
  length (reply json_error c now m w).2 =
    (if decide (mType m = "build.task" ∧ buildMod c = false ∧ is_Some (decode_task (Payload m))) then 2%nat else 1%nat).
Proof.
  unfold reply. destruct (handleMessage json_error c now m w) as [w' l] eqn:E. cbn [snd]. rewrite length_fmap, Forall_fmap.
  assert ((∃ r, l = [r] ∧ is_answer r.1 = true ∧ mType m ≠ "build.task") ∨
    mType m = "build.task" ∧ l = (let '(l, r) := handleBuildTask json_error c now (Payload m) in
      l ++ [match r with Ok d => ("result", d) | Err e => ("error", JStr e) end])) as [(r & -> & Hr & Hne)|(Et & ->)].
  { apply (f_equal snd) in E. cbn [snd] in E. subst l. unfold handleMessage.
    destruct (decide (mType m = "build.task")) as [Et|Hne]; [right|left].
    - split; [done|]. rewrite Et. cbn [decide]. by destruct (handleBuildTask json_error c now (Payload m)).
    - repeat (case_decide as Ht; [first [by destruct Hne|by apply answered|eexists; split_and!; [reflexivity|reflexivity|done]]|clear Ht]).
      eexists. split_and!; [reflexivity|reflexivity|done]. }
  - rewrite decide_False by (by intros [? _]). by repeat constructor.
  - unfold handleBuildTask. destruct (decode_task (Payload m)) as [i|] eqn:Hd.
    + destruct (buildMod c); [rewrite decide_False by (by intros (_ & ? & _))|rewrite decide_True by by eauto]; by repeat constructor.
    + rewrite decide_False by (intros (_ & _ & [? ?]); done). by repeat constructor.
Qed.

(** ** Reconnecting *)

(** src/internal/core/timeout.go:56-56 BackoffBase *)
Definition BackoffBase : duration := Second.
(** src/internal/core/timeout.go:59-59 BackoffMax *)
Definition BackoffMax : duration := 30 * Second.

(** The wait before each attempt to connect again: a connection that was up in between does not
    bring it back to the start.
    src/internal/swarm/client.go:154-180 AgentClient.ConnectWithRetry *)
Fixpoint backoffs (n : nat) (b : duration) : list duration :=
  match n with
  | O => []
  | S n => b :: backoffs n (if BackoffMax <? i64 (b * 2) then BackoffMax else i64 (b * 2))
  end.

(** src/internal/swarm/client.go:184-197 AgentClient.dial.host *)
Definition dial_host (master : string) (port : Z) : string :=
  let host := TrimPrefix (TrimPrefix (TrimRight master "/") "https://") "http://" in
  if Contains host ":" then host else host +:+ ":" +:+ itoa (if port <=? 0 then 8443 else port).

Lemma backoffs_from n : ∀ k b,
  b = Z.min (2 ^ Z.of_nat k * Second) BackoffMax →
  backoffs n b = (λ j, Z.min (2 ^ Z.of_nat j * Second) BackoffMax) <$> seq k n.
Proof.
  induction n as [|n IH]; intros k b Hb; [done|]. cbn [backoffs seq fmap list_fmap]. f_equal; [done|]. apply IH.
  assert (0 < 2 ^ Z.of_nat k) as Hpos by (apply Z.pow_pos_nonneg; lia).
  assert (i64 (b * 2) = b * 2) as Hw.
  { rewrite i64_id; [done|]. unfold in_i64, min_int64, max_int64, BackoffMax, Second in *. lia. }
  rewrite Hw, Nat2Z.inj_succ, Z.pow_succ_r by lia. unfold BackoffMax, Second in *.
  destruct (Z.ltb_spec (30 * 1000000000) (b * 2)); lia.
Qed.

(** The waits double from one second and stop at thirty, whatever happened in between. *)
Theorem reconnect_waits n :
  backoffs n BackoffBase = (λ j, Z.min (2 ^ Z.of_nat j * Second) BackoffMax) <$> seq 0 n.
Proof. apply backoffs_from. done. Qed.

(** ** Examples *)

Definition logged {A} (what : string) (a : A) : act (W := list string) A := λ w, (w ++ [what], Ok a).

(** A runtime that writes down its calls. *)
Definition sample_runtime : ContainerRuntime (W := list string) :=
  {| Ping := logged "ping" tt; CreateAndStart := λ o, logged ("create " +:+ Name o) "c1"; Stop := λ i _, logged ("stop " +:+ i) tt;
     Remove := λ i _, logged ("remove " +:+ i) tt; Restart := λ i, logged ("restart " +:+ i) tt;
     Logs := λ i _ _, logged ("logs " +:+ i) ["one"; "two"]; ListByLabels := λ _, logged "list" [];
     Exec := λ i _, logged "exec" "out"; ImagePull := λ i, logged "pull" tt; EnsureNetwork := None |}.

Definition sample_agent : AgentClient (W := list string) :=
  {| serverID := "srv-1"; version := "1"; platform := "linux/amd64"; runtime := Some sample_runtime;
     sysRead := λ w, (w, {| mCPUPercent := f_zero; mRAMUsedMB := 0; mRAMTotalMB := 0; mDiskUsedMB := 0; mDiskTotalMB := 0; mLoadAvg := [f_zero; f_zero; f_zero] |});
     buildMod := false |}.

Definition sample_frame (m : AgentMessage) : option Z := Some 200.

(** A document without texts or numbers to look at passes. *)
Ltac pass := split; [vm_compute; reflexivity|eexists; split; [reflexivity|vm_compute; discriminate]].


Lemma remote_logs_are_the_first_read_witness :
  RemoteExecutor (λ _, "") sample_frame sample_agent 0 "r1" _ (OLogs "c9" "100" false) [] = (["logs c9"], Ok (first_read ["one"; "two"])).
Proof.
  refine (proj1 (remote_logs_are_the_first_read (λ _, "") sample_frame sample_agent sample_runtime 0 "r1" "c9" "100" [] _ ["one"; "two"] eq_refl eq_refl _ _)); pass.
Defined.

Definition bare_agent : AgentClient (W := list string) :=
  {| serverID := "srv-2"; version := "1"; platform := "linux/amd64"; runtime := None; sysRead := sysRead sample_agent; buildMod := false |}.

Lemma agent_without_runtime_refuses_witness :
  RemoteExecutor (λ _, "") sample_frame bare_agent 0 "r1" _ (OStop "c9" 10) ["x"] =
    (["x"], Err "agent error: container runtime not configured on agent").
Proof. refine (proj1 (agent_without_runtime_refuses (λ _, "") sample_frame bare_agent 0 "r1" ["x"] eq_refl _) _ _ _); pass. Defined.

(** A large number arrives as the nearest [float64]: a stop with a timeout of [2^53 + 1] reaches
    the runtime as [2^53]. *)
Definition timed_runtime : ContainerRuntime (W := list Z) :=
  {| Ping := ret tt; CreateAndStart := λ o w, (w ++ [MemoryMB o], Ok "c1"); Stop := λ _ t w, (w ++ [t], Ok tt);
     Remove := λ _ _, ret tt; Restart := λ _, ret tt; Logs := λ _ _ _, ret []; ListByLabels := λ _, ret [];
     Exec := λ _ _, ret ""; ImagePull := λ _, ret tt; EnsureNetwork := None |}.

Example large_numbers_change :
  RemoteExecutor (λ _, "") (λ _, Some 200)
    {| serverID := "srv-3"; version := "1"; platform := "linux/amd64"; runtime := Some timed_runtime;
       sysRead := λ w, (w, {| mCPUPercent := f_zero; mRAMUsedMB := 0; mRAMTotalMB := 0; mDiskUsedMB := 0; mDiskTotalMB := 0; mLoadAvg := [] |});
       buildMod := false |} 0 "r1" _ (OStop "c9" (2 ^ 53 + 1)) [] = ([2 ^ 53], Ok tt).
Proof. vm_compute. reflexivity. Qed.

Example largest_number : through_float64 max_int64 = 9223372036854776000.
Proof. vm_compute. reflexivity. Qed.

Example build_task_answered_twice :
  length (reply (λ _, "") sample_agent 0 {| mID := "r2"; mType := "build.task"; mServerID := ""; mTime := 0; Payload := JNull |} []).2 = 2%nat.
Proof. reflexivity. Qed.

Example waits : (λ d, d / Second) <$> backoffs 7 BackoffBase = [1; 2; 4; 8; 16; 30; 30].
Proof. reflexivity. Qed.

Example dial_default : dial_host "https://master.example/" 0 = "master.example:8443".
Proof. reflexivity. Qed.

End Agent.
