(* ===== verification/Build.v ===== *)
(** * Build: from a repository to an image ([internal/build])

    Detection of the project type, the checks on git URLs, Dockerfile paths, image tags and
    build arguments, the redaction of logs, the build pipeline with its events, and the worker
    pool.  The file system, DNS, git and docker are outcomes the pipeline is given; a Go map is
    the list its iteration gives. *)

From S2P Require Import Prelude GoStrings GoNet GoUrl Login.
#[local] Open Scope Z_scope.

Module Build.
Import GoNet.
Import GoUrl.

(** ** Project types *)

(** src/internal/build/detector.go:12-12 ProjectType *)
Inductive ProjectType :=
| TypeDockerfile | TypeDockerCompose | TypeNextJS | TypeVite | TypeNuxt | TypeNodeJS | TypeGo | TypeRust | TypePython | TypeRuby
| TypePHP | TypeJava | TypeDotNet | TypeStatic | TypeUnknown.

#[export] Instance ProjectType_dec : EqDecision ProjectType.
Proof. solve_decision. Defined.

(** src/internal/build/detector.go:33-37 DetectResult *)
Record DetectResult := { Type_ : ProjectType; Confidence : Z; Indicators : list string }.

(** src/internal/build/detector.go:40-45 detectorEntry *)
Record detectorEntry := { ptype : ProjectType; prereq : string; filenames : list string; isExt : bool }.

Definition files (t : ProjectType) (pre : string) (l : list string) : detectorEntry :=
  {| ptype := t; prereq := pre; filenames := l; isExt := false |}.

(** src/internal/build/detector.go:48-63 detectionTable *)
Definition detectionTable : list detectorEntry :=
  [files TypeDockerfile "" ["Dockerfile"];
   files TypeDockerCompose "" ["docker-compose.yml"; "docker-compose.yaml"; "compose.yml"; "compose.yaml"];
   files TypeNextJS "package.json" ["next.config.js"; "next.config.mjs"; "next.config.ts"];
   files TypeNuxt "package.json" ["nuxt.config.js"; "nuxt.config.ts"];
   files TypeVite "package.json" ["vite.config.js"; "vite.config.ts"; "vite.config.mjs"];
   files TypeNodeJS "" ["package.json"];
   files TypeGo "" ["go.mod"];
   files TypeRust "" ["Cargo.toml"];
   files TypePython "" ["requirements.txt"; "pyproject.toml"; "setup.py"; "Pipfile"];
   files TypeRuby "" ["Gemfile"];
   files TypePHP "" ["composer.json"];
   files TypeJava "" ["pom.xml"; "build.gradle"; "build.gradle.kts"];
   {| ptype := TypeDotNet; prereq := ""; filenames := [".csproj"; ".sln"; ".fsproj"]; isExt := true |};
   files TypeStatic "" ["index.html"]].

(** [filepath.Ext] of a name. *)
Definition Ext (name : string) : string :=
  match last_index "."%char (bytes name) with Some i => str (drop i (bytes name)) | None => "" end.

(** The first of a list that satisfies a test. *)
Definition first_such (f : string → bool) (l : list string) : option string := head (filter (λ x, f x = true) l).

(** [dir] is the sorted listing of the directory, [None] when it cannot be read; a file exists
    when it is listed.
    src/internal/build/detector.go:109-124 detectByExt *)
Definition detectByExt (e : detectorEntry) (dir : list string) : option (list string) :=
  (λ n, [n]) <$> first_such (λ n, bool_decide (Ext n ∈ filenames e)) dir.

(** src/internal/build/detector.go:91-106 detect *)
Definition detect (e : detectorEntry) (dir : list string) : option (list string) :=
  if decide (prereq e ≠ "" ∧ prereq e ∉ dir) then None
  else if isExt e then detectByExt e dir
  else (λ n, [n]) <$> first_such (λ n, bool_decide (n ∈ dir)) (filenames e).

Fixpoint detect_in (table : list detectorEntry) (dir : list string) : DetectResult :=
  match table with
  | [] => {| Type_ := TypeUnknown; Confidence := 0; Indicators := [] |}
  | e :: table =>
      match detect e dir with
      | Some found => {| Type_ := ptype e; Confidence := 90; Indicators := found |}
      | None => detect_in table dir
      end
  end.

(** src/internal/build/detector.go:66-77 Detect *)
Definition Detect (dir : list string) : DetectResult := detect_in detectionTable dir.

(** The types with a Dockerfile template.
    src/internal/build/dockerfiles.go:201-203 GetDockerfileTemplate *)
Definition has_template (t : ProjectType) : bool :=
  bool_decide (t ∈ [TypeNodeJS; TypeNextJS; TypeVite; TypeNuxt; TypeGo; TypeRust; TypePython; TypePHP; TypeJava; TypeDotNet;
                    TypeRuby; TypeStatic]).

(** ** Checks on what users give *)

Definition word (c : ascii) : bool := is_alnum c || bool_decide (c = "_"%char).
Definition all_of (f : ascii → bool) (l : list ascii) : bool := bool_decide (l ≠ []) && forallb f l.

(** src/internal/build/builder.go:235-235 shellMetaChars *)
Definition shell_meta (c : ascii) : bool := one_of ";|&$`!><(){}[]" c || bool_decide (c = byte 10 ∨ c = byte 13).

(** src/internal/build/builder.go:238-238 sshLikeURL *)
Definition sshLikeURL (s : string) : bool :=
  let name c := word c || one_of ".-" c in
  match cut s "@"%char with
  | (user, Some rest) =>
      match cut rest ":"%char with
      | (host, Some path) => all_of name (bytes user) && all_of name (bytes host) && all_of (λ c, word c || one_of "./-" c) (bytes path)
      | _ => false
      end
  | _ => false
  end.

(** src/internal/build/builder.go:269-269 dockerImageRef *)
Definition dockerImageRef (s : string) : bool := all_of (λ c, word c || one_of ".-/:" c) (bytes s).

Definition IsUnspecified (ip : IP) : bool := bool_decide (ip = replicate 16 0 ∨ ip = v4InV6Prefix ++ [0; 0; 0; 0]).

(** src/internal/build/builder.go:242-264 isPrivateOrBlockedIP *)
Definition isPrivateOrBlockedIP (host : string) : bool :=
  match ParseIP host with
  | None => false
  | Some ip => IsPrivate ip || IsLoopback ip || IsLinkLocalUnicast ip || IsUnspecified ip
  end.

(** src/internal/build/builder.go:382-391 isAbsPath *)
Definition isAbsPath (s : string) : bool :=
  match bytes s with
  | "/"%char :: _ => true
  | a :: ":"%char :: c :: _ => bool_decide (c = "/"%char ∨ c = byte 92) && is_alpha a
  | _ => false
  end.

Inductive git_error :=
| EmptyURL | Metacharacters | LeadingDash | LocalPath | Malformed | BadScheme (s : string) | NoHost | BlockedHost (h : string)
| LookupFailed (h : string) | ResolvedBlocked (h addr : string).

(** [allow] is whether the environment allows local paths.
    src/internal/build/builder.go:276-333 ValidateGitURL *)
Definition ValidateGitURL (allow : bool) (raw : string) : result git_error unit :=
  if decide (raw = "") then Err EmptyURL
  else if existsb shell_meta (bytes raw) then Err Metacharacters
  else if HasPrefix raw "-" then Err LeadingDash
  else if isAbsPath raw then if allow then Ok tt else Err LocalPath
  else if dockerImageRef raw && negb (GoStrings.Contains raw "://") then Ok tt
  else if sshLikeURL raw then Ok tt
  else match Parse raw with
  | None => Err Malformed
  | Some u =>
      if negb (bool_decide (Scheme u ∈ ["https"; "ssh"])) then Err (BadScheme (Scheme u))
      else if decide (Host u = "") then Err NoHost
      else if isPrivateOrBlockedIP (Host u) then Err (BlockedHost (Host u))
      else Ok tt
  end.

Section Network.
(** [net.LookupHost] *)
Variable LookupHost : string → option (list string).

(** src/internal/build/builder.go:339-379 validateResolvedHost *)
Definition validateResolvedHost (repoURL : string) : result git_error unit :=
  match Parse repoURL with
  | None => Err Malformed
  | Some u =>
      if bool_decide (Scheme u ∈ ["https"; "http"; "ssh"]) then
        if decide (Host u = "") then Ok tt
        else match LookupHost (Host u) with
        | None => Err (LookupFailed (Host u))
        | Some addrs =>
            match first_such isPrivateOrBlockedIP addrs with Some a => Err (ResolvedBlocked (Host u) a) | None => Ok tt end
        end
      else Ok tt
  end.

Inductive clone_error := InvalidURL (e : git_error) | BlockedRange (e : git_error) | AskpassFailed | GitFailed.

(** [tmp] is whether its files can be written.
    src/internal/build/builder.go:448-489 setupGitAskpass *)
Definition setupGitAskpass (tmp : bool) (repoURL : string) : bool :=
  match Parse repoURL with
  | None => false
  | Some u => bool_decide (Scheme u = "https") && negb (bool_decide (Host u = "")) && tmp
  end.

(** The arguments git runs with.
    src/internal/build/builder.go:416-420 gitClone.args *)
Definition clone_args (repoURL branch dir : string) : list string :=
  ["clone"; "--depth=1"; "-q"] ++ (if decide (branch = "") then [] else ["--branch"; branch]) ++ [repoURL; dir].

(** [git] is whether a git command succeeds, [head] the output of [rev-parse].
    src/internal/build/builder.go:394-446 gitClone *)
Definition gitClone (allow tmp : bool) (git : list string → bool) (head : option string) (repoURL branch token dir : string)
  : result clone_error string :=
  match ValidateGitURL allow repoURL with
  | Err e => Err (InvalidURL e)
  | Ok _ =>
      match validateResolvedHost repoURL with
      | Err e => Err (BlockedRange e)
      | Ok _ =>
          if negb (bool_decide (token = "")) && negb (setupGitAskpass tmp repoURL) then Err AskpassFailed
          else if git (clone_args repoURL branch dir) then
            Ok (match head with None => "" | Some sha => TrimSuffix sha (str [byte 10]) end)
          else Err GitFailed
      end
  end.
End Network.

(** src/internal/build/builder.go:588-598 registryHostFromImage *)
Definition registryHostFromImage (ref : string) : string :=
  match index_of ["/"%char] (bytes ref) with
  | None | Some O => ""
  | Some i =>
      let first := take i (bytes ref) in
      if bool_decide (str first = "localhost") || existsb (one_of ".:") first then str first else ""
  end.

Inductive auth_error := HalfCredentials | NoRegistry | AuthFile.

(** The registry the credentials are for; [None] when there are none.
    src/internal/build/builder.go:552-586 dockerAuthEnv *)
Definition dockerAuthEnv (tmp : bool) (imageTag username password : string) : result auth_error (option string) :=
  if decide (username = "" ∧ password = "") then Ok None
  else if decide (username = "" ∨ password = "") then Err HalfCredentials
  else if decide (registryHostFromImage imageTag = "") then Err NoRegistry
  else if tmp then Ok (Some (registryHostFromImage imageTag)) else Err AuthFile.

(** [filepath.Clean] of a relative path, component by component: leading parents stay. *)
Definition clean_rel_step (acc : list string) (e : string) : list string :=
  if decide (e = "" ∨ e = ".") then acc
  else if decide (e = "..") then
    match last acc with
    | Some x => if decide (x = "..") then acc ++ [".."] else take (length acc - 1) acc
    | None => [".."]
    end
  else acc ++ [e].

Definition clean_rel (s : string) : list string := foldl clean_rel_step [] (Split s "/"%char).

(** Components below the build directory; the second check repeats the first on the joined path.
    src/internal/build/builder.go:600-620 resolveDockerfilePath *)
Definition resolveDockerfilePath (buildDir : list string) (dockerfile : string) : option (list string) :=
  if decide (byte 0 ∈ bytes dockerfile) then None
  else if HasPrefix dockerfile "/" then None
  else match clean_rel dockerfile with
  | [] => None
  | c :: rel => if decide (c = "..") then None else Some (buildDir ++ c :: rel)
  end.

Definition tag_char (c : ascii) : bool := is_alnum c || one_of "._-" c.

(** src/internal/build/builder.go:624-624 validImageTagPattern *)
Definition validImageTagPattern (tag : string) : bool :=
  let '(named, digest) := cut tag "@"%char in
  let '(name, version) := cut named ":"%char in
  forallb (λ s, match s with c :: r => is_alnum c && forallb tag_char r | [] => false end) (split_on "/"%char (bytes name)) &&
  match version with Some v => all_of tag_char (bytes v) | None => true end &&
  match digest with Some d => all_of (λ c, is_alnum c || bool_decide (c = ":"%char)) (bytes d) | None => true end.

(** src/internal/build/builder.go:626-634 validateDockerImageTag *)
Definition validateDockerImageTag (tag : string) : bool := negb (bool_decide (tag = "")) && validImageTagPattern tag.

(** src/internal/build/builder.go:638-654 validateBuildArg *)
Definition validateBuildArg (key value : string) : bool :=
  match bytes key with c :: r => (is_alpha c || bool_decide (c = "_"%char)) && forallb word r | [] => false end &&
  negb (existsb (λ c, bool_decide (c ∈ [byte 0; byte 10; byte 13])) (bytes value)) && negb (HasPrefix value "-").

(** [strings.ReplaceAll] of a text that is not empty. *)
Fixpoint replace_all (fuel : nat) (old new l : list ascii) : list ascii :=
  match fuel with
  | O => l
  | S fuel =>
      match index_of old l with
      | Some i => take i l ++ new ++ replace_all fuel old new (drop (i + length old) l)
      | None => l
      end
  end.

Definition redacted : list ascii := bytes "[redacted]".

Definition redact1 (out : list ascii) (secret : string) : list ascii :=
  if decide (secret = "") then out else replace_all (length out) (bytes secret) redacted out.

(** src/internal/build/builder.go:59-71 redactingWriter.Write *)
Definition redact (secrets : list string) (p : list ascii) : list ascii := foldl redact1 p secrets.

(** ** The pipeline *)

(** src/internal/build/builder.go:22-36 BuildOpts *)
Record BuildOpts := {
  oAppID : string; AppName : string; SourceURL : string; Branch : string; oCommitSHA : string; Token : string;
  Dockerfile : string; BuildArgs : list (string * string); oImageTag : string; Push : bool; RegistryUsername : string;
  RegistryPassword : string }.

(** src/internal/build/builder.go:39-45 BuildResult *)
Record BuildResult := { ImageTag : string; rType : ProjectType; CommitSHA : string }.

(** What the pipeline finds: the environment, the network, git, the clone and docker. *)
Record world := {
  allowLocal : bool; mkdir : bool; tmp : bool; lookup : string → option (list string); git : list string → bool;
  revParse : option string; listing : list string; present : list string → bool; canWrite : bool; docker : list string → bool;
  freshID : string; workDir : list string }.

Inductive build_error :=
| MkdirFailed | CloneFailed (e : clone_error) | BadDockerfile | TemplateNotWritten | NoDockerfile (t : ProjectType)
| AuthFailed (e : auth_error) | BadTag | BadArg (k : string) | DockerFailed | PushFailed.

Inductive build_event := Started (app sha : string) | Completed (app sha : string) | Failed (app : string) (e : build_error).

Definition path_string (p : list string) : string := "/" +:+ Join p "/".

(** src/internal/build/builder.go:158-166 Builder.Build.tag *)
Definition image_tag (o : BuildOpts) (sha fresh : string) : string :=
  if decide (oImageTag o = "") then
    let suffix := Login.ShortID sha 8 in
    "monster/" +:+ AppName o +:+ ":" +:+ (if decide (suffix = "") then Login.ShortID fresh 8 else suffix)
  else oImageTag o.

(** The loop over the build arguments.
    src/internal/build/builder.go:519-525 dockerBuild.args *)
Fixpoint arg_flags (l : list (string * string)) : result build_error (list string) :=
  match l with
  | [] => Ok []
  | (k, v) :: l =>
      if validateBuildArg k v then rest ←! arg_flags l; Ok ("--build-arg" :: (k +:+ "=" +:+ v) :: rest) else Err (BadArg k)
  end.

(** The command, or why it is not run.
    src/internal/build/builder.go:511-537 dockerBuild *)
Definition dockerBuild (contextDir dockerfile tag : string) (args : list (string * string)) : result build_error (list string) :=
  if validateDockerImageTag tag then
    flags ←! arg_flags args; Ok (["build"; "--force-rm"; "-t"; tag; "-f"; dockerfile] ++ flags ++ [contextDir])
  else Err BadTag.

(** src/internal/build/builder.go:539-550 dockerPush *)
Definition dockerPush (tag : string) : result build_error (list string) :=
  if validateDockerImageTag tag then Ok ["push"; tag] else Err BadTag.

(** The Dockerfile of a build: the given path, a generated file, or the one of the repository.
    src/internal/build/builder.go:135-156 Builder.Build.dockerfile *)
Definition dockerfile_of (w : world) (o : BuildOpts) (dir : list string) (t : ProjectType) : result build_error (list string) :=
  if decide (Dockerfile o = "") then
    let p := dir ++ ["Dockerfile"] in
    if negb (bool_decide (t = TypeDockerfile ∨ t = TypeUnknown)) && has_template t then
      if canWrite w then Ok p else Err TemplateNotWritten
    else if bool_decide ("Dockerfile" ∈ listing w) then Ok p else Err (NoDockerfile t)
  else match resolveDockerfilePath dir (Dockerfile o) with
  | None => Err BadDockerfile
  | Some p => if present w p then Ok p else Err (NoDockerfile t)
  end.

(** Docker's commands of a build: what is run, and the result. *)
Definition run_docker (w : world) (o : BuildOpts) (dir dockerfile : list string) (tag : string)
  : list (list string) * result build_error unit :=
  match dockerBuild (path_string dir) (path_string dockerfile) tag (BuildArgs o) with
  | Err e => ([], Err e)
  | Ok cmd =>
      if negb (docker w cmd) then ([cmd], Err DockerFailed)
      else if Push o then
        match dockerPush tag with
        | Err e => ([cmd], Err e)
        | Ok push => ([cmd; push], if docker w push then Ok tt else Err PushFailed)
        end
      else ([cmd], Ok tt)
  end.

Record outcome := { verdict : result build_error BuildResult; events : list build_event; commands : list (list string) }.

(** Two failures are returned without an event: the work directory and the generated file. *)
Definition silent (e : build_error) : bool :=
  match e with MkdirFailed | TemplateNotWritten => true | _ => false end.

Definition failed (o : BuildOpts) (e : build_error) (cmds : list (list string)) : outcome :=
  {| verdict := Err e;
     events := Started (oAppID o) (oCommitSHA o) :: (if silent e then [] else [Failed (oAppID o) e]); commands := cmds |}.

(** src/internal/build/builder.go:83-202 Builder.Build *)
Definition run_build (w : world) (o : BuildOpts) : outcome :=
  if negb (mkdir w) then failed o MkdirFailed []
  else
    let dir := workDir w ++ ["monster-build-" +:+ freshID w] in
    match gitClone (lookup w) (allowLocal w) (tmp w) (git w) (revParse w) (SourceURL o) (Branch o) (Token o) (path_string dir) with
    | Err e => failed o (CloneFailed e) []
    | Ok commitSHA =>
        let sha := if decide (oCommitSHA o = "") then commitSHA else oCommitSHA o in
        let t := Type_ (Detect (listing w)) in
        match dockerfile_of w o dir t with
        | Err e => failed o e []
        | Ok dockerfile =>
            let tag := image_tag o sha (freshID w) in
            match dockerAuthEnv (tmp w) tag (RegistryUsername o) (RegistryPassword o) with
            | Err e => failed o (AuthFailed e) []
            | Ok _ =>
                match run_docker w o dir dockerfile tag with
                | (cmds, Err e) => failed o e cmds
                | (cmds, Ok _) =>
                    {| verdict := Ok {| ImageTag := tag; rType := t; CommitSHA := sha |};
                       events := [Started (oAppID o) (oCommitSHA o); Completed (oAppID o) sha]; commands := cmds |}
                end
            end
        end
    end.

(** ** Cloning *)

Lemma first_such_None f l : first_such f l = None ↔ Forall (λ x, f x = false) l.
Proof.
  unfold first_such. induction l as [|x l IH]; [done|]. rewrite Forall_cons, filter_cons. case_decide as E.
  - split; [done|]. intros [H _]. congruence.
  - rewrite IH. apply not_true_is_false in E. tauto.
Qed.

Lemma first_such_Some f l x : first_such f l = Some x → x ∈ l ∧ f x = true.
Proof.
  unfold first_such. intros E. assert (x ∈ filter (λ x, f x = true) l) as [Hf Hl]%list_elem_of_filter; [|done].
  destruct (filter (λ x, f x = true) l); [done|]. injection E as ->. apply list_elem_of_here.
Qed.

(** Whether a clone got as far as git. *)
Definition ran_git (r : result clone_error string) : bool :=
  match r with Ok _ | Err GitFailed => true | _ => false end.

(** The address ranges of networks that are not the Internet's: private, loopback, link-local
    (where clouds keep their metadata) and the unspecified address. *)
Inductive internal_address : IP → Prop :=
| Private10 b c d : internal_address (v4InV6Prefix ++ [10; b; c; d])
| Private172 b c d : 16 ≤ b ≤ 31 → internal_address (v4InV6Prefix ++ [172; b; c; d])
| Private192 c d : internal_address (v4InV6Prefix ++ [192; 168; c; d])
| Loopback4 b c d : internal_address (v4InV6Prefix ++ [127; b; c; d])
| LinkLocal4 c d : internal_address (v4InV6Prefix ++ [169; 254; c; d])
| Unspecified4 : internal_address (v4InV6Prefix ++ [0; 0; 0; 0])
| Private6 a r : a = 252 ∨ a = 253 → internal_address (a :: r)
| Loopback6 : internal_address (replicate 15 0 ++ [1])
| LinkLocal6 b r : 128 ≤ b ≤ 191 → internal_address (254 :: b :: r)
| Unspecified6 : internal_address (replicate 16 0).

Lemma land_range k m lo hi b :
  forallb (λ b, Z.land b m =? k) (seqZ lo (hi - lo + 1)) = true → lo ≤ b ≤ hi → Z.land b m = k.
Proof.
  intros Hall Hb. apply Z.eqb_eq. rewrite forallb_forall in Hall. apply (Hall b).
  apply list_elem_of_In, elem_of_seqZ. lia.
Qed.

Lemma internal_blocked s ip : ParseIP s = Some ip → internal_address ip → isPrivateOrBlockedIP s = true.
Proof.
  intros Hs Hi. unfold isPrivateOrBlockedIP. rewrite Hs. destruct Hi as [|b c d Hb| | | | |a r [->| ->]| |b r Hb|]; try reflexivity.
  - change (IsPrivate _) with ((Z.land b 240 =? 16) || false). by rewrite (land_range 16 240 16 31 b).
  - change (IsLinkLocalUnicast _) with (Z.land b 192 =? 128). by rewrite (land_range 128 192 128 191 b), ?orb_true_r.
Qed.

(** C18. Git runs only on a URL without shell characters that does not begin with a dash, and on an
    https, http or ssh URL with a host only when the host resolved, at that time, and no address
    it resolved to is private (10/8, 172.16/12, 192.168/16, fc00::/7), loopback, link-local or
    unspecified.  Multicast and carrier-grade NAT addresses are let through, against the comment
    of [isPrivateOrBlockedIP] on multicast; git resolves the host again; an image reference or an
    allowed local path has no host to check. *)
Theorem git_runs_on_public_hosts lookup allow tmp git head url branch token dir :
  ran_git (gitClone lookup allow tmp git head url branch token dir) = true →
  Forall (λ c, shell_meta c = false) (bytes url) ∧ HasPrefix url "-" = false ∧
  ∀ u, Parse url = Some u → Scheme u ∈ ["https"; "http"; "ssh"] → Host u ≠ "" →
    ∃ addrs, lookup (Host u) = Some addrs ∧ Forall (λ a, ∀ ip, ParseIP a = Some ip → ¬ internal_address ip) addrs.
Proof.
  unfold gitClone. destruct (ValidateGitURL allow url) as [[]|e] eqn:Hv; [|done].
  destruct (validateResolvedHost lookup url) as [[]|e] eqn:Hr; [|done]. intros _.
  unfold ValidateGitURL in Hv. destruct (decide (url = "")); [done|].
  destruct (existsb shell_meta (bytes url)) eqn:Hm; [done|]. destruct (HasPrefix url "-") eqn:Hd; [done|].
  split_and!; [|done|].
  - apply Forall_forall. intros c Hc. destruct (shell_meta c) eqn:E; [|done].
    rewrite <- Hm. symmetry. apply existsb_exists. exists c. split; [by apply list_elem_of_In|done].
  - intros u Hu Hs Hh. unfold validateResolvedHost in Hr. rewrite Hu in Hr. rewrite bool_decide_eq_true_2, decide_False in Hr by done.
    destruct (lookup (Host u)) as [addrs|]; [|done]. exists addrs. split; [done|].
    destruct (first_such isPrivateOrBlockedIP addrs) eqn:E; [done|]. apply first_such_None in E.
    eapply Forall_impl; [exact E|]. cbn. intros a Ha ip Hip Hi. pose proof (internal_blocked a ip Hip Hi). congruence.
Qed.

(** What the check lets through although its comment names it: multicast; and carrier-grade NAT. *)
Theorem multicast_is_not_blocked :
  isPrivateOrBlockedIP "224.0.0.1" = false ∧ isPrivateOrBlockedIP "ff02::1" = false ∧ isPrivateOrBlockedIP "100.64.0.1" = false.
Proof. vm_compute. done. Qed.

Lemma scheme_from_at l r : ∀ acc,
  forallb (λ c, word c || one_of ".-" c) l = true → scheme_from acc (l ++ "@"%char :: r) = Some None.
Proof.
  induction l as [|c l IH]; intros acc Hl; [done|]. cbn [forallb] in Hl. apply andb_true_iff in Hl as [Hc Hl]. cbn [app scheme_from].
  destruct (is_alpha c) eqn:Ha; [by apply IH|]. destruct (is_digit c || one_of "+-." c) eqn:Hd; [case_decide; [done|by apply IH]|].
  rewrite decide_False; [done|]. intros ->. done.
Qed.

Lemma before_first_none (c : ascii) l : c ∉ l → before_first c l = l.
Proof.
  intros Hc. unfold before_first. assert (index_of [c] l = None) as ->; [|done].
  induction l as [|x l IH]; [done|]. apply not_elem_of_cons in Hc as [Hx Hl]. cbn [index_of].
  rewrite decide_False by (intros [? [= ?]]; congruence). by rewrite IH.
Qed.

Lemma before_first_app (c : ascii) l r : c ∉ l → before_first c (l ++ r) = l ++ before_first c r.
Proof.
  intros Hc. induction l as [|x l IH]; [done|]. apply not_elem_of_cons in Hc as [Hx Hl]. specialize (IH Hl).
  unfold before_first in *. cbn [index_of app]. rewrite decide_False by (intros [? [= ?]]; congruence).
  destruct (index_of [c] (l ++ r)) as [i|]; cbn [fmap option_fmap option_map]; cbn [take]; by rewrite IH.
Qed.

Lemma cut_Some s c a b : cut s c = (a, Some b) → bytes s = bytes a ++ c :: bytes b ∧ c ∉ bytes a.
Proof.
  unfold cut. destruct (index_of [c] (bytes s)) as [i|] eqn:E; [|done]. intros [= <- <-]. rewrite !bytes_str.
  revert i E. induction (bytes s) as [|x l IH]; intros i; cbn [index_of].
  - rewrite decide_False by (intros [? ?]; done). done.
  - case_decide as Hp.
    + intros [= <-]. destruct Hp as [k Hk]. injection Hk as -> _. cbn. by split; [|apply not_elem_of_nil].
    + destruct (index_of [c] l) as [j|]; [|done]. intros [= <-]. destruct (IH j eq_refl) as [Hl Hn]. cbn [take drop plus app].
      split; [by f_equal|]. apply not_elem_of_cons. split; [|done]. intros ->. apply Hp. by exists l.
Qed.

Lemma all_of_notin f l c : all_of f l = true → f c = false → c ∉ l.
Proof.
  unfold all_of. rewrite andb_true_iff, forallb_forall. intros [_ Hf] Hc Hin. rewrite (Hf c) in Hc; [done|]. by apply list_elem_of_In.
Qed.

Lemma ssh_url_unparsable url : sshLikeURL url = true → Parse url = None.
Proof.
  unfold sshLikeURL. destruct (cut url "@"%char) as [user [rest|]] eqn:E1; [|done]. destruct (cut rest ":"%char) as [host [path|]] eqn:E2; [|done].
  apply cut_Some in E1 as [E1 _], E2 as [E2 _]. rewrite !andb_true_iff. intros [[Hu Hh] Hp].
  assert (∀ c, (word c || one_of ".-" c) = false → (word c || one_of "./-" c) = false → c ≠ "@"%char → c ≠ ":"%char → c ∉ bytes url) as Hno.
  { intros c H1 H2 H3 H4. rewrite E1, E2. rewrite !not_elem_of_app, !not_elem_of_cons, not_elem_of_app, not_elem_of_cons.
    split_and!; try done; eapply all_of_notin; done. }
  unfold Parse. rewrite before_first_none by (by apply Hno). unfold parse_plain. destruct (existsb is_ctl (bytes url)); [done|].
  unfold get_scheme. rewrite E1, scheme_from_at by (unfold all_of in Hu; by apply andb_true_iff in Hu as [_ ->]). rewrite <- E1.
  cbn [mbind option_bind]. rewrite before_first_none by (by apply Hno).
  unfold all_of in Hu. apply andb_true_iff in Hu as [Hne Hu]. rewrite bool_decide_eq_true in Hne.
  assert (bool_decide (["/"%char] `prefix_of` bytes url) = false) as ->.
  { apply bool_decide_eq_false. intros [k Hk]. rewrite E1 in Hk. destruct (bytes user) as [|x l]; [done|]. injection Hk as -> _. done. }
  cbn [negb]. rewrite decide_False by (intros H; by apply H). rewrite decide_True; [done|].
  rewrite E1, E2. assert ("/"%char ∉ bytes user) as Hs1 by (eapply (all_of_notin (λ c, word c || one_of ".-" c)); [unfold all_of; by rewrite Hu, bool_decide_eq_true_2|done]).
  assert ("/"%char ∉ bytes host) as Hs2 by (by eapply all_of_notin).
  rewrite before_first_app by done. apply elem_of_app. right.
  change ("@"%char :: bytes host ++ ":"%char :: bytes path) with (("@"%char :: bytes host) ++ ":"%char :: bytes path).
  rewrite before_first_app by (apply not_elem_of_cons; split; [done|done]). apply elem_of_app. right.
  change (":"%char :: bytes path) with ([":"%char] ++ bytes path). rewrite before_first_app; [apply elem_of_app; left; apply list_elem_of_here|].
  intros H%list_elem_of_singleton. done.
Qed.

(** No repository in the shorthand form [git@host:org/repo] is ever cloned: the check of its host
    cannot parse it and refuses. *)
Theorem ssh_shorthand_never_clones lookup allow tmp git head url branch token dir :
  sshLikeURL url = true → ran_git (gitClone lookup allow tmp git head url branch token dir) = false.
Proof.
  intros Hs. unfold gitClone, validateResolvedHost. rewrite (ssh_url_unparsable url Hs). by destruct (ValidateGitURL allow url).
Qed.

(** A repository that reads as an image reference is cloned without a look at its host. *)
Theorem image_reference_skips_host_check lookup allow tmp git head branch dir :
  gitClone lookup allow tmp git head "localhost:org/repo" branch "" dir =
    if git (clone_args "localhost:org/repo" branch dir) then
      Ok (match head with None => "" | Some sha => TrimSuffix sha (str [byte 10]) end)
    else Err GitFailed.
Proof. unfold gitClone. reflexivity. Qed.

(** ** The Dockerfile of a build *)

Definition name_ok (e : string) : Prop := e ≠ "" ∧ e ≠ "." ∧ e ≠ ".." ∧ "/"%char ∉ bytes e.

(** Leading parents, then names. *)
Definition cleaned (l : list string) : Prop := ∃ n rest, l = replicate n ".." ++ rest ∧ Forall name_ok rest.

Lemma clean_rel_step_cleaned acc e : "/"%char ∉ bytes e → cleaned acc → cleaned (clean_rel_step acc e).
Proof.
  intros He (n & rest & -> & Hr). unfold clean_rel_step. case_decide as H1; [by exists n, rest|]. case_decide as H2.
  - destruct rest as [|x rest _] using rev_ind.
    + rewrite app_nil_r. destruct n as [|n]; [by exists 1%nat, []|]. rewrite replicate_S_end, last_snoc, decide_True by done.
      exists (S (S n)), []. by rewrite <- !replicate_S_end, app_nil_r.
    + rewrite app_assoc, last_snoc. apply Forall_app in Hr as [Hr Hx]. apply Forall_singleton in Hx as (_ & _ & Hx & _).
      rewrite decide_False by done. rewrite length_app. cbn [length]. rewrite Nat.add_sub, take_app_length. by exists n, rest.
  - exists n, (rest ++ [e]). split; [by rewrite app_assoc|]. apply Forall_app. split; [done|]. apply Forall_singleton.
    unfold name_ok. tauto.
Qed.

Lemma split_on_no_sep c l : Forall (λ w, c ∉ w) (split_on c l).
Proof.
  induction l as [|x l IH]; cbn [split_on]; [apply Forall_singleton, not_elem_of_nil|]. case_decide as E.
  - apply Forall_cons. split; [apply not_elem_of_nil|done].
  - destruct (split_on c l) as [|w ws]; [apply Forall_singleton|apply Forall_cons in IH as [Hw Hws]; apply Forall_cons; split; [|done]];
      apply not_elem_of_cons; (split; [done|]); [apply not_elem_of_nil|done].
Qed.

Lemma clean_rel_cleaned s : cleaned (clean_rel s).
Proof.
  unfold clean_rel, Split. assert (Forall (λ e, "/"%char ∉ bytes e) (str <$> split_on "/"%char (bytes s))) as Hs.
  { apply Forall_fmap. eapply Forall_impl; [apply split_on_no_sep|]. intros w Hw. cbn. by rewrite bytes_str. }
  revert Hs. generalize (str <$> split_on "/"%char (bytes s)). intros l. assert (cleaned []) as H0 by (by exists 0%nat, []).
  revert H0. generalize (@nil string). induction l as [|e l IH]; intros acc Hacc Hl; [done|]. apply Forall_cons in Hl as [He Hl].
  cbn [foldl]. apply IH; [by apply clean_rel_step_cleaned|done].
Qed.

(** C19. The Dockerfile a user names is a file below the build directory: its path goes on from the
    directory through plain names only, whatever parents, dots and slashes the user writes. *)
Theorem dockerfile_stays_in_context dir f p :
  resolveDockerfilePath dir f = Some p → ∃ rel, p = dir ++ rel ∧ rel ≠ [] ∧ Forall name_ok rel.
Proof.
  unfold resolveDockerfilePath. case_decide; [done|]. destruct (HasPrefix f "/"); [done|].
  destruct (clean_rel_cleaned f) as (n & rest & Hc & Hr). rewrite Hc. destruct n as [|n]; cbn [replicate app]; [|by rewrite decide_True].
  destruct rest as [|c rest]; [done|]. case_decide; [done|]. intros [= <-]. by exists (c :: rest).
Qed.

Lemma detect_in_type dir table :
  Type_ (detect_in table dir) = TypeUnknown ∨ ∃ e, e ∈ table ∧ ptype e = Type_ (detect_in table dir) ∧ is_Some (detect e dir).
Proof.
  induction table as [|e table IH]; [by left|]. cbn [detect_in]. destruct (detect e dir) eqn:E.
  - right. exists e. split_and!; [apply list_elem_of_here|done|by eexists].
  - destruct IH as [IH|(x & Hx & Hrest)]; [by left|]. right. exists x. split; [by right|done].
Qed.

(** A repository is detected by the first entry of the table that it matches: nothing above the
    entry matches, its file is there, and every type but compose and unknown has a Dockerfile. *)
Theorem detection_is_first_match dir :
  let t := Type_ (Detect dir) in
  (t = TypeUnknown ∧ Forall (λ e, detect e dir = None) detectionTable ∨
   ∃ above e below, detectionTable = above ++ e :: below ∧ ptype e = t ∧
     Forall (λ x, detect x dir = None) above ∧ detect e dir = Some (Indicators (Detect dir)) ∧
     Forall (λ f, f ∈ dir) (Indicators (Detect dir))) ∧
  (t ∈ [TypeDockerfile; TypeDockerCompose; TypeUnknown] ∨ has_template t = true).
Proof.
  cbv zeta. split.
  - unfold Detect. generalize detectionTable. induction l as [|e table IH]; [left; by split; [|constructor]|]. cbn [detect_in].
    destruct (detect e dir) as [found|] eqn:E.
    + right. exists [], e, table. split_and!; [done|done|constructor|done|]. cbn [Indicators].
      unfold detect in E. case_decide; [done|]. destruct (isExt e); [unfold detectByExt in E|].
      * destruct (first_such _ dir) as [n|] eqn:Hn; [|done]. injection E as <-. apply Forall_singleton.
        by apply first_such_Some in Hn as [? _].
      * destruct (first_such _ (filenames e)) as [n|] eqn:Hn; [|done]. injection E as <-. apply Forall_singleton.
        apply first_such_Some in Hn as [_ Hd]. by rewrite bool_decide_eq_true in Hd.
    + destruct IH as [[Ht Hf]|(above & x & below & -> & Hx & Hf & Hd & Hi)].
      * left. split; [done|]. by constructor.
      * right. exists (e :: above), x, below. split_and!; try done. by constructor.
  - destruct (detect_in_type dir detectionTable) as [H|(e & He & Ht & _)]; [left; unfold Detect; rewrite H; apply (bool_decide_eq_true_1 _); reflexivity|].
    assert (Forall (λ e, ptype e ∈ [TypeDockerfile; TypeDockerCompose; TypeUnknown] ∨ has_template (ptype e) = true) detectionTable) as Hall.
    { repeat (apply Forall_cons; split; [first [right; reflexivity|left; apply (bool_decide_eq_true_1 _); reflexivity]|]). constructor. }
    rewrite Forall_forall in Hall. specialize (Hall e He). by rewrite Ht in Hall.
Qed.

(** ** Redaction *)

Definition occurs (sub l : list ascii) : Prop := ∃ a b, l = a ++ sub ++ b.

Lemma index_of_absent sub l : index_of sub l = None → ¬ occurs sub l.
Proof.
  induction l as [|x l IH]; cbn [index_of]; case_decide as H1; try done.
  - intros _ (a & b & E). destruct a; [|done]. apply H1. by exists b.
  - destruct (index_of sub l); [done|]. intros _ (a & b & E). destruct a as [|y a].
    + apply H1. by exists b.
    + injection E as -> E. apply IH; [done|]. by exists a, b.
Qed.

(** The first place a text is at: what is before it does not reach into it. *)
Lemma index_of_first sub l i :
  index_of sub l = Some i → ∀ a b, l = a ++ sub ++ b → (i ≤ length a)%nat.
Proof.
  revert i. induction l as [|x l IH]; intros i; cbn [index_of]; case_decide as H1; try done; try (intros [= <-]; lia).
  destruct (index_of sub l) as [j|]; [|done]. intros [= <-] a b E. destruct a as [|y a].
  - exfalso. apply H1. by exists b.
  - injection E as -> E. cbn. specialize (IH j eq_refl a b E). lia.
Qed.

Lemma occurs_across (c : ascii) sub x y : c ∉ sub → occurs sub (x ++ c :: y) → occurs sub x ∨ occurs sub y.
Proof.
  intros Hc (a & b & E). revert a E. induction x as [|z x IH]; intros a E.
  - destruct a as [|d a]; cbn in E.
    + destruct sub as [|s sub]; [left; by exists [], []|]. injection E as -> _. by destruct Hc; apply list_elem_of_here.
    + injection E as -> E. right. by exists a, b.
  - destruct a as [|d a]; cbn in E.
    + left. assert (sub `prefix_of` z :: x) as [k Hk].
      { clear IH. change (z :: x ++ c :: y) with ((z :: x) ++ c :: y) in E. revert E. generalize (z :: x). clear -Hc. intros l. revert l.
        induction sub as [|s sub IH]; intros l E; [apply prefix_nil|]. apply not_elem_of_cons in Hc as [Hs Hc].
        destruct l as [|t l]; [injection E as -> _; done|]. injection E as -> E. apply prefix_cons, IH; done. }
      exists [], k. done.
    + injection E as -> E. destruct (IH a E) as [(a' & b' & ->)|]; [|by right]. left. exists (d :: a'), b'. done.
Qed.

Lemma replace_all_hides sub fuel : ∀ l,
  "["%char ∉ sub → "]"%char ∉ sub → ¬ occurs sub (bytes "redacted") → sub ≠ [] → (length l ≤ fuel)%nat →
  ¬ occurs sub (replace_all fuel sub redacted l).
Proof.
  induction fuel as [|fuel IH]; intros l Hl Hr Hred Hne Hf; cbn [replace_all].
  - destruct l; [|cbn in Hf; lia]. intros (a & b & E). destruct a, sub; done.
  - destruct (index_of sub l) as [i|] eqn:Hi; [|by apply index_of_absent].
    set (R := replace_all fuel sub redacted _). change (redacted ++ R) with ("["%char :: (bytes "redacted" ++ "]"%char :: R)). intros Ho.
    apply occurs_across in Ho as [(a & b & E)|Ho]; [| |done].
    + assert (l = a ++ sub ++ (b ++ drop i l)) as El by (rewrite <- (take_drop i l) at 1; rewrite E, <- !app_assoc; done).
      pose proof (index_of_first _ _ _ Hi _ _ El) as Hle. apply (f_equal length) in E. rewrite !length_app, length_take in E.
      destruct sub; [done|]. cbn [length] in E. lia.
    + apply occurs_across in Ho as [Ho|Ho]; [done| |done].
      revert Ho. apply IH; try done. rewrite length_drop. destruct sub; [done|]. cbn [length]. 
      assert (l ≠ []) by (intros ->; cbn in Hi; case_decide as Hp; [by apply prefix_nil_not in Hp|done]). destruct l; [done|]. cbn [length] in *. lia.
Qed.

(** One write of git's output does not show the token, wherever and however often it is in it.
    The token is a usual one: without brackets and not part of the word that stands for it. *)
Theorem redacted_output_hides_token token out :
  token ≠ "" → "["%char ∉ bytes token → "]"%char ∉ bytes token → ¬ occurs (bytes token) (bytes "redacted") →
  ¬ occurs (bytes token) (redact [token] out).
Proof.
  intros Hne Hl Hr Hred. cbn. unfold redact1. rewrite decide_False by done. apply replace_all_hides; try done.
  intros E. apply Hne. rewrite <- (str_bytes token), E. done.
Qed.

(** ** Images and commands *)

Lemma cut_None s c a : cut s c = (a, None) → a = s ∧ c ∉ bytes s.
Proof.
  unfold cut. destruct (index_of [c] (bytes s)) eqn:E; [done|]. intros [= <-]. split; [done|].
  intros (a & b & Hab)%list_elem_of_split. apply (index_of_absent _ _ E). exists a, b. done.
Qed.

Lemma all_of_lookup f l k (c : ascii) : all_of f l = true → f c = false → l !! k ≠ Some c.
Proof. intros Hl Hc Hk. eapply all_of_notin; [done..|]. by eapply list_elem_of_lookup_2. Qed.

(** A tag with a colon before a slash does not match. *)
Lemma colon_then_slash tag p k :
  bytes tag !! p = Some ":"%char → bytes tag !! k = Some "/"%char → (p < k)%nat → validImageTagPattern tag = false.
Proof.
  intros Hp Hk Hlt. apply not_true_is_false. unfold validImageTagPattern. destruct (cut tag "@"%char) as [named digest] eqn:Hat.
  assert (∃ d, bytes tag = bytes named ++ d ∧
    match digest with Some x => d = "@"%char :: bytes x | None => d = [] end) as (d & Ed & Hd).
  { destruct digest as [x|]; [apply cut_Some in Hat as [-> _]; by eexists|]. apply cut_None in Hat as [-> _]. exists []. by rewrite app_nil_r. }
  destruct (cut named ":"%char) as [name version] eqn:Hc. rewrite !andb_true_iff. intros [[_ Hv] Hg]. rewrite Ed in Hp, Hk.
  destruct (decide (k < length (bytes named))%nat) as [Hin|Hout].
  - rewrite lookup_app_l in Hp, Hk by lia. destruct version as [v|].
    + apply cut_Some in Hc as [En Hn]. rewrite En in Hp, Hk.
      assert (length (bytes name) ≤ p)%nat as Hle.
      { destruct (decide (length (bytes name) ≤ p)%nat); [done|]. rewrite lookup_app_l in Hp by lia. by apply list_elem_of_lookup_2 in Hp. }
      rewrite lookup_app_r in Hk by lia. destruct (k - length (bytes name))%nat as [|j] eqn:Ej; [lia|]. cbn in Hk.
      revert Hk. by apply (all_of_lookup tag_char).
    + apply cut_None in Hc as [_ Hn]. by apply list_elem_of_lookup_2 in Hp.
  - rewrite lookup_app_r in Hk by lia. destruct digest as [x|]; subst d; [|by rewrite lookup_nil in Hk].
    destruct (k - length (bytes named))%nat as [|j]; [done|]. cbn in Hk. revert Hk.
    by apply (all_of_lookup (λ c, is_alnum c || bool_decide (c = ":"%char))).
Qed.

Lemma index_of_lookup c l i : index_of [c] l = Some i → l !! i = Some c.
Proof.
  revert i. induction l as [|x l IH]; intros i; cbn [index_of]; case_decide as Hp; try done.
  - by apply prefix_nil_not in Hp.
  - intros [= <-]. destruct Hp as [k Hk]. by injection Hk as -> _.
  - destruct (index_of [c] l) as [j|]; [|done]. intros [= <-]. by apply IH.
Qed.

(** No image of a registry with a port can be built or pushed, though credentials for one are
    accepted: a valid tag has its colon after its last slash. *)
Theorem registry_port_never_builds tag :
  validateDockerImageTag tag = true → ":"%char ∉ bytes (registryHostFromImage tag).
Proof.
  unfold validateDockerImageTag, registryHostFromImage. rewrite andb_true_iff. intros [_ Hv] Hin.
  destruct (index_of ["/"%char] (bytes tag)) as [[|i]|] eqn:Hi; [by apply elem_of_nil in Hin| |by apply elem_of_nil in Hin].
  destruct (_ || _); [|by apply elem_of_nil in Hin]. rewrite bytes_str in Hin. apply list_elem_of_lookup in Hin as [p Hp].
  apply lookup_take_Some in Hp as [Hp Hlt]. by rewrite (colon_then_slash tag p (S i) Hp (index_of_lookup _ _ _ Hi) Hlt) in Hv.
Qed.

Lemma docker_commands_checked w o dir f tag :
  let '(cmds, r) := run_docker w o dir f tag in
  (cmds ≠ [] → validateDockerImageTag tag = true ∧ Forall (λ kv, validateBuildArg kv.1 kv.2 = true) (BuildArgs o)) ∧
  (∀ cmd, cmd ∈ cmds → cmd = ["push"; tag] ∨
     ∃ flags, cmd = ["build"; "--force-rm"; "-t"; tag; "-f"; path_string f] ++ flags ++ [path_string dir] ∧
       flags = (kv ← BuildArgs o; ["--build-arg"; kv.1 +:+ "=" +:+ kv.2])) ∧
  (r = Ok tt ↔ length cmds = (if Push o then 2 else 1)%nat ∧ Forall (λ c, docker w c = true) cmds).
Proof.
  assert (∀ l flags, arg_flags l = Ok flags → Forall (λ kv, validateBuildArg kv.1 kv.2 = true) l ∧
    flags = (kv ← l; ["--build-arg"; kv.1 +:+ "=" +:+ kv.2])) as Hflags.
  { induction l as [|[k v] l IH]; intros flags; cbn [arg_flags]; [by intros [= <-]|]. destruct (validateBuildArg k v) eqn:E; [|done].
    destruct (arg_flags l) as [rest|]; [|done]. intros [= <-]. destruct (IH rest eq_refl) as [Hf ->]. by split; [constructor|]. }
  assert (∀ e : build_error, (Err e = Ok tt ↔ @length (list string) [] = (if Push o then 2 else 1)%nat ∧ Forall (λ c, docker w c = true) [])) as Hnone.
  { intros e. split; [done|]. intros [? _]. by destruct (Push o). }
  unfold run_docker, dockerBuild, dockerPush. destruct (validateDockerImageTag tag) eqn:Ht; cbn.
  2: { split_and!; [done|by intros ? ?%elem_of_nil|apply Hnone]. }
  destruct (arg_flags (BuildArgs o)) as [flags|e] eqn:Hf; cbn.
  2: { split_and!; [done|by intros ? ?%elem_of_nil|apply Hnone]. }
  destruct (Hflags _ _ Hf) as [Hall Efl]. set (cmd := "build" :: _). destruct (docker w cmd) eqn:Hd; cbn.
  2: { split_and!; [done| |].
       - intros c ->%list_elem_of_singleton. right. by exists flags.
       - split; [done|]. intros [_ [Hx _]%Forall_cons]. congruence. }
  destruct (Push o).
  - split_and!; [done| |].
    + intros c. rewrite elem_of_cons, list_elem_of_singleton. intros [->| ->]; [right; by exists flags|by left].
    + destruct (docker w ["push"; tag]) eqn:Hp; split; try done.
      * intros _. split; [done|]. by repeat constructor.
      * intros [_ [_ [Hx _]%Forall_cons]%Forall_cons]. congruence.
  - split_and!; [done| |].
    + intros c ->%list_elem_of_singleton. right. by exists flags.
    + split; [|done]. intros _. split; [done|]. by repeat constructor.
Qed.

(** Docker is run with a checked tag and checked arguments only, the image pushed is the image
    built, and a build succeeds exactly when all its commands do. *)
Theorem docker_commands_are_checked w o dir f tag :
  let '(cmds, r) := run_docker w o dir f tag in
  (cmds ≠ [] → validateDockerImageTag tag = true ∧ Forall (λ kv, validateBuildArg kv.1 kv.2 = true) (BuildArgs o)) ∧
  (∀ cmd, cmd ∈ cmds → cmd = ["push"; tag] ∨
     ∃ flags, cmd = ["build"; "--force-rm"; "-t"; tag; "-f"; path_string f] ++ flags ++ [path_string dir] ∧
       flags = (kv ← BuildArgs o; ["--build-arg"; kv.1 +:+ "=" +:+ kv.2])) ∧
  (r = Ok tt ↔ length cmds = (if Push o then 2 else 1)%nat ∧ Forall (λ c, docker w c = true) cmds).
Proof. apply docker_commands_checked. Qed.

(** A build that succeeds cloned a URL git may run on, ran every docker command with success on the
    image it reports, and published its completion; one that fails published no completion, and
    its failure unless it is one of the two that are returned silently. *)
Theorem build_reports_its_outcome w o :
  let out := run_build w o in
  match verdict out with
  | Ok r =>
      events out = [Started (oAppID o) (oCommitSHA o); Completed (oAppID o) (CommitSHA r)] ∧
      validateDockerImageTag (ImageTag r) = true ∧ rType r = Type_ (Detect (listing w)) ∧
      commands out ≠ [] ∧ Forall (λ c, docker w c = true) (commands out) ∧
      (∃ dir sha, gitClone (lookup w) (allowLocal w) (tmp w) (git w) (revParse w) (SourceURL o) (Branch o) (Token o) dir = Ok sha)
  | Err e =>
      (∀ a sha, Completed a sha ∉ events out) ∧
      (silent e = false → Failed (oAppID o) e ∈ events out)
  end.
Proof.
  assert (∀ e cmds, (∀ a sha, Completed a sha ∉ events (failed o e cmds)) ∧
    (silent e = false → Failed (oAppID o) e ∈ events (failed o e cmds))) as Hfail.
  { intros e cmds. cbn. split.
    - intros a sha. rewrite elem_of_cons. intros [|H]; [done|]. destruct (silent e); [by apply elem_of_nil in H|].
      by apply list_elem_of_singleton in H.
    - intros ->. right. apply list_elem_of_here. }
  cbv zeta. unfold run_build. destruct (negb (mkdir w)); [apply Hfail|].
  destruct (gitClone _ _ _ _ _ _ _ _ _) as [sha0|e] eqn:Hg; [|apply Hfail].
  destruct (dockerfile_of _ _ _ _) as [f|e]; [|apply Hfail]. destruct (dockerAuthEnv _ _ _ _) as [x|e]; [|apply Hfail].
  set (tag := image_tag _ _ _). pose proof (docker_commands_checked w o (workDir w ++ ["monster-build-" +:+ freshID w]) f tag) as Hd.
  destruct (run_docker w o _ f tag) as [cmds [[]|e]]; [|apply Hfail]. destruct Hd as (Hc & _ & [Hok _]). destruct (Hok eq_refl) as [Hlen Hall].
  assert (cmds ≠ []) as Hne by (intros ->; by destruct (Push o)). cbn. split_and!; try done; [by apply Hc|by eexists _, _].
Qed.

(** ** The worker pool *)

(** Where a submission is: it waits for a slot, has one, is finished or was turned away. *)
Inductive job := Acquiring | Running | Finished | Dropped.

#[export] Instance job_dec : EqDecision job.
Proof. solve_decision. Defined.

(** src/internal/build/module.go:125-137 WorkerPool *)
Record WorkerPool := { maxWorkers : Z; jobs : list job; closed : bool }.

(** src/internal/build/module.go:143-157 NewWorkerPoolWithLogger *)
Definition NewWorkerPool (max : Z) : WorkerPool := {| maxWorkers := max; jobs := []; closed := false |}.

Definition slots (p : WorkerPool) : nat := Z.to_nat (maxWorkers p).
Definition count (ph : job) (l : list job) : nat := length (filter (λ x, x = ph) l).
Definition set_job (p : WorkerPool) (j : nat) (ph : job) : WorkerPool :=
  {| maxWorkers := maxWorkers p; jobs := <[j := ph]> (jobs p); closed := closed p |}.

(** src/internal/build/module.go:172-183 WorkerPool.SubmitCtx.register *)
Definition Submit (p : WorkerPool) : option WorkerPool :=
  if closed p then None else Some {| maxWorkers := maxWorkers p; jobs := jobs p ++ [Acquiring]; closed := closed p |}.

(** The three ways out of the wait: a slot, the shutdown, the caller.
    src/internal/build/module.go:187-196 WorkerPool.SubmitCtx.acquire *)
Definition acquire (p : WorkerPool) (j : nat) : option WorkerPool :=
  if decide (jobs p !! j = Some Acquiring ∧ count Running (jobs p) < slots p)%nat then Some (set_job p j Running) else None.
Definition turn_away (p : WorkerPool) (j : nat) (canceled : bool) : option WorkerPool :=
  if decide (jobs p !! j = Some Acquiring ∧ (closed p || canceled) = true) then Some (set_job p j Dropped) else None.

(** src/internal/build/module.go:198-209 WorkerPool.SubmitCtx.run *)
Definition finish (p : WorkerPool) (j : nat) : option WorkerPool :=
  if decide (jobs p !! j = Some Running) then Some (set_job p j Finished) else None.

(** src/internal/build/module.go:225-231 WorkerPool.Shutdown.close *)
Definition Shutdown (p : WorkerPool) : WorkerPool := {| maxWorkers := maxWorkers p; jobs := jobs p; closed := true |}.

(** When [wg.Wait] returns.
    src/internal/build/module.go:233-248 WorkerPool.Shutdown.wait *)
Definition drained (p : WorkerPool) : bool := forallb (λ x, bool_decide (x = Finished ∨ x = Dropped)) (jobs p).

Inductive pool_step : WorkerPool → WorkerPool → Prop :=
| p_submit p p' : Submit p = Some p' → pool_step p p'
| p_acquire p p' j : acquire p j = Some p' → pool_step p p'
| p_turn_away p p' j c : turn_away p j c = Some p' → pool_step p p'
| p_finish p p' j : finish p j = Some p' → pool_step p p'
| p_shutdown p : pool_step p (Shutdown p).

Lemma count_app ph l k : count ph (l ++ k) = (count ph l + count ph k)%nat.
Proof. unfold count. by rewrite filter_app, length_app. Qed.

Lemma count_insert ph l j x y :
  l !! j = Some x → (count ph (<[j := y]> l) + (if decide (x = ph) then 1 else 0) = count ph l + (if decide (y = ph) then 1 else 0))%nat.
Proof.
  intros Hx. rewrite <- (list_insert_id l j x Hx) at 2. rewrite !insert_take_drop by (by eapply lookup_lt_Some).
  rewrite !count_app. unfold count. rewrite !filter_cons. repeat case_decide; cbn [length]; lia.
Qed.

Lemma pool_bound_step p p' :
  pool_step p p' → (count Running (jobs p) ≤ slots p)%nat → (count Running (jobs p') ≤ slots p')%nat.
Proof.
  intros [q q' Hs|q q' j Hs|q q' j c Hs|q q' j Hs|q] Hb; [..|done]; unfold Submit, acquire, turn_away, finish in Hs.
  - destruct (closed q); [done|]. injection Hs as <-. unfold slots in *. cbn [maxWorkers jobs]. rewrite count_app.
    change (count Running [Acquiring]) with 0%nat. lia.
  - case_decide as E; [|done]. injection Hs as <-. destruct E as [Hj Hlt]. unfold slots in *. cbn [maxWorkers jobs set_job].
    pose proof (count_insert Running (jobs q) j _ Running Hj) as E. rewrite decide_False, decide_True in E by done. lia.
  - case_decide as E; [|done]. injection Hs as <-. destruct E as [Hj _]. unfold slots in *. cbn [maxWorkers jobs set_job].
    pose proof (count_insert Running (jobs q) j _ Dropped Hj) as E. rewrite !decide_False in E by done. lia.
  - case_decide as Hj; [|done]. injection Hs as <-. unfold slots in *. cbn [maxWorkers jobs set_job].
    pose proof (count_insert Running (jobs q) j _ Finished Hj) as E. rewrite decide_True, decide_False in E by done. lia.
Qed.

(** However submissions, cancellations, ends and a shutdown interleave, no more builds run than
    the pool has workers; a pool of none or fewer runs nothing. *)
Theorem pool_is_bounded max p :
  rtc pool_step (NewWorkerPool max) p → Z.of_nat (count Running (jobs p)) ≤ Z.max 0 max.
Proof.
  intros Hr. assert (∀ p0, rtc pool_step p0 p → maxWorkers p = maxWorkers p0 ∧
    ((count Running (jobs p0) ≤ slots p0)%nat → (count Running (jobs p) ≤ slots p)%nat)) as Hall.
  { clear Hr. intros p0. induction 1 as [|x y z Hxy _ [IHm IH]]; [done|]. split.
    - rewrite IHm. destruct Hxy as [q q' Hs|q q' j Hs|q q' j c Hs|q q' j Hs|q]; [..|done];
        unfold Submit, acquire, turn_away, finish in Hs; case_match; by simplify_eq.
    - intros Hb. apply IH, (pool_bound_step x); done. }
  destruct (Hall _ Hr) as [Hm Hb]. cbn in Hm. specialize (Hb (Nat.le_0_l _)). unfold slots in Hb. rewrite Hm in Hb. lia.
Qed.

Lemma drained_stays p p' : closed p = true → drained p = true → pool_step p p' → jobs p' = jobs p ∧ closed p' = true.
Proof.
  intros Hc Hd. assert (∀ j, jobs p !! j ≠ Some Acquiring ∧ jobs p !! j ≠ Some Running) as Hno.
  { unfold drained in Hd. rewrite forallb_forall in Hd.
    intros j. split; intros Hj%list_elem_of_lookup_2%list_elem_of_In; apply Hd in Hj; by rewrite bool_decide_eq_true in Hj; destruct Hj. }
  clear Hd. intros Hstep. revert Hc Hno.
  destruct Hstep as [q q' Hs|q q' j Hs|q q' j c Hs|q q' j Hs|q]; intros Hc Hno; [..|done]; unfold Submit, acquire, turn_away, finish in Hs.
  - by rewrite Hc in Hs.
  - case_decide as E; [|done]. by destruct E, (Hno j).
  - case_decide as E; [|done]. by destruct E, (Hno j).
  - case_decide as E; [|done]. by destruct (Hno j).
Qed.

Definition unfinished (p : WorkerPool) : nat := (2 * count Acquiring (jobs p) + count Running (jobs p))%nat.

(** A shutdown ends: while jobs are left, one of them can go on, every step of a job brings the
    end nearer, and once the wait is over nothing runs again. *)
Theorem shutdown_drains p :
  closed p = true →
  (drained p = false → ∃ p', pool_step p p' ∧ (unfinished p' < unfinished p)%nat) ∧
  (drained p = true → ∀ p', rtc pool_step p p' → jobs p' = jobs p ∧ drained p' = true).
Proof.
  intros Hc. split.
  - intros Hd. unfold drained in Hd. assert (∃ j, jobs p !! j = Some Acquiring ∨ jobs p !! j = Some Running) as (j & Hj).
    { induction (jobs p) as [|x l IH]; [done|]. cbn [forallb] in Hd. destruct x; [by exists 0%nat; left|by exists 0%nat; right|..];
        cbn in Hd; destruct (IH Hd) as (j & Hj); by exists (S j). }
    destruct Hj as [Hj|Hj].
    + exists (set_job p j Dropped). split; [apply (p_turn_away _ _ j false); unfold turn_away; by rewrite Hc, decide_True|].
      unfold unfinished. cbn [jobs set_job]. pose proof (count_insert Acquiring (jobs p) j _ Dropped Hj) as E1.
      pose proof (count_insert Running (jobs p) j _ Dropped Hj) as E2. rewrite !decide_False in E2 by done.
      rewrite decide_True, decide_False in E1 by done. lia.
    + exists (set_job p j Finished). split; [apply (p_finish _ _ j); unfold finish; by rewrite decide_True|].
      unfold unfinished. cbn [jobs set_job]. pose proof (count_insert Acquiring (jobs p) j _ Finished Hj) as E1.
      pose proof (count_insert Running (jobs p) j _ Finished Hj) as E2. rewrite !decide_False in E1 by done.
      rewrite decide_True, decide_False in E2 by done. lia.
  - intros Hd p' Hr. induction Hr as [|x y z Hxy _ IH]; [done|]. destruct (drained_stays x y Hc Hd Hxy) as [Ej Ec].
    destruct IH as [E1 E2]; [done|unfold drained in *; by rewrite Ej|]. split; [by rewrite E1|done].
Qed.

(** ** Examples *)

Definition sample_world : world :=
  {| allowLocal := false; mkdir := true; tmp := true;
     lookup := λ h, if decide (h = "github.com") then Some ["140.82.121.4"] else if decide (h = "intern") then Some ["10.1.2.3"] else None;
     git := λ _, true; revParse := Some ("0123456789abcdef" +:+ str [byte 10]); listing := ["README.md"; "go.mod"];
     present := λ _, false; canWrite := true; docker := λ _, true; freshID := "id1"; workDir := ["tmp"] |}.

Definition sample_opts (url : string) : BuildOpts :=
  {| oAppID := "a1"; AppName := "web"; SourceURL := url; Branch := "main"; oCommitSHA := ""; Token := ""; Dockerfile := "";
     BuildArgs := [("PORT", "80")]; oImageTag := ""; Push := false; RegistryUsername := ""; RegistryPassword := "" |}.

Example build_ok :
  verdict (run_build sample_world (sample_opts "https://github.com/a/b.git")) =
    Ok {| ImageTag := "monster/web:01234567"; rType := TypeGo; CommitSHA := "0123456789abcdef" |}.
Proof. reflexivity. Qed.

Example build_private :
  verdict (run_build sample_world (sample_opts "https://intern/a/b.git")) =
    Err (CloneFailed (BlockedRange (ResolvedBlocked "intern" "10.1.2.3"))).
Proof. reflexivity. Qed.

Example build_port :
  verdict (run_build sample_world (sample_opts "https://github.com:443/a/b.git")) =
    Err (CloneFailed (BlockedRange (LookupFailed "github.com:443"))).
Proof. reflexivity. Qed.

Lemma git_runs_on_public_hosts_witness :
  HasPrefix "https://github.com/a/b.git" "-" = false ∧
  ∃ addrs, lookup sample_world "github.com" = Some addrs ∧ Forall (λ a, ∀ ip, ParseIP a = Some ip → ¬ internal_address ip) addrs.
Proof.
  destruct (git_runs_on_public_hosts (lookup sample_world) false true (git sample_world) None "https://github.com/a/b.git" "" "" "/t"
    eq_refl) as (_ & Hd & Hh).
  split; [exact Hd|]. apply (Hh {| Scheme := "https"; Host := "github.com"; User := false |}); [reflexivity|left|discriminate].
Defined.

Lemma ssh_shorthand_never_clones_witness :
  ValidateGitURL false "git@github.com:a/b.git" = Ok tt ∧
  ran_git (gitClone (lookup sample_world) false true (git sample_world) None "git@github.com:a/b.git" "" "" "/t") = false.
Proof.
  split; [reflexivity|]. apply (ssh_shorthand_never_clones (lookup sample_world) false true (git sample_world) None "git@github.com:a/b.git").
  reflexivity.
Defined.

Lemma dockerfile_stays_in_context_witness :
  ∃ rel, ["tmp"; "b"; "docker"; "Dockerfile"] = ["tmp"; "b"] ++ rel ∧ rel ≠ [] ∧ Forall name_ok rel.
Proof. apply (dockerfile_stays_in_context ["tmp"; "b"] "./docker/x/..//Dockerfile"). reflexivity. Defined.

Lemma redacted_output_hides_token_witness : ¬ occurs (bytes "ghp_1") (redact ["ghp_1"] (bytes "fatal: https://ghp_1@github.com ghp_1")).
Proof.
  apply (redacted_output_hides_token "ghp_1"); [discriminate| | |apply index_of_absent; reflexivity];
    (apply (bool_decide_eq_true_1 _); reflexivity).
Defined.

Lemma registry_port_never_builds_witness : ":"%char ∉ bytes (registryHostFromImage "ghcr.io/a/b:v1").
Proof. apply (registry_port_never_builds "ghcr.io/a/b:v1"). reflexivity. Defined.

Example registry_port : registryHostFromImage "registry:5000/app" = "registry:5000" ∧ validateDockerImageTag "registry:5000/app" = false.
Proof. by split. Qed.

Definition busy_pool : WorkerPool := {| maxWorkers := 1; jobs := [Running; Acquiring]; closed := false |}.

Lemma pool_is_bounded_witness : Z.of_nat (count Running (jobs busy_pool)) ≤ Z.max 0 1.
Proof.
  apply (pool_is_bounded 1). eapply rtc_l; [by eapply p_submit|]. eapply rtc_l; [by apply (p_acquire _ _ 0)|].
  eapply rtc_l; [by eapply p_submit|]. apply rtc_refl.
Defined.

Lemma shutdown_drains_witness : ∃ p', pool_step (Shutdown busy_pool) p' ∧ (unfinished p' < unfinished (Shutdown busy_pool))%nat.
Proof. apply (proj1 (shutdown_drains (Shutdown busy_pool) eq_refl)). reflexivity. Defined.

End Build.
