(* ===== verification/Cron.v ===== *)
(** * Cron: jobs of applications ([internal/cron], [api/handlers/cronjobs.go])

    The handlers keep the jobs of an application as one document of the key-value store; the
    executor copies what is enabled there into the scheduler and runs a job in the application's
    container.  Store and scheduler are those of their own files: the theorems are about the
    three together.  The container runtime is what it answers. *)

From S2P Require Import Prelude GoStrings GoTime KVStore Scheduler Policy Login.
#[local] Open Scope Z_scope.

Module Cron.
Import KV.

(** src/internal/cron/module.go:75-81 jobConfig *)
Record jobConfig := { cID : string; cName : string; cSchedule : string; cCommand : string; cEnabled : bool }.

(** src/internal/cron/module.go:83-85 jobList *)
Record jobList := { Jobs : list jobConfig }.

Definition job_fields (c : jobConfig) : json :=
  JObj [("id", JStr (cID c)); ("name", JStr (cName c)); ("schedule", JStr (cSchedule c)); ("command", JStr (cCommand c));
        ("enabled", JBool (cEnabled c))].

Definition decode_job (d : json) : option jobConfig :=
  match d with
  | JNull => Some {| cID := ""; cName := ""; cSchedule := ""; cCommand := ""; cEnabled := false |}
  | JObj fs =>
      i ← read_str "id" fs ""; n ← read_str "name" fs ""; s ← read_str "schedule" fs ""; c ← read_str "command" fs "";
      e ← read_bool "enabled" fs false;
      Some {| cID := i; cName := n; cSchedule := s; cCommand := c; cEnabled := e |}
  | _ => None
  end.

#[export] Instance jobs_json : JSON jobList := {|
  representable := λ _, True;
  marshal := λ l, JObj [("jobs", JArr (job_fields <$> Jobs l))];
  unmarshal := λ d l, match d with
    | JNull => Some l
    | JObj fs => match jfield "jobs" fs with
                 | None => Some l
                 | Some JNull => Some {| Jobs := [] |}
                 | Some (JArr js) => Build_jobList <$> mapM decode_job js
                 | Some _ => None
                 end
    | _ => None
    end |}.

#[export] Instance jobs_laws : JSONLaws jobList.
Proof.
  split. intros [l] d _. change (Build_jobList <$> mapM decode_job (job_fields <$> l) = Some {| Jobs := l |}).
  assert (mapM decode_job (job_fields <$> l) = Some l) as ->; [|done].
  induction l as [|[] l IH]; [done|]. change (mapM decode_job (job_fields <$> ?x :: l)) with (mapM decode_job (job_fields x :: (job_fields <$> l))).
  cbn [mapM]. by rewrite IH.
Qed.

Definition no_jobs : jobList := {| Jobs := [] |}.

(** ** The handlers *)

Inductive cron_event := CronCreated (app job schedule : string) | CronDeleted (app job : string).

Record reply := { status : Z; body : list jobConfig }.

Section Handlers.
Variables (getFails setFails : stmt → bool) (now : Z).

(** [app] is what [requireTenantApp] returns: the status of a refusal or the application's id.
    src/internal/api/handlers/cronjobs.go:38-53 CronJobHandler.List *)
Definition List (kv : KVStore) (app : result Z string) : reply :=
  match app with
  | Err c => {| status := c; body := [] |}
  | Ok id =>
      {| status := 200; body := match Get getFails now kv "cronjobs" id no_jobs with Ok l => Jobs l | Err _ => [] end |}
  end.

(** [req] is the decoded body, [gen] the new identifier.
    src/internal/api/handlers/cronjobs.go:56-100 CronJobHandler.Create *)
Definition Create (kv : KVStore) (app : result Z string) (req : option jobConfig) (gen : string)
  : KVStore * reply * list cron_event :=
  match app with
  | Err c => (kv, {| status := c; body := [] |}, [])
  | Ok id =>
      match req with
      | None => (kv, {| status := 400; body := [] |}, [])
      | Some req =>
          if decide (cSchedule req = "" ∨ cCommand req = "") then (kv, {| status := 400; body := [] |}, [])
          else
            let j := {| cID := gen; cName := cName req; cSchedule := cSchedule req; cCommand := cCommand req; cEnabled := true |} in
            let list := match Get getFails now kv "cronjobs" id no_jobs with Ok l => Jobs l | Err _ => [] end in
            if (50 <=? length list)%nat then (kv, {| status := 409; body := [] |}, [])
            else match Set_ setFails now kv "cronjobs" id (Some (marshal {| Jobs := list ++ [j] |})) 0 with
                 | (kv, Err _) => (kv, {| status := 500; body := [] |}, [])
                 | (kv, Ok _) => (kv, {| status := 201; body := [j] |}, [CronCreated id gen (cSchedule j)])
                 end
      end
  end.

(** src/internal/api/handlers/cronjobs.go:103-139 CronJobHandler.Delete *)
Definition Delete (kv : KVStore) (app : result Z string) (jobID : string) : KVStore * reply * list cron_event :=
  match app with
  | Err c => (kv, {| status := c; body := [] |}, [])
  | Ok id =>
      if decide (jobID = "") then (kv, {| status := 400; body := [] |}, [])
      else match Get getFails now kv "cronjobs" id no_jobs with
      | Err _ => (kv, {| status := 204; body := [] |}, [])
      | Ok l =>
          match Set_ setFails now kv "cronjobs" id (Some (marshal {| Jobs := filter (λ j, cID j ≠ jobID) (Jobs l) |})) 0 with
          | (kv, Err _) => (kv, {| status := 500; body := [] |}, [])
          | (kv, Ok _) => (kv, {| status := 204; body := [] |}, [CronDeleted id jobID])
          end
      end
  end.
End Handlers.

(** ** The executor *)

Definition prefix : string := "appcron:".
Definition job_id (app : string) (c : jobConfig) : string := prefix +:+ app +:+ ":" +:+ cID c.

(** src/internal/cron/module.go:116-118 Module.refresh.skip *)
Definition runs (c : jobConfig) : bool :=
  cEnabled c && negb (bool_decide (cSchedule c = "")) && negb (bool_decide (cCommand c = "")).

Section Executor.
Variables (off : duration) (fails : stmt → bool).

Definition cron_job (app : string) (c : jobConfig) : Scheduler.CronJob :=
  {| Scheduler.ID := job_id app c; Scheduler.Name := cName c +:+ " (app " +:+ app +:+ ")"; Scheduler.Schedule := cSchedule c;
     Scheduler.Timeout := 0; Scheduler.LastRun := zero_time; Scheduler.NextRun := zero_time; Scheduler.Running := false;
     Scheduler.Enabled := true |}.

(** A new job each time; its identifier is never empty.
    src/internal/cron/module.go:137-146 Module.attach *)
Definition attach (now : instant) (s : Scheduler.Scheduler) (app : string) (c : jobConfig) : Scheduler.Scheduler :=
  default s (s' ← Scheduler.alloc s (cron_job app c); Scheduler.Add off now "" s' (length (Scheduler.heap s))).

(** What the store asks for: the jobs that run, application by application.
    src/internal/cron/module.go:106-122 Module.refresh.desired *)
Definition wanted (sec : Z) (kv : KVStore) (keys : list string) : list (string * jobConfig) :=
  app ← keys;
  match Get fails sec kv "cronjobs" app no_jobs with
  | Ok l => (λ c, (app, c)) <$> filter (λ c, runs c = true) (Jobs l)
  | Err _ => []
  end.

(** src/internal/cron/module.go:127-134 Module.refresh.drop *)
Definition drop_stale (desired : list string) (s : Scheduler.Scheduler) : Scheduler.Scheduler :=
  foldl (λ s j, if HasPrefix (Scheduler.ID j) prefix && negb (bool_decide (Scheduler.ID j ∈ desired))
                then Scheduler.Remove s (Scheduler.ID j) else s) s (Scheduler.Jobs s).

(** src/internal/cron/module.go:91-135 Module.refresh *)
Definition refresh (now : instant) (sec : Z) (kv : KVStore) (s : Scheduler.Scheduler) : Scheduler.Scheduler :=
  match List_ fails sec kv "cronjobs" with
  | Err _ => s
  | Ok keys =>
      let l := wanted sec kv keys in
      drop_stale ((λ ac, job_id ac.1 ac.2) <$> l) (foldl (λ s ac, attach now s ac.1 ac.2) s l)
  end.

End Executor.

(** src/internal/cron/module.go:204-209 shortID *)
Definition shortID (id : string) : string := if (12 <? slen id)%nat then str (take 12 (bytes id)) else id.

(** src/internal/cron/module.go:211-216 capOutput *)
Definition capOutput (s : string) (max : nat) : string :=
  if (slen s <=? max)%nat then s else str (take max (bytes s)) +:+ str [byte 10] +:+ "... [output truncated]".

(** The containers of the application, and what a command prints and whether it fails. *)
Record runtime := { containers : option (list string); exec : string → list string → string * option string }.

Inductive run_error := NoRuntime | ListFailed | NoContainer | Blocked | ExecFailed (e : string).

Record run := { result_ : result run_error unit; executed : list (string * list string); store : KVStore; published : option bool }.

Definition history_ttl : Z := 30 * 24 * 3600.

(** [gen] is the identifier of the entry, [times] when the command started and ended.
    src/internal/cron/module.go:148-202 Module.handlerFor *)
Definition handlerFor (setFails : stmt → bool) (rt : option runtime) (kv : KVStore) (now : Z) (times : instant * instant) (gen : string)
    (app : string) (c : jobConfig) : run :=
  let refuse e := {| result_ := Err e; executed := []; store := kv; published := None |} in
  match rt with
  | None => refuse NoRuntime
  | Some rt =>
      match containers rt with
      | None => refuse ListFailed
      | Some [] => refuse NoContainer
      | Some (cid :: _) =>
          let cmd := Command.SplitCommand (cCommand c) in
          if negb (Command.CommandTokensSafe cmd) then refuse Blocked
          else
            let '(output, err) := exec rt cid cmd in
            let ok := match err with None => true | Some _ => false end in
            let entry := JObj ([("id", JStr gen); ("app_id", JStr app); ("user_id", JStr ("cron:" +:+ cID c)); ("command", JStr (cCommand c));
              ("container_id", JStr (shortID cid)); ("output", JStr (capOutput output (Z.to_nat 65536))); ("started_at", JTime times.1);
              ("completed_at", JTime times.2); ("success", JBool ok)] ++
              match err with None => [] | Some e => [("error", JStr e)] end) in
            let kv := (Set_ setFails now kv "app_commands" (app +:+ ":" +:+ gen) (Some entry) history_ttl).1 in
            {| result_ := match err with None => Ok tt | Some e => Err (ExecFailed e) end; executed := [(cid, cmd)]; store := kv;
               published := Some ok |}
      end
  end.

(** ** The scheduler follows the store *)

(** Every entry of the scheduler's map is a job with that identifier. *)
Definition keyed (s : Scheduler.Scheduler) : Prop :=
  ∀ id p, Scheduler.jobs s !! id = Some p → ∃ j, Scheduler.heap s !! p = Some j ∧ Scheduler.ID j = id.

Section Sync.
Variables (off : duration) (fails : stmt → bool) (now : instant).

Definition added (app : string) (c : jobConfig) : Scheduler.CronJob :=
  {| Scheduler.ID := job_id app c; Scheduler.Name := cName c +:+ " (app " +:+ app +:+ ")"; Scheduler.Schedule := cSchedule c;
     Scheduler.Timeout := 0; Scheduler.LastRun := zero_time; Scheduler.NextRun := Scheduler.calcNextRun off now (cSchedule c);
     Scheduler.Running := false; Scheduler.Enabled := true |}.

Lemma attach_spec s app c :
  Scheduler.heap (attach off now s app c) = Scheduler.heap s ++ [added app c] ∧
  Scheduler.jobs (attach off now s app c) = <[job_id app c := length (Scheduler.heap s)]> (Scheduler.jobs s).
Proof.
  unfold attach, Scheduler.alloc, Scheduler.Add. cbn [Scheduler.Running cron_job mbind option_bind Scheduler.heap].
  rewrite lookup_app_r, Nat.sub_diag by done. cbn [lookup list_lookup mbind option_bind].
  rewrite decide_False by done. cbn [from_option id Scheduler.heap Scheduler.jobs]. split; [|done].
  unfold Scheduler.set_job. cbn [Scheduler.heap]. rewrite insert_app_r_alt, Nat.sub_diag by done. done.
Qed.

Lemma attach_keyed s app c : keyed s → keyed (attach off now s app c).
Proof.
  intros Hk id p. destruct (attach_spec s app c) as [-> ->]. rewrite lookup_insert_Some. intros [[<- <-]|[Hne Hp]].
  - exists (added app c). split; [|done]. by rewrite lookup_app_r, Nat.sub_diag.
  - destruct (Hk id p Hp) as (j & Hj & E). exists j. split; [|done]. by apply lookup_app_l_Some.
Qed.

(** What attaching the wanted jobs leaves: their entries, each with the timer started now, and
    the entries there were. *)
Lemma attach_all l : ∀ s, keyed s →
  let s' := foldl (λ s ac, attach off now s ac.1 ac.2) s l in
  keyed s' ∧ Scheduler.heap s `prefix_of` Scheduler.heap s' ∧
  (∀ id, id ∉ (λ ac : string * jobConfig, job_id ac.1 ac.2) <$> l → Scheduler.jobs s' !! id = Scheduler.jobs s !! id) ∧
  (∀ id, id ∈ (λ ac : string * jobConfig, job_id ac.1 ac.2) <$> l →
     ∃ p ac, ac ∈ l ∧ job_id ac.1 ac.2 = id ∧ Scheduler.jobs s' !! id = Some p ∧ Scheduler.heap s' !! p = Some (added ac.1 ac.2)).
Proof.
  induction l as [|[app c] l IH]; intros s Hk.
  { cbn. split_and!; [done|done|done|]. intros id []%elem_of_nil. }
  destruct (IH (attach off now s app c)) as (Hk' & Hpre & Hold & Hnew); [by apply attach_keyed|]. destruct (attach_spec s app c) as [Eh Ej].
  cbn [foldl fst snd]. cbv zeta. rewrite Eh in Hpre. split_and!; [done|by eapply prefix_app_l| |].
  - intros id. cbn [fmap list_fmap]. rewrite not_elem_of_cons. intros [Hne Hid]. rewrite Hold by done. rewrite Ej. by rewrite lookup_insert_ne by (intros E; apply Hne; by rewrite <- E).
  - intros id. cbn [fmap list_fmap]. rewrite elem_of_cons.
    destruct (decide (id ∈ (λ ac : string * jobConfig, job_id ac.1 ac.2) <$> l)) as [Hin|Hni].
    + intros _. destruct (Hnew id Hin) as (p & ac & Hac & Hrest). exists p, ac. split; [by right|done].
    + intros [->|?]; [|done]. exists (length (Scheduler.heap s)), (app, c). split_and!; [apply list_elem_of_here|done| |].
      * rewrite Hold by done. rewrite Ej. by rewrite lookup_insert_eq.
      * eapply prefix_lookup_Some; [|done]. by rewrite lookup_app_r, Nat.sub_diag.
Qed.

Lemma stale_jobs_dropped desired s : keyed s →
  Scheduler.heap (drop_stale desired s) = Scheduler.heap s ∧
  ∀ id, Scheduler.jobs (drop_stale desired s) !! id =
    if HasPrefix id prefix && negb (bool_decide (id ∈ desired)) then None else Scheduler.jobs s !! id.
Proof.
  intros Hk. unfold drop_stale.
  assert (∀ l s0, Scheduler.heap (foldl (λ s j, if HasPrefix (Scheduler.ID j) prefix && negb (bool_decide (Scheduler.ID j ∈ desired))
      then Scheduler.Remove s (Scheduler.ID j) else s) s0 l) = Scheduler.heap s0 ∧
    ∀ id, Scheduler.jobs (foldl (λ s j, if HasPrefix (Scheduler.ID j) prefix && negb (bool_decide (Scheduler.ID j ∈ desired))
      then Scheduler.Remove s (Scheduler.ID j) else s) s0 l) !! id =
      if HasPrefix id prefix && negb (bool_decide (id ∈ desired)) && bool_decide (id ∈ Scheduler.ID <$> l) then None
      else Scheduler.jobs s0 !! id) as Hfold.
  { induction l as [|j l IH]; intros s0; cbn [foldl fmap list_fmap].
    - split; [done|]. intros id. by rewrite (bool_decide_eq_false_2 (id ∈ [])), andb_false_r by apply not_elem_of_nil.
    - destruct (HasPrefix (Scheduler.ID j) prefix && negb (bool_decide (Scheduler.ID j ∈ desired))) eqn:E.
      + destruct (IH (Scheduler.Remove s0 (Scheduler.ID j))) as [Eh El]. split; [by rewrite Eh|]. intros id. rewrite El. cbn [Scheduler.jobs Scheduler.Remove].
        destruct (decide (id = Scheduler.ID j)) as [->|Hne].
        * rewrite E, (bool_decide_eq_true_2 (_ ∈ Scheduler.ID j :: _)) by apply list_elem_of_here. cbn [andb].
          rewrite lookup_delete_eq. by case_match.
        * rewrite lookup_delete_ne by congruence.
          by rewrite (bool_decide_ext (id ∈ Scheduler.ID j :: (Scheduler.ID <$> l)) (id ∈ Scheduler.ID <$> l)) by (rewrite elem_of_cons; tauto).
      + destruct (IH s0) as [Eh El]. split; [done|]. intros id. rewrite El. destruct (decide (id = Scheduler.ID j)) as [->|Hne].
        * by rewrite E.
        * by rewrite (bool_decide_ext (id ∈ Scheduler.ID j :: (Scheduler.ID <$> l)) (id ∈ Scheduler.ID <$> l)) by (rewrite elem_of_cons; tauto). }
  destruct (Hfold (Scheduler.Jobs s) s) as [Eh El]. split; [done|]. intros id. rewrite El.
  destruct (HasPrefix id prefix && negb (bool_decide (id ∈ desired))); [|done]. cbn [andb]. case_bool_decide as Hin; [done|].
  destruct (Scheduler.jobs s !! id) as [p|] eqn:Hp; [|done]. exfalso. apply Hin. destruct (Hk id p Hp) as (j & Hj & <-).
  apply list_elem_of_fmap_2. unfold Scheduler.Jobs. apply list_elem_of_omap. exists (Scheduler.ID j, p). split; [by apply elem_of_map_to_list|done].
Qed.

Lemma job_id_prefix app c : HasPrefix (job_id app c) prefix = true.
Proof. unfold HasPrefix, job_id. apply bool_decide_eq_true_2. rewrite bytes_app. by eexists. Qed.

Lemma refresh_spec sec kv s keys :
  keyed s → List_ fails sec kv "cronjobs" = Ok keys →
  let s' := refresh off fails now sec kv s in
  keyed s' ∧
  (∀ id, HasPrefix id prefix = false → Scheduler.jobs s' !! id = Scheduler.jobs s !! id) ∧
  (∀ id, HasPrefix id prefix = true →
     match Scheduler.jobs s' !! id with
     | Some p => ∃ app c, (app, c) ∈ wanted fails sec kv keys ∧ id = job_id app c ∧ Scheduler.heap s' !! p = Some (added app c)
     | None => ∀ app c, (app, c) ∈ wanted fails sec kv keys → id ≠ job_id app c
     end).
Proof.
  intros Hk Hl. unfold refresh. rewrite Hl. cbv zeta. set (l := wanted fails sec kv keys).
  destruct (attach_all l s Hk) as (Hk1 & _ & Hold & Hnew). set (s1 := foldl _ s l) in *.
  set (ids := (λ ac : string * jobConfig, job_id ac.1 ac.2) <$> l) in *.
  destruct (stale_jobs_dropped ids s1 Hk1) as [Eh El]. split_and!.
  - intros id p. rewrite El, Eh. destruct (_ && _); [done|]. apply Hk1.
  - intros id Hid. rewrite El, Hid. cbn [andb]. apply Hold. intros ([app c] & -> & _)%list_elem_of_fmap. by rewrite job_id_prefix in Hid.
  - intros id Hid. rewrite El, Eh, Hid. cbn [andb]. case_bool_decide as Hin; cbn [negb].
    + destruct (Hnew id Hin) as (p & [app c] & Hac & <- & -> & Hh). by exists app, c.
    + intros app c Hac ->. apply Hin. by apply (list_elem_of_fmap_2 (λ ac : string * jobConfig, job_id ac.1 ac.2) l (app, c)).
Qed.
End Sync.

(** A job that is to run: it is in the document of an application that the store lists and reads
    back, it is switched on and it has a schedule and a command. *)
Definition asked_for (fails : stmt → bool) (sec : Z) (kv : KVStore) (keys : list string) (app : string) (c : jobConfig) : Prop :=
  app ∈ keys ∧ (∃ l, Get fails sec kv "cronjobs" app no_jobs = Ok l ∧ c ∈ Jobs l) ∧
  cEnabled c = true ∧ cSchedule c ≠ "" ∧ cCommand c ≠ "".

Lemma wanted_spec fails sec kv keys app c : (app, c) ∈ wanted fails sec kv keys ↔ asked_for fails sec kv keys app c.
Proof.
  unfold wanted, asked_for. rewrite list_elem_of_bind. split.
  - intros (a & Hin & Ha). destruct (Get fails sec kv "cronjobs" a no_jobs) as [l|e] eqn:Hg; [|by apply elem_of_nil in Hin].
    apply list_elem_of_fmap in Hin as (c' & [= <- <-] & [Hr Hc]%list_elem_of_filter). unfold runs in Hr.
    apply andb_true_iff in Hr as [[He Hs%negb_true_iff%bool_decide_eq_false]%andb_true_iff Hd%negb_true_iff%bool_decide_eq_false].
    split_and!; [done|by exists l|done..].
  - intros (Ha & (l & Hg & Hc) & He & Hs & Hd). exists app. split; [|done]. rewrite Hg. apply list_elem_of_fmap. exists c.
    split; [done|]. apply list_elem_of_filter. split; [|done]. unfold runs. by rewrite He, !bool_decide_eq_false_2.
Qed.

(** C21. After a refresh the scheduler runs, beside the jobs of others which it leaves alone, exactly
    the jobs the store asks for: those of an application whose document is listed and read, that
    are switched on and have a schedule and a command.  Each has a new entry with its first run
    computed from now, whatever its timer had waited.  When the listing fails the refresh changes
    nothing; an application whose document cannot be read loses its entries until a later
    refresh. *)
Theorem scheduler_follows_store off fails now sec kv s :
  keyed s →
  let s' := refresh off fails now sec kv s in
  match List_ fails sec kv "cronjobs" with
  | Err _ => s' = s
  | Ok keys =>
      keyed s' ∧
      (∀ id, HasPrefix id prefix = false → Scheduler.jobs s' !! id = Scheduler.jobs s !! id) ∧
      (∀ id, HasPrefix id prefix = true →
         match Scheduler.jobs s' !! id with
         | Some p => ∃ app c, asked_for fails sec kv keys app c ∧ id = job_id app c ∧ Scheduler.heap s' !! p = Some (added off now app c)
         | None => ∀ app c, asked_for fails sec kv keys app c → id ≠ job_id app c
         end)
  end.
Proof.
  intros Hk. cbv zeta. destruct (List_ fails sec kv "cronjobs") as [keys|e] eqn:Hl; [|unfold refresh; by rewrite Hl].
  destruct (refresh_spec off fails now sec kv s keys Hk Hl) as (Hk' & Ho & Hi). split_and!; [done..|]. intros id Hid. specialize (Hi id Hid).
  destruct (Scheduler.jobs (refresh off fails now sec kv s) !! id) as [p|].
  - destruct Hi as (app & c & Hw%wanted_spec & Hrest). by exists app, c.
  - intros app c Hw. by apply Hi, wanted_spec.
Qed.

Lemma List_has sec kv bucket key d :
  rows kv !! (bucket, key) = Some {| data := Some d; expires_at := 0 |} →
  ∃ keys, List_ no_fault sec kv bucket = Ok keys ∧ key ∈ keys.
Proof.
  intros Hr. unfold List_, sql. cbn [no_fault]. set (keys := omap _ (map_to_list (rows kv))).
  assert (key ∈ keys) as Hin.
  { apply list_elem_of_omap. exists ((bucket, key), {| data := Some d; expires_at := 0 |}). split; [by apply elem_of_map_to_list|].
    cbn. rewrite decide_True; [done|]. split_and!; [done|by left|by eexists]. }
  exists keys. split; [|done]. destruct keys; [by apply elem_of_nil in Hin|done].
Qed.

(** What a successful write leaves: the document reads back and its key is listed. *)
Lemma stored_jobs setF sec kv app l kv' later :
  Set_ setF sec kv "cronjobs" app (Some (marshal l)) 0 = (kv', Ok tt) →
  Get no_fault later kv' "cronjobs" app no_jobs = Ok l ∧
  ∃ keys, List_ no_fault later kv' "cronjobs" = Ok keys ∧ app ∈ keys.
Proof.
  intros Hs. apply Set_spec in Hs as [[_ ?]|(d & [= <-] & _ & ->)]; [done|]. split.
  - rewrite Get_upsert, decide_True by done. change (expiry sec 0) with 0. change ((0 <? 0) && (0 <=? later)) with false. cbv iota.
    change (match unmarshal (marshal l) no_jobs with Some a => Ok a | None => Err ErrUnmarshal end = Ok l). by rewrite unmarshal_marshal.
  - eapply List_has. unfold upsert. cbn [rows]. by rewrite lookup_insert_eq.
Qed.

(** A job the handler reports as created is the last of the application's jobs, after those there
    were, and the next refresh puts it on the scheduler with its first run computed from then. *)
Theorem created_job_is_scheduled off setF sec later now kv app req gen kv' r evs s :
  Create no_fault setF sec kv (Ok app) (Some req) gen = (kv', r, evs) → status r = 201 → keyed s →
  let j := {| cID := gen; cName := cName req; cSchedule := cSchedule req; cCommand := cCommand req; cEnabled := true |} in
  body (List no_fault later kv' (Ok app)) = body (List no_fault sec kv (Ok app)) ++ [j] ∧
  (length (body (List no_fault later kv' (Ok app))) ≤ 50)%nat ∧
  ∃ p app' c, Scheduler.jobs (refresh off no_fault now later kv' s) !! job_id app j = Some p ∧ job_id app' c = job_id app j ∧
    Scheduler.heap (refresh off no_fault now later kv' s) !! p = Some (added off now app' c).
Proof.
  unfold Create. case_decide as Hreq; [intros [= <- <- <-]; done|]. set (j := {| cID := gen |}). set (old := match Get no_fault sec kv "cronjobs" app no_jobs with Ok l => Jobs l | Err _ => [] end).
  destruct (50 <=? length old)%nat eqn:Hlen; [intros [= <- <- <-]; done|].
  destruct (Set_ setF sec kv "cronjobs" app _ 0) as [kv1 [[]|e]] eqn:Hs; [|intros [= <- <- <-]; done].
  intros [= <- <- <-] _ Hk. cbv zeta. destruct (stored_jobs _ _ _ _ _ _ later Hs) as (Hg & keys & Hl & Happ).
  assert (body (List no_fault later kv1 (Ok app)) = old ++ [j]) as Hb by (unfold List; cbn [body]; by rewrite Hg).
  split_and!; [by rewrite Hb|rewrite Hb, length_app; cbn; apply Nat.leb_gt in Hlen; lia|].
  assert ((app, j) ∈ wanted no_fault later kv1 keys) as Hw.
  { apply wanted_spec. split_and!; [done| |done|cbn; tauto..]. eexists. split; [done|]. cbn. apply elem_of_app. right. apply list_elem_of_here. }
  destruct (refresh_spec off no_fault now later kv1 s keys Hk Hl) as (_ & _ & Hid). specialize (Hid (job_id app j) (job_id_prefix _ _)).
  destruct (Scheduler.jobs (refresh off no_fault now later kv1 s) !! job_id app j) as [p|]; [|by destruct (Hid app j Hw)].
  destruct Hid as (app' & c & _ & E & Hh). by exists p, app', c.
Qed.

(** A command runs only when it passes the command policy, in the first container of the
    application, once; its output in the history is bounded and nothing else is written. *)
Theorem cron_runs_checked_commands setF rt kv now times gen app c :
  let out := handlerFor setF rt kv now times gen app c in
  (executed out = [] ∧ store out = kv ∧ published out = None ∧ result_ out ≠ Ok tt ∨
   ∃ cid rest r, rt = Some r ∧ containers r = Some (cid :: rest) ∧ executed out = [(cid, Command.SplitCommand (cCommand c))] ∧
     Command.CommandSafe (cCommand c) = true ∧
     published out = Some (is_ok (result_ out)) ∧
     ∀ b k, (b, k) ≠ ("app_commands", app +:+ ":" +:+ gen) → rows (store out) !! (b, k) = rows kv !! (b, k)).
Proof.
  cbv zeta. unfold handlerFor. destruct rt as [rt|]; [|by left]. destruct (containers rt) as [[|cid rest]|] eqn:Hc; [by left| |by left].
  destruct (Command.CommandTokensSafe (Command.SplitCommand (cCommand c))) eqn:Hs; cbn [negb]; [|by left]. right.
  destruct (exec rt cid (Command.SplitCommand (cCommand c))) as [output err]. exists cid, rest, rt. cbn [executed store published result_].
  split_and!; [done|done|done|done|by destruct err|]. intros b k Hne.
  match goal with |- context [Set_ ?f ?n ?s ?bk ?ky ?v ?t] => destruct (Set_ f n s bk ky v t) as [kv' r] eqn:E end.
  apply Set_spec in E as [[-> _]|(d & _ & _ & ->)]; [done|]. unfold upsert. cbn [fst rows]. by rewrite lookup_insert_ne by congruence.
Qed.

(** ** Examples *)

Definition nightly : jobConfig := {| cID := ""; cName := "n"; cSchedule := "03:00"; cCommand := "ls -la"; cEnabled := false |}.

Lemma empty_keyed : keyed Scheduler.NewScheduler.
Proof. intros id p. cbn. by rewrite lookup_empty. Qed.

Definition after_create : KVStore := (Create no_fault no_fault 100 empty_store (Ok "app1") (Some nightly) "j1").1.1.

Lemma created_job_is_scheduled_witness :
  ∃ p app' c, Scheduler.jobs (refresh 0 no_fault 0 200 after_create Scheduler.NewScheduler) !! "appcron:app1:j1" = Some p ∧
    job_id app' c = "appcron:app1:j1" ∧
    Scheduler.heap (refresh 0 no_fault 0 200 after_create Scheduler.NewScheduler) !! p = Some (added 0 0 app' c).
Proof.
  exact (proj2 (proj2 (created_job_is_scheduled 0 no_fault 100 200 0 empty_store "app1" nightly "j1" _ _ _ Scheduler.NewScheduler
    eq_refl eq_refl empty_keyed))).
Defined.

Lemma scheduler_follows_store_witness : keyed (refresh 0 no_fault 0 200 after_create Scheduler.NewScheduler).
Proof. exact (proj1 (scheduler_follows_store 0 no_fault 0 200 after_create Scheduler.NewScheduler empty_keyed)). Defined.

End Cron.
