(* ===== verification/Apps.v ===== *)
(** * Apps: applications and domains ([handlers/apps_domain.go], [handlers/domains_ssl.go], [handlers/bulk.go],
    [handlers/import_export.go], [db/apps.go], [db/domains.go], [deploy/autodomain.go])

    The tables of applications and domains with their constraints, and the handlers that change
    them.  Each statement of a handler may fail: the argument [fails] says which do.  [fk] is
    whether the database enforces foreign keys, which depends on the driver's settings.  A request
    carries the tenant of its token, already checked. *)

From S2P Require Import Prelude GoStrings GoUrl Build Billing Login.
#[local] Open Scope Z_scope.

Module Apps.
Import GoUrl.

(** ** Tables *)

(** src/internal/core/store.go:238-257 Application *)
Record Application := {
  aID : string; ProjectID : string; aTenant : string; aName : string; Type_ : string; SourceType : string; SourceURL : string;
  Branch : string; Dockerfile : string; EnvVarsEnc : string; LabelsJSON : string; Replicas : Z; Status : string; ServerID : string;
  UpdatedAt : Z }.

(** src/internal/core/store.go:313-322 Domain *)
Record Domain := { dID : string; dApp : string; FQDN : string; dType : string; DNSProvider : string }.

(** A container carries its application as a label. *)
Record container := { cID : string; cName : string; cApp : string; cUp : bool }.

(** [plans] are the tenants with their plan, [projects] pairs of a project and its tenant, [now] is the
    database's CURRENT_TIMESTAMP. *)
Record Store := {
  apps : list Application; domains : list Domain; plans : gmap string string; projects : list (string * string);
  containers : list container; now : Z }.

Definition with_apps (s : Store) (l : list Application) : Store :=
  {| apps := l; domains := domains s; plans := plans s; projects := projects s; containers := containers s; now := now s |}.
Definition with_domains (s : Store) (l : list Domain) : Store :=
  {| apps := apps s; domains := l; plans := plans s; projects := projects s; containers := containers s; now := now s |}.
Definition with_containers (s : Store) (l : list container) : Store :=
  {| apps := apps s; domains := domains s; plans := plans s; projects := projects s; containers := l; now := now s |}.

(** The column every write of a row sets. *)
Definition stamp (n : Z) (a : Application) : Application :=
  {| aID := aID a; ProjectID := ProjectID a; aTenant := aTenant a; aName := aName a; Type_ := Type_ a; SourceType := SourceType a;
     SourceURL := SourceURL a; Branch := Branch a; Dockerfile := Dockerfile a; EnvVarsEnc := EnvVarsEnc a; LabelsJSON := LabelsJSON a;
     Replicas := Replicas a; Status := Status a; ServerID := ServerID a; UpdatedAt := n |}.

(** The statements that can fail; those of a loop are numbered. *)
Inductive stmt :=
| SGetApp | SGetByName | SGetTenant | SCount | SInsertApp | SReread | SUpdateApp | SStatus (i : nat) | SDeleteApp (i : nat)
| SDeleteDomains | SGetDomain | SGetByFQDN | SInsertDomain (i : nat) | SDeleteDomain | SListDomains | SProjects | SListContainers
| SRuntime.

Definition app_types : list string := ["service"; "worker"; "static"; "database"; "cron"; "compose-stack"].
Definition source_types : list string := ["git"; "image"; "compose"; "dockerfile"; "marketplace"].
Definition statuses : list string := ["pending"; "building"; "deploying"; "running"; "stopped"; "crashed"; "failed"].

Definition find_app (s : Store) (id : string) : option Application := head (filter (λ a, aID a = id) (apps s)).
Definition find_domain (s : Store) (id : string) : option Domain := head (filter (λ d, dID d = id) (domains s)).
Definition find_fqdn (s : Store) (f : string) : option Domain := head (filter (λ d, FQDN d = f) (domains s)).
Definition count_apps (s : Store) (t : string) : Z := Z.of_nat (length (filter (λ a, aTenant a = t) (apps s))).

Section Statements.
Variable fk : bool.

(** src/internal/db/apps.go:13-26 SQLiteDB.CreateApp *)
Definition CreateApp (s : Store) (a : Application) : option Store :=
  if decide (Type_ a ∈ app_types ∧ SourceType a ∈ source_types ∧ Status a ∈ statuses ∧ find_app s (aID a) = None ∧
             (fk = true → Exists (λ p, p.1 = ProjectID a) (projects s) ∧ is_Some (plans s !! aTenant a)))
  then Some (with_apps s (apps s ++ [stamp (now s) a])) else None.

(** src/internal/db/apps.go:157-167 SQLiteDB.UpdateApp *)
Definition UpdateApp (s : Store) (a : Application) : option Store :=
  if decide (Status a ∈ statuses ∨ find_app s (aID a) = None)
  then Some (with_apps s ((λ r, if decide (aID r = aID a)
    then {| aID := aID r; ProjectID := ProjectID r; aTenant := aTenant r; aName := aName a; Type_ := Type_ r; SourceType := SourceType r;
            SourceURL := SourceURL a; Branch := Branch a; Dockerfile := Dockerfile a; EnvVarsEnc := EnvVarsEnc a;
            LabelsJSON := LabelsJSON a; Replicas := Replicas a; Status := Status a; ServerID := ServerID a; UpdatedAt := now s |}
    else r) <$> apps s)) else None.

Definition with_status (st : string) (a : Application) : Application :=
  {| aID := aID a; ProjectID := ProjectID a; aTenant := aTenant a; aName := aName a; Type_ := Type_ a; SourceType := SourceType a;
     SourceURL := SourceURL a; Branch := Branch a; Dockerfile := Dockerfile a; EnvVarsEnc := EnvVarsEnc a; LabelsJSON := LabelsJSON a;
     Replicas := Replicas a; Status := st; ServerID := ServerID a; UpdatedAt := UpdatedAt a |}.

Definition owned (id t : string) (a : Application) : bool := bool_decide (aID a = id ∧ aTenant a = t).

(** src/internal/db/apps.go:170-176 SQLiteDB.UpdateAppStatus *)
Definition UpdateAppStatus (s : Store) (id st t : string) : option Store :=
  if decide (st ∈ statuses ∨ existsb (owned id t) (apps s) = false)
  then Some (with_apps s ((λ a, if owned id t a then stamp (now s) (with_status st a) else a) <$> apps s)) else None.

(** The domains go with their application when foreign keys cascade.
    src/internal/db/apps.go:179-184 SQLiteDB.DeleteApp *)
Definition DeleteApp (s : Store) (id t : string) : Store :=
  let s' := with_apps s (filter (λ a, owned id t a = false) (apps s)) in
  if fk && existsb (owned id t) (apps s) then with_domains s' (filter (λ d, dApp d ≠ id) (domains s)) else s'.

(** src/internal/db/domains.go:13-25 SQLiteDB.CreateDomain *)
Definition CreateDomain (s : Store) (d : Domain) : option Store :=
  if decide (dType d ∈ ["auto"; "custom"; "wildcard"] ∧ find_domain s (dID d) = None ∧ find_fqdn s (FQDN d) = None ∧
             (fk = true → is_Some (find_app s (dApp d))))
  then Some (with_domains s (domains s ++ [d])) else None.

(** src/internal/db/domains.go:81-92 SQLiteDB.DeleteDomainsByApp *)
Definition DeleteDomainsByApp (s : Store) (id t : string) : Store :=
  if existsb (owned id t) (apps s) then with_domains s (filter (λ d, dApp d ≠ id) (domains s)) else s.

(** src/internal/db/domains.go:118-127 SQLiteDB.DeleteDomain *)
Definition DeleteDomain (s : Store) (id t : string) : Store :=
  with_domains s (filter (λ d, dID d ≠ id ∨ existsb (λ a, bool_decide (aID a = dApp d ∧ aTenant a = t)) (apps s) = false) (domains s)).

End Statements.

(** ** Requests *)

(** src/internal/api/handlers/helpers.go:141-169 requireTenantApp *)
Definition requireTenantApp (fails : stmt → bool) (s : Store) (tenant id : string) : result Z Application :=
  if decide (id = "") then Err 400
  else if fails SGetApp then Err 500
  else match find_app s id with
  | None => Err 404
  | Some a => if decide (aTenant a = tenant) then Ok a else Err 404
  end.

Definition name_char (c : ascii) : bool := is_alnum c || one_of " ._-" c.

(** src/internal/api/handlers/helpers.go:182-193 validateAppName *)
Definition validateAppName (name : string) : bool :=
  match bytes name with
  | [] => false
  | c :: r => (slen name <=? 100)%nat && is_alnum c && forallb name_char r
  end.

Inductive event :=
| AppCreated (id : string) | AppUpdated (id : string) | AppDeleted (id : string) | AppStarted (id : string) | AppStopped (id : string)
| DomainAdded (id fqdn app : string) | DomainRemoved (id : string).

Abbreviation answer := (Z * list event)%type.

(** src/internal/api/handlers/apps_domain.go:435-446 stricterPositiveLimit *)
Definition stricterPositiveLimit (a b : Z) : Z := if a <=? 0 then b else if b <=? 0 then a else if a <? b then a else b.

(** src/internal/api/handlers/apps_domain.go:427-434 builtinPlanAppLimit *)
Definition builtinPlanAppLimit (plan : string) : option Z :=
  Billing.MaxApps <$> head (filter (λ p, Billing.ID p = plan) Billing.BuiltinPlans).

(** [cap] is the operator's limit.
    src/internal/api/handlers/apps_domain.go:415-426 AppHandler.effectiveAppLimit *)
Definition effectiveAppLimit (fails : stmt → bool) (s : Store) (cap : Z) (tenant : string) : Z :=
  if fails SGetTenant then cap
  else match plans s !! tenant ≫= builtinPlanAppLimit with
  | Some l => stricterPositiveLimit cap l
  | None => cap
  end.

Section Handlers.
Variables (fk : bool) (fails : stmt → bool).

(** src/internal/api/handlers/apps_domain.go:286-293 createAppRequest *)
Record createAppRequest := { rName : string; rType : string; rSourceType : string; rSourceURL : string; rBranch : string; rProject : string }.

(** src/internal/api/handlers/apps_domain.go:326-353 AppHandler.Create.validate *)
Definition valid_request (allow : bool) (r : createAppRequest) : bool :=
  (slen (rSourceURL r) <=? 2048)%nat && (bool_decide (rSourceURL r = "") || is_ok (Build.ValidateGitURL allow (rSourceURL r))) &&
  (slen (rBranch r) <=? 100)%nat && (slen (rType r) <=? 50)%nat && (slen (rSourceType r) <=? 50)%nat && (slen (rProject r) <=? 100)%nat.

Definition or_else (s d : string) : string := if decide (s = "") then d else s.

Definition new_app (t gen : string) (r : createAppRequest) : Application :=
  {| aID := gen; ProjectID := rProject r; aTenant := t; aName := rName r; Type_ := or_else (rType r) "service";
     SourceType := or_else (rSourceType r) "image"; SourceURL := rSourceURL r; Branch := or_else (rBranch r) "main"; Dockerfile := "";
     EnvVarsEnc := ""; LabelsJSON := ""; Replicas := 1; Status := "pending"; ServerID := ""; UpdatedAt := 0 |}.

(** The automatic domain of the new application is added by a goroutine, [RAutoDomain] below.
    src/internal/api/handlers/apps_domain.go:312-414 AppHandler.Create *)
Definition Create (allow : bool) (cap : Z) (s : Store) (t : string) (req : option createAppRequest) (gen : string) : Store * answer :=
  match req with
  | None => (s, (400, []))
  | Some r =>
      if negb (validateAppName (rName r)) || negb (valid_request allow r) then (s, (400, []))
      else if negb (fails SGetByName) && existsb (λ a, bool_decide (aTenant a = t ∧ aName a = rName r)) (apps s) then (s, (409, []))
      else
        let limit := effectiveAppLimit fails s cap t in
        if (0 <? limit) && fails SCount then (s, (500, []))
        else if (0 <? limit) && (limit <=? count_apps s t) then (s, (429, []))
        else match (if fails SInsertApp then None else CreateApp fk s (new_app t gen r)) with
             | None => (s, (500, []))
             | Some s => (s, (201, [AppCreated gen]))
             end
  end.

(** src/internal/api/handlers/apps_domain.go:203-209 updateAppRequest *)
Record updateAppRequest := { uName : string; uSourceURL : string; uBranch : string; uDockerfile : string; uReplicas : option Z }.

(** src/internal/api/handlers/apps_domain.go:221-249 AppHandler.Update.validate *)
Definition valid_update (allow : bool) (r : updateAppRequest) : bool :=
  (bool_decide (uName r = "") || validateAppName (uName r)) && (slen (uSourceURL r) <=? 2048)%nat &&
  (bool_decide (uSourceURL r = "") || is_ok (Build.ValidateGitURL allow (uSourceURL r))) && (slen (uBranch r) <=? 100)%nat &&
  (slen (uDockerfile r) <=? 500)%nat && match uReplicas r with Some n => (0 <=? n) && (n <=? 100) | None => true end.

(** src/internal/api/handlers/apps_domain.go:250-264 AppHandler.Update.apply *)
Definition updated (r : updateAppRequest) (a : Application) : Application :=
  {| aID := aID a; ProjectID := ProjectID a; aTenant := aTenant a; aName := or_else (uName r) (aName a); Type_ := Type_ a;
     SourceType := SourceType a; SourceURL := or_else (uSourceURL r) (SourceURL a); Branch := or_else (uBranch r) (Branch a);
     Dockerfile := or_else (uDockerfile r) (Dockerfile a); EnvVarsEnc := EnvVarsEnc a; LabelsJSON := LabelsJSON a;
     Replicas := default (Replicas a) (uReplicas r); Status := Status a; ServerID := ServerID a; UpdatedAt := UpdatedAt a |}.

(** src/internal/api/handlers/apps_domain.go:212-272 AppHandler.Update *)
Definition Update (allow : bool) (s : Store) (t id : string) (req : option updateAppRequest) : Store * answer :=
  match requireTenantApp fails s t id with
  | Err c => (s, (c, []))
  | Ok a =>
      match req with
      | None => (s, (400, []))
      | Some r =>
          if negb (valid_update allow r) then (s, (400, []))
          else match (if fails SUpdateApp then None else UpdateApp s (updated r a)) with
               | None => (s, (500, []))
               | Some s => (s, (200, [AppUpdated id]))
               end
      end
  end.

(** src/internal/api/handlers/apps_domain.go:168-200 RenameHandler.Rename *)
Definition Rename (s : Store) (t id : string) (req : option string) : Store * answer :=
  match req with
  | None => (s, (400, []))
  | Some name =>
      if bool_decide (id = "") || negb (validateAppName name) then (s, (400, []))
      else match requireTenantApp fails s t id with
      | Err c => (s, (c, []))
      | Ok a =>
          match (if fails SUpdateApp then None
                 else UpdateApp s (updated {| uName := name; uSourceURL := ""; uBranch := ""; uDockerfile := ""; uReplicas := None |} a)) with
          | None => (s, (500, []))
          | Some s => (s, (200, [AppUpdated id]))
          end
      end
  end.

(** Docker finds a container by its name or identifier. *)
Definition answers_to (name : string) (c : container) : bool := bool_decide (cName c = name ∨ cID c = name).

Definition set_up (up : bool) (name : string) (l : list container) : list container :=
  (λ c, if answers_to name c then {| cID := cID c; cName := cName c; cApp := cApp c; cUp := up |} else c) <$> l.

(** src/internal/api/handlers/apps_domain.go:458-484 AppHandler.Delete *)
Definition Delete (s : Store) (t id : string) : Store * answer :=
  match requireTenantApp fails s t id with
  | Err c => (s, (c, []))
  | Ok a =>
      let s := if fails SRuntime then s
               else with_containers s (filter (λ c, answers_to ("dm-" +:+ aID a) c = false) (containers s)) in
      if fails SDeleteDomains then (s, (500, []))
      else
        let s := DeleteDomainsByApp s (aID a) (aTenant a) in
        if fails (SDeleteApp 0) then (s, (500, []))
        else (DeleteApp fk s (aID a) (aTenant a), (204, [AppDeleted (aID a)]))
  end.

(** src/internal/api/handlers/apps_domain.go:489-504 AppHandler.findAppContainerID *)
Definition findAppContainerID (s : Store) (id : string) : option string := cID <$> head (filter (λ c, cApp c = id) (containers s)).

Definition set_status (s : Store) (id st t : string) (i : nat) : Store :=
  if fails (SStatus i) then s else default s (UpdateAppStatus s id st t).

(** [rt] is whether there is a container runtime.
    src/internal/api/handlers/apps_domain.go:509-540 AppHandler.Restart *)
Definition Restart (rt : bool) (s : Store) (t id : string) : Store * answer :=
  match requireTenantApp fails s t id with
  | Err c => (s, (c, []))
  | Ok a =>
      if negb rt then (s, (503, []))
      else if fails SListContainers then (s, (500, []))
      else match findAppContainerID s (aID a) with
      | None => (s, (404, []))
      | Some cid =>
          if fails SRuntime then (s, (500, []))
          else (set_status (with_containers s (set_up true cid (containers s))) (aID a) "running" (aTenant a) 0, (200, [AppStarted (aID a)]))
      end
  end.

(** src/internal/api/handlers/apps_domain.go:581-612 AppHandler.Start *)
Definition Start (rt : bool) (s : Store) (t id : string) : Store * answer := Restart rt s t id.

(** src/internal/api/handlers/apps_domain.go:543-576 AppHandler.Stop *)
Definition Stop (rt : bool) (s : Store) (t id : string) : Store * answer :=
  match requireTenantApp fails s t id with
  | Err c => (s, (c, []))
  | Ok a =>
      if negb rt then (s, (503, []))
      else if fails SListContainers then (s, (500, []))
      else match findAppContainerID s (aID a) with
      | None => (set_status s (aID a) "stopped" (aTenant a) 0, (200, []))
      | Some cid =>
          if fails SRuntime then (s, (500, []))
          else (set_status (with_containers s (set_up false cid (containers s))) (aID a) "stopped" (aTenant a) 0, (200, [AppStopped (aID a)]))
      end
  end.

(** ** Domains *)

(** src/internal/api/handlers/domains_ssl.go:668-672 createDomainRequest *)
Record createDomainRequest := { qApp : string; qFQDN : string; qProvider : string }.

(** src/internal/api/handlers/domains_ssl.go:722-785 DomainHandler.Create *)
Definition CreateDomain_ (s : Store) (t : string) (req : option createDomainRequest) (gen : string) : Store * answer :=
  match req with
  | None => (s, (400, []))
  | Some r =>
      if bool_decide (qApp r = "") || bool_decide (qFQDN r = "") then (s, (400, []))
      else if fails SGetApp then (s, (404, []))
      else match find_app s (qApp r) with
      | None => (s, (404, []))
      | Some a =>
          if negb (bool_decide (aTenant a = t)) then (s, (403, []))
          else if (253 <? slen (qFQDN r))%nat || (50 <? slen (qProvider r))%nat then (s, (400, []))
          else if negb (fails SGetByFQDN) && bool_decide (is_Some (find_fqdn s (qFQDN r))) then (s, (409, []))
          else
            let d := {| dID := gen; dApp := qApp r; FQDN := qFQDN r; dType := "custom"; DNSProvider := or_else (qProvider r) "manual" |} in
            match (if fails (SInsertDomain 0) then None else CreateDomain fk s d) with
            | None => (s, (500, []))
            | Some s => (s, (201, [DomainAdded gen (qFQDN r) (qApp r)]))
            end
      end
  end.

(** src/internal/api/handlers/domains_ssl.go:788-830 DomainHandler.Delete *)
Definition DeleteDomain_ (s : Store) (t id : string) : Store * answer :=
  if decide (id = "") then (s, (400, []))
  else if fails SGetDomain then (s, (500, []))
  else match find_domain s id with
  | None => (s, (404, []))
  | Some d =>
      if fails SGetApp then (s, (500, []))
      else match find_app s (dApp d) with
      | None => (s, (500, []))
      | Some a =>
          if negb (bool_decide (aTenant a = t)) then (s, (403, []))
          else if fails SDeleteDomain then (s, (500, []))
          else (DeleteDomain s id t, (204, [DomainRemoved id]))
      end
  end.

Definition slug_char (c : ascii) : option ascii :=
  if is_alnum c || bool_decide (c = "-"%char) then Some c
  else if one_of " _." c then Some "-"%char else None.

(** [strings.Trim] of hyphens. *)
Definition trim_hyphens (l : list ascii) : list ascii :=
  reverse (drop_set ["-"%char] (reverse (drop_set ["-"%char] l))).

(** src/internal/deploy/autodomain.go:45-62 sanitizeSlug *)
Definition sanitizeSlug (gen name : string) : string :=
  match trim_hyphens (omap slug_char (bytes (ToLower name))) with [] => str (take 8 (bytes gen)) | l => str l end.

(** src/internal/deploy/autodomain.go:14-42 AutoDomain *)
Definition AutoDomain (s : Store) (a : Application) (suffix gen slug_gen : string) : Store * list event :=
  if decide (suffix = "") then (s, [])
  else
    let fqdn := sanitizeSlug slug_gen (aName a) +:+ "." +:+ suffix in
    if negb (fails SGetByFQDN) && bool_decide (is_Some (find_fqdn s fqdn)) then (s, [])
    else match (if fails (SInsertDomain 0) then None
                else CreateDomain fk s {| dID := gen; dApp := aID a; FQDN := fqdn; dType := "auto"; DNSProvider := "auto" |}) with
         | None => (s, [])
         | Some s => (s, [DomainAdded gen fqdn (aID a)])
         end.

(** ** Many at once *)

(** BNone is the empty string, BUnknown any other action. *)
Inductive bulk_action := BNone | BStart | BStop | BRestart | BDelete | BUnknown.

(** src/internal/api/handlers/bulk.go:26-30 bulkResult *)
Record bulkResult := { bApp : string; bStatus : string }.

(** The application when it exists and belongs to the tenant.
    src/internal/api/handlers/bulk.go:85-95 BulkHandler.Execute.owned *)
Definition bulk_owned (orig : string → option Application) (t : string) (id : string) : option Application :=
  match orig id with
  | Some a => if bool_decide (aTenant a = t) then Some a else None
  | None => None
  end.

(** The action on one application of the tenant: the store, the result and what was recorded as done.
    src/internal/api/handlers/bulk.go:97-145 BulkHandler.Execute.one *)
Definition bulk_one (s : Store) (a : Application) (t : string) (act : bulk_action) (i : nat) (id : string)
  : Store * bulkResult * list string :=
  let err := {| bApp := id; bStatus := "error" |} in
  let set st := if fails (SStatus i) then None else UpdateAppStatus s id st t in
  match act with
  | BStart => match set "running" with Some s => (s, {| bApp := id; bStatus := "started" |}, [id]) | None => (s, err, []) end
  | BStop => match set "stopped" with Some s => (s, {| bApp := id; bStatus := "stopped" |}, [id]) | None => (s, err, []) end
  | BRestart =>
      match set "stopped" with
      | None => (s, err, [])
      | Some s1 =>
          match (if fails (SStatus (i + 50)) then None else UpdateAppStatus s1 id "running" t) with
          | Some s2 => (s2, {| bApp := id; bStatus := "restarted" |}, [id])
          | None => (set_status s1 id (Status a) t (i + 100), err, [])
          end
      end
  | BDelete => if fails (SDeleteApp i) then (s, err, []) else (DeleteApp fk s id t, {| bApp := id; bStatus := "deleted" |}, [])
  | BUnknown | BNone => (s, err, [])
  end.

(** The undoing of what was recorded; an error of it is ignored.
    src/internal/api/handlers/bulk.go:147-154 BulkHandler.Execute.rollback *)
Definition undo (s : Store) (orig : string → option Application) (t : string) (done : list string) : Store :=
  foldl (λ s id, match orig id with Some a => set_status s id (Status a) t 150 | None => s end) s done.

Record bulk_answer := { results : list bulkResult; succeeded : nat; rolled_back : bool }.

(** The loop over the requested applications.  An application that is missing or not the tenant's
    is reported and passed over, without the rollback that follows any other error.
    src/internal/api/handlers/bulk.go:80-177 BulkHandler.Execute.loop *)
Fixpoint bulk_from (s : Store) (orig : string → option Application) (t : string) (act : bulk_action) (i : nat) (ids : list string)
    (acc : list bulkResult) (ok : nat) (done : list string) : Store * bulk_answer :=
  match ids with
  | [] => (s, {| results := acc; succeeded := ok; rolled_back := false |})
  | id :: ids =>
      match bulk_owned orig t id with
      | None => bulk_from s orig t act (S i) ids (acc ++ [{| bApp := id; bStatus := "error" |}]) ok done
      | Some a =>
          let '(s, r, d) := bulk_one s a t act i id in
          let failed := bool_decide (bStatus r = "error") in
          if failed && (0 <? ok)%nat then
            (undo s orig t (done ++ d),
             {| results := acc ++ [r] ++ replicate (length ids) {| bApp := ""; bStatus := "" |}; succeeded := 0; rolled_back := true |})
          else bulk_from s orig t act (S i) ids (acc ++ [r]) (if failed then ok else S ok) (done ++ d)
      end
  end.

(** src/internal/api/handlers/bulk.go:33-178 BulkHandler.Execute *)
Definition Execute (s : Store) (t : string) (act : bulk_action) (ids : list string) : Store * result Z bulk_answer :=
  if match act with BNone => true | _ => false end || bool_decide (ids = []) || (50 <? length ids)%nat then (s, Err 400)
  else if fails SGetApp then (s, Err 500)
  else let '(s', a) := bulk_from s (find_app s) t act 0 ids [] 0 [] in (s', Ok a).

(** ** Import and export *)

(** src/internal/api/handlers/import_export.go:24-36 AppManifest *)
Record AppManifest := {
  mName : string; mType : string; mSourceType : string; mSourceURL : string; mBranch : string; mDockerfile : string;
  mEnvKeys : list string; mDomains : list string; mLabelKeys : list string; mReplicas : Z }.

(** One label of a domain name: letters, digits and inner hyphens, at most 63. *)
Definition label_ok (l : list ascii) : bool :=
  match l with
  | [] => false
  | c :: r => (length l <=? 63)%nat && is_alnum c && forallb (λ c, is_alnum c || bool_decide (c = "-"%char)) l &&
              match last l with Some z => is_alnum z | None => false end
  end.

(** src/internal/api/handlers/import_export.go:62-62 domainNameRegex *)
Definition domainNameRegex (d : string) : bool :=
  let labels := split_on "."%char (bytes d) in
  match last labels with
  | Some tld => (2 <=? length labels)%nat && forallb label_ok (take (length labels - 1) labels) && (2 <=? length tld)%nat && forallb is_alpha tld
  | None => false
  end.

(** src/internal/api/handlers/import_export.go:65-145 AppManifest.Validate *)
Definition Validate (allow : bool) (m : AppManifest) : bool :=
  negb (bool_decide (mName m = "")) && (slen (mName m) <=? 64)%nat &&
  negb (existsb (λ c, one_of "<>:/|?*" c || bool_decide (c = byte 34 ∨ c = byte 92)) (bytes (mName m))) &&
  bool_decide (mType m ∈ ["web"; "worker"; "static"; "cron"; "docker"; "compose"; "database"; "service"]) &&
  bool_decide (mSourceType m ∈ ["git"; "github"; "gitlab"; "image"; "tarball"; "docker"; "dockerfile"]) &&
  negb (bool_decide (mSourceURL m = "")) && (slen (mSourceURL m) <=? 2048)%nat && is_ok (Build.ValidateGitURL allow (mSourceURL m)) &&
  (bool_decide (mBranch m = "") || negb (GoStrings.Contains (mBranch m) "..") &&
     negb (existsb (λ c, bool_decide (c ∈ [";"%char; byte 10; byte 13])) (bytes (mBranch m)))) &&
  (0 <=? mReplicas m) && (mReplicas m <=? 100) &&
  forallb (λ d, negb (bool_decide (d = "")) && (slen d <=? 253)%nat && domainNameRegex d) (mDomains m) &&
  forallb (λ k, negb (bool_decide (k = "")) && negb (existsb (λ c, bool_decide (c ∈ ["="%char; byte 10; byte 13])) (bytes k))) (mEnvKeys m) &&
  forallb (λ k, negb (bool_decide (k = ""))) (mLabelKeys m).

(** src/internal/api/handlers/import_export.go:148-177 ImportExportHandler.Export *)
Definition Export (s : Store) (t id : string) : result Z AppManifest :=
  match requireTenantApp fails s t id with
  | Err c => Err c
  | Ok a =>
      let ds := if fails SListDomains then [] else filter (λ d, dApp d = aID a) (domains s) in
      Ok {| mName := aName a; mType := Type_ a; mSourceType := SourceType a; mSourceURL := SourceURL a; mBranch := Branch a;
            mDockerfile := Dockerfile a; mEnvKeys := []; mDomains := FQDN <$> ds; mLabelKeys := []; mReplicas := Replicas a |}
  end.

Definition imported (s : Store) (t gen : string) (m : AppManifest) : Application :=
  {| aID := gen; ProjectID := if fails SProjects then "" else default "" (fst <$> head (filter (λ p, p.2 = t) (projects s)));
     aTenant := t; aName := mName m; Type_ := mType m; SourceType := mSourceType m; SourceURL := mSourceURL m; Branch := mBranch m;
     Dockerfile := mDockerfile m; EnvVarsEnc := ""; LabelsJSON := ""; Replicas := mReplicas m; Status := "pending"; ServerID := ""; UpdatedAt := 0 |}.

Fixpoint import_domains (s : Store) (app : string) (i : nat) (fqdns gens : list string) : Store :=
  match fqdns, gens with
  | f :: fqdns, g :: gens =>
      let s' := if fails (SInsertDomain i) then None
                else CreateDomain fk s {| dID := g; dApp := app; FQDN := f; dType := "custom"; DNSProvider := "" |} in
      import_domains (default s s') app (S i) fqdns gens
  | _, _ => s
  end.

(** [gens] are the identifiers of the domains.
    src/internal/api/handlers/import_export.go:180-247 ImportExportHandler.Import *)
Definition Import_ (allow : bool) (s : Store) (t : string) (req : option AppManifest) (gen : string) (gens : list string) : Store * Z :=
  match req with
  | None => (s, 400)
  | Some m =>
      if negb (Validate allow m) then (s, 400)
      else match (if fails SInsertApp then None else CreateApp fk s (imported s t gen m)) with
           | None => (s, 500)
           | Some s => (import_domains s gen 0 (mDomains m) gens, 201)
           end
  end.

End Handlers.

(** ** Certificates *)

(** Whether a name of a certificate covers a domain; both are in lower case. *)
Definition name_covers (name domain : string) : bool :=
  bool_decide (name = domain) ||
  (HasPrefix name "*." && (let pattern := str (drop 2 (bytes name)) in HasSuffix domain pattern && negb (bool_decide (domain = pattern)))).

(** The subject and alternative names of a certificate.
    src/internal/api/handlers/domains_ssl.go:623-652 certMatchesDomain *)
Definition certMatchesDomain (dnsNames : list string) (commonName domain : string) : bool :=
  let domain := ToLower domain in
  existsb (λ n, name_covers (ToLower n) domain) dnsNames ||
  (negb (bool_decide (commonName = "")) && name_covers (ToLower commonName) domain).

(** ** The tables under requests *)

Inductive request :=
| RCreate (req : option createAppRequest) (gen : string)
| RUpdate (id : string) (req : option updateAppRequest)
| RRename (id : string) (req : option string)
| RDelete (id : string)
| RRestart (id : string)
| RStop (id : string)
| RAddDomain (req : option createDomainRequest) (gen : string)
| RDeleteDomain (id : string)
| RBulk (act : bulk_action) (ids : list string)
| RImport (req : option AppManifest) (gen : string) (gens : list string)
| RAutoDomain (a : Application) (suffix gen slug_gen : string).

(** The store after a request of a tenant.  [RAutoDomain] is the goroutine that creating an
    application starts: it runs at any time later, on the application it was started for, whose
    identifier no other tenant has. *)
Definition serve (fk : bool) (fails : stmt → bool) (allow : bool) (cap : Z) (rt : bool) (s : Store) (t : string) (r : request) : Store :=
  match r with
  | RCreate req gen => (Create fk fails allow cap s t req gen).1
  | RUpdate id req => (Update fails allow s t id req).1
  | RRename id req => (Rename fails s t id req).1
  | RDelete id => (Delete fk fails s t id).1
  | RRestart id => (Restart fails rt s t id).1
  | RStop id => (Stop fails rt s t id).1
  | RAddDomain req gen => (CreateDomain_ fk fails s t req gen).1
  | RDeleteDomain id => (DeleteDomain_ fails s t id).1
  | RBulk act ids => (Execute fk fails s t act ids).1
  | RImport req gen gens => (Import_ fk fails allow s t req gen gens).1
  | RAutoDomain a suffix gen slug_gen =>
      if decide (from_option aTenant t (find_app s (aID a)) = t) then (AutoDomain fk fails s a suffix gen slug_gen).1 else s
  end.

(** Primary keys of applications and the unique column of domains. *)
Record tables_ok (s : Store) : Prop := { t_ids : NoDup (aID <$> apps s); t_fqdns : NoDup (FQDN <$> domains s) }.

(** The rows of other tenants: their applications, and the domains of those. *)
Definition other_apps (t : string) (s : Store) : list Application := filter (λ a, aTenant a ≠ t) (apps s).
Definition foreign (t : string) (s : Store) (d : Domain) : bool :=
  match find_app s (dApp d) with Some a => negb (bool_decide (aTenant a = t)) | None => false end.

Lemma find_app_Some s id a : find_app s id = Some a → a ∈ apps s ∧ aID a = id.
Proof.
  unfold find_app. intros E. assert (a ∈ filter (λ a, aID a = id) (apps s)) as [? ?]%list_elem_of_filter; [|done].
  destruct (filter (λ a, aID a = id) (apps s)); [done|]. injection E as ->. apply list_elem_of_here.
Qed.

Lemma find_app_None s id : find_app s id = None → ∀ a, a ∈ apps s → aID a ≠ id.
Proof.
  unfold find_app. intros E a Ha Hid. assert (a ∈ filter (λ a, aID a = id) (apps s)) as Hin by (by apply list_elem_of_filter).
  destruct (filter (λ a, aID a = id) (apps s)); [by apply elem_of_nil in Hin|done].
Qed.

Lemma same_id s a b : tables_ok s → a ∈ apps s → b ∈ apps s → aID a = aID b → a = b.
Proof.
  intros [Hn _] (i & Hi)%list_elem_of_lookup (j & Hj)%list_elem_of_lookup E. assert (i = j) as <-; [|congruence].
  eapply (NoDup_lookup (aID <$> apps s)); [done|rewrite list_lookup_fmap, Hi; done|rewrite list_lookup_fmap, Hj; cbn; by rewrite E].
Qed.

(** An update that keeps the columns the statement does not write changes one row and nothing else. *)
Record keeps_identity (f : Application → Application) : Prop := {
  k_id a : aID (f a) = aID a; k_project a : ProjectID (f a) = ProjectID a; k_tenant a : aTenant (f a) = aTenant a;
  k_type a : Type_ (f a) = Type_ a; k_source a : SourceType (f a) = SourceType a }.

Definition change_row (f : Application → Application) (id : string) (s : Store) : Store :=
  with_apps s ((λ r, if decide (aID r = id) then stamp (now s) (f r) else r) <$> apps s).

Lemma update_row f s id a s' :
  keeps_identity f → tables_ok s → find_app s id = Some a → UpdateApp s (f a) = Some s' → s' = change_row f id s.
Proof.
  intros [K1 K2 K3 K4 K5] Hok Ha. apply find_app_Some in Ha as [Ha Hid]. unfold UpdateApp, change_row. case_decide; [|done]. intros [= <-]. f_equal.
  apply list_fmap_ext. intros i r Hr%list_elem_of_lookup_2. rewrite K1, Hid. case_decide as E; [|done].
  assert (r = a) as -> by (apply (same_id s); congruence).
  specialize (K1 a); specialize (K2 a); specialize (K3 a); specialize (K4 a); specialize (K5 a). destruct (f a). cbn in *. unfold stamp. cbn. by subst.
Qed.

Lemma find_changed f s id : keeps_identity f → find_app (change_row f id s) id = (λ a, stamp (now s) (f a)) <$> find_app s id.
Proof.
  intros K. unfold find_app, change_row. cbn [apps with_apps]. induction (apps s) as [|r l IH]; [done|]. rewrite fmap_cons, !filter_cons.
  destruct (decide (aID r = id)) as [E|E]; [|by rewrite decide_False]. rewrite decide_True by (cbn [aID stamp]; by rewrite (k_id f K)). done.
Qed.

Lemma find_app_of s a : tables_ok s → a ∈ apps s → find_app s (aID a) = Some a.
Proof.
  intros Hok Ha. destruct (find_app s (aID a)) as [b|] eqn:E; [|by destruct (find_app_None _ _ E a Ha)].
  apply find_app_Some in E as [Hb E]. f_equal. by eapply same_id.
Qed.

(** A step that keeps the tables and the rows of the other tenants.  The owner of a domain is
    looked up before the step; the step may add applications of the tenant. *)
Record kept (t : string) (s s' : Store) : Prop := {
  k_ok : tables_ok s';
  k_apps : other_apps t s' = other_apps t s;
  k_owner : ∀ a, aTenant a ≠ t → a ∈ apps s → find_app s' (aID a) = Some a;
  k_domains : filter (λ d, foreign t s d = true) (domains s') = filter (λ d, foreign t s d = true) (domains s) }.

Lemma kept_refl t s : tables_ok s → kept t s s.
Proof. intros Hok. split; try done. intros a _ Ha. by apply find_app_of. Qed.

Lemma foreign_kept t s s' d : tables_ok s → kept t s s' → foreign t s d = true → foreign t s' d = true.
Proof.
  intros Hok [_ _ Ho _]. unfold foreign. destruct (find_app s (dApp d)) as [a|] eqn:E; [|done]. intros Ht.
  apply negb_true_iff, bool_decide_eq_false in Ht. apply find_app_Some in E as [Ha E]. rewrite <- E, Ho by done.
  by apply negb_true_iff, bool_decide_eq_false.
Qed.

Lemma kept_trans t s s1 s2 : tables_ok s → kept t s s1 → kept t s1 s2 → kept t s s2.
Proof.
  intros Hok H1 H2. pose proof H1 as [Hok1 Ha1 Ho1 Hd1]. destruct H2 as [Hok2 Ha2 Ho2 Hd2]. split; [done|congruence| |].
  - intros a Ht Ha. apply Ho2; [done|]. by apply find_app_Some with (id := aID a), Ho1.
  - rewrite <- Hd1. transitivity (filter (λ d, foreign t s d = true) (filter (λ d, foreign t s1 d = true) (domains s2))).
    + rewrite list_filter_filter. apply list_filter_iff. intros d. split; [|by intros [? _]]. intros Hf. split; [done|].
      by apply (foreign_kept t s).
    + rewrite Hd2, list_filter_filter. apply list_filter_iff. intros d. split; [by intros [? _]|]. intros Hf. split; [done|].
      by apply (foreign_kept t s).
Qed.

Lemma kept_with_apps t s l :
  tables_ok s → NoDup (aID <$> l) → filter (λ a, aTenant a ≠ t) l = other_apps t s → kept t s (with_apps s l).
Proof.
  intros Hok Hn Hl. assert (tables_ok (with_apps s l)) as Hok' by (split; [done|apply Hok]). split; [done|done| |done].
  intros a Ht Ha. apply find_app_of; [done|]. cbn [apps with_apps].
  assert (a ∈ filter (λ a, aTenant a ≠ t) l) as [_ ?]%list_elem_of_filter; [|done]. rewrite Hl. by apply list_elem_of_filter.
Qed.

Lemma kept_with_domains t s l :
  tables_ok s → NoDup (FQDN <$> l) → filter (λ d, foreign t s d = true) l = filter (λ d, foreign t s d = true) (domains s) →
  kept t s (with_domains s l).
Proof.
  intros Hok Hn Hl. split; [split; [apply Hok|done]|done| |done]. intros a Ht Ha. by apply (find_app_of s).
Qed.

Lemma kept_with_containers t s l : tables_ok s → kept t s (with_containers s l).
Proof. intros Hok. split; [by split; apply Hok|done| |done]. intros a _ Ha. by apply (find_app_of s). Qed.

(** A map that keeps identifiers and tenants, and the rows of other tenants. *)
Lemma kept_map t s f :
  tables_ok s → (∀ a, aID (f a) = aID a ∧ aTenant (f a) = aTenant a) → (∀ a, a ∈ apps s → aTenant a ≠ t → f a = a) →
  kept t s (with_apps s (f <$> apps s)).
Proof.
  intros Hok Hf Ht. apply kept_with_apps; [done| |].
  - rewrite <- list_fmap_compose. rewrite (list_fmap_ext (aID ∘ f) aID (apps s)); [apply Hok|]. intros i x _. apply Hf.
  - unfold other_apps. revert Ht. generalize (apps s). induction l as [|a l IH]; intros Ht; [done|]. cbn [fmap list_fmap].
    assert (∀ b, b ∈ l → aTenant b ≠ t → f b = b) as Ht' by (intros b Hb; apply Ht; by right).
    rewrite !filter_cons. destruct (Hf a) as [_ ->]. case_decide as E; [|by apply IH]. rewrite (Ht a) by (done || apply list_elem_of_here).
    f_equal. by apply IH.
Qed.

Lemma kept_CreateApp fk t s a s' : tables_ok s → aTenant a = t → CreateApp fk s a = Some s' → kept t s s'.
Proof.
  intros Hok Ht. unfold CreateApp. case_decide as E; [|done]. intros [= <-]. destruct E as (_ & _ & _ & Hid & _). apply kept_with_apps; [done| |].
  - rewrite fmap_app. apply NoDup_app. split_and!; [apply Hok| |apply NoDup_singleton]. intros x (b & -> & Hb)%list_elem_of_fmap.
    cbn. intros Hx%list_elem_of_singleton. by apply (find_app_None _ _ Hid b).
  - rewrite filter_app, filter_cons, decide_False by (by intros ?). by rewrite filter_nil, app_nil_r.
Qed.

Lemma kept_UpdateApp t s a b s' :
  tables_ok s → find_app s (aID b) = Some a → aTenant a = t → UpdateApp s b = Some s' → kept t s s'.
Proof.
  intros Hok Ha Ht. unfold UpdateApp. case_decide; [|done]. intros [= <-]. apply kept_map; [done|intros r; by case_decide|].
  intros r Hr Hne. rewrite decide_False; [done|]. intros E. apply find_app_Some in Ha as [Ha Ea]. apply Hne.
  by rewrite (same_id s r a) by (done || congruence).
Qed.

Lemma kept_UpdateAppStatus t s id st s' : tables_ok s → UpdateAppStatus s id st t = Some s' → kept t s s'.
Proof.
  intros Hok. unfold UpdateAppStatus. case_decide; [|done]. intros [= <-]. apply kept_map; [done|intros r; by destruct (owned id t r)|].
  intros r _ Hne. unfold owned. by rewrite bool_decide_eq_false_2 by (intros [_ ?]; done).
Qed.

Lemma kept_set_status fails t s id st i : tables_ok s → kept t s (set_status fails s id st t i).
Proof.
  intros Hok. unfold set_status. destruct (fails _); [by apply kept_refl|]. destruct (UpdateAppStatus s id st t) eqn:E; [|by apply kept_refl].
  by eapply kept_UpdateAppStatus.
Qed.

Lemma NoDup_fmap_filter {A B} (f : A → B) (P : A → Prop) `{∀ x, Decision (P x)} (l : list A) : NoDup (f <$> l) → NoDup (f <$> filter P l).
Proof.
  induction l as [|x l IH]; [done|]. cbn [fmap list_fmap]. intros [Hx Hl]%NoDup_cons. rewrite filter_cons. case_decide; [|by apply IH].
  cbn [fmap list_fmap]. apply NoDup_cons. split; [|by apply IH]. intros (y & Hy & Hin)%list_elem_of_fmap. apply Hx. rewrite Hy.
  apply list_elem_of_fmap_2. by apply list_elem_of_filter in Hin as [_ ?].
Qed.

Lemma owned_foreign t s id d : tables_ok s → existsb (owned id t) (apps s) = true → foreign t s d = true → dApp d ≠ id.
Proof.
  intros Hok Hex Hf Eid. subst id. apply existsb_exists in Hex as (a & Ha%list_elem_of_In & Ho). unfold owned in Ho. apply bool_decide_eq_true in Ho as [E Ht].
  unfold foreign in Hf. rewrite <- E in Hf. rewrite (find_app_of s a Hok Ha) in Hf. by rewrite bool_decide_eq_true_2 in Hf.
Qed.

Lemma kept_drop_domains t s id :
  tables_ok s → existsb (owned id t) (apps s) = true ∨ (∀ a, a ∈ apps s → aID a ≠ id) →
  kept t s (with_domains s (filter (λ d, dApp d ≠ id) (domains s))).
Proof.
  intros Hok Hid. apply kept_with_domains; [done|apply NoDup_fmap_filter, Hok|]. rewrite list_filter_filter. apply list_filter_iff.
  intros d. split; [by intros [? _]|]. intros Hf. split; [done|]. destruct Hid as [Hid|Hid]; [by eapply owned_foreign|].
  intros E. unfold foreign in Hf. destruct (find_app s (dApp d)) as [a|] eqn:Ha; [|done]. apply find_app_Some in Ha as [Ha Ea]. by apply (Hid a); [|congruence].
Qed.

Lemma kept_DeleteApp fk t s id : tables_ok s → kept t s (DeleteApp fk s id t).
Proof.
  intros Hok. unfold DeleteApp. set (s1 := with_apps s _).
  assert (kept t s s1) as H1.
  { apply kept_with_apps; [done|apply NoDup_fmap_filter, Hok|]. unfold other_apps. rewrite list_filter_filter. apply list_filter_iff.
    intros a. split; [by intros [? _]|]. intros Ht. split; [done|]. unfold owned. apply bool_decide_eq_false. by intros [_ ?]. }
  destruct (fk && existsb (owned id t) (apps s)) eqn:E; [|done]. apply andb_true_iff in E as [_ E].
  apply (kept_trans t s s1); [done|done|]. apply (kept_drop_domains t s1 id); [apply H1|]. right.
  intros a Ha Hid. cbn [apps s1 with_apps] in Ha. apply list_elem_of_filter in Ha as [Ho Ha]. unfold owned in Ho. apply bool_decide_eq_false in Ho.
  apply existsb_exists in E as (b & Hb%list_elem_of_In & Hob). unfold owned in Hob. apply bool_decide_eq_true in Hob as [Hb1 Hb2].
  apply Ho. rewrite (same_id s a b) by (done || congruence). done.
Qed.

Lemma kept_DeleteDomainsByApp t s id : tables_ok s → kept t s (DeleteDomainsByApp s id t).
Proof.
  intros Hok. unfold DeleteDomainsByApp. destruct (existsb (owned id t) (apps s)) eqn:E; [|by apply kept_refl].
  apply kept_drop_domains; [done|by left].
Qed.

Lemma kept_DeleteDomain t s id : tables_ok s → kept t s (DeleteDomain s id t).
Proof.
  intros Hok. unfold DeleteDomain. apply kept_with_domains; [done|apply NoDup_fmap_filter, Hok|]. rewrite list_filter_filter.
  apply list_filter_iff. intros d. split; [by intros [? _]|]. intros Hf. split; [done|]. right. apply not_true_is_false.
  intros (a & Ha%list_elem_of_In & Ho)%existsb_exists. apply bool_decide_eq_true in Ho as [E Ht]. unfold foreign in Hf. rewrite <- E in Hf.
  rewrite (find_app_of s a Hok Ha) in Hf. by rewrite bool_decide_eq_true_2 in Hf.
Qed.

Lemma kept_CreateDomain fk t s d s' : tables_ok s → foreign t s d = false → CreateDomain fk s d = Some s' → kept t s s'.
Proof.
  intros Hok Hf. unfold CreateDomain. case_decide as E; [|done]. intros [= <-]. destruct E as (_ & _ & Hq & _). apply kept_with_domains; [done| |].
  - rewrite fmap_app. apply NoDup_app. split_and!; [apply Hok| |apply NoDup_singleton]. intros x (e & -> & He)%list_elem_of_fmap.
    cbn. intros Hx%list_elem_of_singleton. unfold find_fqdn in Hq.
    assert (e ∈ filter (λ x, FQDN x = FQDN d) (domains s)) as Hin by (by apply list_elem_of_filter).
    destruct (filter (λ x, FQDN x = FQDN d) (domains s)); [by apply elem_of_nil in Hin|done].
  - rewrite filter_app, filter_cons, decide_False by (by rewrite Hf). by rewrite filter_nil, app_nil_r.
Qed.

Lemma tenant_app_found fails s t id a : requireTenantApp fails s t id = Ok a → find_app s id = Some a ∧ aTenant a = t ∧ aID a = id.
Proof.
  unfold requireTenantApp. case_decide; [done|]. destruct (fails SGetApp); [done|]. destruct (find_app s id) as [b|] eqn:E; [|done].
  case_decide; [|done]. intros [= ->]. by apply find_app_Some in E as [_ ?].
Qed.

Lemma kept_update fails t s id a b :
  tables_ok s → requireTenantApp fails s t id = Ok a → aID b = aID a →
  kept t s (default s (if fails SUpdateApp then None else UpdateApp s b)).
Proof.
  intros Hok (Hf & Ht & Hid)%tenant_app_found Eb. destruct (fails SUpdateApp); [by apply kept_refl|].
  destruct (UpdateApp s b) eqn:E; [|by apply kept_refl]. eapply (kept_UpdateApp t s a b); [done|rewrite Eb, Hid; exact Hf|done|done].
Qed.

Lemma kept_undo fails t orig done : ∀ s, tables_ok s → kept t s (undo fails s orig t done).
Proof.
  unfold undo. induction done as [|id done IH]; intros s Hok; [by apply kept_refl|]. cbn [foldl].
  destruct (orig id) as [a|]; [|by apply IH]. pose proof (kept_set_status fails t s id (Status a) 150 Hok) as H1.
  apply (kept_trans t s (set_status fails s id (Status a) t 150)); [done|done|]. apply IH, H1.
Qed.

Lemma kept_bulk_one fk fails t s a act i id :
  tables_ok s → kept t s (bulk_one fk fails s a t act i id).1.1.
Proof.
  intros Hok. unfold bulk_one.
  assert (∀ j st s', (if fails (SStatus j) then None else UpdateAppStatus s id st t) = Some s' → kept t s s') as Hset.
  { intros j st s'. destruct (fails _); [done|]. by apply kept_UpdateAppStatus. }
  destruct act.
  - by apply kept_refl.
  - destruct (if fails (SStatus i) then None else _) as [s'|] eqn:E; [by apply (Hset i "running")|by apply kept_refl].
  - destruct (if fails (SStatus i) then None else _) as [s'|] eqn:E; [by apply (Hset i "stopped")|by apply kept_refl].
  - destruct (if fails (SStatus i) then None else _) as [s1|] eqn:E1; [|by apply kept_refl]. pose proof (Hset _ _ _ E1) as H1.
    apply (kept_trans t s s1); [done|done|]. destruct (if fails (SStatus (i + 50)) then None else _) as [s2|] eqn:E2.
    + destruct (fails (SStatus (i + 50))); [done|]. eapply kept_UpdateAppStatus; [apply H1|done].
    + apply kept_set_status, H1.
  - destruct (fails (SDeleteApp i)); [by apply kept_refl|]. by apply kept_DeleteApp.
  - by apply kept_refl.
Qed.

Lemma kept_bulk fk fails t orig act ids : ∀ s i acc ok done,
  tables_ok s → kept t s (bulk_from fk fails s orig t act i ids acc ok done).1.
Proof.
  induction ids as [|id ids IH]; intros s i acc ok done Hok; cbn [bulk_from]; [by apply kept_refl|].
  destruct (bulk_owned orig t id) as [a|]; [|by apply IH].
  pose proof (kept_bulk_one fk fails t s a act i id Hok) as H1. destruct (bulk_one fk fails s a t act i id) as [[s1 r] d]. cbn [fst] in H1.
  destruct (bool_decide _ && _); cbn [fst]; apply (kept_trans t s s1); try done; [apply kept_undo, H1|apply IH, H1].
Qed.

Lemma kept_import_domains fk fails t app fqdns : ∀ gens s i,
  tables_ok s → (∀ a, find_app s app = Some a → aTenant a = t) → kept t s (import_domains fk fails s app i fqdns gens).
Proof.
  induction fqdns as [|f fqdns IH]; intros [|g gens] s i Hok Happ; cbn [import_domains]; try by apply kept_refl.
  set (d := {| dID := g |}). assert (foreign t s d = false) as Hf.
  { unfold foreign. cbn [dApp d]. destruct (find_app s app) as [a|]; [|done]. by rewrite bool_decide_eq_true_2 by by apply Happ. }
  destruct (if fails (SInsertDomain i) then None else CreateDomain fk s d) as [s1|] eqn:E; cbn [from_option id]; [|by apply IH].
  destruct (fails (SInsertDomain i)); [done|]. pose proof (kept_CreateDomain _ _ _ _ _ Hok Hf E) as H1.
  apply (kept_trans t s s1); [done|done|]. apply IH; [apply H1|]. unfold CreateDomain in E. case_decide; [|done]. injection E as <-. done.
Qed.

Lemma kept_AutoDomain fk fails t s a suffix gen slug :
  tables_ok s → from_option aTenant t (find_app s (aID a)) = t → kept t s (AutoDomain fk fails s a suffix gen slug).1.
Proof.
  intros Hok Ht. unfold AutoDomain. case_decide; [by apply kept_refl|]. destruct (_ && _); [by apply kept_refl|].
  destruct (if fails (SInsertDomain 0) then None else _) as [s'|] eqn:E; [|by apply kept_refl]. destruct (fails (SInsertDomain 0)); [done|].
  cbn [fst]. eapply kept_CreateDomain; [done| |done]. unfold foreign. cbn [dApp]. destruct (find_app s (aID a)); [|done].
  by rewrite bool_decide_eq_true_2.
Qed.

Lemma serve_kept fk fails allow cap rt s t r : tables_ok s → kept t s (serve fk fails allow cap rt s t r).
Proof.
  intros Hok. destruct r as [req gen|id req|id req|id|id|id|req gen|id|act ids|req gen gens|a suffix gen slug]; cbn [serve].
  - unfold Create. destruct req as [r|]; [|by apply kept_refl]. destruct (_ || _); [by apply kept_refl|]. destruct (_ && _); [by apply kept_refl|].
    destruct ((0 <? _) && fails SCount); [by apply kept_refl|]. destruct ((0 <? _) && _); [by apply kept_refl|].
    destruct (if fails SInsertApp then None else _) as [s'|] eqn:E; [|by apply kept_refl]. destruct (fails SInsertApp); [done|].
    cbn [fst]. apply (kept_CreateApp fk t s (new_app t gen r) s' Hok eq_refl E).
  - unfold Update. destruct (requireTenantApp fails s t id) as [a|c] eqn:Ha; [|by apply kept_refl]. destruct req as [r|]; [|by apply kept_refl].
    destruct (negb _); [by apply kept_refl|]. pose proof (kept_update fails t s id a (updated r a) Hok Ha eq_refl) as H1.
    by destruct (if fails SUpdateApp then None else _).
  - unfold Rename. destruct req as [name|]; [|by apply kept_refl]. destruct (_ || _); [by apply kept_refl|].
    destruct (requireTenantApp fails s t id) as [a|c] eqn:Ha; [|by apply kept_refl].
    match goal with |- context [UpdateApp s ?b] => pose proof (kept_update fails t s id a b Hok Ha eq_refl) as H1 end.
    by destruct (if fails SUpdateApp then None else _).
  - unfold Delete. destruct (requireTenantApp fails s t id) as [a|c] eqn:Ha; [|by apply kept_refl]. apply tenant_app_found in Ha as (_ & -> & _).
    set (s1 := if fails SRuntime then s else _). assert (kept t s s1) as H1.
    { unfold s1. destruct (fails SRuntime); [by apply kept_refl|]. by apply kept_with_containers. }
    destruct (fails SDeleteDomains); [done|]. pose proof (kept_DeleteDomainsByApp t s1 (aID a) (k_ok _ _ _ H1)) as H2.
    pose proof (kept_trans _ _ _ _ Hok H1 H2) as H3. destruct (fails (SDeleteApp 0)); [done|]. cbn [fst].
    apply (kept_trans t s _ _ Hok H3), kept_DeleteApp, H2.
  - unfold Restart. destruct (requireTenantApp fails s t id) as [a|c] eqn:Ha; [|by apply kept_refl]. apply tenant_app_found in Ha as (_ & -> & _).
    destruct (negb rt); [by apply kept_refl|]. destruct (fails SListContainers); [by apply kept_refl|].
    destruct (findAppContainerID s (aID a)); [|by apply kept_refl]. destruct (fails SRuntime); [by apply kept_refl|]. cbn [fst].
    eapply kept_trans; [done|by apply kept_with_containers|]. apply kept_set_status. by apply (kept_with_containers t).
  - unfold Stop. destruct (requireTenantApp fails s t id) as [a|c] eqn:Ha; [|by apply kept_refl]. apply tenant_app_found in Ha as (_ & -> & _).
    destruct (negb rt); [by apply kept_refl|]. destruct (fails SListContainers); [by apply kept_refl|].
    destruct (findAppContainerID s (aID a)); [|cbn [fst]; by apply kept_set_status]. destruct (fails SRuntime); [by apply kept_refl|]. cbn [fst].
    eapply kept_trans; [done|by apply kept_with_containers|]. apply kept_set_status. by apply (kept_with_containers t).
  - unfold CreateDomain_. destruct req as [r|]; [|by apply kept_refl]. destruct (_ || _); [by apply kept_refl|].
    destruct (fails SGetApp); [by apply kept_refl|]. destruct (find_app s (qApp r)) as [a|] eqn:Ha; [|by apply kept_refl].
    case_bool_decide as Ht; cbn [negb]; [|by apply kept_refl]. destruct (_ || _); [by apply kept_refl|]. destruct (_ && _); [by apply kept_refl|].
    destruct (if fails (SInsertDomain 0) then None else _) as [s'|] eqn:E; [|by apply kept_refl]. destruct (fails (SInsertDomain 0)); [done|].
    cbn [fst]. eapply kept_CreateDomain; [done| |done]. unfold foreign. cbn [dApp]. rewrite Ha. by rewrite bool_decide_eq_true_2.
  - unfold DeleteDomain_. case_decide; [by apply kept_refl|]. destruct (fails SGetDomain); [by apply kept_refl|].
    destruct (find_domain s id); [|by apply kept_refl]. destruct (fails SGetApp); [by apply kept_refl|].
    destruct (find_app s _); [|by apply kept_refl]. destruct (negb _); [by apply kept_refl|]. destruct (fails SDeleteDomain); [by apply kept_refl|].
    by apply kept_DeleteDomain.
  - unfold Execute. destruct (_ || _); [by apply kept_refl|]. destruct (fails SGetApp); [by apply kept_refl|].
    pose proof (kept_bulk fk fails t (find_app s) act ids s 0 [] 0 [] Hok) as H1. by destruct (bulk_from _ _ _ _ _ _ _ _ _ _ _).
  - unfold Import_. destruct req as [m|]; [|by apply kept_refl]. destruct (negb _); [by apply kept_refl|].
    destruct (if fails SInsertApp then None else _) as [s1|] eqn:E; [|by apply kept_refl]. destruct (fails SInsertApp); [done|].
    pose proof (kept_CreateApp fk t s (imported fails s t gen m) s1 Hok eq_refl E) as H1. cbn [fst]. apply (kept_trans t s s1); [done|done|].
    apply kept_import_domains; [apply H1|]. intros a Ha. unfold CreateApp in E. case_decide as Hc; [|done]. injection E as <-.
    destruct Hc as (_ & _ & _ & Hnew & _). cbn in Hnew. apply find_app_Some in Ha as [Ha Hid]. cbn [apps with_apps] in Ha.
    apply elem_of_app in Ha as [Ha|Ha%list_elem_of_singleton]; [by destruct (find_app_None _ _ Hnew a Ha)|by rewrite Ha].
  - case_decide as Ht; [|by apply kept_refl]. by apply kept_AutoDomain.
Qed.

(** C11. Whatever requests of whatever tenants come in, and whichever statements fail, identifiers and
    domain names stay unique, and a request of one tenant leaves every application of every
    other tenant, and every domain of those, as it is. *)
Theorem requests_stay_in_tenant fk fails allow cap rt s t r :
  tables_ok s →
  let s' := serve fk fails allow cap rt s t r in
  tables_ok s' ∧ other_apps t s' = other_apps t s ∧
  filter (λ d, foreign t s d = true) (domains s') = filter (λ d, foreign t s d = true) (domains s).
Proof. intros Hok. destruct (serve_kept fk fails allow cap rt s t r Hok) as [H1 H2 _ H4]. done. Qed.

(** ** What single requests do *)

Lemma CreateApp_apps fk s a s' : CreateApp fk s a = Some s' → apps s' = apps s ++ [stamp (now s) a] ∧ domains s' = domains s ∧ find_app s (aID a) = None.
Proof. unfold CreateApp. case_decide as E; [|done]. intros [= <-]. by destruct E as (_ & _ & _ & ? & _). Qed.

(** A created application is in the table with what the request asked for, its name was free in
    its tenant, and the tenant is within the stricter of the operator's and the plan's limit. *)
Theorem created_app_is_within_quota fk fails allow cap s t r gen s' evs :
  Create fk fails allow cap s t (Some r) gen = (s', (201, evs)) →
  apps s' = apps s ++ [stamp (now s) (new_app t gen r)] ∧ find_app s gen = None ∧ validateAppName (rName r) = true ∧
  (fails SGetByName = false → ∀ a, a ∈ apps s → aTenant a = t → aName a ≠ rName r) ∧
  let limit := effectiveAppLimit fails s cap t in
  (0 < limit → count_apps s' t ≤ limit).
Proof.
  unfold Create. destruct (validateAppName (rName r)) eqn:Hn; cbn [negb orb]; [|done]. destruct (negb (valid_request allow r)); [done|].
  destruct (negb (fails SGetByName) && _) eqn:Hdup; [done|]. cbv zeta. set (limit := effectiveAppLimit fails s cap t).
  destruct ((0 <? limit) && fails SCount); [done|]. destruct ((0 <? limit) && (limit <=? count_apps s t)) eqn:Hq; [done|].
  destruct (if fails SInsertApp then None else _) as [s1|] eqn:E; [|done]. intros [= <- _]. destruct (fails SInsertApp); [done|].
  destruct (CreateApp_apps _ _ _ _ E) as (Ha & _ & Hnew). split_and!; [done|done|done| |].
  - intros Hf a Hin Ht Hna. rewrite Hf in Hdup. cbn in Hdup. apply not_true_iff_false in Hdup. apply Hdup. apply existsb_exists. exists a.
    split; [by apply list_elem_of_In|]. by apply bool_decide_eq_true.
  - intros Hpos. unfold count_apps in *. rewrite Ha, filter_app, length_app. rewrite (proj2 (Z.ltb_lt _ _) Hpos) in Hq. cbn [andb] in Hq.
    apply Z.leb_gt in Hq. assert (filter (λ a, aTenant a = t) [stamp (now s) (new_app t gen r)] = [stamp (now s) (new_app t gen r)]) as -> by (by rewrite filter_cons, decide_True). cbn [length]. lia.
Qed.

(** Deleting an application leaves its containers: they are named after the application and the
    version, and the handler looks for the application alone. *)
Theorem deleted_app_keeps_containers fk fails s t id s' evs c v :
  Delete fk fails s t id = (s', (204, evs)) →
  c ∈ containers s → cName c = "dm-" +:+ id +:+ "-" +:+ itoa v → cID c ≠ "dm-" +:+ id →
  c ∈ containers s' ∧ (∀ a, a ∈ apps s' → aID a = id → aTenant a ≠ t).
Proof.
  unfold Delete. destruct (requireTenantApp fails s t id) as [a|] eqn:Ha; [|intros [= _ -> _]; unfold requireTenantApp in Ha; by repeat case_match].
  apply tenant_app_found in Ha as (_ & Ht & Hid). destruct (fails SDeleteDomains); [done|]. destruct (fails (SDeleteApp 0)); [done|].
  intros [= <- _] Hc Hname Hcid. set (s1 := if fails SRuntime then s else _). rewrite Hid, Ht.
  assert (c ∈ containers s1) as Hc1.
  { unfold s1. destruct (fails SRuntime); [done|]. cbn [containers with_containers]. apply list_elem_of_filter. split; [|done].
    unfold answers_to. apply bool_decide_eq_false. rewrite Hid, Hname. intros [E|E]; [|done].
    apply (f_equal (length ∘ bytes)) in E. cbn in E. rewrite !bytes_app, !length_app in E. cbn in E. lia. }
  split.
  - unfold DeleteApp, DeleteDomainsByApp. by repeat case_match.
  - intros b Hb Eb Et. assert (b ∈ filter (λ a, owned id t a = false) (apps s1)) as [Ho _]%list_elem_of_filter.
    { revert Hb. unfold DeleteApp, DeleteDomainsByApp. by repeat case_match. }
    unfold owned in Ho. apply bool_decide_eq_false in Ho. by apply Ho.
Qed.

(** What a manifest carries of an application. *)
Definition portable (a : Application) : string * string * string * string * string * string * Z :=
  (aName a, Type_ a, SourceType a, SourceURL a, Branch a, Dockerfile a, Replicas a).

(** An exported application imported elsewhere is the same application in name, type, source and
    size, without its variables and labels. *)
Theorem export_import_roundtrip fk fails fails' allow s s2 t t2 id m gen gens s3 :
  Export fails s t id = Ok m → Import_ fk fails' allow s2 t2 (Some m) gen gens = (s3, 201) →
  ∃ a b, find_app s id = Some a ∧ aTenant a = t ∧ b ∈ apps s3 ∧ aID b = gen ∧ aTenant b = t2 ∧ portable b = portable a ∧
    EnvVarsEnc b = "" ∧ LabelsJSON b = "" ∧ Status b = "pending".
Proof.
  unfold Export. destruct (requireTenantApp fails s t id) as [a|] eqn:Ha; [|done]. intros [= <-]. apply tenant_app_found in Ha as (Hf & Ht & _).
  unfold Import_. destruct (negb _); [done|]. destruct (if fails' SInsertApp then None else _) as [s1|] eqn:E; [|done]. intros [= <-].
  destruct (fails' SInsertApp); [done|]. destruct (CreateApp_apps _ _ _ _ E) as (Hs1 & _).
  set (m := {| mName := _ |}) in *. exists a, (stamp (now s2) (imported fails' s2 t2 gen m)).
  assert (∀ fqdns gens s i, apps (import_domains fk fails' s gen i fqdns gens) = apps s) as Himp.
  { induction fqdns as [|f fqdns IH]; intros [|g gs] s0 i; cbn [import_domains]; try done. rewrite IH.
    destruct (fails' _); [done|]. unfold CreateDomain. by case_decide. }
  split_and!; try done. rewrite Himp, Hs1. apply elem_of_app. right. apply list_elem_of_here.
Qed.

(** A wildcard certificate passes for every domain that ends in its name, with or without a dot
    before it. *)
Theorem wildcard_needs_no_dot p x : x ≠ "" → name_covers ("*." +:+ p) (x +:+ p) = true.
Proof.
  intros Hx. unfold name_covers. apply orb_true_iff. right. rewrite !andb_true_iff.
  assert (str (drop 2 (bytes ("*." +:+ p))) = p) as Hp by (rewrite bytes_app; cbn; apply str_bytes). rewrite Hp. split_and!.
  - apply bool_decide_eq_true. rewrite bytes_app. by eexists.
  - apply bool_decide_eq_true. rewrite bytes_app. by eexists.
  - apply negb_true_iff, bool_decide_eq_false. intros E. apply Hx. apply (f_equal bytes) in E. rewrite bytes_app in E.
    apply (f_equal length) in E. rewrite length_app in E. rewrite <- (str_bytes x). destruct (bytes x); [done|cbn in E; lia].
Qed.

(** ** Undoing a bulk operation *)

(** All columns but the one that every write sets. *)
Definition unstamped : Application → Application := stamp 0.

(** The rows differ from those at the start only in the time of their last write and in the status of
    the recorded applications. *)
Definition drift (t : string) (done : list string) (a b : Application) : Prop :=
  unstamped b = unstamped a ∨ aID a ∈ done ∧ aTenant a = t ∧ ∃ st, unstamped b = unstamped (with_status st a).

Definition drifted (t : string) (s0 : Store) (done : list string) (s : Store) : Prop := Forall2 (drift t done) (apps s0) (apps s).

Definition statuses_ok (s : Store) : Prop := Forall (λ a, Status a ∈ statuses) (apps s).

Lemma unstamped_owned id t a b : unstamped a = unstamped b → owned id t a = owned id t b.
Proof. intros E. unfold owned. by rewrite <- (eq_refl : aID (unstamped a) = aID a), <- (eq_refl : aTenant (unstamped a) = aTenant a), E. Qed.

Lemma unstamped_set n st a b : unstamped a = unstamped b → unstamped (stamp n (with_status st a)) = unstamped (with_status st b).
Proof. destruct a, b. unfold unstamped, stamp, with_status. cbn. intros H. injection H. intros. by subst. Qed.

Lemma drift_owned t done a b id : drift t done a b → owned id t b = owned id t a.
Proof. intros [E|(_ & _ & st & E)]; by rewrite (unstamped_owned id t _ _ E). Qed.

Lemma drifted_set t s0 done s id st s' :
  drifted t s0 done s → UpdateAppStatus s id st t = Some s' → drifted t s0 (done ++ [id]) s'.
Proof.
  unfold drifted, UpdateAppStatus. case_decide; [|done]. intros Hd [= <-]. cbn [apps with_apps]. apply Forall2_fmap_r. eapply Forall2_impl; [done|].
  intros a b Hab. pose proof (drift_owned _ _ _ _ id Hab) as Eo. unfold compose. destruct (owned id t a) eqn:Ho; rewrite Eo.
  - unfold owned in Ho. apply bool_decide_eq_true in Ho as [Hid Ht]. right. split_and!; [|done|].
    + apply elem_of_app. right. rewrite Hid. apply list_elem_of_here.
    + exists st. destruct Hab as [E|(_ & _ & x & E)]; by rewrite (unstamped_set _ st _ _ E).
  - destruct Hab as [E|(Hin & Ht & x & E)]; [by left|]. right. split_and!; [apply elem_of_app; by left|done|by exists x].
Qed.

(** Setting the status a row had brings the row back. *)
Lemma drifted_restore fails t s0 done s id a i :
  tables_ok s0 → statuses_ok s0 → fails (SStatus i) = false → find_app s0 id = Some a →
  drifted t s0 (id :: done) s → drifted t s0 done (set_status fails s id (Status a) t i).
Proof.
  intros Hok Hst Hf Ha Hd. apply find_app_Some in Ha as [Ha Hid]. unfold set_status. rewrite Hf. unfold UpdateAppStatus.
  rewrite decide_True by (left; unfold statuses_ok in Hst; rewrite Forall_forall in Hst; by apply Hst). cbn [from_option].
  unfold drifted. cbn [apps with_apps]. apply Forall2_fmap_r.
  assert (Forall2 (λ x b, x ∈ apps s0 ∧ drift t (id :: done) x b) (apps s0) (apps s)) as Hd'.
  { apply Forall2_same_length_lookup_2; [by eapply Forall2_length|]. intros k x b Hx Hb. split; [by eapply list_elem_of_lookup_2|].
    by eapply Forall2_lookup_lr. }
  eapply Forall2_impl; [done|]. intros x b [Hx Hxb]. pose proof (drift_owned _ _ _ _ id Hxb) as Eo. unfold compose.
  destruct (owned id t x) eqn:Ho; rewrite Eo.
  - unfold owned in Ho. apply bool_decide_eq_true in Ho as [Hxid _]. left.
    assert (x = a) as -> by (apply (same_id s0); done || congruence).
    destruct Hxb as [E|(_ & _ & st & E)]; rewrite (unstamped_set _ (Status a) _ _ E); by destruct a.
  - destruct Hxb as [E|(Hin & Ht & st & E)]; [by left|]. right. split_and!; [|done|by exists st].
    apply elem_of_cons in Hin as [Hin|]; [|done]. exfalso. unfold owned in Ho. by rewrite bool_decide_eq_true_2 in Ho.
Qed.

Lemma undo_restores fails t s0 done : ∀ s,
  tables_ok s0 → statuses_ok s0 → fails (SStatus 150) = false → drifted t s0 done s →
  unstamped <$> apps (undo fails s (find_app s0) t done) = unstamped <$> apps s0.
Proof.
  unfold undo. induction done as [|id done IH]; intros s Hok Hst Hf Hd; cbn [foldl].
  - unfold drifted in Hd. induction Hd as [|a b l k [E|(Hin & _)] _ IHd]; [done| |by apply elem_of_nil in Hin]. rewrite !fmap_cons. by rewrite E, IHd.
  - apply IH; try done. destruct (find_app s0 id) as [a|] eqn:Ha; [by apply drifted_restore|]. unfold drifted in *.
    assert (Forall2 (λ x b, x ∈ apps s0 ∧ drift t (id :: done) x b) (apps s0) (apps s)) as Hd'.
    { apply Forall2_same_length_lookup_2; [by eapply Forall2_length|]. intros k x b Hx Hb. split; [by eapply list_elem_of_lookup_2|].
      by eapply Forall2_lookup_lr. }
    eapply Forall2_impl; [done|]. intros x b [Hx [E|(Hin & Hrest)]]; [by left|]. right. split; [|done].
    apply elem_of_cons in Hin as [Hin|]; [|done]. by destruct (find_app_None _ _ Ha x Hx).
Qed.

Lemma drifted_perm t s0 d1 d2 s : (∀ x, x ∈ d1 → x ∈ d2) → drifted t s0 d1 s → drifted t s0 d2 s.
Proof. intros Hsub Hd. eapply Forall2_impl; [done|]. intros a b [E|(Hin & Hrest)]; [by left|right]. split; [by apply Hsub|done]. Qed.

Lemma bulk_one_drifts fk fails t s0 s a act i id done :
  bulk_owned (find_app s0) t id = Some a → tables_ok s0 → statuses_ok s0 → act ≠ BDelete → (∀ k, (100 ≤ k)%nat → fails (SStatus k) = false) → drifted t s0 done s →
  let '(s', r, d) := bulk_one fk fails s a t act i id in drifted t s0 (done ++ d) s'.
Proof.
  unfold bulk_owned. destruct (find_app s0 id) as [a'|] eqn:Ha; [|done]. case_bool_decide; [|done]. intros [= ->].
  intros Hok Hst Hact Hf Hd. unfold bulk_one. assert (drifted t s0 (done ++ []) s) as Hsame by (by rewrite app_nil_r).
  assert (∀ j st s', (if fails (SStatus j) then None else UpdateAppStatus s id st t) = Some s' → drifted t s0 (done ++ [id]) s') as Hset.
  { intros j st s'. destruct (fails _); [done|]. by apply drifted_set. }
  destruct act; [done| | | |done|done].
  - destruct (if fails (SStatus i) then None else _) as [s'|] eqn:E; [by eapply Hset|done].
  - destruct (if fails (SStatus i) then None else _) as [s'|] eqn:E; [by eapply Hset|done].
  - destruct (if fails (SStatus i) then None else _) as [s1|] eqn:E1; [|done]. pose proof (Hset _ _ _ E1) as H1.
    destruct (if fails (SStatus (i + 50)) then None else _) as [s2|] eqn:E2.
    + destruct (fails (SStatus (i + 50))); [done|]. eapply drifted_perm; [|by eapply drifted_set]. set_solver.
    + rewrite app_nil_r. eapply drifted_restore; try done; [apply Hf; lia|]. eapply drifted_perm; [|done]. set_solver.
Qed.

Lemma bulk_restores fk fails t s0 act ids : ∀ s i acc ok done s' a,
  tables_ok s0 → statuses_ok s0 → act ≠ BDelete → (∀ k, (100 ≤ k)%nat → fails (SStatus k) = false) → drifted t s0 done s →
  bulk_from fk fails s (find_app s0) t act i ids acc ok done = (s', a) → rolled_back a = true → unstamped <$> apps s' = unstamped <$> apps s0.
Proof.
  induction ids as [|id ids IH]; intros s i acc ok done s' a Hok Hst Hact Hf Hd; cbn [bulk_from]; [by intros [= _ <-]|].
  destruct (bulk_owned (find_app s0) t id) as [a0|] eqn:Ha; [|by apply IH].
  pose proof (bulk_one_drifts fk fails t s0 s a0 act i id done Ha Hok Hst Hact Hf Hd) as Hone.
  destruct (bulk_one fk fails s a0 t act i id) as [[s1 r] d]. destruct (bool_decide _ && _).
  - intros [= <- <-] _. apply undo_restores; try done. apply Hf. lia.
  - by apply IH.
Qed.

(** C12. When a bulk start, stop or restart reports a rollback, every column of every application but
    the time of its last write is as it was before, whichever of them failed and however often an
    application is named.  Conditions: identifiers are unique, the statuses at the start are
    ones the table accepts, and the restoring statements themselves do not fail; deletions are
    not undone. *)
Theorem bulk_rollback_restores fk fails s t act ids s' a :
  tables_ok s → statuses_ok s → act ≠ BDelete → (∀ k, (100 ≤ k)%nat → fails (SStatus k) = false) →
  Execute fk fails s t act ids = (s', Ok a) → rolled_back a = true → unstamped <$> apps s' = unstamped <$> apps s.
Proof.
  intros Hok Hst Hact Hf. unfold Execute. destruct (_ || _); [done|]. destruct (fails SGetApp); [done|].
  destruct (bulk_from fk fails s (find_app s) t act 0 ids [] 0 []) as [s1 a1] eqn:E. intros [= <- <-] Hr.
  eapply bulk_restores; try done. unfold drifted. apply Forall2_same_length_lookup_2; [done|]. intros k x y Hx Hy. left. congruence.
Qed.

(** ** Examples *)

Definition sample_app (id t st : string) : Application :=
  {| aID := id; ProjectID := "p1"; aTenant := t; aName := "app " +:+ id; Type_ := "service"; SourceType := "git";
     SourceURL := "https://github.com/a/b"; Branch := "main"; Dockerfile := ""; EnvVarsEnc := "secret"; LabelsJSON := "{}"; Replicas := 1;
     Status := st; ServerID := ""; UpdatedAt := 0 |}.

Definition sample_store : Store :=
  {| apps := [sample_app "a1" "t1" "running"; sample_app "a2" "t1" "stopped"; sample_app "b1" "t2" "running"];
     domains := [{| dID := "d1"; dApp := "b1"; FQDN := "b.example.com"; dType := "custom"; DNSProvider := "manual" |}];
     plans := {["t1" := "free"; "t2" := "pro"]}; projects := [("p1", "t1")];
     containers := [{| cID := "c1"; cName := "dm-a1-3"; cApp := "a1"; cUp := true |}]; now := 7 |}.

Definition no_failure : stmt → bool := λ _, false.

Lemma sample_ok : tables_ok sample_store.
Proof. split; apply (bool_decide_eq_true_1 _); reflexivity. Qed.

Lemma requests_stay_in_tenant_witness :
  other_apps "t1" (serve true no_failure false 0 true sample_store "t1" (RBulk BDelete ["a1"; "b1"])) = other_apps "t1" sample_store.
Proof.
  exact (proj1 (proj2 (requests_stay_in_tenant true no_failure false 0 true sample_store "t1" (RBulk BDelete ["a1"; "b1"]) sample_ok))).
Defined.

Definition sample_request : createAppRequest :=
  {| rName := "web"; rType := ""; rSourceType := ""; rSourceURL := "nginx"; rBranch := ""; rProject := "p1" |}.

Lemma created_app_is_within_quota_witness :
  count_apps (Create true no_failure false 0 sample_store "t1" (Some sample_request) "a9").1 "t1" ≤ 3.
Proof.
  destruct (created_app_is_within_quota true no_failure false 0 sample_store "t1" sample_request "a9" _ _ eq_refl) as (_ & _ & _ & _ & Hq).
  apply Hq. reflexivity.
Defined.

Lemma deleted_app_keeps_containers_witness :
  {| cID := "c1"; cName := "dm-a1-3"; cApp := "a1"; cUp := true |} ∈ containers (Delete true no_failure sample_store "t1" "a1").1.
Proof.
  refine (proj1 (deleted_app_keeps_containers true no_failure sample_store "t1" "a1" _ _
    {| cID := "c1"; cName := "dm-a1-3"; cApp := "a1"; cUp := true |} 3 eq_refl _ _ _)); [left|reflexivity|discriminate].
Defined.

Definition exported : AppManifest :=
  {| mName := "app a1"; mType := "service"; mSourceType := "git"; mSourceURL := "https://github.com/a/b"; mBranch := "main"; mDockerfile := "";
     mEnvKeys := []; mDomains := []; mLabelKeys := []; mReplicas := 1 |}.

Lemma export_import_roundtrip_witness :
  ∃ a b, find_app sample_store "a1" = Some a ∧ aTenant a = "t1" ∧
    b ∈ apps (Import_ true no_failure false sample_store "t1" (Some exported) "n1" []).1 ∧ aID b = "n1" ∧ aTenant b = "t1" ∧
    portable b = portable a ∧ EnvVarsEnc b = "" ∧ LabelsJSON b = "" ∧ Status b = "pending".
Proof.
  exact (export_import_roundtrip true no_failure no_failure false sample_store sample_store "t1" "t1" "a1" exported "n1" [] _ eq_refl eq_refl).
Defined.

Lemma wildcard_needs_no_dot_witness : name_covers "*.example.com" "evilexample.com" = true.
Proof. apply (wildcard_needs_no_dot "example.com" "evil"). discriminate. Defined.

Definition second_fails (x : stmt) : bool := match x with SStatus 1 => true | _ => false end.

Lemma bulk_rollback_restores_witness :
  unstamped <$> apps (Execute true second_fails sample_store "t1" BStop ["a1"; "a2"]).1 = unstamped <$> apps sample_store.
Proof.
  refine (bulk_rollback_restores true second_fails sample_store "t1" BStop ["a1"; "a2"] _ _ sample_ok _ _ _ eq_refl eq_refl);
    [apply (bool_decide_eq_true_1 _); reflexivity|discriminate|].
  intros [|[|k]] Hk; [lia..|reflexivity].
Defined.

(** An import is not counted against the quota: a free plan allows three applications. *)
Example import_passes_quota :
  let s := (Create true no_failure false 0 sample_store "t1" (Some sample_request) "a9").1 in
  (Create true no_failure false 0 s "t1"
     (Some {| rName := "more"; rType := ""; rSourceType := ""; rSourceURL := ""; rBranch := ""; rProject := "p1" |}) "a10").2.1 = 429 ∧
  (Import_ true no_failure false s "t1" (Some exported) "a10" []).2 = 201.
Proof. by split. Qed.

(** A bulk deletion that fails half way reports a rollback and has deleted what came first. *)
Example bulk_delete_not_undone :
  let '(s, r) := Execute true (λ x, match x with SDeleteApp 1 => true | _ => false end) sample_store "t1" BDelete ["a1"; "a2"] in
  find_app s "a1" = None ∧ match r with Ok a => rolled_back a = true ∧ succeeded a = 0%nat | Err _ => False end.
Proof. by split. Qed.

End Apps.
