(* ===== verification/Hub.v ===== *)
(** * Hub: live deployment progress over web sockets ([api/ws/deploy.go], [middleware/ws_ratelimit.go])

    The hub keeps the connections of each project.  A handler serves one connection from entering
    the hub to leaving it; broadcasts take a snapshot of a project's connections and write to them
    without the lock; the shutdown closes the hub, hangs up and waits for the handlers.  Each of
    these is a thread of its own, cut at its locks and network calls, and they interleave freely.
    A handler and its connection share an index. *)

From Stdlib Require Import Floats.SpecFloat.
From S2P Require Import Prelude GoStrings GoTime GoFloat.
#[local] Open Scope Z_scope.

Module Hub.
Import GoFloat.

(** ** The frame limiter *)

(** src/internal/api/middleware/ws_ratelimit.go:15-18 WSFrameRatePerSec *)
Definition WSFrameRatePerSec : Z := 100.

(** src/internal/api/middleware/ws_ratelimit.go:15-18 WSFrameBurst *)
Definition WSFrameBurst : Z := 200.

(** [last] is [None] for the zero time.
    src/internal/api/middleware/ws_ratelimit.go:33-42 WSFrameLimiter *)
Record WSFrameLimiter := { tokens : f64; capacity : f64; rate : f64; last : option instant }.

Definition f64_of_Z (n : Z) : f64 := binary_normalize 53 1024 n 0 false.
Definition f64_mul (x y : f64) : f64 := SFmul 53 1024 x y.
Definition f64_sub (x y : f64) : f64 := SFsub 53 1024 x y.
Definition f64_div (x y : f64) : f64 := SFdiv 53 1024 x y.

(** [time.Duration.Seconds]: whole seconds and the rest are converted apart. *)
Definition Seconds (d : duration) : f64 :=
  f64_add (f64_of_Z (Z.quot d Second)) (f64_div (f64_of_Z (Z.rem d Second)) (f64_of_Z Second)).

(** src/internal/api/middleware/ws_ratelimit.go:47-60 NewWSFrameLimiter *)
Definition NewWSFrameLimiter (ratePerSec burst : Z) : WSFrameLimiter :=
  let ratePerSec := if ratePerSec <=? 0 then WSFrameRatePerSec else ratePerSec in
  let burst := if burst <=? 0 then WSFrameBurst else burst in
  {| tokens := f64_of_Z burst; capacity := f64_of_Z burst; rate := f64_of_Z ratePerSec; last := None |}.

Definition refill (l : WSFrameLimiter) (now : instant) : WSFrameLimiter :=
  let last := default now (last l) in
  let elapsed := Seconds (time_sub now last) in
  if f64_ltb f64_zero elapsed then
    let t := f64_add (tokens l) (f64_mul elapsed (rate l)) in
    {| tokens := if f64_ltb (capacity l) t then capacity l else t; capacity := capacity l; rate := rate l; last := Some now |}
  else {| tokens := tokens l; capacity := capacity l; rate := rate l; last := Some last |}.

(** src/internal/api/middleware/ws_ratelimit.go:71-93 WSFrameLimiter.Allow *)
Definition Allow (l : WSFrameLimiter) (now : instant) : WSFrameLimiter * bool :=
  let l := refill l now in
  if f64_ltb (tokens l) (f64_of_Z 1) then (l, false)
  else ({| tokens := f64_sub (tokens l) (f64_of_Z 1); capacity := capacity l; rate := rate l; last := last l |}, true).

(** ** Messages *)

(** src/internal/api/ws/deploy.go:22-29 DeployProgressMessage *)
Record DeployProgressMessage := { pProject : string; Stage : string; pMessage : string; Progress : Z; pTime : Z }.

(** src/internal/api/ws/deploy.go:32-43 DeployCompleteMessage *)
Record DeployCompleteMessage := {
  cProject : string; Success : bool; cMessage : string; Duration : string; Containers : list string; Networks : list string;
  Volumes : list string; Errors : list string; cTime : Z }.

Inductive message := MProgress (m : DeployProgressMessage) | MComplete (m : DeployCompleteMessage).

(** ** State *)

(** Where a handler is: in the hub, upgraded, reading, waiting for its ping loop, and its deferred calls. *)
Inductive phase := Entered | Upgraded | Serving | Stopping | Leaving | Closing | Returning | Over.

#[export] Instance phase_eq : EqDecision phase.
Proof. solve_decision. Defined.

(** [open] is the socket, [ping] the ping loop, [got] the broadcasts that were written to it. *)
Record handler := { project : string; at_ : phase; open : bool; ping : bool; limiter : WSFrameLimiter; got : list nat }.

(** A broadcast that writes, with the connections it has still to write to and those that failed, and one
    that hangs up on those that failed. *)
Inductive stage := Sending (rest failed : list nat) | HangingUp (l : list nat).

Record broadcast := { bProject : string; body : message; snapshot : list nat; bStage : stage }.

(** [wg] counts handlers, [evicting] are the connections the shutdown has still to hang up on.
    src/internal/api/ws/deploy.go:84-93 DeployHub *)
Record DeployHub := {
  clients : gmap string (gset nat); closed : bool; wg : Z; handlers : list handler; casts : list broadcast; evicting : list nat;
  allowedOrigins : string }.

(** src/internal/api/ws/deploy.go:96-102 NewDeployHub *)
Definition NewDeployHub (origins : string) : DeployHub :=
  {| clients := ∅; closed := false; wg := 0; handlers := []; casts := []; evicting := []; allowedOrigins := origins |}.

Definition with_clients (s : DeployHub) (m : gmap string (gset nat)) : DeployHub :=
  {| clients := m; closed := closed s; wg := wg s; handlers := handlers s; casts := casts s; evicting := evicting s;
     allowedOrigins := allowedOrigins s |}.
Definition with_handlers (s : DeployHub) (n : Z) (l : list handler) : DeployHub :=
  {| clients := clients s; closed := closed s; wg := n; handlers := l; casts := casts s; evicting := evicting s;
     allowedOrigins := allowedOrigins s |}.
Definition with_casts (s : DeployHub) (l : list broadcast) : DeployHub :=
  {| clients := clients s; closed := closed s; wg := wg s; handlers := handlers s; casts := l; evicting := evicting s;
     allowedOrigins := allowedOrigins s |}.
Definition with_evicting (s : DeployHub) (l : list nat) : DeployHub :=
  {| clients := clients s; closed := closed s; wg := wg s; handlers := handlers s; casts := casts s; evicting := l;
     allowedOrigins := allowedOrigins s |}.

Definition set_handler (s : DeployHub) (c : nat) (f : handler → handler) : DeployHub :=
  with_handlers s (wg s) (alter f c (handlers s)).
Definition set_stage (s : DeployHub) (i : nat) (st : stage) : DeployHub :=
  with_casts s (alter (λ b, {| bProject := bProject b; body := body b; snapshot := snapshot b; bStage := st |}) i (casts s)).

Definition to (p : phase) (h : handler) : handler :=
  {| project := project h; at_ := p; open := open h; ping := ping h; limiter := limiter h; got := got h |}.
Definition connected (h : handler) : handler :=
  {| project := project h; at_ := Upgraded; open := true; ping := ping h; limiter := limiter h; got := got h |}.
Definition with_ping (b : bool) (h : handler) : handler :=
  {| project := project h; at_ := at_ h; open := open h; ping := b; limiter := limiter h; got := got h |}.
Definition hang_up (h : handler) : handler :=
  {| project := project h; at_ := at_ h; open := false; ping := ping h; limiter := limiter h; got := got h |}.
Definition with_limiter (l : WSFrameLimiter) (h : handler) : handler :=
  {| project := project h; at_ := at_ h; open := open h; ping := ping h; limiter := l; got := got h |}.
Definition receive (i : nat) (h : handler) : handler :=
  {| project := project h; at_ := at_ h; open := open h; ping := ping h; limiter := limiter h; got := got h ++ [i] |}.

(** ** Connections *)

(** src/internal/api/ws/deploy.go:113-133 DeployHub.upgrader.CheckOrigin *)
Definition CheckOrigin (allowed origin : string) : bool :=
  negb (bool_decide (origin = "")) &&
  existsb (λ a, let a := TrimSpace a in negb (bool_decide (a = "*")) && bool_decide (a = origin)) (Split allowed "," ).

(** The start of a handler; [None] is the answer 503.
    src/internal/api/ws/deploy.go:143-151 DeployHub.enter *)
Definition enter (s : DeployHub) (p : string) : option DeployHub :=
  if closed s then None
  else Some (with_handlers s (wg s + 1) (handlers s ++
    [{| project := p; at_ := Entered; open := false; ping := false; limiter := NewWSFrameLimiter WSFrameRatePerSec WSFrameBurst; got := [] |}])).

(** The upgrade fails for an origin that is not allowed, or for the library's own reasons.
    src/internal/api/ws/deploy.go:407-413 DeployHub.ServeWS.upgrade *)
Definition upgrade (s : DeployHub) (c : nat) (origin : string) (ok : bool) : DeployHub :=
  set_handler s c (if CheckOrigin (allowedOrigins s) origin && ok then connected else to Returning).

Definition conns_of (s : DeployHub) (p : string) : gset nat := default ∅ (clients s !! p).

(** A handler whose registration is refused closes its connection and returns.
    src/internal/api/ws/deploy.go:161-179 DeployHub.Register *)
Definition Register_ (s : DeployHub) (c : nat) : DeployHub :=
  match handlers s !! c with
  | None => s
  | Some h =>
      if closed s then set_handler s c (to Closing)
      else set_handler (with_clients s (<[project h := {[c]} ∪ conns_of s (project h)]> (clients s))) c (λ h, with_ping true (to Serving h))
  end.

(** The connections that are left; a project without any is dropped. *)
Definition put_conns (s : DeployHub) (p : string) (l : gset nat) : DeployHub :=
  with_clients s (if decide (l = ∅) then delete p (clients s) else <[p := l]> (clients s)).

(** src/internal/api/ws/deploy.go:184-200 DeployHub.Unregister *)
Definition Unregister (s : DeployHub) (p : string) (c : nat) : DeployHub :=
  match clients s !! p with
  | None => s
  | Some l => if decide (c ∈ l) then put_conns s p (l ∖ {[c]}) else s
  end.

(** A frame of the client; too many end the loop.
    src/internal/api/ws/deploy.go:491-509 DeployHub.ServeWS.read *)
Definition read_frame (s : DeployHub) (c : nat) (now : instant) : DeployHub :=
  match handlers s !! c with
  | None => s
  | Some h => let '(l, ok) := Allow (limiter h) now in
              set_handler s c (λ h, let h := with_limiter l h in if ok then h else to Stopping h)
  end.

(** src/internal/api/ws/deploy.go:492-495 DeployHub.ServeWS.read_error *)
Definition read_error (s : DeployHub) (c : nat) : DeployHub := set_handler s c (to Stopping).

(** The end of the ping loop, when it is told or a write fails.
    src/internal/api/ws/deploy.go:459-478 DeployHub.ServeWS.ping *)
Definition ping_exit (s : DeployHub) (c : nat) : DeployHub := set_handler s c (with_ping false).

(** The deferred calls, last one first: waiting for the ping loop, [Unregister], [Close], [leave].
    src/internal/api/ws/deploy.go:430-457 DeployHub.ServeWS.defers *)
Definition unwind (s : DeployHub) (c : nat) : DeployHub :=
  match handlers s !! c with
  | None => s
  | Some h =>
      match at_ h with
      | Stopping => set_handler s c (to Leaving)
      | Leaving => set_handler (Unregister s (project h) c) c (to Closing)
      | Closing => set_handler s c (λ h, to Returning (hang_up h))
      | Returning => with_handlers s (wg s - 1) (alter (to Over) c (handlers s))
      | _ => s
      end
  end.

(** ** Broadcasts *)

(** The order of a Go map is any; [order] is the one the loop saw.  A closed hub has no clients.
    src/internal/api/ws/deploy.go:286-302 DeployHub.snapshotClients *)
Definition begin_cast (s : DeployHub) (p : string) (m : message) (order : list nat) : DeployHub :=
  with_casts s (casts s ++ [{| bProject := p; body := m; snapshot := order; bStage := Sending order [] |}]).

(** One write; it fails on a closed socket, and may fail on any.
    src/internal/api/ws/deploy.go:229-236 DeployHub.BroadcastProgress.write *)
Definition write (s : DeployHub) (i : nat) (ok : bool) : DeployHub :=
  match casts s !! i with
  | Some b =>
      match bStage b with
      | Sending (c :: rest) failed =>
          if ok && match handlers s !! c with Some h => open h | None => false end
          then set_handler (set_stage s i (Sending rest failed)) c (receive i)
          else set_stage s i (Sending rest (failed ++ [c]))
      | _ => s
      end
  | None => s
  end.

(** src/internal/api/ws/deploy.go:309-337 DeployHub.evictDead *)
Definition evictDead (s : DeployHub) (p : string) (dead : list nat) : DeployHub :=
  match clients s !! p with
  | None => s
  | Some l => put_conns s p (l ∖ list_to_set dead)
  end.

(** After the last write, the eviction of what failed.
    src/internal/api/ws/deploy.go:238-240 DeployHub.BroadcastProgress.evict *)
Definition end_cast (s : DeployHub) (i : nat) : DeployHub :=
  match casts s !! i with
  | Some b =>
      match bStage b with
      | Sending [] failed => set_stage (if decide (failed = []) then s else evictDead s (bProject b) failed) i (HangingUp failed)
      | _ => s
      end
  | None => s
  end.

(** src/internal/api/ws/deploy.go:330-332 DeployHub.evictDead.close *)
Definition hang_up_one (s : DeployHub) (i : nat) : DeployHub :=
  match casts s !! i with
  | Some b =>
      match bStage b with
      | HangingUp (c :: l) => set_handler (set_stage s i (HangingUp l)) c hang_up
      | _ => s
      end
  | None => s
  end.

(** ** Shutdown *)

(** The first call; every later one finds the hub closed and waits.
    src/internal/api/ws/deploy.go:348-354 DeployHub.Shutdown.close *)
Definition Shutdown (s : DeployHub) : DeployHub :=
  if closed s then s
  else {| clients := ∅; closed := true; wg := wg s; handlers := handlers s; casts := casts s;
          evicting := (map_to_list (clients s)).*2 ≫= elements; allowedOrigins := allowedOrigins s |}.

(** src/internal/api/ws/deploy.go:356-364 DeployHub.Shutdown.evict *)
Definition evict_one (s : DeployHub) : DeployHub :=
  match evicting s with
  | c :: l => set_handler (with_evicting s l) c hang_up
  | [] => s
  end.

(** When [Shutdown] returns without an error.
    src/internal/api/ws/deploy.go:366-380 DeployHub.Shutdown.wait *)
Definition drained (s : DeployHub) : bool := closed s && bool_decide (evicting s = []) && (wg s =? 0).

(** ** Progress of a deployment *)

Definition progress (p stage text : string) (n now : Z) : message :=
  MProgress {| pProject := p; Stage := stage; pMessage := text; Progress := n; pTime := now |}.

(** The messages of a deployment that succeeds and of one that fails.
    src/internal/api/ws/deploy.go:556-559 BroadcastSuccess *)
Definition BroadcastSuccess (p duration : string) (containers networks volumes : list string) (now : Z) : list message :=
  [progress p "success" "Deployment completed successfully" 100 now;
   MComplete {| cProject := p; Success := true; cMessage := "Deployment completed successfully"; Duration := duration;
                Containers := containers; Networks := networks; Volumes := volumes; Errors := []; cTime := now |}].

(** src/internal/api/ws/deploy.go:562-564 BroadcastError *)
Definition BroadcastError (p text : string) (errors : list string) (now : Z) : list message :=
  [MComplete {| cProject := p; Success := false; cMessage := text; Duration := ""; Containers := []; Networks := []; Volumes := [];
                Errors := errors; cTime := now |}].

(** ** Steps *)

(** What the server does by itself: nothing here waits for a client. *)
Inductive inner : DeployHub → DeployHub → Prop :=
| in_upgrade s c h origin ok : handlers s !! c = Some h → at_ h = Entered → inner s (upgrade s c origin ok)
| in_register s c h : handlers s !! c = Some h → at_ h = Upgraded → inner s (Register_ s c)
| in_closed_read s c h : handlers s !! c = Some h → at_ h = Serving → open h = false → inner s (read_error s c)
| in_ping s c h : handlers s !! c = Some h → at_ h = Stopping → ping h = true → inner s (ping_exit s c)
| in_unwind s c h :
    handlers s !! c = Some h → at_ h ∈ [Stopping; Leaving; Closing; Returning] → (at_ h = Stopping → ping h = false) →
    inner s (unwind s c)
| in_write s i ok : inner s (write s i ok)
| in_end s i : inner s (end_cast s i)
| in_hang_up s i : inner s (hang_up_one s i)
| in_evict s : inner s (evict_one s).

(** Everything: clients come, send and go, pings fail, broadcasts begin and the hub is shut down. *)
Inductive step : DeployHub → DeployHub → Prop :=
| step_inner s s' : inner s s' → step s s'
| step_enter s p s' : enter s p = Some s' → step s s'
| step_read s c h now : handlers s !! c = Some h → at_ h = Serving → open h = true → step s (read_frame s c now)
| step_lost s c h : handlers s !! c = Some h → at_ h = Serving → step s (read_error s c)
| step_ping_lost s c h : handlers s !! c = Some h → at_ h = Serving → step s (ping_exit s c)
| step_cast s p m order :
    closed s = false → conns_of s p ≠ ∅ → order ≡ₚ elements (conns_of s p) → step s (begin_cast s p m order)
| step_shutdown s : step s (Shutdown s).

Inductive reachable (origins : string) : DeployHub → Prop :=
| reach_init : reachable origins (NewDeployHub origins)
| reach_step s s' : reachable origins s → step s s' → reachable origins s'.

(** ** Invariants *)

Definition serving (p : phase) : bool := match p with Serving | Stopping | Leaving => true | _ => false end.
Definition past (p : phase) : bool := match p with Entered | Upgraded => false | _ => true end.
Definition unopened (p : phase) : bool := match p with Entered | Returning | Over => true | _ => false end.
Definition in_flight (h : handler) : Z := match at_ h with Over => 0 | _ => 1 end.

Record local_ok (h : handler) : Prop := {
  l_open : unopened (at_ h) = true → open h = false;
  l_ping : ping h = true → at_ h = Serving ∨ at_ h = Stopping }.

(** Someone will still hang up on the connection: the hub, the shutdown or a broadcast. *)
Definition held (s : DeployHub) (p : string) (c : nat) : Prop :=
  c ∈ conns_of s p ∨ c ∈ evicting s ∨ ∃ i b l, casts s !! i = Some b ∧ bStage b = HangingUp l ∧ c ∈ l.

Record hub_ok (s : DeployHub) : Prop := {
  v_wg : wg s = zsum in_flight (handlers s);
  v_clients : ∀ p c, c ∈ conns_of s p → ∃ h, handlers s !! c = Some h ∧ project h = p ∧ serving (at_ h) = true;
  v_closed : closed s = true → clients s = ∅;
  v_local : ∀ c h, handlers s !! c = Some h → local_ok h;
  v_held : ∀ c h, handlers s !! c = Some h → at_ h = Serving → open h = true → held s (project h) c;
  v_evict : evicting s ≠ [] → closed s = true;
  v_nonempty : ∀ p l, clients s !! p = Some l → l ≠ ∅ }.

Lemma alter_insert {A} (f : A → A) (l : list A) i x : l !! i = Some x → alter f i l = <[i := f x]> l.
Proof.
  intros H. apply list_eq. intros j. destruct (decide (i = j)) as [<-|Hij].
  - rewrite list_lookup_alter_eq, H. symmetry. apply list_lookup_insert_eq. by eapply lookup_lt_Some.
  - by rewrite list_lookup_alter_ne, list_lookup_insert_ne by done.
Qed.

Lemma lookup_alter_inv {A} (f : A → A) (l : list A) i j y :
  alter f i l !! j = Some y → ∃ x, l !! j = Some x ∧ y = (if decide (i = j) then f x else x).
Proof.
  destruct (decide (i = j)) as [<-|Hij].
  - rewrite list_lookup_alter_eq. destruct (l !! i) as [x|]; [|done]. intros [= <-]. by exists x.
  - rewrite list_lookup_alter_ne by done. intros H. by exists y.
Qed.

(** A change of one handler. *)
Lemma ok_handler s c h f n :
  hub_ok s → handlers s !! c = Some h → project (f h) = project h → local_ok (f h) →
  (c ∈ conns_of s (project h) → serving (at_ (f h)) = true) →
  (at_ (f h) = Serving → open (f h) = true → at_ h = Serving ∧ open h = true) →
  n = wg s - in_flight h + in_flight (f h) →
  hub_ok (with_handlers s n (alter f c (handlers s))).
Proof.
  intros Hok Hh Hp Hl Hs Hheld ->. destruct Hok as [Hwg Hcl Hcd Hlo Hhe Hev Hne]. split; try done; cbn [wg handlers with_handlers].
  - rewrite (alter_insert f (handlers s) c h Hh), (zsum_insert in_flight _ c h _ Hh), Hwg. done.
  - intros p c' Hc'. destruct (Hcl p c' Hc') as (h' & Hh' & Hp' & Hs'). destruct (decide (c = c')) as [<-|Hne'].
    + rewrite Hh in Hh'. injection Hh' as <-. exists (f h). rewrite list_lookup_alter_eq, Hh. subst p. by split_and!; [|rewrite Hp|apply Hs].
    + exists h'. by rewrite list_lookup_alter_ne.
  - intros c' h' (x & Hx & ->)%lookup_alter_inv. case_decide; [|by eapply Hlo]. subst c'. rewrite Hh in Hx. by injection Hx as <-.
  - intros c' h' (x & Hx & ->)%lookup_alter_inv. case_decide; [|by eapply Hhe]. subst c'. rewrite Hh in Hx. injection Hx as <-.
    intros Ha Ho. destruct (Hheld Ha Ho) as [Ha' Ho']. rewrite Hp. by apply (Hhe c h).
Qed.

Lemma ok_set s c h f :
  hub_ok s → handlers s !! c = Some h → project (f h) = project h → local_ok (f h) →
  (c ∈ conns_of s (project h) → serving (at_ (f h)) = true) →
  (at_ (f h) = Serving → open (f h) = true → at_ h = Serving ∧ open h = true) →
  in_flight (f h) = in_flight h → hub_ok (set_handler s c f).
Proof. intros. eapply ok_handler; try done. lia. Qed.

Lemma registered_serving s c h : hub_ok s → handlers s !! c = Some h → c ∈ conns_of s (project h) → serving (at_ h) = true.
Proof. intros Hok Hh Hc. destruct (v_clients s Hok _ _ Hc) as (h' & Hh' & _ & Hs). congruence. Qed.

(** Hanging up on any connection. *)
Lemma ok_hang_up s c : hub_ok s → hub_ok (set_handler s c hang_up).
Proof.
  intros Hok. destruct (handlers s !! c) as [h|] eqn:Hh.
  - eapply ok_set; try done; [|intros Hc; exact (registered_serving s c h Hok Hh Hc)]. destruct (v_local s Hok c h Hh) as [Ho Hp]. by split.
  - unfold set_handler. replace (alter hang_up c (handlers s)) with (handlers s); [by destruct s|].
    apply list_eq. intros j. destruct (decide (c = j)) as [<-|]; [by rewrite list_lookup_alter_eq, Hh|by rewrite list_lookup_alter_ne].
Qed.

(** A change of the table alone: connections may go when something else holds them. *)
Lemma ok_table s (m : gmap string (gset nat)) :
  hub_ok s → (∀ p c, c ∈ default ∅ (m !! p) → c ∈ conns_of s p) → (closed s = true → m = ∅) → (∀ p l, m !! p = Some l → l ≠ ∅) →
  (∀ p c, c ∈ conns_of s p → c ∉ default ∅ (m !! p) → held (with_clients s ∅) p c ∨ ∀ h, handlers s !! c = Some h → at_ h ≠ Serving) →
  hub_ok (with_clients s m).
Proof.
  intros [Hwg Hcl Hcd Hlo Hhe Hev Hne] Hsub Hc Hn Hlost. split; try done; cbn [handlers with_clients].
  - intros p c Hpc. by apply Hcl, Hsub.
  - intros c h Hh Ha Ho. destruct (Hhe c h Hh Ha Ho) as [Hreg|Helse]; [|by right].
    destruct (decide (c ∈ default ∅ (m !! project h))) as [Hin|Hout]; [by left|].
    destruct (Hlost _ _ Hreg Hout) as [[Hbad|Hh']|Hno]; [|by right|by destruct (Hno h Hh)].
    unfold conns_of in Hbad. cbn [clients with_clients] in Hbad. by rewrite lookup_empty in Hbad.
Qed.

(** A change of a broadcast's stage: who it was to hang up on is kept or closed. *)
Lemma ok_stage s i st :
  hub_ok s →
  (∀ b l c, casts s !! i = Some b → bStage b = HangingUp l → c ∈ l →
     (∃ l', st = HangingUp l' ∧ c ∈ l') ∨ ∀ h, handlers s !! c = Some h → open h = false) →
  hub_ok (set_stage s i st).
Proof.
  intros [Hwg Hcl Hcd Hlo Hhe Hev Hne] Hst. split; try done. intros c h Hh Ha Ho.
  destruct (Hhe c h Hh Ha Ho) as [?|[?|(j & b & l & Hb & Hl & Hc)]]; [by left|by right; left|].
  destruct (decide (i = j)) as [<-|Hij].
  - destruct (Hst b l c Hb Hl Hc) as [(l' & -> & Hc')|Hno]; [|specialize (Hno h Hh); congruence].
    right. right. exists i, {| bProject := bProject b; body := body b; snapshot := snapshot b; bStage := HangingUp l' |}, l'.
    split_and!; [|done|done]. cbn [casts set_stage with_casts]. by rewrite list_lookup_alter_eq, Hb.
  - right. right. exists j, b, l. split_and!; [|done|done]. cbn [casts set_stage with_casts]. by rewrite list_lookup_alter_ne.
Qed.

Lemma closed_after_hang_up s c h : handlers (set_handler s c hang_up) !! c = Some h → open h = false.
Proof. intros (x & Hx & ->)%lookup_alter_inv. by rewrite decide_True. Qed.

Lemma put_conns_sub s p l q c : (∀ c, c ∈ l → c ∈ conns_of s p) → c ∈ conns_of (put_conns s p l) q → c ∈ conns_of s q ∧ (q = p → c ∈ l).
Proof.
  intros Hl. unfold put_conns, conns_of. cbn [clients with_clients]. destruct (decide (l = ∅)) as [->|Hne]; destruct (decide (p = q)) as [<-|Hpq].
  - rewrite lookup_delete_eq. set_solver.
  - rewrite lookup_delete_ne by done. intros H. split; [done|by intros ->].
  - rewrite lookup_insert_eq. cbn. intros H. split; [by apply Hl|done].
  - rewrite lookup_insert_ne by done. intros H. split; [done|by intros ->].
Qed.

Lemma put_conns_lost s p l q c : c ∈ conns_of s q → c ∉ conns_of (put_conns s p l) q → q = p ∧ c ∉ l.
Proof.
  unfold put_conns, conns_of. cbn [clients with_clients]. destruct (decide (l = ∅)) as [->|Hne]; destruct (decide (p = q)) as [<-|Hpq].
  - set_solver.
  - by rewrite lookup_delete_ne.
  - rewrite lookup_insert_eq. done.
  - by rewrite lookup_insert_ne.
Qed.

(** Taking connections of a project out of the table. *)
Lemma ok_put s p l :
  hub_ok s → (∀ c, c ∈ l → c ∈ conns_of s p) →
  (∀ c, c ∈ conns_of s p → c ∉ l → held (with_clients s ∅) p c ∨ ∀ h, handlers s !! c = Some h → at_ h ≠ Serving) →
  hub_ok (put_conns s p l).
Proof.
  intros Hok Hl Hlost. apply ok_table; [done| | | |].
  - intros q c Hc. by apply (put_conns_sub s p l q c).
  - intros Hc. pose proof (v_closed s Hok Hc) as E. rewrite E, delete_empty. rewrite decide_True; [done|].
    apply elem_of_equiv_empty_L. intros c Hc'. apply Hl in Hc'. unfold conns_of in Hc'. by rewrite E in Hc'.
  - intros q l' Hq. destruct (decide (l = ∅)) as [->|Hne].
    + apply lookup_delete_Some in Hq as [_ Hq]. by eapply v_nonempty.
    + apply lookup_insert_Some in Hq as [[_ <-]|[_ Hq]]; [done|by eapply v_nonempty].
  - intros q c Hc Hn. destruct (put_conns_lost s p l q c Hc Hn) as [-> Hcl]. by apply Hlost.
Qed.

Lemma Unregister_ok s c h :
  hub_ok s → handlers s !! c = Some h → at_ h = Leaving → hub_ok (Unregister s (project h) c) ∧ c ∉ conns_of (Unregister s (project h) c) (project h).
Proof.
  intros Hok Hh Ha. unfold Unregister. destruct (clients s !! project h) as [l|] eqn:El; [|split; [done|unfold conns_of; by rewrite El]].
  assert (conns_of s (project h) = l) as Ec by (unfold conns_of; by rewrite El). destruct (decide (c ∈ l)) as [Hin|Hout]; [|by rewrite Ec].
  split.
  - apply ok_put; [done|rewrite Ec; set_solver|]. rewrite Ec. intros c' H1 H2. right. destruct (decide (c' = c)) as [->|]; [|set_solver]. intros h' Hh'.
    rewrite Hh in Hh'. injection Hh' as <-. by rewrite Ha.
  - intros Hc. apply put_conns_sub in Hc as [_ Hc]; [set_solver|rewrite Ec; set_solver].
Qed.

Lemma evictDead_ok s p dead i b :
  hub_ok s → casts s !! i = Some b → bStage b = HangingUp dead → hub_ok (evictDead s p dead).
Proof.
  intros Hok Hb Hs. unfold evictDead. destruct (clients s !! p) as [l|] eqn:El; [|done].
  assert (conns_of s p = l) as Ec by (unfold conns_of; by rewrite El).
  apply ok_put; [done|rewrite Ec; set_solver|]. rewrite Ec. intros c H1 H2. left. right. right. exists i, b, dead. split_and!; [done|done|].
  destruct (decide (c ∈ dead)); set_solver.
Qed.

Lemma hang_up_one_ok s i : hub_ok s → hub_ok (hang_up_one s i).
Proof.
  intros Hok. unfold hang_up_one. destruct (casts s !! i) as [b|] eqn:Hb; [|done]. destruct (bStage b) as [|[|c l]] eqn:Es; [done..|].
  change (hub_ok (set_stage (set_handler s c hang_up) i (HangingUp l))). apply ok_stage; [by apply ok_hang_up|].
  intros b' l' c' Hb' Hl' Hc'. change (casts (set_handler s c hang_up)) with (casts s) in Hb'. assert (l' = c :: l) as -> by congruence.
  apply elem_of_cons in Hc' as [->|Hc']; [right; intros h; apply closed_after_hang_up|left; by exists l].
Qed.

Lemma evict_one_ok s : hub_ok s → hub_ok (evict_one s).
Proof.
  intros Hok. unfold evict_one. destruct (evicting s) as [|c l] eqn:Es; [done|].
  change (hub_ok (with_evicting (set_handler s c hang_up) l)). pose proof (ok_hang_up s c Hok) as [Hwg Hcl Hcd Hlo Hhe Hev Hne].
  split; try done.
  - intros c' h Hh Ha Ho. destruct (Hhe c' h Hh Ha Ho) as [?|[Hc'|?]]; [by left| |by right; right].
    change (evicting (set_handler s c hang_up)) with (evicting s) in Hc'. rewrite Es in Hc'.
    apply elem_of_cons in Hc' as [->|Hc']; [|by right; left]. pose proof (closed_after_hang_up s c h Hh). congruence.
  - intros _. apply Hev. cbn [evicting set_handler with_handlers]. by rewrite Es.
Qed.

Lemma write_ok s i ok : hub_ok s → hub_ok (write s i ok).
Proof.
  intros Hok. unfold write. destruct (casts s !! i) as [b|] eqn:Hb; [|done]. destruct (bStage b) as [[|c r] f|] eqn:Es; [done| |done].
  assert (∀ st, hub_ok (set_stage s i st)) as Hst.
  { intros st. apply ok_stage; [done|]. intros b' l c' Hb' Hl. congruence. }
  destruct (handlers s !! c) as [h|] eqn:Hh; [|rewrite andb_false_r; apply Hst]. destruct (ok && open h); [|apply Hst].
  refine (ok_set _ c h (receive i) (Hst _) Hh eq_refl _ (registered_serving s c h Hok Hh) _ eq_refl); [|done].
  destruct (v_local s Hok c h Hh) as [Ho Hp]. by split.
Qed.

Lemma end_cast_ok s i : hub_ok s → hub_ok (end_cast s i).
Proof.
  intros Hok. unfold end_cast. destruct (casts s !! i) as [b|] eqn:Hb; [|done]. destruct (bStage b) as [[|c r] f|] eqn:Es; [|done..].
  assert (hub_ok (set_stage s i (HangingUp f))) as Hst.
  { apply ok_stage; [done|]. intros b' l c' Hb' Hl. congruence. }
  case_decide; [done|].
  assert (set_stage (evictDead s (bProject b) f) i (HangingUp f) = evictDead (set_stage s i (HangingUp f)) (bProject b) f) as ->.
  { unfold evictDead. change (clients (set_stage s i (HangingUp f))) with (clients s). by destruct (clients s !! bProject b). }
  eapply evictDead_ok; [done| |]; [cbn [casts set_stage with_casts]; rewrite list_lookup_alter_eq, Hb; reflexivity|done].
Qed.

Lemma Register_ok s c h : hub_ok s → handlers s !! c = Some h → at_ h = Upgraded → hub_ok (Register_ s c).
Proof.
  intros Hok Hh Ha. unfold Register_. rewrite Hh. destruct (v_local s Hok c h Hh) as [Ho Hp].
  assert (ping h = false) as Hnp by (destruct (ping h); [destruct (Hp eq_refl); congruence|done]).
  assert (c ∉ conns_of s (project h)) as Hnew.
  { intros Hc. pose proof (registered_serving s c h Hok Hh Hc) as Hs. by rewrite Ha in Hs. }
  destruct (closed s) eqn:Hcd.
  - eapply ok_set; try done; [|by unfold in_flight; rewrite Ha]. split; [done|]. cbn. congruence.
  - destruct Hok as [Hwg Hcl _ Hlo Hhe Hev Hne].
    assert (∀ p c', c' ∈ conns_of (with_clients s (<[project h := {[c]} ∪ conns_of s (project h)]> (clients s))) p ↔
      c' ∈ conns_of s p ∨ c' = c ∧ p = project h) as Hmem.
    { intros p c'. unfold conns_of. cbn [clients with_clients]. destruct (decide (p = project h)) as [->|Hpn].
      - rewrite lookup_insert_eq. cbn. set_solver.
      - rewrite lookup_insert_ne by done. naive_solver. }
    split; cbn [wg handlers closed set_handler with_handlers with_clients evicting].
    + rewrite (alter_insert _ (handlers s) c h Hh), (zsum_insert in_flight _ c h _ Hh), Hwg.
      assert (in_flight h = 1) as -> by (unfold in_flight; by rewrite Ha). cbn. lia.
    + intros p c' Hc'. apply Hmem in Hc'. destruct (decide (c = c')) as [<-|Hcn].
      * rewrite list_lookup_alter_eq, Hh. eexists. split; [done|]. split; [|done]. destruct Hc' as [Hc'|[_ ->]]; [|done].
        destruct (Hcl p c Hc') as (h' & Hh' & Hp' & _). cbn. congruence.
      * rewrite list_lookup_alter_ne by done. destruct Hc' as [Hc'|[-> _]]; [by apply Hcl|done].
    + rewrite Hcd. done.
    + intros c' h' (x & Hx & ->)%lookup_alter_inv. case_decide; [|by eapply Hlo]. split; [done|]. by left.
    + intros c' h' (x & Hx & ->)%lookup_alter_inv Ha' Ho'. case_decide as Ec.
      * subst c'. rewrite Hh in Hx. injection Hx as <-. left. exact (proj2 (Hmem _ _) (or_intror (conj eq_refl eq_refl))).
      * destruct (Hhe c' x Hx Ha' Ho') as [Hc'|?]; [left; exact (proj2 (Hmem _ _) (or_introl Hc'))|by right].
    + done.
    + intros p l Hl. cbn [clients set_handler with_handlers with_clients] in Hl. apply lookup_insert_Some in Hl as [[_ <-]|[_ Hl]]; [set_solver|by eapply Hne].
Qed.

Lemma unwind_ok s c h :
  hub_ok s → handlers s !! c = Some h → (at_ h = Stopping → ping h = false) → hub_ok (unwind s c).
Proof.
  intros Hok Hh Hping. unfold unwind. rewrite Hh. pose proof (v_local s Hok c h Hh) as [Ho Hp].
  assert (at_ h ≠ Serving → at_ h ≠ Stopping → ping h = false) as Hnp by (destruct (ping h); [destruct (Hp eq_refl); congruence|done]).
  assert (c ∈ conns_of s (project h) → serving (at_ h) = true) as Hreg by (apply (registered_serving s c h Hok Hh)).
  destruct (at_ h) eqn:Ha; try done.
  - eapply ok_set; try done; [|by unfold in_flight; rewrite Ha]. split; [done|]. cbn. by rewrite Hping.
  - destruct (Unregister_ok s c h Hok Hh Ha) as [Hu Hout]. eapply ok_set; try done.
    + unfold Unregister. destruct (clients s !! project h); [case_decide|]; exact Hh.
    + split; [done|]. cbn. by rewrite Hnp.
    + by unfold in_flight; rewrite Ha.
  - eapply ok_set; try done; [|by unfold in_flight; rewrite Ha]. split; [done|]. cbn. by rewrite Hnp.
  - eapply ok_handler; try done; [|unfold in_flight; rewrite Ha; cbn; lia]. split; [intros _; by apply Ho|]. cbn. by rewrite Hnp.
Qed.

Lemma upgrade_ok s c h origin ok : hub_ok s → handlers s !! c = Some h → at_ h = Entered → hub_ok (upgrade s c origin ok).
Proof.
  intros Hok Hh Ha. pose proof (registered_serving s c h Hok Hh) as Hreg. rewrite Ha in Hreg.
  destruct (v_local s Hok c h Hh) as [Ho Hp]. rewrite Ha in Ho, Hp.
  assert (ping h = false) as Hnp by (destruct (ping h); [by destruct (Hp eq_refl)|done]).
  unfold upgrade. destruct (_ && _); (eapply ok_set; [done|done|done| |exact Hreg|done|unfold in_flight; by rewrite Ha]).
  - split; [done|]. cbn. congruence.
  - split; [intros _; by apply Ho|]. cbn. congruence.
Qed.

Lemma read_error_ok s c h : hub_ok s → handlers s !! c = Some h → at_ h = Serving → hub_ok (read_error s c).
Proof. intros Hok Hh Ha. eapply ok_set; try done; [split; [done|by right]|by unfold in_flight; rewrite Ha]. Qed.

Lemma ping_exit_ok s c h : hub_ok s → handlers s !! c = Some h → hub_ok (ping_exit s c).
Proof.
  intros Hok Hh. destruct (v_local s Hok c h Hh) as [Ho Hp].
  refine (ok_set _ c h (with_ping false) Hok Hh eq_refl _ (registered_serving s c h Hok Hh) _ eq_refl); [|done]. by split.
Qed.

Lemma read_frame_ok s c h now : hub_ok s → handlers s !! c = Some h → at_ h = Serving → hub_ok (read_frame s c now).
Proof.
  intros Hok Hh Ha. unfold read_frame. rewrite Hh. destruct (Allow (limiter h) now) as [l ok].
  destruct (v_local s Hok c h Hh) as [Ho Hp]. destruct ok.
  - refine (ok_set _ c h (with_limiter l) Hok Hh eq_refl _ (registered_serving s c h Hok Hh) _ eq_refl); [|done]. by split.
  - refine (ok_set _ c h (λ h, to Stopping (with_limiter l h)) Hok Hh eq_refl _ (λ _, eq_refl) _ _); [|done|by unfold in_flight; rewrite Ha].
    split; [done|by right].
Qed.

Lemma hub_enter_ok s p s' : hub_ok s → enter s p = Some s' → hub_ok s'.
Proof.
  intros Hok. unfold enter. destruct (closed s) eqn:Hcd; [done|]. intros [= <-]. destruct Hok as [Hwg Hcl _ Hlo Hhe Hev Hne].
  set (h0 := {| project := p |}). assert (∀ c h, (handlers s ++ [h0]) !! c = Some h → handlers s !! c = Some h ∨ h = h0) as Hlk.
  { intros c h [Hc|[_ Hc]]%lookup_app_Some; [by left|]. right. apply list_lookup_singleton_Some in Hc as [_ Hc]. done. }
  split; try done; cbn [wg handlers with_handlers].
  - rewrite zsum_app, Hwg. cbn. lia.
  - intros q c Hc. destruct (Hcl q c Hc) as (h & Hh & Hrest). exists h. split; [by apply lookup_app_l_Some|done].
  - intros Hc. change (closed s = true) in Hc. congruence.
  - intros c h [Hh| ->]%Hlk; [by eapply Hlo|by split].
  - intros c h [Hh| ->]%Hlk; [by apply Hhe|done].
Qed.

Lemma begin_cast_ok s p m order : hub_ok s → hub_ok (begin_cast s p m order).
Proof.
  intros [Hwg Hcl Hcd Hlo Hhe Hev Hne]. split; try done. intros c h Hh Ha Ho.
  destruct (Hhe c h Hh Ha Ho) as [?|[?|(i & b & l & Hb & Hrest)]]; [by left|by right; left|]. right. right. exists i, b, l.
  split; [by apply lookup_app_l_Some|done].
Qed.

Lemma Shutdown_ok s : hub_ok s → hub_ok (Shutdown s).
Proof.
  intros Hok. unfold Shutdown. destruct (closed s) eqn:Hcd; [done|]. destruct Hok as [Hwg Hcl _ Hlo Hhe Hev Hne]. split; try done.
  - intros c h Hh Ha Ho. destruct (Hhe c h Hh Ha Ho) as [Hc|[Hc|Hc]]; [right; left| |by right; right].
    + unfold conns_of in Hc. destruct (clients s !! project h) as [l|] eqn:El; [|done]. cbn [evicting]. apply list_elem_of_bind.
      exists l. split; [by apply elem_of_elements|]. apply list_elem_of_fmap. exists (project h, l). by split; [|apply elem_of_map_to_list].
    + assert (closed s = true) by (apply Hev; intros E; rewrite E in Hc; by apply elem_of_nil in Hc). congruence.
Qed.

Lemma hub_inner_ok s s' : hub_ok s → inner s s' → hub_ok s'.
Proof.
  intros Hok Hs. destruct Hs.
  - by eapply upgrade_ok.
  - by eapply Register_ok.
  - by eapply read_error_ok.
  - by eapply ping_exit_ok.
  - by eapply unwind_ok.
  - by apply write_ok.
  - by apply end_cast_ok.
  - by apply hang_up_one_ok.
  - by apply evict_one_ok.
Qed.

Lemma hub_step_ok s s' : hub_ok s → step s s' → hub_ok s'.
Proof.
  intros Hok Hs. destruct Hs.
  - by eapply hub_inner_ok.
  - by eapply hub_enter_ok.
  - by eapply read_frame_ok.
  - by eapply read_error_ok.
  - by eapply ping_exit_ok.
  - by apply begin_cast_ok.
  - by apply Shutdown_ok.
Qed.

Lemma hub_reachable_ok o s : reachable o s → hub_ok s.
Proof.
  induction 1 as [|s s' _ IH Hs]; [|by eapply hub_step_ok].
  by split.
Qed.

(** ** Shutdown *)

Lemma in_flight_nonneg h : 0 ≤ in_flight h.
Proof. unfold in_flight. by destruct (at_ h). Qed.

Lemma drained_over s c h : hub_ok s → drained s = true → handlers s !! c = Some h → at_ h = Over.
Proof.
  intros Hok Hd Hh. unfold drained in Hd. apply andb_true_iff in Hd as [_ Hz%Z.eqb_eq]. rewrite (v_wg s Hok) in Hz.
  assert (in_flight h = 0) as Hf.
  { apply (zsum_zero in_flight (handlers s)); [intros; apply in_flight_nonneg|done|by eapply list_elem_of_lookup_2]. }
  unfold in_flight in Hf. by destruct (at_ h).
Qed.

(** A step that leaves the flag, the counter and the shutdown's list alone. *)
Definition still (s s' : DeployHub) : Prop :=
  closed s' = closed s ∧ wg s' = wg s ∧ evicting s' = evicting s ∧ length (handlers s') = length (handlers s).

Lemma still_set s c f : still s (set_handler s c f).
Proof. split_and!; try done. apply length_alter. Qed.

Lemma still_drained s s' : still s s' → drained s' = drained s.
Proof. intros (E1 & E2 & E3 & _). unfold drained. by rewrite E1, E2, E3. Qed.

Lemma evictDead_still s p l : still s (evictDead s p l).
Proof. unfold evictDead. by destruct (clients s !! p). Qed.

Lemma drained_step s s' : hub_ok s → drained s = true → step s s' → drained s' = true ∧ length (handlers s') = length (handlers s).
Proof.
  intros Hok Hd Hs. enough (still s s') as Hst by (split; [by rewrite (still_drained s)|apply Hst]).
  pose proof (drained_over s) as Hover.
  destruct Hs as [s s' Hin|s p s' He|s c h now Hh Ha|s c h Hh Ha|s c h Hh Ha|s p m order Hc|s].
  - destruct Hin as [s c h o ok Hh Ha|s c h Hh Ha|s c h Hh Ha|s c h Hh Ha|s c h Hh Ha|s i ok|s i|s i|s];
      try (specialize (Hover c h Hok Hd Hh); rewrite Hover in Ha; done).
    + exfalso. rewrite (Hover c h Hok Hd Hh) in Ha. by repeat (apply elem_of_cons in Ha as [Ha|Ha]; [done|]); apply elem_of_nil in Ha.
    + unfold write. destruct (casts s !! i) as [b|]; [|done]. destruct (bStage b) as [[|c r] f|]; [done| |done].
      destruct (_ && _); [|done]. apply (still_set (set_stage s i _)).
    + unfold end_cast. destruct (casts s !! i) as [b|]; [|done]. destruct (bStage b) as [[|c r] f|]; [|done..].
      case_decide; [done|]. exact (evictDead_still s (bProject b) f).
    + unfold hang_up_one. destruct (casts s !! i) as [b|]; [|done]. destruct (bStage b) as [|[|c l]]; [done..|].
      apply (still_set (set_stage s i _)).
    + unfold evict_one. unfold drained in Hd. apply andb_true_iff in Hd as [[_ Hd%bool_decide_eq_true]%andb_true_iff _]. by rewrite Hd.
  - unfold enter in He. unfold drained in Hd. by destruct (closed s).
  - by rewrite (Hover c h Hok Hd Hh) in Ha.
  - by rewrite (Hover c h Hok Hd Hh) in Ha.
  - by rewrite (Hover c h Hok Hd Hh) in Ha.
  - done.
  - unfold Shutdown. unfold drained in Hd. by destruct (closed s).
Qed.

Lemma drained_steps s s' : rtc step s s' → hub_ok s → drained s = true →
  hub_ok s' ∧ drained s' = true ∧ length (handlers s') = length (handlers s).
Proof.
  induction 1 as [|s s1 s' Hs _ IH]; intros Hok Hd; [done|]. destruct (drained_step s s1 Hok Hd Hs) as [Hd1 Hl].
  destruct (IH (hub_step_ok s s1 Hok Hs) Hd1) as (? & ? & Hl'). split_and!; [done|done|by rewrite Hl'].
Qed.

(** Once a shutdown has returned without an error, whatever happens later: no connection is
    registered, every handler has returned with its socket closed and its ping loop over, and no
    handler is ever added. *)
Theorem drained_hub_stays_empty o s s' :
  reachable o s → drained s = true → rtc step s s' →
  clients s' = ∅ ∧ length (handlers s') = length (handlers s) ∧
  ∀ c h, handlers s' !! c = Some h → at_ h = Over ∧ open h = false ∧ ping h = false.
Proof.
  intros Hr Hd Hs. destruct (drained_steps s s' Hs (hub_reachable_ok o s Hr) Hd) as (Hok & Hd' & Hl). split_and!; [|done|].
  - apply (v_closed s' Hok). unfold drained in Hd'. by destruct (closed s').
  - intros c h Hh. pose proof (drained_over s' c h Hok Hd' Hh) as Ha. destruct (v_local s' Hok c h Hh) as [Ho Hp]. rewrite Ha in Ho, Hp.
    split_and!; [done|by apply Ho|]. destruct (ping h); [|done]. by destruct (Hp eq_refl).
Qed.

(** *** Draining *)

Definition hweight (h : handler) : Z :=
  (match at_ h with Entered => 16 | Upgraded => 14 | Serving => 12 | Stopping => 10 | Leaving => 8 | Closing => 6 | Returning => 4 | Over => 0 end) +
  (if ping h then 1 else 0).
Definition cweight (b : broadcast) : Z :=
  match bStage b with Sending r f => 3 * zlen r + 2 * zlen f + 1 | HangingUp l => zlen l end.
Definition weight (s : DeployHub) : Z := zsum hweight (handlers s) + zsum cweight (casts s) + zlen (evicting s).

Lemma hweight_nonneg h : 0 ≤ hweight h.
Proof. unfold hweight. destruct (at_ h), (ping h); lia. Qed.
Lemma cweight_nonneg b : 0 ≤ cweight b.
Proof. unfold cweight. destruct (bStage b); lia. Qed.

Lemma weight_nonneg s : 0 ≤ weight s.
Proof.
  unfold weight. pose proof (zsum_nonneg hweight (handlers s) ltac:(intros; apply hweight_nonneg)).
  pose proof (zsum_nonneg cweight (casts s) ltac:(intros; apply cweight_nonneg)). lia.
Qed.

Lemma hsum_alter s c h f : handlers s !! c = Some h → zsum hweight (alter f c (handlers s)) = zsum hweight (handlers s) - hweight h + hweight (f h).
Proof. intros Hh. by rewrite (alter_insert f _ c h Hh), (zsum_insert hweight _ c h _ Hh). Qed.

Lemma weight_set s c h f : handlers s !! c = Some h → weight (set_handler s c f) = weight s - hweight h + hweight (f h).
Proof. intros Hh. unfold weight. cbn [handlers casts evicting set_handler with_handlers]. rewrite (hsum_alter s c h f Hh). lia. Qed.

Lemma weight_hang_up s c : weight (set_handler s c hang_up) = weight s.
Proof.
  destruct (handlers s !! c) as [h|] eqn:Hh; [rewrite (weight_set s c h hang_up Hh); unfold hweight; cbn; lia|].
  unfold weight, set_handler. cbn [handlers casts evicting with_handlers].
  replace (alter hang_up c (handlers s)) with (handlers s); [done|]. apply list_eq. intros j.
  destruct (decide (c = j)) as [<-|]; [by rewrite list_lookup_alter_eq, Hh|by rewrite list_lookup_alter_ne].
Qed.

Lemma weight_stage s i b st : casts s !! i = Some b →
  weight (set_stage s i st) = weight s - cweight b + cweight {| bProject := bProject b; body := body b; snapshot := snapshot b; bStage := st |}.
Proof.
  intros Hb. unfold weight. cbn [handlers casts evicting set_stage with_casts].
  rewrite (alter_insert _ (casts s) i b Hb), (zsum_insert cweight _ i b _ Hb). lia.
Qed.

(** A broadcast that is not over can go on, and so can the shutdown. *)
Lemma cast_progress s i b :
  casts s !! i = Some b → 0 < cweight b → ∃ s', inner s s' ∧ closed s' = closed s ∧ weight s' < weight s.
Proof.
  intros Hb Hw. destruct (bStage b) as [[|c r] f|[|c l]] eqn:Es.
  - exists (end_cast s i). split; [constructor|]. unfold end_cast. rewrite Hb, Es. set (s1 := if decide (f = []) then s else _).
    assert (closed s1 = closed s ∧ casts s1 !! i = Some b ∧ weight s1 = weight s) as (E1 & E2 & E3).
    { subst s1. case_decide; [done|]. unfold evictDead. by destruct (clients s !! bProject b). }
    split; [done|]. rewrite (weight_stage s1 i b _ E2), E3. unfold cweight. rewrite Es. cbn [bStage]. lia.
  - exists (write s i false). split; [constructor|]. unfold write. rewrite Hb, Es. cbn [andb]. split; [done|].
    rewrite (weight_stage s i b _ Hb). unfold cweight. rewrite Es. cbn [bStage]. rewrite length_app. cbn [length]. lia.
  - unfold cweight in Hw. rewrite Es in Hw. cbn in Hw. lia.
  - exists (hang_up_one s i). split; [constructor|]. unfold hang_up_one. rewrite Hb, Es. split; [done|].
    rewrite weight_hang_up, (weight_stage s i b _ Hb). unfold cweight. rewrite Es. cbn [bStage length]. lia.
Qed.

Lemma evict_progress s : evicting s ≠ [] → ∃ s', inner s s' ∧ closed s' = closed s ∧ weight s' < weight s.
Proof.
  intros He. exists (evict_one s). split; [constructor|]. unfold evict_one. destruct (evicting s) as [|c l] eqn:Es; [done|].
  split; [done|]. rewrite weight_hang_up. unfold weight. rewrite Es. cbn [handlers casts evicting with_evicting length]. lia.
Qed.

(** When nobody else has anything left to do, a handler of a closed hub can go on. *)
Lemma handler_progress s c h :
  hub_ok s → closed s = true → evicting s = [] → (∀ b, b ∈ casts s → cweight b = 0) → handlers s !! c = Some h → at_ h ≠ Over →
  ∃ s', inner s s' ∧ closed s' = closed s ∧ weight s' < weight s.
Proof.
  intros Hok Hcd Hev Hcasts Hh Hover. destruct (at_ h) eqn:Ha; [| | | | | | |done].
  - exists (upgrade s c "" false). split; [by eapply in_upgrade|]. unfold upgrade. rewrite andb_false_r. split; [done|].
    rewrite (weight_set s c h _ Hh). unfold hweight. rewrite Ha. cbn. lia.
  - exists (Register_ s c). split; [by eapply in_register|]. unfold Register_. rewrite Hh, Hcd. split; [done|].
    rewrite (weight_set s c h _ Hh). unfold hweight. rewrite Ha. cbn. lia.
  - assert (open h = false) as Ho.
    { destruct (open h) eqn:Ho; [|done]. exfalso. destruct (v_held s Hok c h Hh Ha Ho) as [Hc|[Hc|(i & b & l & Hb & Hl & Hc)]].
      - unfold conns_of in Hc. by rewrite (v_closed s Hok Hcd) in Hc.
      - rewrite Hev in Hc. by apply elem_of_nil in Hc.
      - assert (cweight b = 0) as Hz by (apply Hcasts; by eapply list_elem_of_lookup_2). unfold cweight in Hz. rewrite Hl in Hz.
        destruct l; [by apply elem_of_nil in Hc|cbn in Hz; lia]. }
    exists (read_error s c). split; [by eapply in_closed_read|]. split; [done|]. unfold read_error.
    rewrite (weight_set s c h _ Hh). unfold hweight. rewrite Ha. cbn. lia.
  - destruct (ping h) eqn:Hp.
    + exists (ping_exit s c). split; [by eapply in_ping|]. split; [done|]. unfold ping_exit.
      rewrite (weight_set s c h _ Hh). unfold hweight. rewrite Ha, Hp. cbn. rewrite Ha. lia.
    + exists (unwind s c). split; [eapply in_unwind; [done|rewrite Ha; set_solver|done]|]. unfold unwind. rewrite Hh, Ha. split; [done|].
      rewrite (weight_set s c h _ Hh). unfold hweight. rewrite Ha. cbn. lia.
  - exists (unwind s c). split; [eapply in_unwind; [done|rewrite Ha; set_solver|by rewrite Ha]|]. unfold unwind. rewrite Hh, Ha.
    assert (closed (Unregister s (project h) c) = closed s ∧ handlers (Unregister s (project h) c) !! c = Some h ∧
            weight (Unregister s (project h) c) = weight s) as (E1 & E2 & E3).
    { unfold Unregister. destruct (clients s !! project h); [case_decide|]; done. }
    split; [done|]. rewrite (weight_set _ c h _ E2), E3. unfold hweight. rewrite Ha. cbn. lia.
  - exists (unwind s c). split; [eapply in_unwind; [done|rewrite Ha; set_solver|by rewrite Ha]|]. unfold unwind. rewrite Hh, Ha. split; [done|].
    rewrite (weight_set s c h _ Hh). unfold hweight. rewrite Ha. cbn. lia.
  - exists (unwind s c). split; [eapply in_unwind; [done|rewrite Ha; set_solver|by rewrite Ha]|]. unfold unwind. rewrite Hh, Ha. split; [done|].
    unfold weight. cbn [handlers casts evicting with_handlers]. rewrite (hsum_alter s c h _ Hh). unfold hweight at 2 3. rewrite Ha. cbn. lia.
Qed.

Lemma drain_progress s :
  hub_ok s → closed s = true → drained s = false → ∃ s', inner s s' ∧ closed s' = closed s ∧ weight s' < weight s.
Proof.
  intros Hok Hcd Hd. destruct (decide (evicting s = [])) as [Hev|Hev]; [|by apply evict_progress].
  destruct (decide (zsum cweight (casts s) = 0)) as [Hz|Hz].
  - assert (0 < zsum in_flight (handlers s)) as (h & Hin & Hpos)%zsum_pos_exists.
    { unfold drained in Hd. rewrite Hcd, bool_decide_eq_true_2 in Hd by done. cbn in Hd. apply Z.eqb_neq in Hd. rewrite (v_wg s Hok) in Hd.
      pose proof (zsum_nonneg in_flight (handlers s) ltac:(intros; apply in_flight_nonneg)). lia. }
    apply list_elem_of_lookup in Hin as [c Hh]. eapply handler_progress; try done.
    + apply zsum_zero; [intros; apply cweight_nonneg|done].
    + unfold in_flight in Hpos. by destruct (at_ h).
  - assert (0 < zsum cweight (casts s)) as (b & Hin & Hpos)%zsum_pos_exists.
    { pose proof (zsum_nonneg cweight (casts s) ltac:(intros; apply cweight_nonneg)). lia. }
    apply list_elem_of_lookup in Hin as [i Hb]. by eapply cast_progress.
Qed.

Lemma drain s : hub_ok s → closed s = true → ∃ s', rtc inner s s' ∧ drained s' = true.
Proof.
  remember (Z.to_nat (weight s)) as n eqn:Hn. revert s Hn. induction (lt_wf n) as [n _ IH]. intros s -> Hok Hcd.
  destruct (drained s) eqn:Hd; [by exists s|]. destruct (drain_progress s Hok Hcd Hd) as (s1 & Hs1 & Hc1 & Hw).
  destruct (IH (Z.to_nat (weight s1))) with (s := s1) as (s' & Hs' & Hd'); [|done|by eapply hub_inner_ok|congruence|].
  - pose proof (weight_nonneg s1). lia.
  - exists s'. split; [by eapply rtc_l|done].
Qed.

(** C37. A shutdown never waits for a client: from every state a closed hub can get into, the steps of
    the server alone, without a frame from a client or the loss of its connection, bring every
    handler to its end, so that the shutdown returns. *)
Theorem closed_hub_drains o s :
  reachable o s → closed s = true → ∃ s', rtc inner s s' ∧ drained s' = true.
Proof. intros Hr. by apply drain, (hub_reachable_ok o). Qed.

(** ** Broadcasts *)

(** What a broadcast knows of a connection of its snapshot: it has still to write to it, it has
    written, or it failed and hangs up. *)
Definition outcome (i : nat) (st : stage) (c : nat) (h : handler) : Prop :=
  match st with
  | Sending r f => c ∈ r ∧ i ∉ got h ∨ i ∈ got h ∧ c ∉ r ∨ c ∈ f ∧ c ∉ r ∧ i ∉ got h
  | HangingUp l => i ∈ got h ∨ (c ∈ l ∨ open h = false) ∧ i ∉ got h
  end.

Record cast_ok (s : DeployHub) (i : nat) (b : broadcast) : Prop := {
  c_nodup : NoDup (snapshot b);
  c_rest : ∀ r f, bStage b = Sending r f → NoDup r ∧ ∀ c, c ∈ r → c ∈ snapshot b;
  c_handler : ∀ c, c ∈ snapshot b → ∃ h, handlers s !! c = Some h ∧ project h = bProject b ∧ past (at_ h) = true ∧ outcome i (bStage b) c h }.

Record casts_ok (s : DeployHub) : Prop := {
  x_casts : ∀ i b, casts s !! i = Some b → cast_ok s i b;
  x_got : ∀ c h, handlers s !! c = Some h → NoDup (got h) ∧ ∀ i, i ∈ got h → ∃ b, casts s !! i = Some b ∧ c ∈ snapshot b }.

(** A change of one handler that writes nothing to it. *)
Lemma casts_handler s c h f n :
  casts_ok s → handlers s !! c = Some h → project (f h) = project h → got (f h) = got h →
  (past (at_ h) = true → past (at_ (f h)) = true) → (past (at_ h) = true → open h = false → open (f h) = false) →
  casts_ok (with_handlers s n (alter f c (handlers s))).
Proof.
  intros [Hc Hg] Hh Hp Hgot Hpast Hopen. split; cbn [casts handlers with_handlers].
  - intros i b Hb. destruct (Hc i b Hb) as [Hn Hr Hs]. split; [done|done|]. intros c' Hc'. destruct (Hs c' Hc') as (h' & Hh' & Hp' & Ha' & Ho').
    cbn [handlers set_handler set_stage with_handlers with_casts]. destruct (decide (c = c')) as [<-|Hcn]; [|exists h'; by rewrite list_lookup_alter_ne].
    rewrite Hh in Hh'. injection Hh' as <-. exists (f h). rewrite list_lookup_alter_eq, Hh. split_and!; [done|congruence|by apply Hpast|].
    unfold outcome in *. rewrite Hgot. destruct (bStage b); [done|]. destruct Ho' as [?|[[?|?] ?]]; [by left|right; by split; [left|]|].
    right. split; [right; by apply Hopen|done].
  - intros c' h' (x & Hx & ->)%lookup_alter_inv. case_decide; [|by apply Hg]. subst c'. rewrite Hh in Hx. injection Hx as <-. rewrite Hgot.
    by apply Hg.
Qed.

Lemma casts_hang_up s c : casts_ok s → casts_ok (set_handler s c hang_up).
Proof.
  intros Hok. destruct (handlers s !! c) as [h|] eqn:Hh; [by eapply casts_handler|].
  unfold set_handler. replace (alter hang_up c (handlers s)) with (handlers s); [by destruct s|].
  apply list_eq. intros j. destruct (decide (c = j)) as [<-|]; [by rewrite list_lookup_alter_eq, Hh|by rewrite list_lookup_alter_ne].
Qed.

(** A new stage, when the outcomes fit. *)
Lemma casts_stage s i b st :
  casts_ok s → casts s !! i = Some b → (∀ r f, st = Sending r f → NoDup r ∧ ∀ c, c ∈ r → c ∈ snapshot b) →
  (∀ c h, c ∈ snapshot b → handlers s !! c = Some h → outcome i (bStage b) c h → outcome i st c h) →
  casts_ok (set_stage s i st).
Proof.
  intros [Hc Hg] Hb Hst Hout. split; cbn [casts handlers set_stage with_casts].
  - intros j b' (x & Hx & ->)%lookup_alter_inv. destruct (Hc j x Hx) as [Hn Hr Hs]. case_decide as Hij; [|by split].
    subst j. rewrite Hb in Hx. injection Hx as <-. split; [done|by apply Hst|]. intros c Hcs. destruct (Hs c Hcs) as (h & Hh & Hp & Ha & Ho).
    exists h. split_and!; try done. by apply Hout.
  - intros c h Hh. destruct (Hg c h Hh) as [Hn Hs]. split; [done|]. intros j Hj. destruct (Hs j Hj) as (b' & Hb' & Hin).
    destruct (decide (i = j)) as [<-|Hij].
    + rewrite Hb in Hb'. injection Hb' as <-. eexists. rewrite list_lookup_alter_eq, Hb. by split.
    + exists b'. by rewrite list_lookup_alter_ne.
Qed.

Lemma outcome_receive i j st c h : i ≠ j → outcome j st c h → outcome j st c (receive i h).
Proof.
  intros Hij. assert (j ∈ got (receive i h) ↔ j ∈ got h) as E by (cbn; rewrite elem_of_app, list_elem_of_singleton; naive_solver).
  unfold outcome. destruct st; rewrite !E; done.
Qed.

Lemma outcome_sent i c r f c' h : c' ≠ c → outcome i (Sending (c :: r) f) c' h → outcome i (Sending r f) c' h.
Proof. intros Hc. cbn. rewrite !elem_of_cons. naive_solver. Qed.

Lemma outcome_failed i c r f c' h :
  c ∉ r → i ∉ got h ∨ c' ≠ c → outcome i (Sending (c :: r) f) c' h → outcome i (Sending r (f ++ [c])) c' h.
Proof.
  intros Hr Hc. cbn. rewrite !elem_of_cons, elem_of_app, list_elem_of_singleton. destruct (decide (c' = c)) as [->|]; naive_solver.
Qed.

Lemma casts_write s i ok : casts_ok s → casts_ok (write s i ok).
Proof.
  intros Hok. unfold write. destruct (casts s !! i) as [b|] eqn:Hb; [|done]. destruct (bStage b) as [[|c r] f|] eqn:Es; [done| |done].
  destruct (x_casts s Hok i b Hb) as [Hn Hr Hs]. destruct (Hr _ _ Es) as [[Hcr Hnr]%NoDup_cons Hsub].
  destruct (Hs c) as (h & Hh & Hp & Ha & Ho); [apply Hsub; left|]. rewrite Es in Ho. cbn in Ho.
  assert (i ∉ got h) as Hnew by (destruct Ho as [[_ ?]|[[_ Hx]|(_ & Hx & _)]]; [done|destruct Hx; left..]).
  assert (∀ r' f', Sending r f = Sending r' f' → NoDup r' ∧ ∀ c, c ∈ r' → c ∈ snapshot b) as Hrest.
  { intros r' f' [= -> ->]. split; [done|]. intros c' Hc'. apply Hsub. by right. }
  rewrite Hh. destruct (ok && open h).
  - split; cbn [casts handlers set_handler set_stage with_handlers with_casts].
    + intros j b' (x & Hx & ->)%lookup_alter_inv. destruct (x_casts s Hok j x Hx) as [Hn' Hr' Hs']. case_decide as Hij.
      * subst j. rewrite Hb in Hx. injection Hx as <-. split; [done| |]; cbn [bStage snapshot].
        { intros r' f' [= -> ->]. by apply (Hrest _ f'). }
        intros c' Hc'. destruct (Hs' c' Hc') as (h' & Hh' & Hp' & Ha' & Ho'). cbn [handlers set_handler set_stage with_handlers with_casts]. rewrite Es in Ho'.
        destruct (decide (c = c')) as [<-|Hcn].
        { rewrite Hh in Hh'. injection Hh' as <-. exists (receive i h). rewrite list_lookup_alter_eq, Hh. split_and!; try done.
          cbn. right. left. split; [apply elem_of_app; right; apply list_elem_of_here|done]. }
        exists h'. rewrite list_lookup_alter_ne by done. split_and!; try done. by eapply outcome_sent.
      * split; [done|done|]. intros c' Hc'. destruct (Hs' c' Hc') as (h' & Hh' & Hp' & Ha' & Ho'). cbn [handlers set_handler set_stage with_handlers with_casts].
        destruct (decide (c = c')) as [<-|Hcn]; [|exists h'; by rewrite list_lookup_alter_ne].
        rewrite Hh in Hh'. injection Hh' as <-. exists (receive i h). rewrite list_lookup_alter_eq, Hh. split_and!; try done.
        by apply outcome_receive.
    + intros c' h' (x & Hx & ->)%lookup_alter_inv. destruct (x_got s Hok c' x Hx) as [Hnx Hgx].
      assert (∀ j, j ∈ got x → ∃ b', alter (λ b, {| bProject := bProject b; body := body b; snapshot := snapshot b; bStage := Sending r f |}) i (casts s)
        !! j = Some b' ∧ c' ∈ snapshot b') as Hkeep.
      { intros j Hj. destruct (Hgx j Hj) as (b' & Hb' & Hin). destruct (decide (i = j)) as [<-|]; [|exists b'; by rewrite list_lookup_alter_ne].
        rewrite Hb in Hb'. injection Hb' as <-. eexists. rewrite list_lookup_alter_eq, Hb. by split. }
      case_decide as Hcc; [|done]. subst c'. rewrite Hh in Hx. injection Hx as <-. cbn [got receive]. split.
      * apply NoDup_app. split_and!; [done| |apply NoDup_singleton]. intros j Hj ->%list_elem_of_singleton. done.
      * intros j Hj. apply elem_of_app in Hj as [Hj| ->%list_elem_of_singleton]; [by apply Hkeep|]. eexists. rewrite list_lookup_alter_eq, Hb.
        split; [done|]. cbn. apply Hsub. left.
  - eapply casts_stage; try done.
    + intros r' f' [= <- <-]. by apply (Hrest r f).
    + intros c' h' Hc' Hh'. rewrite Es. apply outcome_failed; [done|].
      destruct (decide (c' = c)) as [->|]; [left; congruence|by right].
Qed.

Lemma casts_table s m : casts_ok s → casts_ok (with_clients s m).
Proof. intros [Hc Hg]. split; [|done]. intros i b Hb. by destruct (Hc i b Hb). Qed.

Lemma casts_end s i : casts_ok s → casts_ok (end_cast s i).
Proof.
  intros Hok. unfold end_cast. destruct (casts s !! i) as [b|] eqn:Hb; [|done]. destruct (bStage b) as [[|c r] f|] eqn:Es; [|done..].
  set (s1 := if decide (f = []) then s else _). assert (casts_ok s1 ∧ casts s1 !! i = Some b) as [H1 H2].
  { subst s1. case_decide; [done|]. unfold evictDead. destruct (clients s !! bProject b); [|done]. by split; [apply casts_table|]. }
  eapply casts_stage; [done|done|done|]. intros c h _ _. rewrite Es. cbn. rewrite elem_of_nil. naive_solver.
Qed.

Lemma casts_hang_up_one s i : casts_ok s → casts_ok (hang_up_one s i).
Proof.
  intros Hok. unfold hang_up_one. destruct (casts s !! i) as [b|] eqn:Hb; [|done]. destruct (bStage b) as [|[|c l]] eqn:Es; [done..|].
  change (casts_ok (set_stage (set_handler s c hang_up) i (HangingUp l))). eapply casts_stage; [by apply casts_hang_up|exact Hb|done|].
  intros c' h Hc' Hh. rewrite Es. cbn. rewrite elem_of_cons. intros [?|[[[->|?]|?] ?]]; [by left|right..].
  - split; [|done]. right. by eapply closed_after_hang_up.
  - by split; [left|].
  - by split; [right|].
Qed.

Lemma casts_evict s : casts_ok s → casts_ok (evict_one s).
Proof.
  intros Hok. unfold evict_one. destruct (evicting s) as [|c l]; [done|].
  apply (casts_hang_up (with_evicting s l)). destruct Hok as [Hc Hg]. split; [|done]. intros i b Hb. by destruct (Hc i b Hb).
Qed.

Lemma casts_unwind s c h : casts_ok s → handlers s !! c = Some h → casts_ok (unwind s c).
Proof.
  intros Hok Hh. unfold unwind. rewrite Hh. destruct (at_ h) eqn:Ha; try done.
  - by eapply casts_handler.
  - assert (casts_ok (Unregister s (project h) c) ∧ handlers (Unregister s (project h) c) !! c = Some h) as [H1 H2].
    { unfold Unregister. destruct (clients s !! project h); [case_decide|]; split; try done. by apply casts_table. }
    by eapply casts_handler.
  - by eapply casts_handler.
  - by eapply casts_handler.
Qed.

Lemma casts_inner s s' : casts_ok s → inner s s' → casts_ok s'.
Proof.
  intros Hok Hs. destruct Hs as [s c h o ok Hh Ha|s c h Hh Ha|s c h Hh Ha|s c h Hh Ha|s c h Hh Ha|s i ok|s i|s i|s].
  - unfold upgrade. destruct (_ && _); (eapply casts_handler; [done|exact Hh|done|done|by rewrite Ha|by rewrite Ha]).
  - unfold Register_. rewrite Hh. destruct (closed s); (eapply casts_handler; [|exact Hh|done|done|by rewrite Ha|by rewrite Ha]); [done|].
    by apply casts_table.
  - by eapply casts_handler.
  - by eapply casts_handler.
  - by eapply casts_unwind.
  - by apply casts_write.
  - by apply casts_end.
  - by apply casts_hang_up_one.
  - by apply casts_evict.
Qed.

Lemma casts_begin s p m order :
  hub_ok s → casts_ok s → order ≡ₚ elements (conns_of s p) → casts_ok (begin_cast s p m order).
Proof.
  intros Hhub [Hc Hg] Hord. split; cbn [casts handlers begin_cast with_casts].
  - intros i b [Hb|[Hi Hb]]%lookup_app_Some; [by destruct (Hc i b Hb)|]. apply list_lookup_singleton_Some in Hb as [Hz <-].
    assert (i = length (casts s)) as -> by lia. split; cbn [snapshot bStage bProject].
    + rewrite Hord. apply NoDup_elements.
    + intros r f [= <- <-]. split; [rewrite Hord; apply NoDup_elements|done].
    + intros c Hcs. assert (c ∈ conns_of s p) as Hreg by (apply elem_of_elements; by rewrite <- Hord).
      destruct (v_clients s Hhub p c Hreg) as (h & Hh & Hp & Ha). exists h. split_and!; [done|done|by destruct (at_ h)|]. cbn. left. split; [done|].
      intros Hi'. destruct (proj2 (Hg c h Hh) _ Hi') as (b & Hb & _). apply lookup_lt_Some in Hb. lia.
  - intros c h Hh. destruct (Hg c h Hh) as [Hn Hs]. split; [done|]. intros i Hi'. destruct (Hs i Hi') as (b & Hb & Hin).
    exists b. split; [by apply lookup_app_l_Some|done].
Qed.

Lemma casts_enter s p s' : casts_ok s → enter s p = Some s' → casts_ok s'.
Proof.
  intros [Hc Hg]. unfold enter. destruct (closed s); [done|]. intros [= <-]. split; cbn [casts handlers with_handlers].
  - intros i b Hb. destruct (Hc i b Hb) as [Hn Hr Hs]. split; [done|done|]. intros c Hcs. destruct (Hs c Hcs) as (h & Hh & Hrest).
    exists h. split; [by apply lookup_app_l_Some|done].
  - intros c h [Hh|[_ Hh]]%lookup_app_Some; [by apply Hg|]. apply list_lookup_singleton_Some in Hh as [_ <-]. cbn [got].
    split; [apply NoDup_nil_2|]. intros i Hi. by apply elem_of_nil in Hi.
Qed.

Lemma casts_step s s' : hub_ok s → casts_ok s → step s s' → casts_ok s'.
Proof.
  intros Hhub Hok Hs. destruct Hs as [s s' Hin|s p s' He|s c h now Hh Ha|s c h Hh Ha|s c h Hh Ha|s p m order Hc Hne Hord|s].
  - by eapply casts_inner.
  - by eapply casts_enter.
  - unfold read_frame. rewrite Hh. destruct (Allow (limiter h) now) as [l []]; by eapply casts_handler.
  - by eapply casts_handler.
  - by eapply casts_handler.
  - by apply casts_begin.
  - unfold Shutdown. destruct (closed s); [done|]. destruct Hok as [Hc Hg]. split; [|done]. intros i b Hb. by destruct (Hc i b Hb).
Qed.

Lemma reachable_casts o s : reachable o s → casts_ok s.
Proof.
  induction 1 as [|s s' Hr IH Hs]; [|by eapply casts_step; [eapply hub_reachable_ok|..]].
  split; [intros i b Hb; change (([] : list broadcast) !! i = Some b) in Hb|intros c h Hh; change (([] : list handler) !! c = Some h) in Hh];
    by rewrite lookup_nil in *.
Qed.

(** C24. A connection is never sent a broadcast of another project, nor one twice; and when a broadcast
    is over, every connection it found was either sent it or hung up on. *)
Theorem broadcasts_reach_their_project o s c h :
  reachable o s → handlers s !! c = Some h →
  NoDup (got h) ∧ (∀ i, i ∈ got h → ∃ b, casts s !! i = Some b ∧ bProject b = project h) ∧
  (∀ i b, casts s !! i = Some b → c ∈ snapshot b → bStage b = HangingUp [] → i ∈ got h ∨ open h = false).
Proof.
  intros Hr Hh. pose proof (reachable_casts o s Hr) as [Hc Hg]. destruct (Hg c h Hh) as [Hn Hs]. split_and!; [done| |].
  - intros i Hi. destruct (Hs i Hi) as (b & Hb & Hin). exists b. split; [done|].
    destruct (c_handler _ _ _ (Hc i b Hb) c Hin) as (h' & Hh' & Hp & _). congruence.
  - intros i b Hb Hin Hst. destruct (c_handler _ _ _ (Hc i b Hb) c Hin) as (h' & Hh' & _ & _ & Ho). rewrite Hst in Ho. cbn in Ho.
    rewrite elem_of_nil in Ho. assert (h' = h) as -> by congruence. naive_solver.
Qed.

(** ** Origins *)

(** A web socket is opened for an origin of the configured list alone: never without an origin, and
    a wildcard in the list allows nothing. *)
Theorem origin_must_be_listed allowed origin :
  CheckOrigin allowed origin = true ↔ origin ≠ "" ∧ origin ≠ "*" ∧ ∃ a, a ∈ Split allowed ","%char ∧ TrimSpace a = origin.
Proof.
  unfold CheckOrigin. rewrite andb_true_iff, negb_true_iff, bool_decide_eq_false, existsb_exists. split.
  - intros (Hne & a & Ha & [Hw%negb_true_iff%bool_decide_eq_false <-%bool_decide_eq_true]%andb_true_iff).
    split_and!; [done|done|]. exists a. split; [by apply list_elem_of_In|done].
  - intros (Hne & Hw & a & Ha & <-). split; [done|]. exists a. split; [by apply list_elem_of_In|].
    by rewrite bool_decide_eq_false_2, bool_decide_eq_true_2.
Qed.

(** ** Examples *)

Definition origin0 : string := "https://dash.example.com".

(** A client of a project comes in and is connected. *)
Definition entered : DeployHub := default (NewDeployHub origin0) (enter (NewDeployHub origin0) "p1").
Definition upgraded : DeployHub := upgrade entered 0 origin0 true.
Definition joined : DeployHub := Register_ upgraded 0.

(** It was sent the progress of a deployment. *)
Definition told : DeployHub :=
  end_cast (write (begin_cast joined "p1" (progress "p1" "building" "Building" 30 0) [0%nat]) 0 true) 0.

Lemma joined_reachable : reachable origin0 joined.
Proof.
  apply (reach_step _ upgraded); [apply (reach_step _ entered); [apply (reach_step _ (NewDeployHub origin0)); [apply reach_init|]|]|].
  - by apply (step_enter _ "p1").
  - apply step_inner. by eapply in_upgrade.
  - apply step_inner. by eapply in_register.
Qed.

Definition casting : DeployHub := begin_cast joined "p1" (progress "p1" "building" "Building" 30 0) [0%nat].

Lemma told_reachable : reachable origin0 told.
Proof.
  apply (reach_step _ (write casting 0 true)); [apply (reach_step _ casting); [apply (reach_step _ joined); [apply joined_reachable|]|]|].
  - apply step_cast; [reflexivity|apply (bool_decide_eq_true_1 _); vm_compute; reflexivity|vm_compute; reflexivity].
  - apply step_inner, in_write.
  - apply step_inner, in_end.
Qed.

Lemma broadcasts_reach_their_project_witness :
  ∃ h, handlers told !! 0%nat = Some h ∧ got h = [0%nat] ∧ ∃ b, casts told !! 0%nat = Some b ∧ bProject b = project h.
Proof.
  eexists. split; [reflexivity|]. split; [reflexivity|].
  destruct (broadcasts_reach_their_project origin0 told 0 _ told_reachable eq_refl) as (_ & Hp & _).
  exact (Hp 0%nat (list_elem_of_here 0%nat [])).
Defined.

Definition shutting : DeployHub := Shutdown told.

Lemma shutting_reachable : reachable origin0 shutting.
Proof. eapply reach_step; [apply told_reachable|apply step_shutdown]. Qed.

Lemma closed_hub_drains_witness : ∃ s', rtc inner shutting s' ∧ drained s' = true.
Proof. exact (closed_hub_drains origin0 shutting shutting_reachable eq_refl). Defined.

(** The hub that was shut down, its one handler unwound. *)
Definition hung : DeployHub := evict_one shutting.
Definition stopped : DeployHub := ping_exit (read_error hung 0) 0.
Definition empty_hub : DeployHub := unwind (unwind (unwind (unwind stopped 0) 0) 0) 0.

Lemma unwind_reachable s c :
  match handlers s !! c with Some h => bool_decide (at_ h ∈ [Stopping; Leaving; Closing; Returning]) && negb (ping h) | None => false end = true →
  reachable origin0 s → reachable origin0 (unwind s c).
Proof.
  destruct (handlers s !! c) as [h|] eqn:Hh; [|done]. intros [Ha%bool_decide_eq_true Hp%negb_true_iff]%andb_true_iff Hr.
  eapply reach_step; [exact Hr|]. apply step_inner. by eapply in_unwind.
Qed.

Lemma hub_stopped_reachable : reachable origin0 stopped.
Proof.
  apply (reach_step _ (read_error hung 0)); [apply (reach_step _ hung); [apply (reach_step _ shutting); [apply shutting_reachable|]|]|].
  - apply step_inner, in_evict.
  - apply step_inner. by eapply in_closed_read.
  - apply step_inner. by eapply in_ping.
Qed.

Lemma empty_hub_reachable : reachable origin0 empty_hub.
Proof.
  do 4 (apply unwind_reachable; [vm_compute; reflexivity|]). apply hub_stopped_reachable.
Qed.

Lemma drained_hub_stays_empty_witness :
  enter empty_hub "p2" = None ∧ clients empty_hub = ∅ ∧ length (handlers empty_hub) = 1%nat.
Proof.
  split; [reflexivity|].
  destruct (drained_hub_stays_empty origin0 empty_hub empty_hub empty_hub_reachable eq_refl (rtc_refl step empty_hub)) as (H1 & H2 & _).
  split; [exact H1|reflexivity].
Defined.

Fixpoint burst (l : WSFrameLimiter) (ts : list instant) : list bool :=
  match ts with
  | [] => []
  | t :: ts => let '(l, ok) := Allow l t in ok :: burst l ts
  end.

(** Two hundred frames at once pass and the next does not; ten milliseconds later one more does. *)
Example frame_burst :
  burst (NewWSFrameLimiter 0 0) (replicate 202 (5 * Second) ++ [5 * Second + 10 * Millisecond; 5 * Second + 10 * Millisecond]) =
  replicate 200 true ++ [false; false; true; false].
Proof. vm_compute. reflexivity. Qed.

End Hub.
