(* ===== verification/Dns.v ===== *)
(** * Dns: the synchronisation of DNS records ([dns/sync.go], [dns/module.go], [dns/providers/cloudflare.go])

    The queue of record operations with its one worker, the retries and the probes that follow a
    success, as threads that interleave with the callers of [Enqueue], [Start] and [Stop]; then
    the module that feeds the queue from domain events, and the Cloudflare provider.  A job is a
    pointer: [ptr] tells jobs apart, and every attempt is recorded under it. *)

From S2P Require Import Prelude GoStrings GoNet Policy.
#[local] Open Scope Z_scope.

Module Dns.

(** ** Data *)

(** src/internal/core/interfaces.go:274-281 DNSRecord *)
Record DNSRecord := { ID : string; Type_ : string; Name : string; Value : string; TTL : Z; Proxied : bool }.

(** src/internal/dns/sync.go:38-47 SyncJob *)
Record SyncJob := { ptr : nat; Action : string; Provider : string; Record_ : DNSRecord; Retries : Z }.

(** src/internal/dns/sync.go:31 syncRetryBase *)
Definition syncRetryBase : duration := 5 * Second.

(** src/internal/dns/sync.go:34 syncMaxRetries *)
Definition syncMaxRetries : Z := 3.

Definition capacity : nat := 100.

(** Where the worker is: not started, at its [select], in a call of the provider, in the wait before
    a retry, putting the job back, or gone. *)
Inductive worker := Absent | Idle | Calling (j : SyncJob) | Backoff (j : SyncJob) (wait : duration) | Requeueing (j : SyncJob) | Gone.

(** A probe waits, asks the provider or is over. *)
Inductive probe := PWaiting (r : DNSRecord) | PAsking (r : DNSRecord) | POver.

(** An attempt of a job, and whether it succeeded. *)
Record attempt := { job : nat; done_ : bool }.

(** [sending] are the callers of [Enqueue] between its two halves; [next] is the next pointer.
    src/internal/dns/sync.go:78-114 SyncQueue *)
Record SyncQueue := {
  jobs : list SyncJob; sending : list SyncJob; started : bool; closed : bool; wg : Z; work : worker; probes : list probe;
  attempts : list attempt; asked : list string; next : nat }.

(** src/internal/dns/sync.go:119-134 NewSyncQueue *)
Definition NewSyncQueue : SyncQueue :=
  {| jobs := []; sending := []; started := false; closed := false; wg := 0; work := Absent; probes := []; attempts := []; asked := [];
     next := 0 |}.

Definition with_jobs (q : SyncQueue) (l sl : list SyncJob) : SyncQueue :=
  {| jobs := l; sending := sl; started := started q; closed := closed q; wg := wg q; work := work q; probes := probes q;
     attempts := attempts q; asked := asked q; next := next q |}.
Definition with_work (q : SyncQueue) (w : worker) : SyncQueue :=
  {| jobs := jobs q; sending := sending q; started := started q; closed := closed q; wg := wg q; work := w; probes := probes q;
     attempts := attempts q; asked := asked q; next := next q |}.
Definition with_probes (q : SyncQueue) (n : Z) (l : list probe) : SyncQueue :=
  {| jobs := jobs q; sending := sending q; started := started q; closed := closed q; wg := n; work := work q; probes := l;
     attempts := attempts q; asked := asked q; next := next q |}.
Definition tried (q : SyncQueue) (a : attempt) : SyncQueue :=
  {| jobs := jobs q; sending := sending q; started := started q; closed := closed q; wg := wg q; work := work q; probes := probes q;
     attempts := attempts q ++ [a]; asked := asked q; next := next q |}.

(** ** Operations *)

(** A job as a caller makes it. *)
Definition new_job (q : SyncQueue) (action provider : string) (r : DNSRecord) : SyncJob :=
  {| ptr := next q; Action := action; Provider := provider; Record_ := r; Retries := 0 |}.

(** The first half: a closed queue drops the job.
    src/internal/dns/sync.go:140-152 SyncQueue.Enqueue.check *)
Definition Enqueue (q : SyncQueue) (action provider : string) (r : DNSRecord) : SyncQueue :=
  {| jobs := jobs q; sending := if closed q then sending q else sending q ++ [new_job q action provider r]; started := started q;
     closed := closed q; wg := wg q; work := work q; probes := probes q; attempts := attempts q; asked := asked q; next := S (next q) |}.

(** [select { case q.jobs <- job: default: }] *)
Definition offer (j : SyncJob) (l : list SyncJob) : list SyncJob := if (length l <? capacity)%nat then l ++ [j] else l.

(** The second half: a full queue drops the job.
    src/internal/dns/sync.go:154-160 SyncQueue.Enqueue.send *)
Definition send (q : SyncQueue) (i : nat) : SyncQueue :=
  match sending q !! i with
  | Some j => with_jobs q (offer j (jobs q)) (delete i (sending q))
  | None => q
  end.

(** src/internal/dns/sync.go:167-177 SyncQueue.Start *)
Definition Start (q : SyncQueue) : SyncQueue :=
  if closed q || started q then q
  else {| jobs := jobs q; sending := sending q; started := true; closed := closed q; wg := wg q + 1; work := Idle; probes := probes q;
          attempts := attempts q; asked := asked q; next := next q |}.

(** src/internal/dns/sync.go:184-203 SyncQueue.Stop *)
Definition Stop (q : SyncQueue) : SyncQueue :=
  {| jobs := jobs q; sending := sending q; started := started q; closed := true; wg := wg q; work := work q; probes := probes q;
     attempts := attempts q; asked := asked q; next := next q |}.

(** When [Stop] returns.
    src/internal/dns/sync.go:186-202 SyncQueue.Stop.wait *)
Definition stopped (q : SyncQueue) : bool := closed q && (negb (started q) || (wg q =? 0)).

(** The worker takes a job; its [select] may do so on a closed queue too.
    src/internal/dns/sync.go:223-230 SyncQueue.loop.take *)
Definition take_job (q : SyncQueue) : SyncQueue :=
  match jobs q with
  | j :: l => with_work (with_jobs q l (sending q)) (Calling j)
  | [] => q
  end.

(** src/internal/dns/sync.go:216-228 SyncQueue.loop.exit *)
Definition loop_exit (q : SyncQueue) : SyncQueue := with_probes (with_work q Gone) (wg q - 1) (probes q).

(** A panic in the provider ends the worker for good.
    src/internal/dns/sync.go:216-222 SyncQueue.loop.recover *)
Definition panicked (q : SyncQueue) (j : SyncJob) : SyncQueue := loop_exit (tried q {| job := ptr j; done_ := false |}).

Definition retried (j : SyncJob) : SyncJob :=
  {| ptr := ptr j; Action := Action j; Provider := Provider j; Record_ := Record_ j; Retries := Retries j + 1 |}.

Definition known_action (a : string) : bool := bool_decide (a ∈ ["create"; "update"; "delete"]).

(** The provider's answer is [ok]; [provided] says which providers there are.
    src/internal/dns/sync.go:233-294 SyncQueue.process *)
Definition process (provided : string → bool) (q : SyncQueue) (j : SyncJob) (ok : bool) : SyncQueue :=
  if negb (provided (Provider j)) then with_work q Idle
  else if negb (known_action (Action j)) then with_work q Idle
  else
    let q := tried q {| job := ptr j; done_ := ok |} in
    if ok then with_probes (with_work q Idle) (wg q + 1) (probes q ++ [PWaiting (Record_ j)])
    else
      let j := retried j in
      if syncMaxRetries <=? Retries j then with_work q Idle
      else with_work q (Backoff j (Retries j * syncRetryBase)).

(** After the wait the job is put back, unless the queue is closed.
    src/internal/dns/sync.go:273-280 SyncQueue.process.backoff *)
Definition backoff_over (q : SyncQueue) (j : SyncJob) : SyncQueue := with_work q (if closed q then Idle else Requeueing j).

Definition requeue (q : SyncQueue) (j : SyncJob) : SyncQueue := with_work (with_jobs q (offer j (jobs q)) (sending q)) Idle.

(** src/internal/dns/sync.go:308-316 SyncQueue.verify.wait *)
Definition probe_begin (q : SyncQueue) (i : nat) : SyncQueue :=
  match probes q !! i with
  | Some (PWaiting r) =>
      {| jobs := jobs q; sending := sending q; started := started q; closed := closed q; wg := wg q; work := work q;
         probes := <[i := PAsking r]> (probes q); attempts := attempts q; asked := asked q ++ [Name r]; next := next q |}
  | _ => q
  end.

(** src/internal/dns/sync.go:300-324 SyncQueue.verify *)
Definition probe_end (q : SyncQueue) (i : nat) : SyncQueue := with_probes q (wg q - 1) (<[i := POver]> (probes q)).

(** ** Steps *)

Section Steps.
Variable provided : string → bool.

(** What the queue's own threads do; on a closed queue none of these waits for a timer. *)
Inductive inner : SyncQueue → SyncQueue → Prop :=
| in_take q : work q = Idle → jobs q ≠ [] → inner q (take_job q)
| in_exit q : work q = Idle → closed q = true → inner q (loop_exit q)
| in_process q j ok : work q = Calling j → inner q (process provided q j ok)
| in_panic q j : work q = Calling j → inner q (panicked q j)
| in_abandon q j w : work q = Backoff j w → closed q = true → inner q (with_work q Idle)
| in_requeue q j : work q = Requeueing j → inner q (requeue q j)
| in_probe_cut q i r : probes q !! i = Some (PWaiting r) → closed q = true → inner q (probe_end q i)
| in_probe_end q i r : probes q !! i = Some (PAsking r) → inner q (probe_end q i).

Inductive step : SyncQueue → SyncQueue → Prop :=
| step_inner q q' : inner q q' → step q q'
| step_enqueue q a p r : step q (Enqueue q a p r)
| step_send q i : step q (send q i)
| step_start q : step q (Start q)
| step_stop q : step q (Stop q)
| step_backoff q j w : work q = Backoff j w → step q (backoff_over q j)
| step_probe q i : step q (probe_begin q i).

Inductive reachable : SyncQueue → Prop :=
| reach_init : reachable NewSyncQueue
| reach_step q q' : reachable q → step q q' → reachable q'.

End Steps.

(** ** Domain events *)

(** The records a domain gets; an empty name is a panic after the first.
    src/internal/dns/sync.go:327-352 SyncDomainRecords *)
Definition SyncDomainRecords (fqdn serverIP : string) : list DNSRecord * bool :=
  let a := {| ID := ""; Type_ := "A"; Name := fqdn; Value := serverIP; TTL := 300; Proxied := false |} in
  match bytes fqdn with
  | [] => ([a], false)
  | c :: _ => (a :: if decide (c = "*"%char) then [] else
                 [{| ID := ""; Type_ := "CNAME"; Name := "www." +:+ fqdn; Value := fqdn; TTL := 300; Proxied := false |}], true)
  end.

Inductive domain_event := DomainAdded (fqdn : string) | DomainRemoved.

(** The jobs of an event; [providers] is what the registry lists.
    src/internal/dns/module.go:55-71 Module.Start.handlers *)
Definition on_event (providers : list string) (e : domain_event) : list (string * string * DNSRecord) :=
  match e, providers with
  | DomainAdded fqdn, p :: _ => (λ r, ("create", p, r)) <$> (SyncDomainRecords fqdn "").1
  | _, _ => []
  end.

(** ** Cloudflare *)

Record zone := { zID : string; zName : string }.
Inductive method := GET | POST | PUT | DELETE.
Record request := { verb : method; path : string; payload : option DNSRecord }.

(** An answer with its status and the zones its body lists, when it parses. *)
Inductive reply := Lost | Answered (status : Z) (zones : option (list zone)).

Inductive cf_error := Unreachable | Refused (status : Z) | ServerError (status : Z) | TimedOut | Unparsed | NoZone.

(** [net.IP.IsLinkLocalMulticast] *)
Definition IsLinkLocalMulticast (ip : GoNet.IP) : bool :=
  match GoNet.To4 ip with
  | Some (a :: b :: c :: _) => bool_decide (a = 224 ∧ b = 0 ∧ c = 0)
  | Some _ => false
  | None => match ip with a :: b :: _ => bool_decide (a = 255 ∧ Z.land b 15 = 2) | _ => false end
  end.

(** src/internal/dns/providers/cloudflare.go:119-123 isPublicIP.metadataRanges *)
Definition metadataRanges : list string := ["169.254.169.254/32"; "169.254.169.253/32"; "metadata.google.internal/32"].

(** A range that does not parse is passed over.
    src/internal/dns/providers/cloudflare.go:110-137 isPublicIP *)
Definition isPublicIP (ip : GoNet.IP) : bool :=
  if GoNet.IsPrivate ip || GoNet.IsLoopback ip || GoNet.IsLinkLocalUnicast ip || IsLinkLocalMulticast ip then false
  else match GoNet.To4 ip with
  | Some _ => negb (existsb (λ r, match GoNet.ParseCIDR r with Some n => GoNet.Contains n ip | None => false end) metadataRanges)
  | None => true
  end.

(** One public address is enough.
    src/internal/dns/providers/cloudflare.go:88-105 Cloudflare.Verify *)
Definition Verify (lookup : string → option (list string)) (fqdn : string) : bool :=
  match lookup fqdn with
  | None => false
  | Some ips => existsb (λ s, match GoNet.ParseIP s with Some ip => isPublicIP ip | None => false end) ips
  end.

Section Cloudflare.
(** The answer to each attempt of a request, and whether the deadline falls into the wait after it. *)
Variables (http : request → nat → reply) (cancelled : request → nat → bool).

Definition outcome_of (r : reply) : Retry.attempt cf_error :=
  match r with
  | Lost => Retry.Transient Unreachable
  | Answered st _ => if 500 <=? st then Retry.Transient (ServerError st) else if 400 <=? st then Retry.NoRetry (Refused st) else Retry.Done
  end.

(** The body of the answer and how often the request was sent.
    src/internal/dns/providers/cloudflare.go:167-203 Cloudflare.do *)
Definition do_ (r : request) : result cf_error (option (list zone)) * nat :=
  let '(o, waits) := Retry.Retry Retry.DefaultRetryConfig (λ i, outcome_of (http r i)) (cancelled r) in
  let n := match o with Retry.Cancelled => length waits | _ => S (length waits) end in
  (match o with
   | Retry.Succeeded => Ok (match http r (length waits) with Answered _ z => z | Lost => None end)
   | Retry.Stopped e | Retry.Exhausted _ e => Err e
   | Retry.Cancelled => Err TimedOut
   end, n).

(** The first zone whose name ends the record's name. *)
Definition matching (name : string) (l : list zone) : option zone := head (filter (λ z, HasSuffix name (zName z) = true) l).

(** src/internal/dns/providers/cloudflare.go:140-165 Cloudflare.findZone *)
Definition findZone (name : string) : result cf_error string :=
  match (do_ {| verb := GET; path := "/zones?per_page=50"; payload := None |}).1 with
  | Err e => Err e
  | Ok None => Err Unparsed
  | Ok (Some l) => match matching name l with Some z => Ok (zID z) | None => Err NoZone end
  end.

(** The request of an operation, sent to the zone of the record; [None] when there is no zone.
    src/internal/dns/providers/cloudflare.go:37-55 Cloudflare.CreateRecord *)
Definition operate (m : zone → request) (r : DNSRecord) : result cf_error request :=
  match findZone (Name r) with
  | Err e => Err e
  | Ok id =>
      let req := m {| zID := id; zName := "" |} in
      match (do_ req).1 with Ok _ => Ok req | Err e => Err e end
  end.

Definition create_request (r : DNSRecord) (z : zone) : request :=
  {| verb := POST; path := "/zones/" +:+ zID z +:+ "/dns_records"; payload := Some r |}.
Definition update_request (r : DNSRecord) (z : zone) : request :=
  {| verb := PUT; path := "/zones/" +:+ zID z +:+ "/dns_records/" +:+ ID r; payload := Some r |}.
Definition delete_request (r : DNSRecord) (z : zone) : request :=
  {| verb := DELETE; path := "/zones/" +:+ zID z +:+ "/dns_records/" +:+ ID r; payload := None |}.

(** src/internal/dns/providers/cloudflare.go:37-55 Cloudflare.CreateRecord *)
Definition CreateRecord (r : DNSRecord) : result cf_error request := operate (create_request r) r.

(** src/internal/dns/providers/cloudflare.go:57-75 Cloudflare.UpdateRecord *)
Definition UpdateRecord (r : DNSRecord) : result cf_error request := operate (update_request r) r.

(** src/internal/dns/providers/cloudflare.go:77-86 Cloudflare.DeleteRecord *)
Definition DeleteRecord (r : DNSRecord) : result cf_error request := operate (delete_request r) r.

End Cloudflare.
(** ** Attempts of a job *)

Definition outcomes (A : list attempt) (p : nat) : list bool := done_ <$> filter (λ a, job a = p) A.

(** Failures, and a success at most at the end. *)
Definition course (l : list bool) : Prop :=
  ∃ n, l = replicate n false ∧ (n ≤ 3)%nat ∨ l = replicate n false ++ [true] ∧ (n ≤ 2)%nat.

(** The jobs that may still be tried, the attempts so far and the next pointer. *)
Record jobs_ok (L : list SyncJob) (A : list attempt) (n : nat) : Prop := {
  j_nodup : NoDup (ptr <$> L);
  j_fresh : ∀ j, j ∈ L → (ptr j < n)%nat;
  j_known : ∀ a, a ∈ A → (job a < n)%nat;
  j_live : ∀ j, j ∈ L → outcomes A (ptr j) = replicate (Z.to_nat (Retries j)) false ∧ 0 ≤ Retries j < syncMaxRetries;
  j_course : ∀ p, course (outcomes A p) }.

Lemma jobs_ok_sub L L' A n : L' ⊆+ L → jobs_ok L A n → jobs_ok L' A n.
Proof.
  intros Hsub [Hn Hf Hk Hl Hc]. assert (∀ j, j ∈ L' → j ∈ L) as Hin by (intros j Hj; by eapply elem_of_submseteq).
  split; [|intros j Hj; by apply Hf, Hin|done|intros j Hj; by apply Hl, Hin|done].
  apply (fmap_submseteq ptr) in Hsub. apply submseteq_Permutation in Hsub as [k Hk']. rewrite Hk' in Hn. by apply NoDup_app in Hn as [? _].
Qed.

Lemma jobs_ok_new L A n j : ptr j = n → Retries j = 0 → jobs_ok L A n → jobs_ok (j :: L) A (S n).
Proof.
  intros Hp Hr [Hn Hf Hk Hl Hc]. assert (outcomes A n = []) as Hnew.
  { unfold outcomes. rewrite (proj2 (filter_nil_iff _ _)); [done|]. intros a Ha E. specialize (Hk a Ha). lia. }
  split.
  - rewrite fmap_cons. apply NoDup_cons. split; [|done]. rewrite Hp. intros (j' & E & Hj')%list_elem_of_fmap. specialize (Hf j' Hj'). lia.
  - intros j' [->|Hj']%elem_of_cons; [lia|]. specialize (Hf j' Hj'). lia.
  - intros a Ha. specialize (Hk a Ha). lia.
  - intros j' [->|Hj']%elem_of_cons; [|by apply Hl]. rewrite Hp, Hnew, Hr. done.
  - done.
Qed.

Lemma jobs_ok_next L A n : jobs_ok L A n → jobs_ok L A (S n).
Proof. intros [Hn Hf Hk Hl Hc]. split; try done; intros x Hx; [specialize (Hf x Hx)|specialize (Hk x Hx)]; lia. Qed.

Lemma outcomes_snoc A p b q : outcomes (A ++ [{| job := p; done_ := b |}]) q = outcomes A q ++ (if decide (p = q) then [b] else []).
Proof. unfold outcomes. rewrite filter_app, fmap_app. f_equal. rewrite filter_cons. cbn [job]. by case_decide. Qed.

Lemma course_snoc n b : 0 ≤ n < syncMaxRetries → course (replicate (Z.to_nat n) false ++ [b]).
Proof.
  unfold syncMaxRetries. intros Hn. destruct b; [exists (Z.to_nat n); right; split; [done|lia]|].
  exists (S (Z.to_nat n)). left. split; [by rewrite replicate_S_end|lia].
Qed.

(** An attempt of a job: afterwards it is no longer live. *)
Lemma jobs_ok_try j L A n b : jobs_ok (j :: L) A n → jobs_ok L (A ++ [{| job := ptr j; done_ := b |}]) n.
Proof.
  intros Hok. pose proof (jobs_ok_sub (j :: L) L A n ltac:(by apply submseteq_cons) Hok) as [Hn' _ _ _ _].
  destruct Hok as [Hn Hf Hk Hl Hc]. rewrite fmap_cons in Hn. apply NoDup_cons in Hn as [Hj Hn]. split.
  - done.
  - intros j' Hj'. apply Hf. by right.
  - intros a [Ha| ->%list_elem_of_singleton]%elem_of_app; [by apply Hk|]. cbn. apply Hf. left.
  - intros j' Hj'. rewrite outcomes_snoc, decide_False, app_nil_r; [apply Hl; by right|].
    intros E. apply Hj. rewrite E. by apply list_elem_of_fmap_2.
  - intros p. rewrite outcomes_snoc. case_decide as E; [|rewrite app_nil_r; done]. subst p.
    destruct (Hl j ltac:(left)) as [-> Hr]. by apply course_snoc.
Qed.

(** A failed attempt that is not the last leaves the job live, with one more failure. *)
Lemma jobs_ok_retry j L A n :
  jobs_ok (j :: L) A n → Retries j + 1 < syncMaxRetries → jobs_ok (retried j :: L) (A ++ [{| job := ptr j; done_ := false |}]) n.
Proof.
  intros Hok Hr. pose proof (jobs_ok_try j L A n false Hok) as [Hn' Hf' Hk' Hl' Hc']. destruct Hok as [Hn Hf Hk Hl Hc].
  split; [done| |done| |done].
  - intros j' [->|Hj']%elem_of_cons; [cbn; apply Hf; left|by apply Hf'].
  - intros j' [->|Hj']%elem_of_cons; [|by apply Hl']. destruct (Hl j ltac:(left)) as [E Hrj]. cbn [ptr Retries retried].
    rewrite outcomes_snoc, decide_True, E by done. split; [|lia]. replace (Z.to_nat (Retries j + 1)) with (S (Z.to_nat (Retries j))) by lia.
    by rewrite replicate_S_end.
Qed.

(** ** The invariant *)

Definition held (w : worker) : list SyncJob := match w with Calling j | Backoff j _ | Requeueing j => [j] | _ => [] end.
Definition running (w : worker) : Z := match w with Absent | Gone => 0 | _ => 1 end.
Definition alive (p : probe) : Z := match p with POver => 0 | _ => 1 end.
Definition live (q : SyncQueue) : list SyncJob := held (work q) ++ jobs q ++ sending q.

Record queue_ok (q : SyncQueue) : Prop := {
  q_jobs : jobs_ok (live q) (attempts q) (next q);
  q_cap : (length (jobs q) ≤ capacity)%nat;
  q_wg : wg q = running (work q) + zsum alive (probes q);
  q_unstarted : started q = false → work q = Absent ∧ probes q = [] }.

Lemma offer_sub j l : offer j l ⊆+ j :: l.
Proof. unfold offer. destruct (_ <? _)%nat; [by rewrite (comm (++))|by apply submseteq_cons]. Qed.

Lemma offer_cap j l : (length l ≤ capacity)%nat → (length (offer j l) ≤ capacity)%nat.
Proof. unfold offer. destruct (length l <? capacity)%nat eqn:E; [|done]. apply Nat.ltb_lt in E. rewrite length_app. cbn. lia. Qed.

(** Reduces the fields of an updated queue. *)
Ltac fields := cbn [jobs sending started closed wg work probes attempts asked next with_work with_jobs with_probes tried loop_exit requeue probe_end Enqueue Stop
  held running alive app].

Section Invariant.
Variable provided : string → bool.

Lemma loop_exit_ok q : queue_ok q → running (work q) = 1 → started q = true → queue_ok (loop_exit q).
Proof.
  intros [Hj Hc Hw Hu] Hr Hs. split; fields; [|done|lia|congruence]. eapply jobs_ok_sub; [|exact Hj]. unfold live. fields. by apply submseteq_inserts_l.
Qed.

(** The worker goes on with another job in hand, or none. *)
Lemma work_ok q w :
  queue_ok q → running (work q) = 1 → running w = 1 → held w ⊆+ held (work q) → queue_ok (with_work q w).
Proof.
  intros [Hj Hc Hw Hu] Hr Hr' Hh. split; fields; [|done|lia|].
  - eapply jobs_ok_sub; [|exact Hj]. by apply submseteq_skips_r.
  - intros Hs. destruct (Hu Hs) as [E _]. by rewrite E in Hr.
Qed.

Lemma tried_ok q j b w :
  queue_ok q → work q = Calling j → running w = 1 →
  held w = [] ∨ b = false ∧ held w = [retried j] ∧ Retries j + 1 < syncMaxRetries →
  queue_ok (with_work (tried q {| job := ptr j; done_ := b |}) w).
Proof.
  intros [Hj Hc Hw Hu] E Hr Hh. unfold live in Hj. rewrite E in Hj, Hw, Hu. split; fields; [|done|cbn in Hw; lia|intros Hs; by destruct (Hu Hs)].
  unfold live. fields. destruct Hh as [->|(-> & -> & Hlt)]; [by apply jobs_ok_try|by apply jobs_ok_retry].
Qed.

Lemma process_ok q j ok : queue_ok q → work q = Calling j → queue_ok (process provided q j ok).
Proof.
  intros Hok E. assert (running (work q) = 1) as Hr by (by rewrite E).
  assert (queue_ok (with_work q Idle)) as Hidle by (apply work_ok; [done|done|done|apply submseteq_nil_l]).
  unfold process. destruct (negb (provided _)); [done|]. destruct (negb (known_action _)); [done|]. destruct ok.
  - pose proof (tried_ok q j true Idle Hok E eq_refl (or_introl eq_refl)) as [Hj Hc Hw Hu]. split; fields; [exact Hj|done| |].
    + cbn [wg work probes with_work tried running] in Hw. rewrite zsum_app, Hw. cbn [zsum foldr alive]. lia.
    + intros Hs. destruct (q_unstarted q Hok Hs) as [E' _]. congruence.
  - destruct (syncMaxRetries <=? Retries (retried j)) eqn:Hlast.
    + by apply tried_ok; [..|left].
    + apply Z.leb_gt in Hlast. apply tried_ok; [done|done|done|]. right. by split_and!.
Qed.

Lemma requeue_ok q j : queue_ok q → work q = Requeueing j → queue_ok (requeue q j).
Proof.
  intros [Hj Hc Hw Hu] E. unfold live in Hj. rewrite E in Hj, Hw, Hu. split; fields; [|by apply offer_cap|done|intros Hs; by destruct (Hu Hs)].
  eapply jobs_ok_sub; [|exact Hj]. unfold live. fields. apply (submseteq_skips_r (sending q) _ (j :: jobs q)), offer_sub.
Qed.

Lemma probe_end_ok q i p : queue_ok q → probes q !! i = Some p → alive p = 1 → queue_ok (probe_end q i).
Proof.
  intros [Hj Hc Hw Hu] Hp Ha. split; fields; [done|done|rewrite (zsum_insert alive _ i p _ Hp); cbn [alive]; lia|].
  intros Hs. destruct (Hu Hs) as [_ E]. rewrite E in Hp. done.
Qed.

Lemma dns_inner_ok q q' : queue_ok q → inner provided q q' → queue_ok q'.
Proof.
  intros Hok Hs. assert (∀ w, work q = w → running w = 1 → started q = true) as Hst.
  { intros w E Hr. destruct (started q) eqn:Es; [done|]. destruct (q_unstarted q Hok Es) as [E' _]. rewrite E' in E. by subst w. }
  destruct Hs as [q Hi Hne|q Hi Hc|q j ok Hi|q j Hi|q j w Hi Hc|q j Hi|q i r Hp Hc|q i r Hp].
  - unfold take_job. destruct (jobs q) as [|j l] eqn:El; [done|]. destruct Hok as [Hj Hc Hw Hu]. unfold live in Hj.
    rewrite Hi in Hj, Hw, Hu. rewrite El in Hj, Hc. split; fields; [exact Hj|cbn in Hc; lia|done|]. intros Hs. by destruct (Hu Hs).
  - apply loop_exit_ok; [done|by rewrite Hi|by eapply Hst].
  - by apply process_ok.
  - unfold panicked. pose proof (tried_ok q j false Idle Hok Hi eq_refl (or_introl eq_refl)) as H1.
    exact (loop_exit_ok _ H1 eq_refl (Hst _ Hi eq_refl)).
  - apply work_ok; [done|by rewrite Hi|done|apply submseteq_nil_l].
  - by apply requeue_ok.
  - by eapply probe_end_ok.
  - by eapply probe_end_ok.
Qed.

Lemma dns_step_ok q q' : queue_ok q → step provided q q' → queue_ok q'.
Proof.
  intros Hok Hs. destruct Hs as [q q' Hin|q a p r|q i|q|q|q j w Hi|q i].
  - by eapply dns_inner_ok.
  - destruct Hok as [Hj Hc Hw Hu]. split; fields; [|done|done|done]. unfold live in *. fields. destruct (closed q).
    + by apply jobs_ok_next.
    + eapply jobs_ok_sub; [|exact (jobs_ok_new _ _ _ (new_job q a p r) eq_refl eq_refl Hj)]. rewrite !app_assoc. by rewrite (comm (++)).
  - unfold send. destruct (sending q !! i) as [j|] eqn:Hi; [|done]. destruct Hok as [Hj Hc Hw Hu].
    split; fields; [|by apply offer_cap|done|done]. eapply jobs_ok_sub; [|exact Hj]. unfold live. fields. apply submseteq_skips_l.
    etransitivity; [apply (submseteq_skips_r (delete i (sending q)) _ _ (offer_sub j (jobs q)))|].
    cbn [app]. rewrite Permutation_middle. apply submseteq_skips_l, Permutation_submseteq. symmetry. by apply delete_Permutation.
  - unfold Start. destruct (closed q || started q) eqn:E; [done|]. apply orb_false_iff in E as [_ Es].
    destruct Hok as [Hj Hc Hw Hu]. destruct (Hu Es) as [E1 E2]. unfold live in Hj. rewrite E1 in Hj, Hw. rewrite E2 in Hw.
    split; fields; [exact Hj|done| |done]. rewrite E2. cbn in *. lia.
  - destruct Hok as [Hj Hc Hw Hu]. by split.
  - unfold backoff_over. destruct (closed q); apply work_ok; try done; rewrite Hi; [done|apply submseteq_nil_l|done|done].
  - unfold probe_begin. destruct (probes q !! i) as [[r|r|]|] eqn:Hp; try done. destruct Hok as [Hj Hc Hw Hu].
    split; fields; [done|done|rewrite (zsum_insert alive _ i _ _ Hp); cbn [alive]; lia|]. intros Hs. destruct (Hu Hs) as [_ E]. by rewrite E in Hp.
Qed.

Lemma dns_reachable_ok q : reachable provided q → queue_ok q.
Proof.
  induction 1 as [|q q' _ IH Hs]; [|by eapply dns_step_ok]. split; [|apply Nat.le_0_l|done|done]. split; cbn.
  - apply NoDup_nil_2.
  - intros j Hj. by apply elem_of_nil in Hj.
  - intros a Ha. by apply elem_of_nil in Ha.
  - intros j Hj. by apply elem_of_nil in Hj.
  - intros p. exists 0%nat. left. by split; [|lia].
Qed.

End Invariant.

(** C36. However callers, worker, retries and shutdown interleave, a record operation is tried at most three
    times and not after it succeeded, and the queue never holds more than its hundred jobs. *)
Theorem jobs_are_tried_at_most_thrice provided q p :
  reachable provided q → course (outcomes (attempts q) p) ∧ (length (jobs q) ≤ capacity)%nat.
Proof. intros [Hj Hc _ _]%dns_reachable_ok. split; [apply (j_course _ _ _ Hj)|done]. Qed.

(** ** Stopping *)

Section Stopping.
Variable provided : string → bool.

(** Nobody runs: the worker was never started or is gone, and the probes are over. *)
Definition silent (q : SyncQueue) : Prop :=
  closed q = true ∧ (work q = Absent ∨ work q = Gone) ∧ ∀ i p, probes q !! i = Some p → p = POver.

Lemma alive_nonneg p : 0 ≤ alive p.
Proof. by destruct p. Qed.

Lemma stopped_silent q : queue_ok q → stopped q = true → silent q.
Proof.
  intros [Hj Hc Hw Hu] Hs. unfold stopped in Hs. apply andb_true_iff in Hs as [Hcl Hs]. split; [done|].
  assert (wg q = 0) as Hz.
  { apply orb_true_iff in Hs as [Hs%negb_true_iff|Hs%Z.eqb_eq]; [|done]. destruct (Hu Hs) as [E1 E2]. rewrite Hw, E1, E2. done. }
  pose proof (zsum_nonneg alive (probes q) ltac:(intros; apply alive_nonneg)) as Hn. rewrite Hz in Hw.
  assert (0 ≤ running (work q)) by (by destruct (work q)). split.
  - destruct (work q); cbn in *; (lia || auto).
  - intros i p Hp. assert (alive p = 0) as Ha; [|by destruct p].
    apply (zsum_zero alive (probes q)); [intros; apply alive_nonneg|lia|by eapply list_elem_of_lookup_2].
Qed.

Lemma silent_step q q' : silent q → step provided q q' → silent q' ∧ attempts q' = attempts q ∧ asked q' = asked q.
Proof.
  intros (Hc & Hw & Hp) Hs. destruct Hs as [q q' Hin|q a p r|q i|q|q|q j w Hi|q i].
  - destruct Hin as [q Hi|q Hi|q j ok Hi|q j Hi|q j w Hi|q j Hi|q i r Hpr|q i r Hpr];
      try (by rewrite Hi in Hw; destruct Hw); specialize (Hp i _ Hpr); done.
  - done.
  - unfold send. by destruct (sending q !! i).
  - unfold Start. by rewrite Hc.
  - done.
  - rewrite Hi in Hw. by destruct Hw.
  - unfold probe_begin. destruct (probes q !! i) as [p|] eqn:E; [|done]. by rewrite (Hp i p E).
Qed.

Lemma silent_steps q q' : rtc (step provided) q q' → silent q → silent q' ∧ attempts q' = attempts q ∧ asked q' = asked q.
Proof.
  induction 1 as [|q q1 q' Hs _ IH]; intros Hq; [done|]. destruct (silent_step q q1 Hq Hs) as (H1 & <- & <-). by apply IH.
Qed.

End Stopping.

(** When [Stop] has returned, no provider is called again: not by the worker, not by a retry and not by
    a probe, whatever is enqueued or started later. *)
Theorem stopped_queue_is_silent provided q q' :
  reachable provided q → stopped q = true → rtc (step provided) q q' → attempts q' = attempts q ∧ asked q' = asked q.
Proof. intros Hr Hs Hq. exact (proj2 (silent_steps provided q q' Hq (stopped_silent q (dns_reachable_ok provided q Hr) Hs))). Qed.

Section Draining.
Variable provided : string → bool.

(** The worker of a closed queue leaves: a call that returns, a wait that is cut short. *)
Lemma worker_leaves q :
  closed q = true → running (work q) = 1 →
  ∃ q', rtc (inner provided) q q' ∧ closed q' = true ∧ running (work q') = 0 ∧ started q' = started q.
Proof.
  intros Hc Hr.
  assert (∀ q1, closed q1 = true → work q1 = Idle → started q1 = started q →
    ∃ q', rtc (inner provided) q1 q' ∧ closed q' = true ∧ running (work q') = 0 ∧ started q' = started q) as Hexit.
  { intros q1 H1 H2 H3. exists (loop_exit q1). split; [apply rtc_once; by apply in_exit|done]. }
  destruct (work q) as [| |j|j w|j|] eqn:Hw; [done|by apply Hexit| | | |done].
  - assert (closed (process provided q j false) = true ∧ started (process provided q j false) = started q ∧
      (work (process provided q j false) = Idle ∨ ∃ j' w, work (process provided q j false) = Backoff j' w)) as (H1 & H2 & H3).
    { unfold process. destruct (negb (provided _)); [by auto|]. destruct (negb (known_action _)); [by auto|].
      destruct (syncMaxRetries <=? _); split_and!; try done; [by left|right; eauto]. }
    pose proof (in_process provided q j false Hw) as Hp. destruct H3 as [H3|(j' & w & H3)].
    + destruct (Hexit _ H1 H3 H2) as (q' & Hq' & Hrest). exists q'. split; [by eapply rtc_l|done].
    + destruct (Hexit (with_work (process provided q j false) Idle) H1 eq_refl H2) as (q' & Hq' & Hrest). exists q'. split; [|done].
      eapply rtc_l; [exact Hp|]. eapply rtc_l; [|exact Hq']. by eapply in_abandon.
  - destruct (Hexit (with_work q Idle)) as (q' & Hq' & Hrest); [done..|]. exists q'. split; [|done]. eapply rtc_l; [|done]. by eapply in_abandon.
  - destruct (Hexit (requeue q j)) as (q' & Hq' & Hrest); [done..|]. exists q'. split; [|done]. eapply rtc_l; [|done]. by eapply in_requeue.
Qed.

(** So do the probes. *)
Lemma probes_end q :
  closed q = true → ∃ q', rtc (inner provided) q q' ∧ closed q' = true ∧ work q' = work q ∧ zsum alive (probes q') = 0.
Proof.
  remember (Z.to_nat (zsum alive (probes q))) as n eqn:Hn. revert q Hn. induction n as [|n IH]; intros q Hn Hc.
  - exists q. split_and!; try done. pose proof (zsum_nonneg alive (probes q) ltac:(intros; apply alive_nonneg)). lia.
  - assert (0 < zsum alive (probes q)) as (p & Hin & Ha)%zsum_pos_exists by lia. apply list_elem_of_lookup in Hin as [i Hp].
    assert (inner provided q (probe_end q i)) as Hs by (destruct p; [by eapply in_probe_cut|by eapply in_probe_end|done]).
    assert (alive p = 1) as Ha1 by (by destruct p).
    destruct (IH (probe_end q i)) as (q' & Hq' & Hc' & Hw' & Hz); [|done|].
    + cbn [probes probe_end with_probes]. rewrite (zsum_insert alive _ i p _ Hp). cbn [alive]. lia.
    + exists q'. split_and!; [by eapply rtc_l|done|done|done].
Qed.

Lemma rtc_inner_ok q q' : rtc (inner provided) q q' → queue_ok q → queue_ok q'.
Proof. induction 1 as [|q q1 q' Hs _ IH]; intros Hok; [done|]. apply IH. by eapply dns_inner_ok. Qed.

End Draining.

(** [Stop] always returns: from every state of a closed queue its own threads, without waiting for a
    timer or for another job, come to their end. *)
Theorem closed_queue_stops provided q :
  reachable provided q → closed q = true → ∃ q', rtc (inner provided) q q' ∧ stopped q' = true.
Proof.
  intros Hr%dns_reachable_ok Hc.
  assert (∃ q1, rtc (inner provided) q q1 ∧ closed q1 = true ∧ running (work q1) = 0) as (q1 & Hq1 & Hc1 & Hw1).
  { destruct (decide (running (work q) = 0)) as [Hz|Hz]; [by exists q|].
    destruct (worker_leaves provided q Hc) as (q1 & ? & ? & ? & _); [by destruct (work q)|by exists q1]. }
  destruct (probes_end provided q1 Hc1) as (q2 & Hq2 & Hc2 & Hw2 & Hz). exists q2. split; [by etransitivity|].
  assert (queue_ok q2) as [_ _ Hwg _].
  { apply (rtc_inner_ok provided q1 q2 Hq2), (rtc_inner_ok provided q q1 Hq1), Hr. }
  unfold stopped. rewrite Hc2, Hwg, Hw2, Hw1, Hz. by rewrite orb_true_r.
Qed.

(** ** Records of a domain *)

(** Every address record that a new domain gets is empty, since the module passes no address; and the
    removal of a domain leaves its records. *)
Theorem domain_records_have_no_address providers fqdn a p r :
  (a, p, r) ∈ on_event providers (DomainAdded fqdn) →
  a = "create" ∧ (Type_ r = "A" ∧ Name r = fqdn ∧ Value r = "" ∨ Type_ r = "CNAME" ∧ Name r = "www." +:+ fqdn ∧ Value r = fqdn) ∧
  on_event providers DomainRemoved = [].
Proof.
  unfold on_event. destruct providers as [|p0 ps]; [by intros Hx%elem_of_nil|].
  intros (r' & [= -> -> ->] & Hr)%list_elem_of_fmap. split_and!; [done| |done].
  unfold SyncDomainRecords in Hr. destruct (bytes fqdn) as [|c l].
  - apply list_elem_of_singleton in Hr as ->. by left.
  - cbn [fst] in Hr. apply elem_of_cons in Hr as [->|Hr]; [by left|]. case_decide; [by apply elem_of_nil in Hr|].
    apply list_elem_of_singleton in Hr as ->. by right.
Qed.

(** ** Cloudflare *)

Section Requests.
Variables (http : request → nat → reply) (cancelled : request → nat → bool).

(** A request is sent at most three times, and an answer that refuses it is final. *)
Theorem cloudflare_requests_are_bounded r :
  (1 ≤ (do_ http cancelled r).2 ≤ 3)%nat ∧
  (∀ st z, http r 0 = Answered st z → 400 ≤ st < 500 → do_ http cancelled r = (Err (Refused st), 1%nat)).
Proof.
  unfold do_, Retry.Retry, Retry.DefaultRetryConfig. cbn [Retry.MaxAttempts]. change (Z.to_nat ((if 3 <=? 0 then 1 else 3) - 1)) with 2%nat.
  cbn [Retry.retry_from]. split.
  - destruct (outcome_of (http r 0)); [cbn; lia| |cbn; lia]. destruct (cancelled r 0); [cbn; lia|].
    destruct (outcome_of (http r 1)); [cbn; lia| |cbn; lia]. destruct (cancelled r 1); [cbn; lia|].
    destruct (outcome_of (http r 2)); cbn; lia.
  - intros st z E [H1 H2]. rewrite E. cbn [outcome_of]. rewrite (proj2 (Z.leb_gt 500 st)) by lia. by rewrite (proj2 (Z.leb_le 400 st)).
Qed.

(** A record goes to the first zone whose name is the end of its own, with nothing between them: the
    zone need not be a parent of the name. *)
Theorem zone_is_a_suffix name id l :
  (do_ http cancelled {| verb := GET; path := "/zones?per_page=50"; payload := None |}).1 = Ok (Some l) →
  findZone http cancelled name = Ok id →
  ∃ l1 z l2 pre, l = l1 ++ z :: l2 ∧ zID z = id ∧ name = pre +:+ zName z ∧ ∀ z', z' ∈ l1 → HasSuffix name (zName z') = false.
Proof.
  intros Hz. unfold findZone. rewrite Hz. unfold matching. clear Hz. induction l as [|z l IH]; [done|]. rewrite filter_cons. case_decide as Hs.
  - cbn [head]. intros [= <-]. apply HasSuffix_spec in Hs as [pre ->]. exists [], z, l, pre. split_and!; try done.
    intros z' Hz'. by apply elem_of_nil in Hz'.
  - intros Hf. destruct (IH Hf) as (l1 & z0 & l2 & pre & -> & Hid & Hn & Hl1). exists (z :: l1), z0, l2, pre. split_and!; try done.
    intros z' [->|Hz']%elem_of_cons; [by apply not_true_is_false|by apply Hl1].
Qed.

End Requests.

(** The probe's address check. *)
Example public_addresses :
  (λ s, isPublicIP <$> GoNet.ParseIP s) <$>
    ["8.8.8.8"; "10.1.2.3"; "172.31.0.1"; "192.168.0.1"; "127.0.0.1"; "169.254.169.254"; "224.0.0.1"; "fe80::1"; "fd00::1"; "::1";
     "239.1.1.1"; "0.0.0.0"; "100.64.0.1"] =
  [Some true; Some false; Some false; Some false; Some false; Some false; Some false; Some false; Some false; Some false;
   Some true; Some true; Some true].
Proof. vm_compute. reflexivity. Qed.

(** ** Examples *)

Definition sample_record : DNSRecord := {| ID := ""; Type_ := "A"; Name := "a.example.com"; Value := "1.2.3.4"; TTL := 300; Proxied := false |}.
Definition always : string → bool := λ _, true.

(** A job that is called, and one that failed once and waits. *)
Definition calling : SyncQueue := take_job (send (Enqueue (Start NewSyncQueue) "create" "cloudflare" sample_record) 0).
Definition sample_job : SyncJob := new_job (Start NewSyncQueue) "create" "cloudflare" sample_record.
Definition waiting : SyncQueue := process always calling sample_job false.

Lemma calling_reachable : reachable always calling.
Proof.
  eapply (reach_step _ (send (Enqueue (Start NewSyncQueue) "create" "cloudflare" sample_record) 0)); [|apply step_inner; by apply in_take].
  eapply (reach_step _ (Enqueue (Start NewSyncQueue) "create" "cloudflare" sample_record)); [|apply step_send].
  eapply (reach_step _ (Start NewSyncQueue)); [|apply step_enqueue].
  eapply reach_step; [apply reach_init|apply step_start].
Qed.

Lemma waiting_reachable : reachable always waiting.
Proof. eapply reach_step; [apply calling_reachable|]. apply step_inner. by apply in_process. Qed.

Lemma jobs_are_tried_at_most_thrice_witness :
  outcomes (attempts waiting) 0 = [false] ∧ work waiting = Backoff (retried sample_job) (5 * Second) ∧ course (outcomes (attempts waiting) 0).
Proof.
  split; [reflexivity|]. split; [reflexivity|]. exact (proj1 (jobs_are_tried_at_most_thrice always waiting 0 waiting_reachable)).
Defined.

Lemma closed_queue_stops_witness : ∃ q', rtc (inner always) (Stop waiting) q' ∧ stopped q' = true.
Proof.
  refine (closed_queue_stops always (Stop waiting) _ eq_refl). eapply reach_step; [apply waiting_reachable|apply step_stop].
Defined.

(** The worker left the wait; what is enqueued now stays where it is. *)
Definition quiet : SyncQueue := loop_exit (with_work (Stop waiting) Idle).

Lemma quiet_reachable : reachable always quiet.
Proof.
  eapply (reach_step _ (with_work (Stop waiting) Idle)); [|apply step_inner; by apply in_exit].
  eapply (reach_step _ (Stop waiting)); [|apply step_inner; by eapply in_abandon].
  eapply reach_step; [apply waiting_reachable|apply step_stop].
Qed.

Lemma stopped_queue_is_silent_witness :
  attempts (Enqueue quiet "delete" "cloudflare" sample_record) = attempts quiet.
Proof.
  exact (proj1 (stopped_queue_is_silent always quiet (Enqueue quiet "delete" "cloudflare" sample_record) quiet_reachable eq_refl
    (rtc_once _ _ (step_enqueue always quiet "delete" "cloudflare" sample_record)))).
Defined.

Lemma domain_records_have_no_address_witness :
  ∃ r, ("create", "cloudflare", r) ∈ on_event ["cloudflare"] (DomainAdded "a.example.com") ∧ Value r = "".
Proof.
  eexists. split; [left|].
  destruct (domain_records_have_no_address ["cloudflare"] "a.example.com" "create" "cloudflare" _ (list_elem_of_here _ _))
    as (_ & [(_ & _ & Hv)|(Ht & _)] & _); [exact Hv|discriminate Ht].
Defined.

(** An account with the zone of another name. *)
Definition one_zone (r : request) (i : nat) : reply := Answered 200 (Some [{| zID := "z1"; zName := "example.com" |}]).

Lemma zone_is_a_suffix_witness :
  findZone one_zone (λ _ _, false) "evilexample.com" = Ok "z1" ∧
  ∃ l1 z l2 pre, [{| zID := "z1"; zName := "example.com" |}] = l1 ++ z :: l2 ∧ zID z = "z1" ∧ "evilexample.com" = pre +:+ zName z ∧
    ∀ z', z' ∈ l1 → HasSuffix "evilexample.com" (zName z') = false.
Proof.
  split; [reflexivity|]. apply (zone_is_a_suffix one_zone (λ _ _, false) "evilexample.com" "z1"); reflexivity.
Defined.

Lemma gone_step provided q q' : work q = Gone → started q = true → step provided q q' → work q' = Gone ∧ started q' = true ∧ attempts q' = attempts q.
Proof.
  intros Hw Hst Hs. destruct Hs as [q q' Hin|q a p r|q i|q|q|q j w Hi|q i]; try done.
  - by destruct Hin as [q Hi|q Hi|q j ok Hi|q j Hi|q j w Hi|q j Hi|q i r Hpr|q i r Hpr]; try congruence.
  - unfold send. by destruct (sending q !! i).
  - unfold Start. by rewrite Hst, orb_true_r.
  - congruence.
  - unfold probe_begin. by destruct (probes q !! i) as [[]|].
Qed.

(** A panic in a provider stops the synchronisation until the process restarts: no job is ever tried
    again, the queue being open and started. *)
Theorem panic_ends_the_worker provided q j q' :
  started q = true → closed q = false → work q = Calling j → rtc (step provided) (panicked q j) q' →
  attempts q' = attempts q ++ [{| job := ptr j; done_ := false |}].
Proof.
  intros Hs Hc Hw Hq. assert (∀ a b, rtc (step provided) a b → work a = Gone → started a = true → attempts b = attempts a) as Hall.
  { induction 1 as [|a a1 b Ha _ IH]; intros Hg Ht; [done|]. destruct (gone_step provided a a1 Hg Ht Ha) as (Hg1 & Ht1 & <-). by apply IH. }
  exact (Hall _ _ Hq eq_refl Hs).
Qed.

Lemma panic_ends_the_worker_witness :
  attempts (Start (Enqueue (panicked calling sample_job) "create" "cloudflare" sample_record)) = [{| job := 0; done_ := false |}].
Proof.
  apply (panic_ends_the_worker always calling sample_job); [reflexivity..|].
  eapply rtc_l; [apply (step_enqueue always _ "create" "cloudflare" sample_record)|]. apply rtc_once, step_start.
Defined.

End Dns.
