(* ===== verification/Notify.v ===== *)
(** * Notify: notifications ([notifications/module.go], [notifications/provider.go], [notifications/providers.go],
    [notifications/smtp.go])

    The channels with their checks and the requests they make, the mail session as the trace of its
    commands, the module that dispatches alerts, and the draining of sends at shutdown.  The
    outcome of every network operation is an argument, and so is [net/mail]'s address parser. *)

From S2P Require Import Prelude GoStrings GoNet GoUrl Policy Dns.
#[local] Open Scope Z_scope.

Module Notify.

(** ** Web hook addresses *)

(** [strings.EqualFold] against a text of plain letters: two letters outside ASCII fold into it. *)
Definition fold (s : string) : list ascii :=
  map_bytes [([byte 197; byte 191], ["s"%char]); ([byte 226; byte 132; byte 170], ["k"%char])] ascii_lower 0 (bytes s).
Definition EqualFold (s t : string) : bool := bool_decide (fold s = fold t).

(** [url.URL.Hostname] *)
Definition Hostname (host : string) : string :=
  let l := bytes host in
  let l := match last_index ":"%char l with Some i => if GoUrl.valid_optional_port (drop i l) then take i l else l | None => l end in
  match l, last l with
  | "["%char :: r, Some "]"%char => str (take (length r - 1) r)
  | _, _ => str l
  end.

(** [net.IP.IsMulticast] *)
Definition IsMulticast (ip : GoNet.IP) : bool :=
  match GoNet.To4 ip with
  | Some (a :: _) => Z.land a 240 =? 224
  | Some [] => false
  | None => match ip with a :: _ => a =? 255 | [] => false end
  end.

Inductive url_error := URLMissing | URLInvalid | NotHTTPS | NoHostname | IsLocalhost | InternalIP | InternalName.

Definition internal_ip (ip : GoNet.IP) : bool :=
  GoNet.IsPrivate ip || GoNet.IsLoopback ip || GoNet.IsLinkLocalUnicast ip || Dns.IsLinkLocalMulticast ip || IsMulticast ip ||
  bool_decide (GoNet.IP_String ip = "169.254.169.254").

(** src/internal/notifications/providers.go:20-72 validateWebhookURL *)
Definition validateWebhookURL (raw : string) : result url_error unit :=
  if decide (raw = "") then Err URLMissing
  else match GoUrl.Parse raw with
  | None => Err URLInvalid
  | Some u =>
      if negb (bool_decide (GoUrl.Scheme u = "https")) then Err NotHTTPS
      else
        let hostname := Hostname (GoUrl.Host u) in
        if decide (hostname = "") then Err NoHostname
        else if existsb (EqualFold hostname) ["localhost"; "127.0.0.1"; "::1"; "0.0.0.0"; "[::1]"] then Err IsLocalhost
        else if match GoNet.ParseIP hostname with Some ip => internal_ip ip | None => false end then Err InternalIP
        else if existsb (λ n, EqualFold hostname n || HasSuffix (ToLower hostname) ("." +:+ n))
                  ["metadata.google.internal"; "metadata"; "metadata.ec2.internal"] then Err InternalName
        else Ok tt
  end.

(** ** Channels *)

(** src/internal/notifications/smtp.go:31-46 SMTPProvider *)
Record SMTPProvider := {
  Host : string; Port : Z; Username : string; Password : string; From : string; FromName : string; UseTLS : bool;
  InsecureSkipVerify : bool }.

Inductive provider := Slack (url : string) | Discord (url : string) | Telegram (token chat : string) | Email (s : SMTPProvider).

(** src/internal/notifications/providers.go:104 SlackProvider.Name *)
Definition Name (p : provider) : string :=
  match p with Slack _ => "slack" | Discord _ => "discord" | Telegram _ _ => "telegram" | Email _ => "email" end.

(** [html.EscapeString] *)
Definition escape (c : ascii) : list ascii :=
  if decide (c = "<"%char) then bytes "&lt;" else if decide (c = ">"%char) then bytes "&gt;"
  else if decide (c = "&"%char) then bytes "&amp;" else if decide (c = "'"%char) then bytes "&#39;"
  else if decide (c = byte 34) then bytes "&#34;" else [c].
Definition EscapeString (s : string) : string := str (bytes s ≫= escape).

Definition lf : string := str [byte 10].
Definition crlf : string := str [byte 13; byte 10].

Record post := { pURL : string; pText : string; pChat : string }.

(** The request of a chat channel.
    src/internal/notifications/providers.go:114-120 SlackProvider.Send.text *)
Definition slack_post (url subject body : string) : post :=
  {| pURL := url; pText := if decide (body = "") then subject else "*" +:+ subject +:+ "*" +:+ lf +:+ body; pChat := "" |}.

(** src/internal/notifications/providers.go:170-176 DiscordProvider.Send.text *)
Definition discord_post (url subject body : string) : post :=
  {| pURL := url; pText := if decide (body = "") then subject else "**" +:+ subject +:+ "**" +:+ lf +:+ body; pChat := "" |}.

(** src/internal/notifications/providers.go:230-247 TelegramProvider.Send.text *)
Definition telegram_post (token chat recipient subject body : string) : post :=
  {| pURL := "https://api.telegram.org/bot" +:+ token +:+ "/sendMessage";
     pText := if decide (body = "") then EscapeString subject
              else "<b>" +:+ EscapeString subject +:+ "</b>" +:+ lf +:+ EscapeString body;
     pChat := if decide (recipient = "") then chat else recipient |}.

Inductive send_error :=
| Unreachable | Status (n : Z) | TimedOut | RecipientRequired | BadHeader (name : string) | BadRecipient | Delivery (what : string).

(** ** Mail *)

Section Mail.
(** [mail.ParseAddress]: the address as text and its bare form.  [Format] is [mail.Address.String]. *)
Variables (ParseAddress : string → option (string * string)) (Format : string → string → string).

(** src/internal/notifications/smtp.go:151-156 validateSMTPHeaderValue *)
Definition validateSMTPHeaderValue (value : string) : bool :=
  forallb (λ c, negb (bool_decide (c ∈ [byte 13; byte 10; byte 0]))) (bytes value).

(** src/internal/notifications/smtp.go:71-110 SMTPProvider.Validate *)
Definition Validate_smtp (s : SMTPProvider) : bool :=
  negb (bool_decide (Host s = "")) && negb (bool_decide (From s = "")) && bool_decide (is_Some (ParseAddress (From s))) &&
  validateSMTPHeaderValue (FromName s) && negb (negb (bool_decide (Username s = "")) && bool_decide (Password s = "")) &&
  (negb (InsecureSkipVerify s) || bool_decide (Host s ∈ ["localhost"; "127.0.0.1"; "[::1]"]) || HasSuffix (Host s) ".local").

(** src/internal/notifications/smtp.go:114-122 SMTPProvider.defaultPort *)
Definition defaultPort (s : SMTPProvider) : Z := if 0 <? Port s then Port s else if UseTLS s then 465 else 587.

Definition headers (s : SMTPProvider) (to subject format date : string) : list string :=
  ["From: " +:+ (if decide (FromName s = "") then From s else Format (FromName s) (From s));
   "To: " +:+ to;
   "Subject: " +:+ subject;
   "MIME-Version: 1.0";
   "Content-Type: " +:+ (if EqualFold format "html" then "text/html; charset=UTF-8" else "text/plain; charset=UTF-8");
   "Date: " +:+ date].

(** src/internal/notifications/smtp.go:163-185 SMTPProvider.buildMessage *)
Definition buildMessage (s : SMTPProvider) (to subject body format date : string) : string :=
  foldr (λ h acc, h +:+ crlf +:+ acc) (crlf +:+ body) (headers s to subject format date).

(** What the mail server does in one session. *)
Record session := {
  s_dial : bool; s_greet : bool; s_offers_tls : bool; s_tls : bool; s_auth : bool; s_mail : bool; s_rcpt : bool; s_data : bool;
  s_write : bool; s_close : bool; s_quit : bool }.

Inductive command := STARTTLS | AUTH (user pass : string) | MAIL (from : string) | RCPT (to : string) | DATA | BODY (msg : string) | END_ | QUIT.

(** Commands in order, each with its outcome, up to the first that fails. *)
Fixpoint perform (tls : bool) (l : list (command * bool * string)) : list (bool * command) * option string :=
  match l with
  | [] => ([], None)
  | (c, ok, err) :: l =>
      if ok then let '(t, e) := perform (tls || match c with STARTTLS => true | _ => false end) l in ((tls, c) :: t, e)
      else ([(tls, c)], Some err)
  end.

(** The commands with whether the channel was encrypted, and the error.
    src/internal/notifications/smtp.go:189-246 SMTPProvider.deliver *)
Definition deliver (s : SMTPProvider) (recipient msg : string) (w : session) : list (bool * command) * option string :=
  if negb (s_dial w) then ([], Some "smtp dial")
  else if negb (s_greet w) then ([], Some "smtp client")
  else if negb (UseTLS s) && negb (s_offers_tls w) && negb (bool_decide (Username s = "")) then ([], Some "smtp: server does not advertise STARTTLS")
  else perform (UseTLS s)
    ((if negb (UseTLS s) && s_offers_tls w then [(STARTTLS, s_tls w, "smtp STARTTLS")] else []) ++
     (if decide (Username s = "") then [] else [(AUTH (Username s) (Password s), s_auth w, "smtp auth")]) ++
     [(MAIL (From s), s_mail w, "smtp MAIL FROM"); (RCPT recipient, s_rcpt w, "smtp RCPT TO"); (DATA, s_data w, "smtp DATA");
      (BODY msg, s_write w, "smtp body write"); (END_, s_close w, "smtp body close"); (QUIT, s_quit w, "quit")]).

Definition attempted {A} (op : nat → option send_error * A) (cancelled : nat → bool) : result send_error unit * list A :=
  let '(o, waits) := Retry.Retry Retry.DefaultRetryConfig (λ i, match (op i).1 with None => Retry.Done | Some e => Retry.Transient e end) cancelled in
  let n := match o with Retry.Cancelled => length waits | _ => S (length waits) end in
  (match o with
   | Retry.Succeeded => Ok tt
   | Retry.Stopped e | Retry.Exhausted _ e => Err e
   | Retry.Cancelled => Err TimedOut
   end, (λ i, (op i).2) <$> seq 0 n).

(** src/internal/notifications/smtp.go:128-149 SMTPProvider.Send *)
Definition Send_smtp (s : SMTPProvider) (recipient subject body format date : string) (w : nat → session) (cancelled : nat → bool)
  : result send_error unit * list (list (bool * command)) :=
  if decide (recipient = "") then (Err RecipientRequired, [])
  else if negb (validateSMTPHeaderValue recipient) then (Err (BadHeader "recipient"), [])
  else if negb (validateSMTPHeaderValue subject) then (Err (BadHeader "subject"), [])
  else match ParseAddress recipient with
  | None => (Err BadRecipient, [])
  | Some (text, bare) =>
      let msg := buildMessage s text subject body format date in
      attempted (λ i, let '(t, e) := deliver s bare msg (w i) in (Delivery <$> e, t)) cancelled
  end.

(** ** Sending *)

(** The status of each attempt of a post, [None] when it fails; and the mail sessions. *)
Record world := { w_post : post → nat → option Z; w_mail : nat → session; w_cancel : nat → bool; w_date : string }.

(** src/internal/notifications/providers.go:122-139 SlackProvider.Send.post *)
Definition Send_post (fine : Z → bool) (r : post) (w : world) : result send_error unit :=
  (attempted (λ i, (match w_post w r i with
                    | None => Some Unreachable
                    | Some st => if fine st then None else Some (Status st)
                    end, tt)) (w_cancel w)).1.

(** src/internal/core/interfaces.go:252-259 Notification *)
Record Notification := { Channel : string; Recipient : string; Subject : string; Body : string; Format_ : string }.

(** src/internal/notifications/provider.go:11-20 Provider *)
Definition Send_provider (p : provider) (n : Notification) (w : world) : result send_error unit :=
  match p with
  | Slack url => Send_post (λ st, st =? 200) (slack_post url (Subject n) (Body n)) w
  | Discord url => Send_post (λ st, st <? 400) (discord_post url (Subject n) (Body n)) w
  | Telegram token chat => Send_post (λ st, st =? 200) (telegram_post token chat (Recipient n) (Subject n) (Body n)) w
  | Email s => (Send_smtp s (Recipient n) (Subject n) (Body n) (Format_ n) (w_date w) (w_mail w) (w_cancel w)).1
  end.

(** src/internal/core/events.go:494-500 AlertEventData *)
Record AlertEventData := { aName : string; Severity : string; Message : string; Resource : string }.

(** src/internal/notifications/module.go:307-318 Module.dispatchAlert.text *)
Definition alert_notification (d : AlertEventData) (channel : string) : Notification :=
  let icon := if decide (Severity d = "critical") then "[CRITICAL]" else if decide (Severity d = "warning") then "[WARNING]"
              else if decide (Severity d = "info") then "[INFO]" else "[ALERT]" in
  {| Channel := channel; Recipient := ""; Subject := icon +:+ " " +:+ aName d;
     Body := Message d +:+ lf +:+ "Resource: " +:+ Resource d +:+ lf +:+ "Severity: " +:+ Severity d; Format_ := "text" |}.

(** ** Configuration *)

(** src/internal/core/config.go:130-137 NotificationConfig *)
Record NotificationConfig := { SlackWebhook : string; DiscordWebhook : string; TelegramToken : string; TelegramChatID : string; SMTP : SMTPProvider }.

(** The channels that are registered at start-up, by name.
    src/internal/notifications/module.go:70-129 Module.Init *)
Definition Init (cfg : NotificationConfig) : gmap string provider :=
  let add (b : bool) (p : provider) (m : gmap string provider) := if b then <[Name p := p]> m else m in
  let m := add (negb (bool_decide (SlackWebhook cfg = "")) && is_ok (validateWebhookURL (SlackWebhook cfg))) (Slack (SlackWebhook cfg)) ∅ in
  let m := add (negb (bool_decide (DiscordWebhook cfg = "")) && is_ok (validateWebhookURL (DiscordWebhook cfg))) (Discord (DiscordWebhook cfg)) m in
  let m := add (negb (bool_decide (TelegramToken cfg = "")))
             (Telegram (TelegramToken cfg) (if decide (TelegramChatID cfg = "") then "0" else TelegramChatID cfg)) m in
  add (negb (bool_decide (Host (SMTP cfg) = "")) && Validate_smtp (SMTP cfg)) (Email (SMTP cfg)) m.

(** src/internal/notifications/module.go:200-214 Module.Health *)
Definition healthy (cfg : NotificationConfig) : bool :=
  let wanted := negb (bool_decide (SlackWebhook cfg = "")) || negb (bool_decide (DiscordWebhook cfg = "")) ||
                negb (bool_decide (TelegramToken cfg = "")) || negb (bool_decide (Host (SMTP cfg) = "")) in
  negb (wanted && bool_decide (Init cfg = ∅)).

(** ** The module *)

Inductive event := NSent (channel recipient subject : string) | NFailed (channel recipient subject : string) (e : send_error).

(** What a provider does when it is called. *)
Inductive effect := Returns (r : result send_error unit) | Panics.

(** [inFlight] are the accepted sends.
    src/internal/notifications/module.go:40-57 Module *)
Record Module_ := { providers : gmap string provider; closed : bool; wg : Z; inFlight : list Notification; events : list event }.

(** src/internal/notifications/module.go:222-234 Module.Send.accept *)
Definition accept (m : Module_) (n : Notification) : option Module_ :=
  if closed m then None
  else Some {| providers := providers m; closed := closed m; wg := wg m + 1; inFlight := inFlight m ++ [n]; events := events m |}.

(** The rest of a send: the call of the provider, its event and the end.
    src/internal/notifications/module.go:222-283 Module.Send *)
Definition complete (m : Module_) (i : nat) (x : effect) : Module_ :=
  match inFlight m !! i with
  | None => m
  | Some n =>
      let ev := match providers m !! Channel n, x with
                | Some _, Returns (Ok _) => [NSent (Channel n) (Recipient n) (Subject n)]
                | Some _, Returns (Err e) => [NFailed (Channel n) (Recipient n) (Subject n) e]
                | _, _ => []
                end in
      {| providers := providers m; closed := closed m; wg := wg m - 1; inFlight := delete i (inFlight m); events := events m ++ ev |}
  end.

(** src/internal/notifications/module.go:162-189 Module.Stop *)
Definition Stop (m : Module_) : Module_ :=
  {| providers := providers m; closed := true; wg := wg m; inFlight := inFlight m; events := events m |}.

Inductive step : Module_ → Module_ → Prop :=
| step_accept m n m' : accept m n = Some m' → step m m'
| step_complete m i n x : inFlight m !! i = Some n → step m (complete m i x)
| step_stop m : step m (Stop m).

Definition fresh (ps : gmap string provider) : Module_ := {| providers := ps; closed := false; wg := 0; inFlight := []; events := [] |}.

End Mail.
(** ** Passwords *)

Definition is_auth (c : command) : bool := match c with AUTH _ _ => true | _ => false end.

(** Once the channel is encrypted, every later command is. *)
Lemma perform_encrypted l t c : (t, c) ∈ (perform true l).1 → t = true.
Proof.
  induction l as [|[[c' ok] err] l IH]; cbn [perform]; [by intros H%elem_of_nil|]. destruct ok.
  - cbn [orb]. destruct (perform true l) as [tr e]. cbn [fst] in *. intros [[= -> ->]|H]%elem_of_cons; [done|by apply IH].
  - by intros [= -> ->]%list_elem_of_singleton.
Qed.

Lemma perform_commands tls l t c : (t, c) ∈ (perform tls l).1 → c ∈ l.*1.*1.
Proof.
  revert tls. induction l as [|[[c' ok] err] l IH]; intros tls; cbn [perform]; [by intros H%elem_of_nil|]. rewrite !fmap_cons. destruct ok.
  - destruct (perform _ l) as [tr e] eqn:E. cbn [fst]. intros [[= -> ->]|H]%elem_of_cons; [left|right]. eapply IH. rewrite E. exact H.
  - intros [= -> ->]%list_elem_of_singleton. left.
Qed.

Lemma perform_starttls ok err l t c : (t, c) ∈ (perform false ((STARTTLS, ok, err) :: l)).1 → c = STARTTLS ∨ t = true.
Proof.
  cbn [perform orb]. destruct ok; [|intros [= -> ->]%list_elem_of_singleton; by left].
  destruct (perform true l) as [tr e] eqn:E. cbn [fst]. intros [[= -> ->]|H]%elem_of_cons; [by left|right].
  eapply perform_encrypted. rewrite E. exact H.
Qed.

(** The password is only ever sent over an encrypted channel, whatever the server offers or refuses. *)
Theorem password_needs_tls s recipient msg w t user pass :
  (t, AUTH user pass) ∈ (deliver s recipient msg w).1 → t = true.
Proof.
  unfold deliver. destruct (negb (s_dial w)); [by intros H%elem_of_nil|]. destruct (negb (s_greet w)); [by intros H%elem_of_nil|].
  destruct (negb (UseTLS s) && negb (s_offers_tls w) && negb (bool_decide (Username s = ""))) eqn:Hp; [by intros H%elem_of_nil|].
  destruct (UseTLS s) eqn:Hu; [apply perform_encrypted|]. destruct (s_offers_tls w) eqn:Ho.
  - cbn [negb andb app]. by intros [?|?]%perform_starttls.
  - cbn [negb andb] in Hp. apply negb_false_iff, bool_decide_eq_true in Hp. rewrite decide_True by done. cbn [negb andb app].
    intros H%perform_commands. exfalso. cbn in H. set_solver.
Qed.

(** ** Headers *)

(** Text without line breaks. *)
Definition one_line (s : string) : Prop := ∀ c, c ∈ bytes s → c ≠ byte 13 ∧ c ≠ byte 10.

Lemma one_line_app s t : one_line s → one_line t → one_line (s +:+ t).
Proof. intros Hs Ht c. rewrite bytes_app. intros [?|?]%elem_of_app; auto. Qed.

Lemma checked_one_line s : validateSMTPHeaderValue s = true → one_line s.
Proof.
  unfold validateSMTPHeaderValue. rewrite forallb_forall. intros H c Hc. apply list_elem_of_In, H, negb_true_iff, bool_decide_eq_false in Hc. set_solver.
Qed.

Lemma literal_one_line s : forallb (λ c, negb (bool_decide (c ∈ [byte 13; byte 10]))) (bytes s) = true → one_line s.
Proof. rewrite forallb_forall. intros H c Hc. apply list_elem_of_In, H, negb_true_iff, bool_decide_eq_false in Hc. set_solver. Qed.

Section Headers.
Variables (ParseAddress : string → option (string * string)) (Format : string → string → string).
(** The parser takes one line, and an address is formatted on one line. *)
Hypothesis parsed : ∀ a text bare, ParseAddress a = Some (text, bare) → one_line a ∧ one_line text.
Hypothesis formatted : ∀ name a, one_line (Format name a).

(** The mail that a send delivers has six header lines and then the body: neither the recipient, the
    subject nor the sender can start another header. *)
Theorem mail_has_six_headers s recipient subject body format date w cancelled t tls msg :
  Validate_smtp ParseAddress s = true → one_line date →
  t ∈ (Send_smtp ParseAddress Format s recipient subject body format date w cancelled).2 → (tls, BODY msg) ∈ t →
  ∃ hs, length hs = 6%nat ∧ Forall one_line hs ∧ msg = foldr (λ h acc, h +:+ crlf +:+ acc) (crlf +:+ body) hs.
Proof.
  intros Hv Hd. unfold Send_smtp. destruct (decide (recipient = "")); [by intros H%elem_of_nil|].
  destruct (negb (validateSMTPHeaderValue recipient)); [by intros H'%elem_of_nil|].
  destruct (validateSMTPHeaderValue subject) eqn:Hs; [|by intros H'%elem_of_nil]. cbn [negb].
  destruct (ParseAddress recipient) as [[text bare]|] eqn:Hp; [|by intros H'%elem_of_nil].
  unfold attempted. destruct (Retry.Retry _ _ _) as [o waits]. cbn [snd]. intros (i & -> & _)%list_elem_of_fmap Hb.
  destruct (deliver s bare _ (w i)) as [tr e] eqn:E. cbn [snd] in Hb.
  assert (msg = buildMessage Format s text subject body format date) as ->.
  { apply (f_equal fst) in E. cbn [fst] in E. rewrite <- E in Hb. clear -Hb. unfold deliver in Hb.
    destruct (negb (s_dial _)); [by apply elem_of_nil in Hb|]. destruct (negb (s_greet _)); [by apply elem_of_nil in Hb|].
    destruct (_ && _); [by apply elem_of_nil in Hb|]. apply perform_commands in Hb. rewrite !fmap_app in Hb.
    destruct (negb (UseTLS s) && s_offers_tls (w i)), (decide (Username s = "")); cbn in Hb; set_solver. }
  exists (headers Format s text subject format date). split; [done|]. split; [|done].
  assert (one_line (From s)) as Hf.
  { unfold Validate_smtp in Hv. repeat rewrite andb_true_iff in Hv. destruct Hv as (((((_ & _) & Ha) & _) & _) & _).
    apply bool_decide_eq_true in Ha as [[tx br] Ha]. by apply parsed in Ha as [? _]. }
  repeat apply Forall_cons_2; [..|apply Forall_nil_2]; repeat apply one_line_app; try (by apply literal_one_line); try done.
  - by case_decide.
  - by apply parsed in Hp as [_ ?].
  - by apply checked_one_line.
  - destruct (EqualFold format "html"); by apply literal_one_line.
Qed.

End Headers.

(** ** Alerts *)

(** An alert never reaches a mailbox: it is sent without a recipient, which the mail channel refuses. *)
Theorem alerts_are_never_mailed ParseAddress Format s d w :
  Send_provider ParseAddress Format (Email s) (alert_notification d "email") w = Err RecipientRequired.
Proof. done. Qed.

(** ** Addresses of web hooks *)

(** A web hook that was accepted is reached over TLS, and when its host is an address, it is neither
    private, local nor multicast. *)
Theorem webhooks_are_public raw :
  validateWebhookURL raw = Ok tt →
  ∃ u, GoUrl.Parse raw = Some u ∧ GoUrl.Scheme u = "https" ∧ Hostname (GoUrl.Host u) ≠ "" ∧
    ∀ ip, GoNet.ParseIP (Hostname (GoUrl.Host u)) = Some ip →
      GoNet.IsPrivate ip = false ∧ GoNet.IsLoopback ip = false ∧ GoNet.IsLinkLocalUnicast ip = false ∧ IsMulticast ip = false.
Proof.
  unfold validateWebhookURL. destruct (decide (raw = "")); [done|]. destruct (GoUrl.Parse raw) as [u|]; [|done].
  case_bool_decide as Hs; [|done]. cbn [negb]. destruct (decide (Hostname (GoUrl.Host u) = "")) as [|Hn]; [done|].
  destruct (existsb _ ["localhost"; _; _; _; _]); [done|]. destruct (GoNet.ParseIP _) as [ip|] eqn:Hip.
  - destruct (internal_ip ip) eqn:Hi; [done|]. intros _. exists u. split_and!; try done. intros ip' E. rewrite Hip in E. injection E as <-.
    unfold internal_ip in Hi. repeat rewrite orb_false_iff in Hi. naive_solver.
  - intros _. exists u. split_and!; try done. intros ip' E. congruence.
Qed.

(** ** Telegram *)

Lemma escape_plain c x : x ∈ escape c → x ≠ "<"%char ∧ x ≠ ">"%char.
Proof.
  revert x. apply Forall_forall. unfold escape. repeat case_decide; try (apply (bool_decide_eq_true_1 _); reflexivity).
  by apply Forall_singleton.
Qed.

(** The text of a notification cannot bring markup of its own into a message. *)
Theorem telegram_text_is_escaped s c : c ∈ bytes (EscapeString s) → c ≠ "<"%char ∧ c ≠ ">"%char.
Proof. unfold EscapeString. rewrite bytes_str. intros (x & Hx & _)%list_elem_of_bind. by eapply escape_plain. Qed.

(** ** Shutdown *)

Record module_ok (m : Module_) : Prop := { m_wg : wg m = Z.of_nat (length (inFlight m)) }.

Lemma module_step m m' : module_ok m → step m m' → module_ok m'.
Proof.
  intros [Hw] Hs. destruct Hs as [m n m' Ha|m i n x Hi|m].
  - unfold accept in Ha. destruct (closed m); [done|]. injection Ha as <-. split. cbn. rewrite length_app. cbn. lia.
  - unfold complete. rewrite Hi. split. cbn [wg inFlight]. rewrite length_delete by eauto. apply lookup_lt_Some in Hi. lia.
  - by split.
Qed.

Lemma module_steps m m' : rtc step m m' → module_ok m → module_ok m'.
Proof. induction 1 as [|m m1 m' H1 _ IH]; intros Hm; [done|]. by eapply IH, module_step. Qed.

Lemma empty_step m m' : closed m = true → inFlight m = [] → step m m' → closed m' = true ∧ inFlight m' = [] ∧ events m' = events m.
Proof.
  intros Hc Hi Hs. destruct Hs as [m n m' Ha|m i n x Hx|m]; [|rewrite Hi in Hx; done|done]. unfold accept in Ha. by rewrite Hc in Ha.
Qed.

(** When the shutdown has waited for the accepted sends, no notification is on its way and none is ever
    sent again: no provider is called and no event about one is published. *)
Theorem stopped_module_sends_nothing ps m m' :
  rtc step (fresh ps) m → closed m = true → wg m = 0 → rtc step m m' → inFlight m' = [] ∧ events m' = events m.
Proof.
  intros Hr Hc Hz Hs. assert (inFlight m = []) as Hi.
  { destruct (module_steps (fresh ps) m Hr ltac:(by split)) as [Hw]. apply length_zero_iff_nil. lia. }
  clear Hz Hr. revert Hc Hi. induction Hs as [|m m1 m' H1 _ IH]; intros Hc Hi; [done|].
  destruct (empty_step m m1 Hc Hi H1) as (Hc1 & Hi1 & <-). by apply IH.
Qed.

(** ** Examples *)

(** A parser that takes every text of one line with an at sign. *)
Definition sample_parse (a : string) : option (string * string) :=
  if forallb (λ c, negb (bool_decide (c ∈ [byte 13; byte 10]))) (bytes a) && bool_decide ("@"%char ∈ bytes a) then Some ("<" +:+ a +:+ ">", a) else None.
Definition sample_format (name a : string) : string := "formatted".

Lemma sample_parsed a text bare : sample_parse a = Some (text, bare) → one_line a ∧ one_line text.
Proof.
  unfold sample_parse. destruct (forallb _ _) eqn:E; [|done]. cbn [andb]. case_bool_decide; [|done]. intros [= <- <-].
  apply literal_one_line in E. split; [done|]. repeat apply one_line_app; [by apply literal_one_line|done|by apply literal_one_line].
Qed.

Definition relay : SMTPProvider :=
  {| Host := "mail.example.com"; Port := 0; Username := "u"; Password := "p"; From := "dm@example.com"; FromName := "Deploy"; UseTLS := false;
     InsecureSkipVerify := false |}.
Definition obliging : session :=
  {| s_dial := true; s_greet := true; s_offers_tls := true; s_tls := true; s_auth := true; s_mail := true; s_rcpt := true; s_data := true;
     s_write := true; s_close := true; s_quit := true |}.

Lemma password_needs_tls_witness : (true, AUTH "u" "p") ∈ (deliver relay "a@b" "m" obliging).1 ∧ true = true.
Proof.
  assert ((true, AUTH "u" "p") ∈ (deliver relay "a@b" "m" obliging).1) as H by (vm_compute; right; left).
  split; [exact H|]. exact (password_needs_tls relay "a@b" "m" obliging true "u" "p" H).
Defined.

Lemma mail_has_six_headers_witness :
  ∃ hs, length hs = 6%nat ∧ Forall one_line hs ∧
    buildMessage sample_format relay "<a@b>" "hi" "text" "text" "today" = foldr (λ h acc, h +:+ crlf +:+ acc) (crlf +:+ "text") hs.
Proof.
  refine (mail_has_six_headers sample_parse sample_format sample_parsed _ relay "a@b" "hi" "text" "text" "today" (λ _, obliging) (λ _, false)
    (deliver relay "a@b" (buildMessage sample_format relay "<a@b>" "hi" "text" "text" "today") obliging).1 true _ eq_refl _ _ _).
  - intros name a. by apply literal_one_line.
  - by apply literal_one_line.
  - left.
  - do 5 right. left.
Defined.

Lemma webhooks_are_public_witness :
  ∃ u, GoUrl.Parse "https://hooks.slack.com/services/x" = Some u ∧ GoUrl.Scheme u = "https".
Proof.
  destruct (webhooks_are_public "https://hooks.slack.com/services/x" eq_refl) as (u & Hu & Hs & _). exists u. split; [exact Hu|exact Hs].
Defined.

Example webhook_urls :
  validateWebhookURL <$>
    ["https://hooks.slack.com/x"; "http://hooks.slack.com/x"; "https://LOCALHOST/"; "https://[::1]:8443/"; "https://10.0.0.1/"; "https://metadata/";
     "https://x.metadata.google.internal/"; "https://[::]/"; "https://127.1/"] =
  [Ok tt; Err NotHTTPS; Err IsLocalhost; Err IsLocalhost; Err InternalIP; Err InternalName; Err InternalName; Ok tt; Ok tt].
Proof. vm_compute. reflexivity. Qed.

Lemma telegram_text_is_escaped_witness : EscapeString "<b>" = "&lt;b&gt;" ∧ "b"%char ≠ "<"%char.
Proof.
  split; [reflexivity|]. refine (proj1 (telegram_text_is_escaped "<b>" "b"%char _)). vm_compute. do 4 right. left.
Defined.

Definition sample_note : Notification := {| Channel := "slack"; Recipient := ""; Subject := "s"; Body := "b"; Format_ := "text" |}.
Definition slack_only : gmap string provider := {["slack" := Slack "https://hooks.slack.com/x"]}.
Definition busy : Module_ := default (fresh slack_only) (accept (fresh slack_only) sample_note).
Definition finished : Module_ := complete (Stop busy) 0 (Returns (Ok tt)).

Lemma stopped_module_sends_nothing_witness : events finished = [NSent "slack" "" "s"] ∧ inFlight finished = [].
Proof.
  split; [reflexivity|]. refine (proj1 (stopped_module_sends_nothing slack_only finished finished _ eq_refl eq_refl (rtc_refl _ _))).
  eapply rtc_l; [by apply (step_accept _ sample_note)|]. eapply rtc_l; [apply step_stop|]. apply rtc_once. by eapply step_complete.
Defined.

End Notify.
