(* ===== verification/Market.v ===== *)
(** * Market: the template registry ([marketplace/registry.go], [marketplace/source.go], [marketplace/validator.go],
    [marketplace/module.go])

    Templates with their validation, the registry with its refresh from upstream sources, and the
    removal of weak secrets from a template's compose text.  The regular expressions are scanners
    over bytes; the YAML parser is an argument. *)

From S2P Require Import Prelude GoStrings.
#[local] Open Scope Z_scope.

Module Market.

(** ** Templates *)

(** src/internal/marketplace/registry.go:10-24 Template *)
Record Template := {
  Slug : string; Name : string; Description : string; Category : string; Tags : list string; Author : string; Version : string;
  ComposeYAML : string; CPUMB : Z; MemoryMB : Z; DiskMB : Z }.

Definition with_yaml (t : Template) (y : string) : Template :=
  {| Slug := Slug t; Name := Name t; Description := Description t; Category := Category t; Tags := Tags t; Author := Author t;
     Version := Version t; ComposeYAML := y; CPUMB := CPUMB t; MemoryMB := MemoryMB t; DiskMB := DiskMB t |}.

(** ** Weak secrets *)

Definition weak_values : list string :=
  ["activepieces"; "admin"; "authentik"; "authelia"; "baserow"; "bookstack"; "change-this"; "change-this-key"; "change-this-secret";
   "change-this-too"; "changeme"; "ghostfolio"; "huginn"; "immich"; "keycloak"; "masterkey123"; "matomo"; "medusa"; "minioadmin"; "mmuser";
   "nocodb"; "outline"; "paperless"; "penpot"; "photoprism"; "please-change-me"; "projectsend"; "rootpass"; "seafile"; "sylius"; "trigger";
   "umami"; "wiki"; "zulip"].

(** src/internal/marketplace/registry.go:281-297 isWeakTemplateSecretDefault *)
Definition isWeakTemplateSecretDefault (value : string) : bool := bool_decide (ToLower (TrimSpace value) ∈ weak_values).

(** src/internal/marketplace/registry.go:249-257 isSensitiveTemplateEnvKey *)
Definition isSensitiveTemplateEnvKey (key : string) : bool :=
  let upper := ToUpper key in
  existsb (GoStrings.Contains upper) ["PASSWORD"; "PASS"; "PWD"; "SECRET"; "TOKEN"; "SALT"] || bool_decide (upper = "KEY") || HasSuffix upper "_KEY".

(** src/internal/marketplace/registry.go:259-279 sensitiveTemplatePlaceholder *)
Definition sensitiveTemplatePlaceholder (key : string) : string :=
  let has := GoStrings.Contains (ToUpper key) in
  if has "ROOT_PASSWORD" then "${DB_ROOT_PASSWORD}"
  else if has "DB" || has "DATABASE" || has "POSTGRES" || has "MYSQL" || has "MARIADB" then "${DB_PASSWORD}"
  else if has "ADMIN_PASSWORD" then "${ADMIN_PASSWORD}"
  else if has "JWT" then "${JWT_SECRET}"
  else if has "SECRET_KEY" then "${SECRET_KEY}"
  else "${" +:+ key +:+ "}".

Definition key_start (c : ascii) : bool := let n := Ascii.nat_of_ascii c in ((65 <=? n) && (n <=? 90) || (97 <=? n) && (n <=? 122) || (n =? 95))%nat.
Definition key_char (c : ascii) : bool := let n := Ascii.nat_of_ascii c in key_start c || ((48 <=? n) && (n <=? 57))%nat.

(** src/internal/marketplace/registry.go:231-247 isTemplateEnvKey *)
Definition isTemplateEnvKey (key : string) : bool :=
  match bytes key with [] => false | c :: r => key_start c && forallb key_char r end.

(** *** Scanners for the regular expressions *)

(** The leading bytes of a class, and the rest. *)
Fixpoint span (p : ascii → bool) (l : list ascii) : list ascii * list ascii :=
  match l with
  | [] => ([], [])
  | c :: r => if p c then let '(a, b) := span p r in (c :: a, b) else ([], l)
  end.

Definition strip (pre l : list ascii) : option (list ascii) := if decide (pre `prefix_of` l) then Some (drop (length pre) l) else None.

(** [ReplaceAllStringFunc]: leftmost matches that do not overlap. [m] is a match at the start of a text, with
    its length and what replaces it. *)
Fixpoint replace_all (m : list ascii → option (nat * list ascii)) (skip : nat) (l : list ascii) : list ascii :=
  match l with
  | [] => []
  | c :: r =>
      match skip with
      | S k => replace_all m k r
      | O => match m l with Some (n, out) => out ++ replace_all m (n - 1) r | None => c :: replace_all m 0 r end
      end
  end.

Definition is_white (c : ascii) : bool := bool_decide (c ∈ [byte 9; byte 10; byte 12; byte 13; byte 32]).
Definition quote (c : ascii) : bool := bool_decide (c ∈ [byte 34; byte 39]).

(** src/internal/marketplace/registry.go:125 composeDefaultExpr *)
Definition composeDefaultExpr (l : list ascii) : option (list ascii * list ascii * nat) :=
  r ← strip (bytes "${") l;
  let '(key, r) := span key_char r in
  match key with
  | [] => None
  | c :: _ =>
      if key_start c then
        r ← strip (bytes ":-") r;
        let '(value, r) := span (λ c, negb (bool_decide (c = "}"%char))) r in
        match r with [] => None | _ :: _ => Some (key, value, (length key + length value + 5)%nat) end
      else None
  end.

(** src/internal/marketplace/registry.go:126 composeURLPasswordExpr *)
Definition composeURLPasswordExpr (l : list ascii) : option (list ascii * list ascii * nat) :=
  r ← strip (bytes "://") l;
  let '(user, r) := span (λ c, negb (is_white c || bool_decide (c ∈ bytes ":/@"))) r in
  r ← (if decide (user = []) then None else strip [":"%char] r);
  let '(pass, r) := span (λ c, negb (is_white c || quote c || bool_decide (c ∈ bytes "@/"))) r in
  match pass, r with
  | _ :: _, "@"%char :: _ => Some (bytes "://" ++ user ++ [":"%char], pass, (length user + length pass + 5)%nat)
  | _, _ => None
  end.

(** src/internal/marketplace/registry.go:127 composeQueryPasswordExpr *)
Definition composeQueryPasswordExpr (l : list ascii) : option (list ascii * list ascii * nat) :=
  match l with
  | c :: r =>
      if bool_decide (c = "?"%char ∨ c = "&"%char) then
        let '(name, r) := span (λ c, negb (bool_decide (c = "="%char))) r in
        match r with
        | [] => None
        | _ :: r =>
            if bool_decide (str name ∈ ["p"; "pass"; "password"; "pwd"]) then
              match span (λ c, negb (is_white c || quote c || bool_decide (c = "&"%char))) r with
              | (v :: vs, _) => Some (c :: name ++ ["="%char], v :: vs, (length name + 2 + S (length vs))%nat)
              | ([], _) => None
              end
            else None
        end
      else None
  | [] => None
  end.

Definition default_match (l : list ascii) : option (nat * list ascii) :=
  match composeDefaultExpr l with
  | Some (key, value, n) =>
      if isSensitiveTemplateEnvKey (str key) && isWeakTemplateSecretDefault (str value)
      then Some (n, bytes "${" ++ key ++ bytes "}") else Some (n, take n l)
  | None => None
  end.

Definition url_match (l : list ascii) : option (nat * list ascii) :=
  match composeURLPasswordExpr l with
  | Some (pre, pass, n) => if isWeakTemplateSecretDefault (str pass) then Some (n, pre ++ bytes "${DB_PASSWORD}@") else Some (n, take n l)
  | None => None
  end.

Definition query_match (l : list ascii) : option (nat * list ascii) :=
  match composeQueryPasswordExpr l with
  | Some (pre, pass, n) => if isWeakTemplateSecretDefault (str pass) then Some (n, pre ++ bytes "${DB_PASSWORD}") else Some (n, take n l)
  | None => None
  end.

(** *** Lines *)

(** src/internal/marketplace/registry.go:220-229 splitLineEnding *)
Definition splitLineEnding (line : list ascii) : list ascii * list ascii :=
  if decide ([byte 13; byte 10] `suffix_of` line) then (take (length line - 2) line, [byte 13; byte 10])
  else if decide ([byte 10] `suffix_of` line) then (take (length line - 1) line, [byte 10])
  else (line, []).

Definition blanks : list ascii := [byte 32; byte 9].

(** [strings.Trim(s, cutset)] *)
Definition trim_set (cutset l : list ascii) : list ascii := reverse (drop_set cutset (reverse (drop_set cutset l))).

(** The key of a line that gives a sensitive key a weak value.
    src/internal/marketplace/registry.go:192-218 weakSensitiveScalarDefault *)
Definition weakSensitiveScalarDefault (line : list ascii) : option string :=
  let '(body, _) := splitLineEnding line in
  let trimmed := drop_set blanks body in
  match trimmed with
  | [] => None
  | c :: _ =>
      if decide (c = "#"%char) then None
      else match index_of [":"%char] trimmed with
      | None | Some O => None
      | Some i =>
          let key := TrimSpace (str (take i trimmed)) in
          if negb (isTemplateEnvKey key) || negb (isSensitiveTemplateEnvKey key) then None
          else
            let value := TrimSpace (str (drop (S i) trimmed)) in
            if bool_decide (value = "") || GoStrings.Contains value "${" then None
            else
              let value := match Index value "#" with Some j => TrimSpace (str (take j (bytes value))) | None => value end in
              if isWeakTemplateSecretDefault (str (trim_set [byte 34; byte 39] (bytes value))) then Some key else None
      end
  end.

Definition sanitize_line (line : list ascii) : list ascii :=
  match weakSensitiveScalarDefault line with
  | None => line
  | Some key =>
      let '(body, newline) := splitLineEnding line in
      match index_of [":"%char] body with
      | None => line
      | Some colon =>
          let after := drop (S colon) body in
          take (S colon) body ++ take (length after - length (drop_set blanks after)) after ++ bytes (sensitiveTemplatePlaceholder key) ++ newline
      end
  end.

(** [strings.SplitAfter(s, "\n")] *)
Fixpoint split_after (acc l : list ascii) : list (list ascii) :=
  match l with
  | [] => [acc]
  | c :: r => if decide (c = byte 10) then (acc ++ [c]) :: split_after [] r else split_after (acc ++ [c]) r
  end.

(** src/internal/marketplace/registry.go:173-190 sanitizeSensitiveScalarDefaults *)
Definition sanitizeSensitiveScalarDefaults (l : list ascii) : list ascii := concat (sanitize_line <$> split_after [] l).

(** src/internal/marketplace/registry.go:131-171 sanitizeTemplate *)
Definition sanitizeTemplate (t : Template) : Template :=
  with_yaml t (str (replace_all query_match 0 (replace_all url_match 0
    (sanitizeSensitiveScalarDefaults (replace_all default_match 0 (bytes (ComposeYAML t))))))).

(** ** Validation *)

(** src/internal/marketplace/validator.go:39-53 composeSvc *)
Record composeSvc := { Image : string; Build : bool; Ports : list string; Volumes : list string }.

(** Services by name, [None] for an empty definition, and the declared volumes.
    src/internal/marketplace/validator.go:32-37 composeDoc *)
Record composeDoc := { Services : list (string * option composeSvc); dVolumes : list string }.

Inductive issue :=
| Empty (field : string) | TooLarge | Negative (field : string) | NotYAML | NoServices
| EmptyService (s : string) | NoImage (s : string) | EmptyVolume (s : string) | MalformedVolume (s v : string) | Undeclared (s v : string)
| EmptyPort (s : string) | BadPort (s p : string).

Definition port_char (c : ascii) : bool := let n := Ascii.nat_of_ascii c in ((48 <=? n) && (n <=? 57))%nat || bool_decide (c ∈ bytes ":.-").

(** src/internal/marketplace/validator.go:213-237 looksLikePort *)
Definition looksLikePort (p : string) : bool :=
  let p := bytes (TrimSpace p) in
  if decide (p = []) then false
  else match last_index "/"%char p with
  | Some i => bool_decide (str (drop (S i) p) ∈ ["tcp"; "udp"; "sctp"]) && forallb port_char (take i p)
  | None => forallb port_char p
  end.

Definition is_bind (v : string) : bool := existsb (HasPrefix v) ["/"; "."; "~"; "${"; "$("].
Definition volume_name (v : string) : string := match Index v ":" with Some i => str (take i (bytes v)) | None => v end.

Definition blank (s : string) : bool := bool_decide (TrimSpace s = "").

(** src/internal/marketplace/validator.go:163-187 ValidateTemplate.volumes *)
Definition volume_issues (declared : list string) (s v : string) : list issue :=
  if decide (v = "") then [EmptyVolume s]
  else if is_bind v then []
  else if decide (volume_name v = "") then [MalformedVolume s v]
  else if bool_decide (volume_name v ∈ declared) then [] else [Undeclared s (volume_name v)].

Definition port_issues (s p : string) : list issue := if blank p then [EmptyPort s] else if looksLikePort p then [] else [BadPort s p].

(** src/internal/marketplace/validator.go:150-201 ValidateTemplate.service *)
Definition service_issues (declared : list string) (x : string * option composeSvc) : list issue :=
  match x with
  | (s, None) => [EmptyService s]
  | (s, Some c) =>
      (if blank (Image c) && negb (Build c) then [NoImage s] else []) ++ (Volumes c ≫= volume_issues declared s) ++ (Ports c ≫= port_issues s)
  end.

Definition check (b : bool) (i : issue) : list issue := if b then [i] else [].

(** src/internal/marketplace/validator.go:87-121 ValidateTemplate.metadata *)
Definition metadata_issues (t : Template) : list issue :=
  check (blank (Slug t)) (Empty "slug") ++ check (blank (Name t)) (Empty "name") ++ check (blank (Description t)) (Empty "description") ++
  check (blank (Category t)) (Empty "category") ++ check (blank (Author t)) (Empty "author") ++ check (blank (Version t)) (Empty "version") ++
  (if blank (ComposeYAML t) then [Empty "compose_yaml"] else check (1048576 <? Z.of_nat (slen (ComposeYAML t))) TooLarge) ++
  check (MemoryMB t <? 0) (Negative "memory_mb") ++ check (DiskMB t <? 0) (Negative "disk_mb") ++ check (CPUMB t <? 0) (Negative "cpu_mb").

Section Registry.
(** [yaml.Unmarshal] into a compose document. *)
Variable Unmarshal : string → option composeDoc.

(** Every issue that is found; none is a valid template.
    src/internal/marketplace/validator.go:77-207 ValidateTemplate *)
Definition ValidateTemplate (t : Template) : list issue :=
  let meta := metadata_issues t in
  if blank (ComposeYAML t) then meta
  else match Unmarshal (ComposeYAML t) with
  | None => meta ++ [NotYAML]
  | Some d => if decide (Services d = []) then meta ++ [NoServices] else meta ++ (Services d ≫= service_issues (dVolumes d))
  end.

Definition valid (t : Template) : bool := bool_decide (ValidateTemplate t = []).

(** ** The registry *)

Abbreviation TemplateRegistry := (gmap string Template).

(** src/internal/marketplace/registry.go:45-52 TemplateRegistry.Add *)
Definition Add (r : TemplateRegistry) (t : option Template) : TemplateRegistry :=
  match t with Some t => <[Slug t := sanitizeTemplate t]> r | None => r end.

(** src/internal/marketplace/registry.go:69-80 TemplateRegistry.List *)
Definition List_ (r : TemplateRegistry) (category : string) : list Template :=
  filter (λ t, category = "" ∨ Category t = category) (map_to_list r).*2.

(** src/internal/marketplace/registry.go:83-97 TemplateRegistry.Search *)
Definition Search (r : TemplateRegistry) (query : string) : list Template :=
  let q := ToLower query in
  filter (λ t, GoStrings.Contains (ToLower (Name t)) q || GoStrings.Contains (ToLower (Description t)) q ||
               existsb (λ g, GoStrings.Contains (ToLower g) q) (Tags t) = true) (map_to_list r).*2.

(** src/internal/marketplace/source.go:27-34 UpdateResult *)
Record UpdateResult := { Added : nat; Updated : nat; Rejected : nat; Total : nat }.

Inductive update_error := FetchFailed | NoTemplates | AllInvalid.

(** The valid templates of a feed, the last of a slug winning.
    src/internal/marketplace/source.go:65-80 TemplateRegistry.Update.stage *)
Definition stage (fetched : list (option Template)) : TemplateRegistry :=
  foldl (λ m t, match t with Some t => if valid t then <[Slug t := t]> m else m | None => m end) ∅ fetched.

(** src/internal/marketplace/source.go:47-100 TemplateRegistry.Update *)
Definition Update (r : TemplateRegistry) (fetched : option (list (option Template))) : TemplateRegistry * result update_error UpdateResult :=
  match fetched with
  | None => (r, Err FetchFailed)
  | Some [] => (r, Err NoTemplates)
  | Some l =>
      let staged := stage l in
      if decide (staged = ∅) then (r, Err AllInvalid)
      else (staged ∪ r,
            Ok {| Added := size (filter (λ x, r !! x.1 = None) staged); Updated := size (filter (λ x, is_Some (r !! x.1)) staged);
                  Rejected := length (filter (λ t, match t with Some t => valid t | None => false end = false) l); Total := length l |})
  end.

(** The outcome of each source in turn.
    src/internal/marketplace/module.go:62-89 Module.UpdateTemplates *)
Definition UpdateTemplates (r : TemplateRegistry) (sources : list (option (list (option Template)))) : TemplateRegistry :=
  foldl (λ r f, (Update r f).1) r sources.

(** The inner loop: an item moves left past greater ones.  The sorted part is kept reversed. *)
Fixpoint sink (x : Template) (sorted : list Template) : list Template :=
  match sorted with
  | [] => [x]
  | y :: ys => if String.ltb (Slug x) (Slug y) then y :: sink x ys else x :: sorted
  end.

(** src/internal/marketplace/validator.go:252-282 TemplateRegistry.ValidateAll *)
Definition ValidateAll (r : TemplateRegistry) : list (string * list issue) :=
  (λ t, (Slug t, ValidateTemplate t)) <$> reverse (foldl (λ acc x, sink x acc) [] (map_to_list r).*2).

End Registry.
(** ** Refreshing *)

Section Refresh.
Variable Unmarshal : string → option composeDoc.

(** The last valid template of a slug in a feed. *)
Definition offered (slug : string) (l : list (option Template)) : option Template :=
  last (filter (λ t, valid Unmarshal t = true ∧ Slug t = slug) (omap id l)).

Lemma stage_from (m : gmap string Template) l slug :
  foldl (λ m t, match t with Some t => if valid Unmarshal t then <[Slug t := t]> m else m | None => m end) m l !! slug =
  match offered slug l with Some t => Some t | None => m !! slug end.
Proof.
  revert m. induction l as [|x l IH]; intros m; [done|]. cbn [foldl]. rewrite IH. unfold offered. clear IH.
  destruct x as [t|]; cbn [omap list_omap id]; [|done]. rewrite filter_cons. destruct (valid Unmarshal t) eqn:Hv.
  - destruct (decide (Slug t = slug)) as [<-|Hs].
    + rewrite decide_True by done. rewrite last_cons. destruct (last _); [done|]. apply lookup_insert_eq.
    + rewrite decide_False by naive_solver. by rewrite lookup_insert_ne.
  - by rewrite decide_False by naive_solver.
Qed.

Lemma stage_lookup l slug : stage Unmarshal l !! slug = offered slug l.
Proof. unfold stage. rewrite stage_from, lookup_empty. by destruct (offered slug l). Qed.

Lemma offered_valid slug l t : offered slug l = Some t → valid Unmarshal t = true ∧ Slug t = slug.
Proof. unfold offered. intros H%last_Some_elem_of. by apply list_elem_of_filter in H as [? _]. Qed.

Lemma Update_spec r fetched :
  let '(r', res) := Update Unmarshal r fetched in
  match res with
  | Err _ => r' = r
  | Ok x => ∃ l, fetched = Some l ∧ (∀ slug, r' !! slug = match offered slug l with Some t => Some t | None => r !! slug end) ∧
      (Added x + Updated x)%nat = size (stage Unmarshal l) ∧
      Total x = (Rejected x + length (filter (λ t, valid Unmarshal t = true) (omap id l)))%nat
  end.
Proof.
  unfold Update. destruct fetched as [[|x l]|]; [done| |done]. set (l' := x :: l). destruct (decide (stage Unmarshal l' = ∅)); [done|].
  exists l'. split; [done|]. split_and!.
  - intros slug. rewrite <- (stage_lookup l' slug). rewrite lookup_union. by destruct (stage Unmarshal l' !! slug), (r !! slug).
  - cbn [Added Updated]. rewrite <- map_size_disj_union.
    + f_equal. apply map_eq. intros k. rewrite lookup_union. apply option_eq. intros t.
      rewrite union_Some, !map_lookup_filter_Some. cbn [fst]. destruct (stage Unmarshal l' !! k) as [t'|] eqn:Ek.
      * destruct (r !! k) eqn:Er; split.
        -- intros [[? [=]]|[_ [Ht _]]]; congruence.
        -- intros [= ->]. right. split; [|done]. apply map_lookup_filter_None. right. cbn. congruence.
        -- intros [[? _]|[_ [? _]]]; congruence.
        -- intros [= ->]. left. done.
      * split; [intros [[? _]|[_ [? _]]]; congruence|done].
    + apply map_disjoint_spec. intros k t1 t2 [_ H1]%map_lookup_filter_Some [_ [? H2]]%map_lookup_filter_Some.
      cbn in *. congruence.
  - cbn [Total Rejected]. clearbody l'. clear. induction l' as [|y l' IH]; [done|]. destruct y as [t|].
    + change (omap id (Some t :: l')) with (t :: omap id l'). rewrite !filter_cons.
      destruct (valid Unmarshal t) eqn:E; repeat case_decide; try congruence; cbn [length]; lia.
    + change (omap id (None :: l')) with (omap id l'). rewrite filter_cons. case_decide; [|done]. cbn [length]. lia.
Qed.

Lemma Update_valid r fetched slug t :
  (Update Unmarshal r fetched).1 !! slug = Some t → r !! slug = Some t ∨ valid Unmarshal t = true ∧ Slug t = slug.
Proof.
  pose proof (Update_spec r fetched) as H. destruct (Update Unmarshal r fetched) as [r' [x|e]]; cbn [fst].
  - destruct H as (l & _ & Hl & _). rewrite Hl. destruct (offered slug l) as [t'|] eqn:E; [|by left]. intros [= ->]. right. by apply (offered_valid slug l).
  - subst r'. by left.
Qed.

(** A refresh takes over the valid templates of a feed, the last of each slug, and leaves everything else: a
    feed that fails, is empty or has no valid template changes nothing, an invalid template is counted
    and passed over, and no template is ever dropped. *)
Theorem refresh_merges_valid_templates r fetched :
  let '(r', res) := Update Unmarshal r fetched in
  match res with
  | Err _ => r' = r
  | Ok x => ∃ l, fetched = Some l ∧ (∀ slug, r' !! slug = match offered slug l with Some t => Some t | None => r !! slug end) ∧
      (Added x + Updated x)%nat = size (stage Unmarshal l) ∧
      Total x = (Rejected x + length (filter (λ t, valid Unmarshal t = true) (omap id l)))%nat
  end.
Proof. apply Update_spec. Qed.

End Refresh.

(** ** Sanitised lines *)

Lemma trim_left_printable n l : Forall printable l → trim_left n l = l.
Proof.
  intros Hl. destruct n as [|n]; cbn [trim_left]; [done|]. rewrite (list_find_printable id); [done|intros p [k Hk]|exact spaces_not_printable].
  rewrite Hk in Hl. by apply Forall_app in Hl as [].
Qed.

Lemma trim_right_printable n l : Forall printable l → trim_right n l = l.
Proof.
  intros Hl. destruct n as [|n]; cbn [trim_right]; [done|]. rewrite (list_find_printable id); [done|intros p [k Hk]|exact spaces_not_printable].
  rewrite Hk in Hl. by apply Forall_app in Hl as [].
Qed.

Lemma blank_found c l : c ∈ blanks → ∃ k, list_find (λ p, p `prefix_of` c :: l) all_spaces = Some (k, [c]).
Proof.
  intros [-> | ->%list_elem_of_singleton]%elem_of_cons; [exists 5%nat|exists 0%nat]; apply list_find_Some; split_and!; try done;
    try (by exists l); intros j y Hy Hj [k Hk].
  - destruct j as [|[|[|[|[|j]]]]]; [..|lia]; injection Hy as <-; discriminate Hk.
  - lia.
Qed.

(** White space before printable text is what [TrimSpace] takes away. *)
Lemma TrimSpace_blanks sp x : Forall (.∈ blanks) sp → Forall printable x → TrimSpace (str (sp ++ x)) = str x.
Proof.
  intros Hsp Hx. unfold TrimSpace. rewrite bytes_str. assert (trim_left (length (sp ++ x)) (sp ++ x) = x) as ->.
  { induction Hsp as [|c sp Hc _ IH]; [by apply trim_left_printable|]. cbn [app length trim_left].
    destruct (blank_found c (sp ++ x) Hc) as [k ->]. exact IH. }
  by rewrite trim_right_printable.
Qed.

Lemma drop_set_split cut l : ∃ ws, l = ws ++ drop_set cut l ∧ Forall (.∈ cut) ws ∧ match drop_set cut l with [] => True | c :: _ => c ∉ cut end.
Proof.
  induction l as [|c l (ws & E & Hw & Hh)]; [by exists []|]. cbn [drop_set]. case_decide as Hc.
  - exists (c :: ws). split_and!; [by rewrite E at 1|by constructor|done].
  - by exists [].
Qed.

Lemma drop_set_app cut ws l : Forall (.∈ cut) ws → match l with [] => True | c :: _ => c ∉ cut end → drop_set cut (ws ++ l) = l.
Proof.
  intros Hw Hl. induction Hw as [|c ws Hc _ IH]; cbn [app drop_set].
  - destruct l as [|c l]; [done|]. cbn [drop_set]. by rewrite decide_False.
  - by rewrite decide_True.
Qed.

Lemma index_of_app c ws l : c ∉ ws → index_of [c] (ws ++ l) = (λ i, (length ws + i)%nat) <$> index_of [c] l.
Proof.
  induction ws as [|x ws IH]; intros Hc; [change ([] ++ l) with l; by destruct (index_of [c] l)|]. apply not_elem_of_cons in Hc as [Hx Hc]. cbn [app index_of].
  rewrite decide_False by (intros [k [= E _]]; congruence). rewrite IH by done. by destruct (index_of [c] l).
Qed.

Lemma index_of_cut c l i : index_of [c] l = Some i → take (S i) l = take i l ++ [c] ∧ c ∉ take i l.
Proof.
  intros Hi. apply index_of_Some in Hi as [[k Hk] Hno]. split.
  - assert (l !! i = Some c) as Hl by (rewrite <- (Nat.add_0_r i), <- lookup_drop, Hk; done). by apply take_S_r.
  - intros (j & Hj)%list_elem_of_lookup. apply lookup_take_Some in Hj as [Hj Hlt]. apply (Hno j Hlt).
    rewrite (drop_S l c j Hj). by exists (drop (S j) l).
Qed.

Definition endings : list (list ascii) := [[]; [byte 10]; [byte 13; byte 10]].

Lemma split_ending line body nl : splitLineEnding line = (body, nl) → line = body ++ nl ∧ nl ∈ endings.
Proof.
  unfold splitLineEnding. case_decide as H1; [|case_decide as H2].
  - destruct H1 as [k ->]. intros [= <- <-]. rewrite length_app, Nat.add_sub, take_app_length. split; [done|set_solver].
  - destruct H2 as [k ->]. intros [= <- <-]. rewrite length_app, Nat.add_sub, take_app_length. split; [done|set_solver].
  - intros [= <- <-]. rewrite app_nil_r. split; [done|set_solver].
Qed.

Lemma suffix_last {A} (l k : list A) x y : (l ++ [x]) `suffix_of` (k ++ [y]) → x = y ∧ l `suffix_of` k.
Proof. intros [z E]. rewrite app_assoc in E. apply app_inj_tail in E as [-> ->]. split; [done|by exists z]. Qed.

(** A text that does not end in a line break is split from one that follows it. *)
Lemma split_after_text l x nl : x ≠ byte 10 → x ≠ byte 13 → nl ∈ endings → splitLineEnding ((l ++ [x]) ++ nl) = (l ++ [x], nl).
Proof.
  intros H10 H13 Hnl. unfold splitLineEnding.
  apply elem_of_cons in Hnl as [->|[->|[->|Hn%elem_of_nil]%elem_of_cons]%elem_of_cons]; [..|done].
  - rewrite app_nil_r. rewrite decide_False by (intros [? _]%(suffix_last [byte 13]); congruence).
    by rewrite decide_False by (intros [? _]%(suffix_last []); congruence).
  - rewrite decide_False by (intros [_ [? _]%(suffix_last [])]%(suffix_last [byte 13]); congruence).
    rewrite decide_True by (by exists (l ++ [x])). by rewrite length_app, Nat.add_sub, take_app_length.
  - rewrite decide_True by (by exists (l ++ [x])). by rewrite length_app, Nat.add_sub, take_app_length.
Qed.

Lemma key_start_printable c : key_start c = true → printable c.
Proof. unfold key_start, printable. rewrite !orb_true_iff, !andb_true_iff, !Nat.leb_le, Nat.eqb_eq. lia. Qed.

Lemma key_printable key : isTemplateEnvKey key = true → Forall printable (bytes key).
Proof.
  unfold isTemplateEnvKey. destruct (bytes key) as [|c r]; [done|]. intros [Hc Hr]%andb_true_iff. constructor.
  - by apply key_start_printable.
  - apply Forall_forall. intros x Hx. rewrite forallb_forall in Hr. apply list_elem_of_In, Hr in Hx. unfold key_char in Hx.
    apply orb_true_iff in Hx as [Hx|Hx]; [by apply key_start_printable|]. unfold printable.
    rewrite andb_true_iff, !Nat.leb_le in Hx. lia.
Qed.

(** A placeholder is an expression in braces. *)
Lemma placeholder_shape key : isTemplateEnvKey key = true →
  ∃ m, bytes (sensitiveTemplatePlaceholder key) = bytes "${" ++ m ++ ["}"%char] ∧ Forall printable m.
Proof.
  intros Hk. assert (∀ name, Forall printable (bytes name) →
    ∃ m, bytes ("${" +:+ name +:+ "}") = bytes "${" ++ m ++ ["}"%char] ∧ Forall printable m) as H.
  { intros name Hn. exists (bytes name). by rewrite !bytes_app. }
  assert (∀ name, bool_decide (Forall printable (bytes name)) = true →
    ∃ m, bytes ("${" +:+ name +:+ "}") = bytes "${" ++ m ++ ["}"%char] ∧ Forall printable m) as Hlit.
  { intros name Hn%bool_decide_eq_true. by apply H. }
  unfold sensitiveTemplatePlaceholder. destruct (GoStrings.Contains _ _); [exact (Hlit "DB_ROOT_PASSWORD" eq_refl)|].
  destruct (_ || _); [exact (Hlit "DB_PASSWORD" eq_refl)|]. destruct (GoStrings.Contains _ _); [exact (Hlit "ADMIN_PASSWORD" eq_refl)|].
  destruct (GoStrings.Contains _ _); [exact (Hlit "JWT_SECRET" eq_refl)|]. destruct (GoStrings.Contains _ _); [exact (Hlit "SECRET_KEY" eq_refl)|].
  by apply H, key_printable.
Qed.

(** The start of a text that is neither empty nor blank. *)
Definition solid (x : list ascii) : Prop := match x with [] => False | c :: _ => c ∉ blanks end.

(** The parts of a line with a weak value. *)
Lemma weak_line line key :
  weakSensitiveScalarDefault line = Some key →
  ∃ ws x after nl, splitLineEnding line = (ws ++ x ++ ":"%char :: after, nl) ∧ nl ∈ endings ∧ Forall (.∈ blanks) ws ∧ solid x ∧ ":"%char ∉ x ∧
    isTemplateEnvKey key = true.
Proof.
  unfold weakSensitiveScalarDefault. destruct (splitLineEnding line) as [body nl] eqn:Es. pose proof (split_ending _ _ _ Es) as [-> Hnl].
  destruct (drop_set_split blanks body) as (ws & Eb & Hws & Hhead). destruct (drop_set blanks body) as [|c rest] eqn:Et; [done|].
  destruct (decide (c = "#"%char)) as [|Hc]; [done|]. destruct (index_of [":"%char] (c :: rest)) as [[|i]|] eqn:Hi; [done| |done].
  set (k := TrimSpace (str (take (S i) (c :: rest)))). destruct (isTemplateEnvKey k) eqn:Hk; [|done].
  destruct (isSensitiveTemplateEnvKey k); [|done]. cbn [negb orb]. intros Hw.
  assert (k = key) as <- by (destruct (_ || _); [done|]; destruct (isWeakTemplateSecretDefault _); [by injection Hw|done]).
  destruct (index_of_cut _ _ _ Hi) as [Hcut Hno]. exists ws, (take (S i) (c :: rest)), (drop (S (S i)) (c :: rest)), nl. split_and!; try done.
  rewrite Eb at 1. do 2 f_equal. rewrite <- (take_drop (S (S i)) (c :: rest)) at 1. rewrite Hcut. by rewrite <- app_assoc.
Qed.

Lemma index_first c x l : c ∉ x → index_of [c] (x ++ c :: l) = Some (length x).
Proof. intros Hx. rewrite index_of_app by done. cbn [index_of]. rewrite decide_True by (by exists l). cbn. f_equal. lia. Qed.

(** A line whose value is an expression in braces is not weak. *)
Lemma braced_line ws x sp ph m nl :
  Forall (.∈ blanks) ws → solid x → ":"%char ∉ x → Forall (.∈ blanks) sp → ph = bytes "${" ++ m ++ ["}"%char] → Forall printable m → nl ∈ endings →
  weakSensitiveScalarDefault (ws ++ x ++ ":"%char :: sp ++ ph ++ nl) = None.
Proof.
  intros Hws Hx Hno Hsp -> Hm Hnl. set (ph := bytes "${" ++ m ++ ["}"%char]).
  assert (splitLineEnding (ws ++ x ++ ":"%char :: sp ++ ph ++ nl) = (ws ++ x ++ ":"%char :: sp ++ ph, nl)) as Es.
  { pose proof (split_after_text (ws ++ x ++ ":"%char :: sp ++ bytes "${" ++ m) "}"%char nl ltac:(done) ltac:(done) Hnl) as E.
    unfold ph. rewrite <- !app_assoc in E. cbn [app] in E. rewrite <- !app_assoc in E. rewrite <- !app_assoc. exact E. }
  unfold weakSensitiveScalarDefault. rewrite Es. destruct x as [|c x]; [done|].
  rewrite drop_set_app by done. cbn [app]. destruct (decide (c = "#"%char)); [done|].
  change (c :: x ++ ":"%char :: sp ++ ph) with ((c :: x) ++ ":"%char :: sp ++ ph). rewrite index_first by done. cbn [length].
  destruct (negb _ || negb _); [done|].
  replace (drop (S (S (length x))) ((c :: x) ++ ":"%char :: sp ++ ph)) with (sp ++ ph).
  - rewrite TrimSpace_blanks; [|done|]; [|unfold ph; apply Forall_app; split; [|apply Forall_app; split; [done|]];
      apply (bool_decide_unpack _); vm_compute; exact I].
    rewrite (proj2 (Contains_spec _ _)); [by rewrite orb_true_r|]. exists [], (m ++ ["}"%char]). by rewrite bytes_str.
  - cbn [app drop]. rewrite drop_app_ge by lia. by replace (S (length x) - length x)%nat with 1%nat by lia.
Qed.

(** A line that was rewritten no longer gives a sensitive key a weak value, and no other line is
    touched: sanitising the lines once is enough. *)
Theorem sanitized_line_has_no_weak_secret line : weakSensitiveScalarDefault (sanitize_line line) = None.
Proof.
  unfold sanitize_line. destruct (weakSensitiveScalarDefault line) as [key|] eqn:Hw; [|done].
  destruct (weak_line line key Hw) as (ws & x & after & nl & Es & Hnl & Hws & Hx & Hno & Hk). rewrite Es.
  assert (":"%char ∉ ws) as Hws' by (intros H; rewrite Forall_forall in Hws; apply Hws in H; set_solver).
  assert (":"%char ∉ ws ++ x) as Hwx by (by apply not_elem_of_app).
  rewrite (app_assoc ws x), (index_first _ _ _ Hwx).
  assert (take (S (length (ws ++ x))) ((ws ++ x) ++ ":"%char :: after) = (ws ++ x) ++ [":"%char]) as ->.
  { rewrite take_app_ge by lia. f_equal. by replace (S (length (ws ++ x)) - length (ws ++ x))%nat with 1%nat by lia. }
  assert (drop (S (length (ws ++ x))) ((ws ++ x) ++ ":"%char :: after) = after) as ->.
  { rewrite drop_app_ge by lia. by replace (S (length (ws ++ x)) - length (ws ++ x))%nat with 1%nat by lia. }
  destruct (drop_set_split blanks after) as (sp & Ea & Hsp & _).
  assert (take (length after - length (drop_set blanks after)) after = sp) as ->.
  { rewrite Ea at 1 3. rewrite length_app, Nat.add_sub. apply take_app_length. }
  destruct (placeholder_shape key Hk) as (m & Eph & Hm). rewrite <- !app_assoc.
  exact (braced_line ws x sp _ m nl Hws Hx Hno Hsp Eph Hm Hnl).
Qed.

(** ** The registry over time *)

(** Refreshing from any sources in turn: a template stays until one of its slug replaces it, and everything
    new was found valid. *)
Theorem refreshes_keep_and_check Unmarshal sources r :
  (∀ slug, is_Some (r !! slug) → is_Some (UpdateTemplates Unmarshal r sources !! slug)) ∧
  (∀ slug t, UpdateTemplates Unmarshal r sources !! slug = Some t → r !! slug = Some t ∨ valid Unmarshal t = true ∧ Slug t = slug).
Proof.
  unfold UpdateTemplates. revert r. induction sources as [|f sources IH]; intros r; [split; auto|]. cbn [foldl].
  destruct (IH (Update Unmarshal r f).1) as [H1 H2]. split.
  - intros slug Hs. apply H1. pose proof (Update_spec Unmarshal r f) as Hu. destruct (Update Unmarshal r f) as [r' [x|e]]; cbn [fst]; [|by subst r'].
    destruct Hu as (l & _ & -> & _). destruct (offered Unmarshal slug l); [by eexists|done].
  - intros slug t Ht. destruct (H2 slug t Ht) as [Hr|Hr]; [by apply (Update_valid Unmarshal r f)|by right].
Qed.

(** *** The report on all templates *)

Definition not_before (a b : Template) : Prop := String.ltb (Slug a) (Slug b) = false.

Lemma ltb_asym a b : String.ltb a b = true → String.ltb b a = false.
Proof. unfold String.ltb. rewrite (String.compare_antisym b a). by destruct (String.compare a b). Qed.

Lemma sink_perm x l : sink x l ≡ₚ x :: l.
Proof. induction l as [|y l IH]; cbn [sink]; [done|]. destruct (String.ltb _ _); [|done]. rewrite IH. apply Permutation_swap. Qed.

Lemma sink_sorted x l : Sorted not_before l → Sorted not_before (sink x l).
Proof.
  induction 1 as [|y l Hl IH Hy]; cbn [sink]; [by repeat constructor|]. destruct (String.ltb (Slug x) (Slug y)) eqn:E.
  - constructor; [done|]. destruct l as [|z l]; cbn [sink]; [constructor; by apply ltb_asym|].
    destruct (String.ltb (Slug x) (Slug z)); constructor; [by inversion Hy|by apply ltb_asym].
  - by repeat constructor.
Qed.

Lemma sink_all acc l : Sorted not_before acc →
  Sorted not_before (foldl (λ acc x, sink x acc) acc l) ∧ foldl (λ acc x, sink x acc) acc l ≡ₚ l ++ acc.
Proof.
  revert acc. induction l as [|x l IH]; intros acc Hacc; [done|]. cbn [foldl]. destruct (IH (sink x acc) (sink_sorted x acc Hacc)) as [H1 H2].
  split; [done|]. rewrite H2, sink_perm. cbn [app]. symmetry. apply Permutation_middle.
Qed.

Lemma sorted_next l i a b : Sorted not_before l → l !! i = Some a → l !! S i = Some b → not_before a b.
Proof.
  intros Hl. revert i. induction Hl as [|x l Hl IH Hx]; intros i Ha Hb; [done|]. destruct i as [|i]; [|by apply (IH i)].
  injection Ha as <-. destruct l as [|y l]; [done|]. injection Hb as <-. by inversion Hx.
Qed.

(** The report has every template of the registry once with its issues, in the order of their slugs. *)
Theorem report_is_complete_and_ordered Unmarshal r :
  ValidateAll Unmarshal r ≡ₚ (λ t, (Slug t, ValidateTemplate Unmarshal t)) <$> (map_to_list r).*2 ∧
  ∀ i a b, ValidateAll Unmarshal r !! i = Some a → ValidateAll Unmarshal r !! S i = Some b → String.ltb b.1 a.1 = false.
Proof.
  destruct (sink_all [] (map_to_list r).*2 ltac:(constructor)) as [Hs Hp]. rewrite app_nil_r in Hp. unfold ValidateAll. split.
  - by rewrite reverse_Permutation, Hp.
  - set (l := foldl _ _ _) in *. intros i a b. rewrite !list_lookup_fmap. intros (x & Hx & ->)%fmap_Some (y & Hy & ->)%fmap_Some. cbn [fst].
    pose proof (lookup_lt_Some _ _ _ Hy) as Hlt. rewrite length_reverse in Hlt. apply reverse_lookup_Some in Hx as [Hx _]. apply reverse_lookup_Some in Hy as [Hy _].
    apply (sorted_next l (length l - S (S i)) y x Hs Hy). replace (S (length l - S (S i))) with (length l - S i)%nat by lia. done.
Qed.

(** ** Examples *)

Definition one_service (y : string) : option composeDoc :=
  Some {| Services := [("web", Some {| Image := "nginx"; Build := false; Ports := ["8080:80"]; Volumes := ["data:/data"] |})]; dVolumes := ["data"] |}.

Definition sample (yaml : string) : Template :=
  {| Slug := "web"; Name := "Web"; Description := "d"; Category := "c"; Tags := []; Author := "a"; Version := "1"; ComposeYAML := yaml;
     CPUMB := 0; MemoryMB := 0; DiskMB := 0 |}.

Definition weak_yaml : string := "PASSWORD: changeme".

(** A registered template loses its weak password, the same template from a feed keeps it. *)
Example feeds_are_not_sanitized :
  ComposeYAML <$> Add ∅ (Some (sample weak_yaml)) !! "web" = Some "PASSWORD: ${PASSWORD}" ∧
  ComposeYAML <$> (Update one_service ∅ (Some [Some (sample weak_yaml)])).1 !! "web" = Some weak_yaml.
Proof. by split; vm_compute. Qed.

Example sanitizers :
  (λ s, ComposeYAML (sanitizeTemplate (sample s))) <$>
    ["x ${DB_PASSWORD:-changeme} y"; "x ${DB_HOST:-changeme} y"; "postgres://u:umami@db/x"; "mysql://u:s3cret@db/x"; "?password=admin&x=1"; "#KEY: admin";
     "API_KEY: 'admin'  # c"] =
  ["x ${DB_PASSWORD} y"; "x ${DB_HOST:-changeme} y"; "postgres://u:${DB_PASSWORD}@db/x"; "mysql://u:s3cret@db/x"; "?password=${DB_PASSWORD}&x=1";
   "#KEY: admin"; "API_KEY: ${API_KEY}"].
Proof. by vm_compute. Qed.

Example ports : looksLikePort <$> ["80"; "127.0.0.1:8080:80/tcp"; "80-90:80-90"; "http:80"; "80/icmp"; "..--"] = [true; true; true; false; false; true].
Proof. by vm_compute. Qed.

End Market.
