(* ===== verification/Mcp.v ===== *)
(** * Mcp: the model context protocol server ([mcp/handler.go], [mcp/tools.go], [handlers/mcp_endpoint.go])

    The tools an administrator's assistant can call, over the tables of [Apps].  The input is JSON
    text after the tokenizer: an object with its keys in order, [null], or anything else.  The JSON
    of an answer is produced by [marshal], the text of an error is [why]; the order of a listing is
    that of the creation times, [order]. *)

From S2P Require Import Prelude GoStrings Login Notify Apps.
#[local] Open Scope Z_scope.

Module Mcp.
Import Apps.

(** ** Input *)

Inductive jval := JStr (s : string) | JNum (z : Z) | JNull | JOther.
Inductive json := Object (fields : list (string * jval)) | Null | Invalid.

(** [json.Unmarshal] into a field: keys match up to case, the last one counts, [null] changes
    nothing and a value of another type is an error of the whole input. *)
Definition decode_field {A} (conv : jval → option A) (zero : A) (k : string) (j : json) : option A :=
  match j with
  | Invalid => None
  | Null => Some zero
  | Object o =>
      foldl (λ acc kv, if Notify.EqualFold kv.1 k
                       then match kv.2 with JNull => acc | v => x ← conv v; (λ _, x) <$> acc end
                       else acc) (Some zero) o
  end.

Definition as_string (v : jval) : option string := match v with JStr s => Some s | _ => None end.
Definition as_int (v : jval) : option Z :=
  match v with JNum z => if decide (min_int64 ≤ z ≤ max_int64) then Some z else None | _ => None end.

Definition str_field := decode_field as_string "".
Definition int_field := decode_field as_int 0.

Definition nl : string := str [byte 10].
Definition scaled_message : string := "Scale event emitted — deploy module will reconcile replicas".

(** ** Tools *)

(** src/internal/mcp/tools.go:4-8 Tool *)
Record Tool := { tName : string; properties : list string; required : list string }.

(** src/internal/mcp/tools.go:25-122 BuiltinTools *)
Definition BuiltinTools : list Tool :=
  [{| tName := "deploy_app"; properties := ["name"; "source_type"; "source_url"]; required := ["name"; "source_type"; "source_url"] |};
   {| tName := "list_apps"; properties := []; required := [] |};
   {| tName := "get_app_status"; properties := ["app_id"]; required := ["app_id"] |};
   {| tName := "scale_app"; properties := ["app_id"; "replicas"]; required := ["app_id"; "replicas"] |};
   {| tName := "view_logs"; properties := ["app_id"; "lines"]; required := ["app_id"] |};
   {| tName := "create_database"; properties := ["name"; "engine"; "version"]; required := ["name"; "engine"] |};
   {| tName := "add_domain"; properties := ["app_id"; "fqdn"]; required := ["app_id"; "fqdn"] |};
   {| tName := "marketplace_deploy"; properties := ["template"]; required := ["template"] |};
   {| tName := "provision_server"; properties := ["provider"; "name"; "region"; "size"]; required := ["provider"; "name"; "region"; "size"] |}].

(** src/internal/mcp/handler.go:39-42 MCPResponse *)
Record MCPResponse := { Text : string; IsError : bool }.

(** src/internal/mcp/handler.go:259-263 Handler.textResponse *)
Definition textResponse (t : string) : MCPResponse := {| Text := t; IsError := false |}.

(** src/internal/mcp/handler.go:265-270 Handler.errorResponse *)
Definition errorResponse (t : string) : MCPResponse := {| Text := "Error: " +:+ t; IsError := true |}.

(** What is marshalled: a listing, a row or a map. *)
Inductive doc := DApps (l : list Application) (total : Z) | DApp (a : Application) | DMap (l : list (string * jval)).

Record event := { eType : string; eData : list (string * jval) }.

Abbreviation outcome := (Store * MCPResponse * list event)%type.

Section Handler.
Variables (marshal : doc → string) (order : list Application → list Application) (why : string).
(** Foreign keys, whether there is an event bus, the statements that fail, the newest tenant, and
    the runtime: what the first read of a container's log delivers. *)
Variables (fk bus : bool) (fails : stmt → bool) (latest : option string) (runtime : option (string → string → option string)).

(** src/internal/mcp/handler.go:26-30 Handler.publish *)
Definition publish (t : string) (d : list (string * jval)) : list event := if bus then [{| eType := t; eData := d |}] else [].

Definition refuse (s : Store) (t : string) : outcome := (s, errorResponse t, []).
Definition bad_input (s : Store) : outcome := refuse s ("invalid parameters: " +:+ why).

(** src/internal/db/apps.go:29-43 SQLiteDB.GetApp *)
Definition GetApp (s : Store) (id : string) : option Application := if fails SGetApp then None else find_app s id.

(** The listing leaves out some columns. *)
Definition listed (a : Application) : Application :=
  {| aID := aID a; ProjectID := ProjectID a; aTenant := aTenant a; aName := aName a; Type_ := Type_ a; SourceType := SourceType a;
     SourceURL := SourceURL a; Branch := Branch a; Dockerfile := ""; EnvVarsEnc := ""; LabelsJSON := ""; Replicas := Replicas a;
     Status := Status a; ServerID := ServerID a; UpdatedAt := UpdatedAt a |}.

(** src/internal/db/apps.go:99-129 SQLiteDB.ListAppsByTenant *)
Definition ListAppsByTenant (s : Store) (t : string) (limit : nat) : option (list Application * Z) :=
  if fails SCount then None
  else Some (listed <$> take limit (order (filter (λ a, aTenant a = t) (apps s))), count_apps s t).

(** src/internal/mcp/handler.go:78-91 Handler.listApps *)
Definition listApps (s : Store) : outcome :=
  match ListAppsByTenant s "" 50 with
  | None => refuse s why
  | Some (l, total) => (s, textResponse (marshal (DApps l total)), [])
  end.

(** src/internal/mcp/handler.go:93-111 Handler.getAppStatus *)
Definition getAppStatus (s : Store) (j : json) : outcome :=
  match str_field "app_id" j with
  | None => bad_input s
  | Some id =>
      if decide (id = "") then refuse s "app_id is required"
      else match GetApp s id with
      | None => refuse s ("App not found: " +:+ id)
      | Some a => (s, textResponse (marshal (DApp a)), [])
      end
  end.

(** src/internal/mcp/handler.go:130-136 Handler.deployApp.tenantID *)
Definition tenant_for (given : string) : string := if decide (given = "") then default "" latest else given.

(** src/internal/mcp/handler.go:141-150 Handler.deployApp.app *)
Definition mcp_app (gen tenant project name source url : string) : Application :=
  {| aID := gen; ProjectID := project; aTenant := tenant; aName := name; Type_ := "app"; SourceType := source; SourceURL := url;
     Branch := ""; Dockerfile := ""; EnvVarsEnc := ""; LabelsJSON := ""; Replicas := 0; Status := "pending"; ServerID := ""; UpdatedAt := 0 |}.

Definition insert_app (s : Store) (a : Application) : option Store := if fails SInsertApp then None else CreateApp fk s a.

(** src/internal/mcp/handler.go:113-171 Handler.deployApp *)
Definition deployApp (s : Store) (j : json) (gen : string) : outcome :=
  match (n ← str_field "name" j; st ← str_field "source_type" j; u ← str_field "source_url" j;
         t ← str_field "tenant_id" j; p ← str_field "project_id" j; Some (n, st, u, t, p)) with
  | None => bad_input s
  | Some (name, stype, url, t, project) =>
      if decide (name = "" ∨ stype = "" ∨ url = "") then refuse s "name, source_type, and source_url are required"
      else
        let tenant := tenant_for t in
        if decide (tenant = "") then refuse s "no tenant available; provide tenant_id"
        else match insert_app s (mcp_app gen tenant project name stype url) with
        | None => refuse s ("failed to create app: " +:+ why)
        | Some s' =>
            (s', textResponse ("Deploying app:" +:+ nl +:+ marshal (DMap
               [("app_id", JStr gen); ("name", JStr name); ("source_type", JStr stype); ("source_url", JStr url); ("tenant_id", JStr tenant);
                ("status", JStr "created"); ("message", JStr "Deployment pipeline initiated")])),
             publish "app.created" [("app_id", JStr gen); ("tenant_id", JStr tenant)])
        end
  end.

Definition with_replicas (n : Z) (a : Application) : Application :=
  {| aID := aID a; ProjectID := ProjectID a; aTenant := aTenant a; aName := aName a; Type_ := Type_ a; SourceType := SourceType a;
     SourceURL := SourceURL a; Branch := Branch a; Dockerfile := Dockerfile a; EnvVarsEnc := EnvVarsEnc a; LabelsJSON := LabelsJSON a;
     Replicas := n; Status := Status a; ServerID := ServerID a; UpdatedAt := UpdatedAt a |}.

(** src/internal/mcp/handler.go:175-218 Handler.scaleApp *)
Definition scaleApp (s : Store) (j : json) : outcome :=
  match (i ← str_field "app_id" j; n ← int_field "replicas" j; Some (i, n)) with
  | None => bad_input s
  | Some (id, n) =>
      if decide (id = "") then refuse s "app_id is required"
      else if n <? 0 then refuse s "replicas must be >= 0"
      else match GetApp s id with
      | None => refuse s ("App not found: " +:+ id)
      | Some a =>
          match (if fails SUpdateApp then None else UpdateApp s (with_replicas n a)) with
          | None => refuse s ("failed to update app: " +:+ why)
          | Some s' =>
              (s', textResponse (marshal (DMap
                 [("app_id", JStr (aID a)); ("name", JStr (aName a)); ("old_replicas", JNum (Replicas a)); ("new_replicas", JNum n);
                  ("status", JStr "scaled"); ("message", JStr scaled_message)])),
               publish "app.scaled" [("app_id", JStr (aID a)); ("tenant_id", JStr (aTenant a)); ("old_replicas", JNum (Replicas a));
                                     ("new_replicas", JNum n)])
          end
      end
  end.

Definition read_limit : nat := 65536.

(** src/internal/mcp/handler.go:220-257 Handler.viewLogs *)
Definition viewLogs (s : Store) (j : json) : outcome :=
  match (i ← str_field "app_id" j; n ← int_field "lines" j; Some (i, n)) with
  | None => bad_input s
  | Some (id, n) =>
      if decide (id = "") then refuse s "app_id is required"
      else match runtime with
      | None => refuse s "Container runtime not available"
      | Some logs =>
          match (if fails SListContainers then None else findAppContainerID s id) with
          | None => refuse s ("No running container for app " +:+ id)
          | Some cid =>
              match logs cid (itoa (if n <=? 0 then 50 else n)) with
              | None => refuse s ("Failed to get logs: " +:+ why)
              | Some chunk => (s, textResponse (str (take read_limit (bytes chunk))), [])
              end
          end
      end
  end.

(** src/internal/mcp/handler.go:302-314 Handler.createDatabase.connStr *)
Definition connStr (engine user pass name : string) : option string :=
  if decide (engine = "mysql") then Some ("mysql://" +:+ user +:+ ":" +:+ pass +:+ "@localhost:3306/" +:+ name)
  else if decide (engine = "postgres") then Some ("postgres://" +:+ user +:+ ":" +:+ pass +:+ "@localhost:5432/" +:+ name)
  else if decide (engine = "redis") then Some ("redis://localhost:6379/" +:+ name)
  else if decide (engine = "mongodb") then Some ("mongodb://" +:+ user +:+ ":" +:+ pass +:+ "@localhost:27017/" +:+ name)
  else None.

(** [gen] is drawn for the password when none is given, [gen2] for the identifier.
    src/internal/mcp/handler.go:273-337 Handler.createDatabase *)
Definition createDatabase (s : Store) (j : json) (gen gen2 : string) : outcome :=
  match (a ← str_field "app_id" j; e ← str_field "engine" j; n ← str_field "name" j; u ← str_field "user" j;
         p ← str_field "password" j; Some (a, e, n, u, p)) with
  | None => bad_input s
  | Some (app, engine, name, user, pass) =>
      if decide (engine = "" ∨ name = "") then refuse s "engine and name are required"
      else if bool_decide (app ≠ "") && negb (bool_decide (is_Some (GetApp s app))) then refuse s ("App not found: " +:+ app)
      else
        let user := or_else user "dbuser" in
        let pass := or_else pass (Login.ShortID gen 16) in
        match connStr engine user pass name with
        | None => refuse s ("Unsupported engine: " +:+ engine)
        | Some c =>
            (s, textResponse ("Database created successfully:" +:+ nl +:+ marshal (DMap
               [("id", JStr gen2); ("name", JStr name); ("engine", JStr engine); ("user", JStr user); ("password", JStr pass);
                ("connection", JStr c); ("app_id", JStr app); ("status", JStr "created");
                ("message", JStr "Database configuration created and event published")])),
             publish "database.created" [("db_id", JStr gen2); ("app_id", JStr app); ("engine", JStr engine)])
        end
  end.

Definition insert_domain (s : Store) (d : Domain) : option Store := if fails (SInsertDomain 0) then None else CreateDomain fk s d.

(** src/internal/mcp/handler.go:340-399 Handler.addDomain *)
Definition addDomain (s : Store) (j : json) (gen : string) : outcome :=
  match (a ← str_field "app_id" j; f ← str_field "fqdn" j; t ← str_field "type" j; p ← str_field "dns_provider" j; Some (a, f, t, p)) with
  | None => refuse s ("Invalid parameters: " +:+ why)
  | Some (app, fqdn, ty, provider) =>
      if decide (app = "" ∨ fqdn = "") then refuse s "app_id and fqdn are required"
      else match GetApp s app with
      | None => refuse s ("App not found: " +:+ app)
      | Some a =>
          let ty := or_else ty "custom" in
          let provider := or_else provider "manual" in
          match insert_domain s {| dID := gen; dApp := app; FQDN := fqdn; dType := ty; DNSProvider := provider |} with
          | None => refuse s ("Failed to create domain: " +:+ why)
          | Some s' =>
              (s', textResponse ("Domain added successfully:" +:+ nl +:+ marshal (DMap
                 [("id", JStr gen); ("fqdn", JStr fqdn); ("type", JStr ty); ("dns_provider", JStr provider); ("app_id", JStr app);
                  ("app_name", JStr (aName a)); ("status", JStr "created");
                  ("message", JStr "Domain added. Add DNS A record pointing to your server IP, then verify the domain.")])), [])
          end
      end
  end.

(** src/internal/mcp/handler.go:402-471 Handler.marketplaceDeploy *)
Definition marketplaceDeploy (s : Store) (j : json) (gen gen2 : string) : outcome :=
  match (x ← str_field "template_slug" j; n ← str_field "name" j; p ← str_field "project_id" j; d ← str_field "domain" j;
         t ← str_field "tenant_id" j; Some (x, n, p, d, t)) with
  | None => bad_input s
  | Some (slug, name, project, domain, t) =>
      if decide (slug = "" ∨ name = "") then refuse s "template_slug and name are required"
      else
        let tenant := tenant_for t in
        if decide (tenant = "") then refuse s "no tenant available; provide tenant_id"
        else match insert_app s (mcp_app gen tenant project name "image" ("deploymonster/" +:+ slug +:+ ":latest")) with
        | None => refuse s ("failed to create app: " +:+ why)
        | Some s' =>
            let s' := if decide (domain = "") then s'
                      else default s' (insert_domain s' {| dID := gen2; dApp := gen; FQDN := domain; dType := "custom"; DNSProvider := "" |}) in
            (s', textResponse ("Marketplace deployment started:" +:+ nl +:+ marshal (DMap
               [("app_id", JStr gen); ("template_slug", JStr slug); ("name", JStr name); ("project_id", JStr project); ("domain", JStr domain);
                ("status", JStr "created"); ("message", JStr "Marketplace app created and deployment initiated")])),
             publish "app.created" [("app_id", JStr gen); ("tenant_id", JStr tenant)])
        end
  end.

Definition validProviders : list string := ["hetzner"; "digitalocean"; "vultr"; "linode"; "custom"].

(** src/internal/mcp/handler.go:474-533 Handler.provisionServer *)
Definition provisionServer (s : Store) (j : json) (gen : string) : outcome :=
  match (p ← str_field "provider" j; r ← str_field "region" j; z ← str_field "size" j; n ← str_field "name" j;
         k ← str_field "ssh_key_id" j; Some (p, r, z, n, k)) with
  | None => refuse s ("Invalid parameters: " +:+ why)
  | Some (provider, region, size, name, key) =>
      if decide (provider = "" ∨ name = "") then refuse s "provider and name are required"
      else
        let region := or_else region "auto" in
        let size := or_else size "small" in
        if decide (provider ∉ validProviders)
        then refuse s ("Unsupported provider: " +:+ provider +:+ ". Use: hetzner, digitalocean, vultr, linode, or custom")
        else
          (s, textResponse ("Server provisioning initiated:" +:+ nl +:+ marshal (DMap
             [("id", JStr gen); ("name", JStr name); ("provider", JStr provider); ("region", JStr region); ("size", JStr size);
              ("ssh_key_id", JStr key); ("status", JStr "pending");
              ("message", JStr "Server provisioning request accepted. Configure VPS provider API keys to provision automatically.");
              ("api_docs", JStr "POST /api/v1/servers to create a server record, then use the provider's dashboard for actual provisioning.")])),
           publish "server.added" [("server_id", JStr gen); ("provider", JStr provider); ("name", JStr name)])
  end.

(** src/internal/mcp/handler.go:51-76 Handler.HandleToolCall *)
Definition HandleToolCall (s : Store) (tool : string) (j : json) (gen gen2 : string) : result string outcome :=
  if decide (tool = "list_apps") then Ok (listApps s)
  else if decide (tool = "get_app_status") then Ok (getAppStatus s j)
  else if decide (tool = "deploy_app") then Ok (deployApp s j gen)
  else if decide (tool = "scale_app") then Ok (scaleApp s j)
  else if decide (tool = "view_logs") then Ok (viewLogs s j)
  else if decide (tool = "create_database") then Ok (createDatabase s j gen gen2)
  else if decide (tool = "add_domain") then Ok (addDomain s j gen)
  else if decide (tool = "marketplace_deploy") then Ok (marketplaceDeploy s j gen gen2)
  else if decide (tool = "provision_server") then Ok (provisionServer s j gen)
  else Err ("unknown tool: " +:+ tool).

(** [body] is [None] when it is not one JSON value.
    src/internal/api/handlers/mcp_endpoint.go:40-58 MCPHandler.CallTool *)
Definition CallTool (s : Store) (tool : string) (body : option json) (gen gen2 : string) : Store * Z * list event :=
  if decide (tool = "") then (s, 400, [])
  else match body with
  | None => (s, 400, [])
  | Some j =>
      match HandleToolCall s tool j gen gen2 with
      | Err _ => (s, 400, [])
      | Ok (s', _, evs) => (s', 200, evs)
      end
  end.

End Handler.
(** ** What a call does *)

Section Calls.
Variables (marshal : doc → string) (order : list Application → list Application) (why : string).
Variables (fk bus : bool) (fails : stmt → bool) (latest : option string) (runtime : option (string → string → option string)).

Notation call := (HandleToolCall marshal order why fk bus fails latest runtime).

(** The table refuses the type the tools write. *)
Lemma insert_mcp_app s gen t p n st u : insert_app fk fails s (mcp_app gen t p n st u) = None.
Proof.
  unfold insert_app. destruct (fails _); [done|]. unfold CreateApp. rewrite decide_False; [done|]. intros [H _].
  revert H. cbn [Type_ mcp_app]. by apply (bool_decide_eq_false_1 _).
Qed.

(** The outcome of a refused call. *)
Definition refused (s : Store) (o : outcome) : Prop := ∃ t, o = (s, errorResponse t, []).

Lemma refuse_refused s t : refused s (refuse s t).
Proof. by exists t. Qed.

#[local] Hint Resolve refuse_refused : core.

Lemma deployApp_refused s j gen : refused s (deployApp marshal why fk bus fails latest s j gen).
Proof.
  unfold deployApp, bad_input. destruct (_ ≫= _) as [[[[[n st] u] t] p]|]; [|done]. repeat case_decide; try done; by rewrite insert_mcp_app.
Qed.

Lemma marketplaceDeploy_refused s j gen gen2 : refused s (marketplaceDeploy marshal why fk bus fails latest s j gen gen2).
Proof.
  unfold marketplaceDeploy, bad_input. destruct (_ ≫= _) as [[[[[x n] p] d] t]|]; [|done]. repeat case_decide; try done; by rewrite insert_mcp_app.
Qed.

(** A call leaves the tables alone and, when refused, publishes nothing. *)
Definition reads (s : Store) (o : outcome) : Prop := o.1.1 = s ∧ (IsError o.1.2 = true → o.2 = []).

Lemma refused_reads s o : refused s o → reads s o.
Proof. by intros [t ->]. Qed.

#[local] Hint Resolve refused_reads deployApp_refused marketplaceDeploy_refused : core.

Lemma listApps_reads s : reads s (listApps marshal order why fails s).
Proof. unfold listApps. destruct (ListAppsByTenant _ _ _ _ _) as [[l n]|]; [done|auto]. Qed.

Lemma getAppStatus_reads s j : reads s (getAppStatus marshal why fails s j).
Proof.
  unfold getAppStatus, bad_input. destruct (str_field _ j); [|auto]. case_decide; [auto|]. by destruct (GetApp _ _ _); [|auto].
Qed.

Lemma viewLogs_reads s j : reads s (viewLogs why fails runtime s j).
Proof.
  unfold viewLogs, bad_input. destruct (_ ≫= _) as [[i n]|]; [|auto]. case_decide; [auto|]. destruct runtime as [logs|]; [|auto].
  destruct (if fails _ then _ else _) as [cid|]; [|auto]. destruct (logs _ _); [done|auto].
Qed.

Lemma createDatabase_reads s j gen gen2 : reads s (createDatabase marshal why bus fails s j gen gen2).
Proof.
  unfold createDatabase, bad_input. destruct (_ ≫= _) as [[[[[a e] n] u] p]|]; [|auto]. case_decide; [auto|]. destruct (_ && _); [auto|].
  by destruct (connStr _ _ _ _); [|auto].
Qed.

Lemma provisionServer_reads s j gen : reads s (provisionServer marshal why bus s j gen).
Proof.
  unfold provisionServer. destruct (_ ≫= _) as [[[[[p r] z] n] k]|]; [|auto]. repeat case_decide; auto. by split.
Qed.

(** What the two tools that write do to the tables. *)
Inductive writes (s : Store) : Store → Prop :=
| w_scale id n a : find_app s id = Some a → 0 ≤ n ≤ max_int64 →
    writes s (change_row (with_replicas n) id s)
| w_domain d a : find_app s (dApp d) = Some a → FQDN d ≠ "" → dType d ∈ ["auto"; "custom"; "wildcard"] →
    find_domain s (dID d) = None → find_fqdn s (FQDN d) = None → writes s (with_domains s (domains s ++ [d])).

Lemma int_field_range k j n : int_field k j = Some n → min_int64 ≤ n ≤ max_int64.
Proof.
  unfold int_field, decode_field. assert (min_int64 ≤ 0 ≤ max_int64) as H0 by done. revert H0. generalize 0.
  destruct j as [o| |]; [|by intros ? ? [= <-]|done]. assert (∀ o, foldl (λ acc kv, if Notify.EqualFold kv.1 k
    then match kv.2 with JNull => acc | v => x ← as_int v; (λ _, x) <$> acc end else acc) None o = None) as HN.
  { clear. induction o as [|[k' v] o IH]; [done|]. cbn [foldl fst snd]. destruct (Notify.EqualFold _ _); [|done].
    destruct v; cbn; try done. by case_decide. }
  induction o as [|[k' v] o IH]; intros z Hz; cbn [foldl fst snd]; [by intros [= <-]|].
  destruct (Notify.EqualFold _ _); [|by apply IH]. destruct v as [x|x| |]; try by apply IH. all: cbn [as_int mbind option_bind]; try by rewrite HN.
  case_decide; [by apply IH|by rewrite HN].
Qed.

Lemma replicas_keep n : keeps_identity (with_replicas n).
Proof. by split. Qed.

(** What a call may have done: refused, read, or written as [writes] says. *)
Lemma scaleApp_writes s j : tables_ok s →
  let o := scaleApp marshal why bus fails s j in refused s o ∨ IsError o.1.2 = false ∧ writes s o.1.1.
Proof.
  intros Hok. cbv zeta. unfold scaleApp, bad_input. destruct (_ ≫= _) as [[i n]|] eqn:Ein; [|by left]. case_decide; [by left|].
  destruct (n <? 0) eqn:En; [by left|]. unfold GetApp. destruct (fails SGetApp); [by left|]. destruct (find_app s i) as [a|] eqn:Ea; [|by left].
  destruct (if fails SUpdateApp then None else _) as [s'|] eqn:E; [|by left]. right. split; [done|]. cbn [fst].
  destruct (fails SUpdateApp); [done|]. rewrite (update_row _ s i a s' (replicas_keep n) Hok Ea E). econstructor; [done|].
  apply bind_Some in Ein as (i' & _ & (n' & Hn & [= -> ->])%bind_Some). apply int_field_range in Hn. lia.
Qed.

Lemma addDomain_writes s j gen :
  let o := addDomain marshal why fk fails s j gen in refused s o ∨ IsError o.1.2 = false ∧ writes s o.1.1.
Proof.
  cbv zeta. unfold addDomain. destruct (_ ≫= _) as [[[[app f] ty] p]|]; [|by left]. case_decide as Hne; [by left|].
  unfold GetApp. destruct (fails SGetApp); [by left|]. destruct (find_app s app) as [a|] eqn:Ea; [|by left].
  unfold insert_domain. destruct (fails (SInsertDomain 0)); [by left|]. unfold CreateDomain.
  case_decide as E; [|by left]. right. split; [done|]. cbn [fst]. destruct E as (Ht & Hi & Hf & _). eapply w_domain; cbn [dApp FQDN dType dID]; try done.
  intros ->. apply Hne. by right.
Qed.

(** The calls that create an application are refused, whatever their input, the tenants and the
    statements that fail: the type "app" is none the table accepts. *)
Theorem deploy_tools_always_fail tool s j gen gen2 :
  tool ∈ ["deploy_app"; "marketplace_deploy"] → ∃ t, call s tool j gen gen2 = Ok (s, errorResponse t, []).
Proof.
  rewrite !elem_of_cons. unfold HandleToolCall. intros [->|[->|[]%elem_of_nil]]; cbn [decide].
  - destruct (deployApp_refused s j gen) as [t E]. exists t. by rewrite <- E.
  - destruct (marketplaceDeploy_refused s j gen gen2) as [t E]. exists t. by rewrite <- E.
Qed.

(** Only [scale_app] and [add_domain] write: the first sets the replicas of one application and
    nothing else, the second adds one domain to an application that exists.  A refused call writes and
    publishes nothing, and no call ever adds or removes an application. *)
Theorem tool_calls_frame tool s j gen gen2 s' r evs :
  tables_ok s → call s tool j gen gen2 = Ok (s', r, evs) →
  (IsError r = true → s' = s ∧ evs = []) ∧ (s' = s ∨ tool ∈ ["scale_app"; "add_domain"] ∧ writes s s') ∧ aID <$> apps s' = aID <$> apps s.
Proof.
  intros Hok. assert (∀ o, reads s o → o = (s', r, evs) → (IsError r = true → s' = s ∧ evs = []) ∧
    (s' = s ∨ tool ∈ ["scale_app"; "add_domain"] ∧ writes s s') ∧ aID <$> apps s' = aID <$> apps s) as Hread.
  { intros o [H1 H2] ->. cbn in H1, H2. subst s'. auto. }
  assert (∀ o, tool ∈ ["scale_app"; "add_domain"] → refused s o ∨ IsError o.1.2 = false ∧ writes s o.1.1 → o = (s', r, evs) →
    (IsError r = true → s' = s ∧ evs = []) ∧ (s' = s ∨ tool ∈ ["scale_app"; "add_domain"] ∧ writes s s') ∧
    aID <$> apps s' = aID <$> apps s) as Hwrite.
  { intros o Ht [Ho|[He Hw]] ->; [by eapply Hread; [apply refused_reads|]|]. cbn in He, Hw. split; [congruence|]. split; [by right|].
    destruct Hw; [|done]. unfold change_row. cbn [apps with_apps]. rewrite <- list_fmap_compose. apply list_fmap_ext. intros ? x _. cbn. by case_decide. }
  unfold HandleToolCall. repeat case_decide; intros [= Hcall]; subst.
  - eapply Hread, Hcall. apply listApps_reads.
  - eapply Hread, Hcall. apply getAppStatus_reads.
  - eapply Hread, Hcall. auto.
  - eapply Hwrite, Hcall; [set_solver|]. by apply scaleApp_writes.
  - eapply Hread, Hcall. apply viewLogs_reads.
  - eapply Hread, Hcall. apply createDatabase_reads.
  - eapply Hwrite, Hcall; [set_solver|]. apply addDomain_writes.
  - eapply Hread, Hcall. auto.
  - eapply Hread, Hcall. apply provisionServer_reads.
Qed.

End Calls.
Section Answers.
Variables (marshal : doc → string) (order : list Application → list Application) (why : string).
Variables (fk bus : bool) (fails : stmt → bool) (latest : option string) (runtime : option (string → string → option string)).

Notation call := (HandleToolCall marshal order why fk bus fails latest runtime).

(** The tools offered are the tools handled; any other name is an error of the request. *)
Theorem offered_tools_are_handled tool s j gen gen2 :
  is_ok (call s tool j gen gen2) = true ↔ tool ∈ tName <$> BuiltinTools.
Proof.
  unfold HandleToolCall. cbn [BuiltinTools fmap list_fmap tName]. rewrite !elem_of_cons, elem_of_nil.
  repeat case_decide; cbn [is_ok]; split; try done; tauto.
Qed.

(** A call answers 400 exactly when there is no tool of that name or no JSON value in the body;
    every failure of a tool itself answers 200. *)
Theorem tool_failures_answer_200 s tool body gen gen2 :
  (CallTool marshal order why fk bus fails latest runtime s tool body gen gen2).1.2 =
  if bool_decide (tool ∈ tName <$> BuiltinTools ∧ is_Some body) then 200 else 400.
Proof.
  unfold CallTool. case_decide as Ht.
  { subst. rewrite bool_decide_eq_false_2; [done|]. intros [H _]. revert H. by apply (bool_decide_eq_false_1 _). }
  destruct body as [j|]; [|by rewrite bool_decide_eq_false_2 by (intros [_ [? [=]]])].
  pose proof (offered_tools_are_handled tool s j gen gen2) as H. destruct (call s tool j gen gen2) as [[[s' r] evs]|]; cbn [is_ok] in H.
  - rewrite bool_decide_eq_true_2; [done|]. split; [by apply H|done].
  - rewrite bool_decide_eq_false_2; [done|]. intros [Hin _]. by apply H in Hin.
Qed.

(** Scaling an application that exists, to any number that is not negative: the row has the new
    number, and the event tells both.  Unlike the API, which stops at 100, there is no upper bound. *)
Theorem scale_sets_replicas s id a n :
  tables_ok s → find_app s id = Some a → id ≠ "" → Status a ∈ statuses → 0 ≤ n ≤ max_int64 → fails SGetApp = false → fails SUpdateApp = false →
  let '(s', r, evs) := scaleApp marshal why bus fails s (Object [("app_id", JStr id); ("replicas", JNum n)]) in
  IsError r = false ∧ find_app s' id = Some (stamp (now s) (with_replicas n a)) ∧
  evs = publish bus "app.scaled" [("app_id", JStr id); ("tenant_id", JStr (aTenant a)); ("old_replicas", JNum (Replicas a)); ("new_replicas", JNum n)].
Proof.
  intros Hok Ha Hid Hst Hn Hg Hu. unfold scaleApp. replace (str_field "app_id" _) with (Some id) by done.
  replace (int_field "replicas" _) with (Some n) by (cbn; rewrite decide_True by (unfold min_int64, max_int64 in *; lia); done).
  cbn [mbind option_bind]. rewrite decide_False by done. rewrite (proj2 (Z.ltb_ge n 0)) by lia. unfold GetApp. rewrite Hg, Ha, Hu.
  pose proof (find_app_Some _ _ _ Ha) as [Hin Eid].
  destruct (UpdateApp s (with_replicas n a)) as [s'|] eqn:E; [|unfold UpdateApp in E; rewrite decide_True in E by (left; done); done].
  rewrite Eid. split_and!; try done. rewrite (update_row _ s id a s' (replicas_keep n) Hok Ha E), find_changed by apply replicas_keep. by rewrite Ha.
Qed.

(** Every application belongs to a tenant, and the tool lists those that belong to none. *)
Theorem list_apps_is_empty s :
  (∀ l, order l ≡ₚ l) → Forall (λ a, aTenant a ≠ "") (apps s) → fails SCount = false →
  listApps marshal order why fails s = (s, textResponse (marshal (DApps [] 0)), []).
Proof.
  intros Hp Hall Hf. unfold listApps, ListAppsByTenant, count_apps. rewrite Hf.
  assert (filter (λ a, aTenant a = "") (apps s) = []) as ->.
  { induction Hall as [|a l Ha _ IH]; [done|]. by rewrite filter_cons, decide_False. }
  by rewrite (proj1 (Permutation_nil_r _) (Hp [])).
Qed.

Lemma other_keys_leave_zero {A} (conv : jval → option A) z k ks o :
  Forall (λ k', Notify.EqualFold k' k = false) ks → Forall (λ kv, kv.1 ∈ ks) o → decode_field conv z k (Object o) = Some z.
Proof.
  intros Hks. unfold decode_field. induction 1 as [|[k' v] o Hk _ IH]; [done|]. cbn [foldl fst snd] in *.
  rewrite Forall_forall in Hks. by rewrite (Hks k' Hk).
Qed.

(** Input that has only the properties the offered schema of [marketplace_deploy] names is refused:
    the handler reads other keys. *)
Theorem marketplace_schema_is_refused s o t gen gen2 :
  t ∈ BuiltinTools → tName t = "marketplace_deploy" → Forall (λ kv, kv.1 ∈ properties t) o →
  call s (tName t) (Object o) gen gen2 = Ok (refuse s "template_slug and name are required").
Proof.
  intros Ht Hn Ho. assert (properties t = ["template"]) as Hp.
  { unfold BuiltinTools in Ht. rewrite !elem_of_cons, elem_of_nil in Ht. destruct_or!; subst; done. }
  rewrite Hn. unfold HandleToolCall. cbn [decide]. rewrite Hp in Ho. assert (∀ k, Notify.EqualFold "template" k = false → str_field k (Object o) = Some "") as Hk.
  { intros k Hk. eapply other_keys_leave_zero; [|done]. by repeat constructor. }
  f_equal. unfold marketplaceDeploy. rewrite !Hk by reflexivity. done.
Qed.

End Answers.

(** ** Examples *)

Definition sample_marshal (d : doc) : string := match d with DApps [] _ => "none" | _ => "some" end.

Abbreviation sample_call := (HandleToolCall sample_marshal id "error" true true no_failure (Some "t1") None sample_store).

Lemma deploy_tools_always_fail_witness :
  ∃ t, sample_call "deploy_app" (Object [("name", JStr "web"); ("source_type", JStr "image"); ("source_url", JStr "nginx"); ("project_id", JStr "p1")])
         "n1" "n2" = Ok (sample_store, errorResponse t, []).
Proof.
  refine (deploy_tools_always_fail sample_marshal id "error" true true no_failure (Some "t1") None "deploy_app" sample_store _ "n1" "n2" _).
  apply (bool_decide_eq_true_1 _). reflexivity.
Defined.

Definition scale_input (id : string) (n : Z) : json := Object [("app_id", JStr id); ("replicas", JNum n)].

Lemma tool_calls_frame_witness :
  aID <$> apps (scaleApp sample_marshal "error" true no_failure sample_store (scale_input "a1" 7)).1.1 = ["a1"; "a2"; "b1"].
Proof.
  exact (proj2 (proj2 (tool_calls_frame sample_marshal id "error" true true no_failure (Some "t1") None "scale_app" sample_store
    (scale_input "a1" 7) "n1" "n2" _ _ _ sample_ok eq_refl))).
Defined.

Lemma scale_sets_replicas_witness :
  find_app (scaleApp sample_marshal "error" true no_failure sample_store (scale_input "a1" 1000000)).1.1 "a1" =
  Some (stamp 7 (with_replicas 1000000 (sample_app "a1" "t1" "running"))).
Proof.
  refine (proj1 (proj2 (scale_sets_replicas sample_marshal "error" true no_failure sample_store "a1" (sample_app "a1" "t1" "running") 1000000
    sample_ok eq_refl _ _ _ eq_refl eq_refl))); [discriminate|apply (bool_decide_eq_true_1 _); reflexivity|unfold max_int64; lia].
Defined.

Lemma list_apps_is_empty_witness :
  listApps sample_marshal id "error" no_failure sample_store = (sample_store, textResponse "none", []).
Proof.
  refine (list_apps_is_empty sample_marshal id "error" no_failure sample_store (λ l, Permutation_refl l) _ eq_refl).
  apply (bool_decide_eq_true_1 _). reflexivity.
Defined.

Lemma marketplace_schema_is_refused_witness :
  sample_call "marketplace_deploy" (Object [("template", JStr "wordpress")]) "n1" "n2" =
  Ok (refuse sample_store "template_slug and name are required").
Proof.
  refine (marketplace_schema_is_refused sample_marshal id "error" true true no_failure (Some "t1") None sample_store
    [("template", JStr "wordpress")] {| tName := "marketplace_deploy"; properties := ["template"]; required := ["template"] |} "n1" "n2" _ eq_refl _).
  - do 7 right. left.
  - repeat constructor.
Defined.

(** The domain types the tool documents are not those of the table, and a name is not checked. *)
Example domain_types_and_names :
  let add ty name := (addDomain sample_marshal "error" true no_failure sample_store
    (Object [("app_id", JStr "a1"); ("fqdn", JStr name); ("type", JStr ty)]) "n1").1.2 in
  IsError (add "primary" "a.example.com") = true ∧ IsError (add "redirect" "a.example.com") = true ∧ IsError (add "" "no domain") = false.
Proof. by split_and!. Qed.

End Mcp.
