(* ===== verification/Migrate.v ===== *)
(** * Migrate: schema migrations ([db/sqlite.go], [db/postgres.go])

    The loaders of the two backends over the embedded directory of scripts.  What a statement of a
    script does to a schema is a parameter, a script is the list of its statements; which steps
    fail for another reason is an argument.  The tracking table is kept in the order of its key. *)

From S2P Require Import Prelude GoStrings GoScan.
#[local] Open Scope Z_scope.

Module Migrate.

Section Loader.
Context {Schema Stmt : Type}.
(** One statement: [None] is an error of the database. *)
Variable exec1 : Stmt → Schema → option Schema.

Abbreviation script := (list Stmt).

(** [_migrations]: version and file name, ascending. *)
Abbreviation table := (list (Z * string)).
Record DB := { schema : Schema; rows : table }.

(** The steps that can fail; a statement of a script by its position. *)
Inductive step := CreateTable | ListDir | Count (v : Z) | Begin (v : Z) | Run (name : string) (i : nat) | Write (v : Z) | Commit (v : Z) | ListRows.

Inductive merr := ECreate | EDir | ECount | ERead | EBegin | EApply | ERecord | ECommit | EList | EMissing.

Variable files : list (string * script).

(** [embed.FS.ReadFile] *)
Definition ReadFile (name : string) : option script := snd <$> head (filter (λ f, f.1 = name) files).

Definition name_le (a b : string) : Prop := String.leb a b = true.
#[local] Instance name_le_dec : RelDecision name_le.
Proof. intros a b. unfold name_le. apply _. Defined.

(** src/internal/db/sqlite.go:188-190 SQLiteDB.migrate.sort *)
Definition entries : list string := merge_sort name_le (fst <$> files).

(** The statements of a script one by one, up to the first that fails. *)
Fixpoint run (bad : nat → bool) (i : nat) (sc : script) (s : Schema) : Schema * bool :=
  match sc with
  | [] => (s, true)
  | q :: sc => if bad i then (s, false) else match exec1 q s with None => (s, false) | Some s' => run bad (S i) sc s' end
  end.

Definition recorded (t : table) (v : Z) : bool := existsb (λ r, r.1 =? v) t.

(** A row in its place. *)
Fixpoint insert_row (v : Z) (name : string) (t : table) : table :=
  match t with
  | [] => [(v, name)]
  | r :: t' => if v <? r.1 then (v, name) :: t else r :: insert_row v name t'
  end.

(** Names of embedded files do not begin with white space, which the verb would skip.
    src/internal/db/sqlite.go:205-209 SQLiteDB.migrate.version *)
Definition version_of (name : string) : option Z := GoScan.Sscanf_d (str (take 4 (bytes name))).

(** src/internal/db/sqlite.go:198-203 SQLiteDB.migrate.skip *)
Definition sqlite_up (name : string) : bool :=
  HasSuffix name ".sql" && negb (HasSuffix name ".down.sql") && negb (HasSuffix name ".pgsql.sql") && negb (HasSuffix name ".pgsql.down.sql").

(** src/internal/db/postgres.go:134-137 PostgresDB.migrate.skip *)
Definition pg_up (name : string) : bool := HasSuffix name ".pgsql.sql" && negb (HasSuffix name ".pgsql.down.sql").

Section Run.
Variable fails : step → bool.

(** One transaction: the script, then the row.
    src/internal/db/sqlite.go:218-241 SQLiteDB.migrate.apply *)
Definition apply_migration (db : DB) (name : string) (v : Z) : DB * option merr :=
  match ReadFile name with
  | None => (db, Some ERead)
  | Some sc =>
      if fails (Begin v) then (db, Some EBegin)
      else let '(s', ok) := run (λ i, fails (Run name i)) 0 sc (schema db) in
      if negb ok then (db, Some EApply)
      else if fails (Write v) then (db, Some ERecord)
      else if fails (Commit v) then (db, Some ECommit)
      else ({| schema := s'; rows := if recorded (rows db) v then rows db else insert_row v name (rows db) |}, None)
  end.

(** A failed count reads as zero.
    src/internal/db/sqlite.go:192-242 SQLiteDB.migrate.entry *)
Definition sqlite_entry (db : DB) (name : string) : DB * option merr :=
  if negb (sqlite_up name) then (db, None)
  else match version_of name with
  | None => (db, None)
  | Some v => if negb (fails (Count v)) && recorded (rows db) v then (db, None) else apply_migration db name v
  end.

(** src/internal/db/postgres.go:130-175 PostgresDB.migrate.entry *)
Definition pg_entry (db : DB) (name : string) : DB * option merr :=
  if negb (pg_up name) then (db, None)
  else match version_of name with
  | None => (db, None)
  | Some v =>
      if fails (Count v) then (db, Some ECount)
      else if recorded (rows db) v then (db, None) else apply_migration db name v
  end.

Fixpoint each (f : DB → string → DB * option merr) (l : list string) (db : DB) : DB * option merr :=
  match l with
  | [] => (db, None)
  | x :: l => match f db x with (db', None) => each f l db' | r => r end
  end.

Definition loader (f : DB → string → DB * option merr) (db : DB) : DB * option merr :=
  if fails CreateTable then (db, Some ECreate) else if fails ListDir then (db, Some EDir) else each f entries db.

(** src/internal/db/sqlite.go:169-245 SQLiteDB.migrate *)
Definition sqlite_migrate (db : DB) : DB * option merr := loader sqlite_entry db.

(** src/internal/db/postgres.go:109-178 PostgresDB.migrate *)
Definition pg_migrate (db : DB) : DB * option merr := loader pg_entry db.

(** ** Undoing migrations *)

Definition delete_row (v : Z) (t : table) : table := filter (λ r, r.1 ≠ v) t.

(** Statement by statement, without a transaction: what ran before a failure stays.
    src/internal/db/sqlite.go:319-336 SQLiteDB.Rollback.step *)
Definition sqlite_down (db : DB) (m : Z * string) : DB * option merr :=
  let down := TrimSuffix m.2 ".sql" +:+ ".down.sql" in
  match ReadFile down with
  | None => (db, Some EMissing)
  | Some sc =>
      let '(s', ok) := run (λ i, fails (Run down i)) 0 sc (schema db) in
      let db' := {| schema := s'; rows := rows db |} in
      if negb ok then (db', Some EApply)
      else if fails (Write m.1) then (db', Some ERecord)
      else ({| schema := s'; rows := delete_row m.1 (rows db) |}, None)
  end.

(** One transaction; the deletion for a missing file is rolled back with it.
    src/internal/db/postgres.go:228-262 PostgresDB.Rollback.step *)
Definition pg_down (db : DB) (m : Z * string) : DB * option merr :=
  let down := TrimSuffix m.2 ".pgsql.sql" +:+ ".pgsql.down.sql" in
  if fails (Begin m.1) then (db, Some EBegin)
  else match ReadFile down with
  | None => (db, Some EMissing)
  | Some sc =>
      let '(s', ok) := run (λ i, fails (Run down i)) 0 sc (schema db) in
      if negb ok then (db, Some EApply)
      else if fails (Write m.1) then (db, Some ERecord)
      else if fails (Commit m.1) then (db, Some ECommit)
      else ({| schema := s'; rows := delete_row m.1 (rows db) |}, None)
  end.

Fixpoint each_row (f : DB → Z * string → DB * option merr) (l : table) (db : DB) : DB * option merr :=
  match l with
  | [] => (db, None)
  | m :: l => match f db m with (db', None) => each_row f l db' | r => r end
  end.

(** src/internal/db/sqlite.go:311-317 SQLiteDB.Rollback.steps *)
Definition chosen (steps : Z) (applied : table) : table :=
  let n := Z.of_nat (length applied) in
  let steps := if (steps <=? 0) || (n <? steps) then n else steps in
  take (Z.to_nat steps) applied.

(** src/internal/db/sqlite.go:276-339 SQLiteDB.Rollback *)
Definition sqlite_Rollback (steps : Z) (db : DB) : DB * option merr :=
  if fails ListRows then (db, Some EList) else each_row sqlite_down (chosen steps (reverse (rows db))) db.

(** src/internal/db/postgres.go:187-265 PostgresDB.Rollback *)
Definition pg_Rollback (steps : Z) (db : DB) : DB * option merr :=
  if fails ListRows then (db, Some EList) else each_row pg_down (chosen steps (reverse (rows db))) db.

(** src/internal/db/sqlite.go:123-147 SQLiteDB.ListMigrations *)
Definition ListMigrations (db : DB) : option table := if fails ListRows then None else Some (rows db).

End Run.
End Loader.
(** ** Theorems *)

Section Theory.
Context {Schema Stmt : Type} (exec1 : Stmt → Schema → option Schema) (files : list (string * list Stmt)).

Abbreviation db := (@DB Schema).
Abbreviation entry := (db → string → db * option merr).

Definition ok : step → bool := λ _, false.

Lemma recorded_insert v n t w : recorded (insert_row v n t) w = (v =? w) || recorded t w.
Proof.
  unfold recorded. induction t as [|r t IH]; cbn [insert_row existsb]; [done|]. destruct (v <? r.1); [done|]. cbn [existsb]. rewrite IH. by destruct (r.1 =? w), (v =? w).
Qed.

(** A file that a loader has nothing left to do for. *)
Definition settled (up : string → bool) (d : db) (x : string) : Prop :=
  up x = true → ∀ v, version_of x = Some v → recorded (rows d) v = true.

(** What resuming needs of a loader's step [f] with failures and the same step [g] without. *)
Record resumable (up : string → bool) (f g : entry) : Prop := {
  skips d x : settled up d x → g d x = (d, None);
  keeps d x d' e : f d x = (d', Some e) → d' = d;
  agrees d x d' : f d x = (d', None) → g d x = (d', None);
  settles d x d' : f d x = (d', None) → settled up d' x ∧ ∀ y, settled up d y → settled up d' y }.

Lemma each_settled up f g pre l d : resumable up f g → Forall (settled up d) pre → each g (pre ++ l) d = each g l d.
Proof. intros Hr. induction 1 as [|x pre Hx _ IH]; [done|]. cbn [app each]. by rewrite (skips _ _ _ Hr d x Hx). Qed.

Lemma each_resumes up f g l : resumable up f g → ∀ d pre, Forall (settled up d) pre →
  each g (pre ++ l) (each f l d).1 = each g l d.
Proof.
  intros Hr. induction l as [|x l IH]; intros d pre Hpre; cbn [each]; [by apply (each_settled up f g)|].
  destruct (f d x) as [d' [e|]] eqn:E; cbn [fst].
  - rewrite (keeps _ _ _ Hr _ _ _ _ E). by rewrite (each_settled up f g pre) by done.
  - rewrite (agrees _ _ _ Hr _ _ _ E). destruct (settles _ _ _ Hr _ _ _ E) as [Hx Hall]. rewrite <- (IH d' (pre ++ [x])).
    + by rewrite <- app_assoc.
    + apply Forall_app. split; [|by apply Forall_singleton]. eapply Forall_impl; [exact Hpre|]. intros y Hy. by apply Hall.
Qed.

Lemma run_agrees bad i sc s s' : run exec1 bad i sc s = (s', true) → run exec1 (λ _, false) i sc s = (s', true).
Proof.
  revert i s. induction sc as [|q sc IH]; intros i s; cbn [run]; [done|]. destruct (bad i); [done|]. destruct (exec1 q s); [|done]. apply IH.
Qed.

(** A transaction commits wholly or leaves the database as it was. *)
Lemma apply_cases fails d x v d' e :
  apply_migration exec1 files fails d x v = (d', e) →
  (d' = d ∧ is_Some e) ∨
  (e = None ∧ ∃ sc s', ReadFile files x = Some sc ∧ run exec1 (λ _, false) 0 sc (schema d) = (s', true) ∧
    d' = {| schema := s'; rows := if recorded (rows d) v then rows d else insert_row v x (rows d) |}).
Proof.
  unfold apply_migration. destruct (ReadFile files x) as [sc|]; [|intros [= <- <-]; left; eauto].
  destruct (fails (Begin v)); [intros [= <- <-]; left; eauto|]. destruct (run exec1 _ 0 sc (schema d)) as [s' [|]] eqn:E; cbn [negb].
  - destruct (fails (Write v)); [intros [= <- <-]; left; eauto|]. destruct (fails (Commit v)); intros [= <- <-]; [left; eauto|]. right.
    split; [done|]. exists sc, s'. split_and!; [done| |done]. by eapply run_agrees.
  - intros [= <- <-]. left. eauto.
Qed.

Lemma apply_ok d x v sc s' :
  ReadFile files x = Some sc → run exec1 (λ _, false) 0 sc (schema d) = (s', true) →
  apply_migration exec1 files ok d x v = ({| schema := s'; rows := if recorded (rows d) v then rows d else insert_row v x (rows d) |}, None).
Proof. intros Hf Hr. unfold apply_migration. rewrite Hf. change (λ i, ok (Run x i)) with (λ _ : nat, false). by rewrite Hr. Qed.

Lemma apply_settles up d x v d' fails :
  version_of x = Some v → apply_migration exec1 files fails d x v = (d', None) → settled up d' x ∧ ∀ y, settled up d y → settled up d' y.
Proof.
  intros Hv Ha. apply apply_cases in Ha as [[_ [? [=]]]|(_ & sc & s' & _ & _ & ->)]. split.
  - intros _ w Hw. assert (w = v) as -> by congruence. cbn [rows]. destruct (recorded (rows d) v) eqn:E; [done|]. by rewrite recorded_insert, Z.eqb_refl.
  - intros y Hy Hup w Hw. specialize (Hy Hup w Hw). cbn [rows]. destruct (recorded (rows d) v); [done|]. rewrite recorded_insert, Hy. apply orb_true_r.
Qed.

Lemma apply_agrees d x v d' fails :
  apply_migration exec1 files fails d x v = (d', None) → apply_migration exec1 files ok d x v = (d', None).
Proof. intros Ha. apply apply_cases in Ha as [[_ [? [=]]]|(_ & sc & s' & Hf & Hr & ->)]. by apply (apply_ok d x v sc). Qed.

Lemma apply_keeps d x v d' e fails : apply_migration exec1 files fails d x v = (d', Some e) → d' = d.
Proof. intros Ha. by apply apply_cases in Ha as [[-> _]|([=] & _)]. Qed.

Lemma sqlite_resumable fails :
  (∀ v, fails (Count v) = false) → resumable sqlite_up (sqlite_entry exec1 files fails) (sqlite_entry exec1 files ok).
Proof.
  intros Hc. unfold sqlite_entry. cbn [ok negb]. split.
  - intros d x Hs. destruct (sqlite_up x) eqn:Hup; [|done]. destruct (version_of x) as [v|] eqn:Hv; [|done]. cbn [negb]. by rewrite (Hs Hup v Hv).
  - intros d x d' e. destruct (negb _); [done|]. destruct (version_of x); [|done]. rewrite Hc. destruct (recorded _ _); [done|]. apply apply_keeps.
  - intros d x d'. destruct (negb _); [done|]. destruct (version_of x); [|done]. rewrite Hc. cbn [negb andb]. destruct (recorded _ _); [done|]. apply apply_agrees.
  - intros d x d'. destruct (sqlite_up x) eqn:Hup; cbn [negb]; [|intros [= <-]; split; [by intros ?; congruence|done]].
    destruct (version_of x) as [v|] eqn:Hv; [|intros [= <-]; split; [intros _ w; congruence|done]]. rewrite Hc. cbn [negb andb].
    destruct (recorded (rows d) v) eqn:Er; [intros [= <-]; split; [intros _ w Hw; congruence|done]|]. by apply apply_settles.
Qed.

Lemma pg_resumable fails : resumable pg_up (pg_entry exec1 files fails) (pg_entry exec1 files ok).
Proof.
  unfold pg_entry. cbn [ok]. split.
  - intros d x Hs. destruct (pg_up x) eqn:Hup; [|done]. destruct (version_of x) as [v|] eqn:Hv; [|done]. cbn [negb]. by rewrite (Hs Hup v Hv).
  - intros d x d' e. destruct (negb _); [done|]. destruct (version_of x); [|done]. destruct (fails (Count _)); [by intros [= <- _]|].
    destruct (recorded _ _); [done|]. apply apply_keeps.
  - intros d x d'. destruct (negb _); [done|]. destruct (version_of x); [|done]. destruct (fails (Count _)); [done|].
    destruct (recorded _ _); [done|]. apply apply_agrees.
  - intros d x d'. destruct (pg_up x) eqn:Hup; cbn [negb]; [|intros [= <-]; split; [by intros ?; congruence|done]].
    destruct (version_of x) as [v|] eqn:Hv; [|intros [= <-]; split; [intros _ w; congruence|done]]. destruct (fails (Count v)); [done|].
    destruct (recorded (rows d) v) eqn:Er; [intros [= <-]; split; [intros _ w Hw; congruence|done]|]. by apply apply_settles.
Qed.

Lemma loader_resumes up fails (f g : entry) d : resumable up f g → loader files ok g (loader files fails f d).1 = loader files ok g d.
Proof.
  intros Hr. unfold loader. cbn [ok]. destruct (fails CreateTable); [done|]. destruct (fails ListDir); [done|].
  apply (each_resumes up f g _ Hr d []). constructor.
Qed.

(** C20. A start that failed is made good by the next: migrating from where it stopped ends as
    migrating from the beginning would have, error included.  On PostgreSQL this holds wherever
    the first start failed (a query, a statement in the middle of a script, the record of a
    migration, a commit); on SQLite it holds wherever it failed but for the counting of applied
    migrations: a count that fails there reads as zero and the migration runs again. *)
Theorem migration_resumes fails d :
  pg_migrate exec1 files ok (pg_migrate exec1 files fails d).1 = pg_migrate exec1 files ok d ∧
  ((∀ v, fails (Count v) = false) →
   sqlite_migrate exec1 files ok (sqlite_migrate exec1 files fails d).1 = sqlite_migrate exec1 files ok d).
Proof.
  split; [|intros Hc].
  - exact (loader_resumes _ fails _ _ d (pg_resumable fails)).
  - exact (loader_resumes _ fails _ _ d (sqlite_resumable fails Hc)).
Qed.

End Theory.
(** ** Undoing migrations *)

Section Down.
Context {Schema Stmt : Type} (exec1 : Stmt → Schema → option Schema) (files : list (string * list Stmt)).

Abbreviation table := (list (Z * string)).
Abbreviation db := (@DB Schema).

(** A script without failures, and a list of migrations. *)
Definition run_ok (sc : list Stmt) (s : Schema) : option Schema :=
  match run exec1 (λ _, false) 0 sc s with (s', true) => Some s' | _ => None end.

Fixpoint run_ups (l : table) (s : Schema) : option Schema :=
  match l with
  | [] => Some s
  | m :: l => sc ← ReadFile files m.2; s' ← run_ok sc s; run_ups l s'
  end.

(** The migrations among the files, with their versions. *)
Definition ups (up : string → bool) (l : list string) : table :=
  omap (λ x, if up x then v ← version_of x; Some (v, x) else None) l.

Definition ascending : table → Prop := StronglySorted (λ a b, a.1 < b.1).

Lemma run_ups_app l k s : run_ups (l ++ k) s = s' ← run_ups l s; run_ups k s'.
Proof.
  revert s. induction l as [|m l IH]; intros s; cbn [app run_ups]; [done|]. destruct (ReadFile files m.2) as [sc|]; [|done]. cbn [mbind option_bind].
  destruct (run_ok sc s); [|done]. apply IH.
Qed.

Lemma recorded_below t v : Forall (λ r, r.1 < v) t → recorded t v = false.
Proof. unfold recorded. induction 1 as [|r t Hr _ IH]; [done|]. cbn [existsb]. rewrite IH. rewrite (proj2 (Z.eqb_neq _ _)); [done|lia]. Qed.

Lemma insert_above v n t : Forall (λ r, r.1 < v) t → insert_row v n t = t ++ [(v, n)].
Proof.
  induction 1 as [|r t Hr _ IH]; [done|]. cbn [insert_row app]. rewrite (proj2 (Z.ltb_ge _ _)) by lia. by rewrite IH.
Qed.

(** The two loaders' steps, without failures. *)
Definition entry_for (up : string → bool) (d : db) (x : string) : db * option merr :=
  if negb (up x) then (d, None)
  else match version_of x with
  | None => (d, None)
  | Some v => if recorded (rows d) v then (d, None) else apply_migration exec1 files ok d x v
  end.

Lemma each_migrates up l : ∀ d d',
  ascending (rows d ++ ups up l) → each (entry_for up) l d = (d', None) →
  rows d' = rows d ++ ups up l ∧ run_ups (ups up l) (schema d) = Some (schema d').
Proof.
  induction l as [|x l IH]; intros d d' Hasc; cbn [each ups omap list_omap].
  { intros [= <-]. by rewrite app_nil_r. }
  unfold entry_for at 1. fold (ups up l). unfold ups in Hasc. cbn [omap list_omap] in Hasc. fold (ups up l) in Hasc. destruct (up x); cbn [negb]; [|by apply IH].
  destruct (version_of x) as [v|] eqn:Hv; cbn [mbind option_bind] in Hasc |- *; [|by apply IH].
  assert (Forall (λ r, r.1 < v) (rows d)) as Hlt.
  { apply Forall_forall. intros r Hr. apply (StronglySorted_app_1_elem_of _ _ _ r (v, x) Hasc); [done|apply list_elem_of_here]. }
  rewrite (recorded_below _ _ Hlt). destruct (apply_migration exec1 files ok d x v) as [d1 [e|]] eqn:E; [done|].
  apply apply_cases in E as [[_ [? [=]]]|(_ & sc & s' & Hf & Hr & ->)]. rewrite (recorded_below _ _ Hlt), (insert_above _ _ _ Hlt).
  intros H. apply IH in H as [-> H2]; cbn [rows schema] in *; [|by rewrite <- app_assoc]. rewrite <- app_assoc. split; [done|].
  cbn [run_ups snd]. rewrite Hf. cbn [mbind option_bind]. unfold run_ok. by rewrite Hr.
Qed.

Lemma delete_last t m : Forall (λ r, r.1 < m.1) t → delete_row m.1 (t ++ [m]) = t.
Proof.
  intros H. unfold delete_row. rewrite filter_app, filter_cons, decide_False by (intros E; by apply E). rewrite filter_nil, app_nil_r.
  induction H as [|r t Hr _ IH]; [done|]. rewrite filter_cons, decide_True by lia. by rewrite IH.
Qed.

Lemma ascending_last l m : ascending (l ++ [m]) → ascending l ∧ Forall (λ r, r.1 < m.1) l.
Proof.
  intros H. split; [by apply StronglySorted_app_1_l in H|]. apply Forall_forall. intros r Hr.
  apply (StronglySorted_app_1_elem_of _ _ _ r m H); [done|apply list_elem_of_here].
Qed.

(** [g] takes the newest migration back. *)
Definition undoes (g : db → Z * string → db * option merr) (m : Z * string) : Prop :=
  ∀ s s' t, run_ups [m] s = Some s' → g {| schema := s'; rows := t |} m = ({| schema := s; rows := delete_row m.1 t |}, None).

Lemma each_row_undoes g k : ∀ us s0 s, Forall (undoes g) us → ascending us → run_ups us s0 = Some s →
  ∃ s1, each_row g (take k (reverse us)) {| schema := s; rows := us |} =
          ({| schema := s1; rows := take (length us - k) us |}, None) ∧ run_ups (take (length us - k) us) s0 = Some s1.
Proof.
  induction k as [|k IH]; intros us s0 s Hg Ha Hr.
  { exists s. rewrite Nat.sub_0_r, firstn_all. by rewrite take_0. }
  destruct us as [|m us _] using rev_ind; [by exists s|]. rewrite reverse_snoc. cbn [take each_row].
  apply ascending_last in Ha as [Ha Hm]. apply Forall_app in Hg as [Hg Hgm]. apply Forall_cons_1 in Hgm as [Hgm _]. rewrite run_ups_app in Hr.
  destruct (run_ups us s0) as [s2|] eqn:E; [|done]. cbn [mbind option_bind] in Hr. rewrite (Hgm _ _ _ Hr), (delete_last _ _ Hm).
  destruct (IH us s0 s2 Hg Ha E) as (s1 & H1 & H2). exists s1. rewrite length_app. cbn [length].
  replace (length us + 1 - S k)%nat with (length us - k)%nat by lia. rewrite take_app_le by lia. done.
Qed.

Definition down_inverts (down_of : string → string) (x : string) : Prop :=
  ∀ sc, ReadFile files x = Some sc →
    ∃ dn, ReadFile files (down_of x) = Some dn ∧ ∀ s s', run_ok sc s = Some s' → run_ok dn s' = Some s.

Definition sqlite_down_of (x : string) : string := TrimSuffix x ".sql" +:+ ".down.sql".
Definition pg_down_of (x : string) : string := TrimSuffix x ".pgsql.sql" +:+ ".pgsql.down.sql".

Lemma run_ok_inv sc s s' : run_ok sc s = Some s' → run exec1 (λ _, false) 0 sc s = (s', true).
Proof. unfold run_ok. destruct (run _ _ _ _ _) as [x [|]]; [by intros [= ->]|done]. Qed.

Lemma sqlite_down_undoes m : down_inverts sqlite_down_of m.2 → undoes (sqlite_down exec1 files ok) m.
Proof.
  intros Hd s s' t. cbn [run_ups]. destruct (ReadFile files m.2) as [sc|] eqn:Hf; [|done]. cbn [mbind option_bind]. destruct (run_ok sc s) as [x|] eqn:E; [|done].
  intros [= ->]. destruct (Hd sc Hf) as (dn & Hdn & Hinv). unfold sqlite_down. fold (sqlite_down_of m.2). rewrite Hdn. cbn [schema].
  change (λ i, ok (Run (sqlite_down_of m.2) i)) with (λ _ : nat, false). by rewrite (run_ok_inv _ _ _ (Hinv _ _ E)).
Qed.

Lemma pg_down_undoes m : down_inverts pg_down_of m.2 → undoes (pg_down exec1 files ok) m.
Proof.
  intros Hd s s' t. cbn [run_ups]. destruct (ReadFile files m.2) as [sc|] eqn:Hf; [|done]. cbn [mbind option_bind]. destruct (run_ok sc s) as [x|] eqn:E; [|done].
  intros [= ->]. destruct (Hd sc Hf) as (dn & Hdn & Hinv). unfold pg_down. fold (pg_down_of m.2). rewrite Hdn. cbn [schema ok].
  change (λ i, ok (Run (pg_down_of m.2) i)) with (λ _ : nat, false). by rewrite (run_ok_inv _ _ _ (Hinv _ _ E)).
Qed.

Lemma ups_all up (P : string → Prop) l : (∀ x, up x = true → P x) → Forall (λ m, P m.2) (ups up l).
Proof.
  intros H. apply Forall_forall. intros m Hm. unfold ups in Hm. apply list_elem_of_omap in Hm as (x & _ & Hx).
  destruct (up x) eqn:Hup; [|done]. destruct (version_of x); [|done]. injection Hx as <-. by apply H.
Qed.

Lemma chosen_take steps (t : table) : chosen steps t = take (length (chosen steps t)) t.
Proof.
  unfold chosen. set (k := Z.to_nat _). rewrite length_take. destruct (decide (k ≤ length t)%nat); [by rewrite Nat.min_l|].
  rewrite Nat.min_r by lia. by rewrite !take_ge by lia.
Qed.

Lemma each_chosen g steps us s0 s : Forall (undoes g) us → ascending us → run_ups us s0 = Some s →
  let left_ := take (length us - length (chosen steps (reverse us))) us in
  ∃ s1, each_row g (chosen steps (reverse us)) {| schema := s; rows := us |} = ({| schema := s1; rows := left_ |}, None) ∧ run_ups left_ s0 = Some s1.
Proof.
  intros Hg Ha Hr. destruct (each_row_undoes g (length (chosen steps (reverse us))) us s0 s Hg Ha Hr) as (s1 & H1 & H2).
  exists s1. by rewrite <- chosen_take in H1.
Qed.

(** A new database, migrated and then rolled back by any number of steps, is the new database with
    only the first migrations run, for both backends: all steps give back the new database.  The
    versions of the files must increase and each down script must undo its migration. *)
Theorem rollback_undoes_migrate s0 steps d :
  (ascending (ups sqlite_up (entries files)) → (∀ x, sqlite_up x = true → down_inverts sqlite_down_of x) →
   sqlite_migrate exec1 files ok {| schema := s0; rows := [] |} = (d, None) →
   let left_ := take (length (rows d) - length (chosen steps (reverse (rows d)))) (ups sqlite_up (entries files)) in
   ∃ s1, sqlite_Rollback exec1 files ok steps d = ({| schema := s1; rows := left_ |}, None) ∧ run_ups left_ s0 = Some s1) ∧
  (ascending (ups pg_up (entries files)) → (∀ x, pg_up x = true → down_inverts pg_down_of x) →
   pg_migrate exec1 files ok {| schema := s0; rows := [] |} = (d, None) →
   let left_ := take (length (rows d) - length (chosen steps (reverse (rows d)))) (ups pg_up (entries files)) in
   ∃ s1, pg_Rollback exec1 files ok steps d = ({| schema := s1; rows := left_ |}, None) ∧ run_ups left_ s0 = Some s1).
Proof.
  split; intros Ha Hd Hm; cbv zeta.
  - change (each (entry_for sqlite_up) (entries files) {| schema := s0; rows := [] |} = (d, None)) in Hm.
    destruct (each_migrates sqlite_up (entries files) {| schema := s0; rows := [] |} d Ha Hm) as [Er Es]. cbn [rows schema app] in Er, Es. destruct d as [s t]. cbn [rows schema] in *. subst t.
    unfold sqlite_Rollback. cbn [ok rows]. apply each_chosen; [|done|done].
    eapply Forall_impl; [exact (ups_all sqlite_up (down_inverts sqlite_down_of) (entries files) Hd)|]. intros m. apply sqlite_down_undoes.
  - change (each (entry_for pg_up) (entries files) {| schema := s0; rows := [] |} = (d, None)) in Hm.
    destruct (each_migrates pg_up (entries files) {| schema := s0; rows := [] |} d Ha Hm) as [Er Es]. cbn [rows schema app] in Er, Es. destruct d as [s t]. cbn [rows schema] in *. subst t.
    unfold pg_Rollback. cbn [ok rows]. apply each_chosen; [|done|done].
    eapply Forall_impl; [exact (ups_all pg_up (down_inverts pg_down_of) (entries files) Hd)|]. intros m. apply pg_down_undoes.
Qed.

(** On Postgres a rollback that fails anywhere has undone some of the migrations wholly and the
    rest not at all. *)
Theorem pg_rollback_whole_steps fails steps d d' e :
  pg_Rollback exec1 files fails steps d = (d', e) →
  ∃ k, each_row (pg_down exec1 files ok) (take k (chosen steps (reverse (rows d)))) d = (d', None).
Proof.
  unfold pg_Rollback. destruct (fails ListRows); [intros [= <- _]; by exists O|]. generalize (chosen steps (reverse (rows d))). intros l. revert d.
  induction l as [|m l IH]; intros d; cbn [each_row]; [intros [= <- _]; by exists O|].
  destruct (pg_down exec1 files fails d m) as [d1 [e1|]] eqn:E.
  - intros [= <- _]. exists O. rewrite take_0. cbn [each_row]. f_equal. unfold pg_down in E.
    destruct (fails (Begin m.1)); [by injection E|]. destruct (ReadFile files _) as [sc|]; [|by injection E].
    destruct (run exec1 _ 0 sc (schema d)) as [s' [|]]; cbn [negb] in E; [|by injection E].
    destruct (fails (Write m.1)); [by injection E|]. by destruct (fails (Commit m.1)); injection E.
  - intros H. apply IH in H as [k Hk]. exists (S k). cbn [take each_row]. replace (pg_down exec1 files ok d m) with (d1, @None merr); [done|].
    unfold pg_down in *. cbn [ok]. destruct (fails (Begin m.1)); [done|]. destruct (ReadFile files _) as [sc|]; [|done].
    destruct (run exec1 _ 0 sc (schema d)) as [s' [|]] eqn:Er; cbn [negb] in E; [|done]. apply run_agrees in Er.
    destruct (fails (Write m.1)); [done|]. destruct (fails (Commit m.1)); [done|].
    change (λ i, ok (Run (TrimSuffix m.2 ".pgsql.sql" +:+ ".pgsql.down.sql") i)) with (λ _ : nat, false). by rewrite Er.
Qed.

(** Without the down script of the newest migration the record stays and a rollback can never
    get past it. *)
Theorem missing_down_blocks_rollback fails steps d t m :
  rows d = t ++ [m] → ReadFile files (pg_down_of m.2) = None → (pg_Rollback exec1 files fails steps d).1 = d ∧
  is_Some (pg_Rollback exec1 files fails steps d).2.
Proof.
  intros Ht Hm. unfold pg_Rollback. destruct (fails ListRows); [by split; eauto|]. rewrite Ht, reverse_snoc.
  assert (∃ l, chosen steps (m :: reverse t) = m :: l) as [l ->].
  { unfold chosen. set (n := Z.of_nat (length (m :: reverse t))). assert (0 < n) as Hn by (unfold n; cbn [length]; lia).
    set (k := if (steps <=? 0) || (n <? steps) then n else steps). assert (0 < k) as Hk.
    { unfold k. destruct (steps <=? 0) eqn:E1; cbn [orb]; [lia|]. destruct (n <? steps); lia. }
    destruct (Z.to_nat k) eqn:E; [lia|]. eauto. }
  cbn [each_row]. unfold pg_down. fold (pg_down_of m.2). rewrite Hm. destruct (fails (Begin m.1)); by split; eauto.
Qed.

End Down.
(** ** Examples *)

(** A schema is the tables in the order they were made. *)
Inductive statement := Create (t : string) | Drop (t : string).

Definition exec_sample (q : statement) (s : list string) : option (list string) :=
  match q, s with
  | Create t, _ => if decide (t ∈ s) then None else Some (t :: s)
  | Drop t, x :: s' => if decide (x = t) then Some s' else None
  | Drop _, [] => None
  end.

Definition sample_files : list (string * list statement) :=
  [("0002_more.sql", [Create "c"; Create "d"]); ("0002_more.down.sql", [Drop "d"; Drop "c"]);
   ("0001_init.pgsql.sql", [Create "a"]); ("0001_init.pgsql.down.sql", [Drop "a"]);
   ("0001_init.sql", [Create "a"]); ("0001_init.down.sql", [Drop "a"])].

Definition fresh : @DB (list string) := {| schema := []; rows := [] |}.
Definition migrated : @DB (list string) := {| schema := ["d"; "c"; "a"]; rows := [(1, "0001_init.sql"); (2, "0002_more.sql")] |}.

Example sample_migrates : sqlite_migrate exec_sample sample_files ok fresh = (migrated, None).
Proof. reflexivity. Qed.

Definition second_statement_fails (name : string) (x : step) : bool :=
  match x with Run n i => bool_decide (n = name ∧ i = 1%nat) | _ => false end.

Lemma migration_resumes_witness :
  sqlite_migrate exec_sample sample_files ok (sqlite_migrate exec_sample sample_files (second_statement_fails "0002_more.sql") fresh).1 =
  (migrated, None).
Proof.
  rewrite (proj2 (migration_resumes exec_sample sample_files (second_statement_fails "0002_more.sql") fresh) (λ _, eq_refl)). reflexivity.
Defined.

Lemma ReadFile_in {Stmt} (fs : list (string * list Stmt)) x sc : ReadFile fs x = Some sc → (x, sc) ∈ fs.
Proof.
  unfold ReadFile. intros ([y z] & Hh & ->)%fmap_Some. destruct (filter _ fs) as [|w l] eqn:E; [done|]. injection Hh as ->.
  assert ((y, z) ∈ filter (λ f, f.1 = x) fs) as [Hx Hy]%list_elem_of_filter by (rewrite E; apply list_elem_of_here). cbn in Hx. by subst.
Qed.

Lemma sample_down x : sqlite_up x = true → down_inverts exec_sample sample_files sqlite_down_of x.
Proof.
  intros Hup sc Hin%ReadFile_in. unfold sample_files in Hin. rewrite !elem_of_cons, elem_of_nil in Hin.
  destruct Hin as [H|[H|[H|[H|[H|[H|[]]]]]]]; injection H as -> ->; try discriminate Hup.
  - exists [Drop "d"; Drop "c"]. split; [done|]. intros s s'. unfold run_ok. cbn. case_decide; [done|]. cbn. by case_decide; [|intros [= <-]].
  - exists [Drop "a"]. split; [done|]. intros s s'. unfold run_ok. cbn. by case_decide; [|intros [= <-]].
Qed.

Lemma sample_ascending : ascending (ups sqlite_up (entries sample_files)).
Proof. repeat constructor; cbn; lia. Qed.

(** One step back leaves what the first migration made. *)
Lemma rollback_undoes_migrate_witness :
  ∃ s1, sqlite_Rollback exec_sample sample_files ok 1 migrated = ({| schema := s1; rows := [(1, "0001_init.sql")] |}, None) ∧
    run_ups exec_sample sample_files [(1, "0001_init.sql")] [] = Some s1.
Proof.
  exact (proj1 (rollback_undoes_migrate exec_sample sample_files [] 1 migrated) sample_ascending sample_down eq_refl).
Defined.

Definition pg_migrated : @DB (list string) := {| schema := ["a"]; rows := [(1, "0001_init.pgsql.sql")] |}.

Lemma pg_rollback_whole_steps_witness :
  ∃ k, each_row (pg_down exec_sample sample_files ok) (take k [(1, "0001_init.pgsql.sql")]) pg_migrated = (pg_migrated, None).
Proof.
  exact (pg_rollback_whole_steps exec_sample sample_files (λ x, match x with Commit 1 => true | _ => false end) 0 pg_migrated _ _ eq_refl).
Defined.

Lemma missing_down_blocks_rollback_witness :
  (pg_Rollback exec_sample [("0001_init.pgsql.sql", [Create "a"])] ok 0 pg_migrated).1 = pg_migrated.
Proof.
  exact (proj1 (missing_down_blocks_rollback exec_sample [("0001_init.pgsql.sql", [Create "a"])] ok 0 pg_migrated []
    (1, "0001_init.pgsql.sql") eq_refl eq_refl)).
Defined.

(** On SQLite a down script that fails half way leaves half of it done, and no second attempt
    can succeed. *)
Example sqlite_rollback_can_stop_half_way :
  let '(d, e) := sqlite_Rollback exec_sample sample_files (second_statement_fails "0002_more.down.sql") 1 migrated in
  d = {| schema := ["c"; "a"]; rows := rows migrated |} ∧ e = Some EApply ∧ sqlite_Rollback exec_sample sample_files ok 1 d = (d, Some EApply).
Proof. by split_and!. Qed.

(** A count that fails on SQLite reads as zero: the migration runs again. *)
Example failed_count_runs_again :
  (sqlite_migrate exec_sample sample_files (λ x, match x with Count 1 => true | _ => false end) migrated).2 = Some EApply.
Proof. reflexivity. Qed.

(** The files of the repository, in the order of their versions. *)
Definition repository_names : list string :=
  ["0001_init"; "0002_add_indexes"; "0003_add_hot_query_indexes"; "0004_add_server_region_size"; "0005_expand_builtin_role_permissions";
   "0006_leader_election"; "0007_totp_backup_codes"].

Definition repository_files : list (string * list statement) :=
  repository_names ≫= λ n, (λ x, (n +:+ x, [])) <$> [".down.sql"; ".pgsql.down.sql"; ".pgsql.sql"; ".sql"].

Example repository_versions :
  (ups sqlite_up (entries repository_files)).*1 = [1; 2; 3; 4; 5; 6; 7] ∧ (ups pg_up (entries repository_files)).*1 = [1; 2; 3; 4; 5; 6; 7].
Proof. vm_compute. by split. Qed.

End Migrate.
