(* ===== verification/EnvVars.v ===== *)
(** * EnvVars: environment variables of an application ([handlers/env_ops.go])

    Reading, replacing, comparing, importing and exporting the variables, which the row of an
    application holds as one JSON text.  The encoding of that text is a class with the round trip
    that its users rely on. *)

From S2P Require Import Prelude GoStrings Monitor Market Apps.
#[local] Open Scope Z_scope.

Module EnvVars.
Import Apps.

(** src/internal/api/handlers/env_ops.go:23-26 envVarEntry *)
Record envVarEntry := { Key : string; Value : string }.

#[export] Instance envVarEntry_eq_dec : EqDecision envVarEntry.
Proof. solve_decision. Defined.

(** [encoding/json] on lists of variables: what is marshalled is read back, as long as it is
    ASCII text. *)
Definition ascii_text (s : string) : Prop := Forall (λ c, Ascii.nat_of_ascii c < 128)%nat (bytes s).
Definition ascii_entry (v : envVarEntry) : Prop := ascii_text (Key v) ∧ ascii_text (Value v).

Class EnvCodec := {
  marshal : list envVarEntry → string;
  unmarshal : string → option (list envVarEntry);
  (** what is in the list after an error that is not looked at *)
  decoded : string → list envVarEntry }.

Class EnvCodecLaws `(EnvCodec) : Prop := {
  marshal_nonempty l : marshal l ≠ "";
  unmarshal_marshal l : Forall ascii_entry l → unmarshal (marshal l) = Some l;
  decoded_unmarshal s l : unmarshal s = Some l → decoded s = l }.

(** ** Values *)

Definition backslash : ascii := byte 92.
Definition quote : ascii := byte 34.
Definition newline : ascii := byte 10.

(** src/internal/api/handlers/env_ops.go:299-312 sanitizeEnvValue.rune *)
Definition escape_rune (r : list ascii) : list ascii :=
  match r with
  | [c] =>
      if decide (c = backslash) then [backslash; backslash]
      else if decide (c = quote) then [backslash; quote]
      else if decide (c = "$"%char) then ["$"%char; "$"%char]
      else if decide (c = newline) then [backslash; "n"%char]
      else if decide (c = byte 13) then [backslash; "r"%char]
      else r
  | _ => r
  end.

Definition escape (v : string) : list ascii := concat (escape_rune <$> runes (slen v) (bytes v)).

(** src/internal/api/handlers/env_ops.go:295-316 sanitizeEnvValue *)
Definition sanitizeEnvValue (v : string) : string := str (quote :: escape v ++ [quote]).

(** src/internal/api/handlers/env_ops.go:330-334 parseDotEnv.unquote *)
Definition unquote (v : string) : string :=
  let l := bytes v in
  let wrapped (q : ascii) := bool_decide (head l = Some q ∧ last l = Some q) in
  if (2 <=? length l)%nat && (wrapped quote || wrapped "'"%char) then str (take (length l - 2) (drop 1 l)) else v.

(** src/internal/api/handlers/env_ops.go:319-336 parseDotEnv.line *)
Definition parse_line (line : string) : option envVarEntry :=
  let line := TrimSpace line in
  match bytes line with
  | [] => None
  | c :: _ =>
      if decide (c = "#"%char) then None
      else match index_of ["="%char] (bytes line) with
      | None | Some O => None
      | Some i => Some {| Key := TrimSpace (str (take i (bytes line))); Value := unquote (TrimSpace (str (drop (S i) (bytes line)))) |}
      end
  end.

(** src/internal/api/handlers/env_ops.go:317-338 parseDotEnv *)
Definition parseDotEnv (content : string) : list envVarEntry := omap parse_line (Split content newline).

(** src/internal/api/handlers/env_ops.go:287-290 EnvImportHandler.Export.text *)
Definition dotenv (vars : list envVarEntry) : string :=
  str (concat ((λ v, bytes (Key v) ++ "="%char :: bytes (sanitizeEnvValue (Value v)) ++ [newline]) <$> vars)).

(** src/internal/api/handlers/env_ops.go:186-191 maskShort *)
Definition maskShort (v : string) : string :=
  let l := bytes v in
  if (length l <=? 4)%nat then "****" else str (take 2 l ++ bytes "**" ++ drop (length l - 2) l).

(** ** Handlers *)

Section Handlers.
Context `{EnvCodec}.
Variable fails : stmt → bool.

(** src/internal/api/handlers/env_ops.go:34-47 EnvVarHandler.Get *)
Definition Get (s : Store) (t id : string) : result Z (list envVarEntry) :=
  a ←! requireTenantApp fails s t id;
  if decide (EnvVarsEnc a = "") then Ok []
  else match unmarshal (EnvVarsEnc a) with None => Err 500 | Some l => Ok l end.

Definition total_size (l : list envVarEntry) : Z := foldr (λ v n, Z.of_nat (slen (Key v)) + Z.of_nat (slen (Value v)) + n) 0 l.

(** src/internal/api/handlers/env_ops.go:230-253 EnvImportHandler.Import.validate *)
Definition valid_vars (l : list envVarEntry) : bool :=
  forallb (λ v, negb (bool_decide (Key v = "")) && (Z.of_nat (slen (Key v)) <=? 256) && (Z.of_nat (slen (Value v)) <=? 64 * 1024)) l &&
  (total_size l <=? 512 * 1024).

Definition with_env (e : string) (a : Application) : Application :=
  {| aID := aID a; ProjectID := ProjectID a; aTenant := aTenant a; aName := aName a; Type_ := Type_ a; SourceType := SourceType a;
     SourceURL := SourceURL a; Branch := Branch a; Dockerfile := Dockerfile a; EnvVarsEnc := e; LabelsJSON := LabelsJSON a;
     Replicas := Replicas a; Status := Status a; ServerID := ServerID a; UpdatedAt := UpdatedAt a |}.

(** src/internal/api/handlers/env_ops.go:50-102 EnvVarHandler.Update *)
Definition Update (s : Store) (t id : string) (req : option (list envVarEntry)) : Store * Z :=
  match requireTenantApp fails s t id with
  | Err c => (s, c)
  | Ok a =>
      match req with
      | None => (s, 400)
      | Some vars =>
          if (500 <? length vars)%nat || negb (valid_vars vars) then (s, 400)
          else match (if fails SUpdateApp then None else UpdateApp s (with_env (marshal vars) a)) with
          | None => (s, 500)
          | Some s' => (s', 200)
          end
      end
  end.

(** What the body of an import holds: [None] cannot be read. *)
Inductive import_body := JSONArray (l : option (list envVarEntry)) | DotEnv (content : string).

(** The result of the update is not looked at.
    src/internal/api/handlers/env_ops.go:205-266 EnvImportHandler.Import *)
Definition Import_ (s : Store) (t id : string) (body : option import_body) : Store * Z :=
  if decide (id = "") then (s, 400)
  else match body with
  | None | Some (JSONArray None) => (s, 400)
  | Some b =>
      let vars := match b with JSONArray (Some l) => l | JSONArray None => [] | DotEnv c => parseDotEnv (str (take 1048576 (bytes c))) end in
      if decide (vars = []) then (s, 400)
      else if negb (valid_vars vars) then (s, 400)
      else match requireTenantApp fails s t id with
      | Err c => (s, c)
      | Ok a => (if fails SUpdateApp then s else default s (UpdateApp s (with_env (marshal vars) a)), 200)
      end
  end.

(** The answer of an export: the variables or the text. *)
Inductive export_body := AsJSON (l : list envVarEntry) | AsText (s : string).

(** src/internal/api/handlers/env_ops.go:270-291 EnvImportHandler.Export *)
Definition Export (s : Store) (t id format : string) : result Z export_body :=
  a ←! requireTenantApp fails s t id;
  let vars := if decide (EnvVarsEnc a = "") then [] else decoded (EnvVarsEnc a) in
  Ok (if decide (format = "json") then AsJSON vars else AsText (dotenv vars)).

(** src/internal/api/handlers/env_ops.go:171-185 parseEnvJSON *)
Definition parseEnvJSON (enc : string) : gmap string string :=
  if decide (enc = "") then ∅ else foldl (λ m v, <[Key v := Value v]> m) ∅ (decoded enc).

Inductive diff_status := Added | Removed | Changed.

(** src/internal/api/handlers/env_ops.go:115-120 EnvDiff *)
Record EnvDiff := { dKey : string; Left_ : string; Right_ : string; dStatus : diff_status }.

(** [lo] and [ro] are the orders in which the two maps are walked.
    src/internal/api/handlers/env_ops.go:146-163 EnvCompareHandler.Compare.diffs *)
Definition diffs (lvars rvars : gmap string string) (lo ro : list (string * string)) : list EnvDiff :=
  omap (λ kv, match rvars !! kv.1 with
              | None => Some {| dKey := kv.1; Left_ := maskShort kv.2; Right_ := ""; dStatus := Removed |}
              | Some rv => if decide (kv.2 = rv) then None
                           else Some {| dKey := kv.1; Left_ := maskShort kv.2; Right_ := maskShort rv; dStatus := Changed |}
              end) lo ++
  omap (λ kv, match lvars !! kv.1 with
              | None => Some {| dKey := kv.1; Left_ := ""; Right_ := maskShort kv.2; dStatus := Added |}
              | Some _ => None
              end) ro.

(** src/internal/api/handlers/env_ops.go:136-145 EnvCompareHandler.Compare.app *)
Definition own_app (s : Store) (t id : string) : option Application :=
  if fails SGetApp then None else a ← find_app s id; if decide (aTenant a = t) then Some a else None.

(** src/internal/api/handlers/env_ops.go:123-170 EnvCompareHandler.Compare *)
Definition Compare (s : Store) (t : string) (req : option (string * string)) (lo ro : list (string * string)) : result Z (list EnvDiff) :=
  match req with
  | None => Err 400
  | Some (lid, rid) =>
      match own_app s t lid with
      | None => Err 404
      | Some la =>
          match own_app s t rid with
          | None => Err 404
          | Some ra => Ok (diffs (parseEnvJSON (EnvVarsEnc la)) (parseEnvJSON (EnvVarsEnc ra)) lo ro)
          end
      end
  end.

(** The environment of the project is set on the value that was read and not stored.
    src/internal/api/handlers/env_ops.go:386-418 EnvironmentHandler.ApplyPreset *)
Definition ApplyPreset (s : Store) (t id : string) (req : option string) : Z :=
  if decide (id = "") then 400
  else match req with
  | None => 400
  | Some _ =>
      if fails SProjects then 404
      else match head (filter (λ p, p.1 = id) (projects s)) with
      | None => 404
      | Some p => if decide (p.2 = t) then 200 else 403
      end
  end.

End Handlers.
(** ** The text format *)

(** An ASCII byte that is no white space. *)
Definition solid (c : ascii) : Prop := (Ascii.nat_of_ascii c < 128)%nat ∧ [c] ∉ space_seqs.
#[export] Instance solid_dec c : Decision (solid c).
Proof. unfold solid. apply _. Defined.

(** White space neither begins nor ends with a solid byte. *)
Lemma spaces_edges :
  Forall (λ p, (∀ c, head p = Some c → ¬ solid c) ∧ (∀ c, last p = Some c → ¬ solid c) ∧ p ≠ []) all_spaces.
Proof.
  pose (edges p := match head p, last p with Some a, Some b => bool_decide (¬ solid a ∧ ¬ solid b) | _, _ => false end).
  assert (Forall edges all_spaces) as H by (apply forallb_True; vm_compute; exact I).
  eapply Forall_impl; [exact H|]. intros p. unfold edges. destruct (head p) eqn:E1, (last p) eqn:E2; try done.
  intros [Ha Hb]%bool_decide_unpack. split_and!; [by intros c [= <-]|by intros c [= <-]|]. by intros ->.
Qed.

Lemma TrimSpace_edges l x y : head l = Some x → last l = Some y → solid x → solid y → TrimSpace (str l) = str l.
Proof.
  intros Hx Hy Px Py. unfold TrimSpace. rewrite bytes_str.
  assert (∀ n, trim_left n l = l) as ->.
  { intros [|n]; cbn [trim_left]; [done|]. rewrite (proj2 (list_find_None _ _)); [done|]. eapply Forall_impl; [exact spaces_edges|].
    intros p (H1 & _ & Hne) [k ->]. destruct p as [|c p]; [done|]. cbn in Hx. injection Hx as ->. by apply (H1 x). }
  f_equal. generalize (length l). intros [|n]; cbn [trim_right]; [done|]. rewrite (proj2 (list_find_None _ _)); [done|].
  eapply Forall_impl; [exact spaces_edges|]. intros p (_ & H2 & Hne) [k ->]. apply (H2 y); [|done].
  rewrite last_app in Hy. destruct (last p) eqn:E; [congruence|]. by apply last_None in E.
Qed.

Definition high (c : ascii) : Prop := (128 ≤ Ascii.nat_of_ascii c)%nat.

Lemma in_bytes_high lo hi c : (128 ≤ lo)%nat → in_bytes lo hi c = true → high c.
Proof. unfold in_bytes, high. intros Hlo [H _]%andb_true_iff. apply Nat.leb_le in H. lia. Qed.

(** A rune of several bytes has no ASCII byte. *)
Lemma rune_bytes l n : rune_len l = S n → n = O ∨ Forall high (take (S n) l).
Proof.
  destruct l as [|c r]; [done|]. cbn [rune_len]. destruct (in_bytes 0 127 c); [intros [= <-]; by left|].
  destruct (in_bytes 194 223 c) eqn:E2.
  { destruct r as [|a r]; [done|]. destruct (cont a) eqn:Ea; [|done]. intros [= <-]. right.
    change (Forall high [c; a]). rewrite !Forall_cons. split_and!; [eapply (in_bytes_high 194), E2; lia|eapply (in_bytes_high 128), Ea; lia|done]. }
  assert (∀ a, in_bytes 160 191 a = true ∨ in_bytes 128 159 a = true ∨ in_bytes 144 191 a = true ∨ in_bytes 128 143 a = true ∨ cont a = true → high a) as Hh.
  { intros a [H|[H|[H|[H|H]]]]; eapply in_bytes_high; [|exact H| |exact H| |exact H| |exact H| |exact H]; lia. }
  destruct (in_bytes 224 239 c) eqn:E3.
  { destruct r as [|a [|b r]]; [done|done|]. intros Hn. right. destruct (_ && cont b) eqn:E; [|done]. injection Hn as <-. apply andb_true_iff in E as [Ea Eb].
    change (Forall high [c; a; b]). rewrite !Forall_cons. split_and!; [eapply (in_bytes_high 224), E3; lia| |by apply Hh; auto 6|done].
    apply Hh. destruct (in_bytes 224 224 c); [auto|]. destruct (in_bytes 237 237 c); auto 6. }
  destruct (in_bytes 240 244 c) eqn:E4; [|done]. destruct r as [|a [|b [|d r]]]; [done..|]. intros Hn. right.
  destruct (_ && cont b && cont d) eqn:E; [|done]. injection Hn as <-. apply andb_true_iff in E as [[Ea Eb]%andb_true_iff Ed].
  change (Forall high [c; a; b; d]). rewrite !Forall_cons. split_and!; [eapply (in_bytes_high 240), E4; lia| |by apply Hh; auto 6|by apply Hh; auto 6|done].
  apply Hh. destruct (in_bytes 240 240 c); [auto 6|]. destruct (in_bytes 244 244 c); auto 6.
Qed.

Lemma escaped_no_newline fuel l : newline ∉ concat (escape_rune <$> runes fuel l).
Proof.
  revert l. induction fuel as [|fuel IH]; intros l; [by apply not_elem_of_nil|]. destruct l as [|c r]; [by apply not_elem_of_nil|]. cbn [runes].
  destruct (rune_len (c :: r)) as [|n] eqn:E; cbn [fmap list_fmap concat].
  - apply not_elem_of_app. split; [|apply IH]. by apply (bool_decide_eq_false_1 _).
  - apply not_elem_of_app. split; [|apply IH]. destruct (rune_bytes _ _ E) as [->|H].
    + cbn [take]. unfold escape_rune. repeat case_decide; try by apply (bool_decide_eq_false_1 _).
      intros Hc%list_elem_of_singleton. congruence.
    + intros Hin. assert (newline ∈ take (S n) (c :: r)) as Hin2.
      { destruct (take (S n) (c :: r)) as [|x [|y k]] eqn:Et; cbn [escape_rune] in Hin; [done| |done].
        apply Forall_cons_1 in H as [H _]. unfold high in H.
        assert (∀ k, (k < 128)%nat → x ≠ byte k) as Hx by (intros k Hk ->; unfold byte in H; rewrite Ascii.nat_ascii_embedding in H; lia).
        rewrite !decide_False in Hin; [done|apply (Hx 13%nat)|apply (Hx 10%nat)|apply (Hx 36%nat)|apply (Hx 34%nat)|apply (Hx 92%nat)]; lia. }
      rewrite Forall_forall in H. apply H in Hin2. unfold high in Hin2. change (Ascii.nat_of_ascii newline) with 10%nat in Hin2. lia.
Qed.

(** A key that can stand in a line: no white space at its ends, no equals sign, no line break, no
    comment. *)
Definition edges_solid (l : list ascii) : bool :=
  match head l, last l with Some x, Some y => bool_decide (solid x ∧ solid y) | _, _ => false end.
Definition good_key (k : string) : Prop :=
  edges_solid (bytes k) = true ∧ "="%char ∉ bytes k ∧ newline ∉ bytes k ∧ head (bytes k) ≠ Some "#"%char.
#[export] Instance good_key_dec k : Decision (good_key k).
Proof. unfold good_key. apply _. Defined.

Lemma edges_solid_spec l : edges_solid l = true ↔ ∃ x y, head l = Some x ∧ last l = Some y ∧ solid x ∧ solid y.
Proof.
  unfold edges_solid. destruct (head l) as [x|], (last l) as [y|]; (split; [try done|intros (? & ? & ? & ? & ? & ?); try done]).
  - intros [? ?]%bool_decide_eq_true. eauto 10.
  - simplify_eq. by apply bool_decide_eq_true.
Qed.

Lemma TrimSpace_solid s : edges_solid (bytes s) = true → TrimSpace s = s.
Proof. intros (x & y & Hx & Hy & Px & Py)%edges_solid_spec. rewrite <- (str_bytes s). by apply (TrimSpace_edges _ x y). Qed.

Lemma unquote_quoted e : unquote (str (quote :: e ++ [quote])) = str e.
Proof.
  unfold unquote. rewrite bytes_str. cbn [length head]. rewrite length_app. cbn [length].
  rewrite (proj2 (Nat.leb_le _ _)) by lia. cbn [andb]. rewrite bool_decide_eq_true_2.
  - cbn [orb]. f_equal. change (drop 1 (quote :: e ++ [quote])) with (e ++ [quote]). apply take_app_length'. lia.
  - split; [done|]. by rewrite last_cons, last_snoc.
Qed.

Lemma parse_exported k v :
  good_key k → parse_line (str (bytes k ++ "="%char :: bytes (sanitizeEnvValue v))) = Some {| Key := k; Value := str (escape v) |}.
Proof.
  intros (He & Heq & _ & Hh). pose proof He as (x & y & Hx & Hy & Px & Py)%edges_solid_spec. unfold sanitizeEnvValue. rewrite bytes_str. unfold parse_line.
  destruct (bytes k) as [|c r] eqn:Ek; [done|]. injection Hx as ->.
  assert (solid quote) as Hq by (apply (bool_decide_eq_true_1 _); reflexivity).
  rewrite (TrimSpace_edges _ x quote), !bytes_str; [|done| |done|done].
  2:{ replace ((x :: r) ++ "="%char :: quote :: escape v ++ [quote]) with (((x :: r) ++ "="%char :: quote :: escape v) ++ [quote])
        by (by rewrite <- app_assoc). apply last_snoc. }
  cbn [app]. rewrite decide_False by (intros ->; done). change (x :: r ++ "="%char :: quote :: escape v ++ [quote]) with ((x :: r) ++ "="%char :: quote :: escape v ++ [quote]).
  rewrite Market.index_first by done. cbn [length]. f_equal. f_equal.
  - rewrite take_app_length' by done. rewrite <- Ek, str_bytes. apply TrimSpace_solid. by rewrite Ek.
  - change (S (S (length r))) with (S (length (x :: r))). rewrite (drop_app_ge (x :: r)) by lia.
    replace (S (length (x :: r)) - length (x :: r))%nat with 1%nat by lia. cbn [drop].
    rewrite (TrimSpace_edges _ quote quote); [apply unquote_quoted|done| |done|done]. by rewrite last_cons, last_snoc.
Qed.

(** Exporting and importing again gives the same keys and, for every value whatever, its escaped form. *)
Lemma export_then_parse vars :
  Forall (λ v, good_key (Key v)) vars → parseDotEnv (dotenv vars) = (λ v, {| Key := Key v; Value := str (escape (Value v)) |}) <$> vars.
Proof.
  intros Hk. unfold parseDotEnv, dotenv, Split. rewrite bytes_str. induction Hk as [|v vars Hv _ IH]; [done|]. rewrite !fmap_cons. cbn [concat].
  rewrite <- IH. set (rest := concat _). rewrite <- !app_assoc. cbn [app]. rewrite <- app_assoc. cbn [app].
  replace (bytes (Key v) ++ "="%char :: bytes (sanitizeEnvValue (Value v)) ++ newline :: rest)
    with ((bytes (Key v) ++ "="%char :: bytes (sanitizeEnvValue (Value v))) ++ newline :: rest) by (by rewrite <- app_assoc).
  rewrite HostStats.split_on_first.
  - rewrite fmap_cons. cbn [omap list_omap]. by rewrite parse_exported.
  - destruct Hv as (_ & _ & Hn & _). apply not_elem_of_app. split; [done|].
    apply not_elem_of_cons. split; [done|]. unfold sanitizeEnvValue. rewrite bytes_str. apply not_elem_of_cons. split; [done|].
    apply not_elem_of_app. split; [apply escaped_no_newline|]. by apply (bool_decide_eq_false_1 _).
Qed.

(** The bytes that are written in another form. *)
Definition special (c : ascii) : bool := bool_decide (c ∈ [backslash; quote; "$"%char; newline; byte 13]).

Lemma escape_ascii v : ascii_text v → escape v = concat ((λ c, escape_rune [c]) <$> bytes v).
Proof.
  unfold escape, ascii_text, slen. generalize (bytes v). induction 1 as [|c l Hc _ IH]; [done|]. cbn [length runes rune_len].
  assert (in_bytes 0 127 c = true) as -> by (unfold in_bytes; apply andb_true_iff; split; apply Nat.leb_le; lia).
  change (take 1 (c :: l)) with [c]. change (drop 1 (c :: l)) with l. rewrite !fmap_cons. cbn [concat]. by rewrite IH.
Qed.

Lemma escape_rune_plain c : special c = false → escape_rune [c] = [c].
Proof.
  unfold special. intros H%bool_decide_eq_false. rewrite !not_elem_of_cons in H. destruct H as (H1 & H2 & H3 & H4 & H5 & _).
  unfold escape_rune. by rewrite !decide_False.
Qed.

Lemma escape_rune_special c : special c = true → length (escape_rune [c]) = 2%nat.
Proof.
  unfold special. intros H%bool_decide_eq_true. rewrite !elem_of_cons, elem_of_nil in H. destruct H as [->|[->|[->|[->|[->|[]]]]]]; reflexivity.
Qed.

(** A text is left as it is exactly when it has none of these bytes. *)
Lemma escape_fixed v : ascii_text v → escape v = bytes v ↔ Forall (λ c, special c = false) (bytes v).
Proof.
  intros Hv. rewrite (escape_ascii v Hv). clear Hv. split.
  - assert (∀ l, (length l ≤ length (concat ((λ c, escape_rune [c]) <$> l)))%nat ∧
      (concat ((λ c, escape_rune [c]) <$> l) = l → Forall (λ c, special c = false) l)) as H; [|apply H].
    induction l as [|c l [IH1 IH2]]; [done|]. rewrite fmap_cons. cbn [concat]. rewrite length_app. destruct (special c) eqn:E.
    + pose proof (escape_rune_special c E) as H2. split; [cbn [length]; lia|]. intros Heq%(f_equal length). rewrite length_app in Heq. cbn [length] in Heq. lia.
    + rewrite (escape_rune_plain c E). split; [cbn [length]; lia|]. intros [= Heq]. constructor; [done|]. by apply IH2.
  - induction 1 as [|c l Hc _ IH]; [done|]. rewrite fmap_cons. cbn [concat]. by rewrite IH, escape_rune_plain.
Qed.

(** ** What a parsed key looks like *)

Abbreviation ascii_bytes := (Forall (λ c : ascii, (Ascii.nat_of_ascii c < 128)%nat)).

Lemma not_space_solid c l : (Ascii.nat_of_ascii c < 128)%nat → list_find (λ p, p `prefix_of` (c :: l)) all_spaces = None → solid c.
Proof.
  intros Hc Hn. split; [done|]. intros Hin. apply list_find_None in Hn. rewrite Forall_forall in Hn.
  apply (Hn [c]); [apply elem_of_app; by left|]. by exists l.
Qed.

Lemma not_space_solid_end c l : (Ascii.nat_of_ascii c < 128)%nat → list_find (λ p, p `suffix_of` (l ++ [c])) all_spaces = None → solid c.
Proof.
  intros Hc Hn. split; [done|]. intros Hin. apply list_find_None in Hn. rewrite Forall_forall in Hn.
  apply (Hn [c]); [apply elem_of_app; by left|]. by exists l.
Qed.

Lemma spaces_hollow p : p ∈ all_spaces → Forall (λ c, ¬ solid c) p.
Proof.
  intros Hp. assert (Forall (λ p, forallb (λ c, bool_decide (¬ solid c)) p) all_spaces) as H by (apply forallb_True; vm_compute; exact I).
  rewrite Forall_forall in H. apply H, forallb_True in Hp. eapply Forall_impl; [exact Hp|]. intros c Hc. by apply bool_decide_unpack in Hc.
Qed.

Lemma trim_left_solid n : ∀ l, (length l ≤ n)%nat → ascii_bytes l →
  ∃ k, l = k ++ trim_left n l ∧ Forall (λ c, ¬ solid c) k ∧ (trim_left n l = [] ∨ ∃ c r, trim_left n l = c :: r ∧ solid c).
Proof.
  induction n as [|n IH]; intros l Hl Ha; cbn [trim_left]; [destruct l; [|cbn in Hl; lia]; exists []; split_and!; [done|constructor|by left]|].
  destruct (list_find _ all_spaces) as [[i p]|] eqn:E.
  - apply list_find_Some in E as (Hp & [k ->] & _). pose proof (list_elem_of_lookup_2 _ _ _ Hp) as Hin.
    pose proof spaces_edges as Hs. rewrite Forall_forall in Hs. destruct (Hs p Hin) as (_ & _ & Hne).
    rewrite drop_app_length. apply Forall_app in Ha as [_ Ha]. rewrite length_app in Hl. destruct p as [|x p]; [done|]. cbn in Hl.
    destruct (IH k) as (k' & Hk & Hh & Hcase); [lia|done|]. exists ((x :: p) ++ k'). rewrite <- app_assoc. split; [by rewrite <- Hk|]. split; [|done].
    apply Forall_app. split; [by apply spaces_hollow|done].
  - exists []. split; [done|]. split; [constructor|]. destruct l as [|c r]; [by left|]. right. exists c, r. split; [done|]. apply Forall_cons_1 in Ha as [Hc _]. by eapply not_space_solid.
Qed.

Lemma trim_right_solid n : ∀ l, (length l ≤ n)%nat → ascii_bytes l →
  ∃ k, l = trim_right n l ++ k ∧ Forall (λ c, ¬ solid c) k ∧ (trim_right n l = [] ∨ ∃ c r, trim_right n l = r ++ [c] ∧ solid c).
Proof.
  induction n as [|n IH]; intros l Hl Ha; cbn [trim_right]; [destruct l; [|cbn in Hl; lia]; exists []; split_and!; [done|constructor|by left]|].
  destruct (list_find _ all_spaces) as [[i p]|] eqn:E.
  - apply list_find_Some in E as (Hp & [k ->] & _). pose proof (list_elem_of_lookup_2 _ _ _ Hp) as Hin.
    pose proof spaces_edges as Hs. rewrite Forall_forall in Hs. destruct (Hs p Hin) as (_ & _ & Hne).
    rewrite length_app, Nat.add_sub, take_app_length. apply Forall_app in Ha as [Ha _]. rewrite length_app in Hl. destruct p as [|x p]; [done|]. cbn in Hl.
    destruct (IH k) as (k' & Hk & Hh & Hcase); [lia|done|]. exists (k' ++ x :: p). rewrite app_assoc. split; [by rewrite <- Hk|]. split; [|done].
    apply Forall_app. split; [done|by apply spaces_hollow].
  - exists []. split; [by rewrite app_nil_r|]. split; [constructor|]. destruct l as [|c r _] using rev_ind; [by left|]. right. exists c, r. split; [done|].
    apply Forall_app in Ha as [_ Ha]. apply Forall_cons_1 in Ha as [Hc _]. by eapply not_space_solid_end.
Qed.

(** Trimming ASCII text leaves a part of it that is empty or has solid ends. *)
Lemma TrimSpace_ascii s : ascii_bytes (bytes s) →
  ∃ k k', bytes s = k ++ bytes (TrimSpace s) ++ k' ∧ Forall (λ c, ¬ solid c) (k ++ k') ∧ (bytes (TrimSpace s) = [] ∨ edges_solid (bytes (TrimSpace s)) = true).
Proof.
  intros Ha. unfold TrimSpace. rewrite bytes_str. destruct (trim_left_solid (length (bytes s)) (bytes s)) as (k & Hk & Hh & Hl); [done|done|].
  set (l := trim_left _ _) in *. assert (ascii_bytes l) as Hal by (rewrite Hk in Ha; by apply Forall_app in Ha as [_ ?]).
  destruct (trim_right_solid (length l) l) as (k' & Hk' & Hh' & Hr); [done|done|]. exists k, k'. split; [by rewrite <- Hk'|].
  split; [by apply Forall_app|].
  set (m := trim_right _ _) in *. destruct Hr as [->|(y & r & Hm & Hy)]; [by left|]. right. apply edges_solid_spec.
  destruct Hl as [Hl|(x & r' & Hl & Hx)]; [rewrite Hl, Hm in Hk'; by destruct r|]. exists x, y. rewrite Hm, last_snoc. split_and!; try done.
  rewrite Hl, Hm in Hk'. destruct r as [|z r]; cbn in *; by simplify_eq.
Qed.

Lemma parsed_key line v : ascii_bytes (bytes line) → newline ∉ bytes line → parse_line line = Some v → good_key (Key v).
Proof.
  intros Ha Hn. unfold parse_line. destruct (TrimSpace_ascii line Ha) as (k & k' & Hl & _ & He). set (l := bytes (TrimSpace line)) in *.
  destruct l as [|c r] eqn:El; [done|]. destruct He as [|He]; [done|]. case_decide as Hc; [done|].
  destruct (index_of ["="%char] (c :: r)) as [[|i]|] eqn:Ei; [done| |done]. intros [= <-]. cbn [Key].
  apply Market.index_of_cut in Ei as [_ Heq]. set (w := take (S i) (c :: r)) in *.
  assert (∀ x, x ∈ w → x ∈ bytes line) as Hsub.
  { intros x Hx. rewrite Hl. apply elem_of_app. right. apply elem_of_app. left. unfold w in Hx. apply list_elem_of_lookup in Hx as (j & Hj).
    apply lookup_take_Some in Hj as [Hj _]. by eapply list_elem_of_lookup_2. }
  assert (ascii_bytes w) as Haw by (apply Forall_forall; intros x Hx; rewrite Forall_forall in Ha; by apply Ha, Hsub).
  assert (solid c) as Hsc by (apply edges_solid_spec in He as (x & y & [= <-] & _ & ? & _); done).
  destruct (TrimSpace_ascii (str w)) as (k1 & k2 & Hw & Hho & Hew); [by rewrite bytes_str|]. rewrite bytes_str in Hw. set (m := bytes (TrimSpace (str w))) in *.
  assert (∀ x, x ∈ m → x ∈ w) as Hmw by (intros x Hx; rewrite Hw; set_solver).
  assert (∃ r', m = c :: r') as [r' Hm].
  { assert (w = c :: take i r) as Hwc by done. rewrite Hwc in Hw. clearbody m. destruct k1 as [|x k1]; cbn [app] in Hw.
    - destruct m as [|x m']; cbn [app] in Hw; [|injection Hw as -> _; eauto]. rewrite <- Hw in Hho. by apply Forall_app in Hho as [_ [? _]%Forall_cons_1].
    - injection Hw as <- _. by apply Forall_cons_1 in Hho as [? _]. }
  unfold good_key. fold m. split_and!.
  - destruct Hew as [E|]; [by rewrite Hm in E|done].
  - intros Hx. by apply Heq, Hmw.
  - intros Hx. by apply Hn, Hsub, Hmw.
  - intros Hh. assert (head m = Some "#"%char) as Hm2 by exact Hh. rewrite Hm in Hm2. cbn in Hm2. congruence.
Qed.

Lemma escape_ascii_text v : ascii_text v → ascii_bytes (escape v).
Proof.
  intros Hv. rewrite (escape_ascii v Hv). unfold ascii_text in Hv. induction Hv as [|c l Hc _ IH]; [constructor|]. rewrite fmap_cons. cbn [concat].
  apply Forall_app. split; [|done]. unfold escape_rune. repeat case_decide; try (apply (bool_decide_eq_true_1 _); reflexivity). by apply Forall_singleton.
Qed.

Lemma dotenv_ascii vars : Forall ascii_entry vars → ascii_bytes (bytes (dotenv vars)).
Proof.
  intros H. unfold dotenv. rewrite bytes_str. induction H as [|v vars [Hk Hv] _ IH]; [constructor|]. rewrite fmap_cons. cbn [concat].
  apply Forall_app. split; [|done]. apply Forall_app. split; [done|]. apply Forall_cons. split; [apply (bool_decide_eq_true_1 _); reflexivity|].
  apply Forall_app. split; [|apply (bool_decide_eq_true_1 _); reflexivity]. unfold sanitizeEnvValue. rewrite bytes_str. apply Forall_cons.
  split; [apply (bool_decide_eq_true_1 _); reflexivity|]. apply Forall_app. split; [by apply escape_ascii_text|apply (bool_decide_eq_true_1 _); reflexivity].
Qed.

Lemma split_ascii c l : ascii_bytes l → Forall (λ w, ascii_bytes w) (split_on c l).
Proof.
  induction 1 as [|x l Hx _ IH]; cbn [split_on]; [apply Forall_singleton; constructor|]. case_decide; [by apply Forall_cons|].
  destruct (split_on c l) as [|w ws]; [apply Forall_singleton, Forall_singleton, Hx|]. apply Forall_cons_1 in IH as [Hw Hws].
  apply Forall_cons. split; [by apply Forall_cons|done].
Qed.

(** Whatever ASCII text is parsed, the keys are good. *)
Lemma parsed_keys content : ascii_bytes (bytes content) → Forall (λ v, good_key (Key v)) (parseDotEnv content).
Proof.
  intros Ha. unfold parseDotEnv, Split. apply Forall_forall. intros v (line & Hin & Hv)%list_elem_of_omap.
  apply list_elem_of_fmap in Hin as (w & -> & Hw). pose proof (split_ascii newline _ Ha) as H1. pose proof (split_on_fields newline (bytes content)) as H2.
  rewrite Forall_forall in H1, H2. eapply parsed_key; [| |exact Hv]; rewrite bytes_str; [by apply H1|by apply H2].
Qed.

Definition kept_by_dotenv (v : envVarEntry) : Prop := good_key (Key v) ∧ Forall (λ c, special c = false) (bytes (Value v)).

Lemma dotenv_fixed vars : Forall ascii_entry vars → Forall kept_by_dotenv vars → parseDotEnv (dotenv vars) = vars.
Proof.
  intros Ha Hv. rewrite export_then_parse by (eapply Forall_impl; [exact Hv|by intros ? []]).
  induction Hv as [|[k x] vars [Hk Hx] _ IH]; [done|]. apply Forall_cons_1 in Ha as [[_ Hax] Ha]. rewrite fmap_cons, IH by done. cbn [Key Value] in *.
  by rewrite (proj2 (escape_fixed x Hax) Hx), str_bytes.
Qed.

(** C13. For variables of ASCII text: exporting them and importing the text gives the same variables
    exactly when every key has no white space at its ends, no equals sign, no line break and
    does not begin with a number sign, and no value has a backslash, a quote, a dollar or a
    line break.  The handlers that store variables check none of this: such characters of a
    value are escaped on the way out and not read back on the way in, and such a key gives
    another line. *)
Theorem dotenv_round_trip_exact vars :
  Forall ascii_entry vars → parseDotEnv (dotenv vars) = vars ↔ Forall kept_by_dotenv vars.
Proof.
  intros Ha. split; [|by apply dotenv_fixed]. intros E. assert (Forall (λ v, good_key (Key v)) vars) as Hk.
  { rewrite <- E. apply parsed_keys, dotenv_ascii, Ha. }
  rewrite export_then_parse in E by done. clear - Ha Hk E. induction vars as [|[k x] vars IH]; [constructor|].
  apply Forall_cons_1 in Ha as [[_ Hax] Ha], Hk as [Hkk Hk]. rewrite fmap_cons in E. cbn [Key Value] in *. injection E as E1 E2.
  constructor; [|by apply IH]. split; [done|]. cbn [Value]. apply (escape_fixed x Hax). rewrite <- E1 at 2. by rewrite bytes_str.
Qed.

(** ** The handlers *)

Section HandlerTheory.
Context `{EnvCodec} `{!EnvCodecLaws _}.

Lemma env_keeps e : keeps_identity (with_env e).
Proof. by split. Qed.

Lemma tenant_app_error fails s t id c : requireTenantApp fails s t id = Err c → c ∈ [400; 404; 500].
Proof.
  unfold requireTenantApp. case_decide; [intros [= <-]; set_solver|]. destruct (fails SGetApp); [intros [= <-]; set_solver|].
  destruct (find_app s id); [|intros [= <-]; set_solver]. case_decide; [done|intros [= <-]; set_solver].
Qed.

Lemma tenant_app_here fails s t id a : find_app s id = Some a → aTenant a = t → id ≠ "" → fails SGetApp = false → requireTenantApp fails s t id = Ok a.
Proof. intros Ha Ht Hid Hf. unfold requireTenantApp. by rewrite decide_False, Hf, Ha, decide_True. Qed.

Lemma tenant_app_id fails s t id a : requireTenantApp fails s t id = Ok a → id ≠ "".
Proof. unfold requireTenantApp. by case_decide. Qed.

Lemma valid_vars_spec vars : valid_vars vars = true →
  total_size vars ≤ 524288 ∧ Forall (λ v, Key v ≠ "" ∧ Z.of_nat (slen (Key v)) ≤ 256 ∧ Z.of_nat (slen (Value v)) ≤ 65536) vars.
Proof.
  unfold valid_vars. intros [H1 H2]%andb_true_iff. split; [apply Z.leb_le in H2; lia|]. apply Is_true_true_2, forallb_True in H1.
  eapply Forall_impl; [exact H1|]. intros v Hv. apply Is_true_true_1 in Hv. rewrite !andb_true_iff in Hv. destruct Hv as [[Hk H3] H4].
  apply negb_true_iff, bool_decide_eq_false in Hk. apply Z.leb_le in H3, H4. split_and!; [done|lia|lia].
Qed.

(** A replacement that answers 200 respects every limit, changes the variables of that
    application and nothing else, and is what a later reading returns. *)
Theorem update_is_read_back fails fails' s t id vars s' :
  tables_ok s → Forall ascii_entry vars → Update fails s t id (Some vars) = (s', 200) → fails' SGetApp = false →
  Get fails' s' t id = Ok vars ∧ s' = change_row (with_env (marshal vars)) id s ∧
  (length vars ≤ 500)%nat ∧ total_size vars ≤ 524288 ∧
  Forall (λ v, Key v ≠ "" ∧ Z.of_nat (slen (Key v)) ≤ 256 ∧ Z.of_nat (slen (Value v)) ≤ 65536) vars.
Proof.
  intros Hok Hasc HU Hf. unfold Update in HU. destruct (requireTenantApp fails s t id) as [a|c] eqn:Ha.
  2:{ apply tenant_app_error in Ha. injection HU as _ ->. by apply (bool_decide_eq_true_2 _) in Ha. }
  pose proof (tenant_app_id _ _ _ _ _ Ha) as Hne. apply tenant_app_found in Ha as (Ha & Ht & Hid). destruct (_ || _) eqn:Ev; [done|].
  apply orb_false_iff in Ev as [Hlen Hval%negb_false_iff%valid_vars_spec]. destruct (fails SUpdateApp); [done|].
  destruct (UpdateApp s _) as [s1|] eqn:E; [|done]. injection HU as <-. pose proof (update_row _ s id a s1 (env_keeps (marshal vars)) Hok Ha E) as ->.
  apply Nat.ltb_ge in Hlen. split_and!; try done; try apply Hval. unfold Get.
  rewrite (tenant_app_here fails' _ t id (stamp (now s) (with_env (marshal vars) a))); [|by rewrite find_changed, Ha by apply env_keeps|done..].
  cbn [EnvVarsEnc with_env stamp]. rewrite decide_False by apply marshal_nonempty. by rewrite unmarshal_marshal.
Qed.

(** Importing what was exported from another application, when no value has a special byte: the
    second application then has the variables of the first. *)
Theorem export_then_import_copies fails fails2 fails3 s s2 t t2 id id2 vars text a2 :
  tables_ok s2 → Forall ascii_entry vars → Forall kept_by_dotenv vars →
  Get fails s t id = Ok vars → Export fails s t id "" = Ok (AsText text) → (slen text ≤ 1048576)%nat → vars ≠ [] → valid_vars vars = true →
  requireTenantApp fails2 s2 t2 id2 = Ok a2 → Status a2 ∈ statuses → fails2 SUpdateApp = false → fails3 SGetApp = false →
  Get fails3 (Import_ fails2 s2 t2 id2 (Some (DotEnv text))).1 t2 id2 = Ok vars.
Proof.
  intros Hok Hasc Hgood HG HE Hlen Hne Hval Ha2 Hst Hu Hg. unfold Get, Export in HG, HE.
  destruct (requireTenantApp fails s t id) as [a|]; [|done]. assert (text = dotenv vars) as ->.
  { injection HE as <-. case_decide; [by injection HG as <-|]. destruct (unmarshal (EnvVarsEnc a)) as [l|] eqn:E; [|done]. injection HG as ->.
    by rewrite (decoded_unmarshal _ _ E). }
  assert (parseDotEnv (dotenv vars) = vars) as Hp by (by apply dotenv_fixed).
  unfold Import_. pose proof (tenant_app_id _ _ _ _ _ Ha2) as Hid. rewrite decide_False by done. rewrite take_ge by done. rewrite str_bytes, Hp.
  rewrite decide_False by done. rewrite Hval, Ha2, Hu. cbn [negb fst]. apply tenant_app_found in Ha2 as (Hf2 & Ht2 & Hid2).
  destruct (UpdateApp s2 (with_env (marshal vars) a2)) as [s3|] eqn:E; [|unfold UpdateApp in E; rewrite decide_True in E by (by left); done].
  change (Get fails3 s3 t2 id2 = Ok vars). rewrite (update_row _ s2 id2 a2 s3 (env_keeps _) Hok Hf2 E). unfold Get.
  rewrite (tenant_app_here fails3 _ t2 id2 (stamp (now s2) (with_env (marshal vars) a2))); [|by rewrite find_changed, Hf2 by apply env_keeps|done..].
  cbn [EnvVarsEnc with_env stamp]. rewrite decide_False by apply marshal_nonempty. by rewrite unmarshal_marshal.
Qed.

End HandlerTheory.
(** ** Comparing *)

(** What a comparison says of one key. *)
Definition diff_of (lvars rvars : gmap string string) (k : string) : option EnvDiff :=
  match lvars !! k, rvars !! k with
  | Some v, None => Some {| dKey := k; Left_ := maskShort v; Right_ := ""; dStatus := Removed |}
  | None, Some v => Some {| dKey := k; Left_ := ""; Right_ := maskShort v; dStatus := Added |}
  | Some v, Some w => if decide (v = w) then None else Some {| dKey := k; Left_ := maskShort v; Right_ := maskShort w; dStatus := Changed |}
  | None, None => None
  end.

Lemma diff_of_key l r k d : diff_of l r k = Some d → dKey d = k.
Proof. unfold diff_of. destruct (l !! k), (r !! k); try case_decide; by intros [= <-]. Qed.

Lemma diffs_spec l r lo ro : lo ≡ₚ map_to_list l → ro ≡ₚ map_to_list r →
  diffs l r lo ro = omap (diff_of l r) (lo.*1) ++ omap (λ k, if decide (is_Some (l !! k)) then None else diff_of l r k) (ro.*1).
Proof.
  intros Hl Hr. assert (∀ k v, (k, v) ∈ lo → l !! k = Some v) as Hlo by (intros k v Hin; rewrite Hl in Hin; by apply elem_of_map_to_list).
  assert (∀ k v, (k, v) ∈ ro → r !! k = Some v) as Hro by (intros k v Hin; rewrite Hr in Hin; by apply elem_of_map_to_list).
  clear Hl Hr. unfold diffs. f_equal.
  - induction lo as [|[k v] lo IH]; [done|]. rewrite fmap_cons. cbn [omap list_omap fst snd]. unfold diff_of at 1. rewrite (Hlo k v) by apply list_elem_of_here.
    rewrite IH by (intros; apply Hlo; by right). by destruct (r !! k); [case_decide|].
  - induction ro as [|[k v] ro IH]; [done|]. rewrite fmap_cons. cbn [omap list_omap fst snd]. unfold diff_of at 1. rewrite (Hro k v) by apply list_elem_of_here.
    rewrite IH by (intros; apply Hro; by right). by destruct (l !! k) eqn:E; [rewrite decide_True by eauto|rewrite decide_False by (by intros [? ?])].
Qed.

Lemma keys_of_omap f (l : list string) : (∀ k d, f k = Some d → dKey d = k) → NoDup l → NoDup (dKey <$> omap f l).
Proof.
  intros Hf. induction 1 as [|k l Hk _ IH]; [constructor|]. cbn [omap list_omap]. destruct (f k) as [d|] eqn:E; [|done]. rewrite fmap_cons.
  constructor; [|done]. rewrite (Hf _ _ E). intros (d' & Ek & (k' & Hk' & E')%list_elem_of_omap)%list_elem_of_fmap. apply Hf in E'. congruence.
Qed.

(** A comparison answers only for two applications of the caller's tenant, and then lists each key
    on which they differ once, with what became of it, and no other key. *)
Theorem compare_is_exact `{EnvCodec} fails s t lid rid lo ro ds :
  Compare fails s t (Some (lid, rid)) lo ro = Ok ds →
  ∃ la ra, find_app s lid = Some la ∧ find_app s rid = Some ra ∧ aTenant la = t ∧ aTenant ra = t ∧
    let lvars := parseEnvJSON (EnvVarsEnc la) in let rvars := parseEnvJSON (EnvVarsEnc ra) in
    (lo ≡ₚ map_to_list lvars → ro ≡ₚ map_to_list rvars →
     NoDup (dKey <$> ds) ∧ (∀ d, d ∈ ds ↔ ∃ k, diff_of lvars rvars k = Some d) ∧ (∀ k, k ∈ dKey <$> ds ↔ lvars !! k ≠ rvars !! k)).
Proof.
  unfold Compare, own_app. destruct (fails SGetApp); [done|]. destruct (find_app s lid) as [la|]; [|done]. cbn [mbind option_bind]. case_decide as Hl; [|done].
  destruct (find_app s rid) as [ra|]; [|done]. cbn [mbind option_bind]. case_decide as Hr; [|done]. intros [= <-]. exists la, ra. split_and!; try done.
  cbv zeta. set (l := parseEnvJSON (EnvVarsEnc la)). set (r := parseEnvJSON (EnvVarsEnc ra)). intros Hlo Hro. rewrite (diffs_spec l r lo ro Hlo Hro).
  assert (∀ k, k ∈ lo.*1 ↔ is_Some (l !! k)) as Klo.
  { intros k. rewrite Hlo. rewrite list_elem_of_fmap. split; [intros ([k' v] & -> & Hin%elem_of_map_to_list); by exists v|].
    intros [v Hv]. exists (k, v). split; [done|]. by apply elem_of_map_to_list. }
  assert (∀ k, k ∈ ro.*1 ↔ is_Some (r !! k)) as Kro.
  { intros k. rewrite Hro. rewrite list_elem_of_fmap. split; [intros ([k' v] & -> & Hin%elem_of_map_to_list); by exists v|].
    intros [v Hv]. exists (k, v). split; [done|]. by apply elem_of_map_to_list. }
  set (g := λ k, if decide (is_Some (l !! k)) then None else diff_of l r k).
  assert (∀ k d, g k = Some d → dKey d = k ∧ l !! k = None) as Hg.
  { intros k d. unfold g. case_decide as E; [done|]. intros Hd. split; [by eapply diff_of_key|]. by apply eq_None_not_Some. }
  assert (∀ d, d ∈ omap (diff_of l r) (lo.*1) ++ omap g (ro.*1) ↔ ∃ k, diff_of l r k = Some d) as Hd.
  { intros d. rewrite elem_of_app, !list_elem_of_omap. split.
    - intros [(k & _ & E)|(k & _ & E)]; exists k; [done|]. unfold g in E. by case_decide.
    - intros [k E]. destruct (l !! k) as [v|] eqn:El.
      + left. exists k. split; [by apply Klo; eauto|done].
      + right. exists k. split; [apply Kro; unfold diff_of in E; rewrite El in E; destruct (r !! k); [by eauto|done]|].
        unfold g. rewrite decide_False by (intros [? ?]; congruence). done. }
  split_and!; [|exact Hd|].
  - rewrite fmap_app. apply NoDup_app. split_and!.
    + apply keys_of_omap; [by apply diff_of_key|]. rewrite Hlo. apply NoDup_fst_map_to_list.
    + intros kk (d & -> & (k & Hk & E)%list_elem_of_omap)%list_elem_of_fmap (d' & Ek & (k' & _ & E')%list_elem_of_omap)%list_elem_of_fmap.
      apply diff_of_key in E. apply Hg in E' as [E' Hn]. apply Klo in Hk as [? Hk]. congruence.
    + apply keys_of_omap; [intros k d Hk; by apply Hg in Hk as [? _]|]. rewrite Hro. apply NoDup_fst_map_to_list.
  - intros k. rewrite list_elem_of_fmap. split.
    + intros (d & -> & [k0 E]%Hd). rewrite (diff_of_key _ _ _ _ E). unfold diff_of in E. destruct (l !! k0), (r !! k0); try case_decide; congruence.
    + intros Hne. assert (∃ d, diff_of l r k = Some d) as [d E].
      { unfold diff_of. destruct (l !! k), (r !! k); try case_decide; eauto; congruence. }
      exists d. split; [symmetry; by eapply diff_of_key|]. apply Hd. eauto.
Qed.

(** ** Examples *)

#[export] Instance envVarEntry_countable : Countable envVarEntry :=
  inj_countable' (λ v, (Key v, Value v)) (λ p, {| Key := p.1; Value := p.2 |}) (λ '(Build_envVarEntry _ _), eq_refl).

(** An encoding with the laws: the number of the list, in digits. *)
Definition number_codec : EnvCodec :=
  {| marshal := λ l, itoa (Z.pos (encode l)); unmarshal := λ s, z ← digits_val 0 (bytes s); decode (Z.to_pos z);
     decoded := λ s, default [] (z ← digits_val 0 (bytes s); decode (Z.to_pos z)) |}.

Lemma number_codec_laws : EnvCodecLaws number_codec.
Proof.
  split; cbn [marshal unmarshal decoded number_codec]; [intros l|intros l|by intros s l ->].
  - destruct (itoa_nonempty (Z.pos (encode l))) as (c & r & E); [lia|]. intros H. by rewrite H in E.
  - intros _. rewrite digits_val_itoa by lia. cbn [mbind option_bind Z.to_pos]. apply decode_encode.
Qed.

Definition sample_vars : list envVarEntry := [{| Key := "PORT"; Value := "80" |}; {| Key := "NAME"; Value := "my app" |}].

Lemma sample_vars_good : Forall kept_by_dotenv sample_vars.
Proof. unfold kept_by_dotenv. apply (bool_decide_eq_true_1 _). reflexivity. Qed.

Lemma sample_vars_ascii : Forall ascii_entry sample_vars.
Proof. unfold sample_vars, ascii_entry, ascii_text. repeat apply List.Forall_cons; try apply List.Forall_nil; split; apply (bool_decide_eq_true_1 _); reflexivity. Qed.

Lemma dotenv_round_trip_exact_witness :
  parseDotEnv (dotenv sample_vars) = sample_vars ∧
  parseDotEnv (dotenv [{| Key := "#A"; Value := "1" |}]) ≠ [{| Key := "#A"; Value := "1" |}].
Proof.
  split; [apply (dotenv_round_trip_exact sample_vars sample_vars_ascii), sample_vars_good|].
  intros H. apply (dotenv_round_trip_exact [{| Key := "#A"; Value := "1" |}]) in H.
  - inversion H as [|? ? [(_ & _ & _ & Hh) _]]. by apply Hh.
  - apply Forall_singleton. split; unfold ascii_text; apply (bool_decide_eq_true_1 _); reflexivity.
Defined.

(** The value comes back with two dollars. *)
Example dollar_is_doubled : parseDotEnv (dotenv [{| Key := "PRICE"; Value := "5$" |}]) = [{| Key := "PRICE"; Value := "5$$" |}].
Proof. reflexivity. Qed.

Lemma update_is_read_back_witness :
  @Get number_codec no_failure (change_row (with_env (@marshal number_codec sample_vars)) "a1" sample_store) "t1" "a1" = Ok sample_vars.
Proof.
  refine (proj1 (@update_is_read_back number_codec number_codec_laws no_failure no_failure sample_store "t1" "a1" sample_vars _ sample_ok
    sample_vars_ascii _ eq_refl)). reflexivity.
Defined.

Definition with_vars : Store := change_row (with_env (@marshal number_codec sample_vars)) "a1" sample_store.

Lemma export_then_import_copies_witness :
  @Get number_codec no_failure (@Import_ number_codec no_failure sample_store "t2" "b1" (Some (DotEnv (dotenv sample_vars)))).1 "t2" "b1" = Ok sample_vars.
Proof.
  assert (@Get number_codec no_failure with_vars "t1" "a1" = Ok sample_vars ∧ @Export number_codec no_failure with_vars "t1" "a1" "" = Ok (AsText (dotenv sample_vars)))
    as [HG HE].
  { pose proof (marshal_nonempty (EnvCodecLaws := number_codec_laws) sample_vars) as Hm. pose proof (unmarshal_marshal (EnvCodecLaws := number_codec_laws) sample_vars sample_vars_ascii) as Hu.
    pose proof (decoded_unmarshal (EnvCodecLaws := number_codec_laws) _ _ Hu) as Hdec.
    unfold Get, Export. rewrite (tenant_app_here no_failure with_vars "t1" "a1" (stamp 7 (with_env (@marshal number_codec sample_vars) (sample_app "a1" "t1" "running"))));
      [|reflexivity|reflexivity|discriminate|reflexivity]. cbn [EnvVarsEnc with_env stamp]. split; rewrite (decide_False (P := @marshal number_codec sample_vars = "")) by exact Hm; [by rewrite Hu|]. rewrite Hdec. reflexivity. }
  refine (@export_then_import_copies number_codec number_codec_laws no_failure no_failure no_failure with_vars sample_store "t1" "t2" "a1" "b1" sample_vars
    (dotenv sample_vars) (sample_app "b1" "t2" "running") sample_ok sample_vars_ascii sample_vars_good HG HE _ _ eq_refl eq_refl _ eq_refl eq_refl).
  - apply Nat.leb_le. reflexivity.
  - discriminate.
  - apply (bool_decide_eq_true_1 _). reflexivity.
Defined.

Lemma compare_is_exact_witness :
  ∃ la ra, find_app sample_store "a1" = Some la ∧ find_app sample_store "a2" = Some ra ∧ aTenant la = "t1" ∧ aTenant ra = "t1".
Proof.
  destruct (@compare_is_exact number_codec no_failure sample_store "t1" "a1" "a2" [] [] _ eq_refl) as (la & ra & H1 & H2 & H3 & H4 & _).
  by exists la, ra.
Defined.

(** A failed update of an import is answered 200, and a short secret is shown almost whole. *)
Example import_hides_failure :
  @Import_ number_codec (λ x, match x with SUpdateApp => true | _ => false end) sample_store "t1" "a1" (Some (DotEnv "A=1")) = (sample_store, 200) ∧
  maskShort "abcde" = "ab**de".
Proof. by split. Qed.

End EnvVars.
