(* ===== verification/Compose.v ===== *)
(** * Compose: compose stacks ([internal/compose])

    Parsing and variable interpolation of a compose file, the startup order of its
    services, and the deployment of a stack with its rollback.  The YAML library
    and the container runtime are parameters; the iteration order of a Go map is
    an argument, any permutation of its keys. *)

From Stdlib Require Import Floats.SpecFloat.
From S2P Require Import Prelude GoStrings GoTime GoScan.
#[local] Open Scope Z_scope.

Module Compose.

(** ** The compose file *)

(** A decoded YAML value where the program accepts several shapes; scalars are
    their [%v] text. *)
Inductive any := ANil | AMap (kvs : list (string * string)) | AList (items : list string) | AOther.

(** src/internal/compose/parser.go:98-101 ResourceSpec *)
Record ResourceSpec := { CPUs : string; Memory : string }.

(** The fields the program reads; [Build] and [Limits] are pointers.
    src/internal/compose/parser.go:24-51 ServiceConfig *)
Record ServiceConfig := {
  Image : string; Build : bool; Environment : any; DependsOn : any;
  Labels : gmap string string; Restart : string; Limits : option ResourceSpec;
  ResolvedEnv : gmap string string }.

Definition empty_service : ServiceConfig :=
  {| Image := ""; Build := false; Environment := ANil; DependsOn := ANil; Labels := ∅;
     Restart := ""; Limits := None; ResolvedEnv := ∅ |}.

(** A service may be null in the document.
    src/internal/compose/parser.go:16-21 ComposeFile *)
Record ComposeFile := { Services : gmap string (option ServiceConfig) }.

(** src/internal/compose/parser.go:138-162 resolveEnv *)
Definition resolveEnv (env : any) : gmap string string :=
  match env with
  | AMap kvs => list_to_map (reverse kvs)
  | AList items =>
      foldl (λ m s, let '(k, v) := cut s "="%char in <[k := default "" v]> m) ∅ items
  | ANil | AOther => ∅
  end.

Definition MaxComposeYAMLSize : Z := 2 ^ 20.

Inductive parse_error := TooLarge | BadYAML | NoServices.

(** [unmarshal] is the YAML library.
    src/internal/compose/parser.go:110-135 Parse *)
Definition Parse (unmarshal : string → option ComposeFile) (data : string)
  : result parse_error ComposeFile :=
  if MaxComposeYAMLSize <? Z.of_nat (slen data) then Err TooLarge
  else match unmarshal data with
       | None => Err BadYAML
       | Some cf =>
           if decide (Services cf = ∅) then Err NoServices
           else Ok {| Services :=
                        (λ o : option ServiceConfig,
                           let svc := default empty_service o in
                           Some {| Image := Image svc; Build := Build svc;
                                   Environment := Environment svc; DependsOn := DependsOn svc;
                                   Labels := Labels svc; Restart := Restart svc;
                                   Limits := Limits svc;
                                   ResolvedEnv := resolveEnv (Environment svc) |})
                        <$> Services cf |}
       end.

(** ** Interpolation *)

(** src/internal/core/id.go:32-44 GeneratePassword *)
Definition GeneratePassword (rnd : nat → nat) (length : nat) : string :=
  let charset := bytes "abcdefghijklmnopqrstuvwxyzABCDEFGHIJKLMNOPQRSTUVWXYZ0123456789" in
  str ((λ i, default "a"%char (charset !! rnd i)) <$> seq 0 length).

(** src/internal/compose/parser.go:217-225 isSensitiveEnvKey *)
Definition isSensitiveEnvKey (key : string) : bool :=
  existsb (Contains (ToUpper key)) ["PASSWORD"; "PASS"; "PWD"; "SECRET"; "TOKEN"; "KEY"; "SALT"].

(** src/internal/compose/parser.go:227-241 isWeakSecretDefault *)
Definition isWeakSecretDefault (value : string) : bool :=
  let v := ToLower (TrimSpace value) in
  if decide (v = "") then false
  else bool_decide (v ∈ ["admin"; "authentik"; "baserow"; "bookstack"; "change-this"; "change-this-key";
    "change-this-secret"; "change-this-too"; "changeme"; "huginn"; "immich"; "keycloak";
    "masterkey123"; "matomo"; "minioadmin"; "paperless"; "please-change-me"; "rootpass";
    "seafile"; "wiki"]).

(** The secrets generated so far. *)
Abbreviation secrets := (gmap string string).

Section Interpolation.
(** [entropy n] are the random choices of the [n]-th generated password. *)
Variable entropy : nat → nat → nat.
Variable vars : gmap string string.

(** src/internal/compose/parser.go:208-215 generatedSecret *)
Definition generatedSecret (generated : secrets) (key : string) : string * secrets :=
  match generated !! key with
  | Some pw => (pw, generated)
  | None => let pw := GeneratePassword (entropy (size generated)) 24 in (pw, <[key := pw]> generated)
  end.

(** The callback of the replacement, on the text between the braces.
    src/internal/compose/parser.go:179-204 InterpolateWithGenerated.replace *)
Definition replace (generated : secrets) (expr : string) : string * secrets :=
  match Index expr ":-" with
  | Some idx =>
      let key := str (take idx (bytes expr)) in
      let defaultVal := str (drop (idx + 2) (bytes expr)) in
      match vars !! key with
      | Some val => if decide (val ≠ "") then (val, generated)
                    else if isSensitiveEnvKey key && isWeakSecretDefault defaultVal
                         then generatedSecret generated key else (defaultVal, generated)
      | None => if isSensitiveEnvKey key && isWeakSecretDefault defaultVal
                then generatedSecret generated key else (defaultVal, generated)
      end
  | None =>
      match vars !! expr with
      | Some val => (val, generated)
      | None => if isSensitiveEnvKey expr then generatedSecret generated expr
                else ("${" +:+ expr +:+ "}", generated)
      end
  end.

(** A document as the regular expression [\$\{([^}]+)\}] sees it. *)
Inductive piece := Text (c : ascii) | Var (expr : string).

(** The match of the expression at the head of the text: the bytes up to the first
    closing brace, when there is one and it is not at once. *)
Definition var_at (l : list ascii) : option (list ascii) :=
  match l with
  | "$"%char :: "{"%char :: r =>
      match index_of ["}"%char] r with
      | Some (S n) => Some (take (S n) r)
      | _ => None
      end
  | _ => None
  end.

(** Leftmost matches that do not overlap; [skip] bytes belong to the last one. *)
Fixpoint pieces (skip : nat) (l : list ascii) : list piece :=
  match l with
  | [] => []
  | c :: r =>
      match skip with
      | S k => pieces k r
      | O => match var_at l with
             | Some e => Var (str e) :: pieces (length e + 2) r
             | None => Text c :: pieces 0 r
             end
      end
  end.

Definition emit (acc : list ascii * secrets) (p : piece) : list ascii * secrets :=
  match p with
  | Text c => (acc.1 ++ [c], acc.2)
  | Var e => let '(v, g) := replace acc.2 e in (acc.1 ++ bytes v, g)
  end.

(** src/internal/compose/parser.go:176-206 InterpolateWithGenerated *)
Definition InterpolateWithGenerated (data : string) : string * secrets :=
  let '(out, g) := foldl emit ([], ∅) (pieces 0 (bytes data)) in (str out, g).

(** src/internal/compose/parser.go:169-172 Interpolate *)
Definition Interpolate (data : string) : string := (InterpolateWithGenerated data).1.

End Interpolation.

(** ** Startup order *)

(** src/internal/compose/parser.go:274-294 parseDependsOn *)
Definition parseDependsOn (dep : any) : list string :=
  match dep with
  | AList items => items
  | AMap kvs => kvs.*1
  | ANil | AOther => []
  end.

Definition deps_of (cf : ComposeFile) (name : string) : list string :=
  match Services cf !! name with
  | Some (Some svc) => parseDependsOn (DependsOn svc)
  | _ => []
  end.

(** The recursive closure; [None] is running out of fuel.
    src/internal/compose/parser.go:248-264 ComposeFile.DependencyOrder.visit *)
Fixpoint visit (cf : ComposeFile) (fuel : nat) (st : gset string * list string) (name : string)
  : option (gset string * list string) :=
  match fuel with
  | O => None
  | S fuel =>
      if decide (name ∈ st.1) then Some st
      else
        st' ← foldl (λ acc dep, s ← acc; visit cf fuel s dep)
                (Some ({[ name ]} ∪ st.1, st.2)) (deps_of cf name);
        Some (st'.1, st'.2 ++ [name])
  end.

(** Every name that can be visited. *)
Definition universe (cf : ComposeFile) : gset string :=
  dom (Services cf) ∪ list_to_set ((map_to_list (Services cf)).*1 ≫= deps_of cf).

(** [names] is the iteration order of the services.
    src/internal/compose/parser.go:244-271 ComposeFile.DependencyOrder *)
Definition DependencyOrder (cf : ComposeFile) (names : list string) : option (list string) :=
  snd <$> foldl (λ acc name, s ← acc; visit cf (S (size (universe cf))) s name) (Some (∅, [])) names.

(** *** The traversal terminates and lists every name once *)

Section Order.
Variable cf : ComposeFile.

Definition visit_all (fuel : nat) (st : option (gset string * list string)) (names : list string)
  : option (gset string * list string) :=
  foldl (λ acc n, s ← acc; visit cf fuel s n) st names.

(** The traversal appended exactly the names it newly visited. *)
Definition extends (st st' : gset string * list string) : Prop :=
  ∃ new, st'.2 = st.2 ++ new ∧ st.1 ⊆ st'.1 ∧ NoDup new ∧
    (∀ x, x ∈ new ↔ x ∈ st'.1 ∧ x ∉ st.1) ∧ st'.1 ⊆ st.1 ∪ universe cf.

Lemma extends_refl st : extends st st.
Proof. exists []. split_and!; [by rewrite app_nil_r|done|constructor|set_solver|set_solver]. Qed.

Lemma extends_trans st1 st2 st3 : extends st1 st2 → extends st2 st3 → extends st1 st3.
Proof.
  intros (n1 & E1 & S1 & D1 & M1 & U1) (n2 & E2 & S2 & D2 & M2 & U2). exists (n1 ++ n2).
  split_and!; [by rewrite E2, E1, app_assoc|by etrans| | |].
  - apply NoDup_app. split_and!; [done| |done]. intros x [Hx1 _]%M1 [_ Hx2]%M2. done.
  - intros x. rewrite elem_of_app, M1, M2. specialize (S1 x). specialize (S2 x).
    destruct (decide (x ∈ st2.1)); tauto.
  - intros x [Hx|Hx]%U2%elem_of_union; [by apply U1|by apply elem_of_union_r].
Qed.

Lemma deps_universe name d : d ∈ deps_of cf name → d ∈ universe cf.
Proof.
  intros Hd. apply elem_of_union_r, elem_of_list_to_set, list_elem_of_bind. exists name. split; [done|].
  unfold deps_of in Hd. destruct (Services cf !! name) as [o|] eqn:E; [|by apply elem_of_nil in Hd].
  apply list_elem_of_fmap. exists (name, o). split; [done|]. by apply elem_of_map_to_list.
Qed.

Lemma visit_all_None fuel names : visit_all fuel None names = None.
Proof. induction names as [|n names IH]; [done|]. exact IH. Qed.

(** Enough fuel: one more than the names not yet visited. *)
Definition enough (fuel : nat) (st : gset string * list string) : Prop :=
  (size (universe cf ∖ st.1) < fuel)%nat.

Definition visits_well (fuel : nat) : Prop :=
  ∀ st name, name ∈ universe cf → enough fuel st →
    ∃ st', visit cf fuel st name = Some st' ∧ extends st st' ∧ name ∈ st'.1.

Lemma enough_mono fuel st st' : extends st st' → enough fuel st → enough fuel st'.
Proof.
  intros (new & _ & Hs & _). unfold enough. intros H.
  assert (size (universe cf ∖ st'.1) ≤ size (universe cf ∖ st.1))%nat by (apply subseteq_size; set_solver).
  lia.
Qed.

Lemma visit_all_well fuel names st :
  visits_well fuel → (∀ n, n ∈ names → n ∈ universe cf) → enough fuel st →
  ∃ st', visit_all fuel (Some st) names = Some st' ∧ extends st st' ∧ ∀ n, n ∈ names → n ∈ st'.1.
Proof.
  intros Hv. revert st. induction names as [|n names IH]; intros st Hn He.
  { exists st. split_and!; [done|apply extends_refl|set_solver]. }
  destruct (Hv st n ltac:(set_solver) He) as (st1 & E1 & X1 & M1).
  destruct (IH st1 ltac:(set_solver) (enough_mono _ _ _ X1 He)) as (st2 & E2 & X2 & M2).
  exists st2. split_and!.
  - cbn. rewrite E1. exact E2.
  - by eapply extends_trans.
  - intros m [->|Hm]%elem_of_cons; [|by apply M2]. destruct X2 as (? & _ & Hs & _). by apply Hs.
Qed.

Lemma visit_well fuel : visits_well fuel.
Proof.
  induction fuel as [|fuel IH]; intros st name Hu He; [unfold enough in He; lia|].
  cbn [visit]. case_decide as Hin; [exists st; split_and!; [done|apply extends_refl|done]|].
  set (st1 := ({[name]} ∪ st.1, st.2)).
  assert (He1 : enough fuel st1).
  { unfold enough in *. subst st1. cbn [fst].
    assert (size (universe cf ∖ ({[name]} ∪ st.1)) < size (universe cf ∖ st.1))%nat; [|lia].
    apply subset_size. split; [set_solver|]. intros H. specialize (H name). set_solver. }
  destruct (visit_all_well fuel (deps_of cf name) st1 IH (deps_universe name) He1) as (st' & E & X & _).
  change (foldl _ (Some st1) (deps_of cf name)) with (visit_all fuel (Some st1) (deps_of cf name)).
  rewrite E. cbn. eexists. split; [done|]. destruct X as (new & Hn & Hs & Hd & Hm & Hsub). cbn in Hn, Hs, Hm, Hsub.
  assert (Hname : name ∈ st'.1) by (apply Hs; set_solver).
  assert (Hnew : name ∉ new) by (intros [_ Hx]%Hm; set_solver).
  split; [|done]. exists (new ++ [name]). cbn. split_and!.
  - by rewrite Hn, app_assoc.
  - intros x Hx. apply Hs. by apply elem_of_union_r.
  - apply NoDup_app. split_and!; [done| |apply NoDup_singleton]. intros x Hx ->%list_elem_of_singleton. done.
  - intros x. rewrite elem_of_app, list_elem_of_singleton, Hm, elem_of_union, elem_of_singleton.
    split; [intros [[? ?]| ->]; [tauto|done]|]. destruct (decide (x = name)); tauto.
  - intros x Hx%Hsub. rewrite !elem_of_union, elem_of_singleton in *. destruct Hx as [[->|?]|?]; auto.
Qed.

(** *** Dependencies come first when they are acyclic *)

Variable rank : string → nat.
Hypothesis acyclic : ∀ n d, d ∈ deps_of cf n → (rank d < rank n)%nat.

(** Every name is preceded by its dependencies. *)
Definition topo (l : list string) : Prop :=
  ∀ l1 n l2, l = l1 ++ n :: l2 → ∀ d, d ∈ deps_of cf n → d ∈ l1.

Lemma topo_snoc l n : topo l → (∀ d, d ∈ deps_of cf n → d ∈ l) → topo (l ++ [n]).
Proof.
  intros Ht Hd l1 m l2 E d Hdm. destruct l2 as [|x l2 _] using rev_ind.
  - apply app_inj_tail in E as [-> ->]. by apply Hd.
  - rewrite app_comm_cons, app_assoc in E. apply app_inj_tail in E as [E _]. by eapply Ht.
Qed.

(** Names visited but not listed are ancestors of the one being visited. *)
Definition pending_above (st : gset string * list string) (r : nat) : Prop :=
  ∀ x, x ∈ st.1 → x ∈ st.2 ∨ (r < rank x)%nat.

Definition visit_topo_spec (st st' : gset string * list string) : Prop :=
  topo st'.2 ∧ (∀ x, x ∈ st.2 → x ∈ st'.2) ∧ (∀ x, x ∈ st'.1 → x ∈ st'.2 ∨ x ∈ st.1).

Lemma visit_all_topo fuel names st st' r :
  (∀ st name st', visit cf fuel st name = Some st' → topo st.2 → pending_above st (rank name) →
     visit_topo_spec st st' ∧ name ∈ st'.2) →
  (∀ n, n ∈ names → (rank n ≤ r)%nat) →
  visit_all fuel (Some st) names = Some st' → topo st.2 → pending_above st r →
  visit_topo_spec st st' ∧ ∀ n, n ∈ names → n ∈ st'.2.
Proof.
  intros Hv. revert st. induction names as [|n names IH]; intros st Hr E Ht Hp.
  { injection E as <-. split; [split_and!; auto|set_solver]. }
  change (visit_all fuel (visit cf fuel st n) names = Some st') in E.
  destruct (visit cf fuel st n) as [st1|] eqn:E1; [|by rewrite visit_all_None in E].
  destruct (Hv st n st1 E1 Ht) as [(T1 & I1 & P1) M1].
  { intros x Hx. specialize (Hr n ltac:(set_solver)). destruct (Hp x Hx); [auto|right; lia]. }
  destruct (IH st1 ltac:(set_solver) E T1) as [(T2 & I2 & P2) M2].
  { intros x Hx. destruct (P1 x Hx) as [|Hx0]; [auto|]. destruct (Hp x Hx0); auto. }
  split; [split_and!|].
  - done.
  - auto.
  - intros x Hx. destruct (P2 x Hx) as [|Hx1]; [auto|]. destruct (P1 x Hx1); auto.
  - intros m [->|Hm]%elem_of_cons; auto.
Qed.

Lemma visit_topo fuel st name st' :
  visit cf fuel st name = Some st' → topo st.2 → pending_above st (rank name) →
  visit_topo_spec st st' ∧ name ∈ st'.2.
Proof.
  revert st name st'. induction fuel as [|fuel IH]; intros st name st' E Ht Hp; [done|].
  cbn [visit] in E. case_decide as Hin.
  { injection E as <-. split; [split_and!; auto|]. destruct (Hp name Hin); [done|lia]. }
  set (st1 := ({[name]} ∪ st.1, st.2)) in E.
  change (foldl _ (Some st1) (deps_of cf name)) with (visit_all fuel (Some st1) (deps_of cf name)) in E.
  destruct (visit_all fuel (Some st1) (deps_of cf name)) as [st2|] eqn:E2; cbn in E; [|done].
  injection E as <-. destruct (deps_of cf name) as [|d0 ds] eqn:Ed.
  - injection E2 as <-. cbn. split; [split_and!|]; cbn; [|set_solver|set_solver|set_solver].
    apply topo_snoc; [done|]. rewrite Ed. set_solver.
  - rewrite <-Ed in E2. assert (Hpos : (0 < rank name)%nat).
    { pose proof (acyclic name d0). rewrite Ed in H. specialize (H ltac:(set_solver)). lia. }
    destruct (visit_all_topo fuel (deps_of cf name) st1 st2 (rank name - 1) IH) as [(T & I & P) M]; try done.
    { intros d Hd. specialize (acyclic name d Hd). lia. }
    { intros x Hx. unfold st1 in Hx. cbn in Hx. apply elem_of_union in Hx as [Hx|Hx]; [apply elem_of_singleton in Hx as ->; right; lia|].
      destruct (Hp x Hx); [by left|right; lia]. }
    cbn. split; [split_and!|]; cbn.
    + by apply topo_snoc.
    + intros x Hx. apply elem_of_app. left. by apply I.
    + intros x Hx. rewrite elem_of_app, list_elem_of_singleton.
      destruct (P x Hx) as [|Hx1]; [auto|]. unfold st1 in Hx1. cbn in Hx1.
      apply elem_of_union in Hx1 as [->%elem_of_singleton|]; auto.
    + apply elem_of_app. right. by apply list_elem_of_singleton.
Qed.

End Order.

(** The startup order of a stack, whatever the map's iteration order: the
    traversal always ends, even on cyclic dependencies, lists every service and no
    name twice, and when the dependencies are acyclic each service comes after all
    of its dependencies. *)
Theorem dependency_order_spec cf names :
  names ≡ₚ (map_to_list (Services cf)).*1 →
  ∃ order, DependencyOrder cf names = Some order ∧ NoDup order ∧
    (∀ n, n ∈ dom (Services cf) → n ∈ order) ∧ (∀ n, n ∈ order → n ∈ universe cf) ∧
    ∀ rank : string → nat, (∀ n d, d ∈ deps_of cf n → (rank d < rank n)%nat) →
      ∀ l1 n l2, order = l1 ++ n :: l2 → ∀ d, d ∈ deps_of cf n → d ∈ l1.
Proof.
  intros Hp. set (fuel := S (size (universe cf))).
  assert (Hdom : ∀ n, n ∈ names ↔ n ∈ dom (Services cf)).
  { intros n. rewrite Hp, list_elem_of_fmap, elem_of_dom. split.
    - intros ([k o] & -> & Hk). apply elem_of_map_to_list in Hk. eauto.
    - intros [o Ho]. exists (n, o). split; [done|]. by apply elem_of_map_to_list. }
  destruct (visit_all_well cf fuel names (∅, [])) as (st & E & (new & Hn & _ & Hd & Hm & Hu) & Hall).
  - apply visit_well.
  - intros n Hn. apply elem_of_union_l. by apply Hdom.
  - unfold enough, fuel. cbn. rewrite difference_empty_L. lia.
  - exists st.2. cbn in Hn, Hm, Hu. rewrite Hn. split_and!.
    + unfold DependencyOrder. change (snd <$> visit_all cf fuel (Some (∅, [])) names = Some new).
      rewrite E. cbn. by rewrite Hn.
    + done.
    + intros n Hin. apply Hm. split; [|set_solver]. by apply Hall, Hdom.
    + intros n [Hin _]%Hm. apply Hu in Hin. set_solver.
    + intros rank Hac. rewrite <-Hn.
      apply (visit_all_topo cf rank Hac fuel names (∅, []) st (max_list (rank <$> names))).
      * intros. by eapply visit_topo.
      * intros n Hin. apply max_list_elem_of_le, list_elem_of_fmap. eauto.
      * done.
      * intros l1 n l2 E1. by destruct l1.
      * intros x Hx. set_solver.
Qed.

(** A web service that depends on a database. *)
Definition svc (image : string) (dep : any) : ServiceConfig :=
  {| Image := image; Build := false; Environment := ANil; DependsOn := dep; Labels := ∅;
     Restart := ""; Limits := None; ResolvedEnv := ∅ |}.
Definition web_stack : ComposeFile :=
  {| Services := {[ "web" := Some (svc "nginx" (AList ["db"])); "db" := Some (svc "postgres" ANil) ]} |}.

Lemma dependency_order_spec_witness :
  ∃ order, DependencyOrder web_stack ["web"; "db"] = Some order ∧ NoDup order.
Proof.
  destruct (dependency_order_spec web_stack ["web"; "db"]) as (order & H1 & H2 & _).
  - apply (bool_decide_unpack _). vm_compute. exact I.
  - exists order. split; [exact H1|exact H2].
Defined.

(** *** Interpolation *)

Section InterpolationProofs.
Variable entropy : nat → nat → nat.
Variable vars : gmap string string.

#[local] Abbreviation replace := (replace entropy vars).
#[local] Abbreviation emit := (emit entropy vars).

(** A key for which a secret may be generated. *)
Definition needs_secret (k : string) : Prop :=
  isSensitiveEnvKey k = true ∧ (vars !! k = None ∨ vars !! k = Some "").

Definition secrets_ok (g : secrets) : Prop :=
  ∀ k pw, g !! k = Some pw → needs_secret k ∧ ∃ n, pw = GeneratePassword (entropy n) 24.

(** A replacement only adds to the generated secrets, and once made it is the same
    under every later state of them. *)
Lemma generatedSecret_stable g k v g' :
  generatedSecret entropy g k = (v, g') →
  g ⊆ g' ∧ (needs_secret k → secrets_ok g → secrets_ok g') ∧
  ∀ h, g' ⊆ h → generatedSecret entropy h k = (v, h).
Proof.
  unfold generatedSecret. destruct (g !! k) as [pw|] eqn:E; intros [= <- <-].
  - split_and!; [done|done|]. intros h Hh. by rewrite (lookup_weaken _ _ _ _ E Hh).
  - split_and!.
    + by apply insert_subseteq.
    + intros Hk Hg k' pw'. rewrite lookup_insert. case_decide; [intros [= <-]; subst; eauto|apply Hg].
    + intros h Hh.
      assert (Hk : h !! k = Some (GeneratePassword (entropy (size g)) 24)); [|by rewrite Hk].
      eapply lookup_weaken; [apply lookup_insert_eq|done].
Qed.

Lemma replace_stable g e v g' :
  replace g e = (v, g') →
  g ⊆ g' ∧ (secrets_ok g → secrets_ok g') ∧ ∀ h, g' ⊆ h → replace h e = (v, h).
Proof.
  unfold Compose.replace.
  repeat (case_match || case_decide); intros Hr; simplify_eq; try (split_and!; done);
    apply generatedSecret_stable in Hr as (Hg1 & Hg2 & Hg3); (split_and!; [done| |done]);
    apply Hg2; unfold needs_secret; bools;
    try match goal with H : ¬ ?s ≠ "", E : _ = Some ?s |- _ =>
          rewrite E; replace s with "" by (symmetry; by apply dec_stable); tauto end; naive_solver.
Qed.

Definition expand (g : secrets) (p : piece) : list ascii :=
  match p with Text c => [c] | Var e => bytes (replace g e).1 end.

Lemma emit_stable ps out g out' g' :
  foldl emit (out, g) ps = (out', g') →
  g ⊆ g' ∧ (secrets_ok g → secrets_ok g') ∧ out' = out ++ mjoin (expand g' <$> ps).
Proof.
  revert out g. induction ps as [|p ps IH]; intros out g; cbn [foldl].
  { intros [= <- <-]. cbn. rewrite app_nil_r. done. }
  destruct p as [c|e]; cbn [Compose.emit fst snd].
  - intros (H1 & H2 & ->)%IH. split_and!; try done. by rewrite fmap_cons, <-app_assoc.
  - destruct (replace g e) as [v g1] eqn:Er. intros (H1 & H2 & ->)%IH.
    apply replace_stable in Er as (R1 & R2 & R3). split_and!; [by etrans|auto|].
    rewrite fmap_cons, <-app_assoc. cbn. unfold expand at 2. by rewrite (R3 g' H1).
Qed.

End InterpolationProofs.

(** What a piece looked like in the document. *)
Definition source_text (p : piece) : list ascii :=
  match p with Text c => [c] | Var e => bytes "${" ++ bytes e ++ bytes "}" end.

Lemma pieces_skip k l : pieces k l = pieces 0 (drop k l).
Proof.
  revert l. induction k as [|k IH]; intros [|c l]; try done. cbn [pieces drop]. apply IH.
Qed.

Lemma var_at_Some l e :
  var_at l = Some e → ∃ rest, l = bytes "${" ++ e ++ bytes "}" ++ rest.
Proof.
  unfold var_at. intros H. repeat case_match; try done. injection H as <-. subst.
  match goal with E : index_of _ ?r = Some (S ?n) |- _ =>
    apply index_of_Some in E as [[rest Hr] _]; exists rest;
    rewrite <-(take_drop (S n) r) at 1; by rewrite Hr end.
Qed.

Lemma pieces_source l : mjoin (source_text <$> pieces 0 l) = l.
Proof.
  remember (length l) as n eqn:En. revert l En. induction n as [n IH] using lt_wf_ind. intros l ->.
  destruct l as [|c r]; [done|]. cbn [pieces]. destruct (var_at (c :: r)) as [e|] eqn:Ev.
  - apply var_at_Some in Ev as [rest El]. rewrite pieces_skip.
    assert (Er : r = "{"%char :: e ++ "}"%char :: rest) by (cbn in El; by injection El as _ ->).
    assert (Ed : drop (length e + 2) r = rest).
    { rewrite Er, Nat.add_comm. cbn [Nat.add drop]. rewrite cons_middle, app_assoc.
      apply drop_app_length'. rewrite length_app. cbn. lia. }
    rewrite Ed, El, fmap_cons. cbn [mjoin list_join source_text]. rewrite bytes_str, <-!app_assoc.
    do 3 f_equal. apply (IH (length rest)); [|done]. rewrite El, !length_app. cbn. lia.
  - rewrite fmap_cons. cbn [mjoin list_join source_text app]. f_equal.
    apply (IH (length r)); [cbn; lia|done].
Qed.

(** Interpolation is a substitution: the document is cut into plain text and
    references, and the output is the document with every reference replaced by
    its value under the final set of generated secrets, so all references to one
    variable get the same secret; secrets are generated only for sensitive names
    that the caller left unset or empty. *)
Theorem interpolation_is_substitution entropy vars data :
  let out := (InterpolateWithGenerated entropy vars data).1 in
  let g := (InterpolateWithGenerated entropy vars data).2 in
  let ps := pieces 0 (bytes data) in
  mjoin (source_text <$> ps) = bytes data ∧
  bytes out = mjoin (expand entropy vars g <$> ps) ∧
  ∀ k pw, g !! k = Some pw →
    isSensitiveEnvKey k = true ∧ (vars !! k = None ∨ vars !! k = Some "") ∧
    ∃ n, pw = GeneratePassword (entropy n) 24.
Proof.
  unfold InterpolateWithGenerated. destruct (foldl _ _ _) as [out g] eqn:E. cbn [fst snd].
  apply emit_stable in E as (_ & Hok & Hout). rewrite bytes_str. split_and!.
  - apply pieces_source.
  - exact Hout.
  - intros k pw Hk. destruct (Hok ltac:(by intros ??) k pw Hk) as [[H1 H2] H3]. done.
Qed.

Example interpolate_ex :
  InterpolateWithGenerated (λ _ _, 0%nat) {[ "TAG" := "15" ]}
    "image: pg:${TAG} ${DB_PASSWORD:-changeme} ${DB_PASSWORD} ${PORT:-80} ${HOST}" =
  ("image: pg:15 aaaaaaaaaaaaaaaaaaaaaaaa aaaaaaaaaaaaaaaaaaaaaaaa 80 ${HOST}",
   {[ "DB_PASSWORD" := "aaaaaaaaaaaaaaaaaaaaaaaa" ]}).
Proof. vm_compute. reflexivity. Qed.

(** ** Deployment *)

(** src/internal/compose/deployer.go:54-58 HTTPRoute *)
Record HTTPRoute := { ServiceName : string; FQDN : string; Port : Z }.

(** src/internal/compose/deployer.go:44-51 DeployOpts *)
Record DeployOpts := {
  AppID : string; TenantID : string; StackName : string; Stack : ComposeFile;
  EnvVars : list (string * string); HTTPRoutes : list HTTPRoute }.

(** The fields the deployer sets.
    src/internal/core/interfaces.go:45-58 ContainerOpts *)
Record ContainerOpts := {
  cName : string; cImage : string; cEnv : list string; cLabels : gmap string string;
  cNetwork : string; cCPUQuota : Z; cMemoryMB : Z; cRestartPolicy : string }.

(** The loop of [labelName]; every run of bytes that are not letters or digits
    becomes one dash, as every run of other runes does.
    src/internal/compose/deployer.go:210-222 labelName.loop *)
Fixpoint dashed (lastDash : bool) (l : list ascii) : list ascii :=
  match l with
  | [] => []
  | c :: r =>
      let n := Ascii.nat_of_ascii c in
      if decide ((97 ≤ n ≤ 122)%nat ∨ (48 ≤ n ≤ 57)%nat) then c :: dashed false r
      else if lastDash then dashed true r else "-"%char :: dashed true r
  end.

Fixpoint trim_dashes (l : list ascii) : list ascii :=
  match l with "-"%char :: r => trim_dashes r | _ => l end.

(** src/internal/compose/deployer.go:207-228 labelName *)
Definition labelName (s : string) : string :=
  let b := dashed false (bytes (ToLower (TrimSpace s))) in
  let out := reverse (trim_dashes (reverse (trim_dashes b))) in
  if decide (out = []) then "route" else str out.

Section Deploy.
(** What the platform makes of a float64 that does not fit an [int64]. *)
Variable wild : spec_float → Z.

(** src/internal/compose/deployer.go:231-250 parseMemory *)
Definition parseMemory (s : string) : Z :=
  let s := TrimSpace (ToLower s) in
  if HasSuffix s "g" || HasSuffix s "gb" then
    match GoScan.Sscanf_f (TrimRight s "gb") with
    | None => 0
    | Some val => GoScan.float_to_int64 wild (GoTime.f64_mul val (GoTime.f64_of_Z 1024))
    end
  else if HasSuffix s "m" || HasSuffix s "mb" then
    default 0 (GoScan.Sscanf_d (TrimRight s "mb"))
  else 0.

(** src/internal/compose/deployer.go:255-267 parseCPUs *)
Definition parseCPUs (s : string) : Z :=
  match GoScan.Sscanf_f (TrimSpace s) with
  | None => 0
  | Some val =>
      if SFleb val (S754_zero false) then 0
      else GoScan.float_to_int64 wild (GoTime.f64_mul val (GoTime.f64_of_Z 100000))
  end.

Example memory_limits : parseMemory <$> ["512m"; "2gb"; "256M"; "1.5g"; "  768m  "; "abcg"; "100kb"]
  = [512; 2048; 256; 1536; 768; 0; 0].
Proof. vm_compute. reflexivity. Qed.
Example cpu_limits : parseCPUs <$> [""; "0"; "-1"; "0.5"; "  2  "; "0.25"; "abc"]
  = [0; 0; 0; 50000; 200000; 25000; 0].
Proof. vm_compute. reflexivity. Qed.

(** Every limit in megabytes is read exactly. *)
Lemma megabytes_exact n : 0 ≤ n ≤ max_int64 → parseMemory (itoa n +:+ "m") = n.
Proof.
  intros Hn. unfold parseMemory.
  pose proof (itoa_digits n ltac:(lia)) as Hd.
  assert (Forall plain (bytes (itoa n +:+ "m"))) as Hp.
  { rewrite bytes_app. apply Forall_app. split; [|repeat constructor; vm_compute; lia].
    eapply Forall_impl; [exact Hd|]. apply digit_plain. }
  rewrite ToLower_plain, TrimSpace_plain by done.
  assert (∀ t c, c ≠ "m"%char → HasSuffix (itoa n +:+ "m") (t +:+ String c "") = false) as Hno.
  { intros t c Hc. apply not_true_iff_false. rewrite HasSuffix_spec. intros [r Hr].
    apply (f_equal bytes) in Hr. rewrite !bytes_app, app_assoc in Hr. by apply app_inj_tail in Hr as [_ [= <-]]. }
  assert (HasSuffix (itoa n +:+ "m") "g" = false) as -> by exact (Hno "" "g"%char ltac:(done)).
  assert (HasSuffix (itoa n +:+ "m") "gb" = false) as -> by exact (Hno "g" "b"%char ltac:(done)).
  cbn [orb].
  assert (HasSuffix (itoa n +:+ "m") "m" = true) as -> by (apply HasSuffix_spec; eauto). cbn [orb].
  rewrite TrimRight_digits by first [done|repeat constructor]. by rewrite GoScan.Sscanf_d_itoa.
Qed.

Inductive deploy_error :=
| ErrNoRuntime
| ErrNetwork (e : string)
| ErrBuildFirst (svc : string)
| ErrNoImage (svc : string)
| ErrCreate (svc : string) (e : string).

(** The labels of a service.
    src/internal/compose/deployer.go:144-162 StackDeployer.deployService.labels *)
Definition service_labels (opts : DeployOpts) (svcName : string) (svc : ServiceConfig)
  : gmap string string :=
  let base : gmap string string :=
    list_to_map [("monster.enable", "true"); ("monster.app.id", AppID opts);
                 ("monster.stack", StackName opts); ("monster.stack.service", svcName);
                 ("monster.tenant", TenantID opts)] in
  foldl (λ m r,
      if decide (ServiceName r ≠ svcName ∨ FQDN r = "" ∨ Port r ≤ 0) then m
      else
        let routeName := labelName (StackName opts +:+ "-" +:+ svcName) in
        <["monster.http.services." +:+ routeName +:+ ".loadbalancer.server.port" := itoa (Port r)]>
          (<["monster.http.routers." +:+ routeName +:+ ".rule" := "Host(`" +:+ FQDN r +:+ "`)"]> m))
    (Labels svc ∪ base) (HTTPRoutes opts).

(** What is asked of the runtime for a service, or why nothing is; [ranged] is the
    order in which its variables are ranged over.
    src/internal/compose/deployer.go:126-205 StackDeployer.deployService *)
Definition service_opts (opts : DeployOpts) (ranged : gmap string string → list (string * string)) (svcName : string)
    (svc : ServiceConfig) (network : string) : result deploy_error ContainerOpts :=
  if decide (Image svc = "") then
    if Build svc then Err (ErrBuildFirst svcName) else Err (ErrNoImage svcName)
  else
    let text kv := fst kv +:+ "=" +:+ snd kv in
    let mem := match Limits svc with
               | Some l => if decide (Memory l ≠ "") then parseMemory (Memory l) else 0
               | None => 0 end in
    let cpu := match Limits svc with
               | Some l => if decide (CPUs l ≠ "") then parseCPUs (CPUs l) else 0
               | None => 0 end in
    Ok {| cName := "monster-" +:+ StackName opts +:+ "-" +:+ svcName;
          cImage := Image svc;
          cEnv := (text <$> EnvVars opts) ++ (text <$> ranged (ResolvedEnv svc));
          cLabels := service_labels opts svcName svc;
          cNetwork := network; cCPUQuota := cpu; cMemoryMB := mem;
          cRestartPolicy := if decide (Restart svc = "") then "unless-stopped" else Restart svc |}.

(** What becomes of a container that is asked for: it runs, it is not created, or it is created
    and does not start; then it stays, and only the error is returned. *)
Inductive creation := Started (id : string) | NotCreated (e : string) | NotStarted (id e : string).

(** The container runtime: the containers that exist, and what was asked of it. *)
Inductive rt_call := CCreate (o : ContainerOpts) | CStop (id : string) | CRemove (id : string).
Record runtime := { live : list string; trace : list rt_call }.

(** How the runtime answers: what becomes of the [n]-th creation, and
    whether the removal of a container succeeds. *)
Variable create_result : nat → creation.
Variable remove_ok : string → bool.
(** The order in which the variables of a service are ranged over. *)
Variable env_order : string → gmap string string → list (string * string).

(** src/internal/deploy/docker.go:172-187 DockerManager.CreateAndStart.create *)
Definition CreateAndStart (rt : runtime) (n : nat) (o : ContainerOpts) : runtime * result string string :=
  let asked := trace rt ++ [CCreate o] in
  match create_result n with
  | Started id => ({| live := live rt ++ [id]; trace := asked |}, Ok id)
  | NotCreated e => ({| live := live rt; trace := asked |}, Err e)
  | NotStarted id e => ({| live := live rt ++ [id]; trace := asked |}, Err e)
  end.

Definition rollback_one (rt : runtime) (id : string) : runtime :=
  {| live := if remove_ok id then filter (λ x, x ≠ id) (live rt) else live rt;
     trace := trace rt ++ [CStop id; CRemove id] |}.

(** src/internal/compose/deployer.go:116-123 StackDeployer.rollback *)
Definition rollback (rt : runtime) (ids : list string) : runtime := foldl rollback_one rt ids.

(** The loop over the services in startup order.
    src/internal/compose/deployer.go:86-108 StackDeployer.Deploy.loop *)
Fixpoint deploy_services (opts : DeployOpts) (network : string) (order : list string)
    (created : list string) (rt : runtime) : runtime * result deploy_error (list string) :=
  match order with
  | [] => (rt, Ok created)
  | svcName :: order =>
      match Services (Stack opts) !! svcName with
      | Some (Some svc) =>
          match service_opts opts (env_order svcName) svcName svc network with
          | Err e => (rollback rt created, Err e)
          | Ok o =>
              match CreateAndStart rt (length created) o with
              | (rt', Ok id) => deploy_services opts network order (created ++ [id]) rt'
              | (rt', Err e) => (rollback rt' created, Err (ErrCreate svcName e))
              end
          end
      | _ => deploy_services opts network order created rt
      end
  end.

(** [available] is whether there is a runtime, [ensure] its network creation, when it has one, and [names] the
    iteration order of the services.
    src/internal/compose/deployer.go:62-112 StackDeployer.Deploy *)
Definition Deploy (available : bool) (ensure : option (string → option string)) (opts : DeployOpts) (names : list string)
    (rt : runtime) : option (runtime * result deploy_error (list string)) :=
  let network := "monster-" +:+ StackName opts +:+ "-net" in
  if negb available then Some (rt, Err ErrNoRuntime)
  else match (ensure ≫= λ f, f network) with
  | Some e => Some (rt, Err (ErrNetwork e))
  | None => order ← DependencyOrder (Stack opts) names;
            Some (deploy_services opts network order [] rt)
  end.







End Deploy.


(** The database starts, the web container fails: the database is removed again. *)
Definition web_opts : DeployOpts :=
  {| AppID := "app1"; TenantID := "t1"; StackName := "shop"; Stack := web_stack; EnvVars := [];
     HTTPRoutes := [] |}.
Definition failing_create (n : nat) : creation :=
  match n with O => Started "c1" | _ => NotStarted "c2" "port is already allocated" end.
Definition one_running : runtime := {| live := ["other"]; trace := [] |}.
Definition web_deploy : option (runtime * result deploy_error (list string)) :=
  Deploy (λ _, 0) failing_create (λ _, true) (λ _, map_to_list) true None web_opts ["web"; "db"] one_running.


(** The container that was created and did not start stays; the database is removed again. *)
Example unstarted_container_stays : (λ x, live x.1) <$> web_deploy = Some ["other"; "c2"].
Proof. vm_compute. reflexivity. Qed.

(** The labels by which the platform recognises a container come from the
    compose file when it sets them: without routes, a service label
    [monster.app.id] or [monster.tenant] replaces the identity of the stack. *)
Theorem service_labels_override_identity opts svcName svc k v :
  HTTPRoutes opts = [] → Labels svc !! k = Some v →
  service_labels opts svcName svc !! k = Some v.
Proof.
  intros Hr Hk. unfold service_labels. rewrite Hr. cbn [foldl]. by apply lookup_union_Some_l.
Qed.

Definition spoofed : ServiceConfig :=
  {| Image := "nginx"; Build := false; Environment := ANil; DependsOn := ANil;
     Labels := {[ "monster.app.id" := "victim" ]}; Restart := ""; Limits := None; ResolvedEnv := ∅ |}.

Lemma service_labels_override_identity_witness :
  service_labels web_opts "web" spoofed !! "monster.app.id" = Some "victim".
Proof.
  exact (service_labels_override_identity web_opts "web" spoofed "monster.app.id" "victim" eq_refl eq_refl).
Defined.

End Compose.
