(* ===== verification/Events.v ===== *)
(** * Events: the event bus ([internal/core/events.go])

    Subscriptions, the matching of event types, and publication.  Publishers and
    the goroutines of asynchronous handlers run concurrently: each is a program
    counter, and the buffered channel that bounds the handlers is its number of
    tokens.  Handlers are the environment: a call returns, fails or panics. *)

From S2P Require Import Prelude GoStrings.
#[local] Open Scope Z_scope.

Module Events.

(** ** Subscriptions *)

(** src/internal/core/events.go:38-44 Subscription *)
Record Subscription := { ID : string; EventType : string; Name : string; Async : bool }.

(** src/internal/core/events.go:311-316 cutSuffix *)
Definition cutSuffix (s suffix : string) : option string :=
  if HasSuffix s suffix then Some (str (take (slen s - slen suffix) (bytes s))) else None.

(** The test of one subscription.
    src/internal/core/events.go:265-278 EventBus.matchSubscriptions.test *)
Definition matches (pattern eventType : string) : bool :=
  if decide (pattern = "*") then true
  else if decide (pattern = eventType) then true
  else match cutSuffix pattern ".*" with
       | Some prefix =>
           (slen prefix <? slen eventType)%nat &&
           bool_decide (take (slen prefix) (bytes eventType) = bytes prefix) &&
           bool_decide (bytes eventType !! slen prefix = Some "."%char)
       | None => false
       end.

(** src/internal/core/events.go:262-281 EventBus.matchSubscriptions *)
Definition matchSubscriptions (subs : list Subscription) (eventType : string) : list Subscription :=
  filter (λ s, matches (EventType s) eventType = true) subs.

(** Removal swaps the last subscription into the hole.
    src/internal/core/events.go:129-137 EventBus.Unsubscribe.remove *)
Definition swap_remove (subs : list Subscription) (i : nat) : list Subscription :=
  match last subs with
  | Some l => take (length subs - 1) (<[i := l]> subs)
  | None => subs
  end.

(** ** The bus *)

(** A goroutine of an asynchronous handler.  [Deferred released token] is its
    deferred function: [released] is the variable [slotReleased], [token] whether
    it holds a slot of the channel; [Gone token] has returned. *)
Inductive phase :=
| FirstCall
| Backoff
| Reacquire
| SecondCall
| Deferred (released token : bool)
| Gone (token : bool).

(** A call of [Publish]: the subscriptions served and still to serve, the error it
    returned, and whether it runs under [PublishAsync], in the wait group. *)
Record publisher := {
  ptype : string; psubs : list Subscription; pdone : list Subscription; ptodo : list Subscription;
  perr : option string; ptracked : bool; pclosed : bool }.

(** src/internal/core/events.go:53-65 EventBus *)
Record EventBus := {
  subscriptions : list Subscription;
  asyncSem : Z;
  asyncCap : Z;
  asyncWG : Z;
  publishCount : Z;
  errorCount : Z;
  publishers : list publisher;
  goroutines : list phase }.

Definition DefaultAsyncWorkers : Z := 64.

(** src/internal/core/events.go:68-83 NewEventBus *)
Definition NewEventBus : EventBus :=
  {| subscriptions := []; asyncSem := 0; asyncCap := DefaultAsyncWorkers; asyncWG := 0;
     publishCount := 0; errorCount := 0; publishers := []; goroutines := [] |}.

Definition set_subs (b : EventBus) (l : list Subscription) : EventBus :=
  {| subscriptions := l; asyncSem := asyncSem b; asyncCap := asyncCap b; asyncWG := asyncWG b;
     publishCount := publishCount b; errorCount := errorCount b; publishers := publishers b;
     goroutines := goroutines b |}.

(** [gen] is the identifier [GenerateID] returns.
    src/internal/core/events.go:102-115 EventBus.SubscribeNamed *)
Definition SubscribeNamed (b : EventBus) (gen eventType name : string) (async : bool)
  : EventBus * string :=
  (set_subs b (subscriptions b ++
     [{| ID := gen; EventType := eventType; Name := name; Async := async |}]), gen).

(** src/internal/core/events.go:126-138 EventBus.Unsubscribe *)
Definition Unsubscribe (b : EventBus) (subID : string) : EventBus * bool :=
  match list_find (λ s, ID s = subID) (subscriptions b) with
  | Some (i, _) => (set_subs b (swap_remove (subscriptions b) i), true)
  | None => (b, false)
  end.

(** The start of [Publish], under the read lock; [tracked] for [PublishAsync].
    src/internal/core/events.go:143-156 EventBus.Publish.start *)
Definition Publish_start (b : EventBus) (eventType : string) (tracked : bool) : EventBus :=
  {| subscriptions := subscriptions b; asyncSem := asyncSem b; asyncCap := asyncCap b;
     asyncWG := if tracked then asyncWG b + 1 else asyncWG b;
     publishCount := i64 (publishCount b + 1); errorCount := errorCount b;
     publishers := publishers b ++
       [{| ptype := eventType; psubs := subscriptions b; pdone := [];
           ptodo := matchSubscriptions (subscriptions b) eventType; perr := None;
           ptracked := tracked; pclosed := false |}];
     goroutines := goroutines b |}.

Definition next_sub (p : publisher) (s : Subscription) (todo : list Subscription) (err : option string)
  : publisher :=
  {| ptype := ptype p; psubs := psubs p; pdone := pdone p ++ [s]; ptodo := todo; perr := err;
     ptracked := ptracked p; pclosed := pclosed p |}.

(** An asynchronous subscription: a slot is taken, waiting while there is none, and
    the goroutine starts.
    src/internal/core/events.go:158-163 EventBus.Publish.dispatch *)
Definition Publish_dispatch (b : EventBus) (i : nat) : option EventBus :=
  p ← publishers b !! i;
  match perr p, ptodo p with
  | None, s :: todo =>
      if Async s && (asyncSem b <? asyncCap b) then
        Some {| subscriptions := subscriptions b; asyncSem := asyncSem b + 1; asyncCap := asyncCap b;
                asyncWG := asyncWG b + 1; publishCount := publishCount b; errorCount := errorCount b;
                publishers := <[i := next_sub p s todo None]> (publishers b);
                goroutines := goroutines b ++ [FirstCall] |}
      else None
  | _, _ => None
  end.

(** A synchronous subscription; the first error ends the publication.
    src/internal/core/events.go:211-219 EventBus.Publish.handler *)
Definition Publish_sync (b : EventBus) (i : nat) (err : option string) : option EventBus :=
  p ← publishers b !! i;
  match perr p, ptodo p with
  | None, s :: todo =>
      if Async s then None
      else Some {| subscriptions := subscriptions b; asyncSem := asyncSem b; asyncCap := asyncCap b;
                   asyncWG := asyncWG b; publishCount := publishCount b;
                   errorCount := if err then i64 (errorCount b + 1) else errorCount b;
                   publishers := <[i := next_sub p s todo err]> (publishers b);
                   goroutines := goroutines b |}
  | _, _ => None
  end.

(** The goroutine of [PublishAsync] leaves the wait group.
    src/internal/core/events.go:235-258 EventBus.PublishAsync *)
Definition PublishAsync_end (b : EventBus) (i : nat) : option EventBus :=
  p ← publishers b !! i;
  if ptracked p && negb (pclosed p) && (bool_decide (ptodo p = []) || bool_decide (is_Some (perr p))) then
    Some {| subscriptions := subscriptions b; asyncSem := asyncSem b; asyncCap := asyncCap b;
            asyncWG := asyncWG b - 1; publishCount := publishCount b; errorCount := errorCount b;
            publishers := <[i := {| ptype := ptype p; psubs := psubs p; pdone := pdone p;
                                    ptodo := ptodo p; perr := perr p; ptracked := ptracked p;
                                    pclosed := true |}]> (publishers b);
            goroutines := goroutines b |}
  else None.

(** How a handler call ends. *)
Inductive call_result := Returned | Failed | Panicked.

Definition move (b : EventBus) (g : nat) (ph : phase) (dsem derr dwg : Z) : EventBus :=
  {| subscriptions := subscriptions b; asyncSem := asyncSem b + dsem; asyncCap := asyncCap b;
     asyncWG := asyncWG b + dwg; publishCount := publishCount b; errorCount := i64 (errorCount b + derr);
     publishers := publishers b; goroutines := <[g := ph]> (goroutines b) |}.

(** One step of a handler's goroutine: [res] is how a running call ends, [expired]
    whether the backoff timer fired before the context was cancelled.
    src/internal/core/events.go:163-210 EventBus.Publish.goroutine *)
Definition goroutine_step (b : EventBus) (g : nat) (res : call_result) (expired : bool)
  : option EventBus :=
  ph ← goroutines b !! g;
  match ph with
  | FirstCall =>
      match res with
      | Returned => Some (move b g (Deferred false true) 0 0 0)
      | Panicked => Some (move b g (Deferred false true) 0 1 0)
      | Failed => if 0 <? asyncSem b then Some (move b g Backoff (-1) 0 0) else None
      end
  | Backoff =>
      if expired then Some (move b g Reacquire 0 0 0)
      else Some (move b g (Deferred true false) 0 1 0)
  | Reacquire =>
      if asyncSem b <? asyncCap b then Some (move b g SecondCall 1 0 0) else None
  | SecondCall =>
      match res with
      | Returned => Some (move b g (Deferred true true) 0 0 0)
      | Failed | Panicked => Some (move b g (Deferred true true) 0 1 0)
      end
  | Deferred released token =>
      if released then Some (move b g (Gone token) 0 0 (-1))
      else if 0 <? asyncSem b then Some (move b g (Gone false) (-1) 0 (-1)) else None
  | Gone _ => None
  end.

(** [Drain] returns when the wait group is empty.
    src/internal/core/events.go:298-300 EventBus.Drain *)
Definition Drain (b : EventBus) : bool := asyncWG b =? 0.

(** src/internal/core/events.go:284-294 EventBus.Stats *)
Definition Stats (b : EventBus) : Z * Z * Z * Z * Z :=
  (zlen (subscriptions b), publishCount b, errorCount b, asyncCap b, asyncSem b).

Inductive label :=
| LSubscribe (gen eventType name : string) (async : bool)
| LUnsubscribe (id : string)
| LPublish (eventType : string) (tracked : bool)
| LDispatch (i : nat)
| LSync (i : nat) (err : option string)
| LPublishEnd (i : nat)
| LGo (g : nat) (res : call_result) (expired : bool).

Definition exec (b : EventBus) (l : label) : option EventBus :=
  match l with
  | LSubscribe gen et n a => Some (SubscribeNamed b gen et n a).1
  | LUnsubscribe id => Some (Unsubscribe b id).1
  | LPublish et t => Some (Publish_start b et t)
  | LDispatch i => Publish_dispatch b i
  | LSync i e => Publish_sync b i e
  | LPublishEnd i => PublishAsync_end b i
  | LGo g r x => goroutine_step b g r x
  end.

Definition step (b b' : EventBus) : Prop := ∃ l, exec b l = Some b'.

(** ** Matching *)

Definition pattern_matches (pattern t : string) : Prop :=
  pattern = "*" ∨ pattern = t ∨
  ∃ prefix rest, pattern = prefix +:+ ".*" ∧ t = prefix +:+ "." +:+ rest.

Lemma cutSuffix_Some s suf p : cutSuffix s suf = Some p ↔ s = p +:+ suf.
Proof.
  unfold cutSuffix. destruct (HasSuffix s suf) eqn:E.
  - apply HasSuffix_spec in E as [r ->]. unfold slen.
    rewrite bytes_app, length_app, Nat.add_sub, take_app_length, str_bytes.
    split; [intros [= ->]; done|]. intros H. f_equal. apply (f_equal bytes) in H. rewrite !bytes_app in H.
    by apply app_inv_tail, bytes_inj in H.
  - split; [done|]. intros ->. assert (HasSuffix (p +:+ suf) suf = true) by (apply HasSuffix_spec; eauto).
    congruence.
Qed.

Lemma matches_spec pattern t : matches pattern t = true ↔ pattern_matches pattern t.
Proof.
  unfold matches, pattern_matches. case_decide as E1; [naive_solver|]. case_decide as E2; [naive_solver|].
  transitivity (∃ prefix rest, pattern = prefix +:+ ".*" ∧ t = prefix +:+ "." +:+ rest); [|naive_solver].
  destruct (cutSuffix pattern ".*") as [pre|] eqn:Ec.
  - apply cutSuffix_Some in Ec. rewrite !andb_true_iff, !bool_decide_eq_true. split.
    + intros [[_ Ht] Hd]. exists pre, (str (drop (S (slen pre)) (bytes t))). split; [done|].
      apply bytes_inj. rewrite !bytes_app, bytes_str. rewrite <-(take_drop_middle _ _ _ Hd) at 1.
      by rewrite Ht.
    + intros (p2 & rest & E & ->). assert (p2 = pre) as ->.
      { rewrite Ec in E. apply (f_equal bytes) in E. rewrite !bytes_app in E.
        symmetry. by apply app_inv_tail, bytes_inj in E. }
      unfold slen. rewrite !bytes_app, take_app_length. rewrite !length_app. cbn. split_and!; [|done|].
      * apply Nat.ltb_lt. lia.
      * by rewrite lookup_app_r, Nat.sub_diag by done.
  - split; [done|]. intros (p2 & rest & E & _). apply cutSuffix_Some in E. congruence.
Qed.

(** ** Slots of the pool *)

(** A goroutine that has a token in the channel. *)
Definition holds (ph : phase) : Z :=
  match ph with
  | FirstCall | SecondCall | Deferred _ true | Gone true => 1
  | _ => 0
  end.

(** A token that nothing will take out again: its goroutine believes it released it. *)
Definition leaked (ph : phase) : Z :=
  match ph with Gone true | Deferred true true => 1 | _ => 0 end.

Definition alive (ph : phase) : Z := match ph with Gone _ => 0 | _ => 1 end.
Definition pending (p : publisher) : Z := if ptracked p && negb (pclosed p) then 1 else 0.

Definition leaks (b : EventBus) : Z := zsum leaked (goroutines b).

(** The channel holds exactly its holders' tokens, never more than its capacity, and
    the wait group counts the goroutines and the tracked publishers. *)
Record bus_ok (b : EventBus) : Prop := {
  b_sem : asyncSem b = zsum holds (goroutines b);
  b_cap : asyncSem b ≤ asyncCap b;
  b_wg : asyncWG b = zsum alive (goroutines b) + zsum pending (publishers b);
  b_deferred : ∀ g tok, goroutines b !! g = Some (Deferred false tok) → tok = true }.

Lemma pending_next p s todo err : pending (next_sub p s todo err) = pending p.
Proof. done. Qed.

Lemma pending_closed p : pclosed p = true → pending p = 0.
Proof. intros H. unfold pending. by rewrite H, andb_false_r. Qed.

Lemma goroutine_ok b g r x b' :
  bus_ok b → goroutine_step b g r x = Some b' →
  bus_ok b' ∧ leaks b ≤ leaks b' ∧ asyncCap b' = asyncCap b ∧ publishers b' = publishers b.
Proof.
  intros [Hs Hc Hw Hd] H. unfold goroutine_step in H.
  destruct (goroutines b !! g) as [ph|] eqn:Eg; cbn in H; [|done].
  assert (Hgo : ∀ ph' ds de dw,
    asyncSem b + ds = zsum holds (goroutines b) - holds ph + holds ph' →
    asyncSem b + ds ≤ asyncCap b → alive ph' = alive ph + dw → leaked ph ≤ leaked ph' →
    (∀ tok, ph' = Deferred false tok → tok = true) →
    bus_ok (move b g ph' ds de dw) ∧ leaks b ≤ leaks (move b g ph' ds de dw) ∧
    asyncCap (move b g ph' ds de dw) = asyncCap b ∧ publishers (move b g ph' ds de dw) = publishers b).
  { intros ph' ds de dw H1 H2 H3 H4 H5. split_and!; try done.
    - split; cbn [asyncSem asyncCap asyncWG goroutines publishers move]; try done.
      + by rewrite (zsum_insert _ _ _ _ _ Eg).
      + rewrite (zsum_insert _ _ _ _ _ Eg). lia.
      + intros g' tok. rewrite list_lookup_insert. case_decide; [intros [= ->]; by apply H5|apply Hd].
    - unfold leaks. cbn [goroutines move]. rewrite (zsum_insert _ _ _ _ _ Eg). lia. }
  destruct ph as [| | | |rel tok|tok]; try destruct r; try destruct x; try destruct rel;
    repeat match type of H with context [if ?c then _ else _] => destruct c eqn:? end;
    try discriminate H; injection H as <-; bools;
    (apply Hgo; cbn [holds alive leaked]; try lia;
      first [by intros ? [= <-] | discriminate | (intros ? Hx; discriminate Hx) | idtac]);
    try (pose proof (Hd _ _ Eg) as ->; lia); destruct tok; lia.
Qed.

Lemma bus_exec_ok b l b' :
  bus_ok b → exec b l = Some b' → bus_ok b' ∧ leaks b ≤ leaks b' ∧ asyncCap b' = asyncCap b.
Proof.
  intros Hok H. destruct l; cbn [exec] in H.
  - injection H as <-. by destruct Hok.
  - injection H as <-. unfold Unsubscribe. destruct (list_find _ _) as [[i s]|]; by destruct Hok.
  - injection H as <-. destruct Hok as [Hs Hc Hw Hd]. unfold Publish_start, leaks.
    split_and!; try done. split; cbn [asyncSem asyncCap asyncWG goroutines publishers]; try done.
    rewrite zsum_app, Hw. destruct tracked; cbn; lia.
  - unfold Publish_dispatch in H. destruct (publishers b !! i) as [p|] eqn:Ep; cbn in H; [|done].
    repeat case_match; try done. injection H as <-. bools. destruct Hok as [Hs Hc Hw Hd].
    unfold leaks. cbn [goroutines asyncCap]. rewrite zsum_app. cbn [zsum foldr leaked]. split_and!; try done; try lia.
    split; cbn [asyncSem asyncCap asyncWG goroutines publishers]; try lia.
    + rewrite zsum_app, Hs. cbn. lia.
    + rewrite zsum_app, (zsum_insert _ _ _ _ _ Ep), pending_next, Hw. cbn. lia.
    + intros g tok Hg. apply lookup_app_Some in Hg as [Hg|[_ Hg]]; [by eapply Hd|].
      by apply list_lookup_singleton_Some in Hg as [_ ?].
  - unfold Publish_sync in H. destruct (publishers b !! i) as [p|] eqn:Ep; cbn in H; [|done].
    repeat case_match; try done; injection H as <-; destruct Hok as [Hs Hc Hw Hd];
      (split_and!; [split|done..]; cbn [asyncSem asyncCap asyncWG goroutines publishers]; try done);
      by rewrite (zsum_insert _ _ _ _ _ Ep), pending_next, Z.sub_add.
  - unfold PublishAsync_end in H. destruct (publishers b !! i) as [p|] eqn:Ep; cbn in H; [|done].
    case_match eqn:E; [|done]. injection H as <-. destruct Hok as [Hs Hc Hw Hd].
    rewrite !andb_true_iff in E. destruct E as [[Et Ec] _].
    split_and!; [split|done..]; cbn [asyncSem asyncCap asyncWG goroutines publishers]; try done.
    assert (Hp1 : pending p = 1) by (unfold pending; by rewrite Et, Ec).
    rewrite (zsum_insert _ _ _ _ _ Ep), Hp1, Hw, (pending_closed (Build_publisher _ _ _ _ _ _ true)) by done.
    lia.
  - apply goroutine_ok in H as (? & ? & ? & _); done.
Qed.

Lemma bus_rtc_ok b b' :
  bus_ok b → rtc step b b' → bus_ok b' ∧ leaks b ≤ leaks b' ∧ asyncCap b' = asyncCap b.
Proof.
  intros Hok Hr. induction Hr as [b|b b1 b' [l Hl] _ IH]; [done|].
  destruct (bus_exec_ok _ _ _ Hok Hl) as (H1 & H2 & H3). destruct (IH H1) as (H4 & H5 & H6).
  split_and!; [done|lia|congruence].
Qed.

Lemma leaks_le_sem b : bus_ok b → leaks b ≤ asyncSem b.
Proof.
  intros Hok. rewrite (b_sem _ Hok). apply zsum_le. intros ph. destruct ph as [| | | |[] []|[]]; cbn; lia.
Qed.

Lemma NewEventBus_ok : bus_ok NewEventBus.
Proof. by split. Qed.

(** A pool whose slots are all leaked never starts a handler again. *)
Lemma exhausted_blocks b b' i :
  bus_ok b → asyncCap b ≤ leaks b → rtc step b b' → Publish_dispatch b' i = None.
Proof.
  intros Hok Hl Hr. destruct (bus_rtc_ok _ _ Hok Hr) as (Hok' & H1 & H2).
  pose proof (leaks_le_sem _ Hok'). unfold Publish_dispatch.
  destruct (publishers b' !! i) as [p|]; [|done]. cbn. repeat case_match; try done. bools. lia.
Qed.

Fixpoint run (b : EventBus) (ls : list label) : option EventBus :=
  match ls with [] => Some b | l :: ls => b' ← exec b l; run b' ls end.

Lemma bus_run_steps b ls b' : run b ls = Some b' → rtc step b b'.
Proof.
  revert b. induction ls as [|l ls IH]; cbn [run]; intros b H; [by injection H as <-|].
  destruct (exec b l) as [b1|] eqn:E; [|done]. eapply rtc_l; [by exists l|by apply IH].
Qed.

(** An event whose handler fails once and succeeds when it is retried. *)
Definition retried_event (n : nat) : list label :=
  [LPublish "app.deployed" false; LDispatch n; LGo n Failed true; LGo n Returned true;
   LGo n Returned true; LGo n Returned true; LGo n Returned true].

Definition retried_events : list label :=
  LSubscribe "s1" "app.*" "audit" true :: (seq 0 64 ≫= retried_event).

(** A slot of the handler pool is lost for good whenever a handler is retried:
    after 64 events whose asynchronous handler failed once and then succeeded, no
    handler runs and the wait group is empty, yet the pool counts as full, and in
    no later state does a publication to an asynchronous subscriber get past it. *)
Theorem failed_retries_exhaust_pool :
  ∃ b, rtc step NewEventBus b ∧ Drain b = true ∧ asyncSem b = DefaultAsyncWorkers ∧
    zsum alive (goroutines b) = 0 ∧
    ∀ b' i, rtc step b b' → Publish_dispatch b' i = None.
Proof.
  destruct (run NewEventBus retried_events) as [b|] eqn:E; [|exfalso; revert E; vm_compute; discriminate].
  assert (Hb : (asyncSem b, Drain b, zsum alive (goroutines b), asyncCap b, leaks b)
                 = (64, true, 0, 64, 64)).
  { revert E. intros E. assert (E' : Some b = run NewEventBus retried_events) by done.
    clear E. revert E'. vm_compute. intros [= ->]. reflexivity. }
  injection Hb as H1 H2 H3 H4 H5. apply bus_run_steps in E. exists b. split_and!; try done.
  intros b' i Hr. apply (exhausted_blocks b b' i); [|lia|done].
  by apply (bus_rtc_ok NewEventBus b NewEventBus_ok).
Qed.

(** ** Delivery *)

Definition pub_ok (p : publisher) : Prop :=
  pdone p ++ ptodo p = matchSubscriptions (psubs p) (ptype p) ∧
  (is_Some (perr p) → ∃ l s, pdone p = l ++ [s] ∧ Async s = false).

Lemma insert_pub_ok (ps : list publisher) i p :
  Forall pub_ok ps → pub_ok p → Forall pub_ok (<[i := p]> ps).
Proof. intros. by apply Forall_insert. Qed.

Lemma exec_pub_ok b l b' :
  Forall pub_ok (publishers b) → exec b l = Some b' → Forall pub_ok (publishers b').
Proof.
  intros Hf H. destruct l; cbn [exec] in H.
  - by injection H as <-.
  - injection H as <-. unfold Unsubscribe. by repeat case_match.
  - injection H as <-. cbn. apply Forall_app. split; [done|]. apply Forall_singleton. split; cbn; [done|].
    by intros [? ?].
  - unfold Publish_dispatch in H. destruct (publishers b !! i) as [p|] eqn:Ep; cbn in H; [|done].
    pose proof (Forall_lookup_1 _ _ _ _ Hf Ep) as [Hp _].
    destruct (perr p); [done|]. destruct (ptodo p) as [|s todo] eqn:Et; [done|].
    case_match; [|done]. injection H as <-. cbn. apply insert_pub_ok; [done|]. split; cbn; [|by intros [? ?]].
    by rewrite <-app_assoc.
  - unfold Publish_sync in H. destruct (publishers b !! i) as [p|] eqn:Ep; cbn in H; [|done].
    pose proof (Forall_lookup_1 _ _ _ _ Hf Ep) as [Hp _].
    destruct (perr p); [done|]. destruct (ptodo p) as [|s todo] eqn:Et; [done|].
    destruct (Async s) eqn:Ea; [done|]. injection H as <-. cbn. apply insert_pub_ok; [done|].
    split; cbn; [by rewrite <-app_assoc|]. intros _. eauto.
  - unfold PublishAsync_end in H. destruct (publishers b !! i) as [p|] eqn:Ep; cbn in H; [|done].
    pose proof (Forall_lookup_1 _ _ _ _ Hf Ep) as Hp. case_match; [|done]. injection H as <-. cbn.
    by apply insert_pub_ok.
  - unfold goroutine_step in H. destruct (goroutines b !! g) as [ph|]; cbn in H; [|done].
    destruct ph; repeat case_match; try done; by injection H as <-.
Qed.

(** Delivery: a publication works through exactly the subscriptions that match
    its type when it starts, in their order, where a pattern matches by equality,
    by ["*"], or by a prefix up to a dot; it stops early only after a synchronous
    handler failed, and otherwise has served them all when it ends. *)
Theorem publish_delivers_in_order b p :
  rtc step NewEventBus b → p ∈ publishers b →
  pdone p ++ ptodo p = matchSubscriptions (psubs p) (ptype p) ∧
  (∀ s, s ∈ matchSubscriptions (psubs p) (ptype p) ↔
        s ∈ psubs p ∧ pattern_matches (EventType s) (ptype p)) ∧
  (ptodo p = [] → perr p = None → pdone p = matchSubscriptions (psubs p) (ptype p)) ∧
  (is_Some (perr p) → ∃ l s, pdone p = l ++ [s] ∧ Async s = false).
Proof.
  intros Hr Hp. assert (Hf : Forall pub_ok (publishers b)).
  { remember NewEventBus as b0 eqn:E0. assert (H0 : Forall pub_ok (publishers b0)) by (subst; constructor).
    clear E0 Hp. induction Hr as [|b1 b2 b3 [l Hl] _ IH]; [done|]. by eapply IH, exec_pub_ok. }
  apply (proj1 (Forall_forall _ _)) with (x := p) in Hf as [H1 H2]; [|done]. split_and!; try done.
  - intros s. unfold matchSubscriptions. rewrite list_elem_of_filter, matches_spec. tauto.
  - intros Ht _. by rewrite <-H1, Ht, app_nil_r.
Qed.

Definition one_event : option EventBus :=
  run NewEventBus [LSubscribe "s1" "app.*" "audit" true; LSubscribe "s2" "build.*" "log" false;
                   LPublish "app.deployed" false; LDispatch 0].

Lemma publish_delivers_in_order_witness :
  ∃ b p, one_event = Some b ∧ p ∈ publishers b ∧
    pdone p ++ ptodo p = matchSubscriptions (psubs p) (ptype p).
Proof.
  destruct one_event as [b|] eqn:E; [|exfalso; revert E; vm_compute; discriminate].
  destruct (publishers b) as [|p l] eqn:Ep;
    [exfalso; assert (H : length <$> (publishers <$> one_event) = Some 1%nat) by (vm_compute; reflexivity);
     rewrite E in H; cbn in H; rewrite Ep in H; discriminate|].
  assert (Hin : p ∈ publishers b) by (rewrite Ep; left).
  exists b, p. split; [reflexivity|]. split; [rewrite Ep; left|].
  apply (publish_delivers_in_order b p); [|exact Hin]. by eapply bus_run_steps.
Defined.

End Events.
