(* ===== verification/Topology.v ===== *)
(** * Topology: compilation of a topology to a compose file ([internal/topology])

    The validation of a topology, the resolution of its references and the
    generation of services, volumes, Caddyfile and environment file.  The compiler
    draws random passwords: [draws] counts them, and the random choices of each
    draw are an argument.  Maps whose order cannot be observed are [gmap]s. *)

From S2P Require Import Prelude GoStrings.
#[local] Open Scope Z_scope.

Module Topology.

(** ** Data *)

(** src/internal/topology/types.go:159-163 VolumeMount *)
Record VolumeMount := { VolumeID : string; mMountPath : string; ReadOnly : bool }.

(** The fields the compiler reads.
    src/internal/topology/types.go:31-62 App *)
Record App := {
  aID : string; aName : string; aDockerfile : string; Port : Z; aMemoryMB : Z; aCPU : Z;
  aEnvVars : gmap string string; aVolumeMounts : list VolumeMount;
  HealthCheckPath : string; HealthCheckPort : Z }.

(** src/internal/topology/types.go:65-90 Database *)
Record Database := {
  dID : string; dName : string; Engine : string; dVersion : string; Managed : bool;
  External : bool; ConnURL : string; Username : string; Password : string; DatabaseName : string;
  ExtraConfig : gmap string string }.

Definition EnginePostgres : string := "postgres".
Definition EngineMySQL : string := "mysql".
Definition EngineMariaDB : string := "mariadb".
Definition EngineMongoDB : string := "mongodb".
Definition EngineRedis : string := "redis".

(** src/internal/topology/types.go:109-124 Domain *)
Record Domain := {
  doID : string; FQDN : string; SSLEnabled : bool; SSLMODE : string; TargetAppID : string }.

(** src/internal/topology/types.go:137-147 Volume *)
Record Volume := { vID : string; vName : string; Temporary : bool }.

(** src/internal/topology/types.go:166-191 Worker *)
Record Worker := {
  wID : string; wName : string; wDockerfile : string; Command : string;
  wEnvVars : gmap string string; wVolumeMounts : list VolumeMount }.

Definition ConnDependency : string := "dependency".

(** src/internal/topology/types.go:194-201 Connection *)
Record Connection := {
  cID : string; cType : string; SourceID : string; TargetID : string; EnvVarName : string }.

(** src/internal/topology/types.go:10-28 Topology *)
Record Topology := {
  Apps : list App; Databases : list Database; Domains : list Domain; Volumes : list Volume;
  Workers : list Worker; Connections : list Connection }.

(** src/internal/topology/compiler.go:11-19 Compiler *)
Record Compiler := {
  topology : Topology; project : string; env : string;
  images : gmap string string; connections : gmap string string; draws : nat }.

(** src/internal/topology/compiler.go:22-30 NewCompiler *)
Definition NewCompiler (t : Topology) (project env : string) : Compiler :=
  {| topology := t; project := project; env := env; images := ∅; connections := ∅; draws := 0 |}.

(** ** Validation *)

Inductive error :=
| DuplicateApp (n : string) | DuplicateDatabase (n : string) | DuplicateVolume (n : string)
| PortConflict (p : Z) (a b : string)
| DomainTarget (fqdn app : string)
| MountVolume (app vol : string)
| ConnSource (id src : string) | ConnTarget (id tgt : string)
| UnsupportedEngine (db engine : string).

(** src/internal/topology/compiler.go:341-348 Compiler.appExists *)
Definition appExists (t : Topology) (id : string) : bool :=
  existsb (λ a, bool_decide (aID a = id)) (Apps t).

(** src/internal/topology/compiler.go:350-357 Compiler.volumeExists *)
Definition volumeExists (t : Topology) (id : string) : bool :=
  existsb (λ v, bool_decide (vID v = id)) (Volumes t).

(** src/internal/topology/compiler.go:359-384 Compiler.componentExists *)
Definition componentExists (t : Topology) (id : string) : bool :=
  appExists t id
  || existsb (λ d, bool_decide (dID d = id)) (Databases t)
  || existsb (λ v, bool_decide (vID v = id)) (Volumes t)
  || existsb (λ d, bool_decide (doID d = id)) (Domains t)
  || existsb (λ w, bool_decide (wID w = id)) (Workers t).

(** One of the three loops over names, with the names seen so far.
    src/internal/topology/compiler.go:56-62 Compiler.validate.names *)
Fixpoint check_names (err : string → error) (seen : gset string) (l : list string)
  : result error (gset string) :=
  match l with
  | [] => Ok seen
  | n :: l => if decide (n ∈ seen) then Err (err n) else check_names err ({[ n ]} ∪ seen) l
  end.

(** src/internal/topology/compiler.go:77-85 Compiler.validate.ports *)
Fixpoint check_ports (ports : gmap Z string) (l : list App) : result error unit :=
  match l with
  | [] => Ok tt
  | a :: l =>
      if 0 <? Port a then
        match ports !! Port a with
        | Some existing => Err (PortConflict (Port a) existing (aName a))
        | None => check_ports (<[Port a := aName a]> ports) l
        end
      else check_ports ports l
  end.

(** The first failing element of a loop of checks. *)
Fixpoint first_error {A} (f : A → option error) (l : list A) : result error unit :=
  match l with
  | [] => Ok tt
  | x :: l => match f x with Some e => Err e | None => first_error f l end
  end.

(** src/internal/topology/compiler.go:88-94 Compiler.validate.domain *)
Definition check_domain (t : Topology) (d : Domain) : option error :=
  if decide (TargetAppID d ≠ "") then
    if negb (appExists t (TargetAppID d)) then Some (DomainTarget (FQDN d) (TargetAppID d)) else None
  else None.

(** src/internal/topology/compiler.go:97-103 Compiler.validate.mounts *)
Definition check_mounts (t : Topology) (a : App) : option error :=
  match first_error (λ m, if negb (volumeExists t (VolumeID m))
                          then Some (MountVolume (aName a) (VolumeID m)) else None)
          (aVolumeMounts a) with
  | Ok _ => None
  | Err e => Some e
  end.

(** src/internal/topology/compiler.go:106-113 Compiler.validate.connection *)
Definition check_connection (t : Topology) (c : Connection) : option error :=
  if negb (componentExists t (SourceID c)) then Some (ConnSource (cID c) (SourceID c))
  else if negb (componentExists t (TargetID c)) then Some (ConnTarget (cID c) (TargetID c))
  else None.

(** src/internal/topology/compiler.go:54-116 Compiler.validate *)
Definition validate (t : Topology) : result error unit :=
  s1 ←! check_names DuplicateApp ∅ (aName <$> Apps t);
  s2 ←! check_names DuplicateDatabase s1 (dName <$> Databases t);
  _ ←! check_names DuplicateVolume s2 (vName <$> Volumes t);
  _ ←! check_ports ∅ (Apps t);
  _ ←! first_error (check_domain t) (Domains t);
  _ ←! first_error (check_mounts t) (Apps t);
  first_error (check_connection t) (Connections t).

(** ** Resolution *)

Section Compile.
(** The random choices of each draw; [None] is a failure of the entropy source. *)
Variable rnd : nat → nat → option nat.

(** src/internal/topology/compiler.go:387-401 randomString *)
Definition randomString (n length : nat) : string :=
  let charset := bytes "abcdefghijklmnopqrstuvwxyz0123456789" in
  str ((λ i, default "a"%char (charset !! match rnd n i with
                                          | Some k => k
                                          | None => (i mod 36)%nat
                                          end)) <$> seq 0 length).

(** src/internal/topology/compiler.go:219-221 Compiler.generatePassword *)
Definition generatePassword (n : nat) : string := "pwd_" +:+ randomString n 12.

(** src/internal/topology/compiler.go:201-216 Compiler.getDatabasePort *)
Definition getDatabasePort (engine : string) : Z :=
  if decide (engine = EnginePostgres) then 5432
  else if decide (engine = EngineMySQL) then 3306
  else if decide (engine = EngineMariaDB) then 3306
  else if decide (engine = EngineMongoDB) then 27017
  else if decide (engine = EngineRedis) then 6379
  else 5432.

Definition or_else (s d : string) : string := if decide (s = "") then d else s.

(** The URL and the number of passwords drawn.
    src/internal/topology/compiler.go:161-198 Compiler.generateDatabaseURL *)
Definition generateDatabaseURL (n : nat) (db : Database) : string * nat :=
  if decide (ConnURL db ≠ "") then (ConnURL db, n)
  else
    let host := dName db in
    let port := itoa (getDatabasePort (Engine db)) in
    let username := or_else (Username db) "root" in
    let '(password, n') := if decide (Password db = "") then (generatePassword n, S n)
                           else (Password db, n) in
    let database := or_else (DatabaseName db) (dName db) in
    let full scheme := scheme +:+ "://" +:+ username +:+ ":" +:+ password +:+ "@" +:+ host +:+ ":"
                         +:+ port +:+ "/" +:+ database in
    ((if decide (Engine db = EnginePostgres) then full "postgresql"
      else if decide (Engine db = EngineMySQL) then full "mysql"
      else if decide (Engine db = EngineMariaDB) then full "mariadb"
      else if decide (Engine db = EngineMongoDB) then full "mongodb"
      else if decide (Engine db = EngineRedis) then
        if decide (password ≠ "")
        then "redis://:" +:+ password +:+ "@" +:+ host +:+ ":" +:+ port +:+ "/" +:+ database
        else "redis://" +:+ host +:+ ":" +:+ port +:+ "/" +:+ database
      else Engine db +:+ "://" +:+ host +:+ ":" +:+ port +:+ "/" +:+ database), n').

Definition find_db (t : Topology) (id : string) : option Database :=
  snd <$> list_find (λ d, dID d = id) (Databases t).

(** One pass of the loop over the connections; names are ASCII.
    src/internal/topology/compiler.go:120-143 Compiler.resolveReferences.connection *)
Definition resolve_connection (t : Topology) (acc : gmap string string * nat) (c : Connection)
  : gmap string string * nat :=
  if decide (cType c = ConnDependency) then
    match find_db t (TargetID c) with
    | None => acc
    | Some db =>
        let '(url, n) := generateDatabaseURL acc.2 db in
        let envVar := or_else (EnvVarName c) (ToUpper (dName db) +:+ "_URL") in
        (<[envVar := url]> acc.1, n)
    end
  else acc.

Definition image_name (c : Compiler) (name : string) : string :=
  project c +:+ "/" +:+ name +:+ "-" +:+ env c +:+ ":latest".

(** src/internal/topology/compiler.go:119-158 Compiler.resolveReferences *)
Definition resolveReferences (c : Compiler) : Compiler :=
  let t := topology c in
  let '(conns, n) := foldl (resolve_connection t) (connections c, draws c) (Connections t) in
  let imgs := foldl (λ m a, <[aID a := image_name c (aName a)]> m) (images c) (Apps t) in
  {| topology := t; project := project c; env := env c;
     images := foldl (λ m w, <[wID w := image_name c (wName w)]> m) imgs (Workers t);
     connections := conns; draws := n |}.

(** ** Services *)

(** src/internal/topology/compiler.go:297-303 HealthCheck *)
Record HealthCheck := { Test : list string; Interval : string; Timeout : string; Retries : Z }.

(** The fields the generator sets.
    src/internal/topology/compiler.go:234-254 Service *)
Record Service := {
  BuildContext : option (string * string); Image : string; ContainerName : string; Restart : string;
  Ports : list (Z * Z); Expose : list Z; Environment : gmap string string; sVolumes : list string;
  Networks : list string; DependsOn : list string; Labels : gmap string string;
  Health : option HealthCheck; sCommand : string; Limits : option (string * string) }.

(** src/internal/topology/generator.go:515-530 Compiler.getDefaultVersion *)
Definition getDefaultVersion (engine : string) : string :=
  if decide (engine = EnginePostgres) then "16"
  else if decide (engine = EngineMySQL) then "8.0"
  else if decide (engine = EngineMariaDB) then "11"
  else if decide (engine = EngineMongoDB) then "7"
  else if decide (engine = EngineRedis) then "7"
  else "latest".

(** src/internal/topology/generator.go:493-513 Compiler.getDatabaseImage *)
Definition getDatabaseImage (db : Database) : result error string :=
  let version := or_else (dVersion db) (getDefaultVersion (Engine db)) in
  if decide (Engine db = EnginePostgres) then Ok ("postgres:" +:+ version +:+ "-alpine")
  else if decide (Engine db = EngineMySQL) then Ok ("mysql:" +:+ version)
  else if decide (Engine db = EngineMariaDB) then Ok ("mariadb:" +:+ version)
  else if decide (Engine db = EngineMongoDB) then Ok ("mongo:" +:+ version)
  else if decide (Engine db = EngineRedis) then Ok ("redis:" +:+ version +:+ "-alpine")
  else Err (UnsupportedEngine (dName db) (Engine db)).

(** src/internal/topology/generator.go:532-547 Compiler.getDatabaseDataPath *)
Definition getDatabaseDataPath (engine : string) : string :=
  if decide (engine = EnginePostgres) then "/var/lib/postgresql/data"
  else if decide (engine = EngineMySQL) then "/var/lib/mysql"
  else if decide (engine = EngineMariaDB) then "/var/lib/mysql"
  else if decide (engine = EngineMongoDB) then "/data/db"
  else "/data".

(** src/internal/topology/generator.go:549-556 Compiler.findVolume *)
Definition findVolume (t : Topology) (id : string) : option Volume :=
  snd <$> list_find (λ v, vID v = id) (Volumes t).

Definition health5 (test : list string) : option HealthCheck :=
  Some {| Test := test; Interval := "5s"; Timeout := "5s"; Retries := 5 |}.

(** The environment and health check of an engine.
    src/internal/topology/generator.go:116-173 Compiler.generateDatabaseService.engine *)
Definition engine_config (engine username password database : string)
  : gmap string string * option HealthCheck :=
  let with_user (pre : string) (m : gmap string string) : gmap string string :=
    if decide (username ≠ "root")
    then <[pre +:+ "_PASSWORD" := password]> (<[pre +:+ "_USER" := username]> m) else m in
  if decide (engine = EnginePostgres) then
    ({[ "POSTGRES_USER" := username; "POSTGRES_PASSWORD" := password; "POSTGRES_DB" := database ]},
     health5 ["CMD-SHELL"; "pg_isready -U " +:+ username])
  else if decide (engine = EngineMySQL) then
    (with_user "MYSQL" {[ "MYSQL_ROOT_PASSWORD" := password; "MYSQL_DATABASE" := database ]},
     health5 ["CMD"; "mysqladmin"; "ping"; "-h"; "localhost"])
  else if decide (engine = EngineMariaDB) then
    (with_user "MARIADB" {[ "MARIADB_ROOT_PASSWORD" := password; "MARIADB_DATABASE" := database ]},
     health5 ["CMD"; "healthcheck.sh"; "--connect"])
  else if decide (engine = EngineMongoDB) then
    ({[ "MONGO_INITDB_ROOT_USERNAME" := username; "MONGO_INITDB_ROOT_PASSWORD" := password ]},
     health5 ["CMD"; "mongosh"; "--eval"; "db.adminCommand('ping')"])
  else if decide (engine = EngineRedis) then
    (if decide (password ≠ "") then {[ "REDIS_PASSWORD" := password ]} else ∅,
     health5 ["CMD"; "redis-cli"; "ping"])
  else (∅, None).

(** src/internal/topology/generator.go:86-192 Compiler.generateDatabaseService *)
Definition generateDatabaseService (c : Compiler) (n : nat) (db : Database)
  : result error (Service * nat) :=
  image ←! getDatabaseImage db;
  let username := or_else (Username db) "root" in
  let '(password, n') := if decide (Password db = "") then (generatePassword n, S n)
                         else (Password db, n) in
  let database := or_else (DatabaseName db) (dName db) in
  let '(environment, health) := engine_config (Engine db) username password database in
  Ok ({| BuildContext := None; Image := image;
         ContainerName := project c +:+ "-" +:+ dName db; Restart := "unless-stopped";
         Ports := []; Expose := []; Environment := ExtraConfig db ∪ environment;
         sVolumes := [dName db +:+ "_data" +:+ ":" +:+ getDatabaseDataPath (Engine db)];
         Networks := ["default"]; DependsOn := [];
         Labels := {[ "monster.type" := "database"; "monster.engine" := Engine db;
                      "monster.project" := project c; "monster.environment" := env c ]};
         Health := health; sCommand := ""; Limits := None |}, n').

(** *** Paths: [filepath.Join] of relative elements *)

Definition clean_step (acc : list string) (e : string) : list string :=
  if decide (e = "" ∨ e = ".") then acc
  else if decide (e = "..") then
    match last acc with
    | Some l => if decide (l = "..") then acc ++ [e] else take (length acc - 1) acc
    | None => acc ++ [e]
    end
  else acc ++ [e].

Definition JoinRel (dir name : string) : string :=
  or_else (Join (foldl clean_step [] (dir :: Split name "/"%char)) "/") ".".

(** *** Apps and workers *)

Fixpoint trim_set (set l : list ascii) : list ascii :=
  match l with [] => [] | c :: r => if decide (c ∈ set) then trim_set set r else l end.

(** [strings.Trim]. *)
Definition Trim (s cutset : string) : string :=
  let set := bytes cutset in str (reverse (trim_set set (reverse (trim_set set (bytes s))))).

(** The value of a variable, a reference replaced by its connection.
    src/internal/topology/generator.go:220-234 Compiler.generateAppService.env *)
Definition resolve_env (c : Compiler) (v : string) : string :=
  if HasPrefix v "${" && HasSuffix v "}" then default v (connections c !! Trim v "${}") else v.

(** src/internal/topology/generator.go:248-266 Compiler.generateAppService.mount *)
Definition mount_ref (t : Topology) (m : VolumeMount) : option string :=
  vol ← findVolume t (VolumeID m);
  let volRef := (if Temporary vol then "tmpfs" else vName vol) +:+ ":" +:+ mMountPath m in
  Some (if ReadOnly m then volRef +:+ ":ro" else volRef).

(** The databases of the stack that a component depends on.
    src/internal/topology/generator.go:282-292 Compiler.generateAppService.depends *)
Definition depends_on (t : Topology) (id : string) : list string :=
  Connections t ≫= λ cn,
    if decide (cType cn = ConnDependency ∧ SourceID cn = id) then
      dName <$> filter (λ d, dID d = TargetID cn ∧ Managed d = false ∧ External d = false) (Databases t)
    else [].

Definition string_le (s t : string) : Prop := String.leb s t = true.
#[global] Instance string_le_dec : RelDecision string_le.
Proof. unfold string_le. intros s t. apply _. Defined.

(** The variables a dependency injects.
    src/internal/topology/generator.go:236-246 Compiler.generateAppService.inject *)
Definition inject_env (c : Compiler) (id : string) (m : gmap string string) (cn : Connection)
  : gmap string string :=
  if decide (cType cn = ConnDependency ∧ SourceID cn = id ∧ EnvVarName cn ≠ "") then
    match connections c !! EnvVarName cn with
    | Some val => <[EnvVarName cn := val]> m
    | None => m
    end
  else m.

(** src/internal/topology/generator.go:195-317 Compiler.generateAppService *)
Definition generateAppService (c : Compiler) (app : App) : Service :=
  let t := topology c in
  {| BuildContext := Some (JoinRel "apps" (aName app), aDockerfile app);
     Image := default "" (images c !! aID app);
     ContainerName := project c +:+ "-" +:+ aName app; Restart := "unless-stopped";
     Ports := []; Expose := if 0 <? Port app then [Port app] else [];
     Environment := foldl (inject_env c (aID app)) (resolve_env c <$> aEnvVars app) (Connections t);
     sVolumes := omap (mount_ref t) (aVolumeMounts app);
     Networks := ["default"];
     DependsOn := merge_sort string_le (depends_on t (aID app));
     Labels := {[ "monster.type" := "app"; "monster.project" := project c;
                  "monster.environment" := env c; "monster.port" := itoa (Port app) ]};
     Health := if decide (HealthCheckPath app ≠ "") then
         let port := if HealthCheckPort app =? 0 then Port app else HealthCheckPort app in
         Some {| Test := ["CMD"; "curl"; "-f";
                          "http://localhost:" +:+ itoa port +:+ HealthCheckPath app];
                 Interval := "30s"; Timeout := "10s"; Retries := 3 |}
       else None;
     sCommand := "";
     Limits := if (0 <? aMemoryMB app) || (0 <? aCPU app) then
         Some (if 0 <? aMemoryMB app then itoa (aMemoryMB app) +:+ "M" else "",
               if 0 <? aCPU app then itoa (aCPU app) +:+ "m" else "")
       else None |}.

(** src/internal/topology/generator.go:320-394 Compiler.generateWorkerService *)
Definition generateWorkerService (c : Compiler) (w : Worker) : Service :=
  let t := topology c in
  {| BuildContext := Some (JoinRel "workers" (wName w), wDockerfile w);
     Image := default "" (images c !! wID w);
     ContainerName := project c +:+ "-" +:+ wName w; Restart := "unless-stopped";
     Ports := []; Expose := [];
     Environment := resolve_env c <$> wEnvVars w;
     sVolumes := omap (mount_ref t) (wVolumeMounts w);
     Networks := ["default"]; DependsOn := depends_on t (wID w);
     Labels := {[ "monster.type" := "worker"; "monster.project" := project c;
                  "monster.environment" := env c ]};
     Health := None; sCommand := Command w; Limits := None |}.

(** src/internal/topology/generator.go:397-419 Compiler.generateProxyService *)
Definition generateProxyService (c : Compiler) : Service :=
  {| BuildContext := None; Image := "caddy:2-alpine"; ContainerName := project c +:+ "-proxy";
     Restart := "unless-stopped"; Ports := [(80, 80); (443, 443)]; Expose := []; Environment := ∅;
     sVolumes := ["caddy_data:/data"; "caddy_config:/config"; "./Caddyfile:/etc/caddy/Caddyfile:ro"];
     Networks := ["default"]; DependsOn := [];
     Labels := {[ "monster.type" := "proxy"; "monster.project" := project c ]};
     Health := None; sCommand := ""; Limits := None |}.

(** The version and the network are constants; a volume's driver is [local].
    src/internal/topology/compiler.go:224-231 ComposeConfig *)
Record ComposeConfig := { Services : gmap string Service; CVolumes : gset string }.

Definition in_compose (db : Database) : bool := negb (Managed db || External db).

(** The loop over the databases.
    src/internal/topology/generator.go:23-38 Compiler.generateCompose.databases *)
Fixpoint database_services (c : Compiler) (n : nat) (l : list Database) (cc : ComposeConfig)
  : result error (ComposeConfig * nat) :=
  match l with
  | [] => Ok (cc, n)
  | db :: l =>
      if negb (in_compose db) then database_services c n l cc
      else
        sn ←! generateDatabaseService c n db;
        database_services c sn.2 l
          {| Services := <[dName db := sn.1]> (Services cc);
             CVolumes := {[ dName db +:+ "_data" ]} ∪ CVolumes cc |}
  end.

(** src/internal/topology/generator.go:11-83 Compiler.generateCompose *)
Definition generateCompose (c : Compiler) : result error ComposeConfig :=
  let t := topology c in
  dbn ←! database_services c (draws c) (Databases t) {| Services := ∅; CVolumes := ∅ |};
  let s1 := foldl (λ m a, <[aName a := generateAppService c a]> m) (Services dbn.1) (Apps t) in
  let s2 := foldl (λ m w, <[wName w := generateWorkerService c w]> m) s1 (Workers t) in
  let v2 := list_to_set (vName <$> filter (λ v, Temporary v = false) (Volumes t)) ∪ CVolumes dbn.1 in
  Ok (if decide (Domains t = []) then {| Services := s2; CVolumes := v2 |}
      else {| Services := <["proxy" := generateProxyService c]> s2;
              CVolumes := {[ "caddy_data"; "caddy_config" ]} ∪ v2 |}).

(** src/internal/topology/compiler.go:33-51 Compiler.Compile *)
Definition Compile (c : Compiler) : result error ComposeConfig :=
  _ ←! validate (topology c);
  generateCompose (resolveReferences c).

(** ** The other outputs *)

Definition LF : string := str [byte 10].

Definition lines (l : list string) : string := foldr (λ x acc, x +:+ LF +:+ acc) "" l.

(** The block of one domain.
    src/internal/topology/generator.go:432-470 Compiler.GenerateCaddyfile.domain *)
Definition caddy_block (t : Topology) (d : Domain) : string :=
  if decide (TargetAppID d = "") then ""
  else match list_find (λ a, aID a = TargetAppID d) (Apps t) with
       | None => ""
       | Some (_, app) =>
           lines ([FQDN d +:+ " {";
                   "  reverse_proxy " +:+ aName app +:+ ":" +:+ itoa (if Port app =? 0 then 3000 else Port app);
                   "  encode gzip zstd"]
                  ++ (if SSLEnabled d && bool_decide (SSLMODE d = "auto") then ["  tls internal"] else [])
                  ++ ["}"; ""])
       end.

(** src/internal/topology/generator.go:422-473 Compiler.GenerateCaddyfile *)
Definition GenerateCaddyfile (t : Topology) : string :=
  lines ["{"; "  email admin@deploy.monster";
         "  acme_ca https://acme-v02.api.letsencrypt.org/directory"; "}"; ""]
  +:+ foldr (λ d acc, caddy_block t d +:+ acc) "" (Domains t).

(** [order] is the iteration order of the connections.
    src/internal/topology/generator.go:476-489 Compiler.GenerateEnvFile *)
Definition GenerateEnvFile (c : Compiler) (order : list (string * string)) : string :=
  lines ["# Auto-generated environment file"; "# Project: " +:+ project c;
         "# Environment: " +:+ env c; ""]
  +:+ lines ((λ kv, fst kv +:+ "=" +:+ snd kv) <$> order).

End Compile.

(** ** Validation is exact *)

Lemma check_names_spec err seen l seen' :
  check_names err seen l = Ok seen' ↔
  NoDup l ∧ (∀ n, n ∈ l → n ∉ seen) ∧ seen' = list_to_set l ∪ seen.
Proof.
  revert seen. induction l as [|n l IH]; intros seen; cbn [check_names].
  - split; [intros [= <-]|intros (_ & _ & ->)].
    + split_and!; [constructor|set_solver|set_solver].
    + f_equal. set_solver.
  - case_decide as Hn.
    + split; [done|]. intros (_ & H & _). exfalso. apply (H n); [left|done].
    + rewrite IH, NoDup_cons. split.
      * intros (Hd & Hs & ->). split_and!; [|done| |set_solver].
        -- intros Hin. apply (Hs n Hin). set_solver.
        -- intros m [->|Hm]%elem_of_cons; [done|]. specialize (Hs m Hm). set_solver.
      * intros ((Hnl & Hd) & Hs & ->). split_and!; [done| |set_solver].
        intros m Hm. specialize (Hs m). set_solver.
Qed.

Definition open_ports (l : list App) : list Z := Port <$> filter (λ a, 0 < Port a) l.

Lemma check_ports_spec ports l :
  check_ports ports l = Ok tt ↔ NoDup (open_ports l) ∧ ∀ p, p ∈ open_ports l → ports !! p = None.
Proof.
  unfold open_ports. revert ports. induction l as [|a l IH]; intros ports; cbn [check_ports].
  - split; [|done]. intros _. split; [constructor|set_solver].
  - rewrite filter_cons. destruct (0 <? Port a) eqn:Ep; bools;
      [rewrite decide_True by done|rewrite decide_False by lia; apply IH].
    rewrite fmap_cons, NoDup_cons. destruct (ports !! Port a) eqn:El.
    + split; [done|]. intros [_ H]. specialize (H (Port a) ltac:(left)). congruence.
    + rewrite IH. split.
      * intros [Hd Hp]. split; [split; [|done]|].
        -- intros Hin. specialize (Hp _ Hin). by rewrite lookup_insert_eq in Hp.
        -- intros p [->|Hin]%elem_of_cons; [done|]. specialize (Hp p Hin).
           rewrite lookup_insert in Hp. by case_decide.
      * intros [[Hn Hd] Hp]. split; [done|]. intros p Hin. rewrite lookup_insert_ne; [|congruence].
        apply Hp. by right.
Qed.

Lemma first_error_spec {A} (f : A → option error) l :
  first_error f l = Ok tt ↔ ∀ x, x ∈ l → f x = None.
Proof.
  induction l as [|x l IH]; cbn [first_error]; [split; [set_solver|done]|].
  destruct (f x) eqn:E.
  - split; [done|]. intros H. specialize (H x ltac:(left)). congruence.
  - rewrite IH. split; [|set_solver]. intros H y [->|Hy]%elem_of_cons; auto.
Qed.

Lemma exists_id {A} (f : A → string) id (l : list A) :
  existsb (λ a, bool_decide (f a = id)) l = true ↔ id ∈ f <$> l.
Proof.
  rewrite existsb_exists, list_elem_of_fmap. setoid_rewrite bool_decide_eq_true.
  setoid_rewrite <-list_elem_of_In. naive_solver.
Qed.

(** The identifiers of every component. *)
Definition component_ids (t : Topology) : list string :=
  (aID <$> Apps t) ++ (dID <$> Databases t) ++ (vID <$> Volumes t) ++ (doID <$> Domains t)
  ++ (wID <$> Workers t).

Lemma componentExists_spec t id : componentExists t id = true ↔ id ∈ component_ids t.
Proof.
  unfold componentExists, appExists, component_ids. rewrite !orb_true_iff, !exists_id, !elem_of_app. tauto.
Qed.

Lemma check_mounts_spec t a :
  check_mounts t a = None ↔ ∀ m, m ∈ aVolumeMounts a → VolumeID m ∈ vID <$> Volumes t.
Proof.
  unfold check_mounts. destruct (first_error _ (aVolumeMounts a)) as [[]|e] eqn:E.
  - rewrite first_error_spec in E. split; [|done]. intros _ m Hm. specialize (E m Hm). cbn in E.
    apply exists_id. unfold volumeExists in E. by destruct (existsb _ _).
  - split; [done|]. intros H. exfalso. assert (first_error (λ m, if negb (volumeExists t (VolumeID m))
        then Some (MountVolume (aName a) (VolumeID m)) else None) (aVolumeMounts a) = Ok tt); [|congruence].
    apply first_error_spec. intros m Hm. specialize (H m Hm). apply exists_id in H.
    unfold volumeExists. by rewrite H.
Qed.

(** What a valid topology is. *)
Record valid (t : Topology) : Prop := {
  v_names : NoDup ((aName <$> Apps t) ++ (dName <$> Databases t) ++ (vName <$> Volumes t));
  v_ports : NoDup (open_ports (Apps t));
  v_domains : ∀ d, d ∈ Domains t → TargetAppID d = "" ∨ TargetAppID d ∈ aID <$> Apps t;
  v_mounts : ∀ a m, a ∈ Apps t → m ∈ aVolumeMounts a → VolumeID m ∈ vID <$> Volumes t;
  v_conns : ∀ c, c ∈ Connections t → SourceID c ∈ component_ids t ∧ TargetID c ∈ component_ids t }.

Lemma check_domain_spec t d :
  check_domain t d = None ↔ TargetAppID d = "" ∨ TargetAppID d ∈ aID <$> Apps t.
Proof.
  unfold check_domain. rewrite <-exists_id. fold (appExists t (TargetAppID d)).
  case_decide as E; [|tauto]. destruct (appExists t (TargetAppID d)); cbn; naive_solver.
Qed.

Lemma check_connection_spec t c :
  check_connection t c = None ↔ SourceID c ∈ component_ids t ∧ TargetID c ∈ component_ids t.
Proof.
  unfold check_connection. rewrite <-!componentExists_spec.
  destruct (componentExists t (SourceID c)), (componentExists t (TargetID c)); cbn; naive_solver.
Qed.

(** The name checks together. *)
Lemma names_spec t :
  (∃ s1 s2 s3, check_names DuplicateApp ∅ (aName <$> Apps t) = Ok s1 ∧
     check_names DuplicateDatabase s1 (dName <$> Databases t) = Ok s2 ∧
     check_names DuplicateVolume s2 (vName <$> Volumes t) = Ok s3) ↔
  NoDup ((aName <$> Apps t) ++ (dName <$> Databases t) ++ (vName <$> Volumes t)).
Proof.
  rewrite !NoDup_app. setoid_rewrite check_names_spec. split.
  - intros (s1 & s2 & s3 & (N1 & _ & ->) & (N2 & D2 & ->) & (N3 & D3 & _)). split_and!; try done.
    + intros x Hx Hin. apply elem_of_app in Hin as [Hin|Hin].
      * specialize (D2 x Hin). rewrite elem_of_union, elem_of_list_to_set in D2. tauto.
      * specialize (D3 x Hin). rewrite !elem_of_union, !elem_of_list_to_set in D3. tauto.
    + intros x Hx Hin. specialize (D3 x Hin). rewrite !elem_of_union, !elem_of_list_to_set in D3. tauto.
  - intros (N1 & D1 & N2 & D2 & N3). eexists _, _, _. split_and!; try done.
    all: intros n Hn; rewrite ?elem_of_union, ?elem_of_list_to_set, elem_of_empty;
      pose proof (D1 n) as D1n; pose proof (D2 n) as D2n; rewrite elem_of_app in D1n; tauto.
Qed.

Lemma validate_spec t : validate t = Ok tt ↔ valid t.
Proof.
  unfold validate. split.
  - intros H. destruct (check_names DuplicateApp _ _) as [s1|] eqn:E1; [|done].
    destruct (check_names DuplicateDatabase _ _) as [s2|] eqn:E2; [|done].
    destruct (check_names DuplicateVolume _ _) as [s3|] eqn:E3; [|done].
    destruct (check_ports _ _) as [[]|] eqn:E4; [|done]. destruct (first_error (check_domain t) _) as [[]|] eqn:E5; [|done].
    destruct (first_error (check_mounts t) _) as [[]|] eqn:E6; [|done].
    apply check_ports_spec in E4 as [E4 _]. rewrite first_error_spec in E5. rewrite first_error_spec in E6.
    rewrite first_error_spec in H. split.
    + apply names_spec. eauto 10.
    + done.
    + intros d Hd. by apply check_domain_spec, E5.
    + intros a m Ha. by apply check_mounts_spec, E6.
    + intros c Hc. by apply check_connection_spec, H.
  - intros [Hn Hp Hd Hm Hc]. apply names_spec in Hn as (s1 & s2 & s3 & -> & -> & ->).
    rewrite (proj2 (check_ports_spec ∅ (Apps t))) by done.
    rewrite (proj2 (first_error_spec (check_domain t) (Domains t)));
      [|intros d Hin; by apply check_domain_spec, Hd].
    rewrite (proj2 (first_error_spec (check_mounts t) (Apps t)));
      [|intros a Hin; apply check_mounts_spec; intros m; by apply Hm].
    apply first_error_spec. intros c Hin. by apply check_connection_spec, Hc.
Qed.

(** Validation is sound and complete: it accepts a topology exactly when the
    names of apps, databases and volumes are all different, no two apps share a
    port, and every domain target, volume mount and connection end exists. *)
Theorem validate_exact t :
  validate t = Ok tt ↔
  NoDup ((aName <$> Apps t) ++ (dName <$> Databases t) ++ (vName <$> Volumes t)) ∧
  NoDup (open_ports (Apps t)) ∧
  (∀ d, d ∈ Domains t → TargetAppID d = "" ∨ TargetAppID d ∈ aID <$> Apps t) ∧
  (∀ a m, a ∈ Apps t → m ∈ aVolumeMounts a → VolumeID m ∈ vID <$> Volumes t) ∧
  (∀ c, c ∈ Connections t → SourceID c ∈ component_ids t ∧ TargetID c ∈ component_ids t).
Proof. rewrite validate_spec. split; [by intros []|]. intros (? & ? & ? & ? & ?). by split. Qed.

(** ** The generated file is closed *)

Section Generated.
Variable rnd : nat → nat → option nat.

(** Folding inserts into a map: its keys and what holds of its values. *)
Lemma foldl_insert_dom {A} (f : A → string) (g : A → Service) l (m : gmap string Service) :
  dom (foldl (λ m x, <[f x := g x]> m) m l) = list_to_set (f <$> l) ∪ dom m.
Proof.
  revert m. induction l as [|x l IH]; intros m; cbn [foldl]; [set_solver|].
  rewrite IH, dom_insert_L. set_solver.
Qed.

Lemma foldl_insert_Forall {A} (P : Service → Prop) (f : A → string) (g : A → Service) l
    (m : gmap string Service) :
  (∀ x, x ∈ l → P (g x)) → (∀ k s, m !! k = Some s → P s) →
  ∀ k s, foldl (λ m x, <[f x := g x]> m) m l !! k = Some s → P s.
Proof.
  revert m. induction l as [|x l IH]; intros m Hl Hm; cbn [foldl]; [done|].
  apply IH; [set_solver|]. intros k s. rewrite lookup_insert. case_decide; [|apply Hm].
  intros [= <-]. apply Hl. left.
Qed.

(** A service that only names services in [N] and volumes in [V]. *)
Definition closed_service (N V : gset string) (s : Service) : Prop :=
  (∀ d, d ∈ DependsOn s → d ∈ N) ∧
  (∀ v, v ∈ sVolumes s → ∃ src path, v = (src +:+ ":" +:+ path) ∧
     (src ∈ V ∨ src = "tmpfs" ∨ src = "./Caddyfile")).

Definition compose_dbs (t : Topology) : list Database := filter (λ d, in_compose d = true) (Databases t).

Lemma database_service_closed c n db sn N V :
  generateDatabaseService rnd c n db = Ok sn → (dName db +:+ "_data") ∈ V → closed_service N V sn.1.
Proof.
  unfold generateDatabaseService. intros H Hv. destruct (getDatabaseImage db); [|done].
  destruct (decide (Password db = "")); destruct (engine_config _ _ _ _); injection H as <-;
    (split; cbn; [set_solver|]); intros v ->%list_elem_of_singleton;
    eexists (dName db +:+ "_data"), _; (split; [by rewrite str_app_assoc|by left]).
Qed.

Lemma database_services_spec c n l cc cc' n' N V :
  database_services rnd c n l cc = Ok (cc', n') →
  let dbs := filter (λ d, in_compose d = true) l in
  dom (Services cc') = list_to_set (dName <$> dbs) ∪ dom (Services cc) ∧
  CVolumes cc' = list_to_set ((λ d, dName d +:+ "_data") <$> dbs) ∪ CVolumes cc ∧
  ((∀ d, d ∈ dbs → (dName d +:+ "_data") ∈ V) →
   (∀ k s, Services cc !! k = Some s → closed_service N V s) →
   ∀ k s, Services cc' !! k = Some s → closed_service N V s).
Proof.
  revert n cc. induction l as [|db l IH]; intros n cc; cbn [database_services].
  { intros [= <- <-]. cbn. split_and!; [set_solver|set_solver|auto]. }
  rewrite filter_cons. destruct (in_compose db) eqn:Ei; cbn [negb].
  - rewrite decide_True by done. destruct (generateDatabaseService rnd c n db) as [sn|] eqn:Eg; [|done].
    intros (Hd & Hv & Hc)%IH. cbn [Services CVolumes] in *. split_and!.
    + rewrite Hd, dom_insert_L, fmap_cons, list_to_set_cons. set_solver.
    + rewrite Hv, fmap_cons, list_to_set_cons. set_solver.
    + intros HV Hcc. apply Hc; [set_solver|]. intros k s. rewrite lookup_insert. case_decide; [|apply Hcc].
      intros [= <-]. eapply database_service_closed; [done|]. apply HV. left.
  - rewrite decide_False by done. apply IH.
Qed.

Lemma depends_on_compose t id d : d ∈ depends_on t id → d ∈ dName <$> compose_dbs t.
Proof.
  unfold depends_on, compose_dbs. rewrite list_elem_of_bind. intros (cn & Hd & _).
  case_decide; [|by apply elem_of_nil in Hd]. apply list_elem_of_fmap in Hd as (db & -> & Hdb).
  apply list_elem_of_fmap. exists db. split; [done|]. apply list_elem_of_filter in Hdb as [(_ & Hm & He) Hin].
  apply list_elem_of_filter. split; [|done]. unfold in_compose. by rewrite Hm, He.
Qed.

Lemma mount_ref_closed t m v (V : gset string) :
  (∀ vol, vol ∈ Volumes t → Temporary vol = false → vName vol ∈ V) →
  mount_ref t m = Some v →
  ∃ src path, v = (src +:+ ":" +:+ path) ∧ (src ∈ V ∨ src = "tmpfs" ∨ src = "./Caddyfile").
Proof.
  intros HV H. unfold mount_ref, findVolume in H.
  destruct (list_find (λ v, vID v = VolumeID m) (Volumes t)) as [[i vol]|] eqn:E; cbn in H; [|done].
  apply list_find_Some in E as (Hl & _ & _). apply list_elem_of_lookup_2 in Hl.
  specialize (HV vol Hl). set (src := if Temporary vol then "tmpfs" else vName vol) in H.
  exists src. assert (Hsrc : src ∈ V ∨ src = "tmpfs") by (unfold src; destruct (Temporary vol); auto).
  destruct (ReadOnly m); injection H as <-.
  - exists (mMountPath m +:+ ":ro"). split; [by rewrite !str_app_assoc|tauto].
  - exists (mMountPath m). split; [done|tauto].
Qed.

Lemma proxy_closed c N V :
  "caddy_data" ∈ V → "caddy_config" ∈ V → closed_service N V (generateProxyService c).
Proof.
  intros H1 H2. split; cbn; [set_solver|]. intros v Hv.
  repeat (apply elem_of_cons in Hv as [->|Hv]); [| | |by apply elem_of_nil in Hv].
  - exists "caddy_data", "/data". auto.
  - exists "caddy_config", "/config". auto.
  - exists "./Caddyfile", "/etc/caddy/Caddyfile:ro". auto.
Qed.

Lemma app_closed c N V a :
  (∀ d, d ∈ dName <$> compose_dbs (topology c) → d ∈ N) →
  (∀ vol, vol ∈ Volumes (topology c) → Temporary vol = false → vName vol ∈ V) →
  closed_service N V (generateAppService c a).
Proof.
  intros HN HV. split; cbn.
  - intros d Hd. rewrite merge_sort_Permutation in Hd. by apply HN, (depends_on_compose _ (aID a)).
  - intros v (m & _ & Hm)%list_elem_of_omap. by eapply mount_ref_closed.
Qed.

Lemma worker_closed c N V w :
  (∀ d, d ∈ dName <$> compose_dbs (topology c) → d ∈ N) →
  (∀ vol, vol ∈ Volumes (topology c) → Temporary vol = false → vName vol ∈ V) →
  closed_service N V (generateWorkerService c w).
Proof.
  intros HN HV. split; cbn.
  - intros d Hd. by apply HN, (depends_on_compose _ (wID w)).
  - intros v (m & _ & Hm)%list_elem_of_omap. by eapply mount_ref_closed.
Qed.

Lemma generateCompose_closed c cc :
  generateCompose rnd c = Ok cc →
  (∀ k s, Services cc !! k = Some s → closed_service (dom (Services cc)) (CVolumes cc) s) ∧
  dom (Services cc) = list_to_set ((dName <$> compose_dbs (topology c)) ++ (aName <$> Apps (topology c))
    ++ (wName <$> Workers (topology c)) ++ (if decide (Domains (topology c) = []) then [] else ["proxy"])).
Proof.
  intros H. set (t := topology c) in *. unfold generateCompose in H. fold t in H.
  destruct (database_services rnd c (draws c) (Databases t) _) as [[cc0 n0]|] eqn:E; [|done]. cbn [fst] in H.
  pose proof (database_services_spec _ _ _ _ _ _ (dom (Services cc)) (CVolumes cc) E) as (Hd & Hv & Hcl).
  cbn [Services CVolumes] in Hd, Hv, Hcl. fold (compose_dbs t) in Hd, Hv, Hcl.
  set (s2 := foldl (λ m w, <[wName w:=generateWorkerService c w]> m) _ (Workers t)) in H.
  assert (Hs2 : dom s2 = list_to_set ((dName <$> compose_dbs t) ++ (aName <$> Apps t) ++ (wName <$> Workers t))).
  { unfold s2. rewrite !foldl_insert_dom, Hd, !list_to_set_app_L. clear. set_solver. }
  assert (HN : dom (Services cc) = list_to_set ((dName <$> compose_dbs t) ++ (aName <$> Apps t)
    ++ (wName <$> Workers t) ++ (if decide (Domains t = []) then [] else ["proxy"]))).
  { injection H as <-. case_decide; cbn [Services]; rewrite ?dom_insert_L, Hs2, !list_to_set_app_L; clear; set_solver. }
  split; [|done].
  assert (Hdbs : ∀ d, d ∈ dName <$> compose_dbs t → d ∈ dom (Services cc)).
  { intros d Hin. rewrite HN. apply elem_of_list_to_set, elem_of_app. by left. }
  assert (Hvols : ∀ x, x ∈ list_to_set (vName <$> filter (λ v, Temporary v = false) (Volumes t))
                         ∪ CVolumes cc0 → x ∈ CVolumes cc).
  { injection H as <-. intros x Hx. case_decide; cbn [CVolumes]; [done|]. by apply elem_of_union_r. }
  assert (Hvol : ∀ vol, vol ∈ Volumes t → Temporary vol = false → vName vol ∈ CVolumes cc).
  { intros vol Hin Ht. apply Hvols, elem_of_union_l, elem_of_list_to_set, list_elem_of_fmap.
    exists vol. split; [done|]. by apply list_elem_of_filter. }
  assert (Hs2c : ∀ k s, s2 !! k = Some s → closed_service (dom (Services cc)) (CVolumes cc) s).
  { unfold s2. apply foldl_insert_Forall; [intros; by apply worker_closed|].
    apply foldl_insert_Forall; [intros; by apply app_closed|]. apply Hcl; [|done].
    intros d Hin. apply Hvols, elem_of_union_r. rewrite Hv. apply elem_of_union_l, elem_of_list_to_set, list_elem_of_fmap. eauto. }
  assert (Hshape : Services cc = if decide (Domains t = []) then s2 else <["proxy" := generateProxyService c]> s2).
  { injection H as <-. by case_decide. }
  intros k s Hk. rewrite Hshape in Hk. destruct (decide (Domains t = [])) as [Hdom|Hdom]; [by apply (Hs2c k)|].
  rewrite lookup_insert in Hk. case_decide; [|by apply (Hs2c k)]. injection Hk as <-.
  injection H as <-. apply proxy_closed; cbn [CVolumes]; apply elem_of_union_l; clear; set_solver.
Qed.

End Generated.

Lemma resolve_topology rnd c : topology (resolveReferences rnd c) = topology c.
Proof. unfold resolveReferences. by destruct (foldl _ _ _). Qed.

(** A topology that compiles is valid, and the generated file is closed: it has
    a service for each database of the stack, each app, each worker and, when there
    are domains, the proxy, and no other; services only depend on services of the
    file and only mount volumes it declares, temporary ones or the Caddyfile. *)
Theorem compile_closed rnd c cc :
  Compile rnd c = Ok cc →
  valid (topology c) ∧
  (∀ k s, Services cc !! k = Some s → closed_service (dom (Services cc)) (CVolumes cc) s) ∧
  dom (Services cc) = list_to_set ((dName <$> compose_dbs (topology c)) ++ (aName <$> Apps (topology c))
    ++ (wName <$> Workers (topology c)) ++ (if decide (Domains (topology c) = []) then [] else ["proxy"])).
Proof.
  unfold Compile. intros H. destruct (validate (topology c)) as [[]|] eqn:Ev; [|done].
  split; [by apply validate_spec|]. rewrite <-(resolve_topology rnd c). by apply (generateCompose_closed rnd).
Qed.

(** ** Credentials *)

Definition postgres (id name password url : string) : Database :=
  {| dID := id; dName := name; Engine := EnginePostgres; dVersion := ""; Managed := false;
     External := false; ConnURL := url; Username := ""; Password := password; DatabaseName := "";
     ExtraConfig := ∅ |}.
Definition app (id name : string) : App :=
  {| aID := id; aName := name; aDockerfile := ""; Port := 0; aMemoryMB := 0; aCPU := 0;
     aEnvVars := ∅; aVolumeMounts := []; HealthCheckPath := ""; HealthCheckPort := 0 |}.
Definition depends (id src tgt var : string) : Connection :=
  {| cID := id; cType := ConnDependency; SourceID := src; TargetID := tgt; EnvVarName := var |}.

(** What an app sees under a variable that one of its dependencies injects. *)
Lemma injected_env c id v cs m url :
  connections c !! v = Some url →
  (∃ cn, cn ∈ cs ∧ cType cn = ConnDependency ∧ SourceID cn = id ∧ EnvVarName cn = v ∧ v ≠ "") →
  foldl (inject_env c id) m cs !! v = Some url.
Proof.
  intros Hu.
  assert (Hstep : ∀ m cn, m !! v = Some url → inject_env c id m cn !! v = Some url).
  { intros m' cn Hm. unfold inject_env. case_decide; [|done].
    destruct (connections c !! EnvVarName cn) as [u|] eqn:Eu; [|done]. rewrite lookup_insert.
    case_decide as E; [rewrite E in Eu; congruence|done]. }
  assert (Hkeep : ∀ cs m, m !! v = Some url → foldl (inject_env c id) m cs !! v = Some url).
  { induction cs0 as [|cn cs0 IH]; intros m' Hm; [done|]. by apply IH, Hstep. }
  revert m. induction cs as [|cn cs IH]; intros m (cn0 & Hin & Ht & Hs & Hv & Hne); [by apply elem_of_nil in Hin|].
  apply elem_of_cons in Hin as [->|Hin]; [|by apply IH; exists cn0].
  apply (Hkeep cs (inject_env c id m cn)). unfold inject_env. rewrite decide_True by (by rewrite Hv). rewrite Hv, Hu. apply lookup_insert_eq.
Qed.

(** Connection variables are not kept per app: when two dependencies of
    different apps use the same variable name for different databases, both apps
    are given the database of the later dependency. *)
Theorem shared_variable_gets_last_database rnd c a1 a2 db1 db2 i1 i2 v :
  Databases (topology c) = [db1; db2] → dID db1 ≠ dID db2 → ConnURL db2 ≠ "" → v ≠ "" →
  Connections (topology c) = [depends i1 (aID a1) (dID db1) v; depends i2 (aID a2) (dID db2) v] →
  let c' := resolveReferences rnd c in
  Environment (generateAppService c' a1) !! v = Some (ConnURL db2) ∧
  Environment (generateAppService c' a2) !! v = Some (ConnURL db2).
Proof.
  intros Hd Hne Hu Hv Hc c'.
  assert (Hconn : connections c' !! v = Some (ConnURL db2)).
  { unfold c', resolveReferences. rewrite Hc. cbn [foldl].
    assert (Hf2 : find_db (topology c) (dID db2) = Some db2).
    { unfold find_db. rewrite Hd. cbn. rewrite decide_False by done. by rewrite decide_True by done. }
    destruct (resolve_connection rnd (topology c) (connections c, draws c) _) as [m n].
    unfold resolve_connection. cbn [cType depends TargetID EnvVarName]. rewrite decide_True by done.
    rewrite Hf2. unfold generateDatabaseURL. rewrite decide_True by done. cbn [fst snd].
    unfold or_else. rewrite decide_False by done. cbn [connections]. apply lookup_insert_eq. }
  assert (Htop : Connections (topology c') = Connections (topology c)) by (unfold c'; by rewrite resolve_topology).
  split; cbn [Environment generateAppService]; rewrite Htop, Hc; apply injected_env; try done;
    [exists (depends i1 (aID a1) (dID db1) v)|exists (depends i2 (aID a2) (dID db2) v)];
    (split; [repeat (left || right)|done]).
Qed.

Definition two_databases : Compiler :=
  NewCompiler {| Apps := [app "a1" "shop"; app "a2" "blog"];
                 Databases := [postgres "d1" "shopdb" "" "postgres://one"; postgres "d2" "blogdb" "" "postgres://two"];
                 Domains := []; Volumes := []; Workers := [];
                 Connections := [depends "c1" "a1" "d1" "DATABASE_URL"; depends "c2" "a2" "d2" "DATABASE_URL"] |}
    "proj" "prod".

Lemma shared_variable_gets_last_database_witness :
  Environment (generateAppService (resolveReferences (λ _ _, None) two_databases) (app "a1" "shop"))
    !! "DATABASE_URL" = Some "postgres://two".
Proof.
  apply (shared_variable_gets_last_database (λ _ _, None) two_databases (app "a1" "shop") (app "a2" "blog")
           (postgres "d1" "shopdb" "" "postgres://one") (postgres "d2" "blogdb" "" "postgres://two") "c1" "c2"
           "DATABASE_URL"); first [reflexivity|discriminate].
Defined.

Definition no_password : Topology :=
  {| Apps := [app "a1" "shop"]; Databases := [postgres "d1" "shopdb" "" ""]; Domains := []; Volumes := [];
     Workers := []; Connections := [depends "c1" "a1" "d1" "DATABASE_URL"] |}.

(** A password that is not given is generated twice: the app is told the first
    one drawn, the database container is started with the second. *)
Theorem generated_password_drawn_twice rnd :
  match Compile rnd (NewCompiler no_password "proj" "prod") with
  | Ok cc =>
      (Services cc !! "shop" ≫= λ s, Environment s !! "DATABASE_URL") =
        Some ("postgresql://root:" +:+ generatePassword rnd 0 +:+ "@shopdb:5432/shopdb") ∧
      (Services cc !! "shopdb" ≫= λ s, Environment s !! "POSTGRES_PASSWORD") =
        Some (generatePassword rnd 1)
  | Err _ => False
  end.
Proof. vm_compute. split; reflexivity. Qed.

Lemma compile_closed_witness :
  ∃ cc, Compile (λ _ _, None) two_databases = Ok cc ∧ valid (topology two_databases).
Proof.
  destruct (Compile (λ _ _, None) two_databases) as [cc|e] eqn:E; [|exfalso; revert E; vm_compute; discriminate].
  exists cc. split; [reflexivity|]. exact (proj1 (compile_closed (λ _ _, None) two_databases cc E)).
Defined.

End Topology.
